(* ===== verification/_CoqProject ===== *)
-Q . S2P
Prelude.v
SecurityPolicy.v
CanonicalEncoding.v
Selection.v
ConsensusTypes.v
QuorumValidation.v
EpochAuthority.v
PlatformClaims.v
EpochManager.v
EpochInvariants.v
EpochTheorems.v
Genesis.v
GenesisTheorems.v
EligibilityLedger.v
EligibilityFacts.v
EligibilityTheorems.v
DurableWrite.v
Json.v
EligibilityStore.v
EligibilityService.v
TestCodec.v
EligibilityServiceTheorems.v
IpamAddress.v
FileStorage.v
Ipam.v
IpamInvariants.v
IpamBackbone.v
IpamPersistence.v
ConsensusRecords.v
HotStuff.v
HotStuffInvariants.v
HotStuffRuns.v
HotStuffSafety.v
Testbed.v
ConsensusTheorems.v
AuthorityTheorems.v
IpamTheorems.v
FileConsensusStore.v
StoreTheorems.v
TreeTypes.v
LinkToken.v
TreeRules.v
TreeOps.v
TreeValidation.v
TreeCodec.v
TreeRoundTrip.v
TreeFacts.v
TreeInvariants.v
TreeAuthority.v
TreeReplay.v
TreeAddresses.v
TreeTheorems.v
TreeRole.v
TreePool.v
TreeMerge.v
TreeMergeFacts.v
TreeMergeTheorems.v
TreeMergeBody.v
TreeLog.v
TreeLogFacts.v
TreeLogTheorems.v
TreeMergeCommitTheorems.v
NodeFiles.v
ReleaseApproval.v
PermissionTree.v
TreeReplication.v
Sync.v
SyncTheorems.v
SyncWitnesses.v
UpgradeProgress.v
ReleaseChain.v
ReleaseTheorems.v
UpgradeTheorems.v
TreeConsensus.v
UpgradeService.v
UpgradeServiceTheorems.v
PermissionTreeTheorems.v
TreeConsensusFacts.v
TreeConsensusTheorems.v
TreeConsensusWitnesses.v
