(* ===== verification/Prelude.v ===== *)
(** * Lemonade Nexus: a verification development

    Lemonade Nexus is a self-hosted mesh VPN whose servers agree, epoch by
    epoch, on who holds authority, keep one permission tree of users, groups and
    devices, and install new releases one server at a time. This development
    models the C++ server under [src/projects/LemonadeNexus] (below, paths such
    as [Security/Consensus] are relative to its [src] and
    [include/LemonadeNexus]).

    ** The program's parts and how they interact

    - The Tier 1 members of an epoch run chained HotStuff
      ([Security/Consensus]). A replica ([HotStuffService]) receives proposals,
      votes and timeouts; it validates certificates against the epoch's frozen
      membership ([QuorumValidation]), follows a deterministic leader order
      ([LeaderSelection]) and a timer ([Pacemaker]), and stores its safety state
      before a vote leaves the node ([ConsensusStore], over
      [Security/DurableWrite]).
    - Epoch one is founded by [Genesis/GenesisService]. Members observe
      candidates ([Eligibility/]) with the verdicts of attestation; the frozen
      pool they agree on is what [Epoch/EpochManager] selects the next epoch
      from. The hand-over is committed by consensus; a client that only knows
      the Genesis key walks the chain of hand-overs ([Epoch/AuthorityChain]).
    - The permission tree ([Tree/]) changes by signed operations. A server that
      holds the tree ([TreeRole]) pools them ([TreeOpPool]), consensus orders
      blocks of them ([TreeConsensus]), the blocks go to a log on disk
      ([TreeLog]) and to the served tree ([PermissionTreeService]); other
      servers take log entries with their evidence ([TreeReplication]). A
      network that had one tree per server first merges them ([TreeMerge]).
    - Everything else that servers share is a replica of origin-sequenced
      entries ([Sync/]).
    - A release is approved by a signed document
      ([Attestation/ReleaseApproval]); a server adopts only newer ones
      ([ReleaseChain]). The rollout is a chain of records that consensus
      finalizes ([Upgrade/UpgradeProgress]); [Upgrade/UpgradeService] witnesses,
      proposes and votes, and tells the updater when to restart.
    - The address manager ([IPAM/IPAMService]) hands out addresses and keeps its
      records in signed envelopes of [Storage/FileStorageService].
    - Every signed or hashed object goes through [Security/CanonicalEncoding].

    ** The files

    Shared: Prelude (machine-width arithmetic, byte strings, record update, the
    [nexus] hint database, tactics, list lemmas), SecurityPolicy
    ([Policy/SecurityConstants.hpp], [SecurityTypes.hpp]), CanonicalEncoding
    (with the class [Sodium]), Json (documents and base64), PlatformClaims
    (claims, verdicts and the Tier 1 policy), DurableWrite ([DurableWrite.cpp],
    the POSIX branch, on a disk with an outcome for every system call and the
    set of directories a crash may leave), FileStorage and NodeFiles
    ([FileStorageService.cpp]).

    Consensus: Selection ([LeaderSelection.cpp], [Pacemaker.cpp],
    [Tier1Set.cpp], [Tier1Selector.cpp]), ConsensusTypes (messages, encoders,
    digests, and [IConsensusStore] as a class with its laws as a second one),
    QuorumValidation ([QuorumValidation.cpp], [CommitProof.cpp]), HotStuff
    ([HotStuffService.cpp], every method under its own name; the record
    [HotStuffService] has the members of the C++ class), HotStuffInvariants (what
    the methods preserve), HotStuffRuns (runs with crashes, the abstract voter
    [VoteLog], view synchronization), HotStuffSafety (a committee with faulty
    members, the parent walks), ConsensusRecords and FileConsensusStore (the
    records on disk, the instance of the store's class), Testbed (a committee of
    four, and the run in which the commit rule forks), ConsensusTheorems,
    StoreTheorems.

    Authority: EpochAuthority ([NextEpochPlan.cpp], [BootstrapCertificate.cpp],
    [AuthorityChain.cpp], [Tier1Membership.cpp]), EpochManager, EpochInvariants,
    EpochTheorems, Genesis, GenesisTheorems, EligibilityLedger, EligibilityFacts,
    EligibilityTheorems, EligibilityStore, EligibilityService,
    EligibilityServiceTheorems, AuthorityTheorems.

    Tree: TreeTypes, LinkToken ([Auth/LinkTokenLedger.cpp]), TreeRules, TreeOps,
    TreeValidation ([TreeOps.cpp] and [TreeChain.cpp]), TreeCodec, TreeRoundTrip,
    TreeFacts, TreeInvariants, TreeAuthority, TreeReplay, TreeAddresses,
    TreeTheorems; TreeRole, TreePool; TreeMerge, TreeMergeFacts,
    TreeMergeTheorems, TreeMergeBody, TreeMergeCommitTheorems; TreeLog,
    TreeLogFacts, TreeLogTheorems; PermissionTree
    ([PermissionTreeService.cpp] over the class [TreeStorage]),
    PermissionTreeTheorems; TreeReplication; TreeConsensus, TreeConsensusFacts,
    TreeConsensusTheorems, TreeConsensusWitnesses.

    Replicas: Sync ([OriginReplica.cpp], [EntryChunks.cpp], and of
    [GossipService.cpp] the answer to a catch-up request), SyncTheorems,
    SyncWitnesses.

    Releases: ReleaseApproval ([ReleaseApproval.cpp],
    [ReleaseBundleGenerator.cpp]), ReleaseChain ([ReleaseChain.cpp] and the
    release guard of [RolloutProof.cpp]), ReleaseTheorems; UpgradeProgress
    ([UpgradeProgress.cpp] and the check of a rollout proof), UpgradeTheorems;
    UpgradeService ([UpgradeService.cpp]), UpgradeServiceTheorems.

    Addresses: IpamAddress, Ipam (every operation of [IPAMService.cpp] as a
    state transformer whose outcome is a value, an exception or a deadlock;
    [serve] runs one call), IpamInvariants, IpamBackbone, IpamPersistence,
    IpamTheorems.

    Concrete instances for the applications of the theorems: TestCodec (a text
    codec), Testbed, and the modules [Fork], [TwoEpochs], [Office], [Depot] and
    [FiveServers] among others.

    ** What the theorems show

    - Consensus: two commit proofs of consecutive views for one height prove one
      block ([commit_proofs_agree], [three_chain_final]); a replica votes once
      per view and refines the abstract voter through every crash
      ([votes_once_per_view], [run_refines_vote_log]); its state stays
      consistent ([run_keeps_replica_ok]); a vote is on disk before it leaves
      ([vote_survives_crash], over [write_durable_crash_atomic]). The commit
      rule and [verify_commit_proof] do not ask for consecutive views;
      [commit_rule_forks] shows two correct replicas that commit different
      blocks at one height because of it.
    - Authority: a walker trusts only what descends from its Genesis key
      ([walker_only_trusts_chain]); an epoch activates only when complete, and
      every call keeps the manager well formed ([activation_complete],
      [manager_well_formed]); Genesis signs once ([genesis_signs_once]); a mesh
      fact has a correct witness ([mesh_fact_has_honest_witness]); a pool is
      released only under the commitment that was handed over as final, and its
      members passed the policy on statements of correct observers
      ([frozen_pool_sound]).
    - Tree: blocks keep the tree well formed, control is only given by those who
      have it, nothing applies twice, and the check before a vote accepts what
      the certified application and the validation of each op accept
      ([tree_stays_well_formed], [control_needs_admin],
      [op_applied_once], [certified_batch_agrees]); batches, the merge body and
      the log read back ([batch_round_trip], [merge_body_round_trip],
      [log_reopens]); the pool is a queue ([pool_refines_queue]); a merge gives
      one tree with unique keys in any order of exports
      ([merged_tree_well_formed], [merge_order_irrelevant]), but does not look
      at node types ([second_root_merges]); the served tree follows the log, which grows
      only by evidence ([served_tree_follows_log], [log_grows_by_evidence]); a
      leader's block is accepted ([proposed_block_is_accepted]); held entries
      drain ([drain_ends]); listing a subtree is the ancestor walk
      ([subtree_is_descendants]). [unsafe_id_stops_tree],
      [deleted_group_taken_over] and [crash_after_apply_halts] are what goes
      wrong.
    - Replicas converge to the last write of each key and to one digest, in
      whatever order they walk their entries ([replicas_converge]);
      digests in pages and entries in chunks come back, within the budget
      ([digest_pages_round_trip], [chunks_reassemble], [assembler_bounded]).
      [tied_entries_never_converge] and [capped_catch_up_stalls] are the two
      ways in which they do not.
    - Releases: the accepted release never falls through crashes, also of a
      start, and restarts, and an adopted approval is found again ([release_never_falls],
      [adopted_approval_survives]), except when a stat fails at start
      ([failed_stat_goes_back]); generated approvals are accepted, and those
      that pass the guard accept exactly the servers the rollout left behind
      ([generated_release_accepted], [guarded_release_accepts_exactly]). Servers
      restart one at a time and in order, outcomes are final, and a completed
      rollout was seen by correct witnesses ([one_server_restarts_at_a_time],
      [rollout_outcome_is_final], [proved_completion_is_witnessed]); a server
      vouches only for what it has had attested
      ([sent_observation_was_attested]), its records are read back from the file after
      failed writes, crashes and restarts ([restart_restores_rollout]) and what it proposes gets the votes
      ([proposed_record_gets_votes]).
    - Addresses: over every sequence of calls without an expansion, blocks of
      different nodes are disjoint ([blocks_never_overlap]); records survive a
      restart; synchronization makes the tree range equal to the tree.
      [sweep_deadlocks], [expansion_can_overlap] and
      [lower_key_evicts_local_holder] are the calls that do not do what their
      comments say.

    ** Parameters

    Code that is not in the repository is an argument: libsodium ([Sodium],
    [SodiumMessages], [HexCodec]), nlohmann's text and MessagePack and base64
    ([TextCodec], [ValueCodec]), XXH3 ([SyncRuntime]), the order in which a hash
    map is walked ([EntryWalk], an argument of each walk of a replica's entries,
    and [UnorderedMap]), the wire envelope of a stored commit proof
    ([UpgradeEnvelope]), the outcomes of system calls (the oracle of a disk), the
    clock (a list of readings), the validators a replica is configured with.
    What the driver and the attestation service answer to the upgrade service is
    the record [UpgradeEnv]. What is assumed of a parameter is a class of laws
    ([TextCodecLaws], [ValueCodecLaws], [SodiumLaws], [HexCodecLaws],
    [UpgradeEnvelopeLaws]) or a hypothesis of the
    theorem; the theorems with such hypotheses are applied to concrete
    instances. In HotStuffSafety, cryptography enters as two fields of
    [network]: no collision among the published proposals, no forged vote of a
    correct member.

    ** Bounds

    - The parent walks of the replica, [uncommitted_upgrade_ancestor] and the
      climbs of the tree rules carry one unit of fuel more than there are blocks
      or nodes, which is enough when the links have no cycle or stop at a
      repeated id ([climb_fuel]); the walks down a subtree and the reach of a
      merge have one unit per node.
    - [uncommitted_walk] and [committed_page] have the source's own bounds,
      [kMaxSyncChainBlocks] and the page size.
    - [write_all] carries one unit more than the payload has bytes; a [write]
      that returns no byte is a failure in the source, so each step shortens the
      rest. [decode_fields] and the readers of counted lists have one unit per
      byte or element; [replay_entries] one per entry.
    - [drain_held] and [drain_pending] carry one unit more than there are held
      entries, and [make_room] one per partial entry: each turn removes one
      ([drain_ends], [upgrade_drain_ends]).
    - [probe] makes the source's 1014 tries, the number of usable offsets.
    - Views, heights, epochs and addresses wrap at their width; a theorem that
      needs no wrap-around says so.

    ** What is not modelled

    Sockets, timers and threads (calls that hold a mutex are one step; the
    address manager's mutex is part of its model), the HTTP handlers, start-up
    and configuration, ACME, the TPM and SNP evidence, the sessions around the
    FROST library and the vaults on it, the wire envelopes of the security
    messages, the packet-forwarding crate, the SDK, the Windows branch of the
    durable write, ownership and mode bits: they are I/O, third-party
    cryptography or glue over the parts above. Of the upgrade service the health
    report is left out, of the rollout proof its JSON text, of the attestation
    profile all but the approved paths.

    Two simplifications: [json_dump] always gives a text, while nlohmann's
    [dump] throws on a string that is not UTF-8 (the theorems that read a text
    back ask for ASCII strings); and a disk has one flat directory, so that
    [sys_fsync_dir] flushes all names and not those of one directory (the files
    that a theorem is about share theirs). *)

From stdpp Require Export base list gmap sorting strings pretty.
From Stdlib Require Export ZArith Lia.

Open Scope Z_scope.

(** ** Machine integers

    The program keeps views, heights and epochs in [uint64_t] ([StrongId]):
    arithmetic is the unsigned wrap-around of the width. *)

Definition two16 : Z := 65536.
Definition two32 : Z := 4294967296.
Definition two64 : Z := 18446744073709551616.

Definition u64_add (a b : Z) : Z := (a + b) mod two64.
Definition u64_sub (a b : Z) : Z := (a - b) mod two64.
Definition u32_add (a b : Z) : Z := (a + b) mod two32.

Declare Scope nexus_scope.
Delimit Scope nexus_scope with nx.
Infix "+64" := u64_add (at level 50, left associativity) : nexus_scope.
Infix "-64" := u64_sub (at level 50, left associativity) : nexus_scope.
Open Scope nexus_scope.

Definition is_u16 (x : Z) : Prop := 0 <= x < two16.
Definition is_u32 (x : Z) : Prop := 0 <= x < two32.
Definition is_u64 (x : Z) : Prop := 0 <= x < two64.

(** ** Records with functional field update

    [Etable] is the field-by-field copy of a record; the setter of a
    projection is computed from it, so a record needs one instance only. *)

Class Etable (R : Type) := eta : R → R.
Class Setter {R E : Type} (proj : R → E) := set_field : (E → E) → R → R.
Arguments set_field {R E} proj {_} _ _.

Ltac derive_setter :=
  match goal with
  | |- @Setter ?R ?E ?proj =>
      let inst := constr:(_ : Etable R) in
      let f := fresh "f" in
      let r := fresh "r" in
      refine (λ (f : E → E) (r : R), _);
      let body := eval hnf in (inst r) in
      let body := eval pattern (proj r) in body in
      match body with
      | ?g _ => let t := eval cbv beta in (g (f (proj r))) in exact t
      end
  end.

#[export] Hint Extern 0 (Setter _) => derive_setter : typeclass_instances.

Notation "r <| p := v |>" := (set_field p (λ _, v) r)
  (at level 12, p at level 9, v at level 99, left associativity, only parsing) : nexus_scope.

(** ** Byte strings

    A byte is a [Z] in [0, 256). A fixed-width byte array the program compares
    and orders lexicographically ([Digest], [NodeId], signatures) is the
    unsigned number of its big-endian reading: the two orders agree. *)

Definition le_bytes (n : nat) (v : Z) : list Z :=
  (λ i, Z.land (Z.shiftr v (8 * Z.of_nat i)) 255) <$> seq 0 n.
Definition be_bytes (n : nat) (v : Z) : list Z := reverse (le_bytes n v).
Definition le_value (bs : list Z) : Z := foldr (λ b acc, b + 256 * acc) 0 bs.

Definition string_bytes (s : string) : list Z :=
  (λ c, Z.of_nat (Ascii.nat_of_ascii c)) <$> String.list_ascii_of_string s.

#[global] Arguments le_bytes : simpl never.
#[global] Arguments be_bytes : simpl never.
#[global] Arguments le_value : simpl never.

(** ** Ordered maps

    [std::map] iterates by ascending key. A [gmap] with a [Z] key holds the
    entries; [in_order] is the iteration. *)

Definition key_le {A : Type} (x y : Z * A) : Prop := x.1 <= y.1.
#[export] Instance key_le_dec {A} : RelDecision (@key_le A).
Proof. intros x y. unfold key_le. apply _. Defined.

Definition in_order {A : Type} (m : gmap Z A) : list (Z * A) :=
  merge_sort key_le (map_to_list m).

(** [std::max] and [std::min]. *)
Definition std_max (a b : Z) : Z := if a <? b then b else a.
Definition std_min (a b : Z) : Z := if b <? a then b else a.

(** ** Automation *)

Create HintDb nexus.

(** Case analysis on every remaining conditional of a hypothesis. *)
Ltac split_ifs_in H :=
  repeat (match type of H with
          | context [if ?b then _ else _] => destruct b eqn:?
          | context [match ?o with Some _ => _ | None => _ end] => destruct o eqn:?
          end; simplify_eq H).

Ltac split_ifs :=
  repeat (case_match; simplify_eq/=).

(** Turns boolean tests of the code into propositions. *)
Ltac bool_to_prop :=
  repeat match goal with
  | H : _ && _ = true |- _ => apply andb_true_iff in H as [? ?]
  | H : _ || _ = false |- _ => apply orb_false_iff in H as [? ?]
  | H : negb _ = true |- _ => apply negb_true_iff in H
  | H : negb _ = false |- _ => apply negb_false_iff in H
  | H : (_ =? _) = true |- _ => apply Z.eqb_eq in H
  | H : (_ =? _) = false |- _ => apply Z.eqb_neq in H
  | H : (_ <? _) = true |- _ => apply Z.ltb_lt in H
  | H : (_ <? _) = false |- _ => apply Z.ltb_ge in H
  | H : (_ <=? _) = true |- _ => apply Z.leb_le in H
  | H : (_ <=? _) = false |- _ => apply Z.leb_gt in H
  | H : bool_decide _ = true |- _ => apply bool_decide_eq_true in H
  | H : bool_decide _ = false |- _ => apply bool_decide_eq_false in H
  end.

(** ** Integer lemmas *)

Lemma two64_pos : 0 < two64.
Proof. done. Qed.

Lemma u64_add_range a b : is_u64 (a +64 b).
Proof. unfold is_u64, u64_add. apply Z.mod_pos_bound, two64_pos. Qed.

Lemma u64_add_small a b : 0 <= a + b < two64 → a +64 b = a + b.
Proof. apply Z.mod_small. Qed.

Lemma std_max_spec a b : std_max a b = Z.max a b.
Proof. unfold std_max. destruct (Z.ltb_spec a b); lia. Qed.

Lemma std_min_spec a b : std_min a b = Z.min a b.
Proof. unfold std_min. destruct (Z.ltb_spec b a); lia. Qed.

(** ** Byte lemmas *)

Lemma le_bytes_S n v : le_bytes (S n) v = Z.land v 255 :: le_bytes n (Z.shiftr v 8).
Proof.
  unfold le_bytes. simpl. rewrite Z.shiftr_0_r. f_equal.
  rewrite <-(fmap_S_seq 0), <-list_fmap_compose. apply list_fmap_ext.
  intros i x Hx. unfold compose. rewrite Z.shiftr_shiftr by lia.
  do 2 f_equal. lia.
Qed.

Lemma length_le_bytes n v : length (le_bytes n v) = n.
Proof. unfold le_bytes. by rewrite length_fmap, length_seq. Qed.

Lemma length_be_bytes n v : length (be_bytes n v) = n.
Proof. unfold be_bytes. by rewrite length_reverse, length_le_bytes. Qed.

Lemma le_value_cons b bs : le_value (b :: bs) = b + 256 * le_value bs.
Proof. done. Qed.

Lemma le_value_bytes n v : le_value (le_bytes n v) = v mod 256 ^ Z.of_nat n.
Proof.
  revert v. induction n as [|n IH]; intros v.
  { change (le_value (le_bytes 0 v)) with 0. by rewrite Z.mod_1_r. }
  rewrite le_bytes_S.
  rewrite le_value_cons, IH.
  change 255 with (Z.ones 8). rewrite Z.land_ones by lia.
  rewrite Z.shiftr_div_pow2 by lia. change (2 ^ 8) with 256.
  replace (Z.of_nat (S n)) with (1 + Z.of_nat n) by lia.
  rewrite Z.pow_add_r, Z.pow_1_r by lia.
  rewrite Z.rem_mul_r by (try apply Z.pow_nonzero; lia). lia.
Qed.

Lemma le_bytes_inj n v w :
  0 <= v < 256 ^ Z.of_nat n → 0 <= w < 256 ^ Z.of_nat n →
  le_bytes n v = le_bytes n w → v = w.
Proof.
  intros Hv Hw Heq. apply (f_equal le_value) in Heq.
  rewrite !le_value_bytes, !Z.mod_small in Heq by done. done.
Qed.

Lemma be_bytes_inj n v w :
  0 <= v < 256 ^ Z.of_nat n → 0 <= w < 256 ^ Z.of_nat n →
  be_bytes n v = be_bytes n w → v = w.
Proof.
  intros Hv Hw Heq. apply (le_bytes_inj n); [done..|].
  unfold be_bytes in Heq. by apply (inj reverse) in Heq.
Qed.

Lemma le_bytes_byte n v b : b ∈ le_bytes n v → 0 <= b < 256.
Proof.
  unfold le_bytes. intros (i & -> & _)%list_elem_of_fmap.
  change 255 with (Z.ones 8). rewrite Z.land_ones by lia.
  apply Z.mod_pos_bound. lia.
Qed.

Lemma string_bytes_inj s t : string_bytes s = string_bytes t → s = t.
Proof.
  unfold string_bytes. revert t.
  induction s as [|a s IH]; intros [|b t]; simpl; intros H; [done..|].
  injection H as Hab Hst. f_equal; [|by apply IH].
  rewrite <-(Ascii.ascii_nat_embedding a), <-(Ascii.ascii_nat_embedding b).
  f_equal. lia.
Qed.

Lemma list_cons_eq {A} (x y : A) l k : x :: l = y :: k → x = y ∧ l = k.
Proof. intros H. by injection H. Qed.

(** Splits an equation of two explicit lists without reducing the elements. *)
Ltac split_list_eq E :=
  repeat (let H := fresh "Hf" in apply list_cons_eq in E as [H E]).

(** ** List lemmas *)

Lemma filter_id {A} (P : A → Prop) `{∀ x, Decision (P x)} l : Forall P l → filter P l = l.
Proof. induction 1 as [|x l Hx Hl IH]; [done|]. by rewrite filter_cons_True, IH. Qed.

(** ** Ordered-map lemmas *)

Lemma in_order_perm {A} (m : gmap Z A) : in_order m ≡ₚ map_to_list m.
Proof. apply merge_sort_Permutation. Qed.

Lemma elem_of_in_order {A} (m : gmap Z A) k v : (k, v) ∈ in_order m ↔ m !! k = Some v.
Proof. rewrite in_order_perm. apply elem_of_map_to_list. Qed.

Lemma NoDup_in_order {A} (m : gmap Z A) : NoDup (in_order m).*1.
Proof. rewrite in_order_perm. apply NoDup_fst_map_to_list. Qed.

Lemma length_in_order {A} (m : gmap Z A) : length (in_order m) = size m.
Proof. rewrite in_order_perm. by rewrite length_map_to_list. Qed.

#[export] Instance key_le_total {A} : Total (@key_le A).
Proof. intros [x ?] [y ?]. unfold key_le. simpl. lia. Qed.
#[export] Instance key_le_trans {A} : Transitive (@key_le A).
Proof. intros [x ?] [y ?] [z ?]. unfold key_le. simpl. lia. Qed.

Lemma in_order_sorted {A} (m : gmap Z A) : StronglySorted key_le (in_order m).
Proof. apply StronglySorted_merge_sort; apply _. Qed.

(** ** Quorum intersection

    Two sets of at least [q] members of a population of [n], of which at most
    [f] are faulty, share a member that is not faulty when [n + f < 2 q]. *)

Lemma quorum_intersection (M A B Byz : gset Z) (n q f : nat) :
  A ⊆ M → B ⊆ M → (size M ≤ n)%nat → (size Byz ≤ f)%nat →
  (q ≤ size A)%nat → (q ≤ size B)%nat → (n + f < 2 * q)%nat →
  ∃ x, x ∈ A ∧ x ∈ B ∧ x ∉ Byz.
Proof.
  intros HA HB Hn Hf HqA HqB Hq.
  assert (Hu : (size (A ∪ B) ≤ n)%nat).
  { transitivity (size M); [|done]. apply subseteq_size. set_solver. }
  assert (Hi : (size A + size B = size (A ∪ B) + size (A ∩ B))%nat).
  { rewrite (size_union_alt A B).
    assert (size B = size (B ∖ A) + size (A ∩ B))%nat as ->.
    { rewrite <-size_union by set_solver. f_equal.
      apply set_eq. intros x. rewrite elem_of_union, elem_of_difference, elem_of_intersection.
      destruct (decide (x ∈ A)); tauto. }
    lia. }
  destruct (decide (A ∩ B ⊆ Byz)) as [Hs|Hs].
  - apply subseteq_size in Hs. lia.
  - destruct (set_choose_or_empty ((A ∩ B) ∖ Byz)) as [[x Hx]|He].
    + exists x. set_solver.
    + exfalso. apply Hs. intros x Hx.
      destruct (decide (x ∈ Byz)) as [|Hnb]; [done|].
      destruct (not_elem_of_empty (C := gset Z) x). rewrite <-He. set_solver.
Qed.
