(* ===== verification/SecurityPolicy.v ===== *)
(** * Security policy: the compiled rules

    Models [Security/Policy/SecurityConstants.hpp] (the quorum formulas, the
    Tier 1 step table and the limits the other components use) and the scalar
    types of [Security/Policy/SecurityTypes.hpp]: a [StrongId] is a 64-bit
    unsigned value, a [Digest], a [NodeId] and a signature are byte arrays read
    as big-endian numbers (Prelude). The theorems show that the quorum formula
    is the BFT one: two quorums share a correct member for every population. *)

From S2P Require Import Prelude.

(** ** Scalar types *)

Definition EpochId : Type := Z.
Definition View : Type := Z.
Definition Height : Type := Z.
Definition Digest : Type := Z.
Definition NetworkId : Type := Z.
Definition NodeId : Type := Z.
Definition Ed25519PublicKey : Type := Z.
Definition Ed25519Signature : Type := Z.

Definition kDigestSize : nat := 32.
Definition kNodeIdSize : nat := 32.
Definition kEd25519SignatureSize : nat := 64.
Definition kEd25519PrivateKeySize : nat := 64.

Definition is_digest (d : Z) : Prop := 0 <= d < 256 ^ 32.
Definition is_signature (d : Z) : Prop := 0 <= d < 256 ^ 64.

(** ** Rulesets, formats and domains *)

Definition kSecurityRulesetVersion : Z := 1.
Definition kConsensusRulesetVersion : Z := 1.
Definition kQcFormatVersion : Z := 1.
Definition kConsensusStoreFormatVersion : Z := 1.

Definition kBftProtocolDomain : string := "LEMONADE-NEXUS-HOTSTUFF-V1".
Definition kTier1SelectDomain : string := "LEMONADE-NEXUS-T1-SELECT-V1".
Definition kLeaderOrderDomain : string := "LEMONADE-NEXUS-HOTSTUFF-LEADER-V1".

(** ** Tier 1 population *)

Definition kBootstrapThreshold : Z := 5.
Definition kMinActiveTier1 : Z := 5.
Definition kPreferredMinActiveTier1 : Z := 7.
Definition kMaxActiveTier1 : Z := 31.
Definition kMinTier1Reserve : Z := 2.

Record Tier1TargetStep := mkStep { min_admitted : Z; target : Z }.

Definition kTier1TargetSteps : list Tier1TargetStep :=
  [ mkStep 5 5; mkStep 10 7; mkStep 25 10; mkStep 100 13; mkStep 250 16;
    mkStep 500 19; mkStep 1000 22; mkStep 2500 25; mkStep 5000 28;
    mkStep 10000 31 ].

(** ** Quorum formulas *)

Definition max_byzantine_faults (n : Z) : Z := if n =? 0 then 0 else (n - 1) / 3.

Definition consensus_quorum (n : Z) : Z := n - max_byzantine_faults n.

Definition authority_threshold (n : Z) : Z :=
  let quorum := consensus_quorum n in
  if quorum <? kBootstrapThreshold then kBootstrapThreshold else quorum.

Definition tier1_target_count (admitted : Z) : Z :=
  foldl (λ acc step, if min_admitted step <=? admitted then target step else acc)
    0 kTier1TargetSteps.

(** ** Consensus limits *)

Definition kMaxFutureViewDistance : Z := 64.
Definition kMaxPendingProposals : Z := 128.
Definition kMaxQcSignatures : Z := kMaxActiveTier1.
Definition kMaxSyncChainBlocks : Z := 8.
Definition kViewTimeoutBaseMs : Z := 2000.
Definition kViewTimeoutMaxMs : Z := 30000.
Definition kViewTimeoutBackoffFactor : Z := 2.
Definition kTimeoutResetAfterCommittedBlocks : Z := 3.

(** ** Lemmas *)

Lemma max_byzantine_faults_bound n : 0 < n → 0 <= 3 * max_byzantine_faults n < n.
Proof.
  intros Hn. unfold max_byzantine_faults.
  destruct (Z.eqb_spec n 0); [lia|].
  pose proof (Z.div_mod (n - 1) 3). pose proof (Z.mod_pos_bound (n - 1) 3). lia.
Qed.

Lemma consensus_quorum_double n :
  0 < n → n + max_byzantine_faults n < 2 * consensus_quorum n.
Proof. intros Hn. pose proof (max_byzantine_faults_bound n Hn). unfold consensus_quorum. lia. Qed.

(** The static assertions the header carries. *)
Lemma quorum_tables :
  max_byzantine_faults 5 = 1 ∧ consensus_quorum 5 = 4 ∧
  max_byzantine_faults 6 = 1 ∧ consensus_quorum 6 = 5 ∧
  max_byzantine_faults 7 = 2 ∧ consensus_quorum 7 = 5 ∧
  max_byzantine_faults 10 = 3 ∧ consensus_quorum 10 = 7 ∧
  max_byzantine_faults 31 = 10 ∧ consensus_quorum 31 = 21 ∧
  authority_threshold 5 = 5 ∧ authority_threshold 6 = 5 ∧ authority_threshold 7 = 5 ∧
  authority_threshold 8 = 6 ∧ authority_threshold 31 = 21 ∧
  tier1_target_count 4 = 0 ∧ tier1_target_count 5 = 5 ∧ tier1_target_count 24 = 7 ∧
  tier1_target_count 25 = 10 ∧ tier1_target_count 10000 = 31.
Proof. vm_compute. tauto. Qed.
