(* ===== verification/CanonicalEncoding.v ===== *)
(** * The canonical encoder

    Models [Security/CanonicalEncoding.cpp]: the one serialization every signed
    or digested security object goes through. The encoder's state is its byte
    buffer. libsodium is not part of the repository: the hash and the signature
    calls are the fields of the class [Sodium], an argument of every definition
    that reaches them.

    The theorems show that the layout is injective: [decode_fields] reads the
    fields back, so two different field sequences never give the same bytes. *)

From S2P Require Import Prelude SecurityPolicy.

(** ** libsodium

    [crypto_hash_sha256] maps bytes to the 32 bytes of the digest;
    [crypto_sign_detached] signs a digest under a secret key ([None]: the call
    reports an error); [crypto_sign_verify_detached] checks a signature. *)

Class Sodium := {
  crypto_hash_sha256 : list Z → Digest;
  crypto_sign_detached : list Z → Digest → option Ed25519Signature;
  crypto_sign_verify_detached : Ed25519Signature → Digest → Ed25519PublicKey → bool;
}.

(** ** The encoder *)

Definition CanonicalEncoder : Type := list Z.

Definition put_length_prefixed (buffer_ field : list Z) : CanonicalEncoder :=
  let n := Z.of_nat (length field) mod two32 in
  buffer_ ++ le_bytes 4 n ++ field.

Definition add_bytes (buffer_ field : list Z) : CanonicalEncoder :=
  put_length_prefixed buffer_ field.

Definition add_string (buffer_ : list Z) (field : string) : CanonicalEncoder :=
  put_length_prefixed buffer_ (string_bytes field).

Definition new_encoder (domain : string) : CanonicalEncoder := add_string [] domain.

Definition add_u16 (buffer_ : list Z) (value : Z) : CanonicalEncoder :=
  put_length_prefixed buffer_ (le_bytes 2 value).

Definition add_u32 (buffer_ : list Z) (value : Z) : CanonicalEncoder :=
  put_length_prefixed buffer_ (le_bytes 4 value).

Definition add_u64 (buffer_ : list Z) (value : Z) : CanonicalEncoder :=
  put_length_prefixed buffer_ (le_bytes 8 value).

(** [add_bytes] of a 32-byte array ([Digest], [NodeId::span()]) and of a
    64-byte signature. *)
Definition add_digest (buffer_ : list Z) (d : Z) : CanonicalEncoder :=
  add_bytes buffer_ (be_bytes 32 d).
Definition add_signature (buffer_ : list Z) (d : Z) : CanonicalEncoder :=
  add_bytes buffer_ (be_bytes 64 d).

Definition digest `{Sodium} (buffer_ : list Z) : Digest := crypto_hash_sha256 buffer_.

(** ** The reading of an encoded stream *)

Definition encode_fields (fields : list (list Z)) : list Z := foldl put_length_prefixed [] fields.

Fixpoint decode_fields (fuel : nat) (bs : list Z) : option (list (list Z)) :=
  match bs, fuel with
  | [], _ => Some []
  | _, O => None
  | _, S fuel' =>
      let n := Z.to_nat (le_value (take 4 bs)) in
      let rest := drop 4 bs in
      if bool_decide (length bs < 4)%nat || bool_decide (length rest < n)%nat then None
      else fields ← decode_fields fuel' (drop n rest); Some (take n rest :: fields)
  end.

Definition field_ok (f : list Z) : Prop := Z.of_nat (length f) < two32.

(** ** Lemmas *)

Lemma put_length_prefixed_nil buf f :
  put_length_prefixed buf f = buf ++ put_length_prefixed [] f.
Proof. done. Qed.

Lemma foldl_put_app buf fs :
  foldl put_length_prefixed buf fs = buf ++ encode_fields fs.
Proof.
  unfold encode_fields. revert buf. induction fs as [|f fs IH]; intros buf; simpl.
  - by rewrite app_nil_r.
  - rewrite IH, (IH (put_length_prefixed [] f)), (put_length_prefixed_nil buf).
    by rewrite app_assoc.
Qed.

Lemma encode_fields_cons f fs :
  encode_fields (f :: fs) = le_bytes 4 (Z.of_nat (length f) mod two32) ++ f ++ encode_fields fs.
Proof.
  change (encode_fields (f :: fs)) with (foldl put_length_prefixed (put_length_prefixed [] f) fs).
  rewrite foldl_put_app. unfold put_length_prefixed. cbv zeta.
  by rewrite app_nil_l, <-app_assoc.
Qed.

Lemma encode_fields_app fs gs : encode_fields (fs ++ gs) = encode_fields fs ++ encode_fields gs.
Proof. unfold encode_fields. by rewrite foldl_app, foldl_put_app. Qed.

Lemma length_encode_fields_le fs : (length fs <= length (encode_fields fs))%nat.
Proof.
  induction fs as [|f fs IH]; [simpl; lia|].
  rewrite encode_fields_cons, !length_app, length_le_bytes. simpl. lia.
Qed.

Lemma decode_encode_fuel fs fuel :
  Forall field_ok fs → (length fs <= fuel)%nat →
  decode_fields fuel (encode_fields fs) = Some fs.
Proof.
  intros Hok. revert fuel. induction Hok as [|f fs Hf Hfs IH]; intros fuel Hl.
  { by destruct fuel. }
  destruct fuel as [|fuel]; [simpl in Hl; lia|].
  rewrite encode_fields_cons.
  set (hd := le_bytes 4 _). assert (Hhd : length hd = 4%nat) by apply length_le_bytes.
  destruct (hd ++ f ++ encode_fields fs) as [|b bs] eqn:E.
  { apply (f_equal length) in E. rewrite !length_app in E. simpl in E. lia. }
  change (decode_fields (S fuel) (b :: bs)) with
    (let n := Z.to_nat (le_value (take 4 (b :: bs))) in
     let rest := drop 4 (b :: bs) in
     if bool_decide (length (b :: bs) < 4)%nat || bool_decide (length rest < n)%nat then None
     else fields ← decode_fields fuel (drop n rest); Some (take n rest :: fields)).
  rewrite <-E. cbv zeta. rewrite take_app_length', drop_app_length' by done.
  assert (Hn : Z.to_nat (le_value hd) = length f).
  { unfold hd. rewrite le_value_bytes. unfold field_ok in Hf.
    change (256 ^ Z.of_nat 4) with two32. rewrite Z.mod_mod by done.
    rewrite Z.mod_small by (split; [lia|done]). lia. }
  rewrite Hn, take_app_length, drop_app_length.
  rewrite bool_decide_eq_false_2 by (rewrite length_app; lia).
  rewrite bool_decide_eq_false_2 by (rewrite length_app; lia).
  simpl. rewrite IH by (simpl in Hl; lia). done.
Qed.

Lemma decode_encode_fields fs :
  Forall field_ok fs → decode_fields (length (encode_fields fs)) (encode_fields fs) = Some fs.
Proof. intros H. apply decode_encode_fuel; [done|apply length_encode_fields_le]. Qed.

Lemma encode_fields_inj fs gs :
  Forall field_ok fs → Forall field_ok gs → encode_fields fs = encode_fields gs → fs = gs.
Proof.
  intros Hf Hg E. apply decode_encode_fields in Hf, Hg. rewrite E in Hf. congruence.
Qed.

Lemma field_ok_le_bytes n v : (n < 1000)%nat → field_ok (le_bytes n v).
Proof. intros. unfold field_ok, two32. rewrite length_le_bytes. lia. Qed.
Lemma field_ok_be_bytes n v : (n < 1000)%nat → field_ok (be_bytes n v).
Proof. intros. unfold field_ok, two32. rewrite length_be_bytes. lia. Qed.

Lemma le2_inj a b : is_u16 a → is_u16 b → le_bytes 2 a = le_bytes 2 b → a = b.
Proof. apply (le_bytes_inj 2). Qed.
Lemma le4_inj a b : is_u32 a → is_u32 b → le_bytes 4 a = le_bytes 4 b → a = b.
Proof. apply (le_bytes_inj 4). Qed.
Lemma le8_inj a b : is_u64 a → is_u64 b → le_bytes 8 a = le_bytes 8 b → a = b.
Proof. apply (le_bytes_inj 8). Qed.
Lemma be32_inj a b : is_digest a → is_digest b → be_bytes 32 a = be_bytes 32 b → a = b.
Proof. apply (be_bytes_inj 32). Qed.
Lemma be64_inj a b : is_signature a → is_signature b → be_bytes 64 a = be_bytes 64 b → a = b.
Proof. apply (be_bytes_inj 64). Qed.

#[export] Hint Resolve le2_inj le4_inj le8_inj be32_inj be64_inj : nexus.
