(* ===== verification/Selection.v ===== *)
(** * Deterministic selection: leader order, Tier 1 ranking, view timeouts

    Models [Consensus/LeaderSelection.cpp], [Consensus/Pacemaker.cpp],
    [Epoch/Tier1Set.cpp] and [Epoch/Tier1Selector.cpp]. Both orders sort hash
    scores with the node id as tiebreak; [std::sort] is not stable, but the
    order on (score, node) is total, so the sorted list is unique and
    [merge_sort] computes it. *)

From S2P Require Import Prelude SecurityPolicy CanonicalEncoding.

(** ** The order on (score, node) pairs *)

Definition score_le (x y : Z * Z) : Prop := x.1 < y.1 ∨ (x.1 = y.1 ∧ x.2 <= y.2).

#[export] Instance score_le_dec : RelDecision score_le.
Proof. intros x y. unfold score_le. apply _. Defined.
#[export] Instance score_le_total : Total score_le.
Proof. intros [a b] [c d]. unfold score_le. simpl. lia. Qed.
#[export] Instance score_le_trans : Transitive score_le.
Proof. intros [a b] [c d] [e f]. unfold score_le. simpl. lia. Qed.
#[export] Instance score_le_antisymm : AntiSymm (=) score_le.
Proof. intros [a b] [c d]. unfold score_le. simpl. intros ??. f_equal; lia. Qed.

(** Scores a set of nodes and lists them by ascending (score, node). *)
Definition ranked_by (score : NodeId → Digest) (nodes : list NodeId) : list NodeId :=
  (merge_sort score_le ((λ n, (score n, n)) <$> nodes)).*2.

(** ** Leader order *)

Section leaders.
Context `{Sodium}.

Definition leader_seed (previous_checkpoint : Digest) (epoch : EpochId) : Digest :=
  let e := add_string (new_encoder kLeaderOrderDomain) "seed" in
  digest (add_u64 (add_digest e previous_checkpoint) epoch).

Definition leader_score (seed : Digest) (member : NodeId) : Digest :=
  let e := add_string (new_encoder kLeaderOrderDomain) "score" in
  digest (add_digest (add_digest e seed) member).

Definition order (members : list NodeId) (previous_checkpoint : Digest) (epoch : EpochId)
    : list NodeId :=
  ranked_by (leader_score (leader_seed previous_checkpoint epoch)) members.
End leaders.

(** [None]: an empty order throws. *)
Definition leader (order : list NodeId) (view : View) : option NodeId :=
  match order with
  | [] => None
  | _ => order !! Z.to_nat (view mod Z.of_nat (length order))
  end.

(** ** Tier 1 set and selection *)

Record Tier1Set := mkTier1Set { t1_members : list NodeId }.

(** [std::adjacent_find] on the sorted list. *)
Fixpoint has_adjacent (nodes : list NodeId) : bool :=
  match nodes with
  | a :: ((b :: _) as rest) => (a =? b) || has_adjacent rest
  | _ => false
  end.

Definition from_nodes (nodes : list NodeId) : option Tier1Set :=
  let sorted := merge_sort Z.le nodes in
  if has_adjacent sorted then None else Some (mkTier1Set sorted).

Definition contains (t : Tier1Set) (node : NodeId) : bool := bool_decide (node ∈ t1_members t).

Definition kParticipantSetDomain : string := "lemonade-nexus/participant-set:v1".

Definition tier1_set_encoder (t : Tier1Set) : CanonicalEncoder :=
  foldl add_digest (add_u64 (new_encoder kParticipantSetDomain)
    (Z.of_nat (length (t1_members t)))) (t1_members t).

Section tier1.
Context `{Sodium}.

Definition tier1_set_digest (t : Tier1Set) : Digest := digest (tier1_set_encoder t).

Definition selection_seed (group_key : Ed25519PublicKey) (next_epoch : EpochId) : Digest :=
  let e := add_string (new_encoder kTier1SelectDomain) "seed" in
  digest (add_u64 (add_digest e group_key) next_epoch).

Definition tier1_score (seed : Digest) (node : NodeId) : Digest :=
  let e := add_string (new_encoder kTier1SelectDomain) "score" in
  digest (add_digest (add_digest e seed) node).

Definition rank (frozen_eligible : Tier1Set) (current_epoch_group_key : Ed25519PublicKey)
    (next_epoch : EpochId) : list NodeId :=
  ranked_by (tier1_score (selection_seed current_epoch_group_key next_epoch))
    (t1_members frozen_eligible).

Definition select (frozen_eligible : Tier1Set) (current_epoch_group_key : Ed25519PublicKey)
    (next_epoch : EpochId) (count : nat) : list NodeId :=
  let ranked := rank frozen_eligible current_epoch_group_key next_epoch in
  if bool_decide (count < length ranked)%nat then take count ranked else ranked.
End tier1.

(** ** View timeouts *)

Record Pacemaker := mkPacemaker { timeout_ms_ : Z; consecutive_commits_ : Z }.

Definition new_pacemaker : Pacemaker := mkPacemaker kViewTimeoutBaseMs 0.

Definition on_timeout (p : Pacemaker) : Pacemaker :=
  mkPacemaker (std_min ((timeout_ms_ p * kViewTimeoutBackoffFactor) mod two64) kViewTimeoutMaxMs) 0.

Definition on_committed_block (p : Pacemaker) : Pacemaker :=
  let n := u32_add (consecutive_commits_ p) 1 in
  if kTimeoutResetAfterCommittedBlocks <=? n then mkPacemaker kViewTimeoutBaseMs 0
  else mkPacemaker (timeout_ms_ p) n.

(** ** Lemmas *)

Lemma ranked_by_perm score nodes : ranked_by score nodes ≡ₚ nodes.
Proof.
  unfold ranked_by. rewrite merge_sort_Permutation, <-list_fmap_compose.
  by rewrite list_fmap_id.
Qed.

Lemma ranked_by_input_order score nodes nodes' :
  nodes ≡ₚ nodes' → ranked_by score nodes = ranked_by score nodes'.
Proof.
  intros Hp. unfold ranked_by. f_equal. apply (StronglySorted_unique score_le).
  - apply (StronglySorted_merge_sort score_le).
  - apply (StronglySorted_merge_sort score_le).
  - by rewrite !merge_sort_Permutation, Hp.
Qed.

(** Over as many consecutive views as there are members, the leaders are the
    order, rotated. *)
Lemma leaders_rotate (members : list NodeId) (view : View) :
  members ≠ [] → 0 <= view →
  (λ i, leader members (view + Z.of_nat i)) <$> seq 0 (length members) =
  Some <$> rotate (Z.to_nat view) members.
Proof.
  intros Hne Hv. apply list_eq_same_length with (length members);
    [by rewrite length_fmap, length_rotate|by rewrite length_fmap, length_seq|].
  intros i x y Hi. rewrite !list_lookup_fmap.
  rewrite lookup_seq_lt by done. rewrite lookup_rotate_r by done. simpl.
  assert (E : leader members (view + Z.of_nat i) =
    members !! rotate_nat_add (Z.to_nat view) i (length members)).
  { unfold leader, rotate_nat_add. destruct members as [|m ms]; [done|]. f_equal. f_equal. f_equal. lia. }
  rewrite E. destruct (members !! _); simpl; congruence.
Qed.

Lemma rotate_perm {A} n (l : list A) : rotate n l ≡ₚ l.
Proof. unfold rotate. by rewrite Permutation_app_comm, take_drop. Qed.

Lemma sorted_adjacent (l : list Z) :
  StronglySorted Z.le l → has_adjacent l = false ↔ NoDup l.
Proof.
  induction 1 as [|a l Hs IH Ha]; [split; [constructor|done]|].
  destruct l as [|b l].
  { split; [|done]. intros _. constructor; [apply not_elem_of_nil|constructor]. }
  cbn [has_adjacent]. rewrite orb_false_iff, NoDup_cons, IH. split.
  - intros [Hab%Z.eqb_neq Hn]. split; [|done]. intros Hin.
    inversion Hs as [|? ? _ Hb]; subst. rewrite Forall_forall in Ha, Hb.
    assert (a <= b) by (apply Ha, elem_of_cons; by left).
    apply elem_of_cons in Hin as [->|Hin]; [done|]. specialize (Hb a Hin). lia.
  - intros [Hin Hn]. split; [|done]. apply Z.eqb_neq. intros ->. apply Hin, elem_of_cons. by left.
Qed.

Lemma from_nodes_spec nodes t :
  from_nodes nodes = Some t ↔
  NoDup nodes ∧ t1_members t = merge_sort Z.le nodes.
Proof.
  unfold from_nodes. pose proof (StronglySorted_merge_sort Z.le nodes) as Hs.
  pose proof (sorted_adjacent _ Hs) as Ha.
  assert (Hnd : NoDup (merge_sort Z.le nodes) ↔ NoDup nodes) by by rewrite merge_sort_Permutation.
  rewrite Hnd in Ha.
  destruct (has_adjacent _).
  - split; [done|]. intros [Hn _]. by apply Ha in Hn.
  - split; [intros [= <-]; by split; [apply Ha|]|]. intros [_ E]. destruct t. by rewrite <-E.
Qed.

Lemma from_nodes_members nodes t :
  from_nodes nodes = Some t → t1_members t ≡ₚ nodes ∧ NoDup (t1_members t).
Proof.
  intros [Hn ->]%from_nodes_spec. rewrite merge_sort_Permutation. done.
Qed.

Lemma from_nodes_input_order nodes nodes' :
  nodes ≡ₚ nodes' → from_nodes nodes = from_nodes nodes'.
Proof.
  intros Hp. unfold from_nodes. assert (merge_sort Z.le nodes = merge_sort Z.le nodes') as ->; [|done].
  apply (StronglySorted_unique Z.le); [apply (StronglySorted_merge_sort Z.le)..|].
  by rewrite !merge_sort_Permutation.
Qed.

Definition pacemaker_ok (p : Pacemaker) : Prop :=
  kViewTimeoutBaseMs <= timeout_ms_ p <= kViewTimeoutMaxMs ∧
  0 <= consecutive_commits_ p < kTimeoutResetAfterCommittedBlocks.

Lemma on_timeout_doubles p :
  pacemaker_ok p → timeout_ms_ (on_timeout p) = Z.min (2 * timeout_ms_ p) kViewTimeoutMaxMs.
Proof.
  unfold pacemaker_ok, on_timeout, kViewTimeoutBackoffFactor, kViewTimeoutBaseMs,
    kViewTimeoutMaxMs, two64. cbn. intros [Ht _].
  rewrite std_min_spec, Z.mod_small by lia. lia.
Qed.

Lemma on_timeout_ok p : pacemaker_ok p → pacemaker_ok (on_timeout p).
Proof.
  intros Hp. unfold pacemaker_ok at 1. rewrite on_timeout_doubles by done.
  unfold pacemaker_ok, kViewTimeoutBaseMs, kViewTimeoutMaxMs, kTimeoutResetAfterCommittedBlocks in *.
  cbn. lia.
Qed.

Lemma on_committed_block_ok p : pacemaker_ok p → pacemaker_ok (on_committed_block p).
Proof.
  unfold pacemaker_ok, on_committed_block, u32_add, kTimeoutResetAfterCommittedBlocks, two32,
    kViewTimeoutBaseMs, kViewTimeoutMaxMs.
  intros [Ht Hc]. rewrite Z.mod_small by lia.
  destruct (Z.leb_spec 3 (consecutive_commits_ p + 1)); cbn; lia.
Qed.

(** [k] timeouts in a row. *)
Fixpoint after_timeouts (k : nat) (p : Pacemaker) : Pacemaker :=
  match k with O => p | S k' => on_timeout (after_timeouts k' p) end.

Lemma repeated_timeouts p k :
  pacemaker_ok p →
  timeout_ms_ (after_timeouts k p) = Z.min (2 ^ Z.of_nat k * timeout_ms_ p) kViewTimeoutMaxMs ∧
  pacemaker_ok (after_timeouts k p).
Proof.
  intros Hp. induction k as [|k [IH Hk]]; cbn [after_timeouts].
  - split; [|done]. unfold pacemaker_ok in Hp. change (2 ^ Z.of_nat 0) with 1. lia.
  - split; [|by apply on_timeout_ok].
    rewrite on_timeout_doubles by done. rewrite IH, Nat2Z.inj_succ, Z.pow_succ_r by lia.
    unfold pacemaker_ok, kViewTimeoutBaseMs, kViewTimeoutMaxMs in *. lia.
Qed.

(** Three commits in a row reset the timeout. *)
Lemma three_commits_reset p :
  pacemaker_ok p → consecutive_commits_ p = 0 →
  on_committed_block (on_committed_block (on_committed_block p)) = new_pacemaker.
Proof. intros _ E. destruct p as [t c]. cbn in E. subst c. reflexivity. Qed.
