(* ===== verification/ConsensusTypes.v ===== *)
(** * Consensus wire types and their digests

    Models [Security/Consensus/ConsensusTypes.{hpp,cpp}], the payload of
    [BlockPayload.{hpp,cpp}], the vote keys of [VoteKey.cpp] and the data of
    [CommitProof.hpp] and [HotStuffState.hpp]. Each digest is the SHA-256 of a
    canonical encoding; the encoder of each message is a definition of its own,
    so that the theorems can speak of the bytes that are hashed.

    The theorems show that an encoding determines its message, that two kinds
    of message never share an encoding, and that a certificate's digest depends
    on the set of its signers and never on their order. *)

From S2P Require Import Prelude SecurityPolicy CanonicalEncoding.

(** ** Data *)

Record Proposal := mkProposal {
  p_security_ruleset : Z;
  p_consensus_ruleset : Z;
  p_network_id : NetworkId;
  p_epoch : EpochId;
  p_height : Height;
  p_view : View;
  p_leader : NodeId;
  p_parent_digest : Digest;
  p_justify_qc_digest : Digest;
  p_previous_state_root : Digest;
  p_proposed_state_root : Digest;
  p_transitions_digest : Digest;
  p_timestamp_hint : Z;
}.

Record Vote := mkVote {
  v_consensus_ruleset : Z;
  v_network_id : NetworkId;
  v_epoch : EpochId;
  v_height : Height;
  v_view : View;
  v_proposal_digest : Digest;
  v_voter : NodeId;
  v_signature : Ed25519Signature;
}.

Record TimeoutVote := mkTimeoutVote {
  t_consensus_ruleset : Z;
  t_network_id : NetworkId;
  t_epoch : EpochId;
  t_view : View;
  t_high_qc_digest : Digest;
  t_voter : NodeId;
  t_signature : Ed25519Signature;
}.

Record QcSigner := mkQcSigner { s_node_id : NodeId; s_signature : Ed25519Signature }.

Record QuorumCertificate := mkQC {
  qc_format_version : Z;
  qc_consensus_ruleset : Z;
  qc_network_id : NetworkId;
  qc_epoch : EpochId;
  qc_height : Height;
  qc_view : View;
  qc_proposal_digest : Digest;
  qc_signers : list QcSigner;
}.

Record TimeoutSigner := mkTimeoutSigner {
  ts_node_id : NodeId;
  ts_high_qc_digest : Digest;
  ts_signature : Ed25519Signature;
}.

Record TimeoutCertificate := mkTC {
  tc_consensus_ruleset : Z;
  tc_network_id : NetworkId;
  tc_epoch : EpochId;
  tc_view : View;
  tc_signers : list TimeoutSigner;
}.

Record ConsensusCommit := mkCommit {
  c_epoch : EpochId;
  c_height : Height;
  c_view : View;
  c_proposal_digest : Digest;
  c_proposed_state_root : Digest;
  c_transitions_digest : Digest;
  c_qc_digest : Digest;
}.

Record CertifiedChain := mkChain {
  ch_chain : list (Proposal * QuorumCertificate);
  ch_certifying : QuorumCertificate;
}.

Inductive ConsensusFailure :=
  | FormatVersion | RulesetMismatch | NetworkMismatch | EpochMismatch | ViewMismatch
  | TooManySignatures | DuplicateSigner | UnknownSigner | InvalidSignature
  | InsufficientQuorum | ProposalDigestMismatch | NotSynced | StaleView | ViewTooFar
  | WrongLeader | JustifyInvalid | ParentQcMismatch | MissingParent | Equivocation
  | PendingLimit | NotLeader | StorageRejected | TransitionUnknown.

Record HotStuffState := mkState {
  st_epoch : EpochId;
  st_consensus_ruleset : Z;
  st_last_voted_view : View;
  st_high_qc : QuorumCertificate;
  st_locked_qc : QuorumCertificate;
}.

Inductive BlockPayloadKind :=
  | TreeBatch | StorageHolderPlan | StorageKeyRotation | UpgradeProgress.

Record BlockPayload := mkPayload { bp_kind : BlockPayloadKind; bp_body : list Z }.

Record CommittedBlock := mkCommitted {
  cb_proposal : Proposal;
  cb_justify : QuorumCertificate;
}.

Record CommitProof := mkProof {
  cp_chain : list CommittedBlock;
  cp_certifying : QuorumCertificate;
}.

Record EpochVoteKey := mkVoteKey {
  vk_epoch : EpochId;
  vk_node_id : NodeId;
  vk_public_key : Ed25519PublicKey;
  vk_private_key : list Z;
}.

#[export] Instance Proposal_eq_dec : EqDecision Proposal.
Proof. solve_decision. Defined.
#[export] Instance Vote_eq_dec : EqDecision Vote.
Proof. solve_decision. Defined.
#[export] Instance QcSigner_eq_dec : EqDecision QcSigner.
Proof. solve_decision. Defined.
#[export] Instance QuorumCertificate_eq_dec : EqDecision QuorumCertificate.
Proof. solve_decision. Defined.
#[export] Instance ConsensusFailure_eq_dec : EqDecision ConsensusFailure.
Proof. solve_decision. Defined.
#[export] Instance ConsensusCommit_eq_dec : EqDecision ConsensusCommit.
Proof. solve_decision. Defined.
#[export] Instance BlockPayloadKind_eq_dec : EqDecision BlockPayloadKind.
Proof. solve_decision. Defined.

(** ** Signer order

    [std::sort] with the comparators of [qc_digest] and
    [timeout_certificate_digest]: by node, then by the remaining fields. *)

Definition signer_le (a b : QcSigner) : Prop :=
  s_node_id a < s_node_id b ∨
  (s_node_id a = s_node_id b ∧ s_signature a <= s_signature b).
#[export] Instance signer_le_dec : RelDecision signer_le.
Proof. intros a b. unfold signer_le. apply _. Defined.

Definition timeout_signer_le (a b : TimeoutSigner) : Prop :=
  ts_node_id a < ts_node_id b ∨
  (ts_node_id a = ts_node_id b ∧
   (ts_high_qc_digest a < ts_high_qc_digest b ∨
    (ts_high_qc_digest a = ts_high_qc_digest b ∧ ts_signature a <= ts_signature b))).
#[export] Instance timeout_signer_le_dec : RelDecision timeout_signer_le.
Proof. intros a b. unfold timeout_signer_le. apply _. Defined.

(** ** Encoders and digests *)

Definition make_encoder (kind : string) : CanonicalEncoder :=
  add_string (new_encoder kBftProtocolDomain) kind.

Definition proposal_encoder (p : Proposal) : CanonicalEncoder :=
  let e := make_encoder "proposal" in
  let e := add_u16 e (p_security_ruleset p) in
  let e := add_u16 e (p_consensus_ruleset p) in
  let e := add_digest e (p_network_id p) in
  let e := add_u64 e (p_epoch p) in
  let e := add_u64 e (p_height p) in
  let e := add_u64 e (p_view p) in
  let e := add_digest e (p_leader p) in
  let e := add_digest e (p_parent_digest p) in
  let e := add_digest e (p_justify_qc_digest p) in
  let e := add_digest e (p_previous_state_root p) in
  let e := add_digest e (p_proposed_state_root p) in
  let e := add_digest e (p_transitions_digest p) in
  add_u64 e (p_timestamp_hint p).

Definition vote_encoder (consensus_ruleset : Z) (network_id : NetworkId) (epoch : EpochId)
    (height : Height) (view : View) (proposal_digest : Digest) (voter : NodeId)
    : CanonicalEncoder :=
  let e := make_encoder "vote" in
  let e := add_u16 e consensus_ruleset in
  let e := add_digest e network_id in
  let e := add_u64 e epoch in
  let e := add_u64 e height in
  let e := add_u64 e view in
  let e := add_digest e proposal_digest in
  add_digest e voter.

Definition timeout_vote_encoder (consensus_ruleset : Z) (network_id : NetworkId)
    (epoch : EpochId) (view : View) (high_qc_digest : Digest) (voter : NodeId)
    : CanonicalEncoder :=
  let e := make_encoder "timeout-vote" in
  let e := add_u16 e consensus_ruleset in
  let e := add_digest e network_id in
  let e := add_u64 e epoch in
  let e := add_u64 e view in
  let e := add_digest e high_qc_digest in
  add_digest e voter.

Definition qc_encoder (certificate : QuorumCertificate) : CanonicalEncoder :=
  let e := make_encoder "qc" in
  let e := add_u16 e (qc_format_version certificate) in
  let e := add_u16 e (qc_consensus_ruleset certificate) in
  let e := add_digest e (qc_network_id certificate) in
  let e := add_u64 e (qc_epoch certificate) in
  let e := add_u64 e (qc_height certificate) in
  let e := add_u64 e (qc_view certificate) in
  let e := add_digest e (qc_proposal_digest certificate) in
  let signers := merge_sort signer_le (qc_signers certificate) in
  let e := add_u64 e (Z.of_nat (length signers)) in
  foldl (λ e signer, add_signature (add_digest e (s_node_id signer)) (s_signature signer))
    e signers.

Definition timeout_certificate_encoder (certificate : TimeoutCertificate) : CanonicalEncoder :=
  let e := make_encoder "tc" in
  let e := add_u16 e (tc_consensus_ruleset certificate) in
  let e := add_digest e (tc_network_id certificate) in
  let e := add_u64 e (tc_epoch certificate) in
  let e := add_u64 e (tc_view certificate) in
  let signers := merge_sort timeout_signer_le (tc_signers certificate) in
  let e := add_u64 e (Z.of_nat (length signers)) in
  foldl (λ e signer,
      add_signature (add_digest (add_digest e (ts_node_id signer)) (ts_high_qc_digest signer))
        (ts_signature signer))
    e signers.

Definition block_payload_kind_value (k : BlockPayloadKind) : Z :=
  match k with
  | TreeBatch => 1 | StorageHolderPlan => 2 | StorageKeyRotation => 3 | UpgradeProgress => 4
  end.

Definition block_payload_kind_known (kind : Z) : bool :=
  (kind =? block_payload_kind_value TreeBatch) ||
  (kind =? block_payload_kind_value StorageHolderPlan) ||
  (kind =? block_payload_kind_value StorageKeyRotation) ||
  (kind =? block_payload_kind_value UpgradeProgress).

Definition block_payload_encoder (payload : BlockPayload) : CanonicalEncoder :=
  let e := new_encoder kBftProtocolDomain in
  let e := add_string e "block-payload" in
  let e := add_u16 e (block_payload_kind_value (bp_kind payload)) in
  add_bytes e (bp_body payload).

Section digests.
Context `{Sodium}.

Definition proposal_digest (proposal : Proposal) : Digest := digest (proposal_encoder proposal).

Definition vote_signing_digest (consensus_ruleset : Z) (network_id : NetworkId)
    (epoch : EpochId) (height : Height) (view : View) (proposal_digest : Digest)
    (voter : NodeId) : Digest :=
  digest (vote_encoder consensus_ruleset network_id epoch height view proposal_digest voter).

Definition vote_signing_digest_of (vote : Vote) : Digest :=
  vote_signing_digest (v_consensus_ruleset vote) (v_network_id vote) (v_epoch vote)
    (v_height vote) (v_view vote) (v_proposal_digest vote) (v_voter vote).

Definition timeout_vote_signing_digest (consensus_ruleset : Z) (network_id : NetworkId)
    (epoch : EpochId) (view : View) (high_qc_digest : Digest) (voter : NodeId) : Digest :=
  digest (timeout_vote_encoder consensus_ruleset network_id epoch view high_qc_digest voter).

Definition timeout_vote_signing_digest_of (vote : TimeoutVote) : Digest :=
  timeout_vote_signing_digest (t_consensus_ruleset vote) (t_network_id vote) (t_epoch vote)
    (t_view vote) (t_high_qc_digest vote) (t_voter vote).

Definition qc_digest (certificate : QuorumCertificate) : Digest :=
  digest (qc_encoder certificate).

Definition timeout_certificate_digest (certificate : TimeoutCertificate) : Digest :=
  digest (timeout_certificate_encoder certificate).

Definition consensus_state_record_digest (high_qc locked_qc : QuorumCertificate)
    (consensus_ruleset : Z) (epoch : EpochId) (last_voted_view : View) : Digest :=
  let e := make_encoder "safety-record" in
  let e := add_u32 e kConsensusStoreFormatVersion in
  let e := add_u64 e epoch in
  let e := add_u16 e consensus_ruleset in
  let e := add_u64 e last_voted_view in
  let e := add_digest e (qc_digest high_qc) in
  digest (add_digest e (qc_digest locked_qc)).

Definition consensus_commit_record_digest (commit : ConsensusCommit) : Digest :=
  let e := make_encoder "commit-record" in
  let e := add_u32 e kConsensusStoreFormatVersion in
  let e := add_u64 e (c_epoch commit) in
  let e := add_u64 e (c_height commit) in
  let e := add_u64 e (c_view commit) in
  let e := add_digest e (c_proposal_digest commit) in
  let e := add_digest e (c_proposed_state_root commit) in
  let e := add_digest e (c_transitions_digest commit) in
  digest (add_digest e (c_qc_digest commit)).

Definition consensus_chain_record_digest (epoch : EpochId) (chain : CertifiedChain) : Digest :=
  let e := make_encoder "chain-record" in
  let e := add_u32 e kConsensusStoreFormatVersion in
  let e := add_u64 e epoch in
  let e := add_u64 e (Z.of_nat (length (ch_chain chain))) in
  let e := foldl (λ e '(proposal, justify),
      add_digest (add_digest e (proposal_digest proposal)) (qc_digest justify))
    e (ch_chain chain) in
  digest (add_digest e (qc_digest (ch_certifying chain))).

Definition block_payload_digest (payload : BlockPayload) : Digest :=
  digest (block_payload_encoder payload).

(** ** Vote keys

    [sign_digest] throws when the key holds no secret key or libsodium reports
    an error: [None]. *)

Definition sign_digest (key : EpochVoteKey) (d : Digest) : option Ed25519Signature :=
  if negb (Z.of_nat (length (vk_private_key key)) =? Z.of_nat kEd25519PrivateKeySize)
  then None
  else crypto_sign_detached (vk_private_key key) d.

Definition verify_digest (public_key : Ed25519PublicKey) (d : Digest)
    (signature : Ed25519Signature) : bool :=
  crypto_sign_verify_detached signature d public_key.
End digests.

(** ** Well-formed messages: every field is in the range of its C++ type. *)

Definition wf_proposal (p : Proposal) : Prop :=
  is_u16 (p_security_ruleset p) ∧ is_u16 (p_consensus_ruleset p) ∧
  is_digest (p_network_id p) ∧ is_u64 (p_epoch p) ∧ is_u64 (p_height p) ∧
  is_u64 (p_view p) ∧ is_digest (p_leader p) ∧ is_digest (p_parent_digest p) ∧
  is_digest (p_justify_qc_digest p) ∧ is_digest (p_previous_state_root p) ∧
  is_digest (p_proposed_state_root p) ∧ is_digest (p_transitions_digest p) ∧
  is_u64 (p_timestamp_hint p).

Definition wf_signer (s : QcSigner) : Prop :=
  is_digest (s_node_id s) ∧ is_signature (s_signature s).

Definition wf_qc (c : QuorumCertificate) : Prop :=
  is_u16 (qc_format_version c) ∧ is_u16 (qc_consensus_ruleset c) ∧
  is_digest (qc_network_id c) ∧ is_u64 (qc_epoch c) ∧ is_u64 (qc_height c) ∧
  is_u64 (qc_view c) ∧ is_digest (qc_proposal_digest c) ∧
  Forall wf_signer (qc_signers c).

(** ** Lemmas: an encoding determines its message *)

Definition proposal_fields (p : Proposal) : list (list Z) :=
  [ string_bytes kBftProtocolDomain; string_bytes "proposal";
    le_bytes 2 (p_security_ruleset p); le_bytes 2 (p_consensus_ruleset p);
    be_bytes 32 (p_network_id p); le_bytes 8 (p_epoch p); le_bytes 8 (p_height p);
    le_bytes 8 (p_view p); be_bytes 32 (p_leader p); be_bytes 32 (p_parent_digest p);
    be_bytes 32 (p_justify_qc_digest p); be_bytes 32 (p_previous_state_root p);
    be_bytes 32 (p_proposed_state_root p); be_bytes 32 (p_transitions_digest p);
    le_bytes 8 (p_timestamp_hint p) ].

Definition vote_fields (ruleset network epoch height view d voter : Z) : list (list Z) :=
  [ string_bytes kBftProtocolDomain; string_bytes "vote"; le_bytes 2 ruleset;
    be_bytes 32 network; le_bytes 8 epoch; le_bytes 8 height; le_bytes 8 view;
    be_bytes 32 d; be_bytes 32 voter ].

Definition timeout_vote_fields (ruleset network epoch view d voter : Z) : list (list Z) :=
  [ string_bytes kBftProtocolDomain; string_bytes "timeout-vote"; le_bytes 2 ruleset;
    be_bytes 32 network; le_bytes 8 epoch; le_bytes 8 view; be_bytes 32 d;
    be_bytes 32 voter ].

Definition signer_fields (s : QcSigner) : list (list Z) :=
  [ be_bytes 32 (s_node_id s); be_bytes 64 (s_signature s) ].

Definition qc_fields (c : QuorumCertificate) : list (list Z) :=
  [ string_bytes kBftProtocolDomain; string_bytes "qc"; le_bytes 2 (qc_format_version c);
    le_bytes 2 (qc_consensus_ruleset c); be_bytes 32 (qc_network_id c);
    le_bytes 8 (qc_epoch c); le_bytes 8 (qc_height c); le_bytes 8 (qc_view c);
    be_bytes 32 (qc_proposal_digest c);
    le_bytes 8 (Z.of_nat (length (merge_sort signer_le (qc_signers c)))) ] ++
  (merge_sort signer_le (qc_signers c) ≫= signer_fields).

Ltac solve_field_ok :=
  repeat (apply Forall_cons; split;
    [first [apply field_ok_le_bytes; lia | apply field_ok_be_bytes; lia | vm_compute; done]|]);
  try apply Forall_nil_2.

Lemma proposal_encoder_fields p : proposal_encoder p = encode_fields (proposal_fields p).
Proof. reflexivity. Qed.

Lemma vote_encoder_fields a b c d e f g :
  vote_encoder a b c d e f g = encode_fields (vote_fields a b c d e f g).
Proof. reflexivity. Qed.

Lemma timeout_vote_encoder_fields a b c d e f :
  timeout_vote_encoder a b c d e f = encode_fields (timeout_vote_fields a b c d e f).
Proof. reflexivity. Qed.

Lemma foldl_signer_fields e l :
  foldl (λ e signer, add_signature (add_digest e (s_node_id signer)) (s_signature signer)) e l =
  foldl put_length_prefixed e (l ≫= signer_fields).
Proof. revert e. induction l as [|s l IH]; intros e; [done|]. simpl. apply IH. Qed.

Lemma qc_encoder_fields c : qc_encoder c = encode_fields (qc_fields c).
Proof.
  unfold qc_encoder, qc_fields, encode_fields. rewrite foldl_app, foldl_signer_fields. reflexivity.
Qed.

Lemma proposal_fields_ok p : Forall field_ok (proposal_fields p).
Proof. unfold proposal_fields. solve_field_ok. Qed.
Lemma vote_fields_ok a b c d e f g : Forall field_ok (vote_fields a b c d e f g).
Proof. unfold vote_fields. solve_field_ok. Qed.
Lemma timeout_vote_fields_ok a b c d e f : Forall field_ok (timeout_vote_fields a b c d e f).
Proof. unfold timeout_vote_fields. solve_field_ok. Qed.

Lemma qc_fields_ok c : Forall field_ok (qc_fields c).
Proof.
  unfold qc_fields. apply Forall_app_2; [solve_field_ok|].
  apply Forall_bind. apply Forall_true. intros s. unfold signer_fields. solve_field_ok.
Qed.

#[export] Instance signer_le_trans : Transitive signer_le.
Proof. intros [] [] []. unfold signer_le. simpl. lia. Qed.
#[export] Instance signer_le_total : Total signer_le.
Proof. intros [] []. unfold signer_le. simpl. lia. Qed.
#[export] Instance signer_le_antisymm : AntiSymm (=) signer_le.
Proof. intros [] []. unfold signer_le. simpl. intros. f_equal; lia. Qed.

Lemma merge_sort_signers_perm l l' :
  l ≡ₚ l' → merge_sort signer_le l = merge_sort signer_le l'.
Proof.
  intros Hp. apply (StronglySorted_unique signer_le);
    [apply StronglySorted_merge_sort; apply _..|].
  by rewrite !merge_sort_Permutation.
Qed.

Lemma signer_fields_inj l l' :
  Forall wf_signer l → Forall wf_signer l' → (l ≫= signer_fields) = (l' ≫= signer_fields) → l = l'.
Proof.
  intros Hl. revert l'. induction Hl as [|[n s] l [Hn Hs] Hl IH]; intros [|[n' s'] l'] Hl' E;
    [done..|].
  apply Forall_cons in Hl' as [[Hn' Hs'] Hl'].
  change (signer_fields (mkQcSigner n s) ++ (l ≫= signer_fields) =
          signer_fields (mkQcSigner n' s') ++ (l' ≫= signer_fields)) in E.
  apply list_cons_eq in E as [En E]. apply list_cons_eq in E as [Es E].
  f_equal; [|by apply IH].
  f_equal; [by apply be32_inj|by apply be64_inj].
Qed.

Lemma proposal_encoder_inj p q :
  wf_proposal p → wf_proposal q → proposal_encoder p = proposal_encoder q → p = q.
Proof.
  rewrite !proposal_encoder_fields. intros Hp Hq E.
  apply encode_fields_inj in E; [|apply proposal_fields_ok..].
  destruct p, q. unfold wf_proposal in *. cbn in Hp, Hq. destruct_and!.
  unfold proposal_fields in E. cbn [p_security_ruleset p_consensus_ruleset p_network_id p_epoch
    p_height p_view p_leader p_parent_digest p_justify_qc_digest p_previous_state_root
    p_proposed_state_root p_transitions_digest p_timestamp_hint] in E.
  split_list_eq E. f_equal; eauto with nexus.
Qed.

Lemma vote_encoder_inj r n e h v d i r' n' e' h' v' d' i' :
  is_u16 r → is_digest n → is_u64 e → is_u64 h → is_u64 v → is_digest d → is_digest i →
  is_u16 r' → is_digest n' → is_u64 e' → is_u64 h' → is_u64 v' → is_digest d' → is_digest i' →
  vote_encoder r n e h v d i = vote_encoder r' n' e' h' v' d' i' →
  r = r' ∧ n = n' ∧ e = e' ∧ h = h' ∧ v = v' ∧ d = d' ∧ i = i'.
Proof.
  intros. rewrite !vote_encoder_fields in *.
  match goal with E : encode_fields _ = _ |- _ =>
    apply encode_fields_inj in E; [|apply vote_fields_ok..]; unfold vote_fields in E;
    split_list_eq E end.
  repeat split; eauto with nexus.
Qed.

(** Same header, and the same signers up to their order. *)
Definition qc_equiv (c d : QuorumCertificate) : Prop :=
  qc_format_version c = qc_format_version d ∧
  qc_consensus_ruleset c = qc_consensus_ruleset d ∧
  qc_network_id c = qc_network_id d ∧ qc_epoch c = qc_epoch d ∧
  qc_height c = qc_height d ∧ qc_view c = qc_view d ∧
  qc_proposal_digest c = qc_proposal_digest d ∧ qc_signers c ≡ₚ qc_signers d.

#[export] Instance qc_equiv_equivalence : Equivalence qc_equiv.
Proof.
  split.
  - intros c. by repeat split.
  - intros c d H. unfold qc_equiv in *. destruct_and!. repeat split; try by symmetry.
  - intros c d e H1 H2. unfold qc_equiv in *. destruct_and!.
    repeat split; etrans; eassumption.
Qed.

#[export] Instance qc_encoder_proper : Proper (qc_equiv ==> (=)) qc_encoder.
Proof.
  intros c d H. unfold qc_equiv in H. destruct_and!.
  rewrite !qc_encoder_fields. unfold qc_fields.
  rewrite (merge_sort_signers_perm (qc_signers c) (qc_signers d)) by done.
  congruence.
Qed.

#[export] Instance qc_digest_proper `{Sodium} : Proper (qc_equiv ==> (=)) qc_digest.
Proof. intros c d E. unfold qc_digest. by rewrite E. Qed.

Lemma qc_encoder_inj c d :
  wf_qc c → wf_qc d → qc_encoder c = qc_encoder d → qc_equiv c d.
Proof.
  intros Hc Hd. rewrite !qc_encoder_fields. intros E.
  apply encode_fields_inj in E; [|apply qc_fields_ok..].
  unfold wf_qc, qc_fields in *. destruct_and!. simpl app in E.
  split_list_eq E. apply signer_fields_inj in E;
    [|by rewrite merge_sort_Permutation..].
  unfold qc_equiv. repeat split; eauto with nexus.
  rewrite <-(merge_sort_Permutation signer_le (qc_signers c)), E.
  apply merge_sort_Permutation.
Qed.

Lemma encoder_kind_separation kind kind' rest rest' :
  Forall field_ok (string_bytes kBftProtocolDomain :: string_bytes kind :: rest) →
  Forall field_ok (string_bytes kBftProtocolDomain :: string_bytes kind' :: rest') →
  encode_fields (string_bytes kBftProtocolDomain :: string_bytes kind :: rest) =
    encode_fields (string_bytes kBftProtocolDomain :: string_bytes kind' :: rest') →
  kind = kind'.
Proof.
  intros Hf Hf' E. apply encode_fields_inj in E; [|done..].
  apply list_cons_eq in E as [_ E]. apply list_cons_eq in E as [E _].
  by apply string_bytes_inj.
Qed.

Lemma vote_not_proposal r n e h v d i p :
  vote_encoder r n e h v d i ≠ proposal_encoder p.
Proof.
  rewrite vote_encoder_fields, proposal_encoder_fields. intros E.
  apply encoder_kind_separation in E; [done| |]; [apply vote_fields_ok|apply proposal_fields_ok].
Qed.

Lemma vote_not_timeout r n e h v d i r' n' e' v' d' i' :
  vote_encoder r n e h v d i ≠ timeout_vote_encoder r' n' e' v' d' i'.
Proof.
  rewrite vote_encoder_fields, timeout_vote_encoder_fields. intros E.
  apply encoder_kind_separation in E; [done| |];
    [apply vote_fields_ok|apply timeout_vote_fields_ok].
Qed.

Lemma qc_not_proposal c p : qc_encoder c ≠ proposal_encoder p.
Proof.
  rewrite qc_encoder_fields, proposal_encoder_fields. intros E.
  pose proof (qc_fields_ok c) as Hc. unfold qc_fields in E, Hc. simpl app in E, Hc.
  apply encoder_kind_separation in E; [done|done|apply proposal_fields_ok].
Qed.

(** * The consensus store as the replica sees it

    Models the interface [IConsensusStore] of [Consensus/ConsensusStore.hpp]
    as a class over the store's state, and what its contract promises to
    [HotStuffService] as a second class of laws. The replica's theorems use the
    laws; [StoreTheorems] proves them of the file implementation. *)

Inductive LoadResult := Absent | Corrupt.

Class IConsensusStore (S : Type) := {
  store_before_vote : HotStuffState → S → bool * S;
  load : EpochId → S → HotStuffState + LoadResult;
  store_commit : ConsensusCommit → S → bool * S;
  latest_commit : EpochId → S → option ConsensusCommit;
  store_chain : EpochId → CertifiedChain → S → bool * S;
  load_chain : EpochId → S → CertifiedChain + LoadResult;
}.

(** A safety state is on disk when [store_before_vote] returns true. When it
    returns false the record is the old one or the new one, whole. The other
    writes do not touch safety records. [storable] is the set of states whose
    fields fit their types. *)
Class ConsensusStoreLaws (S : Type) `{IConsensusStore S} (storable : HotStuffState → Prop) := {
  store_before_vote_true : ∀ st s s', storable st →
    store_before_vote st s = (true, s') → load (st_epoch st) s' = inl st;
  store_before_vote_false : ∀ st s s', storable st →
    store_before_vote st s = (false, s') →
    load (st_epoch st) s' = load (st_epoch st) s ∨ load (st_epoch st) s' = inl st;
  store_commit_load : ∀ c s e, load e (store_commit c s).2 = load e s;
  store_chain_load : ∀ e' c s e, load e (store_chain e' c s).2 = load e s;
}.
