(* ===== verification/QuorumValidation.v ===== *)
(** * Certificate validation against a frozen membership

    Models [Security/Consensus/QuorumValidation.cpp] and
    [verify_commit_proof] of [CommitProof.cpp]. The theorems give the exact
    meaning of acceptance: a certificate passes if and only if its header is
    the context's, every signer is a member, at least a quorum of distinct
    members signed, and each of them verifies; duplicates of one member never
    add weight. *)

From S2P Require Import Prelude SecurityPolicy CanonicalEncoding ConsensusTypes.

Record QcValidationContext := mkContext {
  cx_consensus_ruleset : Z;
  cx_network_id : NetworkId;
  cx_epoch : EpochId;
  cx_quorum : Z;
}.

Inductive CommitProofFailure :=
  | CpNone | WrongShape | WrongTransitions | ContextMismatch | BrokenChain
  | CertificateInvalid.

#[export] Instance CommitProofFailure_eq_dec : EqDecision CommitProofFailure.
Proof. solve_decision. Defined.

(** [distinct_signers]: the first entry per node, in order. *)
Fixpoint distinct_from {A : Type} (node : A → NodeId) (seen : gset Z) (signers : list A)
    : list A :=
  match signers with
  | [] => []
  | signer :: rest =>
      if bool_decide (node signer ∈ seen) then distinct_from node seen rest
      else signer :: distinct_from node ({[ node signer ]} ∪ seen) rest
  end.

Definition distinct_signers {A : Type} (node : A → NodeId) (signers : list A) : list A :=
  distinct_from node ∅ signers.

(** [epoch_vote_keys.contains(node)] *)
Definition is_member (epoch_vote_keys : gmap Z Ed25519PublicKey) (node : NodeId) : bool :=
  bool_decide (is_Some (epoch_vote_keys !! node)).

Section validation.
Context `{Sodium}.

(** [verify_digest(epoch_vote_keys.at(node), digest, signature)]; [at] is
    reached only for members. *)
Definition verify_member (epoch_vote_keys : gmap Z Ed25519PublicKey) (node : NodeId)
    (d : Digest) (signature : Ed25519Signature) : bool :=
  match epoch_vote_keys !! node with
  | Some key => verify_digest key d signature
  | None => false
  end.

Definition qc_signer_digest (c : QuorumCertificate) (node : NodeId) : Digest :=
  vote_signing_digest (qc_consensus_ruleset c) (qc_network_id c) (qc_epoch c)
    (qc_height c) (qc_view c) (qc_proposal_digest c) node.

Definition validate_quorum_certificate (certificate : QuorumCertificate)
    (context : QcValidationContext) (epoch_vote_keys : gmap Z Ed25519PublicKey)
    : option ConsensusFailure :=
  if negb (qc_format_version certificate =? kQcFormatVersion) then Some FormatVersion
  else if negb (qc_consensus_ruleset certificate =? cx_consensus_ruleset context)
  then Some RulesetMismatch
  else if negb (qc_network_id certificate =? cx_network_id context) then Some NetworkMismatch
  else if negb (qc_epoch certificate =? cx_epoch context) then Some EpochMismatch
  else if kMaxQcSignatures <? Z.of_nat (length (qc_signers certificate))
  then Some TooManySignatures
  else if existsb (λ s, negb (is_member epoch_vote_keys (s_node_id s))) (qc_signers certificate)
  then Some UnknownSigner
  else
    let distinct := distinct_signers s_node_id (qc_signers certificate) in
    if Z.of_nat (length distinct) <? cx_quorum context then Some InsufficientQuorum
    else if existsb (λ s,
        negb (verify_member epoch_vote_keys (s_node_id s)
                (qc_signer_digest certificate (s_node_id s)) (s_signature s))) distinct
    then Some InvalidSignature
    else None.

Definition validate_timeout_certificate (certificate : TimeoutCertificate)
    (context : QcValidationContext) (epoch_vote_keys : gmap Z Ed25519PublicKey)
    : option ConsensusFailure :=
  if negb (tc_consensus_ruleset certificate =? cx_consensus_ruleset context)
  then Some RulesetMismatch
  else if negb (tc_network_id certificate =? cx_network_id context) then Some NetworkMismatch
  else if negb (tc_epoch certificate =? cx_epoch context) then Some EpochMismatch
  else if kMaxQcSignatures <? Z.of_nat (length (tc_signers certificate))
  then Some TooManySignatures
  else if existsb (λ s, negb (is_member epoch_vote_keys (ts_node_id s))) (tc_signers certificate)
  then Some UnknownSigner
  else
    let distinct := distinct_signers ts_node_id (tc_signers certificate) in
    if Z.of_nat (length distinct) <? cx_quorum context then Some InsufficientQuorum
    else if existsb (λ s,
        negb (verify_member epoch_vote_keys (ts_node_id s)
                (timeout_vote_signing_digest (tc_consensus_ruleset certificate)
                   (tc_network_id certificate) (tc_epoch certificate) (tc_view certificate)
                   (ts_high_qc_digest s) (ts_node_id s)) (ts_signature s))) distinct
    then Some InvalidSignature
    else None.

(** The three nested blocks of a commit proof; the loops of the source run
    over them by index. *)
Definition block_in_context (context : QcValidationContext) (b : CommittedBlock) : bool :=
  let proposal := cb_proposal b in
  (p_network_id proposal =? cx_network_id context) &&
  (p_epoch proposal =? cx_epoch context) &&
  (p_consensus_ruleset proposal =? cx_consensus_ruleset context).

Definition child_links (parent_block child : CommittedBlock) : bool :=
  let parent := proposal_digest (cb_proposal parent_block) in
  (qc_proposal_digest (cb_justify child) =? parent) &&
  (p_parent_digest (cb_proposal child) =? parent) &&
  (p_height (cb_proposal child) =? p_height (cb_proposal parent_block) +64 1).

Definition verify_commit_proof (transitions_digest : Digest) (proof : CommitProof)
    (context : QcValidationContext) (epoch_vote_keys : gmap Z Ed25519PublicKey)
    : CommitProofFailure :=
  match cp_chain proof with
  | [b0; b1; b2] =>
      if negb (p_transitions_digest (cb_proposal b0) =? transitions_digest)
      then WrongTransitions
      else if existsb (λ b, negb (block_in_context context b)) [b0; b1; b2]
      then ContextMismatch
      else if negb (child_links b0 b1) || negb (child_links b1 b2) then BrokenChain
      else if negb (qc_proposal_digest (cp_certifying proof) =? proposal_digest (cb_proposal b2))
      then BrokenChain
      else if existsb (λ c,
          match validate_quorum_certificate c context epoch_vote_keys with
          | Some _ => true | None => false end)
          [cb_justify b1; cb_justify b2; cp_certifying proof]
      then CertificateInvalid
      else CpNone
  | _ => WrongShape
  end.
End validation.

(** ** The meaning of acceptance *)

Definition qc_voters (c : QuorumCertificate) : gset Z := list_to_set (s_node_id <$> qc_signers c).

Record qc_accepted `{Sodium} (cx : QcValidationContext) (keys : gmap Z Ed25519PublicKey)
    (c : QuorumCertificate) : Prop := mkAccepted {
  qa_format : qc_format_version c = kQcFormatVersion;
  qa_ruleset : qc_consensus_ruleset c = cx_consensus_ruleset cx;
  qa_network : qc_network_id c = cx_network_id cx;
  qa_epoch : qc_epoch c = cx_epoch cx;
  qa_bound : Z.of_nat (length (qc_signers c)) <= kMaxQcSignatures;
  qa_members : qc_voters c ⊆ dom keys;
  qa_quorum : cx_quorum cx <= Z.of_nat (size (qc_voters c));
  qa_first : ∀ s, s ∈ distinct_signers s_node_id (qc_signers c) →
    verify_member keys (s_node_id s) (qc_signer_digest c (s_node_id s)) (s_signature s) = true;
}.

(** ** Lemmas *)

Lemma elem_of_distinct_from {A} (node : A → NodeId) seen l x :
  x ∈ node <$> distinct_from node seen l ↔ x ∈ node <$> l ∧ x ∉ seen.
Proof.
  revert seen. induction l as [|s l IH]; intros seen; simpl.
  { rewrite !elem_of_nil. tauto. }
  case_bool_decide as Hs; rewrite ?fmap_cons, !elem_of_cons, IH.
  - split; [tauto|]. intros [[->|?] ?]; [done|tauto].
  - rewrite elem_of_union, elem_of_singleton.
    destruct (decide (x = node s)) as [->|]; tauto.
Qed.

Lemma NoDup_distinct_from {A} (node : A → NodeId) seen l :
  NoDup (node <$> distinct_from node seen l).
Proof.
  revert seen. induction l as [|s l IH]; intros seen; simpl; [constructor|].
  case_bool_decide; [apply IH|]. simpl. constructor; [|apply IH].
  rewrite elem_of_distinct_from. set_solver.
Qed.

Lemma distinct_from_subset {A} (node : A → NodeId) seen l s :
  s ∈ distinct_from node seen l → s ∈ l.
Proof.
  revert seen. induction l as [|t l IH]; intros seen; simpl; [done|].
  case_bool_decide; rewrite ?elem_of_cons; [eauto|]. intros [->|?]; eauto.
Qed.

(** The number of distinct signers is the number of distinct nodes. *)
Lemma length_distinct_signers {A} (node : A → NodeId) l :
  length (distinct_signers node l) = size (list_to_set (node <$> l) : gset Z).
Proof.
  rewrite <-(length_fmap node), <-(size_list_to_set (C := gset Z))
    by apply NoDup_distinct_from.
  f_equal. apply set_eq. intros x. rewrite !elem_of_list_to_set.
  unfold distinct_signers. rewrite elem_of_distinct_from. set_solver.
Qed.

Lemma existsb_false {A} (f : A → bool) l :
  existsb f l = false ↔ ∀ x, x ∈ l → f x = false.
Proof.
  induction l as [|a l IH]; simpl; [set_solver|].
  rewrite orb_false_iff, IH. set_solver.
Qed.

Lemma existsb_members (keys : gmap Z Ed25519PublicKey) l :
  existsb (λ s, negb (is_member keys (s_node_id s))) l = false ↔
  list_to_set (s_node_id <$> l) ⊆ dom keys.
Proof.
  rewrite existsb_false. split.
  - intros Hs x [s [-> Hin]]%elem_of_list_to_set%list_elem_of_fmap.
    apply Hs in Hin. unfold is_member in Hin. bool_to_prop. by apply elem_of_dom.
  - intros Hs s Hin. unfold is_member. rewrite negb_false_iff, bool_decide_eq_true.
    apply elem_of_dom, Hs, elem_of_list_to_set, list_elem_of_fmap. eauto.
Qed.

Section meaning.
Context `{Sodium}.

Lemma validate_qc_spec c cx keys :
  validate_quorum_certificate c cx keys = None ↔ qc_accepted cx keys c.
Proof.
  unfold validate_quorum_certificate. split.
  - intros Hv. repeat (case_match; [done|]). bool_to_prop.
    split; try done.
    + by apply existsb_members.
    + unfold qc_voters. by rewrite <-length_distinct_signers.
    + intros s Hs. match goal with E : existsb _ (distinct_signers _ _) = false |- _ =>
        rewrite existsb_false in E; apply E in Hs end. by bool_to_prop.
  - intros [Hf Hr Hn He Hb Hm Hq Hs].
    rewrite Hf, Hr, Hn, He, !Z.eqb_refl. simpl.
    rewrite (proj2 (Z.ltb_ge _ _) Hb).
    rewrite (proj2 (existsb_members keys (qc_signers c)) Hm).
    rewrite length_distinct_signers. fold (qc_voters c). rewrite (proj2 (Z.ltb_ge _ _) Hq).
    rewrite (proj2 (existsb_false _ _)); [done|].
    intros s Hin. rewrite (Hs s Hin). done.
Qed.

(** Every member of an accepted certificate signed this vote. *)
Lemma qc_accepted_signed cx keys c n :
  qc_accepted cx keys c → n ∈ qc_voters c →
  ∃ key sig, keys !! n = Some key ∧ verify_digest key (qc_signer_digest c n) sig = true.
Proof.
  intros [Hf Hr Hn He Hb Hm Hq Hs] Hin.
  apply elem_of_list_to_set in Hin.
  assert (n ∈ s_node_id <$> distinct_signers s_node_id (qc_signers c)) as Hd.
  { unfold distinct_signers. rewrite elem_of_distinct_from. set_solver. }
  apply list_elem_of_fmap in Hd as (s & -> & Hd). specialize (Hs s Hd).
  unfold verify_member in Hs. case_match; [eauto|done].
Qed.

Lemma verify_commit_proof_shape t proof cx keys :
  verify_commit_proof t proof cx keys = CpNone →
  ∃ b0 b1 b2, cp_chain proof = [b0; b1; b2] ∧
    p_transitions_digest (cb_proposal b0) = t ∧
    child_links b0 b1 = true ∧ child_links b1 b2 = true ∧
    qc_proposal_digest (cp_certifying proof) = proposal_digest (cb_proposal b2) ∧
    qc_accepted cx keys (cb_justify b1) ∧ qc_accepted cx keys (cb_justify b2) ∧
    qc_accepted cx keys (cp_certifying proof).
Proof.
  unfold verify_commit_proof. intros Hv.
  destruct (cp_chain proof) as [|b0 [|b1 [|b2 []]]]; try done.
  exists b0, b1, b2.
  destruct (negb _) eqn:E1 in Hv; [done|]. destruct (existsb _ _) eqn:E2 in Hv; [done|].
  destruct (_ || _) eqn:E3 in Hv; [done|]. destruct (negb _) eqn:E4 in Hv; [done|].
  destruct (existsb _ _) eqn:E5 in Hv; [done|]. bool_to_prop.
  rewrite existsb_false in E5.
  split_and!; try done; apply validate_qc_spec;
    match goal with |- validate_quorum_certificate ?c _ _ = None =>
      specialize (E5 c ltac:(set_solver)); by case_match end.
Qed.
End meaning.
