(* ===== verification/EpochAuthority.v ===== *)
(** * The verified epoch authority chain

    Models [Epoch/NextEpochPlan.cpp] (the finalized records and their
    digests), [Genesis/BootstrapCertificate.cpp], [Epoch/AuthorityChain.cpp]
    and [Epoch/Tier1Membership.cpp]: from the pinned Genesis key an outside
    party derives the authority of epoch 1 and advances it handoff by handoff,
    each proved under the vote keys of the epoch before. *)

From S2P Require Import Prelude SecurityPolicy CanonicalEncoding Selection ConsensusTypes.
From S2P Require Import QuorumValidation.

(** ** The finalized records *)

Record NextEpochPlan := mkPlan {
  np_network_id : NetworkId;
  np_current_epoch : EpochId;
  np_next_epoch : EpochId;
  np_attempt : Z;
  np_checkpoint_height : Height;
  np_checkpoint_state_root : Digest;
  np_eligibility_commitment : Digest;
  np_selection_seed : Ed25519PublicKey;
  np_selected : list NodeId;
  np_incarnations : gmap Z Z;
  np_security_ruleset : Z;
  np_consensus_ruleset : Z;
  np_profile_id : Z;
  np_profile_ruleset : Z;
}.

Record ReadinessEntry := mkReadinessEntry {
  re_node : NodeId;
  re_incarnation : Z;
  re_attestation_context : Digest;
  re_vote_key : Ed25519PublicKey;
}.

Record CandidateReadiness := mkReadiness {
  cr_network_id : NetworkId;
  cr_plan_digest : Digest;
  cr_next_epoch : EpochId;
  cr_entries : list ReadinessEntry;
}.

Record EpochHandoff := mkHandoff {
  ho_network_id : NetworkId;
  ho_from_epoch : EpochId;
  ho_to_epoch : EpochId;
  ho_plan_digest : Digest;
  ho_previous_anchor : Digest;
  ho_members : list NodeId;
  ho_incarnations : gmap Z Z;
  ho_vote_keys : gmap Z Ed25519PublicKey;
  ho_group_public_key : Ed25519PublicKey;
  ho_dkg_transcript_digest : Digest;
  ho_key_generation : Z;
  ho_attestation_root : Digest;
  ho_security_ruleset : Z;
  ho_consensus_ruleset : Z;
}.

Record BootstrapCertificate := mkBootstrap {
  bc_network_id : NetworkId;
  bc_epoch : EpochId;
  bc_tier1_set_digest : Digest;
  bc_authority_threshold : Z;
  bc_authority_public_key : Ed25519PublicKey;
  bc_dkg_transcript_digest : Digest;
  bc_attestation_root : Digest;
  bc_founding_eligibility_digest : Digest;
  bc_vote_key_set_digest : Digest;
  bc_release_approval_digest : Digest;
  bc_security_ruleset : Z;
  bc_consensus_ruleset : Z;
  bc_genesis_signature : Ed25519Signature;
}.

Record VerifiedEpochAuthority := mkAuthority {
  au_network_id : NetworkId;
  au_epoch : EpochId;
  au_members : list NodeId;
  au_incarnations : gmap Z Z;
  au_vote_keys : gmap Z Ed25519PublicKey;
  au_consensus_quorum : Z;
  au_authority_threshold : Z;
  au_security_ruleset : Z;
  au_consensus_ruleset : Z;
  au_group_public_key : Ed25519PublicKey;
  au_key_generation : Z;
  au_attestation_root : Digest;
  au_checkpoint : Digest;
  au_previous_anchor : Digest;
  au_anchor_digest : Digest;
}.

Inductive HandoffChainFailure :=
  | HcNone | WrongNetwork | HcRulesetMismatch | WrongEpochs | LinkageBroken
  | MembershipInvalid | KeyReuse | KeyGenerationInvalid | ProofInvalid.

(** ** Digests *)

(** Each node with its incarnation, zero when it has none. *)
Definition add_members (e : CanonicalEncoder) (nodes : list NodeId) (incarnations : gmap Z Z)
    : CanonicalEncoder :=
  foldl (λ e node, add_u64 (add_digest e node) (default 0 (incarnations !! node)))
    (add_u64 e (Z.of_nat (length nodes))) nodes.

Definition vote_key_set_encoder (vote_keys : gmap Z Ed25519PublicKey) : CanonicalEncoder :=
  foldl (λ e '(node, key), add_digest (add_digest e node) key)
    (add_u64 (new_encoder "lemonade-nexus/vote-key-set:v1") (Z.of_nat (size vote_keys)))
    (in_order vote_keys).

Section authority.
Context `{Sodium}.

Definition vote_key_set_digest (vote_keys : gmap Z Ed25519PublicKey) : Digest :=
  digest (vote_key_set_encoder vote_keys).

Definition next_epoch_plan_digest (plan : NextEpochPlan) : Digest :=
  let e := new_encoder "lemonade-nexus/next-epoch-plan:v1" in
  let e := add_digest e (np_network_id plan) in
  let e := add_u64 e (np_current_epoch plan) in
  let e := add_u64 e (np_next_epoch plan) in
  let e := add_u32 e (np_attempt plan) in
  let e := add_u64 e (np_checkpoint_height plan) in
  let e := add_digest e (np_checkpoint_state_root plan) in
  let e := add_digest e (np_eligibility_commitment plan) in
  let e := add_digest e (np_selection_seed plan) in
  let e := add_members e (np_selected plan) (np_incarnations plan) in
  let e := add_u16 e (np_security_ruleset plan) in
  let e := add_u16 e (np_consensus_ruleset plan) in
  let e := add_u16 e (np_profile_id plan) in
  digest (add_u16 e (np_profile_ruleset plan)).

Definition candidate_readiness_digest (readiness : CandidateReadiness) : Digest :=
  let e := new_encoder "lemonade-nexus/candidate-readiness:v1" in
  let e := add_digest e (cr_network_id readiness) in
  let e := add_digest e (cr_plan_digest readiness) in
  let e := add_u64 e (cr_next_epoch readiness) in
  let e := add_u64 e (Z.of_nat (length (cr_entries readiness))) in
  digest (foldl (λ e entry,
    add_digest (add_digest (add_u64 (add_digest e (re_node entry)) (re_incarnation entry))
      (re_attestation_context entry)) (re_vote_key entry)) e (cr_entries readiness)).

Definition epoch_handoff_encoder (handoff : EpochHandoff) : CanonicalEncoder :=
  let e := new_encoder "lemonade-nexus/epoch-handoff:v3" in
  let e := add_digest e (ho_network_id handoff) in
  let e := add_u64 e (ho_from_epoch handoff) in
  let e := add_u64 e (ho_to_epoch handoff) in
  let e := add_digest e (ho_plan_digest handoff) in
  let e := add_digest e (ho_previous_anchor handoff) in
  let e := add_members e (ho_members handoff) (ho_incarnations handoff) in
  let e := add_digest e (vote_key_set_digest (ho_vote_keys handoff)) in
  let e := add_digest e (ho_group_public_key handoff) in
  let e := add_digest e (ho_dkg_transcript_digest handoff) in
  let e := add_u64 e (ho_key_generation handoff) in
  let e := add_digest e (ho_attestation_root handoff) in
  let e := add_u16 e (ho_security_ruleset handoff) in
  add_u16 e (ho_consensus_ruleset handoff).

Definition epoch_handoff_digest (handoff : EpochHandoff) : Digest :=
  digest (epoch_handoff_encoder handoff).

(** ** Genesis *)

Definition derive_network_id (genesis_public_key : Ed25519PublicKey)
    (security_ruleset consensus_ruleset : Z) : NetworkId :=
  let e := new_encoder "lemonade-nexus/network-id:v1" in
  let e := add_digest e genesis_public_key in
  digest (add_u16 (add_u16 e security_ruleset) consensus_ruleset).

Definition bootstrap_certificate_signing_digest (certificate : BootstrapCertificate) : Digest :=
  let e := new_encoder "lemonade-nexus/bootstrap-certificate:v2" in
  let e := add_digest e (bc_network_id certificate) in
  let e := add_u64 e (bc_epoch certificate) in
  let e := add_digest e (bc_tier1_set_digest certificate) in
  let e := add_u64 e (bc_authority_threshold certificate) in
  let e := add_digest e (bc_authority_public_key certificate) in
  let e := add_digest e (bc_dkg_transcript_digest certificate) in
  let e := add_digest e (bc_attestation_root certificate) in
  let e := add_digest e (bc_founding_eligibility_digest certificate) in
  let e := add_digest e (bc_vote_key_set_digest certificate) in
  let e := add_digest e (bc_release_approval_digest certificate) in
  digest (add_u16 (add_u16 e (bc_security_ruleset certificate)) (bc_consensus_ruleset certificate)).

Definition verify_bootstrap_certificate (certificate : BootstrapCertificate)
    (genesis_public_key : Ed25519PublicKey) : bool :=
  crypto_sign_verify_detached (bc_genesis_signature certificate)
    (bootstrap_certificate_signing_digest certificate) genesis_public_key.

(** ** Authorities *)

Definition verified_epoch_authority_digest (authority : VerifiedEpochAuthority) : Digest :=
  let e := new_encoder "lemonade-nexus/verified-epoch-authority:v1" in
  let e := add_digest e (au_network_id authority) in
  let e := add_u64 e (au_epoch authority) in
  let e := add_members e (au_members authority) (au_incarnations authority) in
  let e := add_digest e (vote_key_set_digest (au_vote_keys authority)) in
  let e := add_u64 e (au_consensus_quorum authority) in
  let e := add_u64 e (au_authority_threshold authority) in
  let e := add_u16 e (au_security_ruleset authority) in
  let e := add_u16 e (au_consensus_ruleset authority) in
  let e := add_digest e (au_group_public_key authority) in
  let e := add_u64 e (au_key_generation authority) in
  let e := add_digest e (au_attestation_root authority) in
  let e := add_digest e (au_checkpoint authority) in
  let e := add_digest e (au_previous_anchor authority) in
  digest (add_digest e (au_anchor_digest authority)).

Definition verify_epoch_one_authority (certificate : BootstrapCertificate)
    (genesis_public_key : Ed25519PublicKey)
    (founder_vote_keys : list (NodeId * Ed25519PublicKey)) : option VerifiedEpochAuthority :=
  if negb (verify_bootstrap_certificate certificate genesis_public_key) then None
  else if negb (bc_epoch certificate =? 1) ||
          negb (bc_security_ruleset certificate =? kSecurityRulesetVersion) ||
          negb (bc_consensus_ruleset certificate =? kConsensusRulesetVersion)
  then None
  else
    let members := founder_vote_keys.*1 in
    let keys := foldl (λ m '(node, key), <[ node := key ]> m) (∅ : gmap Z Ed25519PublicKey)
                  founder_vote_keys in
    match from_nodes members with
    | None => None
    | Some founders =>
        let n := Z.of_nat (length (t1_members founders)) in
        if negb (Z.of_nat (size keys) =? n) ||
           negb (tier1_set_digest founders =? bc_tier1_set_digest certificate) ||
           negb (vote_key_set_digest keys =? bc_vote_key_set_digest certificate)
        then None
        else if negb (bc_authority_threshold certificate =? authority_threshold n) then None
        else
          let checkpoint := bootstrap_certificate_signing_digest certificate in
          Some (mkAuthority (bc_network_id certificate) 1 (t1_members founders)
            (foldl (λ m node, <[ node := 1 ]> m) ∅ (t1_members founders)) keys
            (consensus_quorum n) (bc_authority_threshold certificate)
            (bc_security_ruleset certificate) (bc_consensus_ruleset certificate)
            (bc_authority_public_key certificate) 1 (bc_attestation_root certificate)
            checkpoint 0 checkpoint)
    end.

(** An introduced vote key equals a previous one. *)
Definition repeats_vote_key (introduced previous : gmap Z Ed25519PublicKey) : bool :=
  existsb (λ '(_, key), existsb (λ '(_, previous_key), key =? previous_key) (in_order previous))
    (in_order introduced).

Definition advance_epoch_authority (previous : VerifiedEpochAuthority) (handoff : EpochHandoff)
    (proof : CommitProof) : VerifiedEpochAuthority + HandoffChainFailure :=
  if negb (ho_network_id handoff =? au_network_id previous) then inr WrongNetwork
  else if negb (ho_security_ruleset handoff =? kSecurityRulesetVersion) ||
          negb (ho_consensus_ruleset handoff =? kConsensusRulesetVersion)
  then inr HcRulesetMismatch
  else if negb (ho_from_epoch handoff =? au_epoch previous) ||
          negb (ho_to_epoch handoff =? au_epoch previous +64 1)
  then inr WrongEpochs
  else if negb (ho_previous_anchor handoff =? au_anchor_digest previous) then inr LinkageBroken
  else match from_nodes (ho_members handoff) with
  | None => inr MembershipInvalid
  | Some members =>
      let n := Z.of_nat (length (t1_members members)) in
      if (n <? kMinActiveTier1) || negb (Z.of_nat (size (ho_vote_keys handoff)) =? n) ||
         negb (Z.of_nat (size (ho_incarnations handoff)) =? n)
      then inr MembershipInvalid
      else if existsb (λ node, negb (bool_decide (is_Some (ho_vote_keys handoff !! node))) ||
                               negb (bool_decide (is_Some (ho_incarnations handoff !! node))))
                (t1_members members)
      then inr MembershipInvalid
      else if ho_group_public_key handoff =? au_group_public_key previous then inr KeyReuse
      else if repeats_vote_key (ho_vote_keys handoff) (au_vote_keys previous) then inr KeyReuse
      else if negb (ho_key_generation handoff =? ho_to_epoch handoff)
      then inr KeyGenerationInvalid
      else
        let context := mkContext kConsensusRulesetVersion (au_network_id previous)
                         (au_epoch previous) (au_consensus_quorum previous) in
        match verify_commit_proof (epoch_handoff_digest handoff) proof context
                (au_vote_keys previous), cp_chain proof with
        | CpNone, _ :: carrier :: _ =>
            inl (mkAuthority (au_network_id previous) (ho_to_epoch handoff) (t1_members members)
              (ho_incarnations handoff) (ho_vote_keys handoff) (consensus_quorum n)
              (authority_threshold n) (ho_security_ruleset handoff)
              (ho_consensus_ruleset handoff) (ho_group_public_key handoff)
              (ho_key_generation handoff) (ho_attestation_root handoff)
              (qc_digest (cb_justify carrier)) (au_anchor_digest previous)
              (epoch_handoff_digest handoff))
        | _, _ => inr ProofInvalid
        end
  end.

(** ** The walker *)

Record EpochHandoffProofMsg := mkHandoffProof { hp_handoff : EpochHandoff; hp_proof : CommitProof }.

Record AuthorityChainPage := mkPage {
  pg_base : option (BootstrapCertificate * list (NodeId * Ed25519PublicKey));
  pg_links : list EpochHandoffProofMsg;
}.

Inductive ChainPageResult := Advanced | NoProgress | Refused.

Record AuthorityChainWalker := mkWalker {
  genesis_public_key_ : Ed25519PublicKey;
  network_id_ : NetworkId;
  epoch_one_anchor_ : Digest;
  authority_ : option VerifiedEpochAuthority;
}.

Definition new_walker (genesis_public_key : Ed25519PublicKey) : AuthorityChainWalker :=
  mkWalker genesis_public_key
    (derive_network_id genesis_public_key kSecurityRulesetVersion kConsensusRulesetVersion) 0 None.

Definition walker_epoch (w : AuthorityChainWalker) : EpochId :=
  match authority_ w with Some a => au_epoch a | None => 0 end.

(** The base of a page: [None] refuses it. *)
Definition apply_base (w : AuthorityChainWalker)
    (base : option (BootstrapCertificate * list (NodeId * Ed25519PublicKey)))
    : option AuthorityChainWalker :=
  match base with
  | None => Some w
  | Some (certificate, vote_keys) =>
      let base_anchor := bootstrap_certificate_signing_digest certificate in
      match authority_ w with
      | Some _ => if base_anchor =? epoch_one_anchor_ w then Some w else None
      | None =>
          if negb (bc_network_id certificate =? network_id_ w) then None
          else
            authority ← verify_epoch_one_authority certificate (genesis_public_key_ w) vote_keys;
            Some (mkWalker (genesis_public_key_ w) (network_id_ w) base_anchor (Some authority))
      end
  end.

(** The loop over the links; links verified before a refusal stay applied. *)
Fixpoint apply_links (authority : VerifiedEpochAuthority) (links : list EpochHandoffProofMsg)
    : VerifiedEpochAuthority * bool :=
  match links with
  | [] => (authority, true)
  | link :: rest =>
      let from_epoch := ho_from_epoch (hp_handoff link) in
      if from_epoch <? au_epoch authority then apply_links authority rest
      else if negb (from_epoch =? au_epoch authority) then (authority, false)
      else match advance_epoch_authority authority (hp_handoff link) (hp_proof link) with
           | inl next => apply_links next rest
           | inr _ => (authority, false)
           end
  end.

Definition walker_apply (w : AuthorityChainWalker) (page : AuthorityChainPage)
    : AuthorityChainWalker * ChainPageResult :=
  let before := walker_epoch w in
  match apply_base w (pg_base page) with
  | None => (w, Refused)
  | Some w =>
      match authority_ w with
      | None => (w, Refused)
      | Some authority =>
          let '(authority, ok) := apply_links authority (pg_links page) in
          let w := mkWalker (genesis_public_key_ w) (network_id_ w) (epoch_one_anchor_ w)
                     (Some authority) in
          (w, if ok then (if before <? walker_epoch w then Advanced else NoProgress)
              else Refused)
      end
  end.

(** ** Endpoint proofs *)

Record Tier1EndpointProof := mkEndpointProof {
  ep_node : NodeId;
  ep_epoch : EpochId;
  ep_host : string;
  ep_port : Z;
  ep_signature : Ed25519Signature;
}.

Inductive EndpointProofCheck :=
  | Valid | BadNonce | NotMember | OlderEpoch | NewerEpoch | WrongEndpoint | BadSignature.

(** [std::tolower] in the C locale. *)
Definition to_lower (c : Ascii.ascii) : Ascii.ascii :=
  let n := Ascii.nat_of_ascii c in
  if (65 <=? n)%nat && (n <=? 90)%nat then Ascii.ascii_of_nat (n + 32) else c.

Fixpoint lowered (host : string) : string :=
  match host with
  | EmptyString => EmptyString
  | String c rest => String (to_lower c) (lowered rest)
  end.

(** Equal sizes and equal characters up to case. *)
Fixpoint same_host (a b : string) : bool :=
  match a, b with
  | EmptyString, EmptyString => true
  | String x a', String y b' => Ascii.eqb (to_lower x) (to_lower y) && same_host a' b'
  | _, _ => false
  end.

Definition kTier1EndpointNonceBytes : nat := 32.

Definition tier1_endpoint_proof_digest (network_id : NetworkId) (epoch : EpochId) (node : NodeId)
    (host : string) (port : Z) (nonce : list Z) : Digest :=
  let e := new_encoder "lemonade-nexus/tier1-endpoint-proof:v1" in
  let e := add_digest e network_id in
  let e := add_u64 e epoch in
  let e := add_digest e node in
  let e := add_string e (lowered host) in
  digest (add_bytes (add_u16 e port) nonce).

(** The signing call's result is not checked: a failure leaves the zero
    signature. *)
Definition sign_tier1_endpoint_proof (network_id : NetworkId) (epoch : EpochId) (host : string)
    (port : Z) (nonce : list Z) (public_key : Ed25519PublicKey) (private_key : list Z)
    : Tier1EndpointProof :=
  let d := tier1_endpoint_proof_digest network_id epoch public_key host port nonce in
  mkEndpointProof public_key epoch host port (default 0 (crypto_sign_detached private_key d)).

Definition check_tier1_endpoint_proof (authority : VerifiedEpochAuthority)
    (proof : Tier1EndpointProof) (host : string) (port : Z) (nonce : list Z)
    : EndpointProofCheck :=
  if negb (bool_decide (length nonce = kTier1EndpointNonceBytes)) then BadNonce
  else if negb (bool_decide (ep_node proof ∈ au_members authority)) then NotMember
  else
    let d := tier1_endpoint_proof_digest (au_network_id authority) (ep_epoch proof)
               (ep_node proof) (ep_host proof) (ep_port proof) nonce in
    if negb (crypto_sign_verify_detached (ep_signature proof) d (ep_node proof))
    then BadSignature
    else if ep_epoch proof <? au_epoch authority then OlderEpoch
    else if au_epoch authority <? ep_epoch proof then NewerEpoch
    else if negb (ep_port proof =? port) || negb (same_host (ep_host proof) host)
    then WrongEndpoint
    else Valid.
End authority.

(** ** Trust *)

(** A well-formed authority: the membership is a sorted set of at least the
    minimum size, keyed exactly, with the thresholds of the policy. *)
Record authority_ok (a : VerifiedEpochAuthority) : Prop := mkAuthorityOk {
  ao_nodup : NoDup (au_members a);
  ao_sorted : StronglySorted Z.le (au_members a);
  ao_keys : ∀ n, n ∈ au_members a ↔ is_Some (au_vote_keys a !! n);
  ao_quorum : au_consensus_quorum a = consensus_quorum (Z.of_nat (length (au_members a)));
  ao_threshold : au_authority_threshold a = authority_threshold (Z.of_nat (length (au_members a)));
  ao_generation : au_key_generation a = au_epoch a;
  ao_rules : au_security_ruleset a = kSecurityRulesetVersion ∧
    au_consensus_ruleset a = kConsensusRulesetVersion;
}.

(** What trust from a Genesis key means: the certificate it signed, then
    handoffs each proved under the authority before. *)
Inductive trusted `{Sodium} (genesis : Ed25519PublicKey) : VerifiedEpochAuthority → Prop :=
  | trusted_base certificate keys a :
      bc_network_id certificate =
        derive_network_id genesis kSecurityRulesetVersion kConsensusRulesetVersion →
      verify_epoch_one_authority certificate genesis keys = Some a → trusted genesis a
  | trusted_link a handoff proof next :
      trusted genesis a → advance_epoch_authority a handoff proof = inl next →
      trusted genesis next.

Section lemmas.
Context `{Sodium}.

Lemma foldl_insert_keys (l : list (NodeId * Ed25519PublicKey)) (m : gmap Z Ed25519PublicKey) n :
  is_Some (foldl (λ m '(node, key), <[ node := key ]> m) m l !! n) ↔
  is_Some (m !! n) ∨ n ∈ l.*1.
Proof.
  revert m. induction l as [|[k v] l IH]; intros m; simpl.
  { rewrite elem_of_nil. tauto. }
  rewrite IH, elem_of_cons, lookup_insert. case_decide as E.
  - split; [intros _; right; left; congruence|]. intros _. left. eauto.
  - split; [tauto|]. intros [?|[?|?]]; [tauto|congruence|tauto].
Qed.

Lemma verify_epoch_one_ok certificate genesis keys a :
  verify_epoch_one_authority certificate genesis keys = Some a →
  authority_ok a ∧ au_epoch a = 1 ∧ au_network_id a = bc_network_id certificate ∧
  au_anchor_digest a = bootstrap_certificate_signing_digest certificate ∧
  verify_bootstrap_certificate certificate genesis = true.
Proof.
  unfold verify_epoch_one_authority. intros Hv.
  destruct (negb _) eqn:E1 in Hv; [done|]. destruct (_ || _) eqn:E2 in Hv; [done|].
  destruct (from_nodes keys.*1) as [founders|] eqn:Ef; [|done].
  destruct (_ || _) eqn:E3 in Hv; [done|]. destruct (negb _) eqn:E4 in Hv; [done|].
  injection Hv as <-. bool_to_prop. cbn.
  destruct (from_nodes_members _ _ Ef) as [Hp Hn].
  apply from_nodes_spec in Ef as [_ Em]. split; [|done]. split; cbn; try done.
  - rewrite Em. apply (StronglySorted_merge_sort Z.le).
  - intros n. rewrite foldl_insert_keys, Hp, lookup_empty.
    split; [by right|]. intros [[? [=]]|]; done.
Qed.

Lemma covers_exactly (members : list NodeId) (keys : gmap Z Ed25519PublicKey) :
  NoDup members → size keys = length members → (∀ n, n ∈ members → is_Some (keys !! n)) →
  ∀ n, n ∈ members ↔ is_Some (keys !! n).
Proof.
  intros Hn Hs Hin n. split; [apply Hin|]. intros Hk.
  assert (Hsub : (list_to_set members : gset Z) ⊆ dom keys).
  { intros x Hx%elem_of_list_to_set. by apply elem_of_dom, Hin. }
  assert (Heq : (list_to_set members : gset Z) = dom keys).
  { apply (set_subseteq_size_eq _ _ Hsub). rewrite size_dom, size_list_to_set by done. by rewrite Hs. }
  apply (elem_of_list_to_set (C := gset Z)). rewrite Heq. by apply elem_of_dom.
Qed.

(** Everything an accepted link establishes. *)
Lemma advance_spec a handoff proof next :
  advance_epoch_authority a handoff proof = inl next →
  authority_ok next ∧ kMinActiveTier1 <= Z.of_nat (length (au_members next)) ∧
  au_network_id next = au_network_id a ∧ ho_from_epoch handoff = au_epoch a ∧
  au_epoch next = au_epoch a +64 1 ∧
  au_previous_anchor next = au_anchor_digest a ∧ ho_previous_anchor handoff = au_anchor_digest a ∧
  au_anchor_digest next = epoch_handoff_digest handoff ∧
  au_group_public_key next ≠ au_group_public_key a ∧
  repeats_vote_key (au_vote_keys next) (au_vote_keys a) = false ∧
  verify_commit_proof (epoch_handoff_digest handoff) proof
    (mkContext kConsensusRulesetVersion (au_network_id a) (au_epoch a) (au_consensus_quorum a))
    (au_vote_keys a) = CpNone.
Proof.
  unfold advance_epoch_authority. intros Hv.
  destruct (negb _) eqn:E1 in Hv; [done|]. destruct (_ || _) eqn:E2 in Hv; [done|].
  destruct (_ || _) eqn:E3 in Hv; [done|]. destruct (negb _) eqn:E4 in Hv; [done|].
  destruct (from_nodes (ho_members handoff)) as [members|] eqn:Ef; [|done].
  destruct (_ || _) eqn:E5 in Hv; [done|]. destruct (existsb _ _) eqn:E6 in Hv; [done|].
  destruct (_ =? _) eqn:E7 in Hv; [done|]. destruct (repeats_vote_key _ _) eqn:E8; [done|].
  destruct (negb _) eqn:E9 in Hv; [done|].
  destruct (verify_commit_proof _ _ _ _) eqn:E10; try done.
  destruct (cp_chain proof) as [|b0 [|b1 chain]]; [done..|]. injection Hv as <-.
  bool_to_prop. cbn. destruct (from_nodes_members _ _ Ef) as [_ Hn].
  apply from_nodes_spec in Ef as [_ Em].
  assert (Hok : ∀ n, n ∈ t1_members members ↔ is_Some (ho_vote_keys handoff !! n)).
  { apply covers_exactly; [done|lia|]. intros n Hin. rewrite existsb_false in E6.
    specialize (E6 n Hin). bool_to_prop. done. }
  split; [split; cbn; try done|by split_and!].
  rewrite Em. apply (StronglySorted_merge_sort Z.le).
Qed.

Lemma trusted_ok genesis a :
  trusted genesis a → authority_ok a ∧
    au_network_id a = derive_network_id genesis kSecurityRulesetVersion kConsensusRulesetVersion.
Proof.
  induction 1 as [certificate keys a Hn Hv|a handoff proof next _ [_ IH] Hv].
  - apply verify_epoch_one_ok in Hv. rewrite <-Hn. tauto.
  - apply advance_spec in Hv. destruct Hv as (Hok & _ & -> & _). done.
Qed.

(** The loop keeps trust; the epoch moves forward by at most one per link. *)
Lemma apply_links_trusted genesis a links a' ok :
  trusted genesis a → 0 <= au_epoch a → au_epoch a + Z.of_nat (length links) < two64 →
  apply_links a links = (a', ok) →
  trusted genesis a' ∧ au_epoch a <= au_epoch a' <= au_epoch a + Z.of_nat (length links).
Proof.
  revert a. induction links as [|link links IH]; intros a Ht H0 Hb; cbn [apply_links].
  { intros [= <- <-]. split; [done|simpl; lia]. }
  simpl length in Hb |- *.
  destruct (_ <? _).
  { intros Hr. apply IH in Hr as [Ht' ?]; [|done|done|lia]. split; [done|lia]. }
  destruct (negb _); [intros [= <- <-]; split; [done|lia]|].
  destruct (advance_epoch_authority _ _ _) as [next|] eqn:Ea;
    [|intros [= <- <-]; split; [done|lia]].
  intros Hr. pose proof (advance_spec _ _ _ _ Ea) as (_ & _ & _ & _ & En & _).
  rewrite u64_add_small in En by lia.
  apply IH in Hr as [Ht' ?]; [|by eapply trusted_link|lia|lia]. split; [done|lia].
Qed.

(** The walker's state: its network is the key's, its authority is trusted. *)
Definition walker_ok (w : AuthorityChainWalker) : Prop :=
  network_id_ w =
    derive_network_id (genesis_public_key_ w) kSecurityRulesetVersion kConsensusRulesetVersion ∧
  ∀ a, authority_ w = Some a → trusted (genesis_public_key_ w) a ∧ 1 <= au_epoch a.

Lemma apply_base_ok w base w' :
  walker_ok w → apply_base w base = Some w' →
  walker_ok w' ∧ genesis_public_key_ w' = genesis_public_key_ w ∧ walker_epoch w <= walker_epoch w' ∧
  walker_epoch w' <= Z.max 1 (walker_epoch w).
Proof.
  intros [Hn Ha]. unfold apply_base. destruct base as [[certificate keys]|].
  2:{ intros [= <-]. split; [by split|]. split; [done|lia]. }
  destruct (authority_ w) as [a|] eqn:Ew.
  { destruct (_ =? _); [|done]. intros [= <-]. split; [split; [done|by rewrite Ew]|]. split; [done|lia]. }
  destruct (negb _) eqn:En; [done|]. bool_to_prop.
  destruct (verify_epoch_one_authority _ _ _) as [a|] eqn:Ev; [|done].
  intros [= <-]. apply verify_epoch_one_ok in Ev as Hone. unfold walker_epoch. rewrite Ew. cbn.
  destruct Hone as (_ & E1 & _). split; [|rewrite E1; split; [done|lia]].
  split; [done|]. intros a' [= <-]. split; [|lia]. eapply trusted_base; [|exact Ev].
  by rewrite En.
Qed.

Lemma walker_apply_ok w page w' result :
  walker_ok w → walker_epoch w + Z.of_nat (length (pg_links page)) + 1 < two64 →
  walker_apply w page = (w', result) →
  walker_ok w' ∧ genesis_public_key_ w' = genesis_public_key_ w ∧
  walker_epoch w <= walker_epoch w' <= walker_epoch w + Z.of_nat (length (pg_links page)) + 1 ∧
  (result = Advanced → walker_epoch w < walker_epoch w').
Proof.
  intros Hw Hb. unfold walker_apply.
  assert (H0 : 0 <= walker_epoch w).
  { unfold walker_epoch. destruct Hw as [_ Hw]. destruct (authority_ w) as [b|]; [|lia].
    destruct (Hw b eq_refl). lia. }
  destruct (apply_base w (pg_base page)) as [w1|] eqn:E1.
  2:{ intros [= <- <-]. split; [done|]. split; [done|]. split; [lia|done]. }
  destruct (apply_base_ok _ _ _ Hw E1) as ([Hn Ha] & Eg & Hle & Hmax).
  destruct (authority_ w1) as [a|] eqn:Ea.
  2:{ intros [= <- <-]. split; [split; [done|by rewrite Ea]|]. split; [done|]. split; [lia|done]. }
  destruct (apply_links a (pg_links page)) as [a' ok] eqn:El.
  destruct (Ha a eq_refl) as [Ht H1].
  assert (Ew1 : walker_epoch w1 = au_epoch a) by (unfold walker_epoch; by rewrite Ea).
  apply (apply_links_trusted (genesis_public_key_ w1)) in El as [Ht' Hep]; [|done|lia|lia].
  intros [= <- Er]. split; [split; [done|]|split; [done|split; [change (walker_epoch w <= au_epoch a' <=
    walker_epoch w + Z.of_nat (length (pg_links page)) + 1); lia|]]].
  - intros b [= <-]. cbn. split; [done|lia].
  - intros Eadv. rewrite Eadv in Er. destruct ok; [|done].
    destruct (_ <? _) eqn:E in Er; [by apply Z.ltb_lt in E|done].
Qed.

(** Pages applied in sequence, whatever each of them answers. *)
Definition walker_pages (w : AuthorityChainWalker) (pages : list AuthorityChainPage)
    : AuthorityChainWalker := foldl (λ w page, (walker_apply w page).1) w pages.

Lemma walker_pages_ok pages w :
  walker_ok w → 0 <= walker_epoch w →
  walker_epoch w + Z.of_nat (length (pages ≫= pg_links)) + Z.of_nat (length pages) < two64 →
  walker_ok (walker_pages w pages) ∧
  genesis_public_key_ (walker_pages w pages) = genesis_public_key_ w ∧
  walker_epoch w <= walker_epoch (walker_pages w pages).
Proof.
  revert w. induction pages as [|page pages IH]; intros w Hw H0 Hb; [split; [done|split; [done|apply Z.le_refl]]|].
  rewrite bind_cons, length_app in Hb. cbn [length] in Hb. unfold walker_pages. cbn [foldl].
  destruct (walker_apply w page) as [w1 result] eqn:E.
  destruct (walker_apply_ok w page w1 result Hw) as (Hw1 & Eg & He & _); [lia|exact E|].
  destruct (IH w1 Hw1) as (Hw2 & Eg2 & He2); [lia|lia|].
  split; [exact Hw2|]. split; [|unfold walker_pages in He2; cbn; lia].
  rewrite <- Eg. exact Eg2.
Qed.

Lemma lowered_same a b : same_host a b = true → lowered a = lowered b.
Proof.
  revert b. induction a as [|x a IH]; intros [|y b]; simpl; try done.
  intros [Hx%Ascii.eqb_eq Hr]%andb_true_iff. rewrite Hx. f_equal. auto.
Qed.

(** A valid proof is a member's signature over the endpoint the client reached. *)
Lemma endpoint_proof_valid a proof host port nonce :
  check_tier1_endpoint_proof a proof host port nonce = Valid ↔
  length nonce = kTier1EndpointNonceBytes ∧ ep_node proof ∈ au_members a ∧
  ep_epoch proof = au_epoch a ∧ ep_port proof = port ∧ same_host (ep_host proof) host = true ∧
  crypto_sign_verify_detached (ep_signature proof)
    (tier1_endpoint_proof_digest (au_network_id a) (au_epoch a) (ep_node proof) host port nonce)
    (ep_node proof) = true.
Proof.
  assert (Hd : same_host (ep_host proof) host = true →
    tier1_endpoint_proof_digest (au_network_id a) (au_epoch a) (ep_node proof) host port nonce =
    tier1_endpoint_proof_digest (au_network_id a) (au_epoch a) (ep_node proof) (ep_host proof)
      port nonce).
  { intros Hs%lowered_same. unfold tier1_endpoint_proof_digest. by rewrite Hs. }
  unfold check_tier1_endpoint_proof. split.
  - intros Hv. destruct (negb _) eqn:E1 in Hv; [done|]. destruct (negb _) eqn:E2 in Hv; [done|].
    destruct (negb _) eqn:E3 in Hv; [done|]. destruct (_ <? _) eqn:E4 in Hv; [done|].
    destruct (_ <? _) eqn:E5 in Hv; [done|]. destruct (_ || _) eqn:E6 in Hv; [done|].
    bool_to_prop. assert (Ee : ep_epoch proof = au_epoch a) by lia.
    split_and!; try done. rewrite Hd by done. subst port. by rewrite <-Ee.
  - intros (E1 & E2 & E3 & E4 & E5 & E6). rewrite Hd in E6 by done.
    rewrite !bool_decide_eq_true_2 by done. cbn [negb]. rewrite E3, E4, E6, E5.
    by rewrite Z.ltb_irrefl, Z.eqb_refl.
Qed.
End lemmas.
