(* ===== verification/PlatformClaims.v ===== *)
(** * Platform claims and the Tier 1 policy

    Models [Attestation/VerifiedPlatformClaims.cpp], the attestation contexts
    and the verdict of [Attestation/AttestationTypes.{hpp,cpp}],
    [Attestation/AttestationProfileId.cpp], [Policy/Tier1Eligibility.cpp],
    [Policy/Tier1Evidence.cpp] and [Policy/Tier1TargetPolicy.hpp]: what a
    verifier proved about a platform and how that and the mesh's own facts
    become one decision. A claim is a field of the record, read through the
    tables [kRequired] and [kAllClaims] as in the source. *)

From S2P Require Import Prelude SecurityPolicy CanonicalEncoding.

(** ** Claims *)

Definition IncarnationId : Type := Z.

Definition ProfileUnknown : Z := 0.
Definition AzureSnpVtpm : Z := 1.
Definition SnpSvsmVtpm : Z := 2.
Definition SnpDirectBoot : Z := 3.
Definition Tdx : Z := 4.
Definition kAttestationProfileRulesetVersion : Z := 3.
Definition kTier1AttestationProfileId : Z := SnpSvsmVtpm.

Definition is_known_attestation_profile_id (id : Z) : bool :=
  (id =? AzureSnpVtpm) || (id =? SnpSvsmVtpm) || (id =? SnpDirectBoot) || (id =? Tdx).

Inductive PlatformClaim :=
  | HardwareConfidentiality | PlatformIdentity | EvidenceFreshness | NodeIdentityBinding
  | IncarnationBinding | EpochBinding | SecurityRulesetBinding | BootIntegrity
  | RuntimeIntegrity | Tcb | AttestationProfile.

Record VerifiedPlatformClaims := mkClaims {
  profile_id : Z;
  profile_ruleset : Z;
  hardware_confidentiality_valid : bool;
  platform_identity_valid : bool;
  evidence_freshness_valid : bool;
  node_identity_binding_valid : bool;
  incarnation_binding_valid : bool;
  epoch_binding_valid : bool;
  security_ruleset_binding_valid : bool;
  boot_integrity_valid : bool;
  runtime_integrity_valid : bool;
  tcb_valid : bool;
  attestation_profile_valid : bool;
  ima_anchored : bool;
  binary_approved : bool;
  runtime_profile_enforced : bool;
}.

#[export] Instance eta_claims : Etable VerifiedPlatformClaims := λ c,
  mkClaims (profile_id c) (profile_ruleset c) (hardware_confidentiality_valid c)
    (platform_identity_valid c) (evidence_freshness_valid c) (node_identity_binding_valid c)
    (incarnation_binding_valid c) (epoch_binding_valid c) (security_ruleset_binding_valid c)
    (boot_integrity_valid c) (runtime_integrity_valid c) (tcb_valid c)
    (attestation_profile_valid c) (ima_anchored c) (binary_approved c)
    (runtime_profile_enforced c).

#[export] Instance claims_eq_dec : EqDecision VerifiedPlatformClaims.
Proof. solve_decision. Defined.

Definition no_claims : VerifiedPlatformClaims :=
  mkClaims ProfileUnknown 0 false false false false false false false false false false false
    false false false.

Definition kRequired : list (PlatformClaim * (VerifiedPlatformClaims → bool)) :=
  [(HardwareConfidentiality, hardware_confidentiality_valid);
   (PlatformIdentity, platform_identity_valid);
   (EvidenceFreshness, evidence_freshness_valid);
   (NodeIdentityBinding, node_identity_binding_valid);
   (IncarnationBinding, incarnation_binding_valid);
   (EpochBinding, epoch_binding_valid);
   (SecurityRulesetBinding, security_ruleset_binding_valid);
   (BootIntegrity, boot_integrity_valid);
   (RuntimeIntegrity, runtime_integrity_valid);
   (Tcb, tcb_valid);
   (AttestationProfile, attestation_profile_valid)].

(** A pointer to member: read and assignment. *)
Definition kAllClaims
    : list ((VerifiedPlatformClaims → bool) *
            (bool → VerifiedPlatformClaims → VerifiedPlatformClaims)) :=
  [(hardware_confidentiality_valid, λ b c, c <| hardware_confidentiality_valid := b |>);
   (platform_identity_valid, λ b c, c <| platform_identity_valid := b |>);
   (evidence_freshness_valid, λ b c, c <| evidence_freshness_valid := b |>);
   (node_identity_binding_valid, λ b c, c <| node_identity_binding_valid := b |>);
   (incarnation_binding_valid, λ b c, c <| incarnation_binding_valid := b |>);
   (epoch_binding_valid, λ b c, c <| epoch_binding_valid := b |>);
   (security_ruleset_binding_valid, λ b c, c <| security_ruleset_binding_valid := b |>);
   (boot_integrity_valid, λ b c, c <| boot_integrity_valid := b |>);
   (runtime_integrity_valid, λ b c, c <| runtime_integrity_valid := b |>);
   (tcb_valid, λ b c, c <| tcb_valid := b |>);
   (attestation_profile_valid, λ b c, c <| attestation_profile_valid := b |>);
   (ima_anchored, λ b c, c <| ima_anchored := b |>);
   (binary_approved, λ b c, c <| binary_approved := b |>);
   (runtime_profile_enforced, λ b c, c <| runtime_profile_enforced := b |>)].

Definition kPlatformClaimBitMask : Z := 16383.

Definition encode_platform_claims (encoder : CanonicalEncoder) (claims : VerifiedPlatformClaims)
    : CanonicalEncoder :=
  let encoder := add_u16 encoder (profile_id claims) in
  let encoder := add_u16 encoder (profile_ruleset claims) in
  foldl (λ encoder field, add_u16 encoder (if field.1 claims : bool then 1 else 0)) encoder
    kAllClaims.

(** The loops carry the position of the field. *)
Definition platform_claim_bits (claims : VerifiedPlatformClaims) : Z :=
  (foldl (λ '(bits, position) field,
    (if field.1 claims : bool then Z.lor bits (Z.shiftl 1 position mod two16) else bits,
     position + 1)) (0, 0) kAllClaims).1.

Definition claim_from_bit (bits : Z) (acc : VerifiedPlatformClaims * Z)
    (field : (VerifiedPlatformClaims → bool) *
             (bool → VerifiedPlatformClaims → VerifiedPlatformClaims))
    : VerifiedPlatformClaims * Z :=
  (field.2 (negb (Z.land bits (Z.shiftl 1 acc.2 mod two16) =? 0)) acc.1, acc.2 + 1).

Definition platform_claims_from_bits (id ruleset bits : Z) : VerifiedPlatformClaims :=
  let claims := no_claims <| profile_id := id |> <| profile_ruleset := ruleset |> in
  (foldl (claim_from_bit bits) (claims, 0) kAllClaims).1.

Definition missing_platform_claims (claims : VerifiedPlatformClaims) : list PlatformClaim :=
  omap (λ entry, if entry.2 claims : bool then None else Some entry.1) kRequired.

Definition all_platform_claims_proved (claims : VerifiedPlatformClaims) : bool :=
  forallb (λ entry, entry.2 claims) kRequired.

Definition platform_claims_are_consistent (claims : VerifiedPlatformClaims) : bool :=
  let anonymous := (profile_id claims =? ProfileUnknown) || (profile_ruleset claims =? 0) in
  if anonymous then
    if existsb (λ entry, entry.2 claims) kRequired then false
    else negb (ima_anchored claims) && negb (binary_approved claims) &&
         negb (runtime_profile_enforced claims)
  else
    let runtime_steps :=
      ima_anchored claims && binary_approved claims && runtime_profile_enforced claims in
    Bool.eqb (runtime_integrity_valid claims) runtime_steps.

(** ** Verdicts *)

Inductive AttestationPurpose :=
  | PurposeEligibility | FinalEpochReadiness | PlatformEnrollment | StorageUnlock | UpgradeHealth.

#[export] Instance purpose_eq_dec : EqDecision AttestationPurpose.
Proof. solve_decision. Defined.

Definition purpose_value (purpose : AttestationPurpose) : Z :=
  match purpose with
  | PurposeEligibility => 1 | FinalEpochReadiness => 2 | PlatformEnrollment => 3
  | StorageUnlock => 4 | UpgradeHealth => 5
  end.

Inductive AttestationFailure :=
  | AfNone | AfChallengeMismatch | AfIdentityMismatch | AfIdentitySignatureInvalid
  | AfRulesetMismatch | AfSnpInvalid | AfTcbTooOld | AfVtpmBindingInvalid | AfTpmQuoteInvalid
  | AfBootMeasurementInvalid | AfImaMeasurementInvalid | AfBinaryMeasurementInvalid
  | AfRuntimeProfileInvalid | AfIncarnationStale | AfEpochMismatch | AfEvidenceOversized
  | AfProfileIncomplete | AfProviderUnknown | AfProviderUnsupported | AfProfileIdMismatch
  | AfProfileRulesetMismatch | AfEndorsementRevoked | AfNetworkMismatch | AfPurposeMismatch
  | AfContextMismatch | AfContextUnbound | AfActivationRequired | AfCheckpointRequired
  | AfCheckpointInvalid | AfTransferInvalid.

Record ImaCheckpointPath := mkImaPath { ima_path : string; ima_sha256 : string }.

Record AttestationVerdict := mkVerdict {
  av_node_id : NodeId;
  av_epoch : EpochId;
  av_incarnation : IncarnationId;
  av_purpose : AttestationPurpose;
  av_context_digest : Digest;
  av_policy_digest : Digest;
  av_evidence_digest : Digest;
  av_passed : bool;
  av_failure : AttestationFailure;
  av_claims : VerifiedPlatformClaims;
  av_measured_paths : list ImaCheckpointPath;
}.

Definition kAttestationContextDomain : string := "lemonade-nexus/attestation-context:v1".

Section contexts.
Context `{Sodium}.

Definition eligibility_attestation_context (network_id : NetworkId) (epoch : EpochId)
    (node : NodeId) (incarnation : IncarnationId) : Digest :=
  let e := new_encoder kAttestationContextDomain in
  let e := add_u16 e (purpose_value PurposeEligibility) in
  let e := add_digest e network_id in
  let e := add_u64 e epoch in
  digest (add_u64 (add_digest e node) incarnation).

Definition upgrade_health_attestation_context (network_id : NetworkId) (release_number : Z)
    (subject : NodeId) (chain_head : Digest) : Digest :=
  let e := new_encoder kAttestationContextDomain in
  let e := add_u16 e (purpose_value UpgradeHealth) in
  let e := add_digest e network_id in
  let e := add_u64 e release_number in
  digest (add_digest (add_digest e subject) chain_head).

Definition final_readiness_attestation_context (network_id : NetworkId) (next_epoch : EpochId)
    (plan_digest : Digest) (attempt : Z) (selected_set_digest : Digest) (node : NodeId)
    (incarnation : IncarnationId) : Digest :=
  let e := new_encoder kAttestationContextDomain in
  let e := add_u16 e (purpose_value FinalEpochReadiness) in
  let e := add_digest e network_id in
  let e := add_u64 e next_epoch in
  let e := add_digest e plan_digest in
  let e := add_u32 e attempt in
  let e := add_digest e selected_set_digest in
  digest (add_u64 (add_digest e node) incarnation).
End contexts.

(** ** The policy *)

Inductive Tier1Prerequisite :=
  | PrePlatformProfile | PreNodeIdentity | PreCertificate | PreConfidentialCompute
  | PrePlatformTcb | PreVtpm | PreAttestationFreshness | PreBootState | PreNexusBinary
  | PreRuntimeMeasurements | PreRuntimeSecurityProfile | PreUptime | PreMeshHealth
  | PreIncarnation | PreEpoch.

Record Tier1EvidenceState := mkEvidenceState {
  es_platform_profile_valid : bool;
  es_node_identity_valid : bool;
  es_certificate_valid : bool;
  es_snp_valid : bool;
  es_tcb_valid : bool;
  es_vtpm_valid : bool;
  es_quote_fresh : bool;
  es_boot_state_valid : bool;
  es_binary_valid : bool;
  es_ima_valid : bool;
  es_runtime_profile_valid : bool;
  es_uptime_valid : bool;
  es_mesh_health_valid : bool;
  es_incarnation_current : bool;
  es_epoch_current : bool;
}.

Inductive Tier1Eligibility := Eligible | Ineligible.

#[export] Instance eligibility_eq_dec : EqDecision Tier1Eligibility.
Proof. solve_decision. Defined.

Definition kChecks : list (Tier1Prerequisite * (Tier1EvidenceState → bool)) :=
  [(PrePlatformProfile, es_platform_profile_valid); (PreNodeIdentity, es_node_identity_valid);
   (PreCertificate, es_certificate_valid); (PreConfidentialCompute, es_snp_valid);
   (PrePlatformTcb, es_tcb_valid); (PreVtpm, es_vtpm_valid);
   (PreAttestationFreshness, es_quote_fresh); (PreBootState, es_boot_state_valid);
   (PreNexusBinary, es_binary_valid); (PreRuntimeMeasurements, es_ima_valid);
   (PreRuntimeSecurityProfile, es_runtime_profile_valid); (PreUptime, es_uptime_valid);
   (PreMeshHealth, es_mesh_health_valid); (PreIncarnation, es_incarnation_current);
   (PreEpoch, es_epoch_current)].

Definition policy_evaluate (state : Tier1EvidenceState) : Tier1Eligibility :=
  if existsb (λ check, negb (check.2 state)) kChecks then Ineligible else Eligible.

Definition failed_prerequisites (state : Tier1EvidenceState) : list Tier1Prerequisite :=
  omap (λ check, if check.2 state : bool then None else Some check.1) kChecks.

Record Tier1MeshFacts := mkMeshFacts {
  mf_certificate_valid : bool;
  mf_uptime_valid : bool;
  mf_mesh_health_valid : bool;
  mf_current_epoch : option EpochId;
  mf_current_incarnation : option IncarnationId;
}.

Definition no_evidence_state : Tier1EvidenceState :=
  mkEvidenceState false false false false false false false false false false false false false
    false false.

Definition tier1_evidence_state (verdict : AttestationVerdict) (facts : Tier1MeshFacts)
    : Tier1EvidenceState :=
  let claims := av_claims verdict in
  if negb (platform_claims_are_consistent claims) then no_evidence_state
  else
    mkEvidenceState
      (attestation_profile_valid claims && security_ruleset_binding_valid claims)
      (node_identity_binding_valid claims)
      (mf_certificate_valid facts)
      (hardware_confidentiality_valid claims)
      (tcb_valid claims)
      (platform_identity_valid claims)
      (evidence_freshness_valid claims)
      (boot_integrity_valid claims)
      (binary_approved claims)
      (ima_anchored claims)
      (runtime_profile_enforced claims)
      (mf_uptime_valid facts)
      (mf_mesh_health_valid facts)
      (incarnation_binding_valid claims &&
       bool_decide (mf_current_incarnation facts = Some (av_incarnation verdict)))
      (epoch_binding_valid claims &&
       bool_decide (mf_current_epoch facts = Some (av_epoch verdict))).

Definition tier1_eligibility (verdict : AttestationVerdict) (facts : Tier1MeshFacts)
    : Tier1Eligibility :=
  policy_evaluate (tier1_evidence_state verdict facts).

(** ** The target size *)

Record Tier1TargetOutcome := mkTargetOutcome {
  to_desired : Z;
  to_active_target : Z;
  to_target_shortfall : bool;
  to_reserve_shortfall : bool;
}.

Definition tier1_target_outcome (admitted_servers eligible_count : Z) : Tier1TargetOutcome :=
  let desired := tier1_target_count admitted_servers in
  mkTargetOutcome desired (if eligible_count <? desired then eligible_count else desired)
    (eligible_count <? desired) (eligible_count <? desired + kMinTier1Reserve).

(** ** Lemmas *)

(** The claim sets of an anonymous profile, by their fourteen flags. *)
Fixpoint flag_lists (n : nat) : list (list bool) :=
  match n with
  | O => [[]]
  | S n => (cons true <$> flag_lists n) ++ (cons false <$> flag_lists n)
  end.

Lemma elem_of_flag_lists flags : flags ∈ flag_lists (length flags).
Proof.
  induction flags as [|b flags IH]; [apply list_elem_of_here|]. simpl. apply elem_of_app.
  destruct b; [left|right]; by apply list_elem_of_fmap_2.
Qed.

Definition claims_of_flags (i r : Z) (flags : list bool) : VerifiedPlatformClaims :=
  let f n := nth n flags false in
  mkClaims i r (f 0%nat) (f 1%nat) (f 2%nat) (f 3%nat) (f 4%nat) (f 5%nat) (f 6%nat) (f 7%nat)
    (f 8%nat) (f 9%nat) (f 10%nat) (f 11%nat) (f 12%nat) (f 13%nat).

Definition bits_checked (flags : list bool) : bool :=
  let c := claims_of_flags 0 0 flags in
  let bits := platform_claim_bits c in
  bool_decide (platform_claims_from_bits 0 0 bits = c) && (0 <=? bits) &&
  (bits <=? kPlatformClaimBitMask).

Lemma all_bits_checked : forallb bits_checked (flag_lists 14) = true.
Proof. vm_compute. reflexivity. Qed.

Lemma claims_flags c :
  ∃ flags, c = claims_of_flags (profile_id c) (profile_ruleset c) flags ∧
    bits_checked flags = true.
Proof.
  destruct c as [i r b1 b2 b3 b4 b5 b6 b7 b8 b9 b10 b11 b12 b13 b14].
  exists [b1; b2; b3; b4; b5; b6; b7; b8; b9; b10; b11; b12; b13; b14]. split; [done|].
  pose proof all_bits_checked as Hall. rewrite forallb_forall in Hall.
  apply Hall, list_elem_of_In, (elem_of_flag_lists [_; _; _; _; _; _; _; _; _; _; _; _; _; _]).
Qed.

Lemma claim_bits_profile i r flags :
  platform_claim_bits (claims_of_flags i r flags) = platform_claim_bits (claims_of_flags 0 0 flags).
Proof.
  unfold platform_claim_bits. generalize (0, 0).
  assert (Forall (λ field : _ * _, field.1 (claims_of_flags i r flags) =
                                   field.1 (claims_of_flags 0 0 flags)) kAllClaims) as Hf.
  { repeat constructor. }
  induction Hf as [|field fields E Hf IH]; intros [bits p]; [done|]. simpl. rewrite E. apply IH.
Qed.

Definition with_profile (i r : Z) (c : VerifiedPlatformClaims) : VerifiedPlatformClaims :=
  c <| profile_id := i |> <| profile_ruleset := r |>.

Lemma with_profile_field i r :
  Forall (λ field : (VerifiedPlatformClaims → bool) *
                    (bool → VerifiedPlatformClaims → VerifiedPlatformClaims),
    ∀ b c, field.2 b (with_profile i r c) = with_profile i r (field.2 b c)) kAllClaims.
Proof. repeat constructor. Qed.

Lemma claims_from_profile i r bits :
  platform_claims_from_bits i r bits = with_profile i r (platform_claims_from_bits 0 0 bits).
Proof.
  change ((foldl (claim_from_bit bits) (with_profile i r no_claims, 0) kAllClaims).1 =
          with_profile i r (foldl (claim_from_bit bits) (no_claims, 0) kAllClaims).1).
  generalize no_claims 0.
  induction (with_profile_field i r) as [|field fields E Hf IH]; intros c p; [done|].
  simpl. unfold claim_from_bit at 2 4. simpl. rewrite E. apply IH.
Qed.

Lemma bits_checked_spec flags :
  bits_checked flags = true →
  platform_claims_from_bits 0 0 (platform_claim_bits (claims_of_flags 0 0 flags)) =
    claims_of_flags 0 0 flags ∧
  0 <= platform_claim_bits (claims_of_flags 0 0 flags) <= kPlatformClaimBitMask.
Proof.
  unfold bits_checked. cbv zeta. generalize (platform_claim_bits (claims_of_flags 0 0 flags)).
  intros bits Hb. apply andb_true_iff in Hb as [[Hb Hlo]%andb_true_iff Hhi].
  apply bool_decide_eq_true in Hb. apply Z.leb_le in Hlo, Hhi. done.
Qed.

Lemma claims_bits_round_trip c :
  platform_claims_from_bits (profile_id c) (profile_ruleset c) (platform_claim_bits c) = c.
Proof.
  destruct (claims_flags c) as (flags & E & [Hb _]%bits_checked_spec).
  rewrite claims_from_profile. revert E. generalize (profile_id c), (profile_ruleset c).
  intros i r ->. rewrite claim_bits_profile, Hb. reflexivity.
Qed.

Lemma claim_bits_range c : 0 <= platform_claim_bits c <= kPlatformClaimBitMask.
Proof.
  destruct (claims_flags c) as (flags & E & [_ Hb]%bits_checked_spec).
  rewrite E, claim_bits_profile. exact Hb.
Qed.

Lemma policy_evaluate_spec state :
  policy_evaluate state = Eligible ↔ forallb (λ check, check.2 state) kChecks = true.
Proof.
  unfold policy_evaluate.
  assert (E : ∀ l : list (Tier1Prerequisite * (Tier1EvidenceState → bool)),
    existsb (λ check, negb (check.2 state)) l = negb (forallb (λ check, check.2 state) l)).
  { induction l as [|c l IH]; [done|]. cbn. rewrite IH. by destruct (c.2 state). }
  rewrite E. by destruct (forallb _ _).
Qed.

(** The policy accepts exactly the verdicts whose claims are self-consistent
    and all proved, with every fact of the mesh. *)
Lemma tier1_eligibility_spec v f :
  tier1_eligibility v f = Eligible ↔
  platform_claims_are_consistent (av_claims v) = true ∧
  all_platform_claims_proved (av_claims v) = true ∧
  mf_certificate_valid f = true ∧ mf_uptime_valid f = true ∧ mf_mesh_health_valid f = true ∧
  mf_current_incarnation f = Some (av_incarnation v) ∧ mf_current_epoch f = Some (av_epoch v).
Proof.
  unfold tier1_eligibility, tier1_evidence_state.
  destruct (platform_claims_are_consistent (av_claims v)) eqn:Hc; [|naive_solver].
  rewrite policy_evaluate_spec.
  unfold platform_claims_are_consistent, all_platform_claims_proved in *.
  destruct (av_claims v) as [i r b1 b2 b3 b4 b5 b6 b7 b8 b9 b10 b11 b12 b13 b14]. cbn in *.
  rewrite !andb_true_iff, !bool_decide_eq_true.
  destruct ((i =? ProfileUnknown) || (r =? 0)).
  - destruct b1; [done|]. naive_solver.
  - apply Bool.eqb_prop in Hc. subst b9. rewrite !andb_true_iff. tauto.
Qed.
