(* ===== verification/EpochManager.v ===== *)
(** * The epoch handoff

    Models [Epoch/EpochState.cpp], [Epoch/EpochTransition.hpp] and
    [Epoch/EpochManager.cpp]: the state machine that takes a selected
    committee through attestation, vote keys and the group key to activation.
    Each method is a definition with its name that returns its result and the
    new manager. [Tier1Set::from_nodes] is dereferenced without a test where
    the selected members are known to be distinct; [selected_digest] is zero in
    the case that cannot occur (the invariant of EpochInvariants has it). *)

From S2P Require Import Prelude SecurityPolicy CanonicalEncoding Selection PlatformClaims.

(** ** Data *)

Record EpochState := mkEpochState {
  es_id : EpochId;
  es_network_id : NetworkId;
  es_tier1_members : Tier1Set;
  es_consensus_quorum : Z;
  es_authority_threshold : Z;
  es_authority_public_key : Ed25519PublicKey;
  es_attestation_root : Digest;
  es_participant_set_digest : Digest;
  es_security_ruleset : Z;
  es_consensus_ruleset : Z;
}.

Inductive EpochTransitionPhase :=
  | Selecting | Attesting | GeneratingVoteKeys | GeneratingAuthorityKey | PhaseReady | Finalizing
  | Aborted.

#[export] Instance phase_eq_dec : EqDecision EpochTransitionPhase.
Proof. solve_decision. Defined.

Inductive EpochTransitionFailure :=
  | TfNone | EligiblePoolBelowMinimum | FinalAttestationFailed | VoteKeyMissing | TfDkgFailed
  | ThresholdUnreachable | HandoffTimeout | AuthorizationMissing.

#[export] Instance transition_failure_eq_dec : EqDecision EpochTransitionFailure.
Proof. solve_decision. Defined.

Record EpochTransition := mkTransition {
  tr_from_epoch : EpochId;
  tr_to_epoch : EpochId;
  tr_phase : EpochTransitionPhase;
  tr_selected_members : list NodeId;
  tr_participant_set_digest : Digest;
  tr_attestation_root : Digest;
  tr_dkg_transcript_digest : Digest;
  tr_next_authority_key : Ed25519PublicKey;
  tr_next_consensus_quorum : Z;
  tr_next_authority_threshold : Z;
  tr_failure : EpochTransitionFailure;
}.

#[export] Instance eta_transition : Etable EpochTransition := λ t,
  mkTransition (tr_from_epoch t) (tr_to_epoch t) (tr_phase t) (tr_selected_members t)
    (tr_participant_set_digest t) (tr_attestation_root t) (tr_dkg_transcript_digest t)
    (tr_next_authority_key t) (tr_next_consensus_quorum t) (tr_next_authority_threshold t)
    (tr_failure t).

Definition ready_for_activation (transition : EpochTransition) : bool :=
  bool_decide (tr_phase transition = PhaseReady) &&
  bool_decide (tr_failure transition = TfNone) &&
  (kMinActiveTier1 <=? Z.of_nat (length (tr_selected_members transition))) &&
  negb (tr_next_authority_key transition =? 0) &&
  negb (tr_dkg_transcript_digest transition =? 0) &&
  negb (tr_participant_set_digest transition =? 0).

Record EpochManager := mkManager {
  current_ : EpochState;
  current_vote_keys_ : gmap Z Ed25519PublicKey;
  transition_ : option EpochTransition;
  rank_ : list NodeId;
  removed_candidates_ : gset Z;
  final_verdicts_ : gmap Z AttestationVerdict;
  next_vote_keys_ : gmap Z Ed25519PublicKey;
  authorized_ : bool;
  authorization_certificate_digest_ : Digest;
  target_shortfall_ : bool;
  reserve_shortfall_ : bool;
}.

#[export] Instance eta_manager : Etable EpochManager := λ m,
  mkManager (current_ m) (current_vote_keys_ m) (transition_ m) (rank_ m)
    (removed_candidates_ m) (final_verdicts_ m) (next_vote_keys_ m) (authorized_ m)
    (authorization_certificate_digest_ m) (target_shortfall_ m) (reserve_shortfall_ m).

Definition new_manager (initial : EpochState) (current_vote_keys : gmap Z Ed25519PublicKey)
    : EpochManager :=
  mkManager initial current_vote_keys None [] ∅ ∅ ∅ false 0 false false.

Definition is_selected (t : EpochTransition) (node : NodeId) : bool :=
  bool_decide (node ∈ tr_selected_members t).

(** The active transition. *)
Definition transition_active (m : EpochManager) : option EpochTransition :=
  match transition_ m with
  | Some t => if bool_decide (tr_phase t = Aborted) then None else Some t
  | None => None
  end.

Section manager.
Context `{Sodium}.

Definition make_epoch_state (id : EpochId) (network_id : NetworkId) (tier1_members : Tier1Set)
    (authority_public_key : Ed25519PublicKey) (attestation_root : Digest) : EpochState :=
  let frozen_count := Z.of_nat (length (t1_members tier1_members)) in
  mkEpochState id network_id tier1_members (consensus_quorum frozen_count)
    (authority_threshold frozen_count) authority_public_key attestation_root
    (tier1_set_digest tier1_members) kSecurityRulesetVersion kConsensusRulesetVersion.

Definition selected_digest (selected : list NodeId) : Digest :=
  default 0 (tier1_set_digest <$> from_nodes selected).

(** ** Selection *)

(** The fields of a fresh transition, and what opening one resets. *)
Definition open_transition (m : EpochManager) (selected : list NodeId) : EpochManager :=
  let n := Z.of_nat (length selected) in
  let transition := mkTransition (es_id (current_ m)) (es_id (current_ m) +64 1) Attesting selected
    (selected_digest selected) 0 0 0 (consensus_quorum n) (authority_threshold n) TfNone in
  m <| transition_ := Some transition |> <| removed_candidates_ := ∅ |>
    <| final_verdicts_ := ∅ |> <| next_vote_keys_ := ∅ |> <| authorized_ := false |>
    <| authorization_certificate_digest_ := 0 |>.

Definition next_rank (m : EpochManager) (frozen_eligible : Tier1Set) : list NodeId :=
  rank frozen_eligible (es_authority_public_key (current_ m)) (es_id (current_ m) +64 1).

Definition prepare_next_epoch (frozen_eligible : Tier1Set) (admitted_server_count : Z)
    (m : EpochManager) : bool * EpochManager :=
  match transition_active m with
  | Some _ => (false, m)
  | None =>
      let outcome := tier1_target_outcome admitted_server_count
                       (Z.of_nat (length (t1_members frozen_eligible))) in
      if to_active_target outcome <? kMinActiveTier1 then (false, m)
      else
        let m := m <| target_shortfall_ := to_target_shortfall outcome |>
                   <| reserve_shortfall_ := to_reserve_shortfall outcome |>
                   <| rank_ := next_rank m frozen_eligible |> in
        (true, open_transition m (take (Z.to_nat (to_active_target outcome)) (rank_ m)))
  end.

(** The loop over the ranking: stops when the target is reached. *)
Fixpoint pick (ranked : list NodeId) (excluded : gset Z) (room : nat) : list NodeId :=
  match ranked, room with
  | node :: rest, S room' =>
      if bool_decide (node ∈ excluded) then pick rest excluded room
      else node :: pick rest excluded room'
  | _, _ => []
  end.

Definition preview_selection (m : EpochManager) (frozen_eligible : Tier1Set)
    (admitted_server_count : Z) (excluded : gset Z) : list NodeId :=
  let outcome := tier1_target_outcome admitted_server_count
                   (Z.of_nat (length (t1_members frozen_eligible))) in
  if to_active_target outcome <? kMinActiveTier1 then []
  else
    let selected := pick (next_rank m frozen_eligible) excluded
                      (Z.to_nat (to_active_target outcome)) in
    if Z.of_nat (length selected) <? kMinActiveTier1 then [] else selected.

Definition prepare_planned_epoch (frozen_eligible : Tier1Set) (planned : list NodeId)
    (m : EpochManager) : bool * EpochManager :=
  if bool_decide (is_Some (transition_active m)) ||
     (Z.of_nat (length planned) <? kMinActiveTier1) then (false, m)
  else if existsb (λ node, negb (contains frozen_eligible node)) planned then (false, m)
  else match from_nodes planned with
  | None => (false, m)
  | Some _ =>
      let m := m <| rank_ := next_rank m frozen_eligible |> in
      (true, open_transition m planned)
  end.

(** ** Collecting the prerequisites *)

(** What [recompute_phase] tests of the selected members. *)
Definition all_attested (m : EpochManager) (selected : list NodeId) : bool :=
  forallb (λ node, match final_verdicts_ m !! node with
                   | Some v => av_passed v | None => false end) selected.

Definition all_keys (m : EpochManager) (selected : list NodeId) : bool :=
  forallb (λ node, bool_decide (is_Some (next_vote_keys_ m !! node))) selected.

(** [final_verdicts_.at(node)] is reached only when every member has one. *)
Definition computed_attestation_root (m : EpochManager) (selected : list NodeId) : Digest :=
  let e := new_encoder "lemonade-nexus/handoff-attestation-root:v1" in
  let e := add_u64 e (Z.of_nat (length selected)) in
  digest (foldl (λ e node,
    add_digest (add_digest e node)
      (default 0 (av_context_digest <$> final_verdicts_ m !! node)))
    e (merge_sort Z.le selected)).

Definition recompute_phase (m : EpochManager) : EpochManager :=
  match transition_ m with
  | None => m
  | Some transition =>
      let selected := tr_selected_members transition in
      let n := Z.of_nat (length selected) in
      let transition := transition <| tr_participant_set_digest := selected_digest selected |>
        <| tr_next_consensus_quorum := consensus_quorum n |>
        <| tr_next_authority_threshold := authority_threshold n |> in
      let transition :=
        if negb (all_attested m selected) then
          transition <| tr_phase := Attesting |> <| tr_attestation_root := 0 |>
        else
          let transition :=
            transition <| tr_attestation_root := computed_attestation_root m selected |> in
          if negb (all_keys m selected) then transition <| tr_phase := GeneratingVoteKeys |>
          else if tr_next_authority_key transition =? 0
          then transition <| tr_phase := GeneratingAuthorityKey |>
          else transition <| tr_phase := PhaseReady |> in
      m <| transition_ := Some transition |>
  end.

Definition abort_transition (reason : EpochTransitionFailure) (m : EpochManager)
    : EpochManager :=
  match transition_ m with
  | None => m
  | Some t =>
      m <| transition_ := Some (t <| tr_phase := Aborted |> <| tr_failure := reason |>) |>
        <| authorized_ := false |>
  end.

Definition drop_participant_state (node : NodeId) (t : EpochTransition) (m : EpochManager)
    : EpochManager :=
  m <| final_verdicts_ := delete node (final_verdicts_ m) |>
    <| next_vote_keys_ := delete node (next_vote_keys_ m) |>
    <| transition_ := Some (t <| tr_dkg_transcript_digest := 0 |>
                              <| tr_next_authority_key := 0 |>) |>
    <| authorized_ := false |>.

(** The next candidate in rank order that is neither selected nor removed. *)
Definition next_candidate (m : EpochManager) (selected : list NodeId) : option NodeId :=
  head (filter (λ candidate, candidate ∉ selected ∧ candidate ∉ removed_candidates_ m) (rank_ m)).

Definition pull_replacement (m : EpochManager) : bool * EpochManager :=
  match transition_ m with
  | None => (false, m)
  | Some t =>
      match next_candidate m (tr_selected_members t) with
      | Some candidate =>
          (true, m <| transition_ :=
             Some (t <| tr_selected_members := tr_selected_members t ++ [candidate] |>) |>)
      | None => (false, m)
      end
  end.

(** [selected.size()] after the replacement. *)
Definition selected_size (m : EpochManager) : Z :=
  match transition_ m with Some t => Z.of_nat (length (tr_selected_members t)) | None => 0 end.

(** The member leaves ([remaining] are the others): its state is dropped and
    the ranking supplies the next. *)
Definition remove_member (node : NodeId) (remaining : list NodeId) (t : EpochTransition)
    (m : EpochManager) : bool * EpochManager :=
  let m := m <| removed_candidates_ := {[ node ]} ∪ removed_candidates_ m |> in
  let t := t <| tr_selected_members := remaining |> in
  pull_replacement (drop_participant_state node t m).

(** [std::remove] drops every occurrence, [erase(it)] the first. *)
Definition remove_all (node : NodeId) (nodes : list NodeId) : list NodeId :=
  filter (λ n, n ≠ node) nodes.

Fixpoint erase_first (node : NodeId) (nodes : list NodeId) : list NodeId :=
  match nodes with
  | [] => []
  | n :: rest => if n =? node then rest else n :: erase_first node rest
  end.

Definition accepts_verdicts (phase : EpochTransitionPhase) : bool :=
  match phase with
  | Attesting | GeneratingVoteKeys | GeneratingAuthorityKey => true
  | _ => false
  end.

Definition record_final_attestation (verdict : AttestationVerdict) (m : EpochManager)
    : bool * EpochManager :=
  match transition_active m with
  | None => (false, m)
  | Some t =>
      if negb (accepts_verdicts (tr_phase t)) then (false, m)
      else if negb (av_epoch verdict =? tr_to_epoch t) then (false, m)
      else if negb (bool_decide (av_purpose verdict = FinalEpochReadiness)) then (false, m)
      else if negb (is_selected t (av_node_id verdict)) then (false, m)
      else if av_passed verdict then
        (true, recompute_phase
           (m <| final_verdicts_ := <[ av_node_id verdict := verdict ]> (final_verdicts_ m) |>))
      else
        let remaining := remove_all (av_node_id verdict) (tr_selected_members t) in
        let '(pulled, m) := remove_member (av_node_id verdict) remaining t m in
        if negb pulled && (selected_size m <? kMinActiveTier1)
        then (true, abort_transition EligiblePoolBelowMinimum m)
        else
          let m := m <| target_shortfall_ :=
            target_shortfall_ m || (selected_size m <? Z.of_nat (length (rank_ m))) |> in
          (true, recompute_phase m)
  end.

Definition replace_participant (node : NodeId) (reason : EpochTransitionFailure)
    (m : EpochManager) : bool * EpochManager :=
  match transition_active m with
  | None => (false, m)
  | Some t =>
      if negb (is_selected t node) then (false, m)
      else
        let remaining := erase_first node (tr_selected_members t) in
        let '(pulled, m) := remove_member node remaining t m in
        if negb pulled && (selected_size m <? kMinActiveTier1)
        then (true, abort_transition reason m)
        else (true, recompute_phase m)
  end.

Definition key_in_use (key : Ed25519PublicKey) (keys : gmap Z Ed25519PublicKey) : bool :=
  existsb (λ '(_, other_key), other_key =? key) (in_order keys).

Definition record_vote_key (node : NodeId) (key : Ed25519PublicKey) (m : EpochManager)
    : bool * EpochManager :=
  match transition_active m with
  | None => (false, m)
  | Some t =>
      if bool_decide (tr_phase t = PhaseReady) then (false, m)
      else if key =? 0 then (false, m)
      else if negb (is_selected t node) then (false, m)
      else match next_vote_keys_ m !! node with
      | Some existing => (existing =? key, m)
      | None =>
          if key_in_use key (next_vote_keys_ m) || key_in_use key (current_vote_keys_ m)
          then (false, m)
          else (true, recompute_phase
                  (m <| next_vote_keys_ := <[ node := key ]> (next_vote_keys_ m) |>))
      end
  end.

Definition record_dkg_result (group_public_key : Ed25519PublicKey)
    (dkg_transcript_digest : Digest) (m : EpochManager) : bool * EpochManager :=
  match transition_active m with
  | None => (false, m)
  | Some t =>
      if negb (bool_decide (tr_phase t = GeneratingAuthorityKey)) then (false, m)
      else if (group_public_key =? 0) || (dkg_transcript_digest =? 0) then (false, m)
      else
        (true, recompute_phase (m <| transition_ :=
           Some (t <| tr_next_authority_key := group_public_key |>
                   <| tr_dkg_transcript_digest := dkg_transcript_digest |>) |>))
  end.

(** ** Activation *)

Definition record_handoff_authorization (consensus_certificate_digest : Digest)
    (m : EpochManager) : bool * EpochManager :=
  match transition_active m with
  | None => (false, m)
  | Some t =>
      if negb (bool_decide (tr_phase t = PhaseReady)) then (false, m)
      else if consensus_certificate_digest =? 0 then (false, m)
      else (true, m <| authorized_ := true |>
                    <| authorization_certificate_digest_ := consensus_certificate_digest |>)
  end.

Definition activate_next_epoch (m : EpochManager) : option EpochState * EpochManager :=
  match transition_ m with
  | None => (None, m)
  | Some t =>
      if negb (ready_for_activation t) || negb (authorized_ m) then (None, m)
      else match from_nodes (tr_selected_members t) with
      | None => (None, m)
      | Some selected_set =>
          let next := make_epoch_state (tr_to_epoch t) (es_network_id (current_ m)) selected_set
                        (tr_next_authority_key t) (tr_attestation_root t) in
          (Some next,
           m <| current_ := next |> <| current_vote_keys_ := next_vote_keys_ m |>
             <| next_vote_keys_ := ∅ |> <| transition_ := None |> <| rank_ := [] |>
             <| removed_candidates_ := ∅ |> <| final_verdicts_ := ∅ |>
             <| authorized_ := false |>)
      end
  end.

(** ** Calls in sequence *)

Inductive EpochCall :=
  | PrepareNext (frozen_eligible : Tier1Set) (admitted_server_count : Z)
  | PreparePlanned (frozen_eligible : Tier1Set) (planned : list NodeId)
  | RecordAttestation (verdict : AttestationVerdict)
  | ReplaceParticipant (node : NodeId) (reason : EpochTransitionFailure)
  | RecordVoteKey (node : NodeId) (key : Ed25519PublicKey)
  | RecordDkgResult (group_public_key : Ed25519PublicKey) (dkg_transcript_digest : Digest)
  | RecordAuthorization (consensus_certificate_digest : Digest)
  | ActivateNext
  | AbortTransition (reason : EpochTransitionFailure).

Definition call_epoch (c : EpochCall) (m : EpochManager) : EpochManager :=
  match c with
  | PrepareNext e n => (prepare_next_epoch e n m).2
  | PreparePlanned e p => (prepare_planned_epoch e p m).2
  | RecordAttestation v => (record_final_attestation v m).2
  | ReplaceParticipant n r => (replace_participant n r m).2
  | RecordVoteKey n k => (record_vote_key n k m).2
  | RecordDkgResult k d => (record_dkg_result k d m).2
  | RecordAuthorization d => (record_handoff_authorization d m).2
  | ActivateNext => (activate_next_epoch m).2
  | AbortTransition r => abort_transition r m
  end.

Definition call_epochs (calls : list EpochCall) (m : EpochManager) : EpochManager :=
  foldl (λ m c, call_epoch c m) m calls.
End manager.
