(* ===== verification/EpochInvariants.v ===== *)
(** * Invariants of the epoch handoff

    [manager_ok] is what every call of EpochManager preserves: the phase of an
    active transition is a function of what was collected, everything collected
    belongs to a selected member and to the target epoch, vote keys are fresh
    and distinct, and an authorization stands only for a ready transition. *)

From S2P Require Import Prelude SecurityPolicy CanonicalEncoding Selection PlatformClaims.
From S2P Require Import EpochManager.

(** ** Lists *)

Lemma erase_first_all node l : NoDup l → erase_first node l = remove_all node l.
Proof.
  unfold remove_all. induction 1 as [|n l Hn Hl IH]; [done|]. simpl.
  destruct (Z.eqb_spec n node) as [->|Hne].
  - rewrite filter_cons_False by naive_solver. symmetry. apply filter_id.
    apply Forall_forall. by intros x Hx ->.
  - rewrite filter_cons_True by done. by rewrite IH.
Qed.

Lemma pick_excluded ranked excluded room n :
  n ∈ pick ranked excluded room → n ∈ ranked ∧ n ∉ excluded.
Proof.
  revert room. induction ranked as [|r ranked IH]; intros room; [by intros ?%elem_of_nil|].
  destruct room as [|room]; [by intros ?%elem_of_nil|]. simpl. case_bool_decide as Hr.
  - intros [? ?]%IH. split; [by right|done].
  - rewrite !elem_of_cons. intros [->|[? ?]%IH]; auto.
Qed.

Lemma pick_NoDup ranked excluded room : NoDup ranked → NoDup (pick ranked excluded room).
Proof.
  intros Hr. revert room. induction Hr as [|r ranked Hn Hr IH]; intros [|room]; simpl;
    [constructor..|]. case_bool_decide; [apply IH|]. constructor; [|apply IH].
  by intros [? _]%pick_excluded.
Qed.

Lemma pick_length ranked excluded room : (length (pick ranked excluded room) <= room)%nat.
Proof.
  revert room. induction ranked as [|r ranked IH]; intros [|room]; simpl; [lia..|].
  case_bool_decide; [apply (IH (S room))|]. simpl. specialize (IH room). lia.
Qed.

Lemma pick_none ranked room : pick ranked ∅ room = take room ranked.
Proof.
  revert room. induction ranked as [|r ranked IH]; intros [|room]; [done..|]. simpl.
  by rewrite bool_decide_eq_false_2, IH by set_solver.
Qed.

Lemma key_in_use_false key keys :
  key_in_use key keys = false ↔ ∀ n, keys !! n ≠ Some key.
Proof.
  unfold key_in_use. split.
  - intros E n Hn%elem_of_in_order%list_elem_of_In.
    assert (existsb (λ '(_, other_key), other_key =? key) (in_order keys) = true) as E'.
    { apply existsb_exists. exists (n, key). by rewrite Z.eqb_refl. }
    congruence.
  - intros Hn. destruct (existsb _ _) eqn:E; [|done]. apply existsb_exists in E as ([n k] & Hin & Hk).
    apply Z.eqb_eq in Hk as ->. by apply list_elem_of_In, elem_of_in_order, Hn in Hin.
Qed.

Section invariants.
Context `{Sodium}.
Implicit Types (m : EpochManager) (t : EpochTransition).

(** ** The invariant *)

(** An epoch's state as [make_epoch_state] makes it, with one vote key for each
    member. *)
Record epoch_ok (e : EpochState) (keys : gmap Z Ed25519PublicKey) : Prop := mkEpochOk {
  eo_shape : e = make_epoch_state (es_id e) (es_network_id e) (es_tier1_members e)
                   (es_authority_public_key e) (es_attestation_root e);
  eo_sorted : from_nodes (t1_members (es_tier1_members e)) = Some (es_tier1_members e);
  eo_size : kMinActiveTier1 <= Z.of_nat (length (t1_members (es_tier1_members e)));
  eo_keys : ∀ n, is_Some (keys !! n) ↔ n ∈ t1_members (es_tier1_members e);
}.

Definition computed_phase (m : EpochManager) (t : EpochTransition) : EpochTransitionPhase :=
  if negb (all_attested m (tr_selected_members t)) then Attesting
  else if negb (all_keys m (tr_selected_members t)) then GeneratingVoteKeys
  else if tr_next_authority_key t =? 0 then GeneratingAuthorityKey else PhaseReady.

(** What was collected for a transition. *)
Record collected_ok m t : Prop := mkCollectedOk {
  ct_distinct : NoDup (tr_selected_members t);
  ct_ranked : ∀ n, n ∈ tr_selected_members t → n ∈ rank_ m;
  ct_removed : ∀ n, n ∈ tr_selected_members t → n ∉ removed_candidates_ m;
  ct_verdicts : ∀ n v, final_verdicts_ m !! n = Some v →
    n ∈ tr_selected_members t ∧ av_node_id v = n ∧ av_passed v = true ∧
    av_epoch v = tr_to_epoch t ∧ av_purpose v = FinalEpochReadiness;
  ct_keys : ∀ n k, next_vote_keys_ m !! n = Some k → n ∈ tr_selected_members t ∧ k ≠ 0;
  ct_keys_inj : ∀ n n' k, next_vote_keys_ m !! n = Some k → next_vote_keys_ m !! n' = Some k → n = n';
  ct_keys_fresh : ∀ n n' k, next_vote_keys_ m !! n = Some k → current_vote_keys_ m !! n' ≠ Some k;
}.

Record transition_ok m t : Prop := mkTransitionOk {
  tk_epochs : tr_from_epoch t = es_id (current_ m) ∧ tr_to_epoch t = es_id (current_ m) +64 1;
  tk_collected : collected_ok m t;
  tk_size : kMinActiveTier1 <= Z.of_nat (length (tr_selected_members t));
  tk_phase : tr_phase t = computed_phase m t;
  tk_digest : tr_participant_set_digest t = selected_digest (tr_selected_members t);
  tk_thresholds :
    tr_next_consensus_quorum t = consensus_quorum (Z.of_nat (length (tr_selected_members t))) ∧
    tr_next_authority_threshold t = authority_threshold (Z.of_nat (length (tr_selected_members t)));
  tk_root : tr_attestation_root t =
    if all_attested m (tr_selected_members t)
    then computed_attestation_root m (tr_selected_members t) else 0;
  tk_dkg : tr_next_authority_key t ≠ 0 →
    all_attested m (tr_selected_members t) = true ∧ all_keys m (tr_selected_members t) = true;
  tk_dkg_digest : tr_next_authority_key t = 0 ↔ tr_dkg_transcript_digest t = 0;
  tk_failure : tr_failure t = TfNone;
}.

Record manager_ok m : Prop := mkManagerOk {
  mk_current : epoch_ok (current_ m) (current_vote_keys_ m);
  mk_ranked : NoDup (rank_ m);
  mk_transition : ∀ t, transition_active m = Some t → transition_ok m t;
  mk_authorized : authorized_ m = true → authorization_certificate_digest_ m ≠ 0 ∧
    ∃ t, transition_ m = Some t ∧ tr_phase t = PhaseReady;
}.

(** ** Each operation *)

Lemma transition_active_some m t :
  transition_active m = Some t ↔ transition_ m = Some t ∧ tr_phase t ≠ Aborted.
Proof.
  unfold transition_active. destruct (transition_ m) as [t'|]; [|naive_solver].
  case_bool_decide; naive_solver.
Qed.

Lemma selected_digest_some l :
  NoDup l → ∃ s, from_nodes l = Some s ∧ t1_members s = merge_sort Z.le l ∧
    selected_digest l = tier1_set_digest s.
Proof.
  intros Hl. exists (mkTier1Set (merge_sort Z.le l)).
  assert (E : from_nodes l = Some (mkTier1Set (merge_sort Z.le l))) by by apply from_nodes_spec.
  split; [done|]. split; [done|]. unfold selected_digest. by rewrite E.
Qed.

Lemma new_manager_ok e keys : epoch_ok e keys → manager_ok (new_manager e keys).
Proof. intros He. constructor; [done|constructor|by intros t|done]. Qed.

Lemma open_transition_ok m selected :
  epoch_ok (current_ m) (current_vote_keys_ m) → NoDup (rank_ m) → NoDup selected →
  (∀ n, n ∈ selected → n ∈ rank_ m) → kMinActiveTier1 <= Z.of_nat (length selected) →
  manager_ok (open_transition m selected).
Proof.
  intros He Hr Hs Hin Hn. constructor; [done|done| |done].
  intros t [[= <-] _]%transition_active_some.
  assert (Ha : all_attested (open_transition m selected) selected = false).
  { destruct selected as [|n l]; [cbn in Hn; unfold kMinActiveTier1 in Hn; lia|done]. }
  constructor; try done.
  - unfold computed_phase. cbn [tr_selected_members]. by rewrite Ha.
  - cbn [tr_selected_members]. by rewrite Ha.
Qed.

Lemma next_rank_NoDup m s :
  from_nodes (t1_members s) = Some s → NoDup (next_rank m s).
Proof.
  intros [_ Hn]%from_nodes_members. unfold next_rank, rank. by rewrite ranked_by_perm.
Qed.

Lemma elem_of_next_rank m s n : n ∈ next_rank m s ↔ n ∈ t1_members s.
Proof. unfold next_rank, rank. by rewrite ranked_by_perm. Qed.

Lemma target_at_most a e : 0 <= e → 0 <= to_active_target (tier1_target_outcome a e) <= e.
Proof.
  intros He. unfold tier1_target_outcome. simpl.
  assert (0 <= tier1_target_count a).
  { unfold tier1_target_count. simpl. repeat case_match; lia. }
  destruct (Z.ltb_spec e (tier1_target_count a)); lia.
Qed.

(** [recompute_phase] re-establishes the derived fields. *)
Lemma recompute_transition m t :
  transition_ m = Some t → tr_failure t = TfNone →
  ∃ t', transition_ (recompute_phase m) = Some t' ∧ recompute_phase m = m <| transition_ := Some t' |> ∧
    tr_from_epoch t' = tr_from_epoch t ∧ tr_to_epoch t' = tr_to_epoch t ∧
    tr_selected_members t' = tr_selected_members t ∧
    tr_next_authority_key t' = tr_next_authority_key t ∧
    tr_dkg_transcript_digest t' = tr_dkg_transcript_digest t ∧ tr_failure t' = TfNone ∧
    tr_phase t' = computed_phase m t ∧
    tr_participant_set_digest t' = selected_digest (tr_selected_members t) ∧
    tr_next_consensus_quorum t' = consensus_quorum (Z.of_nat (length (tr_selected_members t))) ∧
    tr_next_authority_threshold t' =
      authority_threshold (Z.of_nat (length (tr_selected_members t))) ∧
    tr_attestation_root t' =
      (if all_attested m (tr_selected_members t)
       then computed_attestation_root m (tr_selected_members t) else 0).
Proof.
  intros E Hf. unfold recompute_phase, computed_phase. rewrite E. cbv zeta.
  destruct (all_attested m _); [destruct (all_keys m _);
    [destruct (tr_next_authority_key t =? 0) eqn:Hk; cbn; rewrite Hk|]|]; by eexists.
Qed.

(** After a collected state changed, recomputing gives the invariant back. *)
Lemma recompute_ok m t :
  epoch_ok (current_ m) (current_vote_keys_ m) → NoDup (rank_ m) →
  transition_ m = Some t → tr_failure t = TfNone →
  tr_from_epoch t = es_id (current_ m) → tr_to_epoch t = es_id (current_ m) +64 1 →
  collected_ok m t → kMinActiveTier1 <= Z.of_nat (length (tr_selected_members t)) →
  (tr_next_authority_key t ≠ 0 →
    all_attested m (tr_selected_members t) = true ∧ all_keys m (tr_selected_members t) = true) →
  (tr_next_authority_key t = 0 ↔ tr_dkg_transcript_digest t = 0) →
  authorized_ m = false → manager_ok (recompute_phase m).
Proof.
  intros He Hr E Hf Hfrom Hto Hc Hn Hk Hd Ha.
  destruct (recompute_transition m t E Hf) as (t' & Et & -> & E1 & E2 & E3 & E4 & E5 & E6 & E7 & E8
    & E9 & E10 & E11).
  constructor; [done|done| |cbn; congruence].
  intros t'' [[= <-] _]%transition_active_some.
  destruct Hc. constructor; cbn; rewrite ?E1, ?E2, ?E3, ?E4, ?E5; try done.
  - constructor; cbn; rewrite ?E2, ?E3; done.
  - unfold computed_phase in *. cbn. rewrite E3, E4. done.
Qed.

Lemma remaining_size m t node remaining :
  remaining = remove_all node (tr_selected_members t) → NoDup (tr_selected_members t) →
  node ∈ tr_selected_members t →
  NoDup remaining ∧ (∀ n, n ∈ remaining ↔ n ∈ tr_selected_members t ∧ n ≠ node).
Proof.
  intros -> Hd Hin. unfold remove_all. split; [by apply NoDup_filter|].
  intros n. rewrite list_elem_of_filter. naive_solver.
Qed.

Lemma next_candidate_some m l n :
  next_candidate m l = Some n → n ∈ rank_ m ∧ n ∉ l ∧ n ∉ removed_candidates_ m.
Proof.
  unfold next_candidate. intros Hh.
  assert (Hin : n ∈ filter (λ c, c ∉ l ∧ c ∉ removed_candidates_ m) (rank_ m)).
  { destruct (filter _ (rank_ m)) as [|x xs]; [done|]. injection Hh as ->. left. }
  apply list_elem_of_filter in Hin. naive_solver.
Qed.

(** The members after one left and [added] came in. *)
Definition members_after (node : NodeId) (selected added : list NodeId) : list NodeId :=
  remove_all node selected ++ added.

Lemma elem_of_members_after node selected added n :
  n ∈ members_after node selected added ↔ (n ∈ selected ∧ n ≠ node) ∨ n ∈ added.
Proof.
  unfold members_after, remove_all. rewrite elem_of_app, list_elem_of_filter. tauto.
Qed.

Lemma collected_leave m t m' t' node added :
  collected_ok m t →
  tr_selected_members t' = members_after node (tr_selected_members t) added →
  NoDup added →
  (∀ n, n ∈ added → n ∈ rank_ m ∧ n ∉ remove_all node (tr_selected_members t) ∧
                    n ∉ removed_candidates_ m') →
  rank_ m' = rank_ m → removed_candidates_ m' = {[ node ]} ∪ removed_candidates_ m →
  final_verdicts_ m' = delete node (final_verdicts_ m) →
  next_vote_keys_ m' = delete node (next_vote_keys_ m) →
  current_vote_keys_ m' = current_vote_keys_ m → tr_to_epoch t' = tr_to_epoch t →
  collected_ok m' t'.
Proof.
  intros [Hd Hrk Hrm Hv Hk Hki Hkf] E Ha Hadd Er Em Ev Ek Ec Et.
  assert (Hin : ∀ n, n ∈ tr_selected_members t' ↔ (n ∈ tr_selected_members t ∧ n ≠ node) ∨ n ∈ added).
  { intros n. rewrite E. apply elem_of_members_after. }
  constructor.
  - rewrite E. apply NoDup_app. split; [by apply NoDup_filter|]. split; [|done].
    intros n Hn Hn'. by destruct (Hadd _ Hn') as (_ & ? & _).
  - intros n [[Hn _]|Hn]%Hin; rewrite Er; [by apply Hrk|by apply Hadd].
  - intros n [[Hn Hne]|Hn]%Hin; [|by apply Hadd].
    rewrite Em, not_elem_of_union, not_elem_of_singleton. auto.
  - intros n v Hn. rewrite Ev in Hn. apply lookup_delete_Some in Hn as [Hne Hn].
    apply Hv in Hn as (? & ? & ? & ? & ?). rewrite Et. split; [|done]. apply Hin. auto.
  - intros n k Hn. rewrite Ek in Hn. apply lookup_delete_Some in Hn as [Hne Hn].
    apply Hk in Hn as [? ?]. split; [|done]. apply Hin. auto.
  - intros n n' k. rewrite Ek. intros [_ H1]%lookup_delete_Some [_ H2]%lookup_delete_Some. eauto.
  - intros n n' k. rewrite Ek, Ec. intros [_ H1]%lookup_delete_Some. eauto.
Qed.

Lemma length_remove_all node l :
  NoDup l → node ∈ l → Z.of_nat (length (remove_all node l)) = Z.of_nat (length l) - 1.
Proof.
  intros Hd Hin. assert (Hp : l ≡ₚ node :: remove_all node l).
  { unfold remove_all. apply NoDup_Permutation; [done| |].
    - constructor; [|by apply NoDup_filter]. rewrite list_elem_of_filter. naive_solver.
    - intros n. rewrite elem_of_cons, list_elem_of_filter. destruct (decide (n = node)); naive_solver. }
  apply Permutation_length in Hp. cbn in Hp. lia.
Qed.

(** The state after a member left, before the phase is recomputed. *)
Record left_member m t m' t' : Prop := mkLeft {
  lm_frame : current_ m' = current_ m ∧ current_vote_keys_ m' = current_vote_keys_ m ∧
    rank_ m' = rank_ m ∧ authorized_ m' = false;
  lm_transition : transition_ m' = Some t';
  lm_failure : tr_failure t' = TfNone;
  lm_epochs : tr_from_epoch t' = tr_from_epoch t ∧ tr_to_epoch t' = tr_to_epoch t;
  lm_collected : collected_ok m' t';
  lm_dkg : tr_next_authority_key t' = 0 ∧ tr_dkg_transcript_digest t' = 0;
}.

Lemma remove_member_ok m t node pulled m' :
  transition_ok m t → node ∈ tr_selected_members t →
  remove_member node (remove_all node (tr_selected_members t)) t m = (pulled, m') →
  ∃ t', left_member m t m' t' ∧ (pulled = true → kMinActiveTier1 <= selected_size m').
Proof.
  intros [_ Hc Hn _ _ _ _ _ _ Hf] Hin.
  pose proof (length_remove_all _ _ (ct_distinct _ _ Hc) Hin) as Hsz.
  unfold remove_member, pull_replacement, drop_participant_state. cbn [transition_ set_field].
  destruct (next_candidate _ _) as [c|] eqn:Hnc; intros [= <- <-]; eexists; (split; [constructor|]);
    try done.
  - apply next_candidate_some in Hnc as (Hcr & Hcl & Hcrm).
    apply (collected_leave m t _ _ node [c]); try done; [apply NoDup_singleton|].
    by intros n ->%list_elem_of_singleton.
  - intros _. unfold selected_size. cbn -[Z.of_nat]. rewrite length_app. cbn -[Z.of_nat].
    rewrite Nat2Z.inj_add, Hsz. lia.
  - apply (collected_leave m t _ _ node []); try done; [|constructor|by intros n ?%elem_of_nil].
    unfold members_after. by rewrite app_nil_r.
Qed.

Lemma abort_ok m reason : manager_ok m → manager_ok (abort_transition reason m).
Proof.
  intros Hm. unfold abort_transition. destruct (transition_ m) as [t|] eqn:E; [|done].
  destruct Hm as [Hc Hr Ht Ha]. constructor; [done|done| |done].
  intros t' [[= <-] Hne]%transition_active_some. by cbn in Hne.
Qed.

Lemma prepare_next_ok m s n :
  manager_ok m → from_nodes (t1_members s) = Some s → manager_ok (prepare_next_epoch s n m).2.
Proof.
  intros Hm Hs. unfold prepare_next_epoch. destruct (transition_active m); [done|].
  set (outcome := tier1_target_outcome n _). destruct (Z.ltb_spec (to_active_target outcome) kMinActiveTier1);
    [done|]. cbn [snd]. pose proof (next_rank_NoDup m s Hs) as Hnd.
  pose proof (target_at_most n (Z.of_nat (length (t1_members s))) ltac:(lia)) as Ht. fold outcome in Ht.
  clearbody outcome. assert (Hl : length (next_rank m s) = length (t1_members s)).
  { unfold next_rank, rank. by rewrite ranked_by_perm. }
  apply open_transition_ok; cbn -[Z.of_nat Z.to_nat]; [apply Hm|done| | |].
  - by apply (sublist_NoDup _ (next_rank m s)), sublist_take.
  - intros x Hx. by apply (subseteq_take _ _ _ Hx).
  - rewrite length_take, Hl. lia.
Qed.

Lemma prepare_planned_ok m s planned :
  manager_ok m → from_nodes (t1_members s) = Some s →
  manager_ok (prepare_planned_epoch s planned m).2.
Proof.
  intros Hm Hs. unfold prepare_planned_epoch.
  destruct (bool_decide _ || _) eqn:E1; [done|]. destruct (existsb _ _) eqn:E2; [done|].
  destruct (from_nodes planned) as [sel|] eqn:E3; [|done]. cbn [snd].
  apply orb_false_iff in E1 as [_ Hl%Z.ltb_ge]. apply from_nodes_spec in E3 as [Hd _].
  apply open_transition_ok; [apply Hm|by apply next_rank_NoDup|done| |done].
  intros x Hx. apply elem_of_next_rank. destruct (decide (x ∈ t1_members s)) as [|Hx']; [done|].
  assert (existsb (λ node, negb (contains s node)) planned = true) as E'; [|congruence].
  apply existsb_exists. exists x. split; [by apply list_elem_of_In|].
  unfold contains. by rewrite bool_decide_eq_false_2.
Qed.

(** The common end of the two calls that drop a member. *)
Lemma left_member_recompute m t m' t' b :
  manager_ok m → transition_ok m t → left_member m t m' t' →
  kMinActiveTier1 <= selected_size m' →
  manager_ok (recompute_phase (m' <| target_shortfall_ := b |>)).
Proof.
  intros Hm Ht [(Ec & Ek & Er & Ea) Et Ef [E1 E2] Hcol [Hk Hd]] Hsz.
  destruct (tk_epochs _ _ Ht) as [E3 E4].
  apply (recompute_ok _ t'); cbn [current_ current_vote_keys_ rank_ transition_ authorized_ set_field];
    rewrite ?Ec, ?Ek, ?Er; [apply Hm|apply Hm|done|done|congruence|congruence| | | |by rewrite Hk, Hd|done].
  - destruct Hcol. by constructor.
  - unfold selected_size in Hsz. by rewrite Et in Hsz.
  - by rewrite Hk.
Qed.

Lemma left_member_abort m t m' t' reason :
  manager_ok m → left_member m t m' t' → manager_ok (abort_transition reason m').
Proof.
  intros Hm [(Ec & Ek & Er & Ea) Et Ef [E1 E2] Hcol [Hk Hd]].
  unfold abort_transition. rewrite Et. constructor;
    [cbn; rewrite Ec, Ek; apply Hm|cbn; rewrite Er; apply Hm| |done].
  intros t'' [[= <-] Hne]%transition_active_some. by cbn in Hne.
Qed.

(** Adding one verdict or key keeps the rest of what was collected. *)
Lemma add_verdict_ok m t v :
  manager_ok m → transition_active m = Some t → tr_phase t ≠ PhaseReady →
  av_node_id v ∈ tr_selected_members t → av_passed v = true → av_epoch v = tr_to_epoch t →
  av_purpose v = FinalEpochReadiness →
  manager_ok (recompute_phase
    (m <| final_verdicts_ := <[ av_node_id v := v ]> (final_verdicts_ m) |>)).
Proof.
  intros Hm Hact Hph Hin Hp He Hpu. pose proof (mk_transition _ Hm t Hact) as Ht.
  pose proof Hact as [Et _]%transition_active_some.
  pose proof Ht as [[E1 E2] Hc Hn Hphase _ _ _ Hdkg Hdd Hf].
  assert (Hk0 : tr_next_authority_key t = 0).
  { destruct (decide (tr_next_authority_key t = 0)) as [|Hk]; [done|]. destruct (Hdkg Hk) as [Ha Hb].
    rewrite Hphase in Hph. unfold computed_phase in Hph. rewrite Ha, Hb in Hph. cbn in Hph.
    by rewrite (proj2 (Z.eqb_neq _ _) Hk) in Hph. }
  apply (recompute_ok _ t); try done; [apply Hm|apply Hm| |].
  - destruct Hc as [Hd Hrk Hrm Hv Hk Hki Hkf]. constructor; cbn; try done.
    intros n w [[<- <-]|[Hne Hw]]%lookup_insert_Some; [done|by apply Hv].
  - cbn. destruct (authorized_ m) eqn:Ha; [|done]. destruct (mk_authorized _ Hm Ha) as (_ & t' & Et' & Hr).
    congruence.
Qed.

Lemma record_final_attestation_ok m v :
  manager_ok m → manager_ok (record_final_attestation v m).2.
Proof.
  intros Hm. unfold record_final_attestation.
  destruct (transition_active m) as [t|] eqn:Hact; [|done].
  pose proof (mk_transition _ Hm t Hact) as Ht.
  destruct (accepts_verdicts (tr_phase t)) eqn:Hph; [|done]. cbn [negb].
  destruct (Z.eqb_spec (av_epoch v) (tr_to_epoch t)) as [He|]; [|done]. cbn [negb].
  case_bool_decide as Hpu; [|done]. cbn [negb].
  destruct (is_selected t (av_node_id v)) eqn:Hsel; [|done]. apply bool_decide_eq_true in Hsel.
  cbn [negb]. destruct (av_passed v) eqn:Hp.
  - apply (add_verdict_ok m t); try done. by intros Hr; rewrite Hr in Hph.
  - destruct (remove_member _ _ t m) as [pulled m'] eqn:Hrm.
    apply remove_member_ok in Hrm as (t' & Hleft & Hpull); [|done|done].
    destruct (negb pulled && _) eqn:Hmin; [by apply (left_member_abort m t m' t')|].
    apply (left_member_recompute m t m' t'); try done.
    destruct pulled; [by apply Hpull|]. by apply Z.ltb_ge in Hmin.
Qed.

Lemma replace_participant_ok m n r :
  manager_ok m → manager_ok (replace_participant n r m).2.
Proof.
  intros Hm. unfold replace_participant.
  destruct (transition_active m) as [t|] eqn:Hact; [|done].
  pose proof (mk_transition _ Hm t Hact) as Ht.
  destruct (is_selected t n) eqn:Hsel; [|done]. apply bool_decide_eq_true in Hsel. cbn [negb].
  rewrite (erase_first_all _ _ (ct_distinct _ _ (tk_collected _ _ Ht))).
  destruct (remove_member _ _ t m) as [pulled m'] eqn:Hrm.
  apply remove_member_ok in Hrm as (t' & Hleft & Hpull); [|done|done].
  destruct (negb pulled && _) eqn:Hmin; [by apply (left_member_abort m t m' t')|].
  assert (E : m' = m' <| target_shortfall_ := target_shortfall_ m' |>) by by destruct m'.
  cbn [snd]. rewrite E. apply (left_member_recompute m t m' t'); try done.
  destruct pulled; [by apply Hpull|]. by apply Z.ltb_ge in Hmin.
Qed.

Lemma record_vote_key_ok m n k : manager_ok m → manager_ok (record_vote_key n k m).2.
Proof.
  intros Hm. unfold record_vote_key.
  destruct (transition_active m) as [t|] eqn:Hact; [|done].
  pose proof (mk_transition _ Hm t Hact) as Ht. pose proof Hact as [Et _]%transition_active_some.
  case_bool_decide as Hph; [done|]. destruct (Z.eqb_spec k 0) as [|Hk0]; [done|].
  destruct (is_selected t n) eqn:Hsel; [|done]. apply bool_decide_eq_true in Hsel. cbn [negb].
  destruct (next_vote_keys_ m !! n) as [k'|] eqn:Hex; [done|].
  destruct (key_in_use k (next_vote_keys_ m)) eqn:Hu1; [done|].
  destruct (key_in_use k (current_vote_keys_ m)) eqn:Hu2; [done|]. cbn [orb snd].
  rewrite key_in_use_false in Hu1, Hu2.
  pose proof Ht as [[E1 E2] Hc Hn Hphase _ _ _ Hdkg Hdd Hf].
  apply (recompute_ok _ t); try done; [apply Hm|apply Hm| | |].
  - destruct Hc as [Hd Hrk Hrm Hv Hk Hki Hkf]. constructor; cbn; try done.
    + intros x y [[<- <-]|[Hne Hw]]%lookup_insert_Some; [done|by apply Hk].
    + intros x x' y [[<- <-]|[Hne Hw]]%lookup_insert_Some [[<- Hy]|[Hne' Hw']]%lookup_insert_Some;
        subst; try done; naive_solver.
    + intros x x' y [[<- <-]|[Hne Hw]]%lookup_insert_Some; naive_solver.
  - intros Hk. destruct (Hdkg Hk) as [Ha Hb]. rewrite Hphase in Hph. unfold computed_phase in Hph.
    rewrite Ha, Hb in Hph. cbn in Hph. by rewrite (proj2 (Z.eqb_neq _ _) Hk) in Hph.
  - cbn. destruct (authorized_ m) eqn:Ha; [|done].
    destruct (mk_authorized _ Hm Ha) as (_ & t' & Et' & Hr). congruence.
Qed.

Lemma record_dkg_result_ok m k d : manager_ok m → manager_ok (record_dkg_result k d m).2.
Proof.
  intros Hm. unfold record_dkg_result.
  destruct (transition_active m) as [t|] eqn:Hact; [|done].
  pose proof (mk_transition _ Hm t Hact) as Ht. pose proof Hact as [Et _]%transition_active_some.
  case_bool_decide as Hph; [|done]. cbn [negb].
  destruct (Z.eqb_spec k 0) as [|Hk]; [done|]. destruct (Z.eqb_spec d 0) as [|Hd]; [done|]. cbn [orb snd].
  pose proof Ht as [[E1 E2] Hc Hn Hphase _ _ _ Hdkg Hdd Hf].
  eapply recompute_ok; try done; [apply Hm|apply Hm| | |].
  - destruct Hc. by constructor.
  - intros _. rewrite Hph in Hphase. unfold computed_phase in Hphase. cbn.
    destruct (all_attested m _) eqn:Ha, (all_keys m _) eqn:Hb; done.
  - cbn. destruct (authorized_ m) eqn:Ha; [|done].
    destruct (mk_authorized _ Hm Ha) as (_ & t' & Et' & Hr). congruence.
Qed.

Lemma record_authorization_ok m d :
  manager_ok m → manager_ok (record_handoff_authorization d m).2.
Proof.
  intros Hm. unfold record_handoff_authorization.
  destruct (transition_active m) as [t|] eqn:Hact; [|done].
  case_bool_decide as Hph; [|done]. cbn [negb]. destruct (Z.eqb_spec d 0) as [|Hd]; [done|].
  cbn [snd]. pose proof Hact as [Et _]%transition_active_some.
  constructor; [apply Hm|apply Hm| |intros _; split; [done|by exists t]].
  intros t' Ht'. assert (t' = t) as -> by (unfold transition_active in *; cbn in Ht'; congruence).
  destruct (mk_transition _ Hm t Hact) as [? []]. constructor; try done.
Qed.

(** ** Activation *)

(** What a manager that activates holds. *)
Lemma activate_spec m next m' :
  manager_ok m → activate_next_epoch m = (Some next, m') →
  ∃ t, transition_ m = Some t ∧ transition_ok m t ∧ tr_phase t = PhaseReady ∧
    authorized_ m = true ∧ tr_next_authority_key t ≠ 0 ∧ tr_dkg_transcript_digest t ≠ 0 ∧
    from_nodes (tr_selected_members t) = Some (es_tier1_members next) ∧
    next = make_epoch_state (tr_to_epoch t) (es_network_id (current_ m)) (es_tier1_members next)
             (tr_next_authority_key t) (computed_attestation_root m (tr_selected_members t)) ∧
    all_attested m (tr_selected_members t) = true ∧ all_keys m (tr_selected_members t) = true ∧
    current_ m' = next ∧ current_vote_keys_ m' = next_vote_keys_ m ∧ transition_ m' = None.
Proof.
  intros Hm. unfold activate_next_epoch. destruct (transition_ m) as [t|] eqn:Et; [|done].
  destruct (negb (ready_for_activation t) || negb (authorized_ m)) eqn:E; [done|].
  apply orb_false_iff in E as [Er%negb_false_iff Ea%negb_false_iff].
  unfold ready_for_activation in Er. bool_to_prop.
  assert (Hact : transition_active m = Some t) by (apply transition_active_some; split; [done|congruence]).
  pose proof (mk_transition _ Hm t Hact) as Ht.
  destruct (from_nodes _) as [s|] eqn:Es; [|done]. intros [= <- <-].
  pose proof (tk_dkg _ _ Ht ltac:(done)) as [Ha Hk]. pose proof (tk_root _ _ Ht) as Hroot.
  rewrite Ha in Hroot. exists t. rewrite <-Hroot. repeat (split; [done|]). done.
Qed.

Lemma all_keys_spec m l : all_keys m l = true ↔ ∀ n, n ∈ l → is_Some (next_vote_keys_ m !! n).
Proof.
  unfold all_keys. rewrite forallb_forall. setoid_rewrite <-list_elem_of_In.
  by setoid_rewrite bool_decide_eq_true.
Qed.

Lemma all_attested_spec m l :
  all_attested m l = true ↔ ∀ n, n ∈ l → ∃ v, final_verdicts_ m !! n = Some v ∧ av_passed v = true.
Proof.
  unfold all_attested. rewrite forallb_forall. setoid_rewrite <-list_elem_of_In.
  split; intros Hl n Hn; specialize (Hl n Hn); destruct (final_verdicts_ m !! n); naive_solver.
Qed.

Lemma activate_ok m : manager_ok m → manager_ok (activate_next_epoch m).2.
Proof.
  intros Hm. destruct (activate_next_epoch m) as [[next|] m'] eqn:E.
  - destruct (activate_spec m next m' Hm E) as (t & Et & Ht & _ & _ & _ & _ & Es & En & _ & Hk & Ec & Ev & Etr).
    assert (Em : rank_ m' = [] ∧ authorized_ m' = false).
    { unfold activate_next_epoch in E. rewrite Et in E.
      destruct (negb _ || _); [done|]. destruct (from_nodes _); [|done]. by injection E as <- <-. }
    destruct Em as [Er Ea]. apply from_nodes_spec in Es as [Hd Hms].
    constructor; cbn [snd]; [|rewrite Er; constructor| |by rewrite Ea].
    + rewrite Ec, Ev. constructor.
      * rewrite En. reflexivity.
      * apply from_nodes_spec. rewrite Hms. split; [by rewrite merge_sort_Permutation|].
        apply (StronglySorted_unique Z.le); [apply (StronglySorted_merge_sort Z.le)..|].
        symmetry. apply (merge_sort_Permutation Z.le).
      * rewrite Hms, merge_sort_Permutation. apply (tk_size _ _ Ht).
      * intros n. rewrite Hms, merge_sort_Permutation. split.
        -- intros [k Hn]. by apply (ct_keys _ _ (tk_collected _ _ Ht)) in Hn as [? _].
        -- rewrite all_keys_spec in Hk. apply Hk.
    + intros t' Ht'. apply transition_active_some in Ht' as [Ht' _]. cbn in *. congruence.
  - assert (m' = m) as ->; [|done]. unfold activate_next_epoch in E.
    destruct (transition_ m); [|by injection E]. destruct (negb _ || _); [by injection E|].
    by destruct (from_nodes _); injection E.
Qed.

(** ** Runs *)

(** [Tier1Set] values are only made by [from_nodes]. *)
Definition call_wf (c : EpochCall) : Prop :=
  match c with
  | PrepareNext s _ | PreparePlanned s _ => from_nodes (t1_members s) = Some s
  | _ => True
  end.

Lemma call_epoch_ok m c : manager_ok m → call_wf c → manager_ok (call_epoch c m).
Proof.
  intros Hm Hc. destruct c; cbn [call_epoch].
  - by apply prepare_next_ok.
  - by apply prepare_planned_ok.
  - by apply record_final_attestation_ok.
  - by apply replace_participant_ok.
  - by apply record_vote_key_ok.
  - by apply record_dkg_result_ok.
  - by apply record_authorization_ok.
  - by apply activate_ok.
  - by apply abort_ok.
Qed.

Lemma call_epochs_ok m calls : manager_ok m → Forall call_wf calls → manager_ok (call_epochs calls m).
Proof.
  intros Hm Hc. unfold call_epochs. revert m Hm.
  induction Hc as [|c calls Hc Hcs IH]; intros m Hm; [done|]. cbn. by apply IH, call_epoch_ok.
Qed.
End invariants.
