(* ===== verification/EpochTheorems.v ===== *)
(** * What the epoch handoff guarantees

    The theorems on [Epoch/EpochManager.cpp]: what an activated epoch rests on,
    that a handoff whose prerequisites arrive completes in whatever order they
    arrive, and that a previewed selection is the one a replica opens. *)

From S2P Require Import Prelude SecurityPolicy CanonicalEncoding Selection PlatformClaims.
From S2P Require Import EpochManager EpochInvariants.

Section collecting.
Context `{Sodium}.
Implicit Types (m : EpochManager) (t : EpochTransition).

(** ** Collecting in any order *)

(** The prerequisites of a planned handoff: a passed final verdict for a
    planned member, or the vote key that member was given. *)
Definition collects (planned : list NodeId) (keys : gmap Z Ed25519PublicKey) (to : EpochId)
    (c : EpochCall) : Prop :=
  match c with
  | RecordAttestation v => av_node_id v ∈ planned ∧ av_passed v = true ∧ av_epoch v = to ∧
      av_purpose v = FinalEpochReadiness
  | RecordVoteKey n k => keys !! n = Some k
  | _ => False
  end.

(** One key for each planned member: distinct, not zero, not of the epoch in
    force. *)
Record keys_usable (planned : list NodeId) (old keys : gmap Z Ed25519PublicKey) : Prop :=
  mkKeysUsable {
  ku_dom : ∀ n, is_Some (keys !! n) ↔ n ∈ planned;
  ku_nonzero : ∀ n k, keys !! n = Some k → k ≠ 0;
  ku_inj : ∀ n n' k, keys !! n = Some k → keys !! n' = Some k → n = n';
  ku_fresh : ∀ n n' k, keys !! n = Some k → old !! n' ≠ Some k;
}.

(** The manager after [calls] were collected. *)
Record collecting (e : EpochState) (old : gmap Z Ed25519PublicKey) (planned : list NodeId)
    (keys : gmap Z Ed25519PublicKey) (calls : list EpochCall) m : Prop := mkCollecting {
  cg_ok : manager_ok m;
  cg_current : current_ m = e ∧ current_vote_keys_ m = old;
  cg_transition : ∃ t, transition_active m = Some t ∧ tr_selected_members t = planned ∧
    tr_next_authority_key t = 0;
  cg_verdicts : ∀ v, RecordAttestation v ∈ calls → is_Some (final_verdicts_ m !! av_node_id v);
  cg_keys : ∀ n k, RecordVoteKey n k ∈ calls → next_vote_keys_ m !! n = Some k;
  cg_only : next_vote_keys_ m ⊆ keys;
}.

Lemma computed_phase_waiting m t :
  tr_next_authority_key t = 0 →
  accepts_verdicts (computed_phase m t) = true ∧ computed_phase m t ≠ PhaseReady ∧
  computed_phase m t ≠ Aborted.
Proof.
  intros E. unfold computed_phase. rewrite E. cbn.
  destruct (all_attested _ _); [destruct (all_keys _ _)|]; done.
Qed.

(** Recomputing keeps a collecting transition collecting. *)
Lemma recompute_active m t :
  transition_ m = Some t → tr_failure t = TfNone → tr_next_authority_key t = 0 →
  ∃ t', transition_active (recompute_phase m) = Some t' ∧
    tr_selected_members t' = tr_selected_members t ∧ tr_next_authority_key t' = 0 ∧
    final_verdicts_ (recompute_phase m) = final_verdicts_ m ∧
    next_vote_keys_ (recompute_phase m) = next_vote_keys_ m ∧
    current_ (recompute_phase m) = current_ m ∧
    current_vote_keys_ (recompute_phase m) = current_vote_keys_ m.
Proof.
  intros Et Hf Hk.
  destruct (recompute_transition m t Et Hf) as (t' & Et' & E & _ & _ & Es & Ek & _ & _ & Eph & _).
  exists t'. rewrite Es, Ek, E. split; [|done].
  apply transition_active_some. split; [done|]. rewrite Eph.
  by destruct (computed_phase_waiting m t Hk) as (_ & _ & ?).
Qed.

(** What the collecting transition lets through. *)
Lemma collecting_transition e old planned keys calls m :
  collecting e old planned keys calls m → ∃ t, transition_active m = Some t ∧
    transition_ m = Some t ∧ transition_ok m t ∧ tr_selected_members t = planned ∧
    tr_next_authority_key t = 0 ∧ tr_to_epoch t = es_id e +64 1 ∧
    accepts_verdicts (tr_phase t) = true ∧ tr_phase t ≠ PhaseReady.
Proof.
  intros [Hm [Ee Eo] (t & Hact & Es & Ek) _ _ _]. exists t.
  pose proof (mk_transition _ Hm t Hact) as Ht. pose proof Hact as [Et _]%transition_active_some.
  destruct (computed_phase_waiting m t Ek) as (Hacc & Hnr & _).
  rewrite <-(tk_phase _ _ Ht) in Hacc, Hnr. destruct (tk_epochs _ _ Ht) as [_ Eto].
  rewrite Ee in Eto. done.
Qed.

(** Collecting state that only grew, recomputed. *)
Lemma collecting_grows e old planned keys calls c m m1 t :
  manager_ok (recompute_phase m1) → transition_ m1 = Some t → tr_failure t = TfNone →
  tr_selected_members t = planned → tr_next_authority_key t = 0 →
  current_ m1 = e → current_vote_keys_ m1 = old →
  (∀ v, RecordAttestation v ∈ calls ++ [c] → is_Some (final_verdicts_ m1 !! av_node_id v)) →
  (∀ n k, RecordVoteKey n k ∈ calls ++ [c] → next_vote_keys_ m1 !! n = Some k) →
  next_vote_keys_ m1 ⊆ keys → call_epoch c m = recompute_phase m1 →
  collecting e old planned keys (calls ++ [c]) (call_epoch c m).
Proof.
  intros Hm Et Hf Es Ek Ee Eo Hv Hk Hsub ->.
  destruct (recompute_active m1 t Et Hf Ek) as (t' & Hact' & Es' & Ek' & Ev' & Env' & Ec' & Ecv').
  constructor; rewrite ?Ec', ?Ecv', ?Ev', ?Env'; try done. exists t'. by rewrite Es'.
Qed.

Lemma elem_of_snoc {A} (x y : A) l : x ∈ l ++ [y] ↔ x ∈ l ∨ x = y.
Proof. by rewrite elem_of_app, list_elem_of_singleton. Qed.

Lemma collect_verdict e old planned keys calls v m :
  collecting e old planned keys calls m → collects planned keys (es_id e +64 1) (RecordAttestation v) →
  collecting e old planned keys (calls ++ [RecordAttestation v]) (call_epoch (RecordAttestation v) m).
Proof.
  intros Hcg (Hin & Hp & He & Hpu).
  destruct (collecting_transition _ _ _ _ _ _ Hcg) as (t & Hact & Et & Ht & Es & Ek & Eto & Hacc & _).
  destruct Hcg as [Hm [Ee Eo] _ Hv Hk Hsub].
  assert (E : call_epoch (RecordAttestation v) m = recompute_phase
    (m <| final_verdicts_ := <[ av_node_id v := v ]> (final_verdicts_ m) |>)).
  { cbn [call_epoch]. unfold record_final_attestation, is_selected.
    rewrite Hact, Hacc, He, Eto, Hpu, Es, Hp, Z.eqb_refl, !bool_decide_eq_true_2 by done. done. }
  eapply (collecting_grows _ _ _ _ _ _ m _ t); [rewrite <-E|exact Et|apply Ht|done..| | |exact Hsub|exact E].
  - by apply call_epoch_ok.
  - cbn. intros w [Hw| [= ->]]%elem_of_snoc; apply lookup_insert_is_Some'; [right; by apply Hv|by left].
  - cbn. intros n k [Hw| [=]]%elem_of_snoc. by apply Hk.
Qed.

Lemma collect_key e old planned keys calls n k m :
  keys_usable planned old keys → collecting e old planned keys calls m → keys !! n = Some k →
  collecting e old planned keys (calls ++ [RecordVoteKey n k]) (call_epoch (RecordVoteKey n k) m).
Proof.
  intros Hku Hcg Hn. assert (Hin : n ∈ planned) by by apply (ku_dom _ _ _ Hku).
  destruct (collecting_transition _ _ _ _ _ _ Hcg) as (t & Hact & Et & Ht & Es & Ek & Eto & _ & Hnr).
  pose proof (ku_nonzero _ _ _ Hku n k Hn) as Hk0.
  assert (E : call_epoch (RecordVoteKey n k) m = m ∧ next_vote_keys_ m !! n = Some k ∨
    call_epoch (RecordVoteKey n k) m =
      recompute_phase (m <| next_vote_keys_ := <[ n := k ]> (next_vote_keys_ m) |>)).
  { destruct Hcg as [Hm [Ee Eo] _ Hv Hk Hsub]. cbn [call_epoch]. unfold record_vote_key, is_selected.
    rewrite Hact, Es, bool_decide_eq_false_2, (proj2 (Z.eqb_neq k 0) Hk0), bool_decide_eq_true_2 by done.
    cbn [negb]. destruct (next_vote_keys_ m !! n) as [k'|] eqn:Hex.
    { left. split; [done|]. exact (eq_trans (eq_sym (lookup_weaken _ keys _ _ Hex Hsub)) Hn). }
    right. rewrite (proj2 (key_in_use_false k _)), (proj2 (key_in_use_false k _)); [done| |].
    - intros n'. rewrite Eo. by apply (ku_fresh _ _ _ Hku n).
    - intros n' Hn'. pose proof (lookup_weaken _ keys _ _ Hn' Hsub) as Hn''.
      rewrite (ku_inj _ _ _ Hku n' n k Hn'' Hn) in Hn'. by pose proof (eq_trans (eq_sym Hex) Hn'). }
  pose proof (call_epoch_ok m (RecordVoteKey n k) (cg_ok _ _ _ _ _ _ Hcg) I) as Hm'.
  destruct Hcg as [Hm [Ee Eo] Htr Hv Hk Hsub]. destruct E as [[E Hex]|E].
  - rewrite E. constructor; try done.
    + intros v [Hw| [=]]%elem_of_snoc. by apply Hv.
    + intros n' k' [Hw| [= -> ->]]%elem_of_snoc; [by apply Hk|done].
  - eapply (collecting_grows _ _ _ _ _ _ m _ t); [by rewrite <-E|exact Et|apply Ht|done..| | | |exact E].
    + cbn. intros w [Hw| [=]]%elem_of_snoc. by apply Hv.
    + cbn. intros n' k' [Hw| [= -> ->]]%elem_of_snoc; [|by rewrite lookup_insert_eq].
      apply Hk in Hw. destruct (decide (n' = n)) as [->|]; [|by rewrite lookup_insert_ne].
      rewrite lookup_insert_eq. exact (eq_trans (eq_sym Hn) (lookup_weaken _ keys _ _ Hw Hsub)).
    + cbn. by apply insert_subseteq_l.
Qed.

Lemma collect_all e old planned keys m calls :
  keys_usable planned old keys → collecting e old planned keys [] m →
  Forall (collects planned keys (es_id e +64 1)) calls →
  collecting e old planned keys calls (call_epochs calls m).
Proof.
  intros Hku Hm. induction calls as [|c calls IH] using rev_ind; [done|].
  rewrite Forall_app, Forall_singleton. intros [Hcs Hc]. unfold call_epochs.
  rewrite foldl_app. cbn [foldl]. specialize (IH Hcs). destruct c; try done.
  - by apply collect_verdict.
  - by apply collect_key.
Qed.
(** Once all is collected the transition waits for the group key. *)
Lemma collected_phase e old planned keys calls m :
  keys_usable planned old keys → collecting e old planned keys calls m →
  (∀ n, n ∈ planned → ∃ v, RecordAttestation v ∈ calls ∧ av_node_id v = n) →
  (∀ n, n ∈ planned → ∃ k, RecordVoteKey n k ∈ calls) →
  ∃ t, transition_active m = Some t ∧ transition_ok m t ∧ tr_selected_members t = planned ∧
    tr_phase t = GeneratingAuthorityKey ∧
    all_attested m planned = true ∧ all_keys m planned = true.
Proof.
  intros Hku Hcg Hvs Hks.
  destruct (collecting_transition _ _ _ _ _ _ Hcg) as (t & Hact & Et & Ht & Es & Ek & _ & _ & _).
  assert (Ha : all_attested m planned = true).
  { apply all_attested_spec. intros n (v & Hv & <-)%Hvs. apply (cg_verdicts _ _ _ _ _ _ Hcg) in Hv as [w Hw].
    exists w. split; [done|]. by apply (ct_verdicts _ _ (tk_collected _ _ Ht)) in Hw as (_ & _ & ? & _). }
  assert (Hb : all_keys m planned = true).
  { apply all_keys_spec. intros n (k & Hk)%Hks. apply (cg_keys _ _ _ _ _ _ Hcg) in Hk. by exists k. }
  exists t. rewrite (tk_phase _ _ Ht). unfold computed_phase. by rewrite Es, Ha, Hb, Ek.
Qed.

(** The last three calls. *)
Lemma finish_handoff m t group transcript certificate :
  transition_active m = Some t → transition_ok m t → tr_phase t = GeneratingAuthorityKey →
  all_attested m (tr_selected_members t) = true → all_keys m (tr_selected_members t) = true →
  group ≠ 0 → transcript ≠ 0 → certificate ≠ 0 → selected_digest (tr_selected_members t) ≠ 0 →
  ∃ next, current_ (call_epochs [RecordDkgResult group transcript; RecordAuthorization certificate;
      ActivateNext] m) = next ∧
    current_vote_keys_ (call_epochs [RecordDkgResult group transcript;
      RecordAuthorization certificate; ActivateNext] m) = next_vote_keys_ m ∧
    es_id next = tr_to_epoch t ∧ t1_members (es_tier1_members next) = merge_sort Z.le (tr_selected_members t) ∧
    es_authority_public_key next = group.
Proof.
  intros Hact Ht Hph Ha Hk Hg Htr Hc Hd. unfold call_epochs. cbn [foldl call_epoch].
  assert (E1 : record_dkg_result group transcript m = (true, recompute_phase (m <| transition_ :=
    Some (t <| tr_next_authority_key := group |> <| tr_dkg_transcript_digest := transcript |>) |>))).
  { unfold record_dkg_result. rewrite Hact, Hph, bool_decide_eq_true_2 by done.
    by rewrite (proj2 (Z.eqb_neq group 0)), (proj2 (Z.eqb_neq transcript 0)) by done. }
  rewrite E1. cbn [snd]. set (t1 := _ <| tr_dkg_transcript_digest := transcript |>).
  destruct (recompute_transition (m <| transition_ := Some t1 |>) t1 ltac:(done) (tk_failure _ _ Ht))
    as (t2 & Et2 & Em & _ & Eto & Es & Ek & Etr & Ef & Eph & Edg & _ & _ & Er).
  assert (Eph' : tr_phase t2 = PhaseReady).
  { rewrite Eph. unfold computed_phase. subst t1. cbn [tr_selected_members tr_next_authority_key set_field].
    change (all_attested _ (tr_selected_members t)) with (all_attested m (tr_selected_members t)).
    change (all_keys _ (tr_selected_members t)) with (all_keys m (tr_selected_members t)).
    cbn. by rewrite Ha, Hk, (proj2 (Z.eqb_neq group 0)). }
  rewrite Em. set (m2 := _ <| transition_ := Some t2 |>).
  assert (E2 : record_handoff_authorization certificate m2 = (true, m2 <| authorized_ := true |>
    <| authorization_certificate_digest_ := certificate |>)).
  { unfold record_handoff_authorization, transition_active. subst m2. cbn [transition_ set_field].
    rewrite bool_decide_eq_false_2 by (by rewrite Eph').
    by rewrite bool_decide_eq_true_2, (proj2 (Z.eqb_neq certificate 0)). }
  rewrite E2. cbn [snd]. unfold activate_next_epoch. subst m2. cbn.
  destruct (selected_digest_some (tr_selected_members t) (ct_distinct _ _ (tk_collected _ _ Ht)))
    as (s & Hs & Hsm & Hsd).
  assert (Er2 : ready_for_activation t2 = true).
  { unfold ready_for_activation. rewrite Eph', Ef, Es, Ek, Etr, Edg. subst t1. cbn -[Z.of_nat].
    pose proof (tk_size _ _ Ht). rewrite (proj2 (Z.leb_le _ _)) by done.
    by rewrite (proj2 (Z.eqb_neq group 0)), (proj2 (Z.eqb_neq transcript 0)), (proj2 (Z.eqb_neq _ _) Hd) by done. }
  rewrite Er2, Es. subst t1. cbn. rewrite Hs. cbn. eexists. split; [done|]. cbn.
  rewrite Eto, Ek. cbn. done.
Qed.
End collecting.

Section theorems.
Context `{Sodium}.

(** C20: the type of a manager: from any epoch made by [make_epoch_state], every
    sequence of calls keeps the manager well formed (the phase is the one the
    collected verdicts, keys and group key give, everything collected belongs to
    a selected member and the target epoch, an authorization stands only for a
    ready transition), and a call leaves the epoch in force and its vote keys
    alone unless it activates. *)
Theorem manager_well_formed (e : EpochState) (keys : gmap Z Ed25519PublicKey)
    (calls : list EpochCall) (c : EpochCall) :
  epoch_ok e keys → Forall call_wf calls → call_wf c →
  let m := call_epochs calls (new_manager e keys) in
  manager_ok m ∧ manager_ok (call_epoch c m) ∧
  (current_ (call_epoch c m) = current_ m ∧
   current_vote_keys_ (call_epoch c m) = current_vote_keys_ m ∨
   c = ActivateNext ∧ ∃ next, activate_next_epoch m = (Some next, call_epoch c m)).
Proof.
  intros He Hcs Hc m. assert (Hm : manager_ok m) by (apply call_epochs_ok; [by apply new_manager_ok|done]).
  split; [done|]. split; [by apply call_epoch_ok|]. clearbody m.
  destruct c; cbn [call_epoch].
  - left. unfold prepare_next_epoch. by repeat case_match.
  - left. unfold prepare_planned_epoch. by repeat case_match.
  - left. unfold record_final_attestation, remove_member, pull_replacement, recompute_phase, abort_transition.
    by repeat case_match; simplify_eq/=.
  - left. unfold replace_participant, remove_member, pull_replacement, recompute_phase, abort_transition.
    by repeat case_match; simplify_eq/=.
  - left. unfold record_vote_key, recompute_phase. by repeat case_match; simplify_eq/=.
  - left. unfold record_dkg_result, recompute_phase. by repeat case_match; simplify_eq/=.
  - left. unfold record_handoff_authorization. by repeat case_match; simplify_eq/=.
  - destruct (activate_next_epoch m) as [[next|] m'] eqn:E; [right; by eauto|left].
    unfold activate_next_epoch in E. by repeat case_match; simplify_eq/=.
  - left. unfold abort_transition. by case_match.
Qed.
(** C7: an epoch is activated only when every prerequisite is in: it follows the
    epoch in force on the same network, has at least the minimum of distinct
    members with the policy's thresholds, a nonzero group key and a recorded
    authorization; every member of it passed its final attestation for exactly
    that epoch and holds a vote key that is not zero, not another member's and
    not a key of the epoch before. *)
Theorem activation_complete (e : EpochState) (keys : gmap Z Ed25519PublicKey)
    (calls : list EpochCall) (next : EpochState) (m' : EpochManager) :
  epoch_ok e keys → Forall call_wf calls →
  let m := call_epochs calls (new_manager e keys) in
  activate_next_epoch m = (Some next, m') →
  es_id next = es_id (current_ m) +64 1 ∧ es_network_id next = es_network_id (current_ m) ∧
  current_ m' = next ∧ epoch_ok next (current_vote_keys_ m') ∧
  es_authority_public_key next ≠ 0 ∧ authorization_certificate_digest_ m ≠ 0 ∧
  ∀ n, n ∈ t1_members (es_tier1_members next) →
    (∃ v, final_verdicts_ m !! n = Some v ∧ av_node_id v = n ∧ av_passed v = true ∧
          av_epoch v = es_id next ∧ av_purpose v = FinalEpochReadiness) ∧
    ∃ k, current_vote_keys_ m' !! n = Some k ∧ k ≠ 0 ∧
      (∀ n', current_vote_keys_ m' !! n' = Some k → n' = n) ∧
      ∀ n', current_vote_keys_ m !! n' ≠ Some k.
Proof.
  intros He Hcs m Hact.
  assert (Hm : manager_ok m) by (apply call_epochs_ok; [by apply new_manager_ok|done]).
  pose proof (activate_ok m Hm) as Hm'. rewrite Hact in Hm'. cbn [snd] in Hm'. clearbody m.
  destruct (activate_spec m next m' Hm Hact) as (t & Et & Ht & _ & Hau & Hg & _ & Es & En & Ha & Hk
    & Ec & Ev & _).
  destruct (mk_authorized _ Hm Hau) as [Hcert _]. destruct (tk_epochs _ _ Ht) as [_ Eto].
  assert (Eid : es_id next = tr_to_epoch t) by (rewrite En; done).
  split; [congruence|]. split; [rewrite En; done|]. split; [done|].
  split; [rewrite <-Ec; apply Hm'|]. split; [rewrite En; done|]. split; [done|].
  apply from_nodes_spec in Es as [_ Hms]. intros n. rewrite Hms, merge_sort_Permutation. intros Hn.
  destruct (tk_collected _ _ Ht) as [_ _ _ Hv Hks Hki Hkf]. split.
  - rewrite all_attested_spec in Ha. destruct (Ha n Hn) as (v & Hlv & _). exists v.
    rewrite Eid. by destruct (Hv _ _ Hlv) as (_ & ? & ? & ? & ?).
  - rewrite all_keys_spec in Hk. destruct (Hk n Hn) as [k Hlk]. exists k. rewrite Ev.
    split; [done|]. split; [by apply Hks in Hlk as [_ ?]|]. split; [eauto|]. intros n'. eauto.
Qed.

(** a planned handoff whose prerequisites arrive completes, whatever the order
    and the repetitions of the verdicts and vote keys: after the group key and
    the authorization, activation puts the planned members in force, one epoch
    later, under the group key and with the collected vote keys. *)
Theorem handoff_completes (m : EpochManager) (pool : Tier1Set) (planned : list NodeId)
    (keys : gmap Z Ed25519PublicKey) (calls : list EpochCall) (group transcript certificate : Z) :
  manager_ok m → from_nodes (t1_members pool) = Some pool →
  (prepare_planned_epoch pool planned m).1 = true →
  keys_usable planned (current_vote_keys_ m) keys →
  Forall (collects planned keys (es_id (current_ m) +64 1)) calls →
  (∀ n, n ∈ planned → (∃ v, RecordAttestation v ∈ calls ∧ av_node_id v = n) ∧
                      ∃ k, RecordVoteKey n k ∈ calls) →
  group ≠ 0 → transcript ≠ 0 → certificate ≠ 0 → selected_digest planned ≠ 0 →
  let m' := call_epochs ([PreparePlanned pool planned] ++ calls ++
              [RecordDkgResult group transcript; RecordAuthorization certificate; ActivateNext]) m in
  es_id (current_ m') = es_id (current_ m) +64 1 ∧
  t1_members (es_tier1_members (current_ m')) = merge_sort Z.le planned ∧
  es_authority_public_key (current_ m') = group ∧ current_vote_keys_ m' = keys.
Proof.
  intros Hm Hpool Hprep Hku Hcs Hall Hg Htr Hc Hd m'. subst m'. unfold call_epochs.
  rewrite !foldl_app. cbn [foldl call_epoch].
  pose proof (prepare_planned_ok m pool planned Hm Hpool) as Hm1.
  assert (Hcg : collecting (current_ m) (current_vote_keys_ m) planned keys []
    (prepare_planned_epoch pool planned m).2).
  { revert Hprep Hm1. unfold prepare_planned_epoch. destruct (_ || _); [done|].
    destruct (existsb _ _); [done|]. destruct (from_nodes planned); [|done]. cbn [fst snd]. intros _ Hm1.
    constructor; try done; [by eexists|by intros v ?%elem_of_nil|by intros n k ?%elem_of_nil|].
    apply map_empty_subseteq. }
  pose proof (collect_all _ _ _ _ _ calls Hku Hcg Hcs) as Hcg'. unfold call_epochs in Hcg'.
  set (m1 := foldl _ _ calls) in *. clearbody m1.
  destruct (collected_phase _ _ _ _ _ _ Hku Hcg') as (t & Hact & Ht & Es & Hph & Ha & Hk);
    [by intros n [? _]%Hall|by intros n [_ ?]%Hall|]. rewrite <-Es in Ha, Hk, Hd.
  destruct (finish_handoff m1 t group transcript certificate) as (next & E1 & E2 & E3 & E4 & E5); try done.
  unfold call_epochs in E1, E2. cbn [foldl call_epoch] in E1, E2. rewrite E1, E2, E3, E4, E5, Es.
  destruct Hcg' as [Hm' [Ec _] _ _ Hks Hsub]. destruct (tk_epochs _ _ Ht) as [_ ->]. rewrite Ec.
  split; [done|]. split; [done|]. split; [done|].
  apply map_eq. intros n. destruct (keys !! n) as [k|] eqn:Hn.
  - assert (Hin : n ∈ planned) by by apply (ku_dom _ _ _ Hku).
    destruct (Hall n Hin) as [_ [k' Hk']]. apply Hks in Hk'.
    assert (Some k' = Some k) as [= <-]; [|exact Hk'].
    exact (eq_trans (eq_sym (lookup_weaken _ keys _ _ Hk' Hsub)) Hn).
  - by apply (lookup_weaken_None _ keys).
Qed.

(** what a proposer previews is what a replica opens: a nonempty preview under
    any exclusions holds distinct eligible members, none excluded, and
    [prepare_planned_epoch] accepts it and selects exactly it; with no
    exclusions it is the selection of [prepare_next_epoch], which refuses exactly
    when the preview is empty. *)
Theorem preview_is_prepared (m : EpochManager) (pool : Tier1Set) (admitted : Z) (excluded : gset Z) :
  from_nodes (t1_members pool) = Some pool → transition_active m = None →
  let selected := preview_selection m pool admitted excluded in
  (selected ≠ [] →
    NoDup selected ∧ (∀ n, n ∈ selected → n ∈ t1_members pool ∧ n ∉ excluded) ∧
    kMinActiveTier1 <= Z.of_nat (length selected) ∧
    prepare_planned_epoch pool selected m =
      (true, open_transition (m <| rank_ := next_rank m pool |>) selected)) ∧
  let plain := preview_selection m pool admitted ∅ in
  (prepare_next_epoch pool admitted m).1 = negb (bool_decide (plain = [])) ∧
  (plain ≠ [] → tr_selected_members <$> transition_ (prepare_next_epoch pool admitted m).2 = Some plain).
Proof.
  intros Hpool Hidle selected. pose proof (next_rank_NoDup m pool Hpool) as Hnd. split.
  - subst selected. unfold preview_selection. destruct (_ <? kMinActiveTier1); [done|].
    set (picked := pick _ _ _). destruct (Z.ltb_spec (Z.of_nat (length picked)) kMinActiveTier1) as [|Hmin];
      [done|]. intros _. assert (Hp : NoDup picked) by by apply pick_NoDup.
    assert (Hin : ∀ n, n ∈ picked → n ∈ t1_members pool ∧ n ∉ excluded).
    { intros n [Hn ?]%pick_excluded. by apply elem_of_next_rank in Hn. }
    split; [done|]. split; [done|]. split; [done|]. unfold prepare_planned_epoch. rewrite Hidle.
    rewrite bool_decide_eq_false_2 by (by intros [? ?]). rewrite (proj2 (Z.ltb_ge _ _) Hmin). cbn [orb].
    destruct (existsb _ _) eqn:E.
    + apply existsb_exists in E as (n & [Hn _]%list_elem_of_In%Hin & Hc). unfold contains in Hc.
      by rewrite bool_decide_eq_true_2 in Hc.
    + destruct (selected_digest_some picked Hp) as (s & -> & _). done.
  - unfold preview_selection, prepare_next_epoch. rewrite Hidle, pick_none.
    set (outcome := tier1_target_outcome admitted _).
    pose proof (target_at_most admitted (Z.of_nat (length (t1_members pool))) ltac:(lia)) as Ht.
    fold outcome in Ht. clearbody outcome.
    assert (Hl : length (next_rank m pool) = length (t1_members pool)).
    { unfold next_rank, rank. by rewrite ranked_by_perm. }
    destruct (Z.ltb_spec (to_active_target outcome) kMinActiveTier1) as [|Hmin]; [done|].
    assert (Hlen : Z.of_nat (length (take (Z.to_nat (to_active_target outcome)) (next_rank m pool))) =
      to_active_target outcome) by (rewrite length_take; lia).
    rewrite Hlen, (proj2 (Z.ltb_ge _ _) Hmin). split; [|done].
    cbn [fst]. symmetry. apply negb_true_iff, bool_decide_eq_false_2. intros Hnil. rewrite Hnil in Hlen.
    cbn in Hlen. unfold kMinActiveTier1 in Hmin. lia.
Qed.
End theorems.

(** ** A handoff among five members *)

Module Handoff.
(** A hash that is never zero; no signature is checked here. *)
#[export] Instance sodium : Sodium := {|
  crypto_hash_sha256 bytes := 1 + foldl (λ acc b, (acc * 31 + b) mod 65521) 7 bytes;
  crypto_sign_detached _ d := Some d;
  crypto_sign_verify_detached _ _ _ := true |}.

Definition keyed (f : Z → Z) (nodes : list NodeId) : gmap Z Ed25519PublicKey :=
  list_to_map ((λ n, (n, f n)) <$> nodes).

Definition members : list NodeId := [1; 2; 3; 4; 5].
Definition epoch_one : EpochState := make_epoch_state 1 9 (mkTier1Set members) 70 0.
Definition old_keys : gmap Z Ed25519PublicKey := keyed (Z.add 10) members.
Definition pool : Tier1Set := mkTier1Set [1; 2; 3; 4; 5; 6; 7].
Definition planned : list NodeId := [7; 2; 3; 5; 6].
Definition new_keys : gmap Z Ed25519PublicKey := keyed (Z.add 20) planned.

Definition verdict (node : NodeId) : AttestationVerdict :=
  mkVerdict node 2 1 FinalEpochReadiness (100 + node) 0 0 true AfNone no_claims [].
Definition collected : list EpochCall :=
  (RecordAttestation ∘ verdict <$> [2; 3; 2]) ++ ((λ n, RecordVoteKey n (20 + n)) <$> planned) ++
  (RecordAttestation ∘ verdict <$> [7; 6; 5]) ++ [RecordVoteKey 7 27].
Definition completing : list EpochCall :=
  [RecordDkgResult 71 72; RecordAuthorization 73; ActivateNext].
Definition until_activation : list EpochCall :=
  [PreparePlanned pool planned] ++ collected ++ [RecordDkgResult 71 72; RecordAuthorization 73].

Lemma keyed_lookup f nodes n k :
  keyed f nodes !! n = Some k ↔ n ∈ nodes ∧ k = f n.
Proof.
  unfold keyed. induction nodes as [|x nodes IH]; cbn.
  { rewrite lookup_empty, elem_of_nil. naive_solver. }
  rewrite elem_of_cons, lookup_insert_Some, IH. destruct (decide (n = x)); naive_solver.
Qed.

Lemma epoch_one_ok : epoch_ok epoch_one old_keys.
Proof.
  constructor; [reflexivity|vm_compute; reflexivity|vm_compute; done|].
  intros n. unfold old_keys. split; [by intros [k [? _]%keyed_lookup]|].
  intros Hn. exists (10 + n). by apply keyed_lookup.
Qed.

Lemma new_keys_usable : keys_usable planned old_keys new_keys.
Proof.
  constructor.
  - intros n. unfold new_keys. split; [by intros [k [? _]%keyed_lookup]|].
    intros Hn. exists (20 + n). by apply keyed_lookup.
  - intros n k [Hn ->]%keyed_lookup. unfold planned in Hn. set_unfold in Hn. lia.
  - intros n n' k [_ ->]%keyed_lookup [_ ?]%keyed_lookup. lia.
  - intros n n' k [Hn ->]%keyed_lookup [Hn' ?]%keyed_lookup. unfold planned, members in *.
    set_unfold in Hn. set_unfold in Hn'. lia.
Qed.
End Handoff.

Section applications.
#[local] Existing Instance Handoff.sodium.
Import Handoff.

Lemma until_wf : Forall call_wf until_activation.
Proof. repeat constructor; vm_compute; reflexivity. Qed.

Lemma manager_well_formed_witness :
  manager_ok (call_epochs until_activation (new_manager epoch_one old_keys)) ∧
  es_id (current_ (call_epoch ActivateNext
    (call_epochs until_activation (new_manager epoch_one old_keys)))) = 2.
Proof.
  destruct (manager_well_formed epoch_one old_keys until_activation ActivateNext epoch_one_ok until_wf I)
    as (Hm & _ & _).
  split; [exact Hm|vm_compute; reflexivity].
Defined.

Lemma activation_complete_witness :
  ∃ next m', activate_next_epoch (call_epochs until_activation (new_manager epoch_one old_keys)) =
    (Some next, m') ∧ es_id next = 2 ∧ epoch_ok next (current_vote_keys_ m').
Proof.
  destruct (activate_next_epoch (call_epochs until_activation (new_manager epoch_one old_keys)))
    as [[next|] m'] eqn:E; [|vm_compute in E; discriminate E].
  destruct (activation_complete epoch_one old_keys until_activation next m' epoch_one_ok until_wf E)
    as (Hid & _ & _ & Hok & _).
  exists next, m'. split; [reflexivity|]. split; [rewrite Hid; vm_compute; reflexivity|exact Hok].
Defined.

Lemma handoff_completes_witness :
  let m' := call_epochs ([PreparePlanned pool planned] ++ collected ++ completing)
              (new_manager epoch_one old_keys) in
  es_id (current_ m') = 2 ∧ current_vote_keys_ m' = new_keys.
Proof.
  destruct (handoff_completes (new_manager epoch_one old_keys) pool planned new_keys collected 71 72 73)
    as (E1 & _ & _ & E2); [by apply new_manager_ok, epoch_one_ok|vm_compute; reflexivity|vm_compute; reflexivity| | | | | | | |].
  - exact new_keys_usable.
  - repeat constructor; vm_compute; try reflexivity; set_solver.
  - intros n Hn. split.
    + exists (verdict n). split; [|done]. unfold planned in Hn. unfold collected, planned. set_solver.
    + exists (20 + n). unfold planned in Hn. unfold collected, planned. set_solver.
  - lia.
  - lia.
  - lia.
  - vm_compute. discriminate.
  - split; [exact E1|exact E2].
Defined.

Lemma preview_is_prepared_witness :
  preview_selection (new_manager epoch_one old_keys) pool 6 {[ 1 ]} ≠ [] ∧
  NoDup (preview_selection (new_manager epoch_one old_keys) pool 6 {[ 1 ]}).
Proof.
  destruct (preview_is_prepared (new_manager epoch_one old_keys) pool 6 {[ 1 ]}) as [Hp _];
    [vm_compute; reflexivity|reflexivity|].
  assert (Hne : preview_selection (new_manager epoch_one old_keys) pool 6 {[ 1 ]} ≠ [])
    by (vm_compute; discriminate).
  split; [exact Hne|exact (proj1 (Hp Hne))].
Defined.
End applications.
