(* ===== verification/Genesis.v ===== *)
(** * Genesis

    Models [Genesis/GenesisService.cpp] and the attests of
    [Genesis/GenesisMessages.hpp]: the temporary authority that introduces
    candidates, records what they and the founders attest, and signs the one
    bootstrap certificate. Each method is a definition with its name that
    returns its result and the new service; a call the finalized service
    refuses returns [false] or [None]. *)

From S2P Require Import Prelude SecurityPolicy CanonicalEncoding Selection ConsensusTypes.
From S2P Require Import QuorumValidation EpochAuthority PlatformClaims.

(** ** Data *)

Record DkgTranscriptAttest := mkTranscriptAttest {
  ta_epoch : EpochId;
  ta_participant_set_digest : Digest;
  ta_transcript_digest : Digest;
  ta_group_public_key : Ed25519PublicKey;
  ta_node : NodeId;
  ta_identity_signature : Ed25519Signature;
}.

Record GenesisEligibilityAttest := mkEligibilityAttest {
  ge_epoch : EpochId;
  ge_founding_state_digest : Digest;
  ge_node : NodeId;
  ge_identity_signature : Ed25519Signature;
}.

Record GenesisService := mkGenesis {
  gs_network_id_ : NetworkId;
  candidates_ : gset Z;
  verdicts_ : gmap Z AttestationVerdict;
  transcript_attests_ : gmap Z DkgTranscriptAttest;
  eligibility_attests_ : gmap Z GenesisEligibilityAttest;
  finalized_ : bool;
}.

#[export] Instance eta_genesis : Etable GenesisService := λ s,
  mkGenesis (gs_network_id_ s) (candidates_ s) (verdicts_ s) (transcript_attests_ s)
    (eligibility_attests_ s) (finalized_ s).

Definition new_genesis (network_id : NetworkId) : GenesisService :=
  mkGenesis network_id ∅ ∅ ∅ ∅ false.

Definition restore_finalized (s : GenesisService) : GenesisService :=
  s <| candidates_ := ∅ |> <| verdicts_ := ∅ |> <| transcript_attests_ := ∅ |>
    <| eligibility_attests_ := ∅ |> <| finalized_ := true |>.

(** ** Candidates and founders *)

Definition admit_candidate (node : NodeId) (s : GenesisService) : bool * GenesisService :=
  if finalized_ s then (false, s)
  else (negb (bool_decide (node ∈ candidates_ s)),
        s <| candidates_ := {[ node ]} ∪ candidates_ s |>).

Definition record_verdict (verdict : AttestationVerdict) (s : GenesisService)
    : bool * GenesisService :=
  if finalized_ s then (false, s)
  else if negb (bool_decide (av_node_id verdict ∈ candidates_ s)) then (false, s)
  else (true, s <| verdicts_ := <[ av_node_id verdict := verdict ]> (verdicts_ s) |>).

(** The nodes with a passing verdict, in [NodeId] order. *)
Definition qualifying (s : GenesisService) : list NodeId :=
  (filter (λ '(_, verdict), av_passed verdict = true) (in_order (verdicts_ s))).*1.

Definition quorum_ready (s : GenesisService) : bool :=
  kBootstrapThreshold <=? Z.of_nat (length (qualifying s)).

Definition unverdicted_candidates (s : GenesisService) : gset Z :=
  filter (λ node, av_passed <$> verdicts_ s !! node ≠ Some true) (candidates_ s).

Definition founding_set (s : GenesisService) : option Tier1Set :=
  if Z.of_nat (length (qualifying s)) <? kBootstrapThreshold then None
  else from_nodes (take (Z.to_nat kBootstrapThreshold) (qualifying s)).

Section genesis.
Context `{Sodium}.

(** ** Attests *)

Definition genesis_eligibility_attest_digest (attest : GenesisEligibilityAttest) : Digest :=
  let e := new_encoder "lemonade-nexus/genesis-eligibility-attest:v1" in
  let e := add_u64 e (ge_epoch attest) in
  let e := add_digest e (ge_founding_state_digest attest) in
  digest (add_digest e (ge_node attest)).

Definition dkg_transcript_attest_digest (attest : DkgTranscriptAttest) : Digest :=
  let e := new_encoder "lemonade-nexus/dkg-transcript-attest:v1" in
  let e := add_u64 e (ta_epoch attest) in
  let e := add_digest e (ta_participant_set_digest attest) in
  let e := add_digest e (ta_transcript_digest attest) in
  let e := add_digest e (ta_group_public_key attest) in
  digest (add_digest e (ta_node attest)).

Definition record_eligibility_attest (attest : GenesisEligibilityAttest) (s : GenesisService)
    : bool * GenesisService :=
  if finalized_ s || negb (ge_epoch attest =? 1) then (false, s)
  else match founding_set s with
  | None => (false, s)
  | Some founders =>
      if negb (contains founders (ge_node attest)) then (false, s)
      else if negb (crypto_sign_verify_detached (ge_identity_signature attest)
                      (genesis_eligibility_attest_digest attest) (ge_node attest))
      then (false, s)
      else (true, s <| eligibility_attests_ :=
                     <[ ge_node attest := attest ]> (eligibility_attests_ s) |>)
  end.

(** The loop over the founders with the digest agreed so far. *)
Fixpoint eligibility_scan (attests : gmap Z GenesisEligibilityAttest) (nodes : list NodeId)
    (agreed : option Digest) : option (option Digest) :=
  match nodes with
  | [] => Some agreed
  | node :: rest =>
      match attests !! node with
      | None => None
      | Some attest =>
          match agreed with
          | None => eligibility_scan attests rest (Some (ge_founding_state_digest attest))
          | Some d => if negb (ge_founding_state_digest attest =? d) then None
                      else eligibility_scan attests rest agreed
          end
      end
  end.

Definition founding_eligibility_digest (s : GenesisService) : option Digest :=
  match founding_set s with
  | None => None
  | Some founders =>
      match eligibility_scan (eligibility_attests_ s) (t1_members founders) None with
      | Some (Some agreed) => if agreed =? 0 then None else Some agreed
      | _ => None
      end
  end.

Definition eligibility_agreed (s : GenesisService) : bool :=
  bool_decide (is_Some (founding_eligibility_digest s)).

Definition record_transcript_attest (attest : DkgTranscriptAttest) (s : GenesisService)
    : bool * GenesisService :=
  if finalized_ s || negb (ta_epoch attest =? 1) then (false, s)
  else match founding_set s with
  | None => (false, s)
  | Some founders =>
      if negb (contains founders (ta_node attest)) ||
         negb (ta_participant_set_digest attest =? tier1_set_digest founders) then (false, s)
      else if negb (crypto_sign_verify_detached (ta_identity_signature attest)
                      (dkg_transcript_attest_digest attest) (ta_node attest))
      then (false, s)
      else (true, s <| transcript_attests_ :=
                     <[ ta_node attest := attest ]> (transcript_attests_ s) |>)
  end.

(** The loop over the founders with the first attest. *)
Fixpoint transcript_scan (attests : gmap Z DkgTranscriptAttest) (nodes : list NodeId)
    (first : option DkgTranscriptAttest) : option (option DkgTranscriptAttest) :=
  match nodes with
  | [] => Some first
  | node :: rest =>
      match attests !! node with
      | None => None
      | Some attest =>
          match first with
          | None => transcript_scan attests rest (Some attest)
          | Some f =>
              if negb (ta_transcript_digest attest =? ta_transcript_digest f) ||
                 negb (ta_group_public_key attest =? ta_group_public_key f) then None
              else transcript_scan attests rest first
          end
      end
  end.

Definition transcript_agreed (s : GenesisService) : bool :=
  match founding_set s with
  | None => false
  | Some founders =>
      match transcript_scan (transcript_attests_ s) (t1_members founders) None with
      | Some (Some _) => true
      | _ => false
      end
  end.

(** ** The certificate *)

(** What Genesis is asked to sign. *)
Record FinalizeInputs := mkFinalize {
  fi_epoch_one_authority_key : Ed25519PublicKey;
  fi_dkg_transcript_digest : Digest;
  fi_attestation_root : Digest;
  fi_vote_key_set_digest : Digest;
  fi_release_approval_digest : Digest;
  fi_genesis_private_key : list Z;
}.

Definition unsigned_certificate (s : GenesisService) (founders : Tier1Set) (i : FinalizeInputs)
    (eligibility : Digest) (signature : Ed25519Signature) : BootstrapCertificate :=
  mkBootstrap (gs_network_id_ s) 1 (tier1_set_digest founders)
    (authority_threshold kBootstrapThreshold) (fi_epoch_one_authority_key i)
    (fi_dkg_transcript_digest i) (fi_attestation_root i) eligibility (fi_vote_key_set_digest i)
    (fi_release_approval_digest i) kSecurityRulesetVersion kConsensusRulesetVersion signature.

(** [transcript_attests_.at(members().front())]: an agreed transcript has it, so
    the throw of [at] is not reached. *)
Definition finalize_epoch_one (i : FinalizeInputs) (s : GenesisService)
    : option BootstrapCertificate * GenesisService :=
  if finalized_ s then (None, s)
  else match founding_set s with
  | None => (None, s)
  | Some founders =>
      if negb (transcript_agreed s) then (None, s)
      else match head (t1_members founders) ≫= λ front, transcript_attests_ s !! front with
      | None => (None, s)
      | Some agreed =>
          if negb (ta_transcript_digest agreed =? fi_dkg_transcript_digest i) ||
             negb (ta_group_public_key agreed =? fi_epoch_one_authority_key i) then (None, s)
          else match founding_eligibility_digest s with
          | None => (None, s)
          | Some eligibility =>
              let certificate := unsigned_certificate s founders i eligibility 0 in
              match crypto_sign_detached (fi_genesis_private_key i)
                      (bootstrap_certificate_signing_digest certificate) with
              | None => (None, s)
              | Some signature =>
                  (Some (unsigned_certificate s founders i eligibility signature),
                   s <| finalized_ := true |>)
              end
          end
      end
  end.

(** ** Calls in sequence *)

Inductive GenesisCall :=
  | AdmitCandidate (node : NodeId)
  | RecordVerdict (verdict : AttestationVerdict)
  | RecordEligibilityAttest (attest : GenesisEligibilityAttest)
  | RecordTranscriptAttest (attest : DkgTranscriptAttest)
  | FinalizeEpochOne (inputs : FinalizeInputs)
  | RestoreFinalized.

(** The certificate the call issued, and the service after it. *)
Definition call_genesis (c : GenesisCall) (s : GenesisService)
    : option BootstrapCertificate * GenesisService :=
  match c with
  | AdmitCandidate n => (None, (admit_candidate n s).2)
  | RecordVerdict v => (None, (record_verdict v s).2)
  | RecordEligibilityAttest a => (None, (record_eligibility_attest a s).2)
  | RecordTranscriptAttest a => (None, (record_transcript_attest a s).2)
  | FinalizeEpochOne i => finalize_epoch_one i s
  | RestoreFinalized => (None, restore_finalized s)
  end.

(** The certificates a run issued, oldest first, and the service at its end. *)
Fixpoint call_geneses (calls : list GenesisCall) (s : GenesisService)
    : list BootstrapCertificate * GenesisService :=
  match calls with
  | [] => ([], s)
  | c :: rest =>
      let '(issued, s) := call_genesis c s in
      let '(later, s) := call_geneses rest s in
      (option_list issued ++ later, s)
  end.

(** ** What the service holds *)

(** Every verdict is an admitted candidate's own; every attest is of epoch 1,
    filed under its signer and signed by it. *)
Record genesis_ok (s : GenesisService) : Prop := mkGenesisOk {
  gk_verdicts : ∀ n v, verdicts_ s !! n = Some v → n ∈ candidates_ s ∧ av_node_id v = n;
  gk_eligibility : ∀ n a, eligibility_attests_ s !! n = Some a →
    ge_node a = n ∧ ge_epoch a = 1 ∧
    crypto_sign_verify_detached (ge_identity_signature a) (genesis_eligibility_attest_digest a) n = true;
  gk_transcripts : ∀ n a, transcript_attests_ s !! n = Some a →
    ta_node a = n ∧ ta_epoch a = 1 ∧
    crypto_sign_verify_detached (ta_identity_signature a) (dkg_transcript_attest_digest a) n = true;
}.

Lemma new_genesis_ok n : genesis_ok (new_genesis n).
Proof. constructor; intros ??; cbn; by rewrite lookup_empty. Qed.

Lemma record_eligibility_ok a s : genesis_ok s → genesis_ok (record_eligibility_attest a s).2.
Proof.
  intros Hs. unfold record_eligibility_attest. destruct (finalized_ s || _) eqn:E; [done|].
  destruct (founding_set s); [|done]. destruct (negb (contains _ _)); [done|].
  destruct (negb (crypto_sign_verify_detached _ _ _)) eqn:Es; [done|]. bool_to_prop.
  destruct Hs as [Hv He Ht]. constructor; cbn; try done.
  intros n b [[<- <-]|[_ Hb]]%lookup_insert_Some; [done|by apply He].
Qed.

Lemma record_transcript_ok a s : genesis_ok s → genesis_ok (record_transcript_attest a s).2.
Proof.
  intros Hs. unfold record_transcript_attest. destruct (finalized_ s || _) eqn:E; [done|].
  destruct (founding_set s); [|done]. destruct (negb (contains _ _) || _); [done|].
  destruct (negb (crypto_sign_verify_detached _ _ _)) eqn:Es; [done|]. bool_to_prop.
  destruct Hs as [Hv He Ht]. constructor; cbn; try done.
  intros n b [[<- <-]|[_ Hb]]%lookup_insert_Some; [done|by apply Ht].
Qed.

Lemma record_verdict_ok v s : genesis_ok s → genesis_ok (record_verdict v s).2.
Proof.
  intros Hs. unfold record_verdict. destruct (finalized_ s); [done|].
  case_bool_decide as Hc; [|done]. destruct Hs as [Hv He Ht]. constructor; cbn; try done.
  intros n b [[<- <-]|[_ Hb]]%lookup_insert_Some; [done|by apply Hv].
Qed.

(** Finalizing changes only the flag, and sets it exactly when it certifies. *)
Lemma finalize_frame i s :
  (finalize_epoch_one i s).2 = s ∧ (finalize_epoch_one i s).1 = None ∨
  (finalize_epoch_one i s).2 = s <| finalized_ := true |> ∧
    is_Some (finalize_epoch_one i s).1 ∧ finalized_ s = false.
Proof.
  unfold finalize_epoch_one. destruct (finalized_ s) eqn:Ef; [by left|].
  destruct (founding_set s); [|by left]. destruct (negb _); [by left|].
  destruct (_ ≫= _); [|by left]. destruct (_ || _); [by left|].
  destruct (founding_eligibility_digest s); [|by left]. cbv zeta.
  destruct (crypto_sign_detached _ _); [|by left]. right. by cbn.
Qed.

Lemma call_genesis_ok c s : genesis_ok s → genesis_ok (call_genesis c s).2.
Proof.
  intros Hs. destruct c as [n|v|a|a|i|]; cbn [call_genesis snd].
  - unfold admit_candidate. destruct (finalized_ s); [done|]. destruct Hs as [Hv He Ht].
    constructor; cbn; try done. intros m w Hw. destruct (Hv m w Hw). split; [set_solver|done].
  - by apply record_verdict_ok.
  - by apply record_eligibility_ok.
  - by apply record_transcript_ok.
  - destruct (finalize_frame i s) as [[-> _]|[-> _]]; [done|]. by destruct Hs.
  - constructor; intros ??; cbn; by rewrite lookup_empty.
Qed.

Lemma call_geneses_ok calls s : genesis_ok s → genesis_ok (call_geneses calls s).2.
Proof.
  revert s. induction calls as [|c calls IH]; intros s Hs; [done|]. cbn [call_geneses].
  pose proof (call_genesis_ok c s Hs) as Hs'. destruct (call_genesis c s) as [issued s'].
  specialize (IH s' Hs'). by destruct (call_geneses calls s').
Qed.
End genesis.
