(* ===== verification/GenesisTheorems.v ===== *)
(** * What Genesis guarantees

    The theorems on [Genesis/GenesisService.cpp]: who the founders are, what the
    one certificate rests on, that Genesis signs once, and that an outside party
    accepts the certificate as the base of the authority chain. *)

From S2P Require Import Prelude SecurityPolicy CanonicalEncoding Selection ConsensusTypes.
From S2P Require Import QuorumValidation EpochAuthority PlatformClaims Genesis.

(** ** Founders *)

Lemma elem_of_qualifying s n :
  n ∈ qualifying s ↔ ∃ v, verdicts_ s !! n = Some v ∧ av_passed v = true.
Proof.
  unfold qualifying. rewrite list_elem_of_fmap. split.
  - intros ([k v] & -> & [Hp Hin]%list_elem_of_filter). exists v. by apply elem_of_in_order in Hin.
  - intros (v & Hin & Hp). exists (n, v). split; [done|].
    apply list_elem_of_filter. by rewrite elem_of_in_order.
Qed.

Lemma sorted_fmap_fst {A} (l : list (Z * A)) :
  StronglySorted key_le l → StronglySorted Z.le l.*1.
Proof.
  induction 1 as [|x l Hl IH Hx]; [constructor|]. cbn. constructor; [done|].
  rewrite Forall_fmap. exact Hx.
Qed.

Lemma sorted_filter {A} (R : A → A → Prop) (P : A → Prop) `{∀ x, Decision (P x)} l :
  StronglySorted R l → StronglySorted R (filter P l).
Proof.
  induction 1 as [|x l Hl IH Hx]; [constructor|]. rewrite filter_cons. case_decide; [|done].
  constructor; [done|]. rewrite Forall_forall in *. intros y [_ Hy]%list_elem_of_filter. auto.
Qed.

Lemma qualifying_sorted s : StronglySorted Z.le (qualifying s).
Proof. apply sorted_fmap_fst, sorted_filter, in_order_sorted. Qed.

Lemma qualifying_NoDup s : NoDup (qualifying s).
Proof.
  unfold qualifying. apply (sublist_NoDup _ (in_order (verdicts_ s)).*1); [apply NoDup_in_order|].
  apply fmap_sublist, sublist_filter.
Qed.

Lemma sorted_take_drop (l : list Z) k x y :
  StronglySorted Z.le l → x ∈ take k l → y ∈ drop k l → x <= y.
Proof.
  intros Hs. rewrite <-(take_drop k l) in Hs. by apply StronglySorted_app_1_elem_of.
Qed.

Lemma founding_set_some s f :
  founding_set s = Some f →
  t1_members f = take 5 (qualifying s) ∧ length (t1_members f) = 5%nat ∧ NoDup (t1_members f) ∧
  from_nodes (t1_members f) = Some f.
Proof.
  unfold founding_set. destruct (Z.ltb_spec (Z.of_nat (length (qualifying s))) kBootstrapThreshold) as [|Hl];
    [done|]. intros Hf. unfold kBootstrapThreshold in Hl. change (Z.to_nat kBootstrapThreshold) with 5%nat in Hf.
  assert (Hs : StronglySorted Z.le (take 5 (qualifying s))).
  { pose proof (qualifying_sorted s) as Hs. rewrite <-(take_drop 5 (qualifying s)) in Hs.
    by apply StronglySorted_app_1_l in Hs. }
  pose proof Hf as [Hn Em]%from_nodes_spec.
  assert (E : t1_members f = take 5 (qualifying s)).
  { rewrite Em. apply (StronglySorted_unique Z.le); [apply (StronglySorted_merge_sort Z.le)|done|].
    apply merge_sort_Permutation. }
  rewrite E. split; [done|]. split; [rewrite length_take; lia|]. done.
Qed.

Section genesis_theorems.
Context `{Sodium}.

(** ** The loops *)

Lemma eligibility_scan_some attests nodes agreed d :
  eligibility_scan attests nodes agreed = Some (Some d) →
  (∀ d', agreed = Some d' → d' = d) ∧
  ∀ n, n ∈ nodes → ∃ a, attests !! n = Some a ∧ ge_founding_state_digest a = d.
Proof.
  revert agreed. induction nodes as [|n nodes IH]; intros agreed; cbn.
  { intros [= ->]. split; [by intros d' [= ->]|by intros n ?%elem_of_nil]. }
  destruct (attests !! n) as [a|] eqn:Ea; [|done]. destruct agreed as [d'|].
  - destruct (Z.eqb_spec (ge_founding_state_digest a) d') as [E|]; [|done].
    intros [Hd Hn]%IH. split; [exact Hd|]. intros x [->|Hx]%elem_of_cons; [|by apply Hn].
    exists a. split; [done|]. rewrite E. by apply Hd.
  - intros [Hd Hn]%IH. split; [done|]. intros x [->|Hx]%elem_of_cons; [|by apply Hn].
    exists a. split; [done|]. by apply Hd.
Qed.

Lemma transcript_scan_some attests nodes first f :
  transcript_scan attests nodes first = Some (Some f) →
  (∀ f', first = Some f' → f' = f) ∧
  ∀ n, n ∈ nodes → ∃ a, attests !! n = Some a ∧
    ta_transcript_digest a = ta_transcript_digest f ∧ ta_group_public_key a = ta_group_public_key f.
Proof.
  revert first. induction nodes as [|n nodes IH]; intros first; cbn.
  { intros [= ->]. split; [by intros d' [= ->]|by intros n ?%elem_of_nil]. }
  destruct (attests !! n) as [a|] eqn:Ea; [|done]. destruct first as [f'|].
  - destruct (_ || _) eqn:E; [done|]. bool_to_prop.
    intros [Hd Hn]%IH. split; [exact Hd|]. rewrite (Hd f' eq_refl) in *.
    intros x [->|Hx]%elem_of_cons; [|by apply Hn]. by exists a.
  - intros [Hd Hn]%IH. split; [done|]. rewrite (Hd a eq_refl) in *.
    intros x [->|Hx]%elem_of_cons; [|by apply Hn]. by exists f.
Qed.

(** What a certificate is made from. *)
Lemma finalize_some i s certificate s' :
  finalize_epoch_one i s = (Some certificate, s') →
  ∃ founders eligibility signature, founding_set s = Some founders ∧
    certificate = unsigned_certificate s founders i eligibility signature ∧ eligibility ≠ 0 ∧
    crypto_sign_detached (fi_genesis_private_key i)
      (bootstrap_certificate_signing_digest certificate) = Some signature ∧
    ∀ n, n ∈ t1_members founders →
      (∃ a, transcript_attests_ s !! n = Some a ∧
            ta_transcript_digest a = fi_dkg_transcript_digest i ∧
            ta_group_public_key a = fi_epoch_one_authority_key i) ∧
      ∃ a, eligibility_attests_ s !! n = Some a ∧ ge_founding_state_digest a = eligibility.
Proof.
  unfold finalize_epoch_one. destruct (finalized_ s); [done|].
  destruct (founding_set s) as [founders|] eqn:Ef; [|done].
  destruct (negb (transcript_agreed s)) eqn:Ea; [done|].
  destruct (head _ ≫= _) as [agreed|] eqn:Eh; [|done].
  destruct (_ || _) eqn:Em; [done|]. destruct (founding_eligibility_digest s) as [e|] eqn:Ee; [|done].
  cbv zeta. destruct (crypto_sign_detached _ _) as [signature|] eqn:Es; [|done]. intros [= <- <-].
  bool_to_prop. exists founders, e, signature. split; [done|]. split; [done|].
  unfold founding_eligibility_digest in Ee. rewrite Ef in Ee.
  destruct (eligibility_scan _ _ _) as [[d|]|] eqn:Escan; [|done..].
  destruct (Z.eqb_spec d 0) as [|Hd]; [done|]. injection Ee as <-.
  split; [done|]. split; [exact Es|].
  apply eligibility_scan_some in Escan as [_ Hel].
  unfold transcript_agreed in Ea. rewrite Ef in Ea.
  destruct (transcript_scan _ _ _) as [[f|]|] eqn:Et; [|done..].
  apply transcript_scan_some in Et as [_ Htr].
  intros n Hn. split; [|by apply Hel]. destruct (Htr n Hn) as (a & Ha & E1 & E2). exists a.
  destruct (t1_members founders) as [|front rest] eqn:Emem; [by apply elem_of_nil in Hn|].
  cbn in Eh. destruct (Htr front) as (a' & Ha' & E1' & E2'); [left|].
  rewrite Ha' in Eh. injection Eh as <-. split; [done|]. split; congruence.
Qed.

(** Once finalized nothing is issued and nothing changes but the reset of
    [restore_finalized]. *)
Lemma finalized_refuses c s :
  finalized_ s = true → (call_genesis c s).1 = None ∧ finalized_ (call_genesis c s).2 = true ∧
  (c = RestoreFinalized ∨ (call_genesis c s).2 = s).
Proof.
  intros Hf. destruct c; cbn [call_genesis fst snd];
    unfold admit_candidate, record_verdict, record_eligibility_attest, record_transcript_attest,
      finalize_epoch_one; rewrite ?Hf; cbn; auto.
Qed.

Lemma finalized_silent calls s :
  finalized_ s = true → (call_geneses calls s).1 = [] ∧ finalized_ (call_geneses calls s).2 = true.
Proof.
  revert s. induction calls as [|c calls IH]; intros s Hf; [done|]. cbn [call_geneses].
  destruct (finalized_refuses c s Hf) as (E1 & E2 & _). destruct (call_genesis c s) as [issued s'].
  cbn [fst snd] in *. specialize (IH s' E2). destruct (call_geneses calls s') as [later s''].
  subst issued. cbn in *. done.
Qed.

Lemma issued_means_finalized calls s :
  (length (call_geneses calls s).1 <= 1)%nat ∧
  ((call_geneses calls s).1 ≠ [] → finalized_ (call_geneses calls s).2 = true).
Proof.
  revert s. induction calls as [|c calls IH]; intros s; [split; [cbn; lia|done]|]. cbn [call_geneses].
  destruct (call_genesis c s) as [[certificate|] s'] eqn:E.
  - assert (Hf : finalized_ s' = true).
    { destruct c; try done. cbn [call_genesis] in E.
      destruct (finalize_frame inputs s) as [[_ E']|[E' _]]; rewrite E in E'; cbn in E'; [done|].
      by rewrite E'. }
    pose proof (finalized_silent calls s' Hf) as [E1 E2]. destruct (call_geneses calls s') as [later s''].
    cbn in *. rewrite E1. split; [cbn; lia|done].
  - specialize (IH s'). by destruct (call_geneses calls s').
Qed.

(** ** Theorems *)

(** C21: Genesis signs at most one certificate over its whole life, whatever calls
    it gets; having signed it is finalized, and a finalized service issues
    nothing and refuses every call without a change. *)
Theorem genesis_signs_once (network : NetworkId) (calls more : list GenesisCall) (c : GenesisCall) :
  let '(issued, s) := call_geneses calls (new_genesis network) in
  (length issued <= 1)%nat ∧ (issued ≠ [] → finalized_ s = true) ∧
  (finalized_ s = true →
    (call_geneses more s).1 = [] ∧ finalized_ (call_geneses more s).2 = true ∧
    (c ≠ RestoreFinalized → call_genesis c s = (None, s))).
Proof.
  pose proof (issued_means_finalized calls (new_genesis network)) as [Hl Hf].
  destruct (call_geneses calls (new_genesis network)) as [issued s]. cbn [fst snd] in *.
  split; [done|]. split; [done|]. intros Hs. destruct (finalized_silent more s Hs).
  split; [done|]. split; [done|]. intros Hc. destruct (finalized_refuses c s Hs) as (E1 & _ & [->|E2]); [done|].
  destruct (call_genesis c s). cbn in *. congruence.
Qed.

(** the certificate rests on the founders alone: after any calls, what
    [finalize_epoch_one] signs names exactly the five lowest admitted candidates
    with a passing verdict; each of them signed, for epoch 1, the transcript and
    the group key in it and the nonzero founding state in it. *)
Theorem certificate_is_attested (network : NetworkId) (calls : list GenesisCall)
    (i : FinalizeInputs) (certificate : BootstrapCertificate) (s' : GenesisService) :
  let s := (call_geneses calls (new_genesis network)).2 in
  finalize_epoch_one i s = (Some certificate, s') →
  ∃ founders, founding_set s = Some founders ∧
    length (t1_members founders) = 5%nat ∧ NoDup (t1_members founders) ∧
    bc_tier1_set_digest certificate = tier1_set_digest founders ∧
    bc_founding_eligibility_digest certificate ≠ 0 ∧
    (∀ n, n ∈ qualifying s → n ∉ t1_members founders → ∀ f, f ∈ t1_members founders → f < n) ∧
    ∀ n, n ∈ t1_members founders →
      n ∈ candidates_ s ∧ (∃ v, verdicts_ s !! n = Some v ∧ av_passed v = true ∧ av_node_id v = n) ∧
      (∃ a, ta_node a = n ∧ ta_epoch a = 1 ∧
        ta_transcript_digest a = bc_dkg_transcript_digest certificate ∧
        ta_group_public_key a = bc_authority_public_key certificate ∧
        crypto_sign_verify_detached (ta_identity_signature a) (dkg_transcript_attest_digest a) n = true) ∧
      ∃ a, ge_node a = n ∧ ge_epoch a = 1 ∧
        ge_founding_state_digest a = bc_founding_eligibility_digest certificate ∧
        crypto_sign_verify_detached (ge_identity_signature a)
          (genesis_eligibility_attest_digest a) n = true.
Proof.
  intros s Hfin. pose proof (call_geneses_ok calls _ (new_genesis_ok network)) as Hok. fold s in Hok.
  clearbody s. destruct (finalize_some _ _ _ _ Hfin) as (founders & e & signature & Ef & -> & He & _ & Hall).
  exists founders. split; [done|]. destruct (founding_set_some s founders Ef) as (Em & El & Hn & _).
  split; [done|]. split; [done|]. split; [done|]. split; [done|]. split.
  - intros n Hq Hout f Hf. rewrite Em in Hout, Hf. rewrite <-(take_drop 5 (qualifying s)) in Hq.
    apply elem_of_app in Hq as [Hq|Hq]; [done|].
    pose proof (sorted_take_drop _ 5 f n (qualifying_sorted s) Hf Hq).
    assert (f ≠ n) by (by intros ->). lia.
  - intros n Hin. destruct (Hall n Hin) as [(a & Ha & E1 & E2) (b & Hb & E3)].
    assert (Hq : n ∈ qualifying s) by (rewrite Em in Hin; by apply (subseteq_take 5)).
    apply elem_of_qualifying in Hq as (v & Hv & Hp). destruct (gk_verdicts _ Hok n v Hv) as [Hc Hid].
    split; [done|]. split; [by exists v|]. split; [exists a|exists b].
    + destruct (gk_transcripts _ Hok n a Ha) as (? & ? & ?). by subst.
    + destruct (gk_eligibility _ Hok n b Hb) as (? & ? & ?). by subst.
Qed.
(** The map a page's list of founder keys makes. *)
Definition keys_of (keys : list (NodeId * Ed25519PublicKey)) : gmap Z Ed25519PublicKey :=
  foldl (λ m '(node, key), <[ node := key ]> m) ∅ keys.

Lemma keys_of_size keys : NoDup keys.*1 → size (keys_of keys) = length keys.
Proof.
  intros Hn. rewrite <-(length_fmap fst keys), <-size_dom, <-(size_list_to_set (C := gset Z) _ Hn).
  f_equal. apply set_eq. intros n. rewrite elem_of_dom, elem_of_list_to_set. unfold keys_of.
  rewrite foldl_insert_keys, lookup_empty. split; [by intros [[? [=]]|]|by right].
Qed.

(** the certificate founds the chain: an outside party that pins the Genesis
    key and is given the certificate with the founders' vote keys (those whose
    digest Genesis was asked to sign) derives the authority of epoch 1: the
    founders under the attested group key, trusted from that key. *)
Theorem certificate_founds_chain (i : FinalizeInputs) (s s' : GenesisService)
    (certificate : BootstrapCertificate) (founders : Tier1Set) (genesis : Ed25519PublicKey)
    (keys : list (NodeId * Ed25519PublicKey)) :
  finalize_epoch_one i s = (Some certificate, s') → founding_set s = Some founders →
  gs_network_id_ s = derive_network_id genesis kSecurityRulesetVersion kConsensusRulesetVersion →
  (∀ d signature, crypto_sign_detached (fi_genesis_private_key i) d = Some signature →
    crypto_sign_verify_detached signature d genesis = true) →
  keys.*1 ≡ₚ t1_members founders → fi_vote_key_set_digest i = vote_key_set_digest (keys_of keys) →
  ∃ a w, walker_apply (new_walker genesis) (mkPage (Some (certificate, keys)) []) = (w, Advanced) ∧
    authority_ w = Some a ∧ trusted genesis a ∧ au_epoch a = 1 ∧
    au_members a = t1_members founders ∧ au_vote_keys a = keys_of keys ∧
    au_group_public_key a = fi_epoch_one_authority_key i ∧
    au_consensus_quorum a = 4 ∧ au_authority_threshold a = 5.
Proof.
  intros Hfin Ef Hnet Hpair Hp Hvk.
  destruct (finalize_some _ _ _ _ Hfin) as (f & e & signature & Ef' & -> & _ & Hsig & _).
  assert (f = founders) as -> by congruence.
  destruct (founding_set_some s founders Ef) as (_ & El & Hn & Hfrom).
  assert (Hkn : NoDup keys.*1) by by rewrite Hp.
  assert (Hkf : from_nodes keys.*1 = Some founders) by by rewrite (from_nodes_input_order _ _ Hp).
  set (certificate := unsigned_certificate s founders i e signature) in *.
  assert (Hv : ∃ a, verify_epoch_one_authority certificate genesis keys = Some a ∧
    au_members a = t1_members founders ∧ au_vote_keys a = keys_of keys ∧
    au_group_public_key a = fi_epoch_one_authority_key i ∧
    au_consensus_quorum a = 4 ∧ au_authority_threshold a = 5 ∧ au_epoch a = 1).
  { unfold verify_epoch_one_authority, verify_bootstrap_certificate.
    change (bc_genesis_signature certificate) with signature. rewrite (Hpair _ _ Hsig). cbn [negb].
    cbv zeta. rewrite Hkf, El. change (foldl _ ∅ keys) with (keys_of keys).
    rewrite keys_of_size, <-(length_fmap fst keys), (Permutation_length Hp), El by done.
    cbn -[Z.of_nat]. rewrite Hvk, !Z.eqb_refl. cbn. by eexists. }
  destruct Hv as (a & Hv & E1 & E2 & E3 & E4 & E5 & E6). exists a. eexists.
  assert (Hb : apply_base (new_walker genesis) (Some (certificate, keys)) =
    Some (mkWalker genesis (derive_network_id genesis kSecurityRulesetVersion kConsensusRulesetVersion)
      (bootstrap_certificate_signing_digest certificate) (Some a))).
  { unfold apply_base, new_walker. cbv zeta. cbn [authority_ network_id_ genesis_public_key_ epoch_one_anchor_].
    change (bc_network_id certificate) with (gs_network_id_ s).
    rewrite Hnet, Z.eqb_refl. cbn [negb]. rewrite Hv. done. }
  unfold walker_apply. cbn [pg_base pg_links]. rewrite Hb. cbn. rewrite E6. cbn.
  split; [done|]. split; [done|]. split; [|done]. eapply trusted_base; [|exact Hv]. exact Hnet.
Qed.
End genesis_theorems.

(** ** Five founders of seven candidates *)

Module Founding.
(** A digest is a fold over the bytes; a signature is the digest plus the key. *)
#[export] Instance sodium : Sodium := {|
  crypto_hash_sha256 bytes := 1 + foldl (λ acc b, (acc * 31 + b) mod 65521) 7 bytes;
  crypto_sign_detached key d := Some (d + default 0 (head key));
  crypto_sign_verify_detached signature d public := bool_decide (signature = d + public) |}.

Definition genesis_key : Ed25519PublicKey := 9.
Definition network : NetworkId :=
  derive_network_id genesis_key kSecurityRulesetVersion kConsensusRulesetVersion.
Definition verdict (node : NodeId) (passed : bool) : AttestationVerdict :=
  mkVerdict node 1 1 PurposeEligibility 0 0 0 passed AfNone no_claims [].
Definition founders : list NodeId := [1; 2; 4; 5; 6].
Definition eligibility (node : NodeId) : GenesisEligibilityAttest :=
  let a := mkEligibilityAttest 1 55 node 0 in
  mkEligibilityAttest 1 55 node (genesis_eligibility_attest_digest a + node).
Definition transcript (node : NodeId) : DkgTranscriptAttest :=
  let a := mkTranscriptAttest 1 (tier1_set_digest (mkTier1Set founders)) 66 77 node 0 in
  mkTranscriptAttest 1 (tier1_set_digest (mkTier1Set founders)) 66 77 node
    (dkg_transcript_attest_digest a + node).
Definition keys : list (NodeId * Ed25519PublicKey) := (λ n, (n, 100 + n)) <$> founders.
Definition calls : list GenesisCall :=
  (AdmitCandidate <$> [5; 4; 3; 2; 1; 7; 6]) ++
  ((λ n, RecordVerdict (verdict n (negb (n =? 3)))) <$> [1; 2; 3; 4; 5; 6; 7]) ++
  (RecordTranscriptAttest ∘ transcript <$> founders) ++
  (RecordEligibilityAttest ∘ eligibility <$> founders).
Definition inputs : FinalizeInputs := mkFinalize 77 66 0 (vote_key_set_digest (keys_of keys)) 0 [9].
Definition ready : GenesisService := (call_geneses calls (new_genesis network)).2.
Definition signed : BootstrapCertificate :=
  unsigned_certificate ready (mkTier1Set founders) inputs 55
    (bootstrap_certificate_signing_digest
       (unsigned_certificate ready (mkTier1Set founders) inputs 55 0) + 9).
End Founding.

Section applications.
#[local] Existing Instance Founding.sodium.
Import Founding.

Lemma finalizes :
  finalize_epoch_one inputs (call_geneses calls (new_genesis network)).2 =
    (Some signed, (call_geneses calls (new_genesis network)).2 <| finalized_ := true |>).
Proof. vm_compute. reflexivity. Qed.

Lemma certificate_is_attested_witness :
  finalize_epoch_one inputs (call_geneses calls (new_genesis network)).2 =
    (Some signed, (call_geneses calls (new_genesis network)).2 <| finalized_ := true |>) ∧
  ∃ fs, founding_set (call_geneses calls (new_genesis network)).2 = Some fs ∧ NoDup (t1_members fs).
Proof.
  split; [exact finalizes|].
  destruct (certificate_is_attested network calls inputs signed
    ((call_geneses calls (new_genesis network)).2 <| finalized_ := true |>) finalizes)
    as (fs & Ef & _ & Hn & _).
  exists fs. split; [exact Ef|exact Hn].
Defined.

Lemma certificate_founds_chain_witness :
  ∃ a, trusted genesis_key a ∧ au_members a = founders.
Proof.
  destruct (certificate_founds_chain inputs ready (ready <| finalized_ := true |>) signed
    (mkTier1Set founders) genesis_key keys) as (a & w & _ & _ & Ht & _ & Em & _).
  - vm_compute; reflexivity.
  - vm_compute; reflexivity.
  - vm_compute; reflexivity.
  - intros d signature [= <-]. apply bool_decide_eq_true_2. reflexivity.
  - reflexivity.
  - reflexivity.
  - exists a. split; [exact Ht|exact Em].
Defined.
End applications.
