(* ===== verification/EligibilityLedger.v ===== *)
(** * Eligibility observations and the ledger

    Models [Eligibility/EligibilityObservation.cpp], [ParticipationProof.cpp],
    [EligibilityState.cpp] and [EligibilityLedger.cpp]: the signed statements of
    committee members about candidates, and the ledger that counts them into
    mesh facts. The ledger's [std::map] is a [gmap] keyed as the source keys
    it; [entries] is its iteration in key order. Counters are [std::size_t]
    values bounded by the number of records. *)

From S2P Require Import Prelude SecurityPolicy CanonicalEncoding Selection PlatformClaims.

(** ** Observations *)

Inductive ObservationKind := Attestation | Participation.

#[export] Instance kind_eq_dec : EqDecision ObservationKind.
Proof. solve_decision. Defined.

Definition kind_value (kind : ObservationKind) : Z :=
  match kind with Attestation => 0 | Participation => 1 end.

Definition kind_of_value (value : Z) : ObservationKind :=
  if value =? 0 then Attestation else Participation.

#[export] Instance kind_countable : Countable ObservationKind.
Proof. apply (inj_countable' kind_value kind_of_value). by intros []. Defined.

Inductive ObjectiveFault := DuplicateIncarnation | Equivocation | InvalidConsensusBehavior.

#[export] Instance fault_eq_dec : EqDecision ObjectiveFault.
Proof. solve_decision. Defined.

Definition fault_value (fault : ObjectiveFault) : Z :=
  match fault with DuplicateIncarnation => 0 | Equivocation => 1 | InvalidConsensusBehavior => 2 end.

Definition fault_of_value (value : Z) : ObjectiveFault :=
  if value =? 0 then DuplicateIncarnation else if value =? 1 then Equivocation
  else InvalidConsensusBehavior.

#[export] Instance fault_countable : Countable ObjectiveFault.
Proof. apply (inj_countable' fault_value fault_of_value). by intros []. Defined.

Record EligibilityObservation := mkObservation {
  ob_network_id : NetworkId;
  ob_epoch : EpochId;
  ob_subject : NodeId;
  ob_subject_incarnation : IncarnationId;
  ob_kind : ObservationKind;
  ob_attestation_digest : Digest;
  ob_claims : VerifiedPlatformClaims;
  ob_height : Height;
  ob_state_reference : Digest;
  ob_observer : NodeId;
  ob_signature : Ed25519Signature;
}.

#[export] Instance eta_observation : Etable EligibilityObservation := λ o,
  mkObservation (ob_network_id o) (ob_epoch o) (ob_subject o) (ob_subject_incarnation o) (ob_kind o)
    (ob_attestation_digest o) (ob_claims o) (ob_height o) (ob_state_reference o) (ob_observer o)
    (ob_signature o).

#[export] Instance observation_eq_dec : EqDecision EligibilityObservation.
Proof. solve_decision. Defined.

(** A key pair: the public key and the secret bytes. *)
Record Ed25519Keypair := mkKeypair { kp_public_key : Ed25519PublicKey; kp_private_key : list Z }.

Section observations.
Context `{Sodium}.

Definition observation_signing_digest (o : EligibilityObservation) : Digest :=
  let e := new_encoder "LEMONADE-NEXUS-T1-OBSERVATION-V1" in
  let e := add_digest e (ob_network_id o) in
  let e := add_u64 e (ob_epoch o) in
  let e := add_digest e (ob_subject o) in
  let e := add_u64 e (ob_subject_incarnation o) in
  let e := add_u16 e (kind_value (ob_kind o)) in
  let e := add_digest e (ob_attestation_digest o) in
  let e := encode_platform_claims e (ob_claims o) in
  let e := add_u64 e (ob_height o) in
  let e := add_digest e (ob_state_reference o) in
  digest (add_digest e (ob_observer o)).

Definition observation_signature_valid (o : EligibilityObservation) : bool :=
  crypto_sign_verify_detached (ob_signature o) (observation_signing_digest o) (ob_observer o).

(** A failed signing call leaves the signature the observation had. *)
Definition sign_observation (o : EligibilityObservation) (identity : Ed25519Keypair)
    : EligibilityObservation :=
  let o := o <| ob_observer := kp_public_key identity |> in
  match crypto_sign_detached (kp_private_key identity) (observation_signing_digest o) with
  | Some signature => o <| ob_signature := signature |>
  | None => o
  end.
End observations.

(** ** The participation exchange *)

Record ParticipationChallenge := mkChallenge {
  pc_network_id : NetworkId;
  pc_epoch : EpochId;
  pc_security_ruleset : Z;
  pc_consensus_ruleset : Z;
  pc_node_id : NodeId;
  pc_incarnation : IncarnationId;
  pc_nonce : Digest;
  pc_anchor_height : Height;
  pc_anchor_state : Digest;
  pc_observer : NodeId;
}.

Record ParticipationResponse := mkResponse {
  pr_challenge_digest : Digest;
  pr_network_id : NetworkId;
  pr_epoch : EpochId;
  pr_security_ruleset : Z;
  pr_consensus_ruleset : Z;
  pr_node_id : NodeId;
  pr_incarnation : IncarnationId;
  pr_anchor_height : Height;
  pr_anchor_state : Digest;
  pr_identity_signature : Ed25519Signature;
}.

#[export] Instance eta_response : Etable ParticipationResponse := λ r,
  mkResponse (pr_challenge_digest r) (pr_network_id r) (pr_epoch r) (pr_security_ruleset r)
    (pr_consensus_ruleset r) (pr_node_id r) (pr_incarnation r) (pr_anchor_height r)
    (pr_anchor_state r) (pr_identity_signature r).

Inductive ParticipationFailure :=
  | PfNone | PfChallengeMismatch | PfNetworkMismatch | PfEpochMismatch | PfRulesetMismatch
  | PfIdentityMismatch | PfIncarnationMismatch | PfAnchorMismatch | PfSignatureInvalid.

#[export] Instance participation_failure_eq_dec : EqDecision ParticipationFailure.
Proof. solve_decision. Defined.

Section participation.
Context `{Sodium}.

Definition participation_challenge_digest (c : ParticipationChallenge) : Digest :=
  let e := new_encoder "LEMONADE-NEXUS-T1-PARTICIPATION-CHALLENGE-V1" in
  let e := add_digest e (pc_network_id c) in
  let e := add_u64 e (pc_epoch c) in
  let e := add_u16 e (pc_security_ruleset c) in
  let e := add_u16 e (pc_consensus_ruleset c) in
  let e := add_digest e (pc_node_id c) in
  let e := add_u64 e (pc_incarnation c) in
  let e := add_digest e (pc_nonce c) in
  let e := add_u64 e (pc_anchor_height c) in
  let e := add_digest e (pc_anchor_state c) in
  digest (add_digest e (pc_observer c)).

Definition participation_response_signing_digest (r : ParticipationResponse) : Digest :=
  let e := new_encoder "LEMONADE-NEXUS-T1-PARTICIPATION-RESPONSE-V1" in
  let e := add_digest e (pr_challenge_digest r) in
  let e := add_digest e (pr_network_id r) in
  let e := add_u64 e (pr_epoch r) in
  let e := add_u16 e (pr_security_ruleset r) in
  let e := add_u16 e (pr_consensus_ruleset r) in
  let e := add_digest e (pr_node_id r) in
  let e := add_u64 e (pr_incarnation r) in
  let e := add_u64 e (pr_anchor_height r) in
  digest (add_digest e (pr_anchor_state r)).

(** A failed signing call leaves the zero signature. *)
Definition answer_participation_challenge (c : ParticipationChallenge)
    (identity : Ed25519Keypair) : ParticipationResponse :=
  let r := mkResponse (participation_challenge_digest c) (pc_network_id c) (pc_epoch c)
    (pc_security_ruleset c) (pc_consensus_ruleset c) (kp_public_key identity) (pc_incarnation c)
    (pc_anchor_height c) (pc_anchor_state c) 0 in
  match crypto_sign_detached (kp_private_key identity)
          (participation_response_signing_digest r) with
  | Some signature => r <| pr_identity_signature := signature |>
  | None => r
  end.

Definition verify_participation_response (r : ParticipationResponse)
    (c : ParticipationChallenge) : ParticipationFailure :=
  if negb (pr_challenge_digest r =? participation_challenge_digest c) then PfChallengeMismatch
  else if negb (pr_network_id r =? pc_network_id c) then PfNetworkMismatch
  else if negb (pr_epoch r =? pc_epoch c) then PfEpochMismatch
  else if negb (pr_security_ruleset r =? pc_security_ruleset c) ||
          negb (pr_consensus_ruleset r =? pc_consensus_ruleset c) then PfRulesetMismatch
  else if negb (pr_node_id r =? pc_node_id c) then PfIdentityMismatch
  else if negb (pr_incarnation r =? pc_incarnation c) then PfIncarnationMismatch
  else if negb (pr_anchor_height r =? pc_anchor_height c) ||
          negb (pr_anchor_state r =? pc_anchor_state c) then PfAnchorMismatch
  else if negb (crypto_sign_verify_detached (pr_identity_signature r)
                  (participation_response_signing_digest r) (pr_node_id r))
  then PfSignatureInvalid
  else PfNone.
End participation.

(** ** Eligibility state *)

Record EligibilityRecord := mkEligibilityRecord {
  er_subject : NodeId;
  er_incarnation : IncarnationId;
  er_uptime_valid : bool;
  er_mesh_health_valid : bool;
  er_certificate_valid : bool;
  er_platform_claims : Digest;
  er_faults : Z;
  er_eligible : bool;
}.

Record EligibilityState := mkEligibilityState {
  el_network_id : NetworkId;
  el_epoch : EpochId;
  el_next_epoch : EpochId;
  el_security_ruleset : Z;
  el_consensus_ruleset : Z;
  el_observer_set : Digest;
  el_quorum : Z;
  el_records : list EligibilityRecord;
}.

Definition objective_fault_bit (fault : ObjectiveFault) : Z := Z.shiftl 1 (fault_value fault).

Definition add_flag (e : CanonicalEncoder) (value : bool) : CanonicalEncoder :=
  add_u16 e (if value then 1 else 0).

Definition add_record (e : CanonicalEncoder) (r : EligibilityRecord) : CanonicalEncoder :=
  let e := add_digest e (er_subject r) in
  let e := add_u64 e (er_incarnation r) in
  let e := add_flag e (er_uptime_valid r) in
  let e := add_flag e (er_mesh_health_valid r) in
  let e := add_flag e (er_certificate_valid r) in
  let e := add_digest e (er_platform_claims r) in
  let e := add_u32 e (er_faults r) in
  add_flag e (er_eligible r).

Definition eligibility_state_encoder (s : EligibilityState) : CanonicalEncoder :=
  let e := new_encoder "lemonade-nexus/eligibility-state:v1" in
  let e := add_digest e (el_network_id s) in
  let e := add_u64 e (el_epoch s) in
  let e := add_u64 e (el_next_epoch s) in
  let e := add_u16 e (el_security_ruleset s) in
  let e := add_u16 e (el_consensus_ruleset s) in
  let e := add_digest e (el_observer_set s) in
  let e := add_u64 e (el_quorum s) in
  let e := add_u64 e (Z.of_nat (length (el_records s))) in
  foldl add_record e (el_records s).

Definition eligible_nodes (s : EligibilityState) : list NodeId :=
  merge_sort Z.le (er_subject <$> filter (λ r, er_eligible r = true) (el_records s)).

Section state.
Context `{Sodium}.

Definition platform_claims_digest (claims : VerifiedPlatformClaims) : Digest :=
  if negb (platform_claims_are_consistent claims) || negb (all_platform_claims_proved claims)
  then 0
  else digest (encode_platform_claims (new_encoder "lemonade-nexus/platform-claims:v1") claims).

Definition eligibility_state_digest (s : EligibilityState) : Digest :=
  digest (eligibility_state_encoder s).

Definition eligibility_commitment_encoder (s : EligibilityState) : CanonicalEncoder :=
  let e := new_encoder "lemonade-nexus/eligibility-commit:v1" in
  let e := add_digest e (el_network_id s) in
  let e := add_u64 e (el_epoch s) in
  let e := add_u64 e (el_next_epoch s) in
  add_digest e (eligibility_state_digest s).

Definition eligibility_commitment_digest (s : EligibilityState) : Digest :=
  digest (eligibility_commitment_encoder s).
End state.

(** ** The ledger *)

Definition kMinContinuityObservations : Z := 2.
Definition kMaxContinuityAttestations : Z := 8.

Inductive ObservationOutcome :=
  | Accepted | OoWrongNetwork | OoWrongEpoch | ObserverNotInTier1 | OoSignatureInvalid
  | SelfObservation | NotNewerThanHeld | MalformedForKind.

#[export] Instance outcome_eq_dec : EqDecision ObservationOutcome.
Proof. solve_decision. Defined.

Record MeshFactContext := mkFactContext {
  mc_network_id : NetworkId;
  mc_epoch : EpochId;
  mc_observers : list NodeId;
  mc_quorum : Z;
}.

Definition established_fact_context (network_id : NetworkId) (epoch : EpochId)
    (members : list NodeId) : MeshFactContext :=
  mkFactContext network_id epoch members (consensus_quorum (Z.of_nat (length members))).

Definition genesis_fact_context (network_id : NetworkId) (founders : list NodeId)
    : MeshFactContext :=
  mkFactContext network_id 0 founders (Z.of_nat (length founders)).

Definition is_observer_in (context : MeshFactContext) (node : NodeId) : bool :=
  bool_decide (node ∈ mc_observers context).

Definition witness_threshold (context : MeshFactContext) (subject : NodeId) : Z :=
  if negb (is_observer_in context subject) then mc_quorum context
  else
    let floor := max_byzantine_faults (Z.of_nat (length (mc_observers context))) + 1 in
    std_max (if 0 <? mc_quorum context then mc_quorum context - 1 else 0) floor.

Definition LedgerKey : Type := EpochId * NodeId * NodeId * ObservationKind.
Definition key_epoch (k : LedgerKey) : EpochId := k.1.1.1.
Definition key_subject (k : LedgerKey) : NodeId := k.1.1.2.
Definition key_observer (k : LedgerKey) : NodeId := k.1.2.
Definition key_kind (k : LedgerKey) : ObservationKind := k.2.

Record LedgerRecord := mkLedgerRecord {
  lr_latest : EligibilityObservation;
  lr_attestations : gset Z;
  lr_incarnation : IncarnationId;
}.

#[export] Instance ledger_record_eq_dec : EqDecision LedgerRecord.
Proof. solve_decision. Defined.

Record EligibilityLedger := mkLedger {
  records_ : gmap LedgerKey LedgerRecord;
  faults_ : gmap Z (gset ObjectiveFault);
}.

#[export] Instance eta_ledger : Etable EligibilityLedger := λ l, mkLedger (records_ l) (faults_ l).

Definition empty_ledger : EligibilityLedger := mkLedger ∅ ∅.

(** The defaulted [operator<=>] of the key: field by field. *)
Definition ledger_key_le (a b : LedgerKey) : Prop :=
  key_epoch a < key_epoch b ∨ key_epoch a = key_epoch b ∧
    (key_subject a < key_subject b ∨ key_subject a = key_subject b ∧
      (key_observer a < key_observer b ∨ key_observer a = key_observer b ∧
        kind_value (key_kind a) <= kind_value (key_kind b))).

Definition entry_le (a b : LedgerKey * LedgerRecord) : Prop := ledger_key_le a.1 b.1.
#[export] Instance entry_le_dec : RelDecision entry_le.
Proof. intros a b. unfold entry_le, ledger_key_le. apply _. Defined.

Definition entries (l : EligibilityLedger) : list (LedgerKey * LedgerRecord) :=
  merge_sort entry_le (map_to_list (records_ l)).

Definition observation_key (o : EligibilityObservation) : LedgerKey :=
  (ob_epoch o, ob_subject o, ob_observer o, ob_kind o).

Section ledger.
Context `{Sodium}.

(** Every check of [record] before the ledger is looked at: [None] passes. *)
Definition refuses (o : EligibilityObservation) (context : MeshFactContext)
    : option ObservationOutcome :=
  if negb (ob_network_id o =? mc_network_id context) then Some OoWrongNetwork
  else if negb (ob_epoch o =? mc_epoch context) then Some OoWrongEpoch
  else if ob_observer o =? ob_subject o then Some SelfObservation
  else if negb (is_observer_in context (ob_observer o)) then Some ObserverNotInTier1
  else if (match ob_kind o with
           | Attestation => (ob_attestation_digest o =? 0) ||
                            negb (platform_claims_are_consistent (ob_claims o))
           | Participation => negb (ob_attestation_digest o =? 0) ||
                              negb (platform_claim_bits (ob_claims o) =? 0) ||
                              negb (profile_id (ob_claims o) =? ProfileUnknown)
           end) then Some MalformedForKind
  else if negb (observation_signature_valid o) then Some OoSignatureInvalid
  else None.

Definition first_record (o : EligibilityObservation) : LedgerRecord :=
  mkLedgerRecord o
    (match ob_kind o with Attestation => {[ ob_attestation_digest o ]} | Participation => ∅ end)
    (ob_subject_incarnation o).

Definition next_record (o : EligibilityObservation) (held : LedgerRecord) : LedgerRecord :=
  let attestations :=
    if negb (ob_subject_incarnation o =? lr_incarnation held) then ∅ else lr_attestations held in
  mkLedgerRecord o
    (if bool_decide (ob_kind o = Attestation) &&
        (Z.of_nat (size attestations) <? kMaxContinuityAttestations)
     then {[ ob_attestation_digest o ]} ∪ attestations else attestations)
    (ob_subject_incarnation o).

Definition ledger_record (o : EligibilityObservation) (context : MeshFactContext)
    (l : EligibilityLedger) : ObservationOutcome * EligibilityLedger :=
  match refuses o context with
  | Some outcome => (outcome, l)
  | None =>
      let key := observation_key o in
      match records_ l !! key with
      | None => (Accepted, l <| records_ := <[ key := first_record o ]> (records_ l) |>)
      | Some held =>
          if ob_height o <=? ob_height (lr_latest held) then (NotNewerThanHeld, l)
          else (Accepted, l <| records_ := <[ key := next_record o held ]> (records_ l) |>)
      end
  end.

Definition ledger_record_fault (subject : NodeId) (fault : ObjectiveFault) (l : EligibilityLedger)
    : EligibilityLedger :=
  l <| faults_ := <[ subject := {[ fault ]} ∪ default ∅ (faults_ l !! subject) ]> (faults_ l) |>.

Definition merge_faults (faults : gmap Z (gset ObjectiveFault)) (l : EligibilityLedger)
    : EligibilityLedger :=
  l <| faults_ := union_with (λ kinds held, Some (kinds ∪ held)) faults (faults_ l) |>.

(** ** Mesh facts *)

Record MeshFactEvidence := mkEvidence {
  me_uptime_valid : bool;
  me_mesh_health_valid : bool;
  me_continuity_observers : Z;
  me_participation_observers : Z;
  me_quorum_required : Z;
  me_fault_recorded : bool;
  me_platform_claims : VerifiedPlatformClaims;
  me_claim_observers : Z;
}.

(** An entry the loop of [evaluate] counts. *)
Definition counts (subject : NodeId) (incarnation : IncarnationId) (context : MeshFactContext)
    (entry : LedgerKey * LedgerRecord) : bool :=
  (key_epoch entry.1 =? mc_epoch context) && (key_subject entry.1 =? subject) &&
  (lr_incarnation entry.2 =? incarnation) && is_observer_in context (key_observer entry.1).

Definition is_attestation (entry : LedgerKey * LedgerRecord) : bool :=
  bool_decide (key_kind entry.1 = Attestation).

(** [claim_counts]: for each claims digest, how many and the last claims seen. *)
Definition add_claims (seen : gmap Z (Z * VerifiedPlatformClaims))
    (entry : LedgerKey * LedgerRecord) : gmap Z (Z * VerifiedPlatformClaims) :=
  let claims := ob_claims (lr_latest entry.2) in
  let d := platform_claims_digest claims in
  <[ d := (match seen !! d with Some (n, _) => n | None => 0 end + 1, claims) ]> seen.

Definition evaluate (subject : NodeId) (incarnation : IncarnationId) (context : MeshFactContext)
    (l : EligibilityLedger) : MeshFactEvidence :=
  let required := witness_threshold context subject in
  let fault := bool_decide (is_Some (faults_ l !! subject)) in
  if required =? 0 then mkEvidence false false 0 0 required fault no_claims 0
  else
    let counted := filter (λ entry, counts subject incarnation context entry = true) (entries l) in
    let attested := filter (λ entry, is_attestation entry = true) counted in
    let continuity := Z.of_nat (length (filter (λ entry,
      (kMinContinuityObservations <=? Z.of_nat (size (lr_attestations entry.2))) = true) attested)) in
    let participation :=
      Z.of_nat (length (filter (λ entry, is_attestation entry = false) counted)) in
    let claim_counts := foldl add_claims ∅ attested in
    let winner := head (filter (λ '(_, (n, _)), (required <=? n) = true) (in_order claim_counts)) in
    mkEvidence (required <=? continuity) (negb fault && (required <=? participation))
      continuity participation required fault
      (match winner with Some (_, (_, claims)) => claims | None => no_claims end)
      (match winner with Some (_, (n, _)) => n | None => 0 end).

Definition max_height (epoch : EpochId) (l : EligibilityLedger) : Height :=
  foldl (λ acc entry, if key_epoch entry.1 =? epoch
                      then std_max acc (ob_height (lr_latest entry.2)) else acc) 0 (entries l).

(** The observers of [subject] by the incarnation they name. *)
Definition add_observer (observers : gmap Z (gset Z)) (key observer : Z) : gmap Z (gset Z) :=
  <[ key := {[ observer ]} ∪ default ∅ (observers !! key) ]> observers.

Definition incarnation_observers (subject : NodeId) (context : MeshFactContext)
    (l : EligibilityLedger) : gmap Z (gset Z) :=
  foldl (λ observers entry,
    if (key_epoch entry.1 =? mc_epoch context) && (key_subject entry.1 =? subject) &&
       is_observer_in context (key_observer entry.1)
    then add_observer observers (lr_incarnation entry.2) (key_observer entry.1)
    else observers) ∅ (entries l).

Definition quorum_incarnation (subject : NodeId) (context : MeshFactContext)
    (l : EligibilityLedger) : option IncarnationId :=
  let required := witness_threshold context subject in
  if required =? 0 then None
  else fst <$> head (filter (λ '(_, seen), (required <=? Z.of_nat (size (seen : gset Z))) = true)
                       (in_order (incarnation_observers subject context l))).

Definition fill (facts : Tier1MeshFacts) (subject : NodeId) (incarnation : IncarnationId)
    (context : MeshFactContext) (l : EligibilityLedger) : Tier1MeshFacts :=
  let evidence := evaluate subject incarnation context l in
  mkMeshFacts (mf_certificate_valid facts) (me_uptime_valid evidence)
    (me_mesh_health_valid evidence) (mf_current_epoch facts) (mf_current_incarnation facts).

Definition subject_observers (epoch : EpochId) (l : EligibilityLedger) : gmap Z (gset Z) :=
  foldl (λ observers entry,
    if key_epoch entry.1 =? epoch
    then add_observer observers (key_subject entry.1) (key_observer entry.1)
    else observers) ∅ (entries l).

Definition subjects (epoch : EpochId) (min_observers : Z) (l : EligibilityLedger) : list NodeId :=
  (filter (λ '(_, seen), (min_observers <=? Z.of_nat (size (seen : gset Z))) = true)
     (in_order (subject_observers epoch l))).*1.

Definition expire_before (epoch : EpochId) (l : EligibilityLedger) : EligibilityLedger :=
  l <| records_ := filter (λ '(key, _), ¬ key_epoch key < epoch) (records_ l) |>.

(** ** Snapshots *)

Record PersistedRecord := mkPersisted {
  ps_latest : EligibilityObservation;
  ps_attestations : list Digest;
  ps_incarnation : IncarnationId;
}.

(** [std::set] iterates in order. *)
Definition set_in_order (s : gset Z) : list Z := merge_sort Z.le (elements s).

Definition snapshot (l : EligibilityLedger) : list PersistedRecord :=
  (λ entry, mkPersisted (lr_latest entry.2) (set_in_order (lr_attestations entry.2))
              (lr_incarnation entry.2)) <$> entries l.

(** The record a persisted one restores to; [None] refuses it. *)
Definition restored_record (p : PersistedRecord) (context : MeshFactContext)
    : option LedgerRecord :=
  if negb (bool_decide ((ledger_record (ps_latest p) context empty_ledger).1 = Accepted)) then None
  else if kMaxContinuityAttestations <? Z.of_nat (length (ps_attestations p)) then None
  else if negb (ps_incarnation p =? ob_subject_incarnation (ps_latest p)) then None
  else
    let attestations : gset Z := list_to_set (ps_attestations p) in
    match ob_kind (ps_latest p) with
    | Attestation =>
        if bool_decide (attestations = ∅) then None
        else Some (mkLedgerRecord (ps_latest p) attestations (ps_incarnation p))
    | Participation =>
        if bool_decide (ps_attestations p = [])
        then Some (mkLedgerRecord (ps_latest p) ∅ (ps_incarnation p)) else None
    end.

Fixpoint restore_records (records : list PersistedRecord) (context : MeshFactContext)
    (acc : gmap LedgerKey LedgerRecord) : option (gmap LedgerKey LedgerRecord) :=
  match records with
  | [] => Some acc
  | p :: rest =>
      match restored_record p context with
      | None => None
      | Some r =>
          let key := observation_key (ps_latest p) in
          if bool_decide (is_Some (acc !! key)) then None
          else restore_records rest context (<[ key := r ]> acc)
      end
  end.

Definition restore (records : list PersistedRecord) (context : MeshFactContext)
    (l : EligibilityLedger) : bool * EligibilityLedger :=
  match restore_records records context ∅ with
  | Some held => (true, l <| records_ := held |>)
  | None => (false, l <| records_ := ∅ |>)
  end.
End ledger.
