(* ===== verification/EligibilityFacts.v ===== *)
(** * Lemmas on the eligibility ledger

    The invariant of a ledger under one context, the iteration of its map, what
    the loops of [evaluate] count, and where a recorded digest comes from. *)

From S2P Require Import Prelude SecurityPolicy CanonicalEncoding Selection PlatformClaims.
From S2P Require Import EligibilityLedger.

(** ** Iteration *)

Lemma entries_perm l : entries l ≡ₚ map_to_list (records_ l).
Proof. apply merge_sort_Permutation. Qed.

Lemma elem_of_ledger_entries l k r : (k, r) ∈ entries l ↔ records_ l !! k = Some r.
Proof. rewrite entries_perm. apply elem_of_map_to_list. Qed.

Lemma NoDup_ledger_entries l : NoDup (entries l).*1.
Proof. rewrite entries_perm. apply NoDup_fst_map_to_list. Qed.

Lemma set_in_order_spec (s : gset Z) : set_in_order s ≡ₚ elements s.
Proof. apply merge_sort_Permutation. Qed.

Lemma set_in_order_set (s : gset Z) : (list_to_set (set_in_order s) : gset Z) = s.
Proof.
  apply leibniz_equiv. rewrite set_in_order_spec. apply list_to_set_elements.
Qed.

Lemma length_set_in_order (s : gset Z) : length (set_in_order s) = size s.
Proof. by rewrite set_in_order_spec. Qed.

(** ** Counting distinct observers *)

(** Entries of one subject, epoch and kind differ in their observers. *)
Lemma observers_NoDup (L : list (LedgerKey * LedgerRecord)) epoch subject kind :
  NoDup L.*1 → (∀ e, e ∈ L → key_epoch e.1 = epoch ∧ key_subject e.1 = subject ∧ key_kind e.1 = kind) →
  NoDup ((λ e, key_observer e.1) <$> L).
Proof.
  induction L as [|[k r] L IH]; intros Hn Hall; [constructor|].
  cbn in Hn |- *. apply NoDup_cons in Hn as [Hk Hn]. constructor.
  - intros ([k' r'] & E & Hin)%list_elem_of_fmap. cbn in E. apply Hk.
    apply list_elem_of_fmap. exists (k', r'). split; [|done]. cbn.
    destruct (Hall (k, r)) as (E1 & E2 & E3); [left|]. destruct (Hall (k', r')) as (E1' & E2' & E3'); [by right|].
    destruct k as [[[e s] o] kd], k' as [[[e' s'] o'] kd'].
    unfold key_epoch, key_subject, key_observer, key_kind in *. cbn in *. by subst.
  - apply IH; [done|]. intros e He. apply Hall. by right.
Qed.

(** More distinct nodes than faulty ones contain one that is not faulty. *)
Lemma one_outside (nodes : list Z) (Byz : gset Z) :
  NoDup nodes → Z.of_nat (size Byz) < Z.of_nat (length nodes) → ∃ n, n ∈ nodes ∧ n ∉ Byz.
Proof.
  intros Hn Hl. destruct (decide (list_to_set nodes ⊆ Byz)) as [Hs|Hs].
  - apply subseteq_size in Hs. rewrite size_list_to_set in Hs by done. lia.
  - destruct (set_choose_or_empty ((list_to_set nodes : gset Z) ∖ Byz)) as [[n Hin]|He].
    + exists n. apply elem_of_difference in Hin as [Hin%elem_of_list_to_set ?]. done.
    + destruct Hs. intros n Hin. destruct (decide (n ∈ Byz)) as [|Hb]; [done|].
      destruct (not_elem_of_empty (C := gset Z) n). rewrite <-He. by apply elem_of_difference.
Qed.

Lemma size_list_to_set_le (l : list Z) : (size (list_to_set l : gset Z) <= length l)%nat.
Proof.
  induction l as [|x l IH]; [done|]. cbn [list_to_set length].
  destruct (decide (x ∈ (list_to_set l : gset Z))).
  - assert ({[x]} ∪ list_to_set l = (list_to_set l : gset Z)) as ->; [set_solver|lia].
  - rewrite size_union, size_singleton by set_solver. lia.
Qed.

Lemma size_ge_2 (s : gset Z) : (2 <= size s)%nat → ∃ x y, x ∈ s ∧ y ∈ s ∧ x ≠ y.
Proof.
  intros Hs. destruct (size_pos_elem_of s) as [x Hx]; [lia|].
  destruct (size_pos_elem_of (s ∖ {[ x ]})) as [y Hy].
  { rewrite size_difference by set_solver. rewrite size_singleton. lia. }
  exists x, y. set_solver.
Qed.

(** ** The witness bar *)

(** The contexts the service installs: distinct observers, a committee bar
    between the quorum and the whole committee. *)
Record context_ok (context : MeshFactContext) : Prop := mkContextOk {
  co_distinct : NoDup (mc_observers context);
  co_quorum : consensus_quorum (Z.of_nat (length (mc_observers context))) <= mc_quorum context <=
    Z.of_nat (length (mc_observers context));
}.

Lemma max_byzantine_nonneg n : 0 <= n → 0 <= max_byzantine_faults n.
Proof.
  intros Hn. unfold max_byzantine_faults. destruct (Z.eqb_spec n 0); [lia|]. apply Z.div_pos; lia.
Qed.

Lemma established_context_ok network epoch members :
  NoDup members → context_ok (established_fact_context network epoch members).
Proof.
  intros Hn. constructor; [done|]. cbn -[Z.of_nat consensus_quorum]. split; [lia|].
  unfold consensus_quorum. pose proof (max_byzantine_nonneg (Z.of_nat (length members))). lia.
Qed.

Lemma genesis_context_ok network founders :
  NoDup founders → context_ok (genesis_fact_context network founders).
Proof.
  intros Hn. constructor; [done|]. cbn -[Z.of_nat consensus_quorum]. split; [|lia].
  unfold consensus_quorum. pose proof (max_byzantine_nonneg (Z.of_nat (length founders))). lia.
Qed.

(** A bar that is not zero exceeds the faults the committee tolerates. *)
Lemma threshold_above_faults context subject :
  context_ok context → witness_threshold context subject ≠ 0 →
  max_byzantine_faults (Z.of_nat (length (mc_observers context))) < witness_threshold context subject.
Proof.
  intros [_ [Hq Hq']]. unfold witness_threshold.
  set (n := Z.of_nat (length (mc_observers context))) in *.
  destruct (is_observer_in context subject); cbn [negb]; cbv zeta.
  - rewrite std_max_spec. lia.
  - intros Hz. assert (Hn : 0 < n).
    { assert (0 <= n) by (subst n; lia). destruct (Z.eq_dec n 0) as [E|]; [|lia].
      rewrite E in Hq, Hq'. change (consensus_quorum 0) with 0 in Hq. lia. }
    pose proof (max_byzantine_faults_bound n Hn). unfold consensus_quorum in Hq. lia.
Qed.

(** Twice the bar exceeds the observers that can speak of the subject. *)
Lemma threshold_majority context subject :
  context_ok context → witness_threshold context subject ≠ 0 →
  Z.of_nat (length (mc_observers context)) - (if is_observer_in context subject then 1 else 0) <
    2 * witness_threshold context subject.
Proof.
  intros [_ [Hq Hq']]. unfold witness_threshold.
  set (n := Z.of_nat (length (mc_observers context))) in *. intros Hz.
  assert (Hn : 0 < n).
  { destruct (is_observer_in context subject) eqn:E.
    2:{ cbn in Hz. assert (0 <= n) by (subst n; lia). destruct (Z.eq_dec n 0) as [E0|]; [|lia].
        rewrite E0 in Hq, Hq'. change (consensus_quorum 0) with 0 in Hq. lia. }
    apply bool_decide_eq_true in E. subst n. destruct (mc_observers context); [by apply elem_of_nil in E|].
    cbn. lia. }
  pose proof (max_byzantine_faults_bound n Hn). unfold consensus_quorum in Hq. revert Hz.
  destruct (is_observer_in context subject); cbn [negb]; cbv zeta; [rewrite std_max_spec|]; [|lia].
  destruct (Z.ltb_spec 0 (mc_quorum context)); lia.
Qed.

Section facts.
Context `{Sodium}.

(** ** The invariant *)

(** What one record of a ledger under [context] is. *)
Record record_ok (context : MeshFactContext) (key : LedgerKey) (r : LedgerRecord) : Prop :=
  mkRecordOk {
  rk_key : observation_key (lr_latest r) = key;
  rk_passes : refuses (lr_latest r) context = None;
  rk_incarnation : lr_incarnation r = ob_subject_incarnation (lr_latest r);
  rk_bound : Z.of_nat (size (lr_attestations r)) <= kMaxContinuityAttestations;
  rk_attestations : lr_attestations r = ∅ ↔ key_kind key = Participation;
}.

Definition ledger_ok (context : MeshFactContext) (l : EligibilityLedger) : Prop :=
  ∀ key r, records_ l !! key = Some r → record_ok context key r.

Lemma empty_ledger_ok context : ledger_ok context empty_ledger.
Proof. intros key r. cbn. by rewrite lookup_empty. Qed.

Lemma first_record_ok o context :
  refuses o context = None → record_ok context (observation_key o) (first_record o).
Proof.
  intros Hr. constructor; cbn; [done|done|done| |].
  - unfold kMaxContinuityAttestations. destruct (ob_kind o); [rewrite size_singleton; lia|].
    rewrite size_empty. lia.
  - unfold key_kind. cbn. destruct (ob_kind o); [|done]. split; [|done]. set_solver.
Qed.

Lemma next_record_ok o context held :
  refuses o context = None → record_ok context (observation_key o) held →
  record_ok context (observation_key o) (next_record o held).
Proof.
  intros Hr [_ _ _ Hb Ha]. constructor; cbn [lr_latest lr_incarnation lr_attestations next_record];
    [done|done|done|..]; set (attestations := if negb _ then ∅ else _).
  - assert (Hs : Z.of_nat (size attestations) <= kMaxContinuityAttestations).
    { subst attestations. destruct (negb _); [by rewrite size_empty|done]. }
    destruct (bool_decide _ && _) eqn:E; [|done]. bool_to_prop.
    destruct (decide (ob_attestation_digest o ∈ attestations)) as [Hin|Hout].
    + assert ({[ob_attestation_digest o]} ∪ attestations = attestations) as ->; [set_solver|done].
    + rewrite size_union, size_singleton by set_solver. lia.
  - unfold key_kind in *. cbn in *. destruct (ob_kind o); cbn [bool_decide] in *.
    + split; [|done]. intros E. exfalso. rewrite bool_decide_eq_true_2 in E by done. cbn [andb] in E.
      destruct (_ <? _) eqn:El; [set_solver|]. apply Z.ltb_ge in El.
      rewrite E, size_empty in El. unfold kMaxContinuityAttestations in El. lia.
    + split; [done|]. intros _. rewrite bool_decide_eq_false_2 by done. cbn [andb].
      subst attestations. destruct (negb _); [done|]. by apply Ha.
Qed.

Lemma ledger_record_ok o context l :
  ledger_ok context l → ledger_ok context (ledger_record o context l).2.
Proof.
  intros Hl. unfold ledger_record. destruct (refuses o context) eqn:Hr; [done|]. cbv zeta.
  destruct (records_ l !! observation_key o) as [held|] eqn:Hh.
  - destruct (_ <=? _); [done|]. intros key r. cbn.
    intros [[<- <-]|[_ Hk]]%lookup_insert_Some; [|by apply Hl]. apply next_record_ok; [done|by apply Hl].
  - intros key r. cbn. intros [[<- <-]|[_ Hk]]%lookup_insert_Some; [|by apply Hl].
    by apply first_record_ok.
Qed.

Lemma restored_record_ok p context r :
  restored_record p context = Some r → record_ok context (observation_key (ps_latest p)) r.
Proof.
  unfold restored_record. case_bool_decide as Hp; [|done]. cbn [negb].
  destruct (_ <? Z.of_nat (length (ps_attestations p))) eqn:El; [done|].
  destruct (negb _) eqn:Ei; [done|]. bool_to_prop.
  assert (Hr : refuses (ps_latest p) context = None).
  { unfold ledger_record in Hp. destruct (refuses (ps_latest p) context) eqn:E; [|done]. cbn in Hp.
    rewrite Hp in E. unfold refuses in E. by repeat case_match. }
  destruct (ob_kind (ps_latest p)) eqn:Ek; case_bool_decide as Ha; try done; intros [= <-];
    constructor; cbn; try done.
  - etrans; [|exact El]. apply inj_le, size_list_to_set_le.
  - unfold key_kind. cbn. by rewrite Ek.
Qed.

Lemma restore_records_ok records context acc held :
  (∀ key r, acc !! key = Some r → record_ok context key r) →
  restore_records records context acc = Some held →
  ∀ key r, held !! key = Some r → record_ok context key r.
Proof.
  revert acc. induction records as [|p records IH]; intros acc Ha; cbn [restore_records].
  { by intros [= <-]. }
  destruct (restored_record p context) as [r|] eqn:E; [|done]. case_bool_decide; [done|].
  apply IH. intros key r' [[<- <-]|[_ Hk]]%lookup_insert_Some; [by apply restored_record_ok|by apply Ha].
Qed.

(** Whatever a file holds, the ledger it restores to is sound. *)
Lemma restore_sound records context l :
  ledger_ok context (restore records context l).2 ∧ faults_ (restore records context l).2 = faults_ l.
Proof.
  unfold restore. destruct (restore_records _ _ _) as [held|] eqn:E; (split; [|done]); intros key r; cbn.
  - apply (restore_records_ok _ _ _ _ ltac:(intros ??; by rewrite lookup_empty) E).
  - by rewrite lookup_empty.
Qed.

(** Every check an observation of a sound ledger passed. *)
Lemma refuses_none o context :
  refuses o context = None →
  ob_network_id o = mc_network_id context ∧ ob_epoch o = mc_epoch context ∧
  ob_observer o ≠ ob_subject o ∧ ob_observer o ∈ mc_observers context ∧
  observation_signature_valid o = true ∧
  (ob_kind o = Attestation → ob_attestation_digest o ≠ 0 ∧
    platform_claims_are_consistent (ob_claims o) = true).
Proof.
  unfold refuses. intros Hr.
  destruct (negb (ob_network_id o =? _)) eqn:E1; [done|].
  destruct (negb (ob_epoch o =? _)) eqn:E2; [done|].
  destruct (ob_observer o =? ob_subject o) eqn:E3; [done|].
  destruct (negb (is_observer_in _ _)) eqn:E4; [done|].
  destruct (match ob_kind o with Attestation => _ | Participation => _ end) eqn:E5; [done|].
  destruct (negb (observation_signature_valid o)) eqn:E6; [done|].
  unfold is_observer_in in E4. bool_to_prop. split_and!; try done.
  intros Hk. rewrite Hk in E5. bool_to_prop. done.
Qed.

(** ** Histories *)

Definition record_all (os : list EligibilityObservation) (context : MeshFactContext)
    (l : EligibilityLedger) : EligibilityLedger :=
  foldl (λ l o, (ledger_record o context l).2) l os.

Lemma record_all_ok os context l : ledger_ok context l → ledger_ok context (record_all os context l).
Proof.
  unfold record_all. revert l. induction os as [|o os IH]; intros l Hl; [done|]. cbn.
  by apply IH, ledger_record_ok.
Qed.

(** [o] is a statement of [observer] about [subject] that the context admits. *)
Definition vouches (context : MeshFactContext) (subject : NodeId) (incarnation : IncarnationId)
    (observer : NodeId) (kind : ObservationKind) (o : EligibilityObservation) : Prop :=
  refuses o context = None ∧ ob_subject o = subject ∧ ob_subject_incarnation o = incarnation ∧
  ob_observer o = observer ∧ ob_kind o = kind.

(** Where everything in a ledger that only recorded comes from. *)
Definition from_history (os : list EligibilityObservation) (context : MeshFactContext)
    (l : EligibilityLedger) : Prop :=
  ∀ key r, records_ l !! key = Some r → lr_latest r ∈ os ∧
    ∀ d, d ∈ lr_attestations r → ∃ o, o ∈ os ∧ ob_attestation_digest o = d ∧
      vouches context (key_subject key) (lr_incarnation r) (key_observer key) Attestation o.

Lemma record_from_history os context o l :
  from_history os context l → from_history (os ++ [o]) context (ledger_record o context l).2.
Proof.
  intros Hl. assert (Hmono : from_history (os ++ [o]) context l).
  { intros key r Hk. destruct (Hl key r Hk) as [Hin Hd]. split; [apply elem_of_app; by left|].
    intros d (o' & ? & ?)%Hd. exists o'. split; [apply elem_of_app; by left|done]. }
  unfold ledger_record. destruct (refuses o context) eqn:Hr; [done|]. cbv zeta.
  assert (Ho : o ∈ os ++ [o]) by (apply elem_of_app; right; left).
  assert (Hown : ∀ d, d = ob_attestation_digest o → ob_kind o = Attestation →
    ∃ o', o' ∈ os ++ [o] ∧ ob_attestation_digest o' = d ∧
      vouches context (ob_subject o) (ob_subject_incarnation o) (ob_observer o) Attestation o').
  { intros d -> Hk. exists o. split; [done|]. split; [done|]. by split_and!. }
  destruct (records_ l !! observation_key o) as [held|] eqn:Hh.
  - destruct (_ <=? _); [done|]. intros key r. cbn.
    intros [[<- <-]|[_ Hk]]%lookup_insert_Some; [|by apply Hmono]. split; [done|].
    unfold next_record, key_subject, key_observer. cbn. intros d Hd.
    assert (Hheld : ∀ d, d ∈ (if negb (ob_subject_incarnation o =? lr_incarnation held) then ∅
        else lr_attestations held) → ∃ o', o' ∈ os ++ [o] ∧ ob_attestation_digest o' = d ∧
        vouches context (ob_subject o) (ob_subject_incarnation o) (ob_observer o) Attestation o').
    { intros d'. destruct (Z.eqb_spec (ob_subject_incarnation o) (lr_incarnation held)) as [E|]; cbn [negb];
        [|set_solver]. intros Hd'. rewrite E. by apply (Hmono _ _ Hh). }
    destruct (bool_decide _ && _) eqn:E; [|by apply Hheld]. bool_to_prop.
    apply elem_of_union in Hd as [Hd%elem_of_singleton|Hd]; [by apply Hown|by apply Hheld].
  - intros key r. cbn. intros [[<- <-]|[_ Hk]]%lookup_insert_Some; [|by apply Hmono]. split; [done|].
    unfold first_record, key_subject, key_observer. cbn. destruct (ob_kind o) eqn:Ek; [|set_solver].
    intros d Hd%elem_of_singleton. by apply Hown.
Qed.

Lemma record_all_from_history os context :
  from_history os context (record_all os context empty_ledger).
Proof.
  induction os as [|o os IH] using rev_ind; [intros key r; cbn; by rewrite lookup_empty|].
  unfold record_all. rewrite foldl_app. by apply record_from_history.
Qed.

(** ** Counting *)

(** The entries [evaluate] counts for one kind, as a list of distinct observers. *)
Definition counted_entries (subject : NodeId) (incarnation : IncarnationId)
    (context : MeshFactContext) (l : EligibilityLedger) (attestation : bool)
    : list (LedgerKey * LedgerRecord) :=
  filter (λ entry, is_attestation entry = attestation)
    (filter (λ entry, counts subject incarnation context entry = true) (entries l)).

Lemma elem_of_counted subject incarnation context l b e :
  e ∈ counted_entries subject incarnation context l b →
  records_ l !! e.1 = Some e.2 ∧ key_epoch e.1 = mc_epoch context ∧ key_subject e.1 = subject ∧
  lr_incarnation e.2 = incarnation ∧ key_observer e.1 ∈ mc_observers context ∧
  key_kind e.1 = (if b then Attestation else Participation).
Proof.
  unfold counted_entries. intros [Hk [Hc Hin]%list_elem_of_filter]%list_elem_of_filter.
  destruct e as [k r]. rewrite elem_of_ledger_entries in Hin. unfold counts, is_observer_in in Hc. bool_to_prop.
  cbn in *. split_and!; try done. unfold is_attestation in Hk. cbn in Hk.
  destruct b; bool_to_prop; [done|]. by destruct (key_kind k).
Qed.

Lemma counted_observers_NoDup subject incarnation context l b :
  NoDup ((λ e, key_observer e.1) <$> counted_entries subject incarnation context l b).
Proof.
  apply (observers_NoDup _ (mc_epoch context) subject (if b then Attestation else Participation)).
  - unfold counted_entries. apply (sublist_NoDup _ (entries l).*1); [apply NoDup_ledger_entries|].
    apply fmap_sublist. etrans; apply sublist_filter.
  - intros e He. by destruct (elem_of_counted _ _ _ _ _ _ He) as (_ & ? & ? & _ & _ & ?).
Qed.

(** Enough counted entries include one of an observer outside [Byz]. *)
Lemma counted_outside subject incarnation context l b P `{∀ e, Decision (P e)} (Byz : gset Z) :
  Z.of_nat (size Byz) < Z.of_nat (length (filter P (counted_entries subject incarnation context l b))) →
  ∃ e, e ∈ counted_entries subject incarnation context l b ∧ P e ∧ key_observer e.1 ∉ Byz.
Proof.
  intros Hl. destruct (one_outside ((λ e, key_observer e.1) <$>
    filter P (counted_entries subject incarnation context l b)) Byz) as (n & Hin & Hout).
  - apply (sublist_NoDup _ ((λ e, key_observer e.1) <$> counted_entries subject incarnation context l b)).
    + apply counted_observers_NoDup.
    + apply fmap_sublist, sublist_filter.
  - by rewrite length_fmap.
  - apply list_elem_of_fmap in Hin as (e & -> & [HP He]%list_elem_of_filter). by exists e.
Qed.
End facts.
