(* ===== verification/EligibilityTheorems.v ===== *)
(** * What the eligibility ledger guarantees

    The theorems on [Eligibility/EligibilityLedger.cpp] and the participation
    exchange, with a committee of five they are applied to. *)

From S2P Require Import Prelude SecurityPolicy CanonicalEncoding Selection PlatformClaims.
From S2P Require Import EligibilityLedger EligibilityFacts.

Lemma length_filter_exclusive {A} (P Q : A → Prop) `{∀ x, Decision (P x), ∀ x, Decision (Q x)} l :
  (∀ x, P x → Q x → False) → (length (filter P l) + length (filter Q l) <= length l)%nat.
Proof.
  intros Hx. induction l as [|x l IH]; [done|]. rewrite !filter_cons. cbn [length].
  destruct (decide (P x)) as [HP|], (decide (Q x)) as [HQ|]; cbn [length]; [|lia..].
  by destruct (Hx x HP HQ).
Qed.

Section theorems.
Context `{Sodium}.

(** ** Claims *)

(** The counted attestations with one claims digest. *)
Definition claimants (subject : NodeId) (incarnation : IncarnationId) (context : MeshFactContext)
    (l : EligibilityLedger) (d : Digest) : list (LedgerKey * LedgerRecord) :=
  filter (λ e, platform_claims_digest (ob_claims (lr_latest e.2)) = d)
    (counted_entries subject incarnation context l true).

Lemma add_claims_spec L d :
  foldl add_claims ∅ L !! d =
  let same := filter (λ e, platform_claims_digest (ob_claims (lr_latest e.2)) = d) L in
  (λ e, (Z.of_nat (length same), ob_claims (lr_latest e.2))) <$> last same.
Proof.
  induction L as [|e L IH] using rev_ind; [done|]. rewrite foldl_app, filter_app. cbn [foldl].
  unfold add_claims at 1. cbv zeta in *. set (d' := platform_claims_digest _).
  destruct (decide (d' = d)) as [E|E].
  - rewrite (filter_cons_True _ e []), filter_nil by done. rewrite last_snoc, E, lookup_insert_eq. cbn [fmap option_fmap option_map].
    rewrite length_app. cbn [length]. do 2 f_equal. rewrite IH. cbv zeta. rewrite last_lookup.
    destruct (filter _ L) as [|y ys] eqn:Ef; [done|]. cbn [length].
    destruct ((y :: ys) !! pred _) as [z|] eqn:Ez; [cbn; lia|].
    apply lookup_ge_None in Ez. cbn in Ez. lia.
  - rewrite lookup_insert_ne by done. rewrite IH. rewrite (filter_cons_False _ e []), filter_nil by done.
    by rewrite app_nil_r.
Qed.

Lemma claimants_bound subject incarnation context l d d' :
  context_ok context → ledger_ok context l → d ≠ d' →
  Z.of_nat (length (claimants subject incarnation context l d)) +
  Z.of_nat (length (claimants subject incarnation context l d')) <=
  Z.of_nat (length (mc_observers context)) - (if is_observer_in context subject then 1 else 0).
Proof.
  intros Hc Hl Hd. set (L := counted_entries subject incarnation context l true).
  assert (Hex : (length (claimants subject incarnation context l d) +
    length (claimants subject incarnation context l d') <= length L)%nat).
  { apply length_filter_exclusive. intros e E1 E2. congruence. }
  set (obs := (λ e, key_observer e.1) <$> L). assert (Hlen : length obs = length L) by apply length_fmap.
  assert (Hnd : NoDup obs) by apply counted_observers_NoDup.
  assert (Hin : ∀ n, n ∈ obs → n ∈ mc_observers context ∧ n ≠ subject).
  { intros n (e & -> & He)%list_elem_of_fmap.
    destruct (elem_of_counted _ _ _ _ _ _ He) as (Hk & _ & Es & _ & Hm & _). split; [done|].
    destruct (Hl _ _ Hk) as [Ekey Hp _ _ _]. apply refuses_none in Hp as (_ & _ & Hne & _).
    rewrite <-Ekey in Es |- *. unfold key_subject, key_observer in *. cbn in *. congruence. }
  assert (Hall : NoDup (if is_observer_in context subject then subject :: obs else obs) ∧
    ∀ n, n ∈ (if is_observer_in context subject then subject :: obs else obs) → n ∈ mc_observers context).
  { destruct (is_observer_in context subject) eqn:E; [|by split; [|intros n [? _]%Hin]].
    apply bool_decide_eq_true in E. split; [|intros n [->|[? _]%Hin]%elem_of_cons; done].
    constructor; [by intros [_ ?]%Hin|done]. }
  destruct Hall as [Hn2 Hin2].
  assert (Hsz : (length (if is_observer_in context subject then subject :: obs else obs) <=
    length (mc_observers context))%nat).
  { apply submseteq_length, NoDup_submseteq; done. }
  destruct (is_observer_in context subject); cbn [length] in Hsz; lia.
Qed.

(** the platform claims of a candidate are a quorum fact: when [evaluate]
    names a claim set, it is one that at least the bar of distinct observers
    stated (and the count is theirs), and no other claim set reaches the bar;
    when it names none, no claim set reaches it. *)
Theorem claims_are_quorum_fact (subject : NodeId) (incarnation : IncarnationId)
    (context : MeshFactContext) (l : EligibilityLedger) :
  context_ok context → ledger_ok context l → witness_threshold context subject ≠ 0 →
  let evidence := evaluate subject incarnation context l in
  let required := witness_threshold context subject in
  let stated d := Z.of_nat (length (claimants subject incarnation context l d)) in
  (me_claim_observers evidence ≠ 0 →
    stated (platform_claims_digest (me_platform_claims evidence)) = me_claim_observers evidence ∧
    required <= me_claim_observers evidence ∧
    ∀ d, required <= stated d → d = platform_claims_digest (me_platform_claims evidence)) ∧
  (me_claim_observers evidence = 0 → ∀ d, stated d < required).
Proof.
  intros Hc Hl Hz evidence required stated. subst evidence. unfold evaluate.
  rewrite (proj2 (Z.eqb_neq _ _) Hz). fold required.
  change (filter (λ entry, is_attestation entry = true) _) with (counted_entries subject incarnation context l true).
  cbv zeta. cbn [me_claim_observers me_platform_claims].
  set (seen := foldl add_claims ∅ _).
  assert (Hpos : 0 < required).
  { pose proof (threshold_above_faults context subject Hc Hz). unfold required.
    pose proof (max_byzantine_nonneg (Z.of_nat (length (mc_observers context)))). lia. }
  assert (Hseen : ∀ d n c, seen !! d = Some (n, c) → n = stated d ∧ platform_claims_digest c = d).
  { intros d n c. subst seen. rewrite add_claims_spec. cbv zeta. intros (e & He & [= -> ->])%fmap_Some.
    split; [done|]. apply last_Some_elem_of, list_elem_of_filter in He as [? _]. done. }
  assert (Hstated : ∀ d, 0 < stated d → ∃ c, seen !! d = Some (stated d, c)).
  { intros d Hd. subst seen stated. cbv beta in *. unfold claimants in *. rewrite add_claims_spec. cbv zeta.
    destruct (last _) as [e|] eqn:E; [by eexists|]. apply last_None in E. rewrite E in Hd. cbn in Hd. lia. }
  destruct (head _) as [[d [n c]]|] eqn:Eh.
  - assert (Hin : (d, (n, c)) ∈ filter (λ '(_, (n, _)), (required <=? n) = true) (in_order seen)).
    { destruct (filter _ (in_order seen)); [done|]. injection Eh as ->. left. }
    apply list_elem_of_filter in Hin as [Hr%Z.leb_le Hin%elem_of_in_order].
    destruct (Hseen _ _ _ Hin) as [-> <-]. split; [|lia]. intros _. split; [done|]. split; [done|].
    intros d' Hd'. destruct (decide (d' = platform_claims_digest c)) as [|Hne]; [done|].
    pose proof (claimants_bound subject incarnation context l d' _ Hc Hl Hne).
    pose proof (threshold_majority context subject Hc Hz). unfold stated, required in *. lia.
  - split; [done|]. intros _ d. destruct (Z.lt_ge_cases (stated d) required) as [|Hge]; [done|]. exfalso.
    destruct (Hstated d) as [c Hd]; [lia|].
    assert (Hin : (d, (stated d, c)) ∈ filter (λ '(_, (n, _)), (required <=? n) = true) (in_order seen)).
    { apply list_elem_of_filter. split; [by apply Z.leb_le|by apply elem_of_in_order]. }
    destruct (filter _ (in_order seen)); [by apply elem_of_nil in Hin|done].
Qed.
(** ** Mesh facts *)

Lemma evaluate_bar subject incarnation context l :
  me_uptime_valid (evaluate subject incarnation context l) = true ∨
  me_mesh_health_valid (evaluate subject incarnation context l) = true →
  witness_threshold context subject ≠ 0.
Proof.
  unfold evaluate. destruct (Z.eqb_spec (witness_threshold context subject) 0); [|done].
  by intros [?|?].
Qed.

(** The statements that count for continuity. *)
Definition continuous (e : LedgerKey * LedgerRecord) : Prop :=
  (kMinContinuityObservations <=? Z.of_nat (size (lr_attestations e.2))) = true.

Lemma evaluate_counts subject incarnation context l :
  witness_threshold context subject ≠ 0 →
  me_uptime_valid (evaluate subject incarnation context l) =
    (witness_threshold context subject <=?
      Z.of_nat (length (filter continuous (counted_entries subject incarnation context l true)))) ∧
  me_mesh_health_valid (evaluate subject incarnation context l) =
    negb (bool_decide (is_Some (faults_ l !! subject))) &&
    (witness_threshold context subject <=?
      Z.of_nat (length (filter (λ _, True) (counted_entries subject incarnation context l false)))).
Proof.
  unfold evaluate. intros Hz. rewrite (proj2 (Z.eqb_neq _ _) Hz). split; [done|].
  cbn [me_mesh_health_valid]. do 2 f_equal. unfold counted_entries.
  rewrite (filter_id (λ _, True)); [done|]. by apply Forall_true.
Qed.

(** A counted entry of a sound ledger is a verified statement of an observer
    about another node. *)
Lemma counted_vouches subject incarnation context l b e :
  ledger_ok context l → e ∈ counted_entries subject incarnation context l b →
  vouches context subject incarnation (key_observer e.1) (if b then Attestation else Participation)
    (lr_latest e.2) ∧ records_ l !! e.1 = Some e.2 ∧ key_observer e.1 ∈ mc_observers context ∧
  key_observer e.1 ≠ subject.
Proof.
  intros Hl He. destruct (elem_of_counted _ _ _ _ _ _ He) as (Hk & _ & Es & Ei & Hm & Ek).
  destruct (Hl _ _ Hk) as [Ekey Hp Einc _ _].
  pose proof Hp as (_ & _ & Hne & _)%refuses_none. unfold vouches.
  rewrite <-Ekey in Es, Ek, Hm, Hk |- *. unfold key_subject, key_observer, key_kind in *. cbn in *.
  rewrite <-Einc. by subst.
Qed.

(** A statement that the ledger [l] keeps. *)
Definition keeps_statement (l : EligibilityLedger) (o : EligibilityObservation) : Prop :=
  ∃ key r, records_ l !! key = Some r ∧ lr_latest r = o.

(** Behind a proved claim set and a participation fact stands the statement of
    an observer outside [Byz]. *)
Lemma facts_have_honest_statements subject incarnation context l (Byz : gset Z) :
  context_ok context → ledger_ok context l →
  Z.of_nat (size Byz) <= max_byzantine_faults (Z.of_nat (length (mc_observers context))) →
  let evidence := evaluate subject incarnation context l in
  me_mesh_health_valid evidence = true → me_claim_observers evidence ≠ 0 →
  (∃ n o, n ∈ mc_observers context ∧ n ∉ Byz ∧ n ≠ subject ∧ keeps_statement l o ∧
     vouches context subject incarnation n Attestation o ∧
     platform_claims_digest (ob_claims o) = platform_claims_digest (me_platform_claims evidence)) ∧
  (∃ n o, n ∈ mc_observers context ∧ n ∉ Byz ∧ n ≠ subject ∧ keeps_statement l o ∧
     vouches context subject incarnation n Participation o).
Proof.
  intros Hc Hl Hb evidence Hu Hn.
  assert (Hz : witness_threshold context subject ≠ 0)
    by (apply (evaluate_bar subject incarnation context l); by right).
  pose proof (threshold_above_faults context subject Hc Hz) as Hbar. split.
  - destruct (claims_are_quorum_fact subject incarnation context l Hc Hl Hz) as [(Es & Hr & _) _]; [done|].
    fold evidence in Es, Hr. unfold claimants in Es.
    destruct (counted_outside subject incarnation context l true
      (λ e, platform_claims_digest (ob_claims (lr_latest e.2)) = platform_claims_digest (me_platform_claims evidence)) Byz)
      as (e & He & Hd & Hout); [lia|].
    destruct (counted_vouches _ _ _ _ _ _ Hl He) as (V & Hk & Hm & Hne).
    exists (key_observer e.1), (lr_latest e.2). split_and!; [done..|by exists e.1, e.2|done|done].
  - destruct (evaluate_counts subject incarnation context l Hz) as [_ E].
    fold evidence in E. rewrite Hu in E. symmetry in E. apply andb_true_iff in E as [_ E%Z.leb_le].
    destruct (counted_outside subject incarnation context l false (λ _, True) Byz) as (e & He & _ & Hout); [lia|].
    destruct (counted_vouches _ _ _ _ _ _ Hl He) as (V & Hk & Hm & Hne).
    exists (key_observer e.1), (lr_latest e.2). split_and!; [done..|by exists e.1, e.2|done].
Qed.

(** C22: a mesh fact is never the adversary's alone: whatever observations a ledger
    was given, in whatever order, when it states continuity (uptime) or
    participation (mesh health) of a node and at most [f] committee members are
    faulty, a correct committee member other than the node signed it: for
    continuity two attestations with different digests at that incarnation, for
    participation one statement, and no fault of the node is recorded. *)
Theorem mesh_fact_has_honest_witness (os : list EligibilityObservation) (context : MeshFactContext)
    (subject : NodeId) (incarnation : IncarnationId) (Byz : gset Z) :
  context_ok context →
  Z.of_nat (size Byz) <= max_byzantine_faults (Z.of_nat (length (mc_observers context))) →
  let l := record_all os context empty_ledger in
  let evidence := evaluate subject incarnation context l in
  (me_uptime_valid evidence = true →
    ∃ n o1 o2, n ∈ mc_observers context ∧ n ∉ Byz ∧ n ≠ subject ∧ o1 ∈ os ∧ o2 ∈ os ∧
      ob_attestation_digest o1 ≠ ob_attestation_digest o2 ∧
      vouches context subject incarnation n Attestation o1 ∧
      vouches context subject incarnation n Attestation o2) ∧
  (me_mesh_health_valid evidence = true →
    faults_ l !! subject = None ∧
    ∃ n o, n ∈ mc_observers context ∧ n ∉ Byz ∧ n ≠ subject ∧ o ∈ os ∧
      vouches context subject incarnation n Participation o).
Proof.
  intros Hc Hb l evidence. pose proof (record_all_ok os context _ (empty_ledger_ok context)) as Hl.
  pose proof (record_all_from_history os context) as Hh. fold l in Hl, Hh.
  assert (Hother : ∀ e b, e ∈ counted_entries subject incarnation context l b →
    vouches context subject incarnation (key_observer e.1) (if b then Attestation else Participation)
      (lr_latest e.2) ∧ lr_latest e.2 ∈ os ∧ key_observer e.1 ∈ mc_observers context ∧
      key_observer e.1 ≠ subject).
  { intros e b He. destruct (counted_vouches _ _ _ _ _ _ Hl He) as (V & Hk & Hm & Hne).
    by destruct (Hh _ _ Hk) as [Hin _]. }
  split.
  - intros Hu. assert (Hz : witness_threshold context subject ≠ 0)
      by (apply (evaluate_bar subject incarnation context l); by left).
    destruct (evaluate_counts subject incarnation context l Hz) as [E _].
    fold evidence in E. rewrite Hu in E. symmetry in E. apply Z.leb_le in E.
    pose proof (threshold_above_faults context subject Hc Hz).
    destruct (counted_outside subject incarnation context l true continuous Byz)
      as (e & He & Hsz & Hout); [lia|].
    destruct (Hother e true He) as (_ & _ & Hm & Hne).
    destruct (elem_of_counted _ _ _ _ _ _ He) as (Hk & _ & Es & Ei & _). destruct (Hh _ _ Hk) as [_ Hd].
    apply Z.leb_le in Hsz. unfold kMinContinuityObservations in Hsz.
    destruct (size_ge_2 (lr_attestations e.2)) as (d1 & d2 & H1 & H2 & Hdd); [lia|].
    destruct (Hd d1 H1) as (o1 & Ho1 & E1 & V1). destruct (Hd d2 H2) as (o2 & Ho2 & E2 & V2).
    rewrite Es, Ei in V1, V2. exists (key_observer e.1), o1, o2. subst d1 d2. by split_and!.
  - intros Hu. assert (Hz : witness_threshold context subject ≠ 0)
      by (apply (evaluate_bar subject incarnation context l); by right).
    destruct (evaluate_counts subject incarnation context l Hz) as [_ E].
    fold evidence in E. rewrite Hu in E. symmetry in E. apply andb_true_iff in E as [Hf%negb_true_iff E%Z.leb_le].
    apply bool_decide_eq_false in Hf. split; [by destruct (faults_ l !! subject); [destruct Hf; eauto|]|].
    pose proof (threshold_above_faults context subject Hc Hz).
    destruct (counted_outside subject incarnation context l false (λ _, True) Byz) as (e & He & _ & Hout); [lia|].
    destruct (Hother e false He) as (V & Hin & Hm & Hne). by exists (key_observer e.1), (lr_latest e.2).
Qed.
(** ** Snapshots *)

Definition persisted (r : LedgerRecord) : PersistedRecord :=
  mkPersisted (lr_latest r) (set_in_order (lr_attestations r)) (lr_incarnation r).

Lemma probe_accepts o context :
  refuses o context = None → (ledger_record o context empty_ledger).1 = Accepted.
Proof. intros Hr. unfold ledger_record. rewrite Hr. cbv zeta. cbn. by rewrite lookup_empty. Qed.

Lemma restored_persisted context key r :
  record_ok context key r → restored_record (persisted r) context = Some r.
Proof.
  intros [Ekey Hp Einc Hb Ha]. unfold restored_record. cbn [persisted ps_latest ps_attestations ps_incarnation].
  rewrite bool_decide_eq_true_2 by by apply probe_accepts.
  rewrite length_set_in_order, (proj2 (Z.ltb_ge _ _)) by done. rewrite Einc, Z.eqb_refl.
  rewrite set_in_order_set. cbn [negb]. rewrite <-Ekey in Ha. unfold key_kind in Ha. cbn in Ha.
  destruct r as [o ats inc]. cbn in *. subst inc. destruct (ob_kind o) eqn:Ek.
  - rewrite bool_decide_eq_false_2; [done|]. by intros E%Ha.
  - assert (ats = ∅) as -> by by apply Ha. done.
Qed.

Lemma restore_records_spec context (f : PersistedRecord → LedgerRecord) ps acc :
  (∀ p, p ∈ ps → restored_record p context = Some (f p)) →
  NoDup ((λ p, observation_key (ps_latest p)) <$> ps) →
  (∀ p, p ∈ ps → acc !! observation_key (ps_latest p) = None) →
  restore_records ps context acc =
    Some (list_to_map ((λ p, (observation_key (ps_latest p), f p)) <$> ps) ∪ acc).
Proof.
  revert acc. induction ps as [|p ps IH]; intros acc Hok Hn Hacc; cbn.
  { by rewrite map_empty_union. }
  cbn in Hn. apply NoDup_cons in Hn as [Hk Hn]. rewrite (Hok p) by left.
  rewrite bool_decide_eq_false_2; [|rewrite (Hacc p ltac:(left)); by intros [? [=]]].
  rewrite IH; [|intros q Hq; apply Hok; by right|done|].
  - rewrite <-insert_union_r; [by rewrite insert_union_l|].
    apply not_elem_of_list_to_map_1. by rewrite <-list_fmap_compose.
  - intros q Hq. rewrite lookup_insert_ne; [apply Hacc; by right|].
    intros E. apply Hk. rewrite E. by apply (list_elem_of_fmap_2 (λ p, observation_key (ps_latest p))).
Qed.

Lemma restore_snapshot context l fresh :
  ledger_ok context l →
  restore (snapshot l) context fresh = (true, mkLedger (records_ l) (faults_ fresh)).
Proof.
  intros Hl. set (f p := mkLedgerRecord (ps_latest p) (list_to_set (ps_attestations p)) (ps_incarnation p)).
  assert (Hf : ∀ r, f (persisted r) = r).
  { intros [o ats inc]. unfold f, persisted. cbn. by rewrite set_in_order_set. }
  assert (Hkey : ∀ e, e ∈ entries l → observation_key (lr_latest e.2) = e.1).
  { intros [k r] He%elem_of_ledger_entries. by apply Hl in He as [? _ _ _ _]. }
  assert (Hfmap : ∀ {A} (g : LedgerKey → LedgerRecord → A),
    (λ e, g (observation_key (lr_latest e.2)) e.2) <$> entries l = (λ e, g e.1 e.2) <$> entries l).
  { intros A g. apply list_fmap_ext. intros i e He%list_elem_of_lookup_2. by rewrite Hkey. }
  unfold restore, snapshot. change (λ entry : LedgerKey * LedgerRecord, _) with
    (λ e : LedgerKey * LedgerRecord, persisted e.2).
  rewrite (restore_records_spec context f).
  - rewrite map_union_empty, <-list_fmap_compose. unfold compose. cbn [persisted ps_latest].
    rewrite (list_fmap_ext _ (λ e, (observation_key (lr_latest e.2), e.2))) by (intros; by rewrite Hf).
    rewrite (Hfmap _ pair), (list_fmap_ext _ id), list_fmap_id by by intros ? [].
    rewrite (list_to_map_proper _ _ (NoDup_ledger_entries l) (entries_perm l)), list_to_map_to_list. done.
  - intros p ([k r] & -> & He%elem_of_ledger_entries)%list_elem_of_fmap. rewrite Hf.
    by apply (restored_persisted context k), Hl.
  - rewrite <-list_fmap_compose. unfold compose. cbn [persisted ps_latest].
    rewrite (Hfmap _ (λ k _, k)). apply NoDup_ledger_entries.
  - intros p _. apply lookup_empty.
Qed.

(** A ledger holding exactly [L]. *)
Lemma entries_of_list (L : list (LedgerKey * LedgerRecord)) faults :
  NoDup L.*1 → entries (mkLedger (list_to_map L) faults) ≡ₚ L.
Proof. intros Hn. rewrite entries_perm. cbn. by apply map_to_list_to_map. Qed.

(** An observer that spoke once shows no continuity. *)
Lemma single_statements_uptime os context subject incarnation :
  NoDup (ob_observer <$> os) → 0 < witness_threshold context subject →
  me_uptime_valid (evaluate subject incarnation context (record_all os context empty_ledger)) = false.
Proof.
  intros Hn Hz. set (l := record_all os context empty_ledger).
  destruct (evaluate_counts subject incarnation context l ltac:(lia)) as [-> _]. apply Z.leb_gt.
  assert (filter continuous (counted_entries subject incarnation context l true) = []) as ->; [|done].
  destruct (filter _ _) as [|e rest] eqn:E; [done|]. exfalso.
  assert (He : e ∈ filter continuous (counted_entries subject incarnation context l true)) by (rewrite E; left).
  apply list_elem_of_filter in He as [Hs%Z.leb_le (Hk & _)%elem_of_counted].
  unfold kMinContinuityObservations in Hs.
  destruct (size_ge_2 (lr_attestations e.2)) as (d1 & d2 & H1 & H2 & Hne); [lia|].
  destruct (record_all_from_history os context _ _ Hk) as [_ Hd].
  destruct (Hd d1 H1) as (o1 & Ho1 & <- & (_ & _ & _ & E1 & _)).
  destruct (Hd d2 H2) as (o2 & Ho2 & <- & (_ & _ & _ & E2 & _)). apply Hne. f_equal.
  apply list_elem_of_lookup in Ho1 as [i Hi]. apply list_elem_of_lookup in Ho2 as [j Hj].
  assert (i = j) as ->; [|congruence].
  eapply NoDup_lookup; [exact Hn|rewrite list_lookup_fmap, Hi; cbn; by rewrite E1|].
  rewrite list_lookup_fmap, Hj. cbn. by rewrite E2.
Qed.

(** an edited file asserts continuity nobody signed. Let each of enough
    committee members have signed exactly one attestation of a node, so that the
    ledger does not state continuity. A file with those statements and one
    made-up digest added to each record's list passes [restore], and the
    restored ledger states continuity. (The header promises that a tampered file
    cannot assert a fact the mesh never made; only the latest statement of a
    record is signed, the digest list is not checked against anything.) *)
Theorem edited_file_fakes_continuity (context : MeshFactContext) (subject : NodeId)
    (incarnation : IncarnationId) (os : list EligibilityObservation) (forged : Digest) :
  context_ok context → NoDup (ob_observer <$> os) →
  Forall (λ o, vouches context subject incarnation (ob_observer o) Attestation o ∧
               ob_attestation_digest o ≠ forged) os →
  0 < witness_threshold context subject <= Z.of_nat (length os) →
  me_uptime_valid (evaluate subject incarnation context (record_all os context empty_ledger)) = false ∧
  ∃ l, restore ((λ o, mkPersisted o [ob_attestation_digest o; forged] incarnation) <$> os)
         context empty_ledger = (true, l) ∧
    me_uptime_valid (evaluate subject incarnation context l) = true.
Proof.
  intros Hc Hn Hos [Hz Hlen]. rewrite Forall_forall in Hos. split.
  { apply single_statements_uptime; [done|lia]. }
  set (ps := _ <$> os).
  set (f p := mkLedgerRecord (ps_latest p) (list_to_set (ps_attestations p)) (ps_incarnation p)).
  set (L := (λ p, (observation_key (ps_latest p), f p)) <$> ps).
  assert (Hp : ∀ p, p ∈ ps → ∃ o, o ∈ os ∧ p = mkPersisted o [ob_attestation_digest o; forged] incarnation).
  { intros p (o & -> & Ho)%list_elem_of_fmap. by exists o. }
  assert (Hkeys : NoDup ((λ p, observation_key (ps_latest p)) <$> ps)).
  { apply (NoDup_fmap_1 key_observer). subst ps. rewrite <-!list_fmap_compose. exact Hn. }
  exists (mkLedger (list_to_map L) ∅). split.
  - unfold restore. rewrite (restore_records_spec context f); [by rewrite map_union_empty| |done|].
    2:{ intros p _. apply lookup_empty. }
    intros p (o & Ho & ->)%Hp. destruct (Hos o Ho) as [(Hr & _ & Hi & _ & Hk) Hd]. unfold restored_record.
    cbn [ps_latest ps_attestations ps_incarnation]. rewrite bool_decide_eq_true_2 by by apply probe_accepts.
    rewrite Hi, Z.eqb_refl, Hk. cbn [negb length]. change (kMaxContinuityAttestations <? _) with false. cbv iota.
    rewrite bool_decide_eq_false_2; [done|]. cbn. set_solver.
  - assert (HL : ∀ e, e ∈ L → counts subject incarnation context e = true ∧ is_attestation e = true ∧ continuous e).
    { intros e (p & -> & (o & Ho & ->)%Hp)%list_elem_of_fmap. destruct (Hos o Ho) as [(Hr & Hs & Hi & _ & Hk) Hd].
      apply refuses_none in Hr as (_ & He & _ & Hm & _).
      unfold counts, is_attestation, continuous, is_observer_in, key_epoch, key_subject, key_observer, key_kind.
      cbn -[Z.leb]. rewrite He, Hs, Hk, !Z.eqb_refl, !bool_decide_eq_true_2 by done.
      split; [done|]. split; [done|]. rewrite union_empty_r_L.
      rewrite size_union, !size_singleton by set_solver. done. }
    assert (Hnd : NoDup L.*1) by (subst L; rewrite <-list_fmap_compose; exact Hkeys).
    destruct (evaluate_counts subject incarnation context (mkLedger (list_to_map L) ∅) ltac:(lia)) as [-> _].
    apply Z.leb_le. unfold counted_entries. rewrite (entries_of_list L ∅ Hnd).
    rewrite (filter_id (λ e, counts _ _ _ e = true)) by (apply Forall_forall; intros e He; by apply HL).
    rewrite (filter_id (λ e, is_attestation e = true)) by (apply Forall_forall; intros e He; by apply HL).
    rewrite filter_id by (apply Forall_forall; intros e He; by apply HL).
    subst L ps. rewrite !length_fmap. lia.
Qed.

(** ** Participation *)

(** a response is accepted exactly when it answers this challenge: it carries
    the challenge's digest and every field of it, and the node it names signed
    it; the answer a challenged node makes with its key is accepted. *)
Theorem participation_response_exact (r : ParticipationResponse) (c : ParticipationChallenge) :
  (verify_participation_response r c = PfNone ↔
    r = answer_participation_challenge c (mkKeypair (pc_node_id c) []) <| pr_identity_signature :=
          pr_identity_signature r |> ∧
    crypto_sign_verify_detached (pr_identity_signature r)
      (participation_response_signing_digest r) (pc_node_id c) = true) ∧
  ∀ identity, kp_public_key identity = pc_node_id c →
    (∀ d, ∃ signature, crypto_sign_detached (kp_private_key identity) d = Some signature ∧
      crypto_sign_verify_detached signature d (kp_public_key identity) = true) →
    verify_participation_response (answer_participation_challenge c identity) c = PfNone.
Proof.
  assert (Hans : ∀ keys, ∃ signature, answer_participation_challenge c keys =
    mkResponse (participation_challenge_digest c) (pc_network_id c) (pc_epoch c)
      (pc_security_ruleset c) (pc_consensus_ruleset c) (kp_public_key keys) (pc_incarnation c)
      (pc_anchor_height c) (pc_anchor_state c) signature).
  { intros keys. unfold answer_participation_challenge. destruct (crypto_sign_detached _ _); by eexists. }
  split; [split|].
  - unfold verify_participation_response. intros Hv.
    destruct (negb (_ =? participation_challenge_digest c)) eqn:E1; [done|].
    destruct (negb (pr_network_id r =? _)) eqn:E2; [done|]. destruct (negb (pr_epoch r =? _)) eqn:E3; [done|].
    destruct (negb (pr_security_ruleset r =? _) || _) eqn:E4; [done|].
    destruct (negb (pr_node_id r =? _)) eqn:E5; [done|].
    destruct (negb (pr_incarnation r =? _)) eqn:E6; [done|].
    destruct (negb (pr_anchor_height r =? _) || _) eqn:E7; [done|].
    destruct (negb (crypto_sign_verify_detached _ _ _)) eqn:E8; [done|]. bool_to_prop.
    destruct (Hans (mkKeypair (pc_node_id c) [])) as [signature ->].
    destruct r. cbn in *. subst. done.
  - intros [Er Hs]. destruct (Hans (mkKeypair (pc_node_id c) [])) as [signature Ea]. rewrite Ea in Er.
    rewrite Er in Hs |- *. unfold verify_participation_response. cbn in *.
    by rewrite !Z.eqb_refl, Hs.
  - intros identity Hid Hkey. unfold answer_participation_challenge.
    set (r0 := mkResponse _ _ _ _ _ _ _ _ _ 0).
    destruct (Hkey (participation_response_signing_digest r0)) as (signature & -> & Hv).
    unfold verify_participation_response. subst r0. cbn. rewrite Hid in *. rewrite !Z.eqb_refl. cbn.
    change (participation_response_signing_digest _) with (participation_response_signing_digest
      (mkResponse (participation_challenge_digest c) (pc_network_id c) (pc_epoch c)
      (pc_security_ruleset c) (pc_consensus_ruleset c) (pc_node_id c) (pc_incarnation c)
      (pc_anchor_height c) (pc_anchor_state c) 0)). by rewrite Hv.
Qed.
End theorems.

(** ** A committee of five *)

Module Committee.
(** A digest is a fold over the bytes; a signature is the digest plus the key. *)
#[export] Instance sodium : Sodium := {|
  crypto_hash_sha256 bytes := 1 + foldl (λ acc b, (acc * 31 + b) mod 65521) 7 bytes;
  crypto_sign_detached key d := Some (d + default 0 (head key));
  crypto_sign_verify_detached signature d public := bool_decide (signature = d + public) |}.

Definition members : list NodeId := [1; 2; 3; 4; 5].
Definition context : MeshFactContext := established_fact_context 9 4 members.
Definition claims : VerifiedPlatformClaims := platform_claims_from_bits 1 1 kPlatformClaimBitMask.
Definition statement (observer subject : NodeId) (kind : ObservationKind) (d height : Z)
    : EligibilityObservation :=
  sign_observation (mkObservation 9 4 subject 1 kind d
    (match kind with Attestation => claims | Participation => no_claims end) height 0 0 0)
    (mkKeypair observer [observer]).
(** Two rounds of attestation and one of participation about node 1 from four
    observers, with a repetition. *)
Definition history : list EligibilityObservation :=
  ((λ n, statement n 1 Attestation 11 7) <$> [2; 3; 4; 5]) ++
  ((λ n, statement n 1 Participation 0 7) <$> [5; 4; 3; 2]) ++
  ((λ n, statement n 1 Attestation 12 8) <$> [2; 2; 4; 3; 5]).
Definition ledger : EligibilityLedger := record_all history context empty_ledger.
Definition single : list EligibilityObservation :=
  (λ n, statement n 1 Attestation 11 7) <$> [2; 3; 4; 5].
Definition challenge : ParticipationChallenge := mkChallenge 9 4 1 1 6 1 88 7 0 2.

Lemma members_NoDup : NoDup members.
Proof. refine (bool_decide_unpack _ _). vm_compute. exact I. Qed.

Lemma context_is_ok : context_ok context.
Proof. apply established_context_ok, members_NoDup. Qed.

Lemma ledger_is_ok : ledger_ok context ledger.
Proof. apply record_all_ok, empty_ledger_ok. Qed.

Lemma single_vouches :
  Forall (λ o, vouches context 1 1 (ob_observer o) Attestation o ∧ ob_attestation_digest o ≠ 99) single.
Proof. repeat constructor; try (vm_compute; reflexivity); vm_compute; discriminate. Qed.
End Committee.

Section applications.
#[local] Existing Instance Committee.sodium.
Import Committee.

Lemma claims_are_quorum_fact_witness :
  me_claim_observers (evaluate 1 1 context ledger) = 4 ∧
  Z.of_nat (length (claimants 1 1 context ledger
    (platform_claims_digest (me_platform_claims (evaluate 1 1 context ledger))))) = 4.
Proof.
  assert (E : me_claim_observers (evaluate 1 1 context ledger) = 4) by (vm_compute; reflexivity).
  destruct (claims_are_quorum_fact 1 1 context ledger context_is_ok ledger_is_ok) as [Hc _];
    [vm_compute; discriminate|].
  split; [exact E|]. destruct Hc as (Hs & _); [rewrite E; discriminate|]. rewrite Hs. exact E.
Defined.

Lemma mesh_fact_has_honest_witness_witness :
  me_uptime_valid (evaluate 1 1 context (record_all history context empty_ledger)) = true ∧
  ∃ n, n ∈ members ∧ n ∉ ({[ 3 ]} : gset Z) ∧ n ≠ 1.
Proof.
  assert (E : me_uptime_valid (evaluate 1 1 context (record_all history context empty_ledger)) = true)
    by (vm_compute; reflexivity).
  split; [exact E|].
  destruct (mesh_fact_has_honest_witness history context 1 1 {[ 3 ]} context_is_ok) as [Hu _];
    [vm_compute; discriminate|].
  destruct (Hu E) as (n & o1 & o2 & H1 & H2 & H3 & _). exists n. split; [exact H1|].
  split; [exact H2|exact H3].
Defined.

Lemma edited_file_fakes_continuity_witness :
  me_uptime_valid (evaluate 1 1 context (record_all single context empty_ledger)) = false ∧
  ∃ l, me_uptime_valid (evaluate 1 1 context l) = true.
Proof.
  destruct (edited_file_fakes_continuity context 1 1 single 99 context_is_ok) as (Hf & l & _ & Hl).
  - refine (bool_decide_unpack _ _). vm_compute. exact I.
  - exact single_vouches.
  - vm_compute. split; [reflexivity|discriminate].
  - split; [exact Hf|]. exists l. exact Hl.
Defined.
End applications.
