(* ===== verification/DurableWrite.v ===== *)
(** * Crash-atomic durable writes

    Models [Security/DurableWrite.cpp] (the POSIX branch). A disk has the live
    directory the process sees, and the set of directories a crash at this
    moment may leave behind ([versions]): an operation that was not flushed may
    or may not have reached the device, and data that was not flushed is torn.
    Every system call takes its outcome from an oracle, so the theorems hold for
    every pattern of failures; the trace keeps the versions after each call, so
    they hold for a crash at every point. Ownership and mode bits are not part
    of the disk: [fchown] and [fchmod] only succeed or fail. *)

From S2P Require Import Prelude.

Inductive Content := Whole (bytes : list Z) | Torn.

Record File := mkFile { f_bytes : list Z; f_synced : bool }.

Record Disk := mkDisk {
  live : gmap string File;
  versions : list (gmap string Content);
  oracle : list Z;
  trace : list (list (gmap string Content));
}.

#[export] Instance eta_disk : Etable Disk := λ d,
  mkDisk (live d) (versions d) (oracle d) (trace d).

(** What a crash leaves of a live file that is flushed with its name. *)
Definition flushed (f : File) : Content := if f_synced f then Whole (f_bytes f) else Torn.

(** ** System calls *)

(** The next outcome; an exhausted oracle fails the call. *)
Definition outcome (d : Disk) : Z * Disk :=
  match oracle d with
  | [] => (0, d)
  | r :: rest => (r, d <| oracle := rest |>)
  end.

Definition observe (d : Disk) : Disk := d <| trace := versions d :: trace d |>.

Definition succeeds (d : Disk) : bool * Disk := let '(r, d) := outcome d in (0 <? r, d).

(** [open(path, O_WRONLY | O_CREAT | O_TRUNC)] *)
Definition sys_open_trunc (path : string) (d : Disk) : bool * Disk :=
  let '(ok, d) := succeeds d in
  if ok then
    let d := d <| live := <[ path := mkFile [] false ]> (live d) |> in
    let d := d <| versions := versions d ++ ((λ v, <[ path := Torn ]> v) <$> versions d) |> in
    (true, observe d)
  else (false, d).

(** [write(fd, rest)]: the number of bytes written, none on failure. *)
Definition sys_write (path : string) (rest : list Z) (d : Disk) : option nat * Disk :=
  let '(r, d) := outcome d in
  if r <=? 0 then (None, d)
  else
    let count := Z.to_nat (Z.min r (Z.of_nat (length rest))) in
    let old := match live d !! path with Some f => f_bytes f | None => [] end in
    let d := d <| live := <[ path := mkFile (old ++ take count rest) false ]> (live d) |> in
    (Some count, observe d).

(** [fsync(fd)]: the data of the file, wherever its name may end up. *)
Definition sys_fsync (path : string) (d : Disk) : bool * Disk :=
  let '(ok, d) := succeeds d in
  if ok then
    match live d !! path with
    | Some f =>
        let d := d <| live := <[ path := mkFile (f_bytes f) true ]> (live d) |> in
        let d := d <| versions := alter (λ _, Whole (f_bytes f)) path <$> versions d |> in
        (true, observe d)
    | None => (true, d)
    end
  else (false, d).

(** [rename(source, final)], atomic in the directory. *)
Definition move {A : Type} (source final : string) (v : gmap string A) : gmap string A :=
  match v !! source with
  | Some x => <[ final := x ]> (delete source v)
  | None => v
  end.

Definition sys_rename (source final : string) (d : Disk) : bool * Disk :=
  let '(ok, d) := succeeds d in
  if ok && bool_decide (is_Some (live d !! source)) then
    let d := d <| live := move source final (live d) |> in
    let d := d <| versions := versions d ++ (move source final <$> versions d) |> in
    (true, observe d)
  else (false, d).

(** [open] and [fsync] of the parent directory. *)
Definition sys_fsync_dir (d : Disk) : bool * Disk :=
  let '(ok, d) := succeeds d in
  if ok then
    let '(ok, d) := succeeds d in
    if ok then (true, observe (d <| versions := [flushed <$> live d] |>)) else (false, d)
  else (false, d).

Definition sys_remove (path : string) (d : Disk) : Disk :=
  let d := d <| live := delete path (live d) |> in
  let d := d <| versions := versions d ++ (delete path <$> versions d) |> in
  observe d.

(** ** The module's functions *)

(** The [while] loop; each successful call writes at least one byte, so one
    unit of fuel more than the payload has bytes is enough. *)
Fixpoint write_all (fuel : nat) (path : string) (rest : list Z) (d : Disk) : bool * Disk :=
  match rest, fuel with
  | [], _ => (true, d)
  | _, O => (false, d)
  | _, S fuel' =>
      let '(count, d) := sys_write path rest d in
      match count with
      | None => (false, d)
      | Some n => write_all fuel' path (drop n rest) d
      end
  end.

(** [fchown] and [fchmod] on the temporary file when the final one exists;
    false: the metadata could not be reproduced. *)
Definition copy_metadata (final_path temp_path : string) (d : Disk) : bool * Disk :=
  let '(stat_ok, d) := succeeds d in
  if stat_ok && bool_decide (is_Some (live d !! final_path)) then
    let '(ok, d) := succeeds d in
    if negb ok then (false, sys_remove temp_path d)
    else
      let '(ok, d) := succeeds d in
      if negb ok then (false, sys_remove temp_path d) else (true, d)
  else (true, d).

Definition temp_of (final_path : string) : string := final_path +:+ ".tmp".

Definition rename_durable (source_path final_path : string) (d : Disk) : bool * Disk :=
  let '(ok, d) := sys_rename source_path final_path d in
  if negb ok then (false, d) else sys_fsync_dir d.

(** From the first byte to the flushed directory. *)
Definition fill_and_replace (final_path temp_path : string) (payload : list Z) (d : Disk)
    : bool * Disk :=
  let '(ok, d) := write_all (S (length payload)) temp_path payload d in
  if negb ok then (false, d)
  else
    let '(ok, d) := sys_fsync temp_path d in
    if negb ok then (false, d)
    else
      let '(ok, d) := succeeds d in
      if negb ok then (false, d) else rename_durable temp_path final_path d.

Definition write_durable_impl (final_path : string) (payload : list Z) (preserve_metadata : bool)
    (d : Disk) : bool * Disk :=
  let temp_path := temp_of final_path in
  let '(ok, d) := sys_open_trunc temp_path d in
  if negb ok then (false, d)
  else
    let '(ok, d) :=
      if preserve_metadata then copy_metadata final_path temp_path d else (true, d) in
    if negb ok then (false, d) else fill_and_replace final_path temp_path payload d.

Definition write_durable (final_path : string) (payload : list Z) (d : Disk) : bool * Disk :=
  write_durable_impl final_path payload false d.

Definition write_durable_preserving (final_path : string) (payload : list Z) (d : Disk)
    : bool * Disk :=
  write_durable_impl final_path payload true d.

(** [read_file]: the live content. *)
Definition read_file (path : string) (d : Disk) : option (list Z) := f_bytes <$> live d !! path.

(** ** What a sequence of calls may do

    [T] is the temporary name, [F] the final one. [P] holds of whatever a
    crash may leave under [F]. *)
Record step_ok (T F : string) (payload : list Z) (P : option Content → Prop) (d d' : Disk)
    : Prop := mkStepOk {
  so_frame : ∀ q, q ≠ T → q ≠ F → live d' !! q = live d !! q;
  so_live : live d' !! F = live d !! F ∨ live d' !! F = Some (mkFile payload true);
  so_trace : ∃ new, trace d' = new ++ trace d ∧ Forall (Forall (λ v, P (v !! F))) new;
  so_versions : Forall (λ v, P (v !! F)) (versions d');
}.

Section durable.
Context (T F : string) (HTF : T ≠ F) (payload : list Z) (P : option Content → Prop).

Definition crash_ok (d : Disk) : Prop := Forall (λ v : gmap string Content, P (v !! F)) (versions d).

Lemma step_refl d : crash_ok d → step_ok T F payload P d d.
Proof. intros Hv. split; try done; [by left|]. exists []. split; [done|constructor]. Qed.

Lemma step_trans d1 d2 d3 :
  step_ok T F payload P d1 d2 → step_ok T F payload P d2 d3 → step_ok T F payload P d1 d3.
Proof.
  intros [F1 L1 (n1 & E1 & N1) V1] [F2 L2 (n2 & E2 & N2) V2]. split; [| | |done].
  - intros q HT HF. rewrite F2 by done. by apply F1.
  - destruct L2 as [-> |]; [done|by right].
  - exists (n2 ++ n1). split; [by rewrite E2, E1, app_assoc|]. by apply Forall_app.
Qed.

Lemma step_observe d d' :
  (∀ q, q ≠ T → q ≠ F → live d' !! q = live d !! q) →
  (live d' !! F = live d !! F ∨ live d' !! F = Some (mkFile payload true)) →
  trace d' = trace d → crash_ok d' → step_ok T F payload P d (observe d').
Proof.
  intros Hf Hl Ht Hv. split; try done.
  exists [versions d']. cbn. rewrite Ht. split; [done|]. by repeat constructor.
Qed.

Lemma outcome_frame d : live (outcome d).2 = live d ∧ versions (outcome d).2 = versions d ∧
  trace (outcome d).2 = trace d.
Proof. unfold outcome. by destruct (oracle d). Qed.

Lemma succeeds_frame d ok d' : succeeds d = (ok, d') →
  live d' = live d ∧ versions d' = versions d ∧ trace d' = trace d.
Proof.
  unfold succeeds. pose proof (outcome_frame d) as Ho. destruct (outcome d) as [r d0].
  by intros [= _ <-].
Qed.

Lemma step_succeeds d ok d' :
  crash_ok d → succeeds d = (ok, d') →
  step_ok T F payload P d d' ∧ live d' = live d ∧ versions d' = versions d.
Proof.
  intros Hv (El & Ev & Et)%succeeds_frame. split; [|done].
  split; rewrite ?El, ?Ev, ?Et; try done; [by left|]. exists []. split; [done|constructor].
Qed.

Lemma step_open d ok d' :
  crash_ok d → sys_open_trunc T d = (ok, d') →
  step_ok T F payload P d d' ∧ (ok = true → live d' !! T = Some (mkFile [] false)).
Proof.
  intros Hv. unfold sys_open_trunc. destruct (succeeds d) as [b d0] eqn:E.
  destruct (step_succeeds d b d0 Hv E) as (Hs & El & Ev).
  destruct b; intros [= <- <-]; [|done]. split; [|intros _; cbn; by rewrite lookup_insert_eq].
  eapply step_trans; [exact Hs|]. apply step_observe; cbn; try done.
  - intros q ??. by rewrite lookup_insert_ne.
  - left. by rewrite lookup_insert_ne.
  - unfold crash_ok in *. cbn. rewrite Ev. apply Forall_app. split; [done|].
    apply Forall_fmap. eapply Forall_impl; [exact Hv|]. intros v ?. cbn.
    by rewrite lookup_insert_ne.
Qed.

Lemma step_write_all fuel rest d w b ok d' :
  crash_ok d → live d !! T = Some (mkFile w b) → write_all fuel T rest d = (ok, d') →
  step_ok T F payload P d d' ∧
  (ok = true → ∃ b', live d' !! T = Some (mkFile (w ++ rest) b')).
Proof.
  revert rest d w b. induction fuel as [|fuel IH]; intros [|x rest] d w b Hv Hl; cbn [write_all].
  1,3: intros [= <- <-]; (split; [by apply step_refl|]); intros _; rewrite app_nil_r; eauto.
  { intros [= <- <-]. split; [by apply step_refl|done]. }
  unfold sys_write. pose proof (outcome_frame d) as (El & Ev & Et).
  destruct (outcome d) as [r d0]. cbn in El, Ev, Et.
  destruct (r <=? 0).
  { intros [= <- <-]. split; [|done]. split; rewrite ?El, ?Ev, ?Et; try done; [by left|].
    exists []. split; [done|constructor]. }
  rewrite El, Hl. cbv zeta iota. cbn [f_bytes].
  set (count := Z.to_nat _). set (d1 := observe _).
  assert (H1 : step_ok T F payload P d d1).
  { apply step_observe; cbn; [| |done|unfold crash_ok; cbn; by rewrite Ev].
    - intros q ??. rewrite lookup_insert_ne by done. by rewrite ?El.
    - left. rewrite lookup_insert_ne by done. by rewrite ?El. }
  intros Hr. eapply (IH _ d1 (w ++ take count (x :: rest)) false) in Hr as [Hs Hok];
    [|exact (so_versions _ _ _ _ _ _ H1)|unfold d1; cbn; by rewrite lookup_insert_eq].
  split; [by eapply step_trans|]. intros Hb. destruct (Hok Hb) as [b' E]. exists b'.
  rewrite E. by rewrite <-app_assoc, take_drop.
Qed.

Lemma step_fsync d w b ok d' :
  crash_ok d → live d !! T = Some (mkFile w b) → sys_fsync T d = (ok, d') →
  step_ok T F payload P d d' ∧
  (ok = true → live d' !! T = Some (mkFile w true) ∧
     Forall (λ v : gmap string Content, v !! T = None ∨ v !! T = Some (Whole w)) (versions d')).
Proof.
  intros Hv Hl. unfold sys_fsync. destruct (succeeds d) as [s d0] eqn:E.
  destruct (step_succeeds d s d0 Hv E) as (Hs & El & Ev).
  destruct s; [|by intros [= <- <-]]. rewrite El, Hl. intros [= <- <-]. cbn [f_bytes].
  split.
  - eapply step_trans; [exact Hs|]. apply step_observe; cbn; try done.
    + intros q ??. rewrite lookup_insert_ne by done. by rewrite ?El.
    + left. rewrite lookup_insert_ne by done. by rewrite ?El.
    + unfold crash_ok in *. cbn. rewrite Ev. apply Forall_fmap.
      eapply Forall_impl; [exact Hv|]. intros v ?. cbn. by rewrite lookup_alter_ne.
  - intros _. cbn. rewrite lookup_insert_eq. split; [done|]. apply Forall_fmap, Forall_true.
    intros v. cbn. rewrite lookup_alter_eq. destruct (v !! T); [by right|by left].
Qed.

Lemma lookup_move_final {A} (v : gmap string A) :
  move T F v !! F = match v !! T with Some x => Some x | None => v !! F end.
Proof. unfold move. destruct (v !! T); [by rewrite lookup_insert_eq|done]. Qed.

Lemma lookup_move_other {A} (v : gmap string A) q :
  q ≠ T → q ≠ F → move T F v !! q = v !! q.
Proof.
  intros ??. unfold move. destruct (v !! T); [|done].
  by rewrite lookup_insert_ne, lookup_delete_ne by done.
Qed.

Lemma step_rename_durable d ok d' :
  crash_ok d → P (Some (Whole payload)) → live d !! T = Some (mkFile payload true) →
  Forall (λ v : gmap string Content, v !! T = None ∨ v !! T = Some (Whole payload)) (versions d) →
  rename_durable T F d = (ok, d') →
  step_ok T F payload P d d' ∧
  (ok = true → live d' !! F = Some (mkFile payload true) ∧
     versions d' = [flushed <$> live d']).
Proof.
  intros Hv HP Hl Ht. unfold rename_durable, sys_rename.
  destruct (succeeds d) as [s d0] eqn:E.
  destruct (step_succeeds d s d0 Hv E) as (Hs & El & Ev).
  destruct s; cbn [andb]; [|by intros [= <- <-]].
  rewrite bool_decide_eq_true_2 by (rewrite El, Hl; eauto). cbn [negb].
  set (d1 := observe _).
  assert (H1 : step_ok T F payload P d d1).
  { eapply step_trans; [exact Hs|]. apply step_observe; cbn; [| |done|].
    - intros q ??. by rewrite lookup_move_other.
    - right. by rewrite lookup_move_final, El, Hl.
    - unfold crash_ok in *. cbn. rewrite Ev. apply Forall_app. split; [done|].
      apply Forall_fmap. rewrite Forall_forall in *. intros v Hin. cbn.
      rewrite lookup_move_final. destruct (Ht v Hin) as [-> | ->]; [by apply Hv|done]. }
  assert (HF : live d1 !! F = Some (mkFile payload true)).
  { unfold d1. cbn. by rewrite lookup_move_final, El, Hl. }
  clearbody d1. unfold sys_fsync_dir.
  destruct (succeeds d1) as [s2 d2] eqn:E2.
  destruct (step_succeeds d1 s2 d2 (so_versions _ _ _ _ _ _ H1) E2) as (Hs2 & El2 & Ev2).
  pose proof (step_trans _ _ _ H1 Hs2) as H2.
  destruct s2; [|by intros [= <- <-]]. destruct (succeeds d2) as [s3 d3] eqn:E3.
  destruct (step_succeeds d2 s3 d3 (so_versions _ _ _ _ _ _ H2) E3) as (Hs3 & El3 & Ev3).
  pose proof (step_trans _ _ _ H2 Hs3) as H3.
  destruct s3; intros [= <- <-]; [|done]. split.
  - eapply step_trans; [exact H3|]. apply step_observe; cbn; try done; [by left|].
    unfold crash_ok. cbn. apply Forall_singleton.
    by rewrite lookup_fmap, El3, El2, HF.
  - intros _. cbn. by rewrite El3, El2, HF.
Qed.

Lemma step_remove d : crash_ok d → step_ok T F payload P d (sys_remove T d).
Proof.
  intros Hv. unfold sys_remove. apply step_observe; cbn; try done.
  - intros q ??. by rewrite lookup_delete_ne.
  - left. by rewrite lookup_delete_ne.
  - unfold crash_ok in *. cbn. apply Forall_app. split; [done|]. apply Forall_fmap.
    eapply Forall_impl; [exact Hv|]. intros v ?. cbn. by rewrite lookup_delete_ne.
Qed.

Lemma step_copy_metadata d ok d' :
  crash_ok d → copy_metadata F T d = (ok, d') →
  step_ok T F payload P d d' ∧ (ok = true → live d' = live d).
Proof.
  intros Hv. unfold copy_metadata. destruct (succeeds d) as [s1 d1] eqn:E1.
  destruct (step_succeeds d s1 d1 Hv E1) as (H1 & L1 & _).
  destruct (s1 && _); [|by intros [= <- <-]].
  destruct (succeeds d1) as [s2 d2] eqn:E2.
  destruct (step_succeeds d1 s2 d2 (so_versions _ _ _ _ _ _ H1) E2) as (H2 & L2 & _).
  pose proof (step_trans _ _ _ H1 H2) as H12.
  assert (Hrm : ∀ x, step_ok T F payload P d x → step_ok T F payload P d (sys_remove T x)).
  { intros x Hx. eapply step_trans; [exact Hx|]. apply step_remove, Hx. }
  destruct s2; cbn [negb]; [|intros [= <- <-]; split; [by apply Hrm|done]].
  destruct (succeeds d2) as [s3 d3] eqn:E3.
  destruct (step_succeeds d2 s3 d3 (so_versions _ _ _ _ _ _ H12) E3) as (H3 & L3 & _).
  pose proof (step_trans _ _ _ H12 H3) as H13.
  destruct s3; cbn [negb]; intros [= <- <-]; (split; [|done || congruence]); [done|by apply Hrm].
Qed.

Lemma step_fill_and_replace d ok d' :
  crash_ok d → P (Some (Whole payload)) → live d !! T = Some (mkFile [] false) →
  fill_and_replace F T payload d = (ok, d') →
  step_ok T F payload P d d' ∧
  (ok = true → live d' !! F = Some (mkFile payload true) ∧
     versions d' = [flushed <$> live d']).
Proof.
  intros Hv HP Hl. unfold fill_and_replace.
  destruct (write_all _ _ _ _) as [s1 d1] eqn:E1.
  destruct (step_write_all _ _ _ _ _ _ _ Hv Hl E1) as [H1 L1].
  destruct s1; cbn [negb]; [|by intros [= <- <-]]. destruct (L1 eq_refl) as [b Hb].
  destruct (sys_fsync T d1) as [s2 d2] eqn:E2.
  destruct (step_fsync _ _ _ _ _ (so_versions _ _ _ _ _ _ H1) Hb E2) as [H2 L2].
  pose proof (step_trans _ _ _ H1 H2) as H12.
  destruct s2; cbn [negb]; [|by intros [= <- <-]]. destruct (L2 eq_refl) as [Hl2 Hv2].
  destruct (succeeds d2) as [s3 d3] eqn:E3.
  destruct (step_succeeds _ _ _ (so_versions _ _ _ _ _ _ H12) E3) as (H3 & L3 & V3).
  pose proof (step_trans _ _ _ H12 H3) as H13.
  destruct s3; cbn [negb]; [|by intros [= <- <-]]. intros Hr.
  destruct (step_rename_durable d3 ok d') as [H4 L4]; try done.
  - apply H13.
  - by rewrite L3.
  - by rewrite V3.
  - split; [by eapply step_trans|done].
Qed.
End durable.

Lemma append_length s t : String.length (s +:+ t) = (String.length s + String.length t)%nat.
Proof. induction s; simpl; [done|]. by f_equal. Qed.

Lemma temp_of_ne F : temp_of F ≠ F.
Proof.
  intros E. apply (f_equal String.length) in E. unfold temp_of in E.
  rewrite append_length in E. simpl in E. lia.
Qed.

(** What a crash may leave under [F]: what it could have left before, or the
    new payload, whole. *)
Definition old_or_new (d : Disk) (F : string) (payload : list Z) (c : option Content) : Prop :=
  (∃ v, v ∈ versions d ∧ v !! F = c) ∨ c = Some (Whole payload).

Lemma write_durable_spec F payload preserve d ok d' :
  write_durable_impl F payload preserve d = (ok, d') →
  step_ok (temp_of F) F payload (old_or_new d F payload) d d' ∧
  (ok = true → live d' !! F = Some (mkFile payload true) ∧
     versions d' = [flushed <$> live d']).
Proof.
  set (T := temp_of F). set (P := old_or_new d F payload).
  assert (HTF : T ≠ F) by apply temp_of_ne.
  assert (Hv : crash_ok F P d) by (apply Forall_forall; intros v Hin; left; eauto).
  assert (HP : P (Some (Whole payload))) by by right.
  unfold write_durable_impl. fold T. destruct (sys_open_trunc T d) as [s1 d1] eqn:E1.
  destruct (step_open T F HTF payload P d s1 d1 Hv E1) as [H1 L1].
  destruct s1; cbn [negb]; [|by intros [= <- <-]].
  assert (Hmeta : ∃ s2 d2, (if preserve then copy_metadata F T d1 else (true, d1)) = (s2, d2) ∧
    step_ok T F payload P d1 d2 ∧ (s2 = true → live d2 = live d1)).
  { destruct preserve.
    - destruct (copy_metadata F T d1) as [s2 d2] eqn:E2. exists s2, d2. split; [done|].
      by apply step_copy_metadata; [|apply H1|].
    - exists true, d1. split; [done|]. split; [|done]. apply step_refl, H1. }
  destruct Hmeta as (s2 & d2 & -> & H2 & L2). pose proof (step_trans _ _ _ _ _ _ _ H1 H2) as H12.
  destruct s2; cbn [negb]; [|by intros [= <- <-]]. intros Hf.
  apply (step_fill_and_replace T F HTF payload P) in Hf as [H3 L3];
    [|apply H12|done|rewrite L2 by done; by apply L1].
  split; [by eapply step_trans|done].
Qed.

Lemma write_durable_ok F payload d ok d' :
  write_durable F payload d = (ok, d') →
  step_ok (temp_of F) F payload (old_or_new d F payload) d d' ∧
  (ok = true → live d' !! F = Some (mkFile payload true) ∧
     versions d' = [flushed <$> live d']).
Proof. apply (write_durable_spec F payload false). Qed.

(** ** The loop terminates and a write without failures succeeds *)

(** Every call that is left succeeds. *)
Definition willing (n : nat) (d : Disk) : Prop :=
  Forall (λ r, 0 < r) (oracle d) ∧ (n <= length (oracle d))%nat.

Lemma willing_succeeds n d :
  willing (S n) d → ∃ d', succeeds d = (true, d') ∧ willing n d' ∧ live d' = live d.
Proof.
  intros [Hp Hn]. unfold succeeds, outcome. destruct (oracle d) as [|r rs] eqn:E; [simpl in Hn; lia|].
  inversion Hp as [|? ? Hr Hp']; subst. exists (d <| oracle := rs |>).
  rewrite (proj2 (Z.ltb_lt _ _) Hr). split; [done|]. split; [|done].
  split; [done|]. cbn. simpl in Hn. lia.
Qed.

Lemma willing_write_all fuel T rest n d :
  (length rest < fuel)%nat → willing (length rest + n) d → is_Some (live d !! T) →
  ∃ d', write_all fuel T rest d = (true, d') ∧ willing n d' ∧ is_Some (live d' !! T).
Proof.
  revert rest d. induction fuel as [|fuel IH]; intros [|x rest] d Hf Hw Hl; simpl in Hf;
    try lia; cbn [write_all].
  1: by eexists.
  destruct Hw as [Hp Hn]. unfold sys_write, outcome.
  destruct (oracle d) as [|r rs] eqn:E; [simpl in Hn; lia|].
  inversion Hp as [|? ? Hr Hp']; subst. destruct (Z.leb_spec r 0); [lia|]. cbv zeta.
  apply IH.
  - rewrite length_drop. simpl. lia.
  - split; cbn; [done|]. rewrite length_drop. simpl in *. lia.
  - cbn. rewrite lookup_insert_eq. eauto.
Qed.

Lemma willing_write_durable F payload d :
  willing (length payload + 7) d → (write_durable F payload d).1 = true.
Proof.
  intros Hw. unfold write_durable, write_durable_impl, sys_open_trunc.
  destruct (willing_succeeds (length payload + 6) d) as (d1 & -> & H1 & _).
  { by replace (S (length payload + 6)) with (length payload + 7)%nat by lia. }
  cbn [negb]. unfold fill_and_replace. set (d1' := observe _).
  destruct (willing_write_all (S (length payload)) (temp_of F) payload 6 d1')
    as (d2 & -> & H2 & Hl2); [lia|exact H1|unfold d1'; cbn; rewrite lookup_insert_eq; eauto|].
  cbn [negb]. unfold sys_fsync. destruct (willing_succeeds _ _ H2) as (d3 & -> & H3 & E3).
  rewrite E3. destruct Hl2 as [f Hf]. rewrite Hf. cbn [negb].
  set (d3' := observe _). destruct (willing_succeeds 4 d3' H3) as (d4 & -> & H4 & E4). cbn [negb].
  unfold rename_durable, sys_rename. destruct (willing_succeeds _ _ H4) as (d5 & -> & H5 & E5).
  rewrite bool_decide_eq_true_2; cbn [andb negb].
  2:{ rewrite E5, E4. unfold d3'. cbn. rewrite lookup_insert_eq. eauto. }
  set (d5' := observe _). unfold sys_fsync_dir.
  destruct (willing_succeeds 2 d5' H5) as (d6 & -> & H6 & _).
  by destruct (willing_succeeds _ _ H6) as (d7 & -> & _).
Qed.

(** ** Restarts *)

(** The machine after a crash that left [ver]: whole files are there, and what
    a torn file holds is left open. *)
Record reboots (ver : gmap string Content) (d : Disk) : Prop := mkReboots {
  rb_whole : ∀ path bytes, ver !! path = Some (Whole bytes) → live d !! path = Some (mkFile bytes true);
  rb_absent : ∀ path, ver !! path = None → live d !! path = None;
  rb_versions : versions d = [flushed <$> live d];
}.

(** What a crash during or after a call from [d] to [d'] can leave. *)
Definition crash_point (d d' : Disk) (ver : gmap string Content) : Prop :=
  ver ∈ versions d' ∨ ∃ recent vs, trace d' = recent ++ trace d ∧ vs ∈ recent ∧ ver ∈ vs.

Lemma crash_same d ver : crash_point d d ver → ver ∈ versions d.
Proof.
  intros [|(recent & vs & Er & Hvs & _)]; [done|]. apply (f_equal length) in Er. rewrite length_app in Er.
  destruct recent; [by apply not_elem_of_nil in Hvs|]. cbn in Er. lia.
Qed.

Lemma reboots_flushed m o t : reboots (flushed <$> m) (mkDisk m [flushed <$> m] o t).
Proof.
  split; [| |done].
  - intros path bytes. rewrite lookup_fmap. cbn [live]. destruct (m !! path) as [[bs []]|]; cbn; [|done..].
    by intros [= ->].
  - intros path. rewrite lookup_fmap. cbn [live]. by destruct (m !! path).
Qed.

(** *** What every crash keeps of a file *)

(** Whatever a crash at any point from [d] to [d'] leaves under [F] has [P]. *)
Record crash_keeps (F : string) (P : option Content → Prop) (d d' : Disk) : Prop := mkCrashKeeps {
  ck_versions : Forall (λ v, P (v !! F)) (versions d');
  ck_trace : ∃ new, trace d' = new ++ trace d ∧ Forall (Forall (λ v, P (v !! F))) new;
}.

Section keeping.
Context (F : string) (P : option Content → Prop).

Lemma crash_keeps_same d d' :
  Forall (λ v, P (v !! F)) (versions d) → versions d' = versions d → trace d' = trace d → crash_keeps F P d d'.
Proof. intros Hv Ev Et. split; [by rewrite Ev|]. exists []. rewrite Et. by split; [|constructor]. Qed.

Lemma crash_keeps_trans d1 d2 d3 : crash_keeps F P d1 d2 → crash_keeps F P d2 d3 → crash_keeps F P d1 d3.
Proof.
  intros [_ (n1 & E1 & N1)] [V2 (n2 & E2 & N2)]. split; [done|]. exists (n2 ++ n1).
  split; [by rewrite E2, E1, app_assoc|by apply Forall_app].
Qed.

Lemma crash_keeps_point d d' ver : crash_keeps F P d d' → crash_point d d' ver → P (ver !! F).
Proof.
  intros [Hv (new & En & Hn)] [Hin|(recent & vs & Er & Hvs & Hin)].
  - rewrite Forall_forall in Hv. by apply Hv.
  - rewrite En in Er. apply app_inv_tail in Er as <-. rewrite Forall_forall in Hn.
    specialize (Hn _ Hvs). rewrite Forall_forall in Hn. by apply Hn.
Qed.

(** A write keeps what holds of the old content and of the new one; one that
    reports success leaves only the new one. *)
Lemma write_durable_keeps payload d ok d' :
  Forall (λ v, P (v !! F)) (versions d) → P (Some (Whole payload)) → write_durable F payload d = (ok, d') →
  crash_keeps F P d d' ∧ (ok = true → ∀ v, v ∈ versions d' → v !! F = Some (Whole payload)).
Proof.
  intros Hv Hp [Hs Hok]%write_durable_ok.
  assert (Hold : ∀ content, old_or_new d F payload content → P content).
  { intros content [(v & Hin & <-)| ->]; [|done]. rewrite Forall_forall in Hv. by apply Hv. }
  split.
  - split; [eapply Forall_impl; [exact (so_versions _ _ _ _ _ _ Hs)|]; intros v; apply Hold|].
    destruct (so_trace _ _ _ _ _ _ Hs) as (new & En & Hn). exists new. split; [done|].
    eapply Forall_impl; [exact Hn|]. intros vs Hvs. eapply Forall_impl; [exact Hvs|]. intros v. apply Hold.
  - intros Hyes v. destruct (Hok Hyes) as [El ->]. intros ->%list_elem_of_singleton.
    rewrite lookup_fmap, El. done.
Qed.
End keeping.
