(* ===== verification/Json.v ===== *)
(** * JSON documents and base64 text

    The stores keep their records as JSON with base64 fields. The document
    type is nlohmann's: an object is a map from keys to values. nlohmann's
    [dump] and [parse] and libsodium's base64 are not the program's code: they
    are parameters ([TextCodec]), and what the stores rely on is their
    documented round trip ([TextCodecLaws]). The readers of
    [Consensus/HotStuffState.cpp] and [ConsensusStore.cpp] are modelled here,
    with [to_base64] and [from_base64] of [Crypto/CryptoTypes.cpp]. *)

From S2P Require Import Prelude SecurityPolicy CanonicalEncoding ConsensusTypes.

(** ** Documents *)

Inductive json :=
  | JNull
  | JBoolean (b : bool)
  | JNegative (z : Z)
  | JUnsigned (z : Z)
  | JFloat (text : string)
  | JString (s : string)
  | JBinary (bytes : list Z)
  | JArray (items : list json)
  | JObject (fields : gmap string json).

(** [json{{key, value}, ...}] *)
Definition object (fields : list (string * json)) : json := JObject (list_to_map fields).

(** The documents a store writes: numbers of 64 bits, ASCII text. *)
Definition ascii_text (s : string) : Prop := Forall (λ b, b < 128) (string_bytes s).

Inductive json_fits : json → Prop :=
  | fits_unsigned z : is_u64 z → json_fits (JUnsigned z)
  | fits_string s : ascii_text s → json_fits (JString s)
  | fits_array items : (∀ item, item ∈ items → json_fits item) → json_fits (JArray items)
  | fits_object fields :
      (∀ k v, fields !! k = Some v → ascii_text k) →
      (∀ k v, fields !! k = Some v → json_fits v) → json_fits (JObject fields).

Inductive Base64Variant := VariantOriginal | VariantUrlsafeNoPadding.

Class TextCodec := {
  sodium_bin2base64 : list Z → string;
  sodium_base642bin : Base64Variant → string → option (list Z);
  json_dump : json → list Z;
  json_parse : list Z → option json;
}.

Definition is_byte (b : Z) : Prop := 0 <= b < 256.

Class TextCodecLaws `{TextCodec} := {
  base64_round_trip : ∀ bytes, Forall is_byte bytes →
    sodium_base642bin VariantOriginal (sodium_bin2base64 bytes) = Some bytes;
  base64_ascii : ∀ bytes, Forall is_byte bytes → ascii_text (sodium_bin2base64 bytes);
  json_round_trip : ∀ j, json_fits j → json_parse (json_dump j) = Some j;
}.

(** What the code relies on of SHA-256: 32 bytes of output. *)
Class SodiumLaws `{Sodium} := {
  sha256_digest : ∀ bytes, is_digest (crypto_hash_sha256 bytes);
}.

Definition be_value (bs : list Z) : Z := le_value (reverse bs).

Section readers.
Context `{TextCodec}.

Definition to_base64 (data : list Z) : string := sodium_bin2base64 data.

(** [None]: the function throws. *)
Definition from_base64 (encoded : string) : option (list Z) :=
  match sodium_base642bin VariantOriginal encoded with
  | Some decoded => Some decoded
  | None => sodium_base642bin VariantUrlsafeNoPadding encoded
  end.

Definition has_unknown_key (fields : gmap string json) (expected : list string) : bool :=
  existsb (λ kv, negb (existsb (String.eqb kv.1) expected)) (map_to_list fields).

Definition read_u64 (fields : gmap string json) (key : string) : option Z :=
  match fields !! key with Some (JUnsigned z) => Some z | _ => None end.

Definition read_u16 (fields : gmap string json) (key : string) : option Z :=
  value ← read_u64 fields key; if 65535 <? value then None else Some value.

Definition read_u32 (fields : gmap string json) (key : string) : option Z :=
  value ← read_u64 fields key; if 4294967295 <? value then None else Some value.

(** An array of [n] bytes, as its big-endian number. *)
Definition read_b64 (n : nat) (fields : gmap string json) (key : string) : option Z :=
  match fields !! key with
  | Some (JString s) =>
      decoded ← from_base64 s;
      if bool_decide (length decoded = n) then Some (be_value decoded) else None
  | _ => None
  end.

Definition b64 (n : nat) (v : Z) : json := JString (to_base64 (be_bytes n v)).
End readers.

(** ** Lemmas *)

Lemma be_value_bytes n v : 0 <= v < 256 ^ Z.of_nat n → be_value (be_bytes n v) = v.
Proof.
  intros Hv. unfold be_value, be_bytes. rewrite reverse_involutive, le_value_bytes.
  by apply Z.mod_small.
Qed.

Lemma be_bytes_are_bytes n v : Forall is_byte (be_bytes n v).
Proof.
  unfold be_bytes. apply Forall_reverse, Forall_forall. intros b. apply le_bytes_byte.
Qed.

(** Lookup in a literal object, by computation on the keys. *)
Fixpoint assoc (key : string) (fields : list (string * json)) : option json :=
  match fields with
  | [] => None
  | (k, v) :: rest => if String.eqb key k then Some v else assoc key rest
  end.

Lemma lookup_fields key fields :
  (list_to_map fields : gmap string json) !! key = assoc key fields.
Proof.
  induction fields as [|[k v] fields IH]; simpl; [done|].
  rewrite lookup_insert. destruct (String.eqb_spec key k) as [->|Hne].
  - by rewrite decide_True.
  - by rewrite decide_False by congruence.
Qed.

Lemma no_unknown_key fields expected :
  forallb (λ kv, existsb (String.eqb kv.1) expected) fields = true →
  has_unknown_key (list_to_map fields) expected = false.
Proof.
  intros Hall. unfold has_unknown_key.
  destruct (existsb _ _) eqn:E; [|done].
  apply existsb_exists in E as ([k v] & Hin & Hneg).
  apply list_elem_of_In, elem_of_map_to_list, elem_of_list_to_map_2 in Hin.
  rewrite forallb_forall in Hall. specialize (Hall _ (proj1 (list_elem_of_In _ _) Hin)).
  simpl in Hneg, Hall. by rewrite Hall in Hneg.
Qed.

Lemma fits_fields fields :
  Forall (λ kv, ascii_text kv.1 ∧ json_fits kv.2) fields → json_fits (object fields).
Proof.
  intros Hf. rewrite Forall_forall in Hf.
  constructor; intros k v Hk%elem_of_list_to_map_2; apply (Hf _ Hk).
Qed.

Lemma ascii_literal s : forallb (λ b, b <? 128) (string_bytes s) = true → ascii_text s.
Proof.
  intros Hs. apply Forall_forall. intros b Hb. rewrite forallb_forall in Hs.
  apply list_elem_of_In, Hs in Hb. by bool_to_prop.
Qed.

Section reader_lemmas.
Context `{TextCodecLaws}.

Lemma fits_b64 n v : json_fits (b64 n v).
Proof. constructor. apply base64_ascii, be_bytes_are_bytes. Qed.

Lemma read_b64_spec n fields key v :
  fields !! key = Some (b64 n v) → 0 <= v < 256 ^ Z.of_nat n → read_b64 n fields key = Some v.
Proof.
  intros E Hv. unfold read_b64. rewrite E. unfold b64, from_base64, to_base64.
  rewrite base64_round_trip by apply be_bytes_are_bytes. simpl.
  rewrite bool_decide_eq_true_2 by apply length_be_bytes. by rewrite be_value_bytes.
Qed.

Lemma read_u64_spec fields key v :
  fields !! key = Some (JUnsigned v) → read_u64 fields key = Some v.
Proof. intros E. unfold read_u64. by rewrite E. Qed.

Lemma read_u16_spec fields key v :
  fields !! key = Some (JUnsigned v) → is_u16 v → read_u16 fields key = Some v.
Proof.
  intros E Hv. unfold read_u16. rewrite (read_u64_spec _ _ _ E). simpl.
  unfold is_u16, two16 in Hv. destruct (Z.ltb_spec 65535 v); [lia|done].
Qed.

Lemma read_u32_spec fields key v :
  fields !! key = Some (JUnsigned v) → is_u32 v → read_u32 fields key = Some v.
Proof.
  intros E Hv. unfold read_u32. rewrite (read_u64_spec _ _ _ E). simpl.
  unfold is_u32, two32 in Hv. destruct (Z.ltb_spec 4294967295 v); [lia|done].
Qed.
End reader_lemmas.

(** One field of a literal object at a time. *)
Ltac read_field :=
  first
  [ erewrite read_b64_spec; [|by rewrite lookup_fields|done]
  | erewrite read_u16_spec; [|by rewrite lookup_fields|done]
  | erewrite read_u32_spec; [|by rewrite lookup_fields|done]
  | erewrite read_u64_spec; [|by rewrite lookup_fields] ];
  cbn [mbind option_bind].

Ltac fits_literal :=
  apply fits_fields; repeat (apply Forall_cons; split; [split; [by apply ascii_literal|]|]);
  [..|by apply Forall_nil].
