(* ===== verification/EligibilityStore.v ===== *)
(** * The durable eligibility records

    Models [Eligibility/EligibilityStore.cpp]: the observation file of an epoch
    and the fault file, as the interface the service uses
    ([IEligibilityStore] with its laws) and as its implementation on the disk of
    DurableWrite. libsodium's hex conversion is a parameter with its documented
    round trip. [std::ifstream] fails to open exactly when the file is not
    there; [std::stoull] is modelled on the characters it reads. *)

From S2P Require Import Prelude SecurityPolicy CanonicalEncoding Selection PlatformClaims.
From S2P Require Import DurableWrite Json EligibilityLedger EligibilityFacts.

(** ** The interface *)

Inductive EligibilityLoadResult := ElAbsent | ElCorrupt.

Notation FaultMap := (gmap Z (gset ObjectiveFault)).

(** [load] restores into the ledger it is given; [None] is success. *)
Class IEligibilityStore (St : Type) := {
  el_store : EpochId → list PersistedRecord → St → bool * St;
  el_load : EpochId → MeshFactContext → EligibilityLedger → St →
            option EligibilityLoadResult * EligibilityLedger;
  el_discard_before : EpochId → St → St;
  el_store_faults : FaultMap → St → bool * St;
  el_load_faults : St → FaultMap + EligibilityLoadResult;
}.

(** What the service relies on: a successful write is what the next read gives,
    and the two files are independent. *)
Class EligibilityStoreLaws (St : Type) `{IEligibilityStore St, Sodium}
    (storable : EpochId → list PersistedRecord → Prop) (storable_faults : FaultMap → Prop) := {
  el_store_load : ∀ e records s s' context l, storable e records →
    el_store e records s = (true, s') →
    el_load e context l s' =
      (if (restore records context l).1 then None else Some ElCorrupt,
       (restore records context l).2);
  el_store_keeps_faults : ∀ e records s, el_load_faults (el_store e records s).2 = el_load_faults s;
  el_store_faults_load : ∀ faults s s', storable_faults faults →
    el_store_faults faults s = (true, s') → el_load_faults s' = inl faults;
  el_store_faults_failed : ∀ faults s s', storable_faults faults →
    el_store_faults faults s = (false, s') →
    el_load_faults s' = el_load_faults s ∨ el_load_faults s' = inl faults;
  el_store_faults_keeps : ∀ faults s e context l,
    el_load e context l (el_store_faults faults s).2 = el_load e context l s;
  el_load_sound : ∀ e context l s, ledger_ok context l →
    ledger_ok context (el_load e context l s).2 ∧ faults_ (el_load e context l s).2 = faults_ l;
  el_load_faults_sound : ∀ s faults, el_load_faults s = inl faults → storable_faults faults;
  el_discard_keeps_faults : ∀ e s, el_load_faults (el_discard_before e s) = el_load_faults s;
  el_storable_none : storable_faults ∅;
  el_storable_add : ∀ faults n fault, storable_faults faults → is_digest n →
    storable_faults (<[ n := {[ fault ]} ∪ default ∅ (faults !! n) ]> faults);
}.

(** ** Hex text *)

Class HexCodec := {
  sodium_bin2hex : list Z → string;
  sodium_hex2bin : nat → string → option (list Z);
}.

Class HexCodecLaws `{HexCodec} := {
  hex_round_trip : ∀ bytes, Forall is_byte bytes →
    sodium_hex2bin (String.length (sodium_bin2hex bytes) / 2) (sodium_bin2hex bytes) = Some bytes;
  hex_ascii : ∀ bytes, Forall is_byte bytes → ascii_text (sodium_bin2hex bytes);
  hex_bytes : ∀ n s bytes, sodium_hex2bin n s = Some bytes → Forall is_byte bytes;
}.

Definition kEligibilityFormatVersion : Z := 1.
Definition kMaxStoredRecords : Z := 65536.

Section codec.
Context `{HexCodec}.

Definition to_hex (bytes : list Z) : string := sodium_bin2hex bytes.

(** [None]: the function throws. *)
Definition from_hex (hex : string) : option (list Z) :=
  sodium_hex2bin (String.length hex / 2) hex.

Definition hex_of (n : nat) (v : Z) : json := JString (to_hex (be_bytes n v)).

Definition read_hex_value (n : nat) (value : json) : option Z :=
  match value with
  | JString s =>
      bytes ← from_hex s; if bool_decide (length bytes = n) then Some (be_value bytes) else None
  | _ => None
  end.

Definition read_hex (n : nat) (fields : gmap string json) (key : string) : option Z :=
  fields !! key ≫= read_hex_value n.

(** ** Records *)

Definition encode_record (record : PersistedRecord) : json :=
  let o := ps_latest record in
  object [("network_id", hex_of 32 (ob_network_id o));
          ("epoch", JUnsigned (ob_epoch o));
          ("subject", hex_of 32 (ob_subject o));
          ("subject_incarnation", JUnsigned (ob_subject_incarnation o));
          ("kind", JUnsigned (kind_value (ob_kind o)));
          ("attestation_digest", hex_of 32 (ob_attestation_digest o));
          ("profile_id", JUnsigned (profile_id (ob_claims o)));
          ("profile_ruleset", JUnsigned (profile_ruleset (ob_claims o)));
          ("claim_bits", JUnsigned (platform_claim_bits (ob_claims o)));
          ("height", JUnsigned (ob_height o));
          ("state_reference", hex_of 32 (ob_state_reference o));
          ("observer", hex_of 32 (ob_observer o));
          ("signature", hex_of 64 (ob_signature o));
          ("incarnation", JUnsigned (ps_incarnation record));
          ("attestations", JArray (hex_of 32 <$> ps_attestations record))].

Definition decode_claims (fields : gmap string json) : option VerifiedPlatformClaims :=
  id ← read_u64 fields "profile_id";
  ruleset ← read_u64 fields "profile_ruleset";
  bits ← read_u64 fields "claim_bits";
  if (65535 <? id) || (65535 <? ruleset) ||
     negb (Z.land bits (Z.lxor (two64 - 1) kPlatformClaimBitMask) =? 0) ||
     (negb (id =? ProfileUnknown) && negb (is_known_attestation_profile_id id))
  then None
  else Some (platform_claims_from_bits id ruleset bits).

Definition decode_record (j : json) : option PersistedRecord :=
  match j with
  | JObject fields =>
      network ← read_hex 32 fields "network_id";
      epoch ← read_u64 fields "epoch";
      subject ← read_hex 32 fields "subject";
      subject_incarnation ← read_u64 fields "subject_incarnation";
      kind ← read_u64 fields "kind";
      attestation ← read_hex 32 fields "attestation_digest";
      height ← read_u64 fields "height";
      state_reference ← read_hex 32 fields "state_reference";
      observer ← read_hex 32 fields "observer";
      signature ← read_hex 64 fields "signature";
      incarnation ← read_u64 fields "incarnation";
      if kind_value Participation <? kind then None
      else
        claims ← decode_claims fields;
        match fields !! "attestations" with
        | Some (JArray items) =>
            if kMaxContinuityAttestations <? Z.of_nat (length items) then None
            else
              attestations ← mapM (read_hex_value 32) items;
              Some (mkPersisted
                (mkObservation network epoch subject subject_incarnation (kind_of_value kind)
                   attestation claims height state_reference observer signature)
                attestations incarnation)
        | _ => None
        end
  | _ => None
  end.

Definition observations_document (epoch : EpochId) (records : list PersistedRecord) : json :=
  object [("format", JUnsigned kEligibilityFormatVersion); ("epoch", JUnsigned epoch);
          ("records", JArray (encode_record <$> records))].

(** [get<uint32_t>] keeps the low 32 bits. *)
Definition has_format (fields : gmap string json) : bool :=
  match read_u64 fields "format" with
  | Some format => format mod two32 =? kEligibilityFormatVersion
  | None => false
  end.

(** [None]: the document is refused. *)
Definition read_observations (epoch : EpochId) (document : option json)
    : option (list PersistedRecord) :=
  match document with
  | Some (JObject fields) =>
      match fields !! "records" with
      | Some (JArray items) =>
          if negb (has_format fields) then None
          else if negb (bool_decide (read_u64 fields "epoch" = Some epoch)) then None
          else if kMaxStoredRecords <? Z.of_nat (length items) then None
          else mapM decode_record items
      | _ => None
      end
  | _ => None
  end.

(** ** Faults *)

(** The kinds of a node, in their order. *)
Definition fault_values (kinds : gset ObjectiveFault) : list Z :=
  merge_sort Z.le (fault_value <$> elements kinds).

Definition fault_entry (entry : Z * gset ObjectiveFault) : json :=
  object [("node", hex_of 32 entry.1);
          ("faults", JArray (JUnsigned <$> fault_values entry.2))].

Definition faults_document (faults : FaultMap) : json :=
  object [("format", JUnsigned kEligibilityFormatVersion);
          ("faults", JArray (fault_entry <$> in_order faults))].

Definition read_fault (value : json) : option ObjectiveFault :=
  match value with
  | JUnsigned raw => if fault_value InvalidConsensusBehavior <? raw then None
                     else Some (fault_of_value raw)
  | _ => None
  end.

Definition read_fault_entry (entry : json) : option (Z * gset ObjectiveFault) :=
  match entry with
  | JObject fields =>
      node ← read_hex 32 fields "node";
      match fields !! "faults" with
      | Some (JArray items) =>
          kinds ← mapM read_fault items;
          if bool_decide ((list_to_set kinds : gset ObjectiveFault) = ∅) then None
          else Some (node, list_to_set kinds)
      | _ => None
      end
  | _ => None
  end.

(** [emplace] refuses a node that is there. *)
Fixpoint read_fault_entries (items : list json) (faults : FaultMap) : option FaultMap :=
  match items with
  | [] => Some faults
  | item :: rest =>
      '(node, kinds) ← read_fault_entry item;
      if bool_decide (is_Some (faults !! node)) then None
      else read_fault_entries rest (<[ node := kinds ]> faults)
  end.

Definition read_faults (document : option json) : option FaultMap :=
  match document with
  | Some (JObject fields) =>
      if negb (has_format fields) then None
      else match fields !! "faults" with
      | Some (JArray items) =>
          if kMaxStoredRecords <? Z.of_nat (length items) then None
          else read_fault_entries items ∅
      | _ => None
      end
  | _ => None
  end.
End codec.

(** ** The files *)

Definition is_digit (c : Ascii.ascii) : bool :=
  let n := Ascii.nat_of_ascii c in (48 <=? n)%nat && (n <=? 57)%nat.
Definition digit_of (c : Ascii.ascii) : Z := Z.of_nat (Ascii.nat_of_ascii c) - 48.

(** [isspace] in the C locale: blank, tab, newline, vertical tab, form feed,
    return. *)
Definition is_space (c : Ascii.ascii) : bool :=
  let n := Ascii.nat_of_ascii c in (n =? 32)%nat || ((9 <=? n)%nat && (n <=? 13)%nat).

Fixpoint skip_spaces (s : string) : string :=
  match s with String c rest => if is_space c then skip_spaces rest else s | EmptyString => s end.

(** The digits at the front, as a number; [None] when there are none. *)
Fixpoint read_digits (s : string) (acc : option Z) : option Z :=
  match s with
  | String c rest =>
      if is_digit c then read_digits rest (Some (default 0 acc * 10 + digit_of c)) else acc
  | EmptyString => acc
  end.

(** [std::stoull]: white space, a sign, digits; what follows is ignored, a
    negative number wraps; [None]: it throws. *)
Definition stoull (s : string) : option Z :=
  let s := skip_spaces s in
  let '(negative, digits) := match s with
    | String c rest => if (Ascii.nat_of_ascii c =? 45)%nat then (true, rest)
                       else if (Ascii.nat_of_ascii c =? 43)%nat then (false, rest) else (false, s)
    | EmptyString => (false, s)
    end in
  value ← read_digits digits None;
  if two64 <=? value then None
  else Some (if negative : bool then (- value) mod two64 else value).

Section store.
Context `{HexCodec, TextCodec, Sodium} (directory_ : string).

Definition path_for (epoch : EpochId) : string :=
  directory_ +:+ "/observations-" +:+ pretty epoch +:+ ".json".
Definition faults_path : string := directory_ +:+ "/faults.json".

(** [create_directories], then the write. *)
Definition write_atomic (path : string) (content : list Z) (d : Disk) : bool * Disk :=
  let '(ok, d) := succeeds d in
  if negb ok then (false, d) else write_durable path content d.

Definition file_store_observations (epoch : EpochId) (records : list PersistedRecord) (d : Disk)
    : bool * Disk :=
  if kMaxStoredRecords <? Z.of_nat (length records) then (false, d)
  else write_atomic (path_for epoch) (json_dump (observations_document epoch records)) d.

Definition file_load (epoch : EpochId) (context : MeshFactContext) (ledger : EligibilityLedger)
    (d : Disk) : option EligibilityLoadResult * EligibilityLedger :=
  match read_file (path_for epoch) d with
  | None => (Some ElAbsent, ledger)
  | Some text =>
      match read_observations epoch (json_parse text) with
      | None => (Some ElCorrupt, ledger)
      | Some records =>
          let '(ok, ledger) := restore records context ledger in
          (if ok : bool then None else Some ElCorrupt, ledger)
      end
  end.

Definition file_store_faults (faults : FaultMap) (d : Disk) : bool * Disk :=
  if kMaxStoredRecords <? Z.of_nat (size faults) then (false, d)
  else write_atomic faults_path (json_dump (faults_document faults)) d.

Definition file_load_faults (d : Disk) : FaultMap + EligibilityLoadResult :=
  match read_file faults_path d with
  | None => inr ElAbsent
  | Some text =>
      match read_faults (json_parse text) with
      | None => inr ElCorrupt
      | Some faults => inl faults
      end
  end.

Fixpoint has_slash (s : string) : bool :=
  match s with
  | String c rest => (Ascii.nat_of_ascii c =? 47)%nat || has_slash rest
  | EmptyString => false
  end.

(** The number in the name of an observation file of this directory. *)
Definition observation_number (path : string) : option Z :=
  name ← (if String.prefix (directory_ +:+ "/") path
          then Some (String.substring (String.length directory_ + 1) (String.length path) path) else None);
  let prefix := "observations-" in
  let n := String.length name in
  if negb (has_slash name) && String.prefix prefix name && (18 <=? n)%nat &&
     String.eqb (String.substring (n - 5) 5 name) ".json"
  then stoull (String.substring 13 (n - 18) name) else None.

(** The directory is read in an unspecified order; a failed removal is ignored. *)
Definition file_discard_before (epoch : EpochId) (d : Disk) : Disk :=
  foldl (λ d path,
    match observation_number path with
    | Some number => if number <? epoch then sys_remove path d else d
    | None => d
    end) d (map_to_list (live d)).*1.

#[export] Instance file_eligibility_store : IEligibilityStore Disk := {|
  el_store := file_store_observations;
  el_load := file_load;
  el_discard_before := file_discard_before;
  el_store_faults := file_store_faults;
  el_load_faults := file_load_faults |}.
End store.

Lemma write_atomic_keeps path (P : option Content → Prop) content d ok d' :
  Forall (λ v, P (v !! path)) (versions d) → P (Some (Whole content)) → write_atomic path content d = (ok, d') →
  crash_keeps path P d d' ∧ (ok = true → ∀ v, v ∈ versions d' → v !! path = Some (Whole content)).
Proof.
  intros Hv Hp. unfold write_atomic. destruct (succeeds d) as [b d1] eqn:E1.
  apply succeeds_frame in E1 as (_ & Ev & Et). pose proof (crash_keeps_same path P d d1 Hv Ev Et) as H1.
  destruct b; cbn [negb]; [|by intros [= <- <-]]. rewrite <-Ev in Hv.
  intros [H2 Hok]%(write_durable_keeps path P); [|done..]. split; [by eapply crash_keeps_trans|done].
Qed.

(** ** Round trips *)

(** The observations a store can keep: every field fits its type, the profile is
    one this binary names. *)
Record storable_record (p : PersistedRecord) : Prop := mkStorable {
  sr_network : is_digest (ob_network_id (ps_latest p));
  sr_epoch : is_u64 (ob_epoch (ps_latest p));
  sr_subject : is_digest (ob_subject (ps_latest p));
  sr_subject_incarnation : is_u64 (ob_subject_incarnation (ps_latest p));
  sr_attestation : is_digest (ob_attestation_digest (ps_latest p));
  sr_profile : profile_id (ob_claims (ps_latest p)) = ProfileUnknown ∨
    is_known_attestation_profile_id (profile_id (ob_claims (ps_latest p))) = true;
  sr_ruleset : is_u16 (profile_ruleset (ob_claims (ps_latest p)));
  sr_height : is_u64 (ob_height (ps_latest p));
  sr_state : is_digest (ob_state_reference (ps_latest p));
  sr_observer : is_digest (ob_observer (ps_latest p));
  sr_signature : is_signature (ob_signature (ps_latest p));
  sr_incarnation : is_u64 (ps_incarnation p);
  sr_attestations : Forall is_digest (ps_attestations p);
  sr_count : Z.of_nat (length (ps_attestations p)) <= kMaxContinuityAttestations;
}.

Lemma claim_bits_outside c :
  Z.land (platform_claim_bits c) (Z.lxor (two64 - 1) kPlatformClaimBitMask) = 0.
Proof.
  pose proof (claim_bits_range c) as Hb. unfold kPlatformClaimBitMask in *.
  set (b := platform_claim_bits c) in *. clearbody b. apply Z.bits_inj'. intros i Hi.
  rewrite Z.land_spec, Z.lxor_spec, Z.bits_0.
  change (two64 - 1) with (Z.ones 64). change 16383 with (Z.ones 14).
  destruct (Z.lt_ge_cases i 14).
  - rewrite !Z.ones_spec_low by lia. by rewrite andb_false_r.
  - destruct (decide (b = 0)) as [->|]; [by rewrite Z.bits_0|].
    rewrite Z.bits_above_log2; [done|lia|].
    assert (Z.log2 b <= Z.log2 16383) by (apply Z.log2_le_mono; lia).
    change (Z.log2 16383) with 13 in *. lia.
Qed.

Section round_trips.
Context `{HexCodecLaws, TextCodecLaws, Sodium}.

Lemma fits_hex n v : json_fits (hex_of n v).
Proof. constructor. apply hex_ascii, be_bytes_are_bytes. Qed.

Lemma read_hex_value_of n v : 0 <= v < 256 ^ Z.of_nat n → read_hex_value n (hex_of n v) = Some v.
Proof.
  intros Hv. unfold read_hex_value, hex_of, from_hex, to_hex.
  rewrite hex_round_trip by apply be_bytes_are_bytes. cbn [mbind option_bind].
  rewrite bool_decide_eq_true_2 by apply length_be_bytes. by rewrite be_value_bytes.
Qed.

Lemma read_hex_spec n fields key v :
  fields !! key = Some (hex_of n v) → 0 <= v < 256 ^ Z.of_nat n → read_hex n fields key = Some v.
Proof. intros E Hv. unfold read_hex. rewrite E. by apply read_hex_value_of. Qed.

Lemma mapM_hex l : Forall is_digest l → mapM (read_hex_value 32) (hex_of 32 <$> l) = Some l.
Proof.
  intros Hl. apply mapM_Some. apply Forall2_fmap_l, Forall_Forall2_diag.
  eapply Forall_impl; [exact Hl|]. intros v Hv. by apply read_hex_value_of.
Qed.

Ltac hex_field :=
  first
  [ erewrite read_hex_spec; [|by rewrite lookup_fields|done]
  | erewrite read_u64_spec; [|by rewrite lookup_fields] ]; cbn [mbind option_bind].

Lemma known_profile_range id :
  id = ProfileUnknown ∨ is_known_attestation_profile_id id = true → 0 <= id <= 4.
Proof.
  unfold is_known_attestation_profile_id, ProfileUnknown, AzureSnpVtpm, SnpSvsmVtpm, SnpDirectBoot,
    Tdx. intros [-> | Hid]; [lia|]. rewrite !orb_true_iff, !Z.eqb_eq in Hid. lia.
Qed.

Lemma decode_claims_of fields c :
  fields !! "profile_id" = Some (JUnsigned (profile_id c)) →
  fields !! "profile_ruleset" = Some (JUnsigned (profile_ruleset c)) →
  fields !! "claim_bits" = Some (JUnsigned (platform_claim_bits c)) →
  profile_id c = ProfileUnknown ∨ is_known_attestation_profile_id (profile_id c) = true →
  is_u16 (profile_ruleset c) → decode_claims fields = Some c.
Proof.
  intros E1 E2 E3 Hid Hr. unfold decode_claims.
  rewrite (read_u64_spec _ _ _ E1), (read_u64_spec _ _ _ E2), (read_u64_spec _ _ _ E3).
  cbn [mbind option_bind]. rewrite claim_bits_outside, claims_bits_round_trip.
  unfold is_u16, two16 in Hr. rewrite (proj2 (Z.ltb_ge 65535 (profile_ruleset c))) by lia.
  assert (Hid' : (65535 <? profile_id c) = false)
    by (apply Z.ltb_ge; pose proof (known_profile_range _ Hid); lia).
  rewrite Hid'. cbn [orb]. destruct Hid as [-> | ->]; [done|]. by rewrite andb_false_r.
Qed.

Lemma record_round_trip p : storable_record p → decode_record (encode_record p) = Some p.
Proof.
  intros [R1 R2 R3 R4 R5 R6 R7 R8 R9 R10 R11 R12 R13 R14]. unfold decode_record, encode_record, object.
  cbv zeta. do 11 hex_field.
  assert (Hk : kind_value Participation <? kind_value (ob_kind (ps_latest p)) = false)
    by by destruct (ob_kind (ps_latest p)).
  rewrite Hk. rewrite (decode_claims_of _ (ob_claims (ps_latest p))); try done;
    [|by rewrite lookup_fields..]. cbn [mbind option_bind]. rewrite lookup_fields. cbn [assoc String.eqb Ascii.eqb Bool.eqb].
  rewrite length_fmap, (proj2 (Z.ltb_ge _ _)) by done. rewrite mapM_hex by done. cbn [mbind option_bind].
  assert (Ek : kind_of_value (kind_value (ob_kind (ps_latest p))) = ob_kind (ps_latest p))
    by by destruct (ob_kind (ps_latest p)).
  rewrite Ek. destruct p as [[]]. done.
Qed.
Definition storable_observations (epoch : EpochId) (records : list PersistedRecord) : Prop :=
  is_u64 epoch ∧ Forall storable_record records.

Lemma has_format_of fields :
  fields !! "format" = Some (JUnsigned kEligibilityFormatVersion) → has_format fields = true.
Proof. intros E. unfold has_format. by rewrite (read_u64_spec _ _ _ E). Qed.

Lemma observations_round_trip epoch records :
  storable_observations epoch records → Z.of_nat (length records) <= kMaxStoredRecords →
  read_observations epoch (Some (observations_document epoch records)) = Some records.
Proof.
  intros [He Hr] Hl. unfold read_observations, observations_document, object. rewrite lookup_fields.
  cbn [assoc String.eqb Ascii.eqb Bool.eqb]. rewrite has_format_of by by rewrite lookup_fields.
  erewrite read_u64_spec by by rewrite lookup_fields. rewrite bool_decide_eq_true_2 by done. cbn [negb].
  rewrite length_fmap, (proj2 (Z.ltb_ge _ _)) by done. apply mapM_Some, Forall2_fmap_l, Forall_Forall2_diag.
  eapply Forall_impl; [exact Hr|]. intros p. apply record_round_trip.
Qed.

Lemma record_fits p : storable_record p → json_fits (encode_record p).
Proof.
  intros [R1 R2 R3 R4 R5 R6 R7 R8 R9 R10 R11 R12 R13 R14]. unfold encode_record. cbv zeta.
  pose proof (claim_bits_range (ob_claims (ps_latest p))) as Hb. unfold kPlatformClaimBitMask in Hb.
  pose proof (known_profile_range (profile_id (ob_claims (ps_latest p))) ltac:(done)) as Hid.
  unfold is_u16, two16 in *.
  fits_literal; try apply fits_hex; try (constructor; unfold is_u64, two64 in *; lia).
  - constructor. destruct (ob_kind (ps_latest p)); unfold is_u64, two64, kind_value; lia.
  - constructor. intros item (v & -> & _)%list_elem_of_fmap. apply fits_hex.
Qed.

Lemma observations_fit epoch records :
  storable_observations epoch records → json_fits (observations_document epoch records).
Proof.
  intros [He Hr]. unfold observations_document, kEligibilityFormatVersion. fits_literal.
  - constructor. unfold is_u64, two64. lia.
  - by constructor.
  - constructor. intros item (p & -> & Hp)%list_elem_of_fmap. apply record_fits.
    rewrite Forall_forall in Hr. by apply Hr.
Qed.

(** Faults of nodes that have one. *)
Definition storable_faults (faults : FaultMap) : Prop :=
  ∀ n kinds, faults !! n = Some kinds → is_digest n ∧ kinds ≠ ∅.

Lemma fault_of_value_inv f : fault_of_value (fault_value f) = f.
Proof. by destruct f. Qed.

Lemma fault_values_back kinds :
  (list_to_set (fault_of_value <$> fault_values kinds) : gset ObjectiveFault) = kinds.
Proof.
  apply set_eq. intros f. rewrite elem_of_list_to_set, list_elem_of_fmap. unfold fault_values.
  setoid_rewrite merge_sort_Permutation. split.
  - intros (v & -> & (f' & -> & Hf%elem_of_elements)%list_elem_of_fmap). by rewrite fault_of_value_inv.
  - intros Hf. exists (fault_value f). split; [by rewrite fault_of_value_inv|].
    apply list_elem_of_fmap_2. by apply elem_of_elements.
Qed.

Lemma fault_values_range kinds v : v ∈ fault_values kinds → 0 <= v <= 2.
Proof.
  unfold fault_values. rewrite merge_sort_Permutation. intros (f & -> & _)%list_elem_of_fmap.
  destruct f; cbn; lia.
Qed.

Lemma fault_entry_round_trip n kinds :
  is_digest n → kinds ≠ ∅ → read_fault_entry (fault_entry (n, kinds)) = Some (n, kinds).
Proof.
  intros Hn Hk. unfold read_fault_entry, fault_entry, object. cbn [fst snd]. hex_field.
  rewrite lookup_fields. cbn [assoc String.eqb Ascii.eqb Bool.eqb].
  assert (E : mapM read_fault (JUnsigned <$> fault_values kinds) =
    Some (fault_of_value <$> fault_values kinds)).
  { apply mapM_Some, Forall2_fmap. apply Forall_Forall2_diag, Forall_forall.
    intros v Hv%fault_values_range. cbn. destruct (Z.ltb_spec 2 v); [lia|done]. }
  rewrite E. cbn [mbind option_bind]. rewrite fault_values_back. by rewrite bool_decide_eq_false_2.
Qed.

Lemma read_fault_entries_spec (L : list (Z * gset ObjectiveFault)) acc :
  (∀ n kinds, (n, kinds) ∈ L → is_digest n ∧ kinds ≠ ∅ ∧ acc !! n = None) → NoDup L.*1 →
  read_fault_entries (fault_entry <$> L) acc = Some (list_to_map L ∪ acc).
Proof.
  revert acc. induction L as [|[n kinds] L IH]; intros acc Hok Hn; cbn [fmap list_fmap read_fault_entries].
  { cbn. by rewrite map_empty_union. }
  cbn in Hn. apply NoDup_cons in Hn as [Hin Hn]. destruct (Hok n kinds) as (Hd & Hk & Ha); [left|].
  rewrite fault_entry_round_trip by done. cbn [mbind option_bind]. rewrite Ha.
  rewrite bool_decide_eq_false_2 by (by intros [? [=]]). rewrite IH; [|intros n' k' Hx|done].
  - cbn. rewrite <-insert_union_r by (by apply not_elem_of_list_to_map_1). by rewrite insert_union_l.
  - destruct (Hok n' k') as (? & ? & ?); [by right|]. split; [done|]. split; [done|].
    rewrite lookup_insert_ne; [done|]. intros ->. apply Hin. by apply (list_elem_of_fmap_2 fst _ (n', k')).
Qed.

Lemma faults_round_trip faults :
  storable_faults faults → Z.of_nat (size faults) <= kMaxStoredRecords →
  read_faults (Some (faults_document faults)) = Some faults.
Proof.
  intros Hf Hs. unfold read_faults, faults_document, object.
  rewrite has_format_of by by rewrite lookup_fields. rewrite lookup_fields.
  cbn [negb assoc String.eqb Ascii.eqb Bool.eqb].
  rewrite length_fmap, length_in_order, (proj2 (Z.ltb_ge _ _)) by done.
  rewrite read_fault_entries_spec, map_union_empty.
  - f_equal. rewrite (list_to_map_proper _ _ (NoDup_in_order faults) (in_order_perm faults)).
    apply list_to_map_to_list.
  - intros n kinds Hin%elem_of_in_order. destruct (Hf n kinds Hin). split; [done|]. split; [done|].
    apply lookup_empty.
  - apply NoDup_in_order.
Qed.

Lemma faults_fit faults : storable_faults faults → json_fits (faults_document faults).
Proof.
  intros Hf. unfold faults_document, kEligibilityFormatVersion. fits_literal.
  - constructor. unfold is_u64, two64. lia.
  - constructor. intros item ([n kinds] & -> & _)%list_elem_of_fmap. unfold fault_entry. fits_literal.
    + apply fits_hex.
    + constructor. intros item (v & -> & Hv%fault_values_range)%list_elem_of_fmap. constructor.
      unfold is_u64, two64. lia.
Qed.
End round_trips.

(** ** The file store keeps the interface's promises *)

Section laws.
Context `{HexCodecLaws, TextCodecLaws, Sodium} (dir : string).

Lemma append_cancel (s t t' : string) : s +:+ t = s +:+ t' → t = t'.
Proof. apply String.app_inj. Qed.

Lemma append_assoc' (s t u : string) : (s +:+ t) +:+ u = s +:+ (t +:+ u).
Proof. induction s as [|a s IH]; [done|]. exact (f_equal (String a) IH). Qed.

Lemma paths_differ e suffix suffix' : path_for dir e +:+ suffix ≠ faults_path dir +:+ suffix'.
Proof.
  unfold path_for, faults_path. rewrite !append_assoc'. intros E%append_cancel. by injection E.
Qed.

Lemma paths_apart e :
  path_for dir e ≠ faults_path dir ∧ path_for dir e ≠ temp_of (faults_path dir) ∧
  faults_path dir ≠ temp_of (path_for dir e).
Proof.
  assert (Hn : ∀ s : string, s +:+ "" = s).
  { induction s as [|a s IH]; [done|]. exact (f_equal (String a) IH). }
  pose proof (paths_differ e "" "") as P1. pose proof (paths_differ e "" ".tmp") as P2.
  pose proof (paths_differ e ".tmp" "") as P3. rewrite !Hn in P1. rewrite Hn in P2, P3.
  split; [done|]. split; [done|]. intros E. by apply P3.
Qed.

Lemma be_value_range bytes : Forall is_byte bytes → 0 <= be_value bytes < 256 ^ Z.of_nat (length bytes).
Proof.
  intros Hb. unfold be_value. rewrite <-length_reverse. apply Forall_reverse in Hb.
  induction Hb as [|b bs Hb _ IH]; [vm_compute; split; [discriminate|reflexivity]|]. rewrite le_value_cons. cbn [length].
  rewrite Nat2Z.inj_succ, Z.pow_succ_r by lia. unfold is_byte in Hb. lia.
Qed.

Lemma read_hex_range n fields key v : read_hex n fields key = Some v → 0 <= v < 256 ^ Z.of_nat n.
Proof.
  unfold read_hex. destruct (fields !! key) as [j|]; [|done]. cbn. destruct j; try done.
  cbn. unfold from_hex. destruct (sodium_hex2bin _ _) as [bytes|] eqn:E; [|done]. cbn.
  case_bool_decide as Hl; [|done]. intros [= <-]. rewrite <-Hl. by apply be_value_range, (hex_bytes _ _ _ E).
Qed.

Lemma read_fault_entries_sound items acc faults :
  storable_faults acc → read_fault_entries items acc = Some faults → storable_faults faults.
Proof.
  revert acc. induction items as [|item items IH]; intros acc Ha; cbn [read_fault_entries].
  { by intros [= <-]. }
  destruct (read_fault_entry item) as [[n kinds]|] eqn:E; [|done]. cbn [mbind option_bind].
  case_bool_decide; [done|]. apply IH. intros n' k' [[<- <-]|[_ Hk]]%lookup_insert_Some; [|by apply Ha].
  unfold read_fault_entry in E. destruct item; try done. destruct (read_hex 32 _ _) as [v|] eqn:Ev; [|done].
  cbn in E. destruct (fields !! "faults") as [[]|]; try done. destruct (mapM _ _); [|done]. cbn in E.
  case_bool_decide as Hne; [done|]. injection E as <- <-. split; [|done].
  by apply (read_hex_range 32 _ _ _ Ev).
Qed.

Lemma substring_skip (t u : string) k n :
  String.substring (String.length t + k) n (t +:+ u) = String.substring k n u.
Proof. induction t as [|c t IH]; [done|]. exact IH. Qed.

Lemma substring_whole (t : string) n : (String.length t <= n)%nat → String.substring 0 n t = t.
Proof.
  revert n. induction t as [|c t IH]; intros [|n] Hn; cbn in *; [done|done|lia|].
  by rewrite IH by lia.
Qed.

(** The fault file is not an observation file. *)
Lemma faults_path_not_observations : observation_number dir (faults_path dir) = None.
Proof.
  unfold observation_number. destruct (String.prefix _ _); [|done]. cbn [mbind option_bind].
  assert (E : String.substring (String.length dir + 1) (String.length (faults_path dir)) (faults_path dir) =
    "faults.json").
  { unfold faults_path. rewrite substring_skip. set (n := String.length _).
    change (String.substring 1 n "/faults.json") with (String.substring 0 n "faults.json").
    apply substring_whole. subst n. rewrite append_length. cbn. lia. }
  rewrite E. done.
Qed.

Lemma discard_keeps_faults_file e d :
  live (file_discard_before dir e d) !! faults_path dir = live d !! faults_path dir.
Proof.
  unfold file_discard_before. generalize (map_to_list (live d)).*1. intros paths. revert d.
  induction paths as [|path paths IH]; intros d; [done|]. cbn [foldl]. rewrite IH.
  destruct (observation_number dir path) as [n|] eqn:E; [|done]. destruct (n <? e); [|done]. cbn.
  apply lookup_delete_ne. intros ->. by rewrite faults_path_not_observations in E.
Qed.

Lemma write_atomic_ok path payload d ok d' :
  write_atomic path payload d = (ok, d') →
  (∀ q, q ≠ path → q ≠ temp_of path → live d' !! q = live d !! q) ∧
  (ok = true → live d' !! path = Some (mkFile payload true)) ∧
  (live d' !! path = live d !! path ∨ live d' !! path = Some (mkFile payload true)).
Proof.
  unfold write_atomic. destruct (succeeds d) as [b d0] eqn:E. apply succeeds_frame in E as (El & _).
  destruct b; cbn [negb]; [|intros [= <- <-]; rewrite El; by split_and!; [..|left]].
  intros [Hs Hl]%write_durable_ok. split; [|split; [by intros [? _]%Hl|]].
  - intros q P1 P2. rewrite <-El. by apply (so_frame _ _ _ _ _ _ Hs).
  - rewrite <-El. apply (so_live _ _ _ _ _ _ Hs).
Qed.

#[export] Instance file_eligibility_store_laws :
  @EligibilityStoreLaws Disk (file_eligibility_store dir) _ storable_observations storable_faults.
Proof.
  split; cbn [el_store el_load el_discard_before el_store_faults el_load_faults file_eligibility_store].
  - intros e rs d d' context l Hs. unfold file_store_observations.
    destruct (Z.ltb_spec kMaxStoredRecords (Z.of_nat (length rs))) as [|Hl]; [done|].
    intros (_ & Hw & _)%write_atomic_ok. unfold file_load, read_file. rewrite Hw by done.
    cbn [fmap option_fmap option_map f_bytes]. rewrite json_round_trip by by apply observations_fit.
    rewrite observations_round_trip by done. by destruct (restore rs context l).
  - intros e rs d. unfold file_store_observations. destruct (_ <? _); [done|].
    destruct (write_atomic _ _ d) as [ok d'] eqn:E. apply write_atomic_ok in E as (Hf & _ & _).
    destruct (paths_apart e) as (P1 & _ & P3). unfold file_load_faults, read_file. cbn [snd].
    by rewrite Hf.
  - intros f d d' Hs. unfold file_store_faults.
    destruct (Z.ltb_spec kMaxStoredRecords (Z.of_nat (size f))) as [|Hl]; [done|].
    intros (_ & Hw & _)%write_atomic_ok. unfold file_load_faults, read_file. rewrite Hw by done.
    cbn [fmap option_fmap option_map f_bytes]. rewrite json_round_trip by by apply faults_fit.
    by rewrite faults_round_trip.
  - intros f d d' Hs. unfold file_store_faults.
    destruct (Z.ltb_spec kMaxStoredRecords (Z.of_nat (size f))) as [|Hl]; [intros [= <-]; by left|].
    intros (_ & _ & [Hw|Hw])%write_atomic_ok; unfold file_load_faults, read_file; rewrite Hw; [by left|right].
    cbn [fmap option_fmap option_map f_bytes]. rewrite json_round_trip by by apply faults_fit.
    by rewrite faults_round_trip.
  - intros f d e context l. unfold file_store_faults. destruct (_ <? _); [done|].
    destruct (write_atomic _ _ d) as [ok d'] eqn:E. apply write_atomic_ok in E as (Hf & _ & _).
    destruct (paths_apart e) as (P1 & P2 & _). unfold file_load, read_file. cbn [snd].
    by rewrite Hf.
  - intros e context l d Hl. unfold file_load. destruct (read_file _ _); [|done].
    destruct (read_observations _ _) as [rs|]; [|done]. destruct (restore rs context l) as [ok l'] eqn:E.
    destruct (restore_sound rs context l) as [? ?]. by rewrite E in *.
  - intros d faults. unfold file_load_faults. destruct (read_file _ _); [|done].
    destruct (read_faults _) as [f|] eqn:E; [|done]. intros [= <-]. unfold read_faults in E.
    destruct (json_parse _) as [[]|]; try done. destruct (negb _); [done|].
    destruct (fields !! "faults") as [[]|]; try done. destruct (_ <? _); [done|].
    apply read_fault_entries_sound in E; [done|]. intros n kinds. by rewrite lookup_empty.
  - intros e d. unfold file_load_faults, read_file. by rewrite discard_keeps_faults_file.
  - intros n kinds. by rewrite lookup_empty.
  - intros f n fault Hf Hn m kinds [[<- <-]|[_ Hm]]%lookup_insert_Some; [|by apply Hf].
    split; [done|]. set_solver.
Qed.
End laws.
