(* ===== verification/EligibilityService.v ===== *)
(** * The eligibility service

    Models [Eligibility/EligibilityService.cpp]: what this node observed, the
    faults it can prove and the platform claims it verified, turned into one
    eligibility state; the frozen pool is released only under a finalized
    commitment this node still reproduces. The store is any implementation of
    [IEligibilityStore] (EligibilityStore has the file one); each method is a
    definition with its name that returns its result and the new service. *)

From S2P Require Import Prelude SecurityPolicy CanonicalEncoding Selection PlatformClaims.
From S2P Require Import EligibilityLedger EligibilityFacts DurableWrite Json EligibilityStore.

(** ** Data *)

Record ParticipationProof := mkParticipation {
  pp_network_id : NetworkId;
  pp_epoch : EpochId;
  pp_consensus_ruleset : Z;
  pp_subject : NodeId;
  pp_incarnation : IncarnationId;
  pp_subject_height : Height;
}.

Record FinalizedEligibility := mkFinalized {
  fe_commitment : Digest;
  fe_consensus_reference : Digest;
  fe_height : Height;
  fe_state_root : Digest;
  fe_next_epoch : EpochId;
}.

Inductive EligibilityRestore := Fresh | Restored | RestoreCorrupt.

Record EligibilityService (St : Type) := mkService {
  sv_network_id_ : NetworkId;
  self_ : NodeId;
  identity_ : Ed25519Keypair;
  store_ : St;
  context_ : MeshFactContext;
  ledger_ : EligibilityLedger;
  sv_verdicts_ : gmap Z AttestationVerdict;
  incarnations_ : gmap Z IncarnationId;
  certificate_source_ : option (NodeId → bool);
  finalized_ : option FinalizedEligibility;
  observations_dirty_ : bool;
  faults_written_ : option FaultMap;
}.

Arguments mkService {_}.
Arguments sv_network_id_ {_}.
Arguments self_ {_}.
Arguments identity_ {_}.
Arguments store_ {_}.
Arguments context_ {_}.
Arguments ledger_ {_}.
Arguments sv_verdicts_ {_}.
Arguments incarnations_ {_}.
Arguments certificate_source_ {_}.
Arguments finalized_ {_}.
Arguments observations_dirty_ {_}.
Arguments faults_written_ {_}.

#[export] Instance eta_service {St} : Etable (EligibilityService St) := λ s,
  mkService (sv_network_id_ s) (self_ s) (identity_ s) (store_ s) (context_ s) (ledger_ s)
    (sv_verdicts_ s) (incarnations_ s) (certificate_source_ s) (finalized_ s)
    (observations_dirty_ s) (faults_written_ s).

Definition kFrozenIncarnation : IncarnationId := 1.

Definition no_context : MeshFactContext := mkFactContext 0 0 [] 0.

Definition new_service {St} (network_id : NetworkId) (self : NodeId) (identity : Ed25519Keypair)
    (store : St) : EligibilityService St :=
  mkService network_id self identity store no_context empty_ledger ∅ ∅ None None false None.

Section service.
Context {St : Type} `{IEligibilityStore St, Sodium}.
Notation Service := (EligibilityService St).

(** ** Writing *)

Definition flush_observations (s : Service) : bool * Service :=
  if observations_dirty_ s then
    let '(ok, store) := el_store (mc_epoch (context_ s)) (snapshot (ledger_ s)) (store_ s) in
    let s := s <| store_ := store |> in
    if ok : bool then (true, s <| observations_dirty_ := false |>) else (false, s)
  else (true, s).

Definition flush_faults (s : Service) : bool * Service :=
  if bool_decide (faults_written_ s = Some (faults_ (ledger_ s))) then (true, s)
  else
    let '(ok, store) := el_store_faults (faults_ (ledger_ s)) (store_ s) in
    let s := s <| store_ := store |> in
    if ok : bool then (true, s <| faults_written_ := Some (faults_ (ledger_ s)) |>) else (false, s).

Definition flush (s : Service) : bool * Service :=
  let '(ok, s) := flush_observations s in
  let '(ok', s) := flush_faults s in
  (ok && ok', s).

(** ** Context *)

(** What [install] resets before it reads the store. *)
Definition install_reset (context : MeshFactContext) (s : Service) : Service :=
  let s := if observations_dirty_ s then (flush s).2 else s in
  s <| observations_dirty_ := false |> <| context_ := context |> <| ledger_ := empty_ledger |>
    <| sv_verdicts_ := ∅ |> <| incarnations_ := ∅ |> <| finalized_ := None |>.

Definition install (epoch : EpochId) (context : MeshFactContext) (s : Service)
    : EligibilityRestore * Service :=
  let s := install_reset context s in
  match el_load_faults (store_ s) with
  | inr ElCorrupt => (RestoreCorrupt, s)
  | faults =>
      let s := match faults with
               | inl loaded => s <| ledger_ := merge_faults loaded (ledger_ s) |>
                                 <| faults_written_ := Some loaded |>
               | inr _ => s <| faults_written_ := None |>
               end in
      let '(loaded, ledger) := el_load epoch (context_ s) (ledger_ s) (store_ s) in
      let s := s <| ledger_ := ledger |> in
      match loaded with
      | Some ElCorrupt => (RestoreCorrupt, s)
      | Some ElAbsent => (Fresh, s)
      | None => (Restored, s <| store_ := el_discard_before epoch (store_ s) |>)
      end
  end.

Definition enter_epoch (epoch : EpochId) (members : list NodeId) (s : Service)
    : EligibilityRestore * Service :=
  install epoch (established_fact_context (sv_network_id_ s) epoch members) s.

Definition enter_genesis (founders : list NodeId) (s : Service) : EligibilityRestore * Service :=
  install 0 (genesis_fact_context (sv_network_id_ s) founders) s.

Definition set_certificate_source (source : NodeId → bool) (s : Service) : Service :=
  s <| certificate_source_ := Some source |>.

Definition observed (s : Service) (node : NodeId) : bool := is_observer_in (context_ s) node.
Definition is_observer (s : Service) : bool := observed s (self_ s).

(** ** Evidence *)

Definition accept (o : EligibilityObservation) (s : Service) : ObservationOutcome * Service :=
  let '(outcome, ledger) := ledger_record o (context_ s) (ledger_ s) in
  let s := s <| ledger_ := ledger |> in
  (outcome, if bool_decide (outcome = Accepted) then s <| observations_dirty_ := true |> else s).

Definition record_fault (subject : NodeId) (fault : ObjectiveFault) (s : Service) : Service :=
  let s := s <| ledger_ := ledger_record_fault subject fault (ledger_ s) |> in
  let '(ok, store) := el_store_faults (faults_ (ledger_ s)) (store_ s) in
  let s := s <| store_ := store |> in
  if ok : bool then s <| faults_written_ := Some (faults_ (ledger_ s)) |> else s.

Definition record_verdict (verdict : AttestationVerdict) (s : Service) : Service :=
  if negb (av_passed verdict) then s
  else
    let s := match incarnations_ s !! av_node_id verdict with
             | Some held =>
                 if negb (held =? av_incarnation verdict)
                 then record_fault (av_node_id verdict) DuplicateIncarnation s else s
             | None => s
             end in
    s <| incarnations_ := <[ av_node_id verdict := av_incarnation verdict ]> (incarnations_ s) |>
      <| sv_verdicts_ := <[ av_node_id verdict := verdict ]> (sv_verdicts_ s) |>.

(** Signs, records and hands out an observation. *)
Definition sign_and_accept (o : EligibilityObservation) (s : Service)
    : option EligibilityObservation * Service :=
  let o := sign_observation o (identity_ s) in
  let '(outcome, s) := accept o s in
  (if bool_decide (outcome = Accepted) then Some o else None, s).

Definition observe_attestation (subject : NodeId) (height : Height) (state_reference : Digest)
    (s : Service) : option EligibilityObservation * Service :=
  if negb (is_observer s) || (subject =? self_ s) then (None, s)
  else match sv_verdicts_ s !! subject with
  | None => (None, s)
  | Some verdict =>
      if negb (av_passed verdict) || negb (av_node_id verdict =? subject) then (None, s)
      else if av_evidence_digest verdict =? 0 then (None, s)
      else sign_and_accept (mkObservation (mc_network_id (context_ s)) (mc_epoch (context_ s))
             (av_node_id verdict) (av_incarnation verdict) Attestation (av_evidence_digest verdict)
             (av_claims verdict) height state_reference 0 0) s
  end.

Definition sign_participation (subject : NodeId) (incarnation : IncarnationId) (height : Height)
    (state_reference : Digest) (s : Service) : option EligibilityObservation * Service :=
  sign_and_accept (mkObservation (mc_network_id (context_ s)) (mc_epoch (context_ s)) subject
    incarnation Participation 0 no_claims height state_reference 0 0) s.

(** The incarnation this node attested, or the frozen one. *)
Definition expected_incarnation (s : Service) (node : NodeId) : IncarnationId :=
  default kFrozenIncarnation (incarnations_ s !! node).

Definition observe_participation (proof : ParticipationProof) (height : Height)
    (state_reference : Digest) (s : Service) : option EligibilityObservation * Service :=
  if negb (pp_network_id proof =? mc_network_id (context_ s)) ||
     negb (pp_epoch proof =? mc_epoch (context_ s)) then (None, s)
  else if negb (pp_consensus_ruleset proof =? kConsensusRulesetVersion) then (None, s)
  else if negb (is_observer s) || (pp_subject proof =? self_ s) then (None, s)
  else if negb (pp_incarnation proof =? expected_incarnation s (pp_subject proof)) then (None, s)
  else if (pp_subject_height proof <? height) ||
          (height +64 kMaxFutureViewDistance <? pp_subject_height proof) then (None, s)
  else sign_participation (pp_subject proof) (pp_incarnation proof) height state_reference s.

Definition observe_participation_response (response : ParticipationResponse)
    (challenge : ParticipationChallenge) (height : Height) (state_reference : Digest)
    (s : Service) : option EligibilityObservation * Service :=
  if negb (is_observer s) || (pr_node_id response =? self_ s) then (None, s)
  else if negb (pc_observer challenge =? self_ s) ||
          negb (pc_network_id challenge =? mc_network_id (context_ s)) ||
          negb (pc_epoch challenge =? mc_epoch (context_ s)) then (None, s)
  else if negb (pc_security_ruleset challenge =? kSecurityRulesetVersion) ||
          negb (pc_consensus_ruleset challenge =? kConsensusRulesetVersion) then (None, s)
  else if negb (pc_anchor_height challenge =? height) ||
          negb (pc_anchor_state challenge =? state_reference) then (None, s)
  else if negb (bool_decide (verify_participation_response response challenge = PfNone))
  then (None, s)
  else if negb (pr_incarnation response =? expected_incarnation s (pr_node_id response))
  then (None, s)
  else sign_participation (pr_node_id response) (pr_incarnation response) height state_reference s.

(** ** State *)

Definition candidates (s : Service) : list NodeId :=
  let minimum := max_byzantine_faults (Z.of_nat (length (mc_observers (context_ s)))) + 1 in
  set_in_order (list_to_set (mc_observers (context_ s)) ∪
                list_to_set (subjects (mc_epoch (context_ s)) minimum (ledger_ s))).

Definition judged_incarnation (s : Service) (subject : NodeId) : IncarnationId :=
  default kFrozenIncarnation (quorum_incarnation subject (context_ s) (ledger_ s)).

Definition fault_bits (s : Service) (subject : NodeId) : Z :=
  match faults_ (ledger_ s) !! subject with
  | None => 0
  | Some kinds => foldl (λ bits kind, Z.lor bits (objective_fault_bit (fault_of_value kind))) 0
                    (fault_values kinds)
  end.

Definition eligibility_record (s : Service) (subject : NodeId) : EligibilityRecord :=
  let incarnation := judged_incarnation s subject in
  let evidence := evaluate subject incarnation (context_ s) (ledger_ s) in
  let certificate := match certificate_source_ s with Some source => source subject | None => false end in
  let facts := mkMeshFacts certificate (me_uptime_valid evidence) (me_mesh_health_valid evidence)
                 (Some (mc_epoch (context_ s))) (Some incarnation) in
  let attested := mkVerdict subject (mc_epoch (context_ s)) incarnation PurposeEligibility 0 0 0
                    false AfNone (me_platform_claims evidence) [] in
  mkEligibilityRecord subject incarnation (me_uptime_valid evidence) (me_mesh_health_valid evidence)
    certificate (platform_claims_digest (me_platform_claims evidence)) (fault_bits s subject)
    (bool_decide (tier1_eligibility attested facts = Eligible)).

Definition compute_state (next_epoch : EpochId) (s : Service) : EligibilityState :=
  let state set records := mkEligibilityState (mc_network_id (context_ s)) (mc_epoch (context_ s))
    next_epoch kSecurityRulesetVersion kConsensusRulesetVersion set (mc_quorum (context_ s)) records in
  match from_nodes (mc_observers (context_ s)) with
  | None => state 0 []
  | Some observers => state (tier1_set_digest observers) (eligibility_record s <$> candidates s)
  end.

Definition mutual_round_complete (s : Service) : bool :=
  if Z.of_nat (length (mc_observers (context_ s))) <? 2 then false
  else
    let expected := Z.of_nat (length (mc_observers (context_ s))) - 1 in
    forallb (λ subject,
      let evidence := evaluate subject (judged_incarnation s subject) (context_ s) (ledger_ s) in
      negb ((me_continuity_observers evidence <? expected) ||
            (me_participation_observers evidence <? expected))) (mc_observers (context_ s)).

Definition finalize (finalized : FinalizedEligibility) (s : Service) : Service :=
  s <| finalized_ := Some finalized |>.
Definition clear_finalization (s : Service) : Service := s <| finalized_ := None |>.

Definition frozen_pool (next_epoch : EpochId) (s : Service) : option Tier1Set :=
  match finalized_ s with
  | None => None
  | Some finalized =>
      if negb (fe_next_epoch finalized =? next_epoch) then None
      else
        let state := compute_state next_epoch s in
        if negb (eligibility_commitment_digest state =? fe_commitment finalized) then None
        else from_nodes (eligible_nodes state)
  end.
End service.
