(* ===== verification/TestCodec.v ===== *)
(** * A concrete text codec

    An instance of the text codec of Json with its laws: bytes as pairs of
    letters, documents as token lists. It stands in for libsodium and nlohmann
    when the theorems about the stores are applied to concrete data. *)

From S2P Require Import Prelude SecurityPolicy CanonicalEncoding ConsensusTypes Json.

(** ** Bytes as text *)

Definition char_of (z : Z) : Ascii.ascii := Ascii.ascii_of_nat (Z.to_nat z).
Definition code_of (c : Ascii.ascii) : Z := Z.of_nat (Ascii.nat_of_ascii c).

Fixpoint letters (bytes : list Z) : string :=
  match bytes with
  | [] => EmptyString
  | b :: rest => String (char_of (97 + b / 16)) (String (char_of (97 + b mod 16)) (letters rest))
  end.

Fixpoint unletters (s : string) : option (list Z) :=
  match s with
  | EmptyString => Some []
  | String a (String b rest) =>
      bytes ← unletters rest; Some ((code_of a - 97) * 16 + (code_of b - 97) :: bytes)
  | _ => None
  end.

Lemma code_char z : 0 <= z < 256 → code_of (char_of z) = z.
Proof.
  intros Hz. unfold code_of, char_of. rewrite Ascii.nat_ascii_embedding by lia. lia.
Qed.

Lemma unletters_letters bytes : Forall is_byte bytes → unletters (letters bytes) = Some bytes.
Proof.
  induction 1 as [|b bytes Hb _ IH]; [done|]. cbn [letters unletters]. rewrite IH. cbn.
  unfold is_byte in Hb. pose proof (Z.div_mod b 16). pose proof (Z.mod_pos_bound b 16).
  assert (0 <= b / 16 < 16) by (split; [apply Z.div_pos; lia|apply Z.div_lt_upper_bound; lia]).
  rewrite !code_char by lia. do 2 f_equal. lia.
Qed.

Lemma letters_ascii bytes : Forall is_byte bytes → ascii_text (letters bytes).
Proof.
  induction 1 as [|b bytes Hb _ IH]; [by constructor|]. unfold is_byte in Hb.
  pose proof (Z.mod_pos_bound b 16).
  assert (0 <= b / 16 < 16) by (split; [apply Z.div_pos; lia|apply Z.div_lt_upper_bound; lia]).
  unfold ascii_text in *. cbn. repeat constructor; [| |exact IH].
  - fold (code_of (char_of (97 + b / 16))). rewrite code_char; lia.
  - fold (code_of (char_of (97 + b mod 16))). rewrite code_char; lia.
Qed.

(** ** Documents as tokens *)

Definition tokens_of_string (s : string) : list Z :=
  Z.of_nat (String.length s) :: string_bytes s.

Fixpoint tokens (j : json) : list Z :=
  match j with
  | JUnsigned z => [0; z]
  | JString s => 1 :: tokens_of_string s
  | JArray items => 2 :: Z.of_nat (length items) :: concat (tokens <$> items)
  | JObject fields =>
      3 :: Z.of_nat (size fields) ::
      concat ((λ kv, tokens_of_string kv.1 ++ kv.2) <$> map_to_list (tokens <$> fields))
  | _ => [4; 0]
  end.

Definition read_string (l : list Z) : option (string * list Z) :=
  match l with
  | n :: rest =>
      let n := Z.to_nat n in
      Some (String.string_of_list_ascii (char_of <$> take n rest), drop n rest)
  | [] => None
  end.

Fixpoint many {A : Type} (dec : list Z → option (A * list Z)) (n : nat) (l : list Z)
    : option (list A * list Z) :=
  match n with
  | O => Some ([], l)
  | S n' => '(x, l) ← dec l; '(xs, l) ← many dec n' l; Some (x :: xs, l)
  end.

Fixpoint read_value (fuel : nat) (l : list Z) : option (json * list Z) :=
  match fuel, l with
  | S fuel', tag :: n :: rest =>
      if tag =? 0 then Some (JUnsigned n, rest)
      else if tag =? 1 then '(s, rest) ← read_string (n :: rest); Some (JString s, rest)
      else if tag =? 2 then
        '(items, rest) ← many (read_value fuel') (Z.to_nat n) rest; Some (JArray items, rest)
      else
        '(entries, rest) ← many (λ l, '(k, l) ← read_string l; '(v, l) ← read_value fuel' l;
                                      Some ((k, v), l)) (Z.to_nat n) rest;
        Some (JObject (list_to_map entries), rest)
  | _, _ => None
  end.

Definition dump (j : json) : list Z := tokens j.
Definition parse (l : list Z) : option json :=
  match read_value (length l) l with Some (j, []) => Some j | _ => None end.

Lemma read_string_tokens s rest : read_string (tokens_of_string s ++ rest) = Some (s, rest).
Proof.
  unfold read_string, tokens_of_string. rewrite <-app_comm_cons. rewrite Nat2Z.id.
  assert (Hl : String.length s = length (string_bytes s)).
  { unfold string_bytes. rewrite length_fmap. induction s as [|a s IH]; [done|].
    exact (f_equal S IH). }
  rewrite Hl, take_app_length, drop_app_length. do 2 f_equal.
  unfold string_bytes. rewrite <-list_fmap_compose.
  rewrite <-(String.string_of_list_ascii_of_string s) at 2. f_equal.
  rewrite <-(list_fmap_id (String.list_ascii_of_string s)) at 2. apply list_fmap_ext.
  intros i c _. unfold char_of, compose. simpl. rewrite Nat2Z.id.
  by rewrite Ascii.ascii_nat_embedding.
Qed.

Lemma many_spec {A} (enc : A → list Z) dec xs rest :
  (∀ x rest, x ∈ xs → dec (enc x ++ rest) = Some (x, rest)) →
  many dec (length xs) (concat (enc <$> xs) ++ rest) = Some (xs, rest).
Proof.
  induction xs as [|x xs IH]; intros Hd; [done|].
  cbn [length many fmap list_fmap concat]. rewrite <-app_assoc.
  rewrite Hd by (apply elem_of_cons; by left). cbn [mbind option_bind].
  rewrite IH; [done|]. intros y r Hy. apply Hd, elem_of_cons. by right.
Qed.

Lemma length_concat_elem {A} (enc : A → list Z) x xs :
  x ∈ xs → (length (enc x) <= length (concat (enc <$> xs)))%nat.
Proof.
  induction xs as [|y xs IH]; [by intros ?%not_elem_of_nil|].
  cbn [fmap list_fmap concat]. rewrite length_app. intros [->|Hx]%elem_of_cons; [lia|].
  specialize (IH Hx). lia.
Qed.

(** A field of an object as tokens. *)
Definition entry_tokens (kv : string * json) : list Z := tokens_of_string kv.1 ++ tokens kv.2.

Lemma tokens_object fields :
  tokens (JObject fields) =
  3 :: Z.of_nat (length (map_to_list fields)) :: concat (entry_tokens <$> map_to_list fields).
Proof.
  cbn [tokens]. rewrite map_to_list_fmap, <-list_fmap_compose, length_map_to_list. do 2 f_equal.
Qed.

Lemma read_value_tokens j :
  json_fits j → ∀ fuel rest, (length (tokens j) <= fuel)%nat →
  read_value fuel (tokens j ++ rest) = Some (j, rest).
Proof.
  induction 1 as [z _|s _|items _ IH|fields _ _ IH]; intros fuel rest Hf.
  - destruct fuel; [simpl in Hf; lia|]. done.
  - destruct fuel as [|fuel]; [simpl in Hf; lia|]. cbn [tokens].
    unfold tokens_of_string at 1. cbn [app read_value Z.eqb].
    change (Z.of_nat (String.length s) :: string_bytes s ++ rest)
      with (tokens_of_string s ++ rest).
    rewrite read_string_tokens. done.
  - destruct fuel as [|fuel]; [simpl in Hf; lia|].
    cbn [tokens app read_value Z.eqb Pos.eqb length] in *. rewrite Nat2Z.id.
    rewrite (many_spec tokens); [done|]. intros x r Hx. apply IH; [done|].
    pose proof (length_concat_elem tokens x items Hx). lia.
  - rewrite tokens_object in *. destruct fuel as [|fuel]; [simpl in Hf; lia|].
    cbn [app read_value Z.eqb Pos.eqb length] in *. rewrite Nat2Z.id.
    rewrite (many_spec entry_tokens).
    + cbn [mbind option_bind]. by rewrite list_to_map_to_list.
    + intros [k v] r Hx. unfold entry_tokens. rewrite <-app_assoc, read_string_tokens.
      cbn [mbind option_bind fst snd].
      rewrite (IH k v); [done|by apply elem_of_map_to_list|].
      pose proof (length_concat_elem entry_tokens (k, v) _ Hx) as Hl.
      unfold entry_tokens in Hl at 1. rewrite length_app in Hl. simpl in Hl. lia.
Qed.

#[export] Instance test_codec : TextCodec := {|
  sodium_bin2base64 := letters;
  sodium_base642bin variant s :=
    match variant with VariantOriginal => unletters s | VariantUrlsafeNoPadding => None end;
  json_dump := dump;
  json_parse := parse |}.

#[export] Instance test_codec_laws : TextCodecLaws.
Proof.
  split; cbn.
  - apply unletters_letters.
  - apply letters_ascii.
  - intros j Hj. unfold parse, dump. rewrite <-(app_nil_r (tokens j)) at 2.
    by rewrite (read_value_tokens j Hj).
Qed.
