(* ===== verification/EligibilityServiceTheorems.v ===== *)
(** * What the eligibility service guarantees

    The theorems on [Eligibility/EligibilityService.cpp], proved against the
    store's interface and applied to the file store. *)

From S2P Require Import Prelude SecurityPolicy CanonicalEncoding Selection PlatformClaims.
From S2P Require Import EligibilityLedger EligibilityFacts DurableWrite Json EligibilityStore.
From S2P Require Import EligibilityTheorems EligibilityService TestCodec.

(** ** The encoding of a state *)

Definition flag_bytes (b : bool) : list Z := le_bytes 2 (if b then 1 else 0).

Definition record_fields (r : EligibilityRecord) : list (list Z) :=
  [be_bytes 32 (er_subject r); le_bytes 8 (er_incarnation r); flag_bytes (er_uptime_valid r);
   flag_bytes (er_mesh_health_valid r); flag_bytes (er_certificate_valid r);
   be_bytes 32 (er_platform_claims r); le_bytes 4 (er_faults r); flag_bytes (er_eligible r)].

Definition state_fields (s : EligibilityState) : list (list Z) :=
  [string_bytes "lemonade-nexus/eligibility-state:v1"; be_bytes 32 (el_network_id s);
   le_bytes 8 (el_epoch s); le_bytes 8 (el_next_epoch s); le_bytes 2 (el_security_ruleset s);
   le_bytes 2 (el_consensus_ruleset s); be_bytes 32 (el_observer_set s); le_bytes 8 (el_quorum s);
   le_bytes 8 (Z.of_nat (length (el_records s)))] ++ concat (record_fields <$> el_records s).

Lemma add_records_fields records buf :
  foldl add_record buf records = foldl put_length_prefixed buf (concat (record_fields <$> records)).
Proof.
  revert buf. induction records as [|r records IH]; intros buf; [done|].
  cbn [foldl fmap list_fmap concat]. rewrite foldl_app, IH. done.
Qed.

Lemma state_encoder_fields s : eligibility_state_encoder s = encode_fields (state_fields s).
Proof.
  unfold eligibility_state_encoder. rewrite add_records_fields. unfold state_fields, encode_fields.
  rewrite foldl_app. done.
Qed.

Lemma record_fields_ok r : Forall field_ok (record_fields r).
Proof.
  unfold record_fields, flag_bytes.
  repeat constructor; first [apply field_ok_le_bytes; lia | apply field_ok_be_bytes; lia].
Qed.

Lemma state_fields_ok s : Forall field_ok (state_fields s).
Proof.
  unfold state_fields. apply Forall_app. split.
  - repeat constructor; try (apply field_ok_le_bytes; lia); try (apply field_ok_be_bytes; lia).
  - apply Forall_concat, Forall_fmap, Forall_true. intros r. apply record_fields_ok.
Qed.

Lemma flag_bytes_inj a b : flag_bytes a = flag_bytes b → a = b.
Proof. destruct a, b; try done; vm_compute; discriminate. Qed.

Definition subjects_fit (s : EligibilityState) : Prop :=
  Forall (λ r, is_digest (er_subject r)) (el_records s).

(** Equal fields of records mean equal subjects and decisions. *)
Lemma records_fields_inj rs rs' :
  Forall (λ r, is_digest (er_subject r)) rs → Forall (λ r, is_digest (er_subject r)) rs' →
  concat (record_fields <$> rs) = concat (record_fields <$> rs') →
  (λ r, (er_subject r, er_eligible r)) <$> rs = (λ r, (er_subject r, er_eligible r)) <$> rs'.
Proof.
  intros Hr. revert rs'. induction Hr as [|r rs Hr _ IH]; intros [|r' rs'] Hr' E; [done..|].
  inversion Hr' as [|? ? Hd Hr'']; subst. cbn [fmap list_fmap concat record_fields app] in E.
  apply list_cons_eq in E as [E1 E]. do 6 (apply list_cons_eq in E as [_ E]).
  apply list_cons_eq in E as [E8 E].
  cbn [fmap list_fmap]. rewrite (IH rs' Hr'' E). do 2 f_equal.
  - by apply be32_inj.
  - by apply flag_bytes_inj.
Qed.

(** The encoding determines who is eligible. *)
Lemma state_encoder_eligible s s' :
  subjects_fit s → subjects_fit s' →
  eligibility_state_encoder s = eligibility_state_encoder s' → eligible_nodes s = eligible_nodes s'.
Proof.
  intros Hs Hs'. rewrite !state_encoder_fields. intros E%encode_fields_inj; [|apply state_fields_ok..].
  unfold state_fields in E. cbn [app] in E.
  do 9 (apply list_cons_eq in E as [_ E]).
  apply records_fields_inj in E; [|done..]. unfold eligible_nodes. f_equal.
  assert (Hf : ∀ rs : list EligibilityRecord, er_subject <$> filter (λ r, er_eligible r = true) rs =
    fst <$> filter (λ p : NodeId * bool, p.2 = true) ((λ r, (er_subject r, er_eligible r)) <$> rs)).
  { induction rs as [|r rs IH]; [done|]. cbn [fmap list_fmap]. rewrite !filter_cons. cbn [snd].
    destruct (decide (er_eligible r = true)); cbn [fmap list_fmap fst]; by rewrite IH. }
  rewrite !Hf. by rewrite E.
Qed.

Definition commitment_fields `{Sodium} (s : EligibilityState) : list (list Z) :=
  [string_bytes "lemonade-nexus/eligibility-commit:v1"; be_bytes 32 (el_network_id s);
   le_bytes 8 (el_epoch s); le_bytes 8 (el_next_epoch s); be_bytes 32 (eligibility_state_digest s)].

Lemma commitment_encoder_digest `{Sodium} s s' :
  is_digest (eligibility_state_digest s) → is_digest (eligibility_state_digest s') →
  eligibility_commitment_encoder s = eligibility_commitment_encoder s' →
  eligibility_state_digest s = eligibility_state_digest s'.
Proof.
  intros Hd Hd' E. assert (Hok : ∀ s, Forall field_ok (commitment_fields s)).
  { intros s0. repeat constructor; try (apply field_ok_le_bytes; lia); try (apply field_ok_be_bytes; lia). }
  change (encode_fields (commitment_fields s) = encode_fields (commitment_fields s')) in E.
  apply encode_fields_inj in E; [|apply Hok..]. unfold commitment_fields in E.
  do 4 (apply list_cons_eq in E as [_ E]). apply list_cons_eq in E as [E _]. by apply be32_inj.
Qed.

Section service_theorems.
Context {St : Type} `{IEligibilityStore St, Sodium}.
Context (storable : EpochId → list PersistedRecord → Prop) (storable_faults : FaultMap → Prop).
Context `{!EligibilityStoreLaws St storable storable_faults}.
Notation Service := (EligibilityService St).
Implicit Types s : Service.

(** ** The pool *)

Lemma eligibility_record_eligible s n :
  er_eligible (eligibility_record s n) = true →
  let evidence := evaluate n (judged_incarnation s n) (context_ s) (ledger_ s) in
  (∃ source, certificate_source_ s = Some source ∧ source n = true) ∧
  me_uptime_valid evidence = true ∧ me_mesh_health_valid evidence = true ∧
  platform_claims_are_consistent (me_platform_claims evidence) = true ∧
  all_platform_claims_proved (me_platform_claims evidence) = true.
Proof.
  unfold eligibility_record. cbv zeta. cbn [er_eligible]. rewrite bool_decide_eq_true, tier1_eligibility_spec.
  cbn [av_claims mf_certificate_valid mf_uptime_valid mf_mesh_health_valid].
  intros (H1 & H2 & H3 & H4 & H5 & _). split; [|done].
  destruct (certificate_source_ s) as [source|]; [by exists source|done].
Qed.

Lemma health_means_no_fault n i c l :
  me_mesh_health_valid (evaluate n i c l) = true → faults_ l !! n = None.
Proof.
  unfold evaluate. destruct (_ =? 0); [done|]. cbn [me_mesh_health_valid]. intros Hh.
  apply andb_true_iff in Hh as [Hf%negb_true_iff _]. apply bool_decide_eq_false in Hf.
  destruct (faults_ l !! n); [destruct Hf; eauto|done].
Qed.

Lemma frozen_pool_some s next pool :
  frozen_pool next s = Some pool →
  ∃ finalized, finalized_ s = Some finalized ∧ fe_next_epoch finalized = next ∧
    eligibility_commitment_digest (compute_state next s) = fe_commitment finalized ∧
    from_nodes (eligible_nodes (compute_state next s)) = Some pool.
Proof.
  unfold frozen_pool. destruct (finalized_ s) as [f|]; [|done].
  destruct (negb (fe_next_epoch f =? next)) eqn:E1; [done|]. cbv zeta.
  destruct (negb (_ =? fe_commitment f)) eqn:E2; [done|]. bool_to_prop. intros Hf. by exists f.
Qed.

Lemma elem_of_eligible_nodes s next n :
  n ∈ eligible_nodes (compute_state next s) →
  n ∈ candidates s ∧ er_eligible (eligibility_record s n) = true.
Proof.
  unfold eligible_nodes. rewrite merge_sort_Permutation.
  intros (r & -> & [He Hin]%list_elem_of_filter)%list_elem_of_fmap. unfold compute_state in Hin.
  destruct (from_nodes _); [|by apply elem_of_nil in Hin]. cbn [el_records] in Hin.
  apply list_elem_of_fmap in Hin as (m & -> & Hm). done.
Qed.

(** ** The service's state *)

Definition fault_le (f g : FaultMap) : Prop :=
  ∀ n kinds, f !! n = Some kinds → ∃ more, g !! n = Some more ∧ kinds ⊆ more.

Lemma fault_le_refl f : fault_le f f.
Proof. intros n kinds Hn. by exists kinds. Qed.

Lemma fault_le_trans f g h : fault_le f g → fault_le g h → fault_le f h.
Proof.
  intros H1 H2 n kinds (more & Hn & Hs)%H1. destruct (H2 n more Hn) as (most & Hn' & Hs').
  exists most. split; [done|set_solver].
Qed.

Lemma fault_le_antisymm f g : fault_le f g → fault_le g f → f = g.
Proof.
  intros H1 H2. apply map_eq. intros n. destruct (f !! n) as [k|] eqn:Ef.
  - destruct (H1 n k Ef) as (k' & Eg & Hk). destruct (H2 n k' Eg) as (k'' & Ef' & Hk').
    rewrite Eg. f_equal. assert (k'' = k) as -> by congruence. set_solver.
  - destruct (g !! n) as [k|] eqn:Eg; [|done]. destruct (H2 n k Eg) as (? & ? & _). congruence.
Qed.

Lemma record_fault_le n fault l : fault_le (faults_ l) (faults_ (ledger_record_fault n fault l)).
Proof.
  intros m kinds Hm. cbn. unfold NodeId in *. destruct (decide (m = n)) as [->|Hne].
  - exists ({[fault]} ∪ kinds). rewrite lookup_insert_eq, Hm. split; [done|set_solver].
  - exists kinds. by rewrite lookup_insert_ne.
Qed.

(** The ledger is sound for the context; the faults last written are among the
    ledger's, and on disk when they are all of them. *)
Record service_ok s : Prop := mkServiceOk {
  so_ledger : ledger_ok (context_ s) (ledger_ s);
  so_storable : storable_faults (faults_ (ledger_ s));
  so_written : ∀ f, faults_written_ s = Some f → fault_le f (faults_ (ledger_ s)) ∧
    (f = faults_ (ledger_ s) → el_load_faults (store_ s) = inl f);
}.

Lemma new_eligibility_service_ok network self identity (store : St) :
  service_ok (new_service network self identity store).
Proof. constructor; [apply empty_ledger_ok|apply el_storable_none|done]. Qed.

Lemma ledger_record_faults o c l : faults_ (ledger_record o c l).2 = faults_ l.
Proof. unfold ledger_record. by repeat case_match. Qed.

Lemma accept_ok o s : service_ok s → service_ok (accept o s).2.
Proof.
  intros [Hl Hst Hw]. unfold accept. pose proof (ledger_record_ok o (context_ s) (ledger_ s) Hl) as Hl'.
  pose proof (ledger_record_faults o (context_ s) (ledger_ s)) as Ef.
  destruct (ledger_record o (context_ s) (ledger_ s)) as [outcome l]. cbn [snd] in *.
  case_bool_decide; constructor; cbn; rewrite ?Ef; done.
Qed.

Lemma sign_and_accept_ok o s : service_ok s → service_ok (sign_and_accept o s).2.
Proof.
  intros Hs. unfold sign_and_accept. pose proof (accept_ok (sign_observation o (identity_ s)) s Hs) as Ha.
  by destruct (accept _ s).
Qed.

(** What a write of the fault file leaves, whatever its outcome. *)
Lemma write_faults_ok s store ok :
  ledger_ok (context_ s) (ledger_ s) → storable_faults (faults_ (ledger_ s)) →
  (∀ f, faults_written_ s = Some f → fault_le f (faults_ (ledger_ s)) ∧
    (f = faults_ (ledger_ s) → el_load_faults (store_ s) = inl f)) →
  el_store_faults (faults_ (ledger_ s)) (store_ s) = (ok, store) →
  service_ok (if ok : bool then s <| store_ := store |> <| faults_written_ := Some (faults_ (ledger_ s)) |>
              else s <| store_ := store |>).
Proof.
  intros Hl Hst Hw E. destruct ok.
  - constructor; cbn; [done|done|]. intros f [= <-]. split; [apply fault_le_refl|]. intros _.
    by eapply el_store_faults_load.
  - constructor; cbn; [done|done|]. intros f Hf. destruct (Hw f Hf) as [Hle Heq]. split; [done|].
    intros ->. destruct (el_store_faults_failed _ _ _ Hst E) as [->|]; [by apply Heq|done].
Qed.

Lemma flush_faults_ok s :
  service_ok s → service_ok (flush_faults s).2 ∧
  ledger_ (flush_faults s).2 = ledger_ s ∧ context_ (flush_faults s).2 = context_ s ∧
  ((flush_faults s).1 = true → el_load_faults (store_ (flush_faults s).2) = inl (faults_ (ledger_ s))) ∧
  ∀ e c l, el_load e c l (store_ (flush_faults s).2) = el_load e c l (store_ s).
Proof.
  intros Hs. unfold flush_faults. case_bool_decide as Hb.
  { split; [done|]. split; [done|]. split; [done|]. split; [|done]. intros _. by apply (so_written s Hs). }
  pose proof (el_store_faults_keeps (faults_ (ledger_ s)) (store_ s)) as Hk.
  destruct (el_store_faults _ (store_ s)) as [ok store] eqn:E. cbn [snd] in Hk.
  pose proof (write_faults_ok s store ok (so_ledger s Hs) (so_storable s Hs) (so_written s Hs) E) as Hw.
  destruct ok; (split; [done|]); (split; [done|]); (split; [done|]); (split; [|done]); [|done].
  intros _. by eapply el_store_faults_load; [apply (so_storable s Hs)|].
Qed.

Lemma record_fault_ok n fault s : is_digest n → service_ok s → service_ok (record_fault n fault s).
Proof.
  intros Hn [Hl Hst Hw]. unfold record_fault.
  set (s1 := s <| ledger_ := ledger_record_fault n fault (ledger_ s) |>).
  destruct (el_store_faults (faults_ (ledger_ s1)) (store_ s1)) as [ok store] eqn:E.
  apply (write_faults_ok s1 store ok); [done|by apply el_storable_add| |done].
  intros f Hf. destruct (Hw f Hf) as [Hle Heq]. pose proof (record_fault_le n fault (ledger_ s)) as Hg.
  split; [by eapply fault_le_trans|]. intros ->. apply Heq. apply fault_le_antisymm; [|done].
  exact Hle.
Qed.

Lemma service_record_verdict_ok v s : is_digest (av_node_id v) → service_ok s → service_ok (record_verdict v s).
Proof.
  intros Hn Hs. unfold record_verdict. destruct (negb (av_passed v)); [done|].
  assert (Hs' : service_ok (match incarnations_ s !! av_node_id v with
    | Some held => if negb (held =? av_incarnation v)
                   then record_fault (av_node_id v) DuplicateIncarnation s else s
    | None => s end)).
  { destruct (incarnations_ s !! _); [|done]. destruct (negb _); [by apply record_fault_ok|done]. }
  by destruct Hs'; constructor.
Qed.

Lemma flush_observations_ok s :
  service_ok s → service_ok (flush_observations s).2 ∧
  ledger_ (flush_observations s).2 = ledger_ s ∧ context_ (flush_observations s).2 = context_ s ∧
  (observations_dirty_ s = true → (flush_observations s).1 = true →
    ∃ disk, el_store (mc_epoch (context_ s)) (snapshot (ledger_ s)) (store_ s) =
      (true, disk) ∧ store_ (flush_observations s).2 = disk).
Proof.
  intros Hs. unfold flush_observations. destruct (observations_dirty_ s) eqn:Ed; [|done].
  pose proof (el_store_keeps_faults (mc_epoch (context_ s)) (snapshot (ledger_ s)) (store_ s)) as Hk.
  destruct (el_store _ _ (store_ s)) as [ok store] eqn:E. cbn [snd] in Hk.
  destruct Hs as [Hl Hst Hw].
  destruct ok; (split; [constructor; cbn; try done; by rewrite Hk|]); (split; [done|]); (split; [done|]);
    intros _ Hok; [by exists store|done].
Qed.

Lemma flush_ok s : service_ok s → service_ok (flush s).2.
Proof.
  intros Hs. unfold flush. destruct (flush_observations_ok s Hs) as (Hs1 & _ & _ & _).
  destruct (flush_observations s) as [ok s1]. cbn [snd] in Hs1.
  destruct (flush_faults_ok s1 Hs1) as (Hs2 & _). by destruct (flush_faults s1).
Qed.

(** What a flush that succeeds leaves for the next start. *)
Lemma flush_written s s' :
  service_ok s → observations_dirty_ s = true →
  storable (mc_epoch (context_ s)) (snapshot (ledger_ s)) → flush s = (true, s') →
  el_load_faults (store_ s') = inl (faults_ (ledger_ s)) ∧
  ∀ l, el_load (mc_epoch (context_ s)) (context_ s) l (store_ s') =
    (if (restore (snapshot (ledger_ s)) (context_ s) l).1 then None else Some ElCorrupt,
     (restore (snapshot (ledger_ s)) (context_ s) l).2).
Proof.
  intros Hs Hd Hst. unfold flush. destruct (flush_observations_ok s Hs) as (Hs1 & El & _ & Hw).
  destruct (flush_observations s) as [ok s1]. cbn [fst snd] in *.
  destruct (flush_faults_ok s1 Hs1) as (_ & _ & _ & Hf & Hk). destruct (flush_faults s1) as [ok' s2].
  cbn [fst snd] in *. intros [= E <-]. apply andb_true_iff in E as [-> ->].
  destruct (Hw Hd eq_refl) as (disk & E0 & E1). rewrite <-El. split; [by apply Hf|].
  intros l. rewrite Hk, E1. rewrite El. by apply (el_store_load _ _ (store_ s)).
Qed.

Lemma merge_faults_empty faults : merge_faults faults empty_ledger = mkLedger ∅ faults.
Proof.
  unfold merge_faults, empty_ledger. cbn. unfold set_field. cbn. f_equal.
  apply map_eq. intros n. rewrite lookup_union_with, lookup_empty. by destruct (faults !! n).
Qed.

Lemma install_reset_store context s :
  service_ok s → ledger_ (install_reset context s) = empty_ledger ∧
    context_ (install_reset context s) = context ∧ finalized_ (install_reset context s) = None ∧
    observations_dirty_ (install_reset context s) = false.
Proof. intros Hs. unfold install_reset. by destruct (observations_dirty_ s). Qed.

(** The end of [install], once the faults are read. *)
Definition load_observations (epoch : EpochId) s : EligibilityRestore * Service :=
  let '(loaded, ledger) := el_load epoch (context_ s) (ledger_ s) (store_ s) in
  let s := s <| ledger_ := ledger |> in
  match loaded with
  | Some ElCorrupt => (RestoreCorrupt, s)
  | Some ElAbsent => (Fresh, s)
  | None => (Restored, s <| store_ := el_discard_before epoch (store_ s) |>)
  end.

Lemma load_observations_ok epoch s result s' :
  ledger_ok (context_ s) (ledger_ s) → storable_faults (faults_ (ledger_ s)) →
  (∀ f, faults_written_ s = Some f → f = faults_ (ledger_ s) ∧ el_load_faults (store_ s) = inl f) →
  load_observations epoch s = (result, s') →
  finalized_ s' = finalized_ s ∧ context_ s' = context_ s ∧ service_ok s'.
Proof.
  intros Hl Hst Hw. unfold load_observations.
  destruct (el_load_sound epoch (context_ s) (ledger_ s) (store_ s) Hl) as [Hl' Hf'].
  destruct (el_load epoch _ _ _) as [loaded ledger]. cbn [snd] in *. cbv zeta.
  assert (Hok : service_ok (s <| ledger_ := ledger |>)).
  { constructor; cbn; rewrite ?Hf'; [done|done|]. intros f Hfw. destruct (Hw f Hfw) as [-> ?].
    split; [apply fault_le_refl|done]. }
  destruct loaded as [[|]|]; intros [= <- <-]; [done..|].
  split; [done|]. split; [done|]. destruct Hok as [? ? Hw']. constructor; cbn in *; try done.
  by rewrite el_discard_keeps_faults.
Qed.

Lemma install_ok epoch context s result s' :
  service_ok s → install epoch context s = (result, s') →
  finalized_ s' = None ∧ context_ s' = context ∧ (result ≠ RestoreCorrupt → service_ok s').
Proof.
  intros Hs. unfold install. destruct (install_reset_store context s Hs) as (El & Ec & Ef & _).
  set (s1 := install_reset context s) in *. clearbody s1. clear Hs.
  destruct (el_load_faults (store_ s1)) as [loaded|[|]] eqn:Ll.
  - rewrite El, merge_faults_empty. set (s2 := _ <| faults_written_ := Some loaded |>).
    fold (load_observations epoch s2). intros E.
    destruct (load_observations_ok epoch s2 result s') as (E1 & E2 & E3); [..|exact E|].
    + exact (empty_ledger_ok (context_ s1)).
    + by apply (el_load_faults_sound (store_ s1)).
    + by intros f [= <-].
    + rewrite E1, E2. subst s2. cbn. by rewrite Ec, Ef.
  - set (s2 := _ <| faults_written_ := None |>). fold (load_observations epoch s2). intros E.
    destruct (load_observations_ok epoch s2 result s') as (E1 & E2 & E3); [..|exact E|].
    + subst s2. cbn. rewrite El. apply empty_ledger_ok.
    + subst s2. cbn. rewrite El. apply el_storable_none.
    + done.
    + rewrite E1, E2. subst s2. cbn. by rewrite Ec, Ef.
  - intros [= <- <-]. done.
Qed.

(** ** Calls in sequence *)

Inductive ServiceCall :=
  | EnterEpoch (epoch : EpochId) (members : list NodeId)
  | EnterGenesis (founders : list NodeId)
  | SetCertificateSource (source : NodeId → bool)
  | Accept (o : EligibilityObservation)
  | RecordFault (subject : NodeId) (fault : ObjectiveFault)
  | RecordVerdict (verdict : AttestationVerdict)
  | ObserveAttestation (subject : NodeId) (height : Height) (state_reference : Digest)
  | ObserveParticipation (proof : ParticipationProof) (height : Height) (state_reference : Digest)
  | ObserveResponse (response : ParticipationResponse) (challenge : ParticipationChallenge)
      (height : Height) (state_reference : Digest)
  | Finalize (finalized : FinalizedEligibility)
  | ClearFinalization
  | Flush.

(** [None]: the durable state is corrupt and the caller stops. *)
Definition entered (result : EligibilityRestore * Service) : option Service :=
  match result.1 with RestoreCorrupt => None | _ => Some result.2 end.

Definition call_service (c : ServiceCall) s : option Service :=
  match c with
  | EnterEpoch e ms => entered (enter_epoch e ms s)
  | EnterGenesis fs => entered (enter_genesis fs s)
  | SetCertificateSource f => Some (set_certificate_source f s)
  | Accept o => Some (accept o s).2
  | RecordFault n f => Some (record_fault n f s)
  | RecordVerdict v => Some (record_verdict v s)
  | ObserveAttestation n h r => Some (observe_attestation n h r s).2
  | ObserveParticipation p h r => Some (observe_participation p h r s).2
  | ObserveResponse a c h r => Some (observe_participation_response a c h r s).2
  | Finalize f => Some (finalize f s)
  | ClearFinalization => Some (clear_finalization s)
  | Flush => Some (flush s).2
  end.

Fixpoint call_services (calls : list ServiceCall) s : option Service :=
  match calls with
  | [] => Some s
  | c :: rest => s ← call_service c s; call_services rest s
  end.

(** The identities a fault is recorded of are 32 bytes. *)
Definition service_call_wf (c : ServiceCall) : Prop :=
  match c with
  | RecordFault n _ => is_digest n
  | RecordVerdict v => is_digest (av_node_id v)
  | _ => True
  end.

Lemma call_service_ok c s s' :
  service_ok s → service_call_wf c → call_service c s = Some s' → service_ok s'.
Proof.
  intros Hs Hc. assert (Hin : ∀ e ctx, entered (install e ctx s) = Some s' → service_ok s').
  { intros e ctx. destruct (install e ctx s) as [r s1] eqn:E. unfold entered. cbn [fst snd].
    destruct (install_ok e ctx s r s1 Hs E) as (_ & _ & Hok).
    destruct r; intros [= <-]; by apply Hok. }
  destruct c as [e ms|fs|f|o|n f|v|n h d|p h d|a ch h d|f| |]; cbn [call_service];
    try (intros [= <-]).
  - apply Hin.
  - apply Hin.
  - by destruct Hs.
  - by apply accept_ok.
  - by apply record_fault_ok.
  - by apply service_record_verdict_ok.
  - unfold observe_attestation. destruct (_ || _); [done|]. destruct (sv_verdicts_ s !! n); [|done].
    destruct (_ || _); [done|]. destruct (_ =? _); [done|]. by apply sign_and_accept_ok.
  - unfold observe_participation, sign_participation. repeat case_match; try done; by apply sign_and_accept_ok.
  - unfold observe_participation_response, sign_participation. repeat case_match; try done; by apply sign_and_accept_ok.
  - by destruct Hs.
  - by destruct Hs.
  - by apply flush_ok.
Qed.

Lemma call_services_ok calls s s' :
  service_ok s → Forall service_call_wf calls → call_services calls s = Some s' → service_ok s'.
Proof.
  intros Hs Hc. revert s Hs. induction Hc as [|c calls Hc _ IH]; intros s Hs; cbn [call_services].
  { by intros [= <-]. }
  destruct (call_service c s) as [s1|] eqn:E; [|done]. cbn [mbind option_bind].
  apply IH. by eapply call_service_ok.
Qed.

(** *** Where the context and the finality come from *)

Definition same_frame s s' : Prop := context_ s' = context_ s ∧ finalized_ s' = finalized_ s.

Lemma accept_frame o s : same_frame s (accept o s).2.
Proof. unfold accept. destruct (ledger_record _ _ _) as [outcome l]. cbn [snd]. by destruct (bool_decide _). Qed.

Lemma sign_and_accept_frame o s : same_frame s (sign_and_accept o s).2.
Proof.
  unfold sign_and_accept. pose proof (accept_frame (sign_observation o (identity_ s)) s) as Hf.
  by destruct (accept _ s) as [outcome s'].
Qed.

Lemma record_fault_frame n fault s : same_frame s (record_fault n fault s).
Proof. unfold record_fault. cbv zeta. destruct (el_store_faults _ _) as [[] store]; by split. Qed.

Lemma record_verdict_frame v s : same_frame s (record_verdict v s).
Proof.
  unfold record_verdict. destruct (negb _); [done|]. cbv zeta.
  assert (Hf : same_frame s (match incarnations_ s !! av_node_id v with
      | Some held => if negb (held =? av_incarnation v) then record_fault (av_node_id v) DuplicateIncarnation s else s
      | None => s end)).
  { destruct (incarnations_ s !! _); [|done]. destruct (negb _); [apply record_fault_frame|done]. }
  exact Hf.
Qed.

Lemma flush_frame s : same_frame s (flush s).2.
Proof.
  assert (Ho : same_frame s (flush_observations s).2).
  { unfold flush_observations. destruct (observations_dirty_ s); [|done].
    destruct (el_store _ _ _) as [[] store]; by split. }
  assert (Hf : ∀ s, same_frame s (flush_faults s).2).
  { intros s0. unfold flush_faults. destruct (bool_decide _); [done|].
    destruct (el_store_faults _ _) as [[] store]; by split. }
  unfold flush. destruct (flush_observations s) as [ok s1]. cbn [snd] in Ho.
  specialize (Hf s1). destruct (flush_faults s1) as [ok' s2]. cbn [snd] in *. unfold same_frame in *.
  by destruct Ho as [-> ->] in Hf.
Qed.

(** A context as the service installs them. *)
Definition context_shaped (context : MeshFactContext) : Prop :=
  consensus_quorum (Z.of_nat (length (mc_observers context))) <= mc_quorum context <=
    Z.of_nat (length (mc_observers context)).

Lemma quorum_bounded n : 0 <= n → consensus_quorum n <= n.
Proof. intros Hn. unfold consensus_quorum. pose proof (max_byzantine_nonneg n Hn). lia. Qed.

(** What a call does to the finality. *)
Definition finality_after (c : ServiceCall) s : option FinalizedEligibility :=
  match c with
  | EnterEpoch _ _ | EnterGenesis _ | ClearFinalization => None
  | Finalize f => Some f
  | _ => finalized_ s
  end.

Lemma call_frame c s s' :
  service_ok s → context_shaped (context_ s) → call_service c s = Some s' →
  context_shaped (context_ s') ∧ finalized_ s' = finality_after c s.
Proof.
  intros Hs Hc.
  assert (Hin : ∀ e ctx, context_shaped ctx → entered (install e ctx s) = Some s' →
    context_shaped (context_ s') ∧ finalized_ s' = None).
  { intros e ctx Hx. destruct (install e ctx s) as [r s1] eqn:E. unfold entered. cbn [fst snd].
    destruct (install_ok e ctx s r s1 Hs E) as (Hf & Ex & _). rewrite <-Ex in Hx. destruct r; by intros [= <-]. }
  assert (Hsame : same_frame s s' → context_shaped (context_ s') ∧ finalized_ s' = finalized_ s).
  { intros [-> ->]. done. }
  destruct c as [e ms|fs|f|o|n f|v|n h d|p h d|a ch h d|f| |]; cbn [call_service finality_after].
  - apply Hin. unfold context_shaped. cbn. split; [done|]. apply quorum_bounded. lia.
  - apply Hin. unfold context_shaped. cbn. split; [|done]. apply quorum_bounded. lia.
  - intros [= <-]. by apply Hsame.
  - intros [= <-]. apply Hsame, accept_frame.
  - intros [= <-]. apply Hsame, record_fault_frame.
  - intros [= <-]. apply Hsame, record_verdict_frame.
  - intros [= <-]. apply Hsame. unfold observe_attestation. destruct (_ || _); [done|].
    destruct (sv_verdicts_ s !! n); [|done]. destruct (_ || _); [done|]. destruct (_ =? _); [done|].
    apply sign_and_accept_frame.
  - intros [= <-]. apply Hsame. unfold observe_participation, sign_participation.
    repeat case_match; try done; apply sign_and_accept_frame.
  - intros [= <-]. apply Hsame. unfold observe_participation_response, sign_participation.
    repeat case_match; try done; apply sign_and_accept_frame.
  - by intros [= <-].
  - by intros [= <-].
  - intros [= <-]. apply Hsame, flush_frame.
Qed.

(** A call that leaves the finality alone. *)
Definition leaves_finality (c : ServiceCall) : Prop :=
  match c with
  | EnterEpoch _ _ | EnterGenesis _ | ClearFinalization | Finalize _ => False
  | _ => True
  end.

Lemma run_finality calls : ∀ s s' f,
  service_ok s → context_shaped (context_ s) → Forall service_call_wf calls → call_services calls s = Some s' →
  finalized_ s' = Some f →
  (finalized_ s = Some f ∧ Forall leaves_finality calls) ∨
  ∃ before after, calls = before ++ Finalize f :: after ∧ Forall leaves_finality after.
Proof.
  induction calls as [|c calls IH]; intros s s' f Hs Hc Hwf; cbn [call_services].
  { intros [= <-] Hf. left. by split. }
  apply Forall_cons in Hwf as [Hw Hwf]. destruct (call_service c s) as [s1|] eqn:E; [|done].
  cbn [mbind option_bind]. intros Hrun Hf. destruct (call_frame c s s1 Hs Hc E) as [Hc1 Ef1].
  destruct (IH s1 s' f (call_service_ok c s s1 Hs Hw E) Hc1 Hwf Hrun Hf) as [[E1 Hl]|(before & after & -> & Hl)].
  - rewrite Ef1 in E1. destruct c; cbn [finality_after] in E1; try done; try (left; split; [done|by constructor]).
    apply (inj Some) in E1 as ->. right. by exists [], calls.
  - right. exists (c :: before), after. done.
Qed.

Lemma run_context calls : ∀ s s',
  service_ok s → context_shaped (context_ s) → Forall service_call_wf calls → call_services calls s = Some s' →
  context_shaped (context_ s').
Proof.
  induction calls as [|c calls IH]; intros s s' Hs Hc Hwf; cbn [call_services]; [by intros [= <-]|].
  apply Forall_cons in Hwf as [Hw Hwf]. destruct (call_service c s) as [s1|] eqn:E; [|done].
  cbn [mbind option_bind]. destruct (call_frame c s s1 Hs Hc E) as [Hc1 _].
  apply IH; [by eapply call_service_ok|done..].
Qed.

(** A state with an eligible node has distinct observers. *)
Lemma eligible_distinct s next n :
  context_shaped (context_ s) → n ∈ eligible_nodes (compute_state next s) → context_ok (context_ s).
Proof.
  intros Hc Hn. split; [|exact Hc]. unfold eligible_nodes in Hn. rewrite merge_sort_Permutation in Hn.
  apply list_elem_of_fmap in Hn as (r & _ & [_ Hin]%list_elem_of_filter). unfold compute_state in Hin.
  destruct (from_nodes _) as [t|] eqn:E; [|by apply elem_of_nil in Hin].
  apply from_nodes_members in E as [Hp Hnd]. by rewrite <-Hp.
Qed.

Lemma proved_claims_counted n i c l :
  all_platform_claims_proved (me_platform_claims (evaluate n i c l)) = true →
  context_ok c → ledger_ok c l → witness_threshold c n ≠ 0 → me_claim_observers (evaluate n i c l) ≠ 0.
Proof.
  intros Hp Hc Hl Hz E. destruct (claims_are_quorum_fact n i c l Hc Hl Hz) as [_ Hno]. specialize (Hno E).
  revert Hp E. unfold evaluate. rewrite (proj2 (Z.eqb_neq _ _) Hz). cbv zeta.
  cbn [me_platform_claims me_claim_observers]. destruct (head _) as [[d [k claims]]|] eqn:Eh; [|done].
  intros _ ->. assert (Hin : (d, (0, claims)) ∈ filter (λ '(_, (n0, _)), (witness_threshold c n <=? n0) = true)
    (in_order (foldl add_claims ∅ (filter (λ entry, is_attestation entry = true)
      (filter (λ entry, counts n i c entry = true) (entries l)))))).
  { destruct (filter _ (in_order _)); [done|]. injection Eh as ->. left. }
  apply list_elem_of_filter in Hin as [Hr%Z.leb_le _]. pose proof (threshold_above_faults c n Hc Hz).
  pose proof (max_byzantine_nonneg (Z.of_nat (length (mc_observers c)))). lia.
Qed.

(** ** Theorems *)

(** C10: what a released pool rests on, after any calls of the service: since the
    epoch was entered, [finalize] was handed a commitment for that boundary, and
    it is the digest of the state that the node computes now; every member of
    the pool is a candidate with a certificate, continuity, participation, no
    recorded fault and a fully proved, self-consistent claim set; and when at
    most [f] of the observers are faulty, a correct observer other than the
    member signed an attestation with exactly these claims, and a correct
    observer signed its participation. Entering an epoch drops the finality, so a
    restarted node releases nothing. (Whether the members agreed on the
    commitment is the matter of the consensus that hands it over.) *)
Theorem frozen_pool_sound (network : NetworkId) (self : NodeId) (identity : Ed25519Keypair) (store : St)
    (calls : list ServiceCall) (s : EligibilityService St) (next : EpochId) (pool : Tier1Set) (Byz : gset Z) :
  Forall service_call_wf calls → call_services calls (new_service network self identity store) = Some s →
  Z.of_nat (size Byz) <= max_byzantine_faults (Z.of_nat (length (mc_observers (context_ s)))) →
  frozen_pool next s = Some pool →
  (∃ before finalized after, calls = before ++ Finalize finalized :: after ∧ Forall leaves_finality after ∧
     fe_next_epoch finalized = next ∧
     fe_commitment finalized = eligibility_commitment_digest (compute_state next s)) ∧
  (∀ n, n ∈ t1_members pool → n ∈ candidates s ∧ faults_ (ledger_ s) !! n = None ∧
     (∃ source, certificate_source_ s = Some source ∧ source n = true) ∧
     let incarnation := judged_incarnation s n in
     let evidence := evaluate n incarnation (context_ s) (ledger_ s) in
     me_uptime_valid evidence = true ∧ me_mesh_health_valid evidence = true ∧
     platform_claims_are_consistent (me_platform_claims evidence) = true ∧
     all_platform_claims_proved (me_platform_claims evidence) = true ∧
     (∃ w o, w ∈ mc_observers (context_ s) ∧ w ∉ Byz ∧ w ≠ n ∧ keeps_statement (ledger_ s) o ∧
        vouches (context_ s) n incarnation w Attestation o ∧
        platform_claims_digest (ob_claims o) = platform_claims_digest (me_platform_claims evidence)) ∧
     (∃ w o, w ∈ mc_observers (context_ s) ∧ w ∉ Byz ∧ w ≠ n ∧ keeps_statement (ledger_ s) o ∧
        vouches (context_ s) n incarnation w Participation o)) ∧
  (∀ epoch context, frozen_pool next (install epoch context s).2 = None).
Proof.
  intros Hwf Hrun Hb Hp.
  pose proof (new_eligibility_service_ok network self identity store) as Hs0.
  assert (Hc0 : context_shaped (context_ (new_service network self identity store))) by done.
  pose proof (call_services_ok _ _ _ Hs0 Hwf Hrun) as Hs. pose proof (run_context _ _ _ Hs0 Hc0 Hwf Hrun) as Hc.
  destruct (frozen_pool_some s next pool Hp) as (f & Ef & En & Ec & Epool). split_and!.
  - destruct (run_finality _ _ _ _ Hs0 Hc0 Hwf Hrun Ef) as [[? _]|(before & after & E & Hl)]; [done|].
    by exists before, f, after.
  - intros n Hn. destruct (from_nodes_members _ _ Epool) as [Hperm _]. rewrite Hperm in Hn.
    pose proof (eligible_distinct s next n Hc Hn) as Hctx.
    apply elem_of_eligible_nodes in Hn as [Hcand He]. split; [done|].
    destruct (eligibility_record_eligible s n He) as (H1 & H2 & H3 & H4 & H5).
    split; [by apply (health_means_no_fault _ _ _ _ H3)|]. split; [done|]. cbv zeta.
    do 4 (split; [done|]). apply facts_have_honest_statements; [done|apply Hs|done..|].
    apply proved_claims_counted; [done|done|apply Hs|].
    apply (evaluate_bar n (judged_incarnation s n) (context_ s) (ledger_ s)). by left.
  - intros epoch context. destruct (install epoch context s) as [r s'] eqn:E.
    destruct (install_ok _ _ _ _ _ Hs E) as (Hf & _). unfold frozen_pool. cbn [snd]. by rewrite Hf.
Qed.

(** two nodes that release a pool for the same boundary under the same
    finalized commitment release the same pool, whatever each of them observed:
    the commitment binds every subject and every decision (SHA-256 is used on
    four inputs, assumed not to collide). *)
Theorem frozen_pools_agree (next : EpochId) (s1 s2 : EligibilityService St) (pool1 pool2 : Tier1Set)
    (f1 f2 : FinalizedEligibility) :
  let state1 := compute_state next s1 in
  let state2 := compute_state next s2 in
  frozen_pool next s1 = Some pool1 → frozen_pool next s2 = Some pool2 →
  finalized_ s1 = Some f1 → finalized_ s2 = Some f2 → fe_commitment f1 = fe_commitment f2 →
  subjects_fit state1 → subjects_fit state2 →
  is_digest (eligibility_state_digest state1) → is_digest (eligibility_state_digest state2) →
  (eligibility_commitment_digest state1 = eligibility_commitment_digest state2 →
    eligibility_commitment_encoder state1 = eligibility_commitment_encoder state2) →
  (eligibility_state_digest state1 = eligibility_state_digest state2 →
    eligibility_state_encoder state1 = eligibility_state_encoder state2) →
  pool1 = pool2.
Proof.
  intros state1 state2 Hp1 Hp2 Hf1 Hf2 Ef Hs1 Hs2 Hd1 Hd2 Hc1 Hc2.
  destruct (frozen_pool_some _ _ _ Hp1) as (g1 & E1 & _ & C1 & P1).
  destruct (frozen_pool_some _ _ _ Hp2) as (g2 & E2 & _ & C2 & P2).
  assert (Ec : eligibility_commitment_digest state1 = eligibility_commitment_digest state2)
    by (unfold state1, state2; congruence).
  apply Hc1, commitment_encoder_digest, Hc2, state_encoder_eligible in Ec; [|done..].
  unfold state1, state2 in Ec. congruence.
Qed.

(** what a clean shutdown wrote comes back: after any calls, when [flush]
    succeeds with observations pending, a service started on the resulting
    store and entering the same context restores exactly the records and the
    faults the first one held, with every signature verified again and no
    finality. *)
Theorem restart_restores (network self : Z) (identity : Ed25519Keypair) (store : St)
    (calls : list ServiceCall) (s s' : EligibilityService St) :
  Forall service_call_wf calls →
  call_services calls (new_service network self identity store) = Some s →
  observations_dirty_ s = true → storable (mc_epoch (context_ s)) (snapshot (ledger_ s)) →
  flush s = (true, s') →
  ∃ s'', install (mc_epoch (context_ s)) (context_ s)
           (new_service network self identity (store_ s')) = (Restored, s'') ∧
    ledger_ s'' = ledger_ s ∧ context_ s'' = context_ s ∧ finalized_ s'' = None.
Proof.
  intros Hc Hrun Hd Hst Hfl.
  assert (Hs : service_ok s) by (by eapply call_services_ok; [apply new_eligibility_service_ok| |]).
  destruct (flush_written s s' Hs Hd Hst Hfl) as [Hf Hl].
  set (fresh := new_service network self identity (store_ s')).
  assert (E0 : install_reset (context_ s) fresh = fresh <| context_ := context_ s |>) by reflexivity.
  unfold install. rewrite E0. change (store_ (fresh <| context_ := context_ s |>)) with (store_ s').
  rewrite Hf. change (ledger_ (fresh <| context_ := context_ s |>)) with empty_ledger.
  rewrite merge_faults_empty. cbv zeta. set (s2 := _ <| faults_written_ := _ |>).
  change (el_load _ (context_ s2) (ledger_ s2) (store_ s2)) with
    (el_load (mc_epoch (context_ s)) (context_ s) (mkLedger ∅ (faults_ (ledger_ s))) (store_ s')).
  rewrite Hl, (restore_snapshot _ _ _ (so_ledger s Hs)). cbn [fst snd].
  eexists. split; [done|]. split; [|done]. cbn. by destruct (ledger_ s).
Qed.

(** a clean shutdown can erase proved faults. A service that has not entered
    an epoch since it started (or that found its fault file damaged on entering
    one) holds an empty fault set; [flush], which the driver calls at every clean
    shutdown, then writes that empty set over the fault file. The header says a
    fault has no transition back and a damaged file must never be read as no
    faults. *)
Theorem shutdown_erases_faults (network self : Z) (identity : Ed25519Keypair) (store : St)
    (epoch : EpochId) (context : MeshFactContext) :
  let fresh := new_service network self identity store in
  (∀ s', flush fresh = (true, s') → el_load_faults (store_ s') = inl ∅) ∧
  (el_load_faults store = inr ElCorrupt →
    (install epoch context fresh).1 = RestoreCorrupt ∧
    ∀ s', flush (install epoch context fresh).2 = (true, s') → el_load_faults (store_ s') = inl ∅).
Proof.
  intros fresh. assert (Hgen : ∀ s s', observations_dirty_ s = false → faults_written_ s = None →
    faults_ (ledger_ s) = ∅ → flush s = (true, s') → el_load_faults (store_ s') = inl ∅).
  { intros s s' Hd Hw Hf. unfold flush, flush_observations, flush_faults. rewrite Hd, Hw, Hf.
    rewrite bool_decide_eq_false_2 by done.
    destruct (el_store_faults ∅ (store_ s)) as [[|] disk] eqn:E; intros [= <-].
    by apply (el_store_faults_load _ _ _ el_storable_none E). }
  split; [intros s'; by apply Hgen|]. intros Hcorrupt.
  unfold install, install_reset. cbn [observations_dirty_ new_service fresh store_ set_field].
  cbn. rewrite Hcorrupt. cbn [fst snd]. split; [done|]. intros s'. by apply Hgen.
Qed.
End service_theorems.

(** ** A member of the committee on a file store *)

Module Member.
#[export] Instance hex : HexCodec := {|
  sodium_bin2hex := letters;
  sodium_hex2bin _ s :=
    bytes ← unletters s; if forallb (λ b, (0 <=? b) && (b <? 256)) bytes then Some bytes else None |}.

#[export] Instance hex_laws : HexCodecLaws.
Proof.
  split; cbn.
  - intros bytes Hb. rewrite unletters_letters by done. cbn.
    assert (forallb (λ b, (0 <=? b) && (b <? 256)) bytes = true) as ->; [|done].
    apply forallb_forall. intros b Hin%list_elem_of_In. rewrite Forall_forall in Hb.
    specialize (Hb b Hin). unfold is_byte in Hb. apply andb_true_iff. split; [apply Z.leb_le|apply Z.ltb_lt]; lia.
  - apply letters_ascii.
  - intros _ s bytes. destruct (unletters s) as [bs|]; [|done]. cbn. destruct (forallb _ bs) eqn:E; [|done].
    intros [= <-]. apply Forall_forall. intros b Hin. rewrite forallb_forall in E.
    apply list_elem_of_In, E in Hin. bool_to_prop. done.
Qed.

(** An empty disk on which every call succeeds. *)
Definition disk : Disk := mkDisk ∅ [∅] (replicate 60 1000000) [].

Definition identity (node : NodeId) : Ed25519Keypair := mkKeypair node [node].
Definition start (node : NodeId) (d : Disk) : EligibilityService Disk :=
  new_service 9 node (identity node) d.
(** The statements of the history in another order. *)
Definition reordered `{Sodium} : list EligibilityObservation :=
  ((λ n, Committee.statement n 1 Participation 0 7) <$> [2; 5; 3; 4]) ++
  ((λ n, Committee.statement n 1 Attestation 11 7) <$> [5; 4; 3; 2]) ++
  ((λ n, Committee.statement n 1 Attestation 12 8) <$> [5; 3; 2; 4]).
Definition calls (history : list EligibilityObservation) : list ServiceCall :=
  [EnterEpoch 4 Committee.members; SetCertificateSource (λ _, true)] ++ (Accept <$> history).
End Member.

Section applications.
#[local] Existing Instance Committee.sodium.
#[local] Existing Instance Member.hex.
#[local] Existing Instance Member.hex_laws.
#[local] Instance member_store : IEligibilityStore Disk := file_eligibility_store "data".
#[local] Instance member_store_laws :
  EligibilityStoreLaws Disk storable_observations storable_faults := file_eligibility_store_laws "data".
Import Member.

(** The faults of node 3 were proved and written in an earlier run. *)
Definition faulty_disk : Disk := (el_store_faults {[ 3 := {[ Equivocation ]} ]} disk).2.

Lemma shutdown_erases_faults_run :
  el_load_faults faulty_disk = inl {[ 3 := {[ Equivocation ]} ]} ∧
  (flush (start 2 faulty_disk)).1 = true ∧
  el_load_faults (store_ (flush (start 2 faulty_disk)).2) = inl ∅.
Proof. vm_compute. done. Qed.

Definition after (node : NodeId) (history : list EligibilityObservation) : EligibilityService Disk :=
  default (start node disk) (call_services (calls history) (start node disk)).

Definition finalized_as (s : EligibilityService Disk) : EligibilityService Disk :=
  finalize (mkFinalized (eligibility_commitment_digest (compute_state 5 s)) 1 7 2 5) s.

Lemma shutdown_erases_faults_witness :
  (flush (start 2 faulty_disk)).1 = true ∧
  el_load_faults (store_ (flush (start 2 faulty_disk)).2) = inl ∅.
Proof.
  assert (E : (flush (start 2 faulty_disk)).1 = true) by (vm_compute; reflexivity).
  split; [exact E|].
  destruct (shutdown_erases_faults storable_observations storable_faults 9 2 (identity 2) faulty_disk
    4 Committee.context) as [Hf _].
  apply Hf. unfold start in *. destruct (flush (new_service 9 2 (identity 2) faulty_disk)).
  cbn [fst snd] in *. rewrite E. reflexivity.
Defined.

Lemma calls_wf history : Forall service_call_wf (calls history).
Proof.
  apply Forall_app. split; [repeat constructor|]. apply Forall_fmap, Forall_true. done.
Qed.

Definition member2 : EligibilityService Disk := after 2 Committee.history.
Definition member3 : EligibilityService Disk := after 3 reordered.

Lemma member2_run : call_services (calls Committee.history) (start 2 disk) = Some member2.
Proof. vm_compute. reflexivity. Qed.

Lemma member2_storable :
  storable_observations (mc_epoch (context_ member2)) (snapshot (ledger_ member2)).
Proof.
  split; [vm_compute; split; [discriminate|reflexivity]|].
  vm_compute.
  repeat (apply Forall_cons; split; [constructor; cbn;
    first [split; [discriminate|reflexivity] | left; reflexivity | right; reflexivity | discriminate
          | repeat constructor; discriminate]|]).
  by apply Forall_nil.
Qed.

Definition flushed2 : EligibilityService Disk := (flush member2).2.

Lemma flush2 : flush member2 = (true, flushed2).
Proof. vm_compute. reflexivity. Qed.

Lemma restart_restores_witness :
  ∃ s'', install (mc_epoch (context_ member2)) (context_ member2)
           (new_service 9 2 (identity 2) (store_ flushed2)) = (Restored, s'') ∧
    ledger_ s'' = ledger_ member2 ∧ size (records_ (ledger_ member2)) = 8%nat.
Proof.
  destruct (restart_restores storable_observations storable_faults 9 2 (identity 2) disk
    (calls Committee.history) member2 flushed2 (calls_wf _) member2_run ltac:(vm_compute; reflexivity)
    member2_storable flush2) as (s'' & E1 & E2 & _).
  exists s''. split; [exact E1|]. split; [exact E2|vm_compute; reflexivity].
Defined.

Definition final2 : EligibilityService Disk := finalized_as member2.
Definition final3 : EligibilityService Disk := finalized_as member3.
Definition pool : Tier1Set := mkTier1Set [1].

Lemma pools : frozen_pool 5 final2 = Some pool ∧ frozen_pool 5 final3 = Some pool.
Proof. vm_compute. done. Qed.

(** The same calls with the commitment finalized after them. *)
Definition final_calls : list ServiceCall :=
  calls Committee.history ++ [Finalize (mkFinalized (eligibility_commitment_digest (compute_state 5 member2)) 1 7 2 5)].

Lemma final_calls_wf : Forall service_call_wf final_calls.
Proof. apply Forall_app. split; [apply calls_wf|]. repeat constructor. Qed.

Lemma final2_run : call_services final_calls (new_service 9 2 (identity 2) disk) = Some final2.
Proof. vm_compute. reflexivity. Qed.

Lemma one_faulty :
  Z.of_nat (size ({[ 3 ]} : gset Z)) <= max_byzantine_faults (Z.of_nat (length (mc_observers (context_ final2)))).
Proof. vm_compute. discriminate. Qed.

Lemma frozen_pool_sound_witness :
  frozen_pool 5 final2 = Some pool ∧ 1 ∈ candidates final2 ∧
  ∃ w, w ∈ Committee.members ∧ w ∉ ({[ 3 ]} : gset Z) ∧ w ≠ 1.
Proof.
  split; [exact (proj1 pools)|].
  destruct (frozen_pool_sound storable_observations storable_faults 9 2 (identity 2) disk final_calls final2 5 pool {[ 3 ]}
    final_calls_wf final2_run one_faulty (proj1 pools)) as (_ & Hn & _).
  destruct (Hn 1 ltac:(left)) as (Hc & _ & _ & _ & _ & _ & _ & (w & o & H1 & H2 & H3 & _) & _).
  split; [exact Hc|]. exists w. split; [exact H1|split; [exact H2|exact H3]].
Defined.

Lemma subjects_fit_members s :
  er_subject <$> el_records s = Committee.members → subjects_fit s.
Proof.
  intros E. assert (Hf : Forall is_digest (er_subject <$> el_records s)).
  { rewrite E. repeat (apply Forall_cons; split; [split; [discriminate|reflexivity]|]). by apply Forall_nil. }
  by rewrite Forall_fmap in Hf.
Qed.

Lemma states_fit :
  subjects_fit (compute_state 5 final2) ∧ subjects_fit (compute_state 5 final3).
Proof. split; apply subjects_fit_members; vm_compute; reflexivity. Qed.

Lemma state_digests :
  is_digest (eligibility_state_digest (compute_state 5 final2)) ∧
  is_digest (eligibility_state_digest (compute_state 5 final3)).
Proof. split; vm_compute; (split; [discriminate|reflexivity]). Qed.

Lemma same_encoders :
  eligibility_commitment_encoder (compute_state 5 final2) =
    eligibility_commitment_encoder (compute_state 5 final3) ∧
  eligibility_state_encoder (compute_state 5 final2) = eligibility_state_encoder (compute_state 5 final3).
Proof. vm_compute. done. Qed.

Definition finality (s : EligibilityService Disk) : FinalizedEligibility :=
  default (mkFinalized 0 0 0 0 0) (finalized_ s).

Lemma frozen_pools_agree_witness :
  self_ final2 ≠ self_ final3 ∧ pool = pool.
Proof.
  split; [vm_compute; discriminate|].
  exact (frozen_pools_agree 5 final2 final3 pool pool (finality final2) (finality final3)
    (proj1 pools) (proj2 pools) ltac:(vm_compute; reflexivity) ltac:(vm_compute; reflexivity)
    ltac:(vm_compute; reflexivity) (proj1 states_fit) (proj2 states_fit)
    (proj1 state_digests) (proj2 state_digests) (λ _, proj1 same_encoders) (λ _, proj2 same_encoders)).
Defined.
End applications.
