(* ===== verification/IpamAddress.v ===== *)
(** * IPv4 text and CIDR arithmetic of the address manager

    Models the address helpers of [IPAM/IPAMService.cpp]: [ip_to_u32],
    [u32_to_ip], [parse_cidr], [format_cidr], [cidrs_overlap] and
    [server_tunnel_for_backbone], on 32-bit unsigned values. [std::to_string] of
    an unsigned value is its decimal text ([pretty]); a shift by more than the
    width (more than three dots, a prefix of zero) is undefined in the source
    and outside the theorems. *)

From Stdlib Require Import Ascii.
From S2P Require Import Prelude.

(** ** The block ranges *)

Definition kTunnelBase : Z := Z.lor (Z.shiftl 10 24) (Z.shiftl 64 16).
Definition kTunnelSize : Z := 4194304.
Definition kPrivateBase : Z := Z.lor (Z.shiftl 10 24) (Z.shiftl 128 16).
Definition kPrivateSize : Z := 8388608.
Definition kSharedBase : Z := Z.lor (Z.shiftl 172 24) (Z.shiftl 20 16).
Definition kSharedSize : Z := 262144.
Definition kBackboneBase : Z := Z.lor (Z.shiftl 172 24) (Z.shiftl 16 16).
Definition kBackboneMask : Z := 4294966272.
Definition kBackboneSize : Z := 1024.
Definition kBackboneUsableStart : Z := 10.
Definition kServerTunnelBase : Z :=
  Z.lor (Z.lor (Z.shiftl 10 24) (Z.shiftl 64 16)) (Z.shiftl 252 8).
Definition kServerTunnelSize : Z := 1024.
Definition kTreeTunnelFirstOffset : Z := Z.shiftl 1 16.
Definition kTreeTunnelFirst : Z := kTunnelBase + kTreeTunnelFirstOffset.

Definition is_tree_tunnel_ip (ip : Z) : bool :=
  (kTreeTunnelFirst <=? ip) && (ip <? kTunnelBase + kTunnelSize).
Definition is_server_tunnel_ip (ip : Z) : bool :=
  (kServerTunnelBase <=? ip) && (ip <? kServerTunnelBase + kServerTunnelSize).

(** ** Text *)

Definition u32_sub (a b : Z) : Z := (a - b) mod two32.

Record ScanState := mkScan { sc_result : Z; sc_octet : Z; sc_shift : Z }.

Definition place (s : ScanState) : Z :=
  Z.lor (sc_result s) (Z.shiftl (sc_octet s) (sc_shift s) mod two32).

(** A [char] is signed. *)
Definition char_value (c : Ascii.ascii) : Z :=
  let n := Z.of_nat (Ascii.nat_of_ascii c) in if n <? 128 then n else n - 256.

Definition octet_step (octet : Z) (c : Ascii.ascii) : Z :=
  (octet * 10 + (char_value c - 48)) mod two32.

Definition scan_char (s : ScanState) (c : Ascii.ascii) : ScanState :=
  if Ascii.eqb c "."%char then mkScan (place s) 0 (sc_shift s - 8)
  else mkScan (sc_result s) (octet_step (sc_octet s) c) (sc_shift s).

Definition scan (s : ScanState) (text : string) : ScanState :=
  foldl scan_char s (String.list_ascii_of_string text).

Definition ip_to_u32 (ip : string) : Z := place (scan (mkScan 0 0 24) ip).

(** [std::to_string] of an unsigned value. *)
Definition to_string (n : Z) : string := pretty (Z.to_N n).

Definition octet_of (ip : Z) (shift : Z) : Z := Z.land (Z.shiftr ip shift) 255.

Definition u32_to_ip (ip : Z) : string :=
  to_string (octet_of ip 24) +:+ "." +:+ to_string (octet_of ip 16) +:+ "." +:+
  to_string (octet_of ip 8) +:+ "." +:+ to_string (octet_of ip 0).

Definition format_cidr (ip prefix_len : Z) : string :=
  u32_to_ip ip +:+ "/" +:+ to_string prefix_len.

(** The text before and after the first slash. *)
Fixpoint split_slash (s : string) : option (string * string) :=
  match s with
  | EmptyString => None
  | String c rest =>
      if Ascii.eqb c "/"%char then Some (EmptyString, rest)
      else '(before, after) ← split_slash rest; Some (String c before, after)
  end.

Definition digit_of (c : Ascii.ascii) : option Z :=
  let n := Z.of_nat (Ascii.nat_of_ascii c) in
  if (48 <=? n) && (n <=? 57) then Some (n - 48) else None.

Definition is_space (c : Ascii.ascii) : bool :=
  let n := Z.of_nat (Ascii.nat_of_ascii c) in (n =? 32) || ((9 <=? n) && (n <=? 13)).

(** The digits at the front of a text. *)
Fixpoint leading_digits (acc : option Z) (s : string) : option Z :=
  match s with
  | String c rest =>
      match digit_of c with
      | Some d => leading_digits (Some (default 0 acc * 10 + d)) rest
      | None => acc
      end
  | EmptyString => acc
  end.

Fixpoint skip_space (s : string) : string :=
  match s with
  | String c rest => if is_space c then skip_space rest else s
  | EmptyString => s
  end.

(** [std::stoi]; [None]: no digits, or out of the range of [int]. *)
Definition stoi (s : string) : option Z :=
  let s := skip_space s in
  let '(sign, digits) :=
    match s with
    | String c rest =>
        if Ascii.eqb c "-"%char then (-1, rest)
        else if Ascii.eqb c "+"%char then (1, rest) else (1, s)
    | EmptyString => (1, s)
    end in
  value ← leading_digits None digits;
  let value := sign * value in
  if (-2147483648 <=? value) && (value <=? 2147483647) then Some value else None.

(** [None]: the function throws. *)
Definition parse_cidr (cidr : string) : option (Z * Z) :=
  '(address, rest) ← split_slash cidr;
  prefix ← stoi rest;
  Some (ip_to_u32 address, prefix mod 256).

(** ** Ranges *)

Definition cidrs_overlap (a_ip a_prefix b_ip b_prefix : Z) : bool :=
  let min_prefix := std_min a_prefix b_prefix in
  let mask := if min_prefix =? 0 then 0
              else (Z.shiftl 4294967295 (32 - min_prefix)) mod two32 in
  Z.land a_ip mask =? Z.land b_ip mask.

Fixpoint count_dots (s : string) : nat :=
  match s with
  | EmptyString => 0
  | String c rest => (if Ascii.eqb c "."%char then 1 else 0) + count_dots rest
  end.

Fixpoint address_text (s : string) : bool :=
  match s with
  | EmptyString => true
  | String c rest =>
      (Ascii.eqb c "."%char || match digit_of c with Some _ => true | None => false end) &&
      address_text rest
  end.

Definition server_tunnel_for_backbone (backbone_cidr : string) : option string :=
  let parts := match split_slash backbone_cidr with
               | Some (address, rest) => if String.eqb rest "32" then Some address else None
               | None => Some backbone_cidr
               end in
  address ← parts;
  if (15 <? Z.of_nat (String.length address)) || negb (Nat.eqb (count_dots address) 3) ||
     negb (address_text address)
  then None
  else
    let ip := ip_to_u32 address in
    if negb (String.eqb (u32_to_ip ip) address) then None
    else if negb (Z.land ip kBackboneMask =? kBackboneBase) then None
    else
      let offset := u32_sub ip kBackboneBase in
      if offset <? kBackboneUsableStart then None
      else Some (format_cidr ((kServerTunnelBase + offset) mod two32) 32).

(** ** Lemmas: text round trips *)

Lemma chars_app (s t : string) :
  String.list_ascii_of_string (s +:+ t) =
  String.list_ascii_of_string s ++ String.list_ascii_of_string t.
Proof. induction s as [|c s IH]; [done|]. simpl. f_equal. exact IH. Qed.

Lemma scan_app st s t : scan st (s +:+ t) = scan (scan st s) t.
Proof. unfold scan. by rewrite chars_app, foldl_app. Qed.

Definition digits_only (s : string) : bool :=
  forallb (λ c, negb (Ascii.eqb c "."%char) && negb (Ascii.eqb c "/"%char))
          (String.list_ascii_of_string s).

Lemma scan_digits r o k s :
  digits_only s = true →
  scan (mkScan r o k) s = mkScan r (foldl octet_step o (String.list_ascii_of_string s)) k.
Proof.
  unfold scan, digits_only. revert o.
  induction (String.list_ascii_of_string s) as [|c l IH]; intros o Hd; [done|].
  simpl in Hd |- *. apply andb_true_iff in Hd as [[Hc _]%andb_true_iff Hd].
  unfold scan_char at 2. apply negb_true_iff in Hc. rewrite Hc. by apply IH.
Qed.

(** The decimal text of an octet, checked for every octet. *)
Definition octet_text_ok (n : Z) : bool :=
  digits_only (to_string n) &&
  (foldl octet_step 0 (String.list_ascii_of_string (to_string n)) =? n) &&
  bool_decide (stoi (to_string n) = Some n).

Lemma octets_ok : forallb octet_text_ok (seqZ 0 256) = true.
Proof. vm_compute. reflexivity. Qed.

Lemma octet_text n :
  0 <= n < 256 →
  digits_only (to_string n) = true ∧
  foldl octet_step 0 (String.list_ascii_of_string (to_string n)) = n ∧
  stoi (to_string n) = Some n.
Proof.
  intros Hn. pose proof octets_ok as Hall. rewrite forallb_forall in Hall.
  assert (Hin : n ∈ seqZ 0 256) by (apply elem_of_seqZ; lia).
  apply list_elem_of_In, Hall in Hin. unfold octet_text_ok in Hin.
  by repeat (apply andb_true_iff in Hin as [Hin ?%bool_decide_eq_true_1]
             || apply andb_true_iff in Hin as [Hin ?%Z.eqb_eq]).
Qed.

Lemma scan_octet r k n :
  0 <= n < 256 → scan (mkScan r 0 k) (to_string n) = mkScan r n k.
Proof. intros (Hd & Hv & _)%octet_text. by rewrite scan_digits, Hv. Qed.

Lemma octet_range ip k : 0 <= octet_of ip k < 256.
Proof.
  unfold octet_of. change 255 with (Z.ones 8).
  rewrite Z.land_ones by lia. apply Z.mod_pos_bound. lia.
Qed.

Lemma octets_join ip :
  is_u32 ip →
  Z.lor (Z.lor (Z.lor (Z.lor 0 (Z.shiftl (octet_of ip 24) 24 mod two32))
    (Z.shiftl (octet_of ip 16) 16 mod two32)) (Z.shiftl (octet_of ip 8) 8 mod two32))
    (Z.shiftl (octet_of ip 0) 0 mod two32) = ip.
Proof.
  intros Hip. assert (Hz : ip = ip mod 2 ^ 32) by (symmetry; apply Z.mod_small; exact Hip).
  change two32 with (2 ^ 32). unfold octet_of. change 255 with (Z.ones 8).
  apply Z.bits_inj'. intros i Hi. rewrite Hz at 5.
  rewrite !Z.lor_spec, <- !Z.land_ones, !Z.land_spec, Z.bits_0 by lia.
  rewrite !Z.shiftl_spec, !Z.land_spec by lia.
  assert (Hbit : ∀ k, 0 <= k → Z.testbit (Z.shiftr ip k) (i - k) =
                               if i <? k then Z.testbit (Z.shiftr ip k) (i - k) else Z.testbit ip i).
  { intros k Hk. destruct (Z.ltb_spec i k); [done|].
    rewrite Z.shiftr_spec by lia. f_equal. lia. }
  rewrite (Hbit 24), (Hbit 16), (Hbit 8), (Hbit 0) by lia.
  rewrite !(Z.testbit_ones 8), !(Z.testbit_ones 32) by lia.
  repeat match goal with
  | |- context [?a <=? ?b] => destruct (Z.leb_spec a b); try lia
  | |- context [?a <? ?b] => destruct (Z.ltb_spec a b); try lia
  end; simpl; rewrite ?andb_false_r, ?andb_true_r, ?orb_false_r; try done.
Qed.

Lemma ip_round_trip ip : is_u32 ip → ip_to_u32 (u32_to_ip ip) = ip.
Proof.
  intros Hip. unfold ip_to_u32, u32_to_ip. rewrite !scan_app.
  rewrite (scan_octet _ _ _ (octet_range ip 24)).
  assert (Hdot : ∀ r o k, scan (mkScan r o k) "." = mkScan (place (mkScan r o k)) 0 (k - 8)) by done.
  rewrite Hdot, (scan_octet _ _ _ (octet_range ip 16)), Hdot,
    (scan_octet _ _ _ (octet_range ip 8)), Hdot, (scan_octet _ _ _ (octet_range ip 0)).
  exact (octets_join ip Hip).
Qed.

Lemma split_slash_digits s rest :
  forallb (λ c, negb (Ascii.eqb c "/"%char)) (String.list_ascii_of_string s) = true →
  split_slash (s +:+ "/" +:+ rest) = Some (s, rest).
Proof.
  induction s as [|c s IH]; intros Hs; [done|].
  simpl in Hs. apply andb_true_iff in Hs as [Hc%negb_true_iff Hs].
  change (String c s +:+ "/" +:+ rest) with (String c (s +:+ "/" +:+ rest)).
  cbn [split_slash]. rewrite Hc, (IH Hs). done.
Qed.

Lemma digits_only_no_slash s :
  digits_only s = true →
  forallb (λ c, negb (Ascii.eqb c "/"%char)) (String.list_ascii_of_string s) = true.
Proof.
  unfold digits_only. intros Hd. rewrite forallb_forall in Hd |- *.
  intros c Hc. by apply Hd, andb_true_iff in Hc as [_ ?].
Qed.

Lemma u32_to_ip_no_slash ip :
  forallb (λ c, negb (Ascii.eqb c "/"%char)) (String.list_ascii_of_string (u32_to_ip ip)) = true.
Proof.
  unfold u32_to_ip. rewrite !chars_app, !forallb_app.
  assert (Ho : ∀ k, forallb (λ c, negb (Ascii.eqb c "/"%char))
    (String.list_ascii_of_string (to_string (octet_of ip k))) = true).
  { intros k. apply digits_only_no_slash, octet_text, octet_range. }
  by rewrite !Ho.
Qed.

Lemma parse_format_cidr ip p :
  is_u32 ip → 0 <= p < 256 → parse_cidr (format_cidr ip p) = Some (ip, p).
Proof.
  intros Hip Hp. unfold parse_cidr, format_cidr.
  rewrite (split_slash_digits _ _ (u32_to_ip_no_slash ip)). simpl.
  destruct (octet_text p Hp) as (_ & _ & ->). simpl.
  by rewrite ip_round_trip, Z.mod_small.
Qed.

Lemma u32_to_ip_inj a b : is_u32 a → is_u32 b → u32_to_ip a = u32_to_ip b → a = b.
Proof.
  intros Ha Hb E. by rewrite <- (ip_round_trip a Ha), <- (ip_round_trip b Hb), E.
Qed.

Lemma format_cidr_inj a p b q :
  is_u32 a → is_u32 b → 0 <= p < 256 → 0 <= q < 256 →
  format_cidr a p = format_cidr b q → a = b ∧ p = q.
Proof.
  intros Ha Hb Hp Hq E. pose proof (parse_format_cidr a p Ha Hp) as Pa.
  rewrite E, (parse_format_cidr b q Hb Hq) in Pa. by simplify_eq.
Qed.

(** ** Lemmas: ranges *)

(** The addresses of the block [ip/prefix]: those that share its network part. *)
Definition in_block (ip prefix x : Z) : Prop :=
  x `div` 2 ^ (32 - prefix) = ip `div` 2 ^ (32 - prefix).

(** [cidrs_overlap] holds exactly when some address is in both blocks. *)
Lemma mask_eq p a b :
  0 <= p <= 32 → is_u32 a → is_u32 b →
  Z.land a (if p =? 0 then 0 else (Z.shiftl 4294967295 (32 - p)) mod two32) =
  Z.land b (if p =? 0 then 0 else (Z.shiftl 4294967295 (32 - p)) mod two32) ↔
  a `div` 2 ^ (32 - p) = b `div` 2 ^ (32 - p).
Proof.
  intros Hp Ha Hb. set (k := 32 - p). assert (Hk : 0 <= k <= 32) by lia.
  assert (Hm : ∀ x, is_u32 x →
    Z.land x (if p =? 0 then 0 else (Z.shiftl 4294967295 k) mod two32) =
    Z.shiftl (x `div` 2 ^ k) k).
  { intros x Hx. destruct (Z.eqb_spec p 0) as [->|Hp0].
    { rewrite Z.land_0_r. replace k with 32 by lia.
      rewrite Z.div_small by exact Hx. by rewrite Z.shiftl_0_l. }
    rewrite <- Z.shiftr_div_pow2 by lia. change 4294967295 with (Z.ones 32).
    change two32 with (2 ^ 32). rewrite <- Z.land_ones by lia.
    assert (Hz : x = Z.land x (Z.ones 32))
      by (rewrite Z.land_ones by lia; symmetry; apply Z.mod_small; exact Hx).
    apply Z.bits_inj'. intros i Hi. rewrite Hz.
    rewrite !Z.land_spec, !Z.shiftl_spec, !Z.testbit_ones by lia.
    destruct (Z.ltb_spec i k).
    - rewrite (Z.testbit_neg_r (Z.shiftr _ _)) by lia.
      destruct (Z.leb_spec 0 (i - k)); [lia|]. simpl. by rewrite !andb_false_r.
    - rewrite Z.shiftr_spec, Z.land_spec, Z.testbit_ones by lia.
      replace (i - k + k) with i by lia.
      destruct (Z.leb_spec 0 (i - k)); [|lia]. destruct (Z.ltb_spec i 32); simpl;
        destruct (Z.leb_spec 0 i); simpl; rewrite ?andb_false_r, ?andb_true_r; try done; try lia.
      destruct (Z.ltb_spec (i - k) 32); [by rewrite ?andb_true_r|lia]. }
  rewrite (Hm a Ha), (Hm b Hb), !Z.shiftl_mul_pow2 by lia.
  assert (0 < 2 ^ k) by (apply Z.pow_pos_nonneg; lia).
  split; [intros E; nia|by intros ->].
Qed.

Lemma div_pow_coarser x y j k :
  0 <= j <= k → x `div` 2 ^ j = y `div` 2 ^ j → x `div` 2 ^ k = y `div` 2 ^ k.
Proof.
  intros Hjk E. replace k with (j + (k - j)) by lia.
  rewrite !Z.pow_add_r by lia.
  rewrite <- !Z.div_div by (try apply Z.pow_nonzero; try apply Z.pow_pos_nonneg; lia).
  by rewrite E.
Qed.

Lemma cidrs_overlap_spec a p b q :
  is_u32 a → is_u32 b → 0 <= p <= 32 → 0 <= q <= 32 →
  cidrs_overlap a p b q = true ↔ ∃ x, in_block a p x ∧ in_block b q x.
Proof.
  intros Ha Hb Hp Hq. unfold cidrs_overlap. rewrite Z.eqb_eq, std_min_spec.
  rewrite mask_eq by (auto; lia). unfold in_block.
  destruct (Z.le_ge_cases p q) as [Hle|Hle].
  - rewrite Z.min_l by lia. split.
    + intros E. exists b. by split.
    + intros (x & Hx & Hy). rewrite <- Hx. eapply div_pow_coarser; [|exact Hy]. lia.
  - rewrite Z.min_r by lia. split.
    + intros E. exists a. by split.
    + intros (x & Hx & Hy). rewrite <- Hy. symmetry. eapply div_pow_coarser; [|exact Hx]. lia.
Qed.

Lemma is_u32_land x : is_u32 x ↔ Z.land x (Z.ones 32) = x.
Proof.
  rewrite Z.land_ones by lia. unfold is_u32. change two32 with (2 ^ 32). split.
  - intros Hx. by apply Z.mod_small.
  - intros <-. by apply Z.mod_pos_bound.
Qed.

Lemma u32_lor a b : is_u32 a → is_u32 b → is_u32 (Z.lor a b).
Proof. rewrite !is_u32_land, Z.land_lor_distr_l. by intros -> ->. Qed.

Lemma place_u32 s : is_u32 (sc_result s) → is_u32 (place s).
Proof. intros Hs. apply u32_lor; [done|]. by apply Z.mod_pos_bound. Qed.

Lemma ip_to_u32_range text : is_u32 (ip_to_u32 text).
Proof.
  unfold ip_to_u32, scan. apply place_u32.
  assert (Hgen : ∀ l s, is_u32 (sc_result s) → is_u32 (sc_result (foldl scan_char s l))).
  { induction l as [|c l IH]; intros s Hs; [done|]. simpl. apply IH.
    unfold scan_char. destruct (Ascii.eqb c "."%char); [by apply place_u32|done]. }
  by apply Hgen.
Qed.

Lemma parse_cidr_range cidr ip p :
  parse_cidr cidr = Some (ip, p) → is_u32 ip ∧ 0 <= p < 256.
Proof.
  unfold parse_cidr. destruct (split_slash cidr) as [[address rest]|]; [|done]. simpl.
  destruct (stoi rest) as [prefix|]; [|done]. simpl. intros [= <- <-].
  split; [apply ip_to_u32_range|by apply Z.mod_pos_bound].
Qed.

Lemma backbone_mask ip :
  is_u32 ip → Z.land ip kBackboneMask = kBackboneBase ↔ kBackboneBase <= ip < kBackboneBase + 1024.
Proof.
  intros Hip. change kBackboneBase with (Z.land kBackboneBase kBackboneMask) at 1.
  change kBackboneMask with
    (if 22 =? 0 then 0 else (Z.shiftl 4294967295 (32 - 22)) mod two32).
  rewrite mask_eq; [|lia|done|by vm_compute]. change (2 ^ (32 - 22)) with 1024.
  change (kBackboneBase `div` 1024) with 2819072.
  change kBackboneBase with 2886729728.
  split; [|intros ?; symmetry; apply (Z.div_unique _ _ _ (ip - 2886729728)); lia].
  intros E. pose proof (Z.div_mod ip 1024). pose proof (Z.mod_pos_bound ip 1024). lia.
Qed.

Lemma split_slash_app s a r :
  split_slash s = Some (a, r) → s = a +:+ "/" +:+ r.
Proof.
  revert a r. induction s as [|c s IH]; intros a r E; [done|]. cbn [split_slash] in E.
  destruct (Ascii.eqb_spec c "/"%char) as [->|Hc]; [by simplify_eq|].
  destruct (split_slash s) as [[a' r']|]; [|done]. simpl in E. simplify_eq.
  change (String c a' +:+ "/" +:+ r) with (String c (a' +:+ "/" +:+ r)). f_equal. by apply IH.
Qed.

(** What [server_tunnel_for_backbone] accepts, and its answer. *)
Lemma server_tunnel_inv cidr tunnel :
  server_tunnel_for_backbone cidr = Some tunnel →
  ∃ offset, kBackboneUsableStart <= offset < kBackboneSize ∧
    tunnel = format_cidr (kServerTunnelBase + offset) 32 ∧
    (cidr = u32_to_ip (kBackboneBase + offset) ∨
     cidr = format_cidr (kBackboneBase + offset) 32).
Proof.
  unfold server_tunnel_for_backbone. intros E.
  set (parts := match split_slash cidr with
                | Some (address, rest) => if String.eqb rest "32" then Some address else None
                | None => Some cidr
                end) in E.
  destruct parts as [address|] eqn:Ep; [|discriminate E]. cbn [mbind option_bind] in E.
  destruct ((15 <? _) || _ || _); [discriminate E|].
  pose proof (ip_to_u32_range address) as Hip. set (ip := ip_to_u32 address) in *.
  destruct (String.eqb_spec (u32_to_ip ip) address) as [Ea|]; [|discriminate E]. cbn [negb] in E.
  destruct (Z.eqb_spec (Z.land ip kBackboneMask) kBackboneBase) as [Em|]; [|discriminate E]. cbn [negb] in E.
  apply (backbone_mask ip Hip) in Em. unfold u32_sub in E.
  rewrite Z.mod_small in E by (unfold two32; lia).
  destruct (Z.ltb_spec (ip - kBackboneBase) kBackboneUsableStart); [discriminate E|].
  exists (ip - kBackboneBase). replace (kBackboneBase + (ip - kBackboneBase)) with ip by lia.
  split; [unfold kBackboneSize; lia|]. split.
  - injection E as <-. f_equal. apply Z.mod_small.
    change kServerTunnelBase with 172030976. change two32 with 4294967296. lia.
  - subst parts. destruct (split_slash cidr) as [[a r]|] eqn:Es.
    + destruct (String.eqb_spec r "32") as [->|]; [|discriminate]. injection Ep as ->.
      right. apply split_slash_app in Es. rewrite Es. unfold format_cidr. by rewrite Ea.
    + injection Ep as ->. by left.
Qed.

Definition maps_offset (offset : Z) : bool :=
  bool_decide (server_tunnel_for_backbone (format_cidr (kBackboneBase + offset) 32) =
               Some (format_cidr (kServerTunnelBase + offset) 32)).

Definition maps_bare_offset (offset : Z) : bool :=
  bool_decide (server_tunnel_for_backbone (u32_to_ip (kBackboneBase + offset)) =
               Some (format_cidr (kServerTunnelBase + offset) 32)).

Lemma all_bare_offsets_map : forallb maps_bare_offset (seqZ 10 1014) = true.
Proof. vm_compute. reflexivity. Qed.

Lemma server_tunnel_bare offset :
  kBackboneUsableStart <= offset < kBackboneSize →
  server_tunnel_for_backbone (u32_to_ip (kBackboneBase + offset)) =
  Some (format_cidr (kServerTunnelBase + offset) 32).
Proof.
  intros Ho. pose proof all_bare_offsets_map as Hall. rewrite forallb_forall in Hall.
  assert (Hin : offset ∈ seqZ 10 1014)
    by (apply elem_of_seqZ; unfold kBackboneUsableStart, kBackboneSize in Ho; lia).
  apply list_elem_of_In, Hall in Hin. by apply bool_decide_eq_true_1 in Hin.
Qed.

Lemma all_offsets_map : forallb maps_offset (seqZ 10 1014) = true.
Proof. vm_compute. reflexivity. Qed.

Lemma server_tunnel_maps offset :
  kBackboneUsableStart <= offset < kBackboneSize →
  server_tunnel_for_backbone (format_cidr (kBackboneBase + offset) 32) =
  Some (format_cidr (kServerTunnelBase + offset) 32).
Proof.
  intros Ho. pose proof all_offsets_map as Hall. rewrite forallb_forall in Hall.
  assert (Hin : offset ∈ seqZ 10 1014)
    by (apply elem_of_seqZ; unfold kBackboneUsableStart, kBackboneSize in Ho; lia).
  apply list_elem_of_In, Hall in Hin. by apply bool_decide_eq_true_1 in Hin.
Qed.
