(* ===== verification/FileStorage.v ===== *)
(** * Signed envelopes in the data directory

    Models the generic file operations of [Storage/FileStorageService.cpp]
    ([do_write_file], [do_read_file], [do_delete_file], the path checks and the
    envelope text) on the disk of [DurableWrite.v], for a service without a
    storage vault. The file is written in place, not through the durable write.
    [dump(2)] and the conversion of a floating-point number are nlohmann's and
    parameters here. The class [Storage] is what a client sees; the address
    manager is modelled against it. *)

From Stdlib Require Import Ascii.
From S2P Require Import Prelude SecurityPolicy CanonicalEncoding ConsensusTypes DurableWrite.
From S2P Require Import Json.

Record SignedEnvelope := mkEnvelope {
  env_version : Z;
  env_type : string;
  env_data : list Z;
  env_signer_pubkey : string;
  env_signature : string;
  env_timestamp : Z;
}.

Class ValueCodec := {
  json_dump_indented : json → list Z;
  (** an object in which the value of the key is a discarded parse result *)
  json_dump_discarded : gmap string json → string → list Z;
  json_float_to_integer : string → Z;
}.

Class ValueCodecLaws `{TextCodec, ValueCodec} := {
  indented_round_trip : ∀ j, json_fits j → json_parse (json_dump_indented j) = Some j;
}.

(** ** The interface *)

Class Storage (S : Type) := {
  write_file : string → string → SignedEnvelope → S → bool * S;
  read_file : string → string → S → option SignedEnvelope;
}.

(** The envelopes a service writes: a JSON document as data, plain fields. *)
Definition envelope_fits `{TextCodec} (e : SignedEnvelope) : Prop :=
  (∃ j, json_fits j ∧ env_data e = json_dump j) ∧ is_u32 (env_version e) ∧
  is_u64 (env_timestamp e) ∧ ascii_text (env_type e) ∧ ascii_text (env_signer_pubkey e) ∧
  ascii_text (env_signature e).

(** What a client relies on for the file [category/name]. *)
Class StorageLaws (S : Type) `{TextCodec, Storage S} (category name : string) := {
  write_then_read : ∀ envelope s s',
    envelope_fits envelope → write_file category name envelope s = (true, s') →
    read_file category name s' = Some envelope;
}.

(** ** [json::value] *)

(** [None]: the function throws. *)
Definition value_string (j : json) (key fallback : string) : option string :=
  match j with
  | JObject fields =>
      match fields !! key with
      | None => Some fallback
      | Some (JString s) => Some s
      | Some _ => None
      end
  | _ => None
  end.

(** [get<T>] of an unsigned integer type of the given width; only the 64-bit one
    refuses a boolean. *)
Definition get_unsigned `{ValueCodec} (width : Z) (j : json) : option Z :=
  match j with
  | JUnsigned z => Some (z mod width)
  | JNegative z => Some (z mod width)
  | JBoolean b => if width =? two64 then None else Some (if b then 1 else 0)
  | JFloat text => Some (json_float_to_integer text mod width)
  | _ => None
  end.

Definition value_unsigned `{ValueCodec} (width : Z) (j : json) (key : string) (fallback : Z)
    : option Z :=
  match j with
  | JObject fields =>
      match fields !! key with
      | None => Some fallback
      | Some value => get_unsigned width value
      end
  | _ => None
  end.

Section storage.
Context `{TextCodec, ValueCodec}.

(** ** Envelope text *)

Definition envelope_to_json (env : SignedEnvelope) : list Z :=
  let fields :=
    [("version", JUnsigned (env_version env)); ("type", JString (env_type env));
     ("signer_pubkey", JString (env_signer_pubkey env));
     ("signature", JString (env_signature env));
     ("timestamp", JUnsigned (env_timestamp env))] in
  match json_parse (env_data env) with
  | Some data => json_dump_indented (object (("data", data) :: fields))
  | None => json_dump_discarded (list_to_map fields) "data"
  end.

(** [None]: the text is not JSON, or a field has the wrong type. *)
Definition json_to_envelope (json_str : list Z) : option SignedEnvelope :=
  j ← json_parse json_str;
  version ← value_unsigned two32 j "version" 1;
  type ← value_string j "type" "";
  signer_pubkey ← value_string j "signer_pubkey" "";
  signature ← value_string j "signature" "";
  timestamp ← value_unsigned two64 j "timestamp" 0;
  let data := match j with
              | JObject fields =>
                  match fields !! "data" with Some d => json_dump d | None => [] end
              | _ => []
              end in
  Some (mkEnvelope version type data signer_pubkey signature timestamp).

(** ** Paths *)

Fixpoint has_char (c : Ascii.ascii) (s : string) : bool :=
  match s with
  | EmptyString => false
  | String x rest => Ascii.eqb x c || has_char c rest
  end.

Fixpoint has_dots (s : string) : bool :=
  match s with
  | String x ((String y _) as rest) =>
      (Ascii.eqb x "."%char && Ascii.eqb y "."%char) || has_dots rest
  | _ => false
  end.

Definition is_safe_path_component (component : string) : bool :=
  if String.eqb component "" then false
  else if has_dots component then false
  else if has_char "/"%char component then false
  else if has_char "\"%char component then false
  else if has_char "000"%char component then false
  else true.

(** [None]: path traversal is rejected with an exception. *)
Definition file_path (data_root category file_name : string) : option string :=
  if negb (is_safe_path_component category) then None
  else if negb (is_safe_path_component file_name) then None
  else Some (data_root +:+ "/" +:+ category +:+ "/" +:+ file_name).

(** ** Operations *)

Definition do_write_file (data_root category file_name : string) (envelope : SignedEnvelope)
    (d : Disk) : bool * Disk :=
  match file_path data_root category file_name with
  | None => (false, d)
  | Some path =>
      let '(created, d) := succeeds d in
      if negb created then (false, d)
      else
        let '(opened, d) := sys_open_trunc path d in
        if negb opened then (false, d)
        else
          let text := envelope_to_json envelope in
          let '(good, d) := write_all (S (length text)) path text d in
          let '(permissions_ok, d) := succeeds d in
          (good && permissions_ok, d)
  end.

Definition do_read_file (data_root category file_name : string) (d : Disk)
    : option SignedEnvelope :=
  path ← file_path data_root category file_name;
  text ← DurableWrite.read_file path d;
  json_to_envelope text.

Definition do_delete_file (data_root category file_name : string) (d : Disk) : bool * Disk :=
  match file_path data_root category file_name with
  | None => (false, d)
  | Some path =>
      let '(ok, d) := succeeds d in
      if ok && bool_decide (is_Some (live d !! path)) then (true, sys_remove path d)
      else (false, d)
  end.

Definition file_storage (data_root : string) : Storage Disk := {|
  write_file := do_write_file data_root;
  read_file := do_read_file data_root;
|}.

(** ** Lemmas *)

Lemma envelope_round_trip `{!TextCodecLaws, !ValueCodecLaws} env :
  envelope_fits env → json_to_envelope (envelope_to_json env) = Some env.
Proof.
  intros ((j & Hj & Ed) & Hv & Ht & Ay & Ap & As). unfold envelope_to_json.
  rewrite Ed, (json_round_trip j Hj). unfold json_to_envelope.
  rewrite indented_round_trip.
  - cbn [mbind option_bind]. unfold value_unsigned, get_unsigned, value_string, object.
    rewrite !lookup_fields. cbn [assoc]. simpl.
    rewrite !Z.mod_small by (done || exact Hv || exact Ht).
    rewrite <- Ed. by destruct env.
  - apply fits_object; intros k v; rewrite lookup_fields; cbn [assoc];
      repeat match goal with
      | |- context [String.eqb k ?t] =>
          destruct (String.eqb_spec k t) as [->|?]; [intros [= <-]|]
      end; try discriminate;
      first [exact Hj | by constructor | by repeat constructor | constructor].
    unfold is_u32, is_u64, two32, two64 in *. lia.
Qed.

Lemma has_char_app c s t : has_char c (s +:+ t) = has_char c s || has_char c t.
Proof. induction s as [|x s IH]; [done|]. simpl. by rewrite <- orb_assoc, <- IH. Qed.

Lemma safe_no_slash s : is_safe_path_component s = true → has_char "/"%char s = false.
Proof.
  unfold is_safe_path_component. destruct (String.eqb s ""), (has_dots s); try done.
  by destruct (has_char "/"%char s).
Qed.

Lemma append_inj_r (s t u : string) : s +:+ t = s +:+ u → t = u.
Proof. induction s as [|c s IH]; [done|]. intros [= E]. auto. Qed.

Lemma slash_split s t u v :
  has_char "/"%char s = false → has_char "/"%char t = false →
  s +:+ String "/"%char u = t +:+ String "/"%char v → s = t ∧ u = v.
Proof.
  revert t. induction s as [|x s IH]; intros [|y t] Hs Ht E; simpl in Hs, Ht.
  - by injection E as ->.
  - injection E as <- _. discriminate Ht.
  - injection E as -> _. discriminate Hs.
  - apply orb_false_iff in Hs as [_ Hs], Ht as [_ Ht]. injection E as -> E.
    destruct (IH t Hs Ht E) as [-> ->]. done.
Qed.

Lemma file_path_spec root category name path :
  file_path root category name = Some path ↔
  is_safe_path_component category = true ∧ is_safe_path_component name = true ∧
  path = root +:+ "/" +:+ category +:+ "/" +:+ name.
Proof.
  unfold file_path. destruct (is_safe_path_component category), (is_safe_path_component name);
    simpl; try (split; [done|by intros (? & ? & _)]). split; [by intros [= <-]|by intros (_ & _ & ->)].
Qed.

(** Two files of the directory share a path only when they are the same file. *)
Lemma file_path_inj root c n c' n' path :
  file_path root c n = Some path → file_path root c' n' = Some path → c = c' ∧ n = n'.
Proof.
  rewrite !file_path_spec. intros (Hc & _ & ->) (Hc' & _ & E).
  apply append_inj_r in E. injection E as E.
  apply slash_split in E; [done| |]; by apply safe_no_slash.
Qed.

Lemma write_all_live fuel path rest d w b ok d' :
  live d !! path = Some (mkFile w b) → write_all fuel path rest d = (ok, d') →
  ok = true → ∃ b', live d' !! path = Some (mkFile (w ++ rest) b').
Proof.
  revert rest d w b. induction fuel as [|fuel IH]; intros rest d w b Hl; destruct rest as [|x rest];
    cbn [write_all]; try (intros [= <- <-] _; exists b; by rewrite app_nil_r).
  { by intros [= <- <-]. }
  unfold sys_write. destruct (outcome d) as [r d0] eqn:Eo.
  assert (El : live d0 = live d) by (by pose proof (outcome_frame d) as (? & _); rewrite Eo in *).
  destruct (r <=? 0); [by intros [= <- <-]|]. rewrite El, Hl. cbn [f_bytes].
  intros E Hok. eapply IH in E as (b' & ->); [|cbn; by rewrite lookup_insert_eq|done].
  exists b'. by rewrite <- app_assoc, take_drop.
Qed.

(** A write that reports success is read back. *)
Lemma file_write_then_read `{!TextCodecLaws, !ValueCodecLaws} root category name envelope d d' :
  envelope_fits envelope → do_write_file root category name envelope d = (true, d') →
  do_read_file root category name d' = Some envelope.
Proof.
  intros Hf. unfold do_write_file, do_read_file.
  destruct (file_path root category name) as [path|]; [|done]. cbn [mbind option_bind].
  destruct (succeeds d) as [[] d1]; [|done]. cbn [negb].
  destruct (sys_open_trunc path d1) as [[] d2] eqn:Eo; [|done]. cbn [negb].
  destruct (write_all _ path _ d2) as [good d3] eqn:Ew.
  destruct (succeeds d3) as [perm d4] eqn:Ep. intros [= [-> ->]%andb_true_iff <-].
  unfold DurableWrite.read_file.
  assert (Hl : live d2 !! path = Some (mkFile [] false)).
  { unfold sys_open_trunc in Eo. destruct (succeeds d1) as [[] d1']; [|done].
    injection Eo as <-. cbn. by rewrite lookup_insert_eq. }
  destruct (write_all_live _ _ _ _ _ _ _ _ Hl Ew eq_refl) as (b & Hd).
  apply succeeds_frame in Ep as (-> & _ & _). rewrite Hd. cbn. by apply envelope_round_trip.
Qed.

(** A write, successful or not, leaves every other file as it was. *)
Lemma write_all_frame fuel path rest d ok d' q :
  q ≠ path → write_all fuel path rest d = (ok, d') → live d' !! q = live d !! q.
Proof.
  intros Hq. revert rest d. induction fuel as [|fuel IH]; intros [|x rest] d; cbn [write_all];
    try by intros [= <- <-].
  unfold sys_write. destruct (outcome d) as [r d0] eqn:Eo.
  assert (El : live d0 = live d) by (by pose proof (outcome_frame d) as (? & _); rewrite Eo in *).
  destruct (r <=? 0); [intros [= <- <-]; by rewrite El|].
  intros E%IH. rewrite E. cbn. by rewrite lookup_insert_ne, El.
Qed.

Lemma file_write_frame root c n envelope d ok d' c' n' :
  (c', n') ≠ (c, n) → do_write_file root c n envelope d = (ok, d') →
  do_read_file root c' n' d' = do_read_file root c' n' d.
Proof.
  intros Hne. unfold do_write_file, do_read_file.
  destruct (file_path root c' n') as [q|] eqn:Eq; [|done]. cbn [mbind option_bind].
  destruct (file_path root c n) as [path|] eqn:Ep; [|by intros [= <- <-]].
  assert (Hq : q ≠ path) by (intros ->; destruct (file_path_inj _ _ _ _ _ _ Eq Ep); congruence).
  unfold DurableWrite.read_file.
  destruct (succeeds d) as [created d1] eqn:E1. apply succeeds_frame in E1 as (L1 & _).
  destruct created; cbn [negb]; [|intros [= <- <-]; by rewrite L1].
  destruct (sys_open_trunc path d1) as [opened d2] eqn:E2.
  assert (L2 : live d2 !! q = live d !! q).
  { unfold sys_open_trunc in E2. destruct (succeeds d1) as [b d1'] eqn:E1'.
    apply succeeds_frame in E1' as (L1' & _).
    destruct b; injection E2 as <- <-; cbn; rewrite ?lookup_insert_ne by done; by rewrite L1', L1. }
  destruct opened; cbn [negb]; [|intros [= <- <-]; by rewrite L2].
  destruct (write_all _ path _ d2) as [good d3] eqn:E3.
  apply (write_all_frame _ _ _ _ _ _ q Hq) in E3. destruct (succeeds d3) as [perm d4] eqn:E4.
  apply succeeds_frame in E4 as (L4 & _). intros [= <- <-]. by rewrite L4, E3, L2.
Qed.
End storage.

#[export] Instance file_storage_laws `{TextCodec, ValueCodec, !TextCodecLaws, !ValueCodecLaws}
    root category name : StorageLaws Disk (H0 := file_storage root) category name.
Proof. split. intros ???. apply file_write_then_read. Qed.
