(* ===== verification/Ipam.v ===== *)
(** * The address manager

    Models [IPAM/IPAMService.cpp] with the types of [IPAM/IPAMTypes.hpp]: every
    operation as a state transformer whose outcome is a value, an exception or
    a deadlock (the mutex is not recursive: a second [lock_guard] on the same
    thread never returns). The order in which an [unordered_map] is walked is
    not specified: it is a parameter ([UnorderedMap]), and the theorems hold for
    every order. The system clock is a list of readings. The lease timeout is
    computed with IEEE doubles ([SpecFloat]). Shifts by 32 or more (a prefix
    length of 0 or above 32) are undefined in the source and outside the
    theorems; texts are valid UTF-8, as nlohmann's [dump] requires. *)

From Stdlib Require Import Ascii SpecFloat.
From S2P Require Import Prelude SecurityPolicy CanonicalEncoding ConsensusTypes Json.
From S2P Require Import FileStorage IpamAddress.

(** ** Data *)

Inductive BlockType := Tunnel | Private | Shared | Backbone.

#[export] Instance block_type_eq_dec : EqDecision BlockType.
Proof. solve_decision. Defined.

Record Allocation := mkAllocation {
  al_block_type : BlockType;
  al_base_network : string;
  al_customer_node_id : string;
  al_allocated_at : Z;
  al_last_seen : Z;
  al_signer_pubkey : string;
  al_signature : string;
}.
#[export] Instance eta_allocation : Etable Allocation := λ a,
  mkAllocation (al_block_type a) (al_base_network a) (al_customer_node_id a) (al_allocated_at a)
    (al_last_seen a) (al_signer_pubkey a) (al_signature a).

#[export] Instance allocation_eq_dec : EqDecision Allocation.
Proof. solve_decision. Defined.

Record AllocationSet := mkAllocationSet {
  as_tunnel : option Allocation;
  as_private_subnet : option Allocation;
  as_shared_block : option Allocation;
  as_backbone : option Allocation;
}.
#[export] Instance eta_allocation_set : Etable AllocationSet := λ a,
  mkAllocationSet (as_tunnel a) (as_private_subnet a) (as_shared_block a) (as_backbone a).

#[export] Instance allocation_set_eq_dec : EqDecision AllocationSet.
Proof. solve_decision. Defined.

Record BackboneAllocationDelta := mkBackboneDelta {
  bd_delta_id : string;
  bd_operation : string;
  bd_server_node_id : string;
  bd_server_pubkey : string;
  bd_backbone_ip : string;
  bd_timestamp : Z;
  bd_signer_pubkey : string;
  bd_signature : string;
}.

Definition empty_set : AllocationSet := mkAllocationSet None None None None.

(** [Allocation{}], as [assign_server_tunnel_ip] returns it. *)
Definition empty_allocation : Allocation := mkAllocation Tunnel "" "" 0 0 "" "".

(** The member of the set a block type names. *)
Definition slot (type : BlockType) (aset : AllocationSet) : option Allocation :=
  match type with
  | Tunnel => as_tunnel aset
  | Private => as_private_subnet aset
  | Shared => as_shared_block aset
  | Backbone => as_backbone aset
  end.

Definition set_slot (type : BlockType) (value : option Allocation) (aset : AllocationSet)
    : AllocationSet :=
  match type with
  | Tunnel => aset <| as_tunnel := value |>
  | Private => aset <| as_private_subnet := value |>
  | Shared => aset <| as_shared_block := value |>
  | Backbone => aset <| as_backbone := value |>
  end.

Definition set_is_empty (aset : AllocationSet) : bool :=
  match as_tunnel aset, as_private_subnet aset, as_shared_block aset, as_backbone aset with
  | None, None, None, None => true
  | _, _, _, _ => false
  end.

(** ** State and outcomes *)

Record IPAM (St : Type) := mkIPAM {
  allocations_ : gmap string AllocationSet;
  next_tunnel_ip_ : Z;
  next_private_ip_ : Z;
  next_shared_ip_ : Z;
  next_backbone_ip_ : Z;
  seen_backbone_deltas_ : gset string;
  storage_ : St;
  clock : list Z;
  locked : bool;
}.
Arguments mkIPAM {St}.
Arguments allocations_ {St}. Arguments next_tunnel_ip_ {St}. Arguments next_private_ip_ {St}.
Arguments next_shared_ip_ {St}. Arguments next_backbone_ip_ {St}.
Arguments seen_backbone_deltas_ {St}. Arguments storage_ {St}. Arguments clock {St}.
Arguments locked {St}.

#[export] Instance eta_ipam {St} : Etable (IPAM St) := λ s,
  mkIPAM (allocations_ s) (next_tunnel_ip_ s) (next_private_ip_ s) (next_shared_ip_ s)
    (next_backbone_ip_ s) (seen_backbone_deltas_ s) (storage_ s) (clock s) (locked s).

Definition new_ipam {St} (storage : St) (clock : list Z) : IPAM St :=
  mkIPAM ∅ 10 0 0 10 ∅ storage clock false.

Inductive Outcome (St A : Type) :=
  | Returned (a : A) (s : IPAM St)
  | Threw (s : IPAM St)
  | Deadlock.
Arguments Returned {St A}. Arguments Threw {St A}. Arguments Deadlock {St A}.

Definition Ipam (St A : Type) : Type := IPAM St → Outcome St A.

#[export] Instance ipam_ret {St} : MRet (Ipam St) := λ A a s, Returned a s.
#[export] Instance ipam_bind {St} : MBind (Ipam St) := λ A B f m s,
  match m s with
  | Returned a s => f a s
  | Threw s => Threw s
  | Deadlock => Deadlock
  end.

Definition throw {St A} : Ipam St A := λ s, Threw s.
Definition get {St} : Ipam St (IPAM St) := λ s, Returned s s.
Definition modify {St} (f : IPAM St → IPAM St) : Ipam St unit := λ s, Returned tt (f s).
Definition lift {St A} (x : option A) : Ipam St A :=
  match x with Some a => mret a | None => throw end.

(** [std::lock_guard]: released on every exit. *)
Definition with_lock {St A} (body : Ipam St A) : Ipam St A := λ s,
  if locked s then Deadlock
  else match body (s <| locked := true |>) with
       | Returned a s => Returned a (s <| locked := false |>)
       | Threw s => Threw (s <| locked := false |>)
       | Deadlock => Deadlock
       end.

Fixpoint for_each {St A} (items : list A) (body : A → Ipam St unit) : Ipam St unit :=
  match items with
  | [] => mret tt
  | item :: rest => body item ≫= λ _, for_each rest body
  end.

(** A loop that counts its changes. *)
Fixpoint sum_each {St A} (items : list A) (body : A → Ipam St Z) : Ipam St Z :=
  match items with
  | [] => mret 0
  | item :: rest => n ← body item; m ← sum_each rest body; mret (n +64 m)
  end.

Class UnorderedMap := {
  entries : gmap string AllocationSet → list (string * AllocationSet);
  entries_perm : ∀ m, entries m ≡ₚ map_to_list m;
}.

(** A [std::map] is walked in key order. *)
Definition key_before (a b : string * string) : Prop := Is_true (String.leb a.1 b.1).
#[export] Instance key_before_dec a b : Decision (key_before a b) := _.
Definition ordered_entries (m : gmap string string) : list (string * string) :=
  merge_sort key_before (map_to_list m).

Section ipam.
Context `{TextCodec, ValueCodec, UnorderedMap} {St : Type} `{Storage St}.

(** An exhausted clock reads zero. *)
Definition now_unix : Ipam St Z := λ s,
  match clock s with
  | [] => Returned 0 s
  | t :: rest => Returned t (s <| clock := rest |>)
  end.

Definition find (node_id : string) : Ipam St (option AllocationSet) :=
  s ← get; mret (allocations_ s !! node_id).

Definition store_set (node_id : string) (aset : AllocationSet) : Ipam St unit :=
  modify (λ s, s <| allocations_ := <[ node_id := aset ]> (allocations_ s) |>).

Definition erase (node_id : string) : Ipam St unit :=
  modify (λ s, s <| allocations_ := delete node_id (allocations_ s) |>).

(** [allocations_[node_id].member = value] *)
Definition assign_slot (node_id : string) (type : BlockType) (value : option Allocation)
    : Ipam St unit :=
  aset ← find node_id; store_set node_id (set_slot type value (default empty_set aset)).

(** ** Text of a record *)

Definition block_type_to_string (bt : BlockType) : string :=
  match bt with
  | Tunnel => "tunnel"
  | Private => "private"
  | Shared => "shared"
  | Backbone => "backbone"
  end.

(** [None]: the function throws. *)
Definition string_to_block_type (s : string) : option BlockType :=
  if String.eqb s "tunnel" then Some Tunnel
  else if String.eqb s "private" then Some Private
  else if String.eqb s "shared" then Some Shared
  else if String.eqb s "backbone" then Some Backbone
  else None.

Definition allocation_to_json (a : Allocation) : json :=
  object [("block_type", JString (block_type_to_string (al_block_type a)));
          ("base_network", JString (al_base_network a));
          ("customer_node_id", JString (al_customer_node_id a));
          ("allocated_at", JUnsigned (al_allocated_at a));
          ("last_seen", JUnsigned (al_last_seen a));
          ("signer_pubkey", JString (al_signer_pubkey a));
          ("signature", JString (al_signature a))].

Definition json_to_allocation (j : json) : option Allocation :=
  type ← value_string j "block_type" "tunnel";
  block_type ← string_to_block_type type;
  base_network ← value_string j "base_network" "";
  customer_node_id ← value_string j "customer_node_id" "";
  allocated_at ← value_unsigned two64 j "allocated_at" 0;
  last_seen ← value_unsigned two64 j "last_seen" 0;
  signer_pubkey ← value_string j "signer_pubkey" "";
  signature ← value_string j "signature" "";
  Some (mkAllocation block_type base_network customer_node_id allocated_at last_seen
          signer_pubkey signature).

(** ** Persistence *)

Definition set_to_json (aset : AllocationSet) : list json :=
  let push type := match slot type aset with Some a => [allocation_to_json a] | None => [] end in
  push Tunnel ++ push Private ++ push Shared ++ push Backbone.

(** A failed write is only logged. *)
Definition save_allocations : Ipam St unit :=
  s ← get;
  let j := JArray (concat ((λ e, set_to_json e.2) <$> entries (allocations_ s))) in
  timestamp ← now_unix;
  let envelope := mkEnvelope 1 "ipam" (json_dump j) "" "" timestamp in
  modify (λ s, s <| storage_ := (write_file "ipam" "allocations.json" envelope (storage_ s)).2 |>).

Definition load_entry (entry : json) : Ipam St unit :=
  alloc ← lift (json_to_allocation entry);
  assign_slot (al_customer_node_id alloc) (al_block_type alloc) (Some alloc).

Definition u32_shl (value shift : Z) : Z := Z.shiftl value shift mod two32.

(** The cursors past one node's records. *)
Definition rebuild_tunnel (aset : AllocationSet) : Ipam St unit :=
  match as_tunnel aset with
  | None => mret tt
  | Some a =>
      '(ip, _) ← lift (parse_cidr (al_base_network a));
      if is_tree_tunnel_ip ip || is_server_tunnel_ip ip then mret tt
      else
        let offset := (ip - kTunnelBase + 1) mod two32 in
        modify (λ s, if next_tunnel_ip_ s <? offset
                     then s <| next_tunnel_ip_ := std_max offset 10 |> else s)
  end.

Definition rebuild_private (aset : AllocationSet) : Ipam St unit :=
  match as_private_subnet aset with
  | None => mret tt
  | Some a =>
      '(ip, prefix) ← lift (parse_cidr (al_base_network a));
      let offset := (ip - kPrivateBase + u32_shl 1 (32 - prefix)) mod two32 in
      modify (λ s, if next_private_ip_ s <? offset
                   then s <| next_private_ip_ := offset |> else s)
  end.

Definition rebuild_shared (aset : AllocationSet) : Ipam St unit :=
  match as_shared_block aset with
  | None => mret tt
  | Some a =>
      '(ip, prefix) ← lift (parse_cidr (al_base_network a));
      let offset := (ip - kSharedBase + u32_shl 1 (32 - prefix)) mod two32 in
      modify (λ s, if next_shared_ip_ s <? offset
                   then s <| next_shared_ip_ := offset |> else s)
  end.

Definition rebuild_backbone (aset : AllocationSet) : Ipam St unit :=
  match as_backbone aset with
  | None => mret tt
  | Some a =>
      '(ip, _) ← lift (parse_cidr (al_base_network a));
      let offset := (ip - kBackboneBase + 1) mod two32 in
      modify (λ s, if next_backbone_ip_ s <? offset
                   then s <| next_backbone_ip_ := std_max offset 10 |> else s)
  end.

Definition rebuild_cursors (aset : AllocationSet) : Ipam St unit :=
  rebuild_tunnel aset ≫= λ _, rebuild_private aset ≫= λ _,
  rebuild_shared aset ≫= λ _, rebuild_backbone aset.

Definition load_allocations : Ipam St unit :=
  s ← get;
  match read_file "ipam" "allocations.json" (storage_ s) with
  | None => mret tt
  | Some envelope =>
      match json_parse (env_data envelope) with
      | Some (JArray items) =>
          for_each items load_entry ≫= λ _,
          s ← get; for_each (entries (allocations_ s)).*2 rebuild_cursors
      | _ => mret tt
      end
  end.

Definition on_start : Ipam St unit := load_allocations.

(** ** Sequential allocation *)

Definition block_base (type : BlockType) : Z :=
  match type with
  | Tunnel => kTunnelBase | Private => kPrivateBase | Shared => kSharedBase
  | Backbone => kBackboneBase
  end.

Definition block_size (type : BlockType) : Z :=
  match type with
  | Tunnel => kTunnelSize | Private => kPrivateSize | Shared => kSharedSize
  | Backbone => kBackboneSize
  end.

Definition cursor (type : BlockType) (s : IPAM St) : Z :=
  match type with
  | Tunnel => next_tunnel_ip_ s | Private => next_private_ip_ s | Shared => next_shared_ip_ s
  | Backbone => next_backbone_ip_ s
  end.

Definition set_cursor (type : BlockType) (value : Z) (s : IPAM St) : IPAM St :=
  match type with
  | Tunnel => s <| next_tunnel_ip_ := value |>
  | Private => s <| next_private_ip_ := value |>
  | Shared => s <| next_shared_ip_ := value |>
  | Backbone => s <| next_backbone_ip_ := value |>
  end.

Definition align (c stride : Z) : Z :=
  if c mod stride =? 0 then c else ((c `div` stride + 1) mod two32 * stride) mod two32.

Definition next_address (type : BlockType) (prefix_len : Z) : Ipam St string :=
  s ← get;
  let stride := u32_shl 1 (32 - prefix_len) in
  let c := align (cursor type s) stride in
  modify (set_cursor type c) ≫= λ _,
  if block_size type <? (c + stride) mod two32 then throw
  else
    modify (set_cursor type ((c + stride) mod two32)) ≫= λ _,
    mret (format_cidr ((block_base type + c) mod two32) prefix_len).

(** ** Leases and blocks *)

Definition do_allocate_tunnel_ip (node_id : string) : Ipam St Allocation :=
  with_lock (
    it ← find node_id;
    match it ≫= as_tunnel with
    | Some existing =>
        now ← now_unix;
        let existing := existing <| al_last_seen := now |> in
        assign_slot node_id Tunnel (Some existing) ≫= λ _, mret existing
    | None =>
        cidr ← next_address Tunnel 32;
        allocated_at ← now_unix;
        last_seen ← now_unix;
        let alloc := mkAllocation Tunnel cidr node_id allocated_at last_seen "" "" in
        assign_slot node_id Tunnel (Some alloc) ≫= λ _,
        save_allocations ≫= λ _, mret alloc
    end).

Definition do_allocate_private_subnet (node_id : string) (prefix_len : Z) : Ipam St Allocation :=
  with_lock (
    it ← find node_id;
    match it ≫= as_private_subnet with
    | Some existing => mret existing
    | None =>
        cidr ← next_address Private prefix_len;
        allocated_at ← now_unix;
        let alloc := mkAllocation Private cidr node_id allocated_at 0 "" "" in
        assign_slot node_id Private (Some alloc) ≫= λ _,
        save_allocations ≫= λ _, mret alloc
    end).

Definition do_allocate_shared_block (node_id : string) (prefix_len : Z) : Ipam St Allocation :=
  with_lock (
    it ← find node_id;
    match it ≫= as_shared_block with
    | Some existing => mret existing
    | None =>
        cidr ← next_address Shared prefix_len;
        allocated_at ← now_unix;
        let alloc := mkAllocation Shared cidr node_id allocated_at 0 "" "" in
        assign_slot node_id Shared (Some alloc) ≫= λ _,
        save_allocations ≫= λ _, mret alloc
    end).

Definition do_expand_allocation (node_id : string) (block_type : BlockType) (new_prefix_len : Z)
    : Ipam St Allocation :=
  with_lock (
    it ← find node_id;
    match it with
    | None => throw
    | Some aset =>
        match block_type with
        | Tunnel | Backbone => throw
        | Private | Shared =>
            match slot block_type aset with
            | None => throw
            | Some target =>
                '(old_ip, old_prefix) ← lift (parse_cidr (al_base_network target));
                if old_prefix <=? new_prefix_len then throw
                else
                  now ← now_unix;
                  let target := target <| al_base_network := format_cidr old_ip new_prefix_len |>
                                       <| al_allocated_at := now |> in
                  assign_slot node_id block_type (Some target) ≫= λ _,
                  save_allocations ≫= λ _, mret target
            end
        end
    end).

(** Resets one member and drops a node that holds nothing. *)
Definition reset_slot (node_id : string) (type : BlockType) (aset : AllocationSet) : Ipam St unit :=
  let aset := set_slot type None aset in
  if set_is_empty aset then erase node_id else store_set node_id aset.

Definition do_release (node_id : string) (block_type : BlockType) : Ipam St bool :=
  with_lock (
    it ← find node_id;
    match it with
    | None => mret false
    | Some aset =>
        let released := bool_decide (is_Some (slot block_type aset)) in
        reset_slot node_id block_type aset ≫= λ _,
        (if released then save_allocations else mret tt) ≫= λ _, mret released
    end).

Definition do_get_allocation (node_id : string) : Ipam St (option AllocationSet) :=
  with_lock (find node_id).

(** The members of one set, in the order they are tested; stops at the first
    overlap. *)
Fixpoint conflicts_with (check_ip check_prefix : Z) (members : list (option Allocation))
    : Ipam St bool :=
  match members with
  | [] => mret false
  | None :: rest => conflicts_with check_ip check_prefix rest
  | Some alloc :: rest =>
      '(alloc_ip, alloc_prefix) ← lift (parse_cidr (al_base_network alloc));
      if cidrs_overlap check_ip check_prefix alloc_ip alloc_prefix then mret true
      else conflicts_with check_ip check_prefix rest
  end.

Definition set_members (aset : AllocationSet) : list (option Allocation) :=
  [as_tunnel aset; as_private_subnet aset; as_shared_block aset; as_backbone aset].

Definition do_check_conflict (network_cidr : string) : Ipam St bool :=
  with_lock (
    '(check_ip, check_prefix) ← lift (parse_cidr network_cidr);
    s ← get;
    conflicts_with check_ip check_prefix
      (concat ((λ e, set_members e.2) <$> entries (allocations_ s)))).

(** ** Tunnel leases *)

(** IEEE double precision. *)
Definition prec : Z := 53.
Definition emax : Z := 1024.
Definition f_of (n : Z) : spec_float := binary_normalize prec emax n 0 false.
Definition f_mul := SFmul prec emax.
Definition f_div := SFdiv prec emax.
Definition f_sub := SFsub prec emax.

(** [std::max] on doubles. *)
Definition f_max (a b : spec_float) : spec_float := if SFltb a b then b else a.

(** [static_cast<uint64_t>]: truncation of a finite value. *)
Definition f_trunc (x : spec_float) : Z :=
  match x with
  | S754_finite false m e => Z.shiftl (Z.pos m) e
  | _ => 0
  end.

Definition kUsableTunnels : Z := kTunnelSize - 10.

Definition lease_seconds (tunnel_count : Z) : Z :=
  let pct_full := f_mul (f_div (f_of tunnel_count) (f_of kUsableTunnels)) (f_of 100) in
  let scaled := f_max (f_of 0) (f_mul (f_sub pct_full (f_of 50)) (f_of 2)) in
  let lease_hours := f_mul (f_div (f_of 168) (f_of 100)) (f_sub (f_of 100) scaled) in
  let lease_hours := f_max (f_of 0) lease_hours in
  f_trunc (f_mul lease_hours (f_of 3600)).

Definition tunnel_count (m : gmap string AllocationSet) : Z :=
  Z.of_nat (length (filter (λ e, is_Some (as_tunnel e.2)) (entries m))) mod two32.

Definition tunnel_lease_timeout_sec : Ipam St Z :=
  with_lock (s ← get; mret (lease_seconds (tunnel_count (allocations_ s)))).

(** The lease of a record outside the tree and server ranges that was seen
    longer than [timeout] ago. *)
Fixpoint expired (timeout now : Z) (items : list (string * AllocationSet))
    : Ipam St (list string) :=
  match items with
  | [] => mret []
  | (nid, aset) :: rest =>
      match as_tunnel aset with
      | None => expired timeout now rest
      | Some t =>
          '(ip, _) ← lift (parse_cidr (al_base_network t));
          if is_tree_tunnel_ip ip || is_server_tunnel_ip ip then expired timeout now rest
          else
            to_release ← expired timeout now rest;
            mret (if (0 <? al_last_seen t) && (timeout <? now -64 al_last_seen t)
                  then nid :: to_release else to_release)
      end
  end.

Definition release_expired (nid : string) : Ipam St Z :=
  it ← find nid;
  match it with
  | None => mret 0
  | Some aset => reset_slot nid Tunnel aset ≫= λ _, mret 1
  end.

Definition sweep_expired_tunnel_leases : Ipam St Z :=
  with_lock (
    timeout ← tunnel_lease_timeout_sec;
    if timeout =? 0 then mret 0
    else
      now ← now_unix;
      s ← get;
      to_release ← expired timeout now (entries (allocations_ s));
      count ← sum_each to_release release_expired;
      let released := count mod two32 in
      (if 0 <? released then save_allocations else mret tt) ≫= λ _, mret released).

Definition update_tunnel_last_seen (node_id : string) : Ipam St unit :=
  with_lock (
    it ← find node_id;
    match it ≫= as_tunnel with
    | None => mret tt
    | Some t => now ← now_unix; assign_slot node_id Tunnel (Some (t <| al_last_seen := now |>))
    end).

(** ** Tree-derived tunnel addresses *)

(** One record the tree holds; the answer counts the change. *)
Definition sync_assigned (entry : string * string) : Ipam St Z :=
  let '(node_id, cidr) := entry in
  match parse_cidr cidr with
  | None => mret 0
  | Some (ip, prefix) =>
      if negb (prefix =? 32) || negb (is_tree_tunnel_ip ip) then mret 0
      else
        it ← find node_id;
        let aset := default empty_set it in
        store_set node_id aset ≫= λ _,
        if bool_decide (al_base_network <$> as_tunnel aset = Some cidr) then mret 0
        else
          now ← now_unix;
          assign_slot node_id Tunnel (Some (mkAllocation Tunnel cidr node_id now 0 "" ""))
            ≫= λ _, mret 1
  end.

Definition sync_existing (assigned : gmap string string) (node_id : string) : Ipam St Z :=
  it ← find node_id;
  match it with
  | None => mret 0
  | Some aset =>
      dropped ←
        match as_tunnel aset with
        | None => mret false
        | Some t =>
            '(ip, _) ← lift (parse_cidr (al_base_network t));
            mret (is_tree_tunnel_ip ip &&
                  negb (bool_decide (assigned !! node_id = Some (al_base_network t))))
        end;
      if dropped : bool then reset_slot node_id Tunnel aset ≫= λ _, mret 1
      else if set_is_empty aset then erase node_id ≫= λ _, mret 0
      else mret 0
  end.

Definition sync_tree_tunnel_addresses (assigned : gmap string string) : Ipam St Z :=
  with_lock (
    added ← sum_each (ordered_entries assigned) sync_assigned;
    s ← get;
    removed ← sum_each (entries (allocations_ s)).*1 (sync_existing assigned);
    let changed := added +64 removed in
    (if 0 <? changed then save_allocations else mret tt) ≫= λ _, mret changed).

Definition assign_server_tunnel_ip (server_node_id : string) : Ipam St Allocation :=
  with_lock (
    it ← find server_node_id;
    match it with
    | None => mret empty_allocation
    | Some aset =>
        match as_backbone aset ≫= λ b, server_tunnel_for_backbone (al_base_network b) with
        | None => mret empty_allocation
        | Some cidr =>
            let renew :=
              now ← now_unix;
              let alloc := mkAllocation Tunnel cidr server_node_id now 0 "" "" in
              assign_slot server_node_id Tunnel (Some alloc) ≫= λ _,
              save_allocations ≫= λ _, mret alloc in
            match as_tunnel aset with
            | Some t => if String.eqb (al_base_network t) cidr then mret t else renew
            | None => renew
            end
        end
    end).

(** ** Backbone *)

Definition kUsableCount : Z := kBackboneSize - kBackboneUsableStart.

Definition preferred_offset (ed25519_pubkey_b64 : string) : Z :=
  if (4 <=? Z.of_nat (String.length ed25519_pubkey_b64)) then
    let hash_val := foldl (λ h b, (h * 31 + b) mod two32) 0
                      (take 16 (string_bytes ed25519_pubkey_b64)) in
    hash_val mod kUsableCount + kBackboneUsableStart
  else kBackboneUsableStart.

Definition backbone_taken (m : gmap string AllocationSet) (cidr : string) : bool :=
  existsb (λ e, match as_backbone e.2 with
                | Some b => String.eqb (al_base_network b) cidr
                | None => false
                end) (entries m).

Definition next_offset (offset : Z) : Z :=
  (offset - kBackboneUsableStart + 1) mod kUsableCount + kBackboneUsableStart.

(** The probe loop: the first free offset. *)
Fixpoint probe (tries : nat) (m : gmap string AllocationSet) (offset : Z) : option Z :=
  match tries with
  | O => None
  | S tries =>
      if backbone_taken m (format_cidr (kBackboneBase + offset) 32)
      then probe tries m (next_offset offset)
      else Some offset
  end.

Definition allocate_backbone_ip (server_node_id ed25519_pubkey_b64 : string)
    : Ipam St Allocation :=
  with_lock (
    it ← find server_node_id;
    match it ≫= as_backbone with
    | Some existing => mret existing
    | None =>
        s ← get;
        match probe (Z.to_nat kUsableCount) (allocations_ s)
                (preferred_offset ed25519_pubkey_b64) with
        | None => throw
        | Some offset =>
            allocated_at ← now_unix;
            last_seen ← now_unix;
            let alloc := mkAllocation Backbone (format_cidr (kBackboneBase + offset) 32)
                           server_node_id allocated_at last_seen "" "" in
            assign_slot server_node_id Backbone (Some alloc) ≫= λ _,
            modify (λ s, if next_backbone_ip_ s <? offset + 1
                         then s <| next_backbone_ip_ := offset + 1 |> else s) ≫= λ _,
            save_allocations ≫= λ _, mret alloc
        end
    end).

(** The conflict scan: true, an existing holder keeps the address. *)
Fixpoint evict_conflicts (delta : BackboneAllocationDelta) (items : list (string * AllocationSet))
    : Ipam St bool :=
  match items with
  | [] => mret false
  | (nid, aset) :: rest =>
      if String.eqb nid (bd_server_node_id delta) then evict_conflicts delta rest
      else
        match as_backbone aset with
        | None => evict_conflicts delta rest
        | Some held =>
            if negb (String.eqb (al_base_network held) (bd_backbone_ip delta))
            then evict_conflicts delta rest
            else if String.ltb (al_signer_pubkey held) (bd_server_pubkey delta)
            then assign_slot nid Backbone None ≫= λ _, evict_conflicts delta rest
            else mret true
        end
  end.

Definition note_delta (delta : BackboneAllocationDelta) : Ipam St unit :=
  modify (λ s,
    let seen := if 100000 <? Z.of_nat (size (seen_backbone_deltas_ s)) then ∅
                else seen_backbone_deltas_ s in
    s <| seen_backbone_deltas_ := {[ bd_delta_id delta ]} ∪ seen |>).

Definition apply_remote_release (delta : BackboneAllocationDelta) : Ipam St bool :=
  it ← find (bd_server_node_id delta);
  match it with
  | None => mret false
  | Some aset =>
      match as_backbone aset with
      | None => mret false
      | Some _ =>
          reset_slot (bd_server_node_id delta) Backbone aset ≫= λ _,
          save_allocations ≫= λ _, mret true
      end
  end.

Definition apply_remote_allocate (delta : BackboneAllocationDelta) : Ipam St bool :=
  s ← get;
  kept ← evict_conflicts delta (entries (allocations_ s));
  if kept : bool then mret true
  else
    last_seen ← now_unix;
    let alloc := mkAllocation Backbone (bd_backbone_ip delta) (bd_server_node_id delta)
                   (bd_timestamp delta) last_seen (bd_server_pubkey delta) "" in
    assign_slot (bd_server_node_id delta) Backbone (Some alloc) ≫= λ _,
    '(ip, _) ← lift (parse_cidr (bd_backbone_ip delta));
    let offset := (ip - kBackboneBase + 1) mod two32 in
    modify (λ s, if next_backbone_ip_ s <? offset
                 then s <| next_backbone_ip_ := std_max offset 10 |> else s) ≫= λ _,
    save_allocations ≫= λ _, mret true.

Definition apply_remote_backbone_allocation (delta : BackboneAllocationDelta) : Ipam St bool :=
  with_lock (
    s ← get;
    if bool_decide (bd_delta_id delta ∈ seen_backbone_deltas_ s) then mret false
    else
      note_delta delta ≫= λ _,
      if String.eqb (bd_operation delta) "release" then apply_remote_release delta
      else apply_remote_allocate delta).

Definition get_backbone_allocations : Ipam St (list Allocation) :=
  with_lock (s ← get; mret (omap (λ e, as_backbone e.2) (entries (allocations_ s)))).

Definition update_backbone_last_seen (server_node_id : string) (timestamp : Z) : Ipam St unit :=
  with_lock (
    it ← find server_node_id;
    match it ≫= as_backbone with
    | None => mret tt
    | Some b => assign_slot server_node_id Backbone (Some (b <| al_last_seen := timestamp |>))
    end).

Definition collect_stale_backbone (stale_threshold_sec : Z) : Ipam St (list string) :=
  with_lock (
    now ← now_unix;
    s ← get;
    mret (omap (λ e, b ← as_backbone e.2;
                     if (0 <? al_last_seen b) && (stale_threshold_sec <? now -64 al_last_seen b)
                     then Some e.1 else None) (entries (allocations_ s)))).

(** ** The calls of the service *)

Inductive Request :=
  | AllocateTunnel (node_id : string)
  | AllocatePrivate (node_id : string) (prefix_len : Z)
  | AllocateShared (node_id : string) (prefix_len : Z)
  | Expand (node_id : string) (block_type : BlockType) (new_prefix_len : Z)
  | Release (node_id : string) (block_type : BlockType)
  | GetAllocation (node_id : string)
  | CheckConflict (network_cidr : string)
  | LeaseTimeout
  | SweepLeases
  | UpdateTunnelSeen (node_id : string)
  | SyncTree (assigned : gmap string string)
  | AssignServerTunnel (server_node_id : string)
  | AllocateBackbone (server_node_id ed25519_pubkey_b64 : string)
  | ApplyRemote (delta : BackboneAllocationDelta)
  | GetBackbones
  | UpdateBackboneSeen (server_node_id : string) (timestamp : Z)
  | CollectStale (stale_threshold_sec : Z).

Definition ignore {A} (m : Ipam St A) : Ipam St unit := m ≫= λ _, mret tt.

Definition serve (r : Request) : Ipam St unit :=
  match r with
  | AllocateTunnel n => ignore (do_allocate_tunnel_ip n)
  | AllocatePrivate n p => ignore (do_allocate_private_subnet n p)
  | AllocateShared n p => ignore (do_allocate_shared_block n p)
  | Expand n t p => ignore (do_expand_allocation n t p)
  | Release n t => ignore (do_release n t)
  | GetAllocation n => ignore (do_get_allocation n)
  | CheckConflict c => ignore (do_check_conflict c)
  | LeaseTimeout => ignore tunnel_lease_timeout_sec
  | SweepLeases => ignore sweep_expired_tunnel_leases
  | UpdateTunnelSeen n => update_tunnel_last_seen n
  | SyncTree assigned => ignore (sync_tree_tunnel_addresses assigned)
  | AssignServerTunnel n => ignore (assign_server_tunnel_ip n)
  | AllocateBackbone n k => ignore (allocate_backbone_ip n k)
  | ApplyRemote delta => ignore (apply_remote_backbone_allocation delta)
  | GetBackbones => ignore get_backbone_allocations
  | UpdateBackboneSeen n t => update_backbone_last_seen n t
  | CollectStale t => ignore (collect_stale_backbone t)
  end.

(** The caller survives an exception; nothing follows a deadlock. *)
Fixpoint serve_all (requests : list Request) (s : IPAM St) : option (IPAM St) :=
  match requests with
  | [] => Some s
  | r :: rest =>
      match serve r s with
      | Returned _ s | Threw s => serve_all rest s
      | Deadlock => None
      end
  end.
End ipam.
