(* ===== verification/IpamInvariants.v ===== *)
(** * Frames and invariants of the address manager

    [touches X m s]: the operation [m], run in [s], changes the networks and
    the cursors of the block types in [X] only; of the others it may at most
    release records. Every operation has such a frame, so an invariant of one
    block type needs a proof only for the operations that allocate in it. *)

From S2P Require Import Prelude SecurityPolicy CanonicalEncoding ConsensusTypes Json.
From S2P Require Import FileStorage IpamAddress Ipam.

(** The network a node holds of a block type. *)
Definition net (type : BlockType) (m : gmap string AllocationSet) (n : string) : option string :=
  al_base_network <$> (m !! n ≫= slot type).

Lemma slot_set_slot T T' v aset :
  slot T (set_slot T' v aset) = if decide (T = T') then v else slot T aset.
Proof. by destruct T, T'. Qed.

Lemma set_is_empty_slot aset T : set_is_empty aset = true → slot T aset = None.
Proof. by destruct aset as [[] [] [] []], T. Qed.

Lemma net_insert T T' m n v x :
  net T (<[ n := set_slot T' v (default empty_set (m !! n)) ]> m) x =
  if decide (x = n ∧ T = T') then al_base_network <$> v else net T m x.
Proof.
  unfold net. destruct (decide (x = n)) as [->|Hx].
  - rewrite lookup_insert_eq. simpl. rewrite slot_set_slot.
    destruct (decide (T = T')) as [->|HT].
    + by rewrite decide_True.
    + rewrite decide_False by naive_solver. destruct (m !! n); [done|]. by destruct T.
  - rewrite lookup_insert_ne by done. by rewrite decide_False by naive_solver.
Qed.

Section frames.
Context `{TextCodec, ValueCodec, UnorderedMap} {St : Type} `{Storage St}.
Implicit Types (s : IPAM St) (X : BlockType → bool).

Record only X s s' : Prop := mkOnly {
  only_net : ∀ T n, X T = false →
    net T (allocations_ s') n = net T (allocations_ s) n ∨ net T (allocations_ s') n = None;
  only_cursor : ∀ T, X T = false → cursor T s' = cursor T s;
}.

#[export] Instance only_preorder X : PreOrder (only X).
Proof.
  split.
  - intros s. split; [by left|done].
  - intros s1 s2 s3 [N1 C1] [N2 C2]. split.
    + intros T n HT. destruct (N1 T n HT) as [<- |E1], (N2 T n HT) as [-> |E2];
        rewrite ?E1; auto.
    + intros T HT. rewrite (C2 T HT). by apply C1.
Qed.

(** Only the clock, the lock, the storage or the seen deltas changed. *)
Lemma only_core X s s' :
  allocations_ s' = allocations_ s → (∀ T, cursor T s' = cursor T s) → only X s s'.
Proof. intros Ea Ec. split; [intros; left; by rewrite Ea|done]. Qed.

Definition touches {A} X (m : Ipam St A) s : Prop :=
  match m s with
  | Returned _ s' | Threw s' => only X s s'
  | Deadlock => True
  end.

Lemma touches_ret {A} X (a : A) s : touches X (mret a) s.
Proof. unfold touches, mret, ipam_ret. reflexivity. Qed.

Lemma touches_throw {A} X s : touches X (throw (A := A)) s.
Proof. unfold touches, throw. reflexivity. Qed.

Lemma touches_lift {A} X (x : option A) s : touches X (lift x) s.
Proof. destruct x; [apply touches_ret|apply touches_throw]. Qed.

Lemma touches_bind {A B} X (m : Ipam St A) (f : A → Ipam St B) s :
  touches X m s → (∀ a s', m s = Returned a s' → touches X (f a) s') → touches X (m ≫= f) s.
Proof.
  unfold touches, mbind, ipam_bind. intros Hm Hf. destruct (m s) as [a s'|s'|]; try done.
  specialize (Hf a s' eq_refl). destruct (f a s') as [b s''|s''|]; try done; by etrans.
Qed.

Lemma touches_then {A B} X (m : Ipam St A) (f : A → Ipam St B) s :
  touches X m s → (∀ a s', touches X (f a) s') → touches X (m ≫= f) s.
Proof. intros Hm Hf. apply touches_bind; auto. Qed.

Lemma touches_get {B} X (f : IPAM St → Ipam St B) s : touches X (f s) s → touches X (get ≫= f) s.
Proof. done. Qed.

Lemma touches_find {B} X n (f : option AllocationSet → Ipam St B) s :
  touches X (f (allocations_ s !! n)) s → touches X (find n ≫= f) s.
Proof. done. Qed.

Lemma touches_lock {A} X (m : Ipam St A) s :
  (∀ s', touches X m s') → touches X (with_lock m) s.
Proof.
  intros Hm. unfold touches, with_lock. destruct (locked s); [done|].
  specialize (Hm (s <| locked := true |>)). unfold touches in Hm.
  assert (Hl : ∀ (t : IPAM St) b, only X t (t <| locked := b |>)).
  { intros t b. apply only_core; [done|]. by intros []. }
  destruct (m _); try done; (etrans; [|apply Hl]; etrans; [apply Hl|exact Hm]).
Qed.

Lemma touches_for_each {A} X (items : list A) body s :
  (∀ x s', touches X (body x) s') → touches X (for_each items body) s.
Proof.
  intros Hb. revert s. induction items as [|x items IH]; intros s; [apply touches_ret|].
  simpl. apply touches_then; auto.
Qed.

Lemma touches_sum_each {A} X (items : list A) body s :
  (∀ x s', touches X (body x) s') → touches X (sum_each items body) s.
Proof.
  intros Hb. revert s. induction items as [|x items IH]; intros s; [apply touches_ret|].
  simpl. apply touches_then; [done|]. intros. apply touches_then; [done|].
  intros. apply touches_ret.
Qed.

Lemma touches_modify X (f : IPAM St → IPAM St) s : only X s (f s) → touches X (modify f) s.
Proof. done. Qed.

Lemma touches_now X s : touches X now_unix s.
Proof.
  unfold touches, now_unix. destruct (clock s); [reflexivity|].
  apply only_core; [done|]. by intros [].
Qed.

Lemma touches_save X s : touches X save_allocations s.
Proof.
  apply touches_get, touches_then; [apply touches_now|]. intros. apply touches_modify.
  apply only_core; [done|]. by intros [].
Qed.

Lemma touches_cursor X T f s :
  X T = true → (∀ t, allocations_ (f t) = allocations_ t) →
  (∀ t T', T' ≠ T → cursor T' (f t) = cursor T' t) → touches X (modify f) s.
Proof.
  intros HT Ha Hc. apply touches_modify. split.
  - intros. left. by rewrite Ha.
  - intros T' HT'. apply Hc. by intros ->; rewrite HT in HT'.
Qed.

Lemma touches_assign X n T v s :
  X T = true ∨ v = None ∨ al_base_network <$> v = net T (allocations_ s) n →
  touches X (assign_slot n T v) s.
Proof.
  intros HT. apply touches_find, touches_modify. split; [|by intros []].
  intros T' x HT'. pose proof (net_insert T' T (allocations_ s) n v x) as E.
  destruct (decide (x = n ∧ T' = T)) as [[-> ->]|]; [|left; exact E].
  destruct HT as [HT|[-> |HT]]; [by rewrite HT in HT'|right; exact E|].
  left. etrans; [exact E|exact HT].
Qed.

Lemma net_reset T T' m n aset x :
  m !! n = Some aset →
  net T (if set_is_empty (set_slot T' None aset) then delete n m
         else <[ n := set_slot T' None aset ]> m) x =
  if decide (x = n ∧ T = T') then None else net T m x.
Proof.
  intros Hn. destruct (set_is_empty _) eqn:Ee.
  - unfold net. destruct (decide (x = n)) as [->|Hx].
    + rewrite lookup_delete_eq, Hn. simpl. apply (set_is_empty_slot _ T) in Ee.
      rewrite slot_set_slot in Ee. destruct (decide (T = T')) as [->|HT].
      * by rewrite decide_True.
      * rewrite decide_False by naive_solver. by rewrite Ee.
    + rewrite lookup_delete_ne by done. by rewrite decide_False by naive_solver.
  - pose proof (net_insert T T' m n None x) as E. rewrite Hn in E. exact E.
Qed.

Lemma reset_slot_run n T aset s :
  reset_slot n T aset s = Returned tt (s <| allocations_ :=
    if set_is_empty (set_slot T None aset) then delete n (allocations_ s)
    else <[ n := set_slot T None aset ]> (allocations_ s) |>).
Proof. unfold reset_slot. by destruct (set_is_empty _). Qed.

Lemma touches_reset X n T aset s :
  allocations_ s !! n = Some aset → touches X (reset_slot n T aset) s.
Proof.
  intros Hn. unfold touches. rewrite reset_slot_run. split; [|by intros []].
  intros T' x _. pose proof (net_reset T' T (allocations_ s) n aset x Hn) as E.
  destruct (decide (x = n ∧ T' = T)); [right; exact E|left; exact E].
Qed.

(** ** The frame of every call *)

Definition touched (r : Request) (T : BlockType) : bool :=
  match r with
  | AllocateTunnel _ | SyncTree _ | AssignServerTunnel _ => bool_decide (T = Tunnel)
  | AllocatePrivate _ _ => bool_decide (T = Private)
  | AllocateShared _ _ => bool_decide (T = Shared)
  | Expand _ t _ => bool_decide (T = t)
  | AllocateBackbone _ _ | ApplyRemote _ => bool_decide (T = Backbone)
  | _ => false
  end.

Lemma touches_next X T p s : X T = true → touches X (next_address T p) s.
Proof.
  intros HT. apply touches_get, touches_then.
  - apply (touches_cursor X T); [done|by destruct T|]. by intros t [] ?; destruct T.
  - intros. destruct (_ <? _); [apply touches_throw|].
    apply touches_then; [|intros; apply touches_ret].
    apply (touches_cursor X T); [done|by destruct T|]. by intros t [] ?; destruct T.
Qed.

Lemma touches_conflicts X ip p l s : touches X (conflicts_with ip p l) s.
Proof.
  revert s. induction l as [|[a|] l IH]; intros s; simpl; [apply touches_ret| |done].
  apply touches_then; [apply touches_lift|]. intros [ip' p'] s'.
  destruct (cidrs_overlap _ _ _ _); [apply touches_ret|done].
Qed.

Lemma touches_expired X timeout now l s : touches X (expired timeout now l) s.
Proof.
  revert s. induction l as [|[n a] l IH]; intros s; simpl; [apply touches_ret|].
  destruct (as_tunnel a); [|done]. apply touches_then; [apply touches_lift|].
  intros [ip p] s'. destruct (_ || _); [done|].
  apply touches_then; [done|]. intros. apply touches_ret.
Qed.

Lemma touches_evict X delta l s : touches X (evict_conflicts delta l) s.
Proof.
  revert s. induction l as [|[n a] l IH]; intros s; cbn [evict_conflicts]; [apply touches_ret|].
  destruct (String.eqb n _); [done|]. destruct (as_backbone a); [|done].
  destruct (negb _); [done|]. destruct (String.ltb _ _); [|apply touches_ret].
  apply touches_then; [|done]. apply touches_assign. by right; left.
Qed.
End frames.

Ltac frame_step :=
  lazymatch goal with
  | |- touches _ ?m _ =>
      lazymatch m with
      | mret _ => apply touches_ret
      | throw => apply touches_throw
      | lift _ => apply touches_lift
      | now_unix => apply touches_now
      | save_allocations => apply touches_save
      | conflicts_with _ _ _ => apply touches_conflicts
      | expired _ _ _ => apply touches_expired
      | evict_conflicts _ _ => apply touches_evict
      | with_lock _ => apply touches_lock; intros ?
      | sum_each _ _ => apply touches_sum_each; intros ? ?
      | for_each _ _ => apply touches_for_each; intros ? ?
      | next_address _ _ => apply touches_next; reflexivity
      | assign_slot _ _ _ => apply touches_assign; left; reflexivity
      | reset_slot _ _ _ => apply touches_reset; assumption
      | mbind _ get => apply touches_get
      | mbind _ (find _) => apply touches_find
      | mbind _ _ => apply touches_then; [|intros ? ?]
      | match ?x with _ => _ end => destruct x eqn:?
      | _ => progress cbv beta zeta
      end
  end.

Section calls.
Context `{TextCodec, ValueCodec, UnorderedMap} {St : Type} `{Storage St}.
Implicit Types (s : IPAM St).

Lemma touches_update T n (a : Allocation) X s v :
  (allocations_ s !! n ≫= slot T) = Some a → al_base_network v = al_base_network a →
  touches X (assign_slot n T (Some v)) s.
Proof.
  intros Ha Ev. apply touches_assign. right; right. unfold net. by rewrite Ha; simpl; rewrite Ev.
Qed.

Lemma touches_allocate_tunnel n s :
  touches (λ T, bool_decide (T = Tunnel)) (do_allocate_tunnel_ip n) s.
Proof. unfold do_allocate_tunnel_ip. repeat frame_step. Qed.

Lemma touches_expand n t p s :
  touches (λ T, bool_decide (T = t)) (do_expand_allocation n t p) s.
Proof. unfold do_expand_allocation. destruct t; repeat frame_step. Qed.

Lemma touches_release n t s : touches (λ _, false) (do_release n t) s.
Proof. unfold do_release. repeat frame_step. Qed.

Lemma touches_check c s : touches (λ _, false) (do_check_conflict c) s.
Proof. unfold do_check_conflict. repeat frame_step. Qed.

Lemma touches_sweep s : touches (λ _, false) sweep_expired_tunnel_leases s.
Proof.
  unfold sweep_expired_tunnel_leases, tunnel_lease_timeout_sec, release_expired. repeat frame_step.
Qed.

Lemma touches_update_tunnel n s : touches (λ _, false) (update_tunnel_last_seen n) s.
Proof.
  unfold update_tunnel_last_seen. apply touches_lock. intros s1. apply touches_find.
  destruct (allocations_ s1 !! n ≫= as_tunnel) as [t|] eqn:Et; [|apply touches_ret].
  apply touches_bind; [apply touches_now|]. intros now s' En.
  apply (touches_update Tunnel n t); [|reflexivity]. unfold now_unix in En.
  destruct (clock s1); injection En as _ <-; exact Et.
Qed.

Lemma touches_sync assigned s :
  touches (λ T, bool_decide (T = Tunnel)) (sync_tree_tunnel_addresses assigned) s.
Proof.
  unfold sync_tree_tunnel_addresses. apply touches_lock. intros s1.
  apply touches_then; [apply touches_sum_each; intros [n cidr] s2|intros added s2].
  - unfold sync_assigned. destruct (parse_cidr cidr) as [[ip p]|]; [|frame_step].
    destruct (_ || _); [frame_step|]. apply touches_find, touches_then; [|intros; repeat frame_step].
    apply touches_modify. split; [|by intros []]. intros T x _. left.
    unfold net. cbn. destruct (decide (x = n)) as [->|Hx].
    + rewrite lookup_insert_eq. destruct (allocations_ s2 !! n); [done|]. by destruct T.
    + by rewrite lookup_insert_ne.
  - apply touches_get, touches_then; [|intros; repeat frame_step].
    apply touches_sum_each. intros n s3. unfold sync_existing. apply touches_find.
    destruct (allocations_ s3 !! n) as [aset|] eqn:Ea; [|frame_step].
    apply touches_bind; [repeat frame_step|]. intros dropped s4 E4.
    assert (s4 = s3) as ->.
    { destruct (as_tunnel aset) as [t|]; [|by injection E4].
      unfold lift in E4. destruct (parse_cidr _) as [[ip p]|]; [|done]. by injection E4. }
    destruct dropped; [repeat frame_step|]. destruct (set_is_empty aset) eqn:Ee; [|frame_step].
    apply touches_then; [|intros; frame_step]. apply touches_modify. split; [|by intros []].
    intros T x _. unfold net. cbn. destruct (decide (x = n)) as [->|Hx].
    + right. by rewrite lookup_delete_eq.
    + left. by rewrite lookup_delete_ne.
Qed.

Lemma touches_assign_server n s :
  touches (λ T, bool_decide (T = Tunnel)) (assign_server_tunnel_ip n) s.
Proof. unfold assign_server_tunnel_ip. repeat frame_step. Qed.

Lemma touches_backbone_cursor (offset value : Z) s :
  touches (λ T, bool_decide (T = Backbone))
    (modify (λ s, if next_backbone_ip_ s <? offset
                  then s <| next_backbone_ip_ := value |> else s)) s.
Proof.
  apply (touches_cursor _ Backbone); [done| |].
  - intros t. by destruct (_ <? _).
  - intros t [] HT; by destruct (_ <? _).
Qed.

Lemma touches_allocate_backbone n k s :
  touches (λ T, bool_decide (T = Backbone)) (allocate_backbone_ip n k) s.
Proof. unfold allocate_backbone_ip. repeat frame_step. apply touches_backbone_cursor. Qed.

Lemma touches_remote delta s :
  touches (λ T, bool_decide (T = Backbone)) (apply_remote_backbone_allocation delta) s.
Proof.
  unfold apply_remote_backbone_allocation, apply_remote_release, apply_remote_allocate, note_delta.
  repeat frame_step; [|apply touches_backbone_cursor].
  apply touches_modify, only_core; [done|]. by intros [].
Qed.

Lemma touches_update_backbone n t s : touches (λ _, false) (update_backbone_last_seen n t) s.
Proof.
  unfold update_backbone_last_seen. apply touches_lock. intros s1. apply touches_find.
  destruct (allocations_ s1 !! n ≫= as_backbone) as [b|] eqn:Eb; [|apply touches_ret].
  by apply (touches_update Backbone n b).
Qed.

(** The two block allocators are one program. *)
Definition allocate_block (T : BlockType) (node_id : string) (prefix_len : Z)
    : Ipam St Allocation :=
  with_lock (
    it ← find node_id;
    match it ≫= slot T with
    | Some existing => mret existing
    | None =>
        cidr ← next_address T prefix_len;
        allocated_at ← now_unix;
        let alloc := mkAllocation T cidr node_id allocated_at 0 "" "" in
        assign_slot node_id T (Some alloc) ≫= λ _,
        save_allocations ≫= λ _, mret alloc
    end).

Lemma private_is_block n p : do_allocate_private_subnet n p = allocate_block Private n p.
Proof. reflexivity. Qed.

Lemma shared_is_block n p : do_allocate_shared_block n p = allocate_block Shared n p.
Proof. reflexivity. Qed.

Lemma touches_block T n p s :
  touches (λ T', bool_decide (T' = T)) (allocate_block T n p) s.
Proof. unfold allocate_block. destruct T; repeat frame_step. Qed.

Lemma touches_serve r s : touches (touched r) (serve r) s.
Proof.
  destruct r; simpl; unfold ignore; try (apply touches_then; [|intros; apply touches_ret]).
  - apply touches_allocate_tunnel.
  - rewrite private_is_block. apply touches_block.
  - rewrite shared_is_block. apply touches_block.
  - apply touches_expand.
  - apply touches_release.
  - unfold do_get_allocation. apply touches_lock. intros s1.
    change (only (λ _, false) s1 s1). reflexivity.
  - apply touches_check.
  - unfold tunnel_lease_timeout_sec. repeat frame_step.
  - apply touches_sweep.
  - apply touches_update_tunnel.
  - apply touches_sync.
  - apply touches_assign_server.
  - apply touches_allocate_backbone.
  - apply touches_remote.
  - unfold get_backbone_allocations. repeat frame_step.
  - apply touches_update_backbone.
  - unfold collect_stale_backbone. repeat frame_step.
Qed.
End calls.

(** ** Sequential blocks *)

Lemma stride_pow p : 1 <= p <= 32 → u32_shl 1 (32 - p) = 2 ^ (32 - p).
Proof.
  intros Hp. unfold u32_shl. rewrite Z.shiftl_1_l. apply Z.mod_small.
  change two32 with (2 ^ 32). split; [apply Z.pow_nonneg; lia|apply Z.pow_lt_mono_r; lia].
Qed.

Lemma align_spec c k :
  0 <= k <= 30 → 0 <= c <= 2 ^ 30 →
  c <= align c (2 ^ k) <= 2 ^ 30 ∧ align c (2 ^ k) mod 2 ^ k = 0.
Proof.
  intros Hk Hc. unfold align.
  assert (Hpos : 0 < 2 ^ k) by (apply Z.pow_pos_nonneg; lia).
  destruct (Z.eqb_spec (c mod 2 ^ k) 0) as [E|E]; [lia|].
  assert (Hfac : 2 ^ 30 = 2 ^ (30 - k) * 2 ^ k) by (rewrite <- Z.pow_add_r; [f_equal; lia|lia|lia]).
  pose proof (Z.div_mod c (2 ^ k)). pose proof (Z.mod_pos_bound c (2 ^ k) Hpos).
  set (q := c `div` 2 ^ k) in *. set (w := 2 ^ (30 - k)) in *.
  assert (Hq : 0 <= q) by (apply Z.div_pos; lia).
  assert (Hqw : q + 1 <= w) by nia.
  assert (Hw : w <= 2 ^ 30) by (apply Z.pow_le_mono_r; lia).
  rewrite (Z.mod_small (q + 1)) by (unfold two32; lia).
  rewrite (Z.mod_small ((q + 1) * 2 ^ k)) by (unfold two32; nia).
  split; [nia|]. by apply Z.mod_mul; lia.
Qed.

Section blocks.
Context `{TextCodec, ValueCodec, UnorderedMap} {St : Type} `{Storage St}.
Implicit Types (s : IPAM St).

Lemma cursor_set T v s : cursor T (set_cursor T v s) = v.
Proof. by destruct T. Qed.

Lemma alloc_set_cursor T v s : allocations_ (set_cursor T v s) = allocations_ s.
Proof. by destruct T. Qed.

Lemma set_cursor_twice T v w s : set_cursor T w (set_cursor T v s) = set_cursor T w s.
Proof. by destruct T. Qed.

Lemma block_size_bound T : 0 < block_size T <= 2 ^ 30.
Proof. by destruct T. Qed.

Lemma next_address_spec T p s :
  2 <= p <= 32 → 0 <= cursor T s <= 2 ^ 30 →
  ∃ c, cursor T s <= c <= 2 ^ 30 ∧ c mod 2 ^ (32 - p) = 0 ∧
    next_address T p s =
      if block_size T <? c + 2 ^ (32 - p) then Threw (set_cursor T c s)
      else Returned (format_cidr (block_base T + c) p) (set_cursor T (c + 2 ^ (32 - p)) s).
Proof.
  intros Hp Hc. set (k := 32 - p). assert (Hk : 0 <= k <= 30) by lia.
  destruct (align_spec (cursor T s) k Hk Hc) as [Hr Hm].
  exists (align (cursor T s) (2 ^ k)). split; [done|]. split; [done|].
  set (c := align (cursor T s) (2 ^ k)) in *.
  assert (Hpow : 0 < 2 ^ k <= 2 ^ 30)
    by (split; [apply Z.pow_pos_nonneg; lia|apply Z.pow_le_mono_r; lia]).
  unfold next_address, mbind, ipam_bind, get, modify.
  rewrite stride_pow by lia. fold k. fold c.
  rewrite (Z.mod_small (c + 2 ^ k)) by (unfold two32; lia).
  destruct (Z.ltb_spec (block_size T) (c + 2 ^ k)); [done|].
  unfold mret, ipam_ret. rewrite set_cursor_twice. do 2 f_equal.
  apply Z.mod_small. assert (block_base T <= 2 ^ 32 - 2 ^ 30) by (by destruct T).
  assert (0 <= block_base T) by (by destruct T). pose proof (block_size_bound T).
  unfold two32. lia.
Qed.

(** The blocks of a type: each in its range, below the cursor, aligned to its
    size, no two overlapping. *)
Definition range_of (x : string) (ip p : Z) : Prop := parse_cidr x = Some (ip, p).

Record block_inv (T : BlockType) s : Prop := mkBlockInv {
  bi_cursor : 0 <= cursor T s <= 2 ^ 30;
  bi_net : ∀ n x, net T (allocations_ s) n = Some x → ∃ ip p,
    range_of x ip p ∧ 2 <= p <= 32 ∧ block_base T <= ip ∧
    (ip - block_base T) mod 2 ^ (32 - p) = 0 ∧
    ip + 2 ^ (32 - p) <= block_base T + Z.min (cursor T s) (block_size T);
  bi_disjoint : ∀ n n' x x' ip p ip' p', n ≠ n' →
    net T (allocations_ s) n = Some x → net T (allocations_ s) n' = Some x' →
    range_of x ip p → range_of x' ip' p' →
    ip + 2 ^ (32 - p) <= ip' ∨ ip' + 2 ^ (32 - p') <= ip;
}.

Lemma block_inv_only X T s s' :
  X T = false → only X s s' → block_inv T s → block_inv T s'.
Proof.
  intros HT [Hn Hc] [I1 I2 I3]. specialize (Hc T HT).
  assert (Hsub : ∀ n x, net T (allocations_ s') n = Some x → net T (allocations_ s) n = Some x).
  { intros n x E. destruct (Hn T n HT) as [E'|E']; rewrite E' in E; [exact E|discriminate E]. }
  split; rewrite ?Hc; eauto.
Qed.

Lemma block_inv_cursor T s c :
  block_inv T s → cursor T s <= c <= 2 ^ 30 → block_inv T (set_cursor T c s).
Proof.
  intros [I1 I2 I3] Hc. split; rewrite ?cursor_set, ?alloc_set_cursor; [lia| |done].
  intros n x E. destruct (I2 n x E) as (ip & p & ? & ? & ? & ? & ?). exists ip, p.
  repeat (split; [done|]). lia.
Qed.

Lemma block_inv_add T s s' n c p :
  block_inv T s → 2 <= p <= 32 → cursor T s <= c → c mod 2 ^ (32 - p) = 0 →
  c + 2 ^ (32 - p) <= block_size T → cursor T s' = c + 2 ^ (32 - p) →
  (∀ m, net T (allocations_ s') m =
        if decide (m = n) then Some (format_cidr (block_base T + c) p)
        else net T (allocations_ s) m) →
  block_inv T s'.
Proof.
  intros [I1 I2 I3] Hp Hc Hm Hs Hc' Hnet.
  assert (Hpow : 0 < 2 ^ (32 - p)) by (apply Z.pow_pos_nonneg; lia).
  pose proof (block_size_bound T) as HT.
  assert (Hb : 0 <= block_base T <= 2 ^ 32 - 2 ^ 30) by (by destruct T).
  assert (Hnew : range_of (format_cidr (block_base T + c) p) (block_base T + c) p)
    by (apply parse_format_cidr; unfold is_u32, two32; lia).
  assert (Hold : ∀ m x ip q, m ≠ n → net T (allocations_ s') m = Some x → range_of x ip q →
            ip + 2 ^ (32 - q) <= block_base T + c).
  { intros m x ip q Hmn Ex Hr. rewrite Hnet, decide_False in Ex by done.
    destruct (I2 m x Ex) as (ip' & q' & Hr' & _ & _ & _ & Hle). unfold range_of in *.
    rewrite Hr in Hr'. injection Hr' as <- <-. lia. }
  split; rewrite ?Hc'; [lia| |].
  - intros m x Ex. rewrite Hnet in Ex. destruct (decide (m = n)) as [->|Hmn].
    + injection Ex as <-. exists (block_base T + c), p. split; [done|]. split; [done|].
      split; [lia|]. split; [|lia]. by replace (block_base T + c - block_base T) with c by lia.
    + destruct (I2 m x Ex) as (ip & q & ? & ? & ? & ? & ?). exists ip, q.
      repeat (split; [done|]). lia.
  - intros m m' x x' ip q ip' q' Hmm Ex Ex' Hr Hr'.
    destruct (decide (m = n)) as [->|Hmn]; [|destruct (decide (m' = n)) as [->|Hmn']].
    + right. rewrite Hnet, decide_True in Ex by done. injection Ex as <-.
      unfold range_of in *. rewrite Hnew in Hr. injection Hr as <- <-. by eapply Hold.
    + left. rewrite Hnet, decide_True in Ex' by done. injection Ex' as <-.
      unfold range_of in *. rewrite Hnew in Hr'. injection Hr' as <- <-. by eapply Hold.
    + rewrite Hnet, decide_False in Ex by done. rewrite Hnet, decide_False in Ex' by done.
      by apply (I3 m m' x x').
Qed.

Definition same_core s s' : Prop :=
  allocations_ s' = allocations_ s ∧ (∀ T, cursor T s' = cursor T s) ∧
  seen_backbone_deltas_ s' = seen_backbone_deltas_ s ∧ locked s' = locked s.

#[export] Instance same_core_preorder : PreOrder same_core.
Proof.
  split; [done|]. intros s1 s2 s3 (E1 & E2 & E3 & E4) (F1 & F2 & F3 & F4).
  split; [by etrans|]. split; [intros T; by rewrite F2|]. by rewrite F3, F4.
Qed.

Lemma now_run s : ∃ t s', now_unix s = Returned t s' ∧ same_core s s'.
Proof.
  unfold now_unix. destruct (clock s); eexists _, _; (split; [reflexivity|]); [done|].
  split; [done|]. split; [|done]. by intros [].
Qed.

Lemma save_run s : ∃ s', save_allocations s = Returned tt s' ∧ same_core s s'.
Proof.
  unfold save_allocations, mbind, ipam_bind, get.
  destruct (now_run s) as (t & s1 & -> & Hs). unfold modify. eexists. split; [reflexivity|].
  etrans; [exact Hs|]. split; [done|]. split; [|done]. by intros [].
Qed.

Definition with_slot (n : string) (T : BlockType) (v : option Allocation) s : IPAM St :=
  s <| allocations_ := <[ n := set_slot T v (default empty_set (allocations_ s !! n)) ]>
                         (allocations_ s) |>.

Lemma assign_run n T v s : assign_slot n T v s = Returned tt (with_slot n T v s).
Proof. done. Qed.

Lemma cursor_with_slot T n T' v s : cursor T (with_slot n T' v s) = cursor T s.
Proof. by destruct T. Qed.

Lemma same_core_with_slot s s' n T v :
  same_core s s' → same_core (with_slot n T v s) (with_slot n T v s').
Proof.
  intros (E1 & E2 & E3 & E4). unfold same_core, with_slot. cbn. rewrite E1. split; [done|].
  split; [|done]. intros T'. specialize (E2 T'). by destruct T'.
Qed.

Lemma lock_run {A} (m : Ipam St A) s :
  locked s = false →
  with_lock m s = match m (s <| locked := true |>) with
                  | Returned a s => Returned a (s <| locked := false |>)
                  | Threw s => Threw (s <| locked := false |>)
                  | Deadlock => Deadlock
                  end.
Proof. intros E. unfold with_lock. by rewrite E. Qed.

Lemma bind_returned {A B} (m : Ipam St A) (f : A → Ipam St B) s a s' :
  m s = Returned a s' → (m ≫= f) s = f a s'.
Proof. intros E. unfold mbind, ipam_bind. by rewrite E. Qed.

Lemma bind_threw {A B} (m : Ipam St A) (f : A → Ipam St B) s s' :
  m s = Threw s' → (m ≫= f) s = Threw s'.
Proof. intros E. unfold mbind, ipam_bind. by rewrite E. Qed.

Lemma bind_find {B} n (f : option AllocationSet → Ipam St B) s :
  (find n ≫= f) s = f (allocations_ s !! n) s.
Proof. done. Qed.

Lemma unlock_lock s : locked s = false → s <| locked := true |> <| locked := false |> = s.
Proof. destruct s as [? ? ? ? ? ? ? ? l]. simpl. by intros ->. Qed.

(** What [allocate_block] does, on each branch. *)
Lemma allocate_block_run T n p s :
  locked s = false → 2 <= p <= 32 → 0 <= cursor T s <= 2 ^ 30 →
  match allocations_ s !! n ≫= slot T with
  | Some existing => allocate_block T n p s = Returned existing s
  | None => ∃ c, cursor T s <= c <= 2 ^ 30 ∧ c mod 2 ^ (32 - p) = 0 ∧
      if block_size T <? c + 2 ^ (32 - p)
      then allocate_block T n p s = Threw (set_cursor T c s)
      else ∃ t s', allocate_block T n p s =
             Returned (mkAllocation T (format_cidr (block_base T + c) p) n t 0 "" "") s' ∧
           same_core (with_slot n T
             (Some (mkAllocation T (format_cidr (block_base T + c) p) n t 0 "" ""))
             (set_cursor T (c + 2 ^ (32 - p)) s)) s'
  end.
Proof.
  intros Hl Hp Hc. unfold allocate_block. rewrite lock_run by done.
  rewrite bind_find. set (s1 := s <| locked := true |>).
  change (allocations_ s1) with (allocations_ s).
  destruct (allocations_ s !! n ≫= slot T) as [a|].
  { unfold mret, ipam_ret. subst s1. by rewrite unlock_lock. }
  assert (Hc1 : cursor T s1 = cursor T s) by (by destruct T).
  destruct (next_address_spec T p s1) as (c & Hcc & Hm & En); [done|by rewrite Hc1|].
  exists c. rewrite Hc1 in Hcc. split; [done|]. split; [done|].
  assert (Hback : ∀ v, (set_cursor T v s1) <| locked := false |> = set_cursor T v s).
  { intros v. subst s1. destruct s as [? ? ? ? ? ? ? ? l]. simpl in Hl. subst l. by destruct T. }
  destruct (block_size T <? c + 2 ^ (32 - p));
    [by rewrite (bind_threw _ _ _ _ En), Hback|].
  rewrite (bind_returned _ _ _ _ _ En).
  set (s2 := set_cursor T (c + 2 ^ (32 - p)) s1) in *.
  destruct (now_run s2) as (t & s3 & Et & H3). exists t. rewrite (bind_returned _ _ _ _ _ Et).
  set (alloc := mkAllocation T _ n t 0 "" "").
  rewrite (bind_returned _ _ _ _ _ (assign_run n T (Some alloc) s3)).
  destruct (save_run (with_slot n T (Some alloc) s3)) as (s4 & Ev & H4).
  rewrite (bind_returned _ _ _ _ _ Ev). unfold mret, ipam_ret.
  eexists. split; [reflexivity|].
  assert (Hs : same_core (with_slot n T (Some alloc) s2) s4)
    by (etrans; [by apply same_core_with_slot|exact H4]).
  destruct Hs as (E1 & E2 & E3 & E4). split; [|split; [|split]].
  - change (allocations_ (s4 <| locked := false |>)) with (allocations_ s4). rewrite E1.
    cbn. subst s2. by rewrite !alloc_set_cursor.
  - intros T'. rewrite !cursor_with_slot.
    transitivity (cursor T' s4); [by destruct T'|]. rewrite E2, cursor_with_slot.
    subst s2 s1. by destruct T, T'.
  - change (seen_backbone_deltas_ (s4 <| locked := false |>)) with (seen_backbone_deltas_ s4).
    rewrite E3. subst s2 s1. by destruct T.
  - cbn. rewrite <- Hl. by destruct T.
Qed.
End blocks.

(** ** Invariants over the calls *)

Section invariants.
Context `{TextCodec, ValueCodec, UnorderedMap} {St : Type} `{Storage St}.
Implicit Types (s : IPAM St).

Definition after {A} (m : Ipam St A) s (P : IPAM St → Prop) : Prop :=
  match m s with Returned _ s' | Threw s' => P s' | Deadlock => True end.

Lemma after_ignore {A} (m : Ipam St A) s P : after m s P → after (ignore m) s P.
Proof. unfold after, ignore, mbind, ipam_bind. by destruct (m s). Qed.

Lemma lock_unlocks {A} (m : Ipam St A) s : after (with_lock m) s (λ s', locked s' = false).
Proof. unfold after, with_lock. destruct (locked s); [done|]. by destruct (m _). Qed.

Lemma serve_unlocks r s : after (serve r) s (λ s', locked s' = false).
Proof. destruct r; try apply after_ignore; apply lock_unlocks. Qed.

(** Calls that keep the blocks of [T] disjoint: no expansion, and a prefix
    length between 2 and 32. *)
Definition request_ok (T : BlockType) (r : Request) : Prop :=
  match r with
  | AllocatePrivate _ p => T = Private → 2 <= p <= 32
  | AllocateShared _ p => T = Shared → 2 <= p <= 32
  | Expand _ t _ => t ≠ T
  | _ => True
  end.

Lemma block_inv_core T s s' : same_core s s' → block_inv T s → block_inv T s'.
Proof.
  intros (E1 & E2 & _) [I1 I2 I3]. split; rewrite ?E1, ?E2; auto.
Qed.

Lemma net_with_slot T n T' v s x :
  net T (allocations_ (with_slot n T' v s)) x =
  if decide (x = n ∧ T = T') then al_base_network <$> v else net T (allocations_ s) x.
Proof. apply net_insert. Qed.

Lemma allocate_block_inv T n p s :
  locked s = false → 2 <= p <= 32 → block_inv T s →
  after (allocate_block T n p) s (block_inv T).
Proof.
  intros Hl Hp Hi. pose proof (allocate_block_run T n p s Hl Hp (bi_cursor _ _ Hi)) as Hrun.
  unfold after. destruct (allocations_ s !! n ≫= slot T) as [a|]; [by rewrite Hrun|].
  destruct Hrun as (c & Hc & Hm & Hrun).
  destruct (Z.ltb_spec (block_size T) (c + 2 ^ (32 - p))) as [Hlt|Hge].
  { rewrite Hrun. by apply block_inv_cursor. }
  destruct Hrun as (t & s' & -> & Hs). eapply block_inv_core; [exact Hs|].
  eapply (block_inv_add T s _ n c p); try done; [lia| |].
  - by rewrite cursor_with_slot, cursor_set.
  - intros m. rewrite net_with_slot, alloc_set_cursor.
    destruct (decide (m = n)) as [->|Hmn]; [by rewrite decide_True|].
    by rewrite decide_False by naive_solver.
Qed.

Lemma serve_block_inv T r s :
  T = Private ∨ T = Shared → request_ok T r → locked s = false → block_inv T s →
  after (serve r) s (block_inv T).
Proof.
  intros HT Hr Hl Hi. destruct (touched r T) eqn:Et.
  - destruct r; simpl in Et, Hr; try discriminate Et; apply bool_decide_eq_true_1 in Et; subst T;
      try (by destruct HT); try (by destruct (Hr eq_refl));
      apply after_ignore; rewrite ?private_is_block, ?shared_is_block;
      apply allocate_block_inv; auto.
  - pose proof (touches_serve r s) as Ht. unfold touches in Ht. unfold after.
    destruct (serve r s); [..|done]; by eapply block_inv_only.
Qed.

Lemma serve_all_inv (P : IPAM St → Prop) (ok : Request → Prop) :
  (∀ r s, ok r → locked s = false → P s → after (serve r) s P) →
  ∀ requests s s', Forall ok requests → locked s = false → P s →
  serve_all requests s = Some s' → P s'.
Proof.
  intros Hstep requests. induction requests as [|r rest IH]; intros s s' Hok Hl Hp E.
  { by injection E as <-. }
  inversion Hok as [|? ? Hr Hrest]; subst. cbn in E.
  pose proof (Hstep r s Hr Hl Hp) as Hp'. pose proof (serve_unlocks r s) as Hl'.
  unfold after in Hp', Hl'. destruct (serve r s) as [u s1|s1|]; [..|discriminate E]; eauto.
Qed.

Lemma new_block_inv T (st : St) clk : block_inv T (new_ipam st clk).
Proof.
  split; [by destruct T| |]; unfold net; cbn; intros *; rewrite lookup_empty; done.
Qed.

Lemma base_aligned T k :
  T = Private ∨ T = Shared → 0 <= k → 2 ^ k <= block_size T → block_base T mod 2 ^ k = 0.
Proof.
  intros HT Hk Hs. assert (Hsz : ∃ e m, 0 <= e ∧ block_size T = 2 ^ e ∧ block_base T = m * 2 ^ e).
  { destruct HT as [->| ->]; [exists 23, 21|exists 18, 11013]; by vm_compute. }
  destruct Hsz as (e & m & He & Es & Eb). rewrite Es in Hs.
  apply Z.pow_le_mono_r_iff in Hs; [|lia|lia]. rewrite Eb.
  replace e with (e - k + k) by lia. rewrite Z.pow_add_r, Z.mul_assoc by lia.
  apply Z.mod_mul. apply Z.pow_nonzero; lia.
Qed.

(** Disjoint aligned ranges do not overlap in the sense of the program. *)
Lemma disjoint_no_overlap a p b q :
  is_u32 a → is_u32 b → 0 <= p <= 32 → 0 <= q <= 32 →
  a mod 2 ^ (32 - p) = 0 → b mod 2 ^ (32 - q) = 0 →
  a + 2 ^ (32 - p) <= b ∨ b + 2 ^ (32 - q) <= a → cidrs_overlap a p b q = false.
Proof.
  intros Ha Hb Hp Hq Ma Mb Hd. apply not_true_iff_false. rewrite cidrs_overlap_spec by done.
  intros (x & Hx & Hy). unfold in_block in Hx, Hy.
  assert (Hin : ∀ c k, 0 <= k → c mod 2 ^ k = 0 → x `div` 2 ^ k = c `div` 2 ^ k →
            c <= x < c + 2 ^ k).
  { intros c k Hk Hc E. assert (0 < 2 ^ k) by (apply Z.pow_pos_nonneg; lia).
    pose proof (Z.div_mod c (2 ^ k)). pose proof (Z.div_mod x (2 ^ k)).
    pose proof (Z.mod_pos_bound x (2 ^ k)). nia. }
  apply Hin in Hx; [|lia|done]. apply Hin in Hy; [|lia|done]. lia.
Qed.

Lemma block_inv_meaning T s :
  T = Private ∨ T = Shared → block_inv T s →
  ∀ n n' a a', n ≠ n' →
    (allocations_ s !! n ≫= slot T) = Some a → (allocations_ s !! n' ≫= slot T) = Some a' →
    ∃ ip p ip' p', parse_cidr (al_base_network a) = Some (ip, p) ∧
      parse_cidr (al_base_network a') = Some (ip', p') ∧
      block_base T <= ip ∧ ip + 2 ^ (32 - p) <= block_base T + block_size T ∧
      cidrs_overlap ip p ip' p' = false.
Proof.
  intros HT Hi n n' a a' Hn Ea Ea'.
  assert (Na : net T (allocations_ s) n = Some (al_base_network a)) by (unfold net; by rewrite Ea).
  assert (Na' : net T (allocations_ s) n' = Some (al_base_network a'))
    by (unfold net; by rewrite Ea').
  destruct (bi_net _ _ Hi n _ Na) as (ip & p & Hr & Hp & Hb & Hm & Hle).
  destruct (bi_net _ _ Hi n' _ Na') as (ip' & p' & Hr' & Hp' & Hb' & Hm' & Hle').
  exists ip, p, ip', p'. split; [exact Hr|]. split; [exact Hr'|]. split; [done|]. split; [lia|].
  assert (Hal : ∀ i q, 2 <= q <= 32 → block_base T <= i →
            i + 2 ^ (32 - q) <= block_base T + block_size T →
            (i - block_base T) mod 2 ^ (32 - q) = 0 → i mod 2 ^ (32 - q) = 0).
  { intros i q Hq Hi1 Hi2 Hi3. replace i with (i - block_base T + block_base T) by lia.
    rewrite Zplus_mod, Hi3, base_aligned; [done|done|lia|lia]. }
  apply disjoint_no_overlap; try lia.
  - by apply parse_cidr_range in Hr as [? _].
  - by apply parse_cidr_range in Hr' as [? _].
  - apply Hal; auto; lia.
  - apply Hal; auto; lia.
  - by apply (bi_disjoint _ _ Hi n n' (al_base_network a) (al_base_network a') ip p ip' p').
Qed.
End invariants.
