(* ===== verification/IpamBackbone.v ===== *)
(** * The backbone addresses

    The probe of [allocate_backbone_ip] finds a free offset whenever one
    exists, and every call keeps the addresses of the backbone distinct, also
    the conflict rule of [apply_remote_backbone_allocation]. *)

From S2P Require Import Prelude SecurityPolicy CanonicalEncoding ConsensusTypes Json IpamAddress FileStorage Ipam IpamInvariants.

Section backbone.
Context `{TextCodec, ValueCodec, UnorderedMap} {St : Type} `{Storage St}.
Implicit Types (s : IPAM St).

Lemma elem_of_entries m n aset : (n, aset) ∈ entries m ↔ m !! n = Some aset.
Proof. by rewrite entries_perm, elem_of_map_to_list. Qed.

Lemma NoDup_entries m : NoDup (entries m).*1.
Proof. rewrite entries_perm. apply NoDup_fst_map_to_list. Qed.

Lemma backbone_taken_spec m cidr :
  backbone_taken m cidr = true ↔ ∃ n, net Backbone m n = Some cidr.
Proof.
  unfold backbone_taken, net. rewrite existsb_exists. split.
  - intros ([n aset] & Hin%list_elem_of_In%elem_of_entries & Hb). simpl in Hb.
    exists n. rewrite Hin. simpl. destruct (as_backbone aset); [|done]. simpl.
    by apply String.eqb_eq in Hb as ->.
  - intros (n & E). destruct (m !! n) as [aset|] eqn:En; [|done]. simpl in E.
    exists (n, aset). split; [by apply list_elem_of_In, elem_of_entries|]. simpl.
    destruct (as_backbone aset); [|done]. simpl in E. injection E as <-. apply String.eqb_refl.
Qed.

(** ** The probe *)

Definition usable (offset : Z) : Prop := kBackboneUsableStart <= offset < kBackboneSize.

Lemma next_offset_usable offset : usable (next_offset offset).
Proof.
  unfold usable, next_offset, kUsableCount, kBackboneUsableStart, kBackboneSize.
  pose proof (Z.mod_pos_bound (offset - 10 + 1) (1024 - 10)). lia.
Qed.

Lemma preferred_usable key : usable (preferred_offset key).
Proof.
  unfold usable, preferred_offset. destruct (4 <=? _); [|done].
  match goal with |- context [?h mod kUsableCount] => pose proof (Z.mod_pos_bound h kUsableCount) end.
  unfold kUsableCount, kBackboneUsableStart, kBackboneSize in *. lia.
Qed.

Lemma probe_some tries m offset found :
  usable offset → probe tries m offset = Some found →
  usable found ∧ backbone_taken m (format_cidr (kBackboneBase + found) 32) = false.
Proof.
  revert offset. induction tries as [|tries IH]; intros offset Hu E; [done|]. cbn [probe] in E.
  destruct (backbone_taken m (format_cidr (kBackboneBase + offset) 32)) eqn:Et;
    [|by injection E as <-].
  eapply IH; [|exact E]. apply next_offset_usable.
Qed.

(** The [i]-th offset the probe looks at. *)
Lemma probe_none tries m offset :
  usable offset → probe tries m offset = None →
  ∀ i : nat, (i < tries)%nat →
    backbone_taken m (format_cidr (kBackboneBase +
      ((offset - kBackboneUsableStart + Z.of_nat i) mod kUsableCount + kBackboneUsableStart)) 32)
    = true.
Proof.
  revert offset. induction tries as [|tries IH]; intros offset Hu E i Hi; [lia|].
  cbn [probe] in E. destruct (backbone_taken m (format_cidr (kBackboneBase + offset) 32)) eqn:Et;
    [|done]. destruct i as [|i].
  - rewrite Z.add_0_r, Z.mod_small by (unfold usable, kUsableCount, kBackboneUsableStart,
      kBackboneSize in *; lia). by replace (offset - kBackboneUsableStart + kBackboneUsableStart)
      with offset by lia.
  - specialize (IH _ (next_offset_usable offset) E i ltac:(lia)).
    unfold next_offset in IH.
    replace ((offset - kBackboneUsableStart + 1) mod kUsableCount + kBackboneUsableStart -
             kBackboneUsableStart) with ((offset - kBackboneUsableStart + 1) mod kUsableCount)
      in IH by lia.
    rewrite Zplus_mod_idemp_l in IH.
    by replace (offset - kBackboneUsableStart + Z.of_nat (S i)) with
      (offset - kBackboneUsableStart + 1 + Z.of_nat i) by lia.
Qed.

Lemma probe_exhausted m offset :
  usable offset →
  probe (Z.to_nat kUsableCount) m offset = None ↔
  ∀ o, usable o → backbone_taken m (format_cidr (kBackboneBase + o) 32) = true.
Proof.
  intros Hu. split.
  - intros E o Ho. set (i := (o - offset) mod kUsableCount).
    assert (Hi : 0 <= i < kUsableCount) by (by apply Z.mod_pos_bound).
    pose proof (probe_none _ _ _ Hu E (Z.to_nat i) ltac:(lia)) as Ht.
    rewrite Z2Nat.id in Ht by lia. subst i. rewrite Zplus_mod_idemp_r in Ht.
    replace (offset - kBackboneUsableStart + (o - offset)) with (o - kBackboneUsableStart) in Ht
      by lia.
    rewrite Z.mod_small in Ht by (unfold usable, kUsableCount in *; lia).
    by replace (o - kBackboneUsableStart + kBackboneUsableStart) with o in Ht by lia.
  - intros Hall. destruct (probe _ m offset) as [o|] eqn:E; [|done].
    apply probe_some in E as [Ho Hf]; [|done]. by rewrite (Hall o Ho) in Hf.
Qed.

(** ** Distinct addresses *)

Definition unique_backbone s : Prop := ∀ n n' x, n ≠ n' →
  net Backbone (allocations_ s) n = Some x → net Backbone (allocations_ s) n' = Some x → False.

Lemma unique_only X s s' : X Backbone = false → only X s s' → unique_backbone s → unique_backbone s'.
Proof.
  intros HX [Hn _] Hu n n' x Hne E E'.
  destruct (Hn Backbone n HX) as [F|F], (Hn Backbone n' HX) as [F'|F'];
    rewrite F in E; rewrite F' in E'; try discriminate. by apply (Hu n n' x).
Qed.

Lemma unique_core s s' : same_core s s' → unique_backbone s → unique_backbone s'.
Proof. intros (E & _) Hu. unfold unique_backbone. by rewrite E. Qed.

Lemma unique_add s n a :
  unique_backbone s →
  (∀ m, m ≠ n → net Backbone (allocations_ s) m ≠ Some (al_base_network a)) →
  unique_backbone (with_slot n Backbone (Some a) s).
Proof.
  intros Hu Hfree x y z Hxy. rewrite !net_with_slot.
  destruct (decide (x = n ∧ _)) as [[-> _]|Hx], (decide (y = n ∧ _)) as [[-> _]|Hy]; [done| | |].
  - intros [= <-] E. apply (Hfree y); [naive_solver|done].
  - intros E [= <-]. apply (Hfree x); [naive_solver|done].
  - by apply Hu.
Qed.

Lemma unique_cursor s offset value :
  unique_backbone s →
  unique_backbone (if next_backbone_ip_ s <? offset
                   then s <| next_backbone_ip_ := value |> else s).
Proof. by destruct (_ <? _). Qed.

Lemma after_bind {A B} (m : Ipam St A) (f : A → Ipam St B) s (P : IPAM St → Prop) :
  after m s P → (∀ a s', m s = Returned a s' → after (f a) s' P) → after (m ≫= f) s P.
Proof.
  unfold after, mbind, ipam_bind. intros Hm Hf. destruct (m s) as [a s'|s'|]; [|done..].
  by apply Hf.
Qed.

Lemma after_lock {A} (m : Ipam St A) s (P : IPAM St → Prop) :
  (∀ t b, P t → P (t <| locked := b |>)) → after m (s <| locked := true |>) P →
  after (with_lock m) s P.
Proof.
  unfold after, with_lock. intros HP Hm. destruct (locked s); [done|].
  destruct (m _); auto.
Qed.

Lemma after_save {A} (a : A) s : unique_backbone s →
  after (save_allocations ≫= λ _, mret a) s unique_backbone.
Proof.
  intros Hu. unfold after. destruct (save_run s) as (s' & E & Hc).
  rewrite (bind_returned _ _ _ _ _ E). by eapply unique_core.
Qed.

Lemma allocate_backbone_unique n k s :
  unique_backbone s → after (allocate_backbone_ip n k) s unique_backbone.
Proof.
  intros Hu. apply after_lock; [done|]. set (s1 := s <| locked := true |>).
  assert (Hu1 : unique_backbone s1) by done. clearbody s1. clear Hu s.
  unfold after. rewrite bind_find.
  destruct (allocations_ s1 !! n ≫= as_backbone); [done|].
  change ((get ≫= ?f) s1) with (f s1 s1). cbv beta.
  destruct (probe _ _ _) as [o|] eqn:Ep; [|done].
  apply probe_some in Ep as [Ho Hfree]; [|apply preferred_usable].
  destruct (now_run s1) as (t & s2 & E2 & C2). rewrite (bind_returned _ _ _ _ _ E2).
  destruct (now_run s2) as (t' & s3 & E3 & C3). rewrite (bind_returned _ _ _ _ _ E3).
  cbv zeta. rewrite (bind_returned _ _ _ _ _ (assign_run n Backbone _ s3)).
  erewrite bind_returned by reflexivity. apply after_save, unique_cursor, unique_add.
  - by eapply unique_core, unique_core.
  - intros m _ E. destruct C2 as [A2 _], C3 as [A3 _]. rewrite A3, A2 in E.
    apply not_true_iff_false in Hfree. apply Hfree, backbone_taken_spec. by exists m.
Qed.

(** The scan leaves no other holder of the address. *)
Lemma evict_clears delta items s s' :
  Forall (λ e, net Backbone (allocations_ s) e.1 = al_base_network <$> as_backbone e.2 ∨
               net Backbone (allocations_ s) e.1 = None) items →
  evict_conflicts delta items s = Returned false s' →
  ∀ n, n ∈ items.*1 → n ≠ bd_server_node_id delta →
  net Backbone (allocations_ s') n ≠ Some (bd_backbone_ip delta).
Proof.
  revert s. induction items as [|[n0 aset] items IH]; intros s Hall E n Hn Hne;
    [by apply not_elem_of_nil in Hn|].
  apply Forall_cons in Hall as [Hhd Htl]. simpl in Hhd.
  assert (Hlater : ∀ t, only (λ _, false) s t → evict_conflicts delta items t = Returned false s' →
    (net Backbone (allocations_ t) n0 ≠ Some (bd_backbone_ip delta) ∨
     n0 = bd_server_node_id delta) →
    net Backbone (allocations_ s') n ≠ Some (bd_backbone_ip delta)).
  { intros t Ht Et Hc. cbn in Hn. apply elem_of_cons in Hn as [->|Hn].
    - destruct Hc as [Hc|Hc]; [|by rewrite Hc in Hne].
      pose proof (touches_evict (λ _, false) delta items t) as Hto. unfold touches in Hto.
      rewrite Et in Hto. destruct (only_net _ _ _ Hto Backbone n0 eq_refl) as [-> | ->]; done.
    - apply (IH t); try done. eapply Forall_impl; [exact Htl|]. intros e [He|He];
        destruct (only_net _ _ _ Ht Backbone e.1 eq_refl) as [Hx|Hx]; rewrite Hx; auto. }
  cbn [evict_conflicts] in E.
  destruct (String.eqb_spec n0 (bd_server_node_id delta)) as [Heq|Hn0].
  { apply (Hlater s); [reflexivity|done|by right]. }
  destruct (as_backbone aset) as [held|] eqn:Eb; cbn in Hhd.
  2:{ apply (Hlater s); [reflexivity|done|left]. destruct Hhd as [-> | ->]; done. }
  destruct (String.eqb_spec (al_base_network held) (bd_backbone_ip delta)) as [Eip|Eip]; simpl in E.
  - destruct (String.ltb _ _); [|discriminate E].
    rewrite (bind_returned _ _ _ _ _ (assign_run n0 Backbone None s)) in E.
    apply (Hlater (with_slot n0 Backbone None s)); [|done|].
    + pose proof (touches_assign (λ _, false) n0 Backbone None s) as Ht.
      apply Ht. by right; left.
    + left. by rewrite net_with_slot, decide_True.
  - apply (Hlater s); [reflexivity|done|left]. destruct Hhd as [-> | ->]; naive_solver.
Qed.

Lemma remote_allocate_unique delta s :
  unique_backbone s → after (apply_remote_allocate delta) s unique_backbone.
Proof.
  intros Hu. unfold apply_remote_allocate, after. change ((get ≫= ?f) s) with (f s s). cbv beta.
  pose proof (touches_evict (λ _, false) delta (entries (allocations_ s)) s) as Ht.
  unfold touches in Ht.
  destruct (evict_conflicts delta (entries (allocations_ s)) s) as [kept s1|s1|] eqn:Ev.
  2:{ rewrite (bind_threw _ _ _ _ Ev). by apply (unique_only (λ _, false) s). }
  2:{ unfold mbind, ipam_bind. by rewrite Ev. }
  rewrite (bind_returned _ _ _ _ _ Ev). assert (Hu1 : unique_backbone s1) by by apply (unique_only (λ _, false) s).
  destruct kept; [done|].
  assert (Hclear : ∀ n, n ≠ bd_server_node_id delta →
    net Backbone (allocations_ s1) n ≠ Some (bd_backbone_ip delta)).
  { intros n Hn E. destruct (only_net _ _ _ Ht Backbone n eq_refl) as [F|F];
      rewrite F in E; [|discriminate E].
    apply (evict_clears delta (entries (allocations_ s)) s s1) with (n := n); try done.
    - apply Forall_forall. intros [m aset] Hm%elem_of_entries. left. unfold net. simpl. by rewrite Hm.
    - unfold net in E. destruct (allocations_ s !! n) as [aset|] eqn:En; [|discriminate E].
      apply list_elem_of_fmap. exists (n, aset). by rewrite elem_of_entries.
    - by rewrite F. }
  destruct (now_run s1) as (t & s2 & E2 & C2). rewrite (bind_returned _ _ _ _ _ E2). cbv zeta.
  rewrite (bind_returned _ _ _ _ _ (assign_run _ Backbone _ s2)).
  set (s3 := with_slot _ Backbone _ s2).
  assert (Hu3 : unique_backbone s3).
  { apply unique_add; [by eapply unique_core|]. intros m Hm. destruct C2 as [-> _]. by apply Hclear. }
  destruct (parse_cidr (bd_backbone_ip delta)) as [[ip p]|]; [|done].
  rewrite (bind_returned (lift (Some (ip, p))) _ s3 (ip, p) s3 eq_refl).
  rewrite (bind_returned (modify _) _ s3 tt _ eq_refl).
  apply after_save, unique_cursor, Hu3.
Qed.

Lemma remote_unique delta s :
  unique_backbone s → after (apply_remote_backbone_allocation delta) s unique_backbone.
Proof.
  intros Hu. apply after_lock; [done|]. set (s1 := s <| locked := true |>).
  assert (Hu1 : unique_backbone s1) by done. clearbody s1. clear Hu s.
  unfold after. change ((get ≫= ?f) s1) with (f s1 s1). cbv beta.
  destruct (bool_decide _); [done|]. unfold note_delta. erewrite bind_returned by reflexivity.
  match goal with |- context [(if String.eqb _ "release" then _ else _) ?t] => set (s2 := t) end.
  assert (Hu2 : unique_backbone s2) by done. clearbody s2.
  destruct (String.eqb _ "release"); [|by apply remote_allocate_unique].
  assert (Ht : touches (λ _, false) (apply_remote_release delta) s2)
    by (unfold apply_remote_release; repeat frame_step).
  unfold touches in Ht. destruct (apply_remote_release delta s2); [..|done];
    by apply (unique_only (λ _, false) s2).
Qed.

Lemma serve_unique r s : unique_backbone s → after (serve r) s unique_backbone.
Proof.
  intros Hu. destruct (touched r Backbone) eqn:Et.
  - destruct r as [| | |n t p| | | | | | | | | | | | |]; simpl in Et; try discriminate Et;
      apply after_ignore.
    + apply bool_decide_eq_true_1 in Et. subst t. unfold after, do_expand_allocation, with_lock.
      destruct (locked s); [done|]. rewrite bind_find.
      by destruct (allocations_ _ !! n) as [aset|].
    + by apply allocate_backbone_unique.
    + by apply remote_unique.
  - pose proof (touches_serve r s) as Ht. unfold touches in Ht. unfold after.
    destruct (serve r s); [..|done]; by apply (unique_only (touched r) s).
Qed.
End backbone.

(** * The tunnel records of the tree

    [sync_tree_tunnel_addresses] makes the records of the tree's range equal to
    the tree's assignment, and touches nothing else. *)

(** A text in the range the tree assigns, with its prefix length. *)
Definition tree_text (x : string) : bool :=
  match parse_cidr x with Some (ip, _) => is_tree_tunnel_ip ip | None => false end.

(** An assignment the records can hold. *)
Definition tree_address (x : string) : bool :=
  match parse_cidr x with Some (ip, p) => (p =? 32) && is_tree_tunnel_ip ip | None => false end.

(** The record the second loop removes. *)
Definition drops (assigned : gmap string string) (n : string) (x : option string) : bool :=
  match x with
  | Some x => tree_text x && negb (bool_decide (assigned !! n = Some x))
  | None => false
  end.

Section sync.
Context `{TextCodec, ValueCodec, UnorderedMap} {St : Type} `{Storage St}.
Implicit Types (s : IPAM St).

Lemma net_core T s s' n :
  same_core s s' → net T (allocations_ s') n = net T (allocations_ s) n.
Proof. by intros (-> & _). Qed.

Lemma sync_assigned_run n c s :
  ∃ k s', sync_assigned (n, c) s = Returned k s' ∧ ∀ T x,
    net T (allocations_ s') x =
    if bool_decide (x = n ∧ T = Tunnel) && tree_address c then Some c
    else net T (allocations_ s) x.
Proof.
  unfold sync_assigned, tree_address. destruct (parse_cidr c) as [[ip p]|].
  2:{ eexists _, _. split; [reflexivity|]. intros T x. by rewrite andb_false_r. }
  rewrite <- negb_andb. destruct ((p =? 32) && is_tree_tunnel_ip ip).
  2:{ eexists _, _. split; [reflexivity|]. intros T x. by rewrite andb_false_r. }
  cbn [negb]. rewrite bind_find. set (aset := default empty_set (allocations_ s !! n)).
  unfold store_set. rewrite (bind_returned (modify _) _ s tt _ eq_refl).
  set (s1 := s <| allocations_ := <[ n := aset ]> (allocations_ s) |>).
  assert (N1 : ∀ T x, net T (allocations_ s1) x = net T (allocations_ s) x).
  { intros T x. unfold net. cbn. destruct (decide (x = n)) as [->|Hx].
    - rewrite lookup_insert_eq. subst aset. destruct (allocations_ s !! n); [done|]. by destruct T.
    - by rewrite lookup_insert_ne. }
  destruct (bool_decide (al_base_network <$> as_tunnel aset = Some c)) eqn:Eb.
  - apply bool_decide_eq_true_1 in Eb. eexists _, _. split; [reflexivity|]. intros T x.
    rewrite andb_true_r. destruct (bool_decide (x = n ∧ T = Tunnel)) eqn:Ex; [|done].
    apply bool_decide_eq_true_1 in Ex as [-> ->]. rewrite <- Eb. unfold net. cbn.
    by rewrite lookup_insert_eq.
  - destruct (now_run s1) as (t & s2 & E2 & C2). rewrite (bind_returned _ _ _ _ _ E2).
    set (a := mkAllocation Tunnel c n t 0 "" "").
    rewrite (bind_returned _ _ _ _ _ (assign_run n Tunnel (Some a) s2)).
    eexists _, _. split; [reflexivity|]. intros T x. rewrite net_with_slot, (net_core _ _ _ _ C2), N1.
    rewrite andb_true_r. destruct (decide (x = n ∧ T = Tunnel)) as [Hx|Hx];
      [by rewrite bool_decide_true|by rewrite bool_decide_false].
Qed.

Lemma sync_assigned_all items s :
  NoDup items.*1 →
  ∃ k s', sum_each items sync_assigned s = Returned k s' ∧
    (∀ n c, (n, c) ∈ items → tree_address c = true → net Tunnel (allocations_ s') n = Some c) ∧
    (∀ T n, (∀ c, (n, c) ∈ items → tree_address c = false) ∨ T ≠ Tunnel →
       net T (allocations_ s') n = net T (allocations_ s) n).
Proof.
  revert s. induction items as [|[m d] items IH]; intros s Hnd.
  { eexists _, _. split; [reflexivity|]. split; [|done]. by intros n c ?%not_elem_of_nil. }
  apply NoDup_cons in Hnd as [Hm Hnd]. simpl in Hm.
  destruct (sync_assigned_run m d s) as (k1 & s1 & E1 & N1).
  destruct (IH s1 Hnd) as (k2 & s2 & E2 & A2 & F2).
  exists (k1 +64 k2), s2. split.
  { cbn [sum_each]. rewrite (bind_returned _ _ _ _ _ E1), (bind_returned _ _ _ _ _ E2). done. }
  split.
  - intros n c [[= -> ->]|Hin]%elem_of_cons Hc; [|by apply A2].
    rewrite F2, N1, Hc; [by rewrite bool_decide_true|]. left. intros c' Hc'. exfalso. apply Hm.
    apply list_elem_of_fmap. by exists (m, c').
  - intros T n HT. rewrite F2, N1.
    + case_bool_decide as Hx; [|done]. destruct Hx as [-> ->].
      destruct HT as [HT|HT]; [|done]. by rewrite (HT d) by (by apply elem_of_cons; left).
    + destruct HT as [HT|HT]; [left|by right]. intros c Hc. apply HT. by apply elem_of_cons; right.
Qed.

Lemma sync_existing_run assigned n s :
  (∀ x, net Tunnel (allocations_ s) n = Some x → is_Some (parse_cidr x)) →
  ∃ k s', sync_existing assigned n s = Returned k s' ∧ ∀ T x,
    net T (allocations_ s') x =
    if bool_decide (x = n ∧ T = Tunnel) && drops assigned n (net Tunnel (allocations_ s) n)
    then None else net T (allocations_ s) x.
Proof.
  intros Hp. unfold sync_existing. rewrite bind_find.
  assert (Eo : net Tunnel (allocations_ s) n =
    match allocations_ s !! n with Some aset => al_base_network <$> as_tunnel aset | None => None end)
    by (unfold net; by destruct (allocations_ s !! n)).
  rewrite Eo in *. clear Eo. destruct (allocations_ s !! n) as [aset|] eqn:En.
  2:{ eexists _, _. split; [reflexivity|]. intros T x. by rewrite andb_false_r. }
  destruct (as_tunnel aset) as [t|] eqn:Et.
  - specialize (Hp (al_base_network t) eq_refl). cbn [fmap option_fmap option_map drops].
    unfold tree_text. destruct (parse_cidr (al_base_network t)) as [[ip p]|]; [|by destruct Hp].
    rewrite (bind_returned _ _ s (is_tree_tunnel_ip ip && negb (bool_decide (assigned !! n =
      Some (al_base_network t)))) s) by reflexivity.
    destruct (is_tree_tunnel_ip ip && _).
    + rewrite (bind_returned _ _ _ _ _ (reset_slot_run n Tunnel aset s)).
      eexists _, _. split; [reflexivity|]. intros T x. cbn [allocations_]. rewrite andb_true_r.
      pose proof (net_reset T Tunnel (allocations_ s) n aset x En) as E.
      etrans; [exact E|]. destruct (decide (x = n ∧ T = Tunnel)) as [Hx|Hx];
        [by rewrite bool_decide_true|by rewrite bool_decide_false].
    + replace (set_is_empty aset) with false by (unfold set_is_empty; by rewrite Et).
      eexists _, _. split; [reflexivity|]. intros T x. by rewrite andb_false_r.
  - rewrite (bind_returned _ _ s false s) by reflexivity. cbn [fmap option_fmap option_map drops].
    destruct (set_is_empty aset) eqn:Ee.
    + unfold erase. rewrite (bind_returned (modify _) _ s tt _ eq_refl).
      eexists _, _. split; [reflexivity|]. intros T x. rewrite andb_false_r. unfold net. cbn.
      destruct (decide (x = n)) as [->|Hx]; [|by rewrite lookup_delete_ne].
      rewrite lookup_delete_eq, En. simpl. by rewrite (set_is_empty_slot aset T Ee).
    + eexists _, _. split; [reflexivity|]. intros T x. by rewrite andb_false_r.
Qed.

Lemma sync_existing_all assigned keys s :
  (∀ n x, net Tunnel (allocations_ s) n = Some x → is_Some (parse_cidr x)) →
  ∃ k s', sum_each keys (sync_existing assigned) s = Returned k s' ∧ ∀ T x,
    net T (allocations_ s') x =
    if bool_decide (x ∈ keys ∧ T = Tunnel) && drops assigned x (net Tunnel (allocations_ s) x)
    then None else net T (allocations_ s) x.
Proof.
  revert s. induction keys as [|m keys IH]; intros s Hp.
  { eexists _, _. split; [reflexivity|]. intros T x.
    by rewrite bool_decide_false by (by intros [?%not_elem_of_nil _]). }
  destruct (sync_existing_run assigned m s) as (k1 & s1 & E1 & N1); [by apply Hp|].
  destruct (IH s1) as (k2 & s2 & E2 & N2).
  { intros n x. rewrite N1. destruct (_ && _); [done|by apply Hp]. }
  exists (k1 +64 k2), s2. split.
  { cbn [sum_each]. rewrite (bind_returned _ _ _ _ _ E1), (bind_returned _ _ _ _ _ E2). done. }
  intros T x. rewrite N2, !N1.
  destruct (decide (T = Tunnel)) as [->|HT].
  2:{ rewrite !(bool_decide_false (_ ∧ T = Tunnel)) by naive_solver. done. }
  destruct (decide (x = m)) as [->|Hx].
  - rewrite (bool_decide_true (m = m ∧ _)) by done.
    rewrite (bool_decide_true (m ∈ m :: keys ∧ _)) by (split; [apply elem_of_cons; by left|done]).
    cbn [andb]. destruct (drops assigned m _) eqn:Ed; simpl; [by destruct (bool_decide _)|].
    by rewrite Ed, andb_false_r.
  - rewrite (bool_decide_false (x = m ∧ _)) by naive_solver. cbn [andb].
    rewrite (bool_decide_ext (x ∈ m :: keys ∧ Tunnel = Tunnel) (x ∈ keys ∧ Tunnel = Tunnel)); [done|].
    rewrite elem_of_cons. naive_solver.
Qed.

(** The whole call. *)
Lemma sync_run assigned s :
  locked s = false →
  (∀ n x, net Tunnel (allocations_ s) n = Some x → is_Some (parse_cidr x)) →
  ∃ changed s', sync_tree_tunnel_addresses assigned s = Returned changed s' ∧
    (∀ n c, assigned !! n = Some c → tree_address c = true →
       net Tunnel (allocations_ s') n = Some c) ∧
    (∀ n x, net Tunnel (allocations_ s') n = Some x → tree_text x = true →
       assigned !! n = Some x) ∧
    (∀ n x, net Tunnel (allocations_ s) n = Some x → tree_text x = false →
       (∀ c, assigned !! n = Some c → tree_address c = false) →
       net Tunnel (allocations_ s') n = Some x) ∧
    (∀ T n, T ≠ Tunnel → net T (allocations_ s') n = net T (allocations_ s) n).
Proof.
  intros Hl Hp. unfold sync_tree_tunnel_addresses. rewrite lock_run by done.
  assert (Hin : ∀ n c, (n, c) ∈ ordered_entries assigned ↔ assigned !! n = Some c).
  { intros n c. unfold ordered_entries. by rewrite merge_sort_Permutation, elem_of_map_to_list. }
  assert (Hnd : NoDup (ordered_entries assigned).*1).
  { unfold ordered_entries. rewrite merge_sort_Permutation. apply NoDup_fst_map_to_list. }
  set (s0 := s <| locked := true |>).
  destruct (sync_assigned_all _ s0 Hnd) as (k1 & s1 & E1 & A1 & F1).
  rewrite (bind_returned _ _ _ _ _ E1). change ((get ≫= ?f) s1) with (f s1 s1). cbv beta.
  destruct (sync_existing_all assigned (entries (allocations_ s1)).*1 s1) as (k2 & s2 & E2 & N2).
  { intros n x E. destruct (assigned !! n) as [c|] eqn:Ec; [destruct (tree_address c) eqn:Et|].
    - rewrite (A1 n c) in E by (by rewrite ?Hin). injection E as <-. unfold tree_address in Et.
      by destruct (parse_cidr c).
    - rewrite F1 in E; [by apply Hp in E|]. left. intros c'. rewrite Hin, Ec. by intros [= <-].
    - rewrite F1 in E; [by apply Hp in E|]. left. intros c'. by rewrite Hin, Ec. }
  rewrite (bind_returned _ _ _ _ _ E2). cbv zeta.
  assert (Hmid : ∃ s3, ((if 0 <? k1 +64 k2 then save_allocations else mret tt) ≫=
      λ _, mret (k1 +64 k2)) s2 = Returned (k1 +64 k2) s3 ∧ allocations_ s3 = allocations_ s2).
  { destruct (0 <? k1 +64 k2).
    - destruct (save_run s2) as (s3 & E3 & C3). rewrite (bind_returned _ _ _ _ _ E3).
      eexists. split; [reflexivity|]. by destruct C3.
    - by exists s2. }
  destruct Hmid as (s3 & -> & E3). eexists _, _. split; [reflexivity|].
  change (allocations_ (s3 <| locked := false |>)) with (allocations_ s3). rewrite E3.
  assert (Hkey : ∀ n x, net Tunnel (allocations_ s1) n = Some x → n ∈ (entries (allocations_ s1)).*1).
  { intros n x E. unfold net in E. destruct (allocations_ s1 !! n) as [aset|] eqn:En; [|done].
    apply list_elem_of_fmap. exists (n, aset). by rewrite elem_of_entries. }
  split; [|split; [|split]].
  - intros n c Ec Hc. assert (E : net Tunnel (allocations_ s1) n = Some c) by (by apply A1; rewrite ?Hin).
    rewrite N2, E. unfold drops. rewrite (bool_decide_true (assigned !! n = Some c)) by done.
    by rewrite !andb_false_r.
  - intros n x E Hx. rewrite N2 in E.
    destruct (net Tunnel (allocations_ s1) n) as [y|] eqn:Ey; [|by destruct (_ && _)].
    rewrite bool_decide_true in E by (split; [by eapply Hkey|done]).
    cbn [andb drops] in E. destruct (tree_text y && _) eqn:Ed; [done|]. injection E as ->.
    rewrite Hx in Ed. cbn [andb] in Ed. apply negb_false_iff, bool_decide_eq_true_1 in Ed. done.
  - intros n x E Hx Hno. assert (E' : net Tunnel (allocations_ s1) n = Some x).
    { rewrite F1; [done|]. left. intros c. rewrite Hin. apply Hno. }
    rewrite N2, E'. unfold drops. rewrite Hx. cbn [andb]. by rewrite andb_false_r.
  - intros T n HT. rewrite N2, bool_decide_false by naive_solver. cbn [andb]. apply F1. by right.
Qed.
End sync.
