(* ===== verification/IpamPersistence.v ===== *)
(** * The address manager across a restart

    [save_allocations] writes the records through the storage interface and
    [load_allocations] reads them back: on storage with the interface's laws a
    restarted service holds the same records, and its rebuilt cursors are past
    every block, so it goes on handing out disjoint ones. *)

From S2P Require Import Prelude SecurityPolicy CanonicalEncoding ConsensusTypes Json.
From S2P Require Import FileStorage IpamAddress Ipam IpamInvariants IpamBackbone.

(** A record that fits its JSON text and names its place. *)
Record stored_record (n : string) (T : BlockType) (a : Allocation) : Prop := mkStoredRecord {
  sr_node : al_customer_node_id a = n;
  sr_type : al_block_type a = T;
  sr_text : Forall ascii_text [al_base_network a; al_customer_node_id a; al_signer_pubkey a;
                               al_signature a];
  sr_times : is_u64 (al_allocated_at a) ∧ is_u64 (al_last_seen a);
  sr_network : is_Some (parse_cidr (al_base_network a));
}.

Definition stored_set (n : string) (aset : AllocationSet) : Prop :=
  set_is_empty aset = false ∧ ∀ T a, slot T aset = Some a → stored_record n T a.

Section persistence.
Context `{TextCodec, ValueCodec, UnorderedMap} {St : Type} `{Storage St}.
Implicit Types (s : IPAM St) (m : gmap string AllocationSet).

(** ** Records as text *)

Lemma block_type_round_trip T : string_to_block_type (block_type_to_string T) = Some T.
Proof. by destruct T. Qed.

Lemma allocation_round_trip n T a :
  stored_record n T a → json_to_allocation (allocation_to_json a) = Some a.
Proof.
  intros [_ _ _ [Ht Hl] _]. unfold json_to_allocation, allocation_to_json, object, value_string,
    value_unsigned. rewrite !lookup_fields. cbn [assoc]. simpl. rewrite block_type_round_trip. simpl.
  rewrite !Z.mod_small by done. by destruct a.
Qed.

Lemma allocation_fits n T a : stored_record n T a → json_fits (allocation_to_json a).
Proof.
  intros [_ _ Htext [Ht Hl] _]. repeat rewrite Forall_cons in Htext.
  destruct Htext as (H1' & H2' & H3' & H4' & _).
  apply fits_object; intros k v; rewrite lookup_fields; cbn [assoc];
    repeat match goal with
    | |- context [String.eqb k ?t] =>
        destruct (String.eqb_spec k t) as [->|?]; [intros [= <-]|]
    end; try discriminate; try (by constructor); try (by repeat constructor).
  constructor. destruct (al_block_type a); by repeat constructor.
Qed.

Lemma set_to_json_fits n aset :
  stored_set n aset → ∀ j, j ∈ set_to_json aset → json_fits j.
Proof.
  intros [_ Hs] j. unfold set_to_json. rewrite !elem_of_app.
  assert (Hone : ∀ T, j ∈ match slot T aset with Some a => [allocation_to_json a] | None => [] end →
    json_fits j).
  { intros T. destruct (slot T aset) as [a|] eqn:Ea; [|by intros ?%not_elem_of_nil].
    intros ->%list_elem_of_singleton. by eapply allocation_fits, Hs. }
  intros [Hj|[Hj|[Hj|Hj]]]; by eapply Hone.
Qed.

(** ** Loading *)

Definition with_allocations m s : IPAM St := s <| allocations_ := m |>.

Lemma for_each_app {A} (l l' : list A) (body : A → Ipam St unit) s s' :
  for_each l body s = Returned tt s' → for_each (l ++ l') body s = for_each l' body s'.
Proof.
  revert s. induction l as [|x l IH]; intros s E; [by injection E as <-|].
  cbn [for_each app] in E |- *. unfold mbind, ipam_bind in *.
  destruct (body x s) as [[] t|t|]; try discriminate E. by apply IH.
Qed.

Lemma load_entry_run n T a s :
  stored_record n T a → load_entry (allocation_to_json a) s = Returned tt (with_slot n T (Some a) s).
Proof.
  intros Ha. unfold load_entry. rewrite (allocation_round_trip n T a Ha).
  rewrite (bind_returned (lift (Some a)) _ s a s eq_refl). destruct Ha as [-> -> _ _ _]. done.
Qed.

Lemma with_slot_again n T v x m s :
  with_slot n T v (with_allocations (<[ n := x ]> m) s) =
  with_allocations (<[ n := set_slot T v x ]> m) s.
Proof.
  unfold with_slot, with_allocations. cbn. rewrite lookup_insert_eq. cbn.
  by rewrite insert_insert_eq.
Qed.

(** One member of a set, onto what is already loaded of it. *)
Lemma load_member n T aset x m s rest :
  (∀ a, slot T aset = Some a → stored_record n T a) →
  for_each ((match slot T aset with Some a => [allocation_to_json a] | None => [] end) ++ rest)
    load_entry (with_allocations (<[ n := x ]> m) s) =
  for_each rest load_entry (with_allocations
    (<[ n := match slot T aset with Some a => set_slot T (Some a) x | None => x end ]> m) s).
Proof.
  intros Ha. destruct (slot T aset) as [a|]; [|done]. cbn [app for_each].
  rewrite (bind_returned _ _ _ _ _ (load_entry_run n T a _ (Ha a eq_refl))).
  by rewrite with_slot_again.
Qed.

Lemma load_first n T aset m s rest :
  m !! n = None → is_Some (slot T aset) → (∀ a, slot T aset = Some a → stored_record n T a) →
  for_each ((match slot T aset with Some a => [allocation_to_json a] | None => [] end) ++ rest)
    load_entry (with_allocations m s) =
  for_each rest load_entry (with_allocations (<[ n := set_slot T (slot T aset) empty_set ]> m) s).
Proof.
  intros Hm [a Ea] Ha. rewrite Ea in *. cbn [app for_each].
  rewrite (bind_returned _ _ _ _ _ (load_entry_run n T a _ (Ha a eq_refl))).
  unfold with_slot. cbn. by rewrite Hm.
Qed.

Ltac rebuilt aset :=
  destruct aset as [t p sh b]; cbn in *; destruct t, p, sh, b; simplify_eq; reflexivity.

Lemma load_set n aset m s rest :
  stored_set n aset → m !! n = None →
  for_each (set_to_json aset ++ rest) load_entry (with_allocations m s) =
  for_each rest load_entry (with_allocations (<[ n := aset ]> m) s).
Proof.
  intros [Hne Hs] Hm. unfold set_to_json. rewrite <- !app_assoc.
  destruct (as_tunnel aset) as [a1|] eqn:E1; [|destruct (as_private_subnet aset) as [a2|] eqn:E2;
    [|destruct (as_shared_block aset) as [a3|] eqn:E3;
      [|destruct (as_backbone aset) as [a4|] eqn:E4]]].
  - rewrite (load_first n Tunnel) by (auto; exact (mk_is_Some _ _ E1)).
    rewrite !load_member by auto. f_equal. f_equal. f_equal. rebuilt aset.
  - change (slot Tunnel aset) with (as_tunnel aset). rewrite E1. cbn [app].
    rewrite (load_first n Private) by (auto; exact (mk_is_Some _ _ E2)).
    rewrite !load_member by auto. f_equal. f_equal. f_equal. rebuilt aset.
  - change (slot Tunnel aset) with (as_tunnel aset). rewrite E1.
    change (slot Private aset) with (as_private_subnet aset). rewrite E2. cbn [app].
    rewrite (load_first n Shared) by (auto; exact (mk_is_Some _ _ E3)).
    rewrite !load_member by auto. f_equal. f_equal. f_equal. rebuilt aset.
  - change (slot Tunnel aset) with (as_tunnel aset). rewrite E1.
    change (slot Private aset) with (as_private_subnet aset). rewrite E2.
    change (slot Shared aset) with (as_shared_block aset). rewrite E3. cbn [app].
    rewrite (load_first n Backbone) by (auto; exact (mk_is_Some _ _ E4)).
    f_equal. f_equal. f_equal. rebuilt aset.
  - destruct aset. cbn in *. by subst.
Qed.

Lemma load_sets (l : list (string * AllocationSet)) m s :
  NoDup l.*1 → (∀ n, n ∈ l.*1 → m !! n = None) → Forall (λ e, stored_set e.1 e.2) l →
  for_each (concat ((λ e, set_to_json e.2) <$> l)) load_entry (with_allocations m s) =
  Returned tt (with_allocations (list_to_map l ∪ m) s).
Proof.
  revert m. induction l as [|[n aset] l IH]; intros m Hnd Hm Hs.
  { cbn. by rewrite map_empty_union. }
  apply NoDup_cons in Hnd as [Hn Hnd]. apply Forall_cons in Hs as [Hset Hs]. cbn [fmap list_fmap concat].
  rewrite (load_set n) by (auto; apply Hm, elem_of_cons; by left).
  rewrite IH; [| done | | done].
  - do 2 f_equal. cbn [list_to_map foldr]. cbn.
    assert (El : (list_to_map l : gmap string AllocationSet) !! n = None)
      by (by apply not_elem_of_list_to_map_1).
    by rewrite <- insert_union_l, insert_union_r.
  - intros k Hk. rewrite lookup_insert_ne; [apply Hm, elem_of_cons; by right|]. by intros ->.
Qed.

Lemma load_all m s :
  (∀ n aset, m !! n = Some aset → stored_set n aset) → allocations_ s = ∅ →
  for_each (concat ((λ e, set_to_json e.2) <$> entries m)) load_entry s =
  Returned tt (with_allocations m s).
Proof.
  intros Hm Hs. assert (Es : s = with_allocations ∅ s) by (destruct s; cbn in *; by subst).
  rewrite Es at 1. rewrite load_sets.
  - do 2 f_equal. rewrite map_union_empty.
    transitivity (list_to_map (map_to_list m) : gmap string AllocationSet);
      [|apply list_to_map_to_list].
    apply list_to_map_proper; [apply NoDup_entries|apply entries_perm].
  - apply NoDup_entries.
  - intros n _. apply lookup_empty.
  - apply Forall_forall. intros [n aset] Hin. apply Hm. by apply elem_of_entries.
Qed.

(** ** The cursors *)

(** The offset past a record, as the rebuild computes it. *)
Definition past (T : BlockType) (x : string) : Z :=
  match parse_cidr x with
  | Some (ip, prefix) => (ip - block_base T + u32_shl 1 (32 - prefix)) mod two32
  | None => 0
  end.

(** A rebuild step returns, keeps the records, and moves only its cursor. *)
Definition moves (T : BlockType) (m : Ipam St unit) s (v : Z) : Prop :=
  ∃ s', m s = Returned tt s' ∧ allocations_ s' = allocations_ s ∧
    locked s' = locked s ∧ (∀ T', T' ≠ T → cursor T' s' = cursor T' s) ∧ cursor T s' = v.

Lemma moves_here T s : moves T (mret tt) s (cursor T s).
Proof. by exists s. Qed.

Lemma moves_modify T (f : IPAM St → IPAM St) s v :
  allocations_ (f s) = allocations_ s → locked (f s) = locked s →
  (∀ T', T' ≠ T → cursor T' (f s) = cursor T' s) → cursor T (f s) = v →
  moves T (modify f) s v.
Proof. intros. by exists (f s). Qed.

Definition parsed_set (aset : AllocationSet) : Prop :=
  ∀ T a, slot T aset = Some a → is_Some (parse_cidr (al_base_network a)).

Lemma rebuild_block_moves T (rebuild : AllocationSet → Ipam St unit) aset s :
  (T = Private ∧ rebuild = rebuild_private) ∨ (T = Shared ∧ rebuild = rebuild_shared) →
  parsed_set aset →
  moves T (rebuild aset) s
    (match slot T aset with Some a => Z.max (cursor T s) (past T (al_base_network a))
     | None => cursor T s end).
Proof.
  intros HT Hp. destruct (slot T aset) as [a|] eqn:Ea.
  2:{ destruct HT as [[-> ->]|[-> ->]]; cbn in Ea; unfold rebuild_private, rebuild_shared;
        rewrite Ea; apply moves_here. }
  destruct (Hp T a Ea) as [[ip p] Eq]. unfold past. rewrite Eq.
  destruct HT as [[-> ->]|[-> ->]]; cbn in Ea; unfold rebuild_private, rebuild_shared;
    rewrite Ea, Eq; unfold moves; cbn [lift];
    rewrite (bind_returned (mret (ip, p)) _ s (ip, p) s eq_refl); apply moves_modify;
    cbn [cursor block_base];
    match goal with |- context [?c <? ?o] => destruct (Z.ltb_spec c o) end; try done;
    try (intros []; done); cbn; lia.
Qed.

Lemma rebuild_other_moves T (rebuild : AllocationSet → Ipam St unit) aset s :
  (T = Tunnel ∧ rebuild = rebuild_tunnel) ∨ (T = Backbone ∧ rebuild = rebuild_backbone) →
  parsed_set aset → ∃ v, moves T (rebuild aset) s v.
Proof.
  intros HT Hp. destruct (slot T aset) as [a|] eqn:Ea.
  2:{ exists (cursor T s). destruct HT as [[-> ->]|[-> ->]]; cbn in Ea;
        unfold rebuild_tunnel, rebuild_backbone; rewrite Ea; apply moves_here. }
  destruct (Hp T a Ea) as [[ip p] Eq].
  destruct HT as [[-> ->]|[-> ->]]; cbn in Ea; unfold rebuild_tunnel, rebuild_backbone;
    rewrite Ea, Eq; unfold moves; cbn [lift];
    rewrite (bind_returned (mret (ip, p)) _ s (ip, p) s eq_refl).
  - destruct (_ || _); [by exists (cursor Tunnel s), s|]. eexists. apply moves_modify; [..|reflexivity];
      try (intros []); by destruct (_ <? _).
  - eexists. apply moves_modify; [..|reflexivity]; try (intros []); by destruct (_ <? _).
Qed.

(** One set, then all of them: the cursor of a block type ends past every
    record of that type, and at one of them or where it was. *)
Definition covers (T : BlockType) (sets : list AllocationSet) s s' : Prop :=
  cursor T s <= cursor T s' ∧
  (∀ aset a, aset ∈ sets → slot T aset = Some a → past T (al_base_network a) <= cursor T s') ∧
  (cursor T s' = cursor T s ∨
   ∃ aset a, aset ∈ sets ∧ slot T aset = Some a ∧ cursor T s' = past T (al_base_network a)).

Lemma rebuild_cursors_run aset s :
  parsed_set aset →
  ∃ s', rebuild_cursors aset s = Returned tt s' ∧ allocations_ s' = allocations_ s ∧
    locked s' = locked s ∧ covers Private [aset] s s' ∧ covers Shared [aset] s s'.
Proof.
  intros Hp. unfold rebuild_cursors.
  destruct (rebuild_other_moves Tunnel _ aset s (or_introl (conj eq_refl eq_refl)) Hp)
    as (v1 & s1 & E1 & A1 & L1 & C1 & _). rewrite (bind_returned _ _ _ _ _ E1).
  destruct (rebuild_block_moves Private _ aset s1 (or_introl (conj eq_refl eq_refl)) Hp)
    as (s2 & E2 & A2 & L2 & C2 & V2). rewrite (bind_returned _ _ _ _ _ E2).
  destruct (rebuild_block_moves Shared _ aset s2 (or_intror (conj eq_refl eq_refl)) Hp)
    as (s3 & E3 & A3 & L3 & C3 & V3). rewrite (bind_returned _ _ _ _ _ E3).
  destruct (rebuild_other_moves Backbone _ aset s3 (or_intror (conj eq_refl eq_refl)) Hp)
    as (v4 & s4 & E4 & A4 & L4 & C4 & _).
  exists s4. split; [done|]. split; [by rewrite A4, A3, A2, A1|]. split; [by rewrite L4, L3, L2, L1|].
  assert (Hcov : ∀ T, cursor T s4 = match slot T aset with
      | Some a => Z.max (cursor T s) (past T (al_base_network a)) | None => cursor T s end →
    covers T [aset] s s4).
  { intros T E. split; [|split].
    - destruct (slot T aset); lia.
    - intros aset' a ->%list_elem_of_singleton Ea. rewrite Ea in E. lia.
    - destruct (slot T aset) as [a|] eqn:Ea; [|by left].
      destruct (Z.max_spec (cursor T s) (past T (al_base_network a))) as [[_ Em]|[_ Em]];
        [right|left; congruence].
      exists aset, a. split; [by apply list_elem_of_singleton|]. split; [done|congruence]. }
  split; apply Hcov.
  - rewrite C4, C3, V2, C1 by done. done.
  - rewrite C4, V3, C2, C1 by done. done.
Qed.

Lemma covers_trans T l l' s1 s2 s3 :
  covers T l s1 s2 → covers T l' s2 s3 → covers T (l ++ l') s1 s3.
Proof.
  intros (M1 & U1 & W1) (M2 & U2 & W2). split; [lia|]. split.
  - intros aset a [Hin|Hin]%elem_of_app Ea; [|by eapply U2]. specialize (U1 _ _ Hin Ea). lia.
  - destruct W2 as [W2|(aset & a & ? & ? & ?)].
    + destruct W1 as [W1|(aset & a & ? & ? & ?)]; [left; lia|right].
      exists aset, a. rewrite elem_of_app. split; [by left|]. split; [done|lia].
    + right. exists aset, a. rewrite elem_of_app. split; [by right|done].
Qed.

Lemma rebuild_all_run sets s :
  (∀ aset, aset ∈ sets → parsed_set aset) →
  ∃ s', for_each sets rebuild_cursors s = Returned tt s' ∧ allocations_ s' = allocations_ s ∧
    locked s' = locked s ∧ covers Private sets s s' ∧ covers Shared sets s s'.
Proof.
  revert s. induction sets as [|aset sets IH]; intros s Hp.
  { exists s. split; [done|]. split; [done|]. split; [done|].
    split; (split; [lia|]; split; [by intros ? ? ?%not_elem_of_nil|by left]). }
  destruct (rebuild_cursors_run aset s) as (s1 & E1 & A1 & L1 & P1 & Q1);
    [apply Hp, elem_of_cons; by left|].
  destruct (IH s1) as (s2 & E2 & A2 & L2 & P2 & Q2); [intros; apply Hp, elem_of_cons; by right|].
  exists s2. cbn [for_each]. rewrite (bind_returned _ _ _ _ _ E1). split; [done|].
  split; [congruence|]. split; [congruence|].
  split; [exact (covers_trans Private [aset] sets _ _ _ P1 P2)|
          exact (covers_trans Shared [aset] sets _ _ _ Q1 Q2)].
Qed.

(** ** Restart *)

(** The rebuilt cursor keeps the block invariant. *)
Lemma block_inv_rebuilt T s s' :
  T = Private ∨ T = Shared → block_inv T s → allocations_ s' = allocations_ s →
  (∀ t : IPAM St, allocations_ t = ∅ → cursor T t = 0 →
     covers T (entries (allocations_ s)).*2 t s' → block_inv T s').
Proof.
  intros HT [I1 I2 I3] Ea t _ Et (Hge & Hcov & Hat).
  assert (Hpast : ∀ n x ip p, net T (allocations_ s) n = Some x → range_of x ip p → 2 <= p <= 32 →
    block_base T <= ip → ip + 2 ^ (32 - p) <= block_base T + block_size T →
    past T x = ip - block_base T + 2 ^ (32 - p)).
  { intros n x ip p _ Hr Hp Hb Hle. unfold past. unfold range_of in Hr. rewrite Hr.
    rewrite stride_pow by lia. apply Z.mod_small. pose proof (block_size_bound T).
    assert (0 < 2 ^ (32 - p)) by (apply Z.pow_pos_nonneg; lia). unfold two32. lia. }
  assert (Hmem : ∀ n x, net T (allocations_ s) n = Some x → ∃ aset a,
    aset ∈ (entries (allocations_ s)).*2 ∧ slot T aset = Some a ∧ al_base_network a = x).
  { intros n x E. unfold net in E. destruct (allocations_ s !! n) as [aset|] eqn:En; [|done].
    simpl in E. destruct (slot T aset) as [a|] eqn:Es; [|done]. injection E as <-.
    exists aset, a. split; [|done]. apply list_elem_of_fmap. exists (n, aset).
    by rewrite elem_of_entries. }
  pose proof (block_size_bound T) as Hsz. split; rewrite ?Ea.
  - split; [lia|]. destruct Hat as [E|(aset & a & Hin & Es & E)]; [lia|].
    apply list_elem_of_fmap in Hin as ([n aset'] & -> & Hin%elem_of_entries).
    assert (En : net T (allocations_ s) n = Some (al_base_network a))
      by (unfold net; rewrite Hin; simpl; simpl in Es; by rewrite Es).
    destruct (I2 n _ En) as (ip & p & Hr & Hp & Hb & _ & Hle).
    rewrite E, (Hpast n _ ip p En Hr Hp Hb) by lia. lia.
  - intros n x En. destruct (I2 n x En) as (ip & p & Hr & Hp & Hb & Hm & Hle). exists ip, p.
    split; [done|]. split; [done|]. split; [done|]. split; [done|].
    destruct (Hmem n x En) as (aset & a & Hin & Es & <-).
    specialize (Hcov aset a Hin Es). rewrite (Hpast n _ ip p En Hr Hp Hb) in Hcov by lia. lia.
  - exact I3.
Qed.

Lemma restart_run `{!TextCodecLaws, !StorageLaws St "ipam" "allocations.json"} s clk :
  (∀ n aset, allocations_ s !! n = Some aset → stored_set n aset) →
  block_inv Private s → block_inv Shared s →
  Forall is_u64 (clock s) →
  (∀ envelope, (write_file "ipam" "allocations.json" envelope (storage_ s)).1 = true) →
  ∃ s' s'', save_allocations s = Returned tt s' ∧
    on_start (new_ipam (storage_ s') clk) = Returned tt s'' ∧
    allocations_ s'' = allocations_ s ∧ locked s'' = false ∧
    block_inv Private s'' ∧ block_inv Shared s''.
Proof.
  intros Hst Hip His Hclk Hwr. unfold save_allocations.
  change ((get ≫= ?f) s) with (f s s). cbv beta zeta.
  set (items := concat ((λ e, set_to_json e.2) <$> entries (allocations_ s))).
  assert (Hfits : json_fits (JArray items)).
  { constructor. intros j Hj. subst items.
    apply list_elem_of_In, in_concat in Hj as (l & Hl & Hj).
    apply list_elem_of_In, list_elem_of_fmap in Hl as ([n aset] & -> & Hin%elem_of_entries).
    apply list_elem_of_In in Hj. by eapply set_to_json_fits, Hj; apply Hst. }
  assert (Htime : ∃ t s1, now_unix s = Returned t s1 ∧ is_u64 t ∧ storage_ s1 = storage_ s).
  { unfold now_unix. destruct (clock s) as [|t rest]; eexists _, _; (split; [reflexivity|]);
      [by split|]. inversion Hclk; subst. by split. }
  destruct Htime as (t & s1 & E1 & Ht & Es1). rewrite (bind_returned _ _ _ _ _ E1).
  set (envelope := mkEnvelope 1 "ipam" (json_dump (JArray items)) "" "" t).
  eexists _. unfold on_start, load_allocations.
  destruct (write_file "ipam" "allocations.json" envelope (storage_ s1)) as [ok st'] eqn:Ew.
  assert (ok = true) as -> by (specialize (Hwr envelope); by rewrite <- Es1, Ew in Hwr).
  assert (Hread : read_file "ipam" "allocations.json" st' = Some envelope).
  { eapply write_then_read; [|exact Ew]. split; [by exists (JArray items)|].
    unfold is_u32, is_u64, two32, two64 in *. cbn. repeat split; try lia; by repeat constructor. }
  set (s0 := new_ipam st' clk).
  assert (El : for_each items load_entry s0 = Returned tt (with_allocations (allocations_ s) s0))
    by (by apply load_all).
  destruct (rebuild_all_run (entries (allocations_ s)).*2 (with_allocations (allocations_ s) s0))
    as (s2 & E2 & A2 & L2 & P2 & Q2).
  { intros aset Hin T a Ea. apply list_elem_of_fmap in Hin as ([n aset'] & -> & Hin%elem_of_entries).
    destruct (Hst n aset' Hin) as [_ Hrec]. by destruct (Hrec T a Ea). }
  exists s2. split; [reflexivity|]. split.
  { change ((get ≫= ?f) ?t) with (f t t). cbv beta.
    match goal with |- context [read_file _ _ (storage_ ?t)] => change (storage_ t) with
      (write_file "ipam" "allocations.json" envelope (storage_ s1)).2 end.
    rewrite Ew. cbn [snd]. rewrite Hread.
    change (env_data envelope) with (json_dump (JArray items)). rewrite (json_round_trip _ Hfits).
    rewrite (bind_returned _ _ _ _ _ El). exact E2. }
  split; [exact A2|]. split; [exact L2|].
  split.
  - apply (block_inv_rebuilt Private s s2) with (t := s0); auto.
  - apply (block_inv_rebuilt Shared s s2) with (t := s0); auto.
Qed.
End persistence.
