(* ===== verification/ConsensusRecords.v ===== *)
(** * The stored consensus records

    Models the serialization of [Consensus/HotStuffState.cpp] (certificates,
    proposals, commit proofs, the safety record) and of the commit and chain
    records of [Consensus/ConsensusStore.cpp]. Every record is closed (an
    unknown key is refused) and carries the digest of its payload. *)

From S2P Require Import Prelude SecurityPolicy CanonicalEncoding ConsensusTypes.
From S2P Require Import Json.

Section records.
Context `{TextCodec, Sodium}.

(** ** Certificates and proposals *)

Definition signer_to_json (signer : QcSigner) : json :=
  object [("node_id", b64 32 (s_node_id signer)); ("signature", b64 64 (s_signature signer))].

Definition qc_to_json (certificate : QuorumCertificate) : json :=
  object [("qc_format_version", JUnsigned (qc_format_version certificate));
          ("consensus_ruleset", JUnsigned (qc_consensus_ruleset certificate));
          ("network_id", b64 32 (qc_network_id certificate));
          ("epoch", JUnsigned (qc_epoch certificate));
          ("height", JUnsigned (qc_height certificate));
          ("view", JUnsigned (qc_view certificate));
          ("proposal_digest", b64 32 (qc_proposal_digest certificate));
          ("signers", JArray (signer_to_json <$> qc_signers certificate))].

Definition signer_from_json (entry : json) : option QcSigner :=
  match entry with
  | JObject fields =>
      if has_unknown_key fields ["node_id"; "signature"] then None
      else
        node_id ← read_b64 32 fields "node_id";
        signature ← read_b64 64 fields "signature";
        Some (mkQcSigner node_id signature)
  | _ => None
  end.

Definition qc_from_json (object : json) : option QuorumCertificate :=
  match object with
  | JObject fields =>
      if has_unknown_key fields ["qc_format_version"; "consensus_ruleset"; "network_id"; "epoch";
                                 "height"; "view"; "proposal_digest"; "signers"] then None
      else
        version ← read_u16 fields "qc_format_version";
        ruleset ← read_u16 fields "consensus_ruleset";
        network ← read_b64 32 fields "network_id";
        epoch ← read_u64 fields "epoch";
        height ← read_u64 fields "height";
        view ← read_u64 fields "view";
        proposal ← read_b64 32 fields "proposal_digest";
        match fields !! "signers" with
        | Some (JArray signers) =>
            if kMaxQcSignatures <? Z.of_nat (length signers) then None
            else
              entries ← mapM signer_from_json signers;
              Some (mkQC version ruleset network epoch height view proposal entries)
        | _ => None
        end
  | _ => None
  end.

Definition proposal_to_json (p : Proposal) : json :=
  object [("security_ruleset", JUnsigned (p_security_ruleset p));
          ("consensus_ruleset", JUnsigned (p_consensus_ruleset p));
          ("network_id", b64 32 (p_network_id p));
          ("epoch", JUnsigned (p_epoch p));
          ("height", JUnsigned (p_height p));
          ("view", JUnsigned (p_view p));
          ("leader", b64 32 (p_leader p));
          ("parent_digest", b64 32 (p_parent_digest p));
          ("justify_qc_digest", b64 32 (p_justify_qc_digest p));
          ("previous_state_root", b64 32 (p_previous_state_root p));
          ("proposed_state_root", b64 32 (p_proposed_state_root p));
          ("transitions_digest", b64 32 (p_transitions_digest p));
          ("timestamp_hint", JUnsigned (p_timestamp_hint p))].

Definition proposal_from_json (object : json) : option Proposal :=
  match object with
  | JObject fields =>
      if has_unknown_key fields ["security_ruleset"; "consensus_ruleset"; "network_id"; "epoch";
           "height"; "view"; "leader"; "parent_digest"; "justify_qc_digest";
           "previous_state_root"; "proposed_state_root"; "transitions_digest";
           "timestamp_hint"] then None
      else
        security ← read_u16 fields "security_ruleset";
        consensus ← read_u16 fields "consensus_ruleset";
        network ← read_b64 32 fields "network_id";
        epoch ← read_u64 fields "epoch";
        height ← read_u64 fields "height";
        view ← read_u64 fields "view";
        leader ← read_b64 32 fields "leader";
        parent ← read_b64 32 fields "parent_digest";
        justify ← read_b64 32 fields "justify_qc_digest";
        previous ← read_b64 32 fields "previous_state_root";
        proposed ← read_b64 32 fields "proposed_state_root";
        transitions ← read_b64 32 fields "transitions_digest";
        hint ← read_u64 fields "timestamp_hint";
        Some (mkProposal security consensus network epoch height view leader parent justify
                previous proposed transitions hint)
  | _ => None
  end.

(** A [{"proposal", "justify"}] entry of a chain. *)
Definition block_to_json (proposal : Proposal) (justify : QuorumCertificate) : json :=
  object [("proposal", proposal_to_json proposal); ("justify", qc_to_json justify)].

Definition block_from_json (entry : json) : option (Proposal * QuorumCertificate) :=
  match entry with
  | JObject fields =>
      if has_unknown_key fields ["proposal"; "justify"] then None
      else
        proposal_json ← fields !! "proposal";
        justify_json ← fields !! "justify";
        proposal ← proposal_from_json proposal_json;
        justify ← qc_from_json justify_json;
        Some (proposal, justify)
  | _ => None
  end.

(** ** Commit proofs *)

Definition commit_proof_to_json (proof : CommitProof) : json :=
  object [("chain", JArray ((λ b, block_to_json (cb_proposal b) (cb_justify b)) <$> cp_chain proof));
          ("certifying", qc_to_json (cp_certifying proof))].

Definition commit_proof_from_json (object : json) : option CommitProof :=
  match object with
  | JObject fields =>
      if has_unknown_key fields ["chain"; "certifying"] then None
      else match fields !! "chain", fields !! "certifying" with
           | Some (JArray chain), Some certifying =>
               if negb (Z.of_nat (length chain) =? 3) then None
               else
                 blocks ← mapM block_from_json chain;
                 certificate ← qc_from_json certifying;
                 Some (mkProof ((λ b, mkCommitted b.1 b.2) <$> blocks) certificate)
           | _, _ => None
           end
  | _ => None
  end.

(** ** The safety record *)

Definition state_record_digest (state : HotStuffState) : Digest :=
  consensus_state_record_digest (st_high_qc state) (st_locked_qc state)
    (st_consensus_ruleset state) (st_epoch state) (st_last_voted_view state).

Definition hotstuff_state_to_json (state : HotStuffState) : json :=
  object [("version", JUnsigned kConsensusStoreFormatVersion);
          ("epoch", JUnsigned (st_epoch state));
          ("consensus_ruleset", JUnsigned (st_consensus_ruleset state));
          ("last_voted_view", JUnsigned (st_last_voted_view state));
          ("high_qc", qc_to_json (st_high_qc state));
          ("locked_qc", qc_to_json (st_locked_qc state));
          ("record_digest", b64 32 (state_record_digest state))].

Definition hotstuff_state_from_json (document : json) : option HotStuffState :=
  match document with
  | JObject fields =>
      if has_unknown_key fields ["version"; "epoch"; "consensus_ruleset"; "last_voted_view";
                                 "high_qc"; "locked_qc"; "record_digest"] then None
      else
        version ← read_u32 fields "version";
        if negb (version =? kConsensusStoreFormatVersion) then None
        else
          epoch ← read_u64 fields "epoch";
          ruleset ← read_u16 fields "consensus_ruleset";
          voted ← read_u64 fields "last_voted_view";
          high ← fields !! "high_qc" ≫= qc_from_json;
          locked ← fields !! "locked_qc" ≫= qc_from_json;
          recorded ← read_b64 32 fields "record_digest";
          let state := mkState epoch ruleset voted high locked in
          if recorded =? state_record_digest state then Some state else None
  | _ => None
  end.

(** ** The commit and the chain record *)

Definition commit_to_json (commit : ConsensusCommit) : json :=
  object [("version", JUnsigned kConsensusStoreFormatVersion);
          ("epoch", JUnsigned (c_epoch commit));
          ("height", JUnsigned (c_height commit));
          ("view", JUnsigned (c_view commit));
          ("proposal_digest", b64 32 (c_proposal_digest commit));
          ("proposed_state_root", b64 32 (c_proposed_state_root commit));
          ("transitions_digest", b64 32 (c_transitions_digest commit));
          ("qc_digest", b64 32 (c_qc_digest commit));
          ("record_digest", b64 32 (consensus_commit_record_digest commit))].

Definition commit_from_json (document : json) : option ConsensusCommit :=
  match document with
  | JObject fields =>
      if has_unknown_key fields ["version"; "epoch"; "height"; "view"; "proposal_digest";
           "proposed_state_root"; "transitions_digest"; "qc_digest"; "record_digest"] then None
      else
        version ← read_u64 fields "version";
        if (4294967295 <? version) || negb (version =? kConsensusStoreFormatVersion) then None
        else
          epoch ← read_u64 fields "epoch";
          height ← read_u64 fields "height";
          view ← read_u64 fields "view";
          proposal ← read_b64 32 fields "proposal_digest";
          root ← read_b64 32 fields "proposed_state_root";
          transitions ← read_b64 32 fields "transitions_digest";
          qc ← read_b64 32 fields "qc_digest";
          let commit := mkCommit epoch height view proposal root transitions qc in
          recorded ← read_b64 32 fields "record_digest";
          if recorded =? consensus_commit_record_digest commit then Some commit else None
  | _ => None
  end.

Definition chain_to_json (epoch : EpochId) (chain : CertifiedChain) : json :=
  object [("version", JUnsigned kConsensusStoreFormatVersion);
          ("epoch", JUnsigned epoch);
          ("blocks", JArray ((λ b, block_to_json b.1 b.2) <$> ch_chain chain));
          ("certifying", qc_to_json (ch_certifying chain));
          ("record_digest", b64 32 (consensus_chain_record_digest epoch chain))].

Definition chain_from_json (document : json) (epoch : EpochId) : option CertifiedChain :=
  match document with
  | JObject fields =>
      if has_unknown_key fields ["version"; "epoch"; "blocks"; "certifying"; "record_digest"]
      then None
      else
        version ← read_u64 fields "version";
        if negb (version =? kConsensusStoreFormatVersion) then None
        else
          stored_epoch ← read_u64 fields "epoch";
          if negb (stored_epoch =? epoch) then None
          else match fields !! "blocks" with
               | Some (JArray blocks) =>
                   if bool_decide (blocks = []) ||
                      (kMaxSyncChainBlocks <? Z.of_nat (length blocks)) then None
                   else
                     entries ← mapM block_from_json blocks;
                     certifying ← fields !! "certifying" ≫= qc_from_json;
                     let chain := mkChain entries certifying in
                     recorded ← read_b64 32 fields "record_digest";
                     if recorded =? consensus_chain_record_digest epoch chain
                     then Some chain else None
               | _ => None
               end
  | _ => None
  end.
End records.

(** ** Round trips *)

Definition stored_qc (c : QuorumCertificate) : Prop :=
  wf_qc c ∧ Z.of_nat (length (qc_signers c)) <= kMaxQcSignatures.

Definition stored_state (st : HotStuffState) : Prop :=
  is_u64 (st_epoch st) ∧ is_u16 (st_consensus_ruleset st) ∧ is_u64 (st_last_voted_view st) ∧
  stored_qc (st_high_qc st) ∧ stored_qc (st_locked_qc st).

Definition stored_commit (c : ConsensusCommit) : Prop :=
  is_u64 (c_epoch c) ∧ is_u64 (c_height c) ∧ is_u64 (c_view c) ∧
  is_digest (c_proposal_digest c) ∧ is_digest (c_proposed_state_root c) ∧
  is_digest (c_transitions_digest c) ∧ is_digest (c_qc_digest c).

Definition stored_block (b : Proposal * QuorumCertificate) : Prop :=
  wf_proposal b.1 ∧ stored_qc b.2.

Definition stored_chain (chain : CertifiedChain) : Prop :=
  Forall stored_block (ch_chain chain) ∧ stored_qc (ch_certifying chain) ∧
  ch_chain chain ≠ [] ∧ Z.of_nat (length (ch_chain chain)) <= kMaxSyncChainBlocks.

Lemma mapM_fmap_round_trip {A B} (to : A → B) (from : B → option A) (P : A → Prop) l :
  (∀ x, P x → from (to x) = Some x) → Forall P l → mapM from (to <$> l) = Some l.
Proof.
  intros Hrt Hl. apply mapM_Some, Forall2_fmap_l, Forall_Forall2_diag.
  eapply Forall_impl; [exact Hl|]. exact Hrt.
Qed.

Section round_trips.
Context `{TextCodecLaws, SodiumLaws}.

Lemma fits_u64 z : is_u64 z → json_fits (JUnsigned z).
Proof. by constructor. Qed.
Lemma fits_u16 z : is_u16 z → json_fits (JUnsigned z).
Proof. intros. constructor. unfold is_u16, is_u64, two16, two64 in *. lia. Qed.
Lemma fits_map {A} (f : A → json) l : (∀ x, x ∈ l → json_fits (f x)) → json_fits (JArray (f <$> l)).
Proof.
  intros Hf. constructor. intros y (x & -> & Hx)%list_elem_of_fmap. auto.
Qed.

Ltac fits_field := first [apply fits_b64 | by apply fits_u64 | by apply fits_u16 | idtac].

Lemma signer_round_trip s : wf_signer s → signer_from_json (signer_to_json s) = Some s.
Proof.
  intros [Hn Hs]. unfold signer_from_json, signer_to_json, object.
  rewrite no_unknown_key by done. do 2 read_field. by destruct s.
Qed.

Lemma signer_fits s : json_fits (signer_to_json s).
Proof. unfold signer_to_json. fits_literal; fits_field. Qed.

Lemma qc_round_trip c : stored_qc c → qc_from_json (qc_to_json c) = Some c.
Proof.
  intros [Hwf Hlen]. unfold wf_qc in Hwf. destruct_and!.
  unfold qc_from_json, qc_to_json, object. rewrite no_unknown_key by done.
  do 7 read_field. rewrite lookup_fields. cbn [assoc String.eqb Ascii.eqb Bool.eqb].
  rewrite length_fmap, (proj2 (Z.ltb_ge _ _) Hlen).
  rewrite (mapM_fmap_round_trip signer_to_json _ wf_signer); [by destruct c| |done].
  apply signer_round_trip.
Qed.

Lemma qc_fits c : wf_qc c → json_fits (qc_to_json c).
Proof.
  unfold wf_qc. intros. destruct_and!. unfold qc_to_json.
  fits_literal; fits_field. apply fits_map. intros. apply signer_fits.
Qed.

Lemma proposal_round_trip p : wf_proposal p → proposal_from_json (proposal_to_json p) = Some p.
Proof.
  unfold wf_proposal. intros. destruct_and!.
  unfold proposal_from_json, proposal_to_json, object. rewrite no_unknown_key by done.
  do 13 read_field. by destruct p.
Qed.

Lemma proposal_fits p : wf_proposal p → json_fits (proposal_to_json p).
Proof.
  unfold wf_proposal. intros. destruct_and!. unfold proposal_to_json.
  fits_literal; fits_field.
Qed.

Lemma block_round_trip b : stored_block b → block_from_json (block_to_json b.1 b.2) = Some b.
Proof.
  intros [Hp Hj]. unfold block_from_json, block_to_json, object. rewrite no_unknown_key by done.
  rewrite !lookup_fields. cbn [assoc String.eqb Ascii.eqb Bool.eqb mbind option_bind].
  rewrite (proposal_round_trip _ Hp). cbn [mbind option_bind].
  rewrite (qc_round_trip _ Hj). by destruct b.
Qed.

Lemma block_fits b : stored_block b → json_fits (block_to_json b.1 b.2).
Proof.
  intros [Hp [Hj _]]. unfold block_to_json. fits_literal; [by apply proposal_fits|by apply qc_fits].
Qed.

Lemma digest_is_digest e : is_digest (digest e).
Proof. apply sha256_digest. Qed.

Lemma state_round_trip st :
  stored_state st → hotstuff_state_from_json (hotstuff_state_to_json st) = Some st.
Proof.
  intros (He & Hr & Hv & Hh & Hl).
  assert (Hd : is_digest (state_record_digest st)) by apply digest_is_digest.
  assert (Hver : is_u32 kConsensusStoreFormatVersion) by done.
  unfold hotstuff_state_from_json, hotstuff_state_to_json, object. rewrite no_unknown_key by done.
  do 4 read_field. rewrite !lookup_fields.
  cbn [assoc String.eqb Ascii.eqb Bool.eqb mbind option_bind].
  rewrite (qc_round_trip _ Hh), (qc_round_trip _ Hl). cbn [mbind option_bind]. read_field.
  destruct st as [e r v h l]. cbn [st_epoch st_consensus_ruleset st_last_voted_view st_high_qc
    st_locked_qc] in *. by rewrite !Z.eqb_refl.
Qed.

Lemma state_fits st : stored_state st → json_fits (hotstuff_state_to_json st).
Proof.
  intros (He & Hr & Hv & [Hh _] & [Hl _]). unfold hotstuff_state_to_json.
  fits_literal; fits_field; by apply qc_fits.
Qed.

Lemma commit_round_trip c : stored_commit c → commit_from_json (commit_to_json c) = Some c.
Proof.
  intros. unfold stored_commit in *. destruct_and!.
  assert (Hd : is_digest (consensus_commit_record_digest c)) by apply digest_is_digest.
  unfold commit_from_json, commit_to_json, object. rewrite no_unknown_key by done.
  read_field. simpl negb. cbn [orb Z.ltb Z.compare]. do 8 read_field.
  destruct c as [e h v p r t q]. cbn [c_epoch c_height c_view c_proposal_digest
    c_proposed_state_root c_transitions_digest c_qc_digest] in *. by rewrite !Z.eqb_refl.
Qed.

Lemma chain_round_trip e chain :
  is_u64 e → stored_chain chain → chain_from_json (chain_to_json e chain) e = Some chain.
Proof.
  intros He (Hb & Hc & Hne & Hlen).
  assert (Hd : is_digest (consensus_chain_record_digest e chain)) by apply digest_is_digest.
  unfold chain_from_json, chain_to_json, object. rewrite no_unknown_key by done.
  do 2 read_field. rewrite Z.eqb_refl. rewrite !lookup_fields.
  cbn [assoc String.eqb Ascii.eqb Bool.eqb mbind option_bind negb].
  rewrite bool_decide_eq_false_2 by (by intros ?%fmap_nil_inv).
  rewrite length_fmap, (proj2 (Z.ltb_ge _ _) Hlen). cbn [orb].
  rewrite (mapM_fmap_round_trip (λ b, block_to_json b.1 b.2) _ stored_block);
    [|apply block_round_trip|done]. cbn [mbind option_bind].
  rewrite (qc_round_trip _ Hc). cbn [mbind option_bind]. read_field.
  destruct chain. by rewrite !Z.eqb_refl.
Qed.

Lemma commit_proof_round_trip proof :
  length (cp_chain proof) = 3%nat →
  Forall (λ b, wf_proposal (cb_proposal b) ∧ stored_qc (cb_justify b)) (cp_chain proof) →
  stored_qc (cp_certifying proof) →
  commit_proof_from_json (commit_proof_to_json proof) = Some proof.
Proof.
  intros Hlen Hb Hc. unfold commit_proof_from_json, commit_proof_to_json, object.
  rewrite no_unknown_key by done. rewrite !lookup_fields.
  cbn [assoc String.eqb Ascii.eqb Bool.eqb mbind option_bind negb].
  rewrite length_fmap, Hlen. cbn [Z.of_nat Pos.of_succ_nat Pos.succ Z.eqb Pos.eqb negb].
  destruct proof as [chain certifying]. cbn [cp_chain cp_certifying] in *.
  assert (Hmap : (λ b, block_to_json (cb_proposal b) (cb_justify b)) <$> chain =
    (λ b : Proposal * QuorumCertificate, block_to_json b.1 b.2) <$>
      ((λ b, (cb_proposal b, cb_justify b)) <$> chain)) by (by rewrite <-list_fmap_compose).
  rewrite Hmap, (mapM_fmap_round_trip (λ b, block_to_json b.1 b.2) _ stored_block);
    [|apply block_round_trip|].
  - cbn [mbind option_bind]. rewrite (qc_round_trip _ Hc). cbn [mbind option_bind].
    rewrite <-list_fmap_compose. do 2 f_equal. rewrite <-(list_fmap_id chain) at 2.
    apply list_fmap_ext. by intros i [] _.
  - apply Forall_fmap. eapply Forall_impl; [exact Hb|]. by intros b [].
Qed.
End round_trips.
