(* ===== verification/HotStuff.v ===== *)
(** * The chained HotStuff replica

    Models [Consensus/HotStuffService.{hpp,cpp}] in full: the replica's state
    is the record [HotStuffService], each method is a definition with the same
    name that returns the new state and the method's result. A rejected
    message is a value of [ConsensusFailure], as in the source; an exception
    (a vote key without secret key material) is [None] in place of a result.

    The chain walks ([extends_locked], the commit walk) follow parent digests
    through [blocks_] until they leave it; here they carry fuel, one more than
    the number of blocks, and ChainWalks ([walk_returns],
    [commit_walk_returns]) shows that it is enough when the parent links have
    no cycle. *)

From S2P Require Import Prelude SecurityPolicy CanonicalEncoding ConsensusTypes.
From S2P Require Import QuorumValidation.

(** ** Data *)

Record HotStuffConfig := mkConfig {
  security_ruleset : Z;
  consensus_ruleset : Z;
  network_id : NetworkId;
  epoch : EpochId;
  genesis_digest : Digest;
  leader_order : list NodeId;
  vote_keys : gmap Z Ed25519PublicKey;
  quorum : Z;
  self : NodeId;
  transition_validator : option (Digest → bool);
  payload_validator : option (Proposal → BlockPayload → bool);
}.

Record ProposalResult := mkResult {
  r_vote : option Vote;
  r_rejected : option ConsensusFailure;
  r_commits : list ConsensusCommit;
  r_safe_node_refused : bool;
  r_transition_refused : bool;
}.

Record OrphanProposal := mkOrphan {
  o_proposal : Proposal;
  o_justify : QuorumCertificate;
  o_payload : option BlockPayload;
}.

Record EquivocationRecord := mkEquivocation {
  e_node : NodeId;
  e_view : View;
  e_first : Digest;
  e_second : Digest;
  e_is_vote : bool;
}.

Record BlockRecord := mkBlock {
  b_proposal : Proposal;
  b_justify : QuorumCertificate;
  b_digest : Digest;
  b_payload : option BlockPayload;
}.

Record HotStuffService (St : Type) := mkService {
  store_ : St;
  failed_ : bool;
  synced_ : bool;
  current_view_ : View;
  last_voted_view_ : View;
  high_qc_ : QuorumCertificate;
  locked_qc_ : QuorumCertificate;
  last_committed_height_ : Height;
  blocks_ : gmap Z BlockRecord;
  qc_by_block_ : gmap Z QuorumCertificate;
  accepted_by_view_ : gmap Z Digest;
  committed_digests_ : gset Z;
  committed_by_height_ : gmap Z Digest;
  votes_by_view_ : gmap Z (gmap Z Vote);
  formed_qcs_ : gset (Z * Z * Z);
  timeouts_by_view_ : gmap Z (gmap Z TimeoutVote);
  formed_tcs_ : gset Z;
  orphan_ : option OrphanProposal;
  anchor_adopted_ : bool;
  restored_ : bool;
  stored_chain_qc_ : option Digest;
  evidence_ : list EquivocationRecord;
}.
Arguments mkService {St}.
Arguments store_ {St}. Arguments failed_ {St}. Arguments synced_ {St}.
Arguments current_view_ {St}. Arguments last_voted_view_ {St}. Arguments high_qc_ {St}.
Arguments locked_qc_ {St}. Arguments last_committed_height_ {St}. Arguments blocks_ {St}.
Arguments qc_by_block_ {St}. Arguments accepted_by_view_ {St}. Arguments committed_digests_ {St}.
Arguments committed_by_height_ {St}. Arguments votes_by_view_ {St}. Arguments formed_qcs_ {St}.
Arguments timeouts_by_view_ {St}. Arguments formed_tcs_ {St}. Arguments orphan_ {St}.
Arguments anchor_adopted_ {St}. Arguments restored_ {St}. Arguments stored_chain_qc_ {St}.
Arguments evidence_ {St}.

#[export] Instance eta_service {St} : Etable (HotStuffService St) := λ s,
  mkService (store_ s) (failed_ s) (synced_ s) (current_view_ s) (last_voted_view_ s)
    (high_qc_ s) (locked_qc_ s) (last_committed_height_ s) (blocks_ s) (qc_by_block_ s)
    (accepted_by_view_ s) (committed_digests_ s) (committed_by_height_ s) (votes_by_view_ s)
    (formed_qcs_ s) (timeouts_by_view_ s) (formed_tcs_ s) (orphan_ s) (anchor_adopted_ s)
    (restored_ s) (stored_chain_qc_ s) (evidence_ s).

(** ** Pure parts of the configuration *)

Definition leader_of (cfg : HotStuffConfig) (view : View) : NodeId :=
  nth (Z.to_nat (view mod Z.of_nat (length (leader_order cfg)))) (leader_order cfg) 0.

Definition members (cfg : HotStuffConfig) : list NodeId := (in_order (vote_keys cfg)).*1.

Definition genesis_qc (cfg : HotStuffConfig) : QuorumCertificate :=
  mkQC kQcFormatVersion (consensus_ruleset cfg) (network_id cfg) (epoch cfg) 0 0
    (genesis_digest cfg) [].

Definition is_genesis_justify (cfg : HotStuffConfig) (justify : QuorumCertificate) : bool :=
  match qc_signers justify with [] => true | _ => false end &&
  (qc_view justify =? 0) && (qc_height justify =? 0) &&
  (qc_proposal_digest justify =? genesis_digest cfg) &&
  (qc_format_version justify =? kQcFormatVersion) &&
  (qc_consensus_ruleset justify =? consensus_ruleset cfg) &&
  (qc_network_id justify =? network_id cfg) && (qc_epoch justify =? epoch cfg).

Definition qc_context (cfg : HotStuffConfig) : QcValidationContext :=
  mkContext (consensus_ruleset cfg) (network_id cfg) (epoch cfg) (quorum cfg).

Definition header_failure (cfg : HotStuffConfig) (proposal : Proposal)
    : option ConsensusFailure :=
  if negb (p_security_ruleset proposal =? security_ruleset cfg) ||
     negb (p_consensus_ruleset proposal =? consensus_ruleset cfg)
  then Some RulesetMismatch
  else if negb (p_network_id proposal =? network_id cfg) then Some NetworkMismatch
  else if negb (p_epoch proposal =? epoch cfg) then Some EpochMismatch
  else None.

(** The [while] loop of [extends_locked]: [None] when the fuel runs out. *)
Fixpoint walk_to_locked (fuel : nat) (blocks : gmap Z BlockRecord) (genesis locked parent : Digest)
    : option bool :=
  match fuel with
  | O => None
  | S fuel' =>
      if parent =? locked then Some true
      else if parent =? genesis then Some false
      else match blocks !! parent with
           | None => Some false
           | Some record =>
               walk_to_locked fuel' blocks genesis locked (p_parent_digest (b_proposal record))
           end
  end.

(** The commit walk of [apply_chain_rules], newest block first. *)
Fixpoint commit_walk (fuel : nat) (blocks : gmap Z BlockRecord) (genesis : Digest)
    (last_committed : Height) (current : BlockRecord) : option (list BlockRecord) :=
  match fuel with
  | O => None
  | S fuel' =>
      let parent := p_parent_digest (b_proposal current) in
      if parent =? genesis then Some [current]
      else match blocks !! parent with
           | None => Some [current]
           | Some record =>
               if p_height (b_proposal record) <=? last_committed then Some [current]
               else chain ← commit_walk fuel' blocks genesis last_committed record;
                    Some (current :: chain)
           end
  end.

Section service.
Context {St : Type} `{Sodium, IConsensusStore St}.
Implicit Types (s : HotStuffService St) (cfg : HotStuffConfig).

Definition justify_acceptable (cfg : HotStuffConfig) (justify : QuorumCertificate) : bool :=
  is_genesis_justify cfg justify ||
  match validate_quorum_certificate justify (qc_context cfg) (vote_keys cfg) with
  | Some _ => false | None => true end.

Definition advance_high_qc (s : HotStuffService St) (certificate : QuorumCertificate)
    : HotStuffService St :=
  if qc_view (high_qc_ s) <? qc_view certificate then s <| high_qc_ := certificate |> else s.

Definition view_window_failure (s : HotStuffService St) (view : View) : option ConsensusFailure :=
  let window := kMaxFutureViewDistance in
  if view +64 window <? current_view_ s then Some StaleView
  else if current_view_ s +64 window <? view then Some ViewTooFar
  else None.

Definition pending_count (s : HotStuffService St) : Z :=
  Z.of_nat (length (filter (λ kv, last_committed_height_ s < p_height (b_proposal kv.2))
                      (map_to_list (blocks_ s)))).

Definition extends_locked (cfg : HotStuffConfig) (s : HotStuffService St) (proposal : Proposal)
    : bool :=
  let locked := qc_proposal_digest (locked_qc_ s) in
  if locked =? genesis_digest cfg then true
  else default false (walk_to_locked (S (size (blocks_ s))) (blocks_ s)
                        (genesis_digest cfg) locked (p_parent_digest proposal)).

Definition block (s : HotStuffService St) (d : Digest) : option Proposal :=
  b_proposal <$> blocks_ s !! d.

Definition block_payload (s : HotStuffService St) (d : Digest) : option BlockPayload :=
  blocks_ s !! d ≫= b_payload.

(** [prune_committed]: one pass over [blocks_] in key order. *)
Definition prune_step (s : HotStuffService St) (entry : Z * BlockRecord) : HotStuffService St :=
  let '(d, record) := entry in
  if (p_height (b_proposal record) <=? last_committed_height_ s) &&
     negb (bool_decide (d ∈ committed_digests_ s))
  then
    let s := s <| accepted_by_view_ := delete (p_view (b_proposal record)) (accepted_by_view_ s) |> in
    let s := s <| qc_by_block_ := delete d (qc_by_block_ s) |> in
    s <| blocks_ := delete d (blocks_ s) |>
  else s.

Definition prune_committed (s : HotStuffService St) : HotStuffService St :=
  foldl prune_step s (in_order (blocks_ s)).

(** The commit loop: records the blocks, oldest first; false when a block has
    no certificate, which ends the method. *)
Fixpoint commit_records (cfg : HotStuffConfig) (s : HotStuffService St)
    (commits : list ConsensusCommit) (chain : list BlockRecord)
    : HotStuffService St * list ConsensusCommit * bool :=
  match chain with
  | [] => (s, commits, true)
  | record :: rest =>
      match qc_by_block_ s !! b_digest record with
      | None => (s, commits, false)
      | Some certifying =>
          let p := b_proposal record in
          let commit := mkCommit (epoch cfg) (p_height p) (p_view p) (b_digest record)
            (p_proposed_state_root p) (p_transitions_digest p) (qc_digest certifying) in
          let s := s <| committed_digests_ := {[ b_digest record ]} ∪ committed_digests_ s |> in
          let s := s <| committed_by_height_ :=
                       <[ p_height p := b_digest record ]> (committed_by_height_ s) |> in
          let s := s <| last_committed_height_ := p_height p |> in
          commit_records cfg s (commits ++ [commit]) rest
      end
  end.

Definition apply_chain_rules (cfg : HotStuffConfig) (s : HotStuffService St)
    (justify : QuorumCertificate) (commits : list ConsensusCommit)
    : HotStuffService St * list ConsensusCommit :=
  match blocks_ s !! qc_proposal_digest justify with
  | None => (s, commits)
  | Some b2 =>
      let qc1 := b_justify b2 in
      let s := if qc_view (locked_qc_ s) <? qc_view qc1 then s <| locked_qc_ := qc1 |> else s in
      match blocks_ s !! qc_proposal_digest qc1 with
      | None => (s, commits)
      | Some b1 =>
          let qc0 := b_justify b1 in
          match blocks_ s !! qc_proposal_digest qc0 with
          | None => (s, commits)
          | Some b0 =>
              if p_height (b_proposal b0) <=? last_committed_height_ s then (s, commits)
              else
                let chain := default [] (commit_walk (S (size (blocks_ s))) (blocks_ s)
                               (genesis_digest cfg) (last_committed_height_ s) b0) in
                let '(s, commits, completed) := commit_records cfg s commits (reverse chain) in
                if completed then
                  let s := match last commits with
                           | Some c => s <| store_ := (store_commit c (store_ s)).2 |>
                           | None => s
                           end in
                  (prune_committed s, commits)
                else (s, commits)
          end
      end
  end.

(** ** The chain record *)

(** The [while] loop of [uncommitted_chain], newest first; the source stops at
    [kMaxSyncChainBlocks] entries, which is the fuel. *)
Fixpoint uncommitted_walk (fuel : nat) (cfg : HotStuffConfig) (s : HotStuffService St)
    (cursor : Digest) : list (Proposal * QuorumCertificate) :=
  match fuel with
  | O => []
  | S fuel' =>
      if cursor =? genesis_digest cfg then []
      else match blocks_ s !! cursor with
           | None => []
           | Some b =>
               if p_height (b_proposal b) <=? last_committed_height_ s then []
               else (b_proposal b, b_justify b) ::
                    uncommitted_walk fuel' cfg s (p_parent_digest (b_proposal b))
           end
  end.

Definition uncommitted_chain (cfg : HotStuffConfig) (s : HotStuffService St)
    : list (Proposal * QuorumCertificate) :=
  reverse (uncommitted_walk (Z.to_nat kMaxSyncChainBlocks) cfg s
             (qc_proposal_digest (high_qc_ s))).

Definition store_certified_chain (cfg : HotStuffConfig) (s : HotStuffService St)
    : bool * HotStuffService St :=
  let certificate := qc_digest (high_qc_ s) in
  if bool_decide (stored_chain_qc_ s = Some certificate) then (true, s)
  else
    let record := mkChain (uncommitted_chain cfg s) (high_qc_ s) in
    match last (ch_chain record) with
    | None => (true, s)
    | Some (tip, _) =>
        if negb (proposal_digest tip =? qc_proposal_digest (high_qc_ s)) then (true, s)
        else
          let '(ok, store') := store_chain (epoch cfg) record (store_ s) in
          let s := s <| store_ := store' |> in
          if ok then (true, s <| stored_chain_qc_ := Some certificate |>) else (false, s)
    end.

(** ** Proposals *)

Definition rejected_with (s : HotStuffService St) (result : ProposalResult) (f : ConsensusFailure)
    : HotStuffService St * option ProposalResult :=
  (s, Some (mkResult (r_vote result) (Some f) (r_commits result)
              (r_safe_node_refused result) (r_transition_refused result))).

Definition empty_result : ProposalResult := mkResult None None [] false false.

(** Step 12: the vote-once and safe-node rule, the two durable writes, the
    vote. *)
Definition cast_vote (cfg : HotStuffConfig) (own_key_ : EpochVoteKey) (s : HotStuffService St)
    (proposal : Proposal) (justify : QuorumCertificate) (d : Digest) (result : ProposalResult)
    : HotStuffService St * option ProposalResult :=
  if r_transition_refused result then (s, Some result)
  else if negb ((last_voted_view_ s <? p_view proposal) &&
                (extends_locked cfg s proposal ||
                 (qc_view (locked_qc_ s) <? qc_view justify)))
  then (s, Some (mkResult (r_vote result) (r_rejected result) (r_commits result) true
                   (r_transition_refused result)))
  else
    let '(stored, s) := store_certified_chain cfg s in
    if negb stored then rejected_with s result StorageRejected
    else
      let pending := mkState (epoch cfg) (consensus_ruleset cfg) (p_view proposal)
                       (high_qc_ s) (locked_qc_ s) in
      let '(ok, store') := store_before_vote pending (store_ s) in
      let s := s <| store_ := store' |> in
      if negb ok then rejected_with s result StorageRejected
      else
        let s := s <| last_voted_view_ := p_view proposal |> in
        match sign_digest own_key_
                (vote_signing_digest (consensus_ruleset cfg) (network_id cfg) (epoch cfg)
                   (p_height proposal) (p_view proposal) d (self cfg)) with
        | None => (s, None)
        | Some signature =>
            let vote := mkVote (consensus_ruleset cfg) (network_id cfg) (epoch cfg)
              (p_height proposal) (p_view proposal) d (self cfg) signature in
            (s, Some (mkResult (Some vote) (r_rejected result) (r_commits result)
                        (r_safe_node_refused result) (r_transition_refused result)))
        end.

(** Steps 9b to 11: judge the payload, take the block into chain state, apply
    the lock and commit rules. *)
Definition payload_judgement (cfg : HotStuffConfig) (proposal : Proposal)
    (payload : option BlockPayload) : option BlockPayload * bool :=
  match payload with
  | None => (None, false)
  | Some body =>
      if negb (block_payload_digest body =? p_transitions_digest proposal) then (None, true)
      else (Some body,
            match payload_validator cfg with
            | None => true
            | Some validator => negb (validator proposal body)
            end)
  end.

Definition accept_block (s : HotStuffService St) (proposal : Proposal)
    (justify : QuorumCertificate) (d : Digest) (matched_payload : option BlockPayload)
    : HotStuffService St :=
  let matched_payload :=
    match matched_payload, blocks_ s !! d with
    | None, Some known => b_payload known
    | _, _ => matched_payload
    end in
  let s := s <| blocks_ := <[ d := mkBlock proposal justify d matched_payload ]> (blocks_ s) |> in
  let s := s <| qc_by_block_ := <[ qc_proposal_digest justify := justify ]> (qc_by_block_ s) |> in
  let s := s <| accepted_by_view_ := <[ p_view proposal := d ]> (accepted_by_view_ s) |> in
  advance_high_qc s justify.

(** Step 9: what the parent says about the height. *)
Inductive ParentVerdict := ParentLinks | ParentMismatch | ParentUnknown.

Definition parent_verdict (cfg : HotStuffConfig) (s : HotStuffService St) (proposal : Proposal)
    : ParentVerdict :=
  if p_parent_digest proposal =? genesis_digest cfg then
    if p_height proposal =? 1 then ParentLinks else ParentMismatch
  else match blocks_ s !! p_parent_digest proposal with
       | Some parent =>
           if p_height proposal =? p_height (b_proposal parent) +64 1
           then ParentLinks else ParentMismatch
       | None => ParentUnknown
       end.

Definition hold_orphan (s : HotStuffService St) (proposal : Proposal)
    (justify : QuorumCertificate) (payload : option BlockPayload) : HotStuffService St :=
  let s := advance_high_qc s justify in
  let replace := match orphan_ s with
                 | None => true
                 | Some o => p_view (o_proposal o) <=? p_view proposal
                 end in
  if replace then s <| orphan_ := Some (mkOrphan proposal justify payload) |> else s.

(** Steps 9 to 12 of [receive_proposal], after the header, the justify, the
    view, the leader and the equivocation checks. *)
Definition receive_proposal_linked (cfg : HotStuffConfig) (own_key_ : EpochVoteKey)
    (s : HotStuffService St) (proposal : Proposal) (justify : QuorumCertificate)
    (payload : option BlockPayload) (d : Digest) (result : ProposalResult)
    : HotStuffService St * option ProposalResult :=
  match parent_verdict cfg s proposal with
  | ParentMismatch => rejected_with s result ParentQcMismatch
  | ParentUnknown =>
      rejected_with (hold_orphan s proposal justify payload) result MissingParent
  | ParentLinks =>
      if negb (bool_decide (is_Some (blocks_ s !! d))) &&
         (kMaxPendingProposals <=? pending_count s)
      then rejected_with s result PendingLimit
      else
        let '(matched_payload, refused) := payload_judgement cfg proposal payload in
        let result := mkResult (r_vote result) (r_rejected result) (r_commits result)
          (r_safe_node_refused result) (r_transition_refused result || refused) in
        let s := accept_block s proposal justify d matched_payload in
        let '(s, commits) := apply_chain_rules cfg s justify (r_commits result) in
        let result := mkResult (r_vote result) (r_rejected result) commits
          (r_safe_node_refused result) (r_transition_refused result) in
        cast_vote cfg own_key_ s proposal justify d result
  end.

Definition receive_proposal (cfg : HotStuffConfig) (own_key_ : EpochVoteKey)
    (s : HotStuffService St) (proposal : Proposal) (justify : QuorumCertificate)
    (payload : option BlockPayload) : HotStuffService St * option ProposalResult :=
  let result := empty_result in
  if failed_ s || negb (synced_ s) then rejected_with s result NotSynced
  else match header_failure cfg proposal with
  | Some f => rejected_with s result f
  | None =>
  if negb (qc_digest justify =? p_justify_qc_digest proposal)
  then rejected_with s result JustifyInvalid
  else if negb (p_parent_digest proposal =? qc_proposal_digest justify)
  then rejected_with s result ParentQcMismatch
  else if negb (justify_acceptable cfg justify) then rejected_with s result JustifyInvalid
  else
    let s := s <| current_view_ := std_max (current_view_ s) (qc_view justify +64 1) |> in
    if p_view proposal <? current_view_ s then rejected_with s result StaleView
    else if current_view_ s +64 kMaxFutureViewDistance <? p_view proposal
    then rejected_with s result ViewTooFar
    else if negb (p_leader proposal =? leader_of cfg (p_view proposal))
    then rejected_with s result WrongLeader
    else
      let refused :=
        negb (p_transitions_digest proposal =? 0) &&
        match payload with
        | Some _ => false
        | None => match transition_validator cfg with
                  | None => true
                  | Some validator => negb (validator (p_transitions_digest proposal))
                  end
        end in
      let result := mkResult None None [] false refused in
      let d := proposal_digest proposal in
      match accepted_by_view_ s !! p_view proposal with
      | Some seen =>
          if negb (seen =? d) then
            let s := s <| evidence_ := evidence_ s ++
              [mkEquivocation (p_leader proposal) (p_view proposal) seen d false] |> in
            rejected_with s result Equivocation
          else receive_proposal_linked cfg own_key_ s proposal justify payload d result
      | None => receive_proposal_linked cfg own_key_ s proposal justify payload d result
      end
  end.

(** ** Votes *)

Inductive VoteOutcome (C : Type) :=
  | Counted | Formed (certificate : C) | VoteFailed (f : ConsensusFailure).
Arguments Counted {C}. Arguments Formed {C}. Arguments VoteFailed {C}.

(** The ledger entries that agree with [vote], in node order. *)
Definition matching_votes (ledger : gmap Z Vote) (vote : Vote) : list Vote :=
  filter (λ entry, v_proposal_digest entry = v_proposal_digest vote ∧
                   v_height entry = v_height vote) (in_order ledger).*2.

Definition form_qc (vote : Vote) (matching : list Vote) : QuorumCertificate :=
  mkQC kQcFormatVersion (v_consensus_ruleset vote) (v_network_id vote) (v_epoch vote)
    (v_height vote) (v_view vote) (v_proposal_digest vote)
    ((λ entry, mkQcSigner (v_voter entry) (v_signature entry)) <$> matching).

Definition vote_failure (cfg : HotStuffConfig) (s : HotStuffService St) (vote : Vote)
    : option ConsensusFailure :=
  if failed_ s || negb (synced_ s) then Some NotSynced
  else if negb (v_consensus_ruleset vote =? consensus_ruleset cfg) then Some RulesetMismatch
  else if negb (v_network_id vote =? network_id cfg) then Some NetworkMismatch
  else if negb (v_epoch vote =? epoch cfg) then Some EpochMismatch
  else match view_window_failure s (v_view vote) with
  | Some bound => Some bound
  | None =>
      match vote_keys cfg !! v_voter vote with
      | None => Some UnknownSigner
      | Some key =>
          if negb (verify_digest key (vote_signing_digest_of vote) (v_signature vote))
          then Some InvalidSignature else None
      end
  end.

Definition receive_vote (cfg : HotStuffConfig) (s : HotStuffService St) (vote : Vote)
    : HotStuffService St * VoteOutcome QuorumCertificate :=
  match vote_failure cfg s vote with
  | Some f => (s, VoteFailed f)
  | None =>
      let ledger := default ∅ (votes_by_view_ s !! v_view vote) in
      match ledger !! v_voter vote with
      | Some existing =>
          if v_proposal_digest existing =? v_proposal_digest vote then (s, Counted)
          else (s <| evidence_ := evidence_ s ++
                  [mkEquivocation (v_voter vote) (v_view vote) (v_proposal_digest existing)
                     (v_proposal_digest vote) true] |>, VoteFailed DuplicateSigner)
      | None =>
          let ledger := <[ v_voter vote := vote ]> ledger in
          let s := s <| votes_by_view_ := <[ v_view vote := ledger ]> (votes_by_view_ s) |> in
          let matching := matching_votes ledger vote in
          if Z.of_nat (length matching) <? quorum cfg then (s, Counted)
          else
            let formed_key := (v_view vote, v_height vote, v_proposal_digest vote) in
            if bool_decide (formed_key ∈ formed_qcs_ s) then (s, Counted)
            else
              let s := s <| formed_qcs_ := {[ formed_key ]} ∪ formed_qcs_ s |> in
              let certificate := form_qc vote matching in
              let s := s <| qc_by_block_ :=
                <[ qc_proposal_digest certificate := certificate ]> (qc_by_block_ s) |> in
              let s := advance_high_qc s certificate in
              let s := s <| current_view_ :=
                std_max (current_view_ s) (v_view vote +64 1) |> in
              (s, Formed certificate)
      end
  end.

(** ** Timeouts *)

Definition view_ge (a b : View) : Prop := b <= a.
#[export] Instance view_ge_dec : RelDecision view_ge.
Proof. intros a b. unfold view_ge. apply _. Defined.

(** The highest view above the current one that each node timed out in. *)
Definition highest_timeouts (s : HotStuffService St) : gmap Z View :=
  foldl (λ acc '(view, ledger), foldl (λ acc '(node, _), <[ node := view ]> acc) acc (in_order ledger))
    ∅ (filter (λ kv, current_view_ s < kv.1) (in_order (timeouts_by_view_ s))).

Definition synchronize_view (cfg : HotStuffConfig) (s : HotStuffService St)
    : HotStuffService St :=
  let members := Z.of_nat (length (leader_order cfg)) in
  if members <? quorum cfg then s
  else
    let witnesses := members - quorum cfg + 1 in
    let highest := highest_timeouts s in
    if Z.of_nat (size highest) <? witnesses then s
    else
      let views := merge_sort view_ge ((in_order highest).*2) in
      s <| current_view_ := std_max (current_view_ s)
             (nth (Z.to_nat (witnesses - 1)) views 0) |>.

Definition form_tc (cfg : HotStuffConfig) (vote : TimeoutVote) (ledger : gmap Z TimeoutVote)
    : TimeoutCertificate :=
  mkTC (consensus_ruleset cfg) (network_id cfg) (epoch cfg) (t_view vote)
    ((λ '(node, entry), mkTimeoutSigner node (t_high_qc_digest entry) (t_signature entry))
       <$> in_order ledger).

Definition timeout_failure (cfg : HotStuffConfig) (s : HotStuffService St) (vote : TimeoutVote)
    : option ConsensusFailure :=
  if failed_ s || negb (synced_ s) then Some NotSynced
  else if negb (t_consensus_ruleset vote =? consensus_ruleset cfg) then Some RulesetMismatch
  else if negb (t_network_id vote =? network_id cfg) then Some NetworkMismatch
  else if negb (t_epoch vote =? epoch cfg) then Some EpochMismatch
  else match view_window_failure s (t_view vote) with
  | Some bound => Some bound
  | None =>
      match vote_keys cfg !! t_voter vote with
      | None => Some UnknownSigner
      | Some key =>
          if negb (verify_digest key (timeout_vote_signing_digest_of vote) (t_signature vote))
          then Some InvalidSignature else None
      end
  end.

Definition receive_timeout (cfg : HotStuffConfig) (s : HotStuffService St) (vote : TimeoutVote)
    : HotStuffService St * VoteOutcome TimeoutCertificate :=
  match timeout_failure cfg s vote with
  | Some f => (s, VoteFailed f)
  | None =>
      let ledger := default ∅ (timeouts_by_view_ s !! t_view vote) in
      match ledger !! t_voter vote with
      | Some _ => (s, Counted)
      | None =>
          let ledger := <[ t_voter vote := vote ]> ledger in
          let s := s <| timeouts_by_view_ := <[ t_view vote := ledger ]> (timeouts_by_view_ s) |> in
          let s := synchronize_view cfg s in
          if Z.of_nat (size ledger) <? quorum cfg then (s, Counted)
          else if bool_decide (t_view vote ∈ formed_tcs_ s) then (s, Counted)
          else
            let s := s <| formed_tcs_ := {[ t_view vote ]} ∪ formed_tcs_ s |> in
            let s := s <| current_view_ := std_max (current_view_ s) (t_view vote +64 1) |> in
            (s, Formed (form_tc cfg vote ledger))
      end
  end.

(** ** What a replica sends *)

Definition make_proposal (cfg : HotStuffConfig) (s : HotStuffService St)
    (previous_state_root proposed_state_root transitions_digest : Digest)
    : Proposal + ConsensusFailure :=
  if failed_ s || negb (synced_ s) then inr NotSynced
  else if negb (self cfg =? leader_of cfg (current_view_ s)) then inr NotLeader
  else
    let with_height height :=
      inl (mkProposal (security_ruleset cfg) (consensus_ruleset cfg) (network_id cfg)
        (epoch cfg) height (current_view_ s) (self cfg) (qc_proposal_digest (high_qc_ s))
        (qc_digest (high_qc_ s)) previous_state_root proposed_state_root transitions_digest 0) in
    if qc_proposal_digest (high_qc_ s) =? genesis_digest cfg then with_height 1
    else match blocks_ s !! qc_proposal_digest (high_qc_ s) with
         | Some parent => with_height (p_height (b_proposal parent) +64 1)
         | None => inr MissingParent
         end.

(** [None]: the method throws. *)
Definition make_timeout_vote (cfg : HotStuffConfig) (own_key_ : EpochVoteKey)
    (s : HotStuffService St) : option TimeoutVote :=
  if failed_ s || negb (synced_ s) then None
  else
    let high := qc_digest (high_qc_ s) in
    signature ← sign_digest own_key_
      (timeout_vote_signing_digest (consensus_ruleset cfg) (network_id cfg) (epoch cfg)
         (current_view_ s) high (self cfg));
    Some (mkTimeoutVote (consensus_ruleset cfg) (network_id cfg) (epoch cfg)
            (current_view_ s) high (self cfg) signature).

(** ** Restart and catch-up *)

Definition certified_block_failure (cfg : HotStuffConfig) (proposal : Proposal)
    (justify certifying : QuorumCertificate) : option ConsensusFailure :=
  match header_failure cfg proposal with
  | Some f => Some f
  | None =>
      if negb (qc_digest justify =? p_justify_qc_digest proposal) then Some JustifyInvalid
      else if negb (p_parent_digest proposal =? qc_proposal_digest justify)
      then Some ParentQcMismatch
      else if negb (justify_acceptable cfg justify) then Some JustifyInvalid
      else if negb (qc_proposal_digest certifying =? proposal_digest proposal) ||
              match validate_quorum_certificate certifying (qc_context cfg) (vote_keys cfg) with
              | Some _ => true | None => false end
      then Some JustifyInvalid
      else None
  end.

Definition adopt_block (s : HotStuffService St) (proposal : Proposal)
    (justify certifying : QuorumCertificate) (d : Digest) : HotStuffService St :=
  let kept_payload := blocks_ s !! d ≫= b_payload in
  let s := s <| blocks_ := <[ d := mkBlock proposal justify d kept_payload ]> (blocks_ s) |> in
  let s := s <| qc_by_block_ := <[ qc_proposal_digest justify := justify ]> (qc_by_block_ s) |> in
  let s := s <| qc_by_block_ := <[ d := certifying ]> (qc_by_block_ s) |> in
  let s := s <| accepted_by_view_ := <[ p_view proposal := d ]> (accepted_by_view_ s) |> in
  advance_high_qc (advance_high_qc s justify) certifying.

Definition adopt_certified_block (cfg : HotStuffConfig) (s : HotStuffService St)
    (proposal : Proposal) (justify certifying : QuorumCertificate)
    (commits_out : list ConsensusCommit)
    : HotStuffService St * option ConsensusFailure * list ConsensusCommit :=
  if failed_ s then (s, Some NotSynced, commits_out)
  else match certified_block_failure cfg proposal justify certifying with
  | Some f => (s, Some f, commits_out)
  | None =>
      let d := proposal_digest proposal in
      let known := bool_decide (is_Some (blocks_ s !! d)) in
      let link :=
        match parent_verdict cfg s proposal with
        | ParentLinks => None
        | ParentMismatch => Some ParentQcMismatch
        | ParentUnknown =>
            if negb known &&
               (anchor_adopted_ s ||
                (negb (bool_decide (blocks_ s = ∅)) && negb (restored_ s)))
            then Some MissingParent else None
        end in
      match link with
      | Some f => (s, Some f, commits_out)
      | None =>
          let equivocates := match accepted_by_view_ s !! p_view proposal with
                             | Some seen => negb (seen =? d)
                             | None => false
                             end in
          if equivocates then (s, Some Equivocation, commits_out)
          else if negb known && (kMaxPendingProposals <=? pending_count s)
          then (s, Some PendingLimit, commits_out)
          else
            let anchors :=
              negb known && negb (p_parent_digest proposal =? genesis_digest cfg) &&
              negb (bool_decide (is_Some (blocks_ s !! p_parent_digest proposal))) in
            let s := if anchors then s <| anchor_adopted_ := true |> else s in
            let s := adopt_block s proposal justify certifying d in
            let '(s, commits_out) := apply_chain_rules cfg s certifying commits_out in
            (s, None, commits_out)
      end
  end.

Definition take_linkable_orphan (cfg : HotStuffConfig) (s : HotStuffService St)
    : HotStuffService St * option OrphanProposal :=
  match orphan_ s with
  | None => (s, None)
  | Some o =>
      let parent := p_parent_digest (o_proposal o) in
      if negb (parent =? genesis_digest cfg) && negb (bool_decide (is_Some (blocks_ s !! parent)))
      then (s, None)
      else (s <| orphan_ := None |>, Some o)
  end.

Definition sync_to_certified (s : HotStuffService St) (certified_view_floor : View)
    : HotStuffService St :=
  if failed_ s then s
  else
    let s := s <| last_voted_view_ := std_max (last_voted_view_ s) certified_view_floor |> in
    let s := s <| current_view_ := std_max (current_view_ s) (certified_view_floor +64 1) |> in
    s <| synced_ := true |>.

Definition state (cfg : HotStuffConfig) (s : HotStuffService St) : HotStuffState :=
  mkState (epoch cfg) (consensus_ruleset cfg) (last_voted_view_ s) (high_qc_ s) (locked_qc_ s).

(** The [linked] test of [certified_page_after]. *)
Definition page_linked (chain : list (Proposal * QuorumCertificate)) (proposal : Proposal) : bool :=
  match last chain with
  | None => true
  | Some (tip, _) => p_parent_digest proposal =? proposal_digest tip
  end.

(** The loop over committed heights; it appends or stops, so
    [kMaxSyncChainBlocks] steps are all it can take. *)
Fixpoint committed_page (fuel : nat) (s : HotStuffService St) (height : Height)
    (page : list (Proposal * QuorumCertificate)) (certifying : option QuorumCertificate)
    : list (Proposal * QuorumCertificate) * option QuorumCertificate :=
  match fuel with
  | O => (page, certifying)
  | S fuel' =>
      if last_committed_height_ s <? height then (page, certifying)
      else match committed_by_height_ s !! height with
      | None => (page, certifying)
      | Some d =>
          match blocks_ s !! d, qc_by_block_ s !! d with
          | Some b, Some c =>
              if negb (page_linked page (b_proposal b)) then (page, certifying)
              else committed_page fuel' s (height +64 1)
                     (page ++ [(b_proposal b, b_justify b)]) (Some c)
          | _, _ => (page, certifying)
          end
      end
  end.

(** The loop over the uncommitted chain that extends a page at the tip. *)
Fixpoint uncommitted_page (s : HotStuffService St)
    (chain : list (Proposal * QuorumCertificate))
    (page : list (Proposal * QuorumCertificate)) (certifying : option QuorumCertificate)
    : list (Proposal * QuorumCertificate) * option QuorumCertificate :=
  match chain with
  | [] => (page, certifying)
  | (proposal, justify) :: rest =>
      if (kMaxSyncChainBlocks <=? Z.of_nat (length page)) || negb (page_linked page proposal)
      then (page, certifying)
      else
        let d := proposal_digest proposal in
        if d =? qc_proposal_digest (high_qc_ s)
        then uncommitted_page s rest (page ++ [(proposal, justify)]) (Some (high_qc_ s))
        else match qc_by_block_ s !! d with
             | Some c => uncommitted_page s rest (page ++ [(proposal, justify)]) (Some c)
             | None => (page, certifying)
             end
  end.

Definition certified_page_after (cfg : HotStuffConfig) (s : HotStuffService St) (after : Height)
    : option CertifiedChain :=
  let '(page, certifying) :=
    committed_page (Z.to_nat kMaxSyncChainBlocks) s (after +64 1) [] None in
  match last page with
  | None => None
  | Some (tip, _) =>
      let '(page, certifying) :=
        if p_height tip =? last_committed_height_ s
        then uncommitted_page s (uncommitted_chain cfg s) page certifying
        else (page, certifying) in
      mkChain page <$> certifying
  end.

(** The children of a block, in digest order. *)
Definition children_of (s : HotStuffService St) (parent : Digest) : list BlockRecord :=
  filter (λ record, p_parent_digest (b_proposal record) = parent ∧
                    qc_proposal_digest (b_justify record) = parent)
    (in_order (blocks_ s)).*2.

Fixpoint first_some {A B : Type} (f : A → option B) (l : list A) : option B :=
  match l with
  | [] => None
  | x :: rest => match f x with Some y => Some y | None => first_some f rest end
  end.

Definition commit_proof (s : HotStuffService St) (d : Digest) : option CommitProof :=
  match blocks_ s !! d with
  | None => None
  | Some committed =>
      if negb (bool_decide (d ∈ committed_digests_ s)) then None
      else first_some (λ child,
        first_some (λ grandchild,
          certifying ← qc_by_block_ s !! b_digest grandchild;
          Some (mkProof
            [ mkCommitted (b_proposal committed) (b_justify committed);
              mkCommitted (b_proposal child) (b_justify child);
              mkCommitted (b_proposal grandchild) (b_justify grandchild) ]
            certifying))
          (children_of s (b_digest child)))
        (children_of s d)
  end.

(** ** Construction *)

(** The loop of [restore_stored_chain]; [previous] is the digest and height of
    the block restored before. *)
Fixpoint restore_blocks (cfg : HotStuffConfig) (s : HotStuffService St)
    (chain : list (Proposal * QuorumCertificate)) (closing : QuorumCertificate)
    (previous : option (Digest * Height)) : HotStuffService St :=
  match chain with
  | [] => s
  | (proposal, justify) :: rest =>
      let certifying := match rest with (_, next) :: _ => next | [] => closing end in
      match certified_block_failure cfg proposal justify certifying with
      | Some _ => s
      | None =>
          let links :=
            match previous with
            | Some (pd, ph) =>
                (p_parent_digest proposal =? pd) && (p_height proposal =? ph +64 1)
            | None =>
                negb ((p_parent_digest proposal =? genesis_digest cfg) &&
                      negb (p_height proposal =? 1))
            end in
          if negb links then s
          else
            let d := proposal_digest proposal in
            let conflict := match accepted_by_view_ s !! p_view proposal with
                            | Some seen => negb (seen =? d)
                            | None => false
                            end in
            if conflict then s
            else
              let s := s <| blocks_ := <[ d := mkBlock proposal justify d None ]> (blocks_ s) |> in
              let s := s <| qc_by_block_ :=
                <[ qc_proposal_digest justify := justify ]> (qc_by_block_ s) |> in
              let s := s <| qc_by_block_ := <[ d := certifying ]> (qc_by_block_ s) |> in
              let s := s <| accepted_by_view_ :=
                <[ p_view proposal := d ]> (accepted_by_view_ s) |> in
              let s := advance_high_qc s certifying in
              let s := s <| restored_ := true |> in
              restore_blocks cfg s rest closing (Some (d, p_height proposal))
      end
  end.

Definition restore_stored_chain (cfg : HotStuffConfig) (s : HotStuffService St)
    : HotStuffService St :=
  match load_chain (epoch cfg) (store_ s) with
  | inr _ => s
  | inl record => restore_blocks cfg s (ch_chain record) (ch_certifying record) None
  end.

Definition initial_service (cfg : HotStuffConfig) (store : St) : HotStuffService St :=
  mkService store false false 1 0 (genesis_qc cfg) (genesis_qc cfg) 0 ∅ ∅ ∅ ∅ ∅ ∅ ∅ ∅ ∅ None
    false false None [].

(** The constructor; [None]: it throws [std::invalid_argument]. *)
Definition new_service (cfg : HotStuffConfig) (store : St) : option (HotStuffService St) :=
  if match leader_order cfg with [] => true | _ => false end then None
  else if quorum cfg =? 0 then None
  else
    let s := initial_service cfg store in
    match load (epoch cfg) store with
    | inr Absent => Some (s <| synced_ := true |>)
    | inr Corrupt => Some (s <| failed_ := true |>)
    | inl st =>
        if negb (st_epoch st =? epoch cfg) ||
           negb (st_consensus_ruleset st =? consensus_ruleset cfg)
        then Some (s <| failed_ := true |>)
        else
          let s := s <| last_voted_view_ := st_last_voted_view st |> in
          let s := s <| high_qc_ := st_high_qc st |> in
          let s := s <| locked_qc_ := st_locked_qc st |> in
          let s := restore_stored_chain cfg s in
          let s := s <| current_view_ :=
            std_max (qc_view (high_qc_ s) +64 1) (last_voted_view_ s +64 1) |> in
          Some (s <| synced_ := false |>)
    end.
End service.

Arguments Counted {C}. Arguments Formed {C}. Arguments VoteFailed {C}.
