(* ===== verification/HotStuffInvariants.v ===== *)
(** * Invariants of one replica

    What every method of the replica (HotStuff) preserves, whatever messages
    arrive: chain state holds only blocks whose justify was validated and is
    the certificate the header commits to, certificates are filed under the
    block they certify, the vote ledgers hold only verified votes, and the lock
    never moves to a lower view. *)

From S2P Require Import Prelude SecurityPolicy CanonicalEncoding ConsensusTypes.
From S2P Require Import QuorumValidation HotStuff.

(** ** The invariant *)

(** Committees the epoch layer builds: a quorum is positive and the frozen
    membership fits a certificate. *)
Record config_ok (cfg : HotStuffConfig) : Prop := mkConfigOk {
  co_leaders : leader_order cfg ≠ [];
  co_quorum : 0 < quorum cfg;
  co_members : Z.of_nat (size (vote_keys cfg)) <= kMaxQcSignatures;
}.

Section inv.
Context {St : Type} `{Sodium, IConsensusStore St}.
Implicit Types (s : HotStuffService St) (cfg : HotStuffConfig).

(** A certificate the replica may act on: validated, or the genesis anchor. *)
Definition cert (cfg : HotStuffConfig) (c : QuorumCertificate) : Prop :=
  justify_acceptable cfg c = true.

Record record_ok (cfg : HotStuffConfig) (d : Digest) (r : BlockRecord) : Prop := mkRecordOk {
  ro_key : b_digest r = d;
  ro_digest : proposal_digest (b_proposal r) = d;
  ro_header : header_failure cfg (b_proposal r) = None;
  ro_parent : p_parent_digest (b_proposal r) = qc_proposal_digest (b_justify r);
  ro_commits : qc_digest (b_justify r) = p_justify_qc_digest (b_proposal r);
  ro_cert : cert cfg (b_justify r);
}.

Record ledger_vote_ok (cfg : HotStuffConfig) (view : View) (n : NodeId) (v : Vote) : Prop :=
  mkLedgerVoteOk {
  lv_voter : v_voter v = n;
  lv_view : v_view v = view;
  lv_ruleset : v_consensus_ruleset v = consensus_ruleset cfg;
  lv_network : v_network_id v = network_id cfg;
  lv_epoch : v_epoch v = epoch cfg;
  lv_signed : verify_member (vote_keys cfg) n (vote_signing_digest_of v) (v_signature v) = true;
}.

Record ledger_timeout_ok (cfg : HotStuffConfig) (view : View) (n : NodeId) (t : TimeoutVote)
    : Prop := mkLedgerTimeoutOk {
  lt_voter : t_voter t = n;
  lt_view : t_view t = view;
  lt_ruleset : t_consensus_ruleset t = consensus_ruleset cfg;
  lt_network : t_network_id t = network_id cfg;
  lt_epoch : t_epoch t = epoch cfg;
  lt_signed :
    verify_member (vote_keys cfg) n (timeout_vote_signing_digest_of t) (t_signature t) = true;
}.

Definition blocks_ok (cfg : HotStuffConfig) (blocks : gmap Z BlockRecord) : Prop :=
  ∀ d r, blocks !! d = Some r → record_ok cfg d r.
Definition qcs_ok (cfg : HotStuffConfig) (qcs : gmap Z QuorumCertificate) : Prop :=
  ∀ d c, qcs !! d = Some c → qc_proposal_digest c = d ∧ cert cfg c.
Definition ledgers_ok (cfg : HotStuffConfig) (votes : gmap Z (gmap Z Vote)) : Prop :=
  ∀ view ledger n v, votes !! view = Some ledger → ledger !! n = Some v →
    ledger_vote_ok cfg view n v.
Definition timeouts_ok (cfg : HotStuffConfig) (timeouts : gmap Z (gmap Z TimeoutVote)) : Prop :=
  ∀ view ledger n t, timeouts !! view = Some ledger → ledger !! n = Some t →
    ledger_timeout_ok cfg view n t.

Record replica_ok (cfg : HotStuffConfig) (s : HotStuffService St) : Prop := mkReplicaOk {
  rk_blocks : blocks_ok cfg (blocks_ s);
  rk_qcs : qcs_ok cfg (qc_by_block_ s);
  rk_ledgers : ledgers_ok cfg (votes_by_view_ s);
  rk_timeouts : timeouts_ok cfg (timeouts_by_view_ s);
  rk_high : cert cfg (high_qc_ s);
  rk_locked : cert cfg (locked_qc_ s);
}.

(** What the lock-and-commit rules may change. *)
Record chain_effect (justify : QuorumCertificate) (s s' : HotStuffService St) : Prop :=
  mkChainEffect {
  ce_failed : failed_ s' = failed_ s;
  ce_synced : synced_ s' = synced_ s;
  ce_current : current_view_ s' = current_view_ s;
  ce_voted : last_voted_view_ s' = last_voted_view_ s;
  ce_high : high_qc_ s' = high_qc_ s;
  ce_votes : votes_by_view_ s' = votes_by_view_ s;
  ce_timeouts : timeouts_by_view_ s' = timeouts_by_view_ s;
  ce_blocks : blocks_ s' ⊆ blocks_ s;
  ce_qcs : qc_by_block_ s' ⊆ qc_by_block_ s;
  ce_lock : locked_qc_ s' = locked_qc_ s ∨
    ∃ b2, blocks_ s !! qc_proposal_digest justify = Some b2 ∧ locked_qc_ s' = b_justify b2;
  ce_lock_mono : qc_view (locked_qc_ s) <= qc_view (locked_qc_ s');
  ce_lock_parent : ∀ b2, blocks_ s !! qc_proposal_digest justify = Some b2 →
    qc_view (b_justify b2) <= qc_view (locked_qc_ s');
  ce_store : store_ s' = store_ s ∨ ∃ c, store_ s' = (store_commit c (store_ s)).2;
}.

(** ** Lemmas *)

Lemma advance_high_qc_eq s c :
  ∃ q, advance_high_qc s c = s <| high_qc_ := q |> ∧ (q = c ∨ q = high_qc_ s) ∧
       qc_view (high_qc_ s) <= qc_view q ∧ qc_view c <= qc_view q.
Proof.
  unfold advance_high_qc. destruct (Z.ltb_spec (qc_view (high_qc_ s)) (qc_view c)).
  - exists c. split; [done|]. split; [by left|lia].
  - exists (high_qc_ s). split; [by destruct s|]. split; [by right|lia].
Qed.

(** What pruning leaves alone, and that it only removes. *)
Record prune_effect (s s' : HotStuffService St) : Prop := mkPruneEffect {
  pe_rest : s' = s <| blocks_ := blocks_ s' |> <| qc_by_block_ := qc_by_block_ s' |>
                   <| accepted_by_view_ := accepted_by_view_ s' |>;
  pe_blocks : blocks_ s' ⊆ blocks_ s;
  pe_qcs : qc_by_block_ s' ⊆ qc_by_block_ s;
  pe_accepted : accepted_by_view_ s' ⊆ accepted_by_view_ s;
}.

Lemma prune_effect_refl s : prune_effect s s.
Proof. split; [by destruct s|done..]. Qed.

Lemma prune_effect_trans s1 s2 s3 :
  prune_effect s1 s2 → prune_effect s2 s3 → prune_effect s1 s3.
Proof.
  intros [E1 B1 Q1 A1] [E2 B2 Q2 A2]. split; [|by etrans..].
  rewrite E2. rewrite E1. reflexivity.
Qed.

Lemma prune_step_effect s e : prune_effect s (prune_step s e).
Proof.
  destruct e as [d r]. unfold prune_step. destruct (_ && _); [|apply prune_effect_refl].
  split; [done|apply delete_subseteq..].
Qed.

Lemma prune_committed_effect s : prune_effect s (prune_committed s).
Proof.
  unfold prune_committed. generalize (in_order (blocks_ s)) as l. intros l.
  revert s. induction l as [|e l IH]; intros s; simpl; [apply prune_effect_refl|].
  eapply prune_effect_trans; [apply prune_step_effect|apply IH].
Qed.

Lemma commit_records_rest cfg s commits chain s' commits' ok :
  commit_records cfg s commits chain = (s', commits', ok) →
  s' = s <| committed_digests_ := committed_digests_ s' |>
         <| committed_by_height_ := committed_by_height_ s' |>
         <| last_committed_height_ := last_committed_height_ s' |>.
Proof.
  revert s commits. induction chain as [|r chain IH]; intros s commits; simpl.
  { intros [= <- _ _]. by destruct s. }
  case_match; [|intros [= <- _ _]; by destruct s].
  intros E. apply IH in E. rewrite E. reflexivity.
Qed.

Lemma apply_chain_rules_effect cfg s justify commits s' commits' :
  apply_chain_rules cfg s justify commits = (s', commits') → chain_effect justify s s'.
Proof.
  unfold apply_chain_rules.
  destruct (blocks_ s !! qc_proposal_digest justify) as [b2|] eqn:E2; cycle 1.
  { intros [= <- _]. split; try done; [by left|congruence|by left]. }
  set (s1 := if qc_view (locked_qc_ s) <? qc_view (b_justify b2) then _ else s).
  assert (Hs1 : ∃ q, s1 = s <| locked_qc_ := q |> ∧ (q = locked_qc_ s ∨ q = b_justify b2) ∧
    qc_view (locked_qc_ s) <= qc_view q ∧ qc_view (b_justify b2) <= qc_view q).
  { unfold s1. destruct (Z.ltb_spec (qc_view (locked_qc_ s)) (qc_view (b_justify b2))).
    - eexists; split; [done|]. split; [by right|lia].
    - exists (locked_qc_ s). split; [by destruct s|]. split; [by left|lia]. }
  clearbody s1. destruct Hs1 as (q & -> & Hq & Hm & Hp).
  assert (Hbase : chain_effect justify s (s <| locked_qc_ := q |>)).
  { split; try done; cbn;
    [|intros b3 Hb3; rewrite E2 in Hb3; by injection Hb3 as <-|by left].
    destruct Hq as [-> | ->]; [by left|right; eauto]. }
  destruct (blocks_ _ !! qc_proposal_digest (b_justify b2)) as [b1|]; [|by intros [= <- _]].
  destruct (blocks_ _ !! qc_proposal_digest (b_justify b1)) as [b0|]; [|by intros [= <- _]].
  destruct (_ <=? _); [by intros [= <- _]|].
  destruct (commit_records _ _ _ _) as [[sc cc] ok] eqn:Ec.
  apply commit_records_rest in Ec.
  assert (Hc : chain_effect justify s sc ∧ store_ sc = store_ s).
  { rewrite Ec. split; [|done]. destruct Hbase; by split. }
  clear Ec. destruct Hc as [Hc Hst]. destruct ok; [|by intros [= <- _]].
  set (st := match last cc with Some c => _ | None => sc end).
  assert (Ht : chain_effect justify s st).
  { unfold st. destruct (last cc); [|done]. destruct Hc; split; cbn; try done.
    right. rewrite Hst. eauto. }
  intros [= <- _]. destruct (prune_committed_effect st) as [E Hb Hqc _].
  rewrite E. destruct Ht; split; cbn; try done; by etrans.
Qed.

Lemma replica_ok_chain_effect cfg justify s s' :
  replica_ok cfg s → chain_effect justify s s' → replica_ok cfg s'.
Proof.
  intros [Hb Hq Hl Ht Hh Hk] [Ef Es Ec Ev Eh Evt Ett Eb Eq El _ _ _]. split.
  - intros d r Hr. apply Hb. by eapply lookup_weaken.
  - intros d c Hc. apply Hq. by eapply lookup_weaken.
  - by rewrite Evt.
  - by rewrite Ett.
  - by rewrite Eh.
  - destruct El as [-> | (b2 & E2 & ->)]; [done|]. apply (Hb _ _ E2).
Qed.

Lemma cert_advance cfg s c :
  cert cfg (high_qc_ s) → cert cfg c → cert cfg (high_qc_ (advance_high_qc s c)).
Proof. intros. destruct (advance_high_qc_eq s c) as (q & -> & [-> | ->] & _); done. Qed.

Lemma replica_ok_advance cfg s c :
  replica_ok cfg s → cert cfg c → replica_ok cfg (advance_high_qc s c).
Proof.
  intros [Hb Hq Hl Ht Hh Hk] Hc. pose proof (cert_advance cfg s c Hh Hc) as Hh'.
  destruct (advance_high_qc_eq s c) as (q & E & _). rewrite E in *. by split.
Qed.

Lemma blocks_ok_insert cfg blocks d r :
  blocks_ok cfg blocks → record_ok cfg d r → blocks_ok cfg (<[ d := r ]> blocks).
Proof.
  intros Hb Hr d' r'. rewrite lookup_insert. case_decide; [|apply Hb].
  intros [= <-]. by subst.
Qed.

Lemma qcs_ok_insert cfg qcs c :
  qcs_ok cfg qcs → cert cfg c → qcs_ok cfg (<[ qc_proposal_digest c := c ]> qcs).
Proof.
  intros Hq Hc d' c'. rewrite lookup_insert. case_decide; [|apply Hq].
  intros [= <-]. by subst.
Qed.

Lemma replica_ok_accept_block cfg s proposal justify payload :
  replica_ok cfg s → header_failure cfg proposal = None →
  p_parent_digest proposal = qc_proposal_digest justify →
  qc_digest justify = p_justify_qc_digest proposal → cert cfg justify →
  replica_ok cfg (accept_block s proposal justify (proposal_digest proposal) payload).
Proof.
  intros [Hb Hq Hl Ht Hh Hk] Hhd Hp Hj Hc. unfold accept_block. cbv zeta.
  apply replica_ok_advance; [|done]. split; cbn; try done.
  - apply blocks_ok_insert; [done|]. by split.
  - by apply qcs_ok_insert.
Qed.

(** ** Voting *)

Lemma store_certified_chain_eq cfg s ok s' :
  store_certified_chain cfg s = (ok, s') →
  ∃ st' sq, s' = s <| store_ := st' |> <| stored_chain_qc_ := sq |> ∧
    (st' = store_ s ∨ ∃ rec, st' = (store_chain (epoch cfg) rec (store_ s)).2).
Proof.
  unfold store_certified_chain.
  assert (Hid : ∃ st' sq, s = s <| store_ := st' |> <| stored_chain_qc_ := sq |> ∧
    (st' = store_ s ∨ ∃ rec, st' = (store_chain (epoch cfg) rec (store_ s)).2)).
  { exists (store_ s), (stored_chain_qc_ s). split; [by destruct s|by left]. }
  case_bool_decide; [by intros [= <- <-]|].
  destruct (last _) as [[tip j]|]; [|by intros [= <- <-]].
  destruct (negb _); [by intros [= <- <-]|].
  destruct (store_chain _ _ _) as [ok' st'] eqn:E.
  assert (st' = (store_chain (epoch cfg) (mkChain (uncommitted_chain cfg s) (high_qc_ s)) (store_ s)).2)
    as Hst by (by rewrite E).
  destruct ok'; intros [= <- <-].
  - eexists st', _. split; [done|]. eauto.
  - exists st', (stored_chain_qc_ s). split; [by destruct s|]. eauto.
Qed.

(** The safe-node rule as the code tests it. *)
Definition safe_node (cfg : HotStuffConfig) (s : HotStuffService St) (proposal : Proposal)
    (justify : QuorumCertificate) : Prop :=
  last_voted_view_ s < p_view proposal ∧
  (extends_locked cfg s proposal = true ∨ qc_view (locked_qc_ s) < qc_view justify).

(** The three ways the voting step can end: nothing reached the safety record;
    the safety write was refused; the vote is on disk and leaves the node. *)
Inductive vote_step (cfg : HotStuffConfig) (s : HotStuffService St) (proposal : Proposal)
    (justify : QuorumCertificate) (d : Digest) (s' : HotStuffService St) (vote : option Vote)
    : Prop :=
  | vote_withheld st' sq :
      s' = s <| store_ := st' |> <| stored_chain_qc_ := sq |> → vote = None →
      (st' = store_ s ∨ ∃ rec, st' = (store_chain (epoch cfg) rec (store_ s)).2) →
      vote_step cfg s proposal justify d s' vote
  | vote_refused st1 st' sq :
      (st1 = store_ s ∨ ∃ rec, st1 = (store_chain (epoch cfg) rec (store_ s)).2) →
      store_before_vote (mkState (epoch cfg) (consensus_ruleset cfg) (p_view proposal)
        (high_qc_ s) (locked_qc_ s)) st1 = (false, st') →
      s' = s <| store_ := st' |> <| stored_chain_qc_ := sq |> → vote = None →
      safe_node cfg s proposal justify →
      vote_step cfg s proposal justify d s' vote
  | vote_stored st1 st' sq :
      (st1 = store_ s ∨ ∃ rec, st1 = (store_chain (epoch cfg) rec (store_ s)).2) →
      store_before_vote (mkState (epoch cfg) (consensus_ruleset cfg) (p_view proposal)
        (high_qc_ s) (locked_qc_ s)) st1 = (true, st') →
      s' = s <| store_ := st' |> <| stored_chain_qc_ := sq |>
             <| last_voted_view_ := p_view proposal |> →
      safe_node cfg s proposal justify →
      (∀ v, vote = Some v → v_proposal_digest v = d ∧ v_view v = p_view proposal ∧
         v_height v = p_height proposal ∧ v_voter v = self cfg ∧
         v_consensus_ruleset v = consensus_ruleset cfg ∧ v_network_id v = network_id cfg ∧
         v_epoch v = epoch cfg) →
      vote_step cfg s proposal justify d s' vote.

Lemma cast_vote_step cfg key s proposal justify d result s' out :
  r_vote result = None →
  cast_vote cfg key s proposal justify d result = (s', out) →
  vote_step cfg s proposal justify d s' (out ≫= r_vote).
Proof.
  intros Hnone. unfold cast_vote.
  assert (Hid : vote_step cfg s proposal justify d s None).
  { eapply vote_withheld with (st' := store_ s) (sq := stored_chain_qc_ s);
      [by destruct s|done|by left]. }
  destruct (r_transition_refused result); [intros [= <- <-]; simpl; by rewrite Hnone|].
  destruct (negb _) eqn:Hsafe; [intros [= <- <-]; simpl; by rewrite Hnone|].
  assert (Hs : safe_node cfg s proposal justify).
  { bool_to_prop. split; [done|]. match goal with E : _ || _ = true |- _ =>
      apply orb_true_iff in E as [?|?] end; bool_to_prop; auto. }
  destruct (store_certified_chain cfg s) as [stored s1] eqn:Ech.
  apply store_certified_chain_eq in Ech as (st1 & sq & -> & Hst).
  destruct (negb stored).
  { intros [= <- <-]. simpl. rewrite Hnone. by eapply vote_withheld. }
  cbn [high_qc_ locked_qc_ store_ set_field].
  destruct (store_before_vote _ _) as [ok st'] eqn:Esb.
  destruct ok; simpl negb; cbv iota.
  2:{ intros [= <- <-]. simpl. rewrite Hnone. eapply vote_refused; [exact Hst|exact Esb|..]; done. }
  destruct (sign_digest _ _) as [sig|]; intros [= <- <-];
    (eapply vote_stored; [exact Hst|exact Esb|done|done|]); [|done].
  simpl. intros v [= <-]. done.
Qed.

Lemma replica_ok_vote_step cfg s proposal justify d s' vote :
  replica_ok cfg s → vote_step cfg s proposal justify d s' vote → replica_ok cfg s'.
Proof. by intros [] []; subst; split. Qed.

(** ** Proposals

    Either the proposal is refused before chain state changes (only the view,
    the evidence, the held orphan and the high certificate may move), or every
    header, justify, view and parent check passed and the block went through
    accept, chain rules and the voting step. *)
Inductive proposal_step (cfg : HotStuffConfig) (s : HotStuffService St) (p : Proposal)
    (j : QuorumCertificate) (s' : HotStuffService St) (vote : option Vote) : Prop :=
  | proposal_refused cv ev orp hq :
      s' = s <| current_view_ := cv |> <| evidence_ := ev |> <| orphan_ := orp |>
             <| high_qc_ := hq |> →
      (hq = high_qc_ s ∨ (hq = j ∧ cert cfg j)) →
      current_view_ s <= cv → vote = None →
      proposal_step cfg s p j s' vote
  | proposal_accepted payload s1 s2 commits :
      failed_ s = false → synced_ s = true → header_failure cfg p = None →
      qc_digest j = p_justify_qc_digest p → p_parent_digest p = qc_proposal_digest j →
      cert cfg j → qc_view j +64 1 <= p_view p →
      parent_verdict cfg s p = ParentLinks →
      s1 = s <| current_view_ := std_max (current_view_ s) (qc_view j +64 1) |> →
      current_view_ s1 <= p_view p →
      apply_chain_rules cfg (accept_block s1 p j (proposal_digest p) payload) j [] = (s2, commits) →
      vote_step cfg s2 p j (proposal_digest p) s' vote →
      proposal_step cfg s p j s' vote.

Lemma receive_proposal_step cfg key s p j payload s' out :
  receive_proposal cfg key s p j payload = (s', out) →
  proposal_step cfg s p j s' (out ≫= r_vote).
Proof.
  unfold receive_proposal.
  assert (Hid : proposal_step cfg s p j s None).
  { eapply proposal_refused with (cv := current_view_ s) (ev := evidence_ s) (orp := orphan_ s)
      (hq := high_qc_ s); [by destruct s|by left|lia|done]. }
  unfold rejected_with.
  destruct (_ || _) eqn:Hsync; [by intros [= <- <-]|].
  destruct (header_failure cfg p) eqn:Hh; [by intros [= <- <-]|].
  destruct (negb (qc_digest j =? _)) eqn:Hj; [by intros [= <- <-]|].
  destruct (negb (_ =? qc_proposal_digest j)) eqn:Hp; [by intros [= <- <-]|].
  destruct (negb (justify_acceptable cfg j)) eqn:Hc; [by intros [= <- <-]|].
  bool_to_prop.
  set (cv := std_max (current_view_ s) (qc_view j +64 1)).
  assert (Hcv : current_view_ s <= cv ∧ qc_view j +64 1 <= cv).
  { unfold cv. rewrite std_max_spec. lia. }
  set (s1 := s <| current_view_ := cv |>).
  assert (Hid1 : proposal_step cfg s p j s1 None).
  { eapply proposal_refused with (cv := cv) (ev := evidence_ s) (orp := orphan_ s)
      (hq := high_qc_ s); [by destruct s|by left|lia|done]. }
  change (current_view_ s1) with cv.
  destruct (p_view p <? cv) eqn:Hv; [by intros [= <- <-]|].
  destruct (_ <? p_view p); [by intros [= <- <-]|].
  destruct (negb (p_leader p =? _)); [by intros [= <- <-]|]. bool_to_prop.
  match goal with |- context [receive_proposal_linked _ _ _ _ _ _ _ ?res] => set (r := res) end.
  assert (Hlinked : receive_proposal_linked cfg key s1 p j payload (proposal_digest p) r = (s', out) →
    proposal_step cfg s p j s' (out ≫= r_vote)).
  { unfold receive_proposal_linked.
    destruct (parent_verdict cfg s1 p) eqn:Hpv; unfold rejected_with.
    - destruct (negb (bool_decide _) && (kMaxPendingProposals <=? _)); [by intros [= <- <-]|].
      destruct (payload_judgement cfg p payload) as [mp refused].
      destruct (apply_chain_rules _ _ _ _) as [s2 commits] eqn:Ea.
      intros Ev. apply cast_vote_step in Ev; [|done].
      eapply proposal_accepted; try done. cbn. lia.
    - by intros [= <- <-].
    - intros [= <- <-]. unfold hold_orphan.
      destruct (advance_high_qc_eq s1 j) as (q & Eq & Hq & _). rewrite Eq.
      match goal with |- context [if ?b then _ else _] => destruct b end;
        (eapply proposal_refused with (cv := cv) (hq := q); [done| |lia|done]);
        destruct Hq as [-> | ->]; auto. }
  destruct (accepted_by_view_ s1 !! p_view p) as [seen|]; [|done].
  destruct (negb (seen =? _)); [|done].
  intros [= <- <-].
  match goal with |- proposal_step _ _ _ _ ?t _ =>
    eapply (proposal_refused _ _ _ _ _ _ cv (evidence_ t) (orphan_ s) (high_qc_ s)) end;
    [done|by left|lia|done].
Qed.

Lemma replica_ok_proposal_step cfg s p j s' vote :
  replica_ok cfg s → proposal_step cfg s p j s' vote → replica_ok cfg s'.
Proof.
  intros Hok [cv ev orp hq -> Hq _ _|payload s1 s2 commits Hf Hs Hh Hj Hp Hc Hv Hpv -> Hcv Ha Hvote].
  - destruct Hok. split; try done. cbn. by destruct Hq as [-> | [-> ?]].
  - eapply replica_ok_vote_step; [|exact Hvote].
    eapply replica_ok_chain_effect; [|by eapply apply_chain_rules_effect].
    apply replica_ok_accept_block; try done. destruct Hok. by split.
Qed.

(** ** Votes, timeouts, catch-up *)

Lemma vote_failure_none cfg s v :
  vote_failure cfg s v = None → ledger_vote_ok cfg (v_view v) (v_voter v) v.
Proof.
  unfold vote_failure. intros Hv. split_ifs. bool_to_prop.
  split; try done. unfold verify_member.
  match goal with E : vote_keys _ !! _ = _ |- _ => by rewrite E end.
Qed.

Lemma elem_of_matching_votes ledger vote e :
  e ∈ matching_votes ledger vote ↔
  (∃ n, ledger !! n = Some e) ∧ v_proposal_digest e = v_proposal_digest vote ∧
  v_height e = v_height vote.
Proof.
  unfold matching_votes. rewrite list_elem_of_filter, list_elem_of_fmap.
  split.
  - intros [? ([n x] & -> & Hx%elem_of_in_order)]. eauto.
  - intros [[n Hn] ?]. split; [done|]. exists (n, e). by rewrite elem_of_in_order.
Qed.

Lemma timeout_failure_none cfg s t :
  timeout_failure cfg s t = None → ledger_timeout_ok cfg (t_view t) (t_voter t) t.
Proof.
  unfold timeout_failure. intros Hv. split_ifs. bool_to_prop.
  split; try done. unfold verify_member.
  match goal with E : vote_keys _ !! _ = _ |- _ => by rewrite E end.
Qed.

Lemma verify_member_is_member keys n d sig :
  verify_member keys n d sig = true → n ∈ dom keys.
Proof. unfold verify_member. intros Hv. case_match; [|done]. apply elem_of_dom. eauto. Qed.

Section ledgers.
Context {V : Type} (voter : V → NodeId).

(** A ledger filed by voter: its entries in order have distinct voters. *)
Lemma ledger_voters (ledger : gmap Z V) :
  (∀ n v, ledger !! n = Some v → voter v = n) →
  voter <$> (in_order ledger).*2 = (in_order ledger).*1.
Proof.
  intros Hv. rewrite <-list_fmap_compose. apply list_fmap_ext.
  intros i [n v] Hi. simpl. apply Hv.
  apply elem_of_in_order, list_elem_of_lookup. eauto.
Qed.

Lemma ledger_size (ledger : gmap Z V) (keys : gmap Z Ed25519PublicKey) :
  (∀ n v, ledger !! n = Some v → n ∈ dom keys) → (size ledger <= size keys)%nat.
Proof.
  intros Hm. rewrite <-!size_dom. apply subseteq_size. intros n Hn.
  apply elem_of_dom in Hn as [v Hv]. eauto.
Qed.
End ledgers.

Lemma NoDup_fmap_filter {A B} (f : A → B) (P : A → Prop) `{∀ x, Decision (P x)} l :
  NoDup (f <$> l) → NoDup (f <$> filter P l).
Proof. intros Hl. eapply sublist_NoDup; [done|]. apply fmap_sublist, sublist_filter. Qed.

(** A certificate formed from a ledger of verified votes is a valid one. *)
Lemma form_qc_accepted cfg view ledger vote :
  config_ok cfg →
  (∀ n v, ledger !! n = Some v → ledger_vote_ok cfg view n v) →
  ledger_vote_ok cfg view (v_voter vote) vote →
  quorum cfg <= Z.of_nat (length (matching_votes ledger vote)) →
  qc_accepted (qc_context cfg) (vote_keys cfg) (form_qc vote (matching_votes ledger vote)).
Proof.
  intros [_ _ Hmax] Hl Hv Hq.
  set (m := matching_votes ledger vote) in *.
  assert (Hm : ∀ e, e ∈ m → ∃ n, ledger !! n = Some e).
  { intros e He. apply elem_of_matching_votes in He. tauto. }
  assert (Hnd : NoDup (v_voter <$> m)).
  { apply NoDup_fmap_filter. rewrite (ledger_voters v_voter ledger).
    - apply NoDup_in_order.
    - intros n v E. apply (Hl n v E). }
  assert (Hnode : s_node_id <$> qc_signers (form_qc vote m) = v_voter <$> m).
  { simpl. by rewrite <-list_fmap_compose. }
  split; try (simpl; apply Hv); try done.
  - simpl. rewrite length_fmap. etrans; [|exact Hmax].
    apply inj_le. transitivity (size ledger).
    + rewrite <-length_in_order, <-(length_fmap snd). apply length_filter.
    + apply (ledger_size ledger (vote_keys cfg)). intros n v E.
      eapply verify_member_is_member. apply (Hl n v E).
  - intros n. unfold qc_voters. rewrite Hnode, elem_of_list_to_set, list_elem_of_fmap.
    intros (e & -> & He). destruct (Hm e He) as [n E]. pose proof (Hl _ _ E) as Hok.
    rewrite (lv_voter _ _ _ _ Hok). eapply verify_member_is_member, Hok.
  - unfold qc_voters. rewrite Hnode, size_list_to_set, length_fmap by done. done.
  - intros sg Hs%distinct_from_subset. simpl in Hs.
    apply list_elem_of_fmap in Hs as (e & -> & He). simpl.
    pose proof He as Hmatch. apply elem_of_matching_votes in Hmatch as ([n E] & Ed & Eh).
    destruct (Hl _ _ E) as [Ev Evw Er En Ee Es]. destruct Hv as [_ Hvw Hr Hn He' _].
    rewrite Ev. unfold qc_signer_digest. simpl. rewrite Hr, Hn, He', Hvw, <-Ed, <-Eh.
    unfold vote_signing_digest_of in Es. by rewrite Er, En, Ee, Evw, Ev in Es.
Qed.

Lemma form_tc_accepted cfg ledger vote :
  config_ok cfg →
  (∀ n t, ledger !! n = Some t → ledger_timeout_ok cfg (t_view vote) n t) →
  quorum cfg <= Z.of_nat (size ledger) →
  validate_timeout_certificate (form_tc cfg vote ledger) (qc_context cfg) (vote_keys cfg) = None.
Proof.
  intros [_ _ Hmax] Hl Hq.
  assert (Hnode : ts_node_id <$> tc_signers (form_tc cfg vote ledger) = (in_order ledger).*1).
  { simpl. rewrite <-list_fmap_compose. apply list_fmap_ext. by intros i [n t] _. }
  assert (Hsz : length (distinct_signers ts_node_id (tc_signers (form_tc cfg vote ledger)))
    = size ledger).
  { rewrite length_distinct_signers, Hnode, size_list_to_set by apply NoDup_in_order.
    by rewrite length_fmap, length_in_order. }
  assert (Hin : ∀ sg, sg ∈ tc_signers (form_tc cfg vote ledger) → ∃ t,
    ledger !! ts_node_id sg = Some t ∧ ts_high_qc_digest sg = t_high_qc_digest t ∧
    ts_signature sg = t_signature t).
  { intros sg ([n t] & -> & Hn%elem_of_in_order)%list_elem_of_fmap. simpl. eauto. }
  unfold validate_timeout_certificate. rewrite Hsz. cbn [form_tc tc_consensus_ruleset
    tc_network_id tc_epoch tc_view qc_context cx_consensus_ruleset cx_network_id cx_epoch
    cx_quorum]. rewrite !Z.eqb_refl. cbn [negb].
  assert (Hlen : Z.of_nat (length (tc_signers (form_tc cfg vote ledger))) <= kMaxQcSignatures).
  { simpl. rewrite length_fmap, length_in_order. etrans; [|exact Hmax].
    apply inj_le, (ledger_size ledger). intros n t E.
    eapply verify_member_is_member, (Hl n t E). }
  rewrite (proj2 (Z.ltb_ge _ _) Hlen), (proj2 (Z.ltb_ge _ _) Hq).
  rewrite (proj2 (existsb_false _ _)), (proj2 (existsb_false _ _)); [done| |].
  - intros sg Hs%distinct_from_subset. destruct (Hin sg Hs) as (t & E & -> & ->).
    apply negb_false_iff. destruct (Hl _ _ E) as [E1 E2 E3 E4 E5 E6].
    unfold timeout_vote_signing_digest_of in E6. by rewrite E1, E2, E3, E4, E5 in E6.
  - intros sg Hs. destruct (Hin sg Hs) as (t & E & _ & _).
    apply negb_false_iff, bool_decide_eq_true, elem_of_dom.
    eapply verify_member_is_member, (Hl _ _ E).
Qed.

Lemma ledgers_ok_insert cfg votes v :
  ledgers_ok cfg votes → ledger_vote_ok cfg (v_view v) (v_voter v) v →
  (∀ n w, <[ v_voter v := v ]> (default ∅ (votes !! v_view v)) !! n = Some w →
     ledger_vote_ok cfg (v_view v) n w) ∧
  ledgers_ok cfg (<[ v_view v := <[ v_voter v := v ]> (default ∅ (votes !! v_view v)) ]> votes).
Proof.
  intros Hl Hv.
  assert (Hn : ∀ n w, <[ v_voter v := v ]> (default ∅ (votes !! v_view v)) !! n = Some w →
     ledger_vote_ok cfg (v_view v) n w).
  { intros n w. rewrite lookup_insert. case_decide as Hd.
    - intros [= <-]. by subst n.
    - intros E. destruct (votes !! v_view v) as [ledger|] eqn:El; simpl in E;
        [by eapply Hl|by rewrite lookup_empty in E]. }
  split; [done|]. intros view ledger n w. rewrite lookup_insert. case_decide as Hd.
  - intros [= <-]. subst view. apply Hn.
  - apply Hl.
Qed.

Lemma timeouts_ok_insert cfg timeouts t :
  timeouts_ok cfg timeouts → ledger_timeout_ok cfg (t_view t) (t_voter t) t →
  (∀ n w, <[ t_voter t := t ]> (default ∅ (timeouts !! t_view t)) !! n = Some w →
     ledger_timeout_ok cfg (t_view t) n w) ∧
  timeouts_ok cfg
    (<[ t_view t := <[ t_voter t := t ]> (default ∅ (timeouts !! t_view t)) ]> timeouts).
Proof.
  intros Hl Hv.
  assert (Hn : ∀ n w, <[ t_voter t := t ]> (default ∅ (timeouts !! t_view t)) !! n = Some w →
     ledger_timeout_ok cfg (t_view t) n w).
  { intros n w. rewrite lookup_insert. case_decide as Hd.
    - intros [= <-]. by subst n.
    - intros E. destruct (timeouts !! t_view t) as [ledger|] eqn:El; simpl in E;
        [by eapply Hl|by rewrite lookup_empty in E]. }
  split; [done|]. intros view ledger n w. rewrite lookup_insert. case_decide as Hd.
  - intros [= <-]. subst view. apply Hn.
  - apply Hl.
Qed.

Lemma accepted_cert cfg c : qc_accepted (qc_context cfg) (vote_keys cfg) c → cert cfg c.
Proof.
  intros Ha. unfold cert, justify_acceptable. apply validate_qc_spec in Ha. rewrite Ha.
  apply orb_true_r.
Qed.

(** What a vote or a timeout may change besides the ledgers. *)
Record quiet (s s' : HotStuffService St) : Prop := mkQuiet {
  qu_store : store_ s' = store_ s;
  qu_failed : failed_ s' = failed_ s;
  qu_synced : synced_ s' = synced_ s;
  qu_voted : last_voted_view_ s' = last_voted_view_ s;
  qu_locked : locked_qc_ s' = locked_qc_ s;
  qu_blocks : blocks_ s' = blocks_ s;
}.

Lemma quiet_refl s : quiet s s.
Proof. by split. Qed.

Lemma receive_vote_ok cfg s v s' out :
  config_ok cfg → replica_ok cfg s → receive_vote cfg s v = (s', out) →
  replica_ok cfg s' ∧ quiet s s' ∧
  (∀ c, out = Formed c → qc_accepted (qc_context cfg) (vote_keys cfg) c ∧
     qc_view c = v_view v ∧ qc_proposal_digest c = v_proposal_digest v).
Proof.
  intros Hcfg Hok. unfold receive_vote.
  assert (Hid : replica_ok cfg s ∧ quiet s s) by (split; [done|apply quiet_refl]).
  destruct (vote_failure cfg s v) eqn:Hf; [by intros [= <- <-]|].
  apply vote_failure_none in Hf.
  destruct (default ∅ _ !! v_voter v) as [existing|] eqn:Ee.
  { destruct (_ =? _); [by intros [= <- <-]|]. intros [= <- <-].
    split; [|by split]. destruct Hok; by split. }
  destruct (ledgers_ok_insert cfg _ v (rk_ledgers _ _ Hok) Hf) as [Hl Hls].
  set (ledger := <[ v_voter v := v ]> _) in *.
  set (s1 := s <| votes_by_view_ := _ |>).
  assert (Hok1 : replica_ok cfg s1) by (destruct Hok; by split).
  assert (Hq1 : quiet s s1) by done.
  destruct (_ <? quorum cfg) eqn:Hlt; [by intros [= <- <-]|]. bool_to_prop.
  case_bool_decide; [by intros [= <- <-]|].
  pose proof (form_qc_accepted cfg (v_view v) ledger v Hcfg Hl Hf Hlt) as Hacc.
  set (c := form_qc v _) in *. pose proof (accepted_cert cfg c Hacc) as Hc.
  intros [= <- <-]. split; [|split].
  - match goal with |- replica_ok cfg (set_field _ _ (advance_high_qc ?x c)) =>
      assert (Hx : replica_ok cfg (advance_high_qc x c)) end.
    { apply replica_ok_advance; [|done]. destruct Hok1; split; try done.
      cbn. by apply qcs_ok_insert. }
    destruct Hx; by split.
  - match goal with |- context [advance_high_qc ?x c] =>
      destruct (advance_high_qc_eq x c) as (q & -> & _) end. done.
  - by intros ? [= <-].
Qed.

Lemma synchronize_view_eq cfg s :
  ∃ cv, synchronize_view cfg s = s <| current_view_ := cv |> ∧ current_view_ s <= cv.
Proof.
  unfold synchronize_view.
  assert (Hid : ∃ cv, s = s <| current_view_ := cv |> ∧ current_view_ s <= cv).
  { exists (current_view_ s). split; [by destruct s|lia]. }
  destruct (_ <? _); [done|]. destruct (_ <? _); [done|].
  eexists; split; [done|]. rewrite std_max_spec. lia.
Qed.

Lemma receive_timeout_ok cfg s t s' out :
  config_ok cfg → replica_ok cfg s → receive_timeout cfg s t = (s', out) →
  replica_ok cfg s' ∧ quiet s s' ∧
  (∀ c, out = Formed c →
     validate_timeout_certificate c (qc_context cfg) (vote_keys cfg) = None ∧
     tc_view c = t_view t).
Proof.
  intros Hcfg Hok. unfold receive_timeout.
  assert (Hid : replica_ok cfg s ∧ quiet s s) by (split; [done|apply quiet_refl]).
  destruct (timeout_failure cfg s t) eqn:Hf; [by intros [= <- <-]|].
  apply timeout_failure_none in Hf.
  destruct (default ∅ _ !! t_voter t); [by intros [= <- <-]|].
  destruct (timeouts_ok_insert cfg _ t (rk_timeouts _ _ Hok) Hf) as [Hl Hls].
  set (ledger := <[ t_voter t := t ]> _) in *.
  match goal with |- context [synchronize_view cfg ?x] =>
    destruct (synchronize_view_eq cfg x) as (cv & -> & _) end.
  match goal with |- context [formed_tcs_ ?x] => set (s1 := x) end.
  assert (Hok1 : replica_ok cfg s1) by (destruct Hok; by split).
  assert (Hq1 : quiet s s1) by by split.
  destruct (_ <? quorum cfg) eqn:Hlt; [by intros [= <- <-]|]. bool_to_prop.
  case_bool_decide; [by intros [= <- <-]|].
  intros [= <- <-]. split; [destruct Hok1; by split|]. split; [by split|].
  intros c [= <-]. split; [|done]. by apply form_tc_accepted.
Qed.

Lemma genesis_cert cfg : cert cfg (genesis_qc cfg).
Proof.
  unfold cert, justify_acceptable, is_genesis_justify, genesis_qc. simpl.
  by rewrite !Z.eqb_refl.
Qed.

Lemma certified_block_none cfg p j c :
  certified_block_failure cfg p j c = None →
  header_failure cfg p = None ∧ qc_digest j = p_justify_qc_digest p ∧
  p_parent_digest p = qc_proposal_digest j ∧ cert cfg j ∧
  qc_proposal_digest c = proposal_digest p ∧
  qc_accepted (qc_context cfg) (vote_keys cfg) c.
Proof.
  unfold certified_block_failure. intros Hn.
  destruct (header_failure cfg p); [done|].
  destruct (negb _) eqn:E1 in Hn; [done|]. destruct (negb _) eqn:E2 in Hn; [done|].
  destruct (negb _) eqn:E3 in Hn; [done|]. destruct (_ || _) eqn:E4 in Hn; [done|].
  bool_to_prop. case_match; [done|]. by rewrite <-validate_qc_spec.
Qed.

(** Taking a certified block into chain state, as catch-up and restore do. *)
Definition with_certified (s : HotStuffService St) (p : Proposal) (j c : QuorumCertificate)
    (payload : option BlockPayload) : HotStuffService St :=
  let d := proposal_digest p in
  s <| blocks_ := <[ d := mkBlock p j d payload ]> (blocks_ s) |>
    <| qc_by_block_ := <[ d := c ]> (<[ qc_proposal_digest j := j ]> (qc_by_block_ s)) |>
    <| accepted_by_view_ := <[ p_view p := d ]> (accepted_by_view_ s) |>.

Lemma replica_ok_with_certified cfg s p j c payload :
  replica_ok cfg s → certified_block_failure cfg p j c = None →
  replica_ok cfg (with_certified s p j c payload).
Proof.
  intros [Hb Hq Hl Ht Hh Hk] (Hhd & Hj & Hp & Hc & Hd & Ha)%certified_block_none.
  unfold with_certified. split; cbn; try done.
  - apply blocks_ok_insert; [done|]. by split.
  - rewrite <-Hd. apply qcs_ok_insert; [|by apply accepted_cert]. by apply qcs_ok_insert.
Qed.

Lemma adopt_block_eq s p j c :
  ∃ q payload, adopt_block s p j c (proposal_digest p) =
    with_certified s p j c payload <| high_qc_ := q |> ∧
    (q = high_qc_ s ∨ q = j ∨ q = c).
Proof.
  unfold adopt_block. cbv zeta.
  match goal with |- context [advance_high_qc (advance_high_qc ?x j) c] =>
    destruct (advance_high_qc_eq x j) as (q & -> & Hq & _) end.
  match goal with |- context [advance_high_qc ?x c] =>
    destruct (advance_high_qc_eq x c) as (q' & -> & Hq' & _) end.
  exists q', (blocks_ s !! proposal_digest p ≫= b_payload). split; [done|].
  destruct Hq' as [-> | ->]; [auto|]. cbn. destruct Hq as [-> | ->]; auto.
Qed.

(** What a catch-up step may change. *)
Record catch_up (s s' : HotStuffService St) : Prop := mkCatchUp {
  cu_failed : failed_ s' = failed_ s;
  cu_synced : synced_ s' = synced_ s;
  cu_voted : last_voted_view_ s' = last_voted_view_ s;
  cu_locked : qc_view (locked_qc_ s) <= qc_view (locked_qc_ s');
  cu_store : store_ s' = store_ s ∨ ∃ c, store_ s' = (store_commit c (store_ s)).2;
}.

Lemma adopt_certified_block_ok cfg s p j c commits s' f commits' :
  replica_ok cfg s → adopt_certified_block cfg s p j c commits = (s', f, commits') →
  replica_ok cfg s' ∧ catch_up s s'.
Proof.
  intros Hok. unfold adopt_certified_block.
  assert (Hid : catch_up s s) by (split; try done; by left).
  destruct (failed_ s) eqn:Hfail; [by intros [= <- _ _]|].
  destruct (certified_block_failure cfg p j c) eqn:Hcb; [by intros [= <- _ _]|].
  match goal with |- context [match ?l with Some _ => _ | None => _ end] =>
    destruct l; [by intros [= <- _ _]|] end.
  match goal with |- context [if ?b then (s, Some Equivocation, _) else _] =>
    destruct b; [by intros [= <- _ _]|] end.
  match goal with |- context [if ?b then (s, Some PendingLimit, _) else _] =>
    destruct b; [by intros [= <- _ _]|] end.
  match goal with |- context [adopt_block ?x _ _ _ _] => set (s1 := x) end.
  assert (Hs1 : ∃ a, s1 = s <| anchor_adopted_ := a |>).
  { unfold s1. case_match; eexists; [done|]. instantiate (1 := anchor_adopted_ s).
    by destruct s. }
  clearbody s1. destruct Hs1 as [a ->].
  destruct (adopt_block_eq (s <| anchor_adopted_ := a |>) p j c) as (q & payload & -> & Hq).
  match goal with |- context [apply_chain_rules cfg ?x c _] => set (s2 := x) end.
  assert (Hok2 : replica_ok cfg s2).
  { pose proof (certified_block_none _ _ _ _ Hcb) as (_ & _ & _ & Hj & _ & Ha).
    assert (Hok1 : replica_ok cfg (s <| anchor_adopted_ := a |>)) by (destruct Hok; by split).
    destruct (replica_ok_with_certified cfg _ p j c payload Hok1 Hcb) as [? ? ? ? ? ?].
    split; try done. cbn. destruct Hq as [-> | [-> | ->]]; [apply Hok|done|].
    by apply accepted_cert. }
  destruct (apply_chain_rules cfg s2 c commits) as [s3 commits3] eqn:Ea.
  apply apply_chain_rules_effect in Ea. intros [= <- _ _].
  split; [by eapply replica_ok_chain_effect|]. destruct Ea. by split.
Qed.

Lemma restore_blocks_ok cfg s chain closing previous :
  replica_ok cfg s →
  let s' := restore_blocks cfg s chain closing previous in
  replica_ok cfg s' ∧ failed_ s' = failed_ s ∧ last_voted_view_ s' = last_voted_view_ s ∧
  locked_qc_ s' = locked_qc_ s ∧ store_ s' = store_ s.
Proof.
  revert s previous. induction chain as [|[p j] chain IH]; intros s previous Hok; [done|].
  cbn [restore_blocks]. set (c := match chain with [] => closing | _ => _ end).
  destruct (certified_block_failure cfg p j c) eqn:Hcb; [done|].
  match goal with |- context [if negb ?b then s else _] => destruct (negb b); [done|] end.
  match goal with |- context [if ?b then s else _] => destruct b; [done|] end.
  change (s <| blocks_ := _ |> <| qc_by_block_ := _ |> <| qc_by_block_ := _ |>
            <| accepted_by_view_ := _ |>) with (with_certified s p j c None).
  assert (Hok1 : replica_ok cfg (advance_high_qc (with_certified s p j c None) c)).
  { apply replica_ok_advance; [by apply replica_ok_with_certified|].
    apply certified_block_none in Hcb. apply accepted_cert, Hcb. }
  destruct (advance_high_qc_eq (with_certified s p j c None) c) as (q & E & _).
  rewrite E in *. edestruct IH as (H1 & H2 & H3 & H4 & H5);
    [|split; [exact H1|]; split_and!; [exact H2|exact H3|exact H4|exact H5]].
  destruct Hok1; by split.
Qed.

(** The state a restart may rely on. *)
Definition disk_ok (cfg : HotStuffConfig) (store : St) : Prop :=
  ∀ st, load (epoch cfg) store = inl st → cert cfg (st_high_qc st) ∧ cert cfg (st_locked_qc st).

Lemma new_service_ok cfg store s :
  disk_ok cfg store → new_service cfg store = Some s →
  replica_ok cfg s ∧ store_ s = store ∧
  (failed_ s = true ∨
   (load (epoch cfg) store = inr Absent ∧ last_voted_view_ s = 0 ∧ locked_qc_ s = genesis_qc cfg) ∨
   ∃ st, load (epoch cfg) store = inl st ∧ last_voted_view_ s = st_last_voted_view st ∧
     locked_qc_ s = st_locked_qc st).
Proof.
  intros Hd. unfold new_service.
  case_match; [done|]. destruct (quorum cfg =? 0); [done|].
  assert (Hinit : replica_ok cfg (initial_service cfg store)).
  { split; cbn; try apply genesis_cert; intros ? **; simplify_map_eq. }
  assert (Hinit' : ∀ b, replica_ok cfg (initial_service cfg store <| synced_ := b |>)).
  { intros b. destruct Hinit. by split. }
  destruct (load (epoch cfg) store) as [st|[]] eqn:El.
  - destruct (_ || _).
    { intros [= <-]. split; [destruct Hinit; by split|]. split; [done|by left]. }
    destruct (Hd st El) as [Hhigh Hlock].
    set (s0 := initial_service cfg store <| last_voted_view_ := _ |>
                 <| high_qc_ := _ |> <| locked_qc_ := _ |>).
    assert (Hok0 : replica_ok cfg s0) by (destruct Hinit; by split).
    assert (Hr : let s' := restore_stored_chain cfg s0 in
      replica_ok cfg s' ∧ failed_ s' = failed_ s0 ∧ last_voted_view_ s' = last_voted_view_ s0 ∧
      locked_qc_ s' = locked_qc_ s0 ∧ store_ s' = store_ s0).
    { unfold restore_stored_chain. destruct (load_chain _ _); [|done].
      by apply restore_blocks_ok. }
    intros [= <-]. destruct Hr as ([] & _ & Hv & Hl & Hs).
    split; [by split|]. split; [exact Hs|]. right. right. eauto.
  - intros [= <-]. split; [apply Hinit'|]. split; [done|]. right. left. done.
  - intros [= <-]. split; [destruct Hinit; by split|]. split; [done|by left].
Qed.
End inv.
