(* ===== verification/HotStuffRuns.v ===== *)
(** * Runs of one replica and the votes it casts

    A run is any sequence of the replica's methods on any messages, with
    crashes and restarts in between, from an epoch with no stored safety state.
    Beside the replica's state the run keeps the log of the votes that left the
    node, newest first, each with the lock the replica held and the blocks it
    knew when it voted.

    [VoteLog] is the abstract specification of a correct voter: at most one vote
    per view, in increasing order; the lock never regresses; each vote is safe
    with respect to the lock; the lock covers the grandparent certificate. The
    refinement theorem [run_refines_vote_log] shows that every run of the
    replica, through every crash and restart, meets it. *)

From S2P Require Import Prelude SecurityPolicy CanonicalEncoding ConsensusTypes QuorumValidation HotStuff HotStuffInvariants.

(** * View synchronization

    [HotStuffService::synchronize_view]: a replica jumps to a higher view only
    when [members - quorum + 1] distinct members (one more than may be faulty)
    hold verified timeouts for that view or a higher one, so at least one
    correct member reached it. *)

(** Node [n] holds a timeout of view [v] in the ledgers. *)
Definition timed_out (timeouts : gmap Z (gmap Z TimeoutVote)) (v : View) (n : NodeId) : Prop :=
  ∃ ledger, timeouts !! v = Some ledger ∧ n ∈ dom ledger.

Lemma sorted_nth_count (l : list View) i :
  StronglySorted view_ge l → (i < length l)%nat →
  (S i <= length (filter (λ v, (nth i l 0 <= v)%Z) l))%nat.
Proof.
  revert i. induction l as [|x l IH]; intros i Hs Hi; simpl in Hi; [lia|].
  inversion Hs as [|? ? Hs' Hx]; subst. rewrite filter_cons.
  destruct i as [|i]; simpl.
  - rewrite decide_True by lia. simpl. lia.
  - rewrite decide_True; [simpl; apply le_n_S, IH; [done|lia]|].
    rewrite Forall_forall in Hx. apply Hx, list_elem_of_In, nth_In. lia.
Qed.

Section sync.
Context {St : Type} `{Sodium}.
Implicit Types (s : HotStuffService St) (cfg : HotStuffConfig).

Lemma fold_ledger_lookup view (l : list (Z * TimeoutVote)) (acc : gmap Z View) n v :
  foldl (λ acc '(node, _), <[ node := view ]> acc) acc l !! n = Some v →
  acc !! n = Some v ∨ (v = view ∧ n ∈ l.*1).
Proof.
  revert acc. induction l as [|[m t] l IH]; intros acc; simpl; [by left|].
  intros [E|[-> Hn]]%IH.
  - rewrite lookup_insert in E. case_decide; [|by left]. right. split; [congruence|].
    apply elem_of_cons. left. congruence.
  - right. split; [done|]. apply elem_of_cons. by right.
Qed.

Lemma highest_timeouts_spec s n v :
  highest_timeouts s !! n = Some v → timed_out (timeouts_by_view_ s) v n.
Proof.
  unfold highest_timeouts.
  set (l := filter _ (in_order (timeouts_by_view_ s))).
  assert (Hl : ∀ view ledger, (view, ledger) ∈ l → timeouts_by_view_ s !! view = Some ledger).
  { intros view ledger [_ Hin]%list_elem_of_filter. by apply elem_of_in_order. }
  clearbody l. assert (Hacc : ∀ v, (∅ : gmap Z View) !! n = Some v → timed_out (timeouts_by_view_ s) v n)
    by (intros ? E; by rewrite lookup_empty in E).
  revert Hacc. generalize (∅ : gmap Z View) as acc.
  induction l as [|[view ledger] l IH]; intros acc Hacc; simpl; [apply Hacc|].
  apply IH.
  - intros view' ledger' Hin. apply Hl, elem_of_cons. by right.
  - intros v' [E|[-> Hn]]%fold_ledger_lookup; [by apply Hacc|].
    exists ledger. split; [apply Hl, elem_of_cons; by left|].
    apply list_elem_of_fmap in Hn as ([m t] & -> & Ht%elem_of_in_order).
    apply elem_of_dom. eauto.
Qed.

(** The members whose highest timeout is at least [x]. *)
Definition supporters s (x : View) : gset Z :=
  dom (filter (λ kv, x <= kv.2) (highest_timeouts s)).

Lemma length_filter_snd (x : View) (l : list (Z * View)) :
  length (filter (λ v, x <= v) l.*2) = length (filter (λ kv, x <= kv.2) l).
Proof.
  induction l as [|[n v] l IH]; [reflexivity|]. rewrite fmap_cons, !filter_cons. simpl.
  case_decide; simpl; [f_equal|]; exact IH.
Qed.

Lemma size_supporters s x :
  size (supporters s x) =
  length (filter (λ v, x <= v) (merge_sort view_ge ((in_order (highest_timeouts s)).*2))).
Proof.
  unfold supporters. rewrite size_dom, merge_sort_Permutation, in_order_perm.
  generalize (highest_timeouts s) as m. intros m. symmetry.
  rewrite <-length_map_to_list, map_filter_alt, map_to_list_to_map
    by (apply NoDup_fmap_filter, NoDup_fst_map_to_list).
  apply length_filter_snd.
Qed.

#[local] Instance view_ge_total : Total view_ge.
Proof. intros x y. unfold view_ge. lia. Qed.

#[local] Instance view_ge_trans : Transitive view_ge.
Proof. intros x y z. unfold view_ge. lia. Qed.

Lemma synchronize_view_supported cfg s :
  current_view_ s < current_view_ (synchronize_view cfg s) →
  Z.of_nat (length (leader_order cfg)) - quorum cfg + 1 <=
    Z.of_nat (size (supporters s (current_view_ (synchronize_view cfg s)))) ∧
  ∀ n, n ∈ supporters s (current_view_ (synchronize_view cfg s)) → ∃ v,
    current_view_ (synchronize_view cfg s) <= v ∧ timed_out (timeouts_by_view_ s) v n.
Proof.
  unfold synchronize_view.
  destruct (Z.ltb_spec (Z.of_nat (length (leader_order cfg))) (quorum cfg)) as [|Hq]; [lia|].
  set (w := Z.of_nat (length (leader_order cfg)) - quorum cfg + 1).
  destruct (Z.ltb_spec (Z.of_nat (size (highest_timeouts s))) w) as [|Hw]; [lia|].
  set (views := merge_sort view_ge _). cbn. rewrite std_max_spec.
  intros Hlt. rewrite Z.max_r by lia. set (x := nth (Z.to_nat (w - 1)) views 0) in *.
  assert (Hlen : length views = size (highest_timeouts s)).
  { unfold views. rewrite merge_sort_Permutation, length_fmap. apply length_in_order. }
  split.
  - rewrite size_supporters. fold views.
    pose proof (sorted_nth_count views (Z.to_nat (w - 1))) as Hc. fold x in Hc.
    assert (Hs : StronglySorted view_ge views).
    { unfold views. apply (StronglySorted_merge_sort view_ge). }
    specialize (Hc Hs ltac:(lia)). lia.
  - intros n. unfold supporters. rewrite elem_of_dom.
    intros [v [Hv Hx]%map_lookup_filter_Some]. exists v.
    split; [done|]. by apply highest_timeouts_spec.
Qed.
End sync.

(** The validators of a configuration may answer differently on every call;
    the rest of it is frozen for the epoch. *)
Definition with_validators (cfg : HotStuffConfig) (tv : option (Digest → bool))
    (pv : option (Proposal → BlockPayload → bool)) : HotStuffConfig :=
  mkConfig (security_ruleset cfg) (consensus_ruleset cfg) (network_id cfg) (epoch cfg)
    (genesis_digest cfg) (leader_order cfg) (vote_keys cfg) (quorum cfg) (self cfg) tv pv.

Record VoteRec := mkVoteRec {
  w_proposal : Proposal;
  w_justify : QuorumCertificate;
  w_lock : QuorumCertificate;
  w_blocks : gmap Z BlockRecord;
}.

(** The blocks a replica judges a proposal with: what it holds, and the block. *)
Definition judged_blocks `{Sodium} (blocks : gmap Z BlockRecord) (p : Proposal)
    (j : QuorumCertificate) : gmap Z BlockRecord :=
  <[ proposal_digest p := mkBlock p j (proposal_digest p) None ]> blocks.

Definition w_judged `{Sodium} (w : VoteRec) : gmap Z BlockRecord :=
  judged_blocks (w_blocks w) (w_proposal w) (w_justify w).

(** [reaches B target d]: following parent digests through [B] from [d] gets
    to [target]. *)
Inductive reaches (B : gmap Z BlockRecord) (target : Digest) : Digest → Prop :=
  | reaches_here : reaches B target target
  | reaches_up d r :
      B !! d = Some r → reaches B target (p_parent_digest (b_proposal r)) → reaches B target d.

Section runs.
Context {St : Type} `{Sodium, IConsensusStore St}.
Context (storable : HotStuffState → Prop).

Definition logged (out : option ProposalResult) (s s' : HotStuffService St) (p : Proposal)
    (j : QuorumCertificate) : list VoteRec :=
  match out ≫= r_vote with
  | Some _ => [mkVoteRec p j (locked_qc_ s') (blocks_ s)]
  | None => []
  end.

(** The state a voting step writes; its fields fit their C++ types. *)
Definition pending_state (cfg : HotStuffConfig) (s' : HotStuffService St) (p : Proposal)
    : HotStuffState :=
  mkState (epoch cfg) (consensus_ruleset cfg) (p_view p) (high_qc_ s') (locked_qc_ s').

Inductive run (cfg : HotStuffConfig) (key : EpochVoteKey)
    : list VoteRec → HotStuffService St → Prop :=
  | run_start store s :
      load (epoch cfg) store = inr Absent → new_service cfg store = Some s →
      run cfg key [] s
  | run_proposal log s tv pv p j payload s' out :
      run cfg key log s →
      receive_proposal (with_validators cfg tv pv) key s p j payload = (s', out) →
      storable (pending_state cfg s' p) →
      run cfg key (logged out s s' p j ++ log) s'
  | run_vote log s v s' out :
      run cfg key log s → receive_vote cfg s v = (s', out) → run cfg key log s'
  | run_timeout log s t s' out :
      run cfg key log s → receive_timeout cfg s t = (s', out) → run cfg key log s'
  | run_adopt log s p j c commits s' f commits' :
      run cfg key log s → adopt_certified_block cfg s p j c commits = (s', f, commits') →
      run cfg key log s'
  | run_sync log s floor :
      run cfg key log s → run cfg key log (sync_to_certified s floor)
  | run_orphan log s s' o :
      run cfg key log s → take_linkable_orphan cfg s = (s', o) → run cfg key log s'
  | run_restart log s store s' :
      run cfg key log s → load (epoch cfg) store = load (epoch cfg) (store_ s) →
      new_service cfg store = Some s' → run cfg key log s'
  | run_crash log s tv pv p j payload s' out store s'' :
      run cfg key log s →
      receive_proposal (with_validators cfg tv pv) key s p j payload = (s', out) →
      storable (pending_state cfg s' p) →
      load (epoch cfg) store = load (epoch cfg) (store_ s') →
      new_service cfg store = Some s'' → run cfg key log s''.

(** ** The specification of a correct voter *)

Record vote_ok (cfg : HotStuffConfig) (w : VoteRec) : Prop := mkVoteOk {
  vo_header : header_failure cfg (w_proposal w) = None;
  vo_commits : qc_digest (w_justify w) = p_justify_qc_digest (w_proposal w);
  vo_parent : p_parent_digest (w_proposal w) = qc_proposal_digest (w_justify w);
  vo_justify : cert cfg (w_justify w);
  vo_lock : cert cfg (w_lock w);
  vo_view : qc_view (w_justify w) +64 1 <= p_view (w_proposal w);
  vo_blocks : blocks_ok cfg (w_blocks w);
  vo_height : (p_parent_digest (w_proposal w) = genesis_digest cfg ∧
      p_height (w_proposal w) = 1) ∨
    ∃ r, w_blocks w !! p_parent_digest (w_proposal w) = Some r ∧
      p_height (w_proposal w) = p_height (b_proposal r) +64 1;
  vo_safe : qc_proposal_digest (w_lock w) = genesis_digest cfg ∨
    reaches (w_judged w) (qc_proposal_digest (w_lock w)) (p_parent_digest (w_proposal w)) ∨
    qc_view (w_lock w) < qc_view (w_justify w);
  vo_locks_parent : p_parent_digest (w_proposal w) = genesis_digest cfg ∨
    ∃ r, w_judged w !! p_parent_digest (w_proposal w) = Some r ∧
      qc_view (b_justify r) <= qc_view (w_lock w);
}.

Definition votes_before (w' w : VoteRec) : Prop :=
  p_view (w_proposal w') < p_view (w_proposal w) ∧ qc_view (w_lock w') <= qc_view (w_lock w).

Record VoteLog (cfg : HotStuffConfig) (log : list VoteRec) : Prop := mkVoteLog {
  vl_each : Forall (vote_ok cfg) log;
  vl_order : StronglySorted (λ w w', votes_before w' w) log;
  vl_positive : Forall (λ w, 0 < p_view (w_proposal w)) log;
}.

(** ** The run invariant *)

Definition bounded_by (view : View) (lock : QuorumCertificate) (log : list VoteRec) : Prop :=
  Forall (λ w, p_view (w_proposal w) <= view ∧ qc_view (w_lock w) <= qc_view lock) log.

Definition disk_bounds (cfg : HotStuffConfig) (store : St) (log : list VoteRec) : Prop :=
  match load (epoch cfg) store with
  | inl st => cert cfg (st_high_qc st) ∧ cert cfg (st_locked_qc st) ∧
      0 <= st_last_voted_view st ∧ bounded_by (st_last_voted_view st) (st_locked_qc st) log
  | inr Absent => log = []
  | inr Corrupt => True
  end.

Record run_inv (cfg : HotStuffConfig) (log : list VoteRec) (s : HotStuffService St) : Prop :=
  mkRunInv {
  ri_ok : replica_ok cfg s;
  ri_log : VoteLog cfg log;
  ri_memory : failed_ s = true ∨
    (0 <= last_voted_view_ s ∧ bounded_by (last_voted_view_ s) (locked_qc_ s) log);
  ri_disk : disk_bounds cfg (store_ s) log;
}.

(** ** Lemmas *)

Lemma walk_reaches fuel B genesis locked d :
  walk_to_locked fuel B genesis locked d = Some true → reaches B locked d.
Proof.
  revert d. induction fuel as [|fuel IH]; intros d; simpl; [done|].
  destruct (Z.eqb_spec d locked) as [->|]; [constructor|].
  destruct (d =? genesis); [done|].
  destruct (B !! d) as [r|] eqn:E; [|done].
  intros Hw. econstructor; [done|]. by apply IH.
Qed.

Lemma reaches_mono B B' target d :
  (∀ k r, B !! k = Some r → ∃ r', B' !! k = Some r' ∧ b_proposal r' = b_proposal r) →
  reaches B target d → reaches B' target d.
Proof.
  intros Hsub. induction 1 as [|d r Hr _ IH]; [constructor|].
  destruct (Hsub _ _ Hr) as (r' & Hr' & E). econstructor; [done|]. by rewrite E.
Qed.

(** The blocks after accepting a proposal are those of [judged_blocks], up to
    the payload. *)
Lemma accept_block_judged (s : HotStuffService St) p j payload k r :
  blocks_ (accept_block s p j (proposal_digest p) payload) !! k = Some r →
  ∃ r', judged_blocks (blocks_ s) p j !! k = Some r' ∧ b_proposal r' = b_proposal r ∧
    b_justify r' = b_justify r.
Proof.
  unfold accept_block. cbv zeta.
  match goal with |- context [advance_high_qc ?x j] =>
    destruct (advance_high_qc_eq x j) as (q & -> & _) end.
  cbn. unfold judged_blocks. rewrite !lookup_insert.
  case_decide; [|eauto]. intros [= <-]. by eexists.
Qed.

Lemma accept_block_frame (s : HotStuffService St) p j d payload :
  let s' := accept_block s p j d payload in
  locked_qc_ s' = locked_qc_ s ∧ last_voted_view_ s' = last_voted_view_ s ∧
  store_ s' = store_ s ∧ failed_ s' = failed_ s ∧
  is_Some (blocks_ s' !! d) ∧ (∀ k r, blocks_ s !! k = Some r → is_Some (blocks_ s' !! k)).
Proof.
  unfold accept_block. cbv zeta.
  match goal with |- context [advance_high_qc ?x j] =>
    destruct (advance_high_qc_eq x j) as (q & -> & _) end.
  cbn. split_and!; try done.
  - rewrite lookup_insert_eq. eauto.
  - intros k r Hk. rewrite lookup_insert. case_decide; [eauto|]. rewrite Hk. eauto.
Qed.

Lemma parent_links_known (cfg : HotStuffConfig) (s : HotStuffService St) p :
  parent_verdict cfg s p = ParentLinks →
  (p_parent_digest p = genesis_digest cfg ∧ p_height p = 1) ∨
  ∃ r, blocks_ s !! p_parent_digest p = Some r ∧ p_height p = p_height (b_proposal r) +64 1.
Proof.
  unfold parent_verdict. destruct (Z.eqb_spec (p_parent_digest p) (genesis_digest cfg)).
  { destruct (Z.eqb_spec (p_height p) 1); [auto|done]. }
  destruct (blocks_ s !! _) as [r|]; [|done].
  destruct (Z.eqb_spec (p_height p) (p_height (b_proposal r) +64 1)); [eauto|done].
Qed.

(** The validators play no part in the invariant. *)
Lemma record_ok_validators cfg tv pv d r :
  record_ok (with_validators cfg tv pv) d r ↔ record_ok cfg d r.
Proof. by split; intros []; split. Qed.

Lemma replica_ok_validators cfg tv pv (s : HotStuffService St) :
  replica_ok (with_validators cfg tv pv) s ↔ replica_ok cfg s.
Proof.
  split; intros [Hb Hq Hl Ht Hh Hk]; split; try done;
    try (intros d r E; by apply (record_ok_validators cfg tv pv), Hb);
    intros view ledger n v E E';
    first [by destruct (Hl _ _ _ _ E E'); split | by destruct (Ht _ _ _ _ E E'); split].
Qed.

Lemma bounded_by_mono view view' lock lock' log :
  view <= view' → qc_view lock <= qc_view lock' →
  bounded_by view lock log → bounded_by view' lock' log.
Proof. intros ?? Hb. eapply Forall_impl; [exact Hb|]. intros w []. cbn in *. lia. Qed.

Lemma disk_bounds_load cfg (store store' : St) log :
  load (epoch cfg) store' = load (epoch cfg) store →
  disk_bounds cfg store log → disk_bounds cfg store' log.
Proof. unfold disk_bounds. by intros ->. Qed.

Lemma disk_bounds_ok cfg (store : St) log : disk_bounds cfg store log → disk_ok cfg store.
Proof. unfold disk_bounds. intros Hd st E. rewrite E in Hd. tauto. Qed.

Context `{!ConsensusStoreLaws St storable}.

Lemma chain_writes_load cfg e (st1 st : St) :
  (st1 = st ∨ ∃ rec, st1 = (store_chain (epoch cfg) rec st).2) → load e st1 = load e st.
Proof. intros [-> | [rec ->]]; [done|]. apply store_chain_load. Qed.

Lemma commit_writes_load e (st1 st : St) :
  (st1 = st ∨ ∃ c, st1 = (store_commit c st).2) → load e st1 = load e st.
Proof. intros [-> | [c ->]]; [done|]. apply store_commit_load. Qed.

(** What a vote that passed every check records. *)
Lemma accepted_vote_ok cfg (s s1 s2 s' : HotStuffService St) p j payload commits st' sq :
  replica_ok cfg s → header_failure cfg p = None →
  qc_digest j = p_justify_qc_digest p → p_parent_digest p = qc_proposal_digest j →
  cert cfg j → qc_view j +64 1 <= p_view p → parent_verdict cfg s p = ParentLinks →
  blocks_ s1 = blocks_ s →
  apply_chain_rules cfg (accept_block s1 p j (proposal_digest p) payload) j [] = (s2, commits) →
  safe_node cfg s2 p j → replica_ok cfg s' →
  s' = s2 <| store_ := st' |> <| stored_chain_qc_ := sq |> <| last_voted_view_ := p_view p |> →
  vote_ok cfg (mkVoteRec p j (locked_qc_ s') (blocks_ s)).
Proof.
  intros Hok Hh Hj Hp Hc Hv Hpv Eb Ha [_ Hsafe] Hok' ->.
  apply apply_chain_rules_effect in Ha as Heff.
  split; cbn; try done.
  - apply Hok'.
  - apply Hok.
  - by apply parent_links_known.
  - destruct Hsafe as [Hext|]; [|by right; right].
    unfold extends_locked in Hext.
    destruct (Z.eqb_spec (qc_proposal_digest (locked_qc_ s2)) (genesis_digest cfg)); [by left|].
    right. left. destruct (walk_to_locked _ _ _ _ _) as [[]|] eqn:Ew; try done.
    apply walk_reaches in Ew. eapply reaches_mono; [|exact Ew].
    intros k r Hr.
    pose proof (lookup_weaken _ _ _ _ Hr (ce_blocks _ _ _ Heff)) as Hr'.
    apply accept_block_judged in Hr'. rewrite <-Eb. naive_solver.
  - destruct (parent_links_known _ _ _ Hpv) as [[]|(r & Hr & _)]; [by left|right].
    unfold w_judged. cbn.
    destruct (accept_block_frame s1 p j (proposal_digest p) payload) as (_ & _ & _ & _ & _ & Hkeep).
    rewrite <-Eb in Hr. destruct (Hkeep _ _ Hr) as [r' Hr'].
    destruct (accept_block_judged _ _ _ _ _ _ Hr') as (r2 & Hr2 & _ & Ej). rewrite Eb in Hr2.
    exists r2. split; [done|]. rewrite Ej. rewrite Hp in Hr'.
    apply (ce_lock_parent _ _ _ Heff _ Hr').
Qed.

(** The state the voting step starts from, once the block is in. *)
Lemma accepted_frame cfg (s s1 s2 : HotStuffService St) p j payload commits :
  s1 = s <| current_view_ := std_max (current_view_ s) (qc_view j +64 1) |> →
  apply_chain_rules cfg (accept_block s1 p j (proposal_digest p) payload) j [] = (s2, commits) →
  last_voted_view_ s2 = last_voted_view_ s ∧ qc_view (locked_qc_ s) <= qc_view (locked_qc_ s2) ∧
  failed_ s2 = failed_ s ∧ ∀ e, load e (store_ s2) = load e (store_ s).
Proof.
  intros -> Ha%apply_chain_rules_effect.
  match type of Ha with chain_effect _ (accept_block ?x _ _ _ _) _ =>
    destruct (accept_block_frame x p j (proposal_digest p) payload) as (El & Ev & Es & Ef & _) end.
  cbn in El, Ev, Es, Ef. split_and!.
  - by rewrite (ce_voted _ _ _ Ha).
  - rewrite <-El. apply Ha.
  - by rewrite (ce_failed _ _ _ Ha).
  - intros e. rewrite <-Es. apply commit_writes_load, Ha.
Qed.

(** Extending a log by a vote above everything in it. *)
Lemma vote_log_cons cfg log w view lock :
  VoteLog cfg log → vote_ok cfg w → bounded_by view lock log →
  0 <= view < p_view (w_proposal w) → qc_view lock <= qc_view (w_lock w) →
  VoteLog cfg (w :: log) ∧ bounded_by (p_view (w_proposal w)) (w_lock w) (w :: log).
Proof.
  intros [He Ho Hp] Hw Hb Hv Hl. split.
  - split; constructor; try done; [|lia].
    eapply Forall_impl; [exact Hb|]. intros w' []. split; lia.
  - constructor; [lia|]. eapply bounded_by_mono; [..|exact Hb]; lia.
Qed.

(** A voting step keeps the invariant, whether the vote leaves the node or
    dies with it. *)
Lemma run_inv_vote_step cfg log (s s1 s2 s' : HotStuffService St) p j payload commits vote :
  run_inv cfg log s → failed_ s = false → replica_ok cfg s' →
  header_failure cfg p = None → qc_digest j = p_justify_qc_digest p →
  p_parent_digest p = qc_proposal_digest j → cert cfg j → qc_view j +64 1 <= p_view p →
  parent_verdict cfg s p = ParentLinks →
  s1 = s <| current_view_ := std_max (current_view_ s) (qc_view j +64 1) |> →
  apply_chain_rules cfg (accept_block s1 p j (proposal_digest p) payload) j [] = (s2, commits) →
  cert cfg (high_qc_ s2) → cert cfg (locked_qc_ s2) →
  vote_step cfg s2 p j (proposal_digest p) s' vote → storable (pending_state cfg s' p) →
  let w := mkVoteRec p j (locked_qc_ s') (blocks_ s) in
  run_inv cfg log s' ∧ (is_Some vote → run_inv cfg (w :: log) s').
Proof.
  intros [Hok Hlog Hmem Hdisk] Hf Hok' Hh Hj Hp Hc Hv Hpv Es1 Ha Hhigh Hlock Hvs Hst w.
  destruct (accepted_frame cfg s s1 s2 p j payload commits Es1 Ha) as (Elv & Hlm & Ef & Eload).
  destruct Hmem as [?|[Hpos Hmem]]; [congruence|].
  assert (Hmem2 : bounded_by (last_voted_view_ s2) (locked_qc_ s2) log).
  { rewrite Elv. eapply bounded_by_mono; [..|exact Hmem]; [lia|done]. }
  assert (Hnew : ∀ st' : St, load (epoch cfg) st' = inl (pending_state cfg s2 p) →
    last_voted_view_ s2 < p_view p → disk_bounds cfg st' log).
  { intros st' E Hlt. unfold disk_bounds. rewrite E. cbn. split_and!; try done; [lia|].
    eapply bounded_by_mono; [..|exact Hmem2]; lia. }
  destruct Hvs as [st' sq -> -> Hw | st1 st' sq Hw Esb -> -> [Hlt _]
                  | st1 st' sq Hw Esb Es' Hsafe _].
  - split; [|by intros []]. split; cbn; try done.
    + right. split; [lia|done].
    + eapply disk_bounds_load; [|exact Hdisk].
      rewrite (chain_writes_load cfg (epoch cfg) st' _ Hw). apply Eload.
  - split; [|by intros []]. split; cbn; try done.
    + right. split; [lia|done].
    + destruct (store_before_vote_false _ _ _ Hst Esb) as [E|E].
      * eapply disk_bounds_load; [|exact Hdisk]. cbn in E. rewrite E.
        rewrite (chain_writes_load cfg (epoch cfg) st1 _ Hw). apply Eload.
      * by apply Hnew.
  - pose proof (proj1 Hsafe) as Hlt.
    assert (Hwok : vote_ok cfg w).
    { apply (accepted_vote_ok cfg s s1 s2 s' p j payload commits st' sq); try done.
      by rewrite Es1. }
    rewrite Es' in Hst.
    apply store_before_vote_true in Esb; [|done]. cbn in Esb.
    destruct (vote_log_cons cfg log w (last_voted_view_ s2) (locked_qc_ s2)) as [Hlog' Hbd'];
      try done; [cbn; lia|unfold w; cbn; rewrite Es'; cbn; lia|].
    rewrite Es' in Hok'. subst s'.
    split; [|intros _]; split; cbn; try done.
    + right. split; [lia|]. eapply bounded_by_mono; [..|exact Hmem2]; lia.
    + by apply Hnew.
    + right. split; [lia|done].
    + unfold disk_bounds. rewrite Esb. cbn. split_and!; try done. lia.
Qed.

(** Changes outside the safety fields. *)
Lemma run_inv_frame cfg log (s s' : HotStuffService St) :
  run_inv cfg log s → replica_ok cfg s' → failed_ s' = failed_ s →
  last_voted_view_ s <= last_voted_view_ s' →
  qc_view (locked_qc_ s) <= qc_view (locked_qc_ s') →
  load (epoch cfg) (store_ s') = load (epoch cfg) (store_ s) → run_inv cfg log s'.
Proof.
  intros [Hok Hlog Hmem Hdisk] Hok' Ef Ev El Es. split; try done.
  - rewrite Ef. destruct Hmem as [|[Hp Hm]]; [by left|right]. split; [lia|].
    by eapply bounded_by_mono.
  - by eapply disk_bounds_load.
Qed.

Lemma run_inv_quiet cfg log (s s' : HotStuffService St) :
  run_inv cfg log s → replica_ok cfg s' → quiet s s' → run_inv cfg log s'.
Proof.
  intros Hinv Hok [Es Ef _ Ev El _].
  eapply (run_inv_frame cfg log s); [done..| | |]; rewrite ?Es, ?Ev, ?El; done.
Qed.

Lemma chain_effect_certs cfg (s s1 : HotStuffService St) p j payload s2 commits :
  replica_ok cfg s →
  s1 = s <| current_view_ := std_max (current_view_ s) (qc_view j +64 1) |> →
  header_failure cfg p = None → qc_digest j = p_justify_qc_digest p →
  p_parent_digest p = qc_proposal_digest j → cert cfg j →
  apply_chain_rules cfg (accept_block s1 p j (proposal_digest p) payload) j [] = (s2, commits) →
  replica_ok cfg s2.
Proof.
  intros Hok -> Hh Hj Hp Hc Ha%apply_chain_rules_effect.
  eapply replica_ok_chain_effect; [|exact Ha]. apply replica_ok_accept_block; try done.
  destruct Hok. by split.
Qed.

Lemma run_inv_proposal cfg key log (s : HotStuffService St) p j payload s' out :
  run_inv cfg log s → receive_proposal cfg key s p j payload = (s', out) →
  storable (pending_state cfg s' p) →
  run_inv cfg log s' ∧ run_inv cfg (logged out s s' p j ++ log) s'.
Proof.
  intros Hinv Hr%receive_proposal_step Hst.
  pose proof (replica_ok_proposal_step _ _ _ _ _ _ (ri_ok _ _ _ Hinv) Hr) as Hok'.
  unfold logged. set (vote := out ≫= r_vote) in *.
  assert (Hboth : run_inv cfg log s' ∧ (is_Some vote → run_inv cfg
    (mkVoteRec p j (locked_qc_ s') (blocks_ s) :: log) s')).
  { destruct Hr as [cv ev orp hq -> _ _ -> |
      payload' s1 s2 commits Hf _ Hh Hj Hp Hc Hv Hpv Es1 _ Ha Hvs].
    - split; [|by intros []]. by eapply run_inv_frame.
    - pose proof (chain_effect_certs cfg s s1 p j payload' s2 commits
        (ri_ok _ _ _ Hinv) Es1 Hh Hj Hp Hc Ha) as Hok2.
      eapply run_inv_vote_step; try done; apply Hok2. }
  destruct Hboth as [Hlog Hlog']. split; [done|].
  destruct vote; [apply Hlog'; eauto|done].
Qed.

Lemma logged_validators cfg tv pv log (s : HotStuffService St) :
  run_inv (with_validators cfg tv pv) log s ↔ run_inv cfg log s.
Proof.
  assert (Hv : ∀ c tv pv w, vote_ok c w → vote_ok (with_validators c tv pv) w).
  { intros c tv' pv' w []. split; try done. intros d r E.
    by apply record_ok_validators, vo_blocks0. }
  assert (Hv' : ∀ w, vote_ok (with_validators cfg tv pv) w → vote_ok cfg w).
  { intros w []. split; try done. intros d r E.
    by eapply record_ok_validators, vo_blocks0. }
  split; intros [Hok [He Ho Hp] Hm Hd]; (split; [by eapply replica_ok_validators| |done..]);
    (split; [|done..]); (eapply Forall_impl; [exact He|]); auto.
Qed.

Lemma run_inv_restart cfg log (s : HotStuffService St) store s' :
  run_inv cfg log s → load (epoch cfg) store = load (epoch cfg) (store_ s) →
  new_service cfg store = Some s' → run_inv cfg log s'.
Proof.
  intros [Hok Hlog Hmem Hdisk] El Hn.
  eapply disk_bounds_load in Hdisk; [|exact El].
  destruct (new_service_ok _ _ _ (disk_bounds_ok _ _ _ Hdisk) Hn) as (Hok' & Es & Hcase).
  split; try done; [|by rewrite Es].
  unfold disk_bounds in Hdisk. destruct Hcase as [?|[(E & Ev & Elk)|(st & E & Ev & Elk)]];
    [by left|right; rewrite E in Hdisk..].
  - subst log. rewrite Ev. split; [lia|]. constructor.
  - rewrite Ev, Elk. tauto.
Qed.

(** Every run keeps the invariant. *)
Lemma run_invariant cfg key log (s : HotStuffService St) :
  config_ok cfg → run cfg key log s → run_inv cfg log s.
Proof.
  intros Hcfg. induction 1 as [store s Habs Hn
    | log s tv pv p j payload s' out _ IH Hr Hst
    | log s v s' out _ IH Hr | log s t s' out _ IH Hr
    | log s p j c commits s' f commits' _ IH Hr | log s floor _ IH | log s s' o _ IH Hr
    | log s store s' _ IH El Hn | log s tv pv p j payload s' out store s'' _ IH Hr Hst El Hn].
  - assert (Hd : disk_ok cfg store) by (intros st E; congruence).
    destruct (new_service_ok _ _ _ Hd Hn) as (Hok & Es & Hcase).
    split; [done| by split; constructor | | unfold disk_bounds; by rewrite Es, Habs].
    destruct Hcase as [?|[(_ & -> & _)|(st & E & _)]]; [by left|right|congruence].
    split; [lia|constructor].
  - apply (logged_validators cfg tv pv) in IH.
    by eapply logged_validators, run_inv_proposal.
  - destruct (receive_vote_ok _ _ _ _ _ Hcfg (ri_ok _ _ _ IH) Hr) as (Hok & Hq & _).
    by eapply run_inv_quiet.
  - destruct (receive_timeout_ok _ _ _ _ _ Hcfg (ri_ok _ _ _ IH) Hr) as (Hok & Hq & _).
    by eapply run_inv_quiet.
  - destruct (adopt_certified_block_ok _ _ _ _ _ _ _ _ _ (ri_ok _ _ _ IH) Hr) as (Hok & []).
    eapply run_inv_frame; try done; [lia|by apply commit_writes_load].
  - unfold sync_to_certified. destruct (failed_ s) eqn:Hf; [done|].
    eapply run_inv_frame; [exact IH|..]; try done; [destruct IH as [[] _ _ _]; by split|].
    cbn. rewrite std_max_spec. lia.
  - revert Hr. unfold take_linkable_orphan.
    destruct (orphan_ s) as [o'|]; [|by intros [= <- _]].
    destruct (_ && _); [by intros [= <- _]|]. intros [= <- _].
    eapply run_inv_frame; [exact IH|..]; try done. destruct IH as [[] _ _ _]. by split.
  - by eapply run_inv_restart.
  - eapply run_inv_restart; [|exact El|exact Hn].
    apply (logged_validators cfg tv pv) in IH.
    by eapply logged_validators, run_inv_proposal.
Qed.

Lemma vote_log_unique cfg log w w' :
  VoteLog cfg log → w ∈ log → w' ∈ log →
  p_view (w_proposal w) = p_view (w_proposal w') → w = w'.
Proof.
  intros [_ Ho _]. induction Ho as [|x l Ho IH Hx]; [by intros ?%not_elem_of_nil|].
  rewrite Forall_forall in Hx. unfold votes_before in Hx.
  intros [->|Hw]%elem_of_cons [->|Hw']%elem_of_cons E; [done| | |by apply IH].
  - destruct (Hx w' Hw'). lia.
  - destruct (Hx w Hw). lia.
Qed.

(** Of two votes the one with the higher view has the higher lock. *)
Lemma vote_log_locks cfg log w w' :
  VoteLog cfg log → w ∈ log → w' ∈ log →
  p_view (w_proposal w) < p_view (w_proposal w') →
  qc_view (w_lock w) <= qc_view (w_lock w').
Proof.
  intros [_ Ho _]. induction Ho as [|x l Ho IH Hx]; [by intros ?%not_elem_of_nil|].
  rewrite Forall_forall in Hx. unfold votes_before in Hx.
  intros [->|Hw]%elem_of_cons [->|Hw']%elem_of_cons Hlt; [lia| | |by apply IH].
  - destruct (Hx w' Hw'). lia.
  - destruct (Hx w Hw). lia.
Qed.
End runs.
