(* ===== verification/HotStuffSafety.v ===== *)
(** * Agreement between honest replicas

    The committee of an epoch: at most [max_byzantine_faults n] members are
    faulty and may sign anything; every other member runs the replica of
    HotStuff, with crashes and restarts (HotStuffRuns). Cryptography enters as
    two hypotheses of the record [network]: the hash has no collision among the
    published proposals, and a signature of an honest member over a vote exists
    only if its replica cast that vote.

    The theorem is chained HotStuff's: once three blocks of consecutive views,
    each the parent of the next, are all certified, every certified block of an
    equal or higher view descends from the first. HotStuffFork shows that the
    views have to be consecutive. *)

From S2P Require Import Prelude SecurityPolicy CanonicalEncoding ConsensusTypes QuorumValidation HotStuff HotStuffInvariants.
From S2P Require Import HotStuffRuns.

(** * Termination and meaning of the chain walks

    The loops of [HotStuffService::extends_locked] and of the commit walk run
    until they leave [blocks_]; the model gives them one unit of fuel more than
    there are blocks. When the parent links have no cycle (a digest does not
    occur among its own ancestors, which the hash gives), that is enough: the
    walks return, and [extends_locked] decides reachability. *)

(** [rank] decreases along parent links: the links have no cycle. *)
Definition acyclic (blocks : gmap Z BlockRecord) (rank : Digest → nat) : Prop :=
  ∀ d r, blocks !! d = Some r → (rank (p_parent_digest (b_proposal r)) < rank d)%nat.

(** The blocks at or below a rank: what a walk from that rank can visit. *)
Definition below (blocks : gmap Z BlockRecord) (rank : Digest → nat) (k : nat) : gset Z :=
  dom (filter (λ kv, (rank kv.1 <= k)%nat) blocks).

Section walks.
Context (blocks : gmap Z BlockRecord) (rank : Digest → nat) (Hac : acyclic blocks rank).

Lemma elem_of_below k d : d ∈ below blocks rank k ↔ d ∈ dom blocks ∧ (rank d <= k)%nat.
Proof.
  unfold below. rewrite !elem_of_dom. split.
  - intros [r [Hr Hk]%map_lookup_filter_Some]. eauto.
  - intros [[r Hr] Hk]. exists r. by apply map_lookup_filter_Some.
Qed.

Lemma below_parent d r :
  blocks !! d = Some r →
  (size (below blocks rank (rank (p_parent_digest (b_proposal r)))) <
   size (below blocks rank (rank d)))%nat.
Proof.
  intros Hr. pose proof (Hac d r Hr) as Hlt. apply subset_size. split.
  - intros x. rewrite !elem_of_below. intros []. split; [done|lia].
  - intros Hsub. assert (Hd : d ∈ below blocks rank (rank d)).
    { apply elem_of_below. split; [|done]. apply elem_of_dom. eauto. }
    apply Hsub, elem_of_below in Hd. lia.
Qed.

Lemma size_below k : (size (below blocks rank k) <= size blocks)%nat.
Proof.
  rewrite <-size_dom. apply subseteq_size. intros x [? _]%elem_of_below. done.
Qed.

Lemma walk_returns fuel genesis locked d :
  (size (below blocks rank (rank d)) < fuel)%nat →
  is_Some (walk_to_locked fuel blocks genesis locked d).
Proof.
  revert d. induction fuel as [|fuel IH]; intros d Hf; [lia|]. simpl.
  destruct (d =? locked); [eauto|]. destruct (d =? genesis); [eauto|].
  destruct (blocks !! d) as [r|] eqn:E; [|eauto].
  apply IH. pose proof (below_parent d r E). lia.
Qed.

Lemma commit_walk_returns fuel genesis last b :
  (size (below blocks rank (rank (p_parent_digest (b_proposal b)))) < fuel)%nat →
  ∃ chain, commit_walk fuel blocks genesis last b = Some (b :: chain) ∧
    Forall (λ r, last < p_height (b_proposal r) ∧ ∃ d, blocks !! d = Some r) chain.
Proof.
  revert b. induction fuel as [|fuel IH]; intros b Hf; [lia|]. simpl.
  destruct (_ =? genesis); [by exists []|].
  destruct (blocks !! _) as [r|] eqn:E; [|by exists []].
  destruct (Z.leb_spec (p_height (b_proposal r)) last) as [|Hh]; [by exists []|].
  destruct (IH r) as (chain & Ec & Hc); [pose proof (below_parent _ _ E); lia|].
  exists (r :: chain). rewrite Ec. split; [done|]. constructor; eauto.
Qed.

(** With enough fuel the answer of the walk is reachability, stopping at
    genesis. *)
Lemma walk_complete fuel genesis locked d :
  (size (below blocks rank (rank d)) < fuel)%nat → blocks !! genesis = None →
  reaches blocks locked d → walk_to_locked fuel blocks genesis locked d = Some true.
Proof.
  intros Hf Hg Hr. revert fuel Hf.
  induction Hr as [|d r Er Hr IH]; intros [|fuel] Hf; try lia; simpl.
  { by rewrite Z.eqb_refl. }
  destruct (Z.eqb_spec d locked); [done|].
  destruct (Z.eqb_spec d genesis) as [->|]; [congruence|].
  rewrite Er. apply IH. pose proof (below_parent d r Er). lia.
Qed.
End walks.

(** The configuration of member [n]. *)
Definition for_node (cfg : HotStuffConfig) (n : NodeId) : HotStuffConfig :=
  mkConfig (security_ruleset cfg) (consensus_ruleset cfg) (network_id cfg) (epoch cfg)
    (genesis_digest cfg) (leader_order cfg) (vote_keys cfg) (quorum cfg) n
    (transition_validator cfg) (payload_validator cfg).

Section safety.
Context {St : Type} `{Sodium, IConsensusStore St} (storable : HotStuffState → Prop)
  `{!ConsensusStoreLaws St storable}.

(** The values of a log fit their C++ types, below the last view and height. *)
Record log_typed (w : VoteRec) : Prop := mkLogTyped {
  lt_proposal : p_view (w_proposal w) < two64 - 1 ∧ 0 <= p_height (w_proposal w) < two64 - 1;
  lt_justify : wf_qc (w_justify w);
  lt_lock : wf_qc (w_lock w);
  lt_blocks : ∀ d r, w_blocks w !! d = Some r → wf_qc (b_justify r);
}.

Record network (cfg : HotStuffConfig) (honest : gset Z) (log : NodeId → list VoteRec)
    (published : Proposal → Prop) : Prop := mkNetwork {
  nw_config : config_ok cfg;
  nw_quorum : quorum cfg = consensus_quorum (Z.of_nat (size (vote_keys cfg)));
  nw_members : (0 < size (vote_keys cfg))%nat;
  nw_faults : Z.of_nat (size (dom (vote_keys cfg) ∖ honest)) <=
    max_byzantine_faults (Z.of_nat (size (vote_keys cfg)));
  nw_runs : ∀ n, n ∈ honest → ∃ key (s : HotStuffService St),
    run storable (for_node cfg n) key (log n) s;
  nw_typed : ∀ n w, n ∈ honest → w ∈ log n → log_typed w;
  nw_published : ∀ n w, n ∈ honest → w ∈ log n →
    published (w_proposal w) ∧ ∀ d r, w_blocks w !! d = Some r → published (b_proposal r);
  nw_wf : ∀ p, published p → wf_proposal p ∧ proposal_digest p ≠ genesis_digest cfg;
  nw_hash : ∀ p q, published p → published q →
    crypto_hash_sha256 (proposal_encoder p) = crypto_hash_sha256 (proposal_encoder q) →
    proposal_encoder p = proposal_encoder q;
  nw_unforgeable : ∀ n h v d sig, n ∈ honest → is_u64 h → is_u64 v → is_digest d →
    verify_member (vote_keys cfg) n
      (vote_signing_digest (consensus_ruleset cfg) (network_id cfg) (epoch cfg) h v d n) sig = true →
    ∃ w, w ∈ log n ∧ p_height (w_proposal w) = h ∧ p_view (w_proposal w) = v ∧
      proposal_digest (w_proposal w) = d;
}.

(** [descends published d0 d]: [d] is [d0] or a published block whose parent
    descends from [d0]. *)
Inductive descends (published : Proposal → Prop) (d0 : Digest) : Digest → Prop :=
  | descends_refl : descends published d0 d0
  | descends_child p :
      published p → descends published d0 (p_parent_digest p) →
      descends published d0 (proposal_digest p).

(** A commit proof whose three blocks have consecutive views. *)
Definition consecutive_views (proof : CommitProof) : bool :=
  match cp_chain proof with
  | [b0; b1; b2] =>
      (p_view (cb_proposal b1) =? p_view (cb_proposal b0) + 1) &&
      (p_view (cb_proposal b2) =? p_view (cb_proposal b1) + 1)
  | _ => false
  end.

Definition wf_proof (proof : CommitProof) : Prop :=
  Forall (λ b, wf_qc (cb_justify b)) (cp_chain proof) ∧ wf_qc (cp_certifying proof).

Section network.
Context {cfg : HotStuffConfig} {honest : gset Z} {log : NodeId → list VoteRec}
  {published : Proposal → Prop} (N : network cfg honest log published).

Definition certifies (c : QuorumCertificate) (p : Proposal) : Prop :=
  wf_qc c ∧ qc_accepted (qc_context cfg) (vote_keys cfg) c ∧
  qc_proposal_digest c = proposal_digest p.

Lemma published_inj p q :
  published p → published q → proposal_digest p = proposal_digest q → p = q.
Proof.
  intros Hp Hq E. apply proposal_encoder_inj; [by apply N..|]. by apply N.
Qed.

Lemma honest_log n : n ∈ honest → VoteLog cfg (log n).
Proof.
  intros Hn. destruct (nw_runs _ _ _ _ N n Hn) as (key & s & Hrun).
  assert (Hc : config_ok (for_node cfg n)) by (destruct (nw_config _ _ _ _ N); by split).
  destruct (run_invariant storable _ _ _ _ Hc Hrun) as [_ [He Ho Hp] _ _].
  split; try done. eapply Forall_impl; [exact He|]. intros w Hw.
  pose proof (vo_blocks _ _ Hw) as Hb. destruct Hw. split; try done.
  intros d r E. destruct (Hb d r E). by split.
Qed.

Lemma honest_vote n w : n ∈ honest → w ∈ log n → vote_ok cfg w.
Proof. intros Hn. eapply Forall_forall, honest_log, Hn. Qed.

Lemma accepted_vote c n :
  wf_qc c → qc_accepted (qc_context cfg) (vote_keys cfg) c → n ∈ qc_voters c → n ∈ honest →
  ∃ w, w ∈ log n ∧ p_view (w_proposal w) = qc_view c ∧
    proposal_digest (w_proposal w) = qc_proposal_digest c.
Proof.
  intros Hwf Ha Hv Hn. destruct (qc_accepted_signed _ _ _ _ Ha Hv) as (key & sig & Ek & Hs).
  unfold wf_qc in Hwf. destruct_and!.
  edestruct (nw_unforgeable _ _ _ _ N n (qc_height c) (qc_view c) (qc_proposal_digest c) sig)
    as (w & Hw & _ & Ev & Ed); try done; [|eauto].
  unfold verify_member. rewrite Ek. unfold qc_signer_digest in Hs.
  by rewrite (qa_ruleset _ _ _ Ha), (qa_network _ _ _ Ha), (qa_epoch _ _ _ Ha) in Hs.
Qed.

(** Two certificates share an honest voter. *)
Lemma shared_voter c c' :
  qc_accepted (qc_context cfg) (vote_keys cfg) c →
  qc_accepted (qc_context cfg) (vote_keys cfg) c' →
  ∃ n, n ∈ honest ∧ n ∈ qc_voters c ∧ n ∈ qc_voters c'.
Proof.
  intros Ha Ha'. set (m := size (vote_keys cfg)).
  pose proof (nw_members _ _ _ _ N) as Hm. pose proof (nw_faults _ _ _ _ N) as Hf.
  pose proof (consensus_quorum_double (Z.of_nat m) ltac:(lia)) as Hq.
  pose proof (max_byzantine_faults_bound (Z.of_nat m) ltac:(lia)) as Hb.
  pose proof (qa_quorum _ _ _ Ha) as Hqa. pose proof (qa_quorum _ _ _ Ha') as Hqa'.
  cbn in Hqa, Hqa'. rewrite (nw_quorum _ _ _ _ N) in Hqa, Hqa'.
  fold m in Hqa, Hqa', Hf.
  destruct (quorum_intersection (dom (vote_keys cfg)) (qc_voters c) (qc_voters c')
    (dom (vote_keys cfg) ∖ honest) m (Z.to_nat (consensus_quorum (Z.of_nat m)))
    (Z.to_nat (max_byzantine_faults (Z.of_nat m)))) as (n & Hn & Hn' & Hh);
    [apply Ha|apply Ha'|by rewrite size_dom|lia..|].
  exists n. split_and!; try done.
  pose proof (qa_members _ _ _ Ha n Hn). set_solver.
Qed.

(** A certified block was voted for, so it is published and its certificate
    carries its view. *)
Lemma certifies_view c p : published p → certifies c p → qc_view c = p_view p.
Proof.
  intros Hp (Hwf & Ha & Ed). destruct (shared_voter c c Ha Ha) as (n & Hn & Hv & _).
  destruct (accepted_vote c n Hwf Ha Hv Hn) as (w & Hw & Ev & Ew).
  assert (w_proposal w = p) as <-; [|done].
  apply published_inj; [by eapply nw_published|done|congruence].
Qed.

Lemma certificate_block c :
  wf_qc c → qc_accepted (qc_context cfg) (vote_keys cfg) c →
  ∃ n w, n ∈ honest ∧ w ∈ log n ∧ certifies c (w_proposal w) ∧ qc_view c = p_view (w_proposal w).
Proof.
  intros Hwf Ha. destruct (shared_voter c c Ha Ha) as (n & Hn & Hv & _).
  destruct (accepted_vote c n Hwf Ha Hv Hn) as (w & Hw & Ev & Ew).
  exists n, w. done.
Qed.

(** Two certificates share an honest voter who voted for both blocks. *)
Lemma shared_votes c c' p p' :
  published p → published p' → certifies c p → certifies c' p' →
  ∃ n w w', n ∈ honest ∧ w ∈ log n ∧ w' ∈ log n ∧ w_proposal w = p ∧ w_proposal w' = p'.
Proof.
  intros Hp Hp' (Hwf & Ha & Ed) (Hwf' & Ha' & Ed').
  destruct (shared_voter c c' Ha Ha') as (n & Hn & Hv & Hv').
  destruct (accepted_vote c n Hwf Ha Hv Hn) as (w & Hw & _ & Ew).
  destruct (accepted_vote c' n Hwf' Ha' Hv' Hn) as (w' & Hw' & _ & Ew').
  exists n, w, w'. split_and!; try done;
    (apply published_inj; [by eapply nw_published|done|congruence]).
Qed.

Lemma certified_view_unique c c' p p' :
  published p → published p' → certifies c p → certifies c' p' → p_view p = p_view p' → p = p'.
Proof.
  intros Hp Hp' Hc Hc' E.
  destruct (shared_votes c c' p p' Hp Hp' Hc Hc') as (n & w & w' & Hn & Hw & Hw' & <- & <-).
  by rewrite (vote_log_unique cfg (log n) w w' (honest_log n Hn) Hw Hw' E).
Qed.

Lemma cert_cases c :
  cert cfg c → (qc_view c = 0 ∧ qc_proposal_digest c = genesis_digest cfg) ∨
    qc_accepted (qc_context cfg) (vote_keys cfg) c.
Proof.
  unfold cert, justify_acceptable. intros [Hg|Hv]%orb_true_iff.
  - left. unfold is_genesis_justify in Hg. by bool_to_prop.
  - right. apply validate_qc_spec. by case_match.
Qed.

Definition certified (p : Proposal) : Prop := published p ∧ ∃ c, certifies c p.

Lemma certified_vote p :
  certified p → ∃ n w, n ∈ honest ∧ w ∈ log n ∧ w_proposal w = p ∧ vote_ok cfg w ∧ log_typed w ∧
    0 < p_view p.
Proof.
  intros [Hp [c Hc]]. destruct (shared_votes c c p p Hp Hp Hc Hc) as (n & w & _ & Hn & Hw & _ & <- & _).
  exists n, w. split_and!; try done; [by eapply honest_vote|by eapply N|].
  pose proof (vl_positive _ _ (honest_log n Hn)) as Hpos. rewrite Forall_forall in Hpos. by apply Hpos.
Qed.

Lemma cert_block c :
  wf_qc c → cert cfg c →
  (qc_view c = 0 ∧ qc_proposal_digest c = genesis_digest cfg) ∨
  ∃ q, certified q ∧ proposal_digest q = qc_proposal_digest c ∧ p_view q = qc_view c.
Proof.
  intros Hwf [?|Ha]%cert_cases; [by left|right].
  destruct (certificate_block c Hwf Ha) as (n & w & Hn & Hw & Hc & Ev).
  exists (w_proposal w). split_and!; [|by symmetry; apply Hc|done].
  split; [by eapply nw_published|eauto].
Qed.

Lemma judged_record n w d r :
  n ∈ honest → w ∈ log n → w_judged w !! d = Some r →
  published (b_proposal r) ∧ proposal_digest (b_proposal r) = d ∧
  p_parent_digest (b_proposal r) = qc_proposal_digest (b_justify r) ∧
  cert cfg (b_justify r) ∧ wf_qc (b_justify r).
Proof.
  intros Hn Hw. pose proof (honest_vote n w Hn Hw) as Hok.
  destruct (nw_published _ _ _ _ N n w Hn Hw) as [Hp Hb].
  pose proof (nw_typed _ _ _ _ N n w Hn Hw) as Ht.
  unfold w_judged, judged_blocks. rewrite lookup_insert. case_decide as Ed.
  - intros [= <-]. cbn. split_and!; try done; [apply Hok..|apply Ht].
  - intros E. destruct (vo_blocks _ _ Hok d r E). split_and!; eauto. by eapply lt_blocks.
Qed.

Lemma certified_not_genesis p : certified p → proposal_digest p ≠ genesis_digest cfg.
Proof. intros [Hp _]. by apply N. Qed.

(** Views and heights grow along certified parent links. *)
Lemma certified_parent p :
  certified p → p_parent_digest p = genesis_digest cfg ∨
  ∃ q, certified q ∧ proposal_digest q = p_parent_digest p ∧ p_view q < p_view p ∧
    p_height p = p_height q + 1.
Proof.
  intros Hp. destruct (certified_vote p Hp) as (n & w & Hn & Hw & <- & Hok & Ht & Hpos).
  pose proof (vo_parent _ _ Hok) as Epar.
  destruct (cert_block _ (lt_justify _ Ht) (vo_justify _ _ Hok)) as [[_ E]|(q & Hq & Eq & Ev)].
  { left. congruence. }
  right. exists q. destruct (certified_vote q Hq) as (nq & wq & _ & _ & <- & _ & Htq & Hposq).
  destruct (lt_proposal _ Htq) as [Hv Hh].
  pose proof (vo_view _ _ Hok) as Hview. rewrite <-Ev, u64_add_small in Hview by lia.
  split_and!; [done|congruence|lia|].
  destruct (vo_height _ _ Hok) as [[E _]|(r & Er & ->)].
  { destruct (certified_not_genesis _ Hq). congruence. }
  assert (b_proposal r = w_proposal wq) as ->; [|apply u64_add_small; lia].
  destruct (vo_blocks _ _ Hok _ _ Er). apply published_inj; [|by apply Hq|congruence].
  by eapply (nw_published _ _ _ _ N n w).
Qed.

Lemma judged_reaches_genesis n w target :
  n ∈ honest → w ∈ log n → reaches (w_judged w) target (genesis_digest cfg) →
  target = genesis_digest cfg.
Proof.
  intros Hn Hw Hr. inversion Hr as [|d r E _]; subst; [done|].
  destruct (judged_record n w _ r Hn Hw E) as (Hp & Ed & _). by destruct (nw_wf _ _ _ _ N _ Hp).
Qed.

Lemma judged_reaches_view n w target d :
  n ∈ honest → w ∈ log n → reaches (w_judged w) target d →
  ∀ p q, certified p → certified q → proposal_digest p = d → proposal_digest q = target →
  p_view q <= p_view p.
Proof.
  intros Hn Hw. induction 1 as [|d r Er Hr IH]; intros p q Hp Hq Ep Eq.
  { assert (p = q) as ->; [|lia]. apply published_inj; [apply Hp|apply Hq|congruence]. }
  destruct (judged_record n w d r Hn Hw Er) as (Hpub & Ed & _).
  assert (b_proposal r = p) as E by (apply published_inj; [done|apply Hp|congruence]).
  rewrite E in *. destruct (certified_parent p Hp) as [Eg|(pp & Hpp & Epp & Hv & _)].
  - rewrite Eg in Hr. apply (judged_reaches_genesis n w target Hn Hw) in Hr.
    destruct (certified_not_genesis q Hq). congruence.
  - specialize (IH pp q Hpp Hq Epp Eq). lia.
Qed.

Lemma judged_reaches_descends n w target d d0 :
  n ∈ honest → w ∈ log n → reaches (w_judged w) target d →
  descends published d0 target → descends published d0 d.
Proof.
  intros Hn Hw. induction 1 as [|d r Er Hr IH]; intros Ht; [done|].
  destruct (judged_record n w d r Hn Hw Er) as (Hpub & <- & _).
  constructor; auto.
Qed.

(** A voter for [b2] holds a lock at least at the view of [b0]. *)
Lemma vote_locks_grandparent n w b0 b1 :
  n ∈ honest → w ∈ log n → certified b0 → certified b1 →
  p_parent_digest (w_proposal w) = proposal_digest b1 →
  p_parent_digest b1 = proposal_digest b0 → p_view b0 <= qc_view (w_lock w).
Proof.
  intros Hn Hw C0 C1 E1 E0.
  destruct (vo_locks_parent _ _ (honest_vote n w Hn Hw)) as [E|(r & Er & Hv)].
  { destruct (certified_not_genesis b1 C1). congruence. }
  destruct (judged_record n w _ r Hn Hw Er) as (Hpub & Ed & Epar & Hc & Hwf).
  assert (b_proposal r = b1) as E by (apply published_inj; [done|apply C1|congruence]).
  rewrite E in *. destruct (cert_block _ Hwf Hc) as [[_ Eg]|(q & Hq & Eq & Evq)].
  { destruct (certified_not_genesis b0 C0). congruence. }
  assert (q = b0) as -> by (apply published_inj; [apply Hq|apply C0|congruence]). lia.
Qed.

(** A vote cast under a lock of positive view is for a block whose certified
    parent is not below the lock, or was proposed on a path through it. *)
Lemma locked_vote_parent n w :
  n ∈ honest → w ∈ log n → certified (w_proposal w) → 0 < qc_view (w_lock w) →
  ∃ q, certified q ∧ proposal_digest q = p_parent_digest (w_proposal w) ∧
    p_view q < p_view (w_proposal w) ∧
    (qc_view (w_lock w) <= p_view q ∧
     (qc_view (w_lock w) < p_view q ∨
      ∃ l, certified l ∧ p_view l = qc_view (w_lock w) ∧
        reaches (w_judged w) (proposal_digest l) (proposal_digest q))).
Proof.
  intros Hn Hw Hp Hpos.
  pose proof (honest_vote n w Hn Hw) as Hok. pose proof (nw_typed _ _ _ _ N n w Hn Hw) as Ht.
  pose proof (vo_parent _ _ Hok) as Epar.
  destruct (cert_block _ (lt_lock _ Ht) (vo_lock _ _ Hok)) as [[? _]|(l & Hl & El & Evl)]; [lia|].
  pose proof (certified_not_genesis l Hl) as Hgl.
  destruct (certified_parent _ Hp) as [Eg|(q & Hq & Eq & Hvq & _)].
  - exfalso. destruct (vo_safe _ _ Hok) as [E|[Hr|Hlt]]; [congruence| |].
    + rewrite Eg in Hr. apply (judged_reaches_genesis n w _ Hn Hw) in Hr. congruence.
    + destruct (cert_block _ (lt_justify _ Ht) (vo_justify _ _ Hok)) as [[? _]|(k & Hk & Ek & _)];
        [lia|]. destruct (certified_not_genesis k Hk). congruence.
  - exists q. split_and!; [done..| |].
    all: destruct (vo_safe _ _ Hok) as [E|[Hr|Hlt]]; [congruence| |].
    2,4: destruct (cert_block _ (lt_justify _ Ht) (vo_justify _ _ Hok)) as [[? _]|(k & Hk & Ek & Evk)];
      [lia|]; (assert (k = q) as -> by (apply published_inj; [apply Hk|apply Hq|congruence]));
      lia || (left; lia).
    all: rewrite <-Eq, <-El in Hr.
    + rewrite <-Evl. by apply (judged_reaches_view n w _ _ Hn Hw Hr q l Hq Hl).
    + right. eauto.
Qed.

(** The heart of the safety argument. *)
Lemma three_chain_descends b0 b1 b2 p :
  certified b0 → certified b1 → certified b2 →
  p_parent_digest b1 = proposal_digest b0 → p_parent_digest b2 = proposal_digest b1 →
  p_view b1 = p_view b0 + 1 → p_view b2 = p_view b1 + 1 →
  certified p → p_view b0 <= p_view p → descends published (proposal_digest b0) (proposal_digest p).
Proof.
  intros C0 C1 C2 E1 E2 V1 V2. remember (p_view p) as v eqn:Ev. revert p Ev.
  induction (Z.lt_wf (p_view b0) v) as [v _ IH]. intros p Ev Hp Hv.
  assert (D1 : descends published (proposal_digest b0) (proposal_digest b1)).
  { constructor; [apply C1|rewrite E1; constructor]. }
  assert (D2 : descends published (proposal_digest b0) (proposal_digest b2)).
  { constructor; [apply C2|by rewrite E2]. }
  assert (Hsame : ∀ b, certified b → p_view p = p_view b → p = b).
  { intros b [Hb [cb Hcb]] Evb. destruct Hp as [Hpp [c Hc]]. by eapply certified_view_unique. }
  destruct (decide (v = p_view b0)) as [|Hne0]; [rewrite (Hsame b0 C0 ltac:(lia)); constructor|].
  destruct (decide (v = p_view b1)) as [|Hne1]; [rewrite (Hsame b1 C1 ltac:(lia)); done|].
  destruct (decide (v = p_view b2)) as [|Hne2]; [rewrite (Hsame b2 C2 ltac:(lia)); done|].
  assert (∃ n w2 w, n ∈ honest ∧ w2 ∈ log n ∧ w ∈ log n ∧ w_proposal w2 = b2 ∧ w_proposal w = p)
    as (n & w2 & w & Hn & Hw2 & Hw & Ew2 & Ew).
  { destruct C2 as [? []], Hp as [? []]. by eapply shared_votes. }
  assert (Hlock : p_view b0 <= qc_view (w_lock w)).
  { transitivity (qc_view (w_lock w2)).
    - eapply (vote_locks_grandparent n w2 b0 b1); try done. congruence.
    - apply (vote_log_locks cfg (log n)); try done; [by apply honest_log|].
      rewrite Ew2, Ew. lia. }
  destruct (certified_vote b0 C0) as (_ & _ & _ & _ & _ & _ & _ & Hpos0). subst p.
  destruct (locked_vote_parent n w Hn Hw Hp ltac:(lia)) as (q & Hq & Eq & Hvq & Hlq & Hcase).
  constructor; [apply Hp|]. rewrite <-Eq.
  destruct Hcase as [Hlt|(l & Hl & El & Hr)].
  - apply (IH (p_view q)); try done; lia.
  - eapply judged_reaches_descends; [exact Hn|exact Hw|exact Hr|].
    apply (IH (p_view l)); try done; lia.
Qed.

(** Of two certified blocks on one chain the descendant is the higher. *)
Lemma descends_height d0 d :
  descends published d0 d → ∀ p0 p, certified p0 → certified p →
  proposal_digest p0 = d0 → proposal_digest p = d → p0 = p ∨ p_height p0 < p_height p.
Proof.
  induction 1 as [|x Hx Hd IH]; intros p0 p Hp0 Hp E0 E.
  { left. apply published_inj; [apply Hp0|apply Hp|congruence]. }
  assert (x = p) as -> by (apply published_inj; [done|apply Hp|congruence]).
  right. destruct (certified_parent p Hp) as [Eg|(q & Hq & Eq & _ & Eh)].
  - rewrite Eg in Hd. exfalso. destruct (certified_not_genesis p0 Hp0).
    inversion Hd as [|y Hy _]; subst; [done|].
    by destruct (nw_wf _ _ _ _ N _ Hy).
  - destruct (IH p0 q Hp0 Hq E0 Eq) as [-> | ?]; lia.
Qed.

(** What an accepted proof of published blocks establishes. *)
Lemma proof_certified t proof :
  verify_commit_proof t proof (qc_context cfg) (vote_keys cfg) = CpNone →
  wf_proof proof → Forall (λ b, published (cb_proposal b)) (cp_chain proof) →
  ∃ b0 b1 b2, cp_chain proof = [b0; b1; b2] ∧
    certified (cb_proposal b0) ∧ certified (cb_proposal b1) ∧ certified (cb_proposal b2) ∧
    p_parent_digest (cb_proposal b1) = proposal_digest (cb_proposal b0) ∧
    p_parent_digest (cb_proposal b2) = proposal_digest (cb_proposal b1).
Proof.
  intros (b0 & b1 & b2 & E & _ & L1 & L2 & Ec & A1 & A2 & Ac)%verify_commit_proof_shape
    [Hwf Hwfc] Hpub. exists b0, b1, b2. rewrite E in Hwf, Hpub.
  rewrite !Forall_cons in Hwf, Hpub. destruct_and!. unfold child_links in L1, L2. bool_to_prop.
  split_and!; try done; (split; [done|]);
    [exists (cb_justify b1)|exists (cb_justify b2)|exists (cp_certifying proof)]; by split_and!.
Qed.
End network.
End safety.
