(* ===== verification/Testbed.v ===== *)
(** * Concrete instances for the witnesses

    An in-memory consensus store with the laws of the interface, a hash given
    by a table, and a committee of four with one faulty member whose three
    correct replicas run through three proposals. The theorems of the
    development are applied to them, so their hypotheses are seen to hold
    together. *)

From S2P Require Import Prelude SecurityPolicy CanonicalEncoding ConsensusTypes QuorumValidation HotStuff HotStuffInvariants.
From S2P Require Import HotStuffRuns HotStuffSafety.

(** ** A store in memory *)

Record Mem := mkMem {
  m_state : gmap Z HotStuffState;
  m_commit : gmap Z ConsensusCommit;
  m_chain : gmap Z CertifiedChain;
}.

Definition empty_mem : Mem := mkMem ∅ ∅ ∅.

#[export] Instance mem_store : IConsensusStore Mem := {|
  store_before_vote st m :=
    (true, mkMem (<[ st_epoch st := st ]> (m_state m)) (m_commit m) (m_chain m));
  load e m := match m_state m !! e with Some st => inl st | None => inr Absent end;
  store_commit c m := (true, mkMem (m_state m) (<[ c_epoch c := c ]> (m_commit m)) (m_chain m));
  latest_commit e m := m_commit m !! e;
  store_chain e c m := (true, mkMem (m_state m) (m_commit m) (<[ e := c ]> (m_chain m)));
  load_chain e m := match m_chain m !! e with Some c => inl c | None => inr Absent end |}.

Definition any_state (_ : HotStuffState) : Prop := True.

#[export] Instance mem_store_laws : ConsensusStoreLaws Mem any_state.
Proof.
  split; [|done..]. intros st s s' _ [= <-]. cbn. by rewrite lookup_insert_eq.
Qed.

(** ** A hash given by a table *)

Section table.
Context (table : list (list Z * Z)) (issued : list Z).

Fixpoint table_lookup (entries : list (list Z * Z)) (bytes : list Z) : Z :=
  match entries with
  | [] => 0
  | (e, v) :: rest => if bool_decide (e = bytes) then v else table_lookup rest bytes
  end.

(** A digest verifies when it is in the list of issued votes. *)
Definition table_sodium : Sodium := {|
  crypto_hash_sha256 := table_lookup table;
  crypto_sign_detached sk d := Some d;
  crypto_sign_verify_detached sig d pk := bool_decide (d ∈ issued) |}.

Lemma table_lookup_range entries bytes :
  Forall (λ e, is_digest e.2) entries → is_digest (table_lookup entries bytes).
Proof.
  induction 1 as [|[e x] entries Hx _ IH]; simpl; [by vm_compute|]. by case_bool_decide.
Qed.

Lemma table_lookup_elem entries bytes v :
  table_lookup entries bytes = v → v ≠ 0 → (bytes, v) ∈ entries.
Proof.
  induction entries as [|[e x] entries IH]; simpl; [congruence|].
  case_bool_decide as E; intros Hv Hn; apply elem_of_cons; [left; congruence|right; auto].
Qed.
End table.

(** ** Replaying messages *)

Section replay.
Context `{Sodium} (cfg : HotStuffConfig) (key : NodeId → EpochVoteKey).

Definition start (n : NodeId) : HotStuffService Mem :=
  default (initial_service (for_node cfg n) empty_mem) (new_service (for_node cfg n) empty_mem).

Definition feed (n : NodeId) (acc : list VoteRec * HotStuffService Mem)
    (m : Proposal * QuorumCertificate) : list VoteRec * HotStuffService Mem :=
  let '(s', out) := receive_proposal (for_node cfg n) (key n) acc.2 m.1 m.2 None in
  (logged out acc.2 s' m.1 m.2 ++ acc.1, s').

(** The votes of member [n] and its state after the messages. *)
Definition replay (n : NodeId) (messages : list (Proposal * QuorumCertificate))
    : list VoteRec * HotStuffService Mem :=
  foldl (feed n) ([], start n) messages.

Lemma replay_run n messages :
  leader_order cfg ≠ [] → quorum cfg ≠ 0 →
  run any_state (for_node cfg n) (key n) (replay n messages).1 (replay n messages).2.
Proof.
  intros Hl Hq. unfold replay.
  assert (Hnew : new_service (for_node cfg n) empty_mem = Some (start n)).
  { unfold start, new_service. cbn. destruct (leader_order cfg); [done|].
    by rewrite (proj2 (Z.eqb_neq _ _) Hq). }
  assert (Hrun : run any_state (for_node cfg n) (key n) (@nil VoteRec, start n).1
    (@nil VoteRec, start n).2) by (by eapply run_start with (store := empty_mem)).
  revert Hrun. generalize (@nil VoteRec, start n) as acc.
  induction messages as [|[p j] ms IH]; intros acc Hacc; [done|]. simpl. apply IH.
  unfold feed. destruct (receive_proposal _ _ _ _ _ _) as [s' out] eqn:E. simpl.
  eapply (run_proposal any_state (for_node cfg n) (key n) acc.1 acc.2
    (transition_validator cfg) (payload_validator cfg) p j None); [done|exact E|done].
Qed.
End replay.

(** ** A committee of four *)

Module Demo.
Definition members : list Z := [1; 2; 3; 4].
Definition correct : list Z := [1; 2; 3].

Definition cfg : HotStuffConfig :=
  mkConfig 1 1 77 1 999 members (list_to_map ((λ n, (n, n)) <$> members)) 3 1 None None.

Definition key (n : Z) : EpochVoteKey := mkVoteKey 1 n n (replicate 64 0).

Definition proposal (height view parent justify : Z) : Proposal :=
  mkProposal 1 1 77 1 height view (leader_of cfg view) parent justify 0 0 0 0.
Definition b0 : Proposal := proposal 1 1 999 200.
Definition b1 : Proposal := proposal 2 2 100 201.
Definition b2 : Proposal := proposal 3 3 101 202.

Definition vote_entry (p : Proposal) (digest n : Z) : list Z * Z :=
  (vote_encoder 1 77 1 (p_height p) (p_view p) digest n, 10 * p_view p + n).
Definition vote_entries : list (list Z * Z) :=
  (vote_entry b0 100 <$> correct) ++ (vote_entry b1 101 <$> correct) ++
  (vote_entry b2 102 <$> correct).
Definition issued : list Z := vote_entries.*2.

Definition qc (p : Proposal) (digest : Z) : QuorumCertificate :=
  mkQC kQcFormatVersion 1 77 1 (p_height p) (p_view p) digest
    ((λ n, mkQcSigner n (10 * p_view p + n)) <$> correct).
Definition c0 : QuorumCertificate := qc b0 100.
Definition c1 : QuorumCertificate := qc b1 101.
Definition c2 : QuorumCertificate := qc b2 102.

Definition table : list (list Z * Z) :=
  [ (proposal_encoder b0, 100); (proposal_encoder b1, 101); (proposal_encoder b2, 102);
    (qc_encoder (genesis_qc cfg), 200); (qc_encoder c0, 201); (qc_encoder c1, 202);
    (qc_encoder c2, 203) ] ++ vote_entries.

#[export] Instance sodium : Sodium := table_sodium table issued.

Definition messages : list (Proposal * QuorumCertificate) :=
  [(b0, genesis_qc cfg); (b1, c0); (b2, c1)].

Definition execution (n : Z) : list VoteRec * HotStuffService Mem :=
  replay cfg key n messages.

Definition log (n : Z) : list VoteRec := (execution n).1.
Definition honest : gset Z := list_to_set correct.
Definition published (p : Proposal) : Prop := p ∈ [b0; b1; b2].
Definition proof : CommitProof :=
  mkProof [mkCommitted b0 (genesis_qc cfg); mkCommitted b1 c0; mkCommitted b2 c1] c2.

#[export] Instance in_range_dec (lo x hi : Z) : Decision (lo <= x < hi) := _.

#[export] Instance wf_qc_dec c : Decision (wf_qc c).
Proof. unfold wf_qc, wf_signer, is_u16, is_u64, is_digest, is_signature. apply _. Defined.

(** The facts about the logs the network record asks for, by computation. *)
Definition log_fits (w : VoteRec) : Prop :=
  (p_view (w_proposal w) < two64 - 1 ∧ 0 <= p_height (w_proposal w) < two64 - 1) ∧
  wf_qc (w_justify w) ∧ wf_qc (w_lock w) ∧ w_proposal w ∈ [b0; b1; b2] ∧
  map_Forall (λ _ r, wf_qc (b_justify r) ∧ b_proposal r ∈ [b0; b1; b2]) (w_blocks w).

#[export] Instance log_fits_dec w : Decision (log_fits w).
Proof. unfold log_fits. apply _. Defined.

Lemma logs_fit n w : n ∈ honest → w ∈ log n → log_fits w.
Proof.
  assert (Hall : Forall (λ n, Forall log_fits (log n)) correct)
    by (apply (bool_decide_unpack _); vm_compute; exact I).
  intros Hn Hw. apply elem_of_list_to_set in Hn.
  eapply Forall_forall in Hall; [|exact Hn]. by eapply Forall_forall in Hall.
Qed.

Lemma digests : proposal_digest b0 = 100 ∧ proposal_digest b1 = 101 ∧ proposal_digest b2 = 102.
Proof. vm_compute. done. Qed.

Lemma small_ranges : is_u16 1 ∧ is_digest 77 ∧ is_u64 1.
Proof. vm_compute. done. Qed.

Lemma issued_vote n h v d :
  n ∈ honest → is_u64 h → is_u64 v → is_digest d →
  vote_signing_digest 1 77 1 h v d n ∈ issued →
  ∃ p, p ∈ [b0; b1; b2] ∧ h = p_height p ∧ v = p_view p ∧ d = proposal_digest p.
Proof.
  intros Hn Hh Hv Hd Hin.
  change (table_lookup table (vote_encoder 1 77 1 h v d n) ∈ issued) in Hin.
  set (bytes := vote_encoder 1 77 1 h v d n) in *.
  assert (He : (bytes, table_lookup table bytes) ∈ vote_entries).
  { assert (E : filter (λ e, e.2 ∈ issued) table = vote_entries) by (vm_compute; reflexivity).
    rewrite <-E. apply list_elem_of_filter. split; [done|].
    apply table_lookup_elem; [done|]. intros E0. rewrite E0 in Hin. revert Hin.
    by apply (bool_decide_unpack (0 ∉ issued)). }
  assert (Hp : ∃ p n', p ∈ [b0; b1; b2] ∧ n' ∈ correct ∧
    bytes = vote_encoder 1 77 1 (p_height p) (p_view p) (proposal_digest p) n').
  { destruct digests as (D0 & D1 & D2).
    unfold vote_entries in He. rewrite !elem_of_app, !list_elem_of_fmap in He.
    destruct He as [(n' & E & Hn')|[(n' & E & Hn')|(n' & E & Hn')]];
      [exists b0, n'; rewrite D0|exists b1, n'; rewrite D1|exists b2, n'; rewrite D2];
      (split; [rewrite !elem_of_cons; tauto|split; [exact Hn'|exact (f_equal fst E)]]). }
  destruct Hp as (p & n' & Hp & Hn' & E). exists p. split; [done|].
  assert (Hrange : is_u64 (p_height p) ∧ is_u64 (p_view p) ∧ is_digest (proposal_digest p) ∧
    is_digest n' ∧ is_digest n).
  { apply elem_of_list_to_set in Hn.
    assert (Hsmall : Forall is_digest correct) by by repeat constructor.
    rewrite Forall_forall in Hsmall. split_and!; [..|auto|auto].
    all: clear - Hp; revert p Hp; apply (Forall_forall _ [b0; b1; b2]);
      repeat constructor; vm_compute; done. }
  destruct Hrange as (Rh & Rv & Rd & Rn' & Rn).
  destruct small_ranges as (R1 & R2 & R3).
  destruct (vote_encoder_inj 1 77 1 h v d n 1 77 1 _ _ _ n'
    R1 R2 R3 Hh Hv Hd Rn R1 R2 R3 Rh Rv Rd Rn' E) as (_ & _ & _ & E1 & E2 & E3 & _).
  split; [exact E1|split; [exact E2|exact E3]].
Qed.

Lemma each_voted p n : n ∈ honest → p ∈ [b0; b1; b2] → ∃ w, w ∈ log n ∧ w_proposal w = p.
Proof.
  assert (Hall : Forall (λ n, w_proposal <$> log n = [b2; b1; b0]) correct)
    by (vm_compute; by repeat constructor).
  intros Hn Hp. apply elem_of_list_to_set in Hn. rewrite Forall_forall in Hall.
  specialize (Hall n Hn). assert (Hin : p ∈ w_proposal <$> log n).
  { rewrite Hall. rewrite !elem_of_cons in Hp |- *. tauto. }
  apply list_elem_of_fmap in Hin as (w & -> & Hw). eauto.
Qed.

Lemma published_digest_inj p q :
  published p → published q → proposal_digest p = proposal_digest q → p = q.
Proof.
  destruct digests as (D0 & D1 & D2). unfold published. rewrite !elem_of_cons, !elem_of_nil.
  intros [-> | [-> | [-> | []]]] [-> | [-> | [-> | []]]]; rewrite ?D0, ?D1, ?D2;
    try (intros; reflexivity); intros; exfalso; lia.
Qed.

Lemma published_wf p : published p → wf_proposal p ∧ proposal_digest p ≠ genesis_digest cfg.
Proof.
  assert (Hwf : Forall wf_proposal [b0; b1; b2]) by (repeat constructor; vm_compute; done).
  destruct digests as (D0 & D1 & D2). intros Hp. split; [by eapply Forall_forall in Hwf|].
  unfold published in Hp. rewrite !elem_of_cons, elem_of_nil in Hp.
  destruct Hp as [-> | [-> | [-> | []]]]; rewrite ?D0, ?D1, ?D2; done.
Qed.

Lemma votes_unforgeable n h v d sig :
  n ∈ honest → is_u64 h → is_u64 v → is_digest d →
  verify_member (vote_keys cfg) n (vote_signing_digest 1 77 1 h v d n) sig = true →
  ∃ w, w ∈ log n ∧ p_height (w_proposal w) = h ∧ p_view (w_proposal w) = v ∧
    proposal_digest (w_proposal w) = d.
Proof.
  intros Hn Hh Hv Hd. unfold verify_member.
  destruct (vote_keys cfg !! n); [|done]. unfold verify_digest. cbn [crypto_sign_verify_detached].
  generalize (vote_signing_digest 1 77 1 h v d n) (issued_vote n h v d Hn Hh Hv Hd).
  intros x Hx Hver. apply bool_decide_eq_true in Hver.
  destruct (Hx Hver) as (p & Hp & -> & -> & ->).
  destruct (each_voted p n Hn Hp) as (w & Hw & <-). by exists w.
Qed.

Lemma demo_network : network any_state cfg honest log published.
Proof.
  split.
  - split; [done|done|vm_compute; done].
  - reflexivity.
  - vm_compute. lia.
  - vm_compute. done.
  - intros n _. exists (key n), (execution n).2.
    exact (replay_run cfg key n messages ltac:(done) ltac:(done)).
  - intros n w Hn Hw. destruct (logs_fit n w Hn Hw) as (H1 & H2 & H3 & _ & H4).
    split; try assumption. intros d r E. apply (H4 d r E).
  - intros n w Hn Hw. destruct (logs_fit n w Hn Hw) as (_ & _ & _ & H3 & H4).
    split; [exact H3|]. intros d r E. apply (H4 d r E).
  - apply published_wf.
  - intros p q Hp Hq E. by rewrite (published_digest_inj p q Hp Hq E).
  - apply votes_unforgeable.
Qed.

Lemma qcs_wf : wf_qc (genesis_qc cfg) ∧ wf_qc c0 ∧ wf_qc c1 ∧ wf_qc c2.
Proof. apply (bool_decide_unpack _). vm_compute. exact I. Qed.

Lemma certificates :
  certifies (cfg := cfg) c0 b0 ∧ certifies (cfg := cfg) c1 b1 ∧ certifies (cfg := cfg) c2 b2.
Proof.
  destruct qcs_wf as (_ & H1 & H2 & H3).
  split_and!; (split; [assumption|split; [apply validate_qc_spec|]]); vm_compute; reflexivity.
Qed.

Lemma proof_wf : wf_proof proof.
Proof.
  destruct qcs_wf as (H1 & H2 & H3 & H4). split; [|assumption].
  apply Forall_cons; split; [assumption|]. apply Forall_cons; split; [assumption|].
  apply Forall_singleton. assumption.
Qed.

Lemma proof_published : Forall (λ b, published (cb_proposal b)) (cp_chain proof).
Proof. unfold published. repeat constructor; simpl; rewrite !elem_of_cons; tauto. Qed.
End Demo.

(** * The commit rule without consecutive views

    [HotStuffService::apply_chain_rules] commits the first block of a chain of
    three direct parent links, whatever the views of the three blocks; votes
    and locks are per view. The scenario of this file is a committee of five
    with one faulty member, four of whose replicas run the model of HotStuff
    on the messages below. Two of them commit different blocks at height 1.

    Views: b0 1, b1 2, c0 3, c1 4, b2 8, b3 9, c2 13, c3 14; b0 and c0 are
    children of genesis. Every certificate is valid, and every signature of a
    correct member in it is a vote that the member's replica cast. *)

Module Fork.
(** A polynomial hash, enough to tell the messages of the scenario apart. *)
Definition toy_prime : Z := 2 ^ 31 - 1.
#[export] Instance sodium : Sodium := {|
  crypto_hash_sha256 bytes := foldl (λ acc b, (acc * 257 + b + 1) mod toy_prime) 7 bytes;
  crypto_sign_detached sk d := Some (d * 256 + le_value sk);
  crypto_sign_verify_detached sig d pk := sig =? d * 256 + pk |}.

Definition cfg : HotStuffConfig :=
  mkConfig 1 1 77 1 999 [1; 2; 3; 4; 5]
    (list_to_map ((λ n, (n, n)) <$> [1; 2; 3; 4; 5])) 4 1 None None.
Definition correct : list Z := [1; 2; 3; 5].

Definition key (n : Z) : EpochVoteKey := mkVoteKey 1 n n (le_bytes 64 n).

Definition proposal (height view : Z) (justify : QuorumCertificate) (tag : Z) : Proposal :=
  mkProposal 1 1 77 1 height view (leader_of cfg view) (qc_proposal_digest justify)
    (qc_digest justify) 0 tag 0 0.

Definition signature_of (p : Proposal) (n : Z) : Z :=
  default 0 (sign_digest (key n)
    (vote_signing_digest 1 77 1 (p_height p) (p_view p) (proposal_digest p) n)).

Definition qc (p : Proposal) (signers : list Z) : QuorumCertificate :=
  mkQC kQcFormatVersion 1 77 1 (p_height p) (p_view p) (proposal_digest p)
    ((λ n, mkQcSigner n (signature_of p n)) <$> signers).

Definition b0 : Proposal := proposal 1 1 (genesis_qc cfg) 10.
Definition b1 : Proposal := proposal 2 2 (qc b0 correct) 11.
Definition c0 : Proposal := proposal 1 3 (genesis_qc cfg) 20.
Definition c1 : Proposal := proposal 2 4 (qc c0 correct) 21.
Definition b2 : Proposal := proposal 3 8 (qc b1 correct) 12.
Definition b3 : Proposal := proposal 4 9 (qc b2 correct) 13.
Definition c2 : Proposal := proposal 3 13 (qc c1 correct) 22.
Definition c3 : Proposal := proposal 4 14 (qc c2 [2; 3; 4; 5]) 23.

Definition common : list (Proposal * QuorumCertificate) :=
  [(b0, genesis_qc cfg); (b1, qc b0 correct); (c0, genesis_qc cfg); (c1, qc c0 correct);
   (b2, qc b1 correct)].
Definition messages (n : Z) : list (Proposal * QuorumCertificate) :=
  common ++ if n =? 1 then [(b3, qc b2 correct)]
            else [(c2, qc c1 correct); (c3, qc c2 [2; 3; 4; 5])].

Definition execution (n : Z) : list VoteRec * HotStuffService Mem :=
  replay cfg key n (messages n).

(** The certificates of the scenario with the block each one is for. *)
Definition certificates : list (Proposal * QuorumCertificate) :=
  [(b0, qc b0 correct); (b1, qc b1 correct); (c0, qc c0 correct); (c1, qc c1 correct);
   (b2, qc b2 correct); (c2, qc c2 [2; 3; 4; 5])].

(** [c] is valid for [p], and the correct members in it voted for [p]. *)
Definition genuine (voted : list (Z * list Proposal)) (e : Proposal * QuorumCertificate) : bool :=
  match validate_quorum_certificate e.2 (qc_context cfg) (vote_keys cfg) with
  | Some _ => false
  | None => (qc_proposal_digest e.2 =? proposal_digest e.1) &&
      forallb (λ '(n, log), negb (bool_decide (n ∈ qc_voters e.2)) ||
        existsb (λ p, bool_decide (p = e.1)) log) voted
  end.

Definition votes : list (Z * list Proposal) :=
  (λ n, (n, w_proposal <$> (execution n).1)) <$> correct.

Lemma all_genuine : forallb (genuine votes) certificates = true.
Proof. vm_compute. reflexivity. Qed.

Lemma commits_differ :
  committed_by_height_ (execution 1).2 !! 1 = Some (proposal_digest b0) ∧
  committed_by_height_ (execution 2).2 !! 1 = Some (proposal_digest c0) ∧
  proposal_digest b0 ≠ proposal_digest c0.
Proof. vm_compute. split_and!; [reflexivity|reflexivity|discriminate]. Qed.
End Fork.
