(* ===== verification/ConsensusTheorems.v ===== *)
(** * What the consensus layer guarantees

    The theorems of the consensus components, proved from the lemmas of the
    files they are about, each with an application to the concrete instances of
    Testbed. *)

From S2P Require Import Prelude SecurityPolicy CanonicalEncoding Selection ConsensusTypes QuorumValidation HotStuff HotStuffInvariants.
From S2P Require Import HotStuffRuns HotStuffSafety Testbed.

(** ** Agreement *)

Section agreement.
Context {St : Type} `{Sodium, IConsensusStore St} (storable : HotStuffState → Prop)
  `{!ConsensusStoreLaws St storable}.

(** C1: Two commit proofs that pass [verify_commit_proof] and whose three blocks
    have consecutive views prove the same block when they are for the same
    height, as long as at most [max_byzantine_faults n] of the [n] members are
    faulty and the others run the replica (crashes and restarts included). *)
Theorem commit_proofs_agree cfg honest log published t t' proof proof' b b' :
  network (St := St) storable cfg honest log published →
  verify_commit_proof t proof (qc_context cfg) (vote_keys cfg) = CpNone →
  verify_commit_proof t' proof' (qc_context cfg) (vote_keys cfg) = CpNone →
  consecutive_views proof = true → consecutive_views proof' = true →
  wf_proof proof → wf_proof proof' →
  Forall (λ x, published (cb_proposal x)) (cp_chain proof) →
  Forall (λ x, published (cb_proposal x)) (cp_chain proof') →
  head (cp_chain proof) = Some b → head (cp_chain proof') = Some b' →
  p_height (cb_proposal b) = p_height (cb_proposal b') → cb_proposal b = cb_proposal b'.
Proof.
  intros N Hv Hv' Hc Hc' Hwf Hwf' Hp Hp' Hb Hb' Hh.
  destruct (proof_certified t proof Hv Hwf Hp)
    as (b0 & b1 & b2 & E & C0 & C1 & C2 & E1 & E2).
  destruct (proof_certified t' proof' Hv' Hwf' Hp')
    as (b0' & b1' & b2' & E' & C0' & C1' & C2' & E1' & E2').
  unfold consecutive_views in Hc, Hc'. rewrite E in Hc, Hb. rewrite E' in Hc', Hb'.
  injection Hb as <-. injection Hb' as <-. bool_to_prop.
  destruct (Z.le_ge_cases (p_view (cb_proposal b0)) (p_view (cb_proposal b0'))) as [Hle|Hle].
  - pose proof (three_chain_descends storable N _ _ _ _ C0 C1 C2 E1 E2
      ltac:(lia) ltac:(lia) C0' Hle) as Hd.
    destruct (descends_height storable N _ _ Hd _ _ C0 C0' eq_refl eq_refl); [done|lia].
  - pose proof (three_chain_descends storable N _ _ _ _ C0' C1' C2' E1' E2'
      ltac:(lia) ltac:(lia) C0 Hle) as Hd.
    destruct (descends_height storable N _ _ Hd _ _ C0' C0 eq_refl eq_refl); [done|lia].
Qed.

(** C19: A block at the head of three certified blocks with consecutive views is
    final: every validated certificate of its view or a higher one is for a
    block that descends from it through published parent links. *)
Theorem three_chain_final cfg honest log published b0 b1 b2 c0 c1 c2 c p :
  network (St := St) storable cfg honest log published →
  published b0 → published b1 → published b2 → published p →
  certifies (cfg := cfg) c0 b0 → certifies (cfg := cfg) c1 b1 → certifies (cfg := cfg) c2 b2 →
  certifies (cfg := cfg) c p →
  p_parent_digest b1 = proposal_digest b0 → p_parent_digest b2 = proposal_digest b1 →
  p_view b1 = p_view b0 + 1 → p_view b2 = p_view b1 + 1 → p_view b0 <= qc_view c →
  descends published (proposal_digest b0) (proposal_digest p).
Proof.
  intros N P0 P1 P2 Pp C0 C1 C2 Cp E1 E2 V1 V2 Hv.
  rewrite (certifies_view storable N c p Pp Cp) in Hv.
  apply (three_chain_descends storable N b0 b1 b2 p); try done;
    (split; [done|eexists; done]).
Qed.
End agreement.

Section agreement_witnesses.
#[local] Existing Instance Demo.sodium.

Lemma commit_proofs_agree_witness :
  let b := mkCommitted Demo.b0 (genesis_qc Demo.cfg) in
  verify_commit_proof 0 Demo.proof (qc_context Demo.cfg) (vote_keys Demo.cfg) = CpNone ∧
  cb_proposal b = cb_proposal b.
Proof.
  split; [vm_compute; reflexivity|].
  apply (commit_proofs_agree any_state Demo.cfg Demo.honest Demo.log Demo.published 0 0
    Demo.proof Demo.proof _ _ Demo.demo_network).
  1,2: vm_compute; reflexivity.
  1,2: reflexivity.
  1,2: apply Demo.proof_wf.
  1,2: apply Demo.proof_published.
  all: reflexivity.
Defined.

Lemma three_chain_final_witness :
  descends Demo.published (proposal_digest Demo.b0) (proposal_digest Demo.b2).
Proof.
  apply (three_chain_final any_state Demo.cfg Demo.honest Demo.log Demo.published
    Demo.b0 Demo.b1 Demo.b2 Demo.c0 Demo.c1 Demo.c2 Demo.c2 Demo.b2 Demo.demo_network).
  1,2,3,4: unfold Demo.published; rewrite !elem_of_cons; tauto.
  1,2,3,4: apply Demo.certificates.
  1,2: vm_compute; reflexivity.
  all: vm_compute; try reflexivity; discriminate.
Defined.
End agreement_witnesses.

Section fork.
#[local] Existing Instance Fork.sodium.

(** C35: The commit rule without consecutive views is not safe: in a committee of
    five with one faulty member and the quorum of the policy, correct replicas
    1 and 2 commit different blocks at height 1, although every certificate in
    the run is valid and every signature of a correct member in it is a vote
    that its replica cast. *)
Theorem commit_rule_forks :
  Z.of_nat (size (dom (vote_keys Fork.cfg) ∖ list_to_set Fork.correct)) <=
    max_byzantine_faults (Z.of_nat (size (vote_keys Fork.cfg))) ∧
  quorum Fork.cfg = consensus_quorum (Z.of_nat (size (vote_keys Fork.cfg))) ∧
  (∀ n, n ∈ Fork.correct → run any_state (for_node Fork.cfg n) (Fork.key n)
     (Fork.execution n).1 (Fork.execution n).2) ∧
  forallb (Fork.genuine Fork.votes) Fork.certificates = true ∧
  committed_by_height_ (Fork.execution 1).2 !! 1 = Some (proposal_digest Fork.b0) ∧
  committed_by_height_ (Fork.execution 2).2 !! 1 = Some (proposal_digest Fork.c0) ∧
  proposal_digest Fork.b0 ≠ proposal_digest Fork.c0.
Proof.
  split; [vm_compute; discriminate|]. split; [reflexivity|].
  split; [intros n _; exact (replay_run Fork.cfg Fork.key n (Fork.messages n)
            ltac:(done) ltac:(done))|].
  split; [exact Fork.all_genuine|exact Fork.commits_differ].
Qed.
End fork.

(** ** One replica *)

Section replica.
Context {St : Type} `{Sodium, IConsensusStore St} (storable : HotStuffState → Prop)
  `{!ConsensusStoreLaws St storable}.

(** C3: Refinement: the votes of every run of a replica (any messages, crashes
    and restarts) form a [VoteLog]: at most one vote per view and in increasing
    order, each safe with respect to a lock that never regresses, for a block
    whose header commits to its validated justify. *)
Theorem run_refines_vote_log cfg key log (s : HotStuffService St) :
  config_ok cfg → run storable cfg key log s → VoteLog cfg log.
Proof. intros Hc Hr. apply (run_invariant storable cfg key log s Hc Hr). Qed.

(** C2: No run of a replica, through any crash and restart, casts votes for two
    different blocks in one view. *)
Theorem votes_once_per_view cfg key log (s : HotStuffService St) w w' :
  config_ok cfg → run storable cfg key log s → w ∈ log → w' ∈ log →
  p_view (w_proposal w) = p_view (w_proposal w') → w_proposal w = w_proposal w'.
Proof.
  intros Hc Hr Hw Hw' E.
  pose proof (ri_log _ _ _ (run_invariant storable cfg key log s Hc Hr)) as Hl.
  by rewrite (vote_log_unique cfg log w w' Hl Hw Hw' E).
Qed.

(** C18: In every reachable state of a replica the chain state is consistent:
    blocks are filed under their digest with a validated justify their header
    commits to, certificates under the block they certify and validated, the
    ledgers hold only verified votes and timeouts, and the high and the locked
    certificate are validated or genesis. *)
Theorem run_keeps_replica_ok cfg key log (s : HotStuffService St) :
  config_ok cfg → run storable cfg key log s → replica_ok cfg s.
Proof. intros Hc Hr. apply (run_invariant storable cfg key log s Hc Hr). Qed.

(** A vote leaves the node only after its view and the lock it was judged
    under are on disk: whenever [receive_proposal] returns a vote, loading the
    store yields the state with that view as last voted. *)
Theorem vote_is_durable cfg key (s s' : HotStuffService St) p j payload out v :
  receive_proposal cfg key s p j payload = (s', Some out) → r_vote out = Some v →
  storable (pending_state cfg s' p) →
  load (epoch cfg) (store_ s') = inl (mkState (epoch cfg) (consensus_ruleset cfg) (v_view v)
    (high_qc_ s') (locked_qc_ s')) ∧ last_voted_view_ s' = v_view v ∧
  last_voted_view_ s < v_view v.
Proof.
  intros Hr%receive_proposal_step Hv Hst. simpl in Hr. rewrite Hv in Hr.
  destruct Hr as [| payload' s1 s2 commits _ _ _ _ _ _ _ _ Es1 _ Ha Hvs]; [done|].
  destruct (accepted_frame storable cfg s s1 s2 p j payload' commits Es1 Ha) as (Elv & _).
  destruct Hvs as [| |st1 st' sq _ Esb -> [Hlt _] Hvote]; [done..|].
  destruct (Hvote v eq_refl) as (_ & -> & _). cbn in Hst |- *.
  split; [|split; [done|lia]].
  by apply (store_before_vote_true _ _ _ Hst) in Esb.
Qed.
End replica.

Section replica_witnesses.
#[local] Existing Instance Demo.sodium.

Lemma demo_config_ok : config_ok (for_node Demo.cfg 1).
Proof. split; [done|done|vm_compute; done]. Qed.

Lemma run_refines_vote_log_witness : VoteLog (for_node Demo.cfg 1) (Demo.log 1).
Proof.
  apply (run_refines_vote_log any_state (for_node Demo.cfg 1) (Demo.key 1) _ (Demo.execution 1).2
    demo_config_ok).
  exact (replay_run Demo.cfg Demo.key 1 Demo.messages ltac:(done) ltac:(done)).
Defined.

Lemma run_keeps_replica_ok_witness : replica_ok (for_node Demo.cfg 1) (Demo.execution 1).2.
Proof.
  apply (run_keeps_replica_ok any_state (for_node Demo.cfg 1) (Demo.key 1) (Demo.log 1) _
    demo_config_ok).
  exact (replay_run Demo.cfg Demo.key 1 Demo.messages ltac:(done) ltac:(done)).
Defined.

Lemma votes_once_per_view_witness :
  ∃ w, w ∈ Demo.log 1 ∧ w_proposal w = Demo.b2 ∧ w_proposal w = w_proposal w.
Proof.
  destruct (Demo.each_voted Demo.b2 1) as (w & Hw & E);
    [apply elem_of_list_to_set; set_solver|rewrite !elem_of_cons; tauto|].
  exists w. split; [exact Hw|]. split; [exact E|].
  apply (votes_once_per_view any_state (for_node Demo.cfg 1) (Demo.key 1) (Demo.log 1)
    (Demo.execution 1).2 w w demo_config_ok); [|exact Hw|exact Hw|reflexivity].
  exact (replay_run Demo.cfg Demo.key 1 Demo.messages ltac:(done) ltac:(done)).
Defined.

(** The first vote of replica 1. *)
Definition demo_first : HotStuffService Mem * option ProposalResult :=
  receive_proposal (for_node Demo.cfg 1) (Demo.key 1) (start Demo.cfg 1) Demo.b0
    (genesis_qc Demo.cfg) None.
Definition demo_vote : Vote := mkVote 1 77 1 1 1 100 1 11.

Lemma vote_is_durable_witness :
  last_voted_view_ demo_first.1 = 1.
Proof.
  apply (vote_is_durable any_state (for_node Demo.cfg 1) (Demo.key 1) (start Demo.cfg 1)
    demo_first.1 Demo.b0 (genesis_qc Demo.cfg) None (default empty_result demo_first.2) demo_vote).
  - vm_compute. reflexivity.
  - vm_compute. reflexivity.
  - exact I.
Defined.
End replica_witnesses.

(** * What messages, certificates, leaders and timers guarantee

    The theorems on the signed encodings ([ConsensusTypes.cpp]), on certificate
    validation and formation ([QuorumValidation.cpp], [HotStuffService.cpp]), on
    the leader order, the pacemaker and view synchronization, each with an
    application to a concrete input. *)

(** ** Signed encodings *)

(** two proposals whose fields fit their widths have the same signed bytes
    only when they are the same proposal. *)
Theorem proposal_encoding_injective (p q : Proposal) :
  wf_proposal p → wf_proposal q → proposal_encoder p = proposal_encoder q → p = q.
Proof. apply proposal_encoder_inj. Qed.

Lemma proposal_encoding_injective_witness : Demo.b1 = Demo.proposal 2 2 100 201.
Proof. apply proposal_encoding_injective; [by vm_compute..|reflexivity]. Defined.

(** the signed bytes of a quorum certificate identify it up to the order of
    its signers: reordering signers does not change them, and certificates with
    the same bytes have the same header and the same signers. *)
Theorem qc_encoding_canonical (c d : QuorumCertificate) :
  wf_qc c → wf_qc d → qc_encoder c = qc_encoder d ↔ qc_equiv c d.
Proof. intros Hc Hd. split; [by apply qc_encoder_inj|]. by intros ->. Qed.

(** The certificate of the second block, signers in reverse order. *)
Definition reordered_qc : QuorumCertificate :=
  mkQC kQcFormatVersion 1 77 1 2 2 101 (reverse (qc_signers Demo.c1)).

Lemma qc_encoding_canonical_witness : qc_encoder Demo.c1 = qc_encoder reordered_qc.
Proof.
  apply qc_encoding_canonical.
  - apply Demo.qcs_wf.
  - apply (bool_decide_unpack _). vm_compute. exact I.
  - repeat split. symmetry. apply reverse_Permutation.
Defined.

(** the signed bytes of a vote determine everything the vote says (ruleset,
    network, epoch, height, view, block and voter), and no vote has the bytes of
    a proposal or of a timeout vote, nor a certificate those of a proposal. *)
Theorem vote_encoding_unambiguous (v w : Vote) (p : Proposal) (t : TimeoutVote)
    (c : QuorumCertificate) :
  is_u16 (v_consensus_ruleset v) → is_digest (v_network_id v) → is_u64 (v_epoch v) →
  is_u64 (v_height v) → is_u64 (v_view v) → is_digest (v_proposal_digest v) →
  is_digest (v_voter v) →
  is_u16 (v_consensus_ruleset w) → is_digest (v_network_id w) → is_u64 (v_epoch w) →
  is_u64 (v_height w) → is_u64 (v_view w) → is_digest (v_proposal_digest w) →
  is_digest (v_voter w) →
  let bytes (x : Vote) := vote_encoder (v_consensus_ruleset x) (v_network_id x) (v_epoch x)
    (v_height x) (v_view x) (v_proposal_digest x) (v_voter x) in
  (bytes v = bytes w →
     v_consensus_ruleset v = v_consensus_ruleset w ∧ v_network_id v = v_network_id w ∧
     v_epoch v = v_epoch w ∧ v_height v = v_height w ∧ v_view v = v_view w ∧
     v_proposal_digest v = v_proposal_digest w ∧ v_voter v = v_voter w) ∧
  bytes v ≠ proposal_encoder p ∧
  bytes v ≠ timeout_vote_encoder (t_consensus_ruleset t) (t_network_id t) (t_epoch t) (t_view t)
    (t_high_qc_digest t) (t_voter t) ∧
  qc_encoder c ≠ proposal_encoder p.
Proof.
  intros H1 H2 H3 H4 H5 H6 H7 K1 K2 K3 K4 K5 K6 K7 bytes. split.
  - exact (vote_encoder_inj _ _ _ _ _ _ _ _ _ _ _ _ _ _ H1 H2 H3 H4 H5 H6 H7 K1 K2 K3 K4 K5 K6 K7).
  - exact (conj (vote_not_proposal _ _ _ _ _ _ _ p)
      (conj (vote_not_timeout _ _ _ _ _ _ _ _ _ _ _ _ _) (qc_not_proposal c p))).
Qed.

Lemma vote_encoding_unambiguous_witness :
  let v := mkVote 1 77 1 1 1 100 1 11 in
  let bytes (x : Vote) := vote_encoder (v_consensus_ruleset x) (v_network_id x) (v_epoch x)
    (v_height x) (v_view x) (v_proposal_digest x) (v_voter x) in
  bytes v ≠ proposal_encoder Demo.b0.
Proof.
  apply (vote_encoding_unambiguous (mkVote 1 77 1 1 1 100 1 11) (mkVote 1 77 1 1 1 100 1 11)
    Demo.b0 (mkTimeoutVote 1 77 1 1 200 1 11) Demo.c0);
    unfold is_u16, is_u64, is_digest; vm_compute; split; (discriminate || reflexivity).
Defined.

(** ** Certificates *)

Section certificates.
Context `{Sodium}.

(** [validate_quorum_certificate] accepts exactly the certificates of the
    current format, ruleset, network and epoch, with at most the allowed number
    of signatures, signed only by members, at least a quorum of distinct ones,
    and whose first signature of each signer verifies over the block, height and
    view of the certificate. *)
Theorem qc_validation_exact (c : QuorumCertificate) (cx : QcValidationContext)
    (keys : gmap Z Ed25519PublicKey) :
  validate_quorum_certificate c cx keys = None ↔ qc_accepted cx keys c.
Proof. apply validate_qc_spec. Qed.

Context {St : Type} `{IConsensusStore St}.

(** the certificates a replica forms are certificates every other member
    accepts: from a consistent state, [receive_vote] forms only quorum
    certificates that validate, for the view and block of the vote, and
    [receive_timeout] only timeout certificates that validate. *)
Theorem formed_certificates_valid (cfg : HotStuffConfig) (s s' s'' : HotStuffService St) (v : Vote)
    (t : TimeoutVote) (out : VoteOutcome QuorumCertificate)
    (out' : VoteOutcome TimeoutCertificate) :
  config_ok cfg → replica_ok cfg s →
  receive_vote cfg s v = (s', out) → receive_timeout cfg s t = (s'', out') →
  (∀ c, out = Formed c →
     validate_quorum_certificate c (qc_context cfg) (vote_keys cfg) = None ∧
     qc_view c = v_view v ∧ qc_proposal_digest c = v_proposal_digest v) ∧
  (∀ c, out' = Formed c →
     validate_timeout_certificate c (qc_context cfg) (vote_keys cfg) = None ∧
     tc_view c = t_view t).
Proof.
  intros Hc Hs Ev Et. split.
  - intros c E. destruct (receive_vote_ok cfg s v s' out Hc Hs Ev) as (_ & _ & Hf).
    destruct (Hf c E) as (Ha & ? & ?). by rewrite validate_qc_spec.
  - destruct (receive_timeout_ok cfg s t s'' out' Hc Hs Et) as (_ & _ & Hf). exact Hf.
Qed.

(** [synchronize_view] moves forward only to a view that enough members have
    timed out of or beyond: at least [n - quorum + 1] distinct members sent a
    verified timeout for that view or a higher one, so at least one correct
    member did. *)
Theorem view_jump_supported (cfg : HotStuffConfig) (s : HotStuffService St) :
  current_view_ s < current_view_ (synchronize_view cfg s) →
  Z.of_nat (length (leader_order cfg)) - quorum cfg + 1 <=
    Z.of_nat (size (supporters s (current_view_ (synchronize_view cfg s)))) ∧
  ∀ n, n ∈ supporters s (current_view_ (synchronize_view cfg s)) → ∃ v,
    current_view_ (synchronize_view cfg s) <= v ∧ timed_out (timeouts_by_view_ s) v n.
Proof. apply synchronize_view_supported. Qed.

(** when no block is its own ancestor, the ancestor walk of [extends_locked]
    always finishes within its bound, and its answer is whether the locked block
    is reachable from the proposal's parent through the known blocks. *)
Theorem extends_locked_exact (cfg : HotStuffConfig) (s : HotStuffService St) (proposal : Proposal)
    (rank : Digest → nat) :
  acyclic (blocks_ s) rank → blocks_ s !! genesis_digest cfg = None →
  qc_proposal_digest (locked_qc_ s) ≠ genesis_digest cfg →
  is_Some (walk_to_locked (S (size (blocks_ s))) (blocks_ s) (genesis_digest cfg)
    (qc_proposal_digest (locked_qc_ s)) (p_parent_digest proposal)) ∧
  (extends_locked cfg s proposal = true ↔
   reaches (blocks_ s) (qc_proposal_digest (locked_qc_ s)) (p_parent_digest proposal)).
Proof.
  intros Hac Hg Hl. set (locked := qc_proposal_digest (locked_qc_ s)) in *.
  set (d := p_parent_digest proposal).
  assert (Hf : (size (below (blocks_ s) rank (rank d)) < S (size (blocks_ s)))%nat)
    by (pose proof (size_below (blocks_ s) rank (rank d)); lia).
  split; [by apply (walk_returns (blocks_ s) rank Hac)|].
  unfold extends_locked. fold locked d. rewrite (proj2 (Z.eqb_neq _ _) Hl). split.
  - destruct (walk_to_locked _ _ _ _ _) as [[]|] eqn:E; try done. intros _.
    by eapply walk_reaches.
  - intros Hr. by rewrite (walk_complete (blocks_ s) rank Hac _ _ _ _ Hf Hg Hr).
Qed.
End certificates.

(** ** Leaders and timers *)

Section leaders.
Context `{Sodium}.

Lemma omap_somes {A} (l : list A) : omap id (Some <$> l) = l.
Proof. induction l as [|x l IH]; [done|]. cbn. by f_equal. Qed.

(** the leader order is the members in an order that does not depend on how
    they are listed, and in any [n] consecutive views every one of the [n]
    members leads exactly once. *)
Theorem leaders_fair (members members' : list NodeId) (checkpoint : Digest) (epoch : EpochId)
    (view : View) :
  members ≡ₚ members' → members ≠ [] → 0 <= view →
  order members checkpoint epoch = order members' checkpoint epoch ∧
  omap id ((λ i, leader (order members checkpoint epoch) (view + Z.of_nat i)) <$>
           seq 0 (length members)) ≡ₚ members.
Proof.
  intros Hp Hne Hv. unfold order. split; [by apply ranked_by_input_order|].
  set (l := ranked_by _ members). pose proof (ranked_by_perm
    (leader_score (leader_seed checkpoint epoch)) members) as Hl. fold l in Hl.
  assert (Hlne : l ≠ []) by (intros E; rewrite E in Hl; by apply Permutation_nil_l in Hl).
  rewrite <- (Permutation_length Hl), leaders_rotate by done.
  rewrite omap_somes, rotate_perm. exact Hl.
Qed.
End leaders.

(** after [k] timeouts in a row the view timeout is the base doubled [k]
    times, capped at the maximum; it never leaves its bounds, and three commits
    in a row bring it back to the base. *)
Theorem pacemaker_backs_off (p : Pacemaker) (k : nat) :
  pacemaker_ok p →
  timeout_ms_ (after_timeouts k p) = Z.min (2 ^ Z.of_nat k * timeout_ms_ p) kViewTimeoutMaxMs ∧
  pacemaker_ok (after_timeouts k p) ∧ pacemaker_ok (on_committed_block p) ∧
  (consecutive_commits_ p = 0 →
   on_committed_block (on_committed_block (on_committed_block (after_timeouts k p))) =
   new_pacemaker).
Proof.
  intros Hp. destruct (repeated_timeouts p k Hp) as [Ht Hk].
  split; [done|]. split; [done|]. split; [by apply on_committed_block_ok|].
  intros Hc. apply three_commits_reset; [done|]. by destruct k.
Qed.

Lemma pacemaker_backs_off_witness :
  timeout_ms_ (after_timeouts 3 new_pacemaker) =
    Z.min (2 ^ Z.of_nat 3 * timeout_ms_ new_pacemaker) kViewTimeoutMaxMs.
Proof. apply (pacemaker_backs_off new_pacemaker 3). split; vm_compute; done. Defined.

(** ** Applications *)

Section applications.
#[local] Existing Instance Demo.sodium.

Lemma leaders_fair_witness :
  order [3; 1; 2] 7 1 = order [1; 2; 3] 7 1 ∧
  omap id ((λ i, leader (order [3; 1; 2] 7 1) (5 + Z.of_nat i)) <$> seq 0 3) ≡ₚ [3; 1; 2].
Proof.
  apply (leaders_fair [3; 1; 2] [1; 2; 3] 7 1 5); [|done|lia].
  rewrite Permutation_cons_append. reflexivity.
Defined.

(** Replica 1 with the votes of members 1 and 2 for the first block. *)
Definition ballot (n : Z) : Vote := mkVote 1 77 1 1 1 100 n (10 + n).
Definition cfg1 : HotStuffConfig := for_node Demo.cfg 1.
Definition two_votes : HotStuffService Mem :=
  (receive_vote cfg1 (receive_vote cfg1 (start Demo.cfg 1) (ballot 1)).1 (ballot 2)).1.

Lemma cfg1_ok : config_ok cfg1.
Proof. split; [done|done|vm_compute; done]. Qed.

Lemma start_ok : replica_ok cfg1 (start Demo.cfg 1).
Proof.
  apply (run_invariant any_state cfg1 (Demo.key 1) [] _ cfg1_ok).
  exact (replay_run Demo.cfg Demo.key 1 [] ltac:(done) ltac:(done)).
Qed.

Lemma after_vote_ok (s : HotStuffService Mem) v : replica_ok cfg1 s → replica_ok cfg1 (receive_vote cfg1 s v).1.
Proof.
  intros Hs. destruct (receive_vote cfg1 s v) as [s' out] eqn:E.
  exact (proj1 (receive_vote_ok cfg1 s v s' out cfg1_ok Hs E)).
Qed.

Definition formed_qc : QuorumCertificate :=
  match (receive_vote cfg1 two_votes (ballot 3)).2 with
  | Formed c => c
  | _ => genesis_qc cfg1
  end.

Lemma third_vote_forms : (receive_vote cfg1 two_votes (ballot 3)).2 = Formed formed_qc.
Proof. vm_compute. reflexivity. Qed.

Definition late : TimeoutVote := mkTimeoutVote 1 77 1 1 200 1 11.

Lemma formed_certificates_valid_witness :
  validate_quorum_certificate formed_qc (qc_context cfg1) (vote_keys cfg1) = None ∧
  qc_view formed_qc = v_view (ballot 3) ∧
  qc_proposal_digest formed_qc = v_proposal_digest (ballot 3).
Proof.
  exact (proj1 (formed_certificates_valid cfg1 two_votes _ _ (ballot 3) late _ _ cfg1_ok
    (after_vote_ok _ (ballot 2) (after_vote_ok _ (ballot 1) start_ok))
    (surjective_pairing (receive_vote cfg1 two_votes (ballot 3)))
    (surjective_pairing (receive_timeout cfg1 two_votes late))) formed_qc third_vote_forms).
Defined.

(** Members 2 and 3 have timed out of view 6. *)
Definition timed_out_state : HotStuffService Mem :=
  start Demo.cfg 1 <| timeouts_by_view_ :=
    {[ 6 := {[ 2 := mkTimeoutVote 1 77 1 6 200 2 0; 3 := mkTimeoutVote 1 77 1 6 200 3 0 ]} ]} |>.

Lemma view_jump_supported_witness :
  current_view_ (synchronize_view cfg1 timed_out_state) = 6 ∧
  Z.of_nat (length (leader_order cfg1)) - quorum cfg1 + 1 <=
    Z.of_nat (size (supporters timed_out_state
      (current_view_ (synchronize_view cfg1 timed_out_state)))).
Proof.
  split; [vm_compute; reflexivity|].
  apply (view_jump_supported cfg1 timed_out_state). vm_compute. reflexivity.
Defined.

Definition demo_replica : HotStuffService Mem := (Demo.execution 1).2.
Definition demo_child : Proposal := Demo.proposal 4 4 102 203.
Definition demo_rank (d : Digest) : nat :=
  if d =? 100 then 1 else if d =? 101 then 2 else if d =? 102 then 3 else 0.

Lemma demo_acyclic : acyclic (blocks_ demo_replica) demo_rank.
Proof.
  assert (Hall : map_Forall (λ d r, (demo_rank (p_parent_digest (b_proposal r)) < demo_rank d)%nat)
    (blocks_ demo_replica)) by (apply (bool_decide_unpack _); vm_compute; exact I).
  exact Hall.
Qed.

Lemma extends_locked_exact_witness :
  qc_proposal_digest (locked_qc_ demo_replica) = 100 ∧
  reaches (blocks_ demo_replica) (qc_proposal_digest (locked_qc_ demo_replica))
    (p_parent_digest demo_child).
Proof.
  split; [vm_compute; reflexivity|].
  apply (extends_locked_exact Demo.cfg demo_replica demo_child demo_rank demo_acyclic);
    vm_compute; [reflexivity|discriminate|reflexivity].
Defined.
End applications.
