(* ===== verification/AuthorityTheorems.v ===== *)
(** * What an authority chain guarantees

    The theorems on [Epoch/AuthorityChain.cpp], [Epoch/Tier1Membership.cpp] and
    the endpoint proof, with a concrete two-epoch chain they are applied to. *)

From S2P Require Import Prelude SecurityPolicy CanonicalEncoding Selection ConsensusTypes.
From S2P Require Import QuorumValidation EpochAuthority.

Section authority_theorems.
Context `{Sodium}.

(** [advance_epoch_authority] hands authority over only along a proved link:
    the next authority is well formed (a sorted set of at least the minimum
    size, keyed exactly, with the thresholds of the policy), one epoch later on
    the same network, anchored in the previous one, with a new group key and no
    reused vote key, and its handoff record was committed by a quorum of the
    previous epoch's vote keys (three linked blocks whose certificates
    validate). *)
Theorem handoff_is_proved (a next : VerifiedEpochAuthority) (handoff : EpochHandoff)
    (proof : CommitProof) :
  advance_epoch_authority a handoff proof = inl next →
  (authority_ok next ∧ kMinActiveTier1 <= Z.of_nat (length (au_members next)) ∧
   au_network_id next = au_network_id a ∧ au_epoch next = au_epoch a +64 1 ∧
   au_previous_anchor next = au_anchor_digest a ∧
   au_anchor_digest next = epoch_handoff_digest handoff ∧
   au_group_public_key next ≠ au_group_public_key a ∧
   repeats_vote_key (au_vote_keys next) (au_vote_keys a) = false) ∧
  let context := mkContext kConsensusRulesetVersion (au_network_id a) (au_epoch a)
                   (au_consensus_quorum a) in
  ∃ b0 b1 b2, cp_chain proof = [b0; b1; b2] ∧
    p_transitions_digest (cb_proposal b0) = epoch_handoff_digest handoff ∧
    qc_accepted context (au_vote_keys a) (cb_justify b1) ∧
    qc_accepted context (au_vote_keys a) (cb_justify b2) ∧
    qc_accepted context (au_vote_keys a) (cp_certifying proof).
Proof.
  intros (H1 & H2 & H3 & _ & H5 & H6 & _ & H8 & H9 & H10 & H11)%advance_spec.
  split; [done|]. apply verify_commit_proof_shape in H11 as (b0 & b1 & b2 & E & Et & _ & _ & _ & ?).
  exists b0, b1, b2. split; [done|]. by split.
Qed.

(** C11: whatever pages a walker is given, in any order and with any refusals, its
    authority is one that the Genesis key it was created with certifies: an
    epoch one signed by that key followed by proved handoffs, well formed and on
    that key's network; its epoch never goes back. *)
Theorem walker_only_trusts_chain (genesis : Ed25519PublicKey) (pages : list AuthorityChainPage)
    (more : list AuthorityChainPage) :
  Z.of_nat (length ((pages ++ more) ≫= pg_links)) + Z.of_nat (length (pages ++ more)) < two64 →
  walker_epoch (walker_pages (new_walker genesis) pages) <=
    walker_epoch (walker_pages (new_walker genesis) (pages ++ more)) ∧
  ∀ a, authority_ (walker_pages (new_walker genesis) (pages ++ more)) = Some a →
    trusted genesis a ∧ authority_ok a ∧ 1 <= au_epoch a ∧
    au_network_id a = derive_network_id genesis kSecurityRulesetVersion kConsensusRulesetVersion.
Proof.
  intros Hb. set (w0 := new_walker genesis).
  assert (Hw0 : walker_ok w0) by (split; [done|]; intros a; done).
  assert (E0 : walker_epoch w0 = 0) by done.
  assert (Hsplit : ∀ l, walker_epoch w0 + Z.of_nat (length (l ≫= pg_links)) +
    Z.of_nat (length l) < two64 → walker_ok (walker_pages w0 l) ∧
    genesis_public_key_ (walker_pages w0 l) = genesis ∧ 0 <= walker_epoch (walker_pages w0 l)).
  { intros l Hl. destruct (walker_pages_ok l w0 Hw0) as (Hw & Eg & He); [lia|lia|].
    split; [done|]. split; [done|lia]. }
  split.
  - rewrite bind_app, !length_app in Hb.
    assert (Eapp : walker_pages w0 (pages ++ more) = walker_pages (walker_pages w0 pages) more)
      by apply foldl_app.
    rewrite Eapp. clear Eapp Hsplit. revert w0 Hw0 E0. assert (Hgen : ∀ l w,
      walker_ok w → 0 <= walker_epoch w →
      walker_epoch w + Z.of_nat (length (l ≫= pg_links)) + Z.of_nat (length l) < two64 →
      walker_epoch (walker_pages w l) <=
        walker_epoch w + Z.of_nat (length (l ≫= pg_links)) + Z.of_nat (length l)).
    { induction l as [|page l IH]; intros w Hw H0 Hl; [cbn; lia|].
      rewrite bind_cons, length_app in Hl |- *. cbn [length] in Hl |- *.
      unfold walker_pages. cbn [foldl]. destruct (walker_apply w page) as [w1 r] eqn:E.
      destruct (walker_apply_ok w page w1 r Hw) as (Hw1 & _ & He & _); [lia|exact E|].
      specialize (IH w1 Hw1). unfold walker_pages in IH. cbn. lia. }
    intros w0 Hw0 E0. destruct (walker_pages_ok pages w0 Hw0) as (Hw1 & _ & He1); [lia|lia|].
    pose proof (Hgen pages w0 Hw0 ltac:(lia) ltac:(lia)) as Hup.
    destruct (walker_pages_ok more (walker_pages w0 pages) Hw1) as (_ & _ & He2); [lia|lia|].
    exact He2.
  - intros a Ea. destruct (Hsplit (pages ++ more)) as ([_ Hw] & Eg & _); [lia|].
    destruct (Hw a Ea) as [Ht H1]. rewrite Eg in Ht. split; [done|].
    destruct (trusted_ok genesis a Ht). done.
Qed.

(** an endpoint proof is accepted exactly when a member of the verified
    authority signed the client's nonce, the epoch, and the host (up to letter
    case) and port the client reached. *)
Theorem endpoint_proof_exact (a : VerifiedEpochAuthority) (proof : Tier1EndpointProof)
    (host : string) (port : Z) (nonce : list Z) :
  check_tier1_endpoint_proof a proof host port nonce = Valid ↔
  length nonce = kTier1EndpointNonceBytes ∧ ep_node proof ∈ au_members a ∧
  ep_epoch proof = au_epoch a ∧ ep_port proof = port ∧ same_host (ep_host proof) host = true ∧
  crypto_sign_verify_detached (ep_signature proof)
    (tier1_endpoint_proof_digest (au_network_id a) (au_epoch a) (ep_node proof) host port nonce)
    (ep_node proof) = true.
Proof. apply endpoint_proof_valid. Qed.
End authority_theorems.

(** ** A chain of two epochs *)

Module TwoEpochs.
(** A hash without content and signatures that verify. *)
#[export] Instance sodium : Sodium := {|
  crypto_hash_sha256 _ := 0;
  crypto_sign_detached _ d := Some d;
  crypto_sign_verify_detached _ _ _ := true |}.

Definition founders : list (NodeId * Ed25519PublicKey) :=
  [(3, 13); (1, 11); (5, 15); (2, 12); (4, 14)].
Definition certificate : BootstrapCertificate :=
  mkBootstrap 0 1 0 (authority_threshold 5) 70 0 0 0 0 0 kSecurityRulesetVersion
    kConsensusRulesetVersion 0.
Definition members : list NodeId := [1; 2; 3; 4; 6].
Definition handoff : EpochHandoff :=
  mkHandoff 0 1 2 0 0 members (list_to_map ((λ n, (n, 1)) <$> members))
    (list_to_map ((λ n, (n, n + 20)) <$> members)) 71 0 2 0 kSecurityRulesetVersion
    kConsensusRulesetVersion.
Definition certifying (height view : Z) : QuorumCertificate :=
  mkQC kQcFormatVersion kConsensusRulesetVersion 0 1 height view 0
    ((λ n, mkQcSigner n 0) <$> [1; 2; 3; 4]).
Definition carried (height view : Z) : CommittedBlock :=
  mkCommitted (mkProposal kSecurityRulesetVersion kConsensusRulesetVersion 0 1 height view 1 0 0
    0 0 0 0) (certifying (height - 1) (view - 1)).
Definition proof : CommitProof := mkProof [carried 5 5; carried 6 6; carried 7 7] (certifying 7 7).
Definition page : AuthorityChainPage :=
  mkPage (Some (certificate, founders)) [mkHandoffProof handoff proof].

Definition nobody : VerifiedEpochAuthority := mkAuthority 0 0 [] ∅ ∅ 0 0 0 0 0 0 0 0 0 0.
Definition first : VerifiedEpochAuthority :=
  default nobody (verify_epoch_one_authority certificate 7 founders).
Definition second : VerifiedEpochAuthority :=
  match advance_epoch_authority first handoff proof with inl a => a | inr _ => nobody end.
End TwoEpochs.

Section applications.
#[local] Existing Instance TwoEpochs.sodium.

Lemma handoff_is_proved_witness :
  au_epoch TwoEpochs.second = au_epoch TwoEpochs.first +64 1 ∧
  au_group_public_key TwoEpochs.second ≠ au_group_public_key TwoEpochs.first.
Proof.
  destruct (handoff_is_proved TwoEpochs.first TwoEpochs.second TwoEpochs.handoff TwoEpochs.proof)
    as [(_ & _ & _ & H1 & _ & _ & H2 & _) _]; [vm_compute; reflexivity|].
  split; [exact H1|exact H2].
Defined.

Lemma walker_only_trusts_chain_witness :
  authority_ (walker_pages (new_walker 7) ([TwoEpochs.page] ++ [TwoEpochs.page])) =
    Some TwoEpochs.second ∧ au_epoch TwoEpochs.second = 2 ∧ trusted 7 TwoEpochs.second.
Proof.
  assert (E : authority_ (walker_pages (new_walker 7) ([TwoEpochs.page] ++ [TwoEpochs.page])) =
    Some TwoEpochs.second) by (vm_compute; reflexivity).
  split; [exact E|]. split; [vm_compute; reflexivity|].
  destruct (walker_only_trusts_chain 7 [TwoEpochs.page] [TwoEpochs.page]) as [_ Ht];
    [vm_compute; reflexivity|].
  exact (proj1 (Ht TwoEpochs.second E)).
Defined.
End applications.
