(* ===== verification/IpamTheorems.v ===== *)
(** * What the address manager guarantees

    The theorems on [IPAM/IPAMService.cpp]: disjoint blocks and distinct
    backbone addresses over every sequence of calls, the address text and the
    range arithmetic, the tree synchronization, and the calls that do not do
    what their comments say. *)

From S2P Require Import Prelude SecurityPolicy CanonicalEncoding ConsensusTypes Json.
From S2P Require Import FileStorage IpamAddress Ipam IpamInvariants IpamBackbone.
From S2P Require Import IpamPersistence TestCodec.

(** ** A concrete service *)

Module Office.
(** Storage that keeps nothing, and the library's own map order. *)
#[export] Instance no_storage : Storage unit := {|
  write_file _ _ _ s := (false, s);
  read_file _ _ _ := None |}.
#[export] Instance map_order : UnorderedMap := {|
  entries := map_to_list;
  entries_perm := λ m, Permutation_refl (map_to_list m) |}.
#[export] Instance codec : TextCodec := {|
  sodium_bin2base64 _ := EmptyString;
  sodium_base642bin _ _ := None;
  json_dump _ := [];
  json_parse _ := None |}.

Definition fresh : IPAM unit := new_ipam tt [100; 101; 102; 103; 104; 105; 106; 107].
Definition calls : list Request :=
  [AllocatePrivate "a" 30; AllocateShared "b" 28; AllocatePrivate "b" 24; AllocateTunnel "a";
   Release "a" Private; AllocatePrivate "c" 30; AllocatePrivate "a" 29;
   AllocateBackbone "s1" "AAAA"; AllocateBackbone "s2" "AAAA"].
Definition used : IPAM unit := default fresh (serve_all calls fresh).
Definition record_of (T : BlockType) (n : string) (s : IPAM unit) : Allocation :=
  default empty_allocation (allocations_ s !! n ≫= slot T).
End Office.

Section theorems.
Context `{TextCodec, UnorderedMap} {St : Type} `{Storage St}.

(** C37: whatever calls a fresh address manager serves, in any order and with any
    pattern of errors, the private (and the shared) blocks of two nodes are
    inside the range of their type and do not overlap, as long as no call
    expands a block of that type and every requested prefix length is between
    2 and 32 (callers ask for 24 to 30). *)
Theorem blocks_never_overlap (st : St) (clk : list Z) (requests : list Request) (s : IPAM St)
    (T : BlockType) (n n' : string) (a a' : Allocation) :
  T = Private ∨ T = Shared →
  Forall (request_ok T) requests →
  serve_all requests (new_ipam st clk) = Some s →
  n ≠ n' →
  allocations_ s !! n ≫= slot T = Some a →
  allocations_ s !! n' ≫= slot T = Some a' →
  ∃ ip p ip' p', parse_cidr (al_base_network a) = Some (ip, p) ∧
    parse_cidr (al_base_network a') = Some (ip', p') ∧
    block_base T <= ip ∧ ip + 2 ^ (32 - p) <= block_base T + block_size T ∧
    cidrs_overlap ip p ip' p' = false.
Proof.
  intros HT Hok Hrun Hn Ha Ha'. apply (block_inv_meaning T s HT) with (n := n) (n' := n'); try done.
  apply (serve_all_inv (block_inv T) (request_ok T)) with (requests := requests)
    (s := new_ipam st clk); try done.
  - intros r t Hr Hl Hi. by apply serve_block_inv.
  - apply new_block_inv.
Qed.

(** at every point of every sequence of calls (gossip conflicts, evictions,
    releases and failed calls included) no two servers hold the same backbone
    address. *)
Theorem backbone_addresses_unique (st : St) (clk : list Z) (requests : list Request)
    (s : IPAM St) (n n' : string) (a a' : Allocation) :
  serve_all requests (new_ipam st clk) = Some s →
  n ≠ n' →
  allocations_ s !! n ≫= as_backbone = Some a →
  allocations_ s !! n' ≫= as_backbone = Some a' →
  al_base_network a ≠ al_base_network a'.
Proof.
  intros Hrun Hn Ha Ha' E.
  assert (Hu : unique_backbone s).
  { apply (serve_all_inv unique_backbone (λ _, True)) with (requests := requests)
      (s := new_ipam st clk); try done.
    - intros r t _ _. apply serve_unique.
    - by apply Forall_true. }
  apply (Hu n n' (al_base_network a)); [done| |]; unfold net.
  - change (slot Backbone) with as_backbone. by rewrite Ha.
  - change (slot Backbone) with as_backbone. by rewrite Ha', E.
Qed.

(** [allocate_backbone_ip] for a server without a backbone address returns an
    address of 172.16.0.10 to 172.16.3.255 that nobody holds, records it, and
    throws exactly when all 1014 of them are held. *)
Theorem backbone_allocation_total (s : IPAM St) (n key : string) :
  locked s = false →
  allocations_ s !! n ≫= as_backbone = None →
  (∃ o a s', usable o ∧ allocate_backbone_ip n key s = Returned a s' ∧
     al_base_network a = format_cidr (kBackboneBase + o) 32 ∧
     allocations_ s' !! n ≫= as_backbone = Some a ∧
     ∀ m b, allocations_ s !! m ≫= as_backbone = Some b →
       al_base_network b ≠ al_base_network a) ∨
  ((∃ s', allocate_backbone_ip n key s = Threw s') ∧
   ∀ o, usable o → ∃ m b, allocations_ s !! m ≫= as_backbone = Some b ∧
     al_base_network b = format_cidr (kBackboneBase + o) 32).
Proof.
  intros Hl Hn.
  assert (Hnet : ∀ m x, net Backbone (allocations_ s) m = Some x ↔
    ∃ b, allocations_ s !! m ≫= as_backbone = Some b ∧ al_base_network b = x).
  { intros m x. unfold net. change (slot Backbone) with as_backbone.
    destruct (allocations_ s !! m ≫= as_backbone) as [b|]; simpl; naive_solver. }
  unfold allocate_backbone_ip. rewrite lock_run by done. rewrite bind_find.
  set (s1 := s <| locked := true |>). change (allocations_ s1) with (allocations_ s). rewrite Hn.
  change ((get ≫= ?f) s1) with (f s1 s1). cbv beta. change (allocations_ s1) with (allocations_ s).
  destruct (probe _ (allocations_ s) (preferred_offset key)) as [o|] eqn:Ep.
  - left. apply probe_some in Ep as [Ho Hfree]; [|apply preferred_usable].
    destruct (now_run s1) as (t & s2 & E2 & C2). rewrite (bind_returned _ _ _ _ _ E2).
    destruct (now_run s2) as (t' & s3 & E3 & C3). rewrite (bind_returned _ _ _ _ _ E3). cbv zeta.
    set (a := mkAllocation Backbone _ n t t' "" "").
    rewrite (bind_returned _ _ _ _ _ (assign_run n Backbone (Some a) s3)).
    rewrite (bind_returned (modify _) _ (with_slot n Backbone (Some a) s3) tt _ eq_refl).
    match goal with |- context [(save_allocations ≫= _) ?t] =>
      set (s4 := t); destruct (save_run s4) as (s5 & E5 & C5) end.
    rewrite (bind_returned _ _ _ _ _ E5).
    exists o, a, (s5 <| locked := false |>). split; [done|]. split; [done|]. split; [done|].
    split.
    + change (allocations_ (s5 <| locked := false |>)) with (allocations_ s5).
      destruct C5 as [-> _]. assert (E4 : allocations_ s4 = allocations_ (with_slot n Backbone (Some a) s3))
        by (subst s4; by destruct (_ <? _)).
      rewrite E4. cbn. by rewrite lookup_insert_eq.
    + intros m b Hb Eb. apply not_true_iff_false in Hfree. apply Hfree, backbone_taken_spec.
      exists m. apply Hnet. by exists b.
  - right. split; [eexists; reflexivity|]. intros o Ho.
    rewrite probe_exhausted in Ep by apply preferred_usable.
    apply (Ep o), backbone_taken_spec in Ho as (m & Hm). apply Hnet in Hm as (b & Hb & Eb).
    by exists m, b.
Qed.

(** after [sync_tree_tunnel_addresses] every tree address of the assignment is
    recorded for its node, every tunnel record in the tree's range is the one
    the tree assigns, records outside that range survive unless the tree gives
    their node an address, and the other block types are as before. *)
Theorem sync_matches_tree (assigned : gmap string string) (s : IPAM St) :
  locked s = false →
  (∀ n a, allocations_ s !! n ≫= as_tunnel = Some a → is_Some (parse_cidr (al_base_network a))) →
  ∃ changed s', sync_tree_tunnel_addresses assigned s = Returned changed s' ∧
    (∀ n c, assigned !! n = Some c → tree_address c = true →
       net Tunnel (allocations_ s') n = Some c) ∧
    (∀ n x, net Tunnel (allocations_ s') n = Some x → tree_text x = true →
       assigned !! n = Some x) ∧
    (∀ n x, net Tunnel (allocations_ s) n = Some x → tree_text x = false →
       (∀ c, assigned !! n = Some c → tree_address c = false) →
       net Tunnel (allocations_ s') n = Some x) ∧
    (∀ T n, T ≠ Tunnel → net T (allocations_ s') n = net T (allocations_ s) n).
Proof.
  intros Hl Hp. apply sync_run; [done|]. intros n x. unfold net.
  change (slot Tunnel) with as_tunnel.
  destruct (allocations_ s !! n ≫= as_tunnel) as [a|] eqn:Ea; [|done].
  intros [= <-]. by apply (Hp n).
Qed.

(** [sweep_expired_tunnel_leases] never returns: it takes the mutex and then
    calls [tunnel_lease_timeout_sec], which takes it again. *)
Theorem sweep_deadlocks (s : IPAM St) : sweep_expired_tunnel_leases s = Deadlock.
Proof.
  unfold sweep_expired_tunnel_leases, with_lock at 1. destruct (locked s); [done|].
  unfold mbind at 1, ipam_bind at 1, tunnel_lease_timeout_sec, with_lock. done.
Qed.
End theorems.

(** ** Restart *)

Section restart.
Context `{TextCodec, ValueCodec, UnorderedMap, !TextCodecLaws} {St : Type} `{Storage St}
  `{!StorageLaws St "ipam" "allocations.json"}.

(** a restart loses nothing: when the storage takes the write, the service that
    starts from what [save_allocations] wrote holds exactly the saved records,
    and its rebuilt cursors keep the private and shared blocks disjoint, so the
    allocations after the restart are disjoint from those before it. *)
Theorem allocations_survive_restart (s : IPAM St) (clk : list Z) :
  (∀ n aset, allocations_ s !! n = Some aset → stored_set n aset) →
  block_inv Private s → block_inv Shared s → Forall is_u64 (clock s) →
  (∀ envelope, (write_file "ipam" "allocations.json" envelope (storage_ s)).1 = true) →
  ∃ s' s'', save_allocations s = Returned tt s' ∧
    on_start (new_ipam (storage_ s') clk) = Returned tt s'' ∧
    allocations_ s'' = allocations_ s ∧
    ∀ requests t T, T = Private ∨ T = Shared → Forall (request_ok T) requests →
      serve_all requests s'' = Some t → block_inv T t.
Proof.
  intros Hst Hp Hs Hclk Hwr.
  destruct (restart_run s clk Hst Hp Hs Hclk Hwr) as (s' & s'' & E1 & E2 & E3 & E4 & P2 & S2).
  exists s', s''. split; [done|]. split; [done|]. split; [done|].
  intros requests t T HT Hok Hrun.
  apply (serve_all_inv (block_inv T) (request_ok T)) with (requests := requests) (s := s'');
    try done; [|by destruct HT as [-> | ->]].
  intros r u Hr Hl Hi. by apply serve_block_inv.
Qed.
End restart.

(** ** Addresses *)

(** printing an address and a prefix length and parsing the text gives them
    back, for every 32-bit address and every prefix length of a byte. *)
Theorem cidr_round_trip (ip prefix : Z) :
  is_u32 ip → 0 <= prefix < 256 → parse_cidr (format_cidr ip prefix) = Some (ip, prefix).
Proof. apply parse_format_cidr. Qed.

(** [cidrs_overlap] answers true exactly when some address belongs to both
    blocks (the addresses that share the network part of the block). *)
Theorem overlap_means_common_address (a p b q : Z) :
  is_u32 a → is_u32 b → 0 <= p <= 32 → 0 <= q <= 32 →
  cidrs_overlap a p b q = true ↔ ∃ x, in_block a p x ∧ in_block b q x.
Proof. apply cidrs_overlap_spec. Qed.

(** [server_tunnel_for_backbone] accepts exactly the texts of the allocatable
    backbone addresses (bare or with /32), maps offset to offset, and two
    different backbone addresses never get the same tunnel address. *)
Theorem server_tunnel_mapping (cidr tunnel : string) :
  server_tunnel_for_backbone cidr = Some tunnel ↔
  ∃ offset, kBackboneUsableStart <= offset < kBackboneSize ∧
    tunnel = format_cidr (kServerTunnelBase + offset) 32 ∧
    (cidr = u32_to_ip (kBackboneBase + offset) ∨ cidr = format_cidr (kBackboneBase + offset) 32).
Proof.
  split; [apply server_tunnel_inv|].
  intros (offset & Ho & -> & [-> | ->]); [by apply server_tunnel_bare|by apply server_tunnel_maps].
Qed.

Lemma cidr_round_trip_witness :
  format_cidr 2886729738 32 = "172.16.0.10/32" ∧
  parse_cidr (format_cidr 2886729738 32) = Some (2886729738, 32).
Proof.
  split; [vm_compute; reflexivity|].
  apply cidr_round_trip; [split; vm_compute; [discriminate|reflexivity]|lia].
Defined.

Lemma overlap_means_common_address_witness :
  ∃ x, in_block 176160768 24 x ∧ in_block 176160772 30 x.
Proof.
  apply (overlap_means_common_address 176160768 24 176160772 30);
    [split; vm_compute; [discriminate|reflexivity]..|lia|lia|vm_compute; reflexivity].
Defined.

(** ** Concrete runs *)

Section runs.
Import Office.

Lemma blocks_never_overlap_witness :
  ∃ ip p ip' p', parse_cidr (al_base_network (record_of Private "b" used)) = Some (ip, p) ∧
    parse_cidr (al_base_network (record_of Private "c" used)) = Some (ip', p') ∧
    block_base Private <= ip ∧ ip + 2 ^ (32 - p) <= block_base Private + block_size Private ∧
    cidrs_overlap ip p ip' p' = false.
Proof.
  apply (blocks_never_overlap tt [100; 101; 102; 103; 104; 105; 106; 107] calls used Private "b" "c").
  - by left.
  - repeat constructor; intros; lia || done.
  - vm_compute. reflexivity.
  - done.
  - vm_compute. reflexivity.
  - vm_compute. reflexivity.
Defined.

Lemma backbone_addresses_unique_witness :
  al_base_network (record_of Backbone "s1" used) ≠ al_base_network (record_of Backbone "s2" used).
Proof.
  apply (backbone_addresses_unique tt [100; 101; 102; 103; 104; 105; 106; 107] calls used "s1" "s2").
  - vm_compute. reflexivity.
  - done.
  - vm_compute. reflexivity.
  - vm_compute. reflexivity.
Defined.

Lemma backbone_allocation_total_witness :
  (∃ o a s', usable o ∧ allocate_backbone_ip "s3" "AAAA" used = Returned a s' ∧
     al_base_network a = format_cidr (kBackboneBase + o) 32 ∧
     allocations_ s' !! "s3" ≫= as_backbone = Some a ∧
     ∀ m b, allocations_ used !! m ≫= as_backbone = Some b →
       al_base_network b ≠ al_base_network a) ∨
  ((∃ s', allocate_backbone_ip "s3" "AAAA" used = Threw s') ∧
   ∀ o, usable o → ∃ m b, allocations_ used !! m ≫= as_backbone = Some b ∧
     al_base_network b = format_cidr (kBackboneBase + o) 32).
Proof. apply (backbone_allocation_total used "s3" "AAAA"); vm_compute; reflexivity. Defined.

(** The tree moves a node's address and adds another. *)
Definition tree_assignment : gmap string string :=
  {[ "a" := "10.65.0.7/32"; "d" := "10.65.0.8/32" ]}.

Definition tunnel_parses (e : string * AllocationSet) : bool :=
  match as_tunnel e.2 with
  | Some t => bool_decide (is_Some (parse_cidr (al_base_network t)))
  | None => true
  end.

Lemma tunnels_parse (m : gmap string AllocationSet) :
  forallb tunnel_parses (map_to_list m) = true →
  ∀ n a, m !! n ≫= as_tunnel = Some a → is_Some (parse_cidr (al_base_network a)).
Proof.
  rewrite forallb_forall. intros Hall n a E. destruct (m !! n) as [aset|] eqn:En; [|done].
  apply elem_of_map_to_list, list_elem_of_In, Hall in En. unfold tunnel_parses in En.
  simpl in E, En. rewrite E in En. by apply bool_decide_eq_true_1 in En.
Qed.

Lemma sync_matches_tree_witness :
  ∃ changed s', sync_tree_tunnel_addresses tree_assignment used = Returned changed s' ∧
    (∀ n c, tree_assignment !! n = Some c → tree_address c = true →
       net Tunnel (allocations_ s') n = Some c) ∧
    (∀ n x, net Tunnel (allocations_ s') n = Some x → tree_text x = true →
       tree_assignment !! n = Some x) ∧
    (∀ n x, net Tunnel (allocations_ used) n = Some x → tree_text x = false →
       (∀ c, tree_assignment !! n = Some c → tree_address c = false) →
       net Tunnel (allocations_ s') n = Some x) ∧
    (∀ T n, T ≠ Tunnel → net T (allocations_ s') n = net T (allocations_ used) n).
Proof.
  apply (sync_matches_tree tree_assignment used); [vm_compute; reflexivity|].
  apply tunnels_parse. vm_compute. reflexivity.
Defined.

(** [do_expand_allocation] can make two nodes' blocks overlap: after two /30
    blocks are handed out, expanding the first one to /24 succeeds and covers
    the second. *)
Theorem expansion_can_overlap :
  ∃ s, serve_all [AllocatePrivate "a" 30; AllocatePrivate "b" 30; Expand "a" Private 24]
         (new_ipam tt []) = Some s ∧
    net Private (allocations_ s) "a" = Some "10.128.0.0/24" ∧
    net Private (allocations_ s) "b" = Some "10.128.0.4/30" ∧
    do_check_conflict "10.128.0.4/30" s = Returned true s ∧
    cidrs_overlap 176160768 24 176160772 30 = true.
Proof. eexists. split; [vm_compute; reflexivity|]. by vm_compute. Qed.

(** the conflict rule does not compare the two servers' keys when the holder
    allocated locally: the local record carries no key, so a server with the
    lexicographically lower key evicts the holder of the higher one. *)
Theorem lower_key_evicts_local_holder :
  ∃ s, serve_all [AllocateBackbone "high" "zzzz";
                  ApplyRemote (mkBackboneDelta "d1" "allocate" "low" "aaaa" "172.16.3.48/32" 7 "" "")]
         (new_ipam tt []) = Some s ∧
    String.ltb "aaaa" "zzzz" = true ∧
    format_cidr (kBackboneBase + preferred_offset "zzzz") 32 = "172.16.3.48/32" ∧
    net Backbone (allocations_ s) "high" = None ∧
    net Backbone (allocations_ s) "low" = Some "172.16.3.48/32".
Proof. eexists. split; [vm_compute; reflexivity|]. by vm_compute. Qed.
End runs.

(** ** A service with storage *)

Module Depot.
#[export] Instance memory : Storage (option SignedEnvelope) := {|
  write_file _ _ e _ := (true, Some e);
  read_file _ _ s := s |}.
#[export] Instance memory_laws category name :
  StorageLaws (option SignedEnvelope) category name.
Proof. split. intros e s s' _ [= <-]. reflexivity. Qed.
#[export] Instance values : ValueCodec := {|
  json_dump_indented := json_dump;
  json_dump_discarded _ _ := [];
  json_float_to_integer _ := 0 |}.

#[local] Existing Instance Office.map_order.

Definition calls : list Request :=
  [AllocatePrivate "a" 30; AllocateShared "b" 28; AllocatePrivate "b" 24; AllocateTunnel "a"].
Definition before : IPAM (option SignedEnvelope) :=
  default (new_ipam None []) (serve_all calls (new_ipam None [1; 2; 3; 4; 5; 6; 7; 8; 9; 10])).

Definition record_checks (n : string) (T : BlockType) (a : Allocation) : bool :=
  String.eqb (al_customer_node_id a) n && bool_decide (al_block_type a = T) &&
  bool_decide (Forall (λ t, Forall (λ b, b < 128) (string_bytes t))
    [al_base_network a; al_customer_node_id a; al_signer_pubkey a; al_signature a]) &&
  bool_decide (0 <= al_allocated_at a < two64 ∧ 0 <= al_last_seen a < two64) &&
  bool_decide (is_Some (parse_cidr (al_base_network a))).

Lemma record_checked n T a : record_checks n T a = true → stored_record n T a.
Proof.
  unfold record_checks. rewrite !andb_true_iff, !bool_decide_eq_true.
  intros ((((E & HT) & Htext) & Htime) & Hnet). apply String.eqb_eq in E. by split.
Qed.

Definition set_checks (e : string * AllocationSet) : bool :=
  negb (set_is_empty e.2) &&
  forallb (λ T, match slot T e.2 with Some a => record_checks e.1 T a | None => true end)
    [Tunnel; Private; Shared; Backbone].

Lemma sets_checked (m : gmap string AllocationSet) :
  forallb set_checks (map_to_list m) = true →
  ∀ n aset, m !! n = Some aset → stored_set n aset.
Proof.
  rewrite forallb_forall. intros Hall n aset Hn.
  apply elem_of_map_to_list, list_elem_of_In, Hall in Hn. unfold set_checks in Hn.
  apply andb_true_iff in Hn as [Hne Hs]. split; [by apply negb_true_iff|].
  rewrite forallb_forall in Hs. intros T a Ea. specialize (Hs T). simpl in Hs. rewrite Ea in Hs.
  apply record_checked, Hs. destruct T; tauto.
Qed.
End Depot.

Section depot.
Import Depot.
#[local] Existing Instance Office.map_order.

Lemma before_blocks T : T = Private ∨ T = Shared → block_inv T before.
Proof.
  intros HT. apply (serve_all_inv (block_inv T) (request_ok T)) with (requests := calls)
    (s := new_ipam None [1; 2; 3; 4; 5; 6; 7; 8; 9; 10]).
  - intros r u Hr Hl Hi. by apply serve_block_inv.
  - repeat constructor; intros; lia || done.
  - reflexivity.
  - apply new_block_inv.
  - vm_compute. reflexivity.
Qed.

Lemma allocations_survive_restart_witness :
  ∃ s' s'', save_allocations before = Returned tt s' ∧
    on_start (new_ipam (storage_ s') [20]) = Returned tt s'' ∧
    allocations_ s'' = allocations_ before ∧
    ∀ requests t T, T = Private ∨ T = Shared → Forall (request_ok T) requests →
      serve_all requests s'' = Some t → block_inv T t.
Proof.
  apply (allocations_survive_restart before [20]).
  - apply sets_checked. vm_compute. reflexivity.
  - apply before_blocks. by left.
  - apply before_blocks. by right.
  - apply (bool_decide_unpack (Forall (λ t, 0 <= t < two64) (clock before))). vm_compute. exact I.
  - intros envelope. reflexivity.
Defined.
End depot.
