(* ===== verification/FileConsensusStore.v ===== *)
(** * The consensus store on disk

    Models [FileConsensusStore] of [Consensus/ConsensusStore.cpp]: one file per
    epoch and kind, written with [write_durable], read back with the closed
    JSON records of ConsensusRecords. The file store is an instance of the
    interface the replica uses and meets its laws, so the theorems of
    HotStuffRuns and HotStuffSafety hold with votes kept on this disk. *)

From S2P Require Import Prelude SecurityPolicy CanonicalEncoding ConsensusTypes DurableWrite.
From S2P Require Import Json ConsensusRecords.

Section store.
Context `{TextCodec, Sodium} (directory_ : string).

(** ** Paths *)

Definition record_path (kind : string) (epoch : EpochId) : string :=
  directory_ +:+ "/hotstuff-" +:+ kind +:+ pretty epoch +:+ ".json".
Definition safety_path (epoch : EpochId) : string := record_path "safety-" epoch.
Definition commit_path (epoch : EpochId) : string := record_path "commit-" epoch.
Definition chain_path (epoch : EpochId) : string := record_path "chain-" epoch.

(** ** Reading *)

Definition parse_file (read_fails : bool) (path : string) (d : Disk) : option json :=
  content ← (if read_fails then None else read_file path d); json_parse content.

(** [stat_fails], [read_fails]: the file system reports an error. *)
Definition load_from (stat_fails read_fails : bool) (epoch : EpochId) (d : Disk)
    : HotStuffState + LoadResult :=
  let path := safety_path epoch in
  if stat_fails then inr Corrupt
  else if negb (bool_decide (is_Some (live d !! path))) then inr Absent
  else match parse_file read_fails path d ≫= hotstuff_state_from_json with
       | None => inr Corrupt
       | Some state => if negb (st_epoch state =? epoch) then inr Corrupt else inl state
       end.

Definition file_latest_commit (epoch : EpochId) (d : Disk) : option ConsensusCommit :=
  let path := commit_path epoch in
  if negb (bool_decide (is_Some (live d !! path))) then None
  else
    commit ← parse_file false path d ≫= commit_from_json;
    if negb (c_epoch commit =? epoch) then None else Some commit.

Definition load_chain_from (stat_fails read_fails : bool) (epoch : EpochId) (d : Disk)
    : CertifiedChain + LoadResult :=
  let path := chain_path epoch in
  if stat_fails then inr Corrupt
  else if negb (bool_decide (is_Some (live d !! path))) then inr Absent
  else match parse_file read_fails path d ≫= (λ doc, chain_from_json doc epoch) with
       | None => inr Corrupt
       | Some chain => inl chain
       end.

(** ** Writing *)

(** The monotonicity guard: a corrupt record is never replaced, a stored value
    never moves back. *)
Definition regresses (prior : HotStuffState + LoadResult) (state : HotStuffState) : bool :=
  match prior with
  | inr Corrupt => true
  | inr Absent => false
  | inl prior =>
      negb (st_epoch state =? st_epoch prior) ||
      (st_last_voted_view state <? st_last_voted_view prior) ||
      (qc_view (st_high_qc state) <? qc_view (st_high_qc prior)) ||
      (qc_view (st_locked_qc state) <? qc_view (st_locked_qc prior))
  end.

Definition file_store_before_vote (state : HotStuffState) (d : Disk) : bool * Disk :=
  if regresses (load_from false false (st_epoch state) d) state then (false, d)
  else write_durable (safety_path (st_epoch state)) (json_dump (hotstuff_state_to_json state)) d.

Definition file_store_commit (commit : ConsensusCommit) (d : Disk) : bool * Disk :=
  write_durable (commit_path (c_epoch commit)) (json_dump (commit_to_json commit)) d.

Definition file_store_chain (epoch : EpochId) (chain : CertifiedChain) (d : Disk) : bool * Disk :=
  if bool_decide (ch_chain chain = []) ||
     (kMaxSyncChainBlocks <? Z.of_nat (length (ch_chain chain))) then (false, d)
  else write_durable (chain_path epoch) (json_dump (chain_to_json epoch chain)) d.

Definition file_store : IConsensusStore Disk := {|
  store_before_vote := file_store_before_vote;
  load := load_from false false;
  store_commit := file_store_commit;
  latest_commit := file_latest_commit;
  store_chain := file_store_chain;
  load_chain := load_chain_from false false |}.
End store.

(** ** Paths never clash *)

Lemma append_inj_l s t t' : s +:+ t = s +:+ t' → t = t'.
Proof. apply String.app_inj. Qed.

Lemma append_assoc s t u : (s +:+ t) +:+ u = s +:+ (t +:+ u).
Proof. induction s as [|a s IH]; [done|]. exact (f_equal (String a) IH). Qed.

Lemma append_nil_r s : s +:+ "" = s.
Proof. induction s as [|a s IH]; [done|]. exact (f_equal (String a) IH). Qed.

Lemma record_path_kind dir kind kind' e e' suffix :
  match kind, kind' with
  | String a _, String b _ => a ≠ b
  | _, _ => False
  end → record_path dir kind e ≠ record_path dir kind' e' +:+ suffix.
Proof.
  intros Hk E. unfold record_path in E. rewrite !append_assoc in E.
  apply append_inj_l, append_inj_l in E. destruct kind, kind'; try done.
  simpl in E. injection E as E _. done.
Qed.

Section laws.
Context `{TextCodecLaws, SodiumLaws} (dir : string).

Lemma load_from_live e d d' :
  live d' !! safety_path dir e = live d !! safety_path dir e →
  load_from dir false false e d' = load_from dir false false e d.
Proof. intros E. unfold load_from, parse_file, read_file. by rewrite E. Qed.

Lemma parse_file_written path d j b :
  json_fits j → live d !! path = Some (mkFile (json_dump j) b) →
  parse_file false path d = Some j.
Proof.
  intros Hj E. unfold parse_file, read_file. rewrite E. cbn [fmap option_fmap option_map f_bytes
    mbind option_bind]. by apply json_round_trip.
Qed.

Lemma load_from_written st d b :
  stored_state st →
  live d !! safety_path dir (st_epoch st) =
    Some (mkFile (json_dump (hotstuff_state_to_json st)) b) →
  load_from dir false false (st_epoch st) d = inl st.
Proof.
  intros Hst E. unfold load_from.
  rewrite (parse_file_written _ _ _ b (state_fits _ Hst) E), E.
  cbn [mbind option_bind]. rewrite state_round_trip by done. by rewrite Z.eqb_refl.
Qed.

Lemma safety_untouched kind e e' :
  kind = "commit-" ∨ kind = "chain-" →
  safety_path dir e ≠ temp_of (record_path dir kind e') ∧
  safety_path dir e ≠ record_path dir kind e'.
Proof.
  intros Hk. split.
  - apply record_path_kind. by destruct Hk as [-> | ->].
  - pose proof (record_path_kind dir "safety-" kind e e' "") as Hne.
    intros E. apply Hne; [by destruct Hk as [-> | ->]|].
    by rewrite append_nil_r.
Qed.

Lemma other_write_keeps_load kind e e' payload d :
  kind = "commit-" ∨ kind = "chain-" →
  load_from dir false false e (write_durable (record_path dir kind e') payload d).2 =
  load_from dir false false e d.
Proof.
  intros Hk. apply load_from_live.
  destruct (write_durable (record_path dir kind e') payload d) as [ok d'] eqn:E.
  apply write_durable_ok in E as [Hs _].
  destruct (safety_untouched kind e e' Hk). by apply (so_frame _ _ _ _ _ _ Hs).
Qed.

(** The file store keeps the promises of the interface. *)
#[export] Instance file_store_laws : @ConsensusStoreLaws Disk (file_store dir) stored_state.
Proof.
  split; cbn [store_before_vote load store_commit store_chain file_store].
  - intros st d d' Hst. unfold file_store_before_vote. destruct (regresses _ _); [done|].
    intros [_ Hl]%write_durable_ok. destruct (Hl eq_refl) as [E _].
    by eapply load_from_written.
  - intros st d d' Hst. unfold file_store_before_vote. destruct (regresses _ _).
    { intros [= <-]. by left. }
    intros [Hs _]%write_durable_ok.
    destruct (so_live _ _ _ _ _ _ Hs) as [E|E].
    + left. by apply load_from_live.
    + right. by eapply load_from_written.
  - intros c d e. apply other_write_keeps_load. by left.
  - intros e' c d e. unfold file_store_chain. destruct (_ || _); [done|].
    apply other_write_keeps_load. by right.
Qed.

(** Reading fails closed: a file system error never looks like an empty or an
    older record. *)
Lemma load_fails_closed sf rf e d :
  load_from dir sf rf e d = load_from dir false false e d ∨
  load_from dir sf rf e d = inr Corrupt.
Proof.
  unfold load_from. destruct sf; [by right|]. destruct (negb _); [by left|].
  destruct rf; [by right|by left].
Qed.

(** The record never moves back: a vote is refused unless its view and both
    certificates are at least those on disk. *)
Lemma stored_state_monotone st d d' prior :
  load_from dir false false (st_epoch st) d = inl prior →
  file_store_before_vote dir st d = (true, d') →
  st_last_voted_view prior <= st_last_voted_view st ∧
  qc_view (st_high_qc prior) <= qc_view (st_high_qc st) ∧
  qc_view (st_locked_qc prior) <= qc_view (st_locked_qc st).
Proof.
  intros El. unfold file_store_before_vote. rewrite El. cbn [regresses].
  destruct (_ || _) eqn:E; [done|]. intros _. bool_to_prop. done.
Qed.
End laws.
