(* ===== verification/StoreTheorems.v ===== *)
(** * What the durable stores guarantee

    The theorems about durable writes, the stored records and the file store,
    and about the replica running on it. *)

From S2P Require Import Prelude SecurityPolicy CanonicalEncoding ConsensusTypes.
From S2P Require Import QuorumValidation Json FileStorage DurableWrite.
From S2P Require Import ConsensusRecords FileConsensusStore TestCodec HotStuff.
From S2P Require Import HotStuffInvariants HotStuffRuns HotStuffSafety Testbed.

(** ** Durable writes *)

(** C30: A crash at any point of [write_durable], whatever system calls fail,
    leaves under the final name what a crash before the call could have left, or
    the whole new payload: never a partial file. *)
Theorem write_durable_crash_atomic F payload d :
  let d' := (write_durable F payload d).2 in
  ∃ new, trace d' = new ++ trace d ∧
    ∀ vs v, vs ∈ new ∨ vs = versions d' → v ∈ vs → old_or_new d F payload (v !! F).
Proof.
  destruct (write_durable F payload d) as [ok d'] eqn:E. cbn.
  apply write_durable_ok in E as [[_ _ (new & Et & Hn) Hv] _].
  exists new. split; [done|]. intros vs v [Hvs| ->] Hin.
  - rewrite Forall_forall in Hn. specialize (Hn vs Hvs). rewrite Forall_forall in Hn. by apply Hn.
  - rewrite Forall_forall in Hv. by apply Hv.
Qed.

(** When [write_durable] returns true the payload is what the process reads
    back and the only thing any later crash can leave under the final name;
    when it returns false the process reads the old content or the new one,
    whole. No other name than the temporary one changes. *)
Theorem write_durable_outcome F payload d :
  let '(ok, d') := write_durable F payload d in
  (ok = true → read_file F d' = Some payload ∧
     ∀ v, v ∈ versions d' → v !! F = Some (Whole payload)) ∧
  (read_file F d' = read_file F d ∨ read_file F d' = Some payload) ∧
  (∀ q, q ≠ temp_of F → q ≠ F → live d' !! q = live d !! q).
Proof.
  destruct (write_durable F payload d) as [ok d'] eqn:E.
  apply write_durable_ok in E as [[Hf Hl _ _] Hok]. unfold read_file. split_and!.
  - intros ->. destruct (Hok eq_refl) as [EF EV]. rewrite EF, EV. split; [done|].
    intros v ->%list_elem_of_singleton. by rewrite lookup_fmap, EF.
  - destruct Hl as [-> | ->]; [by left|by right].
  - exact Hf.
Qed.

(** The write loop terminates and the write completes: when every system
    call succeeds (however short each write is), [write_durable] returns true. *)
Theorem write_durable_completes F payload d :
  willing (length payload + 7) d → (write_durable F payload d).1 = true.
Proof. apply willing_write_durable. Qed.

(** A disk whose next fifty calls succeed, one byte per write. *)
Definition slow_disk : Disk := mkDisk ∅ [∅] (replicate 50 1) [].

Lemma write_durable_completes_witness : (write_durable "record.json" [1; 2; 3] slow_disk).1 = true.
Proof.
  apply (write_durable_completes "record.json" [1; 2; 3] slow_disk).
  split; [by repeat constructor|vm_compute; lia].
Defined.

(** ** Records *)

Section records.
Context `{TextCodecLaws, SodiumLaws}.

(** The stored safety record reads back as the state that was written, so a
    restarted replica resumes from exactly the view and lock it voted under. *)
Theorem safety_record_round_trip st :
  stored_state st → json_parse (json_dump (hotstuff_state_to_json st)) ≫=
    hotstuff_state_from_json = Some st.
Proof.
  intros Hst. rewrite json_round_trip by by apply state_fits. by apply state_round_trip.
Qed.

(** The chain record of an epoch and a commit proof read back as written. *)
Theorem chain_and_proof_round_trip e chain proof :
  is_u64 e → stored_chain chain →
  length (cp_chain proof) = 3%nat →
  Forall (λ b, wf_proposal (cb_proposal b) ∧ stored_qc (cb_justify b)) (cp_chain proof) →
  stored_qc (cp_certifying proof) →
  chain_from_json (chain_to_json e chain) e = Some chain ∧
  commit_proof_from_json (commit_proof_to_json proof) = Some proof.
Proof.
  intros. split; [by apply chain_round_trip|by apply commit_proof_round_trip].
Qed.

(** The file store implements the interface the replica relies on: a true
    [store_before_vote] is loadable, a false one leaves the old or the new
    record, and the other records never touch the safety record. *)
Theorem file_store_refines_interface dir :
  @ConsensusStoreLaws Disk (file_store dir) stored_state.
Proof. apply file_store_laws. Qed.

(** The safety record on disk never regresses: [store_before_vote] refuses a
    state whose last voted view or whose certificates are below the stored
    ones, and anything at all when the stored record cannot be trusted. *)
Theorem store_never_regresses dir st d d' :
  file_store_before_vote dir st d = (true, d') →
  load_from dir false false (st_epoch st) d ≠ inr Corrupt ∧
  ∀ prior, load_from dir false false (st_epoch st) d = inl prior →
    st_last_voted_view prior <= st_last_voted_view st ∧
    qc_view (st_high_qc prior) <= qc_view (st_high_qc st) ∧
    qc_view (st_locked_qc prior) <= qc_view (st_locked_qc st).
Proof.
  intros Hs. split.
  - unfold file_store_before_vote in Hs. intros E. by rewrite E in Hs.
  - intros prior El. by eapply stored_state_monotone.
Qed.

(** C4: A vote survives every crash: when a replica on the file store returns a
    vote, every directory a crash can leave holds a whole safety record that
    reads back as the state with that vote's view as last voted. *)
Theorem vote_survives_crash dir cfg key (s s' : HotStuffService Disk) p j payload out v ver :
  @receive_proposal Disk _ (file_store dir) cfg key s p j payload = (s', Some out) →
  r_vote out = Some v → stored_state (pending_state cfg s' p) → ver ∈ versions (store_ s') →
  ∃ bytes, ver !! safety_path dir (epoch cfg) = Some (Whole bytes) ∧
    json_parse bytes ≫= hotstuff_state_from_json =
      Some (mkState (epoch cfg) (consensus_ruleset cfg) (v_view v) (high_qc_ s') (locked_qc_ s')).
Proof.
  intros Hr Hv Hst Hin.
  apply (@receive_proposal_step Disk _ (file_store dir)) in Hr. simpl in Hr. rewrite Hv in Hr.
  destruct Hr as [| payload' s1 s2 commits _ _ _ _ _ _ _ _ _ _ _ Hvs]; [done|].
  destruct Hvs as [| |st1 st' sq _ Esb Es' _ Hvote]; [done..|].
  destruct (Hvote v eq_refl) as (_ & Evw & _). rewrite Evw.
  rewrite Es' in Hst, Hin |- *. cbn [store_ high_qc_ locked_qc_ set_field pending_state] in *.
  change (file_store_before_vote dir (pending_state cfg s2 p) st1 = (true, st')) in Esb.
  unfold file_store_before_vote in Esb. destruct (regresses _ _); [done|].
  apply write_durable_ok in Esb as [_ Hok]. destruct (Hok eq_refl) as [EF EV].
  rewrite EV in Hin. apply list_elem_of_singleton in Hin as ->.
  exists (json_dump (hotstuff_state_to_json (pending_state cfg s2 p))).
  split.
  { change (epoch cfg) with (st_epoch (pending_state cfg s2 p)). by rewrite lookup_fmap, EF. }
  rewrite json_round_trip by by apply state_fits. by apply state_round_trip.
Qed.
End records.

(** ** Signed envelopes *)

Section envelopes.
Context `{TextCodec, ValueCodec, !TextCodecLaws, !ValueCodecLaws}.

(** an envelope whose write is reported successful reads back unchanged, and
    no write, successful or not, changes what another file of the data directory
    reads as: the checked path components never make two files collide. *)
Theorem storage_files_independent root category name envelope d ok d' category' name' :
  envelope_fits envelope → do_write_file root category name envelope d = (ok, d') →
  (ok = true → do_read_file root category name d' = Some envelope) ∧
  ((category', name') ≠ (category, name) →
   do_read_file root category' name' d' = do_read_file root category' name' d).
Proof.
  intros Hf Hw. split.
  - intros ->. by eapply file_write_then_read.
  - intros Hne. by eapply file_write_frame.
Qed.
End envelopes.

(** ** Applications *)

#[local] Instance plain_values : ValueCodec := {|
  json_dump_indented := json_dump;
  json_dump_discarded _ _ := [];
  json_float_to_integer _ := 0 |}.
#[local] Instance plain_values_laws : ValueCodecLaws.
Proof. split. apply json_round_trip. Qed.

Definition note : SignedEnvelope := mkEnvelope 1 "ipam" (json_dump (JArray [])) "" "" 9.
Definition note_written : bool * Disk :=
  do_write_file "/data" "ipam" "allocations.json" note
    (mkDisk ∅ [∅] (replicate 200 100000) []).

Lemma note_fits : envelope_fits note.
Proof.
  split; [exists (JArray []); split; [constructor; by intros ? ?%not_elem_of_nil|reflexivity]|].
  split_and!; first [by vm_compute | by repeat constructor].
Qed.

Lemma note_ok : note_written.1 = true.
Proof. vm_compute. reflexivity. Qed.

Lemma storage_files_independent_witness :
  do_read_file "/data" "ipam" "allocations.json" note_written.2 = Some note.
Proof.
  exact (proj1 (storage_files_independent "/data" "ipam" "allocations.json" note
    (mkDisk ∅ [∅] (replicate 200 100000) []) note_written.1 note_written.2 "certs" "x" note_fits
    (surjective_pairing note_written)) note_ok).
Defined.

Section witnesses.
#[local] Existing Instance Demo.sodium.

#[local] Instance demo_sodium_laws : SodiumLaws.
Proof.
  split. intros bytes. apply table_lookup_range.
  assert (Hall : Forall (λ e : list Z * Z, 0 <= e.2 < 1000) Demo.table)
    by (apply (bool_decide_unpack _); vm_compute; exact I).
  eapply Forall_impl; [exact Hall|]. intros e He. unfold is_digest. cbn in He.
  split; [apply He|]. apply Z.lt_trans with 1000; [apply He|]. reflexivity.
Qed.

Definition demo_state : HotStuffState := mkState 1 1 3 Demo.c1 Demo.c0.
Definition fresh_disk : Disk := mkDisk ∅ [∅] (replicate 200 100000) [].

Lemma demo_stored_qcs :
  stored_qc Demo.c0 ∧ stored_qc Demo.c1 ∧ stored_qc Demo.c2 ∧ stored_qc (genesis_qc Demo.cfg).
Proof.
  destruct Demo.qcs_wf as (Hg & H0 & H1 & H2).
  split_and!; (split; [assumption|vm_compute; discriminate]).
Qed.

Lemma demo_stored_state : stored_state demo_state.
Proof.
  destruct demo_stored_qcs as (H0 & H1 & _). unfold stored_state.
  split_and!; try assumption; vm_compute; done.
Qed.

Lemma safety_record_round_trip_witness :
  json_parse (json_dump (hotstuff_state_to_json demo_state)) ≫= hotstuff_state_from_json =
    Some demo_state.
Proof. apply (safety_record_round_trip demo_state). exact demo_stored_state. Defined.

Lemma chain_and_proof_round_trip_witness :
  let chain := mkChain [(Demo.b0, genesis_qc Demo.cfg); (Demo.b1, Demo.c0)] Demo.c1 in
  chain_from_json (chain_to_json 1 chain) 1 = Some chain ∧
  commit_proof_from_json (commit_proof_to_json Demo.proof) = Some Demo.proof.
Proof.
  assert (Hwf : wf_proposal Demo.b0 ∧ wf_proposal Demo.b1 ∧ wf_proposal Demo.b2)
    by (split_and!; vm_compute; done).
  destruct demo_stored_qcs as (H0 & H1 & H2 & Hg), Hwf as (W0 & W1 & W2).
  apply (chain_and_proof_round_trip 1 (mkChain [(Demo.b0, genesis_qc Demo.cfg);
    (Demo.b1, Demo.c0)] Demo.c1) Demo.proof).
  - vm_compute; done.
  - split; [|split; [exact H1|split; [discriminate|vm_compute; discriminate]]].
    apply Forall_cons; split; [split; assumption|].
    apply Forall_singleton. split; assumption.
  - reflexivity.
  - apply Forall_cons; split; [split; assumption|].
    apply Forall_cons; split; [split; assumption|].
    apply Forall_singleton. split; assumption.
  - exact H2.
Defined.

Lemma file_store_refines_interface_witness :
  @ConsensusStoreLaws Disk (file_store "store") stored_state.
Proof. apply (file_store_refines_interface "store"). Defined.

Lemma store_never_regresses_witness :
  load_from "store" false false 1 fresh_disk ≠ inr Corrupt.
Proof.
  apply (store_never_regresses "store" demo_state fresh_disk
    (file_store_before_vote "store" demo_state fresh_disk).2).
  vm_compute. reflexivity.
Defined.

Definition disk_first : HotStuffService Disk * option ProposalResult :=
  @receive_proposal Disk _ (file_store "store") (for_node Demo.cfg 1) (Demo.key 1)
    (@initial_service Disk (for_node Demo.cfg 1) fresh_disk <| synced_ := true |>) Demo.b0
    (genesis_qc Demo.cfg) None.

Lemma disk_first_state : pending_state (for_node Demo.cfg 1) disk_first.1 Demo.b0 =
  mkState 1 1 1 (genesis_qc Demo.cfg) (genesis_qc Demo.cfg).
Proof. vm_compute. reflexivity. Qed.

Lemma vote_survives_crash_witness :
  ∃ ver bytes, ver ∈ versions (store_ disk_first.1) ∧
    ver !! safety_path "store" 1 = Some (Whole bytes).
Proof.
  assert (Hver : ∃ ver, ver ∈ versions (store_ disk_first.1)).
  { destruct (versions (store_ disk_first.1)) as [|ver vs] eqn:E.
    - apply (f_equal length) in E. vm_compute in E. discriminate E.
    - exists ver. constructor. }
  destruct Hver as [ver Hver].
  destruct (vote_survives_crash "store" (for_node Demo.cfg 1) (Demo.key 1)
    (@initial_service Disk (for_node Demo.cfg 1) fresh_disk <| synced_ := true |>)
    disk_first.1 Demo.b0 (genesis_qc Demo.cfg) None (default empty_result disk_first.2)
    (mkVote 1 77 1 1 1 100 1 11) ver) as (bytes & Hb & _).
  - vm_compute. reflexivity.
  - vm_compute. reflexivity.
  - rewrite disk_first_state. destruct demo_stored_qcs as (_ & _ & _ & Hg).
    unfold stored_state. split_and!; try assumption; vm_compute; done.
  - exact Hver.
  - exists ver, bytes. split; [exact Hver|exact Hb].
Defined.
End witnesses.
