(* ===== verification/TreeTypes.v ===== *)
(** * The permission tree: nodes, permissions and names

    Models [Tree/TreeTypes.hpp] and the JSON text of [Tree/TreeTypes.cpp] that
    is signed, [ACL/Permission.hpp], [Tree/DeviceLabel.cpp] and
    [canonical_key_b64] of [Crypto/CryptoTypes.cpp]. A node map is a [gmap]
    from node ids; where the source walks a hash map in its own order and then
    sorts, the model sorts by the same byte order ([string_le]). The float
    [reputation_score] is its 32-bit pattern; its decimal text in JSON is the
    parameter [float_text]. *)

From S2P Require Import Prelude SecurityPolicy CanonicalEncoding ConsensusTypes Json.
From Stdlib Require Import Ascii.

(** ** Strings: the order of [std::string], emptiness, prefixes *)

Definition string_le (a b : string) : Prop := String.leb a b = true.

#[export] Instance string_le_dec : RelDecision string_le.
Proof. intros a b. unfold string_le. apply _. Defined.

Definition sort_strings (l : list string) : list string := merge_sort string_le l.

Definition is_empty (s : string) : bool := String.eqb s "".

Fixpoint string_drop (n : nat) (s : string) : string :=
  match n, s with
  | S n, String _ s => string_drop n s
  | _, _ => s
  end.

Definition starts_with (prefix s : string) : bool := String.prefix prefix s.

(** [std::unique] after a sort: neighbours that are equal collapse. *)
Fixpoint unique (l : list string) : list string :=
  match l with
  | [] => []
  | x :: rest =>
      match rest with
      | [] => [x]
      | y :: _ => if String.eqb x y then unique rest else x :: unique rest
      end
  end.

Definition sort_unique (l : list string) : list string := unique (sort_strings l).

Definition mentions (x : string) (l : list string) : bool := existsb (String.eqb x) l.

(** ** Permission flags *)

Definition PermNone : Z := 0.
Definition PermRead : Z := 1.
Definition PermWrite : Z := 2.
Definition PermAddChild : Z := 4.
Definition PermEditNode : Z := 8.
Definition PermDeleteNode : Z := 16.
Definition PermExpandSubnet : Z := 32.
Definition PermConnectPrivate : Z := 64.
Definition PermConnectShared : Z := 128.
Definition PermRelayForward : Z := 256.
Definition PermStunRespond : Z := 512.
Definition PermRelayRegister : Z := 1024.
Definition PermAllocateIP : Z := 2048.
Definition PermRoutingCoordinate : Z := 4096.
Definition PermAdmin : Z := 4294967295.

Definition has_permission (granted required : Z) : bool := Z.land granted required =? required.

(** ** Nodes *)

Inductive NodeType := Root | Customer | Endpoint | Relay.

#[export] Instance node_type_eq_dec : EqDecision NodeType.
Proof. solve_decision. Defined.

Definition is_type (a b : NodeType) : bool := bool_decide (a = b).

Record Assignment := mkAssignment {
  management_pubkey : string;
  permissions : list string;
}.

#[export] Instance assignment_eq_dec : EqDecision Assignment.
Proof. solve_decision. Defined.

Record TreeNode := mkNode {
  tn_id : string;
  tn_parent_id : string;
  tn_type : NodeType;
  tn_hostname : string;
  tn_tunnel_ip : string;
  tn_private_subnet : string;
  tn_private_shared_addresses : string;
  tn_shared_domain : string;
  tn_mgmt_pubkey : string;
  tn_wrapped_mgmt_privkey : string;
  tn_mesh_pubkey : string;
  tn_endpoint_identifier : string;
  tn_cpu_id : string;
  tn_net_mac : string;
  tn_is_inference : bool;
  tn_assignments : list Assignment;
  tn_signature : string;
  tn_listen_endpoint : string;
  tn_region : string;
  tn_capacity_mbps : Z;
  tn_reputation_score : Z;
  tn_expires_at : Z;
  tn_version : Z;
}.

#[export] Instance eta_node : Etable TreeNode := λ n,
  mkNode (tn_id n) (tn_parent_id n) (tn_type n) (tn_hostname n) (tn_tunnel_ip n)
    (tn_private_subnet n) (tn_private_shared_addresses n) (tn_shared_domain n) (tn_mgmt_pubkey n)
    (tn_wrapped_mgmt_privkey n) (tn_mesh_pubkey n) (tn_endpoint_identifier n) (tn_cpu_id n)
    (tn_net_mac n) (tn_is_inference n) (tn_assignments n) (tn_signature n) (tn_listen_endpoint n)
    (tn_region n) (tn_capacity_mbps n) (tn_reputation_score n) (tn_expires_at n) (tn_version n).

#[export] Instance node_eq_dec : EqDecision TreeNode.
Proof. solve_decision. Defined.

(** [TreeNode{}]: the score is the bit pattern of [1.0f]. *)
Definition new_node : TreeNode :=
  mkNode "" "" Customer "" "" "" "" "" "" "" "" "" "" "" false [] "" "" "" 0 1065353216 0 0.

Record TreeDelta := mkDelta {
  td_operation : string;
  td_target_node_id : string;
  td_node_data : TreeNode;
  td_signer_pubkey : string;
  td_signature : string;
  td_timestamp : Z;
}.

#[export] Instance delta_eq_dec : EqDecision TreeDelta.
Proof. solve_decision. Defined.

Definition new_delta : TreeDelta := mkDelta "" "" new_node "" "" 0.

Notation NodeMap := (gmap string TreeNode).

(** ** Principals *)

Definition kEd25519Prefix : string := "ed25519:".

Section principals.
Context `{TextCodec}.

Definition canonical_key_b64 (encoded : string) : string :=
  let encoded := if starts_with kEd25519Prefix encoded then string_drop 8 encoded else encoded in
  if is_empty encoded then ""
  else match from_base64 encoded with Some bytes => to_base64 bytes | None => "" end.

Definition canonical_principal (s : string) : string :=
  if negb (starts_with kEd25519Prefix s) then s
  else
    let canon := canonical_key_b64 (string_drop 8 s) in
    if is_empty canon then s else kEd25519Prefix +:+ canon.

(** [canonical_principal(a) == canonical_principal(b)] *)
Definition same_principal (a b : string) : bool :=
  String.eqb (canonical_principal a) (canonical_principal b).
End principals.

(** ** Device labels *)

Definition kDeviceLabelMaxLength : nat := 63.

Definition in_range (lo hi : nat) (c : ascii) : bool :=
  (lo <=? nat_of_ascii c)%nat && (nat_of_ascii c <=? hi)%nat.

Definition ascii_alnum (c : ascii) : bool :=
  in_range 48 57 c || in_range 97 122 c || in_range 65 90 c.

Definition ascii_lower (c : ascii) : ascii :=
  if in_range 65 90 c then ascii_of_nat (nat_of_ascii c - 65 + 97) else c.

Definition dash : ascii := "-"%char.

(** The label is built back to front: its head is [label.back()]. *)
Definition label_step (label : list ascii) (c : ascii) : list ascii :=
  if ascii_alnum c then ascii_lower c :: label
  else match label with
       | [] => []
       | back :: _ => if Ascii.eqb back dash then label else dash :: label
       end.

Fixpoint pop_dashes (label : list ascii) : list ascii :=
  match label with
  | back :: rest => if Ascii.eqb back dash then pop_dashes rest else label
  | [] => []
  end.

Definition device_label (device_name : string) : string :=
  let label := pop_dashes (foldl label_step [] (String.list_ascii_of_string device_name)) in
  let label := if (kDeviceLabelMaxLength <? length label)%nat
               then reverse (take kDeviceLabelMaxLength (reverse label)) else label in
  String.string_of_list_ascii (reverse (pop_dashes label)).

(** ** The signed JSON text *)

Definition node_type_to_string (type : NodeType) : string :=
  match type with
  | Root => "root" | Customer => "customer" | Endpoint => "endpoint" | Relay => "relay"
  end.

Class FloatText := { float_text : Z → string }.

Section text.
Context `{TextCodec, FloatText}.

Definition assignment_to_json (a : Assignment) : json :=
  object [("management_pubkey", JString (management_pubkey a));
          ("permissions", JArray (JString <$> permissions a))].

Definition node_fields (n : TreeNode) : list (string * json) :=
  [("id", JString (tn_id n));
   ("parent_id", JString (tn_parent_id n));
   ("type", JString (node_type_to_string (tn_type n)));
   ("hostname", JString (tn_hostname n));
   ("tunnel_ip", JString (tn_tunnel_ip n));
   ("private_subnet", JString (tn_private_subnet n));
   ("private_shared_addresses", JString (tn_private_shared_addresses n));
   ("shared_domain", JString (tn_shared_domain n));
   ("mgmt_pubkey", JString (tn_mgmt_pubkey n));
   ("wrapped_mgmt_privkey", JString (tn_wrapped_mgmt_privkey n));
   ("mesh_pubkey", JString (tn_mesh_pubkey n));
   ("endpoint_identifier", JString (tn_endpoint_identifier n));
   ("cpu_id", JString (tn_cpu_id n));
   ("net_mac", JString (tn_net_mac n));
   ("is_inference", JBoolean (tn_is_inference n));
   ("assignments", JArray (assignment_to_json <$> tn_assignments n));
   ("signature", JString (tn_signature n));
   ("listen_endpoint", JString (tn_listen_endpoint n));
   ("region", JString (tn_region n));
   ("capacity_mbps", JUnsigned (tn_capacity_mbps n));
   ("reputation_score", JFloat (float_text (tn_reputation_score n)));
   ("expires_at", JUnsigned (tn_expires_at n))].

Definition node_to_json (n : TreeNode) : json :=
  object (node_fields n ++
          (if negb (tn_version n =? 0) then [("version", JUnsigned (tn_version n))] else [])).

Definition canonical_delta_json (d : TreeDelta) : list Z :=
  json_dump (object [("node_data", node_to_json (td_node_data d));
                     ("operation", JString (td_operation d));
                     ("signer_pubkey", JString (td_signer_pubkey d));
                     ("target_node_id", JString (td_target_node_id d));
                     ("timestamp", JUnsigned (td_timestamp d))]).
End text.

(** ** Lemmas *)

Lemma is_empty_spec s : is_empty s = true ↔ s = ""%string.
Proof. apply String.eqb_eq. Qed.

Lemma is_empty_false s : is_empty s = false ↔ s ≠ ""%string.
Proof. apply String.eqb_neq. Qed.

Lemma ascii_compare_refl a : Ascii.compare a a = Eq.
Proof. unfold Ascii.compare. apply N.compare_refl. Qed.

Lemma ascii_compare_eq a b : Ascii.compare a b = Eq → a = b.
Proof.
  unfold Ascii.compare. intros E%N.compare_eq.
  by rewrite <-(ascii_N_embedding a), <-(ascii_N_embedding b), E.
Qed.

Lemma string_compare_trans a b c :
  String.compare a b ≠ Gt → String.compare b c ≠ Gt → String.compare a c ≠ Gt.
Proof.
  revert b c. induction a as [|x a IH]; intros [|y b] [|z c]; simpl; try done.
  destruct (Ascii.compare x y) eqn:E1, (Ascii.compare y z) eqn:E2; try done; intros H1 H2;
    repeat match goal with E : Ascii.compare _ _ = Eq |- _ => apply ascii_compare_eq in E as -> end;
    rewrite ?ascii_compare_refl, ?E1, ?E2; try done; eauto.
  unfold Ascii.compare in *. rewrite N.compare_lt_iff in E1, E2.
  by rewrite (proj2 (N.compare_lt_iff _ _)) by lia.
Qed.

Lemma string_le_compare a b : string_le a b ↔ String.compare a b ≠ Gt.
Proof. unfold string_le, String.leb. by destruct (String.compare a b). Qed.

#[export] Instance string_le_trans : Transitive string_le.
Proof. intros a b c. rewrite !string_le_compare. apply string_compare_trans. Qed.
#[export] Instance string_le_total : Total string_le.
Proof. intros a b. apply String.leb_total. Qed.
#[export] Instance string_le_antisym : AntiSymm eq string_le.
Proof. intros a b. apply String.leb_antisym. Qed.
#[export] Instance string_le_refl : Reflexive string_le.
Proof. intros a. by destruct (String.leb_total a a). Qed.

Lemma sort_strings_perm l : sort_strings l ≡ₚ l.
Proof. apply merge_sort_Permutation. Qed.

Lemma elem_of_sort_strings x l : x ∈ sort_strings l ↔ x ∈ l.
Proof. by rewrite sort_strings_perm. Qed.

Lemma elem_of_unique x l : x ∈ unique l ↔ x ∈ l.
Proof.
  induction l as [|y [|z l] IH]; [done|done|].
  change (unique (y :: z :: l)) with
    (if String.eqb y z then unique (z :: l) else y :: unique (z :: l)).
  destruct (String.eqb_spec y z) as [->|Hne]; rewrite ?elem_of_cons, IH, ?elem_of_cons; tauto.
Qed.

Lemma elem_of_sort_unique x l : x ∈ sort_unique l ↔ x ∈ l.
Proof. unfold sort_unique. by rewrite elem_of_unique, elem_of_sort_strings. Qed.

Lemma mentions_spec x l : mentions x l = true ↔ x ∈ l.
Proof.
  unfold mentions. rewrite existsb_exists. split.
  - intros (y & Hy & ->%String.eqb_eq). by apply list_elem_of_In.
  - intros Hx. exists x. split; [by apply list_elem_of_In|apply String.eqb_refl].
Qed.

Lemma same_principal_spec `{TextCodec} a b :
  same_principal a b = true ↔ canonical_principal a = canonical_principal b.
Proof. apply String.eqb_eq. Qed.
