(* ===== verification/LinkToken.v ===== *)
(** * Link tokens: signed invite events and their ledger

    Models [Auth/LinkTokenLedger.cpp]: the events of an invite's life (mint,
    spend, refund, revoke), what their origin signs, the structural and time
    checks, the wire form, and the ledger that derives whether a token can be
    consumed. An event kind is the byte the source stores, so that an unknown
    kind can be represented. *)

From S2P Require Import Prelude SecurityPolicy CanonicalEncoding Json EligibilityStore TreeTypes.
From Stdlib Require Import Ascii.

(** ** libsodium signatures over messages *)

Class SodiumMessages := {
  crypto_sign_ed25519_detached : list Z → list Z → Ed25519Signature;
  crypto_sign_ed25519_verify_detached : Ed25519Signature → list Z → Ed25519PublicKey → bool;
}.

(** ** Events *)

Definition kLinkTokenEventDomain : string := "lemonade-nexus/link-token-event:v1".
Definition kLinkTokenHashDomain : string := "lemonade-nexus/link-token-hash:v1".
Definition kLinkCodeHashDomain : string := "lemonade-nexus/link-code-hash:v1".
Definition kLinkCodeBindingDomain : string := "lemonade-nexus/link-code-binding:v1".
Definition kLinkTokenMaxTtlSec : Z := 3600.
Definition kLinkCodeDigits : nat := 8.
Definition kLinkCodeMaxTtlSec : Z := 600.
Definition kLinkTokenRetentionSec : Z := 600.
Definition kLinkTokenMaxFutureSec : Z := 300.
Definition kLinkTokenMaxGeneration : Z := 8.
Definition kLinkTokenMaxEventsPerToken : nat := 64.
Definition kLinkTokenMaxTokens : nat := 16384.
Definition kLinkTokenMaxFieldBytes : nat := 256.
Definition kLinkTokenMaxPermissions : nat := 8.

Definition LinkMint : Z := 1.
Definition LinkSpend : Z := 2.
Definition LinkRefund : Z := 3.
Definition LinkRevoke : Z := 4.

Record LinkTokenEvent := mkLinkEvent {
  le_kind : Z;
  le_token_hash : string;
  le_generation : Z;
  le_network_id : string;
  le_expires_at : Z;
  le_group_node_id : string;
  le_permissions : list string;
  le_owner_user_id : string;
  le_owner_pubkey : string;
  le_created_at : Z;
  le_code_hash : string;
  le_code_signature : string;
  le_timestamp : Z;
  le_origin_pubkey : string;
  le_origin_seq : Z;
  le_signature : string;
}.

#[export] Instance eta_link_event : Etable LinkTokenEvent := λ e,
  mkLinkEvent (le_kind e) (le_token_hash e) (le_generation e) (le_network_id e) (le_expires_at e)
    (le_group_node_id e) (le_permissions e) (le_owner_user_id e) (le_owner_pubkey e)
    (le_created_at e) (le_code_hash e) (le_code_signature e) (le_timestamp e)
    (le_origin_pubkey e) (le_origin_seq e) (le_signature e).

#[export] Instance link_event_eq_dec : EqDecision LinkTokenEvent.
Proof. solve_decision. Defined.

Definition link_kind_known (kind : Z) : bool :=
  (kind =? LinkMint) || (kind =? LinkSpend) || (kind =? LinkRefund) || (kind =? LinkRevoke).

Definition is_lower_hex (s : string) : bool :=
  forallb (λ c, in_range 48 57 c || in_range 97 102 c) (String.list_ascii_of_string s).

Definition bounded (s : string) : bool := (String.length s <=? kLinkTokenMaxFieldBytes)%nat.

Definition is_hex64 (s : string) : bool := (String.length s =? 64)%nat && is_lower_hex s.

Definition without_code (e : LinkTokenEvent) : LinkTokenEvent :=
  e <| le_code_hash := ""%string |> <| le_code_signature := ""%string |>.

Definition link_code_expires_at (mint : LinkTokenEvent) : Z :=
  std_min (le_expires_at mint) (le_created_at mint +64 kLinkCodeMaxTtlSec).

Definition is_link_code (secret : string) : bool :=
  (String.length secret =? kLinkCodeDigits)%nat &&
  forallb (in_range 48 57) (String.list_ascii_of_string secret).

Section signing.
Context `{TextCodec, SodiumMessages}.

Definition link_code_binding_bytes (e : LinkTokenEvent) : list Z :=
  let enc := new_encoder kLinkCodeBindingDomain in
  let enc := add_string enc (le_token_hash e) in
  let enc := add_string enc (le_code_hash e) in
  let enc := add_string enc (le_network_id e) in
  let enc := add_u64 enc (le_expires_at e) in
  let enc := add_string enc (le_origin_pubkey e) in
  add_u64 enc (le_origin_seq e).

Definition add_strings (enc : CanonicalEncoder) (values : list string) : CanonicalEncoder :=
  foldl add_string (add_u32 enc (Z.of_nat (length values))) values.

Definition link_token_event_signing_bytes (e : LinkTokenEvent) : list Z :=
  let enc := new_encoder kLinkTokenEventDomain in
  let enc := add_u16 enc (le_kind e) in
  let enc := add_string enc (le_token_hash e) in
  let enc := add_u32 enc (le_generation e) in
  let enc := add_string enc (le_network_id e) in
  let enc := add_u64 enc (le_expires_at e) in
  let enc := add_string enc (le_group_node_id e) in
  let enc := add_strings enc (le_permissions e) in
  let enc := add_string enc (le_owner_user_id e) in
  let enc := add_string enc (le_owner_pubkey e) in
  let enc := add_u64 enc (le_created_at e) in
  let enc := add_u64 enc (le_timestamp e) in
  let enc := add_string enc (le_origin_pubkey e) in
  add_u64 enc (le_origin_seq e).

Definition verify_b64 (origin_pubkey : string) (msg : list Z) (signature_b64 : string) : bool :=
  match from_base64 origin_pubkey, from_base64 signature_b64 with
  | Some pk, Some sig =>
      if (length pk =? 32)%nat && (length sig =? 64)%nat
      then crypto_sign_ed25519_verify_detached (be_value sig) msg (be_value pk)
      else false
  | _, _ => false
  end.

Definition link_token_event_signature_valid (e : LinkTokenEvent) : bool :=
  if negb (verify_b64 (le_origin_pubkey e) (link_token_event_signing_bytes e) (le_signature e))
  then false
  else if is_empty (le_code_hash e) then is_empty (le_code_signature e)
  else verify_b64 (le_origin_pubkey e) (link_code_binding_bytes e) (le_code_signature e).
End signing.

Section hashes.
Context `{HexCodec, Sodium}.

Definition link_token_hash_hex (token : string) : string :=
  to_hex (be_bytes 32 (digest (add_string (new_encoder kLinkTokenHashDomain) token))).

Definition link_code_hash_hex (code : string) : string :=
  to_hex (be_bytes 32 (digest (add_string (new_encoder kLinkCodeHashDomain) code))).
End hashes.

(** ** Structural and time checks *)

Definition fields_bounded (e : LinkTokenEvent) : bool :=
  bounded (le_token_hash e) && bounded (le_network_id e) && bounded (le_group_node_id e) &&
  bounded (le_owner_user_id e) && bounded (le_owner_pubkey e) && bounded (le_origin_pubkey e) &&
  bounded (le_signature e) && bounded (le_code_hash e) && bounded (le_code_signature e).

Definition code_binding_error (e : LinkTokenEvent) : option string :=
  if is_empty (le_code_hash e)
  then if negb (is_empty (le_code_signature e))
       then Some "a code signature needs a code hash"%string else None
  else if negb (is_hex64 (le_code_hash e))
  then Some "code hash is not 64 lowercase hex digits"%string
  else if negb (Bool.eqb (is_empty (le_code_signature e)) (is_empty (le_signature e)))
  then Some "a signed mint signs its code binding"%string
  else None.

Definition mint_error (e : LinkTokenEvent) : option string :=
  if negb (le_generation e =? 0) then Some "a mint is generation 0"%string
  else
    match code_binding_error e with
    | Some err => Some err
    | None =>
        if is_empty (le_group_node_id e) || is_empty (le_owner_user_id e) ||
           is_empty (le_owner_pubkey e) then Some "a mint names its group and owner"%string
        else if (le_created_at e =? 0) || (le_expires_at e <=? le_created_at e) ||
                (kLinkTokenMaxTtlSec <? u64_sub (le_expires_at e) (le_created_at e))
        then Some "mint lifetime out of bounds"%string
        else if (kLinkTokenMaxPermissions <? length (le_permissions e))%nat
        then Some "too many permissions"%string
        else if existsb (λ p, is_empty p || negb (bounded p)) (le_permissions e)
        then Some "invalid permission name"%string
        else None
    end.

Definition link_token_event_shape_error (e : LinkTokenEvent) : option string :=
  if negb (link_kind_known (le_kind e)) then Some "unknown event kind"%string
  else if negb (is_hex64 (le_token_hash e))
  then Some "token hash is not 64 lowercase hex digits"%string
  else if kLinkTokenMaxGeneration <? le_generation e
  then Some "generation beyond the limit"%string
  else if (le_expires_at e =? 0) || (le_timestamp e =? 0) || (le_origin_seq e =? 0)
  then Some "expiry, timestamp, and origin sequence must be set"%string
  else if is_empty (le_origin_pubkey e) then Some "origin is empty"%string
  else if negb (fields_bounded e) then Some "a field exceeds its bound"%string
  else if negb (le_kind e =? LinkMint) &&
          (negb (is_empty (le_code_hash e)) || negb (is_empty (le_code_signature e)))
  then Some "only a mint carries a code binding"%string
  else if le_kind e =? LinkMint then mint_error e
  else if negb (is_empty (le_group_node_id e)) || negb (bool_decide (le_permissions e = [])) ||
          negb (is_empty (le_owner_user_id e)) || negb (is_empty (le_owner_pubkey e)) ||
          negb (le_created_at e =? 0)
  then Some "only a mint carries grant fields"%string
  else if (le_kind e =? LinkRevoke) && negb (le_generation e =? 0)
  then Some "a revoke is generation 0"%string
  else if (le_kind e =? LinkRefund) && (kLinkTokenMaxGeneration <=? le_generation e)
  then Some "a refund cannot open a generation beyond the limit"%string
  else None.

Definition link_token_event_time_error (e : LinkTokenEvent) (now_sec : Z) : option string :=
  if (le_expires_at e +64 kLinkTokenRetentionSec) <=? now_sec
  then Some "the token's retention ended"%string
  else if ((now_sec +64 kLinkTokenMaxTtlSec) +64 kLinkTokenMaxFutureSec) <? le_expires_at e
  then Some "expiry too far in the future"%string
  else if (now_sec +64 kLinkTokenMaxFutureSec) <? le_timestamp e
  then Some "timestamp in the future"%string
  else None.

Definition kind_letter (kind : Z) : string :=
  if kind =? LinkMint then "m" else if kind =? LinkSpend then "s"
  else if kind =? LinkRefund then "r" else if kind =? LinkRevoke then "x" else "?".

Definition link_token_event_key (e : LinkTokenEvent) : string :=
  "lt:" +:+ le_token_hash e +:+ ":" +:+ kind_letter (le_kind e) +:+
  (if negb (le_kind e =? LinkMint)
   then ":" +:+ pretty (Z.to_N (le_generation e)) +:+ ":" +:+ le_origin_pubkey e else "").

(** ** Wire form *)

Definition link_token_event_to_wire (e : LinkTokenEvent) : json :=
  object
    ([("kind", JUnsigned (le_kind e));
      ("token_hash", JString (le_token_hash e));
      ("generation", JUnsigned (le_generation e));
      ("network_id", JString (le_network_id e));
      ("expires_at", JUnsigned (le_expires_at e));
      ("group_node_id", JString (le_group_node_id e));
      ("permissions", JArray (JString <$> le_permissions e));
      ("owner_user_id", JString (le_owner_user_id e));
      ("owner_pubkey", JString (le_owner_pubkey e));
      ("created_at", JUnsigned (le_created_at e));
      ("timestamp", JUnsigned (le_timestamp e));
      ("origin_pubkey", JString (le_origin_pubkey e));
      ("origin_seq", JUnsigned (le_origin_seq e));
      ("signature", JString (le_signature e))] ++
     (if negb (is_empty (le_code_hash e)) then [("code_hash", JString (le_code_hash e))] else []) ++
     (if negb (is_empty (le_code_signature e))
      then [("code_signature", JString (le_code_signature e))] else [])).

Definition wire_text (fields : gmap string json) (k : string) : option string :=
  match fields !! k with
  | Some (JString s) => if bounded s then Some s else None
  | _ => None
  end.

(** A non-negative [number_integer] is unsigned after a parse, so both branches
    of the source read the same documents. *)
Definition wire_u64 (fields : gmap string json) (k : string) : option Z :=
  match fields !! k with Some (JUnsigned z) => Some z | _ => None end.

Definition wire_optional_text (fields : gmap string json) (k : string) : option string :=
  match fields !! k with None => Some ""%string | Some _ => wire_text fields k end.

Definition wire_permission (p : json) : option string :=
  match p with JString s => if bounded s then Some s else None | _ => None end.

Definition wire_permissions (fields : gmap string json) : option (list string) :=
  match fields !! "permissions"%string with
  | Some (JArray items) =>
      if (kLinkTokenMaxPermissions <? length items)%nat then None else mapM wire_permission items
  | _ => None
  end.

Definition link_token_event_from_wire (j : json) : option LinkTokenEvent :=
  match j with
  | JObject fields =>
      kind ← wire_u64 fields "kind";
      if 255 <? kind then None
      else
        generation ← wire_u64 fields "generation";
        if kLinkTokenMaxGeneration <? generation then None
        else
          token_hash ← wire_text fields "token_hash";
          network_id ← wire_text fields "network_id";
          expires_at ← wire_u64 fields "expires_at";
          group_node_id ← wire_text fields "group_node_id";
          owner_user_id ← wire_text fields "owner_user_id";
          owner_pubkey ← wire_text fields "owner_pubkey";
          created_at ← wire_u64 fields "created_at";
          timestamp ← wire_u64 fields "timestamp";
          origin_pubkey ← wire_text fields "origin_pubkey";
          origin_seq ← wire_u64 fields "origin_seq";
          signature ← wire_text fields "signature";
          code_hash ← wire_optional_text fields "code_hash";
          code_signature ← wire_optional_text fields "code_signature";
          perms ← wire_permissions fields;
          Some (mkLinkEvent kind token_hash generation network_id expires_at group_node_id perms
                  owner_user_id owner_pubkey created_at code_hash code_signature timestamp
                  origin_pubkey origin_seq signature)
  | _ => None
  end.

(** ** The ledger *)

Record LinkTokenEntry := mkTokenEntry {
  lt_network_id : string;
  lt_expires_at : Z;
  lt_mint : option LinkTokenEvent;
  lt_events : gmap string LinkTokenEvent;
}.

#[export] Instance eta_token_entry : Etable LinkTokenEntry := λ t,
  mkTokenEntry (lt_network_id t) (lt_expires_at t) (lt_mint t) (lt_events t).

Record LinkTokenLedger := mkLinkLedger {
  tokens_ : gmap string LinkTokenEntry;
  codes_ : gmap string (gset string);
}.

Inductive AddResult := Added | Duplicate | Refused | Full.

Record LinkLive := mkLive { live_mint : LinkTokenEvent; live_generation : Z }.

Definition index_code (e : LinkTokenEvent) (codes : gmap string (gset string))
    : gmap string (gset string) :=
  if (le_kind e =? LinkMint) && negb (is_empty (le_code_hash e))
  then <[ le_code_hash e := {[ le_token_hash e ]} ∪ default ∅ (codes !! le_code_hash e) ]> codes
  else codes.

(** The token of the event after [tokens_.find] or [emplace]. *)
Definition token_for (e : LinkTokenEvent) (l : LinkTokenLedger) : AddResult + LinkTokenEntry :=
  match tokens_ l !! le_token_hash e with
  | None => if (kLinkTokenMaxTokens <=? size (tokens_ l))%nat then inl Full
            else inr (mkTokenEntry (le_network_id e) (le_expires_at e) None ∅)
  | Some t => if negb (String.eqb (lt_network_id t) (le_network_id e)) ||
                 negb (lt_expires_at t =? le_expires_at e)
              then inl Refused else inr t
  end.

Definition store_token (e : LinkTokenEvent) (t : LinkTokenEntry) (codes : gmap string (gset string))
    (l : LinkTokenLedger) : LinkTokenLedger :=
  mkLinkLedger (<[ le_token_hash e := t ]> (tokens_ l)) codes.

Definition link_add (e : LinkTokenEvent) (now_sec : Z) (l : LinkTokenLedger)
    : AddResult * LinkTokenLedger :=
  match link_token_event_shape_error e, link_token_event_time_error e now_sec with
  | None, None =>
      match token_for e l with
      | inl result => (result, l)
      | inr t =>
          let key := link_token_event_key e in
          let l := store_token e t (codes_ l) l in
          match lt_events t !! key with
          | Some held =>
              if bool_decide (held = e) then (Duplicate, l)
              else if negb (le_kind e =? LinkMint) ||
                      negb (bool_decide (without_code held = without_code e)) then (Refused, l)
              else if is_empty (le_code_hash e) || negb (is_empty (le_code_hash held))
              then (Duplicate, l)
              else
                let t := t <| lt_events := <[ key := e ]> (lt_events t) |> <| lt_mint := Some e |> in
                (Added, store_token e t (index_code e (codes_ l)) l)
          | None =>
              if (kLinkTokenMaxEventsPerToken <=? size (lt_events t))%nat then (Full, l)
              else
                let t := t <| lt_events := <[ key := e ]> (lt_events t) |> in
                let t := if le_kind e =? LinkMint then t <| lt_mint := Some e |> else t in
                (Added, store_token e t (index_code e (codes_ l)) l)
          end
      end
  | _, _ => (Refused, l)
  end.

Definition spends (generation : Z) (events : gmap string LinkTokenEvent) : list LinkTokenEvent :=
  filter (λ e, le_kind e = LinkSpend ∧ le_generation e = generation) (map_to_list events).*2.

Definition smaller_origin (winner : option string) (e : LinkTokenEvent) : option string :=
  match winner with
  | Some w => if String.ltb (le_origin_pubkey e) w then Some (le_origin_pubkey e) else Some w
  | None => Some (le_origin_pubkey e)
  end.

Definition spend_winner (token_hash : string) (generation : Z) (l : LinkTokenLedger)
    : option string :=
  t ← tokens_ l !! token_hash; foldl smaller_origin None (spends generation (lt_events t)).

Definition revoked (token_hash : string) (l : LinkTokenLedger) : bool :=
  match tokens_ l !! token_hash with
  | None => false
  | Some t => existsb (λ e, le_kind e =? LinkRevoke) (map_to_list (lt_events t)).*2
  end.

Definition refunded_by (events : gmap string LinkTokenEvent) (generation : Z) (origin : string)
    : bool :=
  existsb (λ e, (le_kind e =? LinkRefund) && (le_generation e =? generation) &&
                String.eqb (le_origin_pubkey e) origin) (map_to_list events).*2.

(** [for (g = 0; g <= kLinkTokenMaxGeneration; ++g)] *)
Fixpoint live_from (steps : nat) (g : Z) (token_hash : string) (mint : LinkTokenEvent)
    (events : gmap string LinkTokenEvent) (l : LinkTokenLedger) : option LinkLive :=
  match steps with
  | O => None
  | S steps' =>
      match spend_winner token_hash g l with
      | None => Some (mkLive mint g)
      | Some winner =>
          if negb (refunded_by events g winner) then None
          else live_from steps' (g + 1) token_hash mint events l
      end
  end.

Definition link_live (token_hash : string) (now_sec : Z) (l : LinkTokenLedger) : option LinkLive :=
  match tokens_ l !! token_hash with
  | None => None
  | Some t =>
      match lt_mint t with
      | None => None
      | Some mint =>
          if (lt_expires_at t <=? now_sec) || revoked token_hash l then None
          else live_from 9 0 token_hash mint (lt_events t) l
      end
  end.

(** A held mint whose code has not expired. *)
Definition code_current (l : LinkTokenLedger) (now_sec : Z) (token_hash : string) : bool :=
  match tokens_ l !! token_hash with
  | Some t => match lt_mint t with
              | Some mint => now_sec <? link_code_expires_at mint
              | None => false
              end
  | None => false
  end.

Definition live_by_code (code_hash : string) (now_sec : Z) (l : LinkTokenLedger)
    : option LinkLive :=
  hashes ← codes_ l !! code_hash;
  match filter (λ h, code_current l now_sec h = true) (elements hashes) with
  | [only] => link_live only now_sec l
  | _ => None
  end.

Definition code_in_use (code_hash : string) (now_sec : Z) (l : LinkTokenLedger) : bool :=
  match codes_ l !! code_hash with
  | None => false
  | Some hashes => existsb (code_current l now_sec) (elements hashes)
  end.

Definition live_count_for_owner (owner_user_id : string) (now_sec : Z) (l : LinkTokenLedger) : nat :=
  length (filter (λ kv, (match lt_mint kv.2 with
                         | Some mint => String.eqb (le_owner_user_id mint) owner_user_id
                         | None => false
                         end && match link_live kv.1 now_sec l with Some _ => true | None => false end)
                        = true) (map_to_list (tokens_ l))).

(** Tokens whose retention ended go, and with them their codes. *)
Definition link_prune (now_sec : Z) (l : LinkTokenLedger) : nat * LinkTokenLedger :=
  let kept := filter (λ kv, now_sec < lt_expires_at kv.2 +64 kLinkTokenRetentionSec) (tokens_ l) in
  let removed := (size (tokens_ l) - size kept)%nat in
  let codes :=
    if (0 <? removed)%nat
    then filter (λ kv, kv.2 ≠ ∅)
           ((λ hashes : gset string, filter (λ h, is_Some (kept !! h)) hashes) <$> codes_ l)
    else codes_ l in
  (removed, mkLinkLedger kept codes).
