(* ===== verification/TreeRules.v ===== *)
(** * Authorization and content rules of the permission tree

    Models [Tree/TreeRules.cpp]: pure functions of a node map. A refusal is the
    text or the ruling the source returns. The source's loops up the parent
    chain stop at an empty id, at an id seen before and at a missing node;
    [climb] is that loop, with one unit of fuel more than the map has nodes
    ([climb_fuel] shows that more fuel changes nothing). *)

From S2P Require Import Prelude SecurityPolicy Json TreeTypes.
From Stdlib Require Import Ascii.

(** ** Permission names *)

Definition permission_from_string (perm_str : string) : Z :=
  if String.eqb perm_str "read" then PermRead
  else if String.eqb perm_str "write" then PermWrite
  else if String.eqb perm_str "add_child" then PermAddChild
  else if String.eqb perm_str "edit_node" then PermEditNode
  else if String.eqb perm_str "delete_node" then PermDeleteNode
  else if String.eqb perm_str "expand_subnet" then PermExpandSubnet
  else if String.eqb perm_str "connect_private" then PermConnectPrivate
  else if String.eqb perm_str "connect_shared" then PermConnectShared
  else if String.eqb perm_str "relay_forward" then PermRelayForward
  else if String.eqb perm_str "routing_coordinate" then PermRoutingCoordinate
  else if String.eqb perm_str "stun_respond" then PermStunRespond
  else if String.eqb perm_str "relay_register" then PermRelayRegister
  else if String.eqb perm_str "allocate_ip" then PermAllocateIP
  else if String.eqb perm_str "admin" then PermAdmin
  else PermNone.

Definition kServicePermissionPrefix : string := "svc:".
Definition kServicePermissionFamilyMax : nat := 63.

Definition lower_alnum (c : ascii) : bool := in_range 97 122 c || in_range 48 57 c.

Definition family_char (c : ascii) : bool :=
  lower_alnum c || Ascii.eqb c "_"%char || Ascii.eqb c "."%char || Ascii.eqb c "-"%char.

Definition is_service_permission (name : string) : bool :=
  if negb (starts_with kServicePermissionPrefix name) then false
  else
    match String.list_ascii_of_string (string_drop 4 name) with
    | [] => false
    | front :: rest =>
        if (kServicePermissionFamilyMax <? length (front :: rest))%nat then false
        else if negb (lower_alnum front) then false
        else forallb family_char (front :: rest)
    end.

Definition permission_name_known (name : string) : bool :=
  negb (permission_from_string name =? PermNone) || is_service_permission name.

Definition required_permission_for (op : string) : Z :=
  if String.eqb op "create_node" then PermAddChild
  else if String.eqb op "update_node" || String.eqb op "allocate_ip" ||
          String.eqb op "register_relay" || String.eqb op "update_assignment" then PermEditNode
  else if String.eqb op "delete_node" then PermDeleteNode
  else PermNone.

(** ** Walks up the parent chain *)

(** One loop of the source: [visit] may return from it; otherwise a missing
    node ends it and a present one hands over to its parent. *)
Fixpoint climb {A : Type} (fuel : nat) (nodes : NodeMap) (visit : string → option TreeNode → option A)
    (ended : A) (visited : gset string) (current : string) : A :=
  match fuel with
  | O => ended
  | S fuel' =>
      if is_empty current || bool_decide (current ∈ visited) then ended
      else
        match visit current (nodes !! current) with
        | Some result => result
        | None =>
            match nodes !! current with
            | None => ended
            | Some node => climb fuel' nodes visit ended ({[current]} ∪ visited) (tn_parent_id node)
            end
        end
  end.

Definition loop_fuel (nodes : NodeMap) : nat := S (size nodes).

Section rules.
Context `{TextCodec}.

Definition assignment_grants (required : Z) (a : Assignment) : bool :=
  existsb (λ perm_str, has_permission (permission_from_string perm_str) required) (permissions a).

Definition signer_has_permission (node : TreeNode) (signer_pubkey : string) (required : Z) : bool :=
  existsb (λ a, same_principal (management_pubkey a) signer_pubkey && assignment_grants required a)
    (tn_assignments node).

Definition admin_visit (signer_pubkey id : string) (node : option TreeNode)
    : option (option string) :=
  match node with
  | Some node => if signer_has_permission node signer_pubkey PermAdmin then Some (Some id) else None
  | None => None
  end.

Definition admin_anchor (nodes : NodeMap) (node_id signer_pubkey : string) : option string :=
  climb (loop_fuel nodes) nodes (admin_visit signer_pubkey) None ∅ node_id.

Definition administers (nodes : NodeMap) (node_id signer : string) : bool :=
  match admin_anchor nodes node_id signer with Some _ => true | None => false end.

Fixpoint root_walk (fuel : nat) (nodes : NodeMap) (signer : string) (visited : gset string)
    (current : string) : bool :=
  match fuel with
  | O => false
  | S fuel' =>
      if bool_decide (current ∈ visited) then false
      else
        match nodes !! current with
        | None => false
        | Some node =>
            if is_empty (tn_parent_id node) then signer_has_permission node signer PermAdmin
            else root_walk fuel' nodes signer ({[current]} ∪ visited) (tn_parent_id node)
        end
  end.

Definition administers_root (nodes : NodeMap) (node_id signer_pubkey : string) : bool :=
  root_walk (loop_fuel nodes) nodes signer_pubkey ∅ node_id.

Definition at_or_under (nodes : NodeMap) (node_id ancestor_id : string) : bool :=
  climb (loop_fuel nodes) nodes (λ id _, if String.eqb id ancestor_id then Some true else None)
    false ∅ node_id.

Definition principal_joined_under (nodes : NodeMap) (scope_id principal : string) : bool :=
  if is_empty (canonical_principal principal) then false
  else existsb (λ kv, same_principal (tn_mgmt_pubkey kv.2) principal && at_or_under nodes kv.1 scope_id)
         (map_to_list nodes).

Definition mesh_pubkey_taken (nodes : NodeMap) (mesh_pubkey own_id : string) : bool :=
  if is_empty mesh_pubkey then false
  else existsb (λ kv, negb (String.eqb kv.1 own_id) && String.eqb (tn_mesh_pubkey kv.2) mesh_pubkey)
         (map_to_list nodes).

(** ** Device names *)

Definition device_label_collides (node : TreeNode) (parent_id label own_id : string) : bool :=
  if is_empty label then false
  else is_type (tn_type node) Endpoint && String.eqb (tn_parent_id node) parent_id &&
       negb (String.eqb (tn_id node) own_id) && String.eqb (device_label (tn_hostname node)) label.

Definition device_label_conflicts (nodes : NodeMap) (parent_id label own_id : string)
    : list string :=
  sort_strings (filter (λ kv, device_label_collides kv.2 parent_id label own_id = true)
                  (map_to_list nodes)).*1.

Definition device_name_refusal (hostname : string) (conflict : option TreeNode) : option string :=
  if is_empty hostname then None
  else if is_empty (device_label hostname)
  then Some ("device name '" +:+ hostname +:+ "' has no letter or digit; pick another name")
  else
    match conflict with
    | Some conflict =>
        Some ("device name '" +:+ hostname +:+ "' is the same as device '" +:+ tn_hostname conflict
              +:+ "' (" +:+ tn_id conflict +:+ ") on the mesh port; pick another name")
    | None => None
    end.

(** ** Content rules of a delta *)

(** Principal to sorted permission names, one entry per key. *)
Definition assignment_map (assignments : list Assignment) : gmap string (list string) :=
  sort_unique <$>
    foldl (λ out a, let key := canonical_principal (management_pubkey a) in
                    <[ key := default [] (out !! key) ++ permissions a ]> out)
      ∅ assignments.

(** An assignment of a new node that names neither the signer nor the node's
    own key. *)
Definition names_other (signer mgmt : string) (a : Assignment) : bool :=
  negb (same_principal (management_pubkey a) signer) &&
  negb (same_principal (management_pubkey a) mgmt).

Definition create_refusal (nodes : NodeMap) (delta : TreeDelta) : option string :=
  let data := td_node_data delta in
  let signer := td_signer_pubkey delta in
  if is_type (tn_type data) Root || is_empty (tn_parent_id data)
  then Some "a root node cannot be created"%string
  else if (negb (is_empty (tn_tunnel_ip data)) || negb (is_empty (tn_private_subnet data)) ||
           is_type (tn_type data) Relay) &&
          negb (administers_root nodes (tn_parent_id data) signer)
  then Some "only a root admin may create a relay or set node addresses"%string
  else
    let others := filter (λ a, names_other signer (tn_mgmt_pubkey data) a = true)
                    (tn_assignments data) in
    if negb (existsb (names_other signer (tn_mgmt_pubkey data)) (tn_assignments data)) then None
    else
      match admin_anchor nodes (tn_parent_id data) signer with
      | None => Some "only an admin of the parent may assign other identities"%string
      | Some anchor =>
          if forallb (λ a, principal_joined_under nodes anchor (management_pubkey a)) others
          then None else Some "assignment names an identity that has not joined"%string
      end.

(** The entries of [after] that [before] does not hold as they are. *)
Definition changed_principals (before after : gmap string (list string)) : list string :=
  (filter (λ kv, before !! kv.1 ≠ Some kv.2) (map_to_list after)).*1.

Definition update_refusal (nodes : NodeMap) (current : TreeNode) (delta : TreeDelta)
    : option string :=
  let data := td_node_data delta in
  let signer := td_signer_pubkey delta in
  if negb (String.eqb (tn_id data) (tn_id current)) then Some "node id cannot change"%string
  else if negb (String.eqb (tn_parent_id data) (tn_parent_id current))
  then Some "node parent cannot change"%string
  else if negb (is_type (tn_type data) (tn_type current)) then Some "node type cannot change"%string
  else if negb (same_principal (tn_mgmt_pubkey data) (tn_mgmt_pubkey current))
  then Some "node management key cannot change"%string
  else if negb (String.eqb (tn_endpoint_identifier data) (tn_endpoint_identifier current))
  then Some "endpoint identifier cannot change"%string
  else if (negb (String.eqb (tn_tunnel_ip data) (tn_tunnel_ip current)) ||
           negb (String.eqb (tn_private_subnet data) (tn_private_subnet current))) &&
          negb (administers_root nodes (tn_id current) signer)
  then Some "only a root admin may change node addresses"%string
  else
    let before := assignment_map (tn_assignments current) in
    let after := assignment_map (tn_assignments data) in
    if bool_decide (before = after) then None
    else
      match admin_anchor nodes (tn_id current) signer with
      | None => Some "only an admin of this node or an ancestor may change assignments"%string
      | Some anchor =>
          if forallb (principal_joined_under nodes anchor) (changed_principals before after)
          then None else Some "assignment names an identity that has not joined"%string
      end.

Definition delta_content_refusal (nodes : NodeMap) (delta : TreeDelta) : option string :=
  if String.eqb (td_operation delta) "delete_node" then
    match nodes !! td_target_node_id delta with
    | Some node => if is_empty (tn_parent_id node)
                   then Some "the root node cannot be deleted"%string else None
    | None => None
    end
  else if String.eqb (td_operation delta) "create_node" then create_refusal nodes delta
  else
    match nodes !! td_target_node_id delta with
    | None => None
    | Some current => update_refusal nodes current delta
    end.

(** ** Assignment changes *)

Inductive AssignmentRefusal := RefNotFound | RefForbidden | RefInvalid | RefConflict.

Record AssignmentRuling := mkRuling {
  ar_refusal : AssignmentRefusal;
  ar_reason : string;
}.

(** A principal leaves a group it entered through an invite. *)
Definition leaves_group (nodes : NodeMap) (node_id : string) (node : TreeNode)
    (signer principal : string) (perms : list string) : bool :=
  bool_decide (perms = []) && same_principal signer principal &&
  is_type (tn_type node) Customer && negb (signer_has_permission node signer PermAdmin) &&
  negb (principal_joined_under nodes node_id principal).

Definition assignment_change_refusal (nodes : NodeMap) (node_id signer principal : string)
    (perms : list string) : option AssignmentRuling :=
  match nodes !! node_id with
  | None => Some (mkRuling RefNotFound "node not found")
  | Some node =>
      if is_empty (canonical_principal principal)
      then Some (mkRuling RefInvalid "invalid principal")
      else
        match list_find (λ p, permission_name_known p = false) perms with
        | Some (_, p) => Some (mkRuling RefInvalid ("unknown permission '" +:+ p +:+ "'"))
        | None =>
            if leaves_group nodes node_id node signer principal perms then None
            else
              match admin_anchor nodes node_id signer with
              | None =>
                  Some (mkRuling RefForbidden
                    "only an admin of this node or an ancestor may change assignments")
              | Some anchor =>
                  if String.eqb anchor node_id && same_principal signer principal
                  then Some (mkRuling RefForbidden
                    "an admin cannot change its own entry on the node that grants it")
                  else if negb (bool_decide (perms = [])) &&
                          negb (principal_joined_under nodes anchor principal)
                  then Some (mkRuling RefForbidden "the identity has not joined this group")
                  else None
              end
        end
  end.

Definition without_principal (principal : string) (assignments : list Assignment)
    : list Assignment :=
  filter (λ a, same_principal (management_pubkey a) principal = false) assignments.

Definition replace_assignment (assignments : list Assignment) (principal : string)
    (perms : list string) : list Assignment :=
  without_principal principal assignments ++
  (if bool_decide (perms = []) then [] else [mkAssignment principal (sort_unique perms)]).

Definition link_peer_access_missing (node : TreeNode) (principal : string) : bool :=
  negb (signer_has_permission node principal PermRead) ||
  negb (signer_has_permission node principal PermConnectPrivate).

Definition add_name (perms : list string) (p : string) : list string :=
  if mentions p perms then perms else perms ++ [p].

(** The first entry of the key takes the missing names; [None]: no entry. *)
Fixpoint complete_entry (principal : string) (assignments : list Assignment)
    : option (list Assignment) :=
  match assignments with
  | [] => None
  | a :: rest =>
      if same_principal (management_pubkey a) principal
      then Some (mkAssignment (management_pubkey a)
                   (add_name (add_name (permissions a) "read") "connect_private") :: rest)
      else (a ::.) <$> complete_entry principal rest
  end.

Definition grant_link_peer_access (node : TreeNode) (principal : string) : TreeNode :=
  if negb (link_peer_access_missing node principal) then node
  else
    node <| tn_assignments :=
      match complete_entry principal (tn_assignments node) with
      | Some assignments => assignments
      | None => tn_assignments node ++ [mkAssignment principal ["read"; "connect_private"]%string]
      end |>.

Definition holds_or_administers (nodes : NodeMap) (node_id signer : string) (perm : Z) : bool :=
  match nodes !! node_id with
  | None => false
  | Some node => signer_has_permission node signer perm || administers nodes node_id signer
  end.

Definition removes_own_device (nodes : NodeMap) (node_id principal joined_as : string) : bool :=
  if is_empty node_id || negb (String.eqb node_id joined_as) then false
  else
    match nodes !! node_id with
    | None => false
    | Some node =>
        if negb (is_type (tn_type node) Endpoint) || is_empty (canonical_principal principal) ||
           negb (same_principal (tn_mgmt_pubkey node) principal) then false
        else negb (existsb (λ kv, String.eqb (tn_parent_id kv.2) node_id) (map_to_list nodes))
    end.

(** ** Invites *)

Definition kInvitePermissions : list string :=
  ["read"; "write"; "add_child"; "connect_private"; "connect_shared"]%string.

Definition invite_permission_allowed (perm : string) : bool :=
  is_service_permission perm || mentions perm kInvitePermissions.

Definition holds_literal_name (node : TreeNode) (principal name : string) : bool :=
  if is_empty (canonical_principal principal) then false
  else existsb (λ a, same_principal (management_pubkey a) principal && mentions name (permissions a))
         (tn_assignments node).

Definition holds_literal_connect (node : TreeNode) (principal : string) : bool :=
  holds_literal_name node principal "connect_private" ||
  holds_literal_name node principal "connect_shared".

Definition inviter_holds (nodes : NodeMap) (target_id : string) (target : TreeNode)
    (inviter p : string) : bool :=
  if is_service_permission p
  then holds_literal_name target inviter p || administers nodes target_id inviter
  else holds_or_administers nodes target_id inviter (permission_from_string p).

Definition invite_refusal (nodes : NodeMap) (target_id inviter : string) (perms : list string)
    : option AssignmentRuling :=
  match nodes !! target_id with
  | None => Some (mkRuling RefNotFound "invite target not found")
  | Some target =>
      if negb (is_type (tn_type target) Customer)
      then Some (mkRuling RefInvalid "an invite targets a group")
      else if is_empty (canonical_principal inviter)
      then Some (mkRuling RefInvalid "invalid inviter")
      else
        match list_find (λ p, invite_permission_allowed p = false) perms with
        | Some (_, p) => Some (mkRuling RefInvalid ("an invite cannot grant '" +:+ p +:+ "'"))
        | None =>
            if negb (holds_or_administers nodes target_id inviter PermAddChild)
            then Some (mkRuling RefForbidden "the inviter needs add_child on the invite target")
            else
              match list_find (λ p, inviter_holds nodes target_id target inviter p = false) perms with
              | Some (_, p) =>
                  Some (mkRuling RefForbidden
                    ("the inviter does not hold '" +:+ p +:+ "' on the invite target"))
              | None => None
              end
        end
  end.

Definition invite_acceptance_refusal (nodes : NodeMap) (target_id invitee inviter : string)
    (perms : list string) : option AssignmentRuling :=
  match invite_refusal nodes target_id inviter perms with
  | Some ruling => Some ruling
  | None =>
      if negb (mentions "read" perms)
      then Some (mkRuling RefInvalid "the invite grants no membership (read is missing)")
      else if is_empty (canonical_principal invitee) || negb (starts_with kEd25519Prefix invitee)
      then Some (mkRuling RefInvalid "invalid invitee")
      else if principal_joined_under nodes target_id invitee || administers nodes target_id invitee
      then Some (mkRuling RefConflict "the identity already belongs to this group")
      else None
  end.

(** ** Membership reach and connections *)

Definition covers_from (nodes : NodeMap) (member : string) (visited : gset string)
    (current : string) : bool :=
  climb (loop_fuel nodes) nodes
    (λ _ node, match node with
               | Some node => if is_type (tn_type node) Customer && holds_literal_connect node member
                              then Some true else None
               | None => None
               end) false visited current.

Definition membership_reaches (nodes : NodeMap) (member : string) (node : TreeNode) : bool :=
  covers_from nodes member {[tn_id node]} (tn_parent_id node).

Definition membership_covers (nodes : NodeMap) (member group_id : string) : bool :=
  covers_from nodes member ∅ group_id.

Definition endpoint_may_connect (nodes : NodeMap) (principal : string) (from to : TreeNode) : bool :=
  if String.eqb (tn_id from) (tn_id to) || is_empty (tn_parent_id from) then false
  else if negb (String.eqb (tn_id to) (tn_parent_id from)) &&
          at_or_under nodes (tn_id to) (tn_parent_id from) &&
          (signer_has_permission to principal PermConnectPrivate ||
           signer_has_permission to principal PermConnectShared) then true
  else if is_empty (canonical_principal principal) ||
          negb (same_principal principal (tn_mgmt_pubkey from)) then false
  else membership_reaches nodes principal to ||
       (negb (is_empty (tn_mgmt_pubkey to)) && membership_reaches nodes (tn_mgmt_pubkey to) from).

(** ** Peer permissions *)

Record PeerPermissions := mkPeer { pp_names : list string; pp_admin : bool }.

Definition entry_names (principal : string) (node : TreeNode) : list string :=
  concat (permissions <$> filter (λ a, same_principal (management_pubkey a) principal = true)
                            (tn_assignments node)).

Fixpoint group_names (fuel : nat) (nodes : NodeMap) (principal : string) (visited : gset string)
    (current : string) : list string :=
  match fuel with
  | O => []
  | S fuel' =>
      if is_empty current || bool_decide (current ∈ visited) then []
      else
        match nodes !! current with
        | None => []
        | Some node =>
            (if is_type (tn_type node) Customer then entry_names principal node else []) ++
            group_names fuel' nodes principal ({[current]} ∪ visited) (tn_parent_id node)
        end
  end.

Definition peer_permissions (nodes : NodeMap) (principal : string) (device : TreeNode)
    : PeerPermissions :=
  if is_empty (canonical_principal principal) then mkPeer [] false
  else
    let names := entry_names principal device ++
                 group_names (loop_fuel nodes) nodes principal {[tn_id device]}
                   (tn_parent_id device) in
    let admin := signer_has_permission device principal PermAdmin ||
                 (negb (is_empty (tn_parent_id device)) &&
                  administers nodes (tn_parent_id device) principal) in
    mkPeer (sort_unique (names ++ if admin then ["admin"%string] else [])) admin.

(** ** Moves *)

Definition top_level_group (nodes : NodeMap) (node : TreeNode) : bool :=
  is_type (tn_type node) Customer &&
  match nodes !! tn_parent_id node with
  | None => true
  | Some parent => is_type (tn_type parent) Root
  end.

Definition may_remove (nodes : NodeMap) (node_id : string) (node : TreeNode) (signer : string)
    : bool :=
  if is_type (tn_type node) Endpoint then holds_or_administers nodes node_id signer PermDeleteNode
  else administers nodes node_id signer.

Definition move_refusal (nodes : NodeMap) (node_id new_parent_id signer : string)
    : option AssignmentRuling :=
  match nodes !! node_id, nodes !! new_parent_id with
  | None, _ => Some (mkRuling RefNotFound "node not found")
  | Some _, None => Some (mkRuling RefNotFound "new parent not found")
  | Some node, Some parent =>
      if is_empty (tn_parent_id node) || is_type (tn_type node) Root
      then Some (mkRuling RefForbidden "the root node cannot move")
      else if negb (is_type (tn_type node) Endpoint) && negb (is_type (tn_type node) Customer)
      then Some (mkRuling RefInvalid "only devices and groups move")
      else if top_level_group nodes node
      then Some (mkRuling RefForbidden "a top-level group cannot move")
      else if negb (is_type (tn_type parent) Customer)
      then Some (mkRuling RefInvalid "a node moves only under a group")
      else if String.eqb (tn_parent_id node) new_parent_id
      then Some (mkRuling RefConflict "the node is already under that group")
      else if at_or_under nodes new_parent_id node_id
      then Some (mkRuling RefInvalid "a node cannot move under itself or its descendants")
      else if negb (may_remove nodes node_id node signer)
      then Some (mkRuling RefForbidden
             (if is_type (tn_type node) Endpoint
              then "moving a device needs delete_node on it or admin above it"
              else "moving a group needs admin on it or above it"))
      else if negb (holds_or_administers nodes new_parent_id signer PermAddChild)
      then Some (mkRuling RefForbidden "moving needs add_child on the new parent")
      else None
  end.

(** ** Account deletion *)

Record AccountScope := mkScope { removed : list string; swept_keys : list string }.

Definition sorted_ids (nodes : NodeMap) : list string := sort_strings (map_to_list nodes).*1.

Definition node_at (nodes : NodeMap) (id : string) : TreeNode := default new_node (nodes !! id).

(** [doomed.insert(id).second], then [queue.push_back(id)]. *)
Definition enqueue (acc : gset string * list string) (id : string) : gset string * list string :=
  if bool_decide (id ∈ acc.1) then acc else ({[id]} ∪ acc.1, acc.2 ++ [id]).

Definition owned (key : string) (node : TreeNode) : bool :=
  (is_type (tn_type node) Customer || is_type (tn_type node) Endpoint) &&
  negb (is_empty (tn_parent_id node)) && String.eqb (canonical_principal (tn_mgmt_pubkey node)) key.

(** The children of [id] that the deletion takes, in id order. *)
Definition takeable_children (nodes : NodeMap) (id : string) : list string :=
  filter (λ child, tn_parent_id (node_at nodes child) = id ∧ tn_type (node_at nodes child) ≠ Root)
    (sorted_ids nodes).

(** The queue from position [i] on; [doomed] holds every id ever queued. *)
Fixpoint take_beneath (fuel : nat) (nodes : NodeMap) (doomed : gset string) (queue : list string)
    : gset string :=
  match fuel, queue with
  | S fuel', id :: rest =>
      let '(doomed, added) := foldl enqueue (doomed, []) (takeable_children nodes id) in
      take_beneath fuel' nodes doomed (rest ++ added)
  | _, _ => doomed
  end.

Definition doomed_nodes (nodes : NodeMap) (key : string) : gset string :=
  let '(doomed, queue) :=
    foldl enqueue (∅, []) (filter (λ id, owned key (node_at nodes id) = true) (sorted_ids nodes)) in
  take_beneath (loop_fuel nodes) nodes doomed queue.

Definition owner_of (nodes : NodeMap) (id : string) : string :=
  canonical_principal (tn_mgmt_pubkey (node_at nodes id)).

Definition account_scope (nodes : NodeMap) (principal : string) : AccountScope :=
  let key := canonical_principal principal in
  if is_empty key then mkScope [] []
  else
    let doomed := doomed_nodes nodes key in
    let removed := sort_strings (elements doomed) in
    let surviving_owners :=
      list_to_set (C := gset string)
        (owner_of nodes <$> filter (λ id, id ∉ doomed) (sorted_ids nodes)) in
    let swept :=
      {[key]} ∪ list_to_set (C := gset string)
                  (filter (λ owner, owner ≠ ""%string ∧ owner ∉ surviving_owners)
                     (owner_of nodes <$> removed)) in
    mkScope removed (sort_strings (elements swept)).
End rules.
