(* ===== verification/TreeOps.v ===== *)
(** * Tree operations: types, encoding and planning

    Models [Tree/TreeOps.hpp] and the encoding, address and planning parts of
    [Tree/TreeOps.cpp], with [Routing/IdentifierDerivation.cpp]. An op is one
    signed change to the tree; [plan_op] computes the node writes it makes on a
    copy-on-write [Overlay]. Validation is in TreeValidation. *)

From S2P Require Import Prelude SecurityPolicy CanonicalEncoding Json EligibilityStore.
From S2P Require Import TreeTypes LinkToken TreeRules.
From Stdlib Require Import Ascii.

(** ** Constants *)

Definition kTreeOpVersion : Z := 1.
Definition kTreeOpDomain : string := "lemonade-nexus/tree-op:v1".
Definition kTreeOpSignatureDomain : string := "lemonade-nexus/tree-op-signature:v1".
Definition kTreeOpStatementDomain : string := "lemonade-nexus/tree-op-statement:v1".
Definition kTreeTunnelDomain : string := "lemonade-nexus/tree-tunnel-address:v1".
Definition kTreeOpLinkExtensionTag : string := "lemonade-nexus/tree-op-link-extension:v1".
Definition kTreeOpRedemptionDomain : string := "lemonade-nexus/tree-op-invite-redemption:v1".
Definition kTreeOpMaxAgeSec : Z := 300.
Definition kTreeOpMaxFutureSec : Z := 60.
Definition kMaxTreeOpEncodedBytes : Z := 48000.
Definition kTreeTunnelFirstOffset : Z := 65536.
Definition kTreeTunnelLastOffset : Z := 4194302.

(** ** Operations *)

Inductive TreeOpKind :=
  | CreateNode | UpdateFields | SetAssignment | DeleteNode | Join | EstablishRoot | SetEndpoint
  | AcceptInvite | MoveNode | DeleteAccount.

#[export] Instance op_kind_eq_dec : EqDecision TreeOpKind.
Proof. solve_decision. Defined.

Definition op_kind_value (kind : TreeOpKind) : Z :=
  match kind with
  | CreateNode => 1 | UpdateFields => 2 | SetAssignment => 3 | DeleteNode => 4 | Join => 5
  | EstablishRoot => 6 | SetEndpoint => 7 | AcceptInvite => 8 | MoveNode => 9 | DeleteAccount => 10
  end.

Inductive TreeOpSource := Session | Delta | Device.

#[export] Instance op_source_eq_dec : EqDecision TreeOpSource.
Proof. solve_decision. Defined.

Definition source_value (source : TreeOpSource) : Z :=
  match source with Session => 1 | Delta => 2 | Device => 3 end.

Record JoinStatement := mkJoin {
  js_device_pubkey : string;
  js_challenge : string;
  js_challenge_signature : string;
  js_hostname_present : bool;
  js_hostname : string;
  js_mesh_pubkey_present : bool;
  js_mesh_pubkey : string;
  js_cpu_id : string;
  js_net_mac : string;
  js_region : string;
  js_is_inference : bool;
  js_link_group_id : string;
  js_link_owner_pubkey : string;
}.

#[export] Instance join_eq_dec : EqDecision JoinStatement.
Proof. solve_decision. Defined.

Definition new_join : JoinStatement := mkJoin "" "" "" false "" false "" "" "" "" false "" "".

Record TreeOpBody := mkBody {
  ob_source : TreeOpSource;
  ob_node : TreeNode;
  ob_delta : TreeDelta;
  ob_assignment_principal : string;
  ob_assignment_permissions : list string;
  ob_join : JoinStatement;
  ob_listen_endpoint : string;
  ob_inviter : string;
  ob_invite_permissions : list string;
  ob_new_parent_id : string;
  ob_link_extension : bool;
  ob_invite_grant : option LinkTokenEvent;
}.

#[export] Instance eta_body : Etable TreeOpBody := λ b,
  mkBody (ob_source b) (ob_node b) (ob_delta b) (ob_assignment_principal b)
    (ob_assignment_permissions b) (ob_join b) (ob_listen_endpoint b) (ob_inviter b)
    (ob_invite_permissions b) (ob_new_parent_id b) (ob_link_extension b) (ob_invite_grant b).

#[export] Instance body_eq_dec : EqDecision TreeOpBody.
Proof. solve_decision. Defined.

Definition new_body : TreeOpBody :=
  mkBody Session new_node new_delta "" [] new_join "" "" [] "" false None.

Record TreeOp := mkOp {
  op_version : Z;
  op_network_id : NetworkId;
  op_kind : TreeOpKind;
  op_target : string;
  op_base_version : Z;
  op_signed_at : Z;
  op_nonce : Z;
  op_principal : string;
  op_body : TreeOpBody;
  op_author : string;
  op_id : Digest;
  op_signature : string;
  op_submitted_by : string;
}.

#[export] Instance eta_op : Etable TreeOp := λ o,
  mkOp (op_version o) (op_network_id o) (op_kind o) (op_target o) (op_base_version o)
    (op_signed_at o) (op_nonce o) (op_principal o) (op_body o) (op_author o) (op_id o)
    (op_signature o) (op_submitted_by o).

Definition kind_known (kind : TreeOpKind) : bool :=
  match kind with
  | CreateNode | UpdateFields | SetAssignment | DeleteNode | Join | EstablishRoot | SetEndpoint
  | AcceptInvite | MoveNode | DeleteAccount => true
  end.

Definition source_allowed (kind : TreeOpKind) (source : TreeOpSource) : bool :=
  match kind with
  | CreateNode | UpdateFields | DeleteNode =>
      match source with Session | Delta => true | Device => false end
  | SetAssignment | EstablishRoot | SetEndpoint | AcceptInvite | MoveNode | DeleteAccount =>
      match source with Session => true | _ => false end
  | Join => match source with Device => true | _ => false end
  end.

Definition link_extension_allowed (op : TreeOp) : bool :=
  match op_kind op, ob_source (op_body op) with
  | Join, Device => true
  | AcceptInvite, Session => true
  | _, _ => false
  end.

(** The node record of a create or an update. *)
Definition op_node (op : TreeOp) : TreeNode :=
  match ob_source (op_body op) with
  | Delta => td_node_data (ob_delta (op_body op))
  | _ => ob_node (op_body op)
  end.

(** ** Encoding *)

Definition add_bool (enc : CanonicalEncoder) (value : bool) : CanonicalEncoder :=
  add_u16 enc (if value then 1 else 0).

Definition add_assignment (enc : CanonicalEncoder) (a : Assignment) : CanonicalEncoder :=
  add_strings (add_string enc (management_pubkey a)) (permissions a).

Definition add_node (enc : CanonicalEncoder) (n : TreeNode) : CanonicalEncoder :=
  let enc := add_string enc (tn_id n) in
  let enc := add_string enc (tn_parent_id n) in
  let enc := add_string enc (node_type_to_string (tn_type n)) in
  let enc := add_string enc (tn_hostname n) in
  let enc := add_string enc (tn_tunnel_ip n) in
  let enc := add_string enc (tn_private_subnet n) in
  let enc := add_string enc (tn_private_shared_addresses n) in
  let enc := add_string enc (tn_shared_domain n) in
  let enc := add_string enc (tn_mgmt_pubkey n) in
  let enc := add_string enc (tn_wrapped_mgmt_privkey n) in
  let enc := add_string enc (tn_mesh_pubkey n) in
  let enc := add_string enc (tn_endpoint_identifier n) in
  let enc := add_string enc (tn_cpu_id n) in
  let enc := add_string enc (tn_net_mac n) in
  let enc := add_bool enc (tn_is_inference n) in
  let enc := add_u32 enc (Z.of_nat (length (tn_assignments n))) in
  let enc := foldl add_assignment enc (tn_assignments n) in
  let enc := add_string enc (tn_signature n) in
  let enc := add_string enc (tn_listen_endpoint n) in
  let enc := add_string enc (tn_region n) in
  let enc := add_u32 enc (tn_capacity_mbps n) in
  let enc := add_u32 enc (tn_reputation_score n) in
  let enc := add_u64 enc (tn_expires_at n) in
  add_u64 enc (tn_version n).

Definition add_delta (enc : CanonicalEncoder) (d : TreeDelta) : CanonicalEncoder :=
  let enc := add_string enc (td_operation d) in
  let enc := add_string enc (td_target_node_id d) in
  let enc := add_node enc (td_node_data d) in
  let enc := add_string enc (td_signer_pubkey d) in
  let enc := add_string enc (td_signature d) in
  add_u64 enc (td_timestamp d).

Definition add_join (enc : CanonicalEncoder) (j : JoinStatement) : CanonicalEncoder :=
  let enc := add_string enc (js_device_pubkey j) in
  let enc := add_string enc (js_challenge j) in
  let enc := add_string enc (js_challenge_signature j) in
  let enc := add_bool enc (js_hostname_present j) in
  let enc := add_string enc (js_hostname j) in
  let enc := add_bool enc (js_mesh_pubkey_present j) in
  let enc := add_string enc (js_mesh_pubkey j) in
  let enc := add_string enc (js_cpu_id j) in
  let enc := add_string enc (js_net_mac j) in
  let enc := add_string enc (js_region j) in
  let enc := add_bool enc (js_is_inference j) in
  let enc := add_string enc (js_link_group_id j) in
  add_string enc (js_link_owner_pubkey j).

Definition add_link_event (enc : CanonicalEncoder) (e : LinkTokenEvent) : CanonicalEncoder :=
  let enc := add_u16 enc (le_kind e) in
  let enc := add_string enc (le_token_hash e) in
  let enc := add_u32 enc (le_generation e) in
  let enc := add_string enc (le_network_id e) in
  let enc := add_u64 enc (le_expires_at e) in
  let enc := add_string enc (le_group_node_id e) in
  let enc := add_strings enc (le_permissions e) in
  let enc := add_string enc (le_owner_user_id e) in
  let enc := add_string enc (le_owner_pubkey e) in
  let enc := add_u64 enc (le_created_at e) in
  let enc := add_u64 enc (le_timestamp e) in
  let enc := add_string enc (le_origin_pubkey e) in
  let enc := add_u64 enc (le_origin_seq e) in
  add_string enc (le_signature e).

Definition add_body (enc : CanonicalEncoder) (op : TreeOp) : CanonicalEncoder :=
  let body := op_body op in
  match ob_source body with
  | Delta => add_delta enc (ob_delta body)
  | Device => add_join enc (ob_join body)
  | Session =>
      match op_kind op with
      | CreateNode | UpdateFields => add_node enc (ob_node body)
      | SetAssignment =>
          add_strings (add_string enc (ob_assignment_principal body))
            (ob_assignment_permissions body)
      | SetEndpoint => add_string enc (ob_listen_endpoint body)
      | AcceptInvite =>
          add_strings (add_string enc (ob_inviter body)) (ob_invite_permissions body)
      | MoveNode => add_string enc (ob_new_parent_id body)
      | _ => enc
      end
  end.

Definition add_link_extension (enc : CanonicalEncoder) (body : TreeOpBody) : CanonicalEncoder :=
  if ob_link_extension body
  then
    let enc := add_string enc kTreeOpLinkExtensionTag in
    match ob_invite_grant body with
    | Some grant => add_link_event (add_bool enc true) grant
    | None => add_bool enc false
    end
  else enc.

Definition op_encoder (op : TreeOp) : CanonicalEncoder :=
  let enc := new_encoder kTreeOpDomain in
  let enc := add_u32 enc (op_version op) in
  let enc := add_digest enc (op_network_id op) in
  let enc := add_u16 enc (op_kind_value (op_kind op)) in
  let enc := add_string enc (op_target op) in
  let enc := add_u64 enc (op_base_version op) in
  let enc := add_u64 enc (op_signed_at op) in
  let enc := add_bytes enc (be_bytes 16 (op_nonce op)) in
  let enc := add_string enc (op_principal op) in
  let enc := add_string enc (op_author op) in
  let enc := add_u16 enc (source_value (ob_source (op_body op))) in
  add_link_extension (add_body enc op) (op_body op).

Definition encode_tree_op (op : TreeOp) : list Z := op_encoder op.

(** ** Endpoint and tunnel address text *)

Definition is_digit_char (c : ascii) : bool := in_range 48 57 c.

Definition digits_value (l : list ascii) : Z :=
  foldl (λ acc c, acc * 10 + (Z.of_nat (nat_of_ascii c) - 48)) 0 l.

Fixpoint take_digits (l : list ascii) : list ascii * list ascii :=
  match l with
  | c :: rest => if is_digit_char c then let '(d, r) := take_digits rest in (c :: d, r) else ([], l)
  | [] => ([], [])
  end.

Definition endpoint_char (c : ascii) : bool :=
  in_range 97 122 c || in_range 65 90 c || is_digit_char c || Ascii.eqb c "."%char ||
  Ascii.eqb c "-"%char || Ascii.eqb c ":"%char || Ascii.eqb c "["%char || Ascii.eqb c "]"%char.

(** The text after the last colon, and whether text precedes it. *)
Fixpoint after_last_colon (l : list ascii) : option (bool * list ascii) :=
  match l with
  | [] => None
  | c :: rest =>
      match after_last_colon rest with
      | Some (_, digits) => Some (true, digits)
      | None => if Ascii.eqb c ":"%char then Some (false, rest) else None
      end
  end.

Definition endpoint_text_valid (endpoint : string) : bool :=
  let l := String.list_ascii_of_string endpoint in
  if is_empty endpoint then true
  else if (253 + 6 <? length l)%nat then false
  else
    match after_last_colon l with
    | Some (true, (_ :: _) as digits) =>
        forallb endpoint_char l && (length digits <=? 5)%nat && forallb is_digit_char digits &&
        (1 <=? digits_value digits) && (digits_value digits <=? 65535)
    | _ => false
    end.

Definition kTunnelBase : Z := 10 * 16777216 + 64 * 65536.
Definition kTunnelMask : Z := 4290772992.

Definition read_octet (l : list ascii) : option (Z * list ascii) :=
  let '(digits, rest) := take_digits l in
  if bool_decide (digits = []) || (3 <? length digits)%nat || (255 <? digits_value digits)
  then None else Some (digits_value digits, rest).

Definition read_dot (l : list ascii) : option (list ascii) :=
  match l with c :: rest => if Ascii.eqb c "."%char then Some rest else None | [] => None end.

Definition drop_prefix_length (l : list ascii) : option (list ascii) :=
  match reverse l with
  | a :: b :: c :: rest =>
      if Ascii.eqb a "2"%char && Ascii.eqb b "3"%char && Ascii.eqb c "/"%char
      then Some (reverse rest) else None
  | _ => None
  end.

Definition tunnel_offset (cidr : string) : option Z :=
  addr ← drop_prefix_length (String.list_ascii_of_string cidr);
  '(a, l) ← read_octet addr; l ← read_dot l;
  '(b, l) ← read_octet l; l ← read_dot l;
  '(c, l) ← read_octet l; l ← read_dot l;
  '(d, l) ← read_octet l;
  let value := ((a * 256 + b) * 256 + c) * 256 + d in
  if negb (bool_decide (l = [])) || negb (Z.land value kTunnelMask =? kTunnelBase) then None
  else Some (value - kTunnelBase).

Definition octet_text (v shift : Z) : string :=
  pretty (Z.to_N (Z.land (Z.shiftr v shift) 255)).

Definition tunnel_address_text (offset : Z) : string :=
  let v := kTunnelBase + offset in
  octet_text v 24 +:+ "." +:+ octet_text v 16 +:+ "." +:+ octet_text v 8 +:+ "." +:+
  octet_text v 0 +:+ "/32".

(** A counting loop of [p] steps from [start] that returns at the first result. *)
Fixpoint first_step {A : Type} (p : positive) (start : Z) (f : Z → option A) : option A :=
  match p with
  | xH => f start
  | xO q =>
      match first_step q start f with
      | Some r => Some r
      | None => first_step q (start + Zpos q) f
      end
  | xI q =>
      match f start with
      | Some r => Some r
      | None =>
          match first_step q (start + 1) f with
          | Some r => Some r
          | None => first_step q (start + 1 + Zpos q) f
          end
      end
  end.

Definition kTunnelSpan : positive := 4128767.

Section planning.
Context `{TextCodec, HexCodec, Sodium}.

Definition tunnel_start (node_id : string) : Z :=
  let d := be_bytes 32 (digest (add_string (new_encoder kTreeTunnelDomain) node_id)) in
  le_value (take 8 d) mod Zpos kTunnelSpan.

(** Empty when the range is full. *)
Definition first_free_tunnel_address (used : gset Z) (node_id : string) : string :=
  let start := tunnel_start node_id in
  default ""%string
    (first_step kTunnelSpan 0
       (λ step, let offset := kTreeTunnelFirstOffset + (start + step) mod Zpos kTunnelSpan in
                if bool_decide (offset ∈ used) then None else Some (tunnel_address_text offset))).

Definition used_offsets (nodes : list TreeNode) : gset Z :=
  list_to_set (omap (λ n, tunnel_offset (tn_tunnel_ip n)) nodes).

Definition derive_tunnel_address (nodes : NodeMap) (node_id : string) : string :=
  first_free_tunnel_address (used_offsets (map_to_list nodes).*2) node_id.

(** ** Endpoint identifiers *)

Definition kCrockford : string := "0123456789abcdefghjkmnpqrstvwxyz".

Definition crockford_char (i : Z) : string :=
  match String.get (Z.to_nat (Z.land i 31)) kCrockford with
  | Some c => String c ""
  | None => ""
  end.

(** [while (bits >= 5)]: at most two rounds, since fewer than five bits are
    left over from the bytes before. *)
Fixpoint emit_groups (fuel : nat) (buffer bits : Z) : string * Z :=
  match fuel with
  | O => (""%string, bits)
  | S fuel' =>
      if bits <? 5 then (""%string, bits)
      else let '(out, bits_left) := emit_groups fuel' buffer (bits - 5) in
           (crockford_char (Z.shiftr buffer (bits - 5)) +:+ out, bits_left)
  end.

Fixpoint base32_from (buffer bits : Z) (data : list Z) : string :=
  match data with
  | [] => if 0 <? bits then crockford_char (Z.shiftl buffer (5 - bits)) else ""
  | byte :: rest =>
      let buffer := (buffer * 256 + byte) mod two32 in
      let '(out, bits) := emit_groups 3 buffer (bits + 8) in
      out +:+ base32_from buffer bits rest
  end.

Definition base32_crockford (data : list Z) : string := base32_from 0 0 data.

(** A hyphen before every fourth character but the first. *)
Fixpoint group_by_four (i : nat) (core : string) : string :=
  match core with
  | EmptyString => ""
  | String c rest =>
      (if (0 <? i)%nat && (Nat.modulo i 4 =? 0)%nat then "-" else "") +:+
      String c (group_by_four (S i) rest)
  end.

Definition derive_endpoint_identifier (node_id region cpu_id net_mac : string)
    (is_inference : bool) : string :=
  let sep := [31] in
  let input := string_bytes "ln-endpoint-id:v1" ++ string_bytes node_id ++ sep ++
               string_bytes region ++ sep ++ string_bytes cpu_id ++ sep ++ string_bytes net_mac in
  let core := base32_crockford (take 10 (be_bytes 32 (crypto_hash_sha256 input))) in
  (if is_inference then "infer" else "client") +:+ "-" +:+ group_by_four 0 core.

(** ** The overlay *)

Record Overlay := mkOverlay {
  base_ : NodeMap;
  changes_ : gmap string (option TreeNode);
}.

Definition new_overlay (base : NodeMap) : Overlay := mkOverlay base ∅.

Definition ov_find (id : string) (o : Overlay) : option TreeNode :=
  match changes_ o !! id with Some change => change | None => base_ o !! id end.

Definition ov_put_at (id : string) (change : option TreeNode) (o : Overlay) : Overlay :=
  mkOverlay (base_ o) (<[ id := change ]> (changes_ o)).

(** [edit(id)] followed by the change [f] of the returned copy. *)
Definition ov_edit (id : string) (f : TreeNode → TreeNode) (o : Overlay) : Overlay :=
  match ov_find id o with
  | Some n => ov_put_at id (Some (f n)) o
  | None => o
  end.

Definition ov_put (node : TreeNode) (o : Overlay) : Overlay := ov_put_at (tn_id node) (Some node) o.

Definition ov_erase (id : string) (o : Overlay) : Overlay := ov_put_at id None o.

(** The nodes [for_each] visits, with the ids they are stored under. *)
Definition ov_entries (o : Overlay) : list (string * TreeNode) :=
  omap (λ kv, match kv.2 with Some n => Some (kv.1, n) | None => None end)
    (map_to_list (changes_ o)) ++
  filter (λ kv, changes_ o !! kv.1 = None) (map_to_list (base_ o)).

Definition ov_nodes (o : Overlay) : list TreeNode := (ov_entries o).*2.

Definition mesh_taken (mesh own_id : string) (o : Overlay) : bool :=
  if is_empty mesh then false
  else existsb (λ n, negb (String.eqb (tn_id n) own_id) && String.eqb (tn_mesh_pubkey n) mesh)
         (ov_nodes o).

Definition identifier_taken (identifier own_id : string) (o : Overlay) : bool :=
  if is_empty identifier then false
  else existsb (λ n, negb (String.eqb (tn_id n) own_id) &&
                     String.eqb (tn_endpoint_identifier n) identifier) (ov_nodes o).

(** The colliding device with the lowest id. *)
Definition pick_conflict (parent_id label own_id : string) (conflict : option TreeNode)
    (n : TreeNode) : option TreeNode :=
  if device_label_collides n parent_id label own_id &&
     match conflict with Some c => String.ltb (tn_id n) (tn_id c) | None => true end
  then Some n else conflict.

Definition ov_device_name_refusal (parent_id hostname own_id : string) (o : Overlay)
    : option string :=
  device_name_refusal hostname
    (foldl (pick_conflict parent_id (device_label hostname) own_id) None (ov_nodes o)).

Definition free_tunnel_address (node_id : string) (o : Overlay) : string :=
  first_free_tunnel_address (used_offsets (ov_nodes o)) node_id.

Definition child_ids (parent_id : string) (o : Overlay) : list string :=
  sort_strings (tn_id <$> filter (λ n, tn_parent_id n = parent_id) (ov_nodes o)).

Record TreeOpEffect := mkEffect { writes : list TreeNode; removals : list string }.

Definition written_node (base : NodeMap) (id : string) (node : TreeNode) : TreeNode :=
  node <| tn_id := id |>
       <| tn_version := match base !! id with Some b => tn_version b | None => 0 end +64 1 |>.

Definition change_le (a b : string * option TreeNode) : Prop := string_le a.1 b.1.
#[global] Instance change_le_dec : RelDecision change_le.
Proof. intros a b. unfold change_le. apply _. Defined.

Definition ov_effect (o : Overlay) : TreeOpEffect :=
  let ordered := merge_sort change_le (map_to_list (changes_ o)) in
  mkEffect
    (omap (λ kv, match kv.2 with
                 | Some node => Some (written_node (base_ o) kv.1 node)
                 | None => None
                 end) ordered)
    (omap (λ kv, match kv.2, base_ o !! kv.1 with
                 | None, Some _ => Some kv.1
                 | _, _ => None
                 end) ordered).

Definition apply_effect (effect : TreeOpEffect) (nodes : NodeMap) : NodeMap :=
  foldl (λ m id, delete id m) (foldl (λ m n, <[ tn_id n := n ]> m) nodes (writes effect))
    (removals effect).

(** ** Plans *)

Inductive TreeOpRefusal :=
  | Malformed | WrongNetwork | Oversize | BadOpId | UntrustedSubmitter | BadSignature
  | BadStatement | Stale | Replayed | NotFound | AlreadyExists | StaleBaseVersion | Forbidden
  | Invalid | ContentRefused | Conflict | StorageError | Unavailable.

#[global] Instance op_refusal_eq_dec : EqDecision TreeOpRefusal.
Proof. solve_decision. Defined.

(** [None] is [TreeOpRefusal::None]: accepted. *)
Definition TreeOpVerdict : Type := option (TreeOpRefusal * string).

Definition refuse (refusal : TreeOpRefusal) (reason : string) : (TreeOpRefusal * string) + Overlay :=
  inl (refusal, reason).

Definition make_root_node (root_key : string) : TreeNode :=
  new_node <| tn_id := "root"%string |> <| tn_type := Root |> <| tn_hostname := "root"%string |>
    <| tn_mgmt_pubkey := root_key |>
    <| tn_assignments := [mkAssignment root_key
         ["read"; "write"; "add_child"; "delete_node"; "edit_node"; "admin"]%string] |>.

Definition has_exact_key (key : string) (assignments : list Assignment) : bool :=
  existsb (λ a, String.eqb (management_pubkey a) key) assignments.

Definition grant_once (grant : Assignment) (node : TreeNode) : TreeNode :=
  if has_exact_key (management_pubkey grant) (tn_assignments node) then node
  else node <| tn_assignments := tn_assignments node ++ [grant] |>.

(** The first placement of a device: its customer group, created when the
    device brings none. *)
Definition new_customer (op : TreeOp) : TreeNode :=
  let js := ob_join (op_body op) in
  let norm := js_device_pubkey js in
  new_node <| tn_id := ("customer-" +:+ op_target op)%string |> <| tn_parent_id := "root"%string |>
    <| tn_type := Customer |>
    <| tn_hostname := if js_hostname_present js then js_hostname js
                      else ("group-" +:+ String.substring 0 8 (op_target op))%string |>
    <| tn_mgmt_pubkey := norm |>
    <| tn_assignments := [mkAssignment norm
         ["read"; "write"; "add_child"; "delete_node"; "edit_node"; "admin"]%string] |>.

Definition place_join (op : TreeOp) (existing : option TreeNode) (o : Overlay)
    : (TreeOpRefusal * string) + (string * Overlay) :=
  let js := ob_join (op_body op) in
  match existing with
  | Some node => inr (tn_parent_id node, o)
  | None =>
      if negb (is_empty (js_link_group_id js)) then
        match ov_find (js_link_group_id js) o with
        | Some _ => inr (js_link_group_id js, o)
        | None => inl (Conflict, "link token group no longer exists"%string)
        end
      else
        let customer_id := ("customer-" +:+ op_target op)%string in
        match ov_find customer_id o with
        | Some _ => inr (customer_id, o)
        | None => inr (customer_id, ov_put (new_customer op) o)
        end
  end.

(** The entries of the key that lack [admin]. *)
Definition lacks_admin (key : string) (a : Assignment) : bool :=
  same_principal (management_pubkey a) key && negb (mentions "admin" (permissions a)).

Definition add_admin (key : string) (a : Assignment) : Assignment :=
  if lacks_admin key a then mkAssignment (management_pubkey a) (permissions a ++ ["admin"%string])
  else a.

Definition upgrade_owner (customer_id norm : string) (o : Overlay) : Overlay :=
  match ov_find customer_id o with
  | Some group =>
      if is_type (tn_type group) Customer && same_principal (tn_mgmt_pubkey group) norm &&
         existsb (lacks_admin norm) (tn_assignments group)
      then ov_edit customer_id
             (λ n, n <| tn_assignments := add_admin norm <$> tn_assignments n |>) o
      else o
  | None => o
  end.

Definition new_endpoint (op : TreeOp) (customer_id tunnel_ip : string) : TreeNode :=
  let js := ob_join (op_body op) in
  let norm := js_device_pubkey js in
  let linked := negb (is_empty (js_link_group_id js)) in
  new_node <| tn_id := op_target op |> <| tn_parent_id := customer_id |> <| tn_type := Endpoint |>
    <| tn_hostname := if js_hostname_present js then js_hostname js
                      else ("endpoint-" +:+ String.substring 0 8 (op_target op))%string |>
    <| tn_mgmt_pubkey := norm |>
    <| tn_assignments :=
         if linked
         then [mkAssignment norm ["read"; "write"; "edit_node"]%string;
               mkAssignment (js_link_owner_pubkey js)
                 ["read"; "write"; "add_child"; "delete_node"; "edit_node"]%string]
         else [mkAssignment norm
                 ["read"; "write"; "add_child"; "delete_node"; "edit_node"]%string] |>
    <| tn_mesh_pubkey := if js_mesh_pubkey_present js then js_mesh_pubkey js else ""%string |>
    <| tn_endpoint_identifier := derive_endpoint_identifier (op_target op) (js_region js)
                                   (js_cpu_id js) (js_net_mac js) (js_is_inference js) |>
    <| tn_cpu_id := js_cpu_id js |> <| tn_net_mac := js_net_mac js |>
    <| tn_region := js_region js |> <| tn_is_inference := js_is_inference js |>
    <| tn_tunnel_ip := tunnel_ip |>.

Definition peer_grant (key : string) : Assignment :=
  mkAssignment key ["read"; "connect_private"]%string.

(** The pairwise grants with one sibling device. *)
Definition grant_sibling (op : TreeOp) (o : Overlay) (sibling_id : string) : Overlay :=
  let node_id := op_target op in
  let norm := js_device_pubkey (ob_join (op_body op)) in
  if String.eqb sibling_id node_id then o
  else
    match ov_find sibling_id o with
    | None => o
    | Some sibling =>
        if negb (is_type (tn_type sibling) Endpoint) then o
        else
          let mgmt := tn_mgmt_pubkey sibling in
          if ob_link_extension (op_body op) then
            let o := if negb (is_empty mgmt)
                     then ov_edit node_id (λ n, grant_link_peer_access n mgmt) o else o in
            if link_peer_access_missing sibling norm
            then ov_edit sibling_id (λ n, grant_link_peer_access n norm) o else o
          else
            let o := if negb (is_empty mgmt)
                     then ov_edit node_id (grant_once (peer_grant mgmt)) o else o in
            if negb (has_exact_key norm (tn_assignments sibling))
            then ov_edit sibling_id (grant_once (peer_grant norm)) o else o
    end.

Definition grant_group_read (customer_id norm : string) (o : Overlay) : Overlay :=
  match ov_find customer_id o with
  | Some group =>
      if negb (has_exact_key norm (tn_assignments group))
      then ov_edit customer_id (grant_once (mkAssignment norm ["read"%string])) o else o
  | None => o
  end.

Definition join_new_device (op : TreeOp) (customer_id : string) (o : Overlay)
    : (TreeOpRefusal * string) + Overlay :=
  let js := ob_join (op_body op) in
  let node_id := op_target op in
  let tunnel_ip := free_tunnel_address node_id o in
  let endpoint := new_endpoint op customer_id tunnel_ip in
  if is_empty tunnel_ip then refuse Conflict "tunnel address pool exhausted"
  else if negb (bool_decide (is_Some (ov_find customer_id o))) ||
          identifier_taken (tn_endpoint_identifier endpoint) node_id o ||
          mesh_taken (tn_mesh_pubkey endpoint) node_id o
  then refuse Conflict "endpoint identifier conflict"
  else
    match ov_device_name_refusal customer_id (tn_hostname endpoint) node_id o with
    | Some r => refuse Conflict r
    | None =>
        let o := ov_put endpoint o in
        if negb (is_empty (js_link_group_id js))
        then inr (grant_group_read customer_id (js_device_pubkey js)
                    (foldl (grant_sibling op) o (child_ids customer_id o)))
        else inr o
    end.

Definition join_returning_device (op : TreeOp) (existing : TreeNode) (o : Overlay)
    : (TreeOpRefusal * string) + Overlay :=
  let js := ob_join (op_body op) in
  let node_id := op_target op in
  let new_ip := if is_empty (tn_tunnel_ip existing) then free_tunnel_address node_id o
                else tn_tunnel_ip existing in
  if is_empty new_ip then refuse Conflict "tunnel address pool exhausted"
  else
    let wanted := if js_mesh_pubkey_present js then js_mesh_pubkey js
                  else tn_mesh_pubkey existing in
    let new_mesh := if mesh_taken wanted node_id o then tn_mesh_pubkey existing else wanted in
    if negb (String.eqb (tn_tunnel_ip existing) new_ip) ||
       negb (String.eqb (tn_mesh_pubkey existing) new_mesh)
    then inr (ov_edit node_id (λ n, n <| tn_tunnel_ip := new_ip |> <| tn_mesh_pubkey := new_mesh |>) o)
    else inr o.

Definition plan_join (op : TreeOp) (o : Overlay) : (TreeOpRefusal * string) + Overlay :=
  match ov_find "root" o with
  | None => refuse NotFound "application root not established"
  | Some _ =>
      let existing := ov_find (op_target op) o in
      match place_join op existing o with
      | inl r => inl r
      | inr (customer_id, o) =>
          let o := upgrade_owner customer_id (js_device_pubkey (ob_join (op_body op))) o in
          match existing with
          | None => join_new_device op customer_id o
          | Some node => join_returning_device op node o
          end
      end
  end.

(** Every node of [scope] but [skip] loses the entries [drop] selects. *)
Definition sweep_node (drop : Assignment → bool) (keep : TreeNode → bool) (o : Overlay)
    (id : string) : Overlay :=
  match ov_find id o with
  | None => o
  | Some n =>
      if keep n || negb (existsb drop (tn_assignments n)) then o
      else ov_edit id (λ n, n <| tn_assignments :=
                              filter (λ a, drop a = false) (tn_assignments n) |>) o
  end.

Definition sweep_scope (parent_id : string) (o : Overlay) : list string :=
  sort_strings (child_ids parent_id o ++ if is_empty parent_id then [] else [parent_id]).

Definition plan_move (op : TreeOp) (o : Overlay) : (TreeOpRefusal * string) + Overlay :=
  let id := op_target op in
  let new_parent := ob_new_parent_id (op_body op) in
  match ov_find id o with
  | None => refuse NotFound "node not found"
  | Some moving =>
      match ov_find new_parent o with
      | None => refuse NotFound "new parent not found"
      | Some _ =>
          let old_parent := tn_parent_id moving in
          let key_canon := canonical_principal (tn_mgmt_pubkey moving) in
          let o := ov_edit id (λ n, n <| tn_parent_id := new_parent |>
                                      <| tn_signature := ""%string |>) o in
          if negb (is_type (tn_type moving) Endpoint) || is_empty key_canon then inr o
          else if existsb (λ n, negb (String.eqb (tn_id n) id) &&
                                String.eqb (canonical_principal (tn_mgmt_pubkey n)) key_canon)
                    (ov_nodes o) then inr o
          else
            let names_key a := String.eqb (canonical_principal (management_pubkey a)) key_canon in
            inr (foldl (sweep_node names_key (λ _, false)) o
                   (filter (λ sid, sid ≠ id) (sweep_scope old_parent o)))
      end
  end.

Definition plan_delete_node (op : TreeOp) (o : Overlay) : (TreeOpRefusal * string) + Overlay :=
  let id := op_target op in
  match ov_find id o with
  | None => refuse NotFound "node not found"
  | Some doomed =>
      let deleted_mgmt := tn_mgmt_pubkey doomed in
      let o := ov_erase id o in
      if is_empty deleted_mgmt then inr o
      else
        inr (foldl (sweep_node (λ a, String.eqb (management_pubkey a) deleted_mgmt)
                      (λ n, String.eqb (tn_mgmt_pubkey n) deleted_mgmt)) o
               (sweep_scope (tn_parent_id doomed) o))
  end.

Definition plan_delete_account (op : TreeOp) (nodes : NodeMap) (o : Overlay) : Overlay :=
  let scope := account_scope nodes (op_principal op) in
  let o := foldl (λ o id, ov_erase id o) o (removed scope) in
  if bool_decide (swept_keys scope = []) then o
  else
    foldl (sweep_node (λ a, mentions (canonical_principal (management_pubkey a)) (swept_keys scope))
             (λ n, is_type (tn_type n) Root || is_empty (tn_parent_id n))) o (sorted_ids nodes).

Definition plan_create (op : TreeOp) (o : Overlay) : (TreeOpRefusal * string) + Overlay :=
  let id := op_target op in
  let node := op_node op <| tn_id := id |> in
  match ov_find id o with
  | Some _ => refuse AlreadyExists "node already exists"
  | None =>
      if is_empty (tn_parent_id node) ||
         negb (bool_decide (is_Some (ov_find (tn_parent_id node) o)))
      then refuse NotFound "parent not found"
      else if identifier_taken (tn_endpoint_identifier node) id o
      then refuse Conflict "endpoint identifier already bound to another node"
      else if mesh_taken (tn_mesh_pubkey node) id o
      then refuse Conflict "mesh public key already bound to another node"
      else
        match (if is_type (tn_type node) Endpoint
               then ov_device_name_refusal (tn_parent_id node) (tn_hostname node) id o
               else None) with
        | Some r => refuse Conflict r
        | None => inr (ov_put node o)
        end
  end.

Definition plan_update (op : TreeOp) (o : Overlay) : (TreeOpRefusal * string) + Overlay :=
  let id := op_target op in
  let node := op_node op <| tn_id := id |> in
  match ov_find id o with
  | None => refuse NotFound "node not found"
  | Some before =>
      if mesh_taken (tn_mesh_pubkey node) id o
      then refuse Conflict "mesh public key already bound to another node"
      else
        match (if is_type (tn_type before) Endpoint &&
                  negb (String.eqb (device_label (tn_hostname node))
                          (device_label (tn_hostname before)))
               then ov_device_name_refusal (tn_parent_id before) (tn_hostname node) id o
               else None) with
        | Some r => refuse Conflict r
        | None => inr (ov_put node o)
        end
  end.

(** An edit of the target, which has to exist. *)
Definition plan_edit (op : TreeOp) (f : TreeNode → TreeNode) (o : Overlay)
    : (TreeOpRefusal * string) + Overlay :=
  match ov_find (op_target op) o with
  | None => refuse NotFound "node not found"
  | Some _ => inr (ov_edit (op_target op) f o)
  end.

Definition set_assignment (principal : string) (perms : list string) (n : TreeNode) : TreeNode :=
  n <| tn_assignments := replace_assignment (tn_assignments n) principal perms |>.

Definition plan_overlay (op : TreeOp) (nodes : NodeMap) : (TreeOpRefusal * string) + Overlay :=
  let o := new_overlay nodes in
  let body := op_body op in
  match op_kind op with
  | CreateNode => plan_create op o
  | UpdateFields => plan_update op o
  | SetAssignment =>
      plan_edit op (set_assignment (ob_assignment_principal body) (ob_assignment_permissions body)) o
  | DeleteNode => plan_delete_node op o
  | Join => plan_join op o
  | EstablishRoot =>
      match ov_find (op_target op) o with
      | Some _ => refuse AlreadyExists "node already exists"
      | None => inr (ov_put (make_root_node (op_principal op)) o)
      end
  | SetEndpoint => plan_edit op (λ n, n <| tn_listen_endpoint := ob_listen_endpoint body |>) o
  | AcceptInvite => plan_edit op (set_assignment (op_principal op) (ob_invite_permissions body)) o
  | MoveNode => plan_move op o
  | DeleteAccount => inr (plan_delete_account op nodes o)
  end.

Definition plan_op (op : TreeOp) (nodes : NodeMap) : (TreeOpRefusal * string) + TreeOpEffect :=
  match plan_overlay op nodes with
  | inl r => inl r
  | inr o => inr (ov_effect o)
  end.
End planning.
