(* ===== verification/TreeValidation.v ===== *)
(** * Tree operations: validation, and blocks of operations

    Models the identity, signing and validation parts of [Tree/TreeOps.cpp],
    the batch size of [Tree/TreeBatch.cpp], and [Tree/TreeChain.cpp]: the tree
    state a block of operations advances, the check a replica makes before it
    votes, the application of a certified block, and the leader's selection.
    [validate_op] is the source's sequence of checks; each numbered step of it
    is a definition, and the first refusal decides. *)

From S2P Require Import Prelude SecurityPolicy CanonicalEncoding Json EligibilityLedger.
From S2P Require Import EligibilityStore TreeTypes LinkToken TreeRules TreeOps.

(** ** Committed ids *)

(** Id (lowercase hex) to the signed time of the op that committed it. *)
Notation CommittedOpIds := (gmap string Z).

Definition committed_contains (committed : CommittedOpIds) (id : string) : bool :=
  bool_decide (is_Some (committed !! id)).

Definition prune_signed_before (cutoff : Z) (committed : CommittedOpIds) : CommittedOpIds :=
  filter (λ kv, cutoff <= kv.2) committed.

Definition committed_le (a b : string * Z) : Prop :=
  String.ltb a.1 b.1 = true ∨ (a.1 = b.1 ∧ a.2 <= b.2).
#[export] Instance committed_le_dec : RelDecision committed_le.
Proof. intros a b. unfold committed_le. apply _. Defined.

Definition committed_sorted (committed : CommittedOpIds) : list (string * Z) :=
  merge_sort committed_le (map_to_list committed).

Definition kCommittedIdMarginSec : Z := 600.

Definition committed_id_cutoff (block_time_sec : Z) : Z :=
  let window := kTreeOpMaxAgeSec + kCommittedIdMarginSec in
  if window <? block_time_sec then block_time_sec - window else 0.

Record TreeOpPolicy := mkPolicy {
  po_network_id : NetworkId;
  po_trusted_submitters : list string;
  po_root_key : string;
}.

(** The first refusal of two checks decides. *)
Definition and_then (first second : TreeOpVerdict) : TreeOpVerdict :=
  match first with Some r => Some r | None => second end.
Notation "a ⊳ b" := (and_then a b) (at level 60, right associativity).

Definition refuse_when (bad : bool) (refusal : TreeOpRefusal) (reason : string) : TreeOpVerdict :=
  if bad then Some (refusal, reason) else None.

Section validation.
Context `{TextCodec, HexCodec, Sodium, SodiumMessages, FloatText}.

(** ** Ids and signatures *)

Definition parse_ed25519_key (key : string) : option Ed25519PublicKey :=
  if negb (starts_with kEd25519Prefix key) then None
  else
    bytes ← from_base64 (string_drop 8 key);
    if (length bytes =? 32)%nat then Some (be_value bytes) else None.

Definition parse_signature (sig_b64 : string) : option Ed25519Signature :=
  bytes ← from_base64 sig_b64;
  if (length bytes =? 64)%nat then Some (be_value bytes) else None.

Definition digest_hex (d : Digest) : string := to_hex (be_bytes 32 d).

Definition compute_op_id (op : TreeOp) : Digest := digest (op_encoder op).

Definition op_id_hex (op : TreeOp) : string := digest_hex (op_id op).

Definition join_statement_encoder (js : JoinStatement) : CanonicalEncoder :=
  let enc := add_string (new_encoder kTreeOpStatementDomain) "join" in
  let enc := match parse_ed25519_key (js_device_pubkey js) with
             | Some key => add_digest enc key
             | None => add_string enc (js_device_pubkey js)
             end in
  match from_base64 (js_challenge js) with
  | Some challenge => add_bytes enc challenge
  | None => add_string enc (js_challenge js)
  end.

Definition statement_id_hex (op : TreeOp) : option string :=
  match ob_source (op_body op) with
  | Session => None
  | Delta =>
      let enc := add_string (new_encoder kTreeOpStatementDomain) "delta" in
      Some (digest_hex (digest (add_bytes enc (canonical_delta_json (ob_delta (op_body op))))))
  | Device => Some (digest_hex (digest (join_statement_encoder (ob_join (op_body op)))))
  end.

Definition redemption_id_hex (op : TreeOp) : option string :=
  grant ← ob_invite_grant (op_body op);
  Some (digest_hex (digest (add_string (new_encoder kTreeOpRedemptionDomain)
                              (le_token_hash grant)))).

Definition insert_opt (id : option string) (t : Z) (committed : CommittedOpIds) : CommittedOpIds :=
  match id with Some id => <[ id := t ]> committed | None => committed end.

Definition record_committed (op : TreeOp) (committed : CommittedOpIds) : CommittedOpIds :=
  let committed := <[ op_id_hex op := op_signed_at op ]> committed in
  let committed := insert_opt (statement_id_hex op) (op_signed_at op) committed in
  insert_opt (redemption_id_hex op)
    (match ob_invite_grant (op_body op) with Some grant => le_expires_at grant | None => 0 end)
    committed.

Definition signing_message (id : Digest) : list Z :=
  add_digest (new_encoder kTreeOpSignatureDomain) id.

Definition sign_tree_op (key : Ed25519Keypair) (op : TreeOp) : TreeOp :=
  let op := op <| op_author := kEd25519Prefix +:+ to_base64 (be_bytes 32 (kp_public_key key)) |> in
  let op := op <| op_id := compute_op_id op |> in
  op <| op_signature :=
       to_base64 (be_bytes 64 (crypto_sign_ed25519_detached (kp_private_key key)
                                 (signing_message (op_id op)))) |>.

Definition derive_join_node_id (device_pubkey : string) : string :=
  match parse_ed25519_key device_pubkey with
  | None => ""
  | Some key => String.substring 0 32 (digest_hex (crypto_hash_sha256 (be_bytes 32 key)))
  end.

Definition is_own_device_removal (op : TreeOp) : bool :=
  bool_decide (op_kind op = DeleteNode) && negb (bool_decide (ob_source (op_body op) = Delta)) &&
  negb (is_empty (op_target op)) && String.eqb (op_target op) (derive_join_node_id (op_principal op)).

Definition delta_signature_valid (delta : TreeDelta) : bool :=
  match parse_ed25519_key (td_signer_pubkey delta), parse_signature (td_signature delta) with
  | Some pubkey, Some sig =>
      crypto_sign_ed25519_verify_detached sig (canonical_delta_json delta) pubkey
  | _, _ => false
  end.

Definition trusted (policy : TreeOpPolicy) (canon : string) : bool :=
  existsb (λ t, String.eqb (canonical_principal t) canon) (po_trusted_submitters policy).

(** ** The steps of [validate_op] *)

Definition double_quote : string := String (Ascii.ascii_of_nat 34) "".

Definition format_verdict (op : TreeOp) : TreeOpVerdict :=
  let body := op_body op in
  refuse_when (negb (op_version op =? kTreeOpVersion)) Malformed "unsupported op version" ⊳
  refuse_when (negb (kind_known (op_kind op))) Malformed "unknown op kind" ⊳
  refuse_when (negb (source_allowed (op_kind op) (ob_source body)))
    Malformed "op source does not fit the op kind" ⊳
  refuse_when (is_empty (op_target op)) Malformed "op target is empty" ⊳
  refuse_when (is_empty (op_principal op)) Malformed "op principal is empty" ⊳
  refuse_when (ob_link_extension body && negb (link_extension_allowed op))
    Malformed "only a join or an invite acceptance has a link extension" ⊳
  refuse_when (bool_decide (is_Some (ob_invite_grant body)) && negb (ob_link_extension body))
    Malformed "an invite grant needs the link extension".

Definition binding_verdict (op : TreeOp) (policy : TreeOpPolicy) : TreeOpVerdict :=
  refuse_when (negb (op_network_id op =? po_network_id policy))
    WrongNetwork "op is bound to another network" ⊳
  refuse_when (kMaxTreeOpEncodedBytes <? Z.of_nat (length (encode_tree_op op)))
    Oversize "op too large" ⊳
  refuse_when (negb (compute_op_id op =? op_id op)) BadOpId "op id does not match".

Definition author_signature_valid (op : TreeOp) : bool :=
  match parse_ed25519_key (op_author op), parse_signature (op_signature op) with
  | Some author_key, Some sig =>
      crypto_sign_ed25519_verify_detached sig (signing_message (op_id op)) author_key
  | _, _ => false
  end.

Definition author_verdict (op : TreeOp) (policy : TreeOpPolicy) : TreeOpVerdict :=
  let author_canon := canonical_principal (op_author op) in
  refuse_when (is_empty author_canon || negb (trusted policy author_canon))
    UntrustedSubmitter "op author is not a trusted submitter" ⊳
  refuse_when (negb (author_signature_valid op)) BadSignature "op signature does not verify".

Definition freshness_verdict (op : TreeOp) (block_time_sec : Z) : TreeOpVerdict :=
  refuse_when (op_signed_at op =? 0) Stale "op has no signed time" ⊳
  refuse_when ((op_signed_at op +64 kTreeOpMaxAgeSec) <? block_time_sec)
    Stale "op is older than the freshness window" ⊳
  refuse_when ((block_time_sec +64 kTreeOpMaxFutureSec) <? op_signed_at op)
    Stale "op is newer than the freshness window".

Definition contains_opt (committed : CommittedOpIds) (id : option string) : bool :=
  match id with Some id => committed_contains committed id | None => false end.

Definition replay_verdict (op : TreeOp) (committed : CommittedOpIds) : TreeOpVerdict :=
  refuse_when (committed_contains committed (op_id_hex op)) Replayed "op already committed" ⊳
  refuse_when (contains_opt committed (statement_id_hex op))
    Replayed "wrapped statement already committed" ⊳
  refuse_when (contains_opt committed (redemption_id_hex op)) Replayed "invite already redeemed".

Definition delta_kind_matches (op : TreeOp) (d : TreeDelta) : bool :=
  match op_kind op with
  | CreateNode => String.eqb (td_operation d) "create_node"
  | DeleteNode => String.eqb (td_operation d) "delete_node"
  | UpdateFields => required_permission_for (td_operation d) =? PermEditNode
  | _ => false
  end.

Definition delta_verdict (op : TreeOp) : TreeOpVerdict :=
  let d := ob_delta (op_body op) in
  let expected_target := if bool_decide (op_kind op = CreateNode) then tn_id (td_node_data d)
                         else td_target_node_id d in
  refuse_when (negb (delta_kind_matches op d))
    BadStatement "delta operation does not fit the op" ⊳
  refuse_when (negb (String.eqb (op_target op) expected_target))
    BadStatement "op target differs from the delta" ⊳
  refuse_when (negb (String.eqb (op_principal op) (td_signer_pubkey d)))
    BadStatement "op principal differs from the delta signer" ⊳
  refuse_when (negb (op_signed_at op =? td_timestamp d))
    BadStatement "op signed time differs from the delta" ⊳
  refuse_when (negb (delta_signature_valid d)) BadStatement "delta signature does not verify".

Definition challenge_valid (js : JoinStatement) : bool :=
  match parse_ed25519_key (js_device_pubkey js), from_base64 (js_challenge js),
        parse_signature (js_challenge_signature js) with
  | Some key, Some challenge, Some sig =>
      negb (bool_decide (challenge = [])) && crypto_sign_ed25519_verify_detached sig challenge key
  | _, _, _ => false
  end.

Definition device_verdict (op : TreeOp) : TreeOpVerdict :=
  let js := ob_join (op_body op) in
  refuse_when (negb (String.eqb (op_principal op) (js_device_pubkey js)))
    BadStatement "op principal differs from the device key" ⊳
  refuse_when (negb (challenge_valid js))
    BadStatement "join challenge signature does not verify" ⊳
  refuse_when (negb (String.eqb (op_target op) (derive_join_node_id (js_device_pubkey js))))
    BadStatement "join target is not the device's node id".

Definition session_verdict (op : TreeOp) : TreeOpVerdict :=
  let body := op_body op in
  match op_kind op with
  | CreateNode | UpdateFields =>
      refuse_when (negb (String.eqb (tn_id (ob_node body)) (op_target op)))
        Malformed "node record id differs from the op target"
  | EstablishRoot =>
      refuse_when (negb (String.eqb (op_target op) "root"))
        Malformed ("the root op must target " +:+ double_quote +:+ "root" +:+ double_quote)
  | SetEndpoint =>
      refuse_when (negb (endpoint_text_valid (ob_listen_endpoint body)))
        Malformed "listen endpoint is not host:port"
  | DeleteAccount =>
      refuse_when (negb (String.eqb (op_target op) (derive_join_node_id (op_principal op))))
        Malformed "account id differs from the principal's account"
  | _ => None
  end.

Definition statement_verdict (op : TreeOp) : TreeOpVerdict :=
  match ob_source (op_body op) with
  | Delta => delta_verdict op
  | Device => device_verdict op
  | Session => session_verdict op
  end.

Definition grant_bound (op : TreeOp) (grant : LinkTokenEvent) : TreeOpVerdict :=
  let body := op_body op in
  if bool_decide (op_kind op = Join)
  then refuse_when (negb (String.eqb (js_link_group_id (ob_join body)) (le_group_node_id grant)) ||
                    negb (String.eqb (js_link_owner_pubkey (ob_join body)) (le_owner_pubkey grant)))
         BadStatement "join differs from the invite grant"
  else refuse_when (negb (String.eqb (op_target op) (le_group_node_id grant)) ||
                    negb (String.eqb (ob_inviter body) (le_owner_pubkey grant)) ||
                    negb (bool_decide (ob_invite_permissions body = le_permissions grant)))
         BadStatement "invite acceptance differs from the invite grant".

Definition invite_grant_verdict (op : TreeOp) (grant : LinkTokenEvent) (policy : TreeOpPolicy)
    (block_time_sec : Z) : TreeOpVerdict :=
  let origin := canonical_principal (kEd25519Prefix +:+ le_origin_pubkey grant) in
  refuse_when (negb (le_kind grant =? LinkMint) ||
               bool_decide (is_Some (link_token_event_shape_error grant)))
    BadStatement "invite grant is malformed" ⊳
  refuse_when (is_empty origin || negb (trusted policy origin))
    BadStatement "invite grant origin is not a trusted submitter" ⊳
  refuse_when (negb (link_token_event_signature_valid grant))
    BadStatement "invite grant signature does not verify" ⊳
  refuse_when (negb (String.eqb (le_network_id grant) (digest_hex (op_network_id op))))
    WrongNetwork "invite grant is bound to another network" ⊳
  refuse_when (le_expires_at grant <=? block_time_sec) Stale "invite expired" ⊳
  refuse_when ((block_time_sec +64 kTreeOpMaxFutureSec) <? le_created_at grant)
    Stale "invite issued after the block time" ⊳
  grant_bound op grant.

Definition grant_verdict (op : TreeOp) (policy : TreeOpPolicy) (block_time_sec : Z)
    : TreeOpVerdict :=
  match ob_invite_grant (op_body op) with
  | Some grant => invite_grant_verdict op grant policy block_time_sec
  | None => None
  end.

Definition version_verdict (op : TreeOp) (nodes : NodeMap) : TreeOpVerdict :=
  let target := nodes !! op_target op in
  match op_kind op with
  | CreateNode | EstablishRoot =>
      refuse_when (bool_decide (is_Some target)) AlreadyExists "node already exists" ⊳
      refuse_when (negb (op_base_version op =? 0))
        StaleBaseVersion "create must use base version 0"
  | DeleteAccount =>
      refuse_when (negb (op_base_version op =? 0)) Malformed "an account op uses base version 0"
  | Join =>
      refuse_when (negb (op_base_version op =?
                         match target with Some n => tn_version n | None => 0 end))
        StaleBaseVersion "the node changed; reload and retry"
  | _ =>
      match target with
      | None => Some (NotFound, "node not found"%string)
      | Some n => refuse_when (negb (op_base_version op =? tn_version n))
                    StaleBaseVersion "the node changed; reload and retry"
      end
  end.

(** The delta whose content rules decide: the wrapped one, or one that carries
    the session op's record. *)
Definition content_delta (op : TreeOp) (operation : string) (data : TreeNode) : TreeDelta :=
  match ob_source (op_body op) with
  | Delta => ob_delta (op_body op)
  | _ => mkDelta operation (op_target op) data (op_principal op) "" 0
  end.

Definition content_verdict (op : TreeOp) (nodes : NodeMap) (operation : string) (data : TreeNode)
    : TreeOpVerdict :=
  match delta_content_refusal nodes (content_delta op operation data) with
  | Some r => Some (ContentRefused, r)
  | None => None
  end.

Definition ruling_verdict (ruling : option AssignmentRuling) : TreeOpVerdict :=
  match ruling with
  | None => None
  | Some r =>
      Some (match ar_refusal r with
            | RefNotFound => NotFound
            | RefForbidden => Forbidden
            | RefInvalid => Invalid
            | RefConflict => Conflict
            end, ar_reason r)
  end.

Definition may_delete (op : TreeOp) (nodes : NodeMap) (target : TreeNode) : bool :=
  let session_op := negb (bool_decide (ob_source (op_body op) = Delta)) in
  (session_op && administers nodes (op_target op) (op_principal op)) ||
  (session_op && removes_own_device nodes (op_target op) (op_principal op)
                   (derive_join_node_id (op_principal op))) ||
  signer_has_permission target (op_principal op) PermDeleteNode.

(** A target the version step found; [None] refuses, which that step rules out. *)
Definition on_target (op : TreeOp) (nodes : NodeMap) (f : TreeNode → TreeOpVerdict)
    : TreeOpVerdict :=
  match nodes !! op_target op with
  | Some target => f target
  | None => Some (NotFound, "node not found"%string)
  end.

Definition rule_verdict (op : TreeOp) (nodes : NodeMap) (policy : TreeOpPolicy) : TreeOpVerdict :=
  let body := op_body op in
  match op_kind op with
  | CreateNode =>
      match nodes !! tn_parent_id (op_node op) with
      | None => Some (NotFound, "parent not found"%string)
      | Some parent =>
          refuse_when (negb (signer_has_permission parent (op_principal op) PermAddChild))
            Forbidden "no add_child permission on parent" ⊳
          content_verdict op nodes "create_node" (op_node op)
      end
  | UpdateFields =>
      on_target op nodes (λ target,
        refuse_when (negb (signer_has_permission target (op_principal op) PermEditNode))
          Forbidden "no edit_node permission" ⊳
        content_verdict op nodes "update_node" (op_node op))
  | DeleteNode =>
      on_target op nodes (λ target,
        refuse_when (negb (may_delete op nodes target)) Forbidden "no delete_node permission" ⊳
        content_verdict op nodes "delete_node" new_node)
  | SetAssignment =>
      ruling_verdict (assignment_change_refusal nodes (op_target op) (op_principal op)
                        (ob_assignment_principal body) (ob_assignment_permissions body))
  | AcceptInvite =>
      ruling_verdict (invite_acceptance_refusal nodes (op_target op) (op_principal op)
                        (ob_inviter body) (ob_invite_permissions body))
  | MoveNode =>
      ruling_verdict (move_refusal nodes (op_target op) (ob_new_parent_id body) (op_principal op))
  | DeleteAccount | Join => None
  | EstablishRoot =>
      refuse_when (is_empty (po_root_key policy) || is_empty (canonical_principal (op_principal op)) ||
                   negb (same_principal (op_principal op) (po_root_key policy)) ||
                   negb (bool_decide (is_Some (parse_ed25519_key (op_principal op)))))
        Forbidden "principal is not the configured root key"
  | SetEndpoint =>
      on_target op nodes (λ target,
        refuse_when (is_empty (tn_mgmt_pubkey target) ||
                     negb (same_principal (tn_mgmt_pubkey target) (op_principal op)))
          Forbidden "only the node's own key sets its endpoint")
  end.

Definition plan_verdict (op : TreeOp) (nodes : NodeMap) : TreeOpVerdict :=
  match plan_op op nodes with inl r => Some r | inr _ => None end.

Definition validate_op (op : TreeOp) (nodes : NodeMap) (policy : TreeOpPolicy)
    (block_time_sec : Z) (committed : CommittedOpIds) : TreeOpVerdict :=
  format_verdict op ⊳
  binding_verdict op policy ⊳
  author_verdict op policy ⊳
  freshness_verdict op block_time_sec ⊳
  replay_verdict op committed ⊳
  statement_verdict op ⊳
  grant_verdict op policy block_time_sec ⊳
  version_verdict op nodes ⊳
  rule_verdict op nodes policy ⊳
  plan_verdict op nodes.

(** ** Digests of the tree and of the committed ids *)

Definition kTreeNodeDomain : string := "lemonade-nexus/tree-node:v1".
Definition kTreeDigestDomain : string := "lemonade-nexus/tree-digest:v1".
Definition kTreeStateRootDomain : string := "lemonade-nexus/tree-state-root:v2".
Definition kTreeBaseRootDomain : string := "lemonade-nexus/tree-base-root:v1".
Definition kTreeCommittedIdsDomain : string := "lemonade-nexus/tree-committed-ids:v1".

Definition encode_tree_node (node : TreeNode) : list Z := add_node (new_encoder kTreeNodeDomain) node.

Definition node_entry_le (a b : string * TreeNode) : Prop := string_le a.1 b.1.
#[global] Instance node_entry_le_dec : RelDecision node_entry_le.
Proof. intros a b. unfold node_entry_le. apply _. Defined.

Definition tree_digest_encoder (nodes : NodeMap) : CanonicalEncoder :=
  let ordered := merge_sort node_entry_le (map_to_list nodes) in
  foldl (λ enc kv, add_bytes (add_string enc kv.1) (encode_tree_node kv.2))
    (add_u64 (new_encoder kTreeDigestDomain) (Z.of_nat (length ordered))) ordered.

Definition compute_tree_digest (nodes : NodeMap) : Digest := digest (tree_digest_encoder nodes).

Definition compute_committed_digest (committed : CommittedOpIds) : Digest :=
  let sorted := committed_sorted committed in
  digest (foldl (λ enc kv, add_u64 (add_string enc kv.1) kv.2)
            (add_u64 (new_encoder kTreeCommittedIdsDomain) (Z.of_nat (length sorted))) sorted).

Definition tree_state_root (previous_root ops_digest tree_digest committed_digest : Digest)
    : Digest :=
  let enc := add_digest (new_encoder kTreeStateRootDomain) previous_root in
  let enc := add_digest enc ops_digest in
  let enc := add_digest enc tree_digest in
  digest (add_digest enc committed_digest).

Definition base_state_root (tree_digest : Digest) : Digest :=
  digest (add_digest (new_encoder kTreeBaseRootDomain) tree_digest).

(** ** Blocks *)

Definition kMaxTreeBatchOps : nat := 128.
Definition kMaxTreeBatchOpBytes : Z := 48000.

Definition TreeBatch : Type := list TreeOp.

Definition tree_batch_op_bytes (batch : TreeBatch) : Z :=
  foldl (λ total op, total + Z.of_nat (length (encode_tree_op op))) 0 batch.

Record TreeChainState := mkChain {
  ch_nodes : NodeMap;
  ch_committed : CommittedOpIds;
  ch_last_block_time_ms : Z;
  ch_root : Digest;
}.

Definition chain_state_root (previous_root ops_digest : Digest) (state : TreeChainState) : Digest :=
  tree_state_root previous_root ops_digest (compute_tree_digest (ch_nodes state))
    (compute_committed_digest (ch_committed state)).

Definition batch_shape (batch : TreeBatch) (block_time_ms : Z) (state : TreeChainState)
    : TreeOpVerdict :=
  refuse_when (bool_decide (batch = [])) Malformed "empty tree batch" ⊳
  refuse_when (kMaxTreeBatchOps <? length batch)%nat Oversize "tree batch holds too many ops" ⊳
  refuse_when (kMaxTreeBatchOpBytes <? tree_batch_op_bytes batch)
    Oversize "tree batch is too large" ⊳
  refuse_when (block_time_ms <=? ch_last_block_time_ms state)
    Stale "block time does not advance past the last tree block".

Definition finish_block (next : TreeChainState) (block_time_ms : Z) (ops_digest : Digest)
    : TreeChainState :=
  let committed := prune_signed_before (committed_id_cutoff (block_time_ms / 1000))
                     (ch_committed next) in
  let root := tree_state_root (ch_root next) ops_digest (compute_tree_digest (ch_nodes next))
                (compute_committed_digest committed) in
  mkChain (ch_nodes next) committed block_time_ms root.

(** What one turn of the loops below does with an op: the state it leaves and its
    effect, or the refusal. *)
Definition step_op (op : TreeOp) (state : TreeChainState)
    : (TreeOpRefusal * string) + (TreeChainState * TreeOpEffect) :=
  match plan_op op (ch_nodes state) with
  | inl r => inl r
  | inr effect =>
      inr (mkChain (apply_effect effect (ch_nodes state))
             (record_committed op (ch_committed state))
             (ch_last_block_time_ms state) (ch_root state), effect)
  end.

(** [validate_op], then the step: a turn of the selection's loop and of
    [check_batch]'s. *)
Definition checked_step (policy : TreeOpPolicy) (block_time_sec : Z) (op : TreeOp)
    (state : TreeChainState) : (TreeOpRefusal * string) + (TreeChainState * TreeOpEffect) :=
  match validate_op op (ch_nodes state) policy block_time_sec (ch_committed state) with
  | Some r => inl r
  | None => step_op op state
  end.

(** The loop of [apply_certified_batch]; a refusal carries the index of the op. *)
Fixpoint certified_loop (ops : list TreeOp) (i : nat) (next : TreeChainState) (effects : list TreeOpEffect)
    : (nat * (TreeOpRefusal * string)) + (TreeChainState * list TreeOpEffect) :=
  match ops with
  | [] => inr (next, effects)
  | op :: rest =>
      match plan_op op (ch_nodes next) with
      | inl verdict => inl (i, verdict)
      | inr effect =>
          let nodes := apply_effect effect (ch_nodes next) in
          let committed := record_committed op (ch_committed next) in
          certified_loop rest (S i) (mkChain nodes committed (ch_last_block_time_ms next) (ch_root next))
            (effects ++ [effect])
      end
  end.

Definition apply_certified_batch (batch : TreeBatch) (block_time_ms : Z) (ops_digest : Digest)
    (state : TreeChainState) : (nat * (TreeOpRefusal * string)) + (TreeChainState * list TreeOpEffect) :=
  match batch_shape batch block_time_ms state with
  | Some verdict => inl (O, verdict)
  | None =>
      match certified_loop batch O state [] with
      | inl refused => inl refused
      | inr (next, effects) => inr (finish_block next block_time_ms ops_digest, effects)
      end
  end.

(** The loop of [check_batch]. *)
Fixpoint check_loop (policy : TreeOpPolicy) (block_time_sec : Z) (ops : list TreeOp) (i : nat)
    (next : TreeChainState) (effects : list TreeOpEffect)
    : (nat * (TreeOpRefusal * string)) + (TreeChainState * list TreeOpEffect) :=
  match ops with
  | [] => inr (next, effects)
  | op :: rest =>
      let planned :=
        match validate_op op (ch_nodes next) policy block_time_sec (ch_committed next) with
        | None => plan_op op (ch_nodes next)
        | Some verdict => inl verdict
        end in
      match planned with
      | inl verdict => inl (i, verdict)
      | inr effect =>
          let nodes := apply_effect effect (ch_nodes next) in
          let committed := record_committed op (ch_committed next) in
          check_loop policy block_time_sec rest (S i)
            (mkChain nodes committed (ch_last_block_time_ms next) (ch_root next)) (effects ++ [effect])
      end
  end.

Definition check_batch (policy : TreeOpPolicy) (batch : TreeBatch) (block_time_ms : Z)
    (ops_digest : Digest) (state : TreeChainState)
    : (nat * (TreeOpRefusal * string)) + (TreeChainState * list TreeOpEffect) :=
  match batch_shape batch block_time_ms state with
  | Some verdict => inl (O, verdict)
  | None =>
      let block_time_sec := block_time_ms / 1000 in
      match check_loop policy block_time_sec batch O state [] with
      | inl refused => inl refused
      | inr (next, effects) => inr (finish_block next block_time_ms ops_digest, effects)
      end
  end.

(** ** The leader's selection *)

Record TreeBatchSelection := mkSelection {
  se_batch : TreeBatch;
  se_refused : list (string * (TreeOpRefusal * string));
}.

Fixpoint select_from (policy : TreeOpPolicy) (block_time_sec : Z) (op_limit : nat)
    (max_wire_bytes : Z) (candidates : list TreeOp) (taken : nat) (op_bytes wire_bytes : Z)
    (next : TreeChainState) : TreeBatchSelection :=
  match candidates with
  | [] => mkSelection [] []
  | op :: rest =>
      if (op_limit <=? taken)%nat then mkSelection [] []
      else
        let op_size := Z.of_nat (length (encode_tree_op op)) in
        let wire := 4 + op_size + 64 in
        if (kMaxTreeBatchOpBytes <? op_bytes + op_size) || (max_wire_bytes <? wire_bytes + wire)
        then select_from policy block_time_sec op_limit max_wire_bytes rest taken op_bytes
               wire_bytes next
        else
          match checked_step policy block_time_sec op next with
          | inl r =>
              let out := select_from policy block_time_sec op_limit max_wire_bytes rest taken
                           op_bytes wire_bytes next in
              mkSelection (se_batch out) ((op_id_hex op, r) :: se_refused out)
          | inr (next, _) =>
              let out := select_from policy block_time_sec op_limit max_wire_bytes rest (S taken)
                           (op_bytes + op_size) (wire_bytes + wire) next in
              mkSelection (op :: se_batch out) (se_refused out)
          end
  end.

Definition select_batch (policy : TreeOpPolicy) (candidates : list TreeOp) (block_time_ms : Z)
    (max_ops : nat) (max_wire_bytes : Z) (state : TreeChainState) : TreeBatchSelection :=
  if block_time_ms <=? ch_last_block_time_ms state then mkSelection [] []
  else select_from policy (block_time_ms / 1000) (Nat.min max_ops kMaxTreeBatchOps) max_wire_bytes
         candidates O 0 2 state.
End validation.

Notation "a ⊳ b" := (and_then a b) (at level 60, right associativity).
