(* ===== verification/TreeCodec.v ===== *)
(** * Reading canonical encodings of operations and nodes

    Models the decoding part of [Tree/TreeOps.cpp] and [Tree/TreeBatch.cpp].
    [CanonicalReader] holds a position and a failure flag; a reader here takes
    the bytes that are left and returns a value and the bytes after it, and
    [None] is the failed reader. *)

From S2P Require Import Prelude SecurityPolicy CanonicalEncoding Json EligibilityStore.
From S2P Require Import TreeTypes LinkToken TreeRules TreeOps TreeValidation.
From Stdlib Require Import Ascii.

(** ** The reader *)

Definition Reader (A : Type) : Type := list Z → option (A * list Z).

Definition r_field : Reader (list Z) := λ bytes,
  if (length bytes <? 4)%nat then None
  else
    let n := Z.to_nat (le_value (take 4 bytes)) in
    let rest := drop 4 bytes in
    if (length rest <? n)%nat then None else Some (take n rest, drop n rest).

Definition r_bind {A B : Type} (r : Reader A) (k : A → Reader B) : Reader B := λ bytes,
  match r bytes with Some (a, rest) => k a rest | None => None end.
Definition r_ret {A : Type} (a : A) : Reader A := λ bytes, Some (a, bytes).
Definition r_fail {A : Type} : Reader A := λ _, None.

Notation "x <-- r ;; k" := (r_bind r (λ x, k)) (at level 100, r at next level, right associativity).

Definition bytes_string (bytes : list Z) : string :=
  String.string_of_list_ascii ((λ b, ascii_of_nat (Z.to_nat b)) <$> bytes).

Definition r_string : Reader string := f <-- r_field;; r_ret (bytes_string f).

Definition r_expect (literal : string) : Reader unit :=
  s <-- r_string;; if String.eqb s literal then r_ret tt else r_fail.

Definition r_uint (width : nat) : Reader Z :=
  f <-- r_field;; if (length f =? width)%nat then r_ret (le_value f) else r_fail.

Definition r_boolean : Reader bool :=
  v <-- r_uint 2;; if 1 <? v then r_fail else r_ret (v =? 1).

Definition r_fixed (n : nat) : Reader Z :=
  f <-- r_field;; if (length f =? n)%nat then r_ret (be_value f) else r_fail.

(** The count cannot exceed what the bytes left can hold. *)
Definition r_count : Reader Z :=
  n <-- r_uint 4;; λ bytes, if Z.of_nat (length bytes / 4) <? n then None else Some (n, bytes).

Fixpoint r_times {A : Type} (n : nat) (r : Reader A) : Reader (list A) :=
  match n with
  | O => r_ret []
  | S n' => a <-- r;; l <-- r_times n' r;; r_ret (a :: l)
  end.

Definition r_strings : Reader (list string) := n <-- r_count;; r_times (Z.to_nat n) r_string.

Definition r_assignment : Reader Assignment :=
  key <-- r_string;; perms <-- r_strings;; r_ret (mkAssignment key perms).

Definition node_type_of (type : string) : option NodeType :=
  if String.eqb type "root" then Some Root
  else if String.eqb type "customer" then Some Customer
  else if String.eqb type "endpoint" then Some Endpoint
  else if String.eqb type "relay" then Some Relay
  else None.

Definition r_lift {A : Type} (a : option A) : Reader A :=
  match a with Some a => r_ret a | None => r_fail end.

Definition read_node : Reader TreeNode :=
  id <-- r_string;; parent_id <-- r_string;; type <-- r_string;; hostname <-- r_string;;
  tunnel_ip <-- r_string;; private_subnet <-- r_string;; shared_addresses <-- r_string;;
  shared_domain <-- r_string;; mgmt_pubkey <-- r_string;; wrapped <-- r_string;;
  mesh_pubkey <-- r_string;; identifier <-- r_string;; cpu_id <-- r_string;; net_mac <-- r_string;;
  is_inference <-- r_boolean;; count <-- r_count;; type <-- r_lift (node_type_of type);;
  assignments <-- r_times (Z.to_nat count) r_assignment;;
  signature <-- r_string;; listen_endpoint <-- r_string;; region <-- r_string;;
  capacity <-- r_uint 4;; score <-- r_uint 4;; expires_at <-- r_uint 8;; version <-- r_uint 8;;
  r_ret (mkNode id parent_id type hostname tunnel_ip private_subnet shared_addresses shared_domain
           mgmt_pubkey wrapped mesh_pubkey identifier cpu_id net_mac is_inference assignments
           signature listen_endpoint region capacity score expires_at version).

Definition read_delta : Reader TreeDelta :=
  operation <-- r_string;; target <-- r_string;; node <-- read_node;; signer <-- r_string;;
  signature <-- r_string;; timestamp <-- r_uint 8;;
  r_ret (mkDelta operation target node signer signature timestamp).

Definition read_link_event : Reader LinkTokenEvent :=
  kind <-- r_uint 2;; token_hash <-- r_string;; generation <-- r_uint 4;; network_id <-- r_string;;
  expires_at <-- r_uint 8;; group <-- r_string;; perms <-- r_strings;; owner_id <-- r_string;;
  owner_key <-- r_string;; created_at <-- r_uint 8;; timestamp <-- r_uint 8;; origin <-- r_string;;
  origin_seq <-- r_uint 8;; signature <-- r_string;;
  if 255 <? kind then r_fail
  else r_ret (mkLinkEvent kind token_hash generation network_id expires_at group perms owner_id
                owner_key created_at "" "" timestamp origin origin_seq signature).

Definition read_join : Reader JoinStatement :=
  device <-- r_string;; challenge <-- r_string;; challenge_sig <-- r_string;;
  hostname_present <-- r_boolean;; hostname <-- r_string;; mesh_present <-- r_boolean;;
  mesh <-- r_string;; cpu_id <-- r_string;; net_mac <-- r_string;; region <-- r_string;;
  is_inference <-- r_boolean;; link_group <-- r_string;; link_owner <-- r_string;;
  r_ret (mkJoin device challenge challenge_sig hostname_present hostname mesh_present mesh cpu_id
           net_mac region is_inference link_group link_owner).

(** ** Operations *)

Definition kind_of_op_value (v : Z) : option TreeOpKind :=
  if v =? 1 then Some CreateNode else if v =? 2 then Some UpdateFields
  else if v =? 3 then Some SetAssignment else if v =? 4 then Some DeleteNode
  else if v =? 5 then Some Join else if v =? 6 then Some EstablishRoot
  else if v =? 7 then Some SetEndpoint else if v =? 8 then Some AcceptInvite
  else if v =? 9 then Some MoveNode else if v =? 10 then Some DeleteAccount else None.

Definition source_of_value (v : Z) : option TreeOpSource :=
  if v =? 1 then Some Session else if v =? 2 then Some Delta
  else if v =? 3 then Some Device else None.

Definition read_body (kind : TreeOpKind) (source : TreeOpSource) : Reader TreeOpBody :=
  let body := new_body <| ob_source := source |> in
  match source with
  | Delta => d <-- read_delta;; r_ret (body <| ob_delta := d |>)
  | Device => j <-- read_join;; r_ret (body <| ob_join := j |>)
  | Session =>
      match kind with
      | CreateNode | UpdateFields => n <-- read_node;; r_ret (body <| ob_node := n |>)
      | SetAssignment =>
          p <-- r_string;; perms <-- r_strings;;
          r_ret (body <| ob_assignment_principal := p |> <| ob_assignment_permissions := perms |>)
      | SetEndpoint => e <-- r_string;; r_ret (body <| ob_listen_endpoint := e |>)
      | AcceptInvite =>
          i <-- r_string;; perms <-- r_strings;;
          r_ret (body <| ob_inviter := i |> <| ob_invite_permissions := perms |>)
      | MoveNode => p <-- r_string;; r_ret (body <| ob_new_parent_id := p |>)
      | _ => r_ret body
      end
  end.

Definition read_grant (body : TreeOpBody) : Reader TreeOpBody :=
  _ <-- r_expect kTreeOpLinkExtensionTag;; has_grant <-- r_boolean;;
  let body := body <| ob_link_extension := true |> in
  if has_grant then g <-- read_link_event;; r_ret (body <| ob_invite_grant := Some g |>)
  else r_ret body.

(** [if (ok && !r.done() && link_extension_allowed(op))] *)
Definition read_extension (kind : TreeOpKind) (body : TreeOpBody) : Reader TreeOpBody := λ bytes,
  let allowed := match kind, ob_source body with
                 | Join, Device | AcceptInvite, Session => true
                 | _, _ => false
                 end in
  if bool_decide (bytes = []) || negb allowed then Some (body, bytes)
  else read_grant body bytes.

Definition read_op : Reader TreeOp :=
  _ <-- r_expect kTreeOpDomain;; version <-- r_uint 4;; network_id <-- r_fixed 32;;
  kind <-- r_uint 2;; target <-- r_string;; base_version <-- r_uint 8;; signed_at <-- r_uint 8;;
  nonce <-- r_fixed 16;; principal <-- r_string;; author <-- r_string;; source <-- r_uint 2;;
  kind <-- r_lift (kind_of_op_value kind);; source <-- r_lift (source_of_value source);;
  if negb (kind_known kind) || negb (source_allowed kind source) then r_fail
  else
    body <-- read_body kind source;; body <-- read_extension kind body;;
    r_ret (mkOp version network_id kind target base_version signed_at nonce principal body author
             0 "" "").

Section decoding.
Context `{TextCodec, Sodium}.

Definition decode_tree_op (encoding : list Z) (signature : Ed25519Signature) : option TreeOp :=
  if kMaxTreeOpEncodedBytes <? Z.of_nat (length encoding) then None
  else
    match read_op encoding with
    | Some (op, []) =>
        if negb (bool_decide (encode_tree_op op = encoding)) then None
        else Some (op <| op_id := compute_op_id op |>
                      <| op_signature := to_base64 (be_bytes 64 signature) |>)
    | _ => None
    end.

Definition decode_tree_node (encoding : list Z) : option TreeNode :=
  match (_ <-- r_expect kTreeNodeDomain;; read_node) encoding with
  | Some (node, []) => if negb (bool_decide (encode_tree_node node = encoding)) then None else Some node
  | _ => None
  end.

(** ** Batches *)

Definition tree_op_signature_bytes (op : TreeOp) : option Ed25519Signature :=
  parse_signature (op_signature op).

(** The loop of [encode_tree_batch] with the op bytes so far. *)
Fixpoint encode_ops (op_bytes : Z) (ops : list TreeOp) : option (list Z) :=
  match ops with
  | [] => Some []
  | op :: rest =>
      signature ← tree_op_signature_bytes op;
      let encoded := encode_tree_op op in
      let op_bytes := op_bytes + Z.of_nat (length encoded) in
      if kMaxTreeBatchOpBytes <? op_bytes then None
      else
        out ← encode_ops op_bytes rest;
        Some (le_bytes 4 (Z.of_nat (length encoded)) ++ encoded ++ be_bytes 64 signature ++ out)
  end.

Definition encode_tree_batch (batch : TreeBatch) : option (list Z) :=
  if bool_decide (batch = []) || (kMaxTreeBatchOps <? length batch)%nat then None
  else
    out ← encode_ops 0 batch;
    Some (le_bytes 2 (Z.of_nat (length batch)) ++ out).

Fixpoint decode_ops (count : nat) (op_bytes : Z) (bytes : list Z) : option (list TreeOp) :=
  match count with
  | O => if bool_decide (bytes = []) then Some [] else None
  | S count' =>
      if (length bytes <? 4)%nat then None
      else
        let len := le_value (take 4 bytes) in
        let bytes := drop 4 bytes in
        if kMaxTreeBatchOpBytes - op_bytes <? len then None
        else if Z.of_nat (length bytes) <? len + 64 then None
        else
          let encoding := take (Z.to_nat len) bytes in
          let bytes := drop (Z.to_nat len) bytes in
          op ← decode_tree_op encoding (be_value (take 64 bytes));
          ops ← decode_ops count' (op_bytes + len) (drop 64 bytes);
          Some (op :: ops)
  end.

Definition decode_tree_batch (bytes : list Z) : option TreeBatch :=
  if (length bytes <? 2)%nat then None
  else
    let count := Z.to_nat (le_value (take 2 bytes)) in
    if (count =? 0)%nat || (kMaxTreeBatchOps <? count)%nat then None
    else decode_ops count 0 (drop 2 bytes).
End decoding.
