(* ===== verification/TreeRoundTrip.v ===== *)
(** * Operations and nodes read back from their encodings

    The theory of the reader of TreeCodec: what a reader takes off the bytes an
    encoder put there. [reads r enc a] is composed along the fields, so the
    statement for a record is one [reads_bind] per field. *)

From S2P Require Import Prelude SecurityPolicy CanonicalEncoding Json EligibilityStore.
From S2P Require Import TreeTypes LinkToken TreeRules TreeOps TreeValidation TreeCodec.
From Stdlib Require Import Ascii.

(** ** Readers and encodings *)

(** A reader that reads a value off its encoding. The length bound is what the
    32-bit length prefixes can carry. *)
Definition reads {A : Type} (r : Reader A) (enc : list Z) (a : A) : Prop :=
  Z.of_nat (length enc) < two32 → ∀ rest, r (enc ++ rest) = Some (a, rest).

Definition field_bytes (f : list Z) : list Z := put_length_prefixed [] f.

Lemma add_field enc f : put_length_prefixed enc f = enc ++ field_bytes f.
Proof. apply put_length_prefixed_nil. Qed.

Lemma length_field_bytes f : length (field_bytes f) = (4 + length f)%nat.
Proof. unfold field_bytes, put_length_prefixed. cbn. done. Qed.

Lemma reads_field f : reads r_field (field_bytes f) f.
Proof.
  intros Hf rest. rewrite length_field_bytes in Hf.
  unfold r_field, field_bytes, put_length_prefixed. cbv zeta. rewrite app_nil_l.
  set (hd := le_bytes 4 _). assert (Hhd : length hd = 4%nat) by apply length_le_bytes.
  assert (Hn : Z.to_nat (le_value hd) = length f).
  { unfold hd. rewrite le_value_bytes.
    change (256 ^ Z.of_nat 4) with two32. rewrite Z.mod_mod by done.
    rewrite Z.mod_small by lia. lia. }
  rewrite <-!app_assoc. rewrite (proj2 (Nat.ltb_ge _ 4)) by (rewrite length_app; lia).
  rewrite take_app_length', drop_app_length' by done. rewrite Hn.
  rewrite (proj2 (Nat.ltb_ge _ _)) by (rewrite length_app; lia).
  by rewrite take_app_length, drop_app_length.
Qed.

Lemma reads_bind {A B} (r : Reader A) (k : A → Reader B) enc enc' a b :
  reads r enc a → reads (k a) enc' b → reads (r_bind r k) (enc ++ enc') b.
Proof.
  intros Hr Hk Hlen rest. rewrite length_app in Hlen. unfold r_bind.
  rewrite <-app_assoc, Hr by lia. apply Hk. lia.
Qed.

Lemma reads_ret {A} (a : A) : reads (r_ret a) [] a.
Proof. by intros _ rest. Qed.

Lemma reads_map {A B} (r : Reader A) (k : A → Reader B) enc a b :
  reads r enc a → reads (k a) [] b → reads (r_bind r k) enc b.
Proof. intros Hr Hk. rewrite <-(app_nil_r enc). by eapply reads_bind. Qed.

Lemma reads_lift {A} (o : option A) a : o = Some a → reads (r_lift o) [] a.
Proof. intros ->. apply reads_ret. Qed.

(** A step that takes no bytes. *)
Lemma reads_step {A B} (r : Reader A) (k : A → Reader B) enc a b :
  reads r [] a → reads (k a) enc b → reads (r_bind r k) enc b.
Proof. intros Hr Hk. rewrite <-(app_nil_l enc). by eapply reads_bind. Qed.

Lemma bytes_string_bytes s : bytes_string (string_bytes s) = s.
Proof.
  unfold bytes_string, string_bytes. rewrite <-list_fmap_compose.
  rewrite <-(String.string_of_list_ascii_of_string s) at 2. f_equal.
  rewrite <-(list_fmap_id (String.list_ascii_of_string s)) at 2.
  apply list_fmap_ext. intros _ c _. cbn. rewrite Nat2Z.id. apply ascii_nat_embedding.
Qed.

Lemma reads_string s : reads r_string (field_bytes (string_bytes s)) s.
Proof.
  eapply reads_map; [apply reads_field|]. rewrite bytes_string_bytes. apply reads_ret.
Qed.

Lemma reads_expect s : reads (r_expect s) (field_bytes (string_bytes s)) tt.
Proof. eapply reads_map; [apply reads_string|]. rewrite String.eqb_refl. apply reads_ret. Qed.

Lemma reads_uint width v :
  0 <= v < 256 ^ Z.of_nat width → reads (r_uint width) (field_bytes (le_bytes width v)) v.
Proof.
  intros Hv. eapply reads_map; [apply reads_field|].
  rewrite length_le_bytes, Nat.eqb_refl, le_value_bytes, Z.mod_small by done. apply reads_ret.
Qed.

Lemma reads_u16 v : is_u16 v → reads (r_uint 2) (field_bytes (le_bytes 2 v)) v.
Proof. apply (reads_uint 2 v). Qed.
Lemma reads_u32 v : is_u32 v → reads (r_uint 4) (field_bytes (le_bytes 4 v)) v.
Proof. apply (reads_uint 4 v). Qed.
Lemma reads_u64 v : is_u64 v → reads (r_uint 8) (field_bytes (le_bytes 8 v)) v.
Proof. apply (reads_uint 8 v). Qed.

Lemma reads_boolean (b : bool) :
  reads r_boolean (field_bytes (le_bytes 2 (if b then 1 else 0))) b.
Proof.
  eapply reads_map; [apply reads_uint; by destruct b|]. destruct b; apply reads_ret.
Qed.

Lemma reads_fixed n v :
  0 <= v < 256 ^ Z.of_nat n → reads (r_fixed n) (field_bytes (be_bytes n v)) v.
Proof.
  intros Hv. eapply reads_map; [apply reads_field|].
  rewrite length_be_bytes, Nat.eqb_refl, be_value_bytes by done. apply reads_ret.
Qed.

(** The check of [r_count] against the bytes left passes when each element
    takes at least four bytes of what follows. *)
Lemma reads_count {B} (k : Z → Reader B) (n : nat) enc b :
  (4 * n <= length enc)%nat → reads (k (Z.of_nat n)) enc b →
  reads (r_bind r_count k) (field_bytes (le_bytes 4 (Z.of_nat n)) ++ enc) b.
Proof.
  intros Hn Hk Hlen rest. rewrite length_app, length_field_bytes in Hlen.
  unfold r_bind at 1, r_count. unfold r_bind at 1. rewrite <-app_assoc.
  rewrite reads_u32; [|split; lia|rewrite length_field_bytes, length_le_bytes; unfold two32; lia].
  assert (Hge : (n <= length (enc ++ rest) / 4)%nat)
    by (apply Nat.div_le_lower_bound; rewrite ?length_app; lia).
  rewrite (proj2 (Z.ltb_ge _ _)) by lia. apply Hk. lia.
Qed.

Lemma reads_times {A} (r : Reader A) (enc : A → list Z) (l : list A) :
  (∀ a, a ∈ l → reads r (enc a) a) → reads (r_times (length l) r) (mjoin (enc <$> l)) l.
Proof.
  induction l as [|a l IH]; intros Hr; cbn; [apply reads_ret|].
  eapply reads_bind; [apply Hr; set_solver|].
  eapply reads_map; [apply IH; set_solver|]. apply reads_ret.
Qed.

Lemma length_mjoin_ge {A} (enc : A → list Z) (l : list A) :
  (∀ a, 4 <= length (enc a))%nat → (4 * length l <= length (mjoin (enc <$> l)))%nat.
Proof.
  intros He. induction l as [|a l IH]; [done|].
  change (4 * S (length l) <= length (enc a ++ mjoin (enc <$> l)))%nat.
  rewrite length_app. specialize (He a). lia.
Qed.

Lemma foldl_fields {A} (f : CanonicalEncoder → A → CanonicalEncoder) (enc : A → list Z) :
  (∀ e a, f e a = e ++ enc a) → ∀ l e, foldl f e l = e ++ mjoin (enc <$> l).
Proof.
  intros Hf l. induction l as [|a l IH]; intros e; cbn; [by rewrite app_nil_r|].
  by rewrite IH, Hf, app_assoc.
Qed.

(** ** Records *)

Lemma add_string_app enc s : add_string enc s = enc ++ field_bytes (string_bytes s).
Proof. apply add_field. Qed.
Lemma add_u16_app enc v : add_u16 enc v = enc ++ field_bytes (le_bytes 2 v).
Proof. apply add_field. Qed.
Lemma add_u32_app enc v : add_u32 enc v = enc ++ field_bytes (le_bytes 4 v).
Proof. apply add_field. Qed.
Lemma add_u64_app enc v : add_u64 enc v = enc ++ field_bytes (le_bytes 8 v).
Proof. apply add_field. Qed.
Lemma add_bool_app enc b : add_bool enc b = enc ++ field_bytes (le_bytes 2 (if b then 1 else 0)).
Proof. apply add_field. Qed.
Lemma add_bytes_app enc f : add_bytes enc f = enc ++ field_bytes f.
Proof. apply add_field. Qed.

Definition strings_bytes (l : list string) : list Z :=
  field_bytes (le_bytes 4 (Z.of_nat (length l))) ++ mjoin ((λ s, field_bytes (string_bytes s)) <$> l).

Lemma add_strings_app enc l : add_strings enc l = enc ++ strings_bytes l.
Proof.
  unfold add_strings, strings_bytes. rewrite (foldl_fields _ (λ s, field_bytes (string_bytes s))).
  - by rewrite add_u32_app, app_assoc.
  - apply add_string_app.
Qed.

Create HintDb fields discriminated.
#[export] Hint Constants Opaque : fields.
#[export] Hint Resolve reads_string reads_boolean reads_u16 reads_u32 reads_u64 reads_expect : fields.
#[export] Hint Rewrite add_string_app add_u16_app add_u32_app add_u64_app add_bool_app add_bytes_app
  add_strings_app : fields.

(** Puts an encoder in the form of one concatenation. *)
Ltac flat := autorewrite with fields; rewrite <-?app_assoc; rewrite ?app_nil_l.
(** Reads the leading fields one by one. *)
Ltac field := eapply reads_bind; [solve [eauto with fields]|].
Ltac last_field := eapply reads_map; [solve [eauto with fields]|].

Lemma reads_strings l : reads r_strings (strings_bytes l) l.
Proof.
  unfold r_strings, strings_bytes. apply reads_count.
  - apply (length_mjoin_ge (λ s, field_bytes (string_bytes s))). intros s. rewrite length_field_bytes. lia.
  - rewrite Nat2Z.id. apply (reads_times r_string (λ s, field_bytes (string_bytes s))).
    intros; apply reads_string.
Qed.
#[export] Hint Resolve reads_strings : fields.

Definition assignment_bytes (a : Assignment) : list Z :=
  field_bytes (string_bytes (management_pubkey a)) ++ strings_bytes (permissions a).

Lemma add_assignment_app enc a : add_assignment enc a = enc ++ assignment_bytes a.
Proof. unfold add_assignment. by flat. Qed.

Lemma reads_assignment a : reads r_assignment (assignment_bytes a) a.
Proof. unfold r_assignment, assignment_bytes. field. last_field. destruct a. apply reads_ret. Qed.

Lemma add_assignments_app enc l :
  foldl add_assignment enc l = enc ++ mjoin (assignment_bytes <$> l).
Proof. apply foldl_fields, add_assignment_app. Qed.
#[export] Hint Rewrite add_assignments_app : fields.

Lemma node_type_read t : node_type_of (node_type_to_string t) = Some t.
Proof. by destruct t. Qed.

(** The integers of a node are within their C++ types. *)
Record node_fits (n : TreeNode) : Prop := {
  nf_capacity : is_u32 (tn_capacity_mbps n);
  nf_score : is_u32 (tn_reputation_score n);
  nf_expires : is_u64 (tn_expires_at n);
  nf_version : is_u64 (tn_version n);
}.

Lemma add_node_app enc n : add_node enc n = enc ++ add_node [] n.
Proof. unfold add_node. cbv zeta. flat. done. Qed.

Lemma reads_node n : node_fits n → reads read_node (add_node [] n) n.
Proof.
  intros [H1 H2 H3 H4]. unfold read_node, add_node. cbv zeta. flat.
  do 15 field. apply reads_count.
  { rewrite length_app. pose proof (length_mjoin_ge assignment_bytes (tn_assignments n)) as Hl.
    etransitivity; [apply Hl|lia]. intros a. unfold assignment_bytes.
    rewrite length_app, length_field_bytes. lia. }
  eapply reads_step; [apply reads_lift, node_type_read|].
  rewrite Nat2Z.id. eapply reads_bind; [apply reads_times; intros; apply reads_assignment|].
  do 6 field. last_field. destruct n. apply reads_ret.
Qed.
#[export] Hint Resolve reads_node : fields.

Record delta_fits (d : TreeDelta) : Prop := {
  df_node : node_fits (td_node_data d);
  df_timestamp : is_u64 (td_timestamp d);
}.

Lemma add_delta_app enc d : add_delta enc d = enc ++ add_delta [] d.
Proof.
  unfold add_delta. cbv zeta. rewrite (add_node_app (add_string (add_string enc _) _)).
  rewrite (add_node_app (add_string (add_string [] _) _)). flat. done.
Qed.

Lemma reads_delta d : delta_fits d → reads read_delta (add_delta [] d) d.
Proof.
  intros [Hn Ht]. unfold read_delta, add_delta. cbv zeta.
  rewrite (add_node_app (add_string (add_string [] _) _)). flat.
  do 5 field. last_field. destruct d. apply reads_ret.
Qed.

Lemma add_join_app enc j : add_join enc j = enc ++ add_join [] j.
Proof. unfold add_join. cbv zeta. flat. done. Qed.

Lemma reads_join j : reads read_join (add_join [] j) j.
Proof.
  unfold read_join, add_join. cbv zeta. flat. do 12 field. last_field. destruct j. apply reads_ret.
Qed.

Record event_fits (e : LinkTokenEvent) : Prop := {
  ef_kind : 0 <= le_kind e <= 255;
  ef_generation : is_u32 (le_generation e);
  ef_expires : is_u64 (le_expires_at e);
  ef_created : is_u64 (le_created_at e);
  ef_timestamp : is_u64 (le_timestamp e);
  ef_seq : is_u64 (le_origin_seq e);
}.

(** The event as an op carries it: without its code binding. *)
Definition carried_event (e : LinkTokenEvent) : LinkTokenEvent :=
  mkLinkEvent (le_kind e) (le_token_hash e) (le_generation e) (le_network_id e) (le_expires_at e)
    (le_group_node_id e) (le_permissions e) (le_owner_user_id e) (le_owner_pubkey e)
    (le_created_at e) "" "" (le_timestamp e) (le_origin_pubkey e) (le_origin_seq e)
    (le_signature e).

Lemma add_link_event_app enc e : add_link_event enc e = enc ++ add_link_event [] e.
Proof. unfold add_link_event. cbv zeta. flat. done. Qed.

Lemma reads_link_event e :
  event_fits e → reads read_link_event (add_link_event [] e) (carried_event e).
Proof.
  intros [Hk Hg He Hc Ht Hs]. unfold read_link_event, add_link_event. cbv zeta. flat.
  assert (is_u16 (le_kind e)) by (unfold is_u16, two16; lia).
  do 13 field. last_field. rewrite (proj2 (Z.ltb_ge 255 _)) by lia. apply reads_ret.
Qed.
#[export] Hint Resolve reads_delta reads_join reads_link_event : fields.

(** ** Operations *)

(** The part of a body that the op's kind and source carry. *)
Definition carried_body (kind : TreeOpKind) (b : TreeOpBody) : TreeOpBody :=
  let body := new_body <| ob_source := ob_source b |> in
  match ob_source b with
  | Delta => body <| ob_delta := ob_delta b |>
  | Device => body <| ob_join := ob_join b |>
  | Session =>
      match kind with
      | CreateNode | UpdateFields => body <| ob_node := ob_node b |>
      | SetAssignment =>
          body <| ob_assignment_principal := ob_assignment_principal b |>
               <| ob_assignment_permissions := ob_assignment_permissions b |>
      | SetEndpoint => body <| ob_listen_endpoint := ob_listen_endpoint b |>
      | AcceptInvite =>
          body <| ob_inviter := ob_inviter b |> <| ob_invite_permissions := ob_invite_permissions b |>
      | MoveNode => body <| ob_new_parent_id := ob_new_parent_id b |>
      | _ => body
      end
  end.

Definition carried_extension (b carried : TreeOpBody) : TreeOpBody :=
  if ob_link_extension b
  then carried <| ob_link_extension := true |>
               <| ob_invite_grant := carried_event <$> ob_invite_grant b |>
  else carried.

(** What an encoding says of an op. *)
Definition carried_op (o : TreeOp) : TreeOp :=
  mkOp (op_version o) (op_network_id o) (op_kind o) (op_target o) (op_base_version o)
    (op_signed_at o) (op_nonce o) (op_principal o)
    (carried_extension (op_body o) (carried_body (op_kind o) (op_body o))) (op_author o) 0 "" "".

Record op_fits (o : TreeOp) : Prop := {
  of_version : is_u32 (op_version o);
  of_network : is_digest (op_network_id o);
  of_base : is_u64 (op_base_version o);
  of_signed : is_u64 (op_signed_at o);
  of_nonce : 0 <= op_nonce o < 256 ^ 16;
  of_source : source_allowed (op_kind o) (ob_source (op_body o)) = true;
  of_extension : ob_link_extension (op_body o) = true → link_extension_allowed o = true;
  of_node : node_fits (ob_node (op_body o));
  of_delta : delta_fits (ob_delta (op_body o));
  of_grant : ∀ g, ob_invite_grant (op_body o) = Some g → event_fits g;
}.

Definition body_bytes (o : TreeOp) : list Z := add_body [] o.
Definition extension_bytes (b : TreeOpBody) : list Z := add_link_extension [] b.

Lemma add_body_app enc o : add_body enc o = enc ++ body_bytes o.
Proof.
  unfold body_bytes, add_body. cbv zeta. repeat case_match; flat; rewrite ?app_nil_r;
    auto using add_delta_app, add_join_app, add_node_app.
Qed.

Lemma add_link_extension_app enc b : add_link_extension enc b = enc ++ extension_bytes b.
Proof.
  unfold extension_bytes, add_link_extension. cbv zeta. repeat case_match; rewrite ?app_nil_r; try done.
  - rewrite (add_link_event_app (add_bool (add_string enc _) _)).
    rewrite (add_link_event_app (add_bool (add_string [] _) _)). by flat.
  - by flat.
Qed.

Lemma reads_body o :
  op_fits o →
  reads (read_body (op_kind o) (ob_source (op_body o))) (body_bytes o)
    (carried_body (op_kind o) (op_body o)).
Proof.
  intros Ho. unfold read_body, carried_body, body_bytes, add_body. cbv zeta.
  pose proof (of_node o Ho). pose proof (of_delta o Ho).
  destruct (ob_source (op_body o)); [destruct (op_kind o)| |]; flat;
    first [apply reads_ret|last_field; apply reads_ret|field; last_field; apply reads_ret].
Qed.

Lemma extension_flat b :
  ob_link_extension b = true →
  extension_bytes b =
    field_bytes (string_bytes kTreeOpLinkExtensionTag) ++
    match ob_invite_grant b with
    | Some g => field_bytes (le_bytes 2 1) ++ add_link_event [] g
    | None => field_bytes (le_bytes 2 0)
    end.
Proof.
  intros Ex. unfold extension_bytes, add_link_extension. rewrite Ex. cbv zeta.
  destruct (ob_invite_grant b) as [g|].
  - rewrite (add_link_event_app (add_bool _ _)). by flat.
  - by flat.
Qed.

Lemma reads_grant b body :
  ob_link_extension b = true → ob_invite_grant body = None →
  (∀ g, ob_invite_grant b = Some g → event_fits g) →
  reads (read_grant body) (extension_bytes b) (carried_extension b body).
Proof.
  intros Ex Hb Hg. rewrite (extension_flat b Ex). unfold carried_extension. rewrite Ex.
  eapply reads_bind; [apply reads_expect|]. destruct (ob_invite_grant b) as [g|].
  - eapply reads_bind; [apply (reads_boolean true)|]. specialize (Hg g eq_refl).
    last_field. apply reads_ret.
  - eapply reads_map; [apply (reads_boolean false)|]. destruct body. cbn in Hb. subst. apply reads_ret.
Qed.

Lemma carried_body_source kind b : ob_source (carried_body kind b) = ob_source b.
Proof. unfold carried_body. by destruct (ob_source b), kind. Qed.
Lemma carried_body_grant kind b : ob_invite_grant (carried_body kind b) = None.
Proof. unfold carried_body. by destruct (ob_source b), kind. Qed.

(** The extension is the last part of the encoding. *)
Lemma reads_extension o :
  op_fits o → Z.of_nat (length (extension_bytes (op_body o))) < two32 →
  read_extension (op_kind o) (carried_body (op_kind o) (op_body o)) (extension_bytes (op_body o)) =
    Some (carried_extension (op_body o) (carried_body (op_kind o) (op_body o)), []).
Proof.
  intros Ho Hlen. pose proof (of_extension o Ho) as He. pose proof (of_grant o Ho) as Hg.
  unfold read_extension. rewrite carried_body_source. unfold link_extension_allowed in He.
  destruct (ob_link_extension (op_body o)) eqn:Ex.
  - rewrite (He eq_refl), orb_false_r, bool_decide_eq_false_2.
    + rewrite <-(app_nil_r (extension_bytes _)). by apply reads_grant; [| |done|]; auto using carried_body_grant.
    + rewrite (extension_flat _ Ex). intros Hn. apply (f_equal length) in Hn.
      rewrite length_app, length_field_bytes in Hn. cbn in Hn. lia.
  - unfold extension_bytes, add_link_extension, carried_extension. by rewrite Ex.
Qed.

Definition head_bytes (o : TreeOp) : list Z :=
  let enc := new_encoder kTreeOpDomain in
  let enc := add_u32 enc (op_version o) in
  let enc := add_digest enc (op_network_id o) in
  let enc := add_u16 enc (op_kind_value (op_kind o)) in
  let enc := add_string enc (op_target o) in
  let enc := add_u64 enc (op_base_version o) in
  let enc := add_u64 enc (op_signed_at o) in
  let enc := add_bytes enc (be_bytes 16 (op_nonce o)) in
  let enc := add_string enc (op_principal o) in
  let enc := add_string enc (op_author o) in
  add_u16 enc (source_value (ob_source (op_body o))).

Lemma encode_parts o :
  encode_tree_op o = head_bytes o ++ body_bytes o ++ extension_bytes (op_body o).
Proof.
  unfold encode_tree_op, op_encoder. cbv zeta.
  by rewrite add_link_extension_app, add_body_app, <-app_assoc.
Qed.

(** A reader that takes an encoding up to its end. *)
Definition reads_all {A : Type} (r : Reader A) (enc : list Z) (a : A) : Prop :=
  Z.of_nat (length enc) < two32 → r enc = Some (a, []).

Lemma reads_all_bind {A B} (r : Reader A) (k : A → Reader B) enc enc' a b :
  reads r enc a → reads_all (k a) enc' b → reads_all (r_bind r k) (enc ++ enc') b.
Proof.
  intros Hr Hk Hlen. rewrite length_app in Hlen. unfold r_bind. rewrite Hr by lia. apply Hk. lia.
Qed.

Lemma reads_all_step {A B} (r : Reader A) (k : A → Reader B) enc a b :
  reads r [] a → reads_all (k a) enc b → reads_all (r_bind r k) enc b.
Proof. intros Hr Hk. rewrite <-(app_nil_l enc). by eapply reads_all_bind. Qed.

Lemma op_kind_read kind : kind_of_op_value (op_kind_value kind) = Some kind.
Proof. by destruct kind. Qed.
Lemma source_read source : source_of_value (source_value source) = Some source.
Proof. by destruct source. Qed.
Lemma op_kind_u16 kind : is_u16 (op_kind_value kind).
Proof. by destruct kind. Qed.
Lemma source_u16 source : is_u16 (source_value source).
Proof. by destruct source. Qed.
#[export] Hint Resolve op_kind_u16 source_u16 : fields.

Lemma read_op_encoding o :
  op_fits o → reads_all read_op (encode_tree_op o) (carried_op o).
Proof.
  intros Ho. rewrite encode_parts. destruct (Ho) as [Hv Hn Hb Hs Hnn Hsrc _ _ _ _].
  unfold read_op, head_bytes, new_encoder, add_digest. cbv zeta. flat.
  pose proof (reads_fixed 32 _ Hn). pose proof (reads_fixed 16 _ Hnn).
  do 11 (eapply reads_all_bind; [solve [eauto with fields]|]).
  eapply reads_all_step; [apply reads_lift, op_kind_read|].
  eapply reads_all_step; [apply reads_lift, source_read|].
  rewrite Hsrc. replace (negb (kind_known (op_kind o))) with false by (by destruct (op_kind o)).
  eapply reads_all_bind; [by apply reads_body|]. intros Hlen.
  unfold r_bind. rewrite reads_extension by done. done.
Qed.

Lemma carried_encoding o : encode_tree_op (carried_op o) = encode_tree_op o.
Proof.
  rewrite !encode_parts. f_equal; [|f_equal].
  - unfold head_bytes, carried_op. cbn -[carried_body]. unfold carried_extension.
    destruct (ob_link_extension _); cbn -[carried_body]; by rewrite carried_body_source.
  - unfold body_bytes, add_body, carried_op, carried_extension, carried_body.
    cbn [op_body op_kind].
    by destruct (ob_link_extension (op_body o)), (ob_source (op_body o)) eqn:Es, (op_kind o);
      cbn; rewrite ?Es; cbn.
  - unfold carried_op. cbn [op_body]. unfold carried_extension.
    destruct (ob_link_extension (op_body o)) eqn:Ex.
    + rewrite (extension_flat (op_body o)) by done. rewrite extension_flat by done.
      cbn -[carried_body add_link_event]. by destruct (ob_invite_grant (op_body o)).
    + unfold extension_bytes, add_link_extension. rewrite Ex.
      replace (ob_link_extension _) with false; [done|].
      unfold carried_body. by destruct (ob_source (op_body o)), (op_kind o).
Qed.

(** Two ops with one encoding say the same. *)
Lemma encoding_injective o o' :
  op_fits o → op_fits o' → Z.of_nat (length (encode_tree_op o)) < two32 →
  encode_tree_op o = encode_tree_op o' → carried_op o = carried_op o'.
Proof.
  intros Ho Ho' Hlen E. pose proof (read_op_encoding o Ho Hlen) as R.
  rewrite E in R, Hlen. rewrite (read_op_encoding o' Ho' Hlen) in R. congruence.
Qed.

Lemma decode_node_encoding n :
  node_fits n → Z.of_nat (length (encode_tree_node n)) < two32 →
  decode_tree_node (encode_tree_node n) = Some n.
Proof.
  intros Hn Hlen. unfold decode_tree_node.
  assert (Hr : reads_all (_ <-- r_expect kTreeNodeDomain;; read_node) (encode_tree_node n) n).
  { unfold encode_tree_node, new_encoder. rewrite add_node_app, add_string_app, app_nil_l.
    eapply reads_all_bind; [apply reads_expect|]. intros Hl.
    rewrite <-(app_nil_r (add_node [] n)). by apply reads_node. }
  rewrite Hr by done. by rewrite bool_decide_eq_true_2.
Qed.

(** ** Batches *)

Section batches.
Context `{TextCodecLaws, Sodium}.

(** The op as its receiver reads it: the carried part and the id recomputed. *)
Definition received_op (o : TreeOp) : TreeOp :=
  carried_op o <| op_id := compute_op_id o |> <| op_signature := op_signature o |>.

(** An op with a signature text that the signer's own encoding gives. *)
Record sendable (o : TreeOp) : Prop := {
  sn_fits : op_fits o;
  sn_signed : ∃ s, is_signature s ∧ op_signature o = to_base64 (be_bytes 64 s);
}.

Lemma sendable_signature o :
  sendable o → ∃ s, is_signature s ∧ parse_signature (op_signature o) = Some s ∧
                    op_signature o = to_base64 (be_bytes 64 s).
Proof.
  intros [_ (s & Hs & Ht)]. exists s. split_and!; [done| |done].
  unfold parse_signature, from_base64. rewrite Ht. unfold to_base64.
  rewrite base64_round_trip by apply be_bytes_are_bytes. cbn.
  by rewrite be_value_bytes.
Qed.

Lemma decode_op_encoding o s :
  op_fits o → Z.of_nat (length (encode_tree_op o)) <= kMaxTreeOpEncodedBytes →
  op_signature o = to_base64 (be_bytes 64 s) →
  decode_tree_op (encode_tree_op o) s = Some (received_op o).
Proof.
  intros Ho Hlen Hs. unfold decode_tree_op. rewrite (proj2 (Z.ltb_ge _ _)) by done.
  rewrite read_op_encoding; [|done|unfold kMaxTreeOpEncodedBytes in Hlen; unfold two32; lia].
  rewrite carried_encoding, bool_decide_eq_true_2 by done. cbn [negb]. f_equal.
  unfold received_op. rewrite Hs. unfold compute_op_id.
  change (op_encoder ?x) with (encode_tree_op x). by rewrite carried_encoding.
Qed.

Lemma batch_bytes_cons acc o ops :
  foldl (λ total op, total + Z.of_nat (length (encode_tree_op op))) acc (o :: ops) =
  Z.of_nat (length (encode_tree_op o)) +
  foldl (λ total op, total + Z.of_nat (length (encode_tree_op op))) acc ops.
Proof.
  cbn [foldl]. revert acc. induction ops as [|p ops IH]; intros acc; cbn [foldl]; [lia|].
  rewrite <-IH. f_equal. lia.
Qed.

Lemma batch_bytes_nonneg ops : 0 <= tree_batch_op_bytes ops.
Proof.
  unfold tree_batch_op_bytes. induction ops as [|o ops IH]; [done|]. rewrite batch_bytes_cons. lia.
Qed.

Lemma decode_encode_ops ops acc :
  Forall sendable ops → 0 <= acc → acc + tree_batch_op_bytes ops <= kMaxTreeBatchOpBytes →
  ∃ bytes, encode_ops acc ops = Some bytes ∧
           decode_ops (length ops) acc bytes = Some (received_op <$> ops).
Proof.
  intros Hs. revert acc. induction Hs as [|o ops Ho _ IH]; intros acc Hacc Hb; [by exists []|].
  destruct (sendable_signature o Ho) as (s & Hs & Hp & Ht).
  unfold tree_batch_op_bytes in Hb. rewrite batch_bytes_cons in Hb. fold (tree_batch_op_bytes ops) in Hb.
  pose proof (batch_bytes_nonneg ops). set (e := encode_tree_op o) in *.
  destruct (IH (acc + Z.of_nat (length e))) as (out & He & Hd); [lia|lia|].
  eexists. cbn [encode_ops]. unfold tree_op_signature_bytes. rewrite Hp. cbn [mbind option_bind].
  fold e. rewrite (proj2 (Z.ltb_ge _ _)), He by lia. split; [done|].
  cbn [decode_ops length].
  assert (Hlen : Z.of_nat (length e) < 256 ^ 4) by (unfold kMaxTreeBatchOpBytes in Hb; lia).
  rewrite (proj2 (Nat.ltb_ge _ _)) by (rewrite !length_app, length_le_bytes; lia).
  rewrite take_app_length', drop_app_length' by (by rewrite length_le_bytes).
  rewrite le_value_bytes, Z.mod_small by (split; [lia|exact Hlen]).
  rewrite (proj2 (Z.ltb_ge _ _)) by lia.
  rewrite (proj2 (Z.ltb_ge _ _)) by (rewrite !length_app, length_be_bytes; lia).
  rewrite Nat2Z.id, take_app_length, drop_app_length.
  rewrite take_app_length', drop_app_length' by (by rewrite length_be_bytes).
  rewrite be_value_bytes by done. unfold e.
  rewrite decode_op_encoding; [|apply Ho| |done].
  - cbn [mbind option_bind]. fold e. by rewrite Hd.
  - fold e. unfold kMaxTreeOpEncodedBytes, kMaxTreeBatchOpBytes in *. lia.
Qed.

(** Bytes of a batch decode to the operations as the wire carries them. *)
Lemma encoded_batch_decodes batch bytes :
  Forall sendable batch → tree_batch_op_bytes batch <= kMaxTreeBatchOpBytes →
  encode_tree_batch batch = Some bytes → decode_tree_batch bytes = Some (received_op <$> batch).
Proof.
  intros Hs Hb. destruct (decode_encode_ops batch 0 Hs) as (out & He & Hd); [lia|lia|].
  unfold encode_tree_batch. case_bool_decide as Hne; [done|].
  destruct (Nat.ltb_spec kMaxTreeBatchOps (length batch)) as [|Hl]; [done|].
  cbn [orb]. rewrite He. cbn [mbind option_bind]. intros E. apply (inj Some) in E. subst bytes. unfold decode_tree_batch.
  rewrite (proj2 (Nat.ltb_ge _ _)) by (rewrite length_app, length_le_bytes; lia).
  rewrite take_app_length', drop_app_length' by (by rewrite length_le_bytes).
  rewrite le_value_bytes, Z.mod_small, Nat2Z.id by (unfold kMaxTreeBatchOps in Hl; cbn; lia).
  destruct batch as [|o batch]; [done|]. rewrite (proj2 (Nat.ltb_ge _ _)) by done. exact Hd.
Qed.

(** C31: A batch of operations goes over the wire unharmed: one that fits the
    limits is encoded, and the receiver decodes the same operations, each with
    the content its kind carries, its recomputed id and its signature. *)
Theorem batch_round_trip batch :
  Forall sendable batch → batch ≠ [] → (length batch <= kMaxTreeBatchOps)%nat →
  tree_batch_op_bytes batch <= kMaxTreeBatchOpBytes →
  ∃ bytes, encode_tree_batch batch = Some bytes ∧
           decode_tree_batch bytes = Some (received_op <$> batch).
Proof.
  intros Hs Hne Hl Hb. destruct (decode_encode_ops batch 0 Hs) as (out & He & _); [lia|lia|].
  assert (Henc : ∃ bytes, encode_tree_batch batch = Some bytes).
  { unfold encode_tree_batch. rewrite bool_decide_eq_false_2, (proj2 (Nat.ltb_ge _ _)) by done.
    cbn [orb]. rewrite He. by eexists. }
  destruct Henc as [bytes Henc]. exists bytes. split; [done|by apply encoded_batch_decodes].
Qed.
End batches.
