(* ===== verification/TreeFacts.v ===== *)
(** * Facts about the tree rules and plans

    The walks up the parent chain against the chain itself ([up]), the
    permissions of a node as a function of its assignment map, the reading
    of an overlay: what a plan leaves at each id, and the two loops over a block
    as runs of a step ([run_ops]). *)

From S2P Require Import Prelude SecurityPolicy CanonicalEncoding Json EligibilityStore TreeTypes LinkToken TreeRules TreeOps.
From S2P Require Import TreeValidation.

(** ** The parent chain *)

(** The id [k] steps above [id]; an empty id and a missing node end the chain. *)
Fixpoint up (nodes : NodeMap) (k : nat) (id : string) : option string :=
  if is_empty id then None
  else match k with
       | O => Some id
       | S k' => node ← nodes !! id; up nodes k' (tn_parent_id node)
       end.

Definition above (nodes : NodeMap) (id anc : string) : Prop := ∃ k, up nodes k id = Some anc.

Lemma up_0 nodes id : id ≠ ""%string → up nodes 0 id = Some id.
Proof. intros Hne. simpl. by rewrite (proj2 (is_empty_false id)). Qed.

Lemma up_S nodes k id node :
  id ≠ ""%string → nodes !! id = Some node → up nodes (S k) id = up nodes k (tn_parent_id node).
Proof. intros Hne Hn. simpl. by rewrite (proj2 (is_empty_false id)), Hn. Qed.

Lemma up_nonempty nodes k id anc : up nodes k id = Some anc → id ≠ ""%string.
Proof. destruct k; simpl; destruct (is_empty id) eqn:E; try done; by rewrite is_empty_false in E. Qed.

Lemma up_S_inv nodes k id anc :
  up nodes (S k) id = Some anc →
  ∃ node, nodes !! id = Some node ∧ up nodes k (tn_parent_id node) = Some anc.
Proof.
  simpl. destruct (is_empty id); [done|]. destruct (nodes !! id) as [node|]; [|done]. eauto.
Qed.

Lemma up_add nodes i j id mid :
  up nodes i id = Some mid → up nodes (i + j) id = up nodes j mid.
Proof.
  revert id. induction i as [|i IH]; intros id Hi.
  - simpl in Hi. destruct (is_empty id); [done|]. by injection Hi as ->.
  - pose proof (up_nonempty _ _ _ _ Hi) as Hne.
    apply up_S_inv in Hi as (node & Hn & Hi). cbn [Nat.add]. rewrite (up_S _ _ _ node) by done. eauto.
Qed.

(** The ids of a chain that have not been visited bound the fuel. *)
Lemma unvisited_step (nodes : NodeMap) visited id node :
  nodes !! id = Some node → id ∉ visited →
  (size (dom nodes ∖ ({[id]} ∪ visited)) < size (dom nodes ∖ visited))%nat.
Proof.
  intros Hn Hv. apply subset_size, strict_spec_alt. split; [set_solver|].
  intros E. apply elem_of_dom_2 in Hn. set_solver.
Qed.

Section climbs.
Context {A : Type} (nodes : NodeMap) (visit : string → option TreeNode → option A) (ended : A).

Lemma climb_sound fuel visited current :
  climb fuel nodes visit ended visited current = ended ∨
  ∃ id r, above nodes current id ∧ visit id (nodes !! id) = Some r ∧
          climb fuel nodes visit ended visited current = r.
Proof.
  revert visited current. induction fuel as [|fuel IH]; intros visited current; [by left|].
  cbn [climb]. destruct (is_empty current) eqn:Ee; [by left|]. cbn [orb].
  apply is_empty_false in Ee. case_bool_decide; [by left|].
  destruct (visit current (nodes !! current)) as [r|] eqn:Ev.
  { right. exists current, r. split; [|done]. exists O. by apply up_0. }
  destruct (nodes !! current) as [node|] eqn:En; [|by left].
  destruct (IH ({[current]} ∪ visited) (tn_parent_id node)) as [?|(id & r & [k Hk] & Hr & E)];
    [by left|]. right. exists id, r. split; [|done]. exists (S k). by rewrite (up_S _ _ _ node).
Qed.

Lemma climb_hits n fuel visited current id r :
  up nodes n current = Some id → visit id (nodes !! id) = Some r →
  (∀ m x, (m < n)%nat → up nodes m current = Some x → visit x (nodes !! x) = None) →
  (∀ i x, (i <= n)%nat → up nodes i current = Some x → x ∉ visited) →
  (size (dom nodes ∖ visited) < fuel)%nat →
  climb fuel nodes visit ended visited current = r.
Proof.
  revert fuel visited current. induction n as [|n IH]; intros fuel visited current Hup Hv Hmin Hnv Hf;
    pose proof (up_nonempty _ _ _ _ Hup) as Hne;
    (destruct fuel as [|fuel]; [lia|]); cbn [climb];
    rewrite (proj2 (is_empty_false current)) by done; cbn [orb];
    rewrite (bool_decide_eq_false_2 (current ∈ visited))
      by (apply (Hnv O); [lia|by apply up_0]).
  - rewrite up_0 in Hup by done. injection Hup as ->. by rewrite Hv.
  - rewrite (Hmin O current) by (lia || by apply up_0).
    pose proof Hup as (node & Hn & Hup')%up_S_inv. rewrite Hn.
    assert (Hcv : current ∉ visited) by (apply (Hnv O); [lia|by apply up_0]).
    apply IH; [done|done| | |].
    + intros m x Hm Hx. apply (Hmin (S m)); [lia|]. by rewrite (up_S _ _ _ node).
    + intros i x Hi Hx. rewrite elem_of_union, elem_of_singleton. intros [->|Hin].
      * assert (Hloop : up nodes (S i) current = Some current) by by rewrite (up_S _ _ _ node).
        assert (E : up nodes (n - i) current = Some id).
        { replace (S n) with (S i + (n - i))%nat in Hup by lia. by rewrite (up_add _ _ _ _ _ Hloop) in Hup. }
        rewrite (Hmin (n - i)%nat id) in Hv by (done || lia). done.
      * apply (Hnv (S i) x); [lia| |done]. by rewrite (up_S _ _ _ node).
    + pose proof (unvisited_step nodes visited current node Hn Hcv). lia.
Qed.

(** A hit on the chain is found, perhaps a nearer one. *)
Lemma climb_complete current id r :
  above nodes current id → visit id (nodes !! id) = Some r →
  ∃ id' r', above nodes current id' ∧ visit id' (nodes !! id') = Some r' ∧
            climb (loop_fuel nodes) nodes visit ended ∅ current = r'.
Proof.
  intros [n Hn] Hr. revert id r Hn Hr. induction n as [n IH] using lt_wf_ind. intros id r Hn Hr.
  destruct (decide (Exists (λ m, match up nodes m current with
                                 | Some x => match visit x (nodes !! x) with
                                             | Some _ => true | None => false end
                                 | None => false end = true) (seq 0 n))) as [Hex|Hno].
  - apply Exists_exists in Hex as (m & Hm%elem_of_seq & Hx).
    destruct (up nodes m current) as [x|] eqn:Ex; [|done].
    destruct (visit x (nodes !! x)) as [r'|] eqn:Er; [|done]. apply (IH m ltac:(lia) x r'); done.
  - exists id, r. split_and!; [by exists n|done|]. apply (climb_hits n _ _ _ id); [done..| | |].
    + intros m x Hm Hx. destruct (visit x (nodes !! x)) eqn:Er; [|done]. destruct Hno.
      apply Exists_exists. exists m. rewrite elem_of_seq. split; [lia|]. by rewrite Hx, Er.
    + set_solver.
    + unfold loop_fuel. rewrite difference_empty_L, size_dom. lia.
Qed.
End climbs.

Lemma at_or_under_spec nodes id anc : at_or_under nodes id anc = true ↔ above nodes id anc.
Proof.
  unfold at_or_under. split.
  - intros E. destruct (climb_sound nodes (λ id _, if String.eqb id anc then Some true else None) false
      (loop_fuel nodes) ∅ id) as [E'|(x & r & Hx & Hv & _)]; [congruence|].
    cbv beta in Hv. destruct (String.eqb_spec x anc) as [->|]; [done|done].
  - intros Ha. destruct (climb_complete nodes (λ id _, if String.eqb id anc then Some true else None)
      false id anc true Ha) as (x & r & _ & Hv & E).
    + cbv beta. by rewrite String.eqb_refl.
    + rewrite E. cbv beta in Hv. destruct (String.eqb x anc); congruence.
Qed.

Section permissions.
Context `{TextCodec}.

Definition is_admin (nodes : NodeMap) (signer id : string) : Prop :=
  ∃ node, nodes !! id = Some node ∧ signer_has_permission node signer PermAdmin = true.

Lemma admin_visit_spec signer id node r :
  admin_visit signer id node = Some r →
  r = Some id ∧ ∃ n, node = Some n ∧ signer_has_permission n signer PermAdmin = true.
Proof.
  unfold admin_visit. destruct node as [n|]; [|done].
  destruct (signer_has_permission n signer PermAdmin) eqn:E; [|done]. intros [= <-]. eauto.
Qed.

Lemma admin_anchor_sound nodes id signer anchor :
  admin_anchor nodes id signer = Some anchor → above nodes id anchor ∧ is_admin nodes signer anchor.
Proof.
  unfold admin_anchor. intros E.
  destruct (climb_sound nodes (admin_visit signer) None (loop_fuel nodes) ∅ id)
    as [E'|(x & r & Hx & (-> & n & Hn & Hp)%admin_visit_spec & E')]; [congruence|].
  rewrite E in E'. injection E' as ->. split; [done|]. by exists n.
Qed.

Lemma administers_spec nodes id signer :
  administers nodes id signer = true ↔ ∃ anchor, above nodes id anchor ∧ is_admin nodes signer anchor.
Proof.
  unfold administers. split.
  - destruct (admin_anchor nodes id signer) as [a|] eqn:E; [|done]. intros _. exists a.
    by apply admin_anchor_sound.
  - intros (a & Ha & node & Hn & Hp). unfold admin_anchor.
    destruct (climb_complete nodes (admin_visit signer) None id a (Some a) Ha)
      as (x & r & _ & (-> & _)%admin_visit_spec & ->); [|done].
    unfold admin_visit. by rewrite Hn, Hp.
Qed.

(** ** Permissions as a function of the assignment map *)

Definition grants (required : Z) (names : list string) : bool :=
  existsb (λ p, has_permission (permission_from_string p) required) names.

Lemma grants_elem required names :
  grants required names = true ↔
  ∃ p, p ∈ names ∧ has_permission (permission_from_string p) required = true.
Proof. unfold grants. rewrite existsb_exists. by setoid_rewrite list_elem_of_In. Qed.

Lemma signer_has_permission_spec n p r :
  signer_has_permission n p r = true ↔
  ∃ a, a ∈ tn_assignments n ∧ canonical_principal (management_pubkey a) = canonical_principal p ∧
       grants r (permissions a) = true.
Proof.
  unfold signer_has_permission. rewrite existsb_exists. setoid_rewrite andb_true_iff.
  setoid_rewrite same_principal_spec. by setoid_rewrite <-list_elem_of_In.
Qed.

Definition merge_entry (out : gmap string (list string)) (a : Assignment) : gmap string (list string) :=
  let key := canonical_principal (management_pubkey a) in
  <[ key := default [] (out !! key) ++ permissions a ]> out.

Lemma merged_lookup assignments out key name :
  name ∈ default [] (foldl merge_entry out assignments !! key) ↔
  name ∈ default [] (out !! key) ∨
  ∃ a, a ∈ assignments ∧ canonical_principal (management_pubkey a) = key ∧ name ∈ permissions a.
Proof.
  revert out. induction assignments as [|a rest IH]; intros out; cbn [foldl].
  - split; [by left|]. intros [?|(a & Ha & _)]; [done|]. by apply not_elem_of_nil in Ha.
  - rewrite IH. unfold merge_entry at 1. cbv zeta.
    assert (Hx : name ∈ default [] (<[canonical_principal (management_pubkey a) :=
        default [] (out !! canonical_principal (management_pubkey a)) ++ permissions a]> out !! key) ↔
      name ∈ default [] (out !! key) ∨
      (canonical_principal (management_pubkey a) = key ∧ name ∈ permissions a)).
    { destruct (decide (canonical_principal (management_pubkey a) = key)) as [E|Hne].
      - rewrite E, lookup_insert_eq. simpl. rewrite elem_of_app. naive_solver.
      - rewrite lookup_insert_ne by done. naive_solver. }
    rewrite Hx. setoid_rewrite elem_of_cons. naive_solver.
Qed.

(** What a key holds on a node is what the assignment map lists for it. *)
Lemma permission_of_map n p r :
  signer_has_permission n p r = true ↔
  grants r (default [] (assignment_map (tn_assignments n) !! canonical_principal p)) = true.
Proof.
  rewrite signer_has_permission_spec, grants_elem.
  assert (Hm : ∀ name, name ∈ default [] (assignment_map (tn_assignments n) !! canonical_principal p) ↔
    ∃ a, a ∈ tn_assignments n ∧ canonical_principal (management_pubkey a) = canonical_principal p ∧
         name ∈ permissions a).
  { intros name. unfold assignment_map. rewrite lookup_fmap. fold merge_entry.
    pose proof (merged_lookup (tn_assignments n) ∅ (canonical_principal p) name) as Hml.
    rewrite lookup_empty in Hml. simpl in Hml.
    destruct (foldl merge_entry ∅ (tn_assignments n) !! canonical_principal p) as [l|];
      simpl in *; rewrite ?elem_of_sort_unique, Hml, ?elem_of_nil;
      naive_solver. }
  split.
  - intros (a & Ha & Hc & (name & Hin & Hp)%grants_elem). exists name. rewrite Hm. eauto.
  - intros (name & (a & Ha & Hc & Hin)%Hm & Hp). exists a. rewrite grants_elem. eauto.
Qed.

Lemma same_map_same_permission n n' p r :
  assignment_map (tn_assignments n) = assignment_map (tn_assignments n') →
  signer_has_permission n p r = signer_has_permission n' p r.
Proof.
  intros E. apply eq_true_iff_eq. by rewrite !permission_of_map, E.
Qed.

Lemma permission_mono n n' p r :
  (∀ a, a ∈ tn_assignments n' → a ∈ tn_assignments n) →
  signer_has_permission n' p r = true → signer_has_permission n p r = true.
Proof. rewrite !signer_has_permission_spec. intros Hsub (a & Ha & ?). exists a. naive_solver. Qed.
End permissions.

(** * The scope of an account deletion

    The breadth-first search of [account_scope] against the closure it
    computes: the nodes the account owns and every node beneath one of them,
    root nodes excepted. *)

Section accounts.
Context `{TextCodec}.
Implicit Types (nodes : NodeMap) (doomed : gset string) (queue l : list string).

(** What a deletion takes, without the search. *)
Inductive doomed_by nodes (key : string) : string → Prop :=
  | doomed_owned id n : nodes !! id = Some n → owned key n = true → doomed_by nodes key id
  | doomed_child id n : nodes !! id = Some n → tn_type n ≠ Root →
      doomed_by nodes key (tn_parent_id n) → doomed_by nodes key id.

Lemma elem_of_sorted_ids nodes id : id ∈ sorted_ids nodes ↔ is_Some (nodes !! id).
Proof.
  unfold sorted_ids. rewrite elem_of_sort_strings, list_elem_of_fmap. split.
  - intros ([k n] & -> & Hin%elem_of_map_to_list). eauto.
  - intros [n Hn]. exists (id, n). by rewrite elem_of_map_to_list.
Qed.

Lemma node_at_lookup nodes id n : nodes !! id = Some n → node_at nodes id = n.
Proof. unfold node_at. by intros ->. Qed.

Lemma elem_of_children nodes id child :
  child ∈ takeable_children nodes id ↔
  ∃ n, nodes !! child = Some n ∧ tn_parent_id n = id ∧ tn_type n ≠ Root.
Proof.
  unfold takeable_children. rewrite list_elem_of_filter, elem_of_sorted_ids. split.
  - intros [[Hp Ht] [n Hn]]. rewrite (node_at_lookup _ _ n) in * by done. eauto.
  - intros (n & Hn & Hp & Ht). rewrite (node_at_lookup _ _ n) by done. eauto.
Qed.

Lemma enqueue_all l doomed queue :
  ∃ added, foldl enqueue (doomed, queue) l = (doomed ∪ list_to_set l, queue ++ added) ∧
    (∀ x, x ∈ added ↔ x ∈ l ∧ x ∉ doomed) ∧ NoDup added.
Proof.
  revert doomed queue. induction l as [|x l IH]; intros doomed queue.
  { exists []. cbn. rewrite union_empty_r_L, app_nil_r. split_and!; [done|set_solver|constructor]. }
  cbn [foldl]. unfold enqueue at 2. cbn [fst snd]. case_bool_decide as Hx.
  - destruct (IH doomed queue) as (added & -> & Ha & Hnd). exists added. split_and!; [| |done].
    + f_equal. apply set_eq. intros y. cbn [list_to_set]. clear Ha. set_solver.
    + intros y. rewrite Ha, elem_of_cons. clear Ha. naive_solver.
  - destruct (IH ({[x]} ∪ doomed) (queue ++ [x])) as (added & -> & Ha & Hnd). exists (x :: added).
    split_and!.
    + rewrite <-app_assoc. f_equal. apply set_eq. intros y. cbn [list_to_set]. clear Ha. set_solver.
    + intros y. rewrite !elem_of_cons, Ha, elem_of_union, elem_of_singleton. clear Ha.
      destruct (decide (y = x)) as [->|]; tauto.
    + constructor; [|done]. rewrite Ha. clear Ha. set_solver.
Qed.

(** Every queued id is in [doomed], and the children of the others are. *)
Record search_ok (children : string → list string) nodes doomed queue : Prop := mkSearchOk {
  so_queue : ∀ x, x ∈ queue → x ∈ doomed;
  so_nodes : ∀ x, x ∈ doomed → x ∈ dom nodes;
  so_done : ∀ x, x ∈ doomed → x ∈ queue ∨ ∀ c, c ∈ children x → c ∈ doomed;
}.

(** One turn of a search: the id that is taken leaves the queue, its new
    children join it at any place, and the measure goes down. *)
Lemma search_step (children : string → list string) nodes doomed id queue added queue' :
  (∀ c, c ∈ children id → c ∈ dom nodes) → search_ok children nodes doomed (id :: queue) →
  (∀ x, x ∈ added ↔ x ∈ children id ∧ x ∉ doomed) → NoDup added → queue' ≡ₚ queue ++ added →
  search_ok children nodes (doomed ∪ list_to_set (children id)) queue' ∧
  (length queue' + size (dom nodes ∖ (doomed ∪ list_to_set (children id)))
   <= length queue + size (dom nodes ∖ doomed))%nat.
Proof.
  intros Hdom [H1 H2 H3] Ha Hnd Hq. split; [split|].
  - intros x. rewrite Hq, elem_of_app. intros [Hx|[Hx _]%Ha]; [|set_solver].
    apply elem_of_union_l, H1. by right.
  - intros x [Hx|Hx%elem_of_list_to_set]%elem_of_union; eauto.
  - intros x Hx. rewrite Hq, elem_of_app. destruct (decide (x ∈ doomed)) as [Hd|Hd].
    + destruct (H3 x Hd) as [[->|Hin]%elem_of_cons|Hc]; [|by left; left|].
      * right. intros c Hc. set_solver.
      * right. intros c Hcx. apply elem_of_union_l. eauto.
    + left. right. apply Ha. set_solver.
  - rewrite Hq, length_app.
    assert (Hsz : (length added + size (dom nodes ∖ (doomed ∪ list_to_set (children id)))
                   <= size (dom nodes ∖ doomed))%nat); [|lia].
    rewrite <-(size_list_to_set (C := gset string) added) by done.
    rewrite <-size_union by set_solver. apply subseteq_size. intros x.
    rewrite elem_of_union, !elem_of_difference, elem_of_list_to_set, Ha. set_solver.
Qed.

Lemma takeable_dom nodes id c : c ∈ takeable_children nodes id → c ∈ dom nodes.
Proof. intros (n & Hn & _)%elem_of_children. by apply elem_of_dom_2 in Hn. Qed.

Lemma take_beneath_closed fuel nodes doomed queue :
  search_ok (takeable_children nodes) nodes doomed queue →
  (length queue + size (dom nodes ∖ doomed) <= fuel)%nat →
  search_ok (takeable_children nodes) nodes (take_beneath fuel nodes doomed queue) [].
Proof.
  revert doomed queue. induction fuel as [|fuel IH]; intros doomed [|id queue] Hok Hf; cbn [length] in Hf;
    [done|lia|done|].
  cbn [take_beneath].
  destruct (enqueue_all (takeable_children nodes id) doomed []) as (added & -> & Ha & Hnd).
  destruct (search_step _ nodes doomed id queue added (queue ++ added) (takeable_dom nodes id) Hok Ha Hnd)
    as [Hok' Hm]; [done|]. apply IH; [done|cbn [app] in *; lia].
Qed.

Lemma take_beneath_mono fuel nodes doomed queue : doomed ⊆ take_beneath fuel nodes doomed queue.
Proof.
  revert doomed queue. induction fuel as [|fuel IH]; intros doomed [|id queue]; [done..|].
  cbn [take_beneath]. destruct (enqueue_all (takeable_children nodes id) doomed []) as (added & -> & _).
  etrans; [|apply IH]. set_solver.
Qed.

Lemma take_beneath_sound fuel nodes key doomed queue x :
  (∀ y, y ∈ doomed → doomed_by nodes key y) → (∀ y, y ∈ queue → y ∈ doomed) →
  x ∈ take_beneath fuel nodes doomed queue → doomed_by nodes key x.
Proof.
  revert doomed queue. induction fuel as [|fuel IH]; intros doomed [|id queue] Hd Hq; [by apply Hd..|].
  cbn [take_beneath].
  destruct (enqueue_all (takeable_children nodes id) doomed []) as (added & -> & Ha & _).
  apply IH.
  - intros y [Hy|Hy%elem_of_list_to_set]%elem_of_union; [eauto|].
    apply elem_of_children in Hy as (n & Hn & Hp & Ht). eapply doomed_child; [done..|].
    rewrite Hp. apply Hd, Hq. by left.
  - intros y. rewrite app_nil_l, elem_of_app. intros [Hy|[Hy _]%Ha]; [|set_solver].
    apply elem_of_union_l, Hq. by right.
Qed.

Lemma elem_of_doomed nodes key id : id ∈ doomed_nodes nodes key ↔ doomed_by nodes key id.
Proof.
  unfold doomed_nodes. set (own := filter _ (sorted_ids nodes)).
  assert (Hown : ∀ x, x ∈ own ↔ ∃ n, nodes !! x = Some n ∧ owned key n = true).
  { intros x. unfold own. rewrite list_elem_of_filter, elem_of_sorted_ids. split.
    - intros [Ho [n Hn]]. rewrite (node_at_lookup _ _ n) in Ho by done. eauto.
    - intros (n & Hn & Ho). rewrite (node_at_lookup _ _ n) by done. eauto. }
  destruct (enqueue_all own ∅ []) as (added & -> & Ha & Hnd).
  assert (Hin : ∀ x, x ∈ added ↔ x ∈ own) by set_solver. rewrite app_nil_l, union_empty_l_L.
  split.
  - apply take_beneath_sound; [|set_solver]. intros y (n & Hn & Ho)%elem_of_list_to_set%Hown.
    by eapply doomed_owned.
  - assert (Hdom : ∀ x, x ∈ own → x ∈ dom nodes).
    { intros x (n & Hn & _)%Hown. by apply elem_of_dom_2 in Hn. }
    assert (Hclosed : search_ok (takeable_children nodes) nodes
      (take_beneath (loop_fuel nodes) nodes (list_to_set own) added) []).
    { apply take_beneath_closed.
      - split; intros x; rewrite ?elem_of_list_to_set, ?Hin; eauto.
      - unfold loop_fuel. rewrite <-size_dom, <-(size_list_to_set (C := gset string) added) by done.
        assert (Eq : list_to_set added = list_to_set (C := gset string) own) by set_solver.
        rewrite Eq, <-size_union by set_solver.
        etrans; [apply (subseteq_size _ (dom nodes)); set_solver|lia]. }
    induction 1 as [id n Hn Ho|id n Hn Ht _ IH].
    + apply (take_beneath_mono _ _ (list_to_set own)), elem_of_list_to_set, Hown. eauto.
    + destruct (so_done _ _ _ _ Hclosed _ IH) as [Hnil|Hc]; [by apply not_elem_of_nil in Hnil|].
      apply Hc, elem_of_children. eauto.
Qed.

Lemma doomed_not_root nodes key id :
  doomed_by nodes key id → ∃ n, nodes !! id = Some n ∧ tn_type n ≠ Root.
Proof.
  intros [id' n Hn Ho|id' n Hn Ht _]; exists n; split; try done.
  unfold owned in Ho. intros E. by rewrite E in Ho.
Qed.

Lemma elem_of_removed nodes principal id :
  canonical_principal principal ≠ ""%string →
  id ∈ removed (account_scope nodes principal) ↔
  doomed_by nodes (canonical_principal principal) id.
Proof.
  intros Hne. unfold account_scope. rewrite (proj2 (is_empty_false _)) by done. cbn [removed].
  by rewrite elem_of_sort_strings, elem_of_elements, elem_of_doomed.
Qed.

Lemma elem_of_swept nodes principal key :
  canonical_principal principal ≠ ""%string →
  key ∈ swept_keys (account_scope nodes principal) ↔
  key = canonical_principal principal ∨
  (key ≠ ""%string ∧
   (∃ id, doomed_by nodes (canonical_principal principal) id ∧ owner_of nodes id = key) ∧
   ∀ id n, nodes !! id = Some n → ¬ doomed_by nodes (canonical_principal principal) id →
           canonical_principal (tn_mgmt_pubkey n) ≠ key).
Proof.
  intros Hne. unfold account_scope. rewrite (proj2 (is_empty_false _)) by done. cbn [swept_keys].
  rewrite elem_of_sort_strings, elem_of_elements, elem_of_union, elem_of_singleton, elem_of_list_to_set,
    list_elem_of_filter, elem_of_list_to_set, !list_elem_of_fmap.
  setoid_rewrite elem_of_sort_strings. setoid_rewrite elem_of_elements.
  setoid_rewrite list_elem_of_filter. setoid_rewrite elem_of_doomed. setoid_rewrite elem_of_sorted_ids.
  split; (intros [->|Hk]; [by left|right]).
  - destruct Hk as [[Hk Hsur] (id & -> & Hid)]. split_and!; [done|eauto|].
    intros i n Hn Hnd E. apply Hsur. exists i. unfold owner_of. rewrite (node_at_lookup _ _ n Hn). eauto.
  - destruct Hk as (Hk & (id & Hid & <-) & Hsur). split_and!; [done| |eauto].
    intros (i & Ei & Hnd & [n Hn]). apply (Hsur i n Hn Hnd).
    unfold owner_of in *. by rewrite (node_at_lookup _ _ n Hn) in Ei.
Qed.
End accounts.

(** * What a plan leaves in the tree

    The overlay as a function from ids to nodes, the application of its
    effect, and the well-formedness of a tree ([tree_ok]) as a property of that
    function, kept by every edit the plans make. *)

#[local] Arguments written_node : simpl never.

(** ** Reading an overlay *)

Lemma ov_find_new nodes id : ov_find id (new_overlay nodes) = nodes !! id.
Proof. unfold ov_find. cbn. by rewrite lookup_empty. Qed.

Lemma ov_find_put_at k id c o :
  ov_find k (ov_put_at id c o) = if decide (k = id) then c else ov_find k o.
Proof.
  unfold ov_find, ov_put_at. cbn [changes_ base_]. rewrite lookup_insert.
  repeat case_decide; congruence.
Qed.

Lemma base_put_at id c o : base_ (ov_put_at id c o) = base_ o.
Proof. done. Qed.

Lemma base_edit id f o : base_ (ov_edit id f o) = base_ o.
Proof. unfold ov_edit. by destruct (ov_find id o). Qed.

Lemma ov_find_edit k id f o :
  ov_find k (ov_edit id f o) = if decide (k = id) then f <$> ov_find id o else ov_find k o.
Proof.
  unfold ov_edit. destruct (ov_find id o) as [n|] eqn:E.
  - rewrite ov_find_put_at. by case_decide.
  - case_decide as Hk; [by subst|done].
Qed.

Lemma ov_find_put k n o :
  ov_find k (ov_put n o) = if decide (k = tn_id n) then Some n else ov_find k o.
Proof. apply ov_find_put_at. Qed.

Lemma elem_of_ov_entries id n o : (id, n) ∈ ov_entries o ↔ ov_find id o = Some n.
Proof.
  unfold ov_entries, ov_find. rewrite elem_of_app, list_elem_of_omap, list_elem_of_filter.
  setoid_rewrite elem_of_map_to_list'. cbn [fst snd]. split.
  - intros [([k [m|]] & Hk & E)|[Hc Hb]]; cbn [fst snd] in *; simplify_eq; [by rewrite Hk|].
    by rewrite Hc.
  - destruct (changes_ o !! id) as [c|] eqn:Ec; intros E.
    + left. exists (id, c). cbn. split; [done|]. by rewrite E.
    + by right.
Qed.

Lemma elem_of_ov_nodes n o : n ∈ ov_nodes o ↔ ∃ id, ov_find id o = Some n.
Proof.
  unfold ov_nodes. rewrite list_elem_of_fmap. setoid_rewrite <-elem_of_ov_entries. split.
  - intros ([id m] & -> & Hin). by exists id.
  - intros [id Hin]. by exists (id, n).
Qed.

(** ** Applying the effect *)

Section apply.
Implicit Types (m : NodeMap) (ns : list TreeNode) (ids : list string).

Definition write_all_nodes ns m : NodeMap := foldl (λ m n, <[ tn_id n := n ]> m) m ns.
Definition remove_all_nodes ids m : NodeMap := foldl (λ m id, delete id m) m ids.

Lemma written_absent ns m id : id ∉ tn_id <$> ns → write_all_nodes ns m !! id = m !! id.
Proof.
  revert m. induction ns as [|n ns IH]; intros m Hid; [done|].
  rewrite fmap_cons, not_elem_of_cons in Hid. destruct Hid as [Hne Hid].
  cbn [write_all_nodes foldl]. fold (write_all_nodes ns (<[tn_id n:=n]> m)).
  by rewrite IH, lookup_insert_ne.
Qed.

Lemma written_present ns m n :
  NoDup (tn_id <$> ns) → n ∈ ns → write_all_nodes ns m !! tn_id n = Some n.
Proof.
  revert m. induction ns as [|x ns IH]; intros m Hnd Hin; [by apply not_elem_of_nil in Hin|].
  rewrite fmap_cons, NoDup_cons in Hnd. destruct Hnd as [Hx Hnd].
  cbn [write_all_nodes foldl]. fold (write_all_nodes ns (<[tn_id x:=x]> m)).
  apply elem_of_cons in Hin as [->|Hin]; [|by apply IH].
  by rewrite written_absent, lookup_insert_eq.
Qed.

Lemma removed_lookup ids m id :
  remove_all_nodes ids m !! id = if decide (id ∈ ids) then None else m !! id.
Proof.
  revert m. induction ids as [|x ids IH]; intros m; [done|].
  cbn [remove_all_nodes foldl]. fold (remove_all_nodes ids (delete x m)). rewrite IH.
  destruct (decide (id = x)) as [->|Hne].
  - rewrite lookup_delete_eq. repeat case_decide; set_solver.
  - rewrite lookup_delete_ne by done. repeat case_decide; set_solver.
Qed.
End apply.

(** The changes of an overlay in id order. *)
Definition ordered_changes (o : Overlay) : list (string * option TreeNode) :=
  merge_sort change_le (map_to_list (changes_ o)).

Lemma elem_of_ordered id c o : (id, c) ∈ ordered_changes o ↔ changes_ o !! id = Some c.
Proof.
  unfold ordered_changes. by rewrite merge_sort_Permutation, elem_of_map_to_list.
Qed.

Lemma NoDup_ordered o : NoDup (ordered_changes o).*1.
Proof.
  unfold ordered_changes. rewrite merge_sort_Permutation. apply NoDup_fst_map_to_list.
Qed.

Lemma elem_of_writes n o :
  n ∈ writes (ov_effect o) ↔
  ∃ id w, changes_ o !! id = Some (Some w) ∧ n = written_node (base_ o) id w.
Proof.
  cbn [writes ov_effect]. fold (ordered_changes o). rewrite list_elem_of_omap. split.
  - intros ([id [w|]] & Hin%elem_of_ordered & E); cbn in E; simplify_eq. eauto.
  - intros (id & w & Hin & ->). exists (id, Some w). by rewrite elem_of_ordered.
Qed.

Lemma elem_of_removals id o :
  id ∈ removals (ov_effect o) ↔ changes_ o !! id = Some None ∧ is_Some (base_ o !! id).
Proof.
  cbn [removals ov_effect]. fold (ordered_changes o). rewrite list_elem_of_omap. split.
  - intros ([k [w|]] & Hin%elem_of_ordered & E); cbn in E; [done|].
    destruct (base_ o !! k) eqn:Eb; simplify_eq. eauto.
  - intros [Hc [b Hb]]. exists (id, None). rewrite elem_of_ordered. cbn. by rewrite Hb.
Qed.

Lemma written_id base id w : tn_id (written_node base id w) = id.
Proof. done. Qed.

Lemma NoDup_writes o : NoDup (tn_id <$> writes (ov_effect o)).
Proof.
  cbn [writes ov_effect]. fold (ordered_changes o). pose proof (NoDup_ordered o) as Hnd.
  induction (ordered_changes o) as [|[id [w|]] l IH]; cbn; [constructor| |].
  - rewrite fmap_cons, NoDup_cons in Hnd. destruct Hnd as [Hid Hnd]. constructor; [|by apply IH].
    cbn [fst] in Hid. rewrite written_id. intros Hin. apply Hid.
    apply list_elem_of_fmap in Hin as (n & -> & Hn). apply list_elem_of_omap in Hn as ([k [v|]] & Hk & E);
      cbn in E; simplify_eq. apply list_elem_of_fmap. by exists (k, Some v).
  - rewrite fmap_cons, NoDup_cons in Hnd. apply IH, Hnd.
Qed.

Lemma apply_lookup o id :
  apply_effect (ov_effect o) (base_ o) !! id =
  match changes_ o !! id with
  | Some (Some n) => Some (written_node (base_ o) id n)
  | Some None => None
  | None => base_ o !! id
  end.
Proof.
  unfold apply_effect.
  change (remove_all_nodes (removals (ov_effect o)) (write_all_nodes (writes (ov_effect o)) (base_ o)) !! id
    = match changes_ o !! id with
      | Some (Some n) => Some (written_node (base_ o) id n)
      | Some None => None | None => base_ o !! id end).
  rewrite removed_lookup. destruct (changes_ o !! id) as [[n|]|] eqn:Ec.
  - rewrite decide_False by (rewrite elem_of_removals; naive_solver).
    rewrite <-(written_id (base_ o) id n) at 1. apply written_present; [apply NoDup_writes|].
    apply elem_of_writes. eauto.
  - case_decide as Hr; [done|]. rewrite written_absent.
    + rewrite elem_of_removals in Hr. destruct (base_ o !! id) eqn:Eb; [|done]. destruct Hr. eauto.
    + rewrite list_elem_of_fmap. intros (n & -> & (k & w & Hk & ->)%elem_of_writes).
      rewrite written_id in Ec. congruence.
  - rewrite decide_False by (rewrite elem_of_removals; naive_solver). apply written_absent.
    rewrite list_elem_of_fmap. intros (n & -> & (k & w & Hk & ->)%elem_of_writes).
    rewrite written_id in Ec. congruence.
Qed.

(** ** Well-formed trees *)

Definition with_version (v : Z) (n : TreeNode) : TreeNode := n <| tn_version := v |>.

Record tree_ok (find : string → option TreeNode) : Prop := mkTreeOk {
  ok_keyed : ∀ id n, find id = Some n → tn_id n = id ∧ id ≠ ""%string;
  ok_mesh : ∀ i j a b, find i = Some a → find j = Some b → tn_mesh_pubkey a = tn_mesh_pubkey b →
    tn_mesh_pubkey a ≠ ""%string → i = j;
  ok_identifier : ∀ i j a b, find i = Some a → find j = Some b →
    tn_endpoint_identifier a = tn_endpoint_identifier b → tn_endpoint_identifier a ≠ ""%string → i = j;
  ok_top : ∀ id n, find id = Some n → tn_parent_id n = ""%string ↔ id = "root"%string;
  ok_root_type : ∀ id n, find id = Some n → tn_type n = Root ↔ id = "root"%string;
  ok_rooted : ∀ id n, find id = Some n → is_Some (find "root"%string);
}.

Definition tree_wf (nodes : NodeMap) : Prop := tree_ok (λ id, nodes !! id).

Definition ov_ok (o : Overlay) : Prop := tree_ok (λ id, ov_find id o).

Lemma tree_ok_ext f g : (∀ id, f id = g id) → tree_ok f → tree_ok g.
Proof.
  intros E [H1 H2 H3 H4 H5 H6]. split; intros *; rewrite <-?E; eauto.
Qed.

Lemma ov_ok_new nodes : tree_wf nodes → ov_ok (new_overlay nodes).
Proof. apply tree_ok_ext. intros id. symmetry. apply ov_find_new. Qed.

Lemma tree_wf_empty : tree_wf ∅.
Proof. split; intros *; rewrite lookup_empty; done. Qed.

(** The tree after an overlay is the overlay's nodes, with new versions. *)
Lemma apply_find o id n' :
  (∀ i n, ov_find i o = Some n → tn_id n = i) →
  apply_effect (ov_effect o) (base_ o) !! id = Some n' →
  ∃ n v, ov_find id o = Some n ∧ n' = with_version v n.
Proof.
  intros Hkey. rewrite apply_lookup. pose proof (Hkey id) as Hk. unfold ov_find in *.
  destruct (changes_ o !! id) as [[n|]|]; [|done|].
  - intros [= <-]. specialize (Hk n eq_refl). exists n. eexists. split; [done|].
    unfold written_node, with_version. destruct n. cbn in *. by subst.
  - intros E. exists n', (tn_version n'). split; [done|]. by destruct n'.
Qed.

Lemma apply_find_none o id :
  apply_effect (ov_effect o) (base_ o) !! id = None ↔ ov_find id o = None.
Proof. rewrite apply_lookup. unfold ov_find. by destruct (changes_ o !! id) as [[n|]|]. Qed.

Lemma apply_ok o : ov_ok o → tree_wf (apply_effect (ov_effect o) (base_ o)).
Proof.
  intros Hok. assert (Hkey : ∀ i n, ov_find i o = Some n → tn_id n = i)
    by (intros i n Hn; by apply (ok_keyed _ Hok)).
  assert (Hf : ∀ i n, apply_effect (ov_effect o) (base_ o) !! i = Some n →
    ∃ m v, ov_find i o = Some m ∧ n = with_version v m) by (intros; by apply apply_find).
  destruct Hok as [H1 H2 H3 H4 H5 H6]. split; cbv beta in *.
  - intros id n (m & v & Hm & ->)%Hf. exact (H1 id m Hm).
  - intros i j a b (m & v & Hm & ->)%Hf (m' & v' & Hm' & ->)%Hf. exact (H2 i j m m' Hm Hm').
  - intros i j a b (m & v & Hm & ->)%Hf (m' & v' & Hm' & ->)%Hf. exact (H3 i j m m' Hm Hm').
  - intros id n (m & v & Hm & ->)%Hf. exact (H4 id m Hm).
  - intros id n (m & v & Hm & ->)%Hf. exact (H5 id m Hm).
  - intros id n (m & v & Hm & ->)%Hf. specialize (H6 id m Hm).
    destruct (apply_effect _ _ !! "root"%string) eqn:E; [done|].
    apply apply_find_none in E. rewrite E in H6. by destruct H6.
Qed.

(** An edit that keeps the identity fields of a node. *)
Definition keeps_identity (f : TreeNode → TreeNode) : Prop :=
  ∀ n, tn_id (f n) = tn_id n ∧ tn_parent_id (f n) = tn_parent_id n ∧ tn_type (f n) = tn_type n ∧
       tn_mesh_pubkey (f n) = tn_mesh_pubkey n ∧ tn_endpoint_identifier (f n) = tn_endpoint_identifier n.

Lemma edit_ok id f o : keeps_identity f → ov_ok o → ov_ok (ov_edit id f o).
Proof.
  intros Hf Hok.
  assert (Hg : ∀ i n, ov_find i (ov_edit id f o) = Some n → ∃ m, ov_find i o = Some m ∧
    tn_id n = tn_id m ∧ tn_parent_id n = tn_parent_id m ∧ tn_type n = tn_type m ∧
    tn_mesh_pubkey n = tn_mesh_pubkey m ∧ tn_endpoint_identifier n = tn_endpoint_identifier m).
  { intros i n. rewrite ov_find_edit. case_decide as Hi; [|intros ->; eauto 10]. subst i.
    destruct (ov_find id o) as [m|]; [|done]. intros [= <-]. exists m. split; [done|]. apply Hf. }
  assert (Hroot : is_Some (ov_find "root"%string o) → is_Some (ov_find "root"%string (ov_edit id f o))).
  { rewrite ov_find_edit. case_decide as Hi; [|done]. rewrite <-Hi. intros [m ->]. eauto. }
  destruct Hok as [H1 H2 H3 H4 H5 H6]. split; cbv beta in *.
  - intros i n (m & Hm & -> & _)%Hg. exact (H1 i m Hm).
  - intros i j a b (m & Hm & Em)%Hg (m' & Hm' & Em')%Hg. destruct Em as (_ & _ & _ & -> & _),
      Em' as (_ & _ & _ & -> & _). exact (H2 i j m m' Hm Hm').
  - intros i j a b (m & Hm & Em)%Hg (m' & Hm' & Em')%Hg. destruct Em as (_ & _ & _ & _ & ->),
      Em' as (_ & _ & _ & _ & ->). exact (H3 i j m m' Hm Hm').
  - intros i n (m & Hm & _ & -> & _)%Hg. exact (H4 i m Hm).
  - intros i n (m & Hm & _ & _ & -> & _)%Hg. exact (H5 i m Hm).
  - intros i n (m & Hm & _)%Hg. exact (Hroot (H6 i m Hm)).
Qed.

(** A removal of a node other than the root. *)
Lemma erase_ok id o : id ≠ "root"%string → ov_ok o → ov_ok (ov_erase id o).
Proof.
  intros Hid Hok.
  assert (Hg : ∀ i n, ov_find i (ov_erase id o) = Some n → ov_find i o = Some n).
  { intros i n. unfold ov_erase. rewrite ov_find_put_at. by case_decide. }
  destruct Hok as [H1 H2 H3 H4 H5 H6]. split; cbv beta in *.
  - intros i n Hi%Hg. exact (H1 i n Hi).
  - intros i j m n Hi%Hg Hj%Hg. exact (H2 i j m n Hi Hj).
  - intros i j m n Hi%Hg Hj%Hg. exact (H3 i j m n Hi Hj).
  - intros i n Hi%Hg. exact (H4 i n Hi).
  - intros i n Hi%Hg. exact (H5 i n Hi).
  - intros i n Hi%Hg. unfold ov_erase. rewrite ov_find_put_at, decide_False by done. exact (H6 i n Hi).
Qed.

(** A record put at its id: its keys belong to no other node. *)
Record put_wf (n : TreeNode) (o : Overlay) : Prop := mkPutWf {
  pw_id : tn_id n ≠ ""%string;
  pw_mesh : ∀ i m, ov_find i o = Some m → i ≠ tn_id n → tn_mesh_pubkey m = tn_mesh_pubkey n →
    tn_mesh_pubkey n = ""%string;
  pw_identifier : ∀ i m, ov_find i o = Some m → i ≠ tn_id n →
    tn_endpoint_identifier m = tn_endpoint_identifier n → tn_endpoint_identifier n = ""%string;
  pw_top : tn_parent_id n = ""%string ↔ tn_id n = "root"%string;
  pw_type : tn_type n = Root ↔ tn_id n = "root"%string;
  pw_rooted : tn_id n = "root"%string ∨ is_Some (ov_find "root"%string o);
}.

Lemma put_ok n o : put_wf n o → ov_ok o → ov_ok (ov_put n o).
Proof.
  intros [P1 P2 P3 P4 P5 P6] [H1 H2 H3 H4 H5 H6]. split; cbv beta in *; intros *;
    rewrite ?ov_find_put; repeat case_decide; intros; simplify_eq; eauto.
  - destruct (decide (j = tn_id a)) as [->|]; [done|]. edestruct P2; eauto; congruence.
  - destruct (decide (i = tn_id b)) as [->|]; [done|]. edestruct P2; eauto; congruence.
  - destruct (decide (j = tn_id a)) as [->|]; [done|]. edestruct P3; eauto; congruence.
  - destruct (decide (i = tn_id b)) as [->|]; [done|]. edestruct P3; eauto; congruence.
  - destruct P6; [congruence|done].
Qed.

Lemma foldl_preserves {A B : Type} (P : B → Prop) (f : B → A → B) l b :
  (∀ b x, P b → P (f b x)) → P b → P (foldl f b l).
Proof. intros Hf. revert b. induction l; simpl; eauto. Qed.

(** ** Blocks as folds

    The two loops of a block as one fold over its steps. *)

Section blocks.
Context `{TextCodec, HexCodec, Sodium, SodiumMessages, FloatText}.

(** The ops in order; a refusal carries the index of the op. *)
Fixpoint run_ops (step : TreeOp → TreeChainState →
                         (TreeOpRefusal * string) + (TreeChainState * TreeOpEffect))
    (ops : list TreeOp) (i : nat) (state : TreeChainState)
    : (nat * (TreeOpRefusal * string)) + (TreeChainState * list TreeOpEffect) :=
  match ops with
  | [] => inr (state, [])
  | op :: rest =>
      match step op state with
      | inl r => inl (i, r)
      | inr (state, effect) =>
          match run_ops step rest (S i) state with
          | inl r => inl r
          | inr (state, effects) => inr (state, effect :: effects)
          end
      end
  end.

Definition run_block (step : TreeOp → TreeChainState →
                             (TreeOpRefusal * string) + (TreeChainState * TreeOpEffect))
    (batch : TreeBatch) (block_time_ms : Z) (ops_digest : Digest) (state : TreeChainState)
    : (nat * (TreeOpRefusal * string)) + (TreeChainState * list TreeOpEffect) :=
  match batch_shape batch block_time_ms state with
  | Some r => inl (O, r)
  | None =>
      match run_ops step batch O state with
      | inl r => inl r
      | inr (next, effects) => inr (finish_block next block_time_ms ops_digest, effects)
      end
  end.


Lemma certified_loop_run ops : ∀ i s effects,
  certified_loop ops i s effects =
  match run_ops step_op ops i s with inl r => inl r | inr (s', more) => inr (s', effects ++ more) end.
Proof.
  induction ops as [|op ops IH]; intros i s effects; cbn [certified_loop run_ops]; [by rewrite app_nil_r|].
  unfold step_op at 1. destruct (plan_op op (ch_nodes s)) as [|e]; [done|]. cbv zeta. rewrite IH.
  destruct (run_ops step_op ops _ _) as [|[s' more]]; [done|]. by rewrite <-app_assoc.
Qed.

Lemma check_loop_run policy t ops : ∀ i s effects,
  check_loop policy t ops i s effects =
  match run_ops (checked_step policy t) ops i s with inl r => inl r | inr (s', more) => inr (s', effects ++ more) end.
Proof.
  induction ops as [|op ops IH]; intros i s effects; cbn [check_loop run_ops]; [by rewrite app_nil_r|].
  unfold checked_step at 1, step_op at 1. destruct (validate_op _ _ _ _ _); [done|].
  destruct (plan_op op (ch_nodes s)) as [|e]; [done|]. cbv zeta. rewrite IH.
  destruct (run_ops (checked_step policy t) ops _ _) as [|[s' more]]; [done|]. by rewrite <-app_assoc.
Qed.

Lemma apply_certified_batch_run batch t d s : apply_certified_batch batch t d s = run_block step_op batch t d s.
Proof.
  unfold apply_certified_batch, run_block. rewrite certified_loop_run.
  by destruct (run_ops step_op batch O s) as [|[]].
Qed.

Lemma check_batch_run policy batch t d s :
  check_batch policy batch t d s = run_block (checked_step policy (t / 1000)) batch t d s.
Proof.
  unfold check_batch, run_block. cbv zeta. rewrite check_loop_run.
  by destruct (run_ops (checked_step _ _) batch O s) as [|[]].
Qed.
End blocks.
