(* ===== verification/TreeInvariants.v ===== *)
(** * Accepted operations keep the tree well formed

    What each step of [validate_op] establishes, and that the plan of an
    accepted operation leaves a well-formed tree. *)

From S2P Require Import Prelude SecurityPolicy CanonicalEncoding Json EligibilityStore.
From S2P Require Import TreeTypes LinkToken TreeRules TreeOps TreeValidation TreeFacts.

(** ** The steps of a validation *)

Lemma and_then_none a b : a ⊳ b = None ↔ a = None ∧ b = None.
Proof. unfold and_then. destruct a; naive_solver. Qed.

Lemma refuse_when_none bad r s : refuse_when bad r s = None ↔ bad = false.
Proof. unfold refuse_when. by destruct bad. Qed.

Section invariants.
Context `{TextCodec, HexCodec, Sodium, SodiumMessages, FloatText}.

(** What an accepted operation passed. *)
Record accepted (op : TreeOp) (nodes : NodeMap) (policy : TreeOpPolicy) (t : Z)
    (committed : CommittedOpIds) : Prop := mkAccepted {
  ac_format : format_verdict op = None;
  ac_binding : binding_verdict op policy = None;
  ac_author : author_verdict op policy = None;
  ac_fresh : freshness_verdict op t = None;
  ac_replay : replay_verdict op committed = None;
  ac_statement : statement_verdict op = None;
  ac_grant : grant_verdict op policy t = None;
  ac_version : version_verdict op nodes = None;
  ac_rule : rule_verdict op nodes policy = None;
  ac_plan : plan_verdict op nodes = None;
}.

Lemma validate_op_accepted op nodes policy t committed :
  validate_op op nodes policy t committed = None ↔ accepted op nodes policy t committed.
Proof.
  unfold validate_op. rewrite !and_then_none. split.
  - by intros (? & ? & ? & ? & ? & ? & ? & ? & ? & ?).
  - by intros [].
Qed.

(** The step the operation's node records go through: an id that is not empty. *)
Lemma accepted_target op nodes policy t committed :
  accepted op nodes policy t committed → op_target op ≠ ""%string.
Proof.
  intros Hac. pose proof (ac_format _ _ _ _ _ Hac) as Hf. unfold format_verdict in Hf.
  rewrite !and_then_none, !refuse_when_none in Hf. destruct Hf as (_ & _ & _ & Ht & _).
  by apply is_empty_false.
Qed.

Lemma taken_false (field : TreeNode → string) value own o :
  (if is_empty value then false
   else existsb (λ n, negb (String.eqb (tn_id n) own) && String.eqb (field n) value) (ov_nodes o))
  = false →
  (∀ i n, ov_find i o = Some n → tn_id n = i) →
  ∀ i m, ov_find i o = Some m → i ≠ own → field m = value → value = ""%string.
Proof.
  intros Ht Hkey i m Hi Hne Hv. destruct (is_empty value) eqn:Ee; [by apply is_empty_spec|].
  exfalso. apply not_true_iff_false in Ht. apply Ht, existsb_exists. exists m. split.
  - apply list_elem_of_In, elem_of_ov_nodes. eauto.
  - rewrite (Hkey i m Hi), Hv, String.eqb_refl, andb_true_r, negb_true_iff. by apply String.eqb_neq.
Qed.

Lemma mesh_free mesh own o :
  mesh_taken mesh own o = false → ov_ok o →
  ∀ i m, ov_find i o = Some m → i ≠ own → tn_mesh_pubkey m = mesh → mesh = ""%string.
Proof. intros Ht Hok. apply (taken_false tn_mesh_pubkey _ _ _ Ht). intros i n Hn. by apply Hok. Qed.

Lemma identifier_free identifier own o :
  identifier_taken identifier own o = false → ov_ok o →
  ∀ i m, ov_find i o = Some m → i ≠ own → tn_endpoint_identifier m = identifier →
  identifier = ""%string.
Proof. intros Ht Hok. apply (taken_false tn_endpoint_identifier _ _ _ Ht). intros i n Hn. by apply Hok. Qed.

(** ** The record of a create and of an update *)

Lemma is_type_spec a b : is_type a b = true ↔ a = b.
Proof. unfold is_type. apply bool_decide_eq_true. Qed.
Lemma is_type_false a b : is_type a b = false ↔ a ≠ b.
Proof. unfold is_type. apply bool_decide_eq_false. Qed.

Lemma content_verdict_none op nodes operation data :
  content_verdict op nodes operation data = None ↔
  delta_content_refusal nodes (content_delta op operation data) = None.
Proof. unfold content_verdict. by destruct (delta_content_refusal _ _). Qed.

Lemma create_content op nodes policy t committed :
  accepted op nodes policy t committed → op_kind op = CreateNode →
  ∃ d, td_node_data d = op_node op ∧ create_refusal nodes d = None.
Proof.
  intros Hac Hk. pose proof (ac_rule _ _ _ _ _ Hac) as Hr. pose proof (ac_statement _ _ _ _ _ Hac) as Hs.
  unfold rule_verdict in Hr. rewrite Hk in Hr. destruct (nodes !! _) as [parent|]; [|done].
  rewrite and_then_none, content_verdict_none in Hr. destruct Hr as [_ Hr].
  unfold content_delta, op_node, statement_verdict in *. destruct (ob_source (op_body op)) eqn:Es.
  - by exists (mkDelta "create_node" (op_target op) (ob_node (op_body op)) (op_principal op) "" 0).
  - unfold delta_verdict, delta_kind_matches in Hs. rewrite Hk in Hs.
    rewrite !and_then_none, !refuse_when_none, negb_false_iff in Hs.
    destruct Hs as [Eop _]. apply String.eqb_eq in Eop. unfold delta_content_refusal in Hr.
    rewrite Eop in Hr. by exists (ob_delta (op_body op)).
  - by exists (mkDelta "create_node" (op_target op) (ob_node (op_body op)) (op_principal op) "" 0).
Qed.

Lemma edit_operation operation :
  required_permission_for operation = PermEditNode →
  String.eqb operation "delete_node" = false ∧ String.eqb operation "create_node" = false.
Proof.
  unfold required_permission_for. destruct (String.eqb operation "create_node"); [done|].
  destruct (_ || _) eqn:E.
  - intros _. destruct (String.eqb_spec operation "delete_node") as [->|]; [by vm_compute in E|done].
  - destruct (String.eqb operation "delete_node"); [done|]. done.
Qed.

Lemma update_content op nodes policy t committed current :
  accepted op nodes policy t committed → op_kind op = UpdateFields →
  nodes !! op_target op = Some current →
  ∃ d, td_node_data d = op_node op ∧ td_signer_pubkey d = op_principal op ∧
       update_refusal nodes current d = None.
Proof.
  intros Hac Hk Hn. pose proof (ac_rule _ _ _ _ _ Hac) as Hr.
  pose proof (ac_statement _ _ _ _ _ Hac) as Hs.
  unfold rule_verdict, on_target in Hr. rewrite Hk, Hn in Hr.
  rewrite and_then_none, content_verdict_none in Hr. destruct Hr as [_ Hr].
  unfold content_delta, op_node, statement_verdict in *. destruct (ob_source (op_body op)) eqn:Es.
  - unfold delta_content_refusal in Hr. cbn in Hr. rewrite Hn in Hr.
    by exists (mkDelta "update_node" (op_target op) (ob_node (op_body op)) (op_principal op) "" 0).
  - unfold delta_verdict, delta_kind_matches in Hs. rewrite Hk in Hs.
    rewrite bool_decide_eq_false_2 in Hs by done.
    rewrite !and_then_none, !refuse_when_none, !negb_false_iff in Hs.
    destruct Hs as (Eop & Et & Ep & _). apply Z.eqb_eq, edit_operation in Eop as [E1 E2].
    apply String.eqb_eq in Et, Ep. unfold delta_content_refusal in Hr.
    rewrite E1, E2, <-Et, Hn in Hr. by exists (ob_delta (op_body op)).
  - unfold delta_content_refusal in Hr. cbn in Hr. rewrite Hn in Hr.
    by exists (mkDelta "update_node" (op_target op) (ob_node (op_body op)) (op_principal op) "" 0).
Qed.

Lemma delete_content op nodes policy t committed node :
  accepted op nodes policy t committed → op_kind op = DeleteNode →
  nodes !! op_target op = Some node → tn_parent_id node ≠ ""%string.
Proof.
  intros Hac Hk Hn. pose proof (ac_rule _ _ _ _ _ Hac) as Hr.
  pose proof (ac_statement _ _ _ _ _ Hac) as Hs.
  unfold rule_verdict, on_target in Hr. rewrite Hk, Hn in Hr.
  rewrite and_then_none, content_verdict_none in Hr. destruct Hr as [_ Hr].
  assert (E : delta_content_refusal nodes (mkDelta "delete_node" (op_target op) new_node "" "" 0) = None).
  { unfold content_delta, statement_verdict in *. destruct (ob_source (op_body op)); [done| |done].
    unfold delta_verdict, delta_kind_matches in Hs. rewrite Hk in Hs.
    rewrite bool_decide_eq_false_2 in Hs by done.
    rewrite !and_then_none, !refuse_when_none, !negb_false_iff in Hs.
    destruct Hs as (Eop & Et & _). apply String.eqb_eq in Eop, Et.
    unfold delta_content_refusal in *. rewrite Eop, <-Et in Hr. exact Hr. }
  unfold delta_content_refusal in E. cbn in E. rewrite Hn in E.
  destruct (is_empty (tn_parent_id node)) eqn:Ee; [done|]. by apply is_empty_false.
Qed.

Lemma update_refusal_identity nodes current d :
  update_refusal nodes current d = None →
  let data := td_node_data d in
  tn_id data = tn_id current ∧ tn_parent_id data = tn_parent_id current ∧
  tn_type data = tn_type current ∧
  canonical_principal (tn_mgmt_pubkey data) = canonical_principal (tn_mgmt_pubkey current) ∧
  tn_endpoint_identifier data = tn_endpoint_identifier current.
Proof.
  unfold update_refusal. cbv zeta.
  destruct (String.eqb_spec (tn_id (td_node_data d)) (tn_id current)); [|done].
  destruct (String.eqb_spec (tn_parent_id (td_node_data d)) (tn_parent_id current)); [|done].
  destruct (is_type (tn_type (td_node_data d)) (tn_type current)) eqn:Et; [|done].
  destruct (same_principal (tn_mgmt_pubkey (td_node_data d)) (tn_mgmt_pubkey current)) eqn:Em; [|done].
  destruct (String.eqb_spec (tn_endpoint_identifier (td_node_data d)) (tn_endpoint_identifier current));
    [|done]. intros _. split_and!; try done; [by apply is_type_spec|by apply same_principal_spec].
Qed.

(** ** Plans that keep the tree well formed *)

(** A plan over [nodes] that leaves a well-formed overlay. *)
Definition plan_good (nodes : NodeMap) (o : Overlay) : Prop := base_ o = nodes ∧ ov_ok o.

Lemma good_new nodes : tree_wf nodes → plan_good nodes (new_overlay nodes).
Proof. intros Hwf. split; [done|by apply ov_ok_new]. Qed.

Lemma good_edit nodes id f o : keeps_identity f → plan_good nodes o → plan_good nodes (ov_edit id f o).
Proof. intros Hf [Hb Hok]. split; [by rewrite base_edit|by apply edit_ok]. Qed.

Lemma good_put nodes n o : put_wf n o → plan_good nodes o → plan_good nodes (ov_put n o).
Proof. intros Hp [Hb Hok]. split; [done|by apply put_ok]. Qed.

Lemma good_erase nodes id o : id ≠ "root"%string → plan_good nodes o → plan_good nodes (ov_erase id o).
Proof. intros Hp [Hb Hok]. split; [done|by apply erase_ok]. Qed.

Lemma good_sweep nodes drop keep o id : plan_good nodes o → plan_good nodes (sweep_node drop keep o id).
Proof.
  intros Hg. unfold sweep_node. destruct (ov_find id o); [|done]. destruct (_ || _); [done|].
  by apply good_edit.
Qed.

Lemma grant_link_identity p : keeps_identity (λ n, grant_link_peer_access n p).
Proof. intros n. unfold grant_link_peer_access. by destruct (negb _). Qed.

Lemma grant_once_identity g : keeps_identity (grant_once g).
Proof. intros n. unfold grant_once. by destruct (has_exact_key _ _). Qed.

Lemma good_grant_sibling nodes op o id : plan_good nodes o → plan_good nodes (grant_sibling op o id).
Proof.
  intros Hg. unfold grant_sibling. cbv zeta. destruct (String.eqb id _); [done|].
  destruct (ov_find id o) as [sibling|]; [|done]. destruct (negb _); [done|].
  destruct (ob_link_extension _).
  - destruct (negb (is_empty _)), (link_peer_access_missing _ _);
      repeat (apply good_edit; [apply grant_link_identity|]); done.
  - destruct (negb (is_empty _)), (negb (has_exact_key _ _));
      repeat (apply good_edit; [apply grant_once_identity|]); done.
Qed.

Lemma good_upgrade nodes id norm o : plan_good nodes o → plan_good nodes (upgrade_owner id norm o).
Proof.
  intros Hg. unfold upgrade_owner. destruct (ov_find id o); [|done].
  destruct (_ && _); [|done]. by apply good_edit.
Qed.

Lemma good_group_read nodes id norm o : plan_good nodes o → plan_good nodes (grant_group_read id norm o).
Proof.
  intros Hg. unfold grant_group_read. destruct (ov_find id o); [|done].
  destruct (negb _); [|done]. apply good_edit; [apply grant_once_identity|done].
Qed.

Lemma create_refusal_shape nodes d :
  create_refusal nodes d = None →
  tn_type (td_node_data d) ≠ Root ∧ tn_parent_id (td_node_data d) ≠ ""%string.
Proof.
  unfold create_refusal. cbv zeta. destruct (is_type _ Root) eqn:Et; [done|].
  destruct (is_empty (tn_parent_id _)) eqn:Ee; [done|]. intros _.
  by rewrite <-is_type_false, <-is_empty_false.
Qed.

Lemma good_create nodes policy t committed op o :
  accepted op nodes policy t committed → op_kind op = CreateNode → tree_wf nodes →
  plan_create op (new_overlay nodes) = inr o → plan_good nodes o.
Proof.
  intros Hac Hk Hwf. pose proof (accepted_target _ _ _ _ _ Hac) as Htne.
  destruct (create_content _ _ _ _ _ Hac Hk) as (d & Ed & [Hty Hp]%create_refusal_shape).
  rewrite Ed in Hty, Hp. pose proof (ov_ok_new _ Hwf) as Hok.
  unfold plan_create. cbv zeta. destruct (ov_find (op_target op) _) eqn:Ef; [done|].
  destruct (_ || _) eqn:Epar; [done|]. apply orb_false_iff in Epar as [_ Epar].
  apply negb_false_iff, bool_decide_eq_true in Epar as [parent Hparent].
  destruct (identifier_taken _ _ _) eqn:Ei; [done|]. destruct (mesh_taken _ _ _) eqn:Em; [done|].
  destruct (if is_type _ _ then _ else _); [done|]. intros [= <-].
  pose proof (ok_rooted _ Hok _ _ Hparent) as [root Hroot]. cbv beta in Hroot.
  assert (Hnr : op_target op ≠ "root"%string) by (intros E; by rewrite E, Hroot in Ef).
  apply good_put; [|by apply good_new]. split; cbn; try done.
  - exact (mesh_free _ _ _ Em Hok).
  - exact (identifier_free _ _ _ Ei Hok).
  - right. eauto.
Qed.

Lemma good_update nodes policy t committed op o :
  accepted op nodes policy t committed → op_kind op = UpdateFields → tree_wf nodes →
  plan_update op (new_overlay nodes) = inr o → plan_good nodes o.
Proof.
  intros Hac Hk Hwf. pose proof (accepted_target _ _ _ _ _ Hac) as Htne. pose proof (ov_ok_new _ Hwf) as Hok.
  unfold plan_update. cbv zeta. destruct (ov_find (op_target op) _) as [before|] eqn:Ef; [|done].
  pose proof Ef as Hn. rewrite ov_find_new in Hn.
  destruct (update_content _ _ _ _ _ _ Hac Hk Hn) as (d & Ed & _ & Hu%update_refusal_identity).
  cbv zeta in Hu. rewrite Ed in Hu. destruct Hu as (E1 & E2 & E3 & _ & E5).
  destruct (mesh_taken _ _ _) eqn:Em; [done|]. destruct (if _ && _ then _ else _); [done|].
  intros [= <-]. apply good_put; [|by apply good_new].
  pose proof (ok_top _ Hok _ _ Ef) as Ht. pose proof (ok_root_type _ Hok _ _ Ef) as Hrt. split; cbn; try done.
  - exact (mesh_free _ _ _ Em Hok).
  - intros i m Hi Hne E. destruct (decide (tn_endpoint_identifier (op_node op) = ""%string)) as [?|Hx]; [done|].
    destruct Hne. apply (ok_identifier _ Hok i (op_target op) m before Hi Ef); congruence.
  - by rewrite E2.
  - by rewrite E3.
  - right. exact (ok_rooted _ Hok _ _ Ef).
Qed.

Lemma good_delete nodes policy t committed op o :
  accepted op nodes policy t committed → op_kind op = DeleteNode → tree_wf nodes →
  plan_delete_node op (new_overlay nodes) = inr o → plan_good nodes o.
Proof.
  intros Hac Hk Hwf. unfold plan_delete_node. cbv zeta.
  destruct (ov_find (op_target op) _) as [doomed|] eqn:Ef; [|done].
  rewrite ov_find_new in Ef. pose proof (delete_content _ _ _ _ _ _ Hac Hk Ef) as Hp.
  assert (Hnr : op_target op ≠ "root"%string).
  { intros E. apply Hp, (ok_top _ Hwf _ _ Ef), E. }
  destruct (is_empty _).
  - intros [= <-]. by apply good_erase, good_new.
  - intros [= <-]. apply foldl_preserves; [intros; by apply good_sweep|]. by apply good_erase, good_new.
Qed.

(** An edit of a present node is a put of the edited record. *)
Lemma edit_is_put id f o n :
  ov_find id o = Some n → tn_id (f n) = id → ov_edit id f o = ov_put (f n) o.
Proof. intros Hn Hid. unfold ov_edit, ov_put. by rewrite Hn, Hid. Qed.

Lemma new_customer_wf op o :
  is_Some (ov_find "root"%string o) → put_wf (new_customer op) o.
Proof. intros Hroot. split; cbn; try done. by right. Qed.

Lemma good_place nodes op existing o customer_id o' :
  plan_good nodes o → is_Some (ov_find "root"%string o) →
  place_join op existing o = inr (customer_id, o') → plan_good nodes o'.
Proof.
  intros Hg Hroot. unfold place_join. cbv zeta. destruct existing as [n|]; [by intros [= _ <-]|].
  destruct (negb _).
  - case_match; intros E; by simplify_eq.
  - case_match; intros E; simplify_eq; [done|].
    apply good_put; [by apply new_customer_wf|done].
Qed.

Lemma good_new_device nodes op customer_id o o' :
  plan_good nodes o → op_target op ≠ ""%string → op_target op ≠ "root"%string →
  join_new_device op customer_id o = inr o' → plan_good nodes o'.
Proof.
  intros Hg Hne Hnr. unfold join_new_device. cbv zeta. destruct (is_empty (free_tunnel_address _ _)); [done|].
  destruct (negb _ || _ || _) eqn:Eb; [done|]. rewrite !orb_false_iff in Eb.
  destruct Eb as [[Ec Ei] Em]. apply negb_false_iff, bool_decide_eq_true in Ec as [customer Hc].
  destruct (ov_device_name_refusal _ _ _ _); [done|]. destruct Hg as [Hb Hok].
  assert (Hput : plan_good nodes (ov_put (new_endpoint op customer_id (free_tunnel_address (op_target op) o)) o)).
  { apply good_put; [|by split]. pose proof (ok_keyed _ Hok _ _ Hc) as [_ Hcne]. cbv beta in *.
    split; try done.
    - exact (mesh_free _ _ _ Em Hok).
    - exact (identifier_free _ _ _ Ei Hok).
    - right. exact (ok_rooted _ Hok _ _ Hc). }
  destruct (negb _); intros [= <-]; [|done].
  apply good_group_read, foldl_preserves; [|done]. intros b x. apply good_grant_sibling.
Qed.

(** Owner upgrades keep every node but its assignments. *)
Lemma upgrade_find id customer_id norm o n :
  ov_find id o = Some n →
  ∃ assignments, ov_find id (upgrade_owner customer_id norm o) = Some (n <| tn_assignments := assignments |>).
Proof.
  intros Hn. assert (Hsame : ∃ assignments, ov_find id o = Some (n <| tn_assignments := assignments |>))
    by (exists (tn_assignments n); rewrite Hn; by destruct n).
  unfold upgrade_owner. destruct (ov_find customer_id o) as [g|] eqn:Eg; [|done].
  destruct (_ && _); [|done]. rewrite ov_find_edit. case_decide as Hk; [|done]. subst customer_id.
  rewrite Hn. by eexists.
Qed.

Lemma good_returning nodes op customer_id norm existing o o' :
  plan_good nodes o → ov_find (op_target op) o = Some existing →
  join_returning_device op existing (upgrade_owner customer_id norm o) = inr o' → plan_good nodes o'.
Proof.
  intros Hg Hex. pose proof (good_upgrade nodes customer_id norm o Hg) as Hg'.
  destruct (upgrade_find _ customer_id norm _ _ Hex) as [asg Hn].
  set (o1 := upgrade_owner customer_id norm o) in *. set (n := existing <| tn_assignments := asg |>) in *.
  unfold join_returning_device. cbv zeta. 
  set (ip := if is_empty (tn_tunnel_ip existing) then free_tunnel_address (op_target op) o1
             else tn_tunnel_ip existing).
  set (wanted := if js_mesh_pubkey_present (ob_join (op_body op))
                 then js_mesh_pubkey (ob_join (op_body op)) else tn_mesh_pubkey existing).
  destruct (is_empty ip); [done|].
  destruct (_ || _); intros [= <-]; [|done]. destruct Hg' as [Hb Hok].
  pose proof (ok_keyed _ Hok _ _ Hn) as [Hid Hne]. cbv beta in *.
  rewrite (edit_is_put _ _ _ n); [|done|exact Hid].
  assert (Hmesh : ∀ i m, ov_find i o1 = Some m → i ≠ op_target op → tn_mesh_pubkey m = tn_mesh_pubkey existing →
    tn_mesh_pubkey existing = ""%string).
  { intros i m Hi Hi' E. destruct (decide (tn_mesh_pubkey existing = ""%string)) as [?|Hx]; [done|].
    destruct Hi'. apply (ok_mesh _ Hok i (op_target op) m n Hi Hn); [exact E|]. by rewrite E. }
  assert (Hident : ∀ i m, ov_find i o1 = Some m → i ≠ op_target op →
    tn_endpoint_identifier m = tn_endpoint_identifier existing → tn_endpoint_identifier existing = ""%string).
  { intros i m Hi Hi' E. destruct (decide (tn_endpoint_identifier existing = ""%string)) as [?|Hx]; [done|].
    destruct Hi'. apply (ok_identifier _ Hok i (op_target op) m n Hi Hn); [exact E|]. by rewrite E. }
  pose proof (ok_top _ Hok _ _ Hn) as Htop. pose proof (ok_root_type _ Hok _ _ Hn) as Htype.
  pose proof (ok_rooted _ Hok _ _ Hn) as Hrooted.
  apply good_put; [|by split]. clear Hn. subst n. cbn in Hid, Htop, Htype.
  split; cbn; rewrite ?Hid; try done; [|by right].
  destruct (mesh_taken wanted (op_target op) o1) eqn:Em; [done|]. exact (mesh_free _ _ _ Em Hok).
Qed.

Lemma good_join nodes op o :
  tree_wf nodes → op_target op ≠ ""%string → plan_join op (new_overlay nodes) = inr o → plan_good nodes o.
Proof.
  intros Hwf Hne. pose proof (good_new _ Hwf) as Hg. unfold plan_join.
  destruct (ov_find "root" (new_overlay nodes)) as [root|] eqn:Er; [|done].
  destruct (place_join op _ _) as [|[customer_id o1]] eqn:Ep; [done|].
  assert (Hroot : is_Some (ov_find "root"%string (new_overlay nodes))) by eauto.
  pose proof (good_place _ _ _ _ _ _ Hg Hroot Ep) as Hg1.
  destruct (ov_find (op_target op) (new_overlay nodes)) as [existing|] eqn:Ee.
  - assert (o1 = new_overlay nodes) as -> by (cbn in Ep; by injection Ep).
    exact (good_returning _ _ _ _ _ _ _ Hg Ee).
  - apply good_new_device; [by apply good_upgrade|done|]. intros E. by rewrite E, Er in Ee.
Qed.

Lemma move_accepted op nodes policy t committed node :
  accepted op nodes policy t committed → op_kind op = MoveNode → nodes !! op_target op = Some node →
  move_refusal nodes (op_target op) (ob_new_parent_id (op_body op)) (op_principal op) = None.
Proof.
  intros Hac Hk Hn. pose proof (ac_rule _ _ _ _ _ Hac) as Hr. unfold rule_verdict, ruling_verdict in Hr.
  rewrite Hk in Hr. by destruct (move_refusal _ _ _ _).
Qed.

Lemma move_allowed nodes id new_parent signer :
  move_refusal nodes id new_parent signer = None →
  ∃ node parent, nodes !! id = Some node ∧ nodes !! new_parent = Some parent ∧
    tn_parent_id node ≠ ""%string ∧ tn_type node ≠ Root ∧ at_or_under nodes new_parent id = false ∧
    may_remove nodes id node signer = true ∧
    holds_or_administers nodes new_parent signer PermAddChild = true.
Proof.
  unfold move_refusal. destruct (nodes !! id) as [node|]; [|done].
  destruct (nodes !! new_parent) as [parent|]; [|done].
  destruct (is_empty (tn_parent_id node) || is_type (tn_type node) Root) eqn:E1; [done|].
  destruct (negb _ && negb _); [done|]. destruct (top_level_group _ _); [done|].
  destruct (negb (is_type (tn_type parent) Customer)); [done|].
  destruct (String.eqb (tn_parent_id node) new_parent); [done|].
  destruct (at_or_under _ _ _) eqn:E2; [done|]. destruct (may_remove _ _ _ _) eqn:E3; [|done].
  destruct (holds_or_administers _ _ _ _) eqn:E4; [|done]. intros _.
  apply orb_false_iff in E1 as [E1 E1']. apply is_empty_false in E1. apply is_type_false in E1'.
  exists node, parent. done.
Qed.

Lemma good_move nodes policy t committed op o :
  accepted op nodes policy t committed → op_kind op = MoveNode → tree_wf nodes →
  plan_move op (new_overlay nodes) = inr o → plan_good nodes o.
Proof.
  intros Hac Hk Hwf. unfold plan_move. cbv zeta.
  destruct (ov_find (op_target op) _) as [moving|] eqn:Em; [|done].
  destruct (ov_find (ob_new_parent_id _) _) as [np|] eqn:Ep; [|done].
  pose proof Em as Hn. rewrite ov_find_new in Hn. pose proof Ep as Hp. rewrite ov_find_new in Hp.
  destruct (move_allowed _ _ _ _ (move_accepted _ _ _ _ _ _ Hac Hk Hn)) as (node & parent & Hn' & _ & Hpar & Hty & _).
  rewrite Hn in Hn'. injection Hn' as <-.
  pose proof (ov_ok_new _ Hwf) as Hok. pose proof (ok_keyed _ Hwf _ _ Hn) as [Hid Hne].
  pose proof (ok_keyed _ Hwf _ _ Hp) as [_ Hpne].
  assert (Hnr : op_target op ≠ "root"%string) by (intros E; apply Hpar, (ok_top _ Hwf _ _ Hn), E).
  match goal with |- context [ov_edit ?i ?f ?o'] => set (o1 := ov_edit i f o') end.
  assert (Hg : plan_good nodes o1).
  { unfold o1. rewrite (edit_is_put _ _ _ moving); [|done|exact Hid].
    apply good_put; [|by apply good_new]. split; cbn; rewrite ?Hid; try done.
    - intros i m Hi Hne' E. destruct (decide (tn_mesh_pubkey moving = ""%string)) as [?|Hx]; [done|].
      destruct Hne'. apply (ok_mesh _ Hok i (op_target op) m moving Hi Em); [done|]. by rewrite E.
    - intros i m Hi Hne' E. destruct (decide (tn_endpoint_identifier moving = ""%string)) as [?|Hx]; [done|].
      destruct Hne'. apply (ok_identifier _ Hok i (op_target op) m moving Hi Em); [done|]. by rewrite E.
    - right. exact (ok_rooted _ Hok _ _ Em). }
  destruct (_ || _); [by intros [= <-]|]. destruct (existsb _ _); [by intros [= <-]|].
  intros [= <-]. apply foldl_preserves; [|done]. intros b x. apply good_sweep.
Qed.

Lemma removed_not_root nodes principal id :
  tree_wf nodes → id ∈ removed (account_scope nodes principal) → id ≠ "root"%string.
Proof.
  intros Hwf Hin -> . destruct (decide (canonical_principal principal = ""%string)) as [E|Hne].
  - unfold account_scope in Hin. rewrite E in Hin. by apply not_elem_of_nil in Hin.
  - apply elem_of_removed in Hin as (n & Hn & Ht)%doomed_not_root; [|done].
    apply Ht, (ok_root_type _ Hwf _ _ Hn). done.
Qed.

Lemma good_account nodes op :
  tree_wf nodes → plan_good nodes (plan_delete_account op nodes (new_overlay nodes)).
Proof.
  intros Hwf. unfold plan_delete_account. cbv zeta.
  assert (Hg : plan_good nodes (foldl (λ o id, ov_erase id o) (new_overlay nodes)
                                 (removed (account_scope nodes (op_principal op))))).
  { pose proof (good_new _ Hwf) as Hg. revert Hg. generalize (new_overlay nodes).
    assert (Hr : ∀ id, id ∈ removed (account_scope nodes (op_principal op)) → id ≠ "root"%string)
      by (intros id; by apply removed_not_root).
    induction (removed _) as [|id l IH]; intros o Hg; [done|]. cbn [foldl].
    apply IH; [set_solver|]. apply good_erase; [|done]. apply Hr. by left. }
  destruct (bool_decide _); [done|]. apply foldl_preserves; [|done]. intros b x. apply good_sweep.
Qed.

Lemma accepted_source op nodes policy t committed :
  accepted op nodes policy t committed → source_allowed (op_kind op) (ob_source (op_body op)) = true.
Proof.
  intros Hac. pose proof (ac_format _ _ _ _ _ Hac) as Hf. unfold format_verdict in Hf.
  rewrite !and_then_none, !refuse_when_none, !negb_false_iff in Hf. by destruct Hf as (_ & _ & Hs & _).
Qed.

Lemma establish_target op nodes policy t committed :
  accepted op nodes policy t committed → op_kind op = EstablishRoot → op_target op = "root"%string.
Proof.
  intros Hac Hk. pose proof (accepted_source _ _ _ _ _ Hac) as Hs. rewrite Hk in Hs.
  pose proof (ac_statement _ _ _ _ _ Hac) as Hst. unfold statement_verdict in Hst.
  destruct (ob_source (op_body op)); try done. unfold session_verdict in Hst. rewrite Hk in Hst.
  rewrite refuse_when_none, negb_false_iff in Hst. by apply String.eqb_eq.
Qed.

Lemma join_principal op nodes policy t committed :
  accepted op nodes policy t committed → op_kind op = Join →
  op_principal op = js_device_pubkey (ob_join (op_body op)).
Proof.
  intros Hac Hk. pose proof (accepted_source _ _ _ _ _ Hac) as Hs. rewrite Hk in Hs.
  pose proof (ac_statement _ _ _ _ _ Hac) as Hst. unfold statement_verdict in Hst.
  destruct (ob_source (op_body op)); try done. unfold device_verdict in Hst.
  rewrite !and_then_none, !refuse_when_none, !negb_false_iff in Hst.
  destruct Hst as [Ep _]. by apply String.eqb_eq.
Qed.

Lemma good_establish nodes policy t committed op o :
  accepted op nodes policy t committed → op_kind op = EstablishRoot → tree_wf nodes →
  plan_overlay op nodes = inr o → plan_good nodes o.
Proof.
  intros Hac Hk Hwf. unfold plan_overlay. cbv zeta. rewrite Hk.
  destruct (ov_find _ _) eqn:Ef; [done|]. intros [= <-].
  apply good_put; [|by apply good_new]. split; cbn; try done. by left.
Qed.

(** The overlay of an accepted operation is well formed. *)
Lemma accepted_plan_good nodes policy t committed op o :
  accepted op nodes policy t committed → tree_wf nodes → plan_overlay op nodes = inr o →
  plan_good nodes o.
Proof.
  intros Hac Hwf Hp. pose proof (accepted_target _ _ _ _ _ Hac) as Hne.
  destruct (op_kind op) eqn:Hk; unfold plan_overlay in Hp; cbv zeta in Hp; rewrite Hk in Hp.
  - by eapply good_create.
  - by eapply good_update.
  - unfold plan_edit in Hp. destruct (ov_find _ _); [|done]. injection Hp as <-.
    by apply good_edit; [|apply good_new].
  - by eapply good_delete.
  - by eapply good_join.
  - eapply good_establish; [done..|]. unfold plan_overlay. by rewrite Hk.
  - unfold plan_edit in Hp. destruct (ov_find _ _); [|done]. injection Hp as <-.
    by apply good_edit; [|apply good_new].
  - unfold plan_edit in Hp. destruct (ov_find _ _); [|done]. injection Hp as <-.
    by apply good_edit; [|apply good_new].
  - by eapply good_move.
  - injection Hp as <-. by apply good_account.
Qed.

Lemma plan_op_overlay op nodes effect :
  plan_op op nodes = inr effect → ∃ o, plan_overlay op nodes = inr o ∧ effect = ov_effect o.
Proof. unfold plan_op. destruct (plan_overlay op nodes) as [|o]; [done|]. intros [= <-]. eauto. Qed.

Lemma accepted_keeps_wf nodes policy t committed op effect :
  accepted op nodes policy t committed → tree_wf nodes → plan_op op nodes = inr effect →
  tree_wf (apply_effect effect nodes).
Proof.
  intros Hac Hwf (o & Hp & ->)%plan_op_overlay.
  destruct (accepted_plan_good _ _ _ _ _ _ Hac Hwf Hp) as [<- Hok]. by apply apply_ok.
Qed.

(** ** Blocks *)

Lemma checked_step_inv policy t op s s' effect :
  checked_step policy t op s = inr (s', effect) →
  accepted op (ch_nodes s) policy t (ch_committed s) ∧ plan_op op (ch_nodes s) = inr effect ∧
  step_op op s = inr (s', effect).
Proof.
  unfold checked_step. destruct (validate_op _ _ _ _ _) eqn:Ev; [done|].
  apply validate_op_accepted in Ev. intros Hs. split_and!; [done| |done].
  unfold step_op in Hs. destruct (plan_op op (ch_nodes s)); [done|]. by injection Hs as _ ->.
Qed.

Lemma step_op_inv op s s' effect :
  step_op op s = inr (s', effect) →
  plan_op op (ch_nodes s) = inr effect ∧
  s' = mkChain (apply_effect effect (ch_nodes s)) (record_committed op (ch_committed s))
         (ch_last_block_time_ms s) (ch_root s).
Proof.
  unfold step_op. destruct (plan_op op (ch_nodes s)) as [|e]; [done|]. by intros [= <- <-].
Qed.

(** A property every checked step keeps holds after the ops of a block. *)
Lemma run_ops_preserves (P : TreeChainState → Prop) step ops i s s' effects :
  (∀ op s s' effect, P s → step op s = inr (s', effect) → P s') →
  P s → run_ops step ops i s = inr (s', effects) → P s'.
Proof.
  intros Hstep. revert i s effects. induction ops as [|op ops IH]; intros i s effects HP; cbn [run_ops].
  - by intros [= <- _].
  - destruct (step op s) as [|[s1 e]] eqn:Es; [done|].
    destruct (run_ops step ops (S i) s1) as [|[s2 es]] eqn:Er; [done|]. intros [= <- _].
    exact (IH _ _ _ (Hstep _ _ _ _ HP Es) Er).
Qed.

Lemma run_block_inv step batch t d s s' effects :
  run_block step batch t d s = inr (s', effects) →
  batch_shape batch t s = None ∧
  ∃ next, run_ops step batch O s = inr (next, effects) ∧ s' = finish_block next t d.
Proof.
  unfold run_block. destruct (batch_shape batch t s); [done|].
  destruct (run_ops step batch O s) as [|[next es]]; [done|]. intros [= <- <-]. eauto.
Qed.
End invariants.
