(* ===== verification/TreeAuthority.v ===== *)
(** * Who gains control over a node

    A control right is [admin], [edit_node] or [delete_node]. The lemmas follow
    each plan and show which keys can hold a control right on a node after the
    plan that they did not hold before. *)

From S2P Require Import Prelude SecurityPolicy CanonicalEncoding Json EligibilityStore.
From S2P Require Import TreeTypes LinkToken TreeRules TreeOps TreeValidation TreeFacts.
From S2P Require Import TreeInvariants.

Definition control_right (r : Z) : Prop := r = PermAdmin ∨ r = PermEditNode ∨ r = PermDeleteNode.

Section authority.
Context `{TextCodec, HexCodec, Sodium, SodiumMessages, FloatText}.

(** ** Edits that give no control *)

Definition gives_none (r : Z) (names : list string) : Prop := grants r names = false.

Lemma grants_app r a b : grants r (a ++ b) = grants r a || grants r b.
Proof. apply existsb_app. Qed.

Lemma grants_sort_unique r l : grants r (sort_unique l) = grants r l.
Proof. apply eq_true_iff_eq. rewrite !grants_elem. by setoid_rewrite elem_of_sort_unique. Qed.

Lemma peer_names_give_none r : control_right r → gives_none r ["read"; "connect_private"]%string.
Proof. by intros [->|[->| ->]]. Qed.

Lemma read_gives_none r : control_right r → gives_none r ["read"%string].
Proof. by intros [->|[->| ->]]. Qed.

Definition nongain (r : Z) (f : TreeNode → TreeNode) : Prop :=
  ∀ n p, signer_has_permission (f n) p r = true → signer_has_permission n p r = true.

Lemma nongain_same r f : (∀ n, tn_assignments (f n) = tn_assignments n) → nongain r f.
Proof. intros E n p. apply permission_mono. by rewrite E. Qed.

Lemma nongain_filter r (P : Assignment → Prop) `{∀ a, Decision (P a)} :
  nongain r (λ n, n <| tn_assignments := filter P (tn_assignments n) |>).
Proof. intros n p. apply permission_mono. cbn. intros a Ha. by apply list_elem_of_filter in Ha as [_ ?]. Qed.

(** Entries appended to a node with names that give nothing. *)
Lemma permission_append n p r key names :
  gives_none r names →
  signer_has_permission (n <| tn_assignments := tn_assignments n ++ [mkAssignment key names] |>) p r = true →
  signer_has_permission n p r = true.
Proof.
  rewrite !signer_has_permission_spec. cbn. intros Hg (a & Ha & Hc & Hp).
  apply elem_of_app in Ha as [Ha|Ha]; [eauto|]. apply list_elem_of_singleton in Ha as ->.
  cbn in Hp. by rewrite Hg in Hp.
Qed.

Lemma nongain_grant_once r key names :
  gives_none r names → nongain r (grant_once (mkAssignment key names)).
Proof.
  intros Hg n p. unfold grant_once. destruct (has_exact_key _ _); [done|]. by apply permission_append.
Qed.

Lemma grants_add_name r names p :
  gives_none r [p] → grants r (add_name names p) = grants r names.
Proof.
  unfold gives_none, add_name. intros Hg. destruct (mentions p names); [done|].
  by rewrite grants_app, Hg, orb_false_r.
Qed.

Lemma complete_entry_perm r principal assignments assignments' a :
  control_right r → complete_entry principal assignments = Some assignments' → a ∈ assignments' →
  ∃ b, b ∈ assignments ∧ management_pubkey b = management_pubkey a ∧
       grants r (permissions b) = grants r (permissions a).
Proof.
  intros Hr. revert assignments'. induction assignments as [|x rest IH]; [done|].
  intros assignments'. cbn [complete_entry]. destruct (same_principal _ _).
  - intros [= <-] [->|Ha]%elem_of_cons; [|exists a; set_solver]. exists x. split_and!; [set_solver|done|].
    cbn [permissions]. rewrite !grants_add_name; [done|..]; by destruct Hr as [->|[->| ->]].
  - destruct (complete_entry principal rest) as [l|]; [|done]. intros [= <-] [->|Ha]%elem_of_cons.
    + exists x. set_solver.
    + destruct (IH l eq_refl Ha) as (b & Hb & ?). exists b. set_solver.
Qed.

Lemma nongain_link r principal : control_right r → nongain r (λ n, grant_link_peer_access n principal).
Proof.
  intros Hr n p. unfold grant_link_peer_access. destruct (negb _); [done|].
  destruct (complete_entry principal (tn_assignments n)) as [l|] eqn:E.
  - rewrite !signer_has_permission_spec. cbn. intros (a & Ha & Hc & Hp).
    destruct (complete_entry_perm r _ _ _ _ Hr E Ha) as (b & Hb & Hk & Hg). exists b.
    by rewrite Hk, Hg.
  - apply permission_append, peer_names_give_none, Hr.
Qed.

(** ** Overlays that give no control *)

(** No key gains [r] on a node of [nodes] through [o], the pairs of [except] aside. *)
Definition no_gain (r : Z) (nodes : NodeMap) (except : string → string → Prop) (o : Overlay) : Prop :=
  ∀ id n m p, nodes !! id = Some n → ov_find id o = Some m →
    signer_has_permission m p r = true → signer_has_permission n p r = true ∨ except id p.

Definition nobody (id p : string) : Prop := False.

Lemma no_gain_new r nodes except : no_gain r nodes except (new_overlay nodes).
Proof. intros id n m p Hn. rewrite ov_find_new, Hn. intros [= <-]. by left. Qed.

Lemma no_gain_edit r nodes except id f o :
  nongain r f → no_gain r nodes except o → no_gain r nodes except (ov_edit id f o).
Proof.
  intros Hf Hg i n m p Hn. rewrite ov_find_edit. case_decide as Hi; [|by apply Hg]. subst i.
  destruct (ov_find id o) as [x|] eqn:Ex; [|done]. intros [= <-] Hp. exact (Hg _ _ _ _ Hn Ex (Hf _ _ Hp)).
Qed.

Lemma no_gain_put_at r nodes except id c o :
  (∀ n m p, nodes !! id = Some n → c = Some m → signer_has_permission m p r = true →
            signer_has_permission n p r = true ∨ except id p) →
  no_gain r nodes except o → no_gain r nodes except (ov_put_at id c o).
Proof.
  intros Hc Hg i n m p Hn. rewrite ov_find_put_at. case_decide as Hi; [subst i; eauto|]. by apply Hg.
Qed.

Lemma no_gain_fresh r nodes except n o :
  nodes !! tn_id n = None → no_gain r nodes except o → no_gain r nodes except (ov_put n o).
Proof. intros Hn. apply no_gain_put_at. congruence. Qed.

Lemma no_gain_erase r nodes except id o :
  no_gain r nodes except o → no_gain r nodes except (ov_erase id o).
Proof. by apply no_gain_put_at. Qed.

Lemma no_gain_sweep r nodes except drop keep o id :
  no_gain r nodes except o → no_gain r nodes except (sweep_node drop keep o id).
Proof.
  intros Hg. unfold sweep_node. destruct (ov_find id o); [|done]. destruct (_ || _); [done|].
  apply no_gain_edit; [apply nongain_filter|done].
Qed.

Lemma no_gain_sibling r nodes except op o id :
  control_right r → no_gain r nodes except o → no_gain r nodes except (grant_sibling op o id).
Proof.
  intros Hr Hg. unfold grant_sibling. cbv zeta. destruct (String.eqb id _); [done|].
  destruct (ov_find id o) as [sibling|]; [|done]. destruct (negb _); [done|].
  destruct (ob_link_extension _).
  - destruct (negb (is_empty _)), (link_peer_access_missing _ _);
      repeat (apply no_gain_edit; [by apply nongain_link|]); done.
  - destruct (negb (is_empty _)), (negb (has_exact_key _ _));
      repeat (apply no_gain_edit; [by apply nongain_grant_once, peer_names_give_none|]); done.
Qed.

Lemma no_gain_group_read r nodes except id norm o :
  control_right r → no_gain r nodes except o → no_gain r nodes except (grant_group_read id norm o).
Proof.
  intros Hr Hg. unfold grant_group_read. destruct (ov_find id o); [|done].
  destruct (negb _); [|done]. apply no_gain_edit; [by apply nongain_grant_once, read_gives_none|done].
Qed.

(** ** Plans, one by one *)

Lemma set_assignment_gain n principal perms p r :
  signer_has_permission (set_assignment principal perms n) p r = true →
  signer_has_permission n p r = true ∨
  (canonical_principal principal = canonical_principal p ∧ grants r perms = true).
Proof.
  rewrite !signer_has_permission_spec. unfold set_assignment, replace_assignment, without_principal.
  cbn. intros (a & Ha & Hc & Hp). apply elem_of_app in Ha as [Ha|Ha].
  - left. exists a. split; [|done]. by apply list_elem_of_filter in Ha as [_ ?].
  - right. case_bool_decide; [by apply not_elem_of_nil in Ha|].
    apply list_elem_of_singleton in Ha as ->.
    cbn [management_pubkey permissions] in *. by rewrite grants_sort_unique in Hp.
Qed.

Lemma service_gives_none p : is_service_permission p = true → permission_from_string p = PermNone.
Proof.
  intros Hs. unfold permission_from_string.
  repeat match goal with |- context [String.eqb p ?s] =>
    destruct (String.eqb_spec p s) as [->|_]; [by vm_compute in Hs|] end. done.
Qed.

Lemma invite_gives_none r perms :
  control_right r → (∀ p, p ∈ perms → invite_permission_allowed p = true) → gives_none r perms.
Proof.
  intros Hr Hall. unfold gives_none. apply not_true_iff_false. rewrite grants_elem.
  intros (p & Hp & Hg). specialize (Hall p Hp). unfold invite_permission_allowed in Hall.
  apply orb_true_iff in Hall as [Hs|Hm%mentions_spec].
  - rewrite (service_gives_none p Hs) in Hg. by destruct Hr as [->|[->| ->]].
  - unfold kInvitePermissions in Hm. rewrite !elem_of_cons, elem_of_nil in Hm.
    destruct Hm as [->|[->|[->|[->|[->|[]]]]]]; by destruct Hr as [->|[->| ->]].
Qed.

Lemma list_find_none {A} (P : A → Prop) `{∀ x, Decision (P x)} l :
  list_find P l = None → ∀ x, x ∈ l → ¬ P x.
Proof. rewrite list_find_None, Forall_forall. eauto. Qed.

Lemma invite_names nodes target invitee inviter perms :
  invite_acceptance_refusal nodes target invitee inviter perms = None →
  ∀ p, p ∈ perms → invite_permission_allowed p = true.
Proof.
  unfold invite_acceptance_refusal, invite_refusal. destruct (nodes !! target) as [node|]; [|done].
  destruct (negb (is_type _ _)); [done|]. destruct (is_empty _); [done|].
  destruct (list_find _ perms) as [[i q]|] eqn:E; [done|]. intros _ p Hp.
  pose proof (list_find_none _ _ E p Hp) as Hn. cbv beta in Hn. by destruct (invite_permission_allowed p).
Qed.

(** An owner's own entries on its group, upgraded by its join. *)
Definition own_join (op : TreeOp) (nodes : NodeMap) (id p : string) : Prop :=
  op_kind op = Join ∧ canonical_principal p = canonical_principal (op_principal op) ∧
  ∃ n, nodes !! id = Some n ∧ tn_type n = Customer ∧
       canonical_principal (tn_mgmt_pubkey n) = canonical_principal p.

Lemma upgrade_gain (except : string → string → Prop) r nodes customer_id norm o :
  (∀ p n, nodes !! customer_id = Some n → tn_type n = Customer →
     canonical_principal (tn_mgmt_pubkey n) = canonical_principal norm →
     canonical_principal p = canonical_principal norm → except customer_id p) →
  (∀ n m, nodes !! customer_id = Some n → ov_find customer_id o = Some m →
     tn_type m = tn_type n ∧ tn_mgmt_pubkey m = tn_mgmt_pubkey n) →
  no_gain r nodes except o → no_gain r nodes except (upgrade_owner customer_id norm o).
Proof.
  intros Hex Hkeep Hg. unfold upgrade_owner. destruct (ov_find customer_id o) as [g|] eqn:Eg; [|done].
  destruct (is_type (tn_type g) Customer && same_principal (tn_mgmt_pubkey g) norm &&
            existsb (lacks_admin norm) (tn_assignments g)) eqn:Ec; [|done].
  apply andb_true_iff in Ec as [[Ht%is_type_spec Hm%same_principal_spec]%andb_true_iff _].
  intros i n m p Hn. rewrite ov_find_edit. case_decide as Hi; [|by apply Hg]. subst i. rewrite Eg.
  intros [= <-]. rewrite signer_has_permission_spec. cbn. intros (a & Ha & Hc & Hp).
  apply list_elem_of_fmap in Ha as (b & -> & Hb). unfold add_admin in *.
  destruct (lacks_admin norm b) eqn:El.
  - right. apply andb_true_iff in El as [El%same_principal_spec _]. cbn in Hc.
    destruct (Hkeep n g Hn eq_refl) as [Et Em]. apply (Hex p n Hn); congruence.
  - apply (Hg _ _ _ _ Hn Eg). apply signer_has_permission_spec. eauto.
Qed.

Lemma join_gain r nodes op o policy t committed :
  control_right r → accepted op nodes policy t committed → op_kind op = Join →
  tree_wf nodes → plan_join op (new_overlay nodes) = inr o → no_gain r nodes (own_join op nodes) o.
Proof.
  intros Hr Hac Hk Hwf. pose proof (join_principal _ _ _ _ _ Hac Hk) as Ep. unfold plan_join.
  destruct (ov_find "root" (new_overlay nodes)) as [root|]; [|done].
  destruct (place_join op _ _) as [|[customer_id o1]] eqn:Epl; [done|].
  assert (Hplace : no_gain r nodes (own_join op nodes) o1 ∧
    ∀ n m, nodes !! customer_id = Some n → ov_find customer_id o1 = Some m → m = n).
  { assert (Hsame : ∀ n m, nodes !! customer_id = Some n →
      ov_find customer_id (new_overlay nodes) = Some m → m = n)
      by (intros n m Hn; rewrite ov_find_new, Hn; by intros [= ->]).
    unfold place_join in Epl. destruct (ov_find (op_target op) (new_overlay nodes));
      [injection Epl as _ <-; split; [apply no_gain_new|done]|].
    destruct (negb _); [case_match; simplify_eq; split; [apply no_gain_new|done]|].
    destruct (ov_find ("customer-" +:+ op_target op) (new_overlay nodes)) eqn:Ec; simplify_eq;
      [split; [apply no_gain_new|done]|]. rewrite ov_find_new in Ec. split.
    - apply no_gain_fresh; [exact Ec|apply no_gain_new].
    - intros n m Hn. by rewrite Hn in Ec. }
  destruct Hplace as [Hg1 Hkeep].
  assert (Hup : no_gain r nodes (own_join op nodes)
                  (upgrade_owner customer_id (js_device_pubkey (ob_join (op_body op))) o1)).
  { apply upgrade_gain; [|intros n m Hn Hm; by rewrite (Hkeep n m Hn Hm)|done].
    intros p n Hn Ht Hm Hp. split_and!; [done|by rewrite Ep|]. exists n. split_and!; [done..|]. congruence. }
  destruct (ov_find (op_target op) (new_overlay nodes)) as [existing|] eqn:Ee.
  - unfold join_returning_device. cbv zeta. destruct (is_empty _); [done|].
    destruct (_ || _); intros [= <-]; [|done]. by apply no_gain_edit; [apply nongain_same|].
  - unfold join_new_device. cbv zeta. destruct (is_empty (free_tunnel_address _ _)); [done|].
    destruct (_ || _); [done|]. destruct (ov_device_name_refusal _ _ _ _); [done|].
    rewrite ov_find_new in Ee.
    destruct (negb _); intros [= <-]; [|by apply no_gain_fresh].
    apply no_gain_group_read; [done|]. apply foldl_preserves; [intros b x; by apply no_gain_sibling|].
    by apply no_gain_fresh.
Qed.

(** The gains of an accepted operation: an administrator's, or an owner's own. *)
Definition admin_made (op : TreeOp) (nodes : NodeMap) (id p : string) : Prop :=
  administers nodes id (op_principal op) = true ∨ own_join op nodes id p.

Lemma edit_gain r nodes op f o :
  (∀ n p, nodes !! op_target op = Some n → signer_has_permission (f n) p r = true →
     signer_has_permission n p r = true ∨ admin_made op nodes (op_target op) p) →
  plan_edit op f (new_overlay nodes) = inr o → no_gain r nodes (admin_made op nodes) o.
Proof.
  intros Hf. unfold plan_edit. destruct (ov_find _ _) as [n|] eqn:En; [|done]. intros [= <-].
  unfold ov_edit. rewrite En. rewrite ov_find_new in En.
  apply no_gain_put_at; [|apply no_gain_new]. intros n' m p Hn'. rewrite En in Hn'. injection Hn' as <-.
  intros [= <-]. by apply Hf.
Qed.

Lemma update_gain r nodes op o policy t committed :
  accepted op nodes policy t committed → op_kind op = UpdateFields → tree_wf nodes →
  plan_update op (new_overlay nodes) = inr o → no_gain r nodes (admin_made op nodes) o.
Proof.
  intros Hac Hk Hwf. unfold plan_update. cbv zeta.
  destruct (ov_find (op_target op) _) as [before|] eqn:Ef; [|done]. rewrite ov_find_new in Ef.
  destruct (update_content _ _ _ _ _ _ Hac Hk Ef) as (d & Ed & Es & Hu).
  destruct (mesh_taken _ _ _); [done|]. destruct (if _ && _ then _ else _); [done|].
  intros [= <-]. apply no_gain_put_at; [|apply no_gain_new].
  intros n m p Hn [= <-]. cbn [tn_id set_field] in Hn. cbn in Hn. rewrite Ef in Hn. injection Hn as <-.
  pose proof (update_refusal_identity _ _ _ Hu) as _. unfold update_refusal in Hu. cbv zeta in Hu.
  repeat (match type of Hu with (if ?b then Some _ else _) = None => destruct b; [done|] end).
  rewrite Ed, Es in Hu. case_bool_decide as Hm.
  - intros Hp. left. erewrite same_map_same_permission; [exact Hp|done].
  - destruct (admin_anchor nodes (tn_id before) (op_principal op)) as [a|] eqn:Ea; [|done].
    intros _. right. left. pose proof (ok_keyed _ Hwf _ _ Ef) as [Eid _].
    change (administers nodes (op_target op) (op_principal op) = true).
    rewrite Eid in Ea. unfold administers. by rewrite Ea.
Qed.

Lemma ruling_none r : ruling_verdict r = None → r = None.
Proof. by destruct r. Qed.

Lemma accepted_no_gain r nodes op o policy t committed :
  control_right r → accepted op nodes policy t committed → tree_wf nodes →
  plan_overlay op nodes = inr o → no_gain r nodes (admin_made op nodes) o.
Proof.
  intros Hr Hac Hwf Hp. pose proof (ac_rule _ _ _ _ _ Hac) as Hrule. unfold rule_verdict in Hrule.
  unfold plan_overlay in Hp. cbv zeta in Hp. destruct (op_kind op) eqn:Hk.
  - unfold plan_create in Hp. cbv zeta in Hp. destruct (ov_find (op_target op) _) eqn:Ef; [done|].
    rewrite ov_find_new in Ef. repeat case_match; simplify_eq;
      (apply no_gain_fresh; [exact Ef|apply no_gain_new]).
  - by eapply update_gain.
  - apply ruling_none in Hrule. eapply edit_gain; [|exact Hp]. intros n p Hn Hg.
    apply set_assignment_gain in Hg as [Hg|[_ Hg]]; [by left|]. right. left.
    unfold assignment_change_refusal in Hrule. rewrite Hn in Hrule. destruct (is_empty _); [done|].
    destruct (list_find _ _) as [[]|]; [done|]. unfold administers.
    destruct (leaves_group _ _ _ _ _ _) eqn:El.
    + unfold leaves_group in El. rewrite !andb_true_iff in El. destruct El as [[[[El _] _] _] _].
      apply bool_decide_eq_true in El. by rewrite El in Hg.
    + by destruct (admin_anchor _ _ _).
  - unfold plan_delete_node in Hp. cbv zeta in Hp. destruct (ov_find _ _); [|done].
    destruct (is_empty _); injection Hp as <-.
    + apply no_gain_erase, no_gain_new.
    + apply foldl_preserves; [intros b x; apply no_gain_sweep|]. apply no_gain_erase, no_gain_new.
  - intros id n m p Hn Hm Hg. destruct (join_gain r _ _ _ _ _ _ Hr Hac Hk Hwf Hp _ _ _ _ Hn Hm Hg);
      [by left|]. right. by right.
  - destruct (ov_find (op_target op) _) eqn:Ef; [done|]. injection Hp as <-.
    apply no_gain_fresh; [|apply no_gain_new]. cbn.
    by rewrite ov_find_new, (establish_target _ _ _ _ _ Hac Hk) in Ef.
  - eapply edit_gain; [|exact Hp]. intros n p _ Hg. left. revert Hg. by apply permission_mono.
  - apply ruling_none in Hrule. eapply edit_gain; [|exact Hp]. intros n p _ Hg.
    apply set_assignment_gain in Hg as [Hg|[_ Hg]]; [by left|]. exfalso.
    pose proof (invite_gives_none r _ Hr (invite_names _ _ _ _ _ Hrule)) as Hn. unfold gives_none in Hn.
    congruence.
  - unfold plan_move in Hp. cbv zeta in Hp. destruct (ov_find _ _); [|done].
    destruct (ov_find (ob_new_parent_id _) _); [|done].
    assert (He : ∀ f, (∀ n, tn_assignments (f n) = tn_assignments n) →
      no_gain r nodes (admin_made op nodes) (ov_edit (op_target op) f (new_overlay nodes)))
      by (intros f Hf; apply no_gain_edit; [by apply nongain_same|apply no_gain_new]).
    destruct (_ || _); [injection Hp as <-; by apply He|].
    destruct (existsb _ _); [injection Hp as <-; by apply He|]. injection Hp as <-.
    apply foldl_preserves; [intros b x; apply no_gain_sweep|by apply He].
  - injection Hp as <-. unfold plan_delete_account. cbv zeta.
    assert (Hg : ∀ l o, no_gain r nodes (admin_made op nodes) o →
      no_gain r nodes (admin_made op nodes) (foldl (λ o id, ov_erase id o) o l)).
    { intros l o. apply foldl_preserves. intros b x. apply no_gain_erase. }
    destruct (bool_decide _); [apply Hg, no_gain_new|].
    apply foldl_preserves; [intros b x; apply no_gain_sweep|]. apply Hg, no_gain_new.
Qed.
End authority.
