(* ===== verification/TreeReplay.v ===== *)
(** * Replay protection of the tree

    A block records three kinds of id with a time: the op's own id, the id of a
    client statement it wraps, and the id of the invite it redeems. Old entries
    are pruned. [marks] lists what an op uses up, each with the last block time
    at which a block may still carry it; an id that is pruned is one whose last
    time has passed. *)

From S2P Require Import Prelude SecurityPolicy CanonicalEncoding EligibilityLedger Json EligibilityStore TestCodec.
From S2P Require Import EligibilityServiceTheorems TreeTypes LinkToken TreeRules TreeOps TreeValidation TreeCodec TreeRoundTrip.
From S2P Require Import TreeFacts TreeInvariants.

(** ** Chains of blocks *)

Record TreeBlock := mkTreeBlock {
  tb_policy : TreeOpPolicy;
  tb_batch : TreeBatch;
  tb_time_ms : Z;
  tb_ops_digest : Digest;
}.

Section replay.
Context `{TextCodec, HexCodec, Sodium, SodiumMessages, FloatText}.

(** The blocks in order, each checked as a replica checks it before its vote. *)
Fixpoint run_chain (blocks : list TreeBlock) (state : TreeChainState) : option TreeChainState :=
  match blocks with
  | [] => Some state
  | b :: rest =>
      match check_batch (tb_policy b) (tb_batch b) (tb_time_ms b) (tb_ops_digest b) state with
      | inl _ => None
      | inr (state, _) => run_chain rest state
      end
  end.

Definition chain_ops (blocks : list TreeBlock) : list TreeOp := concat (tb_batch <$> blocks).

(** ** What an op uses up *)

Definition delta_mark (op : TreeOp) : list (string * Z) :=
  match ob_source (op_body op), statement_id_hex op with
  | Delta, Some id => [(id, td_timestamp (ob_delta (op_body op)) + kTreeOpMaxAgeSec)]
  | _, _ => []
  end.

Definition grant_mark (op : TreeOp) : list (string * Z) :=
  match ob_invite_grant (op_body op), redemption_id_hex op with
  | Some grant, Some id => [(id, le_expires_at grant - 1)]
  | _, _ => []
  end.

Definition marks (op : TreeOp) : list (string * Z) :=
  (op_id_hex op, op_signed_at op + kTreeOpMaxAgeSec) :: delta_mark op ++ grant_mark op.

(** The id is recorded, or the mark's last time has passed. *)
Definition remembered (t : Z) (committed : CommittedOpIds) (m : string * Z) : Prop :=
  (∃ v, committed !! m.1 = Some v ∧ 0 <= v ∧ m.2 <= v + (kTreeOpMaxAgeSec + kTreeOpMaxFutureSec))
  ∨ m.2 < t.

(** ** Acceptance against what is recorded *)

Lemma fresh_window op t :
  is_u64 (op_signed_at op) → 0 <= t → freshness_verdict op t = None →
  t <= op_signed_at op + kTreeOpMaxAgeSec ∧ op_signed_at op <= t + kTreeOpMaxFutureSec.
Proof.
  unfold freshness_verdict. rewrite !and_then_none, !refuse_when_none, !Z.ltb_ge. unfold u64_add.
  intros [Hs _] Ht (_ & Hold & Hnew).
  assert (0 < two64) by done.
  pose proof (Z.mod_le (op_signed_at op + kTreeOpMaxAgeSec) two64).
  pose proof (Z.mod_le (t + kTreeOpMaxFutureSec) two64).
  unfold kTreeOpMaxAgeSec, kTreeOpMaxFutureSec in *. lia.
Qed.

Lemma replay_free op committed :
  replay_verdict op committed = None →
  committed !! op_id_hex op = None ∧
  (∀ id, statement_id_hex op = Some id → committed !! id = None) ∧
  (∀ id, redemption_id_hex op = Some id → committed !! id = None).
Proof.
  unfold replay_verdict, contains_opt, committed_contains.
  rewrite !and_then_none, !refuse_when_none. intros (R1 & R2 & R3).
  apply bool_decide_eq_false in R1. split_and!.
  - by apply eq_None_not_Some.
  - intros id E. rewrite E in R2. apply bool_decide_eq_false in R2. by apply eq_None_not_Some.
  - intros id E. rewrite E in R3. apply bool_decide_eq_false in R3. by apply eq_None_not_Some.
Qed.

Lemma delta_timestamp op nodes policy t committed :
  accepted op nodes policy t committed → ob_source (op_body op) = Delta →
  td_timestamp (ob_delta (op_body op)) = op_signed_at op.
Proof.
  intros Hac Hs. pose proof (ac_statement _ _ _ _ _ Hac) as Hst. unfold statement_verdict in Hst.
  rewrite Hs in Hst. unfold delta_verdict in Hst.
  rewrite !and_then_none, !refuse_when_none, !negb_false_iff in Hst. lia.
Qed.

Lemma grant_unexpired op nodes policy t committed grant :
  accepted op nodes policy t committed → ob_invite_grant (op_body op) = Some grant →
  t < le_expires_at grant.
Proof.
  intros Hac Hg. pose proof (ac_grant _ _ _ _ _ Hac) as Hv. unfold grant_verdict in Hv.
  rewrite Hg in Hv. unfold invite_grant_verdict in Hv. rewrite !and_then_none, !refuse_when_none in Hv.
  destruct Hv as (_ & _ & _ & _ & Hexp & _). lia.
Qed.

(** A mark of an accepted op is not recorded and its last time has not passed. *)
Lemma accepted_not_remembered op nodes policy t committed m :
  is_u64 (op_signed_at op) → 0 <= t → accepted op nodes policy t committed →
  m ∈ marks op → ¬ remembered t committed m.
Proof.
  intros Hu Ht Hac Hm. destruct (replay_free _ _ (ac_replay _ _ _ _ _ Hac)) as (R1 & R2 & R3).
  destruct (fresh_window op t Hu Ht (ac_fresh _ _ _ _ _ Hac)) as [Hw _].
  assert (Hfree : committed !! m.1 = None ∧ t <= m.2).
  { apply elem_of_cons in Hm as [->|[Hm|Hm]%elem_of_app]; [by split|..].
    - unfold delta_mark in Hm. pose proof (delta_timestamp _ _ _ _ _ Hac) as Htd.
      destruct (ob_source (op_body op)); try by apply not_elem_of_nil in Hm.
      destruct (statement_id_hex op) as [id|] eqn:Eid; [|by apply not_elem_of_nil in Hm].
      apply list_elem_of_singleton in Hm as ->. cbn. rewrite Htd by done. split; [by apply R2|done].
    - unfold grant_mark in Hm.
      destruct (ob_invite_grant (op_body op)) as [g|] eqn:Eg; [|by apply not_elem_of_nil in Hm].
      destruct (redemption_id_hex op) as [id|] eqn:Eid; [|by apply not_elem_of_nil in Hm].
      apply list_elem_of_singleton in Hm as ->. cbn.
      pose proof (grant_unexpired _ _ _ _ _ g Hac Eg).
      split; [by apply R3|lia]. }
  intros [(v & Hv & _)|Hlt]; [|lia]. destruct Hfree as [Hn _]. by rewrite Hn in Hv.
Qed.

(** ** What a step records *)

Lemma insert_opt_keeps id t committed k v :
  committed !! k = Some v → (∀ i, id = Some i → committed !! i = None) →
  insert_opt id t committed !! k = Some v.
Proof.
  intros Hk Hi. destruct id as [i|]; [|done]. cbn. rewrite lookup_insert_ne; [done|].
  intros ->. rewrite Hi in Hk; done.
Qed.

(** A recorded id stays: an accepted op records only ids that were not there. *)
Lemma record_keeps op nodes policy t committed k v :
  accepted op nodes policy t committed → committed !! k = Some v →
  record_committed op committed !! k = Some v.
Proof.
  intros Hac Hk. destruct (replay_free _ _ (ac_replay _ _ _ _ _ Hac)) as (R1 & R2 & R3).
  unfold record_committed. assert (Hne : k ≠ op_id_hex op) by congruence.
  assert (Hs : ∀ i, statement_id_hex op = Some i → i ≠ k) by (intros i Hi ->; by rewrite R2 in Hk).
  assert (Hr : ∀ i, redemption_id_hex op = Some i → i ≠ k) by (intros i Hi ->; by rewrite R3 in Hk).
  unfold insert_opt. repeat case_match; rewrite ?lookup_insert_ne by naive_solver; done.
Qed.

(** The value recorded under an id of the op: the signed time, or the expiry of
    the invite when the redemption's id is the same. *)
Lemma record_new op committed k :
  k = op_id_hex op ∨ statement_id_hex op = Some k →
  record_committed op committed !! k = Some (op_signed_at op) ∨
  ∃ grant, ob_invite_grant (op_body op) = Some grant ∧
    record_committed op committed !! k = Some (le_expires_at grant).
Proof.
  intros Hk. unfold record_committed.
  assert (Hin : insert_opt (statement_id_hex op) (op_signed_at op)
                  (<[ op_id_hex op := op_signed_at op ]> committed) !! k = Some (op_signed_at op)).
  { unfold insert_opt. destruct Hk as [-> |Hk].
    - case_match; [|by rewrite lookup_insert_eq].
      destruct (decide (op_id_hex op = s)) as [->|Hne]; [by rewrite lookup_insert_eq|].
      by rewrite lookup_insert_ne, lookup_insert_eq.
    - rewrite Hk. by rewrite lookup_insert_eq. }
  cbv zeta. set (c := insert_opt _ _ _) in *. unfold insert_opt, redemption_id_hex.
  destruct (ob_invite_grant (op_body op)) as [g|]; cbn; [|by left].
  destruct (decide (k = digest_hex
    (digest (add_string (new_encoder kTreeOpRedemptionDomain) (le_token_hash g))))) as [->|Hne].
  - right. exists g. by rewrite lookup_insert_eq.
  - left. by rewrite lookup_insert_ne.
Qed.

Lemma record_remembers op nodes policy t committed m :
  op_fits op → 0 <= t → accepted op nodes policy t committed → m ∈ marks op →
  remembered t (record_committed op committed) m.
Proof.
  intros Hf Ht Hac Hm. pose proof (of_signed op Hf) as Hu.
  destruct (fresh_window op t Hu Ht (ac_fresh _ _ _ _ _ Hac)) as [_ Hw].
  assert (Hown : ∀ k, k = op_id_hex op ∨ statement_id_hex op = Some k →
    remembered t (record_committed op committed) (k, op_signed_at op + kTreeOpMaxAgeSec)).
  { intros k Hk. left. destruct (record_new op committed k Hk) as [E|(g & Hg & E)];
      eexists; (split; [exact E|]); cbn; unfold is_u64, kTreeOpMaxFutureSec in *; [lia|].
    pose proof (grant_unexpired _ _ _ _ _ _ Hac Hg). lia. }
  apply elem_of_cons in Hm as [->|[Hm|Hm]%elem_of_app]; [apply Hown; by left|..].
  - unfold delta_mark in Hm. pose proof (delta_timestamp _ _ _ _ _ Hac) as Htd.
    destruct (ob_source (op_body op)); try by apply not_elem_of_nil in Hm.
    destruct (statement_id_hex op) as [id|] eqn:Eid; [|by apply not_elem_of_nil in Hm].
    apply list_elem_of_singleton in Hm as ->. rewrite Htd by done. apply Hown. by right.
  - unfold grant_mark in Hm. left. unfold record_committed, redemption_id_hex in *.
    destruct (ob_invite_grant (op_body op)) as [g|] eqn:Eg; [|by apply not_elem_of_nil in Hm].
    cbn in Hm. apply list_elem_of_singleton in Hm as ->. exists (le_expires_at g).
    pose proof (grant_unexpired _ _ _ _ _ _ Hac Eg). cbn. rewrite lookup_insert_eq.
    unfold kTreeOpMaxAgeSec, kTreeOpMaxFutureSec. split_and!; [done|lia|lia].
Qed.

Lemma remembered_keeps op nodes policy t committed m :
  accepted op nodes policy t committed → remembered t committed m →
  remembered t (record_committed op committed) m.
Proof.
  intros Hac [(v & Hv & R0)|Hlt]; [|by right]. left. exists v. split; [|done].
  by eapply record_keeps.
Qed.

Lemma remembered_mono t t' committed m : t <= t' → remembered t committed m → remembered t' committed m.
Proof. intros Ht [Hv|Hlt]; [by left|right; lia]. Qed.

(** A pruned id is one that no later block may carry. *)
Lemma remembered_prune t committed m :
  remembered t committed m →
  remembered t (prune_signed_before (committed_id_cutoff t) committed) m.
Proof.
  intros [(v & Hv & R0 & Hd)|Hlt]; [|by right].
  destruct (decide (committed_id_cutoff t <= v)) as [Hle|Hgt].
  - left. exists v. split; [|done]. unfold prune_signed_before. by apply map_lookup_filter_Some.
  - right. revert Hgt. unfold committed_id_cutoff, kCommittedIdMarginSec.
    unfold kTreeOpMaxAgeSec, kTreeOpMaxFutureSec in *. case_match; lia.
Qed.

(** ** Chains *)

Definition disjoint_marks (o o' : TreeOp) : Prop := ∀ m, m ∈ marks o → m ∈ marks o' → False.

(** What a list of applied ops shows of the state before and after it. *)
Record used_up (t t' : Z) (before after : CommittedOpIds) (ops : list TreeOp) : Prop := mkUsedUp {
  uu_new : ∀ m o, remembered t before m → o ∈ ops → m ∈ marks o → False;
  uu_kept : ∀ m, remembered t before m → remembered t' after m;
  uu_marked : ∀ m o, o ∈ ops → m ∈ marks o → remembered t' after m;
  uu_apart : ForallOrdPairs disjoint_marks ops;
  uu_accepted : ∀ o, o ∈ ops → ∃ nodes policy s committed, accepted o nodes policy s committed;
}.

Lemma used_up_nil t committed : used_up t t committed committed [].
Proof. split; try done; [set_solver|set_solver|constructor|set_solver]. Qed.

Lemma ordpairs_app {A} (R : A → A → Prop) (l k : list A) :
  ForallOrdPairs R l → ForallOrdPairs R k → (∀ x y, x ∈ l → y ∈ k → R x y) →
  ForallOrdPairs R (l ++ k).
Proof.
  induction 1 as [|x l Hx Hl IH]; intros Hk Hc; [done|]. cbn. constructor.
  - apply Forall_app. split; [done|]. apply Forall_forall. intros y Hy. apply Hc; [by left|done].
  - apply IH; [done|]. intros y z Hy. apply Hc. by right.
Qed.

Lemma used_up_app t t1 t2 c c1 c2 l k :
  used_up t t1 c c1 l → used_up t1 t2 c1 c2 k → used_up t t2 c c2 (l ++ k).
Proof.
  intros [An Ak Am Aa Ac] [Bn Bk Bm Ba Bc]. split.
  - intros m o Hr [Ho|Ho]%elem_of_app Hm; [by eapply An|]. eapply Bn; eauto.
  - auto.
  - intros m o [Ho|Ho]%elem_of_app Hm; eauto.
  - apply ordpairs_app; [done..|]. intros x y Hx Hy m Hmx Hmy. eapply Bn; eauto.
  - intros o [Ho|Ho]%elem_of_app; eauto.
Qed.

Lemma used_up_step policy t op s s' effect :
  op_fits op → 0 <= t → checked_step policy t op s = inr (s', effect) →
  used_up t t (ch_committed s) (ch_committed s') [op].
Proof.
  intros Hf Ht (Hac & _ & (_ & ->)%step_op_inv)%checked_step_inv. split; cbn [ch_committed].
  - intros m o Hr ->%list_elem_of_singleton Hm.
    exact (accepted_not_remembered _ _ _ _ _ _ (of_signed _ Hf) Ht Hac Hm Hr).
  - intros m. by eapply remembered_keeps.
  - intros m o ->%list_elem_of_singleton. by eapply record_remembers.
  - repeat constructor.
  - intros o ->%list_elem_of_singleton. eauto.
Qed.

Lemma used_up_ops policy t ops i s s' effects :
  Forall op_fits ops → 0 <= t → run_ops (checked_step policy t) ops i s = inr (s', effects) →
  used_up t t (ch_committed s) (ch_committed s') ops.
Proof.
  intros Hf Ht. revert i s effects. induction Hf as [|op ops Hop _ IH]; intros i s effects; cbn [run_ops].
  - intros [= <- _]. apply used_up_nil.
  - destruct (checked_step _ _ _ _) as [|[s1 e]] eqn:Es; [done|].
    destruct (run_ops _ _ _ _) as [|[s2 es]] eqn:Er; [done|]. intros [= <- _].
    apply (used_up_app t t t _ (ch_committed s1) _ [op]); [by eapply used_up_step|by eapply IH].
Qed.

Definition state_sec (s : TreeChainState) : Z := ch_last_block_time_ms s / 1000.

Lemma used_up_block b s s' effects :
  Forall op_fits (tb_batch b) → 0 <= tb_time_ms b →
  check_batch (tb_policy b) (tb_batch b) (tb_time_ms b) (tb_ops_digest b) s = inr (s', effects) →
  used_up (state_sec s) (state_sec s') (ch_committed s) (ch_committed s') (tb_batch b).
Proof.
  rewrite check_batch_run. intros Hf Ht (Hsh & next & Hr & ->)%run_block_inv. unfold batch_shape in Hsh.
  rewrite !and_then_none, !refuse_when_none in Hsh. destruct Hsh as (_ & _ & _ & Hlt).
  assert (Hle : state_sec s <= tb_time_ms b / 1000) by (apply Z.div_le_mono; lia).
  assert (Hpos : 0 <= tb_time_ms b / 1000) by (by apply Z.div_pos).
  destruct (used_up_ops _ _ _ _ _ _ _ Hf Hpos Hr) as [An Ak Am Aa Ac].
  change (state_sec (finish_block next (tb_time_ms b) (tb_ops_digest b))) with (tb_time_ms b / 1000).
  split; cbn [finish_block ch_committed]; try done.
  - intros m o Hm. apply An. exact (remembered_mono _ _ _ _ Hle Hm).
  - intros m Hm. apply remembered_prune, Ak. exact (remembered_mono _ _ _ _ Hle Hm).
  - intros m o Ho Hm. apply remembered_prune. by eapply Am.
Qed.

Lemma used_up_chain blocks s s' :
  Forall (λ b, Forall op_fits (tb_batch b) ∧ 0 <= tb_time_ms b) blocks →
  run_chain blocks s = Some s' →
  used_up (state_sec s) (state_sec s') (ch_committed s) (ch_committed s') (chain_ops blocks).
Proof.
  intros Hb. revert s. induction Hb as [|b blocks [Hf Ht] _ IH]; intros s; cbn [run_chain].
  - intros [= <-]. apply used_up_nil.
  - destruct (check_batch _ _ _ _ _) as [|[s1 es]] eqn:Eb; [done|]. intros Hr.
    apply (used_up_app _ (state_sec s1) _ _ (ch_committed s1)); [by eapply used_up_block|by apply IH].
Qed.

(** A key that fixes one of an op's marks is used once. *)
Lemma apart_nodup {K} (f : TreeOp → option K) ops :
  (∀ o o' k, o ∈ ops → o' ∈ ops → f o = Some k → f o' = Some k → ∃ m, m ∈ marks o ∧ m ∈ marks o') →
  ForallOrdPairs disjoint_marks ops → NoDup (omap f ops).
Proof.
  intros Hf Ha. induction Ha as [|o ops Ho Ha IH]; [constructor|].
  assert (IH' : NoDup (omap f ops)).
  { apply IH. intros x y k Hx Hy. apply Hf; by right. }
  cbn. destruct (f o) as [k|] eqn:Ek; [|done]. apply NoDup_cons. split; [|done].
  intros (o' & Ho' & Hk')%list_elem_of_omap.
  destruct (Hf o o' k) as (m & Hm & Hm'); [by left|by right|done|done|].
  rewrite Forall_forall in Ho. exact (Ho o' Ho' m Hm Hm').
Qed.
End replay.

(** * A concrete tree

    Instances of the classes of the tree that stand in for libsodium, and a
    small network on them: an owner who establishes the root, two people who
    join with a device each, and a server that submits their operations. The
    hash is a polynomial of the bytes and a signature is the hash of the key and
    the message, so that signatures are really compared. *)

Module Village.
Definition hash_mask : Z := Eval vm_compute in 2 ^ 256 - 1.
Definition hash_spread : Z := Eval vm_compute in 3 ^ 161.
Definition hash (bytes : list Z) : Z :=
  Z.land (foldl (λ h b, Z.land (h * 257 + b + 1) hash_mask) 7 bytes * hash_spread) hash_mask.

#[export] Instance sodium : Sodium := {|
  crypto_hash_sha256 := hash;
  crypto_sign_detached key d := Some (hash (key ++ be_bytes 32 d));
  crypto_sign_verify_detached s d p := s =? hash (be_bytes 32 p ++ be_bytes 32 d) |}.

#[export] Instance messages : SodiumMessages := {|
  crypto_sign_ed25519_detached key msg := hash (key ++ msg);
  crypto_sign_ed25519_verify_detached s msg p := s =? hash (be_bytes 32 p ++ msg) |}.

#[export] Instance floats : FloatText := {| float_text z := pretty (Z.to_N z) |}.

#[export] Existing Instance Member.hex.

(** A person's key pair: the private bytes are those of the public key. *)
Definition pair_of (n : Z) : Ed25519Keypair := mkKeypair n (be_bytes 32 n).
Definition key_of (n : Z) : string := kEd25519Prefix +:+ to_base64 (be_bytes 32 n).
Definition device_id (n : Z) : string := derive_join_node_id (key_of n).
Definition group_id (n : Z) : string := "customer-" +:+ device_id n.

Definition policy : TreeOpPolicy := mkPolicy 77 [key_of 9] (key_of 1).

(** An op of a person, signed by the server. *)
Definition make (kind : TreeOpKind) (target : string) (version time nonce person : Z)
    (body : TreeOpBody) : TreeOp :=
  sign_tree_op (pair_of 9)
    (mkOp kTreeOpVersion 77 kind target version time nonce (key_of person) body "" 0 "" "").

Definition establish : TreeOp := make EstablishRoot "root" 0 1000 1 1 new_body.

(** A device that joins; [group] and [owner] are empty when it makes its own
    group. *)
Definition join_into (person nonce : Z) (name group owner : string) : TreeOp :=
  let challenge := be_bytes 32 (500 + nonce) in
  make Join (device_id person) 0 1000 nonce person
    (new_body <| ob_source := Device |>
              <| ob_join := mkJoin (key_of person) (to_base64 challenge)
                   (to_base64 (be_bytes 64 (hash (be_bytes 32 person ++ challenge))))
                   true name false "" "cpu" "mac" "eu" false group owner |>).

Definition join (person nonce : Z) (name : string) : TreeOp := join_into person nonce name "" "".

Definition delete (person : Z) (target : string) (version nonce : Z) : TreeOp :=
  make DeleteNode target version 1010 nonce person new_body.

Definition grant (person : Z) (group : string) (version nonce to : Z) (rights : list string) : TreeOp :=
  make SetAssignment group version 1010 nonce person
    (new_body <| ob_assignment_principal := key_of to |> <| ob_assignment_permissions := rights |>).

Definition leave (person nonce : Z) : TreeOp :=
  make DeleteAccount (device_id person) 0 1010 nonce person new_body.

(** A group record that names its maker admin. *)
Definition group_record (id parent : string) (person : Z) : TreeNode :=
  new_node <| tn_id := id |> <| tn_parent_id := parent |> <| tn_type := Customer |>
    <| tn_hostname := "group"%string |> <| tn_mgmt_pubkey := key_of person |>
    <| tn_assignments := [mkAssignment (key_of person) ["read"; "add_child"; "admin"]%string] |>.

Definition create (person : Z) (id parent : string) (nonce : Z) : TreeOp :=
  make CreateNode id 0 1020 nonce person (new_body <| ob_node := group_record id parent person |>).

Definition start : TreeChainState := mkChain ∅ ∅ 0 0.
Definition tree_block (ops : list TreeOp) (time_ms : Z) : TreeBlock := mkTreeBlock policy ops time_ms 5.

(** The root and two people, 2 and 3. *)
Definition founding : list TreeBlock :=
  [tree_block [establish; join 2 2 "alice"] 1000500; tree_block [join 3 3 "mallory"] 1001000].
End Village.
