(* ===== verification/TreeAddresses.v ===== *)
(** * Tunnel addresses

    The search of [first_free_tunnel_address] finds a free offset exactly when
    one exists, and the text it returns reads back as that offset, so that the
    next search counts it as used. *)

From S2P Require Import Prelude SecurityPolicy CanonicalEncoding Json EligibilityStore.
From S2P Require Import TreeTypes LinkToken TreeRules TreeOps.
From Stdlib Require Import Ascii.

(** ** The search *)

(** The outcome of a loop over the [n] steps from [start]. *)
Definition loop_outcome {A : Type} (n start : Z) (f : Z → option A) (r : option A) : Prop :=
  match r with
  | Some a => ∃ k, start <= k < start + n ∧ f k = Some a ∧ ∀ j, start <= j < k → f j = None
  | None => ∀ j, start <= j < start + n → f j = None
  end.

Lemma loop_outcome_app {A} n m start (f : Z → option A) r r' :
  0 <= n → 0 <= m → loop_outcome n start f r → loop_outcome m (start + n) f r' →
  loop_outcome (n + m) start f (match r with Some a => Some a | None => r' end).
Proof.
  intros Hn Hm. destruct r as [a|]; cbn.
  - intros (k & Hk & Hf & Hj) _. exists k. split_and!; [lia|lia|done|done].
  - intros Hj. destruct r' as [a|]; cbn.
    + intros (k & Hk & Hf & Hj'). exists k. split_and!; [lia|lia|done|].
      intros j Hj0. destruct (decide (j < start + n)); [apply Hj; lia|apply Hj'; lia].
    + intros Hj' j Hj0. destruct (decide (j < start + n)); [apply Hj; lia|apply Hj'; lia].
Qed.

Lemma loop_outcome_one {A} start (f : Z → option A) : loop_outcome 1 start f (f start).
Proof.
  destruct (f start) as [a|] eqn:E; cbn.
  - exists start. split_and!; [lia|lia|done|]. intros j Hj. lia.
  - intros j Hj. by replace j with start by lia.
Qed.

Lemma first_step_outcome {A} p start (f : Z → option A) :
  loop_outcome (Zpos p) start f (first_step p start f).
Proof.
  revert start. induction p as [q IH|q IH|]; intros start; cbn [first_step].
  - replace (Zpos q~1) with (1 + (Zpos q + Zpos q)) by lia.
    apply loop_outcome_app; [lia|lia|apply loop_outcome_one|].
    apply loop_outcome_app; [lia|lia|apply IH|apply IH].
  - replace (Zpos q~0) with (Zpos q + Zpos q) by lia.
    apply loop_outcome_app; [lia|lia|apply IH|apply IH].
  - apply loop_outcome_one.
Qed.

(** ** The text of an address *)

Lemma take_digits_app digits rest :
  forallb is_digit_char digits = true →
  match rest with c :: _ => is_digit_char c = false | [] => True end →
  take_digits (digits ++ rest) = (digits, rest).
Proof.
  intros Hd Hr. induction digits as [|c digits IH]; cbn in *.
  - destruct rest as [|c rest]; [done|]. cbn. by rewrite Hr.
  - apply andb_true_iff in Hd as [-> Hd]. by rewrite IH.
Qed.

Definition octet_digits (v : Z) : list ascii := String.list_ascii_of_string (pretty (Z.to_N v)).

Definition octet_digits_ok (v : Z) : bool :=
  let d := octet_digits v in
  forallb is_digit_char d && negb (bool_decide (d = [])) && (length d <=? 3)%nat && (digits_value d =? v).

Lemma octet_digits_table : forallb octet_digits_ok (seqZ 0 256) = true.
Proof. vm_compute. reflexivity. Qed.

Lemma octet_digits_all v : 0 <= v < 256 → octet_digits_ok v = true.
Proof.
  intros Hv. pose proof octet_digits_table as Ht. rewrite forallb_forall in Ht.
  apply Ht, list_elem_of_In, elem_of_seqZ. lia.
Qed.

Lemma read_octet_digits v rest :
  0 <= v < 256 → match rest with c :: _ => is_digit_char c = false | [] => True end →
  read_octet (octet_digits v ++ rest) = Some (v, rest).
Proof.
  intros Hv Hr. pose proof (octet_digits_all v Hv) as Ho. unfold octet_digits_ok in Ho. cbv zeta in Ho.
  rewrite !andb_true_iff, negb_true_iff, Nat.leb_le, Z.eqb_eq in Ho.
  destruct Ho as [[[Hd Hne] Hl] Hval].
  unfold read_octet. rewrite take_digits_app by done. rewrite Hne, Hval.
  rewrite (proj2 (Nat.ltb_ge _ _)), (proj2 (Z.ltb_ge _ _)) by lia. done.
Qed.

Lemma list_ascii_app s t :
  String.list_ascii_of_string (s +:+ t) = String.list_ascii_of_string s ++ String.list_ascii_of_string t.
Proof. induction s as [|c s IH]; [done|]. change (c :: String.list_ascii_of_string (s +:+ t) = c :: (String.list_ascii_of_string s ++ String.list_ascii_of_string t)). by rewrite IH. Qed.

Lemma octet_value v shift : 0 <= shift → Z.land (Z.shiftr v shift) 255 = (v / 2 ^ shift) mod 256.
Proof. intros Hs. rewrite Z.shiftr_div_pow2 by done. by rewrite (Z.land_ones _ 8). Qed.

Lemma drop_prefix_length_app l : drop_prefix_length (l ++ ["/"; "3"; "2"]%char) = Some l.
Proof.
  unfold drop_prefix_length. rewrite reverse_app.
  change (reverse ["/"; "3"; "2"]%char ++ reverse l) with ("2" :: "3" :: "/" :: reverse l)%char.
  cbn [Ascii.eqb Bool.eqb andb]. by rewrite reverse_involutive.
Qed.

Lemma tunnel_base_masked offset :
  0 <= offset < 2 ^ 22 → Z.land (kTunnelBase + offset) kTunnelMask = kTunnelBase.
Proof.
  intros Ho. change kTunnelMask with (Z.shiftl 1023 22). change kTunnelBase with (Z.shiftl 41 22).
  rewrite !Z.shiftl_mul_pow2 by lia. apply Z.bits_inj'. intros n Hn. rewrite Z.land_spec.
  destruct (decide (n < 22)).
  - rewrite !Z.mul_pow2_bits_low by lia. by rewrite andb_false_r.
  - rewrite !Z.mul_pow2_bits by lia.
    replace (41 * 2 ^ 22 + offset) with (offset + 41 * 2 ^ 22) by lia.
    replace n with ((n - 22) + 22) at 1 by lia. rewrite <-Z.div_pow2_bits by lia.
    rewrite Z.div_add by lia. rewrite (Z.div_small offset) by lia. rewrite Z.add_0_l.
    destruct (decide (n - 22 < 10)) as [Hlt|Hge].
    + change 1023 with (Z.ones 10). rewrite Z.ones_spec_low by lia. by rewrite andb_true_r.
    + rewrite (Z.bits_above_log2 41), (Z.bits_above_log2 1023); [done|lia| |lia|]; cbn; lia.
Qed.

Lemma tunnel_address_round_trip offset :
  0 <= offset < 2 ^ 22 → tunnel_offset (tunnel_address_text offset) = Some offset.
Proof.
  intros Ho. set (v := kTunnelBase + offset).
  assert (Hv : 0 <= v < 2 ^ 32) by (unfold v, kTunnelBase; lia).
  assert (Htext : String.list_ascii_of_string (tunnel_address_text offset) =
    (octet_digits ((v / 2 ^ 24) mod 256) ++ "."%char :: octet_digits ((v / 2 ^ 16) mod 256) ++ "."%char ::
     octet_digits ((v / 2 ^ 8) mod 256) ++ "."%char :: octet_digits ((v / 2 ^ 0) mod 256)) ++
    ["/"; "3"; "2"]%char).
  { unfold tunnel_address_text, octet_text. fold v. rewrite !list_ascii_app, !octet_value by lia.
    unfold octet_digits. cbn [String.list_ascii_of_string]. rewrite <-!app_assoc. cbn [app].
    rewrite <-!app_assoc. cbn [app]. by rewrite <-!app_assoc. }
  unfold tunnel_offset. rewrite Htext, drop_prefix_length_app. cbn [mbind option_bind].
  assert (Hb : ∀ s, 0 <= (v / 2 ^ s) mod 256 < 256) by (intros s; by apply Z.mod_pos_bound).
  do 3 (rewrite read_octet_digits by done; cbn [mbind option_bind read_dot Ascii.eqb Bool.eqb andb]).
  rewrite <-(app_nil_r (octet_digits ((v / 2 ^ 0) mod 256))), read_octet_digits by done.
  cbn [mbind option_bind]. cbv zeta.
  assert (Hsum : (((v / 2 ^ 24) mod 256 * 256 + (v / 2 ^ 16) mod 256) * 256 + (v / 2 ^ 8) mod 256) * 256
                 + (v / 2 ^ 0) mod 256 = v).
  { change (2 ^ 24) with 16777216. change (2 ^ 16) with 65536. change (2 ^ 8) with 256.
    change (2 ^ 0) with 1. change (2 ^ 32) with 4294967296 in Hv. clear Htext Hb.
    Z.to_euclidean_division_equations. lia. }
  rewrite Hsum. unfold v at 1. rewrite tunnel_base_masked, Z.eqb_refl by done.
  rewrite bool_decide_eq_true_2 by done. cbn. unfold v. f_equal. lia.
Qed.

(** ** The address of a device *)

Section addresses.
Context `{TextCodec, HexCodec, Sodium}.

Definition in_tunnel_range (offset : Z) : Prop :=
  kTreeTunnelFirstOffset <= offset <= kTreeTunnelLastOffset.

(** The offsets the search visits are those of the range. *)
Lemma visited_offset start k :
  in_tunnel_range (kTreeTunnelFirstOffset + (start + k) mod Zpos kTunnelSpan).
Proof.
  pose proof (Z.mod_pos_bound (start + k) (Zpos kTunnelSpan)).
  unfold in_tunnel_range, kTreeTunnelFirstOffset, kTreeTunnelLastOffset, kTunnelSpan in *. lia.
Qed.

Lemma offset_visited start offset :
  in_tunnel_range offset →
  ∃ k, 0 <= k < Zpos kTunnelSpan ∧
       offset = kTreeTunnelFirstOffset + (start + k) mod Zpos kTunnelSpan.
Proof.
  intros Ho. exists ((offset - kTreeTunnelFirstOffset - start) mod Zpos kTunnelSpan).
  split; [by apply Z.mod_pos_bound|]. rewrite Zplus_mod_idemp_r.
  replace (start + (offset - kTreeTunnelFirstOffset - start)) with (offset - kTreeTunnelFirstOffset) by lia.
  unfold in_tunnel_range, kTreeTunnelFirstOffset, kTreeTunnelLastOffset, kTunnelSpan in *.
  rewrite Z.mod_small; lia.
Qed.

Lemma in_range_small offset : in_tunnel_range offset → 0 <= offset < 2 ^ 22.
Proof. unfold in_tunnel_range, kTreeTunnelFirstOffset, kTreeTunnelLastOffset. lia. Qed.

Lemma tunnel_text_nonempty offset : in_tunnel_range offset → tunnel_address_text offset ≠ ""%string.
Proof.
  intros Ho E. pose proof (tunnel_address_round_trip offset (in_range_small _ Ho)) as Hr.
  by rewrite E in Hr.
Qed.

Lemma first_free_spec used node_id :
  (∃ offset, in_tunnel_range offset ∧ offset ∉ used ∧
     first_free_tunnel_address used node_id = tunnel_address_text offset) ∨
  ((∀ offset, in_tunnel_range offset → offset ∈ used) ∧
   first_free_tunnel_address used node_id = ""%string).
Proof.
  unfold first_free_tunnel_address. cbv zeta.
  match goal with |- context [first_step kTunnelSpan 0 ?g] => set (f := g) end.
  pose proof (first_step_outcome kTunnelSpan 0 f) as Hs.
  destruct (first_step _ _ _) as [r|]; cbn in Hs.
  - left. destruct Hs as (k & _ & Hk & _). unfold f in Hk.
    case_bool_decide as Hin; [done|]. injection Hk as <-.
    eexists. split_and!; [apply visited_offset|exact Hin|done].
  - right. split; [|done]. intros offset Ho.
    destruct (offset_visited (tunnel_start node_id) offset Ho) as (k & Hk & ->).
    specialize (Hs k ltac:(lia)). unfold f in Hs. by case_bool_decide.
Qed.

Lemma elem_of_used_offsets (nodes : NodeMap) offset :
  offset ∈ used_offsets (map_to_list nodes).*2 ↔
  ∃ id n, nodes !! id = Some n ∧ tunnel_offset (tn_tunnel_ip n) = Some offset.
Proof.
  unfold used_offsets. rewrite elem_of_list_to_set, list_elem_of_omap. split.
  - intros (n & Hn & Ho). apply list_elem_of_fmap in Hn as ([id m] & -> & Hm%elem_of_map_to_list). eauto.
  - intros (id & n & Hn & Ho). exists n. split; [|done]. apply list_elem_of_fmap. exists (id, n).
    by rewrite elem_of_map_to_list.
Qed.
End addresses.
