(* ===== verification/TreeTheorems.v ===== *)
(** * The permission tree: what holds of it

    The properties of the tree's operations and blocks. Each is applied to the
    small network of TreeReplay after it. *)

From S2P Require Import Prelude SecurityPolicy CanonicalEncoding Json EligibilityLedger.
From S2P Require Import EligibilityStore TestCodec EligibilityServiceTheorems TreeTypes LinkToken.
From S2P Require Import TreeRules TreeOps TreeValidation TreeCodec TreeRoundTrip TreeFacts.
From S2P Require Import TreeInvariants TreeAuthority TreeReplay.
From S2P Require Import TreeAddresses.

(** ** Replicas *)

Section replicas.
Context `{TextCodec, HexCodec, Sodium, SodiumMessages, FloatText}.

(** The ops pass the checked steps exactly when they pass the plain steps and
    each validates in the state that the ops before it leave. *)
Lemma checked_ops policy t ops : ∀ i s r,
  run_ops (checked_step policy t) ops i s = inr r ↔
  run_ops step_op ops i s = inr r ∧
  ∀ j op, ops !! j = Some op → ∃ before effects, run_ops step_op (take j ops) i s = inr (before, effects) ∧
    validate_op op (ch_nodes before) policy t (ch_committed before) = None.
Proof.
  induction ops as [|op ops IH]; intros i s r; cbn [run_ops].
  { split; [|by intros [? _]]. intros E. split; [done|]. by intros j op'; rewrite lookup_nil. }
  unfold checked_step at 1. destruct (validate_op op _ _ _ _) as [v|] eqn:Ev.
  { split; [done|]. intros [_ Hv]. destruct (Hv O op eq_refl) as (before & es & E & Hn).
    cbn in E. injection E as <- <-. congruence. }
  destruct (step_op op s) as [v|[s1 e]] eqn:Es; [split; [done|by intros [? _]]|]. split.
  - destruct (run_ops (checked_step policy t) ops (S i) s1) as [|r1] eqn:Er; [done|].
    apply IH in Er as [Er Hv]. intros E. rewrite Er. split; [done|]. intros [|j] op'; cbn [lookup list_lookup take].
    + intros Eo. apply (inj Some) in Eo as <-. by exists s, [].
    + intros Hj. destruct (Hv j op' Hj) as (before & es & Eb & Hn). exists before, (e :: es).
      split; [|done]. cbn [run_ops]. by rewrite Es, Eb.
  - intros [E Hv]. destruct (run_ops step_op ops (S i) s1) as [|[s2 es]] eqn:Er; [done|].
    assert (Hc : run_ops (checked_step policy t) ops (S i) s1 = inr (s2, es)).
    { apply IH. split; [done|]. intros j op' Hj. destruct (Hv (S j) op' Hj) as (before & es' & Eb & Hn).
      cbn [take run_ops] in Eb. rewrite Es in Eb.
      destruct (run_ops step_op (take j ops) (S i) s1) as [|[b' es1]] eqn:Ej; [done|].
      injection Eb as <- _. by exists b', es1. }
    by rewrite Hc.
Qed.

Lemma checked_batch_shape policy batch t d s r :
  check_batch policy batch t d s = inr r → batch_shape batch t s = None.
Proof. unfold check_batch. by destruct (batch_shape batch t s). Qed.

Lemma checked_batch_applies policy batch t d s r :
  check_batch policy batch t d s = inr r → apply_certified_batch batch t d s = inr r.
Proof.
  rewrite check_batch_run, apply_certified_batch_run. unfold run_block. destruct (batch_shape _ _ _); [done|].
  destruct (run_ops (checked_step _ _) _ _ _) as [|r1] eqn:Er; [done|]. by apply checked_ops in Er as [-> _].
Qed.

(** What the selection took runs, within the limits. *)
Lemma select_from_runs policy t limit max_wire candidates taken bytes wire s i :
  let out := select_from policy t limit max_wire candidates taken bytes wire s in
  (∃ r, run_ops (checked_step policy t) (se_batch out) i s = inr r) ∧
  (length (se_batch out) + taken <= Nat.max limit taken)%nat ∧
  (bytes <= kMaxTreeBatchOpBytes → bytes + tree_batch_op_bytes (se_batch out) <= kMaxTreeBatchOpBytes).
Proof.
  revert taken bytes wire s i.
  assert (Hnil : ∀ taken bytes s i,
    (∃ r, run_ops (checked_step policy t) [] i s = inr r) ∧
    (length (@nil TreeOp) + taken <= Nat.max limit taken)%nat ∧
    (bytes <= kMaxTreeBatchOpBytes → bytes + tree_batch_op_bytes [] <= kMaxTreeBatchOpBytes)).
  { intros. split_and!; [by eexists|cbn; lia|unfold tree_batch_op_bytes; cbn; lia]. }
  induction candidates as [|op rest IH]; intros taken bytes wire s i; cbn [select_from]; [apply Hnil|].
  destruct (Nat.leb_spec limit taken); [apply Hnil|]. cbv zeta.
  destruct (_ || _) eqn:Elim; [apply IH|]. apply orb_false_iff in Elim as [Eb _].
  destruct (checked_step policy t op s) as [r|[s1 e]] eqn:Es; cbn [se_batch]; [apply IH|].
  destruct (IH (S taken) (bytes + Z.of_nat (length (encode_tree_op op)))
              (wire + (4 + Z.of_nat (length (encode_tree_op op)) + 64)) s1 (S i)) as ((r & Hr) & Hl & Hb).
  split_and!.
  - cbn [run_ops]. rewrite Es, Hr. destruct r. by eexists.
  - cbn [length]. lia.
  - intros _. unfold tree_batch_op_bytes at 1. rewrite batch_bytes_cons.
    fold (tree_batch_op_bytes (se_batch (select_from policy t limit max_wire rest (S taken)
      (bytes + Z.of_nat (length (encode_tree_op op)))
      (wire + (4 + Z.of_nat (length (encode_tree_op op)) + 64)) s1))). lia.
Qed.

(** The selection of a leader passes the check of a block. *)
Lemma selection_checks policy candidates block_time_ms max_ops max_wire_bytes ops_digest state :
  let selected := se_batch (select_batch policy candidates block_time_ms max_ops max_wire_bytes state) in
  selected ≠ [] → ∃ result, check_batch policy selected block_time_ms ops_digest state = inr result.
Proof.
  unfold select_batch. cbv zeta.
  destruct (Z.leb_spec block_time_ms (ch_last_block_time_ms state)); [done|]. intros Hne.
  destruct (select_from_runs policy (block_time_ms / 1000) (Nat.min max_ops kMaxTreeBatchOps)
              max_wire_bytes candidates O 0 2 state O) as ((r & Hr) & Hl & Hb).
  rewrite check_batch_run. unfold run_block. rewrite Hr.
  replace (batch_shape _ _ _) with (@None (TreeOpRefusal * string)); [destruct r; by eexists|].
  symmetry. unfold batch_shape. rewrite !and_then_none, !refuse_when_none. split_and!.
  - by apply bool_decide_eq_false.
  - apply Nat.ltb_ge. lia.
  - apply Z.ltb_ge. apply Hb. done.
  - by apply Z.leb_gt.
Qed.

(** C23: The two loops that apply a block agree: the check before the vote
    accepts a block exactly when the application of the certified block accepts
    it and every op validates, for its index, in the tree and with the ids that
    the certified application of the ops before it leaves; and then both give
    the same tree, ids, root and effects. *)
Theorem certified_batch_agrees policy batch block_time_ms ops_digest state result :
  check_batch policy batch block_time_ms ops_digest state = inr result ↔
  apply_certified_batch batch block_time_ms ops_digest state = inr result ∧
  ∀ i op, batch !! i = Some op →
    ∃ before effects, certified_loop (take i batch) O state [] = inr (before, effects) ∧
      validate_op op (ch_nodes before) policy (block_time_ms / 1000) (ch_committed before) = None.
Proof.
  rewrite check_batch_run, apply_certified_batch_run. unfold run_block.
  destruct (batch_shape _ _ _); [split; [done|by intros [? _]]|].
  setoid_rewrite certified_loop_run. pose proof (checked_ops policy (block_time_ms / 1000) batch O state) as Hops.
  assert (Hloop : ∀ i before effects, match run_ops step_op (take i batch) 0 state with
      | inl r => inl r | inr (s', more) => inr (s', [] ++ more) end = inr (before, effects) ↔
      run_ops step_op (take i batch) 0 state = inr (before, effects)).
  { intros i before effects. destruct (run_ops step_op (take i batch) 0 state) as [|[]]; reflexivity. }
  setoid_rewrite Hloop. split.
  - destruct (run_ops (checked_step _ _) _ _ _) as [|r]; [intros [=]|].
    destruct (proj1 (Hops r) eq_refl) as [-> Hv]. by split.
  - intros [Ha Hv]. destruct (run_ops step_op batch O state) as [|r]; [done|].
    by rewrite (proj2 (Hops r) (conj eq_refl Hv)).
Qed.

(** The batch a leader selects passes every replica's check, whatever the
    candidates are; and the leader does select one: a first candidate that is
    valid at the block time and fits the limits is in it. *)
Theorem selected_batch_accepted policy candidates block_time_ms max_ops max_wire_bytes ops_digest state :
  let selected := se_batch (select_batch policy candidates block_time_ms max_ops max_wire_bytes state) in
  (selected ≠ [] → ∃ result, check_batch policy selected block_time_ms ops_digest state = inr result) ∧
  (∀ op rest result, candidates = op :: rest → ch_last_block_time_ms state < block_time_ms →
     checked_step policy (block_time_ms / 1000) op state = inr result → (0 < max_ops)%nat →
     Z.of_nat (length (encode_tree_op op)) <= kMaxTreeBatchOpBytes →
     2 + 4 + Z.of_nat (length (encode_tree_op op)) + 64 <= max_wire_bytes →
     ∃ more, selected = op :: more).
Proof.
  cbv zeta. split; [apply selection_checks|]. unfold select_batch.
  intros op rest result -> Hlt Hs Hm Hb Hw.
  rewrite (proj2 (Z.leb_gt _ _)) by done. cbn [select_from].
  rewrite (proj2 (Nat.leb_gt _ _)) by (unfold kMaxTreeBatchOps; lia). cbv zeta.
  rewrite (proj2 (Z.ltb_ge _ _)) by lia. rewrite (proj2 (Z.ltb_ge _ _)) by lia. cbn [orb].
  rewrite Hs. destruct result as [s1 e]. by eexists.
Qed.

Lemma block_keeps_wf b state state' effects :
  tree_wf (ch_nodes state) →
  check_batch (tb_policy b) (tb_batch b) (tb_time_ms b) (tb_ops_digest b) state = inr (state', effects) →
  tree_wf (ch_nodes state').
Proof.
  rewrite check_batch_run. intros Hwf (_ & next & Hr & ->)%run_block_inv. cbn [finish_block ch_nodes].
  eapply (run_ops_preserves (λ s, tree_wf (ch_nodes s))); [|exact Hwf|exact Hr].
  intros op s s' e Hs (Hac & Hp & (_ & ->)%step_op_inv)%checked_step_inv. by eapply accepted_keeps_wf.
Qed.

Lemma chain_keeps_wf blocks state state' :
  tree_wf (ch_nodes state) → run_chain blocks state = Some state' → tree_wf (ch_nodes state').
Proof.
  revert state. induction blocks as [|b blocks IH]; intros state Hwf; cbn [run_chain].
  - by intros [= <-].
  - destruct (check_batch _ _ _ _ _) as [|[s1 es]] eqn:Eb; [done|]. apply IH. by eapply block_keeps_wf.
Qed.

(** C17: Every chain of checked blocks keeps the tree well formed: each node is
    stored under its own id, mesh keys and endpoint identifiers are unique, and
    the only node without a parent and the only one of type root is the root. *)
Theorem tree_stays_well_formed blocks state state' :
  tree_wf (ch_nodes state) → run_chain blocks state = Some state' → tree_wf (ch_nodes state').
Proof. apply chain_keeps_wf. Qed.


(** C6: In a chain of checked blocks nothing is applied twice: no two of its
    operations carry the same content, no two wrap the same signed client delta,
    and no two redeem the same invite, although recorded ids are pruned. *)
Theorem op_applied_once blocks state state' :
  Forall (λ b, Forall op_fits (tb_batch b) ∧ 0 <= tb_time_ms b) blocks →
  run_chain blocks state = Some state' →
  NoDup (carried_op <$> chain_ops blocks) ∧
  NoDup (omap (λ op, if bool_decide (ob_source (op_body op) = Delta)
                     then Some (ob_delta (op_body op)) else None) (chain_ops blocks)) ∧
  NoDup (omap (λ op, (λ grant, (le_token_hash grant, le_expires_at grant)) <$>
                     ob_invite_grant (op_body op)) (chain_ops blocks)).
Proof.
  intros Hb Hr. destruct (used_up_chain _ _ _ Hb Hr) as [_ _ _ Ha Hac]. split_and!.
  - replace (carried_op <$> chain_ops blocks) with (omap (λ o, Some (carried_op o)) (chain_ops blocks));
      [|by generalize (chain_ops blocks); intros l; induction l as [|x l IH]; cbn; [|rewrite IH]].
    apply apart_nodup; [|done]. intros o o' k Ho Ho' Hk%(inj Some) Hk'%(inj Some).
    assert (E : carried_op o = carried_op o') by congruence.
    exists (op_id_hex o, op_signed_at o + kTreeOpMaxAgeSec). split; [by left|].
    assert (Hid : ∀ x, x ∈ chain_ops blocks → op_id x = digest (encode_tree_op x)).
    { intros x (n & p & t & c & Hx)%Hac. pose proof (ac_binding _ _ _ _ _ Hx) as Hv.
      unfold binding_verdict in Hv. rewrite !and_then_none, !refuse_when_none, !negb_false_iff in Hv.
      destruct Hv as (_ & _ & Heq). symmetry. by apply Z.eqb_eq. }
    assert (op_id_hex o = op_id_hex o' ∧ op_signed_at o = op_signed_at o') as [-> ->]; [|by left].
    split; [|by apply (f_equal op_signed_at) in E]. unfold op_id_hex. rewrite !Hid by done.
    by rewrite <-(carried_encoding o), <-(carried_encoding o'), E.
  - apply apart_nodup; [|done]. intros o o' k _ _ Hk Hk'.
    case_bool_decide as Hs; [|done]. case_bool_decide as Hs'; [|done].
    injection Hk as Hk. injection Hk' as Hk'.
    unfold marks, delta_mark, statement_id_hex. rewrite Hs, Hs', Hk, Hk'.
    eexists. split; right; apply elem_of_app; left; by left.
  - apply apart_nodup; [|done]. intros o o' k _ _ Hk Hk'.
    apply fmap_Some in Hk as (g & Hg & ->). apply fmap_Some in Hk' as (g' & Hg' & [= Ht He]).
    unfold marks, grant_mark, redemption_id_hex. rewrite Hg, Hg'. cbn. rewrite Ht, He.
    eexists. split; right; apply elem_of_app; right; by left.
Qed.

(** The tunnel address the tree derives for a device lies in the range kept
    for devices, no node has it, and it reads back as the offset it encodes; the
    derivation gives none only when every address of the range is taken. *)
Theorem derived_address_free (nodes : NodeMap) node_id :
  let address := derive_tunnel_address nodes node_id in
  (∃ offset, kTreeTunnelFirstOffset <= offset <= kTreeTunnelLastOffset ∧
     address = tunnel_address_text offset ∧ tunnel_offset address = Some offset ∧
     ∀ id n, nodes !! id = Some n → tunnel_offset (tn_tunnel_ip n) ≠ Some offset) ∨
  (address = ""%string ∧
   ∀ offset, kTreeTunnelFirstOffset <= offset <= kTreeTunnelLastOffset →
     ∃ id n, nodes !! id = Some n ∧ tunnel_offset (tn_tunnel_ip n) = Some offset).
Proof.
  unfold derive_tunnel_address. cbv zeta.
  destruct (first_free_spec (used_offsets (map_to_list nodes).*2) node_id)
    as [(offset & Ho & Hfree & ->)|[Hall ->]].
  - left. exists offset. split_and!; [apply Ho|apply Ho|done|by apply tunnel_address_round_trip, in_range_small|].
    intros id n Hn E. apply Hfree, elem_of_used_offsets. eauto.
  - right. split; [done|]. intros offset Ho. by apply elem_of_used_offsets, Hall.
Qed.

(** ** Account deletion *)

Lemma ov_find_erase_all ids o id :
  ov_find id (foldl (λ o id, ov_erase id o) o ids) = if decide (id ∈ ids) then None else ov_find id o.
Proof.
  revert o. induction ids as [|x ids IH]; intros o; cbn [foldl]; [done|]. rewrite IH.
  unfold ov_erase. rewrite ov_find_put_at. repeat case_decide; set_solver.
Qed.

Definition without_entries (drop : Assignment → bool) (n : TreeNode) : TreeNode :=
  n <| tn_assignments := filter (λ a, drop a = false) (tn_assignments n) |>.

Lemma filter_kept drop l : existsb drop l = false → filter (λ a : Assignment, drop a = false) l = l.
Proof.
  induction l as [|a l IH]; [done|]. cbn [existsb]. intros [Ha Hl]%orb_false_iff.
  rewrite filter_cons_True by done. by rewrite IH.
Qed.

Lemma sweep_once drop keep o x id :
  (∀ n, keep (without_entries drop n) = keep n) →
  ov_find id (sweep_node drop keep o x) =
  (λ n, if decide (id = x) then if keep n then n else without_entries drop n else n) <$> ov_find id o.
Proof.
  intros Hk. unfold sweep_node. destruct (decide (id = x)) as [->|Hne].
  - destruct (ov_find x o) as [n|] eqn:En; [|by rewrite En].
    destruct (keep n) eqn:Ek; cbn [orb]; [by rewrite En; cbn; rewrite Ek|].
    destruct (existsb drop (tn_assignments n)) eqn:Ed; cbn [negb].
    + rewrite ov_find_edit, decide_True, En by done. cbn. by rewrite Ek.
    + rewrite En. cbn. rewrite Ek. f_equal. unfold without_entries. rewrite filter_kept by done. by destruct n.
  - transitivity (ov_find id o); [|by destruct (ov_find id o)]. repeat case_match; try done.
    rewrite ov_find_edit. by case_decide.
Qed.

Lemma without_entries_twice drop n : without_entries drop (without_entries drop n) = without_entries drop n.
Proof.
  unfold without_entries. destruct n. cbn. by rewrite list_filter_filter_l.
Qed.

Lemma sweep_all drop keep ids o id :
  (∀ n, keep (without_entries drop n) = keep n) →
  ov_find id (foldl (sweep_node drop keep) o ids) =
  (λ n, if decide (id ∈ ids) then if keep n then n else without_entries drop n else n) <$> ov_find id o.
Proof.
  intros Hk. revert o. induction ids as [|x ids IH]; intros o; cbn [foldl].
  - destruct (ov_find id o); [|done]. cbn. by rewrite decide_False by apply not_elem_of_nil.
  - rewrite IH, sweep_once by done. destruct (ov_find id o) as [n|]; [|done]. cbn. f_equal.
    destruct (decide (id = x)) as [->|Hne].
    + rewrite (decide_True (P := x ∈ x :: ids)) by (by left).
      destruct (keep n) eqn:Ek; [by rewrite Ek; case_decide|]. rewrite Hk, Ek. case_decide; [|done].
      by rewrite without_entries_twice.
    + rewrite (decide_ext (id ∈ x :: ids) (id ∈ ids)) by set_solver. done.
Qed.

(** Deleting an account removes exactly the nodes its key owns and
    everything beneath them, whoever owns that, and no other node. The nodes
    that stay keep every field but their access entries: the entries of the
    account's key, and of keys whose every device went with it, are dropped,
    except on the root. *)
Theorem account_deletion_exact policy t op state state' effect :
  tree_wf (ch_nodes state) → op_kind op = DeleteAccount →
  canonical_principal (op_principal op) ≠ ""%string →
  checked_step policy t op state = inr (state', effect) →
  let scope := account_scope (ch_nodes state) (op_principal op) in
  (∀ id, is_Some (ch_nodes state' !! id) ↔
     is_Some (ch_nodes state !! id) ∧ ¬ doomed_by (ch_nodes state) (canonical_principal (op_principal op)) id) ∧
  (∀ id n', ch_nodes state' !! id = Some n' →
     ∃ n version, ch_nodes state !! id = Some n ∧
       n' = with_version version
              (if decide (id = "root"%string) then n
               else without_entries
                 (λ a, mentions (canonical_principal (management_pubkey a)) (swept_keys scope)) n)).
Proof.
  intros Hwf Hk Hne (Hac & Hp & (_ & ->)%step_op_inv)%checked_step_inv. cbv zeta. cbn [ch_nodes].
  set (nodes := ch_nodes state) in *. set (scope := account_scope nodes (op_principal op)).
  apply plan_op_overlay in Hp as (o & Ho & ->).
  destruct (accepted_plan_good _ _ _ _ _ _ Hac Hwf Ho) as [Hbase Hok].
  set (drop := λ a, mentions (canonical_principal (management_pubkey a)) (swept_keys scope)).
  assert (Hfind : ∀ id, ov_find id o =
    if decide (id ∈ removed scope) then None
    else (λ n, if decide (id = "root"%string) then n else without_entries drop n) <$> nodes !! id).
  { intros id. unfold plan_overlay in Ho. cbv zeta in Ho. rewrite Hk in Ho. injection Ho as <-.
    unfold plan_delete_account. cbv zeta. fold scope. rewrite bool_decide_eq_false_2.
    - rewrite sweep_all by done. rewrite ov_find_erase_all, ov_find_new.
      destruct (decide (id ∈ removed scope)); [done|]. destruct (nodes !! id) as [x|] eqn:En; [|done]. cbn.
      rewrite decide_True by (apply elem_of_sorted_ids; eauto). f_equal.
      pose proof (ok_root_type _ Hwf _ _ En) as Ht. pose proof (ok_top _ Hwf _ _ En) as Hp.
      case_decide as Hid.
      + unfold is_type. rewrite bool_decide_eq_true_2 by tauto. done.
      + unfold is_type. rewrite bool_decide_eq_false_2 by tauto. cbn [orb].
        rewrite (proj2 (is_empty_false _)) by tauto. done.
    - intros E. assert (Hin : canonical_principal (op_principal op) ∈ swept_keys scope)
        by (apply elem_of_swept; [done|by left]). rewrite E in Hin. by apply not_elem_of_nil in Hin. }
  assert (Hkey : ∀ i n, ov_find i o = Some n → tn_id n = i) by (intros i n Hn; by apply (ok_keyed _ Hok)).
  split.
  - intros id. rewrite <-(elem_of_removed _ _ _ Hne). fold scope.
    assert (Hsome : is_Some (apply_effect (ov_effect o) nodes !! id) ↔ is_Some (ov_find id o)).
    { rewrite <-Hbase, apply_lookup. unfold ov_find. by destruct (changes_ o !! id) as [[]|]. }
    rewrite Hsome, Hfind. case_decide; [split; [by intros []|tauto]|]. rewrite fmap_is_Some. tauto.
  - intros id n' Hn'. rewrite <-Hbase in Hn'. destruct (apply_find o id n' Hkey Hn') as (m & v & Hm & ->).
    rewrite Hfind in Hm. case_decide; [done|]. apply fmap_Some in Hm as (n & Hn & ->). by exists n, v.
Qed.
End replicas.

(** ** The village *)

#[local] Existing Instance Village.sodium.
#[local] Existing Instance Village.messages.
#[local] Existing Instance Village.floats.
#[local] Existing Instance Member.hex.

Lemma is_inr_ex {A B} (x : A + B) : (match x with inl _ => false | inr _ => true end) = true → ∃ b, x = inr b.
Proof. destruct x as [|b]; [done|]. by exists b. Qed.

Lemma is_some_ex {A} (x : option A) : (match x with Some _ => true | None => false end) = true → ∃ a, x = Some a.
Proof. destruct x as [a|]; [|done]. by exists a. Qed.

Definition first_ops : TreeBatch := [Village.establish; Village.join 2 2 "alice"].

Lemma first_ops_checked :
  ∃ result, check_batch Village.policy first_ops 1000500 5 Village.start = inr result.
Proof. apply is_inr_ex. vm_compute. reflexivity. Qed.

Lemma certified_batch_agrees_witness :
  ∃ before effects result,
    apply_certified_batch first_ops 1000500 5 Village.start = inr result ∧
    certified_loop (take 1 first_ops) O Village.start [] = inr (before, effects) ∧
    validate_op (Village.join 2 2 "alice") (ch_nodes before) Village.policy (1000500 / 1000) (ch_committed before) = None.
Proof.
  destruct first_ops_checked as [r Hr]. apply certified_batch_agrees in Hr as [Ha Hv].
  destruct (Hv 1%nat (Village.join 2 2 "alice") eq_refl) as (before & effects & Hb & Hn).
  exists before, effects, r. exact (conj Ha (conj Hb Hn)).
Defined.

Lemma establish_checked : ∃ r, checked_step Village.policy 1000 Village.establish Village.start = inr r.
Proof. apply is_inr_ex. vm_compute. reflexivity. Qed.

Lemma selected_batch_accepted_witness :
  ∃ more, se_batch (select_batch Village.policy first_ops 1000500 16 4000 Village.start) =
          Village.establish :: more.
Proof.
  destruct establish_checked as [r Hr].
  destruct (selected_batch_accepted Village.policy first_ops 1000500 16 4000 5 Village.start) as [_ Hs].
  refine (Hs _ _ r eq_refl _ Hr _ _ _); [reflexivity|repeat constructor| |]; vm_compute; discriminate.
Defined.

Lemma founding_runs : ∃ s, run_chain Village.founding Village.start = Some s.
Proof. apply is_some_ex. vm_compute. reflexivity. Qed.

Lemma tree_stays_well_formed_witness :
  ∃ s, run_chain Village.founding Village.start = Some s ∧ tree_wf (ch_nodes s).
Proof.
  destruct founding_runs as [s Hs]. exists s. split; [exact Hs|].
  exact (tree_stays_well_formed Village.founding Village.start s tree_wf_empty Hs).
Defined.

Lemma new_node_fits : node_fits new_node.
Proof. by split. Qed.
Lemma new_delta_fits : delta_fits new_delta.
Proof. split; [apply new_node_fits|done]. Qed.

Lemma make_fits kind target version time nonce person body :
  is_u64 version → is_u64 time → 0 <= nonce < 256 ^ 16 →
  source_allowed kind (ob_source body) = true → ob_link_extension body = false →
  ob_invite_grant body = None → node_fits (ob_node body) → delta_fits (ob_delta body) →
  op_fits (Village.make kind target version time nonce person body).
Proof.
  intros Hv Ht Hn Hs Hl Hg Hnode Hdelta. unfold Village.make, sign_tree_op. cbv zeta.
  split; cbn; try done; [by rewrite Hl|by rewrite Hg].
Qed.

Lemma founding_fits :
  Forall (λ b, Forall op_fits (tb_batch b) ∧ 0 <= tb_time_ms b) Village.founding.
Proof.
  repeat constructor; try done; apply make_fits; try done; apply new_node_fits || apply new_delta_fits.
Qed.

Lemma op_applied_once_witness :
  ∃ s, run_chain Village.founding Village.start = Some s ∧
       NoDup (carried_op <$> chain_ops Village.founding).
Proof.
  destruct founding_runs as [s Hs]. exists s. split; [exact Hs|].
  exact (proj1 (op_applied_once Village.founding Village.start s founding_fits Hs)).
Defined.

Lemma hash_range bytes : is_signature (Village.hash bytes).
Proof.
  unfold Village.hash. change Village.hash_mask with (Z.ones 256). rewrite Z.land_ones by lia.
  unfold is_signature. pose proof (Z.mod_pos_bound
    (foldl (λ h b, Z.land (h * 257 + b + 1) (Z.ones 256)) 7 bytes * Village.hash_spread) (2 ^ 256)).
  change (256 ^ 64) with (2 ^ 256 * 2 ^ 256). nia.
Qed.

Lemma make_sendable kind target version time nonce person body :
  op_fits (Village.make kind target version time nonce person body) →
  sendable (Village.make kind target version time nonce person body).
Proof. intros Hf. split; [exact Hf|]. eexists. split; [apply hash_range|done]. Qed.

Lemma first_ops_sendable : Forall sendable first_ops.
Proof.
  destruct (proj1 (Forall_cons_1 _ _ _ founding_fits)) as [Hf _]. cbn [tb_batch] in Hf.
  apply Forall_cons_1 in Hf as [Ha [Hb _]%Forall_cons_1].
  constructor; [exact (make_sendable _ _ _ _ _ _ _ Ha)|].
  constructor; [exact (make_sendable _ _ _ _ _ _ _ Hb)|constructor].
Qed.

Lemma batch_round_trip_witness :
  ∃ bytes, encode_tree_batch first_ops = Some bytes ∧
           decode_tree_batch bytes = Some (received_op <$> first_ops).
Proof.
  apply batch_round_trip; [exact first_ops_sendable|discriminate|vm_compute; lia|].
  vm_compute. discriminate.
Defined.

(** Person 4 joins the group of person 2, who then lets it edit the group. *)
Definition household : list TreeBlock :=
  [Village.tree_block first_ops 1000500;
   Village.tree_block [Village.join_into 4 4 "bob" (Village.group_id 2) (Village.key_of 2)] 1001000].

Definition household_state : TreeChainState := default Village.start (run_chain household Village.start).

Lemma household_wf : tree_wf (ch_nodes household_state).
Proof.
  assert (Hb : ∃ s, run_chain household Village.start = Some s) by (apply is_some_ex; vm_compute; reflexivity).
  destruct Hb as [s Hs]. unfold household_state. rewrite Hs. cbn [default].
  exact (chain_keeps_wf household Village.start s tree_wf_empty Hs).
Qed.







Definition departure : TreeOp := Village.leave 2 6.

Lemma departure_checked :
  ∃ r, checked_step Village.policy 1001 departure household_state = inr r.
Proof. apply is_inr_ex. vm_compute. reflexivity. Qed.

Lemma departure_principal : canonical_principal (op_principal departure) ≠ ""%string.
Proof. vm_compute. discriminate. Qed.

Lemma account_deletion_exact_witness :
  ∃ s, (∃ e, checked_step Village.policy 1001 departure household_state = inr (s, e)) ∧
       ∀ id, is_Some (ch_nodes s !! id) ↔
         is_Some (ch_nodes household_state !! id) ∧
         ¬ doomed_by (ch_nodes household_state) (canonical_principal (op_principal departure)) id.
Proof.
  destruct departure_checked as [[s e] Hr]. exists s. split; [exists e; exact Hr|].
  exact (proj1 (account_deletion_exact _ _ departure _ _ _ household_wf eq_refl departure_principal Hr)).
Defined.

Definition seizure : list TreeBlock :=
  [Village.tree_block [Village.delete 2 (Village.group_id 2) 1 4] 1002000;
   Village.tree_block [Village.create 3 (Village.group_id 2) (Village.group_id 3) 5] 1003000].

Lemma seizure_outcome :
  match run_chain Village.founding Village.start with
  | Some before =>
      match run_chain seizure before with
      | Some after =>
          negb (administers (ch_nodes before) (Village.device_id 2) (Village.key_of 3)) &&
          administers (ch_nodes after) (Village.device_id 2) (Village.key_of 3)
      | None => false
      end
  | None => false
  end = true.
Proof. vm_compute. reflexivity. Qed.

(** Deleting a group leaves its devices behind, and whoever may create a
    node elsewhere can create the group's id again: after two accepted blocks
    (person 2 deletes its group, person 3 creates a group of that id under its
    own) person 3 administers the device of person 2. *)
Theorem deleted_group_taken_over :
  ∃ before after,
    run_chain Village.founding Village.start = Some before ∧
    run_chain seizure before = Some after ∧
    administers (ch_nodes before) (Village.device_id 2) (Village.key_of 3) = false ∧
    administers (ch_nodes after) (Village.device_id 2) (Village.key_of 3) = true.
Proof.
  pose proof seizure_outcome as E. destruct (run_chain Village.founding _) as [before|]; [|done].
  destruct (run_chain seizure before) as [after|] eqn:Ea; [|done].
  apply andb_true_iff in E as [Eb%negb_true_iff Ec]. by exists before, after.
Qed.
