(* ===== verification/TreeRole.v ===== *)
(** * Whether a server holds the tree

    Models [Tree/TreeRole.cpp]: the state machine that opens and closes the gate
    of the tree with finalized membership. The hooks are the owner's: they act
    on the server ([W]) and may read the role's state while they run. *)

From S2P Require Import Prelude.

Inductive MembershipView := ViewUnknown | ViewMember | ViewNonMember.
Inductive TreeRoleState := RolePending | RoleTier1 | RoleTier2.

#[export] Instance role_state_eq_dec : EqDecision TreeRoleState.
Proof. solve_decision. Defined.

Definition tree_role_state_name (state : TreeRoleState) : string :=
  match state with RolePending => "pending" | RoleTier1 => "tier1" | RoleTier2 => "tier2" end.

(** An unset hook is [None]. *)
Record RoleHooks (W : Type) := mkHooks {
  hk_enter : option (TreeRoleState → W → bool * W);
  hk_leave : option (TreeRoleState → W → W);
  hk_purge : option (TreeRoleState → W → W);
}.
Arguments mkHooks {W} _ _ _.
Arguments hk_enter {W} _.
Arguments hk_leave {W} _.
Arguments hk_purge {W} _.

Definition holds_tree (state : TreeRoleState) : bool := bool_decide (state = RoleTier1).

Section role.
Context {W : Type}.

Definition run_hook (hook : option (TreeRoleState → W → W)) (state : TreeRoleState) (w : W) : W :=
  match hook with Some f => f state w | None => w end.

Definition role_update (hooks : RoleHooks W) (view : MembershipView) (files_ready : bool)
    (current : TreeRoleState) (w : W) : TreeRoleState * W :=
  match view with
  | ViewMember =>
      if bool_decide (current = RoleTier1) || negb files_ready then (current, w)
      else
        match hk_enter hooks with
        | Some enter => let '(ok, w) := enter current w in (if ok then RoleTier1 else current, w)
        | None => (current, w)
        end
  | ViewNonMember =>
      if bool_decide (current = RoleTier2) then (current, w)
      else
        let w := run_hook (hk_leave hooks) RoleTier2 w in
        (RoleTier2, run_hook (hk_purge hooks) RoleTier2 w)
  | ViewUnknown =>
      if negb (bool_decide (current = RoleTier1)) then (current, w)
      else (RolePending, run_hook (hk_leave hooks) RolePending w)
  end.

Definition role_updates (hooks : RoleHooks W) (updates : list (MembershipView * bool))
    (start : TreeRoleState * W) : TreeRoleState * W :=
  foldl (λ st u, role_update hooks u.1 u.2 st.1 st.2) start updates.
End role.

(** ** Runs with a record of the hooks *)

Inductive RoleEvent := Entered | EnterFailed | Left | Purged.

#[export] Instance role_event_eq_dec : EqDecision RoleEvent.
Proof. solve_decision. Defined.

(** A server that records which hook ran and what the gate said, newest first;
    the answers of [enter] are given in advance. *)
Record RoleTrace := mkTrace { rt_answers : list bool; rt_events : list (RoleEvent * bool) }.

Definition note (e : RoleEvent) (state : TreeRoleState) (w : RoleTrace) : RoleTrace :=
  mkTrace (rt_answers w) ((e, holds_tree state) :: rt_events w).

Definition recording : RoleHooks RoleTrace :=
  mkHooks
    (Some (λ state w,
       match rt_answers w with
       | true :: rest => (true, note Entered state (mkTrace rest (rt_events w)))
       | _ :: rest => (false, note EnterFailed state (mkTrace rest (rt_events w)))
       | [] => (false, note EnterFailed state w)
       end))
    (Some (note Left)) (Some (note Purged)).

(** What ran, without the failed attempts to enter. *)
Definition completed (w : RoleTrace) : list RoleEvent :=
  filter (λ e, e ≠ EnterFailed) (rt_events w).*1.

(** What the state and the recorded events say together. *)
Record role_ok (state : TreeRoleState) (w : RoleTrace) : Prop := mkRoleOk {
  ro_gate : Forall (λ e, e.2 = false) (rt_events w);
  ro_tier1 : state = RoleTier1 ↔ head (completed w) = Some Entered;
  ro_tier2 : state = RoleTier2 ↔ head (completed w) = Some Purged;
  ro_purge : ∀ before after, completed w = after ++ Purged :: before → head before = Some Left;
}.

Lemma completed_cons answers e g events :
  completed (mkTrace answers ((e, g) :: events)) =
  if decide (e = EnterFailed) then completed (mkTrace answers events)
  else e :: completed (mkTrace answers events).
Proof.
  unfold completed. cbn [rt_events]. rewrite fmap_cons, filter_cons. cbn [fst].
  by destruct (decide (e = EnterFailed)); [rewrite decide_False by naive_solver|rewrite decide_True].
Qed.

Lemma completed_answers answers w : completed (mkTrace answers (rt_events w)) = completed w.
Proof. done. Qed.

Lemma role_ok_start answers : role_ok RolePending (mkTrace answers []).
Proof. split; try done. intros before [|? after]; done. Qed.

Lemma note_failed state state' w answers :
  state' ≠ RoleTier1 → role_ok state w →
  role_ok state (mkTrace answers ((EnterFailed, holds_tree state') :: rt_events w)).
Proof.
  intros Hs [Hg H1 H2 Hp]. unfold holds_tree. rewrite bool_decide_eq_false_2 by done.
  split; [by constructor|..]; rewrite ?completed_cons, ?completed_answers, ?decide_True by done; done.
Qed.

(** A hook that ran while the gate was closed. *)
Lemma note_event e state state' w answers :
  e ≠ EnterFailed → state' ≠ RoleTier1 → role_ok state w →
  (e = Purged → head (completed w) = Some Left) →
  let w' := mkTrace answers ((e, holds_tree state') :: rt_events w) in
  completed w' = e :: completed w ∧ Forall (λ e, e.2 = false) (rt_events w') ∧
  (∀ before after, completed w' = after ++ Purged :: before → head before = Some Left).
Proof.
  intros He Hs [Hg _ _ Hp] Hpl. unfold holds_tree. rewrite bool_decide_eq_false_2 by done. cbv zeta.
  assert (Hc : completed (mkTrace answers ((e, false) :: rt_events w)) = e :: completed w).
  { by rewrite completed_cons, decide_False. }
  split_and!; [done|by constructor|]. rewrite Hc. intros before [|x after] [= -> E]; [|by eapply Hp].
  subst. by apply Hpl.
Qed.

Lemma role_update_ok view ready state w :
  role_ok state w →
  role_ok (role_update recording view ready state w).1 (role_update recording view ready state w).2.
Proof.
  intros Hok. unfold role_update, recording, run_hook, note. cbn [hk_enter hk_leave hk_purge].
  destruct view.
  - case_bool_decide as Hs; [|done]. cbn [negb fst snd].
    destruct (note_event Left state RolePending w (rt_answers w)) as (Hc & Hg & Hp); [done..|].
    split; [done| | |done]; rewrite Hc; done.
  - case_bool_decide as Hs; [done|]. destruct ready; [|done]. cbn [orb negb].
    destruct (rt_answers w) as [|[] rest]; cbn [fst snd rt_answers rt_events].
    + by apply note_failed.
    + destruct (note_event Entered state state w rest) as (Hc & Hg & Hp); [done..|].
      split; [done| | |done]; rewrite Hc; done.
    + by apply note_failed.
  - case_bool_decide as Hs; [done|]. cbn [fst snd].
    destruct (note_event Left state RoleTier2 w (rt_answers w)) as (Hc & Hg & Hp); [done..|].
    set (w1 := mkTrace (rt_answers w) ((Left, holds_tree RoleTier2) :: rt_events w)) in *.
    assert (Hok1 : role_ok RolePending w1) by (split; [done|by rewrite Hc|by rewrite Hc|done]).
    destruct (note_event Purged RolePending RoleTier2 w1 (rt_answers w)) as (Hc2 & Hg2 & Hp2);
      [done|done|done|by rewrite Hc|].
    unfold w1 in *. cbn [rt_answers rt_events] in *. split; [done| | |done]; by rewrite Hc2.
Qed.

(** Whatever membership views a server sees and whether its tree loads or
    not: the hooks that load, stop and delete the tree all run while the gate is
    closed; the gate is open exactly when the last completed step was an entry;
    and the tree files are only ever deleted right after the tree services were
    stopped, and never because membership is unknown. *)
Theorem role_gate_closed_around_changes updates answers :
  let '(state, w) := role_updates recording updates (RolePending, mkTrace answers []) in
  Forall (λ e, e.2 = false) (rt_events w) ∧
  (holds_tree state = true ↔ head (completed w) = Some Entered) ∧
  (∀ before after, completed w = after ++ Purged :: before → head before = Some Left) ∧
  (Forall (λ u, u.1 ≠ ViewNonMember) updates → Purged ∉ completed w).
Proof.
  assert (Hok : ∀ us st, role_ok st.1 st.2 →
    role_ok (role_updates recording us st).1 (role_updates recording us st).2).
  { intros us. induction us as [|u us IH]; intros [s w] Hs; [done|]. apply IH. by apply role_update_ok. }
  assert (Hnp : ∀ us st, Forall (λ u, u.1 ≠ ViewNonMember) us → Purged ∉ completed st.2 →
    Purged ∉ completed (role_updates recording us st).2).
  { intros us. induction us as [|u us IH]; intros [s w] Hu Hw; [done|].
    apply Forall_cons in Hu as [Hu Hus]. apply IH; [done|]. cbn [fst snd].
    unfold role_update, recording, run_hook, note. cbn [hk_enter hk_leave hk_purge].
    destruct u as [[] ready]; [| |done]; cbn [fst snd] in *.
    - case_bool_decide; cbn [snd negb]; [|done]. rewrite completed_cons. set_solver.
    - case_bool_decide; [done|]. destruct ready; [|done]. cbn [orb negb].
      destruct (rt_answers w) as [|[] ?]; cbn [fst snd rt_answers rt_events]; rewrite completed_cons; set_solver. }
  specialize (Hok updates (RolePending, mkTrace answers []) (role_ok_start answers)).
  specialize (Hnp updates (RolePending, mkTrace answers [])).
  destruct (role_updates recording updates _) as [state w]. destruct Hok as [Hg H1 H2 Hp].
  split_and!; [done| |done|].
  - unfold holds_tree. rewrite bool_decide_eq_true. done.
  - intros Hu. apply Hnp; [done|]. apply not_elem_of_nil.
Qed.
