(* ===== verification/TreePool.v ===== *)
(** * The pool of waiting tree operations

    Models [Tree/TreeOpPool.cpp]: the tickets that requests wait on and the
    bounded pool of sealed operations. The pool keeps its operations in a map
    with arrival numbers and counts them per author and per principal; the
    refinement theorem shows that it is a queue with three limits. The mutexes
    serialize the calls, so a run is a sequence of calls. *)

From S2P Require Import Prelude SecurityPolicy CanonicalEncoding Json EligibilityStore.
From S2P Require Import TreeTypes LinkToken TreeRules TreeOps TreeValidation TestCodec EligibilityServiceTheorems TreeReplay.

(** ** Tickets *)

Inductive TreeOpStatus := OpPending | OpCommitted | OpRefused.

#[export] Instance op_status_eq_dec : EqDecision TreeOpStatus.
Proof. solve_decision. Defined.

Record TreeOpOutcome := mkOutcome {
  oc_status : TreeOpStatus;
  oc_verdict : TreeOpVerdict;
  oc_log_height : Z;
}.

Definition pending_outcome : TreeOpOutcome := mkOutcome OpPending None 0.

(** [K]: the continuations; the calls made are returned with their argument. *)
Record TreeOpTicket (K : Type) := mkTicket {
  tk_op_id : string;
  tk_outcome : TreeOpOutcome;
  tk_continuations : list K;
}.
Arguments mkTicket {K} _ _ _.
Arguments tk_op_id {K} _.
Arguments tk_outcome {K} _.
Arguments tk_continuations {K} _.

Section tickets.
Context {K : Type}.
Implicit Types (t : TreeOpTicket K).

Definition new_ticket (op_id : string) : TreeOpTicket K := mkTicket op_id pending_outcome [].

Definition ticket_current t : TreeOpOutcome := tk_outcome t.

Definition ticket_on_settled (fn : K) t : TreeOpTicket K * list (K * TreeOpOutcome) :=
  if bool_decide (oc_status (tk_outcome t) = OpPending)
  then (mkTicket (tk_op_id t) (tk_outcome t) (tk_continuations t ++ [fn]), [])
  else (t, [(fn, tk_outcome t)]).

Definition ticket_settle (outcome : TreeOpOutcome) t : TreeOpTicket K * list (K * TreeOpOutcome) :=
  if bool_decide (oc_status outcome = OpPending) then (t, [])
  else if negb (bool_decide (oc_status (tk_outcome t) = OpPending)) then (t, [])
  else (mkTicket (tk_op_id t) outcome [], (λ fn, (fn, outcome)) <$> tk_continuations t).
End tickets.

(** *** Runs of a ticket *)

Inductive TicketCall (K : Type) := OnSettled (fn : K) | Settle (outcome : TreeOpOutcome).
Arguments OnSettled {K} _.
Arguments Settle {K} _.

Section ticket_runs.
Context {K : Type}.

Definition call_ticket (c : TicketCall K) (t : TreeOpTicket K)
    : TreeOpTicket K * list (K * TreeOpOutcome) :=
  match c with OnSettled fn => ticket_on_settled fn t | Settle outcome => ticket_settle outcome t end.

(** The ticket after the calls and the continuations that ran, in order. *)
Fixpoint call_tickets (calls : list (TicketCall K)) (t : TreeOpTicket K)
    : TreeOpTicket K * list (K * TreeOpOutcome) :=
  match calls with
  | [] => (t, [])
  | c :: rest =>
      let '(t, now) := call_ticket c t in
      let '(t, later) := call_tickets rest t in (t, now ++ later)
  end.

Definition final_of (c : TicketCall K) : option TreeOpOutcome :=
  match c with
  | Settle outcome => if bool_decide (oc_status outcome = OpPending) then None else Some outcome
  | OnSettled _ => None
  end.
Definition waiter_of (c : TicketCall K) : option K :=
  match c with OnSettled fn => Some fn | Settle _ => None end.

(** A ticket settled with [o] answers every later waiter at once. *)
Lemma settled_calls o calls (t : TreeOpTicket K) :
  oc_status o ≠ OpPending → tk_outcome t = o →
  call_tickets calls t = (t, (λ fn, (fn, o)) <$> omap waiter_of calls).
Proof.
  intros Ho Ht. induction calls as [|c calls IH]; [done|]. cbn [call_tickets].
  destruct c as [fn|o']; cbn [call_ticket]; unfold ticket_on_settled, ticket_settle; rewrite Ht;
    rewrite (bool_decide_eq_false_2 (oc_status o = OpPending)) by done.
  - cbn iota beta. by rewrite IH.
  - cbn [negb]. destruct (bool_decide (oc_status o' = OpPending)); cbn iota beta; by rewrite IH.
Qed.

Lemma pending_calls calls (t : TreeOpTicket K) :
  oc_status (tk_outcome t) = OpPending →
  call_tickets calls t =
  match head (omap final_of calls) with
  | Some o => (mkTicket (tk_op_id t) o [], (λ fn, (fn, o)) <$> (tk_continuations t ++ omap waiter_of calls))
  | None => (mkTicket (tk_op_id t) (tk_outcome t) (tk_continuations t ++ omap waiter_of calls), [])
  end.
Proof.
  revert t. induction calls as [|c calls IH]; intros t Ht.
  { cbn. rewrite app_nil_r. by destruct t. }
  cbn [call_tickets]. destruct c as [fn|o]; cbn [call_ticket].
  - unfold ticket_on_settled. rewrite bool_decide_eq_true_2 by done. rewrite IH by done.
    cbn [tk_op_id tk_outcome tk_continuations omap list_omap final_of waiter_of].
    rewrite <-app_assoc. cbn. by destruct (head _).
  - unfold ticket_settle. cbn [omap list_omap final_of waiter_of]. case_bool_decide as Ho.
    + rewrite IH by done. cbn [app]. by destruct (head _).
    + rewrite (bool_decide_eq_true_2 (oc_status (tk_outcome t) = OpPending)) by done. cbn [negb head].
      rewrite (settled_calls o) by done. by rewrite fmap_app.
Qed.

(** A ticket keeps the first final outcome, and every continuation
    registered before or after it runs exactly once, with that outcome, in the
    order of registration; while no final outcome has arrived, none runs and
    all are kept. *)
Theorem ticket_settles_once op_id calls :
  call_tickets calls (new_ticket op_id) =
  match head (omap final_of calls) with
  | Some o => (mkTicket op_id o [], (λ fn, (fn, o)) <$> omap waiter_of calls)
  | None => (mkTicket op_id pending_outcome (omap waiter_of calls), [])
  end.
Proof. by rewrite pending_calls. Qed.
End ticket_runs.

(** ** The pool *)

Record TreeOpPoolLimits := mkLimits {
  li_total : Z;
  li_per_author : Z;
  li_per_principal : Z;
  li_remembered_outcomes : Z;
}.

Definition default_limits : TreeOpPoolLimits := mkLimits 1024 512 32 4096.

Inductive Admit := Added | Duplicate | Full | AuthorLimit | PrincipalLimit.

#[export] Instance admit_eq_dec : EqDecision Admit.
Proof. solve_decision. Defined.

(** [en_ticket]: the handle of the ticket; [None] for a forwarded op. *)
Record PoolEntry := mkEntry {
  en_op : TreeOp;
  en_ticket : option nat;
  en_sequence : Z;
}.

Record TreeOpPool := mkPool {
  pl_entries : gmap string PoolEntry;
  pl_per_author : gmap string Z;
  pl_per_principal : gmap string Z;
  pl_next_sequence : Z;
  pl_outcomes : gmap string TreeOpOutcome;
  pl_outcome_order : list string;
}.

#[export] Instance eta_pool : Etable TreeOpPool := λ p,
  mkPool (pl_entries p) (pl_per_author p) (pl_per_principal p) (pl_next_sequence p) (pl_outcomes p)
    (pl_outcome_order p).

Definition new_pool : TreeOpPool := mkPool ∅ ∅ ∅ 0 ∅ [].

(** [map[key]]: the count, with a zero entry made when there is none. *)
Definition count_at (counts : gmap string Z) (key : string) : Z := default 0 (counts !! key).
Definition touch (key : string) (counts : gmap string Z) : gmap string Z :=
  match counts !! key with Some _ => counts | None => <[ key := 0 ]> counts end.
Definition count_up (key : string) (counts : gmap string Z) : gmap string Z :=
  <[ key := count_at counts key + 1 ]> counts.
(** [if (--counts[key] == 0) counts.erase(key)] *)
Definition count_down (key : string) (counts : gmap string Z) : gmap string Z :=
  if count_at counts key - 1 =? 0 then delete key counts
  else <[ key := count_at counts key - 1 ]> counts.

Definition entry_le (a b : PoolEntry) : Prop := en_sequence a <= en_sequence b.
#[export] Instance pool_entry_le_dec : RelDecision entry_le.
Proof. intros a b. unfold entry_le. apply _. Defined.

Definition pending_entries (p : TreeOpPool) : list PoolEntry :=
  merge_sort entry_le (map_to_list (pl_entries p)).*2.
Definition pool_pending (p : TreeOpPool) : list TreeOp := en_op <$> pending_entries p.

Definition pool_contains (op_id : string) (p : TreeOpPool) : bool :=
  bool_decide (is_Some (pl_entries p !! op_id)).

Definition pool_size (p : TreeOpPool) : Z := Z.of_nat (size (pl_entries p)).

(** The loop that forgets the oldest outcomes. *)
Fixpoint forget_oldest (limit : Z) (order : list string) (outcomes : gmap string TreeOpOutcome)
    : list string * gmap string TreeOpOutcome :=
  match order with
  | [] => ([], outcomes)
  | oldest :: rest =>
      if limit <? Z.of_nat (length order) then forget_oldest limit rest (delete oldest outcomes)
      else (order, outcomes)
  end.

Definition remember_locked (limits : TreeOpPoolLimits) (op_id : string) (outcome : TreeOpOutcome)
    (p : TreeOpPool) : TreeOpPool :=
  if li_remembered_outcomes limits =? 0 then p
  else
    let order := if bool_decide (is_Some (pl_outcomes p !! op_id)) then pl_outcome_order p
                 else pl_outcome_order p ++ [op_id] in
    let '(order, outcomes) :=
      forget_oldest (li_remembered_outcomes limits) order (<[ op_id := outcome ]> (pl_outcomes p)) in
    p <| pl_outcomes := outcomes |> <| pl_outcome_order := order |>.

Definition pool_status (op_id : string) (p : TreeOpPool) : option TreeOpOutcome :=
  if pool_contains op_id p then Some pending_outcome else pl_outcomes p !! op_id.

Section pool.
Context `{TextCodec, HexCodec}.

Definition op_author_key (op : TreeOp) : string := canonical_principal (op_author op).
Definition op_principal_key (op : TreeOp) : string := canonical_principal (op_principal op).

Definition pool_add (limits : TreeOpPoolLimits) (op : TreeOp) (ticket : option nat) (p : TreeOpPool)
    : Admit * TreeOpPool :=
  let id := op_id_hex op in
  let author := op_author_key op in
  let principal := op_principal_key op in
  if pool_contains id p || bool_decide (is_Some (pl_outcomes p !! id)) then (Duplicate, p)
  else if li_total limits <=? pool_size p then (Full, p)
  else
    let p := p <| pl_per_author := touch author (pl_per_author p) |> in
    if li_per_author limits <=? count_at (pl_per_author p) author then (AuthorLimit, p)
    else
      let p := p <| pl_per_principal := touch principal (pl_per_principal p) |> in
      if li_per_principal limits <=? count_at (pl_per_principal p) principal then (PrincipalLimit, p)
      else
        (Added,
         p <| pl_per_author := count_up author (pl_per_author p) |>
           <| pl_per_principal := count_up principal (pl_per_principal p) |>
           <| pl_entries := <[ id := mkEntry op ticket (pl_next_sequence p) ]> (pl_entries p) |>
           <| pl_next_sequence := pl_next_sequence p +64 1 |>).

(** Returns the ticket to settle. *)
Definition pool_settle (limits : TreeOpPoolLimits) (op_id : string) (outcome : TreeOpOutcome)
    (p : TreeOpPool) : option nat * TreeOpPool :=
  match pl_entries p !! op_id with
  | Some entry =>
      let p := p <| pl_per_author := count_down (op_author_key (en_op entry)) (pl_per_author p) |>
                 <| pl_per_principal :=
                      count_down (op_principal_key (en_op entry)) (pl_per_principal p) |>
                 <| pl_entries := delete op_id (pl_entries p) |> in
      (en_ticket entry, remember_locked limits op_id outcome p)
  | None => (None, remember_locked limits op_id outcome p)
  end.

(** ** Runs *)

Inductive PoolCall :=
  | PoolAdd (op : TreeOp) (ticket : option nat)
  | PoolSettle (op_id : string) (outcome : TreeOpOutcome).

(** The answers of [add]; [settle] answers nothing. *)
Definition call_pool (limits : TreeOpPoolLimits) (c : PoolCall) (p : TreeOpPool)
    : option Admit * TreeOpPool :=
  match c with
  | PoolAdd op ticket => let '(answer, p) := pool_add limits op ticket p in (Some answer, p)
  | PoolSettle op_id outcome => (None, (pool_settle limits op_id outcome p).2)
  end.

Fixpoint call_pools (limits : TreeOpPoolLimits) (calls : list PoolCall) (p : TreeOpPool)
    : list (option Admit) * TreeOpPool :=
  match calls with
  | [] => ([], p)
  | c :: rest =>
      let '(answer, p) := call_pool limits c p in
      let '(answers, p) := call_pools limits rest p in (answer :: answers, p)
  end.

(** ** The queue that the pool implements *)

(** The waiting operations in arrival order, and the outcomes that are
    remembered, the oldest first. *)
Record OpQueue := mkQueue {
  qu_ops : list TreeOp;
  qu_outcomes : list (string * TreeOpOutcome);
}.

Definition waiting_for (key_of : TreeOp → string) (key : string) (ops : list TreeOp) : list TreeOp :=
  filter (λ op, key_of op = key) ops.

Definition queue_add (limits : TreeOpPoolLimits) (op : TreeOp) (q : OpQueue) : Admit * OpQueue :=
  if bool_decide (op_id_hex op ∈ op_id_hex <$> qu_ops q)
     || bool_decide (op_id_hex op ∈ (qu_outcomes q).*1) then (Duplicate, q)
  else if li_total limits <=? Z.of_nat (length (qu_ops q)) then (Full, q)
  else if li_per_author limits
          <=? Z.of_nat (length (waiting_for op_author_key (op_author_key op) (qu_ops q)))
  then (AuthorLimit, q)
  else if li_per_principal limits
          <=? Z.of_nat (length (waiting_for op_principal_key (op_principal_key op) (qu_ops q)))
  then (PrincipalLimit, q)
  else (Added, mkQueue (qu_ops q ++ [op]) (qu_outcomes q)).

(** A known identifier keeps its place; only the newest [limit] are kept. *)
Definition put_outcome (id : string) (outcome : TreeOpOutcome) (l : list (string * TreeOpOutcome))
    : list (string * TreeOpOutcome) :=
  if bool_decide (id ∈ l.*1) then (λ kv, if decide (kv.1 = id) then (id, outcome) else kv) <$> l
  else l ++ [(id, outcome)].

Definition newest {A} (limit : Z) (l : list A) : list A :=
  drop (length l - Z.to_nat limit) l.

Definition queue_settle (limits : TreeOpPoolLimits) (id : string) (outcome : TreeOpOutcome) (q : OpQueue)
    : OpQueue :=
  mkQueue (filter (λ op, op_id_hex op ≠ id) (qu_ops q))
    (newest (li_remembered_outcomes limits) (put_outcome id outcome (qu_outcomes q))).

Definition queue_status (id : string) (q : OpQueue) : option TreeOpOutcome :=
  if bool_decide (id ∈ op_id_hex <$> qu_ops q) then Some pending_outcome
  else (list_to_map (qu_outcomes q) : gmap string TreeOpOutcome) !! id.

Definition call_queue (limits : TreeOpPoolLimits) (c : PoolCall) (q : OpQueue) : option Admit * OpQueue :=
  match c with
  | PoolAdd op _ => let '(answer, q) := queue_add limits op q in (Some answer, q)
  | PoolSettle op_id outcome => (None, queue_settle limits op_id outcome q)
  end.

Fixpoint call_queues (limits : TreeOpPoolLimits) (calls : list PoolCall) (q : OpQueue)
    : list (option Admit) * OpQueue :=
  match calls with
  | [] => ([], q)
  | c :: rest =>
      let '(answer, q) := call_queue limits c q in
      let '(answers, q) := call_queues limits rest q in (answer :: answers, q)
  end.

Definition empty_queue : OpQueue := mkQueue [] [].

(** The queue never holds more than its limits allow. *)
Definition queue_within (limits : TreeOpPoolLimits) (q : OpQueue) : Prop :=
  Z.of_nat (length (qu_ops q)) <= Z.max 0 (li_total limits) ∧
  (∀ key, Z.of_nat (length (waiting_for op_author_key key (qu_ops q)))
          <= Z.max 0 (li_per_author limits)) ∧
  (∀ key, Z.of_nat (length (waiting_for op_principal_key key (qu_ops q)))
          <= Z.max 0 (li_per_principal limits)) ∧
  Z.of_nat (length (qu_outcomes q)) <= Z.max 0 (li_remembered_outcomes limits).

(** ** The counters *)

Lemma count_at_touch key k counts : count_at (touch key counts) k = count_at counts k.
Proof.
  unfold count_at, touch. destruct (counts !! key) eqn:E; [done|].
  destruct (decide (k = key)) as [->|Hne]; [by rewrite lookup_insert_eq, E|by rewrite lookup_insert_ne].
Qed.

Lemma count_at_up key k counts :
  count_at (count_up key counts) k = count_at counts k + if decide (key = k) then 1 else 0.
Proof.
  unfold count_up, count_at. case_decide as Hk.
  - subst. by rewrite lookup_insert_eq.
  - rewrite lookup_insert_ne by done. lia.
Qed.

Lemma count_at_down key k counts :
  count_at (count_down key counts) k = count_at counts k - if decide (key = k) then 1 else 0.
Proof.
  unfold count_down. destruct (Z.eqb_spec (count_at counts key - 1) 0) as [E|E]; case_decide as Hk.
  - subst. unfold count_at at 1. rewrite lookup_delete_eq. cbn. lia.
  - unfold count_at at 1. rewrite lookup_delete_ne by done. unfold count_at. lia.
  - subst. unfold count_at at 1. by rewrite lookup_insert_eq.
  - unfold count_at at 1. rewrite lookup_insert_ne by done. unfold count_at. lia.
Qed.

Definition counts_match (key_of : TreeOp → string) (counts : gmap string Z) (ops : list TreeOp) : Prop :=
  ∀ key, count_at counts key = Z.of_nat (length (waiting_for key_of key ops)).

Lemma waiting_snoc key_of key op ops :
  length (waiting_for key_of key (ops ++ [op]))
  = (length (waiting_for key_of key ops) + if decide (key_of op = key) then 1 else 0)%nat.
Proof.
  unfold waiting_for. rewrite filter_app, length_app, filter_cons. cbn.
  by destruct (decide (key_of op = key)).
Qed.

Lemma counts_touch key_of key counts ops :
  counts_match key_of counts ops → counts_match key_of (touch key counts) ops.
Proof. intros Hc k. rewrite count_at_touch. apply Hc. Qed.

Lemma counts_snoc key_of counts ops op :
  counts_match key_of counts ops → counts_match key_of (count_up (key_of op) counts) (ops ++ [op]).
Proof.
  intros Hc key. rewrite count_at_up, waiting_snoc, (Hc key). case_decide; lia.
Qed.

Lemma waiting_remove key_of key id op ops :
  NoDup (op_id_hex <$> ops) → op ∈ ops → op_id_hex op = id →
  length (waiting_for key_of key ops)
  = (length (waiting_for key_of key (filter (λ o, op_id_hex o ≠ id) ops))
     + if decide (key_of op = key) then 1 else 0)%nat.
Proof.
  intros Hnd Hin Hid. apply list_elem_of_split in Hin as (l1 & l2 & ->).
  rewrite fmap_app, fmap_cons in Hnd.
  apply NoDup_app in Hnd as (_ & Hl1 & [Hl2 _]%NoDup_cons).
  assert (Hkeep : ∀ l : list TreeOp, op_id_hex op ∉ op_id_hex <$> l → filter (λ o, op_id_hex o ≠ id) l = l).
  { intros l Hl. apply filter_id, Forall_forall. intros o Ho Heq. apply Hl. rewrite Hid, <-Heq.
    by apply list_elem_of_fmap_2. }
  rewrite filter_app, filter_cons, decide_False by congruence.
  rewrite !Hkeep; [|done|intros Hl; eapply Hl1; [exact Hl|left]].
  unfold waiting_for. rewrite !filter_app, !length_app, filter_cons. case_decide; cbn; lia.
Qed.

Lemma counts_remove key_of counts ops op :
  NoDup (op_id_hex <$> ops) → op ∈ ops → counts_match key_of counts ops →
  counts_match key_of (count_down (key_of op) counts) (filter (λ o, op_id_hex o ≠ op_id_hex op) ops).
Proof.
  intros Hnd Hin Hc key. rewrite count_at_down, (Hc key), (waiting_remove _ _ _ op ops Hnd Hin eq_refl).
  case_decide; lia.
Qed.

(** ** The simulation *)

Definition entry_id (e : PoolEntry) : string := op_id_hex (en_op e).
Definition keyed_entries (l : list PoolEntry) : gmap string PoolEntry :=
  list_to_map ((λ e, (entry_id e, e)) <$> l).

Definition entry_lt (a b : PoolEntry) : Prop := en_sequence a < en_sequence b.

(** [l]: the entries in arrival order. *)
Record pool_sim (p : TreeOpPool) (q : OpQueue) (l : list PoolEntry) : Prop := mkPoolSim {
  ps_entries : pl_entries p = keyed_entries l;
  ps_ids : NoDup (entry_id <$> l);
  ps_sorted : StronglySorted entry_lt l;
  ps_next : Forall (λ e, en_sequence e < pl_next_sequence p) l;
  ps_ops : qu_ops q = en_op <$> l;
  ps_author : counts_match op_author_key (pl_per_author p) (qu_ops q);
  ps_principal : counts_match op_principal_key (pl_per_principal p) (qu_ops q);
  ps_outcomes : pl_outcomes p = list_to_map (qu_outcomes q);
  ps_order : pl_outcome_order p = (qu_outcomes q).*1;
  ps_keys : NoDup (qu_outcomes q).*1;
}.

Lemma keyed_fst l : ((λ e, (entry_id e, e)) <$> l).*1 = entry_id <$> l.
Proof. rewrite <-list_fmap_compose. by apply list_fmap_ext. Qed.

Lemma keyed_snd l : ((λ e, (entry_id e, e)) <$> l).*2 = l.
Proof. rewrite <-list_fmap_compose. rewrite <-(list_fmap_id l) at 2. by apply list_fmap_ext. Qed.

Lemma keyed_entries_lookup l id :
  NoDup (entry_id <$> l) →
  keyed_entries l !! id = None ∧ id ∉ entry_id <$> l
  ∨ ∃ e, keyed_entries l !! id = Some e ∧ e ∈ l ∧ entry_id e = id.
Proof.
  intros Hnd. unfold keyed_entries. destruct (list_to_map _ !! id) as [e|] eqn:E.
  - right. exists e. apply elem_of_list_to_map_2 in E.
    apply list_elem_of_fmap in E as (e' & [= -> ->] & Hin). done.
  - left. split; [done|]. apply not_elem_of_list_to_map in E. by rewrite keyed_fst in E.
Qed.

Lemma keyed_size l : NoDup (entry_id <$> l) → size (keyed_entries l) = length l.
Proof.
  intros Hnd. unfold keyed_entries. rewrite map_size_list_to_map by by rewrite keyed_fst.
  apply length_fmap.
Qed.

Lemma keyed_snoc l e :
  entry_id e ∉ entry_id <$> l → keyed_entries (l ++ [e]) = <[ entry_id e := e ]> (keyed_entries l).
Proof.
  intros Hn. unfold keyed_entries. rewrite fmap_app. cbn. apply list_to_map_snoc. by rewrite keyed_fst.
Qed.

Lemma list_to_map_filter_delete {A} (l : list (string * A)) id :
  list_to_map (filter (λ kv, kv.1 ≠ id) l) = delete id (list_to_map l : gmap string A).
Proof.
  induction l as [|[k a] l IH]; [symmetry; apply (delete_empty (M := gmap string))|].
  rewrite filter_cons. cbn [fst]. case_decide as Hk.
  - rewrite !list_to_map_cons, IH. by rewrite delete_insert_ne by done.
  - subst. rewrite list_to_map_cons, IH. by rewrite delete_insert_eq.
Qed.

Lemma keyed_delete l id :
  keyed_entries (filter (λ e, entry_id e ≠ id) l) = delete id (keyed_entries l).
Proof.
  unfold keyed_entries. rewrite <-list_to_map_filter_delete. f_equal.
  induction l as [|e l IH]; [done|]. cbn [fmap list_fmap]. rewrite !filter_cons. cbn [fst].
  case_decide; cbn [fmap list_fmap]; by rewrite IH.
Qed.

(** [pending()] is the arrival order. *)
Lemma sorted_lt_le l : StronglySorted entry_lt l → StronglySorted entry_le l.
Proof.
  induction 1 as [|e l Hs IH Hall]; constructor; [done|].
  eapply Forall_impl; [exact Hall|]. unfold entry_lt, entry_le. lia.
Qed.

Lemma sorted_lt_inj l a b :
  StronglySorted entry_lt l → a ∈ l → b ∈ l → en_sequence a = en_sequence b → a = b.
Proof.
  unfold entry_lt. induction 1 as [|e l Hs IH Hall]; intros Ha Hb Hab; [by apply not_elem_of_nil in Ha|].
  pose proof (proj1 (Forall_forall _ _) Hall) as Hx.
  apply elem_of_cons in Ha as [->|Ha]; apply elem_of_cons in Hb as [->|Hb]; auto.
  - specialize (Hx _ Hb). cbn in Hx. lia.
  - specialize (Hx _ Ha). cbn in Hx. lia.
Qed.

#[local] Instance entry_le_trans : Transitive entry_le.
Proof. intros a b c. unfold entry_le. lia. Qed.
#[local] Instance entry_le_total : Total entry_le.
Proof. intros a b. unfold entry_le. lia. Qed.

Lemma keyed_pending p l :
  pl_entries p = keyed_entries l → NoDup (entry_id <$> l) → StronglySorted entry_lt l →
  pending_entries p = l.
Proof.
  intros He Hnd Hs. unfold pending_entries. rewrite He.
  assert (Hp : (map_to_list (keyed_entries l)).*2 ≡ₚ l).
  { unfold keyed_entries. rewrite map_to_list_to_map by by rewrite keyed_fst. by rewrite keyed_snd. }
  assert (Hm : merge_sort entry_le (map_to_list (keyed_entries l)).*2 ≡ₚ l)
    by (rewrite merge_sort_Permutation; exact Hp).
  apply (StronglySorted_unique_strong entry_le); [|apply StronglySorted_merge_sort; apply _
    |by apply sorted_lt_le|exact Hm].
  intros a b Ha Hb Hab Hba. rewrite Hm in Ha. eapply sorted_lt_inj; eauto.
  unfold entry_le in *. lia.
Qed.

Lemma sim_pending p q l : pool_sim p q l → pool_pending p = qu_ops q.
Proof.
  intros S. unfold pool_pending. rewrite (keyed_pending p l); [|apply S..]. by rewrite (ps_ops _ _ _ S).
Qed.

Lemma ids_of_entries (l : list PoolEntry) : op_id_hex <$> (en_op <$> l) = entry_id <$> l.
Proof. rewrite <-list_fmap_compose. by apply list_fmap_ext. Qed.

Lemma sim_contains p q l id :
  pool_sim p q l → pool_contains id p = bool_decide (id ∈ op_id_hex <$> qu_ops q).
Proof.
  intros S. unfold pool_contains. apply bool_decide_ext.
  rewrite (ps_entries _ _ _ S), (ps_ops _ _ _ S), ids_of_entries.
  destruct (keyed_entries_lookup l id (ps_ids _ _ _ S)) as [[-> Hn]|(e & -> & Hin & <-)].
  - split; [by intros [? [=]]|done].
  - split; [intros _; by apply list_elem_of_fmap_2|by eexists].
Qed.

Lemma remembers_known (outcomes : list (string * TreeOpOutcome)) id :
  bool_decide (is_Some ((list_to_map outcomes : gmap string TreeOpOutcome) !! id))
  = bool_decide (id ∈ outcomes.*1).
Proof.
  apply bool_decide_ext. rewrite <-not_eq_None_Some, <-not_elem_of_list_to_map.
  split; [apply dec_stable|auto].
Qed.

Lemma sim_status p q l id : pool_sim p q l → pool_status id p = queue_status id q.
Proof.
  intros S. unfold pool_status, queue_status. rewrite (sim_contains _ _ _ _ S).
  by rewrite (ps_outcomes _ _ _ S).
Qed.

Lemma sim_empty : pool_sim new_pool empty_queue [].
Proof.
  split; cbn [pl_entries new_pool empty_queue qu_ops qu_outcomes pl_per_author pl_per_principal]; try done;
    constructor.
Qed.

(** *** Adding *)

Lemma sim_touch_author key p q l :
  pool_sim p q l → pool_sim (p <| pl_per_author := touch key (pl_per_author p) |>) q l.
Proof. intros []. split; try done. by apply counts_touch. Qed.

Lemma sim_touch_principal key p q l :
  pool_sim p q l → pool_sim (p <| pl_per_principal := touch key (pl_per_principal p) |>) q l.
Proof. intros []. split; try done. by apply counts_touch. Qed.

Lemma sim_size p q l : pool_sim p q l → pool_size p = Z.of_nat (length (qu_ops q)).
Proof.
  intros S. unfold pool_size. rewrite (ps_entries _ _ _ S), keyed_size by apply S.
  by rewrite (ps_ops _ _ _ S), length_fmap.
Qed.

Lemma sorted_snoc l e : StronglySorted entry_lt l → Forall (λ x, entry_lt x e) l → StronglySorted entry_lt (l ++ [e]).
Proof.
  induction 1 as [|x l Hs IH Hall]; intros Hf; [by repeat constructor|].
  apply Forall_cons in Hf as [Hx Hf]. cbn. constructor; [auto|].
  apply Forall_app. split; [done|by constructor].
Qed.

(** The queueing step, after the checks. *)
Lemma sim_enqueue op ticket p q l :
  pool_sim p q l → 0 <= pl_next_sequence p < 2 ^ 64 - 1 → op_id_hex op ∉ op_id_hex <$> qu_ops q →
  pool_sim
    (p <| pl_per_author := count_up (op_author_key op) (pl_per_author p) |>
       <| pl_per_principal := count_up (op_principal_key op) (pl_per_principal p) |>
       <| pl_entries := <[ op_id_hex op := mkEntry op ticket (pl_next_sequence p) ]> (pl_entries p) |>
       <| pl_next_sequence := pl_next_sequence p +64 1 |>)
    (mkQueue (qu_ops q ++ [op]) (qu_outcomes q)) (l ++ [mkEntry op ticket (pl_next_sequence p)]).
Proof.
  intros [] Hseq Hnew. rewrite ps_ops0, ids_of_entries in Hnew.
  assert (Hnext : pl_next_sequence p +64 1 = pl_next_sequence p + 1).
  { apply u64_add_small. unfold two64. lia. }
  split; cbn [pl_entries pl_per_author pl_per_principal pl_next_sequence pl_outcomes pl_outcome_order
    qu_ops qu_outcomes set_field]; try done.
  - cbn. rewrite ps_entries0. symmetry. by apply (keyed_snoc l (mkEntry op ticket (pl_next_sequence p))).
  - rewrite fmap_app. cbn. apply NoDup_app. split; [done|]. split; [|apply NoDup_singleton].
    intros x Hx ->%list_elem_of_singleton. by apply Hnew.
  - by apply sorted_snoc.
  - cbn. rewrite Hnext. apply Forall_app. split; [|constructor; [cbn; lia|constructor]].
    eapply Forall_impl; [exact ps_next0|]. cbn. lia.
  - by rewrite ps_ops0, fmap_app.
  - cbn. by apply counts_snoc.
  - cbn. by apply counts_snoc.
Qed.

Ltac refuses := split; [done|split; [cbn; lia|eauto]].

Lemma sim_add limits op ticket p q l :
  pool_sim p q l → 0 <= pl_next_sequence p < 2 ^ 64 - 1 →
  (pool_add limits op ticket p).1 = (queue_add limits op q).1 ∧
  pl_next_sequence p <= pl_next_sequence (pool_add limits op ticket p).2 <= pl_next_sequence p + 1 ∧
  ∃ l', pool_sim (pool_add limits op ticket p).2 (queue_add limits op q).2 l'.
Proof.
  intros S Hseq. unfold pool_add, queue_add. cbn zeta.
  rewrite (sim_contains _ _ _ _ S), (ps_outcomes _ _ _ S), remembers_known, (sim_size _ _ _ S).
  destruct (bool_decide (op_id_hex op ∈ op_id_hex <$> qu_ops q)) eqn:Hnew; cbn [orb fst snd]; [refuses|].
  destruct (bool_decide (op_id_hex op ∈ (qu_outcomes q).*1)) eqn:Hout; cbn [fst snd]; [refuses|].
  destruct (li_total limits <=? _); cbn [fst snd]; [refuses|].
  apply (sim_touch_author (op_author_key op)) in S as S1.
  rewrite (ps_author _ _ _ S1 (op_author_key op)).
  destruct (li_per_author limits <=? _); cbn [fst snd]; [refuses|].
  apply (sim_touch_principal (op_principal_key op)) in S1 as S2.
  rewrite (ps_principal _ _ _ S2 (op_principal_key op)).
  destruct (li_per_principal limits <=? _); cbn [fst snd]; [refuses|].
  split; [done|]. split; [|eexists; apply (sim_enqueue op ticket _ _ _ S2); [exact Hseq|]].
  - cbn. rewrite u64_add_small; unfold two64; lia.
  - by apply bool_decide_eq_false in Hnew.
Qed.

(** *** Settling *)

Lemma forget_newest limit (l : list (string * TreeOpOutcome)) :
  NoDup l.*1 →
  forget_oldest limit l.*1 (list_to_map l) = ((newest limit l).*1, list_to_map (newest limit l)).
Proof.
  unfold newest. induction l as [|[k o] l IH]; intros Hnd; [done|].
  rewrite fmap_cons in *. apply NoDup_cons in Hnd as [Hk Hnd]. cbn [fst forget_oldest length] in *.
  rewrite length_fmap. destruct (Z.ltb_spec limit (Z.of_nat (S (length l)))) as [Hl|Hl].
  - replace (S (length l) - Z.to_nat limit)%nat with (S (length l - Z.to_nat limit)) by lia.
    cbn [drop]. rewrite <-IH by done. f_equal. rewrite list_to_map_cons. apply delete_insert_id.
    by apply not_elem_of_list_to_map.
  - replace (S (length l) - Z.to_nat limit)%nat with 0%nat by lia. done.
Qed.

Lemma put_outcome_keys id o l :
  (put_outcome id o l).*1 = if bool_decide (id ∈ l.*1) then l.*1 else l.*1 ++ [id].
Proof.
  unfold put_outcome. case_match; [|by rewrite fmap_app].
  rewrite <-list_fmap_compose. apply list_fmap_ext. intros ? [k x] _. unfold compose. cbn [fst].
  destruct (decide (k = id)) as [E|E]; [exact (eq_sym E)|done].
Qed.

Lemma put_outcome_map id o l :
  NoDup l.*1 → list_to_map (put_outcome id o l) = <[ id := o ]> (list_to_map l : gmap string TreeOpOutcome).
Proof.
  intros Hnd. unfold put_outcome. case_bool_decide as Hin; [|by apply list_to_map_snoc].
  induction l as [|[k x] l IH]; [by apply not_elem_of_nil in Hin|].
  change (((k, x) :: l).*1) with (k :: l.*1) in *. apply NoDup_cons in Hnd as [Hk Hnd].
  rewrite fmap_cons. cbn [fst]. destruct (decide (k = id)) as [->|Hne]; rewrite !list_to_map_cons.
  - rewrite insert_insert_eq. f_equal. f_equal. rewrite <-(list_fmap_id l) at 2.
    apply list_fmap_ext. intros i [k' x'] Hl. cbn [fst]. destruct (decide (k' = id)); [|done]. subst.
    destruct Hk. apply list_elem_of_lookup_2 in Hl. by apply (list_elem_of_fmap_2 fst) in Hl.
  - rewrite IH; [|done|by apply elem_of_cons in Hin as [?|?]]. by rewrite insert_insert_ne.
Qed.

Lemma put_outcome_nodup id o l : NoDup l.*1 → NoDup (put_outcome id o l).*1.
Proof.
  intros Hnd. rewrite put_outcome_keys. case_bool_decide as Hin; [done|].
  apply NoDup_app. split; [done|]. split; [|apply NoDup_singleton].
  by intros x Hx ->%list_elem_of_singleton.
Qed.

Lemma newest_length {A} limit (l : list A) : Z.of_nat (length (newest limit l)) <= Z.max 0 limit.
Proof. unfold newest. rewrite length_drop. lia. Qed.

Lemma sim_remember limits id o p q l :
  pool_sim p q l → Z.of_nat (length (qu_outcomes q)) <= Z.max 0 (li_remembered_outcomes limits) →
  pool_sim (remember_locked limits id o p)
    (mkQueue (qu_ops q) (newest (li_remembered_outcomes limits) (put_outcome id o (qu_outcomes q)))) l.
Proof.
  intros [] Hlen. unfold remember_locked.
  destruct (Z.eqb_spec (li_remembered_outcomes limits) 0) as [Hz|Hz].
  - assert (Hnil : newest (li_remembered_outcomes limits) (put_outcome id o (qu_outcomes q)) = []).
    { apply length_zero_iff_nil. pose proof (newest_length (li_remembered_outcomes limits)
        (put_outcome id o (qu_outcomes q))). lia. }
    assert (Hq : qu_outcomes q = []) by (apply length_zero_iff_nil; lia).
    rewrite Hnil. rewrite Hq in *. by split.
  - rewrite ps_outcomes0, ps_order0, remembers_known, <-(put_outcome_keys id o), <-put_outcome_map by done.
    rewrite forget_newest by by apply put_outcome_nodup.
    split; try done. cbn [qu_outcomes].
    unfold newest. rewrite fmap_drop. set (n := (_ - _)%nat).
    pose proof (put_outcome_nodup id o _ ps_keys0) as Hnd. rewrite <-(take_drop n) in Hnd.
    by apply NoDup_app in Hnd as (_ & _ & ?).
Qed.

Lemma Forall_of_filter {A} (P Q : A → Prop) `{∀ x, Decision (Q x)} l : Forall P l → Forall P (filter Q l).
Proof. rewrite !Forall_forall. intros Hall x [_ Hx]%list_elem_of_filter. auto. Qed.

Lemma sim_remove id p q l e :
  pool_sim p q l → pl_entries p !! id = Some e →
  pool_sim
    (p <| pl_per_author := count_down (op_author_key (en_op e)) (pl_per_author p) |>
       <| pl_per_principal := count_down (op_principal_key (en_op e)) (pl_per_principal p) |>
       <| pl_entries := delete id (pl_entries p) |>)
    (mkQueue (filter (λ op, op_id_hex op ≠ id) (qu_ops q)) (qu_outcomes q))
    (filter (λ e, entry_id e ≠ id) l).
Proof.
  intros [] He. rewrite ps_entries0 in He.
  destruct (keyed_entries_lookup l id ps_ids0) as [[Hn _]|(e' & He' & Hin & Hid)]; [congruence|].
  rewrite He in He'. injection He' as <-. rewrite ps_ops0 in *.
  assert (Hops : NoDup (op_id_hex <$> (en_op <$> l))) by by rewrite ids_of_entries.
  assert (Hop : en_op e ∈ en_op <$> l) by by apply list_elem_of_fmap_2.
  subst id. split; cbn [qu_ops qu_outcomes]; try done.
  - cbn. by rewrite ps_entries0, keyed_delete.
  - eapply sublist_NoDup; [exact ps_ids0|]. clear.
    induction l as [|x l IH]; [done|]. rewrite filter_cons. case_decide; rewrite !fmap_cons;
      [by apply sublist_skip|by apply sublist_cons].
  - clear -ps_sorted0. induction ps_sorted0 as [|x l Hs IH Hall]; [constructor|].
    rewrite filter_cons. case_decide; [|done]. constructor; [done|]. by apply Forall_of_filter.
  - cbn. by apply Forall_of_filter.
  - clear. induction l as [|x l IH]; [done|]. rewrite fmap_cons, !filter_cons.
    change (op_id_hex (en_op x)) with (entry_id x). case_decide; [|done]. by rewrite fmap_cons, IH.
  - cbn. by apply counts_remove.
  - cbn. by apply counts_remove.
Qed.

Lemma settle_unknown id p q l :
  pool_sim p q l → pl_entries p !! id = None → filter (λ op, op_id_hex op ≠ id) (qu_ops q) = qu_ops q.
Proof.
  intros S Hn. apply filter_id, Forall_forall. intros op Hop Heq.
  pose proof (sim_contains _ _ _ id S) as Hc. unfold pool_contains in Hc. rewrite Hn in Hc.
  symmetry in Hc. cbn in Hc. apply bool_decide_eq_false in Hc. apply Hc. subst.
  by apply list_elem_of_fmap_2.
Qed.

Lemma sim_settle limits id o p q l :
  pool_sim p q l → queue_within limits q →
  ∃ l', pool_sim (pool_settle limits id o p).2 (queue_settle limits id o q) l'.
Proof.
  intros S (_ & _ & _ & Hlen). unfold pool_settle, queue_settle.
  destruct (pl_entries p !! id) as [e|] eqn:E; cbn [snd].
  - eexists. apply (sim_remember limits id o _ _ _ (sim_remove id p q l e S E)). exact Hlen.
  - exists l. rewrite (settle_unknown _ _ _ _ S E). by apply sim_remember.
Qed.

(** *** The limits *)

Lemma waiting_filter key_of key P `{∀ op, Decision (P op)} (ops : list TreeOp) :
  (length (waiting_for key_of key (filter P ops)) <= length (waiting_for key_of key ops))%nat.
Proof.
  apply sublist_length. unfold waiting_for. induction ops as [|op ops IH]; [done|].
  rewrite (filter_cons P). case_decide; rewrite ?filter_cons; case_decide; try done;
    [by apply sublist_skip|by apply sublist_cons].
Qed.

Lemma queue_add_within limits op q :
  queue_within limits q → queue_within limits (queue_add limits op q).2.
Proof.
  intros W. unfold queue_add. repeat (case_match; cbn [snd]; [done|]).
  destruct W as (Ht & Ha & Hp & Ho).
  repeat match goal with Hle : (_ <=? _) = false |- _ => apply Z.leb_gt in Hle end.
  split; [|split; [|split]]; cbn [qu_ops qu_outcomes].
  - rewrite length_app. cbn. lia.
  - intros key. rewrite waiting_snoc. specialize (Ha key).
    destruct (decide (op_author_key op = key)) as [<-|]; lia.
  - intros key. rewrite waiting_snoc. specialize (Hp key).
    destruct (decide (op_principal_key op = key)) as [<-|]; lia.
  - done.
Qed.

Lemma queue_settle_within limits id o q :
  queue_within limits q → queue_within limits (queue_settle limits id o q).
Proof.
  intros (Ht & Ha & Hp & Ho). unfold queue_settle.
  split; [|split; [|split]]; cbn [qu_ops qu_outcomes]; [..|apply newest_length].
  - pose proof (length_filter (λ op, op_id_hex op ≠ id) (qu_ops q)). lia.
  - intros key. pose proof (waiting_filter op_author_key key (λ op, op_id_hex op ≠ id) (qu_ops q)).
    specialize (Ha key). lia.
  - intros key. pose proof (waiting_filter op_principal_key key (λ op, op_id_hex op ≠ id) (qu_ops q)).
    specialize (Hp key). lia.
Qed.

Lemma empty_within limits : queue_within limits empty_queue.
Proof. unfold queue_within, waiting_for. cbn. split_and!; intros; lia. Qed.

Lemma sim_call limits c p q l :
  pool_sim p q l → queue_within limits q → 0 <= pl_next_sequence p < 2 ^ 64 - 1 →
  (call_pool limits c p).1 = (call_queue limits c q).1 ∧
  queue_within limits (call_queue limits c q).2 ∧
  pl_next_sequence p <= pl_next_sequence (call_pool limits c p).2 <= pl_next_sequence p + 1 ∧
  ∃ l', pool_sim (call_pool limits c p).2 (call_queue limits c q).2 l'.
Proof.
  intros S W Hseq. destruct c as [op ticket|id o]; cbn [call_pool call_queue].
  - destruct (sim_add limits op ticket p q l S Hseq) as (Ha & Hn & l' & S').
    pose proof (queue_add_within limits op q W) as W'.
    destruct (pool_add _ _ _ _), (queue_add _ _ _). cbn in *. split; [by f_equal|eauto].
  - split; [done|]. split; [by apply queue_settle_within|]. split; [|by apply sim_settle with (l := l)].
    unfold pool_settle, remember_locked. cbn [snd].
    repeat (case_match; cbn [snd]; try (cbn; lia)).
Qed.

Lemma sim_calls limits calls : ∀ p q l,
  pool_sim p q l → queue_within limits q → 0 <= pl_next_sequence p →
  pl_next_sequence p + Z.of_nat (length calls) < 2 ^ 64 →
  (call_pools limits calls p).1 = (call_queues limits calls q).1 ∧
  queue_within limits (call_queues limits calls q).2 ∧
  ∃ l', pool_sim (call_pools limits calls p).2 (call_queues limits calls q).2 l'.
Proof.
  induction calls as [|c calls IH]; intros p q l S W Hz Hn; cbn [call_pools call_queues].
  { cbn. eauto. }
  cbn [length] in Hn. destruct (sim_call limits c p q l S W) as (Ha & W' & Hs & l' & S'); [lia|].
  destruct (call_pool limits c p) as [a p'], (call_queue limits c q) as [b q']. cbn [fst snd] in *.
  destruct (IH p' q' l' S' W') as (Hb & W2 & l2 & S2); [lia..|].
  destruct (call_pools limits calls p'), (call_queues limits calls q'). cbn [fst snd] in *.
  split; [by f_equal|eauto].
Qed.

(** C34: The pool is a queue with limits. After any sequence of adds and settles
    (fewer than [2^64]) it has given the answers of the queue, lists the waiting
    operations in arrival order without those settled, reports the status the
    queue reports, and holds no more operations in all, per author and per
    principal, and no more remembered outcomes, than its limits. *)
Theorem pool_refines_queue limits calls :
  Z.of_nat (length calls) < 2 ^ 64 →
  let '(answers, p) := call_pools limits calls new_pool in
  let '(expected, q) := call_queues limits calls empty_queue in
  answers = expected ∧ pool_pending p = qu_ops q ∧ pool_size p = Z.of_nat (length (qu_ops q)) ∧
  (∀ id, pool_contains id p = bool_decide (id ∈ op_id_hex <$> qu_ops q)) ∧
  (∀ id, pool_status id p = queue_status id q) ∧ queue_within limits q.
Proof.
  intros Hn. destruct (sim_calls limits calls _ _ _ sim_empty (empty_within limits)) as (Ha & W & l & S);
    [cbn; lia..|].
  destruct (call_pools limits calls new_pool) as [answers p], (call_queues _ _ _) as [expected q].
  cbn [fst snd] in *. split; [done|]. split; [by eapply sim_pending|]. split; [by eapply sim_size|].
  split; [intros id; by eapply sim_contains|]. split; [|done]. intros id. by eapply sim_status.
Qed.
End pool.

#[local] Existing Instance Village.sodium.
#[local] Existing Instance Village.messages.
#[local] Existing Instance Village.floats.
#[local] Existing Instance Member.hex.

(** Three joins and a repeat against a limit of one operation per principal
    and one remembered outcome. *)
Definition small_limits : TreeOpPoolLimits := mkLimits 3 3 1 1.
Definition busy_morning : list PoolCall :=
  let first := Village.join 1 1 "a" in
  let second := Village.join 1 2 "b" in
  [ PoolAdd first (Some 0%nat); PoolAdd first None; PoolAdd second None;
    PoolAdd (Village.join 2 3 "c") None;
    PoolSettle (op_id_hex first) (mkOutcome OpCommitted None 4);
    PoolAdd first None; PoolAdd second None;
    PoolSettle "unknown" (mkOutcome OpCommitted None 4); PoolAdd first None ].

Lemma pool_refines_queue_witness :
  pool_pending (call_pools small_limits busy_morning new_pool).2
    = [Village.join 2 3 "c"; Village.join 1 2 "b"] ∧
  (call_pools small_limits busy_morning new_pool).1
    = [Some Added; Some Duplicate; Some PrincipalLimit; Some Added; None; Some Duplicate; Some Added; None;
       Some PrincipalLimit].
Proof.
  assert (Hq : call_queues small_limits busy_morning empty_queue =
    ([Some Added; Some Duplicate; Some PrincipalLimit; Some Added; None; Some Duplicate; Some Added; None;
      Some PrincipalLimit],
     mkQueue [Village.join 2 3 "c"; Village.join 1 2 "b"] [("unknown", mkOutcome OpCommitted None 4)]))
    by (vm_compute; reflexivity).
  pose proof (pool_refines_queue small_limits busy_morning ltac:(vm_compute; reflexivity)) as Hr.
  rewrite Hq in Hr. destruct (call_pools small_limits busy_morning new_pool) as [answers p].
  destruct Hr as (Ha & Hp & _). exact (conj Hp Ha).
Defined.
