(* ===== verification/TreeMerge.v ===== *)
(** * The tree merge

    Models the merge rule of [Tree/TreeMerge.cpp]: the union of the trees that
    the servers kept before the tree log, with its eight rules, its conflicts
    and its report of what was dropped.

    A [Copy] of the source points into the exports, and the rule compares such
    a pointer with that of the root server's export. There is a root server
    export only when exactly one export is marked, so [c.from == root_server]
    is the mark of the copy's export with that count ([cp_root_server]).

    Where the code walks an unordered map the model walks [map_to_list]; where
    it walks a [std::map] the model walks the keys in byte order. *)

From S2P Require Import Prelude SecurityPolicy CanonicalEncoding Json.
From S2P Require Import TreeTypes TreeRules TreeFacts TreeOps TreeValidation.

(** ** Data *)

Record TreeExport := mkExport {
  ex_server : string;
  ex_root_server : bool;
  ex_nodes : list TreeNode;
  ex_joined_here : gset string;
  ex_created_here : gset string;
}.

Record MergeConflict := mkConflict {
  mc_node_id : string;
  mc_kind : string;
  mc_detail : string;
  mc_servers : list string;
}.

Record MergeDrop := mkDrop {
  md_node_id : string;
  md_reason : string;
  md_detail : string;
  md_servers : list string;
}.

Record MergeResult := mkMerge {
  mr_nodes : NodeMap;
  mr_conflicts : list MergeConflict;
  mr_dropped : list MergeDrop;
  mr_decisions : list string;
}.

#[export] Instance eta_merge : Etable MergeResult := λ r,
  mkMerge (mr_nodes r) (mr_conflicts r) (mr_dropped r) (mr_decisions r).

Record Copy := mkCopy {
  cp_from : TreeExport;
  cp_root_server : bool;
  cp_node : TreeNode;
  cp_encoding : list Z;
}.

Definition add_conflict (id kind detail : string) (servers : list string) (out : MergeResult)
    : MergeResult :=
  out <| mr_conflicts := mr_conflicts out ++ [mkConflict id kind detail (sort_unique servers)] |>.

Definition servers_of (copies : list Copy) : list string :=
  sort_unique ((λ c, ex_server (cp_from c)) <$> copies).

(** [std::vector<uint8_t>] in lexicographic order. *)
Fixpoint bytes_before (a b : list Z) : bool :=
  match a, b with
  | _, [] => false
  | [], _ :: _ => true
  | x :: a, y :: b => (x <? y) || (x =? y) && bytes_before a b
  end.

(** ** Rule 6 *)

Definition holders (all : list Copy) (c : Copy) : Z :=
  Z.of_nat (length (filter (λ other, cp_encoding other = cp_encoding c) all)).

(** [(version, holders, from == root_server)], compared as a tuple. *)
Definition copy_key (all : list Copy) (c : Copy) : Z * Z * Z :=
  (tn_version (cp_node c), holders all c, Z.b2z (cp_root_server c)).

Definition key_gt (a b : Z * Z * Z) : bool :=
  let '(a1, a2, a3) := a in let '(b1, b2, b3) := b in
  (b1 <? a1) || (a1 =? b1) && ((b2 <? a2) || (a2 =? b2) && (b3 <? a3)).

Definition beats (all : list Copy) (c best : Copy) : bool :=
  key_gt (copy_key all c) (copy_key all best)
  || bool_decide (copy_key all c = copy_key all best) && bytes_before (cp_encoding c) (cp_encoding best).

Definition tie_break (candidates all : list Copy) : option Copy :=
  foldl (λ best c,
    match best with
    | None => Some c
    | Some b => if beats all c b then Some c else Some b
    end) None candidates.

(** ** Rules 1 to 6 *)

Section merge.
Context `{TextCodec, FloatText}.

Record ServerTable := mkTable {
  st_by_server : gmap string TreeExport;
  st_root_servers : Z;
  st_out : MergeResult;
}.

Definition register_export (acc : ServerTable) (e : TreeExport) : ServerTable :=
  let '(mkTable by_server roots out) := acc in
  let roots := if ex_root_server e then roots + 1 else roots in
  match by_server !! ex_server e with
  | Some _ =>
      mkTable by_server roots
        (add_conflict "" "bad_exports" ("server label " +:+ ex_server e +:+ " repeats") [ex_server e] out)
  | None => mkTable (<[ ex_server e := e ]> by_server) roots out
  end.

Definition register_exports (exports : list TreeExport) : ServerTable :=
  let '(mkTable by_server roots out) :=
    foldl register_export (mkTable ∅ 0 (mkMerge ∅ [] [] [])) exports in
  mkTable by_server roots
    (if 1 <? roots then
       add_conflict "root" "bad_exports"
         ("at most one export may be marked as the root server; found " +:+ pretty (Z.to_N roots)) [] out
     else out).

(** [e == root_server] *)
Definition is_root_server (roots : Z) (e : TreeExport) : bool := (roots =? 1) && ex_root_server e.

Definition add_copy (roots : Z) (e : TreeExport) (copies : gmap string (list Copy)) (node : TreeNode)
    : gmap string (list Copy) :=
  <[ tn_id node := default [] (copies !! tn_id node)
                   ++ [mkCopy e (is_root_server roots e) node (encode_tree_node node)] ]> copies.

Definition all_copies (roots : Z) (by_server : gmap string TreeExport) : gmap string (list Copy) :=
  foldl (λ copies server,
    match by_server !! server with
    | Some e => foldl (add_copy roots e) copies (ex_nodes e)
    | None => copies
    end) ∅ (sort_strings (map_to_list by_server).*1).

Definition take (c : Copy) (rule : string) (out : MergeResult) : MergeResult :=
  let id := tn_id (cp_node c) in
  out <| mr_nodes := <[ id := cp_node c ]> (mr_nodes out) |>
      <| mr_decisions := mr_decisions out
           ++ [id +:+ ": " +:+ rule +:+ " from " +:+ ex_server (cp_from c)] |>.

Fixpoint join_commas (l : list string) (others : string) : string :=
  match l with
  | [] => others
  | s :: rest => join_commas rest (others +:+ (if is_empty others then "" else ",") +:+ s)
  end.

(** Rules 4 and 5: the rule's name and the copies with evidence. *)
Definition evidence_for (id : string) (held : list Copy) (type : NodeType) : option (string * list Copy) :=
  if negb (forallb (λ c, is_type (tn_type (cp_node c)) type) held) then None
  else match type with
  | Endpoint => Some ("joined server", filter (λ c, id ∈ ex_joined_here (cp_from c)) held)
  | Customer => Some ("creator's record", filter (λ c, id ∈ ex_created_here (cp_from c)) held)
  | _ => None
  end.

(** Rules 4 to 6, for copies that differ. *)
Definition settle_differing (id : string) (first : Copy) (held : list Copy) (out : MergeResult)
    : MergeResult :=
  let found := evidence_for id held (tn_type (cp_node first)) in
  let evidence := match found with Some (_, l) => l | None => [] end in
  match found, evidence with
  | Some (rule, _), [c] => take c rule out
  | _, _ =>
      let candidates := if (length evidence <? 2)%nat then held else evidence in
      match tie_break candidates held with
      | None => out
      | Some pick =>
          let others := filter (λ s, s ≠ ex_server (cp_from pick)) (servers_of held) in
          take pick ("tie-break over " +:+ pretty (N.of_nat (length candidates))
                     +:+ " differing copies (also held by " +:+ join_commas others "" +:+ ")") out
      end
  end.

(** Rules 2 to 6. *)
Definition settle_node (root_known : bool) (id : string) (held : list Copy) (out : MergeResult)
    : MergeResult :=
  match (if String.eqb id "root" && root_known then List.find cp_root_server held else None), held with
  | Some pick, _ => take pick "root server" out
  | None, [] => out
  | None, first :: _ =>
      if forallb (λ c, bool_decide (cp_encoding c = cp_encoding first)) held
      then take first (if (length held =? 1)%nat then "single copy" else "identical copies") out
      else settle_differing id first held out
  end.

(** One turn of the loop over the node ids. *)
Definition decide_node (root_known : bool) (resolutions : gmap string string) (id : string)
    (held : list Copy) (out : MergeResult) : MergeResult :=
  match resolutions !! id with
  | Some server =>
      if String.eqb server "drop"
      then out <| mr_decisions := mr_decisions out ++ [id +:+ ": dropped by resolution"] |>
      else match List.find (λ c, String.eqb (ex_server (cp_from c)) server) held with
           | None => add_conflict id "bad_resolution"
                       ("resolution names server " +:+ server +:+ ", which does not hold it")
                       (servers_of held) out
           | Some pick => take pick "resolution" out
           end
  | None => settle_node root_known id held out
  end.

Definition held_of (copies : gmap string (list Copy)) (id : string) : list Copy :=
  default [] (copies !! id).

Definition check_resolutions (resolutions : gmap string string) (copies : gmap string (list Copy))
    (out : MergeResult) : MergeResult :=
  foldl (λ out id,
    if bool_decide (is_Some (copies !! id)) then out
    else add_conflict id "bad_resolution" "no export holds this node" [default "" (resolutions !! id)] out)
    out (sort_strings (map_to_list resolutions).*1).

(** The nodes that rules 1 to 6 select. *)
Definition select_nodes (roots : Z) (resolutions : gmap string string) (copies : gmap string (list Copy))
    (out : MergeResult) : MergeResult :=
  let out := foldl (λ out id, decide_node (roots =? 1) resolutions id (held_of copies id) out) out
               (sort_strings (map_to_list copies).*1) in
  let out := check_resolutions resolutions copies out in
  if bool_decide (is_Some (mr_nodes out !! "root"%string)) then out
  else add_conflict "root" "root_missing" "no export holds a root" [] out.

(** ** Rule 7 *)

Definition holders_of (copies : gmap string (list Copy)) (id : string) : list string :=
  match copies !! id with Some held => servers_of held | None => [] end.

Definition drop_node (copies : gmap string (list Copy)) (id reason detail : string) (out : MergeResult)
    : MergeResult :=
  out <| mr_nodes := delete id (mr_nodes out) |>
      <| mr_dropped := mr_dropped out ++ [mkDrop id reason detail (holders_of copies id)] |>.

Definition joined_somewhere (exports : list TreeExport) (id : string) : bool :=
  existsb (λ e, bool_decide (id ∈ ex_joined_here e)) exports.

Definition keep_key (exports : list TreeExport) (copies : gmap string (list Copy)) (id : string)
    : Z * Z * Z :=
  (Z.b2z (String.eqb id "root"), Z.b2z (joined_somewhere exports id),
   Z.of_nat (length (holders_of copies id))).

Definition keeps_before (exports : list TreeExport) (copies : gmap string (list Copy)) (a b : string)
    : bool :=
  let ka := keep_key exports copies a in
  let kb := keep_key exports copies b in
  if bool_decide (ka = kb) then String.ltb a b else key_gt ka kb.

Definition keep_le (exports : list TreeExport) (copies : gmap string (list Copy)) (a b : string) : Prop :=
  keeps_before exports copies b a = false.
#[export] Instance keep_le_dec exports copies : RelDecision (keep_le exports copies).
Proof. intros a b. unfold keep_le. apply _. Defined.

Definition merge_fields : list (string * string * (TreeNode → string)) :=
  [ ("duplicate_identifier", "endpoint identifier", tn_endpoint_identifier);
    ("duplicate_mesh_key", "mesh key", tn_mesh_pubkey);
    ("duplicate_tunnel_address", "tunnel address", tn_tunnel_ip) ].

(** [holding]: the ids of each value of a field. *)
Definition hold_value (field : TreeNode → string) (holding : gmap string (list string))
    (entry : string * TreeNode) : gmap string (list string) :=
  let value := field entry.2 in
  if is_empty value then holding else <[ value := default [] (holding !! value) ++ [entry.1] ]> holding.

Definition holding_of (field : TreeNode → string) (nodes : NodeMap) : gmap string (list string) :=
  foldl (hold_value field) ∅ (map_to_list nodes).

Definition drop_rivals (exports : list TreeExport) (copies : gmap string (list Copy))
    (reason what value : string) (ids : list string) (out : MergeResult) : MergeResult :=
  match merge_sort (keep_le exports copies) ids with
  | first :: rest =>
      if (length ids <? 2)%nat then out
      else foldl (λ out id,
             drop_node copies id reason (what +:+ " " +:+ value +:+ " is kept by " +:+ first) out) out rest
  | [] => out
  end.

Definition settle_field (exports : list TreeExport) (copies : gmap string (list Copy))
    (out : MergeResult) (f : string * string * (TreeNode → string)) : MergeResult :=
  let '(reason, what, field) := f in
  let holding := holding_of field (mr_nodes out) in
  foldl (λ out value,
    drop_rivals exports copies reason what value (default [] (holding !! value)) out)
    out (sort_strings (map_to_list holding).*1).

(** ** Rule 8 *)

Definition merge_children (nodes : NodeMap) (id : string) : list string :=
  (filter (λ kv : string * TreeNode, kv.1 ≠ "root"%string ∧ tn_parent_id kv.2 = id) (map_to_list nodes)).*1.

(** The frontier with its back first. Each turn takes an id that was inserted
    into [reached] once, so the number of nodes bounds the turns. *)
Fixpoint reach (fuel : nat) (nodes : NodeMap) (reached : gset string) (frontier : list string)
    : gset string :=
  match fuel, frontier with
  | S fuel', id :: rest =>
      let '(reached, added) := foldl enqueue (reached, []) (merge_children nodes id) in
      reach fuel' nodes reached (rev added ++ rest)
  | _, _ => reached
  end.

Definition reached_nodes (nodes : NodeMap) : gset string :=
  reach (loop_fuel nodes) nodes {["root"%string]} ["root"%string].

Definition drop_unreached (copies : gmap string (list Copy)) (selected : NodeMap) (id : string)
    (out : MergeResult) : MergeResult :=
  let parent := tn_parent_id (node_at selected id) in
  if is_empty parent || negb (bool_decide (is_Some (selected !! parent)))
  then drop_node copies id "orphan" ("parent '" +:+ parent +:+ "' is not in the merged tree") out
  else drop_node copies id "unreachable" ("parent '" +:+ parent +:+ "' does not reach the root") out.

Definition settle_reach (copies : gmap string (list Copy)) (out : MergeResult) : MergeResult :=
  if bool_decide (is_Some (mr_nodes out !! "root"%string)) then
    let selected := mr_nodes out in
    let reached := reached_nodes selected in
    foldl (λ out id, drop_unreached copies selected id out) out
      (filter (λ id, id ∉ reached) (map_to_list selected).*1)
  else out.

(** ** The result *)

Definition tie_le (a b : list string) : bool :=
  (fix go (a b : list string) : bool :=
     match a, b with
     | x :: a, y :: b => String.ltb x y || String.eqb x y && go a b
     | _, _ => true
     end) a b.

Definition conflict_le (a b : MergeConflict) : Prop :=
  tie_le [mc_node_id a; mc_kind a; mc_detail a] [mc_node_id b; mc_kind b; mc_detail b] = true.
#[export] Instance conflict_le_dec : RelDecision conflict_le.
Proof. intros a b. unfold conflict_le. apply _. Defined.

Definition drop_le (a b : MergeDrop) : Prop :=
  tie_le [md_node_id a; md_reason a] [md_node_id b; md_reason b] = true.
#[export] Instance drop_le_dec : RelDecision drop_le.
Proof. intros a b. unfold drop_le. apply _. Defined.

Definition sort_result (out : MergeResult) : MergeResult :=
  mkMerge (mr_nodes out) (merge_sort conflict_le (mr_conflicts out))
    (merge_sort drop_le (mr_dropped out)) (sort_strings (mr_decisions out)).

Definition merge_tree_exports (exports : list TreeExport) (resolutions : gmap string string)
    : MergeResult :=
  let '(mkTable by_server roots out) := register_exports exports in
  let copies := all_copies roots by_server in
  let out := select_nodes roots resolutions copies out in
  let out := foldl (settle_field exports copies) out merge_fields in
  let out := settle_reach copies out in
  sort_result out.
End merge.
