(* ===== verification/TreeMergeFacts.v ===== *)
(** * Facts about the tree merge

    What each rule of the merge does to the selected nodes: where the nodes
    come from, what a drop changes, which nodes rule 7 keeps and which rule 8
    reaches. *)

From S2P Require Import Prelude SecurityPolicy CanonicalEncoding Json.
From S2P Require Import TreeTypes TreeRules TreeFacts TreeOps TreeValidation TreeMerge.

(** ** The copies *)

Lemma foldl_keeps {A B} (P : B → Prop) (f : B → A → B) l b :
  (∀ b x, x ∈ l → P b → P (f b x)) → P b → P (foldl f b l).
Proof.
  revert b. induction l as [|x l IH]; intros b Hf Hb; [done|]. cbn [foldl]. apply IH.
  - intros b' y Hy. apply Hf. by right.
  - apply Hf; [by left|done].
Qed.

Lemma foldl_same {A B} (f g : B → A → B) l b : (∀ b x, f b x = g b x) → foldl f b l = foldl g b l.
Proof. intros E. revert b. induction l as [|x l IH]; intros b; cbn; [done|]. by rewrite E. Qed.

Lemma elem_of_sorted_keys {A} (m : gmap string A) id :
  id ∈ sort_strings (map_to_list m).*1 ↔ is_Some (m !! id).
Proof.
  rewrite elem_of_sort_strings, list_elem_of_fmap. split.
  - intros ([k x] & -> & Hin%elem_of_map_to_list). eauto.
  - intros [x Hx]. exists (id, x). by rewrite elem_of_map_to_list.
Qed.

Section facts.
Context `{TextCodec, FloatText}.
Implicit Types (exports : list TreeExport) (copies : gmap string (list Copy)) (out : MergeResult)
  (by_server : gmap string TreeExport) (held : list Copy) (nodes : NodeMap).

Lemma find_elem {A} (p : A → bool) l x : List.find p l = Some x → x ∈ l ∧ p x = true.
Proof. intros [Hin Hp]%List.find_some. split; [by apply list_elem_of_In|done]. Qed.

Lemma tie_break_elem candidates all c : tie_break candidates all = Some c → c ∈ candidates.
Proof.
  unfold tie_break.
  assert (Hgen : ∀ (l : list Copy) best,
    foldl (λ best c, match best with None => Some c | Some b => if beats all c b then Some c else Some b end)
      best l = Some c → best = Some c ∨ c ∈ l).
  { induction l as [|x l IH]; intros best; cbn [foldl]; [auto|]. intros [E|E]%IH; [|right; by right].
    destruct best as [b|]; [destruct (beats all x b)|]; [right..|left|right]; simplify_eq; try done; left. }
  intros [E|E]%Hgen; [done|done].
Qed.

Lemma tie_break_some candidates all : candidates ≠ [] → is_Some (tie_break candidates all).
Proof.
  unfold tie_break. destruct candidates as [|c l]; [done|]. intros _. cbn [foldl].
  assert (Hgen : ∀ (l : list Copy) b, is_Some (foldl (λ best c,
    match best with None => Some c | Some b => if beats all c b then Some c else Some b end) (Some b) l)).
  { clear. intros l. induction l as [|x l IH]; intros b; cbn [foldl]; [eauto|]. by destruct (beats all x b). }
  apply Hgen.
Qed.

Lemma evidence_held id held type rule l : evidence_for id held type = Some (rule, l) → ∀ c, c ∈ l → c ∈ held.
Proof.
  unfold evidence_for. case_match; [done|]. destruct type; intros [= <- <-] c Hc; try done;
    by apply list_elem_of_filter in Hc as [_ Hc].
Qed.

(** Rules 2 to 6 always take one of the copies. *)
Lemma settle_differing_takes id first held out :
  held ≠ [] → ∃ c rule, c ∈ held ∧ settle_differing id first held out = take c rule out.
Proof.
  intros Hne. unfold settle_differing. set (found := evidence_for _ _ _).
  set (evidence := match found with Some (_, l) => l | None => [] end).
  assert (Hev : ∀ c, c ∈ evidence → c ∈ held).
  { unfold evidence. destruct found as [[rule l]|] eqn:E; [|by intros c ?%not_elem_of_nil].
    by eapply evidence_held. }
  assert (Htie : ∃ c rule, c ∈ held ∧
    (let candidates := if (length evidence <? 2)%nat then held else evidence in
     match tie_break candidates held with
     | None => out
     | Some pick =>
         take pick ("tie-break over " +:+ pretty (N.of_nat (length candidates))
           +:+ " differing copies (also held by "
           +:+ join_commas (filter (λ s, s ≠ ex_server (cp_from pick)) (servers_of held)) "" +:+ ")") out
     end) = take c rule out).
  { cbn zeta. destruct (tie_break_some (if (length evidence <? 2)%nat then held else evidence) held)
      as [pick Hpick].
    { destruct (Nat.ltb_spec (length evidence) 2); [done|]. intros E. rewrite E in *. cbn in *. lia. }
    rewrite Hpick. exists pick. eexists. split; [|done]. apply tie_break_elem in Hpick.
    destruct (length evidence <? 2)%nat; auto. }
  cbn zeta in Htie. destruct found as [[rule l]|]; [|exact Htie].
  destruct evidence as [|c [|c2 l2]]; [exact Htie| |exact Htie].
  exists c, rule. split; [apply Hev; by left|done].
Qed.

Lemma settle_node_takes root_known id held out :
  held ≠ [] → ∃ c rule, c ∈ held ∧ settle_node root_known id held out = take c rule out.
Proof.
  intros Hne. unfold settle_node. destruct held as [|first rest]; [done|].
  destruct (if _ && _ then List.find cp_root_server (first :: rest) else None) as [pick|] eqn:E.
  - exists pick, "root server"%string. split; [|done]. destruct (_ && _); [|done].
    by apply find_elem in E as [].
  - destruct (forallb _ _); [|by apply settle_differing_takes]. exists first. eexists. split; [by left|done].
Qed.

(** What one turn of the loop does. *)
Inductive turn (resolutions : gmap string string) (id : string) held out : MergeResult → Prop :=
  | turn_takes c rule : c ∈ held → turn resolutions id held out (take c rule out)
  | turn_drops decision : resolutions !! id = Some "drop"%string →
      turn resolutions id held out (out <| mr_decisions := mr_decisions out ++ [decision] |>)
  | turn_refuses detail servers : is_Some (resolutions !! id) →
      turn resolutions id held out (add_conflict id "bad_resolution" detail servers out).

Lemma decide_node_turn root_known resolutions id held out :
  held ≠ [] → turn resolutions id held out (decide_node root_known resolutions id held out).
Proof.
  intros Hne. unfold decide_node. destruct (resolutions !! id) as [server|] eqn:Er.
  - destruct (String.eqb_spec server "drop") as [->|Hs]; [by apply turn_drops|].
    destruct (List.find _ held) as [pick|] eqn:Ef; [|apply turn_refuses; eauto].
    apply turn_takes. by apply find_elem in Ef as [].
  - destruct (settle_node_takes root_known id held out Hne) as (c & rule & Hc & ->). by apply turn_takes.
Qed.

(** The exports that are registered are exports, under their labels. *)
Definition table_ok exports by_server : Prop :=
  ∀ s e, by_server !! s = Some e → ex_server e = s ∧ e ∈ exports.

Lemma register_ok exports : table_ok exports (st_by_server (register_exports exports)).
Proof.
  unfold register_exports.
  assert (Hgen : ∀ l t, (∀ e, e ∈ l → e ∈ exports) → table_ok exports (st_by_server t) →
    table_ok exports (st_by_server (foldl register_export t l))).
  { induction l as [|e l IH]; intros t Hl Ht; cbn [foldl]; [done|].
    apply IH; [intros x Hx; apply Hl; by right|]. destruct t as [by_server roots out]. cbn.
    destruct (by_server !! ex_server e) eqn:E; [done|]. cbn. intros s e'.
    rewrite lookup_insert_Some. intros [[<- <-]|[_ He]]; [|by apply Ht].
    split; [done|]. apply Hl. by left. }
  specialize (Hgen exports (mkTable ∅ 0 (mkMerge ∅ [] [] []))).
  destruct (foldl register_export _ exports). cbn in *. apply Hgen; [done|].
  intros s e. by rewrite lookup_empty.
Qed.

Record copy_ok by_server (id : string) (c : Copy) : Prop := mkCopyOk {
  co_id : tn_id (cp_node c) = id;
  co_from : by_server !! ex_server (cp_from c) = Some (cp_from c);
  co_node : cp_node c ∈ ex_nodes (cp_from c);
}.

Definition copies_ok by_server copies : Prop :=
  ∀ id held, copies !! id = Some held → held ≠ [] ∧ ∀ c, c ∈ held → copy_ok by_server id c.

Lemma add_copy_ok by_server roots e copies n :
  by_server !! ex_server e = Some e → n ∈ ex_nodes e → copies_ok by_server copies →
  copies_ok by_server (add_copy roots e copies n).
Proof.
  intros He Hn Hc id held. unfold add_copy. rewrite lookup_insert_Some. intros [[<- <-]|[_ Hh]]; [|by apply Hc].
  split; [by destruct (default [] _)|]. intros c [Hin| ->%list_elem_of_singleton]%elem_of_app; [|done].
  destruct (copies !! tn_id n) as [held|] eqn:E; cbn in Hin; [|by apply not_elem_of_nil in Hin].
  by apply (Hc _ _ E).
Qed.

Lemma all_copies_ok roots by_server :
  (∀ s e, by_server !! s = Some e → ex_server e = s) → copies_ok by_server (all_copies roots by_server).
Proof.
  intros Hs. unfold all_copies. apply foldl_keeps.
  - intros copies s _ Hc. destruct (by_server !! s) as [e|] eqn:E; [|done].
    rewrite <-(Hs _ _ E) in E. apply foldl_keeps; [|done]. intros. by apply add_copy_ok.
  - intros id held. by rewrite lookup_empty.
Qed.

(** Copies once held stay, and every node of a registered export is held. *)
Lemma add_copy_some roots e copies n id :
  is_Some (copies !! id) ∨ id = tn_id n → is_Some (add_copy roots e copies n !! id).
Proof.
  unfold add_copy. destruct (decide (tn_id n = id)) as [<-|Hne]; [by rewrite lookup_insert_eq|].
  rewrite lookup_insert_ne by done. intros [?|?]; [done|congruence].
Qed.

Lemma foldl_some {A} (f : gmap string (list Copy) → A → gmap string (list Copy)) l id :
  (∀ copies x, is_Some (copies !! id) → is_Some (f copies x !! id)) →
  ∀ x copies, x ∈ l → (∀ copies, is_Some (f copies x !! id)) → is_Some (foldl f copies l !! id).
Proof.
  intros Hkeep x copies Hx Hf. apply list_elem_of_split in Hx as (l1 & l2 & ->).
  rewrite foldl_app. cbn [foldl]. apply foldl_keeps; [auto|done].
Qed.

Lemma all_copies_hold roots by_server s e n :
  by_server !! s = Some e → n ∈ ex_nodes e → is_Some (all_copies roots by_server !! tn_id n).
Proof.
  intros He Hn. unfold all_copies. apply (foldl_some _ _ _) with (x := s).
  - intros copies s' Hc. destruct (by_server !! s') as [e'|]; [|exact Hc].
    apply (foldl_keeps (λ c, is_Some (c !! tn_id n))); [|exact Hc]. intros. apply add_copy_some. by left.
  - apply elem_of_sorted_keys. eauto.
  - intros copies. rewrite He. apply (foldl_some _ _ _) with (x := n); [|done|].
    + intros c x Hc. apply add_copy_some. by left.
    + intros c. apply add_copy_some. by right.
Qed.

(** ** Rules 1 to 6 *)

Definition selected_ok copies nodes : Prop :=
  ∀ id n, nodes !! id = Some n → ∃ c, c ∈ held_of copies id ∧ cp_node c = n ∧ tn_id n = id.

Lemma held_of_some copies id held : copies !! id = Some held → held_of copies id = held.
Proof. unfold held_of. by intros ->. Qed.

Lemma turn_selected by_server resolutions copies id held out out' :
  copies_ok by_server copies → copies !! id = Some held → turn resolutions id held out out' →
  selected_ok copies (mr_nodes out) → selected_ok copies (mr_nodes out').
Proof.
  intros Hc Hh Ht Hs. destruct Ht as [c rule Hin| |]; [|exact Hs..].
  cbn. intros i n. rewrite lookup_insert_Some. intros [[<- <-]|[_ Hi]]; [|by apply Hs].
  destruct (Hc _ _ Hh) as [_ Hk]. rewrite (co_id _ _ _ (Hk _ Hin)). exists c.
  by rewrite (held_of_some _ _ _ Hh).
Qed.

Lemma turn_dropped resolutions id held out out' :
  turn resolutions id held out out' → mr_dropped out' = mr_dropped out.
Proof. by destruct 1. Qed.

Lemma turn_keeps resolutions id held out out' i :
  turn resolutions id held out out' → is_Some (mr_nodes out !! i) → is_Some (mr_nodes out' !! i).
Proof.
  destruct 1 as [c rule Hin| |]; [|done..]. cbn. intros Hi.
  destruct (decide (tn_id (cp_node c) = i)) as [<-|]; [by rewrite lookup_insert_eq|by rewrite lookup_insert_ne].
Qed.

Lemma check_resolutions_nodes resolutions copies out :
  mr_nodes (check_resolutions resolutions copies out) = mr_nodes out ∧
  mr_dropped (check_resolutions resolutions copies out) = mr_dropped out.
Proof.
  unfold check_resolutions. apply (foldl_keeps (λ o, mr_nodes o = mr_nodes out ∧ mr_dropped o = mr_dropped out));
    [|done]. intros o id _ Ho. by case_match.
Qed.

(** The selection: copies only, nothing dropped, and every held node that no
    resolution names is there. *)
Lemma select_nodes_ok by_server roots resolutions copies out :
  copies_ok by_server copies → selected_ok copies (mr_nodes out) → mr_dropped out = [] →
  let out' := select_nodes roots resolutions copies out in
  selected_ok copies (mr_nodes out') ∧ mr_dropped out' = [] ∧
  (∀ id, is_Some (copies !! id) → resolutions !! id = None → is_Some (mr_nodes out' !! id)).
Proof.
  intros Hc Hs Hd. unfold select_nodes.
  set (f := λ out id, decide_node (roots =? 1) resolutions id (held_of copies id) out).
  set (ids := sort_strings (map_to_list copies).*1).
  assert (Hturn : ∀ o id, id ∈ ids → ∃ held, copies !! id = Some held ∧ turn resolutions id held o (f o id)).
  { intros o id [held Hh]%elem_of_sorted_keys. exists held. split; [done|]. unfold f.
    rewrite (held_of_some _ _ _ Hh). apply decide_node_turn. by apply (Hc _ _ Hh). }
  assert (Hsel : selected_ok copies (mr_nodes (foldl f out ids)) ∧ mr_dropped (foldl f out ids) = []).
  { apply (foldl_keeps (λ o, selected_ok copies (mr_nodes o) ∧ mr_dropped o = [])); [|done].
    intros o id Hid [Ho Hdo]. destruct (Hturn o id Hid) as (held & Hh & Ht). split.
    - by eapply turn_selected.
    - by rewrite (turn_dropped _ _ _ _ _ Ht). }
  assert (Hall : ∀ id, is_Some (copies !! id) → resolutions !! id = None →
    is_Some (mr_nodes (foldl f out ids) !! id)).
  { intros id Hid Hr. apply elem_of_sorted_keys in Hid as Hin. fold ids in Hin.
    apply list_elem_of_split in Hin as (l1 & l2 & Hl). rewrite Hl, foldl_app. cbn [foldl].
    apply (foldl_keeps (λ o, is_Some (mr_nodes o !! id))).
    - intros o x Hx Ho. destruct (Hturn o x) as (held & _ & Ht); [rewrite Hl; set_solver|].
      by eapply turn_keeps.
    - destruct Hid as [held Hh]. unfold f at 1. unfold decide_node. rewrite Hr, (held_of_some _ _ _ Hh).
      destruct (Hc _ _ Hh) as [Hne Hk].
      destruct (settle_node_takes (roots =? 1) id held (foldl f out l1) Hne) as (c & rule & Hin & ->).
      cbn. rewrite (co_id _ _ _ (Hk _ Hin)), lookup_insert_eq. eauto. }
  cbn zeta. destruct (check_resolutions_nodes resolutions copies (foldl f out ids)) as [Hn Hdr].
  case_match; cbn; rewrite ?Hn, ?Hdr; split_and!; try done; apply Hsel.
Qed.

(** ** Drops *)

(** [out'] is [out] with nodes dropped: nodes only go, and each one that goes is
    reported. *)
Record drops out out' : Prop := mkDrops {
  dr_nodes : ∀ id n, mr_nodes out' !! id = Some n → mr_nodes out !! id = Some n;
  dr_account : ∀ id, is_Some (mr_nodes out !! id) →
    is_Some (mr_nodes out' !! id) ∨ id ∈ md_node_id <$> mr_dropped out';
  dr_more : ∀ id, id ∈ md_node_id <$> mr_dropped out → id ∈ md_node_id <$> mr_dropped out';
  dr_gone : ∀ id, id ∈ md_node_id <$> mr_dropped out' →
    id ∈ md_node_id <$> mr_dropped out ∨ mr_nodes out' !! id = None;
  dr_conflicts : mr_conflicts out' = mr_conflicts out;
}.

#[export] Instance drops_preorder : PreOrder drops.
Proof.
  split.
  - intros out. split; auto.
  - intros a b c [A1 A2 A3 A4 A5] [B1 B2 B3 B4 B5]. split; [eauto| |eauto| |congruence].
    + intros id Hid. destruct (A2 id Hid) as [?|?]; eauto.
    + intros id Hid. destruct (B4 id Hid) as [Hb|Hb]; [|by right].
      destruct (A4 id Hb) as [?|Hn]; [by left|]. right.
      destruct (mr_nodes c !! id) eqn:E; [|done]. apply B1 in E. congruence.
Qed.

Lemma drop_node_drops copies id reason detail out : drops out (drop_node copies id reason detail out).
Proof.
  unfold drop_node. split; cbn [mr_nodes mr_dropped mr_conflicts set_field]; cbn.
  - intros i n. rewrite lookup_delete_Some. by intros [].
  - intros i Hi. rewrite fmap_app, elem_of_app. destruct (decide (i = id)) as [->|Hne].
    + right. right. by left.
    + left. by rewrite lookup_delete_ne.
  - intros i Hi. rewrite fmap_app, elem_of_app. by left.
  - intros i. rewrite fmap_app, elem_of_app. intros [?|Hi]; [by left|]. right.
    apply list_elem_of_singleton in Hi as ->. apply lookup_delete_eq.
  - done.
Qed.

Lemma foldl_drops {A} (f : MergeResult → A → MergeResult) l out :
  (∀ out x, drops out (f out x)) → drops out (foldl f out l).
Proof. intros Hf. apply (foldl_keeps (drops out)); [|done]. intros b x _ Hb. by etrans. Qed.

Lemma foldl_drop_nodes copies reason detail l out id :
  mr_nodes (foldl (λ out id, drop_node copies id (reason id) (detail id) out) out l) !! id =
  if decide (id ∈ l) then None else mr_nodes out !! id.
Proof.
  revert out. induction l as [|x l IH]; intros out; cbn [foldl].
  { by rewrite decide_False by apply not_elem_of_nil. }
  rewrite IH. cbn. destruct (decide (id ∈ l)) as [Hl|Hl].
  - rewrite decide_True by by right. done.
  - destruct (decide (id = x)) as [->|Hne].
    + rewrite decide_True by left. apply lookup_delete_eq.
    + rewrite lookup_delete_ne by done. rewrite decide_False; [done|]. by intros [?|?]%elem_of_cons.
Qed.

(** ** Rule 7 *)

Definition rivals exports copies (ids : list string) : list string :=
  tail (merge_sort (keep_le exports copies) ids).

Lemma drop_rivals_nodes exports copies reason what value ids out id :
  mr_nodes (drop_rivals exports copies reason what value ids out) !! id =
  if decide (id ∈ rivals exports copies ids) then None else mr_nodes out !! id.
Proof.
  unfold drop_rivals, rivals.
  pose proof (Permutation_length (merge_sort_Permutation (keep_le exports copies) ids)) as Hlen.
  destruct (merge_sort (keep_le exports copies) ids) as [|first rest]; cbn [tail length] in *.
  { by rewrite decide_False by apply not_elem_of_nil. }
  destruct (Nat.ltb_spec (length ids) 2) as [Hl|Hl].
  - destruct rest; [|cbn in *; lia]. by rewrite decide_False by apply not_elem_of_nil.
  - apply (foldl_drop_nodes copies (λ _, reason)).
Qed.

Lemma drop_rivals_drops exports copies reason what value ids out :
  drops out (drop_rivals exports copies reason what value ids out).
Proof.
  unfold drop_rivals. case_match; [done|]. case_match; [done|].
  apply foldl_drops. intros. apply drop_node_drops.
Qed.

(** *** The holders of a value *)

Lemma hold_values field l : ∀ holding v,
  let ids := default [] (foldl (hold_value field) holding l !! v) in
  ids = default [] (holding !! v) ++ (filter (λ kv : string * TreeNode, field kv.2 = v ∧ v ≠ ""%string) l).*1.
Proof.
  induction l as [|[id n] l IH]; intros holding v; cbn zeta; cbn [foldl].
  { by rewrite app_nil_r. }
  rewrite IH. unfold hold_value. cbn [fst snd]. rewrite filter_cons. cbn [snd].
  destruct (is_empty (field n)) eqn:Ee.
  - apply is_empty_spec in Ee. rewrite decide_False; [done|]. intros [Hv Hne]. congruence.
  - apply is_empty_false in Ee. destruct (decide (field n = v)) as [Hv|Hv].
    + rewrite decide_True by (split; congruence). rewrite Hv, lookup_insert_eq. cbn. by rewrite <-app_assoc.
    + rewrite lookup_insert_ne by done. rewrite decide_False; [done|]. by intros [].
Qed.

Lemma holding_ids field nodes v :
  default [] (holding_of field nodes !! v) =
  (filter (λ kv : string * TreeNode, field kv.2 = v ∧ v ≠ ""%string) (map_to_list nodes)).*1.
Proof. unfold holding_of. by rewrite hold_values, lookup_empty. Qed.

Lemma elem_of_holding field nodes v id :
  id ∈ default [] (holding_of field nodes !! v) ↔ ∃ n, nodes !! id = Some n ∧ field n = v ∧ v ≠ ""%string.
Proof.
  rewrite holding_ids, list_elem_of_fmap. split.
  - intros ([k n] & -> & [[Hv Hne] Hin%elem_of_map_to_list]%list_elem_of_filter). eauto.
  - intros (n & Hn & Hv & Hne). exists (id, n). split; [done|]. apply list_elem_of_filter.
    by rewrite elem_of_map_to_list.
Qed.

Lemma NoDup_fst_filter {A} (P : string * A → Prop) `{∀ x, Decision (P x)} (m : gmap string A) :
  NoDup (filter P (map_to_list m)).*1.
Proof.
  eapply sublist_NoDup; [apply (NoDup_fst_map_to_list m)|].
  generalize (map_to_list m). induction l as [|x l IH]; [done|]. rewrite filter_cons.
  case_decide; rewrite !fmap_cons; [by apply sublist_skip|by apply sublist_cons].
Qed.

(** *** The order of the holders *)

Lemma key_gt_spec a1 a2 a3 b1 b2 b3 :
  key_gt (a1, a2, a3) (b1, b2, b3) = true ↔ b1 < a1 ∨ a1 = b1 ∧ (b2 < a2 ∨ a2 = b2 ∧ b3 < a3).
Proof. unfold key_gt. rewrite !orb_true_iff, !andb_true_iff, !orb_true_iff, !andb_true_iff, !Z.ltb_lt, !Z.eqb_eq. lia. Qed.

Lemma ltb_string_le a b : String.ltb b a = false ↔ string_le a b.
Proof.
  unfold string_le, String.ltb, String.leb. rewrite (String.compare_antisym a b).
  by destruct (String.compare b a).
Qed.

Lemma keep_le_spec exports copies a b :
  keep_le exports copies a b ↔
  key_gt (keep_key exports copies a) (keep_key exports copies b) = true ∨
  keep_key exports copies a = keep_key exports copies b ∧ string_le a b.
Proof.
  unfold keep_le, keeps_before. cbn zeta.
  destruct (keep_key exports copies a) as [[a1 a2] a3], (keep_key exports copies b) as [[b1 b2] b3].
  rewrite <-ltb_string_le. case_bool_decide as E.
  - injection E as -> -> ->. split; [auto|]. intros [Hk|[_ ?]]; [|done]. apply key_gt_spec in Hk. lia.
  - split.
    + intros Hk. left. apply key_gt_spec. apply not_true_iff_false in Hk. rewrite key_gt_spec in Hk.
      destruct (decide (b1 = a1 ∧ b2 = a2 ∧ b3 = a3)) as [(-> & -> & ->)|]; [done|lia].
    + intros [Hk|[E' _]]; [|congruence]. apply not_true_iff_false. rewrite key_gt_spec in *. lia.
Qed.

#[export] Instance keep_le_trans exports copies : Transitive (keep_le exports copies).
Proof.
  intros a b c. rewrite !keep_le_spec.
  destruct (keep_key exports copies a) as [[a1 a2] a3], (keep_key exports copies b) as [[b1 b2] b3],
    (keep_key exports copies c) as [[c1 c2] c3]. rewrite !key_gt_spec.
  intros [Hab|[[= -> -> ->] Hab]] [Hbc|[[= -> -> ->] Hbc]]; [left; lia|by left|by left|].
  right. split; [done|]. by etrans.
Qed.

#[export] Instance keep_le_total exports copies : Total (keep_le exports copies).
Proof.
  intros a b. rewrite !keep_le_spec.
  destruct (keep_key exports copies a) as [[a1 a2] a3], (keep_key exports copies b) as [[b1 b2] b3].
  rewrite !key_gt_spec. destruct (decide (a1 = b1 ∧ a2 = b2 ∧ a3 = b3)) as [(-> & -> & ->)|Hne].
  - destruct (total string_le a b); auto.
  - lia.
Qed.

(** The root is never a rival. *)
Lemma root_not_rival exports copies ids : NoDup ids → "root"%string ∉ rivals exports copies ids.
Proof.
  intros Hnd Hin. unfold rivals in Hin.
  pose proof (StronglySorted_merge_sort (keep_le exports copies) ids) as Hs.
  assert (Hp := merge_sort_Permutation (keep_le exports copies) ids).
  destruct (merge_sort (keep_le exports copies) ids) as [|first rest]; cbn [tail] in Hin;
    [by apply not_elem_of_nil in Hin|].
  assert (Hne : first ≠ "root"%string).
  { intros ->. rewrite <-Hp in Hnd. by apply NoDup_cons in Hnd as []. }
  apply StronglySorted_cons in Hs as [Hall _]. rewrite Forall_forall in Hall.
  apply Hall, keep_le_spec in Hin as [Hk|[Hk _]].
  - unfold keep_key in Hk. apply key_gt_spec in Hk. revert Hk.
    rewrite (proj2 (String.eqb_neq first "root")) by done. cbn. lia.
  - unfold keep_key in Hk. revert Hk. rewrite (proj2 (String.eqb_neq first "root")) by done. by intros [=].
Qed.

(** *** One field *)

Definition field_unique (field : TreeNode → string) nodes : Prop :=
  ∀ i j a b, nodes !! i = Some a → nodes !! j = Some b → field a = field b → field a ≠ ""%string → i = j.

Lemma field_unique_mono field out out' :
  drops out out' → field_unique field (mr_nodes out) → field_unique field (mr_nodes out').
Proof. intros Hd Hu i j a b Ha Hb. eapply Hu; by eapply dr_nodes. Qed.

Lemma settle_field_drops exports copies out f : drops out (settle_field exports copies out f).
Proof.
  destruct f as [[reason what] field]. unfold settle_field. apply foldl_drops. intros.
  apply drop_rivals_drops.
Qed.

Lemma drops_none out out' id : drops out out' → mr_nodes out !! id = None → mr_nodes out' !! id = None.
Proof.
  intros Hd Hn. destruct (mr_nodes out' !! id) eqn:E; [|done]. apply (dr_nodes _ _ Hd) in E. congruence.
Qed.

Lemma settle_field_unique exports copies out reason what field :
  field_unique field (mr_nodes (settle_field exports copies out (reason, what, field))).
Proof.
  intros i j a b Ha Hb Hf Hne.
  pose proof (settle_field_drops exports copies out (reason, what, field)) as Hd.
  apply (dr_nodes _ _ Hd) in Ha as Ha0. apply (dr_nodes _ _ Hd) in Hb as Hb0. clear Hd.
  revert Ha Hb. unfold settle_field. set (holding := holding_of field (mr_nodes out)).
  set (ids := default [] (holding !! field a)).
  assert (Hi : i ∈ ids) by (apply elem_of_holding; eauto).
  assert (Hj : j ∈ ids) by (apply elem_of_holding; eauto).
  assert (Hv : field a ∈ sort_strings (map_to_list holding).*1).
  { apply elem_of_sorted_keys. unfold ids in Hi. destruct (holding !! field a); [eauto|].
    by apply not_elem_of_nil in Hi. }
  set (step := λ out value, drop_rivals exports copies reason what value (default [] (holding !! value)) out).
  apply list_elem_of_split in Hv as (l1 & l2 & ->). rewrite foldl_app. cbn [foldl].
  assert (Hgone : ∀ x, x ∈ rivals exports copies ids →
    mr_nodes (foldl step (step (foldl step out l1) (field a)) l2) !! x = None).
  { intros x Hx. eapply drops_none; [apply foldl_drops; intros; apply drop_rivals_drops|].
    unfold step at 1. rewrite drop_rivals_nodes. by rewrite decide_True. }
  intros Ha Hb.
  assert (Hhead : ∀ x n, x ∈ ids → mr_nodes (foldl step (step (foldl step out l1) (field a)) l2) !! x = Some n →
    head (merge_sort (keep_le exports copies) ids) = Some x).
  { intros x n Hx Hn. unfold rivals in Hgone. rewrite <-(merge_sort_Permutation (keep_le exports copies) ids) in Hx.
    destruct (merge_sort _ ids) as [|y l]; [by apply not_elem_of_nil in Hx|].
    apply elem_of_cons in Hx as [->|Hx]; [done|]. cbn [tail] in Hgone. rewrite Hgone in Hn by done. done. }
  apply (Hhead i) in Ha; [|done]. apply (Hhead j) in Hb; [|done]. congruence.
Qed.

Lemma settle_field_root exports copies out f :
  is_Some (mr_nodes out !! "root"%string) →
  is_Some (mr_nodes (settle_field exports copies out f) !! "root"%string).
Proof.
  destruct f as [[reason what] field]. unfold settle_field.
  set (holding := holding_of field (mr_nodes out)). intros Hr.
  apply (foldl_keeps (λ o, is_Some (mr_nodes o !! "root"%string))); [|done].
  intros o v _ Ho. rewrite drop_rivals_nodes. rewrite decide_False; [done|].
  apply root_not_rival. unfold holding. rewrite holding_ids. apply NoDup_fst_filter.
Qed.

(** ** Rule 8 *)

(** The nodes whose parents lead to the root. *)
Inductive rooted nodes : string → Prop :=
  | rooted_root : rooted nodes "root"%string
  | rooted_child id n : nodes !! id = Some n → id ≠ "root"%string → rooted nodes (tn_parent_id n) →
      rooted nodes id.

Lemma elem_of_merge_children nodes id c :
  c ∈ merge_children nodes id ↔ ∃ n, nodes !! c = Some n ∧ c ≠ "root"%string ∧ tn_parent_id n = id.
Proof.
  unfold merge_children. rewrite list_elem_of_fmap. split.
  - intros ([k n] & -> & [[Hk Hp] Hin%elem_of_map_to_list]%list_elem_of_filter). eauto.
  - intros (n & Hn & Hk & Hp). exists (c, n). split; [done|]. apply list_elem_of_filter.
    by rewrite elem_of_map_to_list.
Qed.

Lemma merge_children_dom nodes id c : c ∈ merge_children nodes id → c ∈ dom nodes.
Proof. intros (n & Hn & _)%elem_of_merge_children. by apply elem_of_dom_2 in Hn. Qed.

Lemma reach_closed fuel nodes reached frontier :
  search_ok (merge_children nodes) nodes reached frontier →
  (length frontier + size (dom nodes ∖ reached) <= fuel)%nat →
  search_ok (merge_children nodes) nodes (reach fuel nodes reached frontier) [].
Proof.
  revert reached frontier. induction fuel as [|fuel IH]; intros reached [|id frontier] Hok Hf;
    cbn [length] in Hf; [done|lia|done|].
  cbn [reach]. destruct (enqueue_all (merge_children nodes id) reached []) as (added & -> & Ha & Hnd).
  destruct (search_step _ nodes reached id frontier added (rev added ++ frontier)
    (merge_children_dom nodes id) Hok Ha Hnd) as [Hok' Hm].
  { rewrite <-Permutation_rev. apply Permutation_app_comm. }
  apply IH; [done|cbn [app] in *; lia].
Qed.

Lemma reach_mono fuel nodes reached frontier : reached ⊆ reach fuel nodes reached frontier.
Proof.
  revert reached frontier. induction fuel as [|fuel IH]; intros reached [|id frontier]; [done..|].
  cbn [reach]. destruct (enqueue_all (merge_children nodes id) reached []) as (added & -> & _).
  etrans; [|apply IH]. set_solver.
Qed.

Lemma reach_sound fuel nodes reached frontier x :
  (∀ y, y ∈ reached → rooted nodes y) → (∀ y, y ∈ frontier → y ∈ reached) →
  x ∈ reach fuel nodes reached frontier → rooted nodes x.
Proof.
  revert reached frontier. induction fuel as [|fuel IH]; intros reached [|id frontier] Hd Hq; [by apply Hd..|].
  cbn [reach]. destruct (enqueue_all (merge_children nodes id) reached []) as (added & -> & Ha & _).
  apply IH.
  - intros y [Hy|Hy%elem_of_list_to_set]%elem_of_union; [eauto|].
    apply elem_of_merge_children in Hy as (n & Hn & Hk & Hp). eapply rooted_child; [done..|].
    rewrite Hp. apply Hd, Hq. by left.
  - intros y. rewrite app_nil_l, elem_of_app, <-(elem_of_reverse). unfold reverse. rewrite rev_append_rev.
    rewrite rev_involutive, app_nil_r. intros [[Hy _]%Ha|Hy]; [set_solver|].
    apply elem_of_union_l, Hq. by right.
Qed.

Lemma elem_of_reached nodes id :
  is_Some (nodes !! "root"%string) → id ∈ reached_nodes nodes ↔ rooted nodes id.
Proof.
  intros [r Hr]. unfold reached_nodes. split.
  - apply reach_sound; intros y; rewrite ?elem_of_singleton, ?list_elem_of_singleton; [|done].
    intros ->. constructor.
  - assert (Hclosed : search_ok (merge_children nodes) nodes (reached_nodes nodes) []).
    { apply reach_closed.
      - split; intros x; rewrite ?elem_of_singleton, ?list_elem_of_singleton; [done| |by left].
        intros ->. by apply elem_of_dom_2 in Hr.
      - unfold loop_fuel. rewrite <-size_dom. cbn [length].
        assert (size (dom nodes ∖ {["root"%string]}) <= size (dom nodes))%nat
          by (apply subseteq_size; set_solver). lia. }
    induction 1 as [|id n Hn Hne _ IH]; [apply reach_mono; set_solver|].
    destruct (so_done _ _ _ _ Hclosed _ IH) as [Hnil|Hc]; [by apply not_elem_of_nil in Hnil|].
    apply Hc, elem_of_merge_children. eauto.
Qed.
End facts.
