(* ===== verification/TreeMergeTheorems.v ===== *)
(** * Theorems about the tree merge

    The merged tree is one tree with unique identifiers, keys and addresses, on
    which the chain's invariant holds exactly when the exports' nodes have the
    shape the merge does not check; every exported node is in it or reported as
    dropped, and the order in which the exports arrive does not matter. *)

From S2P Require Import Prelude SecurityPolicy CanonicalEncoding Json TestCodec.
From S2P Require Import TreeTypes TreeRules TreeFacts TreeOps TreeValidation.
From S2P Require Import TreeMerge TreeMergeFacts.

Section theorems.
Context `{TextCodec, FloatText}.
Implicit Types (exports : list TreeExport) (copies : gmap string (list Copy)) (out : MergeResult)
  (nodes : NodeMap).

Lemma settle_reach_drops copies out : drops out (settle_reach copies out).
Proof.
  unfold settle_reach. case_match; [|done]. apply foldl_drops. intros o x. unfold drop_unreached.
  case_match; apply drop_node_drops.
Qed.

Lemma settle_reach_lookup copies out id :
  is_Some (mr_nodes out !! "root"%string) →
  mr_nodes (settle_reach copies out) !! id =
  if decide (id ∈ reached_nodes (mr_nodes out)) then mr_nodes out !! id else None.
Proof.
  intros Hr. unfold settle_reach. rewrite bool_decide_eq_true_2 by done. cbn zeta.
  set (selected := mr_nodes out). set (gone := filter _ _).
  set (reason := λ id, if is_empty (tn_parent_id (node_at selected id))
    || negb (bool_decide (is_Some (selected !! tn_parent_id (node_at selected id)))) then "orphan"%string
    else "unreachable"%string).
  set (detail := λ id, if is_empty (tn_parent_id (node_at selected id))
    || negb (bool_decide (is_Some (selected !! tn_parent_id (node_at selected id))))
    then "parent '" +:+ tn_parent_id (node_at selected id) +:+ "' is not in the merged tree"
    else "parent '" +:+ tn_parent_id (node_at selected id) +:+ "' does not reach the root").
  rewrite (foldl_same _ (λ out id, drop_node copies id (reason id) (detail id) out) gone out).
  2: { intros o x. unfold drop_unreached, reason, detail. cbn zeta. by destruct (_ || _). }
  rewrite foldl_drop_nodes. unfold gone.
  destruct (decide (id ∈ reached_nodes selected)) as [Hd|Hd].
  - rewrite decide_False; [done|]. by intros [? _]%list_elem_of_filter.
  - destruct (selected !! id) as [n|] eqn:E.
    + rewrite decide_True; [done|]. apply list_elem_of_filter. split; [done|].
      apply list_elem_of_fmap. exists (id, n). by rewrite elem_of_map_to_list.
    + by case_decide.
Qed.

Lemma reached_rooted copies out id :
  is_Some (mr_nodes out !! "root"%string) → is_Some (mr_nodes (settle_reach copies out) !! id) →
  rooted (mr_nodes (settle_reach copies out)) id.
Proof.
  intros Hr. rewrite settle_reach_lookup by done. case_decide as Hd; [|by intros [? [=]]]. intros _.
  apply elem_of_reached in Hd; [|done]. induction Hd as [|id n Hn Hne Hp IH]; [constructor|].
  eapply rooted_child; [|done|exact IH]. rewrite settle_reach_lookup by done.
  rewrite decide_True; [done|]. apply elem_of_reached; [done|]. by eapply rooted_child.
Qed.

(** The run of the merge, step by step. *)
Record merge_run exports (resolutions : gmap string string) (r : MergeResult) : Prop := mkMergeRun {
  mg_from : ∀ id n, mr_nodes r !! id = Some n → tn_id n = id ∧ ∃ e, e ∈ exports ∧ n ∈ ex_nodes e;
  mg_identifier : field_unique tn_endpoint_identifier (mr_nodes r);
  mg_mesh : field_unique tn_mesh_pubkey (mr_nodes r);
  mg_tunnel : field_unique tn_tunnel_ip (mr_nodes r);
  mg_rooted : mr_conflicts r = [] →
    is_Some (mr_nodes r !! "root"%string) ∧ ∀ id, is_Some (mr_nodes r !! id) → rooted (mr_nodes r) id;
}.

Lemma select_root roots resolutions copies out :
  mr_conflicts (select_nodes roots resolutions copies out) = [] →
  is_Some (mr_nodes (select_nodes roots resolutions copies out) !! "root"%string).
Proof.
  unfold select_nodes. cbn zeta. case_bool_decide as Hr; [done|]. cbn. intros E.
  by apply app_eq_nil in E as [_ ?].
Qed.

Lemma sort_nil {A} (R : relation A) `{∀ x y, Decision (R x y)} l : merge_sort R l = [] → l = [].
Proof. intros E. apply Permutation_nil. by rewrite <-E, merge_sort_Permutation. Qed.

(** The stages after the selection. *)
Definition settle_all exports copies out : MergeResult :=
  settle_reach copies (foldl (settle_field exports copies) out merge_fields).

Lemma merge_stages exports resolutions :
  ∃ by_server roots out0, register_exports exports = mkTable by_server roots out0 ∧
    merge_tree_exports exports resolutions =
    sort_result (settle_all exports (all_copies roots by_server)
      (select_nodes roots resolutions (all_copies roots by_server) out0)).
Proof.
  unfold merge_tree_exports. destruct (register_exports exports) as [by_server roots out0]. by exists by_server, roots, out0.
Qed.

Lemma settle_all_drops exports copies out : drops out (settle_all exports copies out).
Proof.
  unfold settle_all. etrans; [|apply settle_reach_drops]. apply foldl_drops. intros. apply settle_field_drops.
Qed.

Lemma settle_all_unique exports copies out :
  field_unique tn_endpoint_identifier (mr_nodes (settle_all exports copies out)) ∧
  field_unique tn_mesh_pubkey (mr_nodes (settle_all exports copies out)) ∧
  field_unique tn_tunnel_ip (mr_nodes (settle_all exports copies out)).
Proof.
  unfold settle_all, merge_fields. cbn [foldl].
  split_and!; (eapply field_unique_mono; [apply settle_reach_drops|]); [| |apply settle_field_unique].
  - do 2 (eapply field_unique_mono; [apply settle_field_drops|]). apply settle_field_unique.
  - eapply field_unique_mono; [apply settle_field_drops|]. apply settle_field_unique.
Qed.

Lemma settle_all_rooted exports copies out :
  is_Some (mr_nodes out !! "root"%string) →
  is_Some (mr_nodes (settle_all exports copies out) !! "root"%string) ∧
  ∀ id, is_Some (mr_nodes (settle_all exports copies out) !! id) →
    rooted (mr_nodes (settle_all exports copies out)) id.
Proof.
  intros Hr. unfold settle_all. set (mid := foldl _ out merge_fields).
  assert (Hm : is_Some (mr_nodes mid !! "root"%string)).
  { unfold mid. apply (foldl_keeps (λ o, is_Some (mr_nodes o !! "root"%string))); [|done].
    intros o f _ Ho. by apply settle_field_root. }
  split; [|intros id; by apply reached_rooted].
  rewrite settle_reach_lookup by done. rewrite decide_True; [done|]. apply elem_of_reached; [done|constructor].
Qed.

Lemma register_fresh exports by_server roots out0 :
  register_exports exports = mkTable by_server roots out0 → mr_nodes out0 = ∅ ∧ mr_dropped out0 = [].
Proof.
  unfold register_exports.
  assert (Hgen : ∀ l t, mr_nodes (st_out t) = ∅ ∧ mr_dropped (st_out t) = [] →
    mr_nodes (st_out (foldl register_export t l)) = ∅ ∧ mr_dropped (st_out (foldl register_export t l)) = []).
  { intros l t. apply (foldl_preserves (λ t, mr_nodes (st_out t) = ∅ ∧ mr_dropped (st_out t) = [])).
    intros [b r o] e [Hn Hd]. cbn in Hn, Hd.
    unfold register_export. destruct (b !! ex_server e); by split. }
  specialize (Hgen exports (mkTable ∅ 0 (mkMerge ∅ [] [] []))).
  destruct (foldl register_export _ exports) as [b r o]. cbn in Hgen.
  intros [= <- <- <-]. case_match; cbn; auto.
Qed.

Lemma stages_selected exports resolutions by_server roots out0 :
  register_exports exports = mkTable by_server roots out0 →
  let copies := all_copies roots by_server in
  let out := select_nodes roots resolutions copies out0 in
  copies_ok by_server copies ∧ selected_ok copies (mr_nodes out) ∧ mr_dropped out = [] ∧
  (∀ id, is_Some (copies !! id) → resolutions !! id = None → is_Some (mr_nodes out !! id)).
Proof.
  intros Hreg. cbn zeta.
  assert (Ht : table_ok exports by_server) by (pose proof (register_ok exports) as Ht; by rewrite Hreg in Ht).
  assert (Hc : copies_ok by_server (all_copies roots by_server)).
  { apply all_copies_ok. intros s e He. by apply Ht. }
  destruct (register_fresh _ _ _ _ Hreg) as [Hn Hd]. split; [done|].
  apply (select_nodes_ok by_server); [done| |done]. rewrite Hn. intros id n. by rewrite lookup_empty.
Qed.

Lemma merge_run_ok exports resolutions : merge_run exports resolutions (merge_tree_exports exports resolutions).
Proof.
  destruct (merge_stages exports resolutions) as (by_server & roots & out0 & Hreg & ->).
  destruct (stages_selected exports resolutions _ _ _ Hreg) as (Hc & Hs & _ & _). cbn zeta in *.
  set (copies := all_copies roots by_server) in *. set (out := select_nodes _ _ _ _) in *.
  pose proof (settle_all_drops exports copies out) as Hd.
  destruct (settle_all_unique exports copies out) as (U1 & U2 & U3).
  split; cbn [mr_nodes sort_result mr_conflicts]; [|exact U1|exact U2|exact U3|].
  - intros id n Hn. apply (dr_nodes _ _ Hd), Hs in Hn as (c & Hin & <- & Hid). split; [done|].
    unfold held_of in Hin. destruct (copies !! id) as [held|] eqn:Eh; [|by apply not_elem_of_nil in Hin].
    destruct (Hc _ _ Eh) as [_ Hk]. destruct (Hk _ Hin) as [_ Hf Hn].
    exists (cp_from c). split; [|done]. pose proof (register_ok exports) as Ht. rewrite Hreg in Ht.
    by apply (Ht _ _ Hf).
  - intros E%sort_nil. rewrite (dr_conflicts _ _ Hd) in E. apply settle_all_rooted. by apply select_root.
Qed.

(** What the chain's invariant asks of a single node: a name, and only the node
    ["root"] is of type root and has no parent. *)
Definition top_shaped nodes : Prop :=
  ∀ id n, nodes !! id = Some n → id ≠ ""%string ∧ (tn_type n = Root ↔ id = "root"%string) ∧
    (id = "root"%string → tn_parent_id n = ""%string).

Lemma rooted_parent nodes id n :
  top_shaped nodes → rooted nodes id → nodes !! id = Some n → tn_parent_id n = ""%string → id = "root"%string.
Proof.
  intros Ht Hr Hn Hpar. destruct Hr as [|id n' Hn' Hne Hup]; [done|].
  assert (n' = n) as -> by congruence. rewrite Hpar in Hup.
  inversion Hup as [|? m Hm' _ _]; subst. by destruct (Ht _ _ Hm') as (? & _).
Qed.

(** C38: A merge without conflicts gives one tree: each node is one that an
    export holds, is stored under its own id and reaches the root through its
    parents, and no endpoint identifier, mesh key or tunnel address is held
    twice. So the invariant of the chain of tree blocks holds of the merged tree
    exactly when its nodes have names, ["root"] has no parent and is the only
    node of type root; the merge itself checks none of these three, and
    [second_root_merges] is an export that breaks one. *)
Theorem merged_tree_well_formed exports resolutions :
  mr_conflicts (merge_tree_exports exports resolutions) = [] →
  let nodes := mr_nodes (merge_tree_exports exports resolutions) in
  is_Some (nodes !! "root"%string) ∧
  (∀ id n, nodes !! id = Some n → tn_id n = id ∧ rooted nodes id ∧ ∃ e, e ∈ exports ∧ n ∈ ex_nodes e) ∧
  field_unique tn_endpoint_identifier nodes ∧ field_unique tn_mesh_pubkey nodes ∧ field_unique tn_tunnel_ip nodes ∧
  (tree_wf nodes ↔ top_shaped nodes).
Proof.
  intros Hnc. cbn zeta. destruct (merge_run_ok exports resolutions) as [Hf Hi Hm Ht Hr].
  destruct (Hr Hnc) as [Hroot Hreach]. set (nodes := mr_nodes _) in *.
  split_and!; [done| |done..|].
  { intros id n Hn. destruct (Hf id n Hn) as [Hid He]. split_and!; [done|by apply Hreach|done]. }
  split.
  - intros [Hk _ _ Htop Htype _] id n Hn. split_and!; [by destruct (Hk id n Hn)|by apply Htype|].
    intros E. by apply (Htop id n Hn).
  - intros Hs. split; cbv beta; [|done|done| | |done].
    + intros id n Hn. split; [by apply Hf|by destruct (Hs id n Hn)].
    + intros id n Hn. split; [|by apply Hs]. by apply (rooted_parent nodes); [|apply Hreach|].
    + intros id n Hn. by destruct (Hs id n Hn) as (_ & ? & _).
Qed.

(** With distinct labels, the table holds every export. *)
Definition labelled exports : gmap string TreeExport := list_to_map ((λ e, (ex_server e, e)) <$> exports).
Definition count_roots exports : Z := Z.of_nat (length (filter (λ e, ex_root_server e = true) exports)).

Lemma labelled_fst exports : ((λ e, (ex_server e, e)) <$> exports).*1 = ex_server <$> exports.
Proof. rewrite <-list_fmap_compose. by apply list_fmap_ext. Qed.

Lemma register_labelled l : ∀ before r o,
  NoDup (ex_server <$> before ++ l) →
  foldl register_export (mkTable (labelled before) r o) l = mkTable (labelled (before ++ l)) (r + count_roots l) o.
Proof.
  induction l as [|e l IH]; intros before r o Hnd; cbn [foldl].
  { rewrite app_nil_r. by rewrite Z.add_0_r. }
  assert (Hfresh : ex_server e ∉ ((λ e, (ex_server e, e)) <$> before).*1).
  { rewrite labelled_fst. rewrite fmap_app, fmap_cons in Hnd. apply NoDup_app in Hnd as (_ & Hd & _).
    intros Hin. eapply Hd; [exact Hin|left]. }
  assert (Hadd : <[ ex_server e := e ]> (labelled before) = labelled (before ++ [e])).
  { unfold labelled. rewrite fmap_app. symmetry. by apply list_to_map_snoc. }
  unfold register_export at 2. unfold labelled at 1. rewrite not_elem_of_list_to_map_1 by done.
  rewrite Hadd, IH by by rewrite <-app_assoc. rewrite <-app_assoc. cbn [app].
  unfold count_roots. rewrite filter_cons. destruct (ex_root_server e) eqn:E.
  - rewrite decide_True by done. cbn [length]. f_equal. lia.
  - rewrite decide_False by done. done.
Qed.

Lemma register_distinct exports :
  NoDup (ex_server <$> exports) →
  st_by_server (register_exports exports) = labelled exports ∧
  st_root_servers (register_exports exports) = count_roots exports ∧
  st_out (register_exports exports) =
  (let out := mkMerge ∅ [] [] [] in
   if 1 <? count_roots exports then
     add_conflict "root" "bad_exports"
       ("at most one export may be marked as the root server; found "
        +:+ pretty (Z.to_N (count_roots exports))) [] out
   else out).
Proof.
  intros Hnd. unfold register_exports.
  pose proof (register_labelled exports [] 0 (mkMerge ∅ [] [] []) Hnd) as E.
  change (labelled []) with (∅ : gmap string TreeExport) in E. by rewrite E.
Qed.

Lemma labelled_lookup exports e :
  NoDup (ex_server <$> exports) → e ∈ exports → labelled exports !! ex_server e = Some e.
Proof.
  intros Hnd He. unfold labelled. apply elem_of_list_to_map_1; [by rewrite labelled_fst|].
  apply list_elem_of_fmap. eauto.
Qed.

(** The merge accounts for every node: when the server labels differ and no
    resolution names it, an exported node is in the merged tree, under its id,
    or in the report of dropped nodes, and never in both. *)
Theorem merge_accounts_for_nodes exports resolutions e n :
  NoDup (ex_server <$> exports) → e ∈ exports → n ∈ ex_nodes e → resolutions !! tn_id n = None →
  let r := merge_tree_exports exports resolutions in
  (is_Some (mr_nodes r !! tn_id n) ∨ tn_id n ∈ md_node_id <$> mr_dropped r) ∧
  ¬ (is_Some (mr_nodes r !! tn_id n) ∧ tn_id n ∈ md_node_id <$> mr_dropped r).
Proof.
  intros Hnd He Hn Hres. cbn zeta.
  destruct (merge_stages exports resolutions) as (by_server & roots & out0 & Hreg & ->).
  destruct (stages_selected exports resolutions _ _ _ Hreg) as (Hc & Hs & Hdr & Hall). cbn zeta in *.
  set (copies := all_copies roots by_server) in *. set (out := select_nodes _ _ _ _) in *.
  pose proof (settle_all_drops exports copies out) as Hd. cbn [sort_result mr_nodes mr_dropped].
  rewrite (merge_sort_Permutation drop_le).
  destruct (register_distinct exports Hnd) as [Hby _]. rewrite Hreg in Hby. cbn in Hby. subst by_server.
  assert (Hsel : is_Some (mr_nodes out !! tn_id n)).
  { apply Hall; [|done]. eapply all_copies_hold; [by apply labelled_lookup|done]. }
  split; [by apply (dr_account _ _ Hd)|]. intros [[m Hm] Hin].
  apply (dr_gone _ _ Hd) in Hin as [Hin|Hnone]; [|congruence]. rewrite Hdr in Hin.
  by apply not_elem_of_nil in Hin.
Qed.

(** ** The order of the exports *)

Lemma labelled_perm exports exports' :
  NoDup (ex_server <$> exports) → exports ≡ₚ exports' → labelled exports = labelled exports'.
Proof.
  intros Hnd Hp. unfold labelled. apply list_to_map_proper; [by rewrite labelled_fst|]. by rewrite Hp.
Qed.

Lemma joined_perm exports exports' id :
  exports ≡ₚ exports' → joined_somewhere exports id = joined_somewhere exports' id.
Proof.
  intros Hp. unfold joined_somewhere. apply eq_true_iff_eq. rewrite !existsb_exists.
  by setoid_rewrite <-list_elem_of_In; setoid_rewrite Hp.
Qed.

Lemma keep_le_perm exports exports' copies a b :
  exports ≡ₚ exports' → keep_le exports copies a b ↔ keep_le exports' copies a b.
Proof.
  intros Hp. unfold keep_le, keeps_before, keep_key. by rewrite !(joined_perm exports exports').
Qed.

#[local] Instance keep_le_antisym exports copies : AntiSymm eq (keep_le exports copies).
Proof.
  intros a b. rewrite !keep_le_spec.
  destruct (keep_key exports copies a) as [[a1 a2] a3], (keep_key exports copies b) as [[b1 b2] b3].
  rewrite !key_gt_spec. intros [Hab|[E Hab]] [Hba|[F Hba]]; [lia| | |by apply (anti_symm string_le)].
  - injection F as -> -> ->. lia.
  - injection E as -> -> ->. lia.
Qed.

Lemma keep_sort_perm exports exports' copies ids :
  exports ≡ₚ exports' →
  merge_sort (keep_le exports copies) ids = merge_sort (keep_le exports' copies) ids.
Proof.
  intros Hp. apply (StronglySorted_unique (keep_le exports copies)).
  - apply StronglySorted_merge_sort; apply _.
  - pose proof (StronglySorted_merge_sort (keep_le exports' copies) ids) as Hs.
    induction Hs as [|x l Hs IH Hall]; constructor; [done|]. eapply Forall_impl; [exact Hall|].
    intros y. by apply keep_le_perm.
  - by rewrite !merge_sort_Permutation.
Qed.

Lemma settle_field_perm exports exports' copies out f :
  exports ≡ₚ exports' → settle_field exports copies out f = settle_field exports' copies out f.
Proof.
  intros Hp. destruct f as [[reason what] field]. unfold settle_field. apply foldl_same. intros o v.
  unfold drop_rivals. by rewrite (keep_sort_perm exports exports').
Qed.

(** The order in which the exports arrive does not change the merge: with
    distinct server labels, two orders of the same exports give the same nodes,
    the same conflicts, the same drops and the same decisions. *)
Theorem merge_order_irrelevant exports exports' resolutions :
  NoDup (ex_server <$> exports) → exports ≡ₚ exports' →
  merge_tree_exports exports resolutions = merge_tree_exports exports' resolutions.
Proof.
  intros Hnd Hp. assert (Hnd' : NoDup (ex_server <$> exports')) by by rewrite <-Hp.
  destruct (register_distinct exports Hnd) as (E1 & E2 & E3).
  destruct (register_distinct exports' Hnd') as (F1 & F2 & F3).
  assert (Hroots : count_roots exports = count_roots exports') by (unfold count_roots; by rewrite Hp).
  assert (Hreg : register_exports exports = register_exports exports').
  { destruct (register_exports exports), (register_exports exports'). cbn in *. subst.
    rewrite Hroots. f_equal. by apply labelled_perm. }
  unfold merge_tree_exports. rewrite Hreg. destruct (register_exports exports') as [by_server roots out].
  do 2 f_equal. apply foldl_same. intros. by apply settle_field_perm.
Qed.
End theorems.

(** ** Two servers *)

#[local] Instance plain_floats : FloatText := {| float_text z := pretty (Z.to_N z) |}.

Definition named (id parent : string) (type : NodeType) (version : Z) (tunnel mesh : string) : TreeNode :=
  new_node <| tn_id := id |> <| tn_parent_id := parent |> <| tn_type := type |>
           <| tn_version := version |> <| tn_tunnel_ip := tunnel |> <| tn_mesh_pubkey := mesh |>.

(** The group differs in its version, the laptop was joined in the north, the
    phone holds the laptop's mesh key and the camera has no parent there. *)
Definition north : TreeExport :=
  mkExport "north" true
    [named "root" "" Root 4 "" ""; named "group" "root" Customer 2 "" "";
     named "laptop" "group" Endpoint 1 "10.64.0.2" "mesh-a"]
    {["laptop"]} ∅.
Definition south : TreeExport :=
  mkExport "south" false
    [named "root" "" Root 9 "" ""; named "group" "root" Customer 3 "" "";
     named "laptop" "group" Endpoint 7 "10.64.0.3" "mesh-b";
     named "phone" "group" Endpoint 1 "10.64.0.9" "mesh-a";
     named "camera" "garage" Endpoint 1 "10.64.0.10" "mesh-c"]
    ∅ ∅.

Lemma both_distinct : NoDup (ex_server <$> [north; south]).
Proof. apply (bool_decide_unpack _). vm_compute. exact I. Qed.

Lemma both_result :
  (tn_version <$> mr_nodes (merge_tree_exports [north; south] ∅),
   mr_conflicts (merge_tree_exports [north; south] ∅),
   (λ d, (md_node_id d, md_reason d)) <$> mr_dropped (merge_tree_exports [north; south] ∅))
  = (<[ "group" := 3 ]> (<[ "laptop" := 1 ]> {[ "root" := 4 ]}), [],
     [("camera", "orphan"); ("phone", "duplicate_mesh_key")]).
Proof. vm_compute. reflexivity. Qed.

Lemma both_shaped : top_shaped (mr_nodes (merge_tree_exports [north; south] ∅)).
Proof.
  assert (Hall : map_Forall (λ id n, id ≠ ""%string ∧ (tn_type n = Root ↔ id = "root"%string) ∧
    (id = "root"%string → tn_parent_id n = ""%string)) (mr_nodes (merge_tree_exports [north; south] ∅))).
  { apply (bool_decide_unpack _). vm_compute. exact I. }
  exact Hall.
Qed.

Lemma merged_tree_well_formed_witness : tree_wf (mr_nodes (merge_tree_exports [north; south] ∅)).
Proof.
  refine (proj2 (proj2 (proj2 (proj2 (proj2 (proj2 (merged_tree_well_formed [north; south] ∅ _)))))) both_shaped).
  exact (f_equal (λ x, x.1.2) both_result).
Defined.

(** An export with a second node of type root merges without a conflict and
    without a drop, into a tree that the chain's invariant does not hold of. *)
Definition rogue : TreeExport :=
  mkExport "rogue" false [named "root" "" Root 1 "" ""; named "crown" "root" Root 1 "" ""] ∅ ∅.

Theorem second_root_merges :
  mr_conflicts (merge_tree_exports [rogue] ∅) = [] ∧ mr_dropped (merge_tree_exports [rogue] ∅) = [] ∧
  tn_type <$> mr_nodes (merge_tree_exports [rogue] ∅) !! "crown"%string = Some Root ∧
  ¬ tree_wf (mr_nodes (merge_tree_exports [rogue] ∅)).
Proof.
  assert (E : tn_type <$> mr_nodes (merge_tree_exports [rogue] ∅) !! "crown"%string = Some Root) by (vm_compute; reflexivity).
  split_and!; [vm_compute; reflexivity..|exact E|]. intros Hwf. apply fmap_Some in E as (n & Hn & Ht).
  symmetry in Ht. by apply (ok_root_type _ Hwf _ _ Hn) in Ht.
Qed.

Lemma merge_accounts_for_nodes_witness :
  ¬ (is_Some (mr_nodes (merge_tree_exports [north; south] ∅) !! "phone"%string) ∧
     "phone"%string ∈ md_node_id <$> mr_dropped (merge_tree_exports [north; south] ∅)).
Proof.
  refine (proj2 (merge_accounts_for_nodes [north; south] ∅ south
    (named "phone" "group" Endpoint 1 "10.64.0.9" "mesh-a") both_distinct _ _ (lookup_empty _))).
  - right. left.
  - do 3 right. left.
Defined.

Lemma merge_order_irrelevant_witness :
  merge_tree_exports [north; south] ∅ = merge_tree_exports [south; north] ∅.
Proof. exact (merge_order_irrelevant [north; south] [south; north] ∅ both_distinct (perm_swap _ _ _)). Defined.
