(* ===== verification/TreeMergeBody.v ===== *)
(** * The merge body

    Models [encode_merge_body] and [decode_merge_body] of [Tree/TreeMerge.cpp]:
    the canonical bytes of a whole tree, the content of the merge commit. A body
    and a tree determine each other. *)

From S2P Require Import Prelude SecurityPolicy CanonicalEncoding Json EligibilityStore.
From S2P Require Import TreeTypes LinkToken TreeRules TreeFacts TreeOps TreeValidation TreeCodec TreeRoundTrip.

Definition kMaxTreeMergeNodes : Z := 100000.
Definition kMaxTreeMergeBodyBytes : Z := 12 * 1024 * 1024.
Definition kTreeMergeBodyDomain : string := "lemonade-nexus/tree-merge-body:v1".

Definition bytes_of (l : list Z) : Z := Z.of_nat (length l).

Definition put_u32 (out : list Z) (value : Z) : list Z := out ++ le_bytes 4 value.

(** The value at the position and the bytes after it. *)
Definition get_u32 (bytes : list Z) : option (Z * list Z) :=
  if (length bytes <? 4)%nat then None else Some (le_value (take 4 bytes), drop 4 bytes).

Section body.
Context `{TextCodec, FloatText}.

Fixpoint encode_nodes (nodes : NodeMap) (ids : list string) (out : list Z) : option (list Z) :=
  match ids with
  | [] => Some out
  | id :: rest =>
      let encoded := encode_tree_node (node_at nodes id) in
      let out := put_u32 out (bytes_of encoded) ++ encoded in
      if kMaxTreeMergeBodyBytes <? bytes_of out then None else encode_nodes nodes rest out
  end.

Definition encode_merge_body (nodes : NodeMap) : option (list Z) :=
  if kMaxTreeMergeNodes <? Z.of_nat (size nodes) then None
  else encode_nodes nodes (sorted_ids nodes) (put_u32 [] (Z.of_nat (size nodes))).

(** [previous]: the id before; [None] at the first node. *)
Fixpoint decode_nodes (count : nat) (previous : option string) (nodes : NodeMap) (bytes : list Z)
    : option NodeMap :=
  match count with
  | O => if bool_decide (bytes = []) then Some nodes else None
  | S count =>
      match get_u32 bytes with
      | None => None
      | Some (len, bytes) =>
          if bytes_of bytes <? len then None
          else
            let chunk := take (Z.to_nat len) bytes in
            match decode_tree_node chunk with
            | None => None
            | Some node =>
                if is_empty (tn_id node)
                   || match previous with Some p => String.leb (tn_id node) p | None => false end
                then None
                else if negb (bool_decide (encode_tree_node node = chunk)) then None
                else decode_nodes count (Some (tn_id node))
                       (match nodes !! tn_id node with
                        | Some _ => nodes
                        | None => <[ tn_id node := node ]> nodes
                        end) (drop (Z.to_nat len) bytes)
            end
      end
  end.

Definition decode_merge_body (body : list Z) : option NodeMap :=
  if kMaxTreeMergeBodyBytes <? bytes_of body then None
  else match get_u32 body with
  | None => None
  | Some (count, bytes) =>
      if kMaxTreeMergeNodes <? count then None else decode_nodes (Z.to_nat count) None ∅ bytes
  end.

Definition merge_body_digest `{Sodium} (body : list Z) : Digest :=
  digest (add_bytes (new_encoder kTreeMergeBodyDomain) body).

(** ** Lemmas *)

Definition chunk_of (n : TreeNode) : list Z := le_bytes 4 (bytes_of (encode_tree_node n)) ++ encode_tree_node n.
Definition chunks (l : list TreeNode) : list Z := mjoin (chunk_of <$> l).

Lemma chunks_cons n l : chunks (n :: l) = chunk_of n ++ chunks l.
Proof. done. Qed.

Lemma encode_nodes_spec nodes ids out body :
  encode_nodes nodes ids out = Some body ↔
  body = out ++ chunks (node_at nodes <$> ids) ∧ (ids ≠ [] → bytes_of body <= kMaxTreeMergeBodyBytes).
Proof.
  revert out. induction ids as [|id ids IH]; intros out; cbn [encode_nodes].
  { cbn. rewrite app_nil_r. naive_solver. }
  rewrite fmap_cons, chunks_cons. unfold chunk_of, put_u32.
  set (enc := encode_tree_node (node_at nodes id)).
  destruct (Z.ltb_spec kMaxTreeMergeBodyBytes (bytes_of ((out ++ le_bytes 4 (bytes_of enc)) ++ enc))) as [Hl|Hl].
  - split; [done|]. intros [-> Hb]. exfalso. specialize (Hb ltac:(done)). revert Hb Hl. unfold bytes_of.
    rewrite !length_app. lia.
  - rewrite IH. rewrite <-!app_assoc. split; intros [-> Hb]; (split; [done|]); intros _; [|by apply Hb].
    destruct ids as [|i ids]; [|by apply Hb]. cbn. rewrite app_nil_r. revert Hl. by rewrite <-app_assoc.
Qed.

Lemma get_u32_le v rest : is_u32 v → get_u32 (le_bytes 4 v ++ rest) = Some (v, rest).
Proof.
  intros Hv. unfold get_u32. rewrite length_app, length_le_bytes.
  rewrite (proj2 (Nat.ltb_ge _ _)) by lia. rewrite take_app_length', drop_app_length' by (by rewrite length_le_bytes).
  rewrite le_value_bytes, Z.mod_small by exact Hv. done.
Qed.

(** The nodes that a body can carry. *)
Definition carried_node (n : TreeNode) : Prop := node_fits n ∧ tn_id n ≠ ""%string.

Definition id_lt (a b : string) : Prop := string_le a b ∧ a ≠ b.

Lemma id_lt_leb a b : id_lt a b → String.leb b a = false.
Proof.
  intros [Hle Hne]. destruct (String.leb b a) eqn:E; [|done]. destruct Hne. by apply (anti_symm string_le).
Qed.

Lemma leb_id_lt a b : String.leb b a = false → id_lt a b.
Proof.
  intros E. split.
  - destruct (String.leb_total a b); [done|congruence].
  - intros ->. pose proof (string_le_refl b) as Hr. unfold string_le in Hr. congruence.
Qed.

(** A strictly increasing list of nodes, after [previous]. *)
Definition increasing (previous : option string) (l : list TreeNode) : Prop :=
  StronglySorted id_lt ((match previous with Some p => [p] | None => [] end) ++ (tn_id <$> l)).

Lemma decode_chunks l : ∀ previous nodes,
  Forall carried_node l → increasing previous l → bytes_of (chunks l) <= kMaxTreeMergeBodyBytes →
  (∀ n, n ∈ l → nodes !! tn_id n = None) →
  decode_nodes (length l) previous nodes (chunks l) = Some (foldl (λ m n, <[ tn_id n := n ]> m) nodes l).
Proof.
  induction l as [|n l IH]; intros previous nodes Hc Hi Hlen Hfresh; [done|].
  apply Forall_cons in Hc as [[Hfit Hid] Hc]. rewrite chunks_cons in *. cbn [length decode_nodes foldl].
  unfold chunk_of in *. set (enc := encode_tree_node n) in *. rewrite <-app_assoc in *.
  assert (Hb : bytes_of enc + bytes_of (chunks l) <= kMaxTreeMergeBodyBytes).
  { revert Hlen. unfold bytes_of. rewrite !length_app. lia. }
  assert (Hu : is_u32 (bytes_of enc)).
  { unfold is_u32, two32, bytes_of, kMaxTreeMergeBodyBytes in *. lia. }
  rewrite get_u32_le by done. unfold bytes_of at 1. rewrite length_app.
  rewrite (proj2 (Z.ltb_ge _ _)) by (unfold bytes_of; lia).
  unfold bytes_of. rewrite Nat2Z.id, take_app_length, drop_app_length.
  unfold enc at 1. rewrite decode_node_encoding by (done || (fold enc; unfold is_u32, bytes_of in Hu; lia)).
  rewrite (proj2 (is_empty_false _) Hid). cbn [orb].
  assert (Hprev : match previous with Some p => String.leb (tn_id n) p | None => false end = false).
  { destruct previous as [p|]; [|done]. apply id_lt_leb. unfold increasing in Hi. cbn in Hi.
    apply StronglySorted_cons in Hi as [Hall _]. by apply Forall_cons in Hall as []. }
  rewrite Hprev, bool_decide_eq_true_2 by done. cbn [negb]. rewrite Hfresh by left.
  assert (Hi' : increasing (Some (tn_id n)) l).
  { unfold increasing in *. cbn in *. destruct previous; [|exact Hi].
    cbn in Hi. by apply StronglySorted_cons in Hi as [_ ?]. }
  apply IH; [done|exact Hi'|unfold bytes_of in *; lia|].
  intros m Hm. rewrite lookup_insert_ne; [by apply Hfresh; right|].
  unfold increasing in Hi'. cbn in Hi'. apply StronglySorted_cons in Hi' as [Hall _].
  rewrite Forall_forall in Hall. apply Hall. by apply list_elem_of_fmap_2.
Qed.

Definition insert_nodes (nodes : NodeMap) (l : list TreeNode) : NodeMap :=
  foldl (λ m n, <[ tn_id n := n ]> m) nodes l.

Lemma insert_nodes_lookup l : ∀ nodes id,
  NoDup (tn_id <$> l) →
  insert_nodes nodes l !! id =
  match List.find (λ n, String.eqb (tn_id n) id) l with Some n => Some n | None => nodes !! id end.
Proof.
  induction l as [|n l IH]; intros nodes id Hnd; [done|].
  rewrite fmap_cons in Hnd. apply NoDup_cons in Hnd as [Hn Hnd]. cbn [insert_nodes foldl List.find].
  fold (insert_nodes (<[ tn_id n := n ]> nodes) l). rewrite IH by done.
  destruct (String.eqb_spec (tn_id n) id) as [<-|Hne].
  - destruct (List.find _ l) as [m|] eqn:E; [|by rewrite lookup_insert_eq].
    apply List.find_some in E as [Hm He%String.eqb_eq]. destruct Hn. rewrite <-He.
    apply list_elem_of_fmap_2. by apply list_elem_of_In.
  - destruct (List.find _ l); [done|]. by rewrite lookup_insert_ne.
Qed.

Lemma sorted_ids_increasing nodes : StronglySorted id_lt (sorted_ids nodes).
Proof.
  assert (Hs : StronglySorted string_le (sorted_ids nodes)) by (apply StronglySorted_merge_sort; apply _).
  assert (Hnd : NoDup (sorted_ids nodes)).
  { unfold sorted_ids. rewrite sort_strings_perm. apply NoDup_fst_map_to_list. }
  induction Hs as [|x l Hs IH Hall]; [constructor|]. apply NoDup_cons in Hnd as [Hx Hnd].
  constructor; [by apply IH|]. rewrite Forall_forall in *. intros y Hy. split; [by apply Hall|].
  by intros ->.
Qed.

Lemma increasing_nodup l : StronglySorted id_lt l → NoDup l.
Proof.
  induction 1 as [|x l Hs IH Hall]; constructor; [|done]. intros Hin. rewrite Forall_forall in Hall.
  by destruct (Hall x Hin).
Qed.

(** A tree that a body can carry: each node under its own id. *)
Definition carried_tree (nodes : NodeMap) : Prop :=
  ∀ id n, nodes !! id = Some n → tn_id n = id ∧ carried_node n.

Lemma sorted_nodes_ids nodes :
  carried_tree nodes → tn_id <$> (node_at nodes <$> sorted_ids nodes) = sorted_ids nodes.
Proof.
  intros Hc. rewrite <-list_fmap_compose, <-(list_fmap_id (sorted_ids nodes)) at 1.
  rewrite <-list_fmap_compose. rewrite <-(list_fmap_id (sorted_ids nodes)) at 2.
  apply list_fmap_ext. intros i id Hi%list_elem_of_lookup_2%elem_of_sorted_ids. destruct Hi as [n Hn].
  cbn. unfold compose. rewrite (node_at_lookup _ _ n) by done. by apply Hc.
Qed.

Lemma insert_sorted_nodes nodes :
  carried_tree nodes → insert_nodes ∅ (node_at nodes <$> sorted_ids nodes) = nodes.
Proof.
  intros Hc. apply map_eq. intros id. rewrite insert_nodes_lookup.
  2: { rewrite sorted_nodes_ids by done. apply increasing_nodup, sorted_ids_increasing. }
  destruct (List.find _ _) as [n|] eqn:E.
  - apply List.find_some in E as [Hin He%String.eqb_eq]. apply list_elem_of_In, list_elem_of_fmap in Hin
      as (i & -> & Hi%elem_of_sorted_ids). destruct Hi as [n Hn]. rewrite (node_at_lookup _ _ n) in He |- * by done.
    destruct (Hc i n Hn) as [Hid _]. congruence.
  - rewrite lookup_empty. destruct (nodes !! id) as [n|] eqn:Hn; [|done]. exfalso.
    eapply List.find_none in E.
    + erewrite String.eqb_neq in E. apply E. destruct (Hc _ _ Hn) as [Hid _]. exact Hid.
    + apply list_elem_of_In, list_elem_of_fmap. exists id. rewrite (node_at_lookup _ _ n) by done.
      split; [done|]. apply elem_of_sorted_ids. eauto.
Qed.

Lemma length_sorted_ids nodes : length (sorted_ids nodes) = size nodes.
Proof.
  unfold sorted_ids. rewrite sort_strings_perm, length_fmap. apply length_map_to_list.
Qed.

Lemma body_decodes nodes body :
  carried_tree nodes → encode_merge_body nodes = Some body → decode_merge_body body = Some nodes.
Proof.
  intros Hc. unfold encode_merge_body, decode_merge_body.
  destruct (Z.ltb_spec kMaxTreeMergeNodes (Z.of_nat (size nodes))) as [|Hsize]; [done|].
  rewrite encode_nodes_spec. intros [-> Hlen]. unfold put_u32. rewrite app_nil_l.
  assert (Hbytes : bytes_of (le_bytes 4 (Z.of_nat (size nodes)) ++ chunks (node_at nodes <$> sorted_ids nodes))
                   <= kMaxTreeMergeBodyBytes).
  { destruct (sorted_ids nodes) eqn:E; [|by apply Hlen]. cbn. unfold bytes_of, kMaxTreeMergeBodyBytes.
    rewrite app_nil_r, length_le_bytes. lia. }
  rewrite (proj2 (Z.ltb_ge _ _)) by done.
  rewrite get_u32_le by (unfold is_u32, two32, kMaxTreeMergeNodes in *; lia).
  rewrite (proj2 (Z.ltb_ge _ _)) by lia.
  rewrite Nat2Z.id, <-length_sorted_ids, <-(length_fmap (node_at nodes)).
  rewrite decode_chunks.
  - f_equal. by apply insert_sorted_nodes.
  - apply Forall_fmap, Forall_forall. intros id [n Hn]%elem_of_sorted_ids. unfold compose.
    rewrite (node_at_lookup _ _ n) by done. by apply (Hc id n).
  - unfold increasing. cbn [app]. rewrite sorted_nodes_ids by done. apply sorted_ids_increasing.
  - unfold bytes_of in *. rewrite length_app in Hbytes. lia.
  - intros n _. apply lookup_empty.
Qed.

(** ** Only canonical bodies decode *)

Lemma le_bytes_value bs : Forall is_byte bs → le_bytes (length bs) (le_value bs) = bs.
Proof.
  induction 1 as [|b bs Hb Hbs IH]; [done|]. cbn [length]. rewrite le_bytes_S, le_value_cons.
  unfold is_byte in Hb. replace (Z.land (b + 256 * le_value bs) 255) with b.
  - f_equal. replace (Z.shiftr (b + 256 * le_value bs) 8) with (le_value bs); [done|].
    rewrite Z.shiftr_div_pow2 by lia. change (2 ^ 8) with 256.
    rewrite Z.mul_comm, Z.div_add by lia. rewrite Z.div_small by lia. done.
  - change 255 with (Z.ones 8). rewrite Z.land_ones by lia. change (2 ^ 8) with 256.
    rewrite Z.mul_comm, Z.mod_add by lia. by rewrite Z.mod_small by lia.
Qed.

Lemma get_u32_inv bytes v rest :
  Forall is_byte bytes → get_u32 bytes = Some (v, rest) → bytes = le_bytes 4 v ++ rest ∧ is_u32 v.
Proof.
  intros Hb. unfold get_u32. destruct (Nat.ltb_spec (length bytes) 4) as [|Hl]; [done|]. intros [= <- <-].
  assert (Ht : length (take 4 bytes) = 4%nat) by (rewrite length_take; lia).
  assert (Hv : le_bytes 4 (le_value (take 4 bytes)) = take 4 bytes).
  { rewrite <-Ht at 1. apply le_bytes_value. by apply Forall_take. }
  split; [by rewrite Hv, take_drop|].
  pose proof (le_value_bytes 4 (le_value (take 4 bytes))) as E. rewrite Hv in E.
  rewrite E. unfold is_u32, two32. apply Z.mod_pos_bound. lia.
Qed.

Lemma decode_nodes_inv count : ∀ previous nodes bytes nodes',
  Forall is_byte bytes →
  (∀ id, is_Some (nodes !! id) → ∃ p, previous = Some p ∧ string_le id p) →
  decode_nodes count previous nodes bytes = Some nodes' →
  ∃ l, length l = count ∧ bytes = chunks l ∧ increasing previous l ∧
    Forall (λ n, tn_id n ≠ ""%string) l ∧ nodes' = insert_nodes nodes l.
Proof.
  induction count as [|count IH]; intros previous nodes bytes nodes' Hb Hacc; cbn [decode_nodes].
  { case_bool_decide as He; [|done]. intros [= <-]. exists []. subst. split_and!; try done.
    unfold increasing. destruct previous; repeat constructor. }
  destruct (get_u32 bytes) as [[len rest]|] eqn:Eu; [|done].
  apply get_u32_inv in Eu as [-> Hlen]; [|done]. apply Forall_app in Hb as [_ Hb].
  destruct (Z.ltb_spec (bytes_of rest) len) as [|Hl]; [done|]. cbn zeta.
  destruct (decode_tree_node (take (Z.to_nat len) rest)) as [n|]; [|done].
  destruct (is_empty (tn_id n)) eqn:Eid; [done|]. cbn [orb]. apply is_empty_false in Eid.
  destruct (match previous with Some p => String.leb (tn_id n) p | None => false end) eqn:Ep; [done|].
  case_bool_decide as Henc; cbn [negb]; [|done].
  assert (Hfresh : nodes !! tn_id n = None).
  { destruct (nodes !! tn_id n) eqn:E; [|done]. destruct (Hacc (tn_id n)) as (p & -> & Hle); [eauto|].
    apply leb_id_lt in Ep as [Hpn Hne]. destruct Hne. by apply (anti_symm string_le). }
  rewrite Hfresh. intros Hd. apply IH in Hd as (l & Hcount & Hrest & Hinc & Hids & ->).
  - exists (n :: l). split_and!; [by rewrite <-Hcount| | |by constructor|done].
    + rewrite chunks_cons. unfold chunk_of. rewrite Henc, <-Hrest, <-app_assoc, take_drop.
      unfold bytes_of, is_u32 in *. rewrite length_take. f_equal. f_equal. lia.
    + unfold increasing in *. cbn in Hinc |- *. destruct previous as [p|]; cbn; [|done].
      apply StronglySorted_cons in Hinc as Hs. destruct Hs as [Hall _]. constructor; [done|].
      apply leb_id_lt in Ep. constructor; [done|]. eapply Forall_impl; [exact Hall|]. cbn.
      intros x [Hx Hxn]. destruct Ep as [Hpn Hne]. split; [by etrans|]. intros ->.
      destruct Hne. by apply (anti_symm string_le).
  - by apply Forall_drop.
  - intros id. destruct (decide (tn_id n = id)) as [<-|Hne]; [intros _; exists (tn_id n); split; [done|apply string_le_refl]|].
    rewrite lookup_insert_ne by done. intros (p & -> & Hle)%Hacc. exists (tn_id n). split; [done|].
    apply leb_id_lt in Ep as [Hpn _]. by etrans.
Qed.

Lemma find_id l n : NoDup (tn_id <$> l) → n ∈ l → List.find (λ m, String.eqb (tn_id m) (tn_id n)) l = Some n.
Proof.
  induction l as [|m l IH]; intros Hnd Hin; [by apply not_elem_of_nil in Hin|].
  rewrite fmap_cons in Hnd. apply NoDup_cons in Hnd as [Hm Hnd]. cbn [List.find].
  apply elem_of_cons in Hin as [->|Hin]; [by rewrite String.eqb_refl|].
  destruct (String.eqb_spec (tn_id m) (tn_id n)) as [E|_]; [|by apply IH].
  destruct Hm. rewrite E. by apply list_elem_of_fmap_2.
Qed.

Lemma inserted_sorted l :
  StronglySorted id_lt (tn_id <$> l) →
  sorted_ids (insert_nodes ∅ l) = tn_id <$> l ∧ node_at (insert_nodes ∅ l) <$> (tn_id <$> l) = l.
Proof.
  intros Hs. pose proof (increasing_nodup _ Hs) as Hnd.
  assert (Hl : ∀ n, n ∈ l → insert_nodes ∅ l !! tn_id n = Some n).
  { intros n Hn. rewrite insert_nodes_lookup by done. by rewrite find_id. }
  split.
  - apply (StronglySorted_unique string_le).
    + apply StronglySorted_merge_sort; apply _.
    + clear -Hs. induction Hs as [|x l' Hs IH Hall]; constructor; [done|].
      eapply Forall_impl; [exact Hall|]. by intros y [].
    + apply NoDup_Permutation; [apply increasing_nodup, sorted_ids_increasing|done|].
      intros id. rewrite elem_of_sorted_ids, insert_nodes_lookup, lookup_empty by done. split.
      * destruct (List.find _ l) as [n|] eqn:E; [|by intros [? [=]]]. intros _.
        apply List.find_some in E as [Hin He%String.eqb_eq]. rewrite <-He.
        apply list_elem_of_fmap_2. by apply list_elem_of_In.
      * intros (n & -> & Hn)%list_elem_of_fmap. rewrite find_id by done. eauto.
  - rewrite <-list_fmap_compose. etrans; [|apply list_fmap_id]. apply list_fmap_ext.
    intros i n Hi%list_elem_of_lookup_2. unfold compose. by apply node_at_lookup, Hl.
Qed.

Lemma body_canonical body nodes :
  Forall is_byte body → decode_merge_body body = Some nodes → encode_merge_body nodes = Some body.
Proof.
  intros Hb. unfold decode_merge_body, encode_merge_body.
  destruct (Z.ltb_spec kMaxTreeMergeBodyBytes (bytes_of body)) as [|Hlen]; [done|].
  destruct (get_u32 body) as [[count rest]|] eqn:Eu; [|done].
  apply get_u32_inv in Eu as [-> Hcount]; [|done]. apply Forall_app in Hb as [_ Hb].
  destruct (Z.ltb_spec kMaxTreeMergeNodes count) as [|Hmax]; [done|]. intros Hd.
  apply decode_nodes_inv in Hd as (l & Hl & -> & Hinc & Hids & ->);
    [|done|intros id; by rewrite lookup_empty; intros [? [=]]].
  unfold increasing in Hinc. cbn in Hinc. destruct (inserted_sorted l Hinc) as [Hsorted Hnodes].
  assert (Hsize : Z.of_nat (size (insert_nodes ∅ l)) = count).
  { rewrite <-length_sorted_ids, Hsorted, length_fmap. unfold is_u32 in Hcount. lia. }
  rewrite Hsize, (proj2 (Z.ltb_ge _ _)) by done. apply encode_nodes_spec.
  rewrite Hsorted, Hnodes. split; [done|]. intros _. exact Hlen.
Qed.

(** A merge body and a tree determine each other: the body of a tree decodes
    to that tree, and bytes that decode are the body of the tree they decode
    to, so no tree has two bodies. *)
Theorem merge_body_round_trip nodes body :
  (carried_tree nodes → encode_merge_body nodes = Some body → decode_merge_body body = Some nodes) ∧
  (Forall is_byte body → decode_merge_body body = Some nodes → encode_merge_body nodes = Some body).
Proof. split; [apply body_decodes|apply body_canonical]. Qed.
End body.
