(* ===== verification/TreeLog.v ===== *)
(** * The tree log

    Models [Tree/TreeLog.cpp]: the entries of the log and their JSON form, the
    replay of an entry, and the log on disk with its snapshots and its applied
    marker. The files are those of [DurableWrite]; the storage vault is not
    modelled, so the log is one without a vault ([vault_ == nullptr]). *)

From S2P Require Import Prelude SecurityPolicy CanonicalEncoding ConsensusTypes DurableWrite Json EligibilityStore FileStorage.
From S2P Require Import ConsensusRecords TreeTypes LinkToken TreeRules TreeOps TreeValidation TreeCodec TreeRoundTrip TreeMergeBody.

Definition kTreeLogFormatVersion : Z := 2.
Definition kTreeLogSnapshotInterval : Z := 1000.

Inductive TreeLogEntryKind := EntryBatch | EntryMerge.

#[export] Instance entry_kind_eq_dec : EqDecision TreeLogEntryKind.
Proof. solve_decision. Defined.

Record TreeLogEntry := mkLogEntry {
  lg_kind : TreeLogEntryKind;
  lg_height : Z;
  lg_block_time_ms : Z;
  lg_batch : list Z;
  lg_ops_digest : Digest;
  lg_previous_root : Digest;
  lg_tree_digest : Digest;
  lg_state_root : Digest;
  lg_commit : gmap string json;
}.

#[export] Instance eta_log_entry : Etable TreeLogEntry := λ e,
  mkLogEntry (lg_kind e) (lg_height e) (lg_block_time_ms e) (lg_batch e) (lg_ops_digest e)
    (lg_previous_root e) (lg_tree_digest e) (lg_state_root e) (lg_commit e).

Section entries.
Context `{TextCodec, HexCodec, FloatText, Sodium, SodiumMessages}.

(** ** JSON *)

Definition bytes_b64 (bytes : list Z) : json := JString (to_base64 bytes).

Definition unb64 (value : json) : option (list Z) :=
  match value with JString s => from_base64 s | _ => None end.

Definition read_digest (doc : gmap string json) (key : string) : option Digest :=
  value ← doc !! key;
  bytes ← unb64 value;
  if bool_decide (length bytes = 32%nat) then Some (be_value bytes) else None.

Definition format_ok (doc : gmap string json) : bool :=
  match read_u64 doc "format" with Some format => format =? kTreeLogFormatVersion | None => false end.

Definition kind_name (kind : TreeLogEntryKind) : string :=
  match kind with EntryMerge => "merge" | EntryBatch => "batch" end.

Definition tree_log_entry_to_json (entry : TreeLogEntry) : json :=
  object [("format", JUnsigned kTreeLogFormatVersion);
          ("kind", JString (kind_name (lg_kind entry)));
          ("height", JUnsigned (lg_height entry));
          ("block_time_ms", JUnsigned (lg_block_time_ms entry));
          ("batch", bytes_b64 (lg_batch entry));
          ("ops_digest", b64 32 (lg_ops_digest entry));
          ("previous_root", b64 32 (lg_previous_root entry));
          ("tree_digest", b64 32 (lg_tree_digest entry));
          ("state_root", b64 32 (lg_state_root entry));
          ("commit", JObject (lg_commit entry))].

Definition tree_log_entry_from_json (j : json) : option TreeLogEntry :=
  match j with
  | JObject doc =>
      if negb (format_ok doc) then None
      else
        kind ← match doc !! "kind"%string with
               | Some (JString s) =>
                   if String.eqb s "batch" then Some EntryBatch
                   else if String.eqb s "merge" then Some EntryMerge else None
               | _ => None
               end;
        batch ← doc !! "batch"%string ≫= unb64;
        height ← read_u64 doc "height";
        block_time_ms ← read_u64 doc "block_time_ms";
        ops_digest ← read_digest doc "ops_digest";
        previous_root ← read_digest doc "previous_root";
        tree_digest ← read_digest doc "tree_digest";
        state_root ← read_digest doc "state_root";
        match doc !! "commit"%string with
        | Some (JObject commit) =>
            Some (mkLogEntry kind height block_time_ms batch ops_digest previous_root tree_digest
                    state_root commit)
        | _ => None
        end
  | _ => None
  end.

(** ** Replay *)

Definition batch_digest (batch : list Z) : Digest :=
  block_payload_digest (mkPayload ConsensusTypes.TreeBatch batch).

Definition empty_base_root : Digest := base_state_root (compute_tree_digest ∅).

Definition ReplayResult : Type := (TreeOpRefusal * string) + (TreeChainState * list TreeOpEffect).

Definition malformed (reason : string) : ReplayResult := inl (Malformed, reason).

Definition replay_merge (state : TreeChainState) (entry : TreeLogEntry) : ReplayResult :=
  if negb (lg_height entry =? 1) || negb (ch_root state =? empty_base_root)
     || negb (bool_decide (ch_nodes state = ∅)) || negb (bool_decide (ch_committed state = ∅))
     || negb (ch_last_block_time_ms state =? 0)
  then malformed "a merge entry is valid only at height 1 on top of the empty base"
  else if negb (merge_body_digest (lg_batch entry) =? lg_ops_digest entry)
  then malformed "the merge body does not match its digest"
  else match decode_merge_body (lg_batch entry) with
  | None => malformed "the merge body does not decode"
  | Some nodes =>
      if lg_block_time_ms entry =? 0 then malformed "the merge entry has no block time"
      else
        let next := mkChain nodes ∅ (lg_block_time_ms entry) 0 in
        let root := chain_state_root (ch_root state) (lg_ops_digest entry) next in
        if negb (compute_tree_digest nodes =? lg_tree_digest entry) || negb (root =? lg_state_root entry)
        then malformed "the merge entry does not produce its recorded roots"
        else inr (mkChain nodes ∅ (lg_block_time_ms entry) root, [])
  end.

(** [true]: there is no recorded header, or it states this entry. *)
Definition header_agrees (entry : TreeLogEntry) : bool :=
  match lg_commit entry !! "proposal"%string with
  | None => true
  | Some j =>
      match proposal_from_json j with
      | None => false
      | Some header =>
          (p_timestamp_hint header =? lg_block_time_ms entry)
          && (p_transitions_digest header =? lg_ops_digest entry)
          && (p_previous_state_root header =? lg_previous_root entry)
          && (p_proposed_state_root header =? lg_state_root entry)
      end
  end.

Definition replay_batch (state : TreeChainState) (entry : TreeLogEntry) : ReplayResult :=
  if negb (batch_digest (lg_batch entry) =? lg_ops_digest entry)
  then malformed "the batch does not match its ops digest"
  else match decode_tree_batch (lg_batch entry) with
  | None => malformed "the batch is malformed"
  | Some batch =>
      if negb (header_agrees entry) then malformed "the entry contradicts its certified header"
      else match apply_certified_batch batch (lg_block_time_ms entry) (lg_ops_digest entry) state with
      | inl (_, r) => inl r
      | inr (next, effects) =>
          if negb (compute_tree_digest (ch_nodes next) =? lg_tree_digest entry)
             || negb (ch_root next =? lg_state_root entry)
          then malformed "the entry does not replay to its recorded state"
          else inr (next, effects)
      end
  end.

Definition replay_entry (state : TreeChainState) (entry : TreeLogEntry) : ReplayResult :=
  if negb (lg_previous_root entry =? ch_root state)
  then malformed "the entry does not chain to the previous state root"
  else match lg_kind entry with
  | EntryMerge => replay_merge state entry
  | EntryBatch => replay_batch state entry
  end.
End entries.

(** ** The log on disk *)

Definition kSnapshotPrefix : string := "snapshot-".

Definition all_digits (s : string) : bool := forallb is_digit (String.list_ascii_of_string s).

(** [std::from_chars] over the whole stem, with one spelling per height. *)
Definition height_of (stem : string) : option Z :=
  if is_empty stem || negb (all_digits stem) then None
  else
    value ← read_digits stem None;
    if two64 <=? value then None
    else if (1 <? String.length stem)%nat && String.prefix "0" stem then None
    else Some value.

(** The stem of a file name with the extension [.json]. *)
Definition json_stem (name : string) : option string :=
  let n := String.length name in
  if (5 <? n)%nat && String.eqb (String.substring (n - 5) 5 name) ".json"
  then Some (String.substring 0 (n - 5) name) else None.

Record TreeLog := mkLog {
  tl_state : TreeChainState;
  tl_height : Z;
  tl_applied_height : Z;
}.

#[export] Instance eta_log : Etable TreeLog := λ l, mkLog (tl_state l) (tl_height l) (tl_applied_height l).

Definition empty_chain : TreeChainState := mkChain ∅ ∅ 0 0.
Definition closed_log : TreeLog := mkLog empty_chain 0 0.

Inductive OpenResult := OpenOk | OpenCorrupt.

Definition z_desc (a b : Z) : Prop := b <= a.
#[export] Instance z_desc_dec : RelDecision z_desc.
Proof. intros a b. unfold z_desc. apply _. Defined.

Section log.
Context `{TextCodec, HexCodec, FloatText, Sodium, SodiumMessages} (directory_ : string).

(** The stems of the [.json] files of the directory. *)
Definition stem_of_path (path : string) : option string :=
  let prefix := directory_ +:+ "/" in
  if String.prefix prefix path then
    let name := String.substring (String.length prefix) (String.length path) path in
    if has_slash name then None else json_stem name
  else None.

Definition directory_stems (d : Disk) : list string := omap stem_of_path (map_to_list (live d)).*1.

Definition snapshot_height (stem : string) : option Z :=
  if starts_with kSnapshotPrefix stem
  then height_of (string_drop (String.length kSnapshotPrefix) stem) else None.
Definition entry_height (stem : string) : option Z :=
  if starts_with kSnapshotPrefix stem then None else height_of stem.

Definition log_snapshots (d : Disk) : gset Z := list_to_set (omap snapshot_height (directory_stems d)).
Definition log_entries (d : Disk) : gset Z := list_to_set (omap entry_height (directory_stems d)).

Definition entry_path (height : Z) : string :=
  directory_ +:+ "/" +:+ pretty (Z.to_N height) +:+ ".json".
Definition snapshot_path (height : Z) : string :=
  directory_ +:+ "/" +:+ kSnapshotPrefix +:+ pretty (Z.to_N height) +:+ ".json".
Definition applied_path : string := directory_ +:+ "/applied.json".

Definition read_doc (path : string) (d : Disk) : option (gmap string json) :=
  text ← DurableWrite.read_file path d;
  match json_parse text with Some (JObject doc) => Some doc | _ => None end.

Definition write_doc (path : string) (doc : json) (d : Disk) : bool * Disk :=
  write_durable path (json_dump doc) d.

(** *** Snapshots *)

Definition snapshot_node (kv : string * TreeNode) : json :=
  object [("id", JString kv.1); ("node", bytes_b64 (encode_tree_node kv.2))].

Definition snapshot_document (height : Z) (state : TreeChainState) : json :=
  object [("format", JUnsigned kTreeLogFormatVersion);
          ("height", JUnsigned height);
          ("block_time_ms", JUnsigned (ch_last_block_time_ms state));
          ("tree_digest", b64 32 (compute_tree_digest (ch_nodes state)));
          ("root", b64 32 (ch_root state));
          ("nodes", JArray (snapshot_node <$> merge_sort node_entry_le (map_to_list (ch_nodes state))));
          ("committed", JArray ((λ kv : string * Z, JArray [JString kv.1; JUnsigned kv.2])
                                  <$> committed_sorted (ch_committed state)))].

Definition write_snapshot (height : Z) (state : TreeChainState) (d : Disk) : bool * Disk :=
  write_doc (snapshot_path height) (snapshot_document height state) d.

Definition read_snapshot_node (nodes : NodeMap) (item : json) : option NodeMap :=
  match item with
  | JObject fields =>
      match fields !! "id"%string with
      | Some (JString id) =>
          bytes ← fields !! "node"%string ≫= unb64;
          node ← decode_tree_node bytes;
          if negb (String.eqb (tn_id node) id) || bool_decide (is_Some (nodes !! id)) then None
          else Some (<[ id := node ]> nodes)
      | _ => None
      end
  | _ => None
  end.

Fixpoint read_snapshot_nodes (items : list json) (nodes : NodeMap) : option NodeMap :=
  match items with
  | [] => Some nodes
  | item :: rest => nodes ← read_snapshot_node nodes item; read_snapshot_nodes rest nodes
  end.

Fixpoint read_snapshot_committed (items : list json) (committed : CommittedOpIds) : option CommittedOpIds :=
  match items with
  | [] => Some committed
  | JArray [JString id; JUnsigned signed_at] :: rest =>
      read_snapshot_committed rest (<[ id := signed_at ]> committed)
  | _ => None
  end.

Definition snapshot_from (height : Z) (doc : gmap string json) : option TreeChainState :=
  if negb (format_ok doc) then None
  else
    stored_height ← read_u64 doc "height";
    if negb (stored_height =? height) then None
    else
      block_time_ms ← read_u64 doc "block_time_ms";
      tree_digest ← read_digest doc "tree_digest";
      root ← read_digest doc "root";
      match doc !! "nodes"%string, doc !! "committed"%string with
      | Some (JArray nodes), Some (JArray committed) =>
          nodes ← read_snapshot_nodes nodes ∅;
          committed ← read_snapshot_committed committed ∅;
          if negb (compute_tree_digest nodes =? tree_digest) then None
          else if (height =? 0) && negb (root =? base_state_root tree_digest) then None
          else Some (mkChain nodes committed block_time_ms root)
      | _, _ => None
      end.

Definition read_snapshot (height : Z) (d : Disk) : option TreeChainState :=
  read_doc (snapshot_path height) d ≫= snapshot_from height.

Definition read_entry (height : Z) (d : Disk) : option TreeLogEntry :=
  doc ← read_doc (entry_path height) d; tree_log_entry_from_json (JObject doc).

Definition mark_applied (height : Z) (log : TreeLog) (d : Disk) : bool * TreeLog * Disk :=
  let '(ok, d) := write_doc applied_path
    (object [("format", JUnsigned kTreeLogFormatVersion); ("height", JUnsigned height)]) d in
  if ok then (true, log <| tl_applied_height := height |>, d) else (false, log, d).

(** *** Opening *)

(** A directory that cannot be listed counts as holding a log. *)
Definition log_exists (d : Disk) : bool * Disk :=
  if bool_decide (log_entries d = ∅) && bool_decide (log_snapshots d = ∅) then
    let '(listed, d) := succeeds d in (negb listed, d)
  else (true, d).

(** The cross-check of a snapshot above height 0 with the entry it follows. *)
Definition snapshot_checks (height : Z) (base : TreeChainState) (d : Disk) : bool :=
  match read_entry height d with
  | None => false
  | Some entry =>
      (lg_state_root entry =? ch_root base)
      && (lg_tree_digest entry =? compute_tree_digest (ch_nodes base))
      && (lg_block_time_ms entry =? ch_last_block_time_ms base)
      && (chain_state_root (lg_previous_root entry) (lg_ops_digest entry) base =? ch_root base)
  end.

Definition usable_snapshot (height : Z) (d : Disk) : option TreeChainState :=
  base ← read_snapshot height d;
  if (0 <? height) && negb (snapshot_checks height base d) then None else Some base.

(** The newest snapshot that loads, from the heights in falling order. *)
Fixpoint newest_snapshot (heights : list Z) (d : Disk) : option (Z * TreeChainState) :=
  match heights with
  | [] => None
  | h :: rest =>
      match usable_snapshot h d with
      | Some base => Some (h, base)
      | None => newest_snapshot rest d
      end
  end.

(** The entries from [h] to [last]. Each turn takes an entry file, so one turn
    more than there are files is enough. *)
Fixpoint replay_entries (fuel : nat) (entries : gset Z) (h last : Z) (log : TreeLog) (d : Disk)
    : OpenResult * TreeLog :=
  match fuel with
  | O => (OpenCorrupt, log)
  | S fuel =>
      if last <? h then (OpenOk, log)
      else if negb (bool_decide (h ∈ entries)) then (OpenCorrupt, log)
      else match read_entry h d with
      | None => (OpenCorrupt, log)
      | Some entry =>
          if negb (lg_height entry =? h) then (OpenCorrupt, log)
          else match replay_entry (tl_state log) entry with
          | inl _ => (OpenCorrupt, log)
          | inr (next, _) =>
              replay_entries fuel entries (h + 1) last (log <| tl_state := next |> <| tl_height := h |>) d
          end
      end
  end.

Definition read_applied (d : Disk) : Z :=
  match read_doc applied_path d with
  | Some doc => if format_ok doc then default 0 (read_u64 doc "height") else 0
  | None => 0
  end.

Definition load_log (log : TreeLog) (d : Disk) : OpenResult * TreeLog * Disk :=
  let entries := log_entries d in
  match newest_snapshot (merge_sort z_desc (elements (log_snapshots d))) d with
  | None => (OpenCorrupt, log, d)
  | Some (base_height, base) =>
      let log := log <| tl_state := base |> <| tl_height := base_height |> in
      let last := foldr Z.max 0 (elements entries) in
      let '(result, log) := replay_entries (S (size entries)) entries (base_height + 1) last log d in
      match result with
      | OpenCorrupt => (OpenCorrupt, log, d)
      | OpenOk => (OpenOk, log <| tl_applied_height := read_applied d |>, d)
      end
  end.

Definition start_log (base_nodes : NodeMap) (log : TreeLog) (d : Disk) : OpenResult * TreeLog * Disk :=
  let state := mkChain base_nodes ∅ 0 (base_state_root (compute_tree_digest base_nodes)) in
  let log := log <| tl_state := state |> <| tl_height := 0 |> in
  let '(ok, d) := write_snapshot 0 state d in
  if negb ok then (OpenCorrupt, log, d)
  else
    let '(ok, log, d) := mark_applied 0 log d in
    if ok then (OpenOk, log, d) else (OpenCorrupt, log, d).

Definition log_open (base_nodes : NodeMap) (log : TreeLog) (d : Disk) : OpenResult * TreeLog * Disk :=
  let '(created, d) := succeeds d in
  if negb created then (OpenCorrupt, log, d)
  else
    let '(listed, d) := succeeds d in
    if negb listed then (OpenCorrupt, log, d)
    else if bool_decide (log_entries d = ∅) && bool_decide (log_snapshots d = ∅)
    then start_log base_nodes log d
    else load_log log d.

(** *** Appending *)

Definition log_append (entry : TreeLogEntry) (next : TreeChainState) (log : TreeLog) (d : Disk)
    : bool * TreeLog * Disk :=
  if negb (lg_height entry =? tl_height log +64 1) || negb (lg_previous_root entry =? ch_root (tl_state log))
     || negb (ch_root next =? lg_state_root entry)
     || (bool_decide (lg_kind entry = EntryMerge) && negb (lg_height entry =? 1))
  then (false, log, d)
  else
    let '(ok, d) := write_doc (entry_path (lg_height entry)) (tree_log_entry_to_json entry) d in
    if negb ok then (false, log, d)
    else
      let d := if lg_height entry mod kTreeLogSnapshotInterval =? 0
               then (write_snapshot (lg_height entry) next d).2 else d in
      (true, log <| tl_state := next |> <| tl_height := lg_height entry |>, d).
End log.

(** * The merge commit

    Models the commit part of [Tree/TreeMerge.cpp]: the bytes that the root
    management key signs, the height-1 entry of a merged tree, its signature,
    and the check every server makes before it replaces its tree.

    [verify_merge_signature] reads the kind of the commit record with
    [json::value], which throws when the field is there and is no string; the
    model returns [Throws] then. *)

Definition kTreeMergePreimageType : string := "lemonade-nexus/tree-merge:v1".

(** A refusal, or [None] when the check passes; or an exception. *)
Inductive Checked := Verdict (refusal : option string) | Throws.

Section commit.
Context `{TextCodec, HexCodec, FloatText, Sodium, SodiumMessages}.

(** Raw key bytes of an ["ed25519:<base64>"] principal. *)
Definition principal_key (principal : string) : option Ed25519PublicKey :=
  if negb (starts_with kEd25519Prefix principal) then None
  else
    bytes ← from_base64 (string_drop (String.length kEd25519Prefix) principal);
    if bool_decide (length bytes = 32%nat) then Some (be_value bytes) else None.

Definition principal_of (key : Ed25519PublicKey) : string :=
  kEd25519Prefix +:+ to_base64 (be_bytes 32 key).

Definition merge_preimage (entry : TreeLogEntry) (network_id : NetworkId) (node_count : Z) : list Z :=
  json_dump (object [("type", JString kTreeMergePreimageType);
                     ("network_id", hex_of 32 network_id);
                     ("height", JUnsigned (lg_height entry));
                     ("block_time_ms", JUnsigned (lg_block_time_ms entry));
                     ("previous_root", b64 32 (lg_previous_root entry));
                     ("merge_digest", b64 32 (lg_ops_digest entry));
                     ("tree_digest", b64 32 (lg_tree_digest entry));
                     ("state_root", b64 32 (lg_state_root entry));
                     ("node_count", JUnsigned node_count)]).

Definition build_merge_entry (nodes : NodeMap) (block_time_ms : Z) (network_id : NetworkId)
    (root_key : string) : option TreeLogEntry :=
  body ← encode_merge_body nodes;
  let ops_digest := merge_body_digest body in
  let after := mkChain nodes ∅ 0 0 in
  Some (mkLogEntry EntryMerge 1 block_time_ms body ops_digest empty_base_root (compute_tree_digest nodes)
          (chain_state_root empty_base_root ops_digest after)
          (list_to_map [("kind", JString "merge");
                        ("network_id", hex_of 32 network_id);
                        ("signer", JString root_key);
                        ("node_count", JUnsigned (Z.of_nat (size nodes)));
                        ("signature", JString "")])).

Definition attach_merge_signature (entry : TreeLogEntry) (signature : Ed25519Signature) : TreeLogEntry :=
  entry <| lg_commit := <[ "signature"%string := b64 64 signature ]> (lg_commit entry) |>.

(** The signature, the signer's key and the node count of a commit record. *)
Definition check_merge_signature (entry : TreeLogEntry) (network_id : NetworkId)
    (configured : Ed25519PublicKey) (signer signature : string) (node_count : Z) : option string :=
  if negb (bool_decide (principal_key signer = Some configured))
  then Some "the merge commit is not signed by the configured root management key"
  else match from_base64 signature with
  | None => Some "the merge signature is not base64"
  | Some bytes =>
      if negb (bool_decide (length bytes = 64%nat)) then Some "the merge signature is not 64 bytes"
      else match decode_merge_body (lg_batch entry) with
      | None => Some "the merge body does not decode"
      | Some nodes =>
          if negb (Z.of_nat (size nodes) =? node_count)
          then Some "the merge body does not hold the signed node count"
          else if negb (crypto_sign_ed25519_verify_detached (be_value bytes)
                          (merge_preimage entry network_id (Z.of_nat (size nodes))) configured)
          then Some "the merge signature does not verify"
          else None
      end
  end.

Definition verify_merge_signature (entry : TreeLogEntry) (network_id : NetworkId) (root_key : string)
    : Checked :=
  if negb (bool_decide (lg_kind entry = EntryMerge)) then Verdict (Some "not a merge entry")
  else if negb (lg_height entry =? 1)
  then Verdict (Some "a merge entry is valid only at height 1")
  else match principal_key root_key with
  | None => Verdict (Some "no root management key is configured")
  | Some configured =>
      let c := lg_commit entry in
      match value_string (JObject c) "kind" "" with
      | None => Throws
      | Some kind =>
          match (if String.eqb kind "merge" then c !! "network_id"%string else None), c !! "signer"%string,
                c !! "signature"%string, c !! "node_count"%string with
          | Some (JString network), Some (JString signer), Some (JString signature), Some (JUnsigned count) =>
              if negb (String.eqb network (to_hex (be_bytes 32 network_id)))
              then Verdict (Some "the merge commit names another network")
              else Verdict (check_merge_signature entry network_id configured signer signature count)
          | _, _, _, _ => Verdict (Some "the merge commit record is malformed")
          end
      end
  end.
End commit.
