(* ===== verification/TreeLogFacts.v ===== *)
(** * Facts about the tree log

    The JSON forms of entries and snapshots read back what was written, and the
    names of the files of the log tell their heights. *)

From S2P Require Import Prelude SecurityPolicy CanonicalEncoding Json DurableWrite ConsensusTypes ConsensusRecords.
From S2P Require Import EligibilityStore TreeTypes LinkToken TreeRules TreeFacts TreeOps TreeValidation TreeCodec.
From S2P Require Import TreeRoundTrip TreeMergeBody TreeLog.

(** ** Bytes *)

Lemma string_bytes_are_bytes s : Forall is_byte (string_bytes s).
Proof.
  unfold string_bytes. apply Forall_forall. intros b (c & -> & _)%list_elem_of_fmap.
  unfold is_byte. pose proof (Ascii.nat_ascii_bounded c). lia.
Qed.

Lemma le_bytes_are_bytes n v : Forall is_byte (le_bytes n v).
Proof. apply Forall_forall. intros b. apply le_bytes_byte. Qed.

(** Encoders only append bytes. *)
Lemma bytes_put enc f : Forall is_byte enc → Forall is_byte f → Forall is_byte (put_length_prefixed enc f).
Proof.
  intros He Hf. unfold put_length_prefixed. repeat apply Forall_app_2; [done|apply le_bytes_are_bytes|done].
Qed.
Lemma bytes_string enc s : Forall is_byte enc → Forall is_byte (add_string enc s).
Proof. intros He. apply bytes_put; [done|apply string_bytes_are_bytes]. Qed.
Lemma bytes_u32 enc v : Forall is_byte enc → Forall is_byte (add_u32 enc v).
Proof. intros He. apply bytes_put; [done|apply le_bytes_are_bytes]. Qed.
Lemma bytes_u64 enc v : Forall is_byte enc → Forall is_byte (add_u64 enc v).
Proof. intros He. apply bytes_put; [done|apply le_bytes_are_bytes]. Qed.
Lemma bytes_bool enc b : Forall is_byte enc → Forall is_byte (add_bool enc b).
Proof. intros He. apply bytes_put; [done|apply le_bytes_are_bytes]. Qed.
Lemma bytes_fold {A} (f : list Z → A → list Z) l enc :
  (∀ enc x, Forall is_byte enc → Forall is_byte (f enc x)) → Forall is_byte enc →
  Forall is_byte (foldl f enc l).
Proof. intros Hf. revert enc. induction l; cbn; auto. Qed.

(** One encoder call at a time, by its name. *)
Ltac encoder_bytes :=
  repeat match goal with
  | |- Forall is_byte (add_string _ _) => apply bytes_string
  | |- Forall is_byte (add_u32 _ _) => apply bytes_u32
  | |- Forall is_byte (add_u64 _ _) => apply bytes_u64
  | |- Forall is_byte (add_bool _ _) => apply bytes_bool
  | |- Forall is_byte (foldl _ _ _) => apply bytes_fold
  end.

Lemma encode_node_bytes n : Forall is_byte (encode_tree_node n).
Proof.
  unfold encode_tree_node, add_node, new_encoder. cbv zeta.
  encoder_bytes; [|apply Forall_nil_2]. intros enc a He. unfold add_assignment, add_strings.
  encoder_bytes; [|done]. intros. by encoder_bytes.
Qed.

(** ** Entries *)

Section entries.
Context `{TextCodecLaws, HexCodec, FloatText, Sodium, SodiumMessages}.

(** The values of an entry are within their C++ types, and its commit record is
    a document that the store writes. *)
Record storable_entry (e : TreeLogEntry) : Prop := mkStorableEntry {
  se_height : is_u64 (lg_height e);
  se_time : is_u64 (lg_block_time_ms e);
  se_batch : Forall is_byte (lg_batch e);
  se_ops : is_digest (lg_ops_digest e);
  se_previous : is_digest (lg_previous_root e);
  se_tree : is_digest (lg_tree_digest e);
  se_root : is_digest (lg_state_root e);
  se_commit : json_fits (JObject (lg_commit e));
}.

Lemma read_digest_spec fields key v :
  fields !! key = Some (b64 32 v) → is_digest v → read_digest fields key = Some v.
Proof.
  intros E Hv. unfold read_digest. rewrite E. cbn [mbind option_bind]. unfold b64, unb64, from_base64, to_base64.
  rewrite base64_round_trip by apply be_bytes_are_bytes. cbn [mbind option_bind].
  rewrite bool_decide_eq_true_2 by apply length_be_bytes. by rewrite be_value_bytes.
Qed.

Lemma unb64_bytes bytes : Forall is_byte bytes → unb64 (bytes_b64 bytes) = Some bytes.
Proof.
  intros Hb. unfold unb64, bytes_b64, from_base64, to_base64. by rewrite base64_round_trip.
Qed.

Lemma format_of fields :
  fields !! "format"%string = Some (JUnsigned kTreeLogFormatVersion) → format_ok fields = true.
Proof. intros E. unfold format_ok. by rewrite (read_u64_spec _ _ _ E). Qed.

Ltac digest_field := erewrite read_digest_spec; [|by rewrite lookup_fields|done]; cbn [mbind option_bind].

Lemma entry_round_trip e :
  storable_entry e → tree_log_entry_from_json (tree_log_entry_to_json e) = Some e.
Proof.
  intros [E1 E2 E3 E4 E5 E6 E7 E8]. unfold tree_log_entry_from_json, tree_log_entry_to_json, object.
  rewrite format_of by by rewrite lookup_fields. cbn [negb]. rewrite !lookup_fields.
  cbn [assoc String.eqb Ascii.eqb Bool.eqb mbind option_bind].
  assert (Hk : (if String.eqb (kind_name (lg_kind e)) "batch" then Some EntryBatch
                else if String.eqb (kind_name (lg_kind e)) "merge" then Some EntryMerge else None)
               = Some (lg_kind e)) by by destruct (lg_kind e).
  rewrite Hk. cbn [mbind option_bind]. rewrite unb64_bytes by done. cbn [mbind option_bind].
  do 2 read_field. do 4 digest_field. by destruct e.
Qed.

Lemma fits_bytes bytes : Forall is_byte bytes → json_fits (bytes_b64 bytes).
Proof. intros Hb. constructor. by apply base64_ascii. Qed.

Lemma entry_fits e : storable_entry e → json_fits (tree_log_entry_to_json e).
Proof.
  intros [E1 E2 E3 E4 E5 E6 E7 E8]. unfold tree_log_entry_to_json. fits_literal; try apply fits_b64; try done.
  - constructor. unfold is_u64, two64, kTreeLogFormatVersion. lia.
  - constructor. destruct (lg_kind e); by apply ascii_literal.
  - by constructor.
  - by constructor.
  - by apply fits_bytes.
Qed.

(** ** Snapshots *)

Record storable_state (s : TreeChainState) : Prop := mkStorableState {
  ss_nodes : ∀ id n, ch_nodes s !! id = Some n →
    tn_id n = id ∧ node_fits n ∧ Z.of_nat (length (encode_tree_node n)) < two32 ∧ ascii_text id;
  ss_committed : ∀ id t, ch_committed s !! id = Some t → ascii_text id ∧ is_u64 t;
  ss_time : is_u64 (ch_last_block_time_ms s);
  ss_root : is_digest (ch_root s);
}.

Lemma read_nodes_back l : ∀ acc,
  NoDup l.*1 → (∀ kv, kv ∈ l → acc !! kv.1 = None) →
  (∀ kv, kv ∈ l → tn_id kv.2 = kv.1 ∧ node_fits kv.2 ∧ Z.of_nat (length (encode_tree_node kv.2)) < two32) →
  read_snapshot_nodes (snapshot_node <$> l) acc = Some (list_to_map l ∪ acc).
Proof.
  induction l as [|[id n] l IH]; intros acc Hnd Hfresh Hl; cbn [fmap list_fmap read_snapshot_nodes].
  { f_equal. symmetry. apply (left_id_L ∅ (∪)). }
  rewrite fmap_cons in Hnd. apply NoDup_cons in Hnd as [Hid Hnd]. cbn [fst] in Hid.
  destruct (Hl (id, n)) as (Ht & Hfit & Hlen); [by left|]. cbn [fst snd] in *.
  unfold read_snapshot_node, snapshot_node, object. rewrite !lookup_fields.
  cbn [fst snd assoc String.eqb Ascii.eqb Bool.eqb mbind option_bind].
  rewrite unb64_bytes by apply encode_node_bytes. cbn [mbind option_bind].
  rewrite decode_node_encoding by done. cbn [mbind option_bind].
  rewrite Ht, String.eqb_refl. cbn [negb orb].
  pose proof (Hfresh (id, n) ltac:(by left)) as Hn. cbn [fst] in Hn. rewrite Hn.
  rewrite (bool_decide_eq_false_2 (is_Some None)) by by intros [? [=]]. cbn [mbind option_bind].
  rewrite IH; [|done| |by intros kv Hkv; apply Hl; right].
  - rewrite list_to_map_cons. by rewrite <-insert_union_l, insert_union_r by by apply not_elem_of_list_to_map.
  - intros [k m] Hk. rewrite lookup_insert_ne; [by apply (Hfresh (k, m)); right|].
    intros ->. apply Hid. by apply (list_elem_of_fmap_2 fst) in Hk.
Qed.

Lemma read_committed_back (l : list (string * Z)) : ∀ acc,
  NoDup l.*1 → (∀ kv, kv ∈ l → acc !! kv.1 = None) →
  read_snapshot_committed ((λ kv : string * Z, JArray [JString kv.1; JUnsigned kv.2]) <$> l) acc
  = Some (list_to_map l ∪ acc).
Proof.
  induction l as [|[id t] l IH]; intros acc Hnd Hfresh; cbn [fmap list_fmap read_snapshot_committed fst snd].
  { f_equal. symmetry. apply (left_id_L ∅ (∪)). }
  rewrite fmap_cons in Hnd. apply NoDup_cons in Hnd as [Hid Hnd]. cbn [fst] in Hid.
  rewrite IH; [|done|].
  - rewrite list_to_map_cons. by rewrite <-insert_union_l, insert_union_r by by apply not_elem_of_list_to_map.
  - intros [k m] Hk. rewrite lookup_insert_ne; [by apply (Hfresh (k, m)); right|].
    intros ->. apply Hid. by apply (list_elem_of_fmap_2 fst) in Hk.
Qed.

Lemma sorted_to_map {A} (R : relation (string * A)) `{∀ x y, Decision (R x y)} (m : gmap string A) :
  NoDup (merge_sort R (map_to_list m)).*1 ∧ list_to_map (merge_sort R (map_to_list m)) = m ∧
  (∀ kv, kv ∈ merge_sort R (map_to_list m) ↔ m !! kv.1 = Some kv.2).
Proof.
  pose proof (merge_sort_Permutation R (map_to_list m)) as Hp.
  assert (Hnd : NoDup (merge_sort R (map_to_list m)).*1) by (rewrite Hp; apply NoDup_fst_map_to_list).
  split; [done|]. split; [by rewrite (list_to_map_proper _ _ Hnd Hp), list_to_map_to_list|].
  intros [k v]. rewrite Hp. apply elem_of_map_to_list.
Qed.

Context `{!SodiumLaws}.

Lemma snapshot_round_trip h s :
  storable_state s → (h = 0 → ch_root s = base_state_root (compute_tree_digest (ch_nodes s))) →
  match snapshot_document h s with JObject fields => snapshot_from h fields | _ => None end = Some s.
Proof.
  intros [S1 S2 S3 S4] Hbase. unfold snapshot_from, snapshot_document, object.
  rewrite format_of by by rewrite lookup_fields. cbn [negb]. do 2 read_field.
  rewrite Z.eqb_refl. cbn [negb]. 
  do 2 (erewrite read_digest_spec; [|by rewrite lookup_fields|first [done|apply digest_is_digest]];
    cbn [mbind option_bind]).
  rewrite !lookup_fields. cbn [assoc String.eqb Ascii.eqb Bool.eqb].
  destruct (sorted_to_map node_entry_le (ch_nodes s)) as (N1 & N2 & N3).
  destruct (sorted_to_map committed_le (ch_committed s)) as (C1 & C2 & C3).
  rewrite read_nodes_back; [|done|intros; apply lookup_empty|].
  2: { intros [k n] Hk%N3. cbn [fst snd] in *. by destruct (S1 _ _ Hk) as (? & ? & ? & _). }
  cbn [mbind option_bind]. unfold committed_sorted. rewrite read_committed_back by (done || (intros; apply lookup_empty)).
  cbn [mbind option_bind]. rewrite N2, C2, !(right_id_L ∅ (∪)), Z.eqb_refl. cbn [negb].
  destruct (Z.eqb_spec h 0) as [Hz|_]; cbn [andb].
  - rewrite <-Hbase, Z.eqb_refl by done. cbn [negb]. by destruct s.
  - by destruct s.
Qed.

Lemma snapshot_fits h s : is_u64 h → storable_state s → json_fits (snapshot_document h s).
Proof.
  intros Hh [S1 S2 S3 S4]. unfold snapshot_document. fits_literal; try apply fits_b64; try by constructor.
  - constructor. intros item (kv & -> & Hin)%list_elem_of_fmap. destruct kv as [k n].
    apply (sorted_to_map node_entry_le (ch_nodes s)) in Hin. cbn [fst snd] in Hin.
    destruct (S1 _ _ Hin) as (_ & _ & _ & Ha). unfold snapshot_node. fits_literal; [by constructor|].
    apply fits_bytes, encode_node_bytes.
  - constructor. intros item ([k t] & -> & Hin)%list_elem_of_fmap.
    apply (sorted_to_map committed_le (ch_committed s)) in Hin. cbn [fst snd] in Hin.
    destruct (S2 _ _ Hin) as [Ha Ht]. constructor. intros item [->|[->|[]%not_elem_of_nil]%elem_of_cons]%elem_of_cons;
      by constructor.
Qed.
End entries.

(** ** File names *)

Lemma digit_char x : (x < 10)%N →
  is_digit (pretty_N_char x) = true ∧ digit_of (pretty_N_char x) = Z.of_N x.
Proof.
  intros Hx. assert (x = 0 ∨ x = 1 ∨ x = 2 ∨ x = 3 ∨ x = 4 ∨ x = 5 ∨ x = 6 ∨ x = 7 ∨ x = 8 ∨ x = 9)%N as E by lia.
  by destruct E as [->|[->|[->|[->|[->|[->|[->|[->|[->| ->]]]]]]]]].
Qed.

Lemma pretty_go_read x : ∀ s, (0 < x)%N →
  read_digits (pretty_N_go x s) None = read_digits s (Some (Z.of_N x)).
Proof.
  induction (N.lt_wf_0 x) as [x _ IH]; intros s Hx. rewrite pretty_N_go_step by done.
  destruct (digit_char (x mod 10)) as [Hd Hv]; [apply N.mod_lt; lia|].
  destruct (decide (x / 10 = 0)%N) as [Hz|Hz].
  - rewrite Hz, pretty_N_go_0. cbn [read_digits]. rewrite Hd, Hv. cbn [default]. f_equal. f_equal.
    apply N.div_small_iff in Hz; [|lia]. rewrite N.mod_small by done. cbn. lia.
  - rewrite IH; [|apply N.div_lt; lia|by apply N.neq_0_lt_0]. cbn [read_digits]. rewrite Hd, Hv. unfold default, from_option, id.
    replace (Z.of_N (x / 10) * 10 + Z.of_N (x mod 10)) with (Z.of_N x); [done|].
    rewrite N2Z.inj_div, N2Z.inj_mod. cbn. pose proof (Z.div_mod (Z.of_N x) 10 ltac:(lia)). lia.
Qed.

Lemma pretty_go_digits x : ∀ s, all_digits (pretty_N_go x s) = all_digits s.
Proof.
  induction (N.lt_wf_0 x) as [x _ IH]; intros s. destruct (decide (x = 0)%N) as [->|Hx]; [done|].
  rewrite pretty_N_go_step by lia. rewrite IH by (apply N.div_lt; lia).
  unfold all_digits. cbn. destruct (digit_char (x mod 10)) as [Hd _]; [apply N.mod_lt; lia|]. by rewrite Hd.
Qed.

(** The first digit of a positive number is not a zero. *)
Lemma pretty_go_front x : ∀ s, (0 < x)%N →
  ∃ y rest, pretty_N_go x s = String (pretty_N_char y) rest ∧ (0 < y < 10)%N.
Proof.
  induction (N.lt_wf_0 x) as [x _ IH]; intros s Hx. rewrite pretty_N_go_step by done.
  destruct (decide (x / 10 = 0)%N) as [Hz|Hz].
  - rewrite Hz, pretty_N_go_0. apply N.div_small_iff in Hz; [|lia]. rewrite N.mod_small by done. eauto.
  - apply IH; [apply N.div_lt; lia|by apply N.neq_0_lt_0].
Qed.

Lemma height_of_pretty h : is_u64 h → height_of (pretty (Z.to_N h)) = Some h.
Proof.
  intros Hh. unfold pretty, pretty_N. case_decide as Hz.
  { assert (h = 0) as -> by (unfold is_u64 in Hh; lia). done. }
  assert (Hpos : (0 < Z.to_N h)%N) by lia. unfold height_of.
  destruct (pretty_go_front (Z.to_N h) "" Hpos) as (y & rest & E & Hy).
  assert (Hne : is_empty (pretty_N_go (Z.to_N h) "") = false) by by rewrite E.
  rewrite Hne, pretty_go_digits. cbn [orb negb all_digits].
  rewrite pretty_go_read by done. cbn [read_digits mbind option_bind]. rewrite Z2N.id by (unfold is_u64 in Hh; lia).
  unfold is_u64 in Hh. rewrite (proj2 (Z.leb_gt _ _)) by lia. rewrite E.
  assert (Hp : String.prefix "0" (String (pretty_N_char y) rest) = false).
  { assert (y = 1 ∨ y = 2 ∨ y = 3 ∨ y = 4 ∨ y = 5 ∨ y = 6 ∨ y = 7 ∨ y = 8 ∨ y = 9)%N as Ey by lia.
    by destruct Ey as [->|[->|[->|[->|[->|[->|[->|[->| ->]]]]]]]]. }
  by rewrite Hp, andb_false_r.
Qed.

Lemma pretty_front h : ∃ y rest, pretty (Z.to_N h) = String (pretty_N_char y) rest ∧ (y < 10)%N.
Proof.
  unfold pretty, pretty_N. case_decide as Hz; [by exists 0%N, ""%string|].
  destruct (pretty_go_front (Z.to_N h) "") as (y & rest & E & Hy); [lia|]. exists y, rest. split; [done|lia].
Qed.

Lemma pretty_no_slash h : has_slash (pretty (Z.to_N h)) = false.
Proof.
  assert (Hd : ∀ s, all_digits s = true → has_slash s = false).
  { induction s as [|c s IH]; [done|]. unfold all_digits. cbn. intros [Hc Hs]%andb_true_iff.
    rewrite (IH Hs), orb_false_r. unfold is_digit in Hc. apply Nat.eqb_neq. intros E. by rewrite E in Hc. }
  apply Hd. unfold pretty, pretty_N. case_decide; [done|]. by rewrite pretty_go_digits.
Qed.

Lemma has_slash_app s t : has_slash (s +:+ t) = has_slash s || has_slash t.
Proof.
  induction s as [|c s IH]; [done|]. change (String c s +:+ t) with (String c (s +:+ t)).
  cbn [has_slash]. by rewrite IH, orb_assoc.
Qed.

Lemma prefix_app (s t : string) : String.prefix s (s +:+ t) = true.
Proof.
  induction s as [|c s IH]; [by destruct t|]. change (String c s +:+ t) with (String c (s +:+ t)).
  cbn [String.prefix]. by destruct (Ascii.ascii_dec c c).
Qed.

Lemma substring_app_l (s t : string) n : n = String.length s → String.substring 0 n (s +:+ t) = s.
Proof.
  intros ->. induction s as [|c s IH]; [by destruct t|]. change (String c s +:+ t) with (String c (s +:+ t)).
  cbn [String.length String.substring]. by rewrite IH.
Qed.

Lemma substring_skip_all (s t : string) n :
  (String.length t <= n)%nat → String.substring (String.length s) n (s +:+ t) = t.
Proof.
  intros Hn. induction s as [|c s IH]; [by apply substring_whole|]. exact IH.
Qed.

Lemma substring_split (s : string) : ∀ k,
  (k <= String.length s)%nat → s = String.substring 0 k s +:+ String.substring k (String.length s - k) s.
Proof.
  induction s as [|c s IH]; intros [|k] Hk; cbn [String.length] in Hk |- *; [done|lia| |].
  - symmetry. apply (substring_whole (String c s)). done.
  - change (String.substring 0 (S k) (String c s)) with (String c (String.substring 0 k s)).
    change (String.substring (S k) (S (String.length s) - S k) (String c s))
      with (String.substring k (String.length s - k) s).
    exact (f_equal (String c) (IH k ltac:(lia))).
Qed.

Lemma prefix_split (p s : string) :
  String.prefix p s = true → s = p +:+ String.substring (String.length p) (String.length s) s.
Proof.
  intros Hp. assert (∃ w, s = p +:+ w) as [w ->].
  { revert s Hp. induction p as [|c p IH]; intros s Hp; [by exists s|].
    destruct s as [|c' s]; [done|]. cbn [String.prefix] in Hp.
    destruct (Ascii.ascii_dec c c') as [<-|]; [|done]. destruct (IH s Hp) as [w ->]. by exists w. }
  rewrite substring_skip_all; [done|]. rewrite append_length. lia.
Qed.

(** Two texts with different last characters. *)
Lemma ends_differ (s t u v : string) a b :
  s +:+ String a "" = t +:+ String b "" → a = b.
Proof.
  intros E. apply (f_equal (λ s, List.last (String.list_ascii_of_string s) a)) in E. revert E.
  assert (Hl : ∀ s c d, List.last (String.list_ascii_of_string (s +:+ String c "")) d = c).
  { induction s0 as [|x s0 IH]; intros c d; [done|].
    change (String.list_ascii_of_string (String x s0 +:+ String c ""))
      with (x :: String.list_ascii_of_string (s0 +:+ String c "")).
    specialize (IH c d). destruct s0; [done|]. exact IH. }
  by rewrite !Hl.
Qed.

Section names.
Context (dir : string).

Lemma stem_of_json name :
  has_slash name = false → name ≠ ""%string →
  stem_of_path dir (dir +:+ "/" +:+ name +:+ ".json") = Some name.
Proof.
  intros Hs Hne. unfold stem_of_path. rewrite <-append_assoc', prefix_app.
  rewrite substring_skip_all by (rewrite (append_length (dir +:+ "/")); lia).
  rewrite has_slash_app, Hs. cbn [orb]. change (has_slash ".json") with false. cbn iota.
  unfold json_stem. rewrite append_length. change (String.length ".json") with 5%nat.
  replace (String.length name + 5 - 5)%nat with (String.length name) by lia.
  rewrite substring_skip_all, substring_app_l by done. rewrite String.eqb_refl.
  destruct name; [done|]. cbn [String.length]. rewrite (proj2 (Nat.ltb_lt _ _)) by lia. done.
Qed.

Lemma stem_temp path : stem_of_path dir (temp_of path) = None.
Proof.
  unfold stem_of_path. destruct (String.prefix (dir +:+ "/") (temp_of path)) eqn:Ep; [|done].
  apply prefix_split in Ep. set (name := String.substring _ _ _) in *. destruct (has_slash name); [done|].
  unfold json_stem. destruct (Nat.ltb_spec 5 (String.length name)) as [Hl|]; [|done].
  destruct (String.eqb_spec (String.substring (String.length name - 5) 5 name) ".json") as [Es|]; [|done].
  exfalso. pose proof (substring_split name (String.length name - 5) ltac:(lia)) as Hn.
  replace (String.length name - (String.length name - 5))%nat with 5%nat in Hn by lia. rewrite Es in Hn.
  set (front := String.substring 0 _ name) in *. rewrite Hn in Ep. unfold temp_of in Ep.
  change ".tmp" with (".tm" +:+ "p") in Ep. change ".json" with (".jso" +:+ "n") in Ep.
  rewrite <-!append_assoc' in Ep. by apply (ends_differ _ _ "" "") in Ep.
Qed.

Definition entry_of_path (path : string) : option Z := stem_of_path dir path ≫= entry_height.
Definition snapshot_of_path (path : string) : option Z := stem_of_path dir path ≫= snapshot_height.

Lemma not_snapshot_name h : starts_with kSnapshotPrefix (pretty (Z.to_N h)) = false.
Proof.
  destruct (pretty_front h) as (y & rest & -> & Hy). unfold starts_with, kSnapshotPrefix.
  assert (y = 0 ∨ y = 1 ∨ y = 2 ∨ y = 3 ∨ y = 4 ∨ y = 5 ∨ y = 6 ∨ y = 7 ∨ y = 8 ∨ y = 9)%N as Ey by lia.
  by destruct Ey as [->|[->|[->|[->|[->|[->|[->|[->|[->| ->]]]]]]]]].
Qed.

Lemma pretty_nonempty h : pretty (Z.to_N h) ≠ ""%string.
Proof. destruct (pretty_front h) as (y & rest & -> & _). done. Qed.

Lemma stem_of_entry h : stem_of_path dir (entry_path dir h) = Some (pretty (Z.to_N h)).
Proof. apply stem_of_json; [apply pretty_no_slash|apply pretty_nonempty]. Qed.

Lemma stem_of_snapshot h : stem_of_path dir (snapshot_path dir h) = Some (kSnapshotPrefix +:+ pretty (Z.to_N h)).
Proof.
  unfold snapshot_path. rewrite <-(append_assoc' kSnapshotPrefix). apply stem_of_json.
  - rewrite has_slash_app, pretty_no_slash. done.
  - done.
Qed.

Lemma string_drop_app (s t : string) : string_drop (String.length s) (s +:+ t) = t.
Proof. induction s as [|c s IH]; [done|]. exact IH. Qed.

Lemma entry_path_height h : is_u64 h →
  entry_of_path (entry_path dir h) = Some h ∧ snapshot_of_path (entry_path dir h) = None.
Proof.
  intros Hh. unfold entry_of_path, snapshot_of_path. rewrite stem_of_entry. cbn [mbind option_bind].
  unfold entry_height, snapshot_height. by rewrite not_snapshot_name, height_of_pretty.
Qed.

Lemma snapshot_path_height h : is_u64 h →
  snapshot_of_path (snapshot_path dir h) = Some h ∧ entry_of_path (snapshot_path dir h) = None.
Proof.
  intros Hh. unfold entry_of_path, snapshot_of_path. rewrite stem_of_snapshot. cbn [mbind option_bind].
  unfold entry_height, snapshot_height, starts_with. rewrite prefix_app, string_drop_app.
  by rewrite height_of_pretty.
Qed.

Lemma temp_path_height path : entry_of_path (temp_of path) = None ∧ snapshot_of_path (temp_of path) = None.
Proof. unfold entry_of_path, snapshot_of_path. by rewrite stem_temp. Qed.

Lemma applied_path_height : entry_of_path (applied_path dir) = None ∧ snapshot_of_path (applied_path dir) = None.
Proof.
  unfold entry_of_path, snapshot_of_path, applied_path.
  change "/applied.json" with ("/" +:+ "applied" +:+ ".json"). by rewrite stem_of_json.
Qed.

Lemma elem_of_stems (height : string → option Z) h d :
  h ∈ (list_to_set (omap height (directory_stems dir d)) : gset Z) ↔
  ∃ path, is_Some (live d !! path) ∧ stem_of_path dir path ≫= height = Some h.
Proof.
  unfold directory_stems. rewrite elem_of_list_to_set, list_elem_of_omap. split.
  - intros (stem & (path & Hp & Hs)%list_elem_of_omap & Hh). exists path. rewrite Hs. split; [|done].
    apply list_elem_of_fmap in Hp as ([q f] & -> & Hq%elem_of_map_to_list). eauto.
  - intros (path & [f Hf] & Hh). destruct (stem_of_path dir path) as [stem|] eqn:Es; [|done].
    exists stem. split; [|done]. apply list_elem_of_omap. exists path. split; [|done].
    apply list_elem_of_fmap. exists (path, f). by rewrite elem_of_map_to_list.
Qed.

Lemma elem_of_log_entries h d : h ∈ log_entries dir d ↔ ∃ path, is_Some (live d !! path) ∧ entry_of_path path = Some h.
Proof. apply elem_of_stems. Qed.

Lemma elem_of_log_snapshots h d :
  h ∈ log_snapshots dir d ↔ ∃ path, is_Some (live d !! path) ∧ snapshot_of_path path = Some h.
Proof. apply elem_of_stems. Qed.
End names.
