(* ===== verification/TreeLogTheorems.v ===== *)
(** * Theorems about the tree log

    A log that was started and extended by successful appends opens again to
    the state, the height and the applied height it had, whatever snapshots
    were written on the way. *)

From S2P Require Import Prelude SecurityPolicy CanonicalEncoding Json DurableWrite ConsensusTypes ConsensusRecords.
From S2P Require Import EligibilityStore TreeTypes LinkToken TreeRules TreeFacts TreeOps TreeValidation TreeCodec.
From S2P Require Import TreeRoundTrip TreeMergeBody TreeLog TreeLogFacts.

Section replay.
Context `{TextCodec, HexCodec, FloatText, Sodium, SodiumMessages}.

(** ** What a replayed entry says *)

Lemma run_ops_frame step ops : ∀ i s s' effects,
  (∀ op s s' e, step op s = inr (s', e) → ch_root s' = ch_root s ∧ ch_last_block_time_ms s' = ch_last_block_time_ms s) →
  run_ops step ops i s = inr (s', effects) → ch_root s' = ch_root s.
Proof.
  induction ops as [|op ops IH]; intros i s s' effects Hstep; cbn [run_ops]; [by intros [= <- _]|].
  destruct (step op s) as [|[s1 e]] eqn:E; [done|].
  destruct (run_ops step ops (S i) s1) as [|[s2 es]] eqn:Er; [done|]. intros [= <- _].
  rewrite (IH _ _ _ _ Hstep Er). by apply (Hstep _ _ _ _ E).
Qed.

Lemma step_op_frame op s s' e :
  step_op op s = inr (s', e) → ch_root s' = ch_root s ∧ ch_last_block_time_ms s' = ch_last_block_time_ms s.
Proof. unfold step_op. destruct (plan_op op (ch_nodes s)); [done|]. by intros [= <- _]. Qed.

Record replayed (state : TreeChainState) (entry : TreeLogEntry) (next : TreeChainState) : Prop := mkReplayed {
  rp_previous : lg_previous_root entry = ch_root state;
  rp_root : ch_root next = lg_state_root entry;
  rp_tree : lg_tree_digest entry = compute_tree_digest (ch_nodes next);
  rp_time : lg_block_time_ms entry = ch_last_block_time_ms next;
  rp_chained : chain_state_root (lg_previous_root entry) (lg_ops_digest entry) next = ch_root next;
}.

Lemma replay_entry_says state entry next effects :
  replay_entry state entry = inr (next, effects) → replayed state entry next.
Proof.
  unfold replay_entry. destruct (Z.eqb_spec (lg_previous_root entry) (ch_root state)) as [Hp|]; [|done].
  cbn [negb]. destruct (lg_kind entry).
  - unfold replay_batch. destruct (negb _); [done|]. destruct (decode_tree_batch _) as [batch|]; [|done].
    destruct (negb (header_agrees entry)); [done|].
    destruct (apply_certified_batch _ _ _ _) as [[]|[s1 es]] eqn:E; [done|].
    destruct (Z.eqb_spec (compute_tree_digest (ch_nodes s1)) (lg_tree_digest entry)) as [Ht|]; [|done].
    destruct (Z.eqb_spec (ch_root s1) (lg_state_root entry)) as [Hr|]; [|done]. intros [= <- _].
    rewrite apply_certified_batch_run in E. unfold run_block in E. destruct (batch_shape _ _ _); [done|].
    destruct (run_ops _ _ _ _) as [|[s0 es0]] eqn:Er; [done|]. injection E as <- _.
    apply run_ops_frame in Er; [|apply step_op_frame].
    split; [done|done|done|done|]. unfold chain_state_root, finish_block. cbn. by rewrite Hp, Er.
  - unfold replay_merge. destruct (_ || _); [done|]. destruct (negb _); [done|].
    destruct (decode_merge_body _) as [nodes|]; [|done]. destruct (_ =? 0); [done|]. cbn zeta.
    destruct (Z.eqb_spec (compute_tree_digest nodes) (lg_tree_digest entry)) as [Ht|]; [|done].
    destruct (Z.eqb_spec (chain_state_root (ch_root state) (lg_ops_digest entry)
      (mkChain nodes ∅ (lg_block_time_ms entry) 0)) (lg_state_root entry)) as [Hr|]; [|done].
    intros [= <- _]. split; try done. cbn. by rewrite Hp.
Qed.
End replay.

(** ** The log and its files *)

Section log.
Context `{TextCodecLaws, HexCodec, FloatText, Sodium, !SodiumLaws, SodiumMessages} (dir : string).
Implicit Types (d : Disk) (log : TreeLog) (base : TreeChainState)
  (history : list (TreeLogEntry * TreeChainState)).

Definition state_at base history (i : nat) : TreeChainState :=
  match i with O => base | S j => match history !! j with Some (_, s) => s | None => base end end.

Lemma write_doc_frame path doc d ok d' q :
  write_doc path doc d = (ok, d') → q ≠ path → q ≠ temp_of path → live d' !! q = live d !! q.
Proof. intros [Hs _]%write_durable_ok P1 P2. by apply (so_frame _ _ _ _ _ _ Hs). Qed.

Lemma read_doc_frame q d d' : live d' !! q = live d !! q → read_doc q d' = read_doc q d.
Proof. intros E. unfold read_doc, read_file. by rewrite E. Qed.

Lemma write_doc_some path doc d ok d' q :
  write_doc path doc d = (ok, d') → is_Some (live d' !! q) →
  is_Some (live d !! q) ∨ q = path ∨ q = temp_of path.
Proof.
  intros Hw Hq. destruct (decide (q = path)) as [->|P1]; [by right; left|].
  destruct (decide (q = temp_of path)) as [->|P2]; [by right; right|]. left.
  by rewrite <-(write_doc_frame _ _ _ _ _ _ Hw P1 P2).
Qed.

(** The document is there after a success; after a failure it is there or the
    file is as it was. *)
Lemma write_doc_read path fields d ok d' :
  json_fits (JObject fields) → write_doc path (JObject fields) d = (ok, d') →
  (ok = true → is_Some (live d' !! path) ∧ read_doc path d' = Some fields) ∧
  (live d' !! path = live d !! path ∨ read_doc path d' = Some fields).
Proof.
  intros Hf Hw. apply write_durable_ok in Hw as [Hs Hl].
  assert (Hread : ∀ b, live d' !! path = Some (mkFile (json_dump (JObject fields)) b) →
    read_doc path d' = Some fields).
  { intros b E. unfold read_doc, read_file. rewrite E. cbn. by rewrite json_round_trip. }
  split.
  - intros Hok. destruct (Hl Hok) as [E _]. split; [eauto|by eapply Hread].
  - destruct (so_live _ _ _ _ _ _ Hs) as [E|E]; [by left|right; by eapply Hread].
Qed.

(** *** The paths differ *)

Lemma entry_paths_apart h : is_u64 h →
  (∀ q, entry_path dir h ≠ temp_of q) ∧ (∀ h', is_u64 h' → entry_path dir h ≠ snapshot_path dir h') ∧
  entry_path dir h ≠ applied_path dir ∧
  (∀ h', is_u64 h' → entry_path dir h = entry_path dir h' → h = h').
Proof.
  intros Hh. destruct (entry_path_height dir h Hh) as [E _].
  split_and!.
  - intros q Eq. rewrite Eq in E. by rewrite (proj1 (temp_path_height dir q)) in E.
  - intros h' Hh' Eq. rewrite Eq in E. by rewrite (proj2 (snapshot_path_height dir h' Hh')) in E.
  - intros Eq. rewrite Eq in E. by rewrite (proj1 (applied_path_height dir)) in E.
  - intros h' Hh' Eq. rewrite Eq, (proj1 (entry_path_height dir h' Hh')) in E. congruence.
Qed.

Lemma snapshot_paths_apart h : is_u64 h →
  (∀ q, snapshot_path dir h ≠ temp_of q) ∧ snapshot_path dir h ≠ applied_path dir ∧
  (∀ h', is_u64 h' → snapshot_path dir h = snapshot_path dir h' → h = h').
Proof.
  intros Hh. destruct (snapshot_path_height dir h Hh) as [E _].
  split_and!.
  - intros q Eq. rewrite Eq in E. by rewrite (proj2 (temp_path_height dir q)) in E.
  - intros Eq. rewrite Eq in E. by rewrite (proj2 (applied_path_height dir)) in E.
  - intros h' Hh' Eq. rewrite Eq, (proj1 (snapshot_path_height dir h' Hh')) in E. congruence.
Qed.

Lemma applied_not_temp q : applied_path dir ≠ temp_of q.
Proof.
  intros Eq. assert (E : stem_of_path dir (applied_path dir) = Some "applied"%string).
  { unfold applied_path. change "/applied.json" with ("/" +:+ "applied" +:+ ".json"). by rewrite stem_of_json. }
  rewrite Eq, stem_temp in E. done.
Qed.

(** *** The invariant *)

(** [history]: the entries with the states after them. *)
Record log_ok base history log d : Prop := mkLogOk {
  lo_height : tl_height log = Z.of_nat (length history);
  lo_state : tl_state log = state_at base history (length history);
  lo_bound : Z.of_nat (length history) < two64;
  lo_chain : ∀ i e s, history !! i = Some (e, s) →
    lg_height e = Z.of_nat (S i) ∧ (∃ effects, replay_entry (state_at base history i) e = inr (s, effects)) ∧
    is_Some (live d !! entry_path dir (Z.of_nat (S i))) ∧ read_entry dir (Z.of_nat (S i)) d = Some e;
  lo_entries : ∀ path h, is_Some (live d !! path) → entry_of_path dir path = Some h →
    1 <= h <= Z.of_nat (length history);
  lo_snapshots : ∀ path h, is_Some (live d !! path) → snapshot_of_path dir path = Some h →
    ∃ i, h = Z.of_nat i ∧ (i <= length history)%nat ∧ usable_snapshot dir h d = Some (state_at base history i);
  lo_base : is_Some (live d !! snapshot_path dir 0);
  lo_applied : tl_applied_height log = read_applied dir d;
}.

Lemma log_heights base history log d i :
  log_ok base history log d → (i <= length history)%nat → is_u64 (Z.of_nat i).
Proof. intros Hok Hi. pose proof (lo_bound _ _ _ _ Hok). unfold is_u64. lia. Qed.

Lemma usable_frame h d d' :
  live d' !! entry_path dir h = live d !! entry_path dir h →
  live d' !! snapshot_path dir h = live d !! snapshot_path dir h →
  usable_snapshot dir h d' = usable_snapshot dir h d.
Proof.
  intros He Hs. unfold usable_snapshot, read_snapshot, snapshot_checks, read_entry.
  by rewrite (read_doc_frame _ _ _ He), (read_doc_frame _ _ _ Hs).
Qed.

Lemma state_at_app base history x i :
  (i <= length history)%nat → state_at base (history ++ [x]) i = state_at base history i.
Proof. destruct i as [|i]; [done|]. intros Hi. cbn [state_at]. by rewrite lookup_app_l by lia. Qed.

Lemma state_at_last base history e s :
  state_at base (history ++ [(e, s)]) (length (history ++ [(e, s)])) = s.
Proof. rewrite length_app, Nat.add_comm. cbn [length Nat.add state_at]. by rewrite list_lookup_middle. Qed.

(** The files of the log at the heights it has are as they were. *)
Definition files_kept history d d' : Prop :=
  ∀ i, (i <= length history)%nat →
    live d' !! entry_path dir (Z.of_nat i) = live d !! entry_path dir (Z.of_nat i) ∧
    live d' !! snapshot_path dir (Z.of_nat i) = live d !! snapshot_path dir (Z.of_nat i).

Lemma chain_kept base history log d d' i e s :
  log_ok base history log d → live d' !! entry_path dir (Z.of_nat (S i)) = live d !! entry_path dir (Z.of_nat (S i)) →
  history !! i = Some (e, s) →
  lg_height e = Z.of_nat (S i) ∧ (∃ effects, replay_entry (state_at base history i) e = inr (s, effects)) ∧
  is_Some (live d' !! entry_path dir (Z.of_nat (S i))) ∧ read_entry dir (Z.of_nat (S i)) d' = Some e.
Proof.
  intros Hok E Hi. destruct (lo_chain _ _ _ _ Hok i e s Hi) as (C1 & C2 & C3 & C4).
  split; [done|]. split; [done|]. split; [by rewrite E|]. unfold read_entry in *.
  by rewrite (read_doc_frame _ _ _ E).
Qed.

(** A write elsewhere keeps the log. *)
Lemma log_ok_kept base history log log' d d' :
  log_ok base history log d → tl_height log' = tl_height log → tl_state log' = tl_state log →
  files_kept history d d' →
  (∀ q, is_Some (live d' !! q) → is_Some (live d !! q) ∨
    entry_of_path dir q = None ∧ snapshot_of_path dir q = None) →
  tl_applied_height log' = read_applied dir d' → log_ok base history log' d'.
Proof.
  intros Hok Hh Hst Hkept Hback Happ.
  split; [rewrite Hh; apply Hok|rewrite Hst; apply Hok|apply Hok| | | | |done].
  - intros i e s Hi. eapply chain_kept; [done| |done]. apply Hkept. apply lookup_lt_Some in Hi. lia.
  - intros path h' Hp Ep. destruct (Hback _ Hp) as [Hd|[E _]]; [by eapply lo_entries|congruence].
  - intros path h' Hp Ep. destruct (Hback _ Hp) as [Hd|[_ E]]; [|congruence].
    destruct (lo_snapshots _ _ _ _ Hok path h' Hd Ep) as (i & -> & Hi & Hus). exists i.
    split; [done|]. split; [done|]. destruct (Hkept i Hi) as [E1 E2]. by rewrite (usable_frame _ _ _ E1 E2).
  - destruct (Hkept 0%nat ltac:(lia)) as [_ E]. change (Z.of_nat 0) with 0 in E. rewrite E. apply Hok.
Qed.

Lemma log_ok_applied base history log d doc h d' :
  log_ok base history log d → json_fits (JObject doc) → format_ok doc = true → read_u64 doc "height" = Some h →
  write_doc (applied_path dir) (JObject doc) d = (true, d') →
  log_ok base history (log <| tl_applied_height := h |>) d'.
Proof.
  intros Hok Hf Hfmt Hh Hw. apply (log_ok_kept base history log _ d); [done..| | |].
  - intros i Hi. assert (Hui := log_heights _ _ _ _ i Hok Hi).
    destruct (entry_paths_apart _ Hui) as (E1 & _ & E3 & _).
    destruct (snapshot_paths_apart _ Hui) as (F1 & F2 & _).
    by split; apply (write_doc_frame _ _ _ _ _ _ Hw).
  - intros q Hq. destruct (write_doc_some _ _ _ _ _ _ Hw Hq) as [?|[->| ->]]; [by left|right..].
    + apply applied_path_height.
    + apply temp_path_height.
  - cbn [tl_applied_height]. unfold read_applied.
    destruct (write_doc_read _ _ _ _ _ Hf Hw) as [Hr _]. destruct (Hr eq_refl) as [_ ->].
    by rewrite Hfmt, Hh.
Qed.

Lemma read_applied_kept d d' :
  live d' !! applied_path dir = live d !! applied_path dir → read_applied dir d' = read_applied dir d.
Proof. intros E. unfold read_applied. by rewrite (read_doc_frame _ _ _ E). Qed.

(** A snapshot of the last state is usable: it agrees with the last entry. *)
Lemma written_snapshot_usable base history e s log d d' fields :
  let full := history ++ [(e, s)] in let h := Z.of_nat (length full) in
  log_ok base full log d → storable_state s → snapshot_document h s = JObject fields →
  live d' !! entry_path dir h = live d !! entry_path dir h →
  read_doc (snapshot_path dir h) d' = Some fields → usable_snapshot dir h d' = Some s.
Proof.
  intros full h Hok Hs Ed Hentry Hr. unfold usable_snapshot, read_snapshot. rewrite Hr. cbn [mbind option_bind].
  assert (Hh : h = Z.of_nat (S (length history))) by (unfold h, full; rewrite length_app; cbn; lia).
  pose proof (snapshot_round_trip h s Hs) as Hrt. rewrite Ed in Hrt. rewrite Hrt by lia. cbn [mbind option_bind].
  rewrite Hh in Hentry.
  destruct (chain_kept base full log d d' (length history) e s Hok Hentry) as (_ & (es & C2) & _ & C4).
  { by apply list_lookup_middle. }
  apply replay_entry_says in C2 as [R1 R2 R3 R4 R5].
  assert (Hchk : snapshot_checks dir h s d' = true).
  { unfold snapshot_checks. rewrite Hh, C4. by rewrite R2, R3, R4, R5, R2, !Z.eqb_refl. }
  by rewrite Hchk, andb_false_r.
Qed.

(** It keeps the log, whether the write succeeds or not. *)
Lemma log_ok_snapshot base history e s log d ok d' :
  log_ok base (history ++ [(e, s)]) log d → storable_state s →
  write_snapshot dir (Z.of_nat (length (history ++ [(e, s)]))) s d = (ok, d') →
  log_ok base (history ++ [(e, s)]) log d'.
Proof.
  set (full := history ++ [(e, s)]). set (h := Z.of_nat (length full)). intros Hok Hs Hw.
  assert (Hlen : length full = S (length history)) by (unfold full; rewrite length_app; cbn; lia).
  assert (Huh : is_u64 h) by (by apply (log_heights _ _ _ _ (length full) Hok)).
  unfold write_snapshot in Hw. destruct (snapshot_document h s) as [| | | | | | | |fields] eqn:Ed; try done.
  assert (Hf : json_fits (JObject fields)) by (rewrite <-Ed; by apply snapshot_fits).
  destruct (snapshot_paths_apart h Huh) as (F1 & F2 & F3).
  assert (Hentry : ∀ i, (i <= length full)%nat →
    live d' !! entry_path dir (Z.of_nat i) = live d !! entry_path dir (Z.of_nat i)).
  { intros i Hi. assert (Hui := log_heights _ _ _ _ i Hok Hi).
    destruct (entry_paths_apart _ Hui) as (E1 & E2 & _). by apply (write_doc_frame _ _ _ _ _ _ Hw); auto. }
  assert (Hother : ∀ i, (i < length full)%nat →
    live d' !! snapshot_path dir (Z.of_nat i) = live d !! snapshot_path dir (Z.of_nat i)).
  { intros i Hi. assert (Hui := log_heights _ _ _ _ i Hok ltac:(lia)).
    destruct (snapshot_paths_apart _ Hui) as (E1 & _ & E3). apply (write_doc_frame _ _ _ _ _ _ Hw); [|done].
    intros Eq. apply E3 in Eq; [|done]. unfold h in Eq. lia. }
  destruct (write_doc_read _ _ _ _ _ Hf Hw) as [_ Hread].
  assert (Hus : read_doc (snapshot_path dir h) d' = Some fields →
    usable_snapshot dir h d' = Some (state_at base full (length full))).
  { intros Hr. unfold full. rewrite state_at_last. by eapply written_snapshot_usable; [done..|apply Hentry|]. }
  split; [apply Hok|apply Hok|apply Hok| | | | |].
  - intros i e' s' Hi. eapply chain_kept; [done| |done]. apply Hentry. apply lookup_lt_Some in Hi. lia.
  - intros path h' Hp Ep. destruct (write_doc_some _ _ _ _ _ _ Hw Hp) as [Hd|[->| ->]]; [by eapply lo_entries| |].
    + by rewrite (proj2 (snapshot_path_height dir h Huh)) in Ep.
    + by rewrite (proj1 (temp_path_height dir _)) in Ep.
  - intros path h' Hp Ep.
    assert (Hcase : is_Some (live d !! path) ∨ h' = h ∧ read_doc (snapshot_path dir h) d' = Some fields).
    { destruct (write_doc_some _ _ _ _ _ _ Hw Hp) as [Hd|[->| ->]]; [by left| |].
      - rewrite (proj1 (snapshot_path_height dir h Huh)) in Ep. injection Ep as <-.
        destruct Hread as [Hsame|Hr]; [left; by rewrite <-Hsame|by right].
      - by rewrite (proj2 (temp_path_height dir _)) in Ep. }
    destruct Hcase as [Hd|[-> Hr]]; [|by exists (length full); auto].
    destruct (lo_snapshots _ _ _ _ Hok path h' Hd Ep) as (i & -> & Hi & Hu). exists i.
    split; [done|]. split; [done|]. rewrite <-Hu.
    destruct (decide (i = length full)) as [->|Hil]; [|apply usable_frame; [by apply Hentry|apply Hother; lia]].
    destruct Hread as [Hsame|Hr]; [by apply usable_frame; [apply Hentry|]|].
    rewrite Hu. by apply Hus.
  - pose proof (Hother 0%nat ltac:(lia)) as E. change (Z.of_nat 0) with 0 in E. rewrite E. apply Hok.
  - rewrite (lo_applied _ _ _ _ Hok). symmetry. apply read_applied_kept.
    apply (write_doc_frame _ _ _ _ _ _ Hw); [done|apply applied_not_temp].
Qed.

(** *** Starting and appending *)

Lemma log_ok_entry base history log d e s effects d' :
  log_ok base history log d → storable_entry e → lg_height e = tl_height log + 1 → is_u64 (tl_height log + 1) →
  replay_entry (tl_state log) e = inr (s, effects) →
  write_doc (entry_path dir (lg_height e)) (tree_log_entry_to_json e) d = (true, d') →
  log_ok base (history ++ [(e, s)]) (log <| tl_state := s |> <| tl_height := lg_height e |>) d'.
Proof.
  intros Hok He Hh Hu Hr Hw. set (full := history ++ [(e, s)]).
  assert (Hlen : length full = S (length history)) by (unfold full; rewrite length_app; cbn; lia).
  pose proof (lo_height _ _ _ _ Hok) as Hlh.
  assert (Hhs : lg_height e = Z.of_nat (S (length history))) by lia.
  assert (Hue : is_u64 (lg_height e)) by by rewrite Hh.
  destruct (entry_paths_apart _ Hue) as (E1 & E2 & E3 & E4).
  assert (Hkept : files_kept history d d').
  { intros i Hi. assert (Hui := log_heights _ _ _ _ i Hok Hi).
    destruct (entry_paths_apart _ Hui) as (G1 & _ & _ & G4), (snapshot_paths_apart _ Hui) as (F1 & _).
    split; apply (write_doc_frame _ _ _ _ _ _ Hw); auto.
    - intros Eq. apply G4 in Eq; [lia|done].
    - intros Eq. symmetry in Eq. by apply E2 in Eq. }
  destruct (write_doc_read _ _ _ _ _ (entry_fits e He) Hw) as [Hread _].
  destruct (Hread eq_refl) as [Hlive Hdoc].
  split; cbn [tl_height tl_state tl_applied_height].
  - by rewrite Hlen.
  - unfold full. by rewrite state_at_last.
  - rewrite Hlen. unfold is_u64 in Hu. lia.
  - intros i e' s' Hi. destruct (decide (i = length history)) as [->|Hne].
    + unfold full in Hi. rewrite list_lookup_middle in Hi by done. injection Hi as <- <-.
      rewrite <-Hhs. split; [done|]. split.
      * exists effects. unfold full. rewrite state_at_app by done. by rewrite <-(lo_state _ _ _ _ Hok).
      * split; [done|]. unfold read_entry. rewrite Hdoc. cbn [mbind option_bind]. by apply entry_round_trip.
    + assert (Hil : (i < length history)%nat) by (apply lookup_lt_Some in Hi; lia).
      unfold full in Hi |- *. rewrite lookup_app_l in Hi by done. rewrite state_at_app by lia.
      eapply chain_kept; [done| |done]. apply Hkept. lia.
  - intros path h Hp Ep. destruct (write_doc_some _ _ _ _ _ _ Hw Hp) as [Hd|[->| ->]].
    + pose proof (lo_entries _ _ _ _ Hok path h Hd Ep). lia.
    + rewrite (proj1 (entry_path_height dir _ Hue)) in Ep. injection Ep as <-. lia.
    + by rewrite (proj1 (temp_path_height dir _)) in Ep.
  - intros path h Hp Ep. destruct (write_doc_some _ _ _ _ _ _ Hw Hp) as [Hd|[->| ->]].
    + destruct (lo_snapshots _ _ _ _ Hok path h Hd Ep) as (i & -> & Hi & Hus). exists i. split; [done|].
      split; [lia|]. unfold full. rewrite state_at_app by done. destruct (Hkept i Hi) as [K1 K2].
      by rewrite (usable_frame _ _ _ K1 K2).
    + by rewrite (proj2 (entry_path_height dir _ Hue)) in Ep.
    + by rewrite (proj2 (temp_path_height dir _)) in Ep.
  - destruct (Hkept 0%nat ltac:(lia)) as [_ E]. change (Z.of_nat 0) with 0 in E. rewrite E. apply Hok.
  - change (tl_applied_height log = read_applied dir d').
    rewrite (lo_applied _ _ _ _ Hok). symmetry. apply read_applied_kept.
    apply (write_doc_frame _ _ _ _ _ _ Hw); [congruence|apply applied_not_temp].
Qed.

(** One successful [append] of an entry that replays. *)
Lemma log_append_ok base history log d e s effects log' d' :
  log_ok base history log d → storable_entry e → storable_state s → is_u64 (tl_height log + 1) →
  replay_entry (tl_state log) e = inr (s, effects) → log_append dir e s log d = (true, log', d') →
  log_ok base (history ++ [(e, s)]) log' d'.
Proof.
  intros Hok He Hs Hu Hr. unfold log_append.
  destruct (Z.eqb_spec (lg_height e) (tl_height log +64 1)) as [Hh|]; [|done].
  rewrite u64_add_small in Hh by exact Hu. cbn [negb orb].
  destruct (negb _ || negb _ || _); [done|].
  destruct (write_doc _ _ d) as [ok d1] eqn:Ew. destruct ok; [|done]. cbn [negb].
  intros [= <- <-]. pose proof (log_ok_entry base history log d e s effects d1 Hok He Hh Hu Hr Ew) as Hok1.
  case_match; [|done]. destruct (write_snapshot dir (lg_height e) s d1) as [ok d2] eqn:Es. cbn [snd].
  eapply log_ok_snapshot; [exact Hok1|done|].
  rewrite length_app. cbn [length]. pose proof (lo_height _ _ _ _ Hok) as Hl.
  replace (Z.of_nat (length history + 1)) with (lg_height e) by lia. exact Es.
Qed.

Definition base_state (nodes : NodeMap) : TreeChainState :=
  mkChain nodes ∅ 0 (base_state_root (compute_tree_digest nodes)).

Lemma log_start_ok nodes log0 d log d' :
  log_entries dir d = ∅ → log_snapshots dir d = ∅ → storable_state (base_state nodes) →
  start_log dir nodes log0 d = (OpenOk, log, d') → log_ok (base_state nodes) [] log d'.
Proof.
  intros Hne Hns Hs. unfold start_log. fold (base_state nodes). cbn zeta.
  destruct (write_snapshot dir 0 (base_state nodes) d) as [ok d1] eqn:Ew. destruct ok; [|done]. cbn [negb].
  unfold write_snapshot in Ew.
  destruct (snapshot_document 0 (base_state nodes)) as [| | | | | | | |fields] eqn:Ed; try done.
  assert (Hu0 : is_u64 0) by (unfold is_u64, two64; lia).
  assert (Hf : json_fits (JObject fields)) by (rewrite <-Ed; by apply snapshot_fits).
  destruct (write_doc_read _ _ _ _ _ Hf Ew) as [Hread _]. destruct (Hread eq_refl) as [Hlive Hdoc].
  set (log1 := log0 <| tl_state := base_state nodes |> <| tl_height := 0 |> <| tl_applied_height := read_applied dir d1 |>).
  assert (Hok1 : log_ok (base_state nodes) [] log1 d1).
  { split; cbn [tl_height tl_state tl_applied_height length]; try done.
    - intros path h Hp Ep. destruct (write_doc_some _ _ _ _ _ _ Ew Hp) as [Hd|[->| ->]].
      + assert (Hin : h ∈ log_entries dir d) by (apply elem_of_log_entries; eauto). rewrite Hne in Hin. set_solver.
      + by rewrite (proj2 (snapshot_path_height dir 0 Hu0)) in Ep.
      + by rewrite (proj1 (temp_path_height dir _)) in Ep.
    - intros path h Hp Ep. destruct (write_doc_some _ _ _ _ _ _ Ew Hp) as [Hd|[->| ->]].
      + assert (Hin : h ∈ log_snapshots dir d) by (apply elem_of_log_snapshots; eauto). rewrite Hns in Hin. set_solver.
      + rewrite (proj1 (snapshot_path_height dir 0 Hu0)) in Ep. injection Ep as <-. exists 0%nat.
        split; [done|]. split; [done|]. unfold usable_snapshot, read_snapshot. rewrite Hdoc. cbn [mbind option_bind].
        pose proof (snapshot_round_trip 0 _ Hs (λ _, eq_refl)) as Hrt. rewrite Ed in Hrt. by rewrite Hrt.
      + by rewrite (proj2 (temp_path_height dir _)) in Ep. }
  unfold mark_applied. destruct (write_doc (applied_path dir) _ d1) as [ok2 d2] eqn:Ea. destruct ok2; [|done].
  intros [= <- <-]. unfold object in Ea.
  eapply (log_ok_applied _ _ log1 d1) in Ea; [exact Ea|done| | |].
  - fits_literal; by constructor.
  - apply format_of. by rewrite lookup_fields.
  - by erewrite read_u64_spec by by rewrite lookup_fields.
Qed.

(** *** Opening *)

Lemma log_ok_live base history log d d' : live d' = live d → log_ok base history log d → log_ok base history log d'.
Proof.
  intros E Hok. apply (log_ok_kept base history log log d); [done..| | |].
  - intros i _. by rewrite E.
  - intros q. rewrite E. auto.
  - rewrite (lo_applied _ _ _ _ Hok). symmetry. apply read_applied_kept. by rewrite E.
Qed.

Lemma log_ok_entry_set base history log d h :
  log_ok base history log d → h ∈ log_entries dir d ↔ 1 <= h <= Z.of_nat (length history).
Proof.
  intros Hok. rewrite elem_of_log_entries. split.
  - intros (path & Hp & Ep). by eapply lo_entries.
  - intros Hh. destruct (lookup_lt_is_Some_2 history (Z.to_nat h - 1)) as [[e s] Hi]; [lia|].
    destruct (lo_chain _ _ _ _ Hok _ e s Hi) as (_ & _ & Hl & _).
    replace (Z.of_nat (S (Z.to_nat h - 1))) with h in Hl by lia. exists (entry_path dir h). split; [done|].
    apply entry_path_height. pose proof (lo_bound _ _ _ _ Hok). unfold is_u64. lia.
Qed.

Lemma max_of_elements (l : list Z) n :
  (∀ h, h ∈ l → h <= n) → 0 <= n → (n = 0 ∨ n ∈ l) → foldr Z.max 0 l = n.
Proof.
  intros Hle Hn Hin.
  assert (Hub : foldr Z.max 0 l <= n).
  { clear Hin. induction l as [|x l IH]; cbn; [done|]. pose proof (Hle x ltac:(by left)).
    specialize (IH ltac:(intros h Hh; apply Hle; by right)). lia. }
  assert (Hlb : ∀ h, h ∈ l → h <= foldr Z.max 0 l).
  { clear. induction l as [|x l IH]; cbn; [by intros h ?%not_elem_of_nil|].
    intros h [->|Hh]%elem_of_cons; [lia|]. specialize (IH h Hh). lia. }
  assert (Hz : 0 <= foldr Z.max 0 l) by (clear; induction l; cbn; lia).
  destruct Hin as [->|Hin]; [lia|]. specialize (Hlb n Hin). lia.
Qed.

Lemma replay_from base history log d : ∀ fuel i log1,
  log_ok base history log d → (i <= length history)%nat → (length history - i < fuel)%nat →
  tl_state log1 = state_at base history i → tl_height log1 = Z.of_nat i →
  replay_entries dir fuel (log_entries dir d) (Z.of_nat i + 1) (Z.of_nat (length history)) log1 d =
  (OpenOk, log1 <| tl_state := tl_state log |> <| tl_height := tl_height log |>).
Proof.
  induction fuel as [|fuel IH]; intros i log1 Hok Hi Hf Hst Hh; [lia|]. cbn [replay_entries].
  destruct (decide (i = length history)) as [->|Hne].
  - rewrite (proj2 (Z.ltb_lt _ _)) by lia. rewrite (lo_state _ _ _ _ Hok), (lo_height _ _ _ _ Hok).
    rewrite <-Hst, <-Hh. by destruct log1.
  - rewrite (proj2 (Z.ltb_ge _ _)) by lia.
    rewrite bool_decide_eq_true_2 by (apply (log_ok_entry_set _ _ _ _ _ Hok); lia). cbn [negb].
    destruct (lookup_lt_is_Some_2 history i) as [[e s] Hl]; [lia|].
    destruct (lo_chain _ _ _ _ Hok i e s Hl) as (C1 & (es & C2) & _ & C4).
    replace (Z.of_nat i + 1) with (Z.of_nat (S i)) by lia. rewrite C4, C1, Z.eqb_refl, Hst, C2. cbn [negb].
    replace (Z.of_nat (S i) + 1) with (Z.of_nat (S i) + 1) by lia.
    rewrite (IH (S i)); [by destruct log1|done|lia|lia| |done].
    cbn [state_at]. by rewrite Hl.
Qed.

Lemma open_reads_back base history log log0 nodes d :
  log_ok base history log d → willing 2 d → ∃ d', log_open dir nodes log0 d = (OpenOk, log, d').
Proof.
  intros Hok Hw. unfold log_open. destruct (willing_succeeds _ _ Hw) as (d1 & -> & Hw1 & E1). cbn [negb].
  destruct (willing_succeeds _ _ Hw1) as (d2 & -> & _ & E2). cbn [negb].
  assert (Hok2 : log_ok base history log d2) by (eapply log_ok_live; [|exact Hok]; congruence).
  clear Hok. assert (Hin : 0 ∈ log_snapshots dir d2).
  { apply elem_of_log_snapshots. exists (snapshot_path dir 0). split; [apply Hok2|].
    apply snapshot_path_height. unfold is_u64, two64. lia. }
  rewrite (bool_decide_eq_false_2 (log_snapshots dir d2 = ∅)) by set_solver. rewrite andb_false_r.
  unfold load_log. set (hs := merge_sort z_desc (elements (log_snapshots dir d2))).
  assert (Hhs : ∀ h, h ∈ hs ↔ h ∈ log_snapshots dir d2).
  { intros h. unfold hs. by rewrite merge_sort_Permutation, elem_of_elements. }
  destruct hs as [|h hs]; [by apply Hhs, not_elem_of_nil in Hin|].
  assert (Hh : h ∈ log_snapshots dir d2) by (apply Hhs; by left).
  apply elem_of_log_snapshots in Hh as (path & Hp & Ep).
  destruct (lo_snapshots _ _ _ _ Hok2 path h Hp Ep) as (i & -> & Hi & Hus). cbn [newest_snapshot]. rewrite Hus.
  assert (Hlast : foldr Z.max 0 (elements (log_entries dir d2)) = Z.of_nat (length history)).
  { apply max_of_elements; [|lia|].
    - intros h Hh%elem_of_elements%(log_ok_entry_set _ _ _ _ _ Hok2). lia.
    - destruct (length history) eqn:El; [by left|]. right. apply elem_of_elements.
      apply (log_ok_entry_set _ _ _ _ _ Hok2). lia. }
  assert (Hsize : (length history <= size (log_entries dir d2))%nat).
  { assert (Hn : length (Z.of_nat <$> seq 1 (length history)) = length history)
      by by rewrite length_fmap, length_seq.
    rewrite <-Hn, <-(size_list_to_set (C := gset Z) (Z.of_nat <$> seq 1 (length history))).
    - apply subseteq_size. intros x (k & -> & Hk)%elem_of_list_to_set%list_elem_of_fmap.
      apply elem_of_seq in Hk. apply (log_ok_entry_set _ _ _ _ _ Hok2). lia.
    - apply NoDup_fmap; [apply _|apply NoDup_seq]. }
  rewrite Hlast, (replay_from base history log d2 _ i); [|done|done|lia|done|done].
  eexists. f_equal. f_equal. pose proof (lo_applied _ _ _ _ Hok2) as Ha. destruct log. cbn in Ha |- *. by rewrite <-Ha.
Qed.

(** *** Runs *)

(** A log that was started in a directory without one and extended by
    successful calls. *)
Inductive grown (nodes : NodeMap) : TreeLog → Disk → Prop :=
  | grown_start log0 d log d' :
      log_entries dir d = ∅ → log_snapshots dir d = ∅ → storable_state (base_state nodes) →
      log_open dir nodes log0 d = (OpenOk, log, d') → grown nodes log d'
  | grown_append log d e s effects log' d' :
      grown nodes log d → storable_entry e → storable_state s → is_u64 (tl_height log + 1) →
      replay_entry (tl_state log) e = inr (s, effects) → log_append dir e s log d = (true, log', d') →
      grown nodes log' d'
  | grown_applied log d h log' d' :
      grown nodes log d → is_u64 h → mark_applied dir h log d = (true, log', d') → grown nodes log' d'.

Lemma grown_ok nodes log d : grown nodes log d → ∃ history, log_ok (base_state nodes) history log d.
Proof.
  induction 1 as [log0 d log d' Hne Hns Hs Ho|log d e s effects log' d' _ [history Hok] He Hs Hu Hr Ha
    |log d h log' d' _ [history Hok] Hh Hm].
  - exists []. unfold log_open in Ho. destruct (succeeds d) as [ok1 d1] eqn:E1. destruct ok1; [|done].
    cbn [negb] in Ho. destruct (succeeds d1) as [ok2 d2] eqn:E2. destruct ok2; [|done]. cbn [negb] in Ho.
    apply succeeds_frame in E1 as (L1 & _), E2 as (L2 & _).
    assert (Hl : live d2 = live d) by congruence.
    assert (He2 : log_entries dir d2 = ∅) by (rewrite <-Hne; unfold log_entries, directory_stems; by rewrite Hl).
    assert (Hs2 : log_snapshots dir d2 = ∅) by (rewrite <-Hns; unfold log_snapshots, directory_stems; by rewrite Hl).
    rewrite He2, Hs2, !bool_decide_eq_true_2 in Ho by done. cbn [andb] in Ho.
    by eapply log_start_ok in Ho.
  - eexists. by eapply log_append_ok.
  - exists history. unfold mark_applied in Hm. destruct (write_doc _ _ d) as [ok d1] eqn:Ew. destruct ok; [|done].
    injection Hm as <- <-. unfold object in Ew. eapply log_ok_applied in Ew; [exact Ew|done| | |].
    + fits_literal; constructor; [unfold is_u64, two64, kTreeLogFormatVersion; lia|done].
    + apply format_of. by rewrite lookup_fields.
    + by erewrite read_u64_spec by by rewrite lookup_fields.
Qed.

(** C32: The log reads itself back. A log that was started in an empty directory
    and extended by successful appends of entries that replay, with or without
    snapshots, opens again, from any program state, to the same tree state, log
    height and applied height. *)
Theorem log_reopens nodes log d log0 nodes' :
  grown nodes log d → willing 2 d → ∃ d', log_open dir nodes' log0 d = (OpenOk, log, d').
Proof. intros [history Hok]%grown_ok Hw. by eapply open_reads_back. Qed.
End log.
