(* ===== verification/TreeMergeCommitTheorems.v ===== *)
(** * Theorems about the merge commit

    A signed merge entry passes the check of every server and installs exactly
    the merged tree; it does so on the empty base only; and what an entry
    installs is fixed by the bytes that the root key signs. *)

From S2P Require Import Prelude SecurityPolicy CanonicalEncoding Json DurableWrite ConsensusTypes ConsensusRecords.
From S2P Require Import FileStorage EligibilityStore TestCodec EligibilityServiceTheorems.
From S2P Require Import TreeTypes LinkToken TreeRules TreeOps TreeValidation TreeCodec.
From S2P Require Import TreeRoundTrip TreeReplay TreeMergeBody TreeLog TreeLogFacts TreeLogTheorems.

Section commit.
Context `{TextCodecLaws, HexCodec, !HexCodecLaws, FloatText, Sodium, !SodiumLaws, SodiumMessages}.

Definition empty_base : TreeChainState := mkChain ∅ ∅ 0 empty_base_root.

(** ** One shot *)

Lemma merge_replay_inv state entry next effects :
  lg_kind entry = EntryMerge → replay_entry state entry = inr (next, effects) →
  state = empty_base ∧ lg_height entry = 1 ∧ lg_block_time_ms entry ≠ 0 ∧ effects = [] ∧
  merge_body_digest (lg_batch entry) = lg_ops_digest entry ∧
  ∃ nodes, decode_merge_body (lg_batch entry) = Some nodes ∧
    next = mkChain nodes ∅ (lg_block_time_ms entry) (lg_state_root entry).
Proof.
  intros Hk. unfold replay_entry. rewrite Hk. destruct (Z.eqb_spec (lg_previous_root entry) (ch_root state)); [|done].
  cbn [negb]. unfold replay_merge.
  destruct (Z.eqb_spec (lg_height entry) 1) as [R1|]; [|done].
  destruct (Z.eqb_spec (ch_root state) empty_base_root) as [R2|]; [|done].
  case_bool_decide as R3; [|done]. case_bool_decide as R4; [|done].
  destruct (Z.eqb_spec (ch_last_block_time_ms state) 0) as [R5|]; [|done]. cbn [negb orb].
  destruct (Z.eqb_spec (merge_body_digest (lg_batch entry)) (lg_ops_digest entry)) as [R6|]; [|done]. cbn [negb].
  destruct (decode_merge_body (lg_batch entry)) as [nodes|]; [|done].
  destruct (Z.eqb_spec (lg_block_time_ms entry) 0) as [|R7]; [done|]. cbn zeta.
  destruct (negb (compute_tree_digest nodes =? lg_tree_digest entry)); [done|]. cbn [orb].
  destruct (Z.eqb_spec (chain_state_root (ch_root state) (lg_ops_digest entry)
    (mkChain nodes ∅ (lg_block_time_ms entry) 0)) (lg_state_root entry)) as [R8|]; [|done].
  intros [= <- <-]. destruct state. cbn in *. subst. split_and!; try done.
  - unfold empty_base. by rewrite <-R2.
  - eexists. split; [done|]. by rewrite R8.
Qed.

(** ** What the signature covers *)

(** The fields of the preimage are within their types. *)
Lemma preimage_fits entry network n :
  storable_entry entry → is_u64 n →
  json_fits (object [("type", JString kTreeMergePreimageType); ("network_id", hex_of 32 network);
    ("height", JUnsigned (lg_height entry)); ("block_time_ms", JUnsigned (lg_block_time_ms entry));
    ("previous_root", b64 32 (lg_previous_root entry)); ("merge_digest", b64 32 (lg_ops_digest entry));
    ("tree_digest", b64 32 (lg_tree_digest entry)); ("state_root", b64 32 (lg_state_root entry));
    ("node_count", JUnsigned n)]).
Proof.
  intros [E1 E2 E3 E4 E5 E6 E7 E8] Hn. fits_literal; try apply fits_b64; try apply fits_hex; try by constructor.
  constructor. by apply ascii_literal.
Qed.

Lemma b64_inj a b : is_digest a → is_digest b → b64 32 a = b64 32 b → a = b.
Proof.
  intros Ha Hb E. injection E as E. apply (f_equal (sodium_base642bin VariantOriginal)) in E.
  unfold to_base64 in E. rewrite !base64_round_trip in E by apply be_bytes_are_bytes. apply (inj Some) in E.
  apply (f_equal be_value) in E. by rewrite !be_value_bytes in E.
Qed.

Lemma preimage_inj entry entry' network network' n n' :
  storable_entry entry → storable_entry entry' → is_u64 n → is_u64 n' →
  merge_preimage entry network n = merge_preimage entry' network' n' →
  lg_block_time_ms entry = lg_block_time_ms entry' ∧ lg_ops_digest entry = lg_ops_digest entry' ∧
  lg_state_root entry = lg_state_root entry'.
Proof.
  intros S S' Hn Hn' E. unfold merge_preimage in E. apply (f_equal json_parse) in E.
  rewrite !json_round_trip in E by by apply preimage_fits.
  unfold object in E.
  assert (Hf : ∀ key l l', (Some (JObject (list_to_map l)) = Some (JObject (list_to_map l'))) →
    assoc key l = assoc key l').
  { intros key l l' El. injection El as El. by rewrite <-!lookup_fields, El. }
  pose proof (Hf "block_time_ms"%string _ _ E) as F1. pose proof (Hf "merge_digest"%string _ _ E) as F2.
  pose proof (Hf "state_root"%string _ _ E) as F3. clear Hf E.
  cbn [assoc String.eqb Ascii.eqb Bool.eqb] in F1, F2, F3.
  injection F1 as F1. split; [done|]. split; apply b64_inj; try apply S; try apply S'; congruence.
Qed.

(** The hash does not map two different inputs to one digest. *)
Definition no_collision (a b : list Z) : Prop := crypto_hash_sha256 a = crypto_hash_sha256 b → a = b.

Definition body_encoding (body : list Z) : list Z := add_bytes (new_encoder kTreeMergeBodyDomain) body.

Lemma body_encoding_inj body body' :
  bytes_of body <= kMaxTreeMergeBodyBytes → bytes_of body' <= kMaxTreeMergeBodyBytes →
  body_encoding body = body_encoding body' → body = body'.
Proof.
  intros Hb Hb'. unfold body_encoding. rewrite !add_bytes_app. intros E%app_inv_head.
  unfold field_bytes, put_length_prefixed in E. cbn [app] in E.
  apply app_inj_1 in E as [_ E]; [done|]. by rewrite !length_le_bytes.
Qed.

(** A merge entry takes effect once, and its signature covers its whole
    effect: an entry of kind merge replays only at height 1 on the empty base,
    and two entries with the same signed bytes that replay leave the same state
    (nodes, committed ids, block time and root), unless their bodies collide
    under SHA-256. *)
Theorem merge_commit_fixed_by_signature state state' entry entry' network network' n n' next next' effects effects' :
  storable_entry entry → storable_entry entry' → is_u64 n → is_u64 n' →
  lg_kind entry = EntryMerge → lg_kind entry' = EntryMerge →
  no_collision (body_encoding (lg_batch entry)) (body_encoding (lg_batch entry')) →
  merge_preimage entry network n = merge_preimage entry' network' n' →
  replay_entry state entry = inr (next, effects) → replay_entry state' entry' = inr (next', effects') →
  state = empty_base ∧ state' = empty_base ∧ lg_height entry = 1 ∧ next = next'.
Proof.
  intros S S' Hn Hn' Hk Hk' Hcol Hpre Hr Hr'.
  apply merge_replay_inv in Hr as (-> & Hh & _ & _ & Hd & nodes & Hdec & ->); [|done].
  apply merge_replay_inv in Hr' as (-> & _ & _ & _ & Hd' & nodes' & Hdec' & ->); [|done].
  destruct (preimage_inj _ _ _ _ _ _ S S' Hn Hn' Hpre) as (Ht & Ho & Hs).
  split; [done|]. split; [done|]. split; [done|].
  assert (Hbody : lg_batch entry = lg_batch entry').
  { unfold decode_merge_body in Hdec, Hdec'.
    destruct (Z.ltb_spec kMaxTreeMergeBodyBytes (bytes_of (lg_batch entry))); [done|].
    destruct (Z.ltb_spec kMaxTreeMergeBodyBytes (bytes_of (lg_batch entry'))); [done|].
    apply body_encoding_inj; [done..|]. apply Hcol. unfold merge_body_digest, digest in Hd, Hd'.
    unfold body_encoding. congruence. }
  rewrite Hbody in Hdec. rewrite Hdec in Hdec'. injection Hdec' as <-. by rewrite Ht, Hs.
Qed.

(** ** The ceremony *)

Lemma principal_key_of key : is_digest key → principal_key (principal_of key) = Some key.
Proof.
  intros Hk. unfold principal_key, principal_of, starts_with. rewrite prefix_app, string_drop_app. cbn [negb].
  unfold from_base64, to_base64. rewrite base64_round_trip by apply be_bytes_are_bytes. cbn [mbind option_bind].
  rewrite bool_decide_eq_true_2 by apply length_be_bytes. by rewrite be_value_bytes.
Qed.

Lemma built_entry_replays nodes t network root_key entry sig :
  carried_tree nodes → t ≠ 0 → build_merge_entry nodes t network root_key = Some entry →
  replay_entry empty_base (attach_merge_signature entry sig)
  = inr (mkChain nodes ∅ t (lg_state_root entry), []).
Proof.
  intros Hc Ht. unfold build_merge_entry. destruct (encode_merge_body nodes) as [body|] eqn:Eb; [|done].
  cbn [mbind option_bind]. intros [= <-]. cbn [lg_state_root]. set (e := attach_merge_signature _ sig).
  assert (Hf : lg_kind e = EntryMerge ∧ lg_height e = 1 ∧ lg_block_time_ms e = t ∧ lg_batch e = body ∧
    lg_previous_root e = empty_base_root ∧ lg_ops_digest e = merge_body_digest body ∧
    lg_tree_digest e = compute_tree_digest nodes ∧
    lg_state_root e = chain_state_root empty_base_root (merge_body_digest body) (mkChain nodes ∅ 0 0)) by done.
  destruct Hf as (F1 & F2 & F3 & F4 & F5 & F6 & F7 & F8).
  unfold replay_entry, replay_merge. rewrite F1, F2, F3, F4, F5, F6, F7, F8.
  change (ch_root empty_base) with empty_base_root. change (ch_nodes empty_base) with (∅ : NodeMap).
  change (ch_committed empty_base) with (∅ : CommittedOpIds). change (ch_last_block_time_ms empty_base) with 0.
  rewrite (body_decodes nodes body Hc Eb). rewrite !Z.eqb_refl, !bool_decide_eq_true_2 by done. cbn [negb orb].
  destruct (Z.eqb_spec t 0); [done|]. cbn zeta.
  change (chain_state_root empty_base_root (merge_body_digest body) (mkChain nodes ∅ t 0))
    with (chain_state_root empty_base_root (merge_body_digest body) (mkChain nodes ∅ 0 0)).
  done.
Qed.

Lemma built_entry_verifies nodes t network key entry sig :
  carried_tree nodes → is_digest key → is_signature sig →
  build_merge_entry nodes t network (principal_of key) = Some entry →
  crypto_sign_ed25519_verify_detached sig (merge_preimage entry network (Z.of_nat (size nodes))) key = true →
  verify_merge_signature (attach_merge_signature entry sig) network (principal_of key) = Verdict None.
Proof.
  intros Hc Hk Hs. unfold build_merge_entry. destruct (encode_merge_body nodes) as [body|] eqn:Eb; [|done].
  cbn [mbind option_bind]. intros [= <-]. set (entry := mkLogEntry _ _ _ _ _ _ _ _ _). intros Hv.
  set (e := attach_merge_signature entry sig).
  assert (Hl : ∀ k, lg_commit e !! k = if decide (k = "signature"%string) then Some (b64 64 sig)
    else assoc k [("kind", JString "merge"); ("network_id", hex_of 32 network);
      ("signer", JString (principal_of key)); ("node_count", JUnsigned (Z.of_nat (size nodes)));
      ("signature", JString "")]).
  { intros k. change (lg_commit e) with (<[ "signature"%string := b64 64 sig ]> (lg_commit entry)).
    case_decide as Hk'; [subst; by rewrite lookup_insert_eq|]. rewrite lookup_insert_ne by done.
    by rewrite <-lookup_fields. }
  unfold verify_merge_signature. change (lg_kind e) with EntryMerge. change (lg_height e) with 1.
  rewrite bool_decide_eq_true_2 by done. change (1 =? 1) with true. cbn [negb].
  rewrite principal_key_of by done. cbn zeta. unfold value_string. rewrite !Hl.
  cbn [decide]. repeat (rewrite (decide_False (P := _ = "signature"%string)) by done).
  rewrite decide_True by done. cbn [assoc String.eqb Ascii.eqb Bool.eqb].
  unfold hex_of, b64. cbn iota. rewrite ?(decide_False (P := "node_count"%string = "signature"%string)) by done.
  rewrite String.eqb_refl. cbn [negb]. unfold check_merge_signature. rewrite principal_key_of by done.
  rewrite bool_decide_eq_true_2 by done. cbn [negb]. unfold from_base64, to_base64.
  rewrite base64_round_trip by apply be_bytes_are_bytes.
  rewrite bool_decide_eq_true_2 by apply length_be_bytes. cbn [negb].
  change (lg_batch e) with body. rewrite (body_decodes nodes body Hc Eb), Z.eqb_refl. cbn [negb].
  rewrite be_value_bytes by done. change (merge_preimage e) with (merge_preimage entry). by rewrite Hv.
Qed.

Lemma fits_insert fields key value :
  json_fits (JObject fields) → ascii_text key → json_fits value → json_fits (JObject (<[ key := value ]> fields)).
Proof.
  intros Hf Hk Hv. inversion Hf as [| | |f F1 F2 E]; subst.
  constructor; intros k v; rewrite lookup_insert_Some; intros [[<- <-]|[_ Hl]]; eauto.
Qed.

Lemma chunks_bytes l : Forall is_byte (chunks l).
Proof.
  unfold chunks. induction l as [|n l IH]; [constructor|]. cbn. apply Forall_app. split; [|done].
  unfold chunk_of. apply Forall_app. split; [apply le_bytes_are_bytes|apply encode_node_bytes].
Qed.

Lemma built_entry_storable nodes t network key entry sig :
  is_u64 t → ascii_text (principal_of key) →
  build_merge_entry nodes t network (principal_of key) = Some entry →
  storable_entry (attach_merge_signature entry sig).
Proof.
  intros Ht Ha. unfold build_merge_entry. destruct (encode_merge_body nodes) as [body|] eqn:Eb; [|done].
  cbn [mbind option_bind]. intros [= <-]. split; try apply digest_is_digest; [done|done| |].
  - change (Forall is_byte body). unfold encode_merge_body in Eb. case_match; [done|].
    apply encode_nodes_spec in Eb as [-> _]. unfold put_u32. rewrite app_nil_l. apply Forall_app.
    split; [apply le_bytes_are_bytes|apply chunks_bytes].
  - change (json_fits (JObject (<[ "signature"%string := b64 64 sig ]>
      (list_to_map [("kind", JString "merge"); ("network_id", hex_of 32 network);
        ("signer", JString (principal_of key)); ("node_count", JUnsigned (Z.of_nat (size nodes)));
        ("signature", JString "")])))).
    apply fits_insert; [|by apply ascii_literal|apply fits_b64]. apply fits_fields.
    repeat (apply Forall_cons; split; [split; [by apply ascii_literal|]|]); [..|by apply Forall_nil];
      try apply fits_hex; try (constructor; done || by apply ascii_literal).
    unfold encode_merge_body in Eb. destruct (Z.ltb_spec kMaxTreeMergeNodes (Z.of_nat (size nodes))); [done|].
    constructor. unfold is_u64, two64, kMaxTreeMergeNodes in *. lia.
Qed.

(** The merge ceremony installs the merged tree: an entry built for a tree
    and signed with the root key passes the check of every server that has this
    root key and network configured, and on the empty base it leaves exactly
    that tree, with no committed ids, at its block time. *)
Theorem signed_merge_installs nodes t network key entry sig :
  carried_tree nodes → t ≠ 0 → is_digest key → is_signature sig →
  build_merge_entry nodes t network (principal_of key) = Some entry →
  crypto_sign_ed25519_verify_detached sig (merge_preimage entry network (Z.of_nat (size nodes))) key = true →
  verify_merge_signature (attach_merge_signature entry sig) network (principal_of key) = Verdict None ∧
  replay_entry empty_base (attach_merge_signature entry sig)
  = inr (mkChain nodes ∅ t (lg_state_root entry), []).
Proof. intros Hc Ht Hk Hs Hb Hv. split; [by eapply built_entry_verifies|by eapply built_entry_replays]. Qed.

(** The check of a merge commit can throw before any signature is checked: an
    entry that the log reads, of kind merge at height 1, whose commit record has
    a number under ["kind"], makes [json::value] throw. Anyone can send one. *)
Theorem merge_check_throws entry n network root_key key :
  storable_entry entry → lg_kind entry = EntryMerge → lg_height entry = 1 →
  lg_commit entry !! "kind"%string = Some (JUnsigned n) → principal_key root_key = Some key →
  tree_log_entry_from_json (tree_log_entry_to_json entry) = Some entry ∧
  verify_merge_signature entry network root_key = Throws.
Proof.
  intros He Hk Hh Hc Hr. split; [by apply entry_round_trip|].
  unfold verify_merge_signature. rewrite Hk, Hh, Hr, bool_decide_eq_true_2 by done. cbn [negb].
  change (1 =? 1) with true. cbn [negb]. unfold value_string. by rewrite Hc.
Qed.
End commit.

(** ** A small tree *)

#[local] Existing Instance Village.sodium.
#[local] Existing Instance Village.messages.
#[local] Existing Instance Village.floats.
#[local] Existing Instance Member.hex.
#[local] Existing Instance Member.hex_laws.

Definition root_only : NodeMap := {[ "root"%string := make_root_node (principal_of 7) ]}.
Definition root_entry : TreeLogEntry :=
  default (mkLogEntry EntryMerge 1 0 [] 0 0 0 0 ∅) (build_merge_entry root_only 5000 77 (principal_of 7)).
Definition root_signature : Z := Village.hash (be_bytes 32 7 ++ merge_preimage root_entry 77 1).

Lemma root_built : build_merge_entry root_only 5000 77 (principal_of 7) = Some root_entry.
Proof. vm_compute. reflexivity. Qed.

Lemma root_lookup id n : root_only !! id = Some n → id = "root"%string ∧ n = make_root_node (principal_of 7).
Proof. unfold root_only. rewrite lookup_singleton_Some. by intros [-> ->]. Qed.

Lemma root_fits : node_fits (make_root_node (principal_of 7)).
Proof. split; vm_compute; split; discriminate || reflexivity. Qed.

Lemma root_carried : carried_tree root_only.
Proof.
  intros id n Hn. apply root_lookup in Hn as [-> ->]. split; [reflexivity|]. split; [apply root_fits|].
  vm_compute. discriminate.
Qed.

Lemma village_range bytes : is_digest (Village.hash bytes).
Proof.
  unfold Village.hash. change Village.hash_mask with (Z.ones 256). rewrite Z.land_ones by lia.
  apply Z.mod_pos_bound. lia.
Qed.

#[local] Instance village_laws : SodiumLaws.
Proof. split. intros bytes. apply village_range. Qed.

Lemma digest_signature d : is_digest d → is_signature d.
Proof. unfold is_digest, is_signature. intros [? ?]. split; [done|]. etrans; [eassumption|]. reflexivity. Qed.

Lemma root_verifies :
  crypto_sign_ed25519_verify_detached root_signature (merge_preimage root_entry 77 (Z.of_nat (size root_only))) 7 = true.
Proof. vm_compute. reflexivity. Qed.

Definition signed_root : TreeLogEntry := attach_merge_signature root_entry root_signature.

Lemma signed_merge_installs_witness :
  verify_merge_signature signed_root 77 (principal_of 7) = Verdict None ∧
  replay_entry empty_base signed_root = inr (mkChain root_only ∅ 5000 (lg_state_root root_entry), []).
Proof.
  refine (signed_merge_installs root_only 5000 77 7 root_entry root_signature root_carried _ _ _ root_built root_verifies).
  - discriminate.
  - split; vm_compute; [discriminate|reflexivity].
  - apply digest_signature, village_range.
Defined.

(** *** The entry on disk *)

Lemma root_state_storable t root :
  is_u64 t → is_digest root → storable_state (mkChain root_only ∅ t root).
Proof.
  intros Ht Hr. split; cbn [ch_nodes ch_committed ch_last_block_time_ms ch_root]; [|by intros id t' ?|done|done].
  intros id n Hn. apply root_lookup in Hn as [-> ->]. split; [reflexivity|]. split; [apply root_fits|].
  split; [vm_compute; reflexivity|by apply ascii_literal].
Qed.

Definition fresh_disk : Disk := mkDisk ∅ [∅] (repeat 1000000 60) [].
Definition opened : OpenResult * TreeLog * Disk := log_open "tree" ∅ closed_log fresh_disk.
Definition merged_state : TreeChainState := mkChain root_only ∅ 5000 (lg_state_root root_entry).
Definition appended : bool * TreeLog * Disk := log_append "tree" signed_root merged_state opened.1.2 opened.2.

Lemma opened_ok : opened = (OpenOk, opened.1.2, opened.2).
Proof. assert (E : opened.1.1 = OpenOk) by (vm_compute; reflexivity). destruct opened as [[r log] d]. cbn in *. by subst. Qed.

Lemma appended_ok : appended = (true, appended.1.2, appended.2).
Proof. assert (E : appended.1.1 = true) by (vm_compute; reflexivity). destruct appended as [[r log] d]. cbn in *. by subst. Qed.

Lemma opened_state : tl_state opened.1.2 = empty_base ∧ tl_height opened.1.2 = 0.
Proof. split; vm_compute; reflexivity. Qed.

Lemma empty_storable : storable_state (base_state ∅).
Proof.
  split; cbn [base_state ch_nodes ch_committed ch_last_block_time_ms ch_root].
  - intros id n. by rewrite lookup_empty.
  - intros id t. by rewrite lookup_empty.
  - done.
  - apply digest_is_digest.
Qed.

Lemma principal_ascii : ascii_text (principal_of 7).
Proof. apply ascii_literal. vm_compute. reflexivity. Qed.

Lemma merged_root_digest : is_digest (lg_state_root root_entry).
Proof. vm_compute. split; [discriminate|reflexivity]. Qed.

Lemma opened_grown : grown "tree" ∅ opened.1.2 opened.2.
Proof.
  assert (E1 : log_entries "tree" fresh_disk = ∅) by (vm_compute; reflexivity).
  assert (E2 : log_snapshots "tree" fresh_disk = ∅) by (vm_compute; reflexivity).
  exact (grown_start "tree" ∅ closed_log fresh_disk opened.1.2 opened.2 E1 E2 empty_storable opened_ok).
Qed.

Lemma signed_root_storable : storable_entry signed_root.
Proof.
  assert (Ht : is_u64 5000) by (unfold is_u64, two64; lia).
  exact (built_entry_storable root_only 5000 77 7 root_entry root_signature Ht principal_ascii root_built).
Qed.

Lemma merged_state_storable : storable_state merged_state.
Proof. apply root_state_storable; [unfold is_u64, two64; lia|exact merged_root_digest]. Qed.

Lemma signed_root_replays : replay_entry (tl_state opened.1.2) signed_root = inr (merged_state, []).
Proof.
  rewrite (proj1 opened_state).
  exact (built_entry_replays root_only 5000 77 (principal_of 7) root_entry root_signature root_carried
    ltac:(discriminate) root_built).
Qed.

Lemma next_height : is_u64 (tl_height opened.1.2 + 1).
Proof. rewrite (proj2 opened_state). unfold is_u64, two64. lia. Qed.

Lemma merged_log_grown : grown "tree" ∅ appended.1.2 appended.2.
Proof.
  exact (grown_append "tree" ∅ opened.1.2 opened.2 signed_root merged_state [] appended.1.2 appended.2
    opened_grown signed_root_storable merged_state_storable next_height signed_root_replays appended_ok).
Qed.

Lemma merged_log_willing : willing 2 appended.2.
Proof.
  split; [|vm_compute; lia]. apply (Forall_impl (λ r, (0 <? r) = true)); [|intros r; lia].
  apply Forall_forall. intros r Hr%list_elem_of_In. revert r Hr. apply forallb_forall. vm_compute. reflexivity.
Qed.

Lemma log_reopens_witness :
  ∃ d', log_open "tree" ∅ closed_log appended.2 = (OpenOk, appended.1.2, d') ∧ tl_height appended.1.2 = 1.
Proof.
  destruct (log_reopens "tree" ∅ appended.1.2 appended.2 closed_log ∅ merged_log_grown merged_log_willing) as [d' Hd].
  exists d'. split; [exact Hd|]. vm_compute. reflexivity.
Defined.

(** Another signature on the same entry. *)
Definition resigned_root : TreeLogEntry := attach_merge_signature root_entry 1.

Lemma resigned_root_storable : storable_entry resigned_root.
Proof.
  assert (Ht : is_u64 5000) by (unfold is_u64, two64; lia).
  exact (built_entry_storable root_only 5000 77 7 root_entry 1 Ht principal_ascii root_built).
Qed.

Lemma resigned_root_replays : replay_entry empty_base resigned_root = inr (merged_state, []).
Proof.
  exact (built_entry_replays root_only 5000 77 (principal_of 7) root_entry 1 root_carried
    ltac:(discriminate) root_built).
Qed.

Lemma attached_preimage entry sig sig' network n :
  merge_preimage (attach_merge_signature entry sig) network n = merge_preimage (attach_merge_signature entry sig') network n.
Proof. reflexivity. Qed.

Lemma attached_batch entry sig sig' :
  no_collision (body_encoding (lg_batch (attach_merge_signature entry sig)))
    (body_encoding (lg_batch (attach_merge_signature entry sig'))).
Proof. intros _. reflexivity. Qed.

Lemma root_entry_kinds : lg_kind signed_root = EntryMerge ∧ lg_kind resigned_root = EntryMerge ∧ lg_height signed_root = 1.
Proof. split_and!; vm_compute; reflexivity. Qed.

Lemma signed_root_on_base : replay_entry empty_base signed_root = inr (merged_state, []).
Proof. rewrite <-(proj1 opened_state). exact signed_root_replays. Qed.

Lemma merge_commit_fixed_by_signature_witness :
  merge_preimage signed_root 77 1 = merge_preimage resigned_root 77 1 ∧ lg_height signed_root = 1.
Proof.
  split; [exact (attached_preimage root_entry root_signature 1 77 1)|].
  destruct root_entry_kinds as (Hk & Hk' & _).
  assert (Hu : is_u64 1) by (unfold is_u64, two64; lia).
  exact (proj1 (proj2 (proj2 (merge_commit_fixed_by_signature empty_base empty_base signed_root resigned_root 77 77 1 1
    merged_state merged_state [] [] signed_root_storable resigned_root_storable Hu Hu Hk Hk'
    (attached_batch root_entry root_signature 1) (attached_preimage root_entry root_signature 1 77 1)
    signed_root_on_base resigned_root_replays)))).
Defined.

Definition with_kind (entry : TreeLogEntry) (n : Z) : TreeLogEntry :=
  entry <| lg_commit := <[ "kind"%string := JUnsigned n ]> (lg_commit entry) |>.

Lemma with_kind_fields entry n :
  lg_commit (with_kind entry n) !! "kind"%string = Some (JUnsigned n) ∧
  lg_kind (with_kind entry n) = lg_kind entry ∧ lg_height (with_kind entry n) = lg_height entry.
Proof. split; [apply lookup_insert_eq|done]. Qed.

Lemma with_kind_storable entry n : is_u64 n → storable_entry entry → storable_entry (with_kind entry n).
Proof.
  intros Hn [S1 S2 S3 S4 S5 S6 S7 S8]. split; try assumption.
  apply (fits_insert (lg_commit entry)); [exact S8|by apply ascii_literal|by constructor].
Qed.

Lemma principal_seven : principal_key (principal_of 7) = Some 7.
Proof. vm_compute. reflexivity. Qed.

Lemma merge_check_throws_witness : verify_merge_signature (with_kind signed_root 5) 77 (principal_of 7) = Throws.
Proof.
  assert (Hu : is_u64 5) by (unfold is_u64, two64; lia).
  destruct root_entry_kinds as (Hk & _ & Hh), (with_kind_fields signed_root 5) as (F1 & F2 & F3).
  exact (proj2 (merge_check_throws (with_kind signed_root 5) 5 77 (principal_of 7) 7
    (with_kind_storable signed_root 5 Hu signed_root_storable) (eq_trans F2 Hk) (eq_trans F3 Hh) F1 principal_seven)).
Defined.
