(* ===== verification/NodeFiles.v ===== *)
(** * Tree node files and the delta log

    Models the tree part of [Storage/FileStorageService.cpp] (node files, the
    delta log and their paths) on the disk of [DurableWrite.v], for a service
    without a storage vault, and the parsing of nodes in [Tree/TreeTypes.cpp].
    Node files are written in place through a buffered stream: the stream is
    asked whether it is good before it is closed, so a write that fails when the
    buffer is flushed is reported as done. The class [TreeStorage] is what
    [PermissionTree] sees of it, with the committed-ids file that service
    writes itself. *)

From S2P Require Import Prelude SecurityPolicy CanonicalEncoding ConsensusTypes DurableWrite.
From S2P Require Import Json FileStorage EligibilityStore TreeTypes TreeLog.

Record SignedDelta := mkSignedDelta {
  sd_sequence : Z;
  sd_operation : string;
  sd_target_node_id : string;
  sd_data : list Z;
  sd_signer_pubkey : string;
  sd_required_permission : string;
  sd_signature : string;
  sd_timestamp : Z;
}.

(** ** Nodes from JSON *)

(** [std::stod] and the conversion to [float], with integers and booleans. *)
Class FloatRead := { float_of_json : json → Z }.

Definition string_to_node_type (s : string) : option NodeType :=
  if String.eqb s "root" then Some Root
  else if String.eqb s "customer" then Some Customer
  else if String.eqb s "endpoint" then Some Endpoint
  else if String.eqb s "relay" then Some Relay
  else None.

Definition as_string (j : json) : option string := match j with JString s => Some s | _ => None end.
Definition as_boolean (j : json) : option bool := match j with JBoolean b => Some b | _ => None end.
Definition as_strings (j : json) : option (list string) :=
  match j with JArray items => mapM as_string items | _ => None end.
Definition as_float `{FloatRead} (j : json) : option Z :=
  match j with
  | JUnsigned _ | JNegative _ | JFloat _ | JBoolean _ => Some (float_of_json j)
  | _ => None
  end.

(** [j.at(key).get_to(field)] *)
Definition required {A} (f : gmap string json) (key : string) (read : json → option A) : option A :=
  match f !! key with None => None | Some j => read j end.

(** [None]: a field is missing or has the wrong type, and the code throws. *)
Definition assignment_from_json (j : json) : option Assignment :=
  match j with
  | JObject f =>
      key ← required f "management_pubkey" as_string;
      names ← required f "permissions" as_strings;
      Some (mkAssignment key names)
  | _ => None
  end.

Definition as_assignments (j : json) : option (list Assignment) :=
  match j with JArray items => mapM assignment_from_json items | _ => None end.

(** [if (j.contains(key)) j.at(key).get_to(field)] *)
Definition optional {A} (f : gmap string json) (key : string) (read : json → option A) (fallback : A)
    : option A :=
  match f !! key with None => Some fallback | Some j => read j end.

(** [j.at(key).get_to(field)] for an unsigned integer of the given width. *)
Definition as_unsigned `{ValueCodec} (width : Z) (f : gmap string json) (key : string) : option Z :=
  match f !! key with None => None | Some _ => value_unsigned width (JObject f) key 0 end.

Definition node_from_json `{ValueCodec, FloatRead} (j : json) : option TreeNode :=
  match j with
  | JObject f =>
      id ← required f "id" as_string;
      parent_id ← required f "parent_id" as_string;
      type ← required f "type" (λ j, s ← as_string j; string_to_node_type s);
      hostname ← optional f "hostname" as_string "";
      tunnel_ip ← required f "tunnel_ip" as_string;
      private_subnet ← required f "private_subnet" as_string;
      private_shared_addresses ← required f "private_shared_addresses" as_string;
      shared_domain ← required f "shared_domain" as_string;
      mgmt_pubkey ← required f "mgmt_pubkey" as_string;
      wrapped ← required f "wrapped_mgmt_privkey" as_string;
      mesh_pubkey ← optional f "mesh_pubkey" as_string "";
      endpoint_identifier ← optional f "endpoint_identifier" as_string "";
      cpu_id ← optional f "cpu_id" as_string "";
      net_mac ← optional f "net_mac" as_string "";
      is_inference ← optional f "is_inference" as_boolean false;
      assignments ← required f "assignments" as_assignments;
      signature ← required f "signature" as_string;
      listen_endpoint ← required f "listen_endpoint" as_string;
      region ← required f "region" as_string;
      capacity_mbps ← as_unsigned two32 f "capacity_mbps";
      reputation_score ← required f "reputation_score" as_float;
      expires_at ← as_unsigned two64 f "expires_at";
      version ← value_unsigned two64 j "version" 0;
      Some (mkNode id parent_id type hostname tunnel_ip private_subnet private_shared_addresses
              shared_domain mgmt_pubkey wrapped mesh_pubkey endpoint_identifier cpu_id net_mac
              is_inference assignments signature listen_endpoint region capacity_mbps
              reputation_score expires_at version)
  | _ => None
  end.

(** ** The interface *)

Class TreeStorage (S : Type) := {
  write_node : string → SignedEnvelope → S → bool * S;
  read_node : string → S → option SignedEnvelope;
  delete_node : string → S → bool * S;
  list_nodes : S → list string;
  append_delta : SignedDelta → S → Z * S;
  write_committed_ops : list Z → S → bool * S;
  read_committed_ops : S → option (list Z);
}.

(** Only an id that is a safe file name has a node file. *)
Class TreeStorageLaws (S : Type) `{TreeStorage S} := {
  write_unsafe_node : ∀ id envelope s,
    is_safe_path_component id = false → (write_node id envelope s).1 = false;
}.

(** ** Files *)

Record TreeFiles := mkFiles {
  tf_disk : Disk;
  tf_next_delta_seq : Z;
}.

#[export] Instance eta_files : Etable TreeFiles := λ f, mkFiles (tf_disk f) (tf_next_delta_seq f).

(** [std::ofstream ofs(path, trunc); if (!ofs) return false; ofs << text; return
    ofs.good();] A failure may surface only when the stream is destroyed. *)
Definition stream_file (path : string) (text : list Z) (d : Disk) : bool * Disk :=
  let '(opened, d) := sys_open_trunc path d in
  if negb opened then (false, d)
  else
    let '(written, d) := write_all (S (length text)) path text d in
    let '(seen, d) := succeeds d in
    (written || negb seen, d).

Section files.
Context `{TextCodec, ValueCodec} (data_root : string).

(** [None]: the path is rejected with an exception. *)
Definition node_path (node_id : string) : option string :=
  if negb (is_safe_path_component node_id) then None
  else Some (data_root +:+ "/tree/nodes/" +:+ node_id +:+ ".json").

Definition on_disk {A} (f : Disk → A * Disk) (s : TreeFiles) : A * TreeFiles :=
  let '(a, d) := f (tf_disk s) in (a, s <| tf_disk := d |>).

Definition do_write_node (node_id : string) (envelope : SignedEnvelope) (s : TreeFiles)
    : bool * TreeFiles :=
  match node_path node_id with
  | None => (false, s)
  | Some path => on_disk (stream_file path (envelope_to_json envelope)) s
  end.

Definition do_read_node (node_id : string) (s : TreeFiles) : option SignedEnvelope :=
  path ← node_path node_id;
  text ← DurableWrite.read_file path (tf_disk s);
  json_to_envelope text.

Definition do_delete_node (node_id : string) (s : TreeFiles) : bool * TreeFiles :=
  match node_path node_id with
  | None => (false, s)
  | Some path =>
      on_disk (λ d,
        let '(ok, d) := succeeds d in
        if ok && bool_decide (is_Some (live d !! path)) then (true, sys_remove path d)
        else (false, d)) s
  end.

Definition do_list_nodes (s : TreeFiles) : list string :=
  sort_strings (directory_stems (data_root +:+ "/tree/nodes") (tf_disk s)).

(** ** The delta log *)

(** [%06llu] into a buffer of 16 characters, the last one the terminator. *)
Definition sequence_text (seq : Z) : string :=
  let digits := pretty (Z.to_N seq) in
  String.substring 0 15 (String.substring 0 (6 - String.length digits) "000000" +:+ digits).

Definition delta_path (seq : Z) : string := data_root +:+ "/tree/deltas/" +:+ sequence_text seq +:+ ".json".

Definition delta_to_json (delta : SignedDelta) : list Z :=
  let fields :=
    [("version", JUnsigned 1); ("type", JString "delta");
     ("sequence", JUnsigned (sd_sequence delta)); ("operation", JString (sd_operation delta));
     ("target_node_id", JString (sd_target_node_id delta));
     ("signer_pubkey", JString (sd_signer_pubkey delta));
     ("required_permission", JString (sd_required_permission delta));
     ("signature", JString (sd_signature delta)); ("timestamp", JUnsigned (sd_timestamp delta))] in
  match json_parse (sd_data delta) with
  | Some data => json_dump_indented (object (("data", data) :: fields))
  | None => json_dump_discarded (list_to_map fields) "data"
  end.

(** [None]: not JSON, or a field with the wrong type, for which [value] throws. *)
Definition json_to_delta (text : list Z) : option SignedDelta :=
  j ← json_parse text;
  sequence ← value_unsigned two64 j "sequence" 0;
  operation ← value_string j "operation" "";
  target ← value_string j "target_node_id" "";
  signer ← value_string j "signer_pubkey" "";
  required ← value_string j "required_permission" "";
  signature ← value_string j "signature" "";
  timestamp ← value_unsigned two64 j "timestamp" 0;
  let data := match j with
              | JObject fields =>
                  match fields !! "data" with Some d => json_dump d | None => [] end
              | _ => []
              end in
  Some (mkSignedDelta sequence operation target data signer required signature timestamp).

Definition do_append_delta (delta : SignedDelta) (s : TreeFiles) : Z * TreeFiles :=
  let seq := tf_next_delta_seq s in
  let stamped := mkSignedDelta seq (sd_operation delta) (sd_target_node_id delta) (sd_data delta)
                   (sd_signer_pubkey delta) (sd_required_permission delta) (sd_signature delta)
                   (sd_timestamp delta) in
  let '(good, s) := on_disk (stream_file (delta_path seq) (delta_to_json stamped)) s in
  if good then (seq, s <| tf_next_delta_seq := seq +64 1 |>) else (0, s).

Definition do_read_delta (seq : Z) (s : TreeFiles) : option SignedDelta :=
  text ← DurableWrite.read_file (delta_path seq) (tf_disk s);
  json_to_delta text.

Definition do_latest_delta_seq (s : TreeFiles) : Z :=
  if 0 <? tf_next_delta_seq s then tf_next_delta_seq s - 1 else 0.

(** ** The committed-ids file *)

Definition committed_ops_path : string := data_root +:+ "/tree/committed-ops.json".

Definition tree_files : TreeStorage TreeFiles := {|
  write_node := do_write_node;
  read_node := do_read_node;
  delete_node := do_delete_node;
  list_nodes := do_list_nodes;
  append_delta := do_append_delta;
  write_committed_ops := λ text, on_disk (write_durable committed_ops_path text);
  read_committed_ops := λ s, DurableWrite.read_file committed_ops_path (tf_disk s);
|}.

#[local] Existing Instance tree_files.

Lemma tree_files_laws : TreeStorageLaws TreeFiles.
Proof.
  split. intros id envelope s Hid. change (write_node id envelope s) with (do_write_node id envelope s).
  unfold do_write_node, node_path. by rewrite Hid.
Qed.
End files.
