(* ===== verification/ReleaseApproval.v ===== *)
(** * Release approvals

    Models [Security/Attestation/ReleaseApproval.cpp] and
    [ReleaseBundleGenerator.cpp]: the approval bundle, its canonical documents
    and digest, the verification under the Genesis delegation, the text form and
    its parser, the hashes attestation accepts, and the generator of the
    unsigned approval. The error strings are left out: a function that sets one
    returns [false] or [None]. Of the attestation profile only the accepted
    paths are modelled. *)

From S2P Require Import Prelude SecurityPolicy CanonicalEncoding ConsensusTypes PlatformClaims DurableWrite.
From S2P Require Import Json FileStorage EligibilityStore TreeTypes LinkToken NodeFiles.

Definition kReleaseAuthorityFormatVersion : Z := 1.
Definition kReleaseApprovalFormatV2 : Z := 2.
Definition kReleaseApprovalFormatVersion : Z := 3.
Definition kMaxReleaseNumber : Z := 9999123199.
Definition kMaxReleaseApprovalBytes : Z := 32 * 1024.
Definition kSecurityWireVersion : Z := 3.
Definition kAttestdWireVersion : Z := 4.
Definition kMaxSummarisedPaths : Z := 16.

(** ** Data *)

Record TcbVersion := mkTcb { tcb_bootloader : Z; tcb_tee : Z; tcb_snp : Z; tcb_microcode : Z }.

Definition at_least (tcb floor : TcbVersion) : bool :=
  (tcb_bootloader floor <=? tcb_bootloader tcb) && (tcb_tee floor <=? tcb_tee tcb) &&
  (tcb_snp floor <=? tcb_snp tcb) && (tcb_microcode floor <=? tcb_microcode tcb).

Definition kReleaseMinTcb : TcbVersion := mkTcb 12 0 28 0.

Record ApprovedPath := mkApprovedPath { ap_path : string; ap_sha256 : list string }.

Record ReleaseAuthorityV1 := mkReleaseAuthority {
  ra_format_version : Z;
  ra_network_id_hex : string;
  ra_release_signing_pubkey_b64 : string;
  ra_genesis_signature_b64 : string;
}.

Record ReleaseKernelIdentityV1 := mkKernelIdentity {
  rk_release : string;
  rk_bzimage_sha256 : string;
  rk_vmlinux_sha256 : string;
  rk_module_tree_sha256 : string;
  rk_module_certificate_der_sha256 : string;
}.

Record ReleaseApprovalV1 := mkApproval {
  rl_format_version : Z;
  rl_release_id : string;
  rl_nexus_version : string;
  rl_source_commit : string;
  rl_starting_patched_tree : string;
  rl_final_patched_tree : string;
  rl_network_id_hex : string;
  rl_release_number : Z;
  rl_security_wire_version : Z;
  rl_security_ruleset : Z;
  rl_consensus_ruleset : Z;
  rl_attestation_profile : string;
  rl_attestation_profile_ruleset : Z;
  rl_attestd_wire_version : Z;
  rl_ima_policy_id : string;
  rl_ima_policy_sha256 : string;
  rl_kernel : ReleaseKernelIdentityV1;
  rl_svsm_launch_measurements_hex : list string;
  rl_min_tcb : TcbVersion;
  rl_approved_paths : list ApprovedPath;
  rl_previous_release_paths : list ApprovedPath;
  rl_evidence_collector_path : string;
  rl_expected_pcrs : list (Z * string);
  rl_qualification_state : string;
  rl_signer_pubkey_b64 : string;
  rl_signature_b64 : string;
}.

Record ReleaseApprovalBundleV1 := mkBundle {
  bd_authority : ReleaseAuthorityV1;
  bd_approval : ReleaseApprovalV1;
}.

#[export] Instance approved_path_eq_dec : EqDecision ApprovedPath.
Proof. solve_decision. Defined.

(** ** Canonical documents *)

Definition strings_json (l : list string) : json := JArray (JString <$> l).

Definition path_json (p : ApprovedPath) : json :=
  object [("path", JString (ap_path p)); ("sha256", strings_json (ap_sha256 p))].

Definition approved_paths_json (paths : list ApprovedPath) : json := JArray (path_json <$> paths).

Definition tcb_json (tcb : TcbVersion) : json :=
  object [("bootloader", JUnsigned (tcb_bootloader tcb)); ("tee", JUnsigned (tcb_tee tcb));
          ("snp", JUnsigned (tcb_snp tcb)); ("microcode", JUnsigned (tcb_microcode tcb))].

Definition authority_fields (a : ReleaseAuthorityV1) : list (string * json) :=
  [("format_version", JUnsigned (ra_format_version a));
   ("network_id", JString (ra_network_id_hex a));
   ("release_signing_pubkey", JString (ra_release_signing_pubkey_b64 a))].

Definition authority_preimage (a : ReleaseAuthorityV1) : json := object (authority_fields a).

Definition pcr_json (pcr : Z * string) : json :=
  object [("index", JUnsigned pcr.1); ("sha256", JString pcr.2)].

Definition kernel_json (k : ReleaseKernelIdentityV1) : json :=
  object [("release", JString (rk_release k));
          ("bzimage_sha256", JString (rk_bzimage_sha256 k));
          ("vmlinux_sha256", JString (rk_vmlinux_sha256 k));
          ("module_tree_sha256", JString (rk_module_tree_sha256 k));
          ("module_certificate_der_sha256", JString (rk_module_certificate_der_sha256 k))].

Definition approval_fields (a : ReleaseApprovalV1) : list (string * json) :=
  [("format_version", JUnsigned (rl_format_version a));
   ("release_id", JString (rl_release_id a));
   ("nexus_version", JString (rl_nexus_version a));
   ("source_commit", JString (rl_source_commit a));
   ("starting_patched_tree", JString (rl_starting_patched_tree a));
   ("final_patched_tree", JString (rl_final_patched_tree a));
   ("network_id", JString (rl_network_id_hex a));
   ("security_wire_version", JUnsigned (rl_security_wire_version a));
   ("security_ruleset", JUnsigned (rl_security_ruleset a));
   ("consensus_ruleset", JUnsigned (rl_consensus_ruleset a));
   ("attestation_profile", JString (rl_attestation_profile a));
   ("attestation_profile_ruleset", JUnsigned (rl_attestation_profile_ruleset a));
   ("attestd_wire_version", JUnsigned (rl_attestd_wire_version a));
   ("ima_policy", object [("id", JString (rl_ima_policy_id a)); ("sha256", JString (rl_ima_policy_sha256 a))]);
   ("kernel", kernel_json (rl_kernel a));
   ("svsm_launch_measurements", strings_json (rl_svsm_launch_measurements_hex a));
   ("min_tcb", tcb_json (rl_min_tcb a));
   ("approved_paths", approved_paths_json (rl_approved_paths a));
   ("evidence_collector_path", JString (rl_evidence_collector_path a));
   ("expected_pcrs", JArray (pcr_json <$> rl_expected_pcrs a));
   ("qualification_state", JString (rl_qualification_state a));
   ("signer_pubkey", JString (rl_signer_pubkey_b64 a))] ++
  (if kReleaseApprovalFormatVersion <=? rl_format_version a then
     [("release_number", JUnsigned (rl_release_number a));
      ("previous_release_paths", approved_paths_json (rl_previous_release_paths a))]
   else []).

Definition approval_preimage (a : ReleaseApprovalV1) : json := object (approval_fields a).

Definition valid_hex (value : string) (length : nat) : bool :=
  (String.length value =? length)%nat &&
  forallb (λ c, ((48 <=? c) && (c <=? 57)) || ((97 <=? c) && (c <=? 102))) (string_bytes value).

Definition valid_sha256 (value : string) : bool := valid_hex value 64.

(** Strictly ascending neighbours. *)
Fixpoint ascending (l : list string) : bool :=
  match l with
  | x :: (y :: _) as rest => String.ltb x y && ascending rest
  | _ => true
  end.

Definition valid_measurement_set (measurements : list string) : bool :=
  negb (bool_decide (measurements = [])) && forallb (λ h, valid_hex h 96) measurements && ascending measurements.

Definition compiled_release_fields_match (a : ReleaseApprovalV1) : bool :=
  if negb (rl_format_version a =? kReleaseApprovalFormatVersion) || is_empty (rl_release_id a) ||
     is_empty (rl_nexus_version a) || negb (String.length (rl_final_patched_tree a) =? 40)%nat then false
  else if (rl_release_number a =? 0) || (kMaxReleaseNumber <? rl_release_number a) then false
  else if negb (valid_hex (rl_source_commit a) 40) || negb (valid_hex (rl_starting_patched_tree a) 40) ||
          negb (valid_hex (rl_final_patched_tree a) 40) then false
  else if negb (rl_security_wire_version a =? kSecurityWireVersion) ||
          negb (rl_security_ruleset a =? kSecurityRulesetVersion) ||
          negb (rl_consensus_ruleset a =? kConsensusRulesetVersion) ||
          negb (String.eqb (rl_attestation_profile a) "SnpSvsmVtpm") ||
          negb (rl_attestation_profile_ruleset a =? kAttestationProfileRulesetVersion) ||
          negb (rl_attestd_wire_version a =? kAttestdWireVersion) then false
  else if negb (valid_measurement_set (rl_svsm_launch_measurements_hex a)) then false
  else if is_empty (rk_release (rl_kernel a)) || negb (valid_sha256 (rk_bzimage_sha256 (rl_kernel a))) ||
          negb (valid_sha256 (rk_vmlinux_sha256 (rl_kernel a))) ||
          negb (valid_sha256 (rk_module_tree_sha256 (rl_kernel a))) ||
          negb (valid_sha256 (rk_module_certificate_der_sha256 (rl_kernel a))) ||
          is_empty (rl_ima_policy_id a) || negb (valid_sha256 (rl_ima_policy_sha256 a)) then false
  else at_least (rl_min_tcb a) kReleaseMinTcb && (tcb_tee (rl_min_tcb a) =? 0) &&
       (tcb_microcode (rl_min_tcb a) =? 0).

(** ** Path lists *)

Definition hashes_valid (hashes : list string) : bool :=
  negb (bool_decide (hashes = [])) && forallb valid_sha256 hashes.

(** The set of approved paths; [None]: one is invalid, repeated or unhashed. *)
Fixpoint approved_set (paths : list ApprovedPath) (seen : gset string) : option (gset string) :=
  match paths with
  | [] => Some seen
  | p :: rest =>
      if is_empty (ap_path p) || negb (starts_with "/" (ap_path p)) || bool_decide (ap_path p ∈ seen) ||
         negb (hashes_valid (ap_sha256 p)) then None
      else approved_set rest ({[ ap_path p ]} ∪ seen)
  end.

Fixpoint previous_valid (approved : gset string) (paths : list ApprovedPath) (seen : gset string) : bool :=
  match paths with
  | [] => true
  | p :: rest =>
      if negb (bool_decide (ap_path p ∈ approved)) || bool_decide (ap_path p ∈ seen) ||
         negb (hashes_valid (ap_sha256 p)) then false
      else previous_valid approved rest ({[ ap_path p ]} ∪ seen)
  end.

Definition names_path (path : string) (paths : list ApprovedPath) : bool :=
  existsb (λ p, String.eqb (ap_path p) path) paths.

Definition find_path (path : string) (paths : list ApprovedPath) : option ApprovedPath :=
  List.find (λ p, String.eqb (ap_path p) path) paths.

Definition kPending : string := "PENDING_LIVE_QUALIFICATION".
Definition kLiveBoot : string := "LIVE_BOOT_APPROVED".

Definition qualification_valid (state : string) (pcrs : list (Z * string)) : bool :=
  if String.eqb state kPending then bool_decide (pcrs = [])
  else if String.eqb state kLiveBoot then
    match pcrs with
    | [(i, x); (j, y)] => (i =? 8) && (j =? 9) && valid_sha256 x && valid_sha256 y
    | _ => false
    end
  else false.

(** Hashes not yet listed are appended. *)
Definition add_hashes (hashes more : list string) : list string :=
  foldl (λ out h, if bool_decide (h ∈ out) then out else out ++ [h]) hashes more.

Definition with_previous (previous : list ApprovedPath) (p : ApprovedPath) : ApprovedPath :=
  match find_path (ap_path p) previous with
  | None => p
  | Some before => mkApprovedPath (ap_path p) (add_hashes (ap_sha256 p) (ap_sha256 before))
  end.

(** The [approved_paths] of the profile of an approval. *)
Definition profile_approved_paths (a : ReleaseApprovalV1) : list ApprovedPath :=
  with_previous (rl_previous_release_paths a) <$> rl_approved_paths a.

Definition release_overlap_paths (previous : ReleaseApprovalV1) (previous_halted : bool) : list ApprovedPath :=
  if negb previous_halted then rl_approved_paths previous
  else with_previous (rl_previous_release_paths previous) <$> rl_approved_paths previous.

(** ** Reading a document *)

Definition at_key (j : json) (key : string) : option json :=
  match j with JObject f => f !! key | _ => None end.

(** [for (auto& item : j)]: an object yields its values in key order, a value
    that is no container yields itself, and null yields nothing. *)
Definition items_of (j : json) : list json :=
  match j with
  | JNull => []
  | JArray items => items
  | JObject f => omap (λ k, f !! k) (sort_strings (map_to_list f).*1)
  | _ => [j]
  end.

Definition at_string (j : json) (key : string) : option string := v ← at_key j key; as_string v.
Definition at_strings (j : json) (key : string) : option (list string) := v ← at_key j key; as_strings v.

Section parsing.
Context `{ValueCodec}.

Definition at_unsigned (width : Z) (j : json) (key : string) : option Z :=
  v ← at_key j key; get_unsigned width v.

Definition parse_path (j : json) : option ApprovedPath :=
  path ← at_string j "path"; hashes ← at_strings j "sha256"; Some (mkApprovedPath path hashes).

Definition parse_paths (j : json) (key : string) : option (list ApprovedPath) :=
  v ← at_key j key; mapM parse_path (items_of v).

Definition parse_pcr (j : json) : option (Z * string) :=
  index ← at_unsigned two32 j "index"; value ← at_string j "sha256"; Some (index, value).

Definition parse_authority (aj : json) : option ReleaseAuthorityV1 :=
  format_version ← at_unsigned two32 aj "format_version";
  network_id ← at_string aj "network_id";
  key ← at_string aj "release_signing_pubkey";
  signature ← at_string aj "genesis_signature";
  Some (mkReleaseAuthority format_version network_id key signature).

Definition parse_kernel (k : json) : option ReleaseKernelIdentityV1 :=
  release ← at_string k "release";
  bzimage ← at_string k "bzimage_sha256";
  vmlinux ← at_string k "vmlinux_sha256";
  module_tree ← at_string k "module_tree_sha256";
  certificate ← at_string k "module_certificate_der_sha256";
  Some (mkKernelIdentity release bzimage vmlinux module_tree certificate).

Definition parse_tcb (t : json) : option TcbVersion :=
  bootloader ← at_unsigned 256 t "bootloader";
  tee ← at_unsigned 256 t "tee";
  snp ← at_unsigned 256 t "snp";
  microcode ← at_unsigned 256 t "microcode";
  Some (mkTcb bootloader tee snp microcode).

(** The release number and the previous paths: signed from format 3 on, refused
    before. *)
Definition parse_numbered (format_version : Z) (j : json) : option (Z * list ApprovedPath) :=
  if kReleaseApprovalFormatVersion <=? format_version then
    number ← at_unsigned two64 j "release_number";
    previous ← parse_paths j "previous_release_paths";
    Some (number, previous)
  else if bool_decide (is_Some (at_key j "release_number")) ||
          bool_decide (is_Some (at_key j "previous_release_paths")) then None
  else Some (0, []).

Definition parse_approval (j : json) : option ReleaseApprovalV1 :=
  format_version ← at_unsigned two32 j "format_version";
  release_id ← at_string j "release_id";
  nexus_version ← at_string j "nexus_version";
  source_commit ← at_string j "source_commit";
  starting ← at_string j "starting_patched_tree";
  final ← at_string j "final_patched_tree";
  network_id ← at_string j "network_id";
  numbered ← parse_numbered format_version j;
  wire ← at_unsigned two16 j "security_wire_version";
  security ← at_unsigned two16 j "security_ruleset";
  consensus ← at_unsigned two16 j "consensus_ruleset";
  profile ← at_string j "attestation_profile";
  profile_ruleset ← at_unsigned two16 j "attestation_profile_ruleset";
  attestd ← at_unsigned two16 j "attestd_wire_version";
  ima ← at_key j "ima_policy";
  ima_id ← at_string ima "id";
  ima_sha256 ← at_string ima "sha256";
  kernel ← at_key j "kernel";
  kernel ← parse_kernel kernel;
  measurements ← at_strings j "svsm_launch_measurements";
  tcb ← at_key j "min_tcb";
  tcb ← parse_tcb tcb;
  approved ← parse_paths j "approved_paths";
  collector ← at_string j "evidence_collector_path";
  pcrs ← at_key j "expected_pcrs";
  pcrs ← mapM parse_pcr (items_of pcrs);
  qualification ← at_string j "qualification_state";
  signer ← at_string j "signer_pubkey";
  signature ← at_string j "signature";
  Some (mkApproval format_version release_id nexus_version source_commit starting final network_id
          numbered.1 wire security consensus profile profile_ruleset attestd ima_id ima_sha256 kernel
          measurements tcb approved numbered.2 collector pcrs qualification signer signature).

Definition parse_bundle (root : json) : option ReleaseApprovalBundleV1 :=
  aj ← at_key root "authority";
  authority ← parse_authority aj;
  j ← at_key root "approval";
  approval ← parse_approval j;
  Some (mkBundle authority approval).
End parsing.

(** ** Signatures and text *)

Section approval.
Context `{Sodium, SodiumMessages, TextCodec, HexCodec, ValueCodec}.

Definition canonical_release_authority_json (a : ReleaseAuthorityV1) : list Z := json_dump (authority_preimage a).
Definition canonical_release_approval_json (a : ReleaseApprovalV1) : list Z := json_dump (approval_preimage a).

Definition release_approval_digest (a : ReleaseApprovalV1) : Digest :=
  crypto_hash_sha256 (canonical_release_approval_json a).

Definition verify_ed25519 (public_key_b64 signature_b64 : string) (message : list Z) : bool :=
  verify_b64 public_key_b64 message signature_b64.

(** [json::parse] of the canonical text, with the signature added. [None]: the
    text does not parse and the function throws. *)
Definition signed_document (text : list Z) (key signature : string) : option json :=
  match json_parse text with
  | Some (JObject f) => Some (JObject (<[ key := JString signature ]> f))
  | _ => None
  end.

Definition release_approval_bundle_json (bundle : ReleaseApprovalBundleV1) : option (list Z) :=
  authority ← signed_document (canonical_release_authority_json (bd_authority bundle)) "genesis_signature"
                (ra_genesis_signature_b64 (bd_authority bundle));
  approval ← signed_document (canonical_release_approval_json (bd_approval bundle)) "signature"
               (rl_signature_b64 (bd_approval bundle));
  Some (json_dump (object [("authority", authority); ("approval", approval)])).

Definition parse_release_approval_bundle (text : list Z) : option ReleaseApprovalBundleV1 :=
  root ← json_parse text; parse_bundle root.

(** The bundle with empty signatures. [None]: the function throws. *)
Definition unsigned_release_bundle_json (a : ReleaseApprovalV1) : option (list Z) :=
  let authority := mkReleaseAuthority kReleaseAuthorityFormatVersion (rl_network_id_hex a) (rl_signer_pubkey_b64 a) "" in
  authority ← signed_document (canonical_release_authority_json authority) "genesis_signature" "";
  approval ← signed_document (canonical_release_approval_json a) "signature" "";
  Some (json_dump_indented (object [("authority", authority); ("approval", approval)])).

Definition verify_release_approval_signatures (bundle : ReleaseApprovalBundleV1)
    (genesis_public_key : Ed25519PublicKey) (expected_network_id : NetworkId) : bool :=
  let authority := bd_authority bundle in
  let a := bd_approval bundle in
  let expected_network_hex := to_hex (be_bytes 32 expected_network_id) in
  let authority_key := canonical_key_b64 (ra_release_signing_pubkey_b64 authority) in
  if negb (rl_format_version a =? kReleaseApprovalFormatV2) &&
     negb (rl_format_version a =? kReleaseApprovalFormatVersion) then false
  else if negb (ra_format_version authority =? kReleaseAuthorityFormatVersion) ||
          negb (String.eqb (ra_network_id_hex authority) expected_network_hex) then false
  else if is_empty authority_key ||
          negb (String.eqb authority_key (ra_release_signing_pubkey_b64 authority)) then false
  else if negb (verify_ed25519 (to_base64 (be_bytes 32 genesis_public_key)) (ra_genesis_signature_b64 authority)
                  (canonical_release_authority_json authority)) then false
  else if negb (String.eqb (rl_network_id_hex a) expected_network_hex) ||
          negb (String.eqb (rl_signer_pubkey_b64 a) authority_key) then false
  else verify_ed25519 authority_key (rl_signature_b64 a) (canonical_release_approval_json a).

Definition verify_release_approval_bundle (bundle : ReleaseApprovalBundleV1)
    (genesis_public_key : Ed25519PublicKey) (expected_network_id : NetworkId) : bool :=
  let a := bd_approval bundle in
  if negb (verify_release_approval_signatures bundle genesis_public_key expected_network_id) then false
  else if negb (compiled_release_fields_match a) then false
  else
    match approved_set (rl_approved_paths a) ∅ with
    | None => false
    | Some paths =>
        if negb (names_path "/usr/bin/lemonade-nexus" (rl_approved_paths a)) ||
           negb (names_path "/usr/bin/nexus-attestd" (rl_approved_paths a)) ||
           negb (String.eqb (rl_evidence_collector_path a) "/usr/bin/nexus-attestd") then false
        else if negb (previous_valid paths (rl_previous_release_paths a) ∅) then false
        else qualification_valid (rl_qualification_state a) (rl_expected_pcrs a)
    end.

(** A stream that does not open reads as an unavailable approval. *)
Definition load_release_approval_bundle (path : string) (genesis_public_key : Ed25519PublicKey)
    (expected_network_id : NetworkId) (d : Disk) : option ReleaseApprovalBundleV1 :=
  text ← DurableWrite.read_file path d;
  bundle ← parse_release_approval_bundle text;
  if verify_release_approval_bundle bundle genesis_public_key expected_network_id then Some bundle else None.

(** ** The generator *)

Record ReleaseArtifact := mkArtifact { ra_installed_path : string; ra_file : string; ra_sha256 : list string }.

Record ReleaseBundleSpec := mkSpec {
  sp_release_id : string;
  sp_nexus_version : string;
  sp_release_number : Z;
  sp_previous_release_paths : list ApprovedPath;
  sp_final_patched_tree : string;
  sp_network_id_hex : string;
  sp_signer_pubkey_b64 : string;
  sp_qualification_state : string;
  sp_expected_pcrs : list (Z * string);
  sp_source_commit : string;
  sp_starting_patched_tree : string;
  sp_ima_policy_id : string;
  sp_ima_policy_sha256 : string;
  sp_kernel : ReleaseKernelIdentityV1;
  sp_svsm_launch_measurements : list string;
  sp_artifacts : list ReleaseArtifact;
  sp_previous : option ReleaseApprovalV1;
  sp_previous_halted : bool;
}.

Definition sha256_of_file (file : string) (d : Disk) : option string :=
  (λ bytes, to_hex (be_bytes 32 (crypto_hash_sha256 bytes))) <$> DurableWrite.read_file file d.

Fixpoint has_adjacent (l : list string) : bool :=
  match l with
  | x :: (y :: _) as rest => String.eqb x y || has_adjacent rest
  | _ => false
  end.

(** The digests of one artifact. *)
Definition artifact_digests (artifact : ReleaseArtifact) (d : Disk) : option (list string) :=
  if negb (is_empty (ra_file artifact)) then digest ← sha256_of_file (ra_file artifact) d; Some [digest]
  else if bool_decide (ra_sha256 artifact = []) || negb (forallb valid_sha256 (ra_sha256 artifact)) then None
  else Some (add_hashes [] (ra_sha256 artifact)).

Fixpoint artifact_paths (artifacts : list ReleaseArtifact) (seen : gset string) (d : Disk)
    : option (list ApprovedPath * gset string) :=
  match artifacts with
  | [] => Some ([], seen)
  | artifact :: rest =>
      let path := ra_installed_path artifact in
      if is_empty path || negb (starts_with "/" path) || bool_decide (path ∈ seen) then None
      else
        digests ← artifact_digests artifact d;
        '(paths, seen) ← artifact_paths rest ({[ path ]} ∪ seen) d;
        Some (mkApprovedPath path digests :: paths, seen)
  end.

(** The signature of the previous approval. [None]: it is no base64 and the
    function throws. *)
Definition previous_signed (spec : ReleaseBundleSpec) (previous : ReleaseApprovalV1) : option bool :=
  signature ← from_base64 (rl_signature_b64 previous);
  signer ← from_base64 (sp_signer_pubkey_b64 spec);
  Some (String.eqb (rl_signer_pubkey_b64 previous) (sp_signer_pubkey_b64 spec) &&
        String.eqb (rl_network_id_hex previous) (sp_network_id_hex spec) &&
        (length signature =? 64)%nat && (length signer =? 32)%nat &&
        crypto_sign_ed25519_verify_detached (be_value signature) (canonical_release_approval_json previous)
          (be_value signer)).

(** The checks on the specification before the previous approval's signature. *)
Definition spec_complete (spec : ReleaseBundleSpec) : bool :=
  if is_empty (sp_release_id spec) || is_empty (sp_nexus_version spec) then false
  else if (sp_release_number spec =? 0) || (kMaxReleaseNumber <? sp_release_number spec) then false
  else if negb (valid_hex (sp_final_patched_tree spec) 40) then false
  else if negb (valid_hex (sp_network_id_hex spec) 64) then false
  else if negb (String.eqb (canonical_key_b64 (sp_signer_pubkey_b64 spec)) (sp_signer_pubkey_b64 spec)) ||
          is_empty (sp_signer_pubkey_b64 spec) then false
  else if negb (qualification_valid (sp_qualification_state spec) (sp_expected_pcrs spec)) then false
  else if negb (valid_hex (sp_source_commit spec) 40) || negb (valid_hex (sp_starting_patched_tree spec) 40) then false
  else if is_empty (rk_release (sp_kernel spec)) || negb (valid_hex (rk_bzimage_sha256 (sp_kernel spec)) 64) ||
          negb (valid_hex (rk_vmlinux_sha256 (sp_kernel spec)) 64) ||
          negb (valid_hex (rk_module_tree_sha256 (sp_kernel spec)) 64) ||
          negb (valid_hex (rk_module_certificate_der_sha256 (sp_kernel spec)) 64) ||
          is_empty (sp_ima_policy_id spec) || negb (valid_hex (sp_ima_policy_sha256 spec) 64) then false
  else if bool_decide (sp_svsm_launch_measurements spec = []) ||
          negb (forallb (λ h, valid_hex h 96) (sp_svsm_launch_measurements spec)) ||
          has_adjacent (sort_strings (sp_svsm_launch_measurements spec)) then false
  else if bool_decide (sp_artifacts spec = []) then false
  else if bool_decide (is_Some (sp_previous spec)) && negb (bool_decide (sp_previous_release_paths spec = [])) then false
  else negb (sp_previous_halted spec && negb (bool_decide (is_Some (sp_previous spec)))).

(** The paths carried over from the release before. *)
Definition carried_paths (spec : ReleaseBundleSpec) (seen : gset string) : list ApprovedPath :=
  match sp_previous spec with
  | None => sp_previous_release_paths spec
  | Some previous =>
      sp_previous_release_paths spec ++
      filter (λ p, ap_path p ∈ seen) (release_overlap_paths previous (sp_previous_halted spec))
  end.

(** The approval of a complete specification, from the artifacts on. *)
Definition assemble_approval (spec : ReleaseBundleSpec) (d : Disk) : option ReleaseApprovalV1 :=
  if kMaxSummarisedPaths <? Z.of_nat (length (sp_artifacts spec)) then None
  else
    '(approved, seen) ← artifact_paths (sp_artifacts spec) ∅ d;
    if negb (names_path "/usr/bin/lemonade-nexus" approved) ||
       negb (names_path "/usr/bin/nexus-attestd" approved) then None
    else
      let previous_paths := carried_paths spec seen in
      if negb (previous_valid seen previous_paths ∅) then None
      else
        Some (mkApproval kReleaseApprovalFormatVersion (sp_release_id spec) (sp_nexus_version spec)
                (sp_source_commit spec) (sp_starting_patched_tree spec) (sp_final_patched_tree spec)
                (sp_network_id_hex spec) (sp_release_number spec) kSecurityWireVersion kSecurityRulesetVersion
                kConsensusRulesetVersion "SnpSvsmVtpm" kAttestationProfileRulesetVersion kAttestdWireVersion
                (sp_ima_policy_id spec) (sp_ima_policy_sha256 spec) (sp_kernel spec)
                (sort_strings (sp_svsm_launch_measurements spec)) kReleaseMinTcb approved previous_paths
                "/usr/bin/nexus-attestd" (sp_expected_pcrs spec) (sp_qualification_state spec)
                (sp_signer_pubkey_b64 spec) "").

(** [None]: the function throws; [Some None]: the specification is refused. *)
Definition generate_release_approval (spec : ReleaseBundleSpec) (d : Disk) : option (option ReleaseApprovalV1) :=
  if negb (spec_complete spec) then Some None
  else
    match sp_previous spec with
    | None => Some (assemble_approval spec d)
    | Some previous =>
        signed ← previous_signed spec previous;
        if negb signed then Some None else Some (assemble_approval spec d)
    end.
End approval.
