(* ===== verification/PermissionTree.v ===== *)
(** * The permission tree service

    Models [Tree/PermissionTreeService.cpp] over the storage interface
    [TreeStorage]: the nodes in memory with the identifier index, the committed
    op ids, the application of operations and of whole committed blocks, the
    restore from the log, loading and closing, and the queries. A
    [std::lock_guard] on [mutex_] spans each operation, so an operation is one
    function on the state. Hooks are called after the lock is released with what
    the operation returns here: the removed nodes and the account deletions. *)

From S2P Require Import Prelude SecurityPolicy CanonicalEncoding ConsensusTypes DurableWrite Json EligibilityStore FileStorage.
From S2P Require Import TreeTypes LinkToken TreeRules TreeOps TreeValidation TreeLog NodeFiles.

Record AccountDeletion := mkAccountDeletion {
  ad_principal : string;
  ad_account_id : string;
  ad_removed : list TreeNode;
  ad_swept_keys : list string;
}.

Record RemovedNode := mkRemoved {
  rn_node : TreeNode;
  rn_own_device_left : bool;
}.

(** What an application hands to the hooks. *)
Record Notices := mkNotices {
  no_removed : list RemovedNode;
  no_accounts : list AccountDeletion;
}.

Record RetainedDelta := mkRetained {
  rd_position : Z;
  rd_record_hash : string;
  rd_operation : string;
  rd_target_node_id : string;
  rd_data : list Z;
  rd_signer_pubkey : string;
  rd_signature : string;
  rd_timestamp : Z;
}.

Record PermissionTree := mkTree {
  pt_nodes : NodeMap;
  pt_index : gmap string string;
  pt_recent_deltas : gmap string Z;
  pt_committed : CommittedOpIds;
  pt_unreadable : bool;
  pt_holds_files : bool;
}.

#[export] Instance eta_tree : Etable PermissionTree := λ t,
  mkTree (pt_nodes t) (pt_index t) (pt_recent_deltas t) (pt_committed t) (pt_unreadable t)
    (pt_holds_files t).

Definition new_tree : PermissionTree := mkTree ∅ ∅ ∅ ∅ false true.

(** The order in which an [std::unordered_map] of nodes is walked. *)
Class NodeOrder := {
  node_entries : NodeMap → list (string * TreeNode);
  node_entries_perm : ∀ m, node_entries m ≡ₚ map_to_list m;
}.

Definition set_identifier (index : gmap string string) (kv : string * TreeNode) : gmap string string :=
  if is_empty (tn_endpoint_identifier kv.2) then index
  else <[ tn_endpoint_identifier kv.2 := kv.1 ]> index.

(** The index built from nothing. *)
Definition build_index `{NodeOrder} (nodes : NodeMap) : gmap string string :=
  foldl set_identifier ∅ (node_entries nodes).

Section service.
Context `{TextCodec, HexCodec, FloatText, Sodium, SodiumMessages, NodeOrder, TreeStorage St}.
(** The retention sink, when it is set. *)
Context (sink : option (RetainedDelta → St → bool * St)).

Implicit Types (t : PermissionTree) (s : St).

(** ** Storage *)

Definition node_envelope (node : TreeNode) : SignedEnvelope :=
  mkEnvelope 1 "tree_node" (json_dump (node_to_json node)) (tn_mgmt_pubkey node) (tn_signature node) 0.

Definition persist_node (node : TreeNode) t s : bool * St :=
  if negb (pt_holds_files t) then (false, s) else write_node (tn_id node) (node_envelope node) s.

Definition remove_node (node_id : string) t s : bool * St :=
  if negb (pt_holds_files t) then (false, s) else delete_node node_id s.

Definition committed_ops_document (committed : CommittedOpIds) : json :=
  object [("format", JUnsigned 1);
          ("ids", JArray ((λ kv : string * Z, JArray [JString kv.1; JUnsigned kv.2])
                            <$> committed_sorted committed))].

Definition persist_committed_ops_locked t s : bool * St :=
  if negb (pt_holds_files t) then (false, s)
  else write_committed_ops (json_dump (committed_ops_document (pt_committed t))) s.

(** A failure is only logged. *)
Definition persist_committed_ops_after (verdict : TreeOpVerdict) t s : St :=
  match verdict with None => (persist_committed_ops_locked t s).2 | Some _ => s end.

(** ** Applying one effect *)

Definition reindex (old : option TreeNode) (node : TreeNode) (index : gmap string string)
    : gmap string string :=
  let index :=
    match old with
    | Some n =>
        if negb (is_empty (tn_endpoint_identifier n)) &&
           negb (String.eqb (tn_endpoint_identifier n) (tn_endpoint_identifier node))
        then delete (tn_endpoint_identifier n) index else index
    | None => index
    end in
  set_identifier index (tn_id node, node).

(** False: a write failed; the ones before it stay. *)
Fixpoint write_nodes (nodes : list TreeNode) t s : bool * PermissionTree * St :=
  match nodes with
  | [] => (true, t, s)
  | node :: rest =>
      let '(ok, s) := persist_node node t s in
      if negb ok then (false, t, s)
      else
        let old := pt_nodes t !! tn_id node in
        let t := t <| pt_index := reindex old node (pt_index t) |>
                   <| pt_nodes := <[ tn_id node := node ]> (pt_nodes t) |> in
        write_nodes rest t s
  end.

Fixpoint remove_nodes (ids : list string) t s : list RemovedNode * PermissionTree * St :=
  match ids with
  | [] => ([], t, s)
  | id :: rest =>
      match pt_nodes t !! id with
      | None => remove_nodes rest t s
      | Some node =>
          let t := t <| pt_index := (if is_empty (tn_endpoint_identifier node) then pt_index t
                                     else delete (tn_endpoint_identifier node) (pt_index t)) |>
                     <| pt_nodes := delete id (pt_nodes t) |> in
          let '(_, s) := remove_node id t s in
          let '(removed, t, s) := remove_nodes rest t s in
          (mkRemoved node false :: removed, t, s)
      end
  end.

Definition write_effect_locked (effect : TreeOpEffect) t s
    : bool * list RemovedNode * PermissionTree * St :=
  let '(ok, t, s) := write_nodes (writes effect) t s in
  if negb ok then (false, [], t, s)
  else
    let '(removed, t, s) := remove_nodes (removals effect) t s in
    (true, removed, t, s).

(** ** The delta log *)

Definition retained_delta (delta : TreeDelta) : RetainedDelta :=
  mkRetained 0 (digest_hex (crypto_hash_sha256 (canonical_delta_json delta))) (td_operation delta)
    (td_target_node_id delta) (json_dump (node_to_json (td_node_data delta))) (td_signer_pubkey delta)
    (td_signature delta) (td_timestamp delta).

Definition retain_applied_delta (delta : TreeDelta) s : bool * St :=
  match sink with
  | None => (true, s)
  | Some f => f (retained_delta delta) s
  end.

Definition record_applied_delta_locked (delta : TreeDelta) t s : Z * St :=
  if negb (pt_holds_files t) then (0, s)
  else
    let '(seq, s) := append_delta (mkSignedDelta 0 (td_operation delta) (td_target_node_id delta)
                       (json_dump (node_to_json (td_node_data delta))) (td_signer_pubkey delta) ""
                       (td_signature delta) (td_timestamp delta)) s in
    let '(_, s) := retain_applied_delta delta s in
    (seq, s).

(** ** Operations *)

(** The mark of a device's own leave. *)
Definition mark_own_leave (op : TreeOp) (r : RemovedNode) : RemovedNode :=
  mkRemoved (rn_node r)
    (String.eqb (tn_id (rn_node r)) (op_target op) &&
     String.eqb (canonical_principal (tn_mgmt_pubkey (rn_node r))) (canonical_principal (op_principal op))).

Definition apply_op_locked (op : TreeOp) t s : TreeOpVerdict * Notices * PermissionTree * St :=
  match plan_op op (pt_nodes t) with
  | inl refusal => (Some refusal, mkNotices [] [], t, s)
  | inr effect =>
      let swept := if bool_decide (op_kind op = DeleteAccount)
                   then swept_keys (account_scope (pt_nodes t) (op_principal op)) else [] in
      let '(ok, removed, t, s) := write_effect_locked effect t s in
      if negb ok
      then (Some (StorageError, "failed to persist node"%string), mkNotices removed [], t, s)
      else
        let removed := if is_own_device_removal op then mark_own_leave op <$> removed else removed in
        let accounts := if bool_decide (op_kind op = DeleteAccount)
                        then [mkAccountDeletion (op_principal op) (op_target op) (rn_node <$> removed) swept]
                        else [] in
        let t := t <| pt_committed := record_committed op (pt_committed t) |> in
        let s := if bool_decide (ob_source (op_body op) = Delta)
                 then (record_applied_delta_locked (ob_delta (op_body op)) t s).2 else s in
        (None, mkNotices removed accounts, t, s)
  end.

Definition app_notices (a b : Notices) : Notices :=
  mkNotices (no_removed a ++ no_removed b) (no_accounts a ++ no_accounts b).

(** The ops in order, up to the first that does not apply. *)
Fixpoint apply_ops (ops : list TreeOp) t s : TreeOpVerdict * Notices * PermissionTree * St :=
  match ops with
  | [] => (None, mkNotices [] [], t, s)
  | op :: rest =>
      match apply_op_locked op t s with
      | (Some refusal, notices, t, s) => (Some refusal, notices, t, s)
      | (None, notices, t, s) =>
          let '(verdict, more, t, s) := apply_ops rest t s in
          (verdict, app_notices notices more, t, s)
      end
  end.

Definition apply_committed_ops (ops : list TreeOp) (block_time_sec : Z) t s
    : TreeOpVerdict * Notices * PermissionTree * St :=
  let '(verdict, notices, t, s) := apply_ops ops t s in
  let t := t <| pt_committed := prune_signed_before (committed_id_cutoff block_time_sec) (pt_committed t) |> in
  (verdict, notices, t, persist_committed_ops_after None t s).

Definition apply_op (op : TreeOp) t s : TreeOpVerdict * Notices * PermissionTree * St :=
  let '(verdict, notices, t, s) := apply_op_locked op t s in
  (verdict, notices, t, persist_committed_ops_after verdict t s).

Definition validate_local_op (op : TreeOp) (policy : TreeOpPolicy) (block_time_sec : Z) t : TreeOpVerdict :=
  if pt_unreadable t then Some (StorageError, "committed op ids are unreadable"%string)
  else validate_op op (pt_nodes t) policy block_time_sec (pt_committed t).

Definition submit_local_op (op : TreeOp) (policy : TreeOpPolicy) (block_time_sec : Z) t s
    : TreeOpVerdict * Notices * PermissionTree * St :=
  match validate_local_op op policy block_time_sec t with
  | Some refusal => (Some refusal, mkNotices [] [], t, s)
  | None =>
      apply_op op (t <| pt_committed := prune_signed_before (committed_id_cutoff block_time_sec)
                                          (pt_committed t) |>) s
  end.

(** ** The restore from the log *)

Fixpoint persist_changed (entries : list (string * TreeNode)) t s : bool * St :=
  match entries with
  | [] => (true, s)
  | (id, node) :: rest =>
      let same := match pt_nodes t !! id with
                  | Some current => bool_decide (encode_tree_node current = encode_tree_node node)
                  | None => false
                  end in
      let '(ok, s) := if same then (true, s) else persist_node node t s in
      let '(rest_ok, s) := persist_changed rest t s in
      (ok && rest_ok, s)
  end.

Fixpoint remove_stale (nodes : NodeMap) (entries : list (string * TreeNode)) t s : bool * St :=
  match entries with
  | [] => (true, s)
  | (id, _) :: rest =>
      let '(ok, s) := match nodes !! id with Some _ => (true, s) | None => remove_node id t s end in
      let '(rest_ok, s) := remove_stale nodes rest t s in
      (ok && rest_ok, s)
  end.

Definition replace_all (nodes : NodeMap) (committed : CommittedOpIds) t s : bool * PermissionTree * St :=
  let t := t <| pt_committed := committed |> <| pt_unreadable := false |> in
  let '(stored, s) := persist_committed_ops_locked t s in
  let '(persisted, s) := persist_changed (node_entries nodes) t s in
  let '(removed, s) := remove_stale nodes (node_entries (pt_nodes t)) t s in
  let t := t <| pt_nodes := nodes |> <| pt_index := build_index nodes |> in
  (stored && persisted && removed, t, s).

Definition tree_digest t : Digest := compute_tree_digest (pt_nodes t).
Definition nodes_snapshot t : NodeMap := pt_nodes t.
Definition committed_ids t : CommittedOpIds := pt_committed t.
End service.

(** * The permission tree service: loading, queries and direct deltas

    The rest of [Tree/PermissionTreeService.cpp]: what a start loads from
    storage, [close], the queries the handlers ask, and [apply_delta], which
    changes the nodes without the consensus log. *)

Inductive DeltaAuthorization := Authorized | Denied | ContextMissing.

(** The two reasons for which a check of a signature ends without a verdict of
    the verifier: the code returns false, or the base64 decoder throws. *)
Inductive Outcome := Returned (b : bool) | Thrown.

Section service.
Context `{TextCodec, ValueCodec, HexCodec, FloatText, FloatRead, Sodium, SodiumMessages, NodeOrder, TreeStorage St}.
Context (sink : option (RetainedDelta → St → bool * St)).
Implicit Types (t : PermissionTree) (s : St).

(** ** Start and close *)

(** [None]: the file is skipped. *)
Definition load_node (s : St) (node_id : string) : option TreeNode :=
  envelope ← read_node node_id s;
  parsed ← json_parse (env_data envelope);
  node ← node_from_json parsed;
  if String.eqb (tn_id node) node_id then Some node else None.

Definition load_nodes (s : St) : NodeMap :=
  foldl (λ m id, match load_node s id with Some node => <[ tn_id node := node ]> m | None => m end)
    ∅ (list_nodes s).

Fixpoint load_committed_items (items : list json) (committed : CommittedOpIds) : bool * CommittedOpIds :=
  match items with
  | [] => (true, committed)
  | JArray [JString id; JUnsigned signed_at] :: rest =>
      load_committed_items rest (<[ id := signed_at ]> committed)
  | _ :: _ => (false, committed)
  end.

(** [None]: the "format" member has the wrong type and [value] throws. *)
Definition load_committed_ops_locked (t : PermissionTree) (s : St) : option PermissionTree :=
  match read_committed_ops s with
  | None => Some t
  | Some text =>
      match json_parse text with
      | Some (JObject f) =>
          format ← value_unsigned two32 (JObject f) "format" 0;
          match f !! "ids" with
          | Some (JArray items) =>
              if negb (format =? 1) then Some (t <| pt_unreadable := true |>)
              else
                let '(ok, committed) := load_committed_items items (pt_committed t) in
                let t := t <| pt_committed := committed |> in
                Some (if ok then t else t <| pt_unreadable := true |>)
          | _ => Some (t <| pt_unreadable := true |>)
          end
      | _ => Some (t <| pt_unreadable := true |>)
      end
  end.

Definition on_start (t : PermissionTree) (s : St) : option PermissionTree :=
  let nodes := load_nodes s in
  load_committed_ops_locked (mkTree nodes (build_index nodes) ∅ ∅ false true) s.

Definition close (t : PermissionTree) : PermissionTree := mkTree ∅ ∅ ∅ ∅ false false.

Definition is_open (t : PermissionTree) : bool := pt_holds_files t.

(** ** Queries *)

Definition do_get_node (node_id : string) t : option TreeNode := pt_nodes t !! node_id.

Definition is_mgmt_pubkey_in_use (mgmt_pubkey : string) t : bool :=
  if is_empty mgmt_pubkey then false
  else existsb (λ kv, same_principal (tn_mgmt_pubkey kv.2) mgmt_pubkey) (node_entries (pt_nodes t)).

Definition service_administers (signer node_id : string) t : bool :=
  administers (pt_nodes t) node_id signer.

Definition service_removes_own_device (signer node_id : string) t : bool :=
  removes_own_device (pt_nodes t) node_id signer (derive_join_node_id signer).

Definition may_connect (principal from_node_id to_node_id : string) t : bool :=
  match pt_nodes t !! from_node_id, pt_nodes t !! to_node_id with
  | Some from, Some to => endpoint_may_connect (pt_nodes t) principal from to
  | _, _ => false
  end.

Definition authorize_delta_statement (operation target_node_id : string) (node_data : json)
    (signer_pubkey : string) t : DeltaAuthorization :=
  let required := required_permission_for operation in
  if required =? PermNone then Denied
  else
    let check_node_id :=
      if String.eqb operation "create_node"
      then match node_data with
           | JObject f => match f !! "parent_id" with Some (JString id) => id | _ => "" end
           | _ => ""
           end
      else target_node_id in
    if is_empty check_node_id then ContextMissing
    else
      match pt_nodes t !! check_node_id with
      | None => ContextMissing
      | Some node => if signer_has_permission node signer_pubkey required then Authorized else Denied
      end.

(** The first entry of the signer decides. *)
Fixpoint first_entry_grants (assignments : list Assignment) (signer : string) (perm : Z) : bool :=
  match assignments with
  | [] => false
  | a :: rest =>
      if same_principal (management_pubkey a) signer then assignment_grants perm a
      else first_entry_grants rest signer perm
  end.

Definition do_check_permission (signer_pubkey node_id : string) (perm : Z) t : bool :=
  match pt_nodes t !! node_id with
  | None => false
  | Some node => first_entry_grants (tn_assignments node) signer_pubkey perm
  end.

Definition do_get_children (parent_id : string) t : list TreeNode :=
  filter (λ n, tn_parent_id n = parent_id) (node_entries (pt_nodes t)).*2.

Definition do_get_nodes_by_type (type : NodeType) t : list TreeNode :=
  filter (λ n, tn_type n = type) (node_entries (pt_nodes t)).*2.

(** ** Endpoint identifiers *)

Definition node_endpoint_identifier (node : TreeNode) : string :=
  derive_endpoint_identifier (tn_id node) (tn_region node) (tn_cpu_id node) (tn_net_mac node)
    (tn_is_inference node).

Definition validate_identifier_binding (node : TreeNode) : bool :=
  negb (is_empty (tn_endpoint_identifier node)) &&
  String.eqb (tn_endpoint_identifier node) (node_endpoint_identifier node).

Definition resolve_by_identifier (identifier : string) t : option TreeNode :=
  id ← pt_index t !! identifier; pt_nodes t !! id.

Definition resolve_authorized (caller_pubkey caller_node_id identifier : string) t : option TreeNode :=
  match resolve_by_identifier identifier t with
  | None => None
  | Some target =>
      if negb (validate_identifier_binding target) then None
      else if negb (may_connect caller_pubkey caller_node_id (tn_id target) t) then None
      else Some target
  end.

(** ** Walks down *)

(** One parent's children, in order: those not seen before are taken, up to
    [max_nodes] in all. True: the limit was met. *)
Fixpoint take_children (max_nodes : nat) (children : list TreeNode)
    (acc : gset string * list TreeNode * list string) : bool * (gset string * list TreeNode * list string) :=
  match children with
  | [] => (false, acc)
  | child :: rest =>
      let '(visited, result, next) := acc in
      if bool_decide (tn_id child ∈ visited) then take_children max_nodes rest acc
      else
        let acc := ({[ tn_id child ]} ∪ visited, result ++ [child], next ++ [tn_id child]) in
        if (max_nodes <=? length (result ++ [child]))%nat
        then (true, ({[ tn_id child ]} ∪ visited, result ++ [child], next))
        else take_children max_nodes rest acc
  end.

Fixpoint take_level (max_nodes : nat) (nodes : list TreeNode) (frontier : list string)
    (acc : gset string * list TreeNode * list string) : bool * (gset string * list TreeNode * list string) :=
  match frontier with
  | [] => (false, acc)
  | pid :: rest =>
      let '(full, acc) := take_children max_nodes (filter (λ n, tn_parent_id n = pid) nodes) acc in
      if full then (true, acc) else take_level max_nodes nodes rest acc
  end.

Fixpoint collect (max_depth : nat) (max_nodes : nat) (nodes : list TreeNode) (frontier : list string)
    (visited : gset string) (result : list TreeNode) : list TreeNode :=
  match max_depth with
  | O => result
  | S deeper =>
      match frontier with
      | [] => result
      | _ =>
          let '(full, (visited, result, next)) := take_level max_nodes nodes frontier (visited, result, []) in
          if full then result else collect deeper max_nodes nodes next visited result
      end
  end.

Definition collect_subtree (root_parent_id : string) (max_depth max_nodes : nat) t : list TreeNode :=
  collect max_depth max_nodes (node_entries (pt_nodes t)).*2 [root_parent_id] {[ root_parent_id ]} [].

(** ** Walks up *)

Fixpoint descends (fuel : nat) (nodes : NodeMap) (ancestor : string) (visited : gset string) (current : string)
    : bool :=
  match fuel with
  | O => false
  | S fuel' =>
      if bool_decide (current ∈ visited) then false
      else
        match nodes !! current with
        | None => false
        | Some node =>
            if is_empty (tn_parent_id node) then false
            else if String.eqb (tn_parent_id node) ancestor then true
            else descends fuel' nodes ancestor ({[ current ]} ∪ visited) (tn_parent_id node)
        end
  end.

Definition is_descendant_of (node_id ancestor_id : string) t : bool :=
  if String.eqb node_id ancestor_id then false
  else descends (loop_fuel (pt_nodes t)) (pt_nodes t) ancestor_id ∅ node_id.

Definition canonical_node_json (node : TreeNode) : list Z :=
  json_dump (object (filter (λ kv : string * json, kv.1 ≠ "signature") (node_fields node))).

(** A base64 signature over [msg] by the key of an ["ed25519:..."] principal. *)
Definition principal_signed (principal : string) (msg : list Z) (signature : string) : Outcome :=
  if negb (starts_with kEd25519Prefix principal) then Returned false
  else
    match from_base64 (string_drop (String.length kEd25519Prefix) principal) with
    | None => Thrown
    | Some pk =>
        if negb (bool_decide (length pk = 32%nat)) then Returned false
        else
          match from_base64 signature with
          | None => Thrown
          | Some sig =>
              if negb (bool_decide (length sig = 64%nat)) then Returned false
              else Returned (crypto_sign_ed25519_verify_detached (be_value sig) msg (be_value pk))
          end
    end.

Definition node_signed_by (principal : string) (node : TreeNode) : Outcome :=
  principal_signed principal (canonical_node_json node) (tn_signature node).

Fixpoint signature_walk (fuel : nat) (nodes : NodeMap) (visited : gset string) (current : string) : Outcome :=
  match fuel with
  | O => Returned false
  | S fuel' =>
      if bool_decide (current ∈ visited) then Returned false
      else
        match nodes !! current with
        | None => Returned false
        | Some node =>
            if is_type (tn_type node) Root then node_signed_by (tn_mgmt_pubkey node) node
            else
              match nodes !! tn_parent_id node with
              | None => Returned false
              | Some parent =>
                  match node_signed_by (tn_mgmt_pubkey parent) node with
                  | Returned true => signature_walk fuel' nodes ({[ current ]} ∪ visited) (tn_parent_id node)
                  | outcome => outcome
                  end
              end
        end
  end.

Definition do_validate_signature_chain (node_id : string) t : Outcome :=
  signature_walk (loop_fuel (pt_nodes t)) (pt_nodes t) ∅ node_id.

Definition do_get_tree_hash t : Digest :=
  crypto_hash_sha256 (mjoin ((λ id, be_bytes 32 (crypto_hash_sha256 (canonical_node_json (node_at (pt_nodes t) id))))
                               <$> sorted_ids (pt_nodes t))).

(** ** Direct deltas *)

Definition kMaxAgeSec : Z := 300.
Definition kMaxFutureSec : Z := 60.
Definition kEvictAfterMs : Z := 600000.

Definition evict_replay_cache (now_ms : Z) t : PermissionTree :=
  t <| pt_recent_deltas := filter (λ kv : string * Z, now_ms -64 kv.2 <= kEvictAfterMs) (pt_recent_deltas t) |>.

Definition delta_fresh (delta : TreeDelta) (now_sec : Z) : bool :=
  negb (td_timestamp delta =? 0) && negb (td_timestamp delta +64 kMaxAgeSec <? now_sec) &&
  negb (now_sec +64 kMaxFutureSec <? td_timestamp delta).

(** The permission on the node asked, and the content rules. *)
Definition delta_permitted (delta : TreeDelta) (nodes : NodeMap) : bool :=
  let required := required_permission_for (td_operation delta) in
  if required =? PermNone then false
  else
    let check_node_id := if String.eqb (td_operation delta) "create_node"
                         then tn_parent_id (td_node_data delta) else td_target_node_id delta in
    match nodes !! check_node_id with
    | None => false
    | Some node =>
        signer_has_permission node (td_signer_pubkey delta) required &&
        bool_decide (delta_content_refusal nodes delta = None)
    end.

Definition write_delta (delta : TreeDelta) t s : bool * PermissionTree * St :=
  let node := td_node_data delta in
  let op := td_operation delta in
  if String.eqb op "create_node" then
    match pt_nodes t !! tn_id node with
    | Some _ => (false, t, s)
    | None =>
        let '(ok, s) := persist_node node t s in
        if ok then (true, t <| pt_nodes := <[ tn_id node := node ]> (pt_nodes t) |>, s) else (false, t, s)
    end
  else if String.eqb op "update_node" || String.eqb op "allocate_ip" || String.eqb op "register_relay" ||
          String.eqb op "update_assignment" then
    match pt_nodes t !! td_target_node_id delta with
    | None => (false, t, s)
    | Some _ =>
        let t := t <| pt_nodes := <[ td_target_node_id delta := node ]> (pt_nodes t) |> in
        let '(ok, s) := persist_node node t s in (ok, t, s)
    end
  else if String.eqb op "delete_node" then
    match pt_nodes t !! td_target_node_id delta with
    | None => (false, t, s)
    | Some _ =>
        let t := t <| pt_nodes := delete (td_target_node_id delta) (pt_nodes t) |> in
        (true, t, (remove_node (td_target_node_id delta) t s).2)
    end
  else (true, t, s).

(** The three readings of the clocks: the wall clock, the steady clock when the
    delta is remembered and when old ones are evicted. *)
Definition do_apply_delta (delta : TreeDelta) (now_sec now_ms evict_ms : Z) t s
    : Outcome * PermissionTree * St :=
  if negb (delta_permitted delta (pt_nodes t)) then (Returned false, t, s)
  else
    match principal_signed (td_signer_pubkey delta) (canonical_delta_json delta) (td_signature delta) with
    | Thrown => (Thrown, t, s)
    | Returned false => (Returned false, t, s)
    | Returned true =>
        if negb (delta_fresh delta now_sec) then (Returned false, t, s)
        else
          let hash_hex := digest_hex (crypto_hash_sha256 (canonical_delta_json delta)) in
          match pt_recent_deltas t !! hash_hex with
          | Some _ => (Returned false, t, s)
          | None =>
              let t := evict_replay_cache evict_ms
                         (t <| pt_recent_deltas := <[ hash_hex := now_ms ]> (pt_recent_deltas t) |>) in
              let '(ok, t, s) := write_delta delta t s in
              if negb ok then (Returned false, t, s)
              else (Returned true, t, (record_applied_delta_locked sink delta t s).2)
          end
    end.
End service.
