(* ===== verification/TreeReplication.v ===== *)
(** * Evidence of replicated log entries

    Models [Tree/TreeReplication.cpp]: what a server checks of a log entry that
    a peer delivers, before anything of it is acted on, and the form of an entry
    on the stream. The msgpack form is nlohmann's and a parameter. *)

From S2P Require Import Prelude SecurityPolicy CanonicalEncoding Json ConsensusTypes ConsensusRecords.
From S2P Require Import QuorumValidation EpochAuthority EligibilityStore TreeTypes LinkToken TreeRules.
From S2P Require Import TreeOps TreeValidation TreeCodec TreeLog TreeLogFacts.

Inductive EntryEvidence := EvidenceOk | UnknownEpoch | EvidenceRefused.

#[export] Instance evidence_eq_dec : EqDecision EntryEvidence.
Proof. solve_decision. Defined.

Record EntryEvidenceVerdict := mkEvidence {
  ev_result : EntryEvidence;
  ev_reason : string;
  ev_epoch : EpochId;
}.

Definition refused (reason : string) (epoch : EpochId) : EntryEvidenceVerdict :=
  mkEvidence EvidenceRefused reason epoch.

Definition commit_proof_failure_name (failure : CommitProofFailure) : string :=
  match failure with
  | CpNone => "none" | WrongShape => "wrong shape" | WrongTransitions => "wrong transitions digest"
  | ContextMismatch => "wrong network, epoch or ruleset" | BrokenChain => "broken chain"
  | CertificateInvalid => "certificate invalid"
  end.

Definition entry_epoch (entry : TreeLogEntry) : EpochId :=
  if negb (bool_decide (lg_kind entry = EntryBatch)) then 0
  else match lg_commit entry !! "epoch"%string with
  | Some (JUnsigned epoch) => epoch
  | _ => 0
  end.

Definition kMaxReplicatedEntryBytes : Z := 16 * 1024 * 1024.

Class MsgPack := {
  to_msgpack : json → list Z;
  from_msgpack : list Z → option json;
}.

Class MsgPackLaws `{MsgPack} := {
  msgpack_round_trip : ∀ j, json_fits j → from_msgpack (to_msgpack j) = Some j;
  msgpack_nonempty : ∀ j, to_msgpack j ≠ [];
}.

Section replication.
Context `{TextCodec, HexCodec, FloatText, Sodium, SodiumMessages}.

(** The header against the network, the rulesets and the entry. *)
Definition header_refusal (entry : TreeLogEntry) (network_id : NetworkId) (epoch : EpochId)
    (header : Proposal) : option string :=
  if negb (p_network_id header =? network_id) || negb (p_epoch header =? epoch)
     || negb (p_security_ruleset header =? kSecurityRulesetVersion)
     || negb (p_consensus_ruleset header =? kConsensusRulesetVersion)
  then Some "the header names another network, epoch, or ruleset"%string
  else if negb (p_timestamp_hint header =? lg_block_time_ms entry)
     || negb (p_transitions_digest header =? lg_ops_digest entry)
     || negb (p_previous_state_root header =? lg_previous_root entry)
     || negb (p_proposed_state_root header =? lg_state_root entry)
  then Some "the entry contradicts its certified header"%string
  else if negb (batch_digest (lg_batch entry) =? lg_ops_digest entry)
  then Some "the batch does not match the certified ops digest"%string
  else None.

(** The authority and the commit proof. *)
Definition authority_verdict (entry : TreeLogEntry) (network_id : NetworkId) (epoch : EpochId)
    (proof : CommitProof) (known : option VerifiedEpochAuthority) : EntryEvidenceVerdict :=
  match known with
  | None =>
      mkEvidence UnknownEpoch
        ("the authority of epoch " +:+ pretty (Z.to_N epoch) +:+ " is not verified here yet") epoch
  | Some known =>
      if negb (au_epoch known =? epoch) || negb (au_network_id known =? network_id)
      then refused "the epoch authority source answered for another epoch" epoch
      else
        match verify_commit_proof (lg_ops_digest entry) proof
                (mkContext kConsensusRulesetVersion network_id epoch (au_consensus_quorum known))
                (au_vote_keys known) with
        | CpNone => mkEvidence EvidenceOk "" epoch
        | failure =>
            refused ("the commit proof does not verify under epoch " +:+ pretty (Z.to_N epoch) +:+
                     "'s vote keys (" +:+ commit_proof_failure_name failure +:+ ")") epoch
        end
  end.

Definition verify_certified_entry (entry : TreeLogEntry) (network_id : NetworkId)
    (authority : option (EpochId → option VerifiedEpochAuthority)) : EntryEvidenceVerdict :=
  if negb (bool_decide (lg_kind entry = EntryBatch)) then refused "not a consensus entry" 0
  else
    let epoch := entry_epoch entry in
    if epoch =? 0 then refused "the entry names no consensus epoch" 0
    else match lg_commit entry !! "proposal"%string, lg_commit entry !! "proof"%string with
    | Some header_json, Some proof_json =>
        match proposal_from_json header_json, commit_proof_from_json proof_json with
        | Some header, Some proof =>
            match cp_chain proof with
            | [b0; _; _] =>
                if negb (proposal_digest (cb_proposal b0) =? proposal_digest header)
                then refused "the commit proof does not commit the recorded header" epoch
                else match header_refusal entry network_id epoch header with
                | Some reason => refused reason epoch
                | None =>
                    authority_verdict entry network_id epoch proof
                      (match authority with Some lookup => lookup epoch | None => None end)
                end
            | _ => refused "the commit proof does not commit the recorded header" epoch
            end
        | _, _ => refused "the consensus evidence is malformed" epoch
        end
    | _, _ => refused "the entry carries no commit proof" epoch
    end.

(** ** The stream *)

Definition encode_replicated_entry `{MsgPack} (entry : TreeLogEntry) : list Z :=
  to_msgpack (tree_log_entry_to_json entry).

Definition decode_replicated_entry `{MsgPack} (bytes : list Z) : option TreeLogEntry :=
  if bool_decide (bytes = []) || (kMaxReplicatedEntryBytes <? Z.of_nat (length bytes)) then None
  else doc ← from_msgpack bytes; tree_log_entry_from_json doc.

(** ** What the evidence shows *)

(** The entry is the block a commit proof of its epoch's members commits. *)
Record certified_by (known : VerifiedEpochAuthority) (network_id : NetworkId) (entry : TreeLogEntry)
    (proof : CommitProof) : Prop := mkCertified {
  cf_kind : lg_kind entry = EntryBatch;
  cf_authority : au_epoch known = entry_epoch entry ∧ au_network_id known = network_id;
  cf_payload : batch_digest (lg_batch entry) = lg_ops_digest entry;
  cf_proof : verify_commit_proof (lg_ops_digest entry) proof
               (mkContext kConsensusRulesetVersion network_id (entry_epoch entry)
                  (au_consensus_quorum known)) (au_vote_keys known) = CpNone;
  cf_header : ∃ header b0 b1 b2, cp_chain proof = [b0; b1; b2] ∧
    proposal_digest (cb_proposal b0) = proposal_digest header ∧
    p_previous_state_root header = lg_previous_root entry ∧
    p_proposed_state_root header = lg_state_root entry ∧
    p_timestamp_hint header = lg_block_time_ms entry ∧ p_network_id header = network_id ∧
    p_epoch header = entry_epoch entry;
}.

Lemma evidence_certifies entry network_id authority reason epoch :
  verify_certified_entry entry network_id authority = mkEvidence EvidenceOk reason epoch →
  epoch = entry_epoch entry ∧ ∃ lookup known proof, authority = Some lookup ∧
    lookup (entry_epoch entry) = Some known ∧ certified_by known network_id entry proof.
Proof.
  unfold verify_certified_entry. destruct (bool_decide_reflect (lg_kind entry = EntryBatch)) as [Hk|]; [|done].
  cbn [negb]. destruct (entry_epoch entry =? 0); [done|].
  destruct (lg_commit entry !! _) as [hj|]; [|done]. destruct (lg_commit entry !! _) as [pj|]; [|done].
  destruct (proposal_from_json hj) as [header|]; [|done]. destruct (commit_proof_from_json pj) as [proof|]; [|done].
  destruct (cp_chain proof) as [|b0 [|b1 [|b2 [|]]]] eqn:Ec; try done.
  destruct (Z.eqb_spec (proposal_digest (cb_proposal b0)) (proposal_digest header)) as [Ed|]; [|done]. cbn [negb].
  destruct (header_refusal entry network_id (entry_epoch entry) header) eqn:Eh; [done|].
  destruct authority as [lookup|]; [|done]. unfold authority_verdict.
  destruct (lookup (entry_epoch entry)) as [known|] eqn:El; [|done].
  destruct (negb (au_epoch known =? entry_epoch entry) || negb (au_network_id known =? network_id)) eqn:Ea; [done|].
  destruct (verify_commit_proof _ _ _ _) eqn:Ev; try done. intros [= _ <-]. split; [done|].
  exists lookup, known, proof. split; [done|]. split; [done|].
  unfold header_refusal in Eh. repeat case_match; try done.
  rewrite ?orb_false_iff, ?negb_false_iff, ?Z.eqb_eq in *. destruct_and?. split; try done.
  exists header, b0, b1, b2. split_and!; done.
Qed.

Lemma replicated_round_trip `{!TextCodecLaws, !MsgPack, !MsgPackLaws} entry :
  storable_entry entry → Z.of_nat (length (encode_replicated_entry entry)) <= kMaxReplicatedEntryBytes →
  decode_replicated_entry (encode_replicated_entry entry) = Some entry.
Proof.
  intros He Hlen. unfold decode_replicated_entry, encode_replicated_entry in *.
  rewrite bool_decide_false by apply msgpack_nonempty. rewrite (proj2 (Z.ltb_ge _ _)) by done. cbn [orb].
  rewrite msgpack_round_trip by by apply entry_fits. cbn [mbind option_bind]. by apply entry_round_trip.
Qed.
End replication.
