(* ===== verification/Sync.v ===== *)
(** * Replicas of origin-sequenced entries, and entries in chunks

    Models [Sync/OriginReplica.cpp] (the last-writer-wins replica of one stream,
    its digests in pages and the catch-up requests), the loop of
    [GossipService::handle_sync_request] that answers them, and
    [Sync/EntryChunks.cpp] (an entry split into datagrams and joined again). Each
    call holds the object's mutex, so it is one function on the state. XXH3 and
    the size of a MessagePack text are parameters. The order in which an
    [std::unordered_map] is walked depends on its history and not only on its
    entries, so every function that walks the entries takes the walk as an
    argument: any enumeration of the entries. *)

From S2P Require Import Prelude SecurityPolicy CanonicalEncoding Json TreeTypes.

Definition kMaxWireOrigins : Z := 1024.
Definition kMaxOriginIdBytes : Z := 128.
Definition kMaxStreamNameBytes : Z := 32.
Definition kMaxDigestPages : Z := 256.
Definition kDefaultMaxReplicaEntries : Z := 65536.
Definition kSyncMaxEntriesPerRequest : nat := 256.

Record ReplicaEntry := mkReplicaEntry {
  re_key : string;
  re_origin : string;
  re_seq : Z;
  re_timestamp : Z;
  re_tombstone : bool;
  re_payload : list Z;
}.

#[export] Instance replica_entry_eq_dec : EqDecision ReplicaEntry.
Proof. solve_decision. Defined.

Record OriginSummary := mkSummary {
  os_max_seq : Z;
  os_count : Z;
  os_hash : Z;
}.

#[export] Instance origin_summary_eq_dec : EqDecision OriginSummary.
Proof. solve_decision. Defined.

Definition no_summary : OriginSummary := mkSummary 0 0 0.

(** [std::map<std::string, OriginSummary>] *)
Notation SyncDigest := (gmap string OriginSummary).

Record DigestPage := mkPage {
  dp_stream : string;
  dp_round : Z;
  dp_page : Z;
  dp_pages : Z;
  dp_origins : SyncDigest;
}.

Record CatchUpRequest := mkCatchUp {
  cu_origin : string;
  cu_since : Z;
}.

Record PeerSyncStatus := mkSyncStatus {
  ps_last_digest_ms : Z;
  ps_in_sync : bool;
  ps_origins_we_lack : Z;
  ps_origins_peer_lacks : Z;
}.

Inductive OfferResult := OfferStored | OfferStale | OfferFull | OfferInvalid.

Record PeerRecord := mkPeerRecord {
  pr_digest : SyncDigest;
  pr_last_digest_ms : Z;
  pr_in_sync : bool;
  pr_pending_round : Z;
  pr_pending_pages : Z;
  pr_pending_seen : gset Z;
  pr_pending : SyncDigest;
}.

#[export] Instance eta_peer_record : Etable PeerRecord := λ r,
  mkPeerRecord (pr_digest r) (pr_last_digest_ms r) (pr_in_sync r) (pr_pending_round r)
    (pr_pending_pages r) (pr_pending_seen r) (pr_pending r).

Definition new_peer_record : PeerRecord := mkPeerRecord ∅ 0 false 0 0 ∅ ∅.

Record OriginReplica := mkReplica {
  rp_last_local_seq : Z;
  rp_version : Z;
  rp_entries : gmap string ReplicaEntry;
  rp_peers : gmap string PeerRecord;
}.

#[export] Instance eta_replica : Etable OriginReplica := λ r,
  mkReplica (rp_last_local_seq r) (rp_version r) (rp_entries r) (rp_peers r).

Definition new_replica : OriginReplica := mkReplica 0 0 ∅ ∅.

Class SyncRuntime := { XXH3_64bits : list Z → Z }.

(** One walk of the [unordered_map] of entries: it meets every entry once, in
    any order. *)
Record EntryWalk := mkEntryWalk {
  entry_walk :> gmap string ReplicaEntry → list ReplicaEntry;
  entry_walk_perm : ∀ m, entry_walk m ≡ₚ (map_to_list m).*2;
}.

(** ** The order *)

(** [std::tie(ts_a, seq_a) > std::tie(ts_b, seq_b)] *)
Definition newer (ts_a seq_a ts_b seq_b : Z) : bool :=
  (ts_b <? ts_a) || ((ts_a =? ts_b) && (seq_b <? seq_a)).

Definition entry_newer (a b : ReplicaEntry) : bool :=
  newer (re_timestamp a) (re_seq a) (re_timestamp b) (re_seq b).

Definition next_local_seq (now_ms : Z) (r : OriginReplica) : Z * OriginReplica :=
  let seq := Z.max (rp_last_local_seq r +64 1) now_ms in
  (seq, r <| rp_last_local_seq := seq |>).

Definition holds_newer (key : string) (timestamp seq : Z) (r : OriginReplica) : bool :=
  match rp_entries r !! key with
  | Some held => newer (re_timestamp held) (re_seq held) timestamp seq
  | None => false
  end.

Definition store_entry (entry : ReplicaEntry) (r : OriginReplica) : OriginReplica :=
  r <| rp_entries := <[ re_key entry := entry ]> (rp_entries r) |> <| rp_version := rp_version r +64 1 |>.

Definition offer (max_entries : Z) (entry : ReplicaEntry) (r : OriginReplica) : OfferResult * OriginReplica :=
  if String.eqb (re_key entry) "" || String.eqb (re_origin entry) "" then (OfferInvalid, r)
  else
    match rp_entries r !! re_key entry with
    | None =>
        if max_entries <=? Z.of_nat (size (rp_entries r)) then (OfferFull, r)
        else (OfferStored, store_entry entry r)
    | Some held =>
        if negb (entry_newer entry held) then (OfferStale, r) else (OfferStored, store_entry entry r)
    end.

(** ** Pruning *)

Definition drop_entries (doomed : string * ReplicaEntry → bool) (r : OriginReplica) : Z * OriginReplica :=
  let kept := filter (λ kv : string * ReplicaEntry, doomed kv = false) (rp_entries r) in
  let removed := Z.of_nat (size (rp_entries r)) - Z.of_nat (size kept) in
  (removed, if removed =? 0 then r <| rp_entries := kept |>
            else r <| rp_entries := kept |> <| rp_version := rp_version r +64 1 |>).

Definition prune_tombstones (cutoff : Z) : OriginReplica → Z * OriginReplica :=
  drop_entries (λ kv, re_tombstone kv.2 && (re_timestamp kv.2 <? cutoff)).

Definition prune_expired (cutoff : Z) : OriginReplica → Z * OriginReplica :=
  drop_entries (λ kv, re_timestamp kv.2 <? cutoff).

Definition erase_keys (matches : string → bool) : OriginReplica → Z * OriginReplica :=
  drop_entries (λ kv, matches kv.1).

Definition clear (r : OriginReplica) : OriginReplica :=
  r <| rp_entries := ∅ |> <| rp_peers := ∅ |> <| rp_version := rp_version r +64 1 |>.

Section digests.
Context `{SyncRuntime}.

Definition entry_hash (e : ReplicaEntry) : Z :=
  XXH3_64bits (string_bytes (re_key e) ++ [0] ++ le_bytes 8 (re_seq e) ++ [if re_tombstone e then 1 else 0]).

(** ** Digests *)

Definition add_to_digest (d : SyncDigest) (e : ReplicaEntry) : SyncDigest :=
  if re_seq e =? 0 then d
  else
    let s := default no_summary (d !! re_origin e) in
    <[ re_origin e := mkSummary (Z.max (os_max_seq s) (re_seq e)) (os_count s +64 1)
                        (Z.lxor (os_hash s) (entry_hash e)) ]> d.

Definition digest_of (walk : EntryWalk) (r : OriginReplica) : SyncDigest :=
  foldl add_to_digest ∅ (walk (rp_entries r)).

(** The origins of a digest in the order of its [std::map]. *)
Definition digest_rows (d : SyncDigest) : list (string * OriginSummary) :=
  (λ o, (o, default no_summary (d !! o))) <$> sort_strings (map_to_list d).*1.

Definition plan_row (ours : SyncDigest) (row : string * OriginSummary) : option CatchUpRequest :=
  let theirs := row.2 in
  if os_count theirs =? 0 then None
  else
    let mine := default no_summary (ours !! row.1) in
    if os_max_seq mine <? os_max_seq theirs then Some (mkCatchUp row.1 (os_max_seq mine))
    else if (os_max_seq theirs =? os_max_seq mine) && negb (bool_decide (theirs = mine))
    then Some (mkCatchUp row.1 0)
    else None.

Definition plan_catch_up (walk : EntryWalk) (peer : SyncDigest) (r : OriginReplica) : list CatchUpRequest :=
  omap (plan_row (digest_of walk r)) (digest_rows peer).

Definition seq_le (a b : ReplicaEntry) : Prop := re_seq a <= re_seq b.
#[local] Instance seq_le_dec : RelDecision seq_le.
Proof. intros a b. unfold seq_le. apply _. Defined.

(** The walk also decides the order that [std::sort] gives entries of one number. *)
Definition entries_since (walk : EntryWalk) (origin : string) (since : Z) (max : nat) (r : OriginReplica)
    : list ReplicaEntry :=
  take max (merge_sort seq_le
    (filter (λ e, re_seq e ≠ 0 ∧ since < re_seq e ∧ re_origin e = origin) (walk (rp_entries r)))).

(** The answer to one message of requests: at most [limit] entries in all. *)
Fixpoint serve_requests (walk : EntryWalk) (limit : nat) (requests : list CatchUpRequest) (r : OriginReplica)
    : list ReplicaEntry :=
  match requests with
  | [] => []
  | req :: rest =>
      if (limit =? 0)%nat then []
      else
        let entries := entries_since walk (cu_origin req) (cu_since req) limit r in
        entries ++ serve_requests walk (limit - length entries) rest r
  end.

(** ** Peers *)

Definition compare_origin (ours theirs : SyncDigest) (s : PeerSyncStatus) (o : string) : PeerSyncStatus :=
  let mine := default no_summary (ours !! o) in
  let peer := default no_summary (theirs !! o) in
  if bool_decide (mine = peer) then s
  else
    let we := ps_origins_we_lack s in
    let they := ps_origins_peer_lacks s in
    if os_max_seq mine <? os_max_seq peer
    then mkSyncStatus (ps_last_digest_ms s) (ps_in_sync s) (we + 1) they
    else if os_max_seq peer <? os_max_seq mine
    then mkSyncStatus (ps_last_digest_ms s) (ps_in_sync s) we (they + 1)
    else mkSyncStatus (ps_last_digest_ms s) (ps_in_sync s) (we + 1) (they + 1).

Definition compare (ours theirs : SyncDigest) : PeerSyncStatus :=
  let s := foldl (compare_origin ours theirs) (mkSyncStatus 0 false 0 0)
             (elements (dom ours ∪ dom theirs)) in
  mkSyncStatus (ps_last_digest_ms s) ((ps_origins_we_lack s =? 0) && (ps_origins_peer_lacks s =? 0))
    (ps_origins_we_lack s) (ps_origins_peer_lacks s).

(** True: the peer's state changed. *)
Definition apply_peer_digest_locked (walk : EntryWalk) (rec : PeerRecord) (peer_digest : SyncDigest) (now_ms : Z)
    (first : bool) (r : OriginReplica) : bool * PeerRecord :=
  let in_sync := ps_in_sync (compare (digest_of walk r) peer_digest) in
  let changed := first || negb (eqb (pr_in_sync rec) in_sync) in
  (changed, rec <| pr_digest := peer_digest |> <| pr_last_digest_ms := now_ms |> <| pr_in_sync := in_sync |>).

Definition put_peer (peer : string) (rec : PeerRecord) (r : OriginReplica) : OriginReplica :=
  r <| rp_peers := <[ peer := rec ]> (rp_peers r) |>.

Definition record_peer_digest (walk : EntryWalk) (peer : string) (peer_digest : SyncDigest) (now_ms : Z)
    (r : OriginReplica) : bool * OriginReplica :=
  let '(rec, inserted) := match rp_peers r !! peer with
                          | Some rec => (rec, false)
                          | None => (new_peer_record, true)
                          end in
  let '(changed, rec) := apply_peer_digest_locked walk rec peer_digest now_ms inserted r in
  (changed, put_peer peer rec r).

(** The record that collects [page]; [None]: the page is from an older round. *)
Definition collect_round (page : DigestPage) (rec : PeerRecord) : option PeerRecord :=
  let collecting := negb (pr_pending_pages rec =? 0) in
  if collecting && (dp_round page <? pr_pending_round rec) then None
  else if negb collecting || (pr_pending_round rec <? dp_round page) ||
          negb (dp_pages page =? pr_pending_pages rec)
  then Some (rec <| pr_pending_round := dp_round page |> <| pr_pending_pages := dp_pages page |>
                 <| pr_pending_seen := ∅ |> <| pr_pending := ∅ |>)
  else Some rec.

Definition record_peer_digest_page (walk : EntryWalk) (peer : string) (page : DigestPage) (now_ms : Z)
    (r : OriginReplica) : bool * OriginReplica :=
  if (dp_pages page =? 0) || (dp_pages page <=? dp_page page) || (kMaxDigestPages <? dp_pages page)
  then (false, r)
  else
    let '(rec, inserted) := match rp_peers r !! peer with
                            | Some rec => (rec, false)
                            | None => (new_peer_record, true)
                            end in
    match collect_round page rec with
    | None => (false, put_peer peer rec r)
    | Some rec =>
        if bool_decide (dp_page page ∈ pr_pending_seen rec) then (false, put_peer peer rec r)
        else
          let rec := rec <| pr_pending_seen := {[ dp_page page ]} ∪ pr_pending_seen rec |>
                         <| pr_pending := dp_origins page ∪ pr_pending rec |> in
          if Z.of_nat (size (pr_pending_seen rec)) <? pr_pending_pages rec
          then (false, put_peer peer rec r)
          else
            let complete := pr_pending rec in
            let rec := rec <| pr_pending := ∅ |> <| pr_pending_seen := ∅ |> <| pr_pending_pages := 0 |> in
            let first := inserted || (pr_last_digest_ms rec =? 0) in
            let '(changed, rec) := apply_peer_digest_locked walk rec complete now_ms first r in
            (changed, put_peer peer rec r)
    end.

Definition peer_status (walk : EntryWalk) (r : OriginReplica) : gmap string PeerSyncStatus :=
  (λ rec, let s := compare (digest_of walk r) (pr_digest rec) in
          mkSyncStatus (pr_last_digest_ms rec) (ps_in_sync s) (ps_origins_we_lack s) (ps_origins_peer_lacks s))
    <$> rp_peers r.
End digests.

(** ** Wire forms *)

(** A number that is not negative. *)
Definition as_u64 (j : json) : option Z := match j with JUnsigned z => Some z | _ => None end.

Definition member_u64 (f : gmap string json) (key : string) : option Z := j ← f !! key; as_u64 j.

Definition valid_stream (f : gmap string json) : option string :=
  match member_u64 f "v", f !! "stream"%string with
  | Some 1, Some (JString s) =>
      if negb (String.eqb s "") && (Z.of_nat (String.length s) <=? kMaxStreamNameBytes) then Some s else None
  | _, _ => None
  end.

Definition valid_origin (j : json) : option string :=
  match j with
  | JString s => if negb (String.eqb s "") && (Z.of_nat (String.length s) <=? kMaxOriginIdBytes) then Some s else None
  | _ => None
  end.

Definition origin_row (row : string * OriginSummary) : json :=
  JArray [JString row.1; JUnsigned (os_max_seq row.2); JUnsigned (os_count row.2); JUnsigned (os_hash row.2)].

Definition encode_digest_page (page : DigestPage) : json :=
  object [("v", JUnsigned 1); ("stream", JString (dp_stream page)); ("round", JUnsigned (dp_round page));
          ("page", JUnsigned (dp_page page)); ("pages", JUnsigned (dp_pages page));
          ("origins", JArray (origin_row <$> digest_rows (dp_origins page)))].

Fixpoint decode_rows (rows : list json) (origins : SyncDigest) : option SyncDigest :=
  match rows with
  | [] => Some origins
  | JArray [o; a; b; c] :: rest =>
      match valid_origin o, as_u64 a, as_u64 b, as_u64 c with
      | Some o, Some a, Some b, Some c =>
          if bool_decide (is_Some (origins !! o)) then None
          else decode_rows rest (<[ o := mkSummary a b c ]> origins)
      | _, _, _, _ => None
      end
  | _ => None
  end.

Definition decode_digest_page (j : json) : option DigestPage :=
  match j with
  | JObject f =>
      stream ← valid_stream f;
      round ← member_u64 f "round";
      index ← member_u64 f "page";
      pages ← member_u64 f "pages";
      if (pages =? 0) || (kMaxDigestPages <? pages) || (pages <=? index) then None
      else
        match f !! "origins"%string with
        | Some (JArray rows) =>
            if kMaxWireOrigins <? Z.of_nat (length rows) then None
            else origins ← decode_rows rows ∅; Some (mkPage stream round index pages origins)
        | _ => None
        end
  | _ => None
  end.

Section pages.
(** The length of the MessagePack text of a document. *)
Context (msgpack_size : json → Z).

(** The groups of rows, the last one first in [groups]. [None]: a row does not
    fit a page by itself. *)
Fixpoint group_rows (header max_page : Z) (rows : list (string * OriginSummary)) (used : Z)
    (groups : list (list (string * OriginSummary))) : option (list (list (string * OriginSummary))) :=
  match rows with
  | [] => Some groups
  | row :: rest =>
      let size := msgpack_size (origin_row row) in
      if max_page <? header + size then None
      else
        let last := match groups with g :: _ => g | [] => [] end in
        if (max_page <? used + size) || (kMaxWireOrigins <=? Z.of_nat (length last))
        then group_rows header max_page rest (header + size) ([row] :: groups)
        else group_rows header max_page rest (used + size) ((last ++ [row]) :: drop 1 groups)
  end.

Definition digest_header (stream : string) (round : Z) : Z :=
  msgpack_size (encode_digest_page (mkPage stream round (two32 - 1) (two32 - 1) ∅)).

Definition digest_pages (stream : string) (digest : SyncDigest) (round max_page : Z) : list DigestPage :=
  let header := digest_header stream round in
  if max_page <=? header then []
  else
    match group_rows header max_page (digest_rows digest) header [[]] with
    | None => []
    | Some groups =>
        let pages := Z.of_nat (length groups) in
        if kMaxDigestPages <? pages then []
        else imap (λ i g, mkPage stream round (Z.of_nat i) pages (list_to_map g)) (reverse groups)
    end.

Definition encode_digest_pages (stream : string) (digest : SyncDigest) (round max_page : Z) : list json :=
  encode_digest_page <$> digest_pages stream digest round max_page.
End pages.

Definition encode_catch_up (stream : string) (requests : list CatchUpRequest) : json :=
  object [("v", JUnsigned 1); ("stream", JString stream);
          ("since", JArray ((λ r, JArray [JString (cu_origin r); JUnsigned (cu_since r)]) <$> requests))].

Fixpoint decode_since (rows : list json) (seen : gset string) : option (list CatchUpRequest) :=
  match rows with
  | [] => Some []
  | JArray [o; s] :: rest =>
      match valid_origin o, as_u64 s with
      | Some o, Some s =>
          if bool_decide (o ∈ seen) then None
          else more ← decode_since rest ({[ o ]} ∪ seen); Some (mkCatchUp o s :: more)
      | _, _ => None
      end
  | _ => None
  end.

Definition decode_catch_up (j : json) : option (string * list CatchUpRequest) :=
  match j with
  | JObject f =>
      stream ← valid_stream f;
      match f !! "since"%string with
      | Some (JArray rows) =>
          if kMaxWireOrigins <? Z.of_nat (length rows) then None
          else requests ← decode_since rows ∅; Some (stream, requests)
      | _ => None
      end
  | _ => None
  end.

(** ** Entries in chunks *)

Definition kMaxEntryChunks : Z := 1024.

Record EntryChunk := mkChunk {
  ck_stream : string;
  ck_seq : Z;
  ck_digest : Digest;
  ck_index : Z;
  ck_count : Z;
  ck_size : Z;
  ck_data : list Z;
}.

Definition as_bytes (j : json) : option (list Z) := match j with JBinary b => Some b | _ => None end.

Definition chunk_document (c : EntryChunk) : json :=
  object [("v", JUnsigned 1); ("stream", JString (ck_stream c)); ("seq", JUnsigned (ck_seq c));
          ("digest", JBinary (be_bytes 32 (ck_digest c))); ("index", JUnsigned (ck_index c));
          ("count", JUnsigned (ck_count c)); ("size", JUnsigned (ck_size c)); ("data", JBinary (ck_data c))].

Section chunks.
Context `{Sodium}.

Definition entry_chunk (stream : string) (seq : Z) (entry : list Z) (chunk_bytes count : Z) (i : nat) : EntryChunk :=
  mkChunk stream seq (crypto_hash_sha256 entry) (Z.of_nat i) count (Z.of_nat (length entry))
    (take (Z.to_nat chunk_bytes) (drop (i * Z.to_nat chunk_bytes) entry)).

Definition entry_chunks (stream : string) (seq : Z) (entry : list Z) (chunk_bytes : Z) : list EntryChunk :=
  if bool_decide (entry = []) || (chunk_bytes =? 0) then []
  else
    let count := (Z.of_nat (length entry) +64 chunk_bytes -64 1) / chunk_bytes in
    if kMaxEntryChunks <? count then []
    else entry_chunk stream seq entry chunk_bytes count <$> List.seq 0 (Z.to_nat count).

Definition encode_entry_chunks (stream : string) (seq : Z) (entry : list Z) (chunk_bytes : Z) : list json :=
  chunk_document <$> entry_chunks stream seq entry chunk_bytes.

Definition decode_entry_chunk (j : json) (max_size : Z) : option EntryChunk :=
  match j with
  | JObject f =>
      version ← member_u64 f "v";
      stream ← (match f !! "stream"%string with Some (JString s) => Some s | _ => None end);
      seq ← member_u64 f "seq";
      digest ← (d ← f !! "digest"%string; as_bytes d);
      index ← member_u64 f "index";
      count ← member_u64 f "count";
      size ← member_u64 f "size";
      data ← (d ← f !! "data"%string; as_bytes d);
      if negb (version =? 1) || negb (length digest =? 32)%nat || String.eqb stream "" ||
         (kMaxStreamNameBytes <? Z.of_nat (String.length stream)) || (count =? 0) ||
         (kMaxEntryChunks <? count) || (count <=? index) || (size =? 0) || (max_size <? size) ||
         bool_decide (data = []) || (size <? Z.of_nat (length data))
      then None
      else Some (mkChunk stream seq (be_value digest) index count size data)
  | _ => None
  end.

(** *** The assembler *)

(** Sender, stream, sequence number and digest. *)
Definition ChunkKey : Type := string * string * Z * Digest.

Record Partial := mkPartial {
  pa_count : Z;
  pa_size : Z;
  pa_first_ms : Z;
  pa_bytes : Z;
  pa_chunks : gmap Z (list Z);
}.

Record EntryAssembler := mkAssembler {
  ea_partial : gmap ChunkKey Partial;
  ea_buffered : Z;
}.

Definition new_assembler : EntryAssembler := mkAssembler ∅ 0.

(** [std::tuple]'s order of the keys. *)
Definition key_before (a b : ChunkKey) : bool :=
  let '(s1, t1, q1, d1) := a in
  let '(s2, t2, q2, d2) := b in
  if negb (String.eqb s1 s2) then String.ltb s1 s2
  else if negb (String.eqb t1 t2) then String.ltb t1 t2
  else if negb (q1 =? q2) then q1 <? q2
  else d1 <? d2.

Definition drop_locked (k : ChunkKey) (a : EntryAssembler) : EntryAssembler :=
  match ea_partial a !! k with
  | Some p => mkAssembler (delete k (ea_partial a)) (ea_buffered a - pa_bytes p)
  | None => a
  end.

Definition drop_expired (max_age_ms now_ms : Z) (a : EntryAssembler) : EntryAssembler :=
  foldl (λ a kv, if max_age_ms <? now_ms -64 pa_first_ms kv.2 then drop_locked kv.1 a else a)
    a (map_to_list (ea_partial a)).

(** The one of two entries that the scan in key order keeps as the oldest. *)
Definition older (best : option (ChunkKey * Partial)) (kv : ChunkKey * Partial) : option (ChunkKey * Partial) :=
  match best with
  | None => Some kv
  | Some b =>
      if (pa_first_ms kv.2 <? pa_first_ms b.2) || ((pa_first_ms kv.2 =? pa_first_ms b.2) && key_before kv.1 b.1)
      then Some kv else Some b
  end.

Definition oldest_other (k : ChunkKey) (a : EntryAssembler) : option ChunkKey :=
  fst <$> foldl older None (filter (λ kv, kv.1 ≠ k) (map_to_list (ea_partial a))).

(** The loop that makes room; each turn drops an entry. *)
Fixpoint make_room (fuel : nat) (max_buffered need : Z) (k : ChunkKey) (a : EntryAssembler) : EntryAssembler :=
  match fuel with
  | O => a
  | S fuel =>
      if (max_buffered <? ea_buffered a + need) && (1 <? size (ea_partial a))%nat
      then match oldest_other k a with
           | Some other => make_room fuel max_buffered need k (drop_locked other a)
           | None => a
           end
      else a
  end.

Definition joined (chunks : gmap Z (list Z)) : list Z := mjoin ((in_order chunks).*2).

(** A chunk that goes into the partial entry [p] under [k]. *)
Definition take_chunk (max_buffered : Z) (k : ChunkKey) (p : Partial) (chunk : EntryChunk) (a : EntryAssembler)
    : option (list Z) * EntryAssembler :=
  let len := Z.of_nat (length (ck_data chunk)) in
  let a := make_room (size (ea_partial a)) max_buffered len k a in
  if max_buffered <? ea_buffered a + len then (None, drop_locked k a)
  else
    let p := mkPartial (pa_count p) (pa_size p) (pa_first_ms p) (pa_bytes p + len)
               (<[ ck_index chunk := ck_data chunk ]> (pa_chunks p)) in
    let a := mkAssembler (<[ k := p ]> (ea_partial a)) (ea_buffered a + len) in
    if pa_size p <? pa_bytes p then (None, drop_locked k a)
    else if Z.of_nat (size (pa_chunks p)) <? pa_count p then (None, a)
    else
      let whole := joined (pa_chunks p) in
      let ok := (Z.of_nat (length whole) =? pa_size p) && (crypto_hash_sha256 whole =? ck_digest chunk) in
      ((if ok then Some whole else None), drop_locked k a).

Definition assembler_add (max_buffered max_age_ms : Z) (sender : string) (chunk : EntryChunk) (now_ms : Z)
    (a : EntryAssembler) : option (list Z) * EntryAssembler :=
  let len := Z.of_nat (length (ck_data chunk)) in
  if bool_decide (ck_data chunk = []) || (max_buffered <? len) || (ck_count chunk =? 0) ||
     (ck_count chunk <=? ck_index chunk)
  then (None, a)
  else if ck_count chunk =? 1 then
    ((if negb (len =? ck_size chunk) || negb (crypto_hash_sha256 (ck_data chunk) =? ck_digest chunk)
      then None else Some (ck_data chunk)), a)
  else
    let a := drop_expired max_age_ms now_ms a in
    let k : ChunkKey := (sender, ck_stream chunk, ck_seq chunk, ck_digest chunk) in
    match ea_partial a !! k with
    | None =>
        let p := mkPartial (ck_count chunk) (ck_size chunk) now_ms 0 ∅ in
        take_chunk max_buffered k p chunk (mkAssembler (<[ k := p ]> (ea_partial a)) (ea_buffered a))
    | Some p =>
        if negb (pa_count p =? ck_count chunk) || negb (pa_size p =? ck_size chunk)
        then (None, drop_locked k a)
        else match pa_chunks p !! ck_index chunk with
             | Some _ => (None, a)
             | None => take_chunk max_buffered k p chunk a
             end
    end.
End chunks.
