(* ===== verification/SyncTheorems.v ===== *)
(** * Theorems about the replicas

    A replica is the last-writer-wins value of what it was offered, so replicas
    that were offered the same entries hold the same and, however they walk them,
    send the same digest; digests in pages come back
    together in any order. *)

From S2P Require Import Prelude SecurityPolicy CanonicalEncoding Json TreeTypes Sync.

(** ** Last writer wins *)

Definition later (a b : ReplicaEntry) : Prop :=
  re_timestamp b < re_timestamp a ∨ (re_timestamp a = re_timestamp b ∧ re_seq b < re_seq a).

Lemma entry_newer_spec a b : entry_newer a b = true ↔ later a b.
Proof. unfold entry_newer, newer, later. rewrite orb_true_iff, andb_true_iff, !Z.ltb_lt, Z.eqb_eq. lia. Qed.

Lemma later_trans a b c : later a b → later b c → later a c.
Proof. unfold later. lia. Qed.

Lemma later_irrefl a b : later a b → later b a → False.
Proof. unfold later. lia. Qed.

(** The value of a key after the writes [es]. *)
Definition last_writer (es : list ReplicaEntry) (k : string) (e : ReplicaEntry) : Prop :=
  e ∈ es ∧ re_key e = k ∧ ∀ e', e' ∈ es → re_key e' = k → e' = e ∨ later e e'.

(** Entries that the verification before an offer lets through, no two of which
    claim one key at one time. *)
Record offerable (es : list ReplicaEntry) : Prop := {
  of_valid : ∀ e, e ∈ es → re_key e ≠ ""%string ∧ re_origin e ≠ ""%string;
  of_ordered : ∀ e e', e ∈ es → e' ∈ es → re_key e = re_key e' → e = e' ∨ later e e' ∨ later e' e;
}.

Definition keys_of (es : list ReplicaEntry) : gset string := list_to_set (re_key <$> es).

Definition offers (max_entries : Z) (es : list ReplicaEntry) (r : OriginReplica) : OriginReplica :=
  foldl (λ r e, (offer max_entries e r).2) r es.

(** The replica is the value of [es] so far. *)
Definition holds (es : list ReplicaEntry) (m : gmap string ReplicaEntry) : Prop :=
  ∀ k, match m !! k with Some e => last_writer es k e | None => ∀ e, e ∈ es → re_key e ≠ k end.

Lemma holds_dom es m : holds es m → dom m ⊆ keys_of es.
Proof.
  intros Hh k [e He]%elem_of_dom. specialize (Hh k). rewrite He in Hh. destruct Hh as (Hin & <- & _).
  apply elem_of_list_to_set, list_elem_of_fmap. eauto.
Qed.

Lemma last_writer_app es e k held :
  last_writer es k held → re_key e ≠ k ∨ later held e ∨ e = held → last_writer (es ++ [e]) k held.
Proof.
  intros (Hin & Hk & Hl) He. split_and!; [apply elem_of_app; by left|done|].
  intros e' [He'| ->%list_elem_of_singleton]%elem_of_app Hk'; [by apply Hl|]. naive_solver.
Qed.

Lemma holds_keep es e m held :
  holds es m → m !! re_key e = Some held → later held e ∨ e = held → holds (es ++ [e]) m.
Proof.
  intros Hh Hheld Hl k. specialize (Hh k). destruct (m !! k) as [v|] eqn:Ek.
  - apply last_writer_app; [done|]. destruct (decide (re_key e = k)) as [<-|]; [right; naive_solver|by left].
  - intros e' [He'| ->%list_elem_of_singleton]%elem_of_app; [by apply Hh|]. intros E. congruence.
Qed.

Lemma holds_store es e m :
  holds es m → (∀ held, m !! re_key e = Some held → later e held) → holds (es ++ [e]) (<[ re_key e := e ]> m).
Proof.
  intros Hh Hl k. destruct (decide (re_key e = k)) as [<-|Hne].
  - rewrite lookup_insert_eq. split_and!; [apply elem_of_app; right; by left|done|].
    intros e' [He'| ->%list_elem_of_singleton]%elem_of_app Hk; [|by left]. right.
    specialize (Hh (re_key e)). destruct (m !! re_key e) as [held|]; [|by destruct (Hh e' He')].
    destruct Hh as (_ & _ & Hmax). destruct (Hmax e' He' Hk) as [->|Hlt]; [by apply Hl|].
    eapply later_trans; [by apply Hl|done].
  - rewrite lookup_insert_ne by done. specialize (Hh k). destruct (m !! k) as [v|].
    + apply last_writer_app; [done|by left].
    + intros e' [He'| ->%list_elem_of_singleton]%elem_of_app; [by apply Hh|done].
Qed.

Lemma offer_holds max_entries all es e r :
  offerable all → (∀ x, x ∈ es ++ [e] → x ∈ all) → Z.of_nat (size (keys_of all)) <= max_entries →
  holds es (rp_entries r) → holds (es ++ [e]) (rp_entries (offer max_entries e r).2).
Proof.
  intros Hall Hsub Hroom Hh. assert (He : e ∈ all) by (apply Hsub; set_solver).
  destruct (of_valid _ Hall e He) as [Hk Ho]. unfold offer.
  rewrite (proj2 (String.eqb_neq _ _) Hk), (proj2 (String.eqb_neq _ _) Ho). cbn [orb].
  destruct (rp_entries r !! re_key e) as [held|] eqn:Eh.
  - pose proof (Hh (re_key e)) as Hk'. rewrite Eh in Hk'. destruct Hk' as (Hin & Hhk & _).
    destruct (entry_newer e held) eqn:En; cbn [negb snd].
    + apply entry_newer_spec in En. apply (holds_store es e (rp_entries r)); [done|]. intros ? E. congruence.
    + apply (holds_keep es e _ held); [done|done|].
      destruct (of_ordered _ Hall e held) as [->|[Hl|Hl]]; [done|apply Hsub; set_solver|done|by right| |by left].
      apply entry_newer_spec in Hl. congruence.
  - assert (Hsize : (size (rp_entries r) < size (keys_of all))%nat).
    { rewrite <-size_dom. apply subset_size. split.
      - etrans; [by apply holds_dom|]. intros k. unfold keys_of. rewrite !elem_of_list_to_set, !list_elem_of_fmap.
        intros (x & -> & Hx). exists x. split; [done|]. apply Hsub. set_solver.
      - intros Hc. assert (Hin : re_key e ∈ dom (rp_entries r)).
        { apply Hc. apply elem_of_list_to_set, list_elem_of_fmap. eauto. }
        apply elem_of_dom in Hin as [? ?]. congruence. }
    rewrite (proj2 (Z.leb_gt _ _)) by lia. apply (holds_store es e (rp_entries r)); [done|]. intros ? E. congruence.
Qed.

Lemma offers_hold max_entries all es r done_es :
  offerable all → (∀ x, x ∈ done_es ++ es → x ∈ all) → Z.of_nat (size (keys_of all)) <= max_entries →
  holds done_es (rp_entries r) → holds (done_es ++ es) (rp_entries (offers max_entries es r)).
Proof.
  intros Hall Hsub Hroom. revert r done_es Hsub. induction es as [|e es IH]; intros r done_es Hsub Hh.
  - by rewrite app_nil_r.
  - change (offers max_entries (e :: es) r) with (offers max_entries es (offer max_entries e r).2).
    rewrite (cons_middle e done_es es), app_assoc in *. apply IH; [done|].
    eapply offer_holds; [done| |done|done]. intros x Hx. apply Hsub. set_solver.
Qed.

Lemma holds_unique es es' m m' :
  (∀ e, e ∈ es ↔ e ∈ es') → holds es m → holds es' m' → m = m'.
Proof.
  intros Hsame Hm Hm'. apply map_eq. intros k. specialize (Hm k). specialize (Hm' k).
  destruct (m !! k) as [e|], (m' !! k) as [e'|]; [|..|done].
  - destruct Hm as (Hin & Hk & Hl), Hm' as (Hin' & Hk' & Hl'). f_equal.
    destruct (Hl e') as [->|L1]; [by apply Hsame|done|done|].
    destruct (Hl' e) as [->|L2]; [by apply Hsame|done|done|]. destruct (later_irrefl _ _ L1 L2).
  - destruct Hm as (Hin & Hk & _). by destruct (Hm' e (proj1 (Hsame e) Hin)).
  - destruct Hm' as (Hin & Hk & _). by destruct (Hm e' (proj2 (Hsame e') Hin)).
Qed.

Lemma holds_nothing : holds [] ∅.
Proof. intros k. rewrite lookup_empty. by intros e ?%elem_of_nil. Qed.

(** *** The order of the walk *)

Section order.
Context `{SyncRuntime}.

(** Two entries enter a digest in either order: the maximum, the count at its
    width and the exclusive or commute, also when they share an origin. *)
Lemma add_to_digest_comm d a b : add_to_digest (add_to_digest d a) b = add_to_digest (add_to_digest d b) a.
Proof.
  unfold add_to_digest. destruct (re_seq a =? 0), (re_seq b =? 0); [done..|].
  destruct (decide (re_origin a = re_origin b)) as [E|Hne].
  - rewrite E, !lookup_insert_eq, !insert_insert_eq. cbn [default id os_max_seq os_count os_hash]. f_equal. f_equal.
    + rewrite <-!Z.max_assoc. f_equal. apply Z.max_comm.
    + rewrite !Z.lxor_assoc. f_equal. apply Z.lxor_comm.
  - rewrite !lookup_insert_ne by done. by rewrite insert_insert_ne.
Qed.

Lemma digest_perm d es es' : es ≡ₚ es' → foldl add_to_digest d es = foldl add_to_digest d es'.
Proof.
  intros Hp. revert d. induction Hp as [|e es es' _ IH|a b es|es1 es2 es3 _ IH1 _ IH2]; intros d; cbn [foldl];
    [done|apply IH|by rewrite add_to_digest_comm|by rewrite IH1].
Qed.

(** The digest of a replica is a function of its entries. *)
Lemma digest_of_walks walk walk' r r' :
  rp_entries r = rp_entries r' → digest_of walk r = digest_of walk' r'.
Proof.
  intros E. unfold digest_of. rewrite E. apply digest_perm. by rewrite !entry_walk_perm.
Qed.

Lemma compare_same d : ps_in_sync (compare d d) = true.
Proof.
  unfold compare.
  assert (E : ∀ l s, foldl (compare_origin d d) s l = s).
  { induction l as [|o l IH]; intros s; [done|]. cbn [foldl]. unfold compare_origin at 2.
    by rewrite bool_decide_eq_true_2, IH. }
  by rewrite E.
Qed.

(** A peer with our digest has nothing that we ask for. *)
Lemma plan_same walk r : plan_catch_up walk (digest_of walk r) r = [].
Proof.
  unfold plan_catch_up. set (d := digest_of walk r).
  assert (Hrow : ∀ row, row ∈ digest_rows d → plan_row d row = None).
  { intros row (o & -> & _)%list_elem_of_fmap. unfold plan_row. cbn [fst snd].
    rewrite Z.ltb_irrefl, Z.eqb_refl, bool_decide_eq_true_2 by done. by destruct (_ =? 0). }
  induction (digest_rows d) as [|row rows IH]; [done|]. cbn [omap list_omap]. rewrite Hrow by left.
  apply IH. intros row' Hin. apply Hrow. by right.
Qed.
End order.

(** C14: Replicas converge: two fresh replicas that were offered the same entries,
    each in its own order and as often as it likes, hold the same entries, and
    what they hold for a key is the last entry written to it. In whatever order
    each walks its hash map, they send the same digest, so each counts the other
    as in sync and asks it for nothing.
    Conditions: the entries have a key and an origin, no two different entries
    for a key have the same time and number ([tied_entries_never_converge] shows
    that such replicas stay apart), and a replica has room for all the keys. *)
Theorem replicas_converge `{SyncRuntime} max_entries es es' :
  offerable es → (∀ e, e ∈ es ↔ e ∈ es') → Z.of_nat (size (keys_of es)) <= max_entries →
  let r := offers max_entries es new_replica in
  let r' := offers max_entries es' new_replica in
  rp_entries r = rp_entries r' ∧
  (∀ k e, rp_entries r !! k = Some e ↔ last_writer es k e) ∧
  ∀ walk walk', digest_of walk r = digest_of walk' r' ∧
    ps_in_sync (compare (digest_of walk r) (digest_of walk' r')) = true ∧
    plan_catch_up walk (digest_of walk' r') r = [].
Proof.
  intros Hall Hsame Hroom. cbv zeta.
  pose proof (offers_hold max_entries es es new_replica [] Hall ltac:(done) Hroom holds_nothing) as H1.
  pose proof (offers_hold max_entries es es' new_replica [] Hall ltac:(intros x; apply Hsame) Hroom holds_nothing) as H2.
  assert (E : rp_entries (offers max_entries es new_replica) = rp_entries (offers max_entries es' new_replica))
    by (eapply holds_unique; [exact Hsame|exact H1|exact H2]).
  split_and!; [done| |].
  - intros k e. specialize (H1 k). split; [intros Ek; by rewrite Ek in H1|].
    intros (Hin & Hk & Hl). destruct (_ !! k) as [v|] eqn:Ev; [|by destruct (H1 e Hin)].
    destruct H1 as (Hin1 & Hk1 & Hl1). f_equal. destruct (Hl1 e Hin Hk) as [->|L1]; [done|].
    destruct (Hl v Hin1 Hk1) as [->|L2]; [done|]. destruct (later_irrefl _ _ L1 L2).
  - intros walk walk'. rewrite <-(digest_of_walks walk walk' _ _ E).
    split_and!; [done|apply compare_same|apply plan_same].
Qed.

(** ** Digests in pages *)

Lemma digest_rows_perm d : digest_rows d ≡ₚ map_to_list d.
Proof.
  unfold digest_rows. rewrite sort_strings_perm. rewrite <-list_fmap_compose.
  assert (E : (λ o, (o, default no_summary (d !! o))) ∘ fst <$> map_to_list d = id <$> map_to_list d).
  { apply list_fmap_ext. intros i [o s] Hi. apply list_elem_of_lookup_2, elem_of_map_to_list in Hi.
    unfold compose. cbn [fst]. by rewrite Hi. }
  by rewrite E, list_fmap_id.
Qed.

Lemma digest_rows_map d : list_to_map (digest_rows d) = d.
Proof.
  assert (Hn : NoDup (digest_rows d).*1) by (rewrite digest_rows_perm; apply NoDup_fst_map_to_list).
  rewrite <-(list_to_map_to_list d) at 2. apply list_to_map_proper; [done|apply digest_rows_perm].
Qed.

Definition origin_fits (o : string) : Prop := o ≠ ""%string ∧ Z.of_nat (String.length o) <= kMaxOriginIdBytes.

Lemma valid_origin_fits o : origin_fits o → valid_origin (JString o) = Some o.
Proof.
  intros [Hne Hlen]. unfold valid_origin. rewrite (proj2 (String.eqb_neq _ _) Hne), (proj2 (Z.leb_le _ _) Hlen). done.
Qed.

Lemma decode_rows_spec rows acc :
  NoDup rows.*1 → (∀ row, row ∈ rows → origin_fits row.1 ∧ acc !! row.1 = None) →
  decode_rows (origin_row <$> rows) acc = Some (list_to_map rows ∪ acc).
Proof.
  revert acc. induction rows as [|[o [a b c]] rows IH]; intros acc Hnd Hr; cbn [fmap list_fmap decode_rows origin_row].
  { f_equal. symmetry. apply (left_id_L ∅ (∪)). }
  apply NoDup_cons in Hnd as [Ho Hnd]. destruct (Hr _ ltac:(left)) as [Hfit Hacc]. cbn [fst snd] in *.
  rewrite valid_origin_fits by done. cbn [as_u64 os_max_seq os_count os_hash]. rewrite Hacc, bool_decide_eq_false_2 by (by intros [? ?]).
  rewrite IH; [|done|].
  - f_equal. change (list_to_map ((o, mkSummary a b c) :: rows)) with (<[ o := mkSummary a b c ]> (list_to_map rows : SyncDigest)).
    rewrite <-insert_union_l, insert_union_r; [done|]. by apply not_elem_of_list_to_map_1.
  - intros row Hrow. destruct (Hr row ltac:(by right)) as [Hf Hn]. split; [done|].
    rewrite lookup_insert_ne; [done|]. intros E. apply Ho. rewrite E. apply list_elem_of_fmap. eauto.
Qed.

Definition stream_fits (s : string) : Prop := s ≠ ""%string ∧ Z.of_nat (String.length s) <= kMaxStreamNameBytes.

Record page_fits (p : DigestPage) : Prop := {
  pf_stream : stream_fits (dp_stream p);
  pf_index : 0 <= dp_page p < dp_pages p;
  pf_pages : dp_pages p <= kMaxDigestPages;
  pf_size : Z.of_nat (size (dp_origins p)) <= kMaxWireOrigins;
  pf_origins : ∀ o s, dp_origins p !! o = Some s → origin_fits o;
}.

Lemma digest_page_round_trip p : page_fits p → decode_digest_page (encode_digest_page p) = Some p.
Proof.
  intros [[Hs Hl] Hi Hp Hz Ho]. destruct p as [stream round index pages origins]. cbn [dp_stream dp_round dp_page dp_pages dp_origins] in *.
  pose (f := (list_to_map [("v", JUnsigned 1); ("stream", JString stream); ("round", JUnsigned round);
    ("page", JUnsigned index); ("pages", JUnsigned pages);
    ("origins", JArray (origin_row <$> digest_rows origins))]%string : gmap string json)).
  assert (F1 : f !! "v"%string = Some (JUnsigned 1)) by reflexivity.
  assert (F2 : f !! "stream"%string = Some (JString stream)) by reflexivity.
  assert (F3 : f !! "round"%string = Some (JUnsigned round)) by reflexivity.
  assert (F4 : f !! "page"%string = Some (JUnsigned index)) by reflexivity.
  assert (F5 : f !! "pages"%string = Some (JUnsigned pages)) by reflexivity.
  assert (F6 : f !! "origins"%string = Some (JArray (origin_row <$> digest_rows origins))) by reflexivity.
  change (decode_digest_page (JObject f) = Some (mkPage stream round index pages origins)). clearbody f.
  unfold decode_digest_page, valid_stream, member_u64. rewrite F1, F2, F3, F4, F5, F6. cbn [mbind option_bind as_u64].
  rewrite (proj2 (String.eqb_neq _ _) Hs), (proj2 (Z.leb_le _ _) Hl). cbn [negb andb mbind option_bind].
  rewrite (proj2 (Z.eqb_neq _ _)), (proj2 (Z.ltb_ge _ _)), (proj2 (Z.leb_gt _ _)) by lia. cbn [orb].
  rewrite length_fmap, digest_rows_perm, length_map_to_list, (proj2 (Z.ltb_ge _ _)) by done.
  rewrite decode_rows_spec.
  - rewrite digest_rows_map, (right_id_L ∅ (∪)). done.
  - rewrite digest_rows_perm. apply NoDup_fst_map_to_list.
  - intros [o s]. rewrite digest_rows_perm, elem_of_map_to_list. intros Hrow. split; [by eapply Ho|apply lookup_empty].
Qed.

Lemma group_rows_spec msgpack_size header max_page rows used groups out :
  groups ≠ [] → group_rows msgpack_size header max_page rows used groups = Some out →
  mjoin (reverse out) = mjoin (reverse groups) ++ rows ∧ out ≠ [] ∧
  (Forall (λ g, Z.of_nat (length g) <= kMaxWireOrigins) groups → Forall (λ g, Z.of_nat (length g) <= kMaxWireOrigins) out).
Proof.
  revert used groups. induction rows as [|row rows IH]; intros used groups Hne; cbn [group_rows].
  { intros E. apply (inj Some) in E. subst out. by rewrite app_nil_r. }
  cbv zeta. destruct (max_page <? header + _); [done|]. destruct groups as [|g groups]; [done|]. cbn [drop].
  destruct ((max_page <? used + _) || (kMaxWireOrigins <=? Z.of_nat (length g))) eqn:Ec; intros E; apply IH in E; try done.
  - destruct E as (E & Ho & Hf). split_and!; [|done|].
    + rewrite E. rewrite !reverse_cons, !join_app. cbn. by rewrite <-!app_assoc, ?app_nil_r.
    + intros Hg. apply Hf. constructor; [|done]. unfold kMaxWireOrigins. cbn. lia.
  - apply orb_false_iff in Ec as [_ Hlen%Z.leb_gt]. destruct E as (E & Ho & Hf). split_and!; [|done|].
    + rewrite E. rewrite !reverse_cons, !join_app. cbn. by rewrite !app_nil_r, <-!app_assoc.
    + intros [Hg Hgs]%Forall_cons_1. apply Hf. constructor; [|done]. rewrite length_app. cbn. lia.
Qed.

(** The pages of a digest: in range, and together the digest. *)
Record pages_of (stream : string) (round : Z) (digest : SyncDigest) (pages : list DigestPage) : Prop := {
  po_fits : ∀ p, p ∈ pages → page_fits p ∧ dp_round p = round ∧ dp_pages p = Z.of_nat (length pages) ∧ dp_origins p ⊆ digest;
  po_nodup : NoDup (dp_page <$> pages);
  po_cover : ∀ o s, digest !! o = Some s → ∃ p, p ∈ pages ∧ dp_origins p !! o = Some s;
}.

Lemma elem_of_imap {A B} (f : nat → A → B) l x : x ∈ imap f l ↔ ∃ i a, l !! i = Some a ∧ x = f i a.
Proof.
  rewrite list_elem_of_lookup. setoid_rewrite list_lookup_imap. setoid_rewrite fmap_Some. naive_solver.
Qed.

Lemma group_in_rows (groups : list (list (string * OriginSummary))) i g row :
  groups !! i = Some g → row ∈ g → row ∈ mjoin groups.
Proof. intros Hg Hr. apply list_elem_of_join. exists g. split; [done|]. by eapply list_elem_of_lookup_2. Qed.

Lemma NoDup_group (groups : list (list (string * OriginSummary))) i g :
  NoDup (mjoin groups).*1 → groups !! i = Some g → NoDup g.*1.
Proof.
  intros Hnd Hg. apply list_elem_of_split_length in Hg as (l1 & l2 & -> & _).
  rewrite join_app in Hnd. cbn in Hnd. rewrite !fmap_app in Hnd. apply NoDup_app in Hnd as (_ & _ & Hnd).
  by apply NoDup_app in Hnd as (? & _ & _).
Qed.

Lemma digest_pages_spec msgpack_size stream digest round max_page :
  stream_fits stream → (∀ o s, digest !! o = Some s → origin_fits o) →
  pages_of stream round digest (digest_pages msgpack_size stream digest round max_page) ∨
  digest_pages msgpack_size stream digest round max_page = [].
Proof.
  intros Hs Ho. unfold digest_pages. destruct (_ <=? _); [by right|].
  destruct (group_rows _ _ _ _ _ _) as [out|] eqn:Eg; [|by right].
  apply group_rows_spec in Eg as (Ej & Hne & Hlen); [|done]. specialize (Hlen ltac:(constructor; [done|constructor])).
  destruct (kMaxDigestPages <? Z.of_nat (length out)) eqn:Ek; [by right|]. apply Z.ltb_ge in Ek. left.
  change (mjoin (reverse [[]]) ++ digest_rows digest) with (digest_rows digest) in Ej.
  assert (Hnd : NoDup (mjoin (reverse out)).*1) by (rewrite Ej, digest_rows_perm; apply NoDup_fst_map_to_list).
  assert (Hrow : ∀ row, row ∈ mjoin (reverse out) ↔ digest !! row.1 = Some row.2).
  { intros [o s]. rewrite Ej, digest_rows_perm. apply elem_of_map_to_list. }
  split.
  - intros p (i & g & Hg & ->)%elem_of_imap. cbn [dp_round dp_pages dp_origins].
    assert (Hi : (i < length out)%nat) by (apply lookup_lt_Some in Hg; by rewrite length_reverse in Hg).
    assert (Hsub : (list_to_map g : SyncDigest) ⊆ digest).
    { apply map_subseteq_spec. intros o s Hos%elem_of_list_to_map_2. by eapply (Hrow (o, s)), group_in_rows. }
    split_and!; [|done|by rewrite length_imap, length_reverse|done].
    split; cbn [dp_stream dp_page dp_pages dp_origins]; [done|lia|done| |].
    + rewrite Forall_forall in Hlen. specialize (Hlen g).
      rewrite map_size_list_to_map by exact (NoDup_group (reverse out) i g Hnd Hg). apply Hlen.
      apply list_elem_of_lookup_2 in Hg. by rewrite reverse_Permutation in Hg.
    + intros o s Hos. eapply Ho. by eapply lookup_weaken.
  - apply NoDup_alt. intros i j x. rewrite !list_lookup_fmap, !list_lookup_imap.
    intros (p & (gi & Hi & ->)%fmap_Some & ->)%fmap_Some (q & (gj & Hj & ->)%fmap_Some & E)%fmap_Some.
    cbn [dp_page] in E. lia.
  - intros o s Hos. apply (Hrow (o, s)) in Hos. apply list_elem_of_join in Hos as (g & Hg & Hin).
    apply list_elem_of_lookup in Hin as [i Hi]. eexists. split; [apply elem_of_imap; eauto|]. cbn [dp_origins].
    apply elem_of_list_to_map_1; [exact (NoDup_group (reverse out) i g Hnd Hi)|done].
Qed.

Lemma NoDup_moved {A B} (f : A → B) l x rest : NoDup (f <$> l ++ x :: rest) → NoDup (f <$> (x :: l) ++ rest).
Proof. intros Hnd. rewrite <-Permutation_middle in Hnd. exact Hnd. Qed.

Lemma NoDup_front {A B} (f : A → B) l rest : NoDup (f <$> l ++ rest) → NoDup (f <$> l).
Proof. rewrite fmap_app. by intros (? & _ & _)%NoDup_app. Qed.

Section collecting.
Context `{SyncRuntime} (walk : EntryWalk) (peer : string) (digest : SyncDigest) (round n : Z).

(** A record that collected the pages [got] of the round. *)
Record collected (got : list DigestPage) (rec : PeerRecord) : Prop := {
  cl_round : pr_pending_round rec = round;
  cl_pages : pr_pending_pages rec = n;
  cl_seen : pr_pending_seen rec = list_to_set (dp_page <$> got);
  cl_sub : pr_pending rec ⊆ digest;
  cl_held : ∀ p, p ∈ got → dp_origins p ⊆ pr_pending rec;
}.

Definition peer_or_new (r : OriginReplica) : PeerRecord := default new_peer_record (rp_peers r !! peer).

(** A page of the round that was not seen yet. *)
Record next_page (got : list DigestPage) (page : DigestPage) : Prop := {
  np_fits : page_fits page;
  np_round : dp_round page = round;
  np_pages : dp_pages page = n;
  np_sub : dp_origins page ⊆ digest;
  np_nodup : NoDup (dp_page <$> page :: got);
}.

Lemma page_taken got page now r rec :
  next_page got page → collect_round page (peer_or_new r) = Some rec → collected got rec →
  let rec' := peer_or_new (record_peer_digest_page walk peer page now r).2 in
  if Z.of_nat (S (length got)) <? n then collected (page :: got) rec'
  else (∀ p, p ∈ page :: got → dp_origins p ⊆ pr_digest rec') ∧ pr_digest rec' ⊆ digest.
Proof.
  intros [[_ Hi Hp _ _] Hr Hn Hsub Hnd] Hc [C1 C2 C3 C4 C5]. cbv zeta. unfold record_peer_digest_page.
  rewrite (proj2 (Z.eqb_neq (dp_pages page) 0)), (proj2 (Z.leb_gt (dp_pages page) (dp_page page))),
    (proj2 (Z.ltb_ge kMaxDigestPages (dp_pages page))) by lia. cbn [orb].
  assert (Hrec : ∃ inserted, match rp_peers r !! peer with Some rec => (rec, false) | None => (new_peer_record, true) end
                   = (peer_or_new r, inserted)) by (unfold peer_or_new; destruct (rp_peers r !! peer); by eexists).
  destruct Hrec as [inserted ->]. rewrite Hc. apply NoDup_cons in Hnd as [Hnew Hnd].
  assert (Hns : dp_page page ∉ pr_pending_seen rec) by (by rewrite C3, elem_of_list_to_set).
  rewrite bool_decide_eq_false_2 by done. set (rec1 := rec <| pr_pending_seen := _ |> <| pr_pending := _ |>).
  assert (Hsize : size (pr_pending_seen rec1) = S (length got)).
  { change (pr_pending_seen rec1) with ({[ dp_page page ]} ∪ pr_pending_seen rec).
    rewrite size_union by set_solver. rewrite size_singleton, C3, size_list_to_set by done. by rewrite length_fmap. }
  assert (Hpend : pr_pending rec1 ⊆ digest ∧ ∀ p, p ∈ page :: got → dp_origins p ⊆ pr_pending rec1).
  { change (pr_pending rec1) with (dp_origins page ∪ pr_pending rec). split; [by apply map_union_least|].
    intros p [->|Hin]%elem_of_cons; [apply map_union_subseteq_l|]. etrans; [by apply C5|].
    apply map_subseteq_spec. intros o s Hos. apply lookup_union_Some_raw.
    destruct (dp_origins page !! o) as [s'|] eqn:E; [|by right]. left.
    pose proof (lookup_weaken _ _ _ _ E Hsub) as E1. pose proof (lookup_weaken _ _ _ _ Hos C4) as E2. congruence. }
  change (pr_pending_pages rec1) with (pr_pending_pages rec). rewrite Hsize, C2.
  destruct (Z.of_nat (S (length got)) <? n).
  - unfold peer_or_new, put_peer. cbn [snd]. change (rp_peers (r <| rp_peers := <[peer:=rec1]> (rp_peers r) |>)) with (<[peer:=rec1]> (rp_peers r)).
    rewrite lookup_insert_eq. cbn [default]. split; [done|done| |apply Hpend|apply Hpend].
    exact (f_equal (λ seen : gset Z, {[ dp_page page ]} ∪ seen) C3).
  - unfold apply_peer_digest_locked, peer_or_new, put_peer. cbn [snd].
    match goal with |- context [<[peer := ?x]> (rp_peers r)] => set (rec2 := x) end.
    change (rp_peers (r <| rp_peers := <[peer:=rec2]> (rp_peers r) |>)) with (<[peer:=rec2]> (rp_peers r)).
    rewrite lookup_insert_eq. cbn [default]. change (pr_digest rec2) with (pr_pending rec1). split; apply Hpend.
Qed.

(** The page goes on with the round. *)
Lemma round_goes_on got page rec :
  next_page got page → collected got rec → 0 < n → collect_round page rec = Some rec.
Proof.
  intros [[_ Hi _ _ _] Hr Hn _ _] [C1 C2 _ _ _] Hpos. unfold collect_round. rewrite C1, C2, Hr, Hn, Z.ltb_irrefl, Z.eqb_refl.
  rewrite (proj2 (Z.eqb_neq _ _)) by lia. done.
Qed.

(** The page opens the round. *)
Lemma round_opens page rec :
  next_page [] page → pr_pending_pages rec = 0 ∨ pr_pending_round rec < round →
  ∃ rec', collect_round page rec = Some rec' ∧ collected [] rec'.
Proof.
  intros [_ Hr Hn _ _] Hold. unfold collect_round. rewrite Hr, Hn.
  destruct (pr_pending_pages rec =? 0) eqn:Ez; cbn [negb andb orb].
  - eexists. split; [done|]. split; [done..|apply map_empty_subseteq|by intros p ?%elem_of_nil].
  - apply Z.eqb_neq in Ez. destruct Hold as [|Hold]; [done|]. rewrite (proj2 (Z.ltb_ge _ _)), (proj2 (Z.ltb_lt _ _)) by lia. cbn [orb].
    eexists. split; [done|]. split; [done..|apply map_empty_subseteq|by intros p ?%elem_of_nil].
Qed.

Definition deliver_page (r : OriginReplica) (message : json * Z) : OriginReplica :=
  match decode_digest_page message.1 with
  | Some page => (record_peer_digest_page walk peer page message.2 r).2
  | None => r
  end.

Lemma deliver_rest got rest times r :
  NoDup (dp_page <$> got ++ rest) → (∀ p, p ∈ rest → page_fits p ∧ dp_round p = round ∧ dp_pages p = n ∧ dp_origins p ⊆ digest) →
  n = Z.of_nat (length got + length rest) → rest ≠ [] → length times = length rest →
  (∃ rec, collect_round (default (mkPage "" 0 0 0 ∅) (head rest)) (peer_or_new r) = Some rec ∧ collected got rec) →
  let rec' := peer_or_new (foldl deliver_page r (zip (encode_digest_page <$> rest) times)) in
  (∀ p, p ∈ got ++ rest → dp_origins p ⊆ pr_digest rec') ∧ pr_digest rec' ⊆ digest.
Proof.
  revert got times r. induction rest as [|page rest IH]; intros got times r Hnd Hfit Hn Hne Ht (rec & Hc & Hcol); [done|].
  destruct times as [|now times]; [done|]. cbn [fmap list_fmap zip zip_with foldl head default] in *.
  destruct (Hfit page ltac:(left)) as (Hf & Hr & Hp & Hs).
  assert (Hnext : next_page got page).
  { split; try done. by eapply NoDup_front, NoDup_moved. }
  pose proof (page_taken got page now r rec Hnext Hc Hcol) as Hstep. cbv zeta in Hstep.
  assert (Hd : deliver_page r (encode_digest_page page, now) = (record_peer_digest_page walk peer page now r).2)
    by (unfold deliver_page; cbn [fst snd]; by rewrite digest_page_round_trip).
  rewrite Hd. clear Hd.
  destruct rest as [|next rest].
  - cbn [zip_with foldl]. cbn in Hn. rewrite (proj2 (Z.ltb_ge _ _)) in Hstep by lia. destruct Hstep as [H1 H2].
    split; [|done]. intros p [Hp'|Hp']%elem_of_app; apply H1; set_solver.
  - cbn in Hn. rewrite (proj2 (Z.ltb_lt _ _)) in Hstep by lia.
    destruct (IH (page :: got) times (record_peer_digest_page walk peer page now r).2) as [H1 H2].
    + by apply NoDup_moved.
    + intros p Hin. apply Hfit. by right.
    + cbn. lia.
    + done.
    + cbn in Ht |- *. lia.
    + eexists. split; [|exact Hstep]. cbn [head default]. apply (round_goes_on (page :: got)); [|done|cbn; lia].
      destruct (Hfit next ltac:(right; left)) as (Gf & Gr & Gp & Gs). split; try done.
      eapply NoDup_front, NoDup_moved. by apply (NoDup_moved dp_page got page).
    + split; [|done]. intros p Hin. apply H1. set_solver.
Qed.
End collecting.

(** A digest survives its pages: whatever order the pages of a digest arrive
    in, after the last one the receiver's record of the sender is that digest,
    when no newer round of the sender was being collected. *)
Theorem digest_pages_round_trip `{SyncRuntime} walk msgpack_size stream digest round max_page peer messages times r :
  stream_fits stream → (∀ o s, digest !! o = Some s → origin_fits o) →
  encode_digest_pages msgpack_size stream digest round max_page ≡ₚ messages → messages ≠ [] →
  length times = length messages →
  pr_pending_pages (peer_or_new peer r) = 0 ∨ pr_pending_round (peer_or_new peer r) < round →
  pr_digest (peer_or_new peer (foldl (deliver_page walk peer) r (zip messages times))) = digest.
Proof.
  intros Hs Ho Hperm Hne Ht Hold.
  destruct (digest_pages_spec msgpack_size stream digest round max_page Hs Ho) as [Hp|Hnil].
  2: { unfold encode_digest_pages in Hperm. rewrite Hnil in Hperm. by apply Permutation_nil_l in Hperm. }
  unfold encode_digest_pages in Hperm. symmetry in Hperm. apply Permutation_map_inv in Hperm as (pages & Em & Hpages).
  change (messages = encode_digest_page <$> pages) in Em. subst messages. rewrite length_fmap in Ht.
  set (all := digest_pages msgpack_size stream digest round max_page) in *. destruct Hp as [P1 P2 P3].
  assert (Hall : ∀ p, p ∈ pages → page_fits p ∧ dp_round p = round ∧ dp_pages p = Z.of_nat (length all) ∧ dp_origins p ⊆ digest)
    by (intros p Hin; apply P1; by rewrite Hpages).
  assert (Hnd : NoDup (dp_page <$> pages)) by (by rewrite <-Hpages).
  destruct pages as [|first rest]; [done|].
  destruct (deliver_rest walk peer digest round (Z.of_nat (length all)) [] (first :: rest) times r) as [H1 H2]; try done.
  - by rewrite Hpages.
  - cbn [head default]. apply round_opens; [|done]. destruct (Hall first ltac:(left)) as (Gf & Gr & Gp & Gs).
    split; try done. apply NoDup_singleton.
  - apply (anti_symm (⊆)); [done|]. apply map_subseteq_spec. intros o s Hos.
    destruct (P3 o s Hos) as (p & Hin & Hp). rewrite Hpages in Hin. eapply lookup_weaken; [exact Hp|]. by apply H1.
Qed.
