(* ===== verification/SyncWitnesses.v ===== *)
(** * Replicas that run

    Entries in chunks; then a replica of a few names and an assembler on concrete
    data, on which the theorems of [SyncTheorems] and of this file are applied;
    and two ways in which replicas stay apart for good: entries of the same time,
    and an entry lost beyond the first 256 of an origin. *)

From S2P Require Import Prelude SecurityPolicy CanonicalEncoding Json TreeTypes Sync SyncTheorems.

(** * Theorems about entries in chunks

    The assembler keeps its books exactly and within its budget whatever it is
    sent, and an entry that is sent in chunks comes back whole in any order. *)

(** ** The books *)

Definition chunk_sum (chunks : gmap Z (list Z)) : Z := map_fold (λ _ data total, Z.of_nat (length data) + total) 0 chunks.
Definition partial_sum (partials : gmap ChunkKey Partial) : Z := map_fold (λ _ p total, pa_bytes p + total) 0 partials.

Lemma chunk_sum_insert chunks i data :
  chunks !! i = None → chunk_sum (<[ i := data ]> chunks) = Z.of_nat (length data) + chunk_sum chunks.
Proof. intros Hi. unfold chunk_sum. rewrite map_fold_insert_L; [done|intros; lia|done]. Qed.

Lemma partial_sum_insert partials k p :
  partials !! k = None → partial_sum (<[ k := p ]> partials) = pa_bytes p + partial_sum partials.
Proof. intros Hi. unfold partial_sum. rewrite map_fold_insert_L; [done|intros; lia|done]. Qed.

Lemma partial_sum_delete partials k p :
  partials !! k = Some p → partial_sum (delete k partials) = partial_sum partials - pa_bytes p.
Proof.
  intros Hk. rewrite <-(insert_delete_id partials k p Hk) at 2. rewrite partial_sum_insert by apply lookup_delete_eq. lia.
Qed.

Lemma chunk_sum_nonneg chunks : 0 <= chunk_sum chunks.
Proof.
  unfold chunk_sum. apply (map_fold_weak_ind (λ total _, 0 <= total)); [done|]. intros i data chunks' total _ Ht. lia.
Qed.

Record books_ok (a : EntryAssembler) : Prop := {
  bk_sum : ea_buffered a = partial_sum (ea_partial a);
  bk_each : ∀ k p, ea_partial a !! k = Some p → pa_bytes p = chunk_sum (pa_chunks p);
}.

Lemma partial_sum_nonneg partials :
  (∀ k p, partials !! k = Some p → pa_bytes p = chunk_sum (pa_chunks p)) → 0 <= partial_sum partials.
Proof.
  intros Hp. unfold partial_sum.
  apply (map_fold_weak_ind (λ total m, (∀ k p, m !! k = Some p → pa_bytes p = chunk_sum (pa_chunks p)) → 0 <= total)); [done| |done].
  intros k p m total Hk IH Hm. rewrite (Hm k p) by apply lookup_insert_eq. pose proof (chunk_sum_nonneg (pa_chunks p)).
  assert (0 <= total); [|lia]. apply IH. intros k' p' Hk'. apply (Hm k'). rewrite lookup_insert_ne; [done|]. congruence.
Qed.

Lemma drop_books k a : books_ok a → books_ok (drop_locked k a).
Proof.
  intros [Hs He]. unfold drop_locked. destruct (ea_partial a !! k) as [p|] eqn:Ek; [|done].
  split; cbn [ea_partial ea_buffered].
  - rewrite (partial_sum_delete _ _ _ Ek). lia.
  - intros k' p' [_ Hk']%lookup_delete_Some. by eapply He.
Qed.

Lemma drop_less k a : books_ok a → ea_buffered (drop_locked k a) <= ea_buffered a.
Proof.
  intros [Hs He]. unfold drop_locked. destruct (ea_partial a !! k) as [p|] eqn:Ek; [|lia]. cbn [ea_buffered].
  pose proof (He _ _ Ek). pose proof (chunk_sum_nonneg (pa_chunks p)). lia.
Qed.

Lemma drop_other k k' a : k ≠ k' → ea_partial (drop_locked k a) !! k' = ea_partial a !! k'.
Proof. intros Hne. unfold drop_locked. destruct (ea_partial a !! k); [|done]. cbn. by rewrite lookup_delete_ne. Qed.

Lemma drop_gone k a : ea_partial (drop_locked k a) !! k = None.
Proof. unfold drop_locked. destruct (ea_partial a !! k) eqn:E; [|done]. cbn. by rewrite lookup_delete_eq. Qed.

(** Dropping some of the listed entries. *)
Lemma drops_books (f : ChunkKey * Partial → bool) l a :
  books_ok a → let a' := foldl (λ a kv, if f kv then drop_locked kv.1 a else a) a l in
  books_ok a' ∧ ea_buffered a' <= ea_buffered a ∧
  ∀ k, (∀ p, (k, p) ∈ l → f (k, p) = false) → ea_partial a' !! k = ea_partial a !! k.
Proof.
  cbv zeta. revert a. induction l as [|[k0 p0] l IH]; intros a Hok; cbn [foldl]; [split_and!; [done|lia|done]|].
  set (a1 := if f (k0, p0) then drop_locked (k0, p0).1 a else a).
  assert (H1 : books_ok a1 ∧ ea_buffered a1 <= ea_buffered a).
  { unfold a1. destruct (f _); [|split; [done|lia]]. split; [by apply drop_books|by apply drop_less]. }
  destruct H1 as [H1 H2]. destruct (IH a1 H1) as (I1 & I2 & I3). split_and!; [done|lia|].
  intros k Hk. rewrite I3 by (intros p Hp; apply Hk; by right). unfold a1.
  destruct (f (k0, p0)) eqn:Ef; [|done]. apply drop_other. cbn [fst]. intros ->.
  rewrite (Hk p0) in Ef; [done|]. by left.
Qed.

Lemma expired_books max_age now a :
  books_ok a → let a' := drop_expired max_age now a in
  books_ok a' ∧ ea_buffered a' <= ea_buffered a ∧
  ∀ k, (∀ p, ea_partial a !! k = Some p → (max_age <? now -64 pa_first_ms p) = false) → ea_partial a' !! k = ea_partial a !! k.
Proof.
  intros Hok. destruct (drops_books (λ kv, max_age <? now -64 pa_first_ms kv.2) (map_to_list (ea_partial a)) a Hok) as (H1 & H2 & H3).
  split_and!; [done|done|]. intros k Hk. apply H3. intros p Hp%elem_of_map_to_list. by apply Hk.
Qed.

Lemma oldest_is_other k a k' : oldest_other k a = Some k' → k' ≠ k.
Proof.
  unfold oldest_other. intros ([k1 p1] & Hf & ->)%fmap_Some. cbn [fst].
  assert (Hgo : ∀ l best, (∀ kv, best = Some kv → kv.1 ≠ k) → (∀ kv, kv ∈ l → kv.1 ≠ k) →
    ∀ kv, foldl older best l = Some kv → kv.1 ≠ k).
  { induction l as [|x l IH]; intros best Hb Hl kv; cbn [foldl]; [apply Hb|]. apply IH; [|intros y Hy; apply Hl; by right].
    intros y. unfold older. destruct best as [b|]; [destruct (_ || _)|]; intros [= <-]; [apply Hl; by left|by apply Hb|apply Hl; by left]. }
  apply (Hgo _ None ltac:(done)) in Hf; [done|]. by intros kv [? _]%list_elem_of_filter.
Qed.

Lemma room_books fuel max_buffered need k a :
  books_ok a → let a' := make_room fuel max_buffered need k a in
  books_ok a' ∧ ea_buffered a' <= ea_buffered a ∧ ea_partial a' !! k = ea_partial a !! k.
Proof.
  cbv zeta. revert a. induction fuel as [|fuel IH]; intros a Hok; cbn [make_room]; [split_and!; [done|lia|done]|].
  destruct (_ && _); [|split_and!; [done|lia|done]]. destruct (oldest_other k a) as [k'|] eqn:Eo; [|split_and!; [done|lia|done]].
  destruct (IH (drop_locked k' a)) as (H1 & H2 & H3); [by apply drop_books|]. pose proof (drop_less k' a Hok).
  split_and!; [done|lia|]. rewrite H3. apply drop_other. by eapply oldest_is_other.
Qed.

(** A partial entry is replaced by a longer one. *)
Lemma grown_books k p p' a :
  books_ok a → ea_partial a !! k = Some p → pa_bytes p' = chunk_sum (pa_chunks p') →
  books_ok (mkAssembler (<[ k := p' ]> (ea_partial a)) (ea_buffered a + (pa_bytes p' - pa_bytes p))).
Proof.
  intros [Hs He] Hk Hp. split; cbn [ea_partial ea_buffered].
  - rewrite <-insert_delete_eq, partial_sum_insert by apply lookup_delete_eq. rewrite (partial_sum_delete _ _ _ Hk). lia.
  - intros k' p1 [[<- <-]|[_ H1]]%lookup_insert_Some; [done|by eapply He].
Qed.

Lemma opened_books k p a :
  books_ok a → ea_partial a !! k = None → pa_bytes p = 0 → pa_chunks p = ∅ →
  books_ok (mkAssembler (<[ k := p ]> (ea_partial a)) (ea_buffered a)).
Proof.
  intros [Hs He] Hk Hp Hc. split; cbn [ea_partial ea_buffered].
  - rewrite partial_sum_insert by done. lia.
  - intros k' p1 [[<- <-]|[_ H1]]%lookup_insert_Some; [|by eapply He]. rewrite Hp, Hc. done.
Qed.

Section chunks.
Context `{Sodium}.

Definition within (max_buffered : Z) (a : EntryAssembler) : Prop := books_ok a ∧ ea_buffered a <= max_buffered.

Lemma within_drop max_buffered k a : within max_buffered a → within max_buffered (drop_locked k a).
Proof. intros [Hb Hl]. split; [by apply drop_books|]. pose proof (drop_less k a Hb). lia. Qed.

(** What a whole entry has to be. *)
Definition delivers (chunk : EntryChunk) (r : option (list Z)) : Prop :=
  ∀ whole, r = Some whole → crypto_hash_sha256 whole = ck_digest chunk ∧ Z.of_nat (length whole) = ck_size chunk.

Lemma take_within max_buffered k p chunk a :
  within max_buffered a → ea_partial a !! k = Some p → pa_chunks p !! ck_index chunk = None → pa_size p = ck_size chunk →
  within max_buffered (take_chunk max_buffered k p chunk a).2 ∧ delivers chunk (take_chunk max_buffered k p chunk a).1.
Proof.
  intros [Hb Hl] Hk Hi Hsz. unfold take_chunk. cbv zeta. set (len := Z.of_nat (length (ck_data chunk))).
  destruct (room_books (size (ea_partial a)) max_buffered len k a Hb) as (R1 & R2 & R3).
  set (a1 := make_room (size (ea_partial a)) max_buffered len k a) in *. rewrite Hk in R3.
  destruct (Z.ltb_spec max_buffered (ea_buffered a1 + len)) as [Hm|Hm].
  { split; [apply within_drop; split; [done|lia]|done]. }
  set (p' := mkPartial _ _ _ _ _).
  set (a2 := mkAssembler _ _).
  assert (H2 : within max_buffered a2).
  { split; [|exact Hm].
    assert (Hp : pa_bytes p' = chunk_sum (pa_chunks p')).
    { cbn [p' pa_bytes pa_chunks]. rewrite chunk_sum_insert by done. rewrite (bk_each a1 R1 k p R3). lia. }
    pose proof (grown_books k p p' a1 R1 R3 Hp) as Hg.
    replace (ea_buffered a1 + (pa_bytes p' - pa_bytes p)) with (ea_buffered a1 + len) in Hg; [exact Hg|]. cbn [p' pa_bytes]. lia. }
  destruct (pa_size p' <? pa_bytes p'); [split; [by apply within_drop|done]|].
  destruct (_ <? pa_count p'); [split; [done|done]|]. split; [by apply within_drop|]. cbn [fst].
  intros whole. destruct (_ && _) eqn:Eok; [|done]. intros Hw%(inj Some). subst whole.
  apply andb_true_iff in Eok as [E1%Z.eqb_eq E2%Z.eqb_eq]. split; [done|]. rewrite E1. exact Hsz.
Qed.

Lemma add_within max_buffered max_age sender chunk now a :
  within max_buffered a →
  within max_buffered (assembler_add max_buffered max_age sender chunk now a).2 ∧
  delivers chunk (assembler_add max_buffered max_age sender chunk now a).1.
Proof.
  intros Hw. unfold assembler_add. cbv zeta. destruct (_ || _); [split; [done|by intros ? ?]|].
  destruct (ck_count chunk =? 1).
  { split; [done|]. intros whole. destruct (_ || _) eqn:E; [done|]. intros Hd%(inj Some). subst whole.
    apply orb_false_iff in E as [E1%negb_false_iff%Z.eqb_eq E2%negb_false_iff%Z.eqb_eq]. split; congruence. }
  destruct Hw as [Hb Hl]. destruct (expired_books max_age now a Hb) as (X1 & X2 & _).
  set (a1 := drop_expired max_age now a) in *. set (k := (_, _, _, _) : ChunkKey).
  destruct (ea_partial a1 !! k) as [p|] eqn:Ek.
  - destruct (_ || _) eqn:Em.
    { split; [apply within_drop; split; [done|lia]|by intros ? ?]. }
    apply orb_false_iff in Em as [_ Em%negb_false_iff%Z.eqb_eq].
    destruct (pa_chunks p !! ck_index chunk) eqn:Ei; [split; [split; [done|cbn [snd]; lia]|by intros ? ?]|].
    apply take_within; [split; [done|lia]|done..].
  - apply take_within; [split; [by apply opened_books|cbn; lia]|apply lookup_insert_eq|apply lookup_empty|done].
Qed.

(** ** What arrives *)

(** Chunks with their sender and their time of arrival. *)
Definition run_adds (max_buffered max_age : Z) (arrivals : list (string * EntryChunk * Z)) (a : EntryAssembler) : EntryAssembler :=
  foldl (λ a m, (assembler_add max_buffered max_age m.1.1 m.1.2 m.2 a).2) a arrivals.

Lemma run_within max_buffered max_age arrivals a :
  within max_buffered a → within max_buffered (run_adds max_buffered max_age arrivals a).
Proof.
  unfold run_adds. revert a. induction arrivals as [|m arrivals IH]; intros a Ha; [done|]. cbn [foldl].
  apply IH. by apply add_within.
Qed.

(** Documents from one sender: each is decoded and, if it is a chunk, added. *)
Definition receive (max_size max_buffered max_age : Z) (sender : string) (j : json) (now : Z) (a : EntryAssembler)
    : option (list Z) * EntryAssembler :=
  match decode_entry_chunk j max_size with
  | Some chunk => assembler_add max_buffered max_age sender chunk now a
  | None => (None, a)
  end.

Fixpoint receive_all (max_size max_buffered max_age : Z) (sender : string) (arrivals : list (json * Z)) (a : EntryAssembler)
    : list (option (list Z)) * EntryAssembler :=
  match arrivals with
  | [] => ([], a)
  | (j, now) :: rest =>
      let '(r, a) := receive max_size max_buffered max_age sender j now a in
      let '(rs, a) := receive_all max_size max_buffered max_age sender rest a in
      (r :: rs, a)
  end.

(** ** The chunks of an entry *)

Lemma parts_join (cb n : nat) (entry : list Z) :
  mjoin ((λ i, take cb (drop (i * cb) entry)) <$> List.seq 0 n) = take (n * cb) entry.
Proof.
  induction n as [|n IH]; [done|]. rewrite seq_S, fmap_app, join_app, IH. cbn. rewrite app_nil_r, take_take_drop. f_equal. lia.
Qed.

Lemma count_covers len cb :
  0 < len → 0 < cb → len + cb < two64 →
  let count := (len +64 cb -64 1) / cb in 0 < count ∧ len <= count * cb ∧ (count - 1) * cb < len.
Proof.
  intros Hl Hc Ho. cbv zeta. assert (len +64 cb -64 1 = len + cb - 1) as ->.
  { unfold u64_add, u64_sub. rewrite (Z.mod_small (len + cb)) by lia. rewrite Z.mod_small; lia. }
  pose proof (Z.div_mod (len + cb - 1) cb ltac:(lia)). pose proof (Z.mod_pos_bound (len + cb - 1) cb Hc). nia.
Qed.

Definition indexed (c : EntryChunk) : Z * list Z := (ck_index c, ck_data c).

(** The facts about the chunks of one entry that the assembler's run needs. *)
Record cut_from (stream : string) (seq : Z) (entry : list Z) (cb : Z) (chunks : list EntryChunk) : Prop := {
  cut_index : ck_index <$> chunks = Z.of_nat <$> List.seq 0 (length chunks);
  cut_whole : mjoin (ck_data <$> chunks) = entry;
  cut_each : ∀ c, c ∈ chunks →
    ck_stream c = stream ∧ ck_seq c = seq ∧ ck_digest c = crypto_hash_sha256 entry ∧ ck_count c = Z.of_nat (length chunks) ∧
    ck_size c = Z.of_nat (length entry) ∧ ck_data c ≠ [] ∧ 0 <= ck_index c < ck_count c;
}.

Lemma entry_chunks_cut stream seq entry cb :
  0 < cb → Z.of_nat (length entry) + cb < two64 → cut_from stream seq entry cb (entry_chunks stream seq entry cb) ∨ entry_chunks stream seq entry cb = [].
Proof.
  intros Hc Ho. unfold entry_chunks. destruct (bool_decide _ || _) eqn:E; [by right|]. cbv zeta.
  apply orb_false_iff in E as [E _]. apply bool_decide_eq_false in E.
  assert (Hl : 0 < Z.of_nat (length entry)) by (destruct entry; [done|cbn; lia]).
  destruct (count_covers _ _ Hl Hc Ho) as (C1 & C2 & C3). set (count := _ / cb) in *.
  destruct (kMaxEntryChunks <? count); [by right|left]. split.
  - rewrite length_fmap, length_seq, <-list_fmap_compose. done.
  - rewrite <-list_fmap_compose. etrans; [apply (parts_join (Z.to_nat cb))|]. apply take_ge. nia.
  - intros c (i & -> & [_ Hi]%elem_of_seq)%list_elem_of_fmap. cbn. rewrite length_fmap, length_seq. split_and!; try done; try lia.
    intros He%(f_equal length). rewrite length_take, length_drop in He. cbn in He. nia.
Qed.

(** ** The run of an assembler over the chunks of one entry *)

Definition bytes_of (cs : list EntryChunk) : Z := Z.of_nat (length (mjoin (ck_data <$> cs))).

Lemma bytes_of_cons c cs : bytes_of (c :: cs) = Z.of_nat (length (ck_data c)) + bytes_of cs.
Proof. unfold bytes_of. change (mjoin (ck_data <$> c :: cs)) with (ck_data c ++ mjoin (ck_data <$> cs)). rewrite length_app. lia. Qed.

Lemma bytes_of_perm cs cs' : cs ≡ₚ cs' → bytes_of cs = bytes_of cs'.
Proof. unfold bytes_of. intros Hp. by rewrite Hp. Qed.

Lemma bytes_of_app cs cs' : bytes_of (cs ++ cs') = bytes_of cs + bytes_of cs'.
Proof. unfold bytes_of. rewrite fmap_app, join_app, length_app. lia. Qed.

Definition gathered (cs : list EntryChunk) : gmap Z (list Z) := list_to_map (indexed <$> cs).

Lemma indexed_keys cs : (indexed <$> cs).*1 = ck_index <$> cs.
Proof. by rewrite <-list_fmap_compose. Qed.

Lemma gathered_new c cs : NoDup (ck_index <$> (c :: cs)) → gathered cs !! ck_index c = None.
Proof. cbn. intros [Hc _]%NoDup_cons. apply not_elem_of_list_to_map. by rewrite indexed_keys. Qed.

Lemma gathered_sum cs : NoDup (ck_index <$> cs) → chunk_sum (gathered cs) = bytes_of cs.
Proof.
  induction cs as [|c cs IH]; intros Hn; [done|]. pose proof (gathered_new c cs Hn) as Hf.
  change (gathered (c :: cs)) with (<[ ck_index c := ck_data c ]> (gathered cs)). rewrite chunk_sum_insert by done.
  rewrite bytes_of_cons, IH; [done|]. by apply NoDup_cons in Hn as [_ Hn].
Qed.

Lemma gathered_size cs : NoDup (ck_index <$> cs) → size (gathered cs) = length cs.
Proof. intros Hn. unfold gathered. rewrite map_size_list_to_map by (by rewrite indexed_keys). apply length_fmap. Qed.

Lemma indexed_sorted start cs :
  ck_index <$> cs = Z.of_nat <$> List.seq start (length cs) → StronglySorted key_le (indexed <$> cs).
Proof.
  revert start. induction cs as [|c cs IH]; intros start Hs; cbn; [constructor|]. cbn in Hs. injection Hs as Hc Hs.
  constructor; [by eapply IH|]. apply Forall_fmap, Forall_forall. intros c' Hc'. unfold key_le, compose. cbn.
  apply (list_elem_of_fmap_2 ck_index) in Hc'. rewrite Hs in Hc'.
  apply list_elem_of_fmap in Hc' as (i & -> & [Hi _]%elem_of_seq). lia.
Qed.

Section run.
Context (stream : string) (seq : Z) (entry : list Z) (cb : Z) (chunks : list EntryChunk).
Context (Hcut : cut_from stream seq entry cb chunks).

Lemma cut_nodup cs : cs ≡ₚ chunks → NoDup (ck_index <$> cs).
Proof.
  intros ->. rewrite (cut_index _ _ _ _ _ Hcut). apply NoDup_fmap_2; [apply _|apply NoDup_seq].
Qed.

Lemma cut_bytes cs : cs ≡ₚ chunks → bytes_of cs = Z.of_nat (length entry).
Proof. intros Hp. rewrite (bytes_of_perm _ _ Hp). unfold bytes_of. by rewrite (cut_whole _ _ _ _ _ Hcut). Qed.

Lemma cut_joined cs : cs ≡ₚ chunks → joined (gathered cs) = entry.
Proof.
  intros Hp. unfold joined. assert (in_order (gathered cs) = indexed <$> chunks) as ->.
  { apply (StronglySorted_unique_strong key_le).
    - intros [i d] [i' d'] H1%elem_of_in_order H2. unfold key_le. cbn. intros L1 L2. assert (i' = i) as -> by lia.
      assert (H3 : gathered cs !! i = Some d'); [|congruence].
      apply elem_of_list_to_map; [rewrite indexed_keys; by apply cut_nodup|]. by rewrite Hp.
    - apply in_order_sorted.
    - by eapply (indexed_sorted 0), cut_index.
    - rewrite in_order_perm. unfold gathered. rewrite map_to_list_to_map by (rewrite indexed_keys; by apply cut_nodup).
      by rewrite Hp. }
  rewrite <-list_fmap_compose. apply (cut_whole _ _ _ _ _ Hcut).
Qed.

(** The partial entry that holds [cs]. *)
Definition holds (first_ms : Z) (cs : list EntryChunk) (p : Partial) : Prop :=
  pa_count p = Z.of_nat (length chunks) ∧ pa_size p = Z.of_nat (length entry) ∧ pa_first_ms p = first_ms ∧
  pa_bytes p = bytes_of cs ∧ pa_chunks p = gathered cs.

Context (max_buffered max_age : Z) (sender : string).
Let k : ChunkKey := (sender, stream, seq, crypto_hash_sha256 entry).

(** An assembler that holds [cs] and has room for [rest]. *)
Definition gathers (first_ms : Z) (cs rest : list EntryChunk) (a : EntryAssembler) : Prop :=
  books_ok a ∧ ea_buffered a + bytes_of rest <= max_buffered ∧
  ∃ p, ea_partial a !! k = Some p ∧ holds first_ms cs p.

Lemma room_enough fuel need a : ea_buffered a + need <= max_buffered → make_room fuel max_buffered need k a = a.
Proof. intros Hr. destruct fuel; [done|]. cbn [make_room]. destruct (Z.ltb_spec max_buffered (ea_buffered a + need)); [lia|done]. Qed.

Lemma bytes_of_nonneg cs : 0 <= bytes_of cs.
Proof. unfold bytes_of. lia. Qed.

Lemma take_gathers first_ms cs c rest p a :
  books_ok a → ea_buffered a + bytes_of (c :: rest) <= max_buffered → ea_partial a !! k = Some p → holds first_ms cs p →
  cs ++ c :: rest ≡ₚ chunks →
  let r := take_chunk max_buffered k p c a in
  r.1 = (if decide (rest = []) then Some entry else None) ∧ (rest ≠ [] → gathers first_ms (c :: cs) rest r.2).
Proof.
  intros Hb Hr Hk (P1 & P2 & P3 & P4 & P5) Hp. cbv zeta. unfold take_chunk. cbv zeta.
  rewrite bytes_of_cons in Hr. pose proof (bytes_of_nonneg rest). rewrite room_enough by lia.
  set (len := Z.of_nat (length (ck_data c))) in *.
  destruct (Z.ltb_spec max_buffered (ea_buffered a + len)); [lia|].
  assert (Hp' : (c :: cs) ++ rest ≡ₚ chunks) by (rewrite <-Hp; cbn; by rewrite Permutation_middle).
  assert (Hnd : NoDup (ck_index <$> c :: cs)).
  { pose proof (cut_nodup _ Hp') as Hn. rewrite fmap_app in Hn. by apply NoDup_app in Hn as [Hn _]. }
  set (p' := mkPartial _ _ _ _ _).
  assert (H' : holds first_ms (c :: cs) p').
  { split_and!; [done|done|done| |]; cbn [p' pa_bytes pa_chunks]; [rewrite bytes_of_cons; lia|by rewrite P5]. }
  assert (Hw : bytes_of (c :: cs) + bytes_of rest = Z.of_nat (length entry)) by (rewrite <-bytes_of_app; by apply cut_bytes).
  destruct H' as (Q1 & Q2 & Q3 & Q4 & Q5). rewrite Q1, Q2, Q4, Q5, gathered_size by done.
  destruct (Z.ltb_spec (Z.of_nat (length entry)) (bytes_of (c :: cs))); [lia|].
  assert (Hlen : (length (c :: cs) + length rest = length chunks)%nat) by (by rewrite <-length_app, Hp').
  destruct (decide (rest = [])) as [->|Hne].
  - destruct (Z.ltb_spec (Z.of_nat (length (c :: cs))) (Z.of_nat (length chunks))); [cbn [length] in *; lia|].
    split; [|done]. cbn [fst]. rewrite app_nil_r in Hp'. rewrite (cut_joined _ Hp'), Z.eqb_refl.
    destruct (cut_each _ _ _ _ _ Hcut c) as (_ & _ & -> & _); [rewrite <-Hp'; by left|]. by rewrite Z.eqb_refl.
  - assert (0 < length rest)%nat by (destruct rest; [done|cbn; lia]).
    destruct (Z.ltb_spec (Z.of_nat (length (c :: cs))) (Z.of_nat (length chunks))); [|lia].
    split; [done|]. intros _. split_and!.
    + pose proof (grown_books k p p' a Hb Hk) as Hg. rewrite Q4, P4, bytes_of_cons in Hg. fold len in Hg.
      replace (len + bytes_of cs - bytes_of cs) with len in Hg by lia. apply Hg. rewrite Q5, gathered_sum by done. by rewrite bytes_of_cons.
    + cbn [snd ea_buffered]. lia.
    + exists p'. split; [apply lookup_insert_eq|done].
Qed.

(** One chunk more. *)
Definition awaits (first_ms now : Z) (cs rest : list EntryChunk) (a : EntryAssembler) : Prop :=
  gathers first_ms cs rest a ∧ now -64 first_ms <= max_age ∨
  cs = [] ∧ first_ms = now ∧ books_ok a ∧ ea_buffered a + bytes_of rest <= max_buffered ∧ ea_partial a !! k = None.

Lemma add_gathers first_ms now cs c rest a :
  (1 < length chunks)%nat → awaits first_ms now cs (c :: rest) a → cs ++ c :: rest ≡ₚ chunks →
  let r := assembler_add max_buffered max_age sender c now a in
  r.1 = (if decide (rest = []) then Some entry else None) ∧ (rest ≠ [] → gathers first_ms (c :: cs) rest r.2).
Proof.
  intros Hn Haw Hp. cbv zeta.
  assert (Hc : c ∈ chunks) by (rewrite <-Hp; set_solver).
  destruct (cut_each _ _ _ _ _ Hcut c Hc) as (C1 & C2 & C3 & C4 & C5 & C6 & C7).
  assert (Hroom : ea_buffered a + bytes_of (c :: rest) <= max_buffered ∧ books_ok a) by (destruct Haw as [[(?&?&?) ?]|(?&?&?&?&?)]; done).
  destruct Hroom as [Hr Hb]. destruct (expired_books max_age now a Hb) as (X1 & X2 & X3).
  assert (H0 : 0 <= ea_buffered a).
  { rewrite (bk_sum a Hb). apply partial_sum_nonneg, (bk_each a Hb). }
  pose proof (bytes_of_nonneg rest). pose proof Hr as Hr'. rewrite bytes_of_cons in Hr'.
  unfold assembler_add. rewrite bool_decide_eq_false_2 by done.
  destruct (Z.ltb_spec max_buffered (Z.of_nat (length (ck_data c)))); [lia|].
  destruct (Z.eqb_spec (ck_count c) 0); [lia|]. destruct (Z.leb_spec (ck_count c) (ck_index c)); [lia|]. cbn [orb].
  destruct (Z.eqb_spec (ck_count c) 1); [lia|]. cbv zeta. rewrite C1, C2, C3. fold k.
  set (a1 := drop_expired max_age now a) in *. destruct Haw as [[(_ & _ & p & Hk & Hh) Ht]|(-> & -> & _ & _ & Hk)].
  - rewrite X3, Hk; [|intros p'; rewrite Hk; intros [= <-]; destruct Hh as (_ & _ & -> & _); by apply Z.ltb_ge].
    pose proof Hh as (P1 & P2 & P3 & P4 & P5). rewrite P1, P2, C4, C5, !Z.eqb_refl. cbn [negb orb].
    rewrite P5, gathered_new.
    + apply take_gathers; [done|lia| |done|done]. by rewrite X3, Hk by (intros p'; rewrite Hk; intros [= <-]; rewrite P3; by apply Z.ltb_ge).
    + assert (Hp' : (c :: cs) ++ rest ≡ₚ chunks) by (rewrite <-Hp; cbn; by rewrite Permutation_middle).
      pose proof (cut_nodup _ Hp') as Hnd. rewrite fmap_app in Hnd. by apply NoDup_app in Hnd as [Hnd _].
  - rewrite X3, Hk by (intros p'; by rewrite Hk). set (p0 := mkPartial _ _ _ _ _).
    apply take_gathers; [apply opened_books; [done|by rewrite X3, Hk by (intros p'; by rewrite Hk)|done|done]|cbn [ea_buffered]; lia|apply lookup_insert_eq| |done].
    split_and!; [exact C4|exact C5|done..].
Qed.

(** The rest of the chunks, as documents that decode to them. *)
Lemma receive_rest max_size first_ms cs arrivals rest a :
  (1 < length chunks)%nat → cs ≠ [] → gathers first_ms cs rest a → cs ++ rest ≡ₚ chunks → rest ≠ [] →
  (λ m, decode_entry_chunk m.1 max_size) <$> arrivals = Some <$> rest →
  (∀ m, m ∈ arrivals → m.2 -64 first_ms <= max_age) →
  (receive_all max_size max_buffered max_age sender arrivals a).1 = replicate (length rest - 1) None ++ [Some entry].
Proof.
  intros Hn. revert cs rest a. induction arrivals as [|[j now] arrivals IH]; intros cs rest a Hcs Hg Hp Hne Hd Ht; destruct rest as [|c rest]; try done.
  rewrite !fmap_cons in Hd. apply (inj2 cons) in Hd as [Hj Hd]. cbn [fst] in Hj. cbn [receive_all]. unfold receive. rewrite Hj.
  assert (Haw : awaits first_ms now cs (c :: rest) a) by (left; split; [done|]; apply (Ht (j, now)); by left).
  destruct (add_gathers _ _ _ _ _ _ Hn Haw Hp) as [R1 R2].
  destruct (assembler_add max_buffered max_age sender c now a) as [r a']. cbn [fst snd] in *. subst r.
  destruct (decide (rest = [])) as [->|Hr].
  - destruct arrivals; [|done]. done.
  - specialize (IH (c :: cs) rest a' ltac:(done) (R2 Hr)). destruct (receive_all _ _ _ _ arrivals a') as [rs a'']. cbn [fst] in IH |- *.
    rewrite IH; [|by rewrite <-Hp; cbn; rewrite Permutation_middle|done|done|intros m Hm; apply Ht; by right].
    destruct rest; [done|]. cbn [length Nat.sub]. by rewrite Nat.sub_0_r.
Qed.
End run.

Lemma decode_chunk_document c max_size :
  ck_stream c ≠ ""%string → Z.of_nat (String.length (ck_stream c)) <= kMaxStreamNameBytes → is_digest (ck_digest c) →
  0 <= ck_index c < ck_count c → ck_count c <= kMaxEntryChunks → 0 < ck_size c <= max_size → ck_data c ≠ [] →
  Z.of_nat (length (ck_data c)) <= ck_size c → decode_entry_chunk (chunk_document c) max_size = Some c.
Proof.
  destruct c as [stream seq digest index count sz data]. cbn [ck_stream ck_seq ck_digest ck_index ck_count ck_size ck_data].
  intros Hs Hsl Hd Hi Hc Hz Hn Hl. unfold decode_entry_chunk, chunk_document, object. cbn [ck_stream ck_seq ck_digest ck_index ck_count ck_size ck_data].
  pose (f := (list_to_map [("v", JUnsigned 1); ("stream", JString stream); ("seq", JUnsigned seq); ("digest", JBinary (be_bytes 32 digest));
     ("index", JUnsigned index); ("count", JUnsigned count); ("size", JUnsigned sz); ("data", JBinary data)] : gmap string json)).
  assert (F : (f !! "v" = Some (JUnsigned 1) ∧ f !! "stream" = Some (JString stream) ∧ f !! "seq" = Some (JUnsigned seq) ∧
     f !! "digest" = Some (JBinary (be_bytes 32 digest)) ∧ f !! "index" = Some (JUnsigned index) ∧ f !! "count" = Some (JUnsigned count) ∧
     f !! "size" = Some (JUnsigned sz) ∧ f !! "data" = Some (JBinary data))%string) by (split_and!; reflexivity).
  fold f. clearbody f. destruct F as (F1 & F2 & F3 & F4 & F5 & F6 & F7 & F8).
  unfold member_u64. rewrite F1, F2, F3, F4, F5, F6, F7, F8. cbn [mbind option_bind as_u64 as_bytes]. rewrite length_be_bytes.
  rewrite (bool_decide_eq_false_2 (data = [])) by done. apply String.eqb_neq in Hs. rewrite Hs.
  rewrite (proj2 (Z.eqb_neq count 0)), (proj2 (Z.eqb_neq sz 0)), (proj2 (Z.leb_gt count index)) by lia.
  rewrite !(proj2 (Z.ltb_ge _ _)) by lia. cbn. by rewrite be_value_bytes.
Qed.

Context `{!SodiumLaws}.

Lemma entry_chunks_decode stream seq entry cb max_size :
  0 < cb → Z.of_nat (length entry) + cb < two64 → stream ≠ ""%string → Z.of_nat (String.length stream) <= kMaxStreamNameBytes →
  Z.of_nat (length entry) <= max_size → ∀ c, c ∈ entry_chunks stream seq entry cb → decode_entry_chunk (chunk_document c) max_size = Some c.
Proof.
  intros Hc Ho Hs Hsl Hm c Hin. destruct (entry_chunks_cut stream seq entry cb Hc Ho) as [Hcut|Hcut]; [|by rewrite Hcut in Hin; set_solver].
  destruct (cut_each _ _ _ _ _ Hcut c Hin) as (C1 & C2 & C3 & C4 & C5 & C6 & C7).
  assert (Hlen : Z.of_nat (length (ck_data c)) <= Z.of_nat (length entry)).
  { pose proof (cut_whole _ _ _ _ _ Hcut) as Hw. apply elem_of_Permutation in Hin as [l Hl].
    assert (Hb : bytes_of (entry_chunks stream seq entry cb) = Z.of_nat (length entry)) by (unfold bytes_of; by rewrite Hw).
    rewrite (bytes_of_perm _ _ Hl), bytes_of_cons in Hb. pose proof (bytes_of_nonneg l). lia. }
  assert (0 < Z.of_nat (length (ck_data c))) by (destruct (ck_data c); [done|cbn; lia]).
  apply decode_chunk_document; rewrite ?C1, ?C3; try done; try lia.
  - apply sha256_digest.
  - rewrite C4. unfold entry_chunks. destruct (_ || _); [done|]. cbv zeta.
    destruct (Z.ltb_spec kMaxEntryChunks ((Z.of_nat (length entry) +64 cb -64 1) / cb)); [done|].
    rewrite length_fmap, length_seq. unfold kMaxEntryChunks in *. lia.
Qed.

(** An entry of one chunk needs no buffer. *)
Lemma add_single stream seq entry cb c max_buffered max_age sender now a :
  cut_from stream seq entry cb [c] → Z.of_nat (length entry) <= max_buffered →
  (assembler_add max_buffered max_age sender c now a).1 = Some entry.
Proof.
  intros Hcut Hm. pose proof (cut_whole _ _ _ _ _ Hcut) as Hw. cbn in Hw. rewrite app_nil_r in Hw.
  destruct (cut_each _ _ _ _ _ Hcut c) as (_ & _ & C3 & C4 & C5 & C6 & C7); [by left|].
  unfold assembler_add. rewrite Hw, C3, C4, C5. rewrite bool_decide_eq_false_2 by congruence.
  destruct (Z.ltb_spec max_buffered (Z.of_nat (length entry))); [lia|]. rewrite C4 in C7. cbn [length] in C7 |- *.
  destruct (Z.leb_spec (Z.of_nat 1) (ck_index c)); [lia|]. cbn. by rewrite !Z.eqb_refl.
Qed.

Lemma decoded_arrivals max_size (arrivals : list (json * Z)) cs :
  (∀ c, c ∈ cs → decode_entry_chunk (chunk_document c) max_size = Some c) → arrivals.*1 = chunk_document <$> cs →
  (λ m, decode_entry_chunk m.1 max_size) <$> arrivals = Some <$> cs.
Proof.
  intros Hd Ha. revert arrivals Ha. induction cs as [|c cs IH]; intros [|[j t] arrivals] Ha; try done.
  rewrite !fmap_cons. rewrite !fmap_cons in Ha. apply (inj2 cons) in Ha as [Hj Ha]. cbn [fst] in Hj |- *. subst j.
  f_equal; [apply Hd; by left|]. apply IH; [|done]. intros c' Hc'. apply Hd. by right.
Qed.

(** C33: Whatever chunks arrive, from whatever senders and in whatever order,
    the assembler's count of buffered bytes is the number of bytes it holds and
    stays within its budget, and an entry that it hands over has the size and
    the SHA-256 that its chunks announce. *)
Theorem assembler_bounded max_buffered max_age arrivals sender chunk now :
  0 <= max_buffered →
  let a := run_adds max_buffered max_age arrivals new_assembler in
  let '(r, a') := assembler_add max_buffered max_age sender chunk now a in
  ea_buffered a' <= max_buffered ∧
  ea_buffered a' = partial_sum (ea_partial a') ∧
  (∀ k p, ea_partial a' !! k = Some p → pa_bytes p = chunk_sum (pa_chunks p)) ∧
  (∀ whole, r = Some whole → crypto_hash_sha256 whole = ck_digest chunk ∧ Z.of_nat (length whole) = ck_size chunk).
Proof.
  intros Hm. cbv zeta. assert (Hnew : within max_buffered new_assembler) by (split; [by split|done]).
  pose proof (run_within max_buffered max_age arrivals _ Hnew) as Hr.
  destruct (add_within max_buffered max_age sender chunk now _ Hr) as [[[B1 B2] B3] D].
  destruct (assembler_add _ _ _ _ _ _) as [r a']. by split_and!.
Qed.

(** An entry that was cut into chunks comes back: the documents of
    [encode_entry_chunks], decoded and added in any order within the age limit,
    to an assembler with any history that has the room and has nothing of this
    entry yet, give nothing until the last of them, which gives the entry. *)
Theorem chunks_reassemble stream seq entry cb max_size max_buffered max_age sender earlier arrivals :
  let a := run_adds max_buffered max_age earlier new_assembler in
  let size := Z.of_nat (length entry) in
  0 <= max_buffered → 0 < cb → size + cb < two64 →
  stream ≠ ""%string → Z.of_nat (String.length stream) <= kMaxStreamNameBytes → size <= max_size →
  encode_entry_chunks stream seq entry cb ≠ [] → arrivals.*1 ≡ₚ encode_entry_chunks stream seq entry cb →
  ea_buffered a + size <= max_buffered → ea_partial a !! (sender, stream, seq, crypto_hash_sha256 entry) = None →
  (∀ t, t ∈ arrivals.*2 → t -64 default 0 (head (arrivals.*2)) <= max_age) →
  (receive_all max_size max_buffered max_age sender arrivals a).1 = replicate (length arrivals - 1) None ++ [Some entry].
Proof.
  cbv zeta. intros Hm Hc Ho Hs Hsl Hz Hne Hp Hroom Hfree Ht. set (a := run_adds _ _ _ _) in *.
  assert (Hnew : within max_buffered new_assembler) by (split; [by split|done]).
  destruct (run_within max_buffered max_age earlier _ Hnew) as [Hb _]. fold a in Hb.
  destruct (entry_chunks_cut stream seq entry cb Hc Ho) as [Hcut|Hcut]; [|unfold encode_entry_chunks in Hne; by rewrite Hcut in Hne].
  pose proof (entry_chunks_decode stream seq entry cb max_size Hc Ho Hs Hsl Hz) as Hdec.
  destruct (Permutation_map_inv chunk_document _ Hp) as (cs & Hcs & Hperm). symmetry in Hperm.
  assert (Hd : (λ m, decode_entry_chunk m.1 max_size) <$> arrivals = Some <$> cs).
  { apply decoded_arrivals; [|exact Hcs]. intros c Hin. apply Hdec. by rewrite <-Hperm. }
  assert (Hlen : length arrivals = length cs) by (apply (f_equal length) in Hd; by rewrite !length_fmap in Hd).
  destruct arrivals as [|[j now] arrivals], cs as [|c cs]; [by apply Permutation_nil_l in Hp|done|done|].
  rewrite !fmap_cons in Hd. apply (inj2 cons) in Hd as [Hj Hd]. cbn [fst] in Hj. cbn [receive_all]. unfold receive. rewrite Hj.
  cbn [length Nat.sub]. rewrite Nat.sub_0_r. assert (Hl2 : length arrivals = length cs) by (cbn in Hlen; lia).
  destruct (decide (cs = [])) as [->|Hmore].
  { apply Permutation_singleton_l in Hperm. rewrite <-Hperm in Hcut. destruct arrivals; [|done]. cbn [receive_all length replicate app].
    assert (0 <= ea_buffered a) by (rewrite (bk_sum a Hb); apply partial_sum_nonneg, (bk_each a Hb)).
    pose proof (add_single _ _ _ _ _ max_buffered max_age sender now a Hcut ltac:(lia)) as Hone.
    destruct (assembler_add _ _ _ _ _ a) as [r a']. cbn [fst] in Hone |- *. by rewrite Hone. }
  assert (Hn : (1 < length (entry_chunks stream seq entry cb))%nat).
  { rewrite <-Hperm. destruct cs; [done|]. cbn. lia. }
  assert (Haw : awaits stream seq entry (entry_chunks stream seq entry cb) max_buffered max_age sender now now [] (c :: cs) a).
  { right. split_and!; try done. by rewrite (cut_bytes _ _ _ _ _ Hcut). }
  destruct (add_gathers _ _ _ _ _ Hcut _ _ _ now now [] c cs a Hn Haw Hperm) as [R1 R2].
  destruct (assembler_add max_buffered max_age sender c now a) as [r a']. cbn [fst snd] in R1, R2. rewrite decide_False in R1 by done. subst r.
  pose proof (receive_rest _ _ _ _ _ Hcut max_buffered max_age sender max_size now [c] arrivals cs a' Hn ltac:(done) (R2 Hmore) Hperm Hmore Hd) as Hrest.
  destruct (receive_all _ _ _ _ arrivals a') as [rs a'']. cbn [fst] in Hrest |- *. rewrite Hrest.
  - rewrite Hl2. destruct cs; [done|]. cbn [length Nat.sub]. by rewrite Nat.sub_0_r.
  - intros m Hin. apply (Ht m.2). rewrite fmap_cons. right. apply list_elem_of_fmap. by exists m.
Qed.
End chunks.

(** ** A runtime *)

Definition byte_sum (bytes : list Z) : Z := foldr Z.add 0 bytes mod two64.

#[export] Instance plain_runtime : SyncRuntime := {| XXH3_64bits := byte_sum |}.

Definition forward : EntryWalk := mkEntryWalk (λ m, (map_to_list m).*2) (λ m, reflexivity _).
Definition backward : EntryWalk := mkEntryWalk (λ m, reverse (map_to_list m).*2) (λ m, reverse_Permutation _).

#[export] Instance plain_sodium : Sodium := {|
  crypto_hash_sha256 bytes := byte_sum bytes;
  crypto_sign_detached _ _ := None;
  crypto_sign_verify_detached _ _ _ := false;
|}.

#[export] Instance plain_sodium_laws : SodiumLaws.
Proof.
  split. intros bytes. unfold is_digest, crypto_hash_sha256. cbn [plain_sodium]. unfold byte_sum.
  pose proof (Z.mod_pos_bound (foldr Z.add 0 bytes) two64 ltac:(done)). split; [lia|].
  eapply Z.lt_trans; [apply H|done].
Qed.

(** ** Convergence *)

Definition name_v1 : ReplicaEntry := mkReplicaEntry "alice" "node-a" 1 100 false [].
Definition name_v2 : ReplicaEntry := mkReplicaEntry "alice" "node-b" 7 200 false [].
Definition other_name : ReplicaEntry := mkReplicaEntry "bob" "node-a" 2 150 false [].

Lemma replicas_converge_witness :
  rp_entries (offers 10 [name_v1; name_v2; other_name] new_replica) =
  rp_entries (offers 10 [other_name; name_v2; name_v1; name_v2] new_replica) ∧
  rp_entries (offers 10 [name_v1; name_v2; other_name] new_replica) !! "alice"%string = Some name_v2 ∧
  digest_of forward (offers 10 [name_v1; name_v2; other_name] new_replica) =
  digest_of backward (offers 10 [other_name; name_v2; name_v1; name_v2] new_replica).
Proof.
  destruct (replicas_converge 10 [name_v1; name_v2; other_name] [other_name; name_v2; name_v1; name_v2]) as (H1 & _ & H3).
  - split.
    + intros e He. rewrite !elem_of_cons, elem_of_nil in He. destruct He as [->|[->|[->|[]]]]; split; discriminate.
    + intros e e' He He'. rewrite !elem_of_cons, elem_of_nil in He, He'. unfold later.
      destruct He as [->|[->|[->|[]]]], He' as [->|[->|[->|[]]]]; cbn; intros Hk; try discriminate Hk; first [by left|right; lia].
  - intros e. set_solver.
  - vm_compute. discriminate.
  - split; [exact H1|split; [vm_compute; reflexivity|exact (proj1 (H3 forward backward))]].
Defined.

(** ** Pages *)

Definition two_origins : SyncDigest := list_to_map [("node-a"%string, mkSummary 5 3 77); ("node-b"%string, mkSummary 9 1 12)].

(** Every document counts as ten bytes: a page of 25 holds one row. *)
Definition ten_bytes (j : json) : Z := 10.

Definition two_pages : list json := encode_digest_pages ten_bytes "names" two_origins 4 25.

Lemma digest_pages_round_trip_witness :
  length two_pages = 2%nat ∧
  pr_digest (peer_or_new "node-c" (foldl (deliver_page forward "node-c") new_replica (zip (reverse two_pages) [30; 31]))) = two_origins.
Proof.
  split; [vm_compute; reflexivity|].
  apply (digest_pages_round_trip forward ten_bytes "names" two_origins 4 25 "node-c" (reverse two_pages) [30; 31] new_replica).
  - split; [discriminate|vm_compute; discriminate].
  - intros o s Ho. apply elem_of_list_to_map_2 in Ho. rewrite !elem_of_cons, elem_of_nil in Ho.
    destruct Ho as [[= -> _]|[[= -> _]|[]]]; (split; [discriminate|vm_compute; discriminate]).
  - symmetry. apply reverse_Permutation.
  - vm_compute. discriminate.
  - vm_compute. reflexivity.
  - left. vm_compute. reflexivity.
Defined.

(** ** Chunks *)

Definition small_entry : list Z := [11; 12; 13; 14; 15].

(** Three chunks of two bytes. *)
Definition small_documents : list json := encode_entry_chunks "tree" 8 small_entry 2.

(** The last one first, within the age limit. *)
Definition small_arrivals : list (json * Z) := zip (reverse small_documents) [20; 25; 400].

Lemma chunks_reassemble_witness :
  (receive_all 100 50 1000 "node-a" small_arrivals (run_adds 50 1000 [] new_assembler)).1 = [None; None; Some small_entry].
Proof.
  refine (eq_trans (chunks_reassemble "tree" 8 small_entry 2 100 50 1000 "node-a" [] small_arrivals _ _ _ _ _ _ _ _ _ _ _) _).
  - vm_compute. discriminate.
  - vm_compute. reflexivity.
  - vm_compute. reflexivity.
  - discriminate.
  - vm_compute. discriminate.
  - vm_compute. discriminate.
  - vm_compute. discriminate.
  - unfold small_arrivals. rewrite fst_zip by (vm_compute; lia). apply reverse_Permutation.
  - vm_compute. discriminate.
  - vm_compute. reflexivity.
  - intros t Ht. assert (Hin : t ∈ [20; 25; 400]) by exact Ht. clear Ht.
    rewrite !elem_of_cons, elem_of_nil in Hin. destruct Hin as [->|[->|[->|[]]]]; vm_compute; discriminate.
  - vm_compute. reflexivity.
Defined.

Definition first_chunk : EntryChunk := entry_chunk "tree" 8 small_entry 2 3 0.

Lemma assembler_bounded_witness :
  let '(r, a) := assembler_add 50 1000 "node-b" first_chunk 30 (run_adds 50 1000 [("node-a"%string, first_chunk, 20)] new_assembler) in
  ea_buffered a = 4 ∧ ea_buffered a <= 50.
Proof.
  pose proof (assembler_bounded 50 1000 [("node-a"%string, first_chunk, 20)] "node-b" first_chunk 30 ltac:(done)) as H.
  cbv zeta in H. destruct (assembler_add _ _ _ _ _ _) as [r a] eqn:E. split; [|apply H].
  apply (f_equal snd) in E. cbn [snd] in E. subst a. vm_compute. reflexivity.
Defined.

(** ** Replicas that stay apart *)

(** The replica after a catch-up round with [peer], which answers with at most
    [limit] entries. *)
Definition catch_up_round (theirs ours : EntryWalk) (max_entries : Z) (limit : nat) (peer r : OriginReplica)
    : OriginReplica :=
  offers max_entries (serve_requests theirs limit (plan_catch_up ours (digest_of theirs peer) r) peer) r.

Lemma offer_held max_entries e r :
  re_key e ≠ ""%string → re_origin e ≠ ""%string → rp_entries r !! re_key e = Some e → (offer max_entries e r).2 = r.
Proof.
  intros Hk Ho He. unfold offer. rewrite (proj2 (String.eqb_neq _ _) Hk), (proj2 (String.eqb_neq _ _) Ho), He. cbn [orb].
  destruct (entry_newer e e) eqn:En; [|done]. apply entry_newer_spec in En. destruct (later_irrefl e e En En).
Qed.

Lemma offers_held max_entries es r :
  (∀ e, e ∈ es → re_key e ≠ ""%string ∧ re_origin e ≠ ""%string ∧ rp_entries r !! re_key e = Some e) →
  offers max_entries es r = r.
Proof.
  unfold offers. induction es as [|e es IH]; intros He; [done|]. cbn [foldl].
  destruct (He e ltac:(left)) as (H1 & H2 & H3). rewrite offer_held by done. apply IH. intros e' Hin. apply He. by right.
Qed.

(** A request from 0 is answered with the first [limit] entries of the origin.
    When those are held already, the round changes nothing and is repeated: an
    entry beyond them that got lost never arrives from this peer. *)
Theorem capped_catch_up_stalls theirs ours max_entries limit peer r origin n :
  plan_catch_up ours (digest_of theirs peer) r = [mkCatchUp origin 0] →
  (∀ e, e ∈ entries_since theirs origin 0 limit peer →
     re_key e ≠ ""%string ∧ re_origin e ≠ ""%string ∧ rp_entries r !! re_key e = Some e) →
  Nat.iter n (catch_up_round theirs ours max_entries limit peer) r = r.
Proof.
  intros Hplan Hheld. induction n as [|n IH]; [done|]. rewrite Nat.iter_succ, IH. unfold catch_up_round. rewrite Hplan.
  apply offers_held. intros e. cbn [serve_requests]. destruct (limit =? 0)%nat; [by intros ?%elem_of_nil|].
  cbn [cu_origin cu_since]. rewrite app_nil_r. apply Hheld.
Qed.

Definition numbered (key : string) (seq : Z) : ReplicaEntry := mkReplicaEntry key "node-a" seq 1000 false [].

(** A peer with the entries 1 to 4, and a replica that lacks the third. *)
Definition whole_replica : OriginReplica := offers 10 [numbered "a" 1; numbered "b" 2; numbered "c" 3; numbered "d" 4] new_replica.
Definition gap_replica : OriginReplica := offers 10 [numbered "a" 1; numbered "b" 2; numbered "d" 4] new_replica.

Lemma capped_catch_up_stalls_witness :
  Nat.iter 1000 (catch_up_round forward backward 10 2 whole_replica) gap_replica = gap_replica ∧
  rp_entries gap_replica !! "c"%string = None ∧ rp_entries whole_replica !! "c"%string = Some (numbered "c" 3).
Proof.
  split; [|split; vm_compute; reflexivity]. apply (capped_catch_up_stalls forward backward 10 2 whole_replica gap_replica "node-a").
  - vm_compute. reflexivity.
  - intros e He. assert (Hin : e ∈ [numbered "a" 1; numbered "b" 2]) by (vm_compute in He |- *; exact He). clear He.
    rewrite !elem_of_cons, elem_of_nil in Hin. destruct Hin as [->|[->|[]]]; (split; [discriminate|split; [discriminate|vm_compute; reflexivity]]).
Defined.

Lemma offers_stale max_entries e e' n r :
  re_key e ≠ ""%string → re_origin e' ≠ ""%string → re_key e' = re_key e → re_timestamp e' = re_timestamp e → re_seq e' = re_seq e →
  rp_entries r !! re_key e = Some e → rp_entries (offers max_entries (replicate n e') r) !! re_key e = Some e.
Proof.
  intros Hk Ho Ek Et Es. revert r. unfold offers. induction n as [|n IH]; intros r Hr; [done|]. cbn [replicate foldl]. apply IH.
  unfold offer. rewrite Ek, (proj2 (String.eqb_neq _ _) Hk), (proj2 (String.eqb_neq _ _) Ho), Hr. cbn [orb].
  destruct (entry_newer e' e) eqn:En; [|done]. apply entry_newer_spec in En. unfold later in En. lia.
Qed.

Lemma offer_first max_entries e :
  0 < max_entries → re_key e ≠ ""%string → re_origin e ≠ ""%string →
  rp_entries (offer max_entries e new_replica).2 !! re_key e = Some e.
Proof.
  intros Hm Hk Ho. unfold offer. rewrite (proj2 (String.eqb_neq _ _) Hk), (proj2 (String.eqb_neq _ _) Ho). cbn [orb].
  change (rp_entries new_replica) with (∅ : gmap string ReplicaEntry). rewrite lookup_empty, map_size_empty.
  destruct (Z.leb_spec max_entries (Z.of_nat 0)); [lia|]. apply lookup_insert_eq.
Qed.

(** Two origins that write one key in the same second with the same number:
    each replica keeps the one that it saw first, however often it is offered
    the other. *)
Theorem tied_entries_never_converge max_entries e e' n :
  0 < max_entries → re_key e ≠ ""%string → re_origin e ≠ ""%string → re_origin e' ≠ ""%string → e ≠ e' →
  re_key e' = re_key e → re_timestamp e' = re_timestamp e → re_seq e' = re_seq e →
  rp_entries (offers max_entries (e :: replicate n e') new_replica) ≠ rp_entries (offers max_entries (e' :: replicate n e) new_replica).
Proof.
  intros Hm Hk Ho Ho' Hne Ek Et Es Heq.
  assert (Hl : rp_entries (offers max_entries (e :: replicate n e') new_replica) !! re_key e = Some e)
    by (apply (offers_stale max_entries e e' n); try done; by apply offer_first).
  assert (Hr : rp_entries (offers max_entries (e' :: replicate n e) new_replica) !! re_key e' = Some e')
    by (apply (offers_stale max_entries e' e n); try congruence; apply offer_first; congruence).
  rewrite Heq, <-Ek, Hr in Hl. congruence.
Qed.
