(* ===== verification/UpgradeProgress.v ===== *)
(** * The rollout of a release

    Models [Security/Upgrade/UpgradeProgress.cpp]: the signed statements of the
    servers, the records that consensus finalizes, their bytes, the turn order,
    the rules a record is checked by, the state the records build and the gate
    that tells a server when to restart. Of [Security/Upgrade/RolloutProof.cpp]:
    the check of a proof of the rollout, from its decoded messages on, and the
    reading of the proved state. *)

From S2P Require Import Prelude SecurityPolicy CanonicalEncoding ConsensusTypes QuorumValidation Selection Json.
From S2P Require Import EpochAuthority EligibilityLedger.

Definition kUpgradeRecordVersion : Z := 1.
Definition kMaxUpgradeParticipants : Z := 512.
Definition kMaxConsensusBlockBytes : Z := 48000.
Definition kMaxTransitionsPerBlock : Z := 128.
Definition kMaxBlockPayloadBytes : Z := kMaxConsensusBlockBytes + kMaxTransitionsPerBlock * (4 + 64) + 2.
Definition kMaxObservations : Z := kMaxActiveTier1.

Definition kStatusDomain : string := "lemonade-nexus/upgrade-status:v1".
Definition kObservationDomain : string := "lemonade-nexus/upgrade-observation:v1".
Definition kRecordDomain : string := "lemonade-nexus/upgrade-record:v1".
Definition kOrderDomain : string := "LEMONADE-NEXUS-UPGRADE-ORDER-V1".

Inductive UpgradeEvent := EvStart | EvTurn | EvUpgraded | EvHalt.

#[export] Instance upgrade_event_eq_dec : EqDecision UpgradeEvent.
Proof. solve_decision. Defined.

Definition event_value (e : UpgradeEvent) : Z :=
  match e with EvStart => 1 | EvTurn => 2 | EvUpgraded => 3 | EvHalt => 4 end.

Definition event_of (v : Z) : option UpgradeEvent :=
  if v =? 1 then Some EvStart else if v =? 2 then Some EvTurn else if v =? 3 then Some EvUpgraded
  else if v =? 4 then Some EvHalt else None.

Definition kUpgradeStatusReady : Z := 1.
Definition kUpgradeStatusFailed : Z := 2.
Definition kUpgradeStatusHealthy : Z := 4.
Definition kUpgradeStatusAttestable : Z := 8.

Definition has_flag (flags flag : Z) : bool := negb (Z.land flags flag =? 0).

Record UpgradeStatus := mkStatus {
  us_network_id : NetworkId;
  us_node : NodeId;
  us_running_release : Z;
  us_staged_release : Z;
  us_accepted_release : Z;
  us_flags : Z;
  us_timestamp_ms : Z;
  us_signature : Ed25519Signature;
}.

Record UpgradeObservation := mkUpgradeObservation {
  uo_network_id : NetworkId;
  uo_release_number : Z;
  uo_subject : NodeId;
  uo_chain_head : Digest;
  uo_witness : NodeId;
  uo_evidence_digest : Digest;
  uo_signature : Ed25519Signature;
}.

Record UpgradeParticipant := mkParticipant { pt_node : NodeId; pt_tier1 : bool }.

Record UpgradeRecord := mkUpgradeRecord {
  ur_version : Z;
  ur_network_id : NetworkId;
  ur_sequence : Z;
  ur_previous : Digest;
  ur_event : UpgradeEvent;
  ur_release_number : Z;
  ur_approval_digest : Digest;
  ur_order : list UpgradeParticipant;
  ur_subject : NodeId;
  ur_status : option UpgradeStatus;
  ur_observations : list UpgradeObservation;
}.

#[export] Instance upgrade_status_eq_dec : EqDecision UpgradeStatus.
Proof. solve_decision. Defined.
#[export] Instance upgrade_observation_eq_dec : EqDecision UpgradeObservation.
Proof. solve_decision. Defined.
#[export] Instance upgrade_participant_eq_dec : EqDecision UpgradeParticipant.
Proof. solve_decision. Defined.
#[export] Instance upgrade_record_eq_dec : EqDecision UpgradeRecord.
Proof. solve_decision. Defined.

(** ** Bytes *)

(** [Reader::u8], [u16], [u64] and [fixed]: the next [n] bytes as a number, most
    significant byte first, and what is left. *)
Definition get_be (n : nat) (bytes : list Z) : option (Z * list Z) :=
  if (length bytes <? n)%nat then None else Some (be_value (take n bytes), drop n bytes).

Definition put_status (s : UpgradeStatus) : list Z :=
  be_bytes 32 (us_network_id s) ++ be_bytes 32 (us_node s) ++ be_bytes 8 (us_running_release s) ++
  be_bytes 8 (us_staged_release s) ++ be_bytes 8 (us_accepted_release s) ++ be_bytes 1 (us_flags s) ++
  be_bytes 8 (us_timestamp_ms s) ++ be_bytes 64 (us_signature s).

Definition get_status (bytes : list Z) : option (UpgradeStatus * list Z) :=
  '(network_id, bytes) ← get_be 32 bytes;
  '(node, bytes) ← get_be 32 bytes;
  '(running_release, bytes) ← get_be 8 bytes;
  '(staged_release, bytes) ← get_be 8 bytes;
  '(accepted_release, bytes) ← get_be 8 bytes;
  '(flags, bytes) ← get_be 1 bytes;
  '(timestamp_ms, bytes) ← get_be 8 bytes;
  '(signature, bytes) ← get_be 64 bytes;
  Some (mkStatus network_id node running_release staged_release accepted_release flags timestamp_ms signature, bytes).

Definition put_observation (o : UpgradeObservation) : list Z :=
  be_bytes 32 (uo_network_id o) ++ be_bytes 8 (uo_release_number o) ++ be_bytes 32 (uo_subject o) ++
  be_bytes 32 (uo_chain_head o) ++ be_bytes 32 (uo_witness o) ++ be_bytes 32 (uo_evidence_digest o) ++
  be_bytes 64 (uo_signature o).

Definition get_observation (bytes : list Z) : option (UpgradeObservation * list Z) :=
  '(network_id, bytes) ← get_be 32 bytes;
  '(release_number, bytes) ← get_be 8 bytes;
  '(subject, bytes) ← get_be 32 bytes;
  '(chain_head, bytes) ← get_be 32 bytes;
  '(witness, bytes) ← get_be 32 bytes;
  '(evidence_digest, bytes) ← get_be 32 bytes;
  '(signature, bytes) ← get_be 64 bytes;
  Some (mkUpgradeObservation network_id release_number subject chain_head witness evidence_digest signature, bytes).

Definition encode_upgrade_status : UpgradeStatus → list Z := put_status.

Definition decode_upgrade_status (bytes : list Z) : option UpgradeStatus :=
  '(status, rest) ← get_status bytes; if bool_decide (rest = []) then Some status else None.

Definition encode_upgrade_observation : UpgradeObservation → list Z := put_observation.

Definition decode_upgrade_observation (bytes : list Z) : option UpgradeObservation :=
  '(observation, rest) ← get_observation bytes; if bool_decide (rest = []) then Some observation else None.

Definition put_participant (p : UpgradeParticipant) : list Z :=
  be_bytes 32 (pt_node p) ++ be_bytes 1 (if pt_tier1 p then 1 else 0).

Definition get_participant (bytes : list Z) : option (UpgradeParticipant * list Z) :=
  '(node, bytes) ← get_be 32 bytes;
  '(tier1, bytes) ← get_be 1 bytes;
  if 1 <? tier1 then None else Some (mkParticipant node (tier1 =? 1), bytes).

(** A counted list. *)
Fixpoint get_many {A} (get : list Z → option (A * list Z)) (n : nat) (bytes : list Z) : option (list A * list Z) :=
  match n with
  | O => Some ([], bytes)
  | S n => '(x, bytes) ← get bytes; '(xs, bytes) ← get_many get n bytes; Some (x :: xs, bytes)
  end.

Definition record_bytes (r : UpgradeRecord) : list Z :=
  be_bytes 1 (ur_version r) ++ be_bytes 32 (ur_network_id r) ++ be_bytes 8 (ur_sequence r) ++
  be_bytes 32 (ur_previous r) ++ be_bytes 1 (event_value (ur_event r)) ++ be_bytes 8 (ur_release_number r) ++
  be_bytes 32 (ur_approval_digest r) ++ be_bytes 2 (Z.of_nat (length (ur_order r))) ++
  mjoin (put_participant <$> ur_order r) ++ be_bytes 32 (ur_subject r) ++
  be_bytes 1 (if ur_status r then 1 else 0) ++ from_option put_status [] (ur_status r) ++
  be_bytes 2 (Z.of_nat (length (ur_observations r))) ++ mjoin (put_observation <$> ur_observations r).

(** Empty: a field exceeds its bound. *)
Definition encode_upgrade_record (r : UpgradeRecord) : list Z :=
  if (kMaxUpgradeParticipants <? Z.of_nat (length (ur_order r))) ||
     (kMaxObservations <? Z.of_nat (length (ur_observations r)))
  then []
  else
    let bytes := record_bytes r in
    if kMaxBlockPayloadBytes <? Z.of_nat (length bytes) then [] else bytes.

Definition decode_upgrade_record (bytes : list Z) : option UpgradeRecord :=
  if kMaxBlockPayloadBytes <? Z.of_nat (length bytes) then None
  else
    '(version, bytes) ← get_be 1 bytes;
    if negb (version =? kUpgradeRecordVersion) then None
    else
      '(network_id, bytes) ← get_be 32 bytes;
      '(sequence, bytes) ← get_be 8 bytes;
      '(previous, bytes) ← get_be 32 bytes;
      '(event, bytes) ← get_be 1 bytes;
      '(release_number, bytes) ← get_be 8 bytes;
      '(approval_digest, bytes) ← get_be 32 bytes;
      '(count, bytes) ← get_be 2 bytes;
      event ← event_of event;
      if kMaxUpgradeParticipants <? count then None
      else
        '(order, bytes) ← get_many get_participant (Z.to_nat count) bytes;
        '(subject, bytes) ← get_be 32 bytes;
        '(has_status, bytes) ← get_be 1 bytes;
        if 1 <? has_status then None
        else
          '(status, bytes) ← (if has_status =? 1
                              then '(status, bytes) ← get_status bytes; Some (Some status, bytes)
                              else Some (None, bytes));
          '(count, bytes) ← get_be 2 bytes;
          if kMaxObservations <? count then None
          else
            '(observations, bytes) ← get_many get_observation (Z.to_nat count) bytes;
            if bool_decide (bytes = [])
            then Some (mkUpgradeRecord version network_id sequence previous event release_number approval_digest
                         order subject status observations)
            else None.

(** ** Digests and signatures *)

Section upgrade.
Context `{Sodium}.

Definition verify_signature (signature : Ed25519Signature) (d : Digest) (signer : NodeId) : bool :=
  crypto_sign_verify_detached signature d signer.

Definition order_rank (release_number : Z) (node : NodeId) : Digest :=
  digest (add_digest (add_u64 (new_encoder kOrderDomain) release_number) node).

Definition upgrade_status_digest (status : UpgradeStatus) : Digest :=
  let e := add_digest (new_encoder kStatusDomain) (us_network_id status) in
  let e := add_digest e (us_node status) in
  let e := add_u64 e (us_running_release status) in
  let e := add_u64 e (us_staged_release status) in
  let e := add_u64 e (us_accepted_release status) in
  let e := add_u16 e (us_flags status) in
  digest (add_u64 e (us_timestamp_ms status)).

(** libsodium's answer is not looked at: on an error the field keeps its value. *)
Definition sign_upgrade_status (status : UpgradeStatus) (key : list Z) : UpgradeStatus :=
  mkStatus (us_network_id status) (us_node status) (us_running_release status) (us_staged_release status)
    (us_accepted_release status) (us_flags status) (us_timestamp_ms status)
    (default (us_signature status) (crypto_sign_detached key (upgrade_status_digest status))).

Definition verify_upgrade_status (status : UpgradeStatus) : bool :=
  verify_signature (us_signature status) (upgrade_status_digest status) (us_node status).

Definition upgrade_observation_digest (o : UpgradeObservation) : Digest :=
  let e := add_digest (new_encoder kObservationDomain) (uo_network_id o) in
  let e := add_u64 e (uo_release_number o) in
  let e := add_digest e (uo_subject o) in
  let e := add_digest e (uo_chain_head o) in
  let e := add_digest e (uo_witness o) in
  digest (add_digest e (uo_evidence_digest o)).

Definition sign_upgrade_observation (o : UpgradeObservation) (key : list Z) : UpgradeObservation :=
  mkUpgradeObservation (uo_network_id o) (uo_release_number o) (uo_subject o) (uo_chain_head o) (uo_witness o)
    (uo_evidence_digest o) (default (uo_signature o) (crypto_sign_detached key (upgrade_observation_digest o))).

Definition verify_upgrade_observation (o : UpgradeObservation) : bool :=
  negb (uo_evidence_digest o =? 0) && verify_signature (uo_signature o) (upgrade_observation_digest o) (uo_witness o).

Definition upgrade_record_digest (record : UpgradeRecord) : Digest :=
  digest (add_bytes (new_encoder kRecordDomain) (encode_upgrade_record record)).

Definition upgrade_record_payload (record : UpgradeRecord) : BlockPayload :=
  mkPayload ConsensusTypes.UpgradeProgress (encode_upgrade_record record).

Definition upgrade_record_from_payload (payload : BlockPayload) : option UpgradeRecord :=
  if bool_decide (bp_kind payload = ConsensusTypes.UpgradeProgress) then decode_upgrade_record (bp_body payload) else None.

(** ** The turn order *)

Definition derive_upgrade_order (release_number : Z) (tier1 others : list NodeId) : list UpgradeParticipant :=
  let tier1_set : gset Z := list_to_set tier1 in
  let tier2_set : gset Z := list_to_set (filter (λ node, node ∉ tier1_set) others) in
  let ranked (nodes : gset Z) (is_tier1 : bool) :=
    (λ node, mkParticipant node is_tier1) <$> ranked_by (order_rank release_number) (elements nodes) in
  ranked tier2_set false ++ ranked tier1_set true.
End upgrade.

(** ** The state of a rollout *)

Record UpgradeChainState := mkChainState {
  uc_sequence : Z;
  uc_head : Digest;
  uc_release_number : Z;
  uc_approval_digest : Digest;
  uc_order : list UpgradeParticipant;
  uc_upgraded : gset Z;
  uc_in_turn : option NodeId;
  uc_halted : bool;
}.

Definition no_rollout : UpgradeChainState := mkChainState 0 0 0 0 [] ∅ None false.

Definition active (s : UpgradeChainState) : bool := negb (uc_release_number s =? 0).

Definition participant (s : UpgradeChainState) (node : NodeId) : bool :=
  existsb (λ entry, pt_node entry =? node) (uc_order s).

Definition complete (s : UpgradeChainState) : bool :=
  active s && forallb (λ entry, bool_decide (pt_node entry ∈ uc_upgraded s)) (uc_order s).

Definition next_subject (s : UpgradeChainState) : option NodeId :=
  pt_node <$> head (filter (λ entry, pt_node entry ∉ uc_upgraded s) (uc_order s)).

Record UpgradeWitnessSet := mkWitnessSet {
  uw_network_id : NetworkId;
  uw_epoch : EpochId;
  uw_members : list NodeId;
}.

Inductive UpgradeRecordFailure :=
  | UrNone | Malformed | UrWrongNetwork | NotChained | StaleRelease | TurnOpen | BadOrder | RolloutClosed | NotNext
  | NotInTurn | BadStatus | BadObservation | TooFewWitnesses.

#[export] Instance upgrade_record_failure_eq_dec : EqDecision UpgradeRecordFailure.
Proof. solve_decision. Defined.

Section rules.
Context `{Sodium}.

Definition is_rebase (s : UpgradeChainState) (r : UpgradeRecord) (as_base : bool) : bool :=
  as_base && bool_decide (ur_event r = EvStart) && (uc_sequence s +64 1 <? ur_sequence r).

Definition check_start (s : UpgradeChainState) (r : UpgradeRecord) (rebase : bool) : UpgradeRecordFailure :=
  if ur_release_number r <=? uc_release_number s then StaleRelease
  else if negb rebase && bool_decide (is_Some (uc_in_turn s)) then TurnOpen
  else if (ur_approval_digest r =? 0) || bool_decide (ur_order r = []) ||
          (kMaxUpgradeParticipants <? Z.of_nat (length (ur_order r))) || bool_decide (is_Some (ur_status r)) ||
          negb (bool_decide (ur_observations r = [])) || negb (ur_subject r =? 0)
  then BadOrder
  else
    let tier1 := pt_node <$> filter (λ entry, pt_tier1 entry = true) (ur_order r) in
    let others := pt_node <$> filter (λ entry, pt_tier1 entry = false) (ur_order r) in
    if bool_decide (derive_upgrade_order (ur_release_number r) tier1 others = ur_order r) then UrNone else BadOrder.

(** What a Turn and a Halt record need of the status they carry. *)
Definition status_about (r : UpgradeRecord) (status : UpgradeStatus) : bool :=
  bool_decide (ur_observations r = []) && (us_node status =? ur_subject r) && (us_network_id status =? ur_network_id r) &&
  (us_staged_release status =? ur_release_number r).

Definition check_turn (s : UpgradeChainState) (r : UpgradeRecord) : UpgradeRecordFailure :=
  if bool_decide (is_Some (uc_in_turn s)) || negb (bool_decide (next_subject s = Some (ur_subject r))) then NotNext
  else
    match ur_status r with
    | Some status =>
        if status_about r status && has_flag (us_flags status) kUpgradeStatusReady &&
           negb (has_flag (us_flags status) kUpgradeStatusFailed) && verify_upgrade_status status
        then UrNone else BadStatus
    | None => BadStatus
    end.

(** One observation; the witnesses seen so far. [None]: refused. *)
Definition see_observation (s : UpgradeChainState) (r : UpgradeRecord) (w : UpgradeWitnessSet) (seen : gset Z)
    (o : UpgradeObservation) : option (gset Z) :=
  if negb (bool_decide (uo_witness o ∈ uw_members w)) || (uo_witness o =? ur_subject r) ||
     negb (uo_network_id o =? ur_network_id r) || negb (uo_release_number o =? ur_release_number r) ||
     negb (uo_subject o =? ur_subject r) || negb (uo_chain_head o =? uc_head s) ||
     bool_decide (uo_witness o ∈ seen) || negb (verify_upgrade_observation o)
  then None else Some ({[ uo_witness o ]} ∪ seen).

Fixpoint see_observations (s : UpgradeChainState) (r : UpgradeRecord) (w : UpgradeWitnessSet) (seen : gset Z)
    (os : list UpgradeObservation) : option (gset Z) :=
  match os with
  | [] => Some seen
  | o :: os => seen ← see_observation s r w seen o; see_observations s r w seen os
  end.

Definition check_upgraded (s : UpgradeChainState) (r : UpgradeRecord) (witnesses : option UpgradeWitnessSet)
    : UpgradeRecordFailure :=
  let in_turn := bool_decide (uc_in_turn s = Some (ur_subject r)) in
  let next_without_turn := bool_decide (uc_in_turn s = None) && bool_decide (next_subject s = Some (ur_subject r)) in
  if negb in_turn && negb next_without_turn then NotInTurn
  else
    match witnesses with
    | None => BadObservation
    | Some w =>
        if bool_decide (is_Some (ur_status r)) || negb (uw_network_id w =? ur_network_id r) then BadObservation
        else
          match see_observations s r w ∅ (ur_observations r) with
          | None => BadObservation
          | Some seen =>
              let context := established_fact_context (uw_network_id w) (uw_epoch w) (uw_members w) in
              if (Z.of_nat (size seen) <? witness_threshold context (ur_subject r)) || bool_decide (seen = ∅)
              then TooFewWitnesses else UrNone
          end
    end.

Definition check_halt (s : UpgradeChainState) (r : UpgradeRecord) : UpgradeRecordFailure :=
  if negb (bool_decide (uc_in_turn s = Some (ur_subject r))) then NotInTurn
  else
    match ur_status r with
    | Some status =>
        if status_about r status && has_flag (us_flags status) kUpgradeStatusFailed && verify_upgrade_status status
        then UrNone else BadStatus
    | None => BadStatus
    end.

Definition check_upgrade_record (s : UpgradeChainState) (r : UpgradeRecord) (witnesses : option UpgradeWitnessSet)
    (as_base : bool) : UpgradeRecordFailure :=
  if negb (ur_version r =? kUpgradeRecordVersion) || (ur_release_number r =? 0) then Malformed
  else
    let rebase := is_rebase s r as_base in
    if negb rebase && (negb (ur_sequence r =? uc_sequence s +64 1) || negb (ur_previous r =? uc_head s)) then NotChained
    else if bool_decide (ur_event r = EvStart) then check_start s r rebase
    else if negb (active s) || uc_halted s || negb (ur_release_number r =? uc_release_number s) ||
            negb (bool_decide (ur_order r = [])) || negb (ur_approval_digest r =? 0)
    then RolloutClosed
    else
      match ur_event r with
      | EvTurn => check_turn s r
      | EvUpgraded => check_upgraded s r witnesses
      | EvHalt => check_halt s r
      | EvStart => Malformed
      end.

Definition apply_upgrade_record (s : UpgradeChainState) (r : UpgradeRecord) : UpgradeChainState :=
  let head := upgrade_record_digest r in
  match ur_event r with
  | EvStart =>
      mkChainState (ur_sequence r) head (ur_release_number r) (ur_approval_digest r) (ur_order r) ∅ None false
  | EvTurn =>
      mkChainState (ur_sequence r) head (uc_release_number s) (uc_approval_digest s) (uc_order s) (uc_upgraded s)
        (Some (ur_subject r)) (uc_halted s)
  | EvUpgraded =>
      mkChainState (ur_sequence r) head (uc_release_number s) (uc_approval_digest s) (uc_order s)
        ({[ ur_subject r ]} ∪ uc_upgraded s) None (uc_halted s)
  | EvHalt =>
      mkChainState (ur_sequence r) head (uc_release_number s) (uc_approval_digest s) (uc_order s) (uc_upgraded s) None true
  end.

Inductive UpgradeGate := GateGo | GateWait | GateHalted | GateDone | GateNotStarted.

Definition evaluate_upgrade_gate (s : UpgradeChainState) (self : NodeId) (release_number : Z) : UpgradeGate :=
  if negb (active s) || negb (uc_release_number s =? release_number) then GateNotStarted
  else if uc_halted s then GateHalted
  else if bool_decide (self ∈ uc_upgraded s) then GateDone
  else if bool_decide (uc_in_turn s = Some self) then GateGo
  else if negb (participant s self) then (if complete s then GateGo else GateWait)
  else GateWait.

(** ** A proof of the rollout *)

Inductive UpgradeTopic := ApprovalOffer | TopicStatus | TopicObservation | RecordProof | RecordRequest.

#[export] Instance upgrade_topic_eq_dec : EqDecision UpgradeTopic.
Proof. solve_decision. Defined.

Record UpgradeMsg := mkUpgradeMsg {
  um_topic : UpgradeTopic;
  um_body : list Z;
  um_proof : option CommitProof;
}.

(** A proof with its messages decoded. [None]: the message does not decode as
    one of its kind for the network. *)
Record RolloutMessages := mkRolloutMessages {
  rm_genesis_public_key : Ed25519PublicKey;
  rm_base : option AuthorityChainPage;
  rm_links : list (option EpochHandoffProofMsg);
  rm_records : list (option UpgradeMsg);
}.

Record VerifiedRollout := mkVerifiedRollout {
  vr_state : UpgradeChainState;
  vr_epoch : EpochId;
  vr_genesis_public_key : Ed25519PublicKey;
  vr_network_id : NetworkId;
}.

(** [std::map::emplace] *)
Definition emplace_authority (a : VerifiedEpochAuthority) (m : gmap Z VerifiedEpochAuthority)
    : gmap Z VerifiedEpochAuthority :=
  match m !! au_epoch a with Some _ => m | None => <[ au_epoch a := a ]> m end.

Fixpoint verify_links (a : VerifiedEpochAuthority) (m : gmap Z VerifiedEpochAuthority)
    (links : list (option EpochHandoffProofMsg)) : option (VerifiedEpochAuthority * gmap Z VerifiedEpochAuthority) :=
  match links with
  | [] => Some (a, m)
  | link :: rest =>
      link ← link;
      match advance_epoch_authority a (hp_handoff link) (hp_proof link) with
      | inl next => verify_links next (emplace_authority next m) rest
      | inr _ => None
      end
  end.

(** One record, finalized under its own epoch. *)
Definition verify_record (network_id : NetworkId) (authorities : gmap Z VerifiedEpochAuthority) (first : bool)
    (message : option UpgradeMsg) (s : UpgradeChainState) : option UpgradeChainState :=
  upgrade ← message;
  if negb (bool_decide (um_topic upgrade = RecordProof)) then None
  else
    proof ← um_proof upgrade;
    match cp_chain proof with
    | [] => None
    | b0 :: _ =>
        record ← decode_upgrade_record (um_body upgrade);
        if negb (ur_network_id record =? network_id) then None
        else
          let epoch := p_epoch (cb_proposal b0) in
          judge ← authorities !! epoch;
          let context := mkContext kConsensusRulesetVersion network_id epoch (au_consensus_quorum judge) in
          let payload := mkPayload ConsensusTypes.UpgradeProgress (um_body upgrade) in
          if negb (bool_decide (verify_commit_proof (block_payload_digest payload) proof context
                                  (au_vote_keys judge) = CpNone)) then None
          else if first && negb (bool_decide (ur_event record = EvStart)) then None
          else if negb first && bool_decide (ur_event record = EvStart) then None
          else if negb (bool_decide (check_upgrade_record s record
                          (Some (mkWitnessSet network_id epoch (au_members judge))) first = UrNone)) then None
          else Some (apply_upgrade_record s record)
    end.

Fixpoint verify_records (network_id : NetworkId) (authorities : gmap Z VerifiedEpochAuthority) (first : bool)
    (records : list (option UpgradeMsg)) (s : UpgradeChainState) : option UpgradeChainState :=
  match records with
  | [] => Some s
  | message :: rest =>
      s ← verify_record network_id authorities first message s;
      verify_records network_id authorities false rest s
  end.

Definition verify_rollout_proof (proof : RolloutMessages) (network_id : NetworkId) : option VerifiedRollout :=
  let genesis_public_key := rm_genesis_public_key proof in
  if negb (derive_network_id genesis_public_key kSecurityRulesetVersion kConsensusRulesetVersion =? network_id) then None
  else
    page ← rm_base proof;
    '(certificate, vote_keys) ← pg_base page;
    authority ← verify_epoch_one_authority certificate genesis_public_key vote_keys;
    if negb (au_network_id authority =? network_id) then None
    else
      '(authority, authorities) ← verify_links authority (emplace_authority authority ∅) (rm_links proof);
      s ← verify_records network_id authorities true (rm_records proof) no_rollout;
      Some (mkVerifiedRollout s (au_epoch authority) genesis_public_key network_id).

Definition rollout_complete (rollout : VerifiedRollout) (release_number : Z) : bool :=
  let s := vr_state rollout in
  if negb (active s) then false
  else if negb (uc_release_number s =? release_number) then false
  else if uc_halted s then false
  else complete s.
End rules.
