(* ===== verification/ReleaseChain.v ===== *)
(** * The release chain of a server

    Models [Security/Attestation/ReleaseChain.cpp] on the disk of
    [DurableWrite.v]: the record that pins the release signer and keeps the
    newest accepted approval, loading it with the installed approval, offers,
    the binding of the founding commitment and the finalized floor. Also the
    release guard of [Upgrade/RolloutProof.cpp], which decides from a verified
    rollout whether an approval may follow. A stat or an open takes its outcome
    from the disk's oracle; a stream that opens reads the whole file. *)

From S2P Require Import Prelude SecurityPolicy CanonicalEncoding ConsensusTypes DurableWrite Json FileStorage.
From S2P Require Import EligibilityStore TreeTypes LinkToken TreeCodec NodeFiles ReleaseApproval UpgradeProgress.

Definition kReleaseChainFormatVersion : Z := 1.

Inductive ReleaseOfferResult :=
  | OfferAdopted | OfferCurrent | OfferStale | OfferWrongSigner | OfferInvalid | OfferOversize | OfferUnavailable.

#[export] Instance offer_result_eq_dec : EqDecision ReleaseOfferResult.
Proof. solve_decision. Defined.

Record ReleaseChainRecord := mkChainRecord {
  cr_format_version : Z;
  cr_network_id_hex : string;
  cr_release_signing_pubkey_b64 : string;
  cr_pin_approval_digest : Digest;
  cr_founding_approval_digest : Digest;
  cr_highest_release_number : Z;
  cr_approval_bundle_json : string;
}.

#[export] Instance eta_chain_record : Etable ReleaseChainRecord := λ r,
  mkChainRecord (cr_format_version r) (cr_network_id_hex r) (cr_release_signing_pubkey_b64 r)
    (cr_pin_approval_digest r) (cr_founding_approval_digest r) (cr_highest_release_number r)
    (cr_approval_bundle_json r).

Record ReleaseChain := mkReleaseChain {
  ch_healthy : bool;
  ch_floor : Z;
  ch_record : option ReleaseChainRecord;
  ch_current : option ReleaseApprovalBundleV1;
}.

#[export] Instance eta_release_chain : Etable ReleaseChain := λ c,
  mkReleaseChain (ch_healthy c) (ch_floor c) (ch_record c) (ch_current c).

Definition new_release_chain : ReleaseChain := mkReleaseChain true 0 None None.

Definition signer_matches (bundle : ReleaseApprovalBundleV1) (signer : string) : bool :=
  String.eqb (ra_release_signing_pubkey_b64 (bd_authority bundle)) signer &&
  String.eqb (rl_signer_pubkey_b64 (bd_approval bundle)) signer.

(** ** The floor *)

Definition highest_release_number (c : ReleaseChain) : Z :=
  match ch_record c with Some r => cr_highest_release_number r | None => 0 end.

Definition below_floor (c : ReleaseChain) : bool :=
  negb (ch_floor c =? 0) &&
  match ch_record c with Some r => cr_highest_release_number r <? ch_floor c | None => true end.

Definition chain_current (c : ReleaseChain) : option ReleaseApprovalBundleV1 :=
  if below_floor c then None else ch_current c.

Definition raise_floor (finalized_release_number : Z) (c : ReleaseChain) : bool * ReleaseChain :=
  if finalized_release_number <=? ch_floor c then (false, c)
  else (true, c <| ch_floor := finalized_release_number |>).

(** ** Files *)

(** [exists(path, ec)]: a stat that fails counts as absent. *)
Definition stat_exists (path : string) (d : Disk) : bool * Disk :=
  let '(ok, d) := succeeds d in
  (ok && bool_decide (is_Some (DurableWrite.read_file path d)), d).

Definition read_text (path : string) (limit : Z) (d : Disk) : option (list Z) * Disk :=
  let '(sized, d) := succeeds d in
  if negb sized then (None, d)
  else
    match DurableWrite.read_file path d with
    | None => (None, d)
    | Some text =>
        if limit <? Z.of_nat (length text) then (None, d)
        else let '(opened, d) := succeeds d in (if opened then Some text else None, d)
    end.

Section chain.
Context `{Sodium, SodiumMessages, TextCodec, HexCodec, ValueCodec}.
Context (directory_ : string) (genesis_public_key_ : Ed25519PublicKey) (network_id_ : NetworkId).
Implicit Types (c : ReleaseChain) (d : Disk) (bundle : ReleaseApprovalBundleV1).

Definition chain_path : string := directory_ +:+ "/release-chain.json".
Definition founding_path : string := directory_ +:+ "/release-founding-approval.json".

Definition chain_current_digest c : Digest :=
  match chain_current c with Some held => release_approval_digest (bd_approval held) | None => 0 end.

Definition record_document (r : ReleaseChainRecord) : json :=
  object [("format_version", JUnsigned (cr_format_version r));
          ("network_id", JString (cr_network_id_hex r));
          ("release_signing_pubkey", JString (cr_release_signing_pubkey_b64 r));
          ("pin_approval_digest", hex_of 32 (cr_pin_approval_digest r));
          ("founding_approval_digest", hex_of 32 (cr_founding_approval_digest r));
          ("highest_release_number", JUnsigned (cr_highest_release_number r));
          ("approval_bundle", JString (cr_approval_bundle_json r))].

Definition parse_record (text : list Z) : option ReleaseChainRecord :=
  j ← json_parse text;
  format_version ← at_unsigned two32 j "format_version";
  network_id ← at_string j "network_id";
  signer ← at_string j "release_signing_pubkey";
  pin ← at_key j "pin_approval_digest" ≫= read_hex_value 32;
  founding ← at_key j "founding_approval_digest" ≫= read_hex_value 32;
  highest ← at_unsigned two64 j "highest_release_number";
  bundle ← at_string j "approval_bundle";
  if negb (format_version =? kReleaseChainFormatVersion) then None
  else Some (mkChainRecord format_version network_id signer pin founding highest bundle).

Definition persist (r : ReleaseChainRecord) d : bool * Disk :=
  write_atomic chain_path (json_dump (record_document r)) d.

(** ** Offers *)

(** The first component is [None] when the function throws. *)
Definition offer bundle c d : option ReleaseOfferResult * ReleaseChain * Disk :=
  match ch_record c with
  | Some record =>
      if negb (ch_healthy c) then (Some OfferUnavailable, c, d)
      else if negb (verify_release_approval_bundle bundle genesis_public_key_ network_id_)
      then (Some OfferInvalid, c, d)
      else if negb (signer_matches bundle (cr_release_signing_pubkey_b64 record))
      then (Some OfferWrongSigner, c, d)
      else if match ch_current c with
              | Some held => release_approval_digest (bd_approval bundle) =? release_approval_digest (bd_approval held)
              | None => false
              end then (Some OfferCurrent, c, d)
      else if rl_release_number (bd_approval bundle) <=? cr_highest_release_number record
      then (Some OfferStale, c, d)
      else
        match release_approval_bundle_json bundle with
        | None => (None, c, d)
        | Some text =>
            let next := record <| cr_highest_release_number := rl_release_number (bd_approval bundle) |>
                               <| cr_approval_bundle_json := bytes_string text |> in
            let '(stored, d) := persist next d in
            if negb stored then (Some OfferUnavailable, c, d)
            else (Some OfferAdopted, c <| ch_record := Some next |> <| ch_current := Some bundle |>, d)
        end
  | None => (Some OfferUnavailable, c, d)
  end.

Definition offer_json (text : list Z) c d : option ReleaseOfferResult * ReleaseChain * Disk :=
  if kMaxReleaseApprovalBytes <? Z.of_nat (length text) then (Some OfferOversize, c, d)
  else
    match parse_release_approval_bundle text with
    | None => (Some OfferInvalid, c, d)
    | Some bundle => offer bundle c d
    end.

(** ** Loading *)

(** The stored approval, when this build verifies it. *)
Definition stored_approval (r : ReleaseChainRecord) : option ReleaseApprovalBundleV1 :=
  stored ← parse_release_approval_bundle (string_bytes (cr_approval_bundle_json r));
  if verify_release_approval_bundle stored genesis_public_key_ network_id_ &&
     signer_matches stored (cr_release_signing_pubkey_b64 r) &&
     (rl_release_number (bd_approval stored) =? cr_highest_release_number r) then Some stored
  else None.

Definition record_usable (r : ReleaseChainRecord) : bool :=
  String.eqb (cr_network_id_hex r) (to_hex (be_bytes 32 network_id_)) &&
  String.eqb (canonical_key_b64 (cr_release_signing_pubkey_b64 r)) (cr_release_signing_pubkey_b64 r) &&
  negb (is_empty (cr_release_signing_pubkey_b64 r)).

(** The installed approval as an offer. *)
Definition offer_installed (installed : option ReleaseApprovalBundleV1) c d : option bool * ReleaseChain * Disk :=
  match installed with
  | None => (Some true, c, d)
  | Some bundle =>
      let '(result, c, d) := offer bundle c d in
      (match result with Some _ => Some true | None => None end, c, d)
  end.

(** The installed approval pins the signer. *)
Definition pin_installed bundle c d : option bool * ReleaseChain * Disk :=
  match release_approval_bundle_json bundle with
  | None => (None, c, d)
  | Some text =>
      let signer := ra_release_signing_pubkey_b64 (bd_authority bundle) in
      let record := mkChainRecord kReleaseChainFormatVersion (to_hex (be_bytes 32 network_id_)) signer
                      (release_approval_digest (bd_approval bundle)) 0 (rl_release_number (bd_approval bundle))
                      (bytes_string text) in
      if negb (signer_matches bundle signer) then (Some true, c, d)
      else
        let '(stored, d) := persist record d in
        if negb stored then (Some true, c, d)
        else (Some true, c <| ch_record := Some record |> <| ch_current := Some bundle |>, d)
  end.

Definition load_chain (installed : option ReleaseApprovalBundleV1) c d : option bool * ReleaseChain * Disk :=
  let c := c <| ch_healthy := true |> <| ch_record := None |> <| ch_current := None |> in
  let '(found, d) := stat_exists chain_path d in
  if found then
    let '(text, d) := read_text chain_path (4 * kMaxReleaseApprovalBytes) d in
    match text ≫= parse_record with
    | Some record =>
        if negb (record_usable record) then (Some false, c <| ch_healthy := false |>, d)
        else offer_installed installed
               (c <| ch_record := Some record |> <| ch_current := stored_approval record |>) d
    | None => (Some false, c <| ch_healthy := false |>, d)
    end
  else
    match installed with
    | Some bundle => pin_installed bundle c d
    | None => (Some true, c, d)
    end.

(** ** The founding commitment *)

Definition founding_from_file (committed : Digest) d : option ReleaseApprovalBundleV1 * Disk :=
  let '(text, d) := read_text founding_path kMaxReleaseApprovalBytes d in
  (bundle ← text ≫= parse_release_approval_bundle;
   if verify_release_approval_signatures bundle genesis_public_key_ network_id_ &&
      (release_approval_digest (bd_approval bundle) =? committed) then Some bundle else None, d).

(** The founding approval the commitment names carries the pinned signer. *)
Definition founding_matches (committed : Digest) (record : ReleaseChainRecord) d : bool * Disk :=
  if committed =? cr_pin_approval_digest record then (true, d)
  else
    let '(founding, d) := founding_from_file committed d in
    (match founding with
     | None => false
     | Some bundle =>
         signer_matches bundle (cr_release_signing_pubkey_b64 record) &&
         negb (cr_highest_release_number record <? rl_release_number (bd_approval bundle))
     end, d).

Definition bind_commitment (committed_approval_digest : Digest) c d : bool * ReleaseChain * Disk :=
  match ch_record c with
  | None => (false, c, d)
  | Some record =>
      if negb (ch_healthy c) || (committed_approval_digest =? 0) then (false, c, d)
      else if negb (cr_founding_approval_digest record =? 0)
      then (cr_founding_approval_digest record =? committed_approval_digest, c, d)
      else
        let '(matches_, d) := founding_matches committed_approval_digest record d in
        if negb matches_ then (false, c, d)
        else
          let next := record <| cr_founding_approval_digest := committed_approval_digest |> in
          let '(stored, d) := persist next d in
          if negb stored then (false, c, d) else (true, c <| ch_record := Some next |>, d)
  end.

(** ** The release guard *)

Inductive PreviousRollout := RolloutComplete | RolloutHalted.

Definition previous_rollout_state (rollout : VerifiedRollout) (release_number : Z)
    (previous : option ReleaseApprovalBundleV1) : option PreviousRollout :=
  let s := vr_state rollout in
  if negb (active s) || negb (uc_release_number s =? release_number) then None
  else if match previous with
          | None => false
          | Some p =>
              negb (verify_release_approval_signatures p (vr_genesis_public_key rollout) (vr_network_id rollout)) ||
              negb (rl_release_number (bd_approval p) =? release_number) ||
              negb (release_approval_digest (bd_approval p) =? uc_approval_digest s)
          end then None
  else if uc_halted s then
    match previous with None => None | Some _ => Some RolloutHalted end
  else if negb (rollout_complete rollout release_number) then None
  else Some RolloutComplete.

Definition is_halted (state : PreviousRollout) : bool := match state with RolloutHalted => true | RolloutComplete => false end.

Definition required_hashes (paths : list ApprovedPath) : gmap string (gset string) :=
  foldl (λ m p, <[ ap_path p := list_to_set (ap_sha256 p) ∪ default ∅ (m !! ap_path p) ]> m) ∅ paths.

(** [None]: a path is listed twice. *)
Fixpoint carried_hashes (paths : list ApprovedPath) (m : gmap string (gset string)) : option (gmap string (gset string)) :=
  match paths with
  | [] => Some m
  | p :: rest =>
      match m !! ap_path p with
      | Some _ => None
      | None => carried_hashes rest (<[ ap_path p := list_to_set (ap_sha256 p) ]> m)
      end
  end.

(** What is left of the carried paths once every approved path is compared. *)
Fixpoint compare_hashes (required : gmap string (gset string)) (paths : list ApprovedPath)
    (carried : gmap string (gset string)) : option (gmap string (gset string)) :=
  match paths with
  | [] => Some carried
  | p :: rest =>
      if bool_decide (default ∅ (required !! ap_path p) = default ∅ (carried !! ap_path p))
      then compare_hashes required rest (base.delete (ap_path p) carried)
      else None
  end.

Definition release_follows_rollout (rollout : VerifiedRollout) (release_number : Z)
    (previous : ReleaseApprovalBundleV1) (next : ReleaseApprovalV1) : bool :=
  match previous_rollout_state rollout release_number (Some previous) with
  | None => false
  | Some state =>
      let prior := bd_approval previous in
      if negb (String.eqb (rl_network_id_hex next) (rl_network_id_hex prior)) ||
         negb (String.eqb (rl_signer_pubkey_b64 next) (rl_signer_pubkey_b64 prior)) ||
         negb (String.eqb (rl_network_id_hex next) (to_hex (be_bytes 32 (vr_network_id rollout)))) then false
      else if rl_release_number next <=? release_number then false
      else
        match carried_hashes (rl_previous_release_paths next) ∅ with
        | None => false
        | Some carried =>
            match compare_hashes (required_hashes (release_overlap_paths prior (is_halted state)))
                    (rl_approved_paths next) carried with
            | None => false
            | Some rest => bool_decide (rest = ∅)
            end
        end
  end.
End chain.
