(* ===== verification/ReleaseTheorems.v ===== *)
(** * Theorems about release approvals and the release chain

    The accepted release number never falls and the pinned signer never
    changes, through offers, bindings, crashes at any point and restarts; an
    adopted approval is the one a restart finds; the generator's approvals pass
    the verification and the release guard; an approval that passed the guard
    accepts every server the rollout before it left behind; and a stat that
    fails at start lets an older installed approval replace the record. *)

From S2P Require Import Prelude SecurityPolicy CanonicalEncoding ConsensusTypes PlatformClaims DurableWrite Json.
From S2P Require Import FileStorage EligibilityStore TestCodec TreeTypes LinkToken TreeCodec TreeRoundTrip NodeFiles.
From S2P Require Import TreeReplay ReleaseApproval UpgradeProgress ReleaseChain.

Section chain.
Context `{Sodium, SodiumMessages, TextCodec, HexCodec, ValueCodec, !SodiumLaws, !TextCodecLaws, !HexCodecLaws}.
Context (directory : string) (genesis : Ed25519PublicKey) (network : NetworkId).
Notation path := (chain_path directory).

(** A call of the chain, and what it leaves. *)
Inductive ChainCall := CallOffer (text : list Z) | CallBind (committed : Digest) | CallFloor (number : Z).

Definition perform (call : ChainCall) (c : ReleaseChain) (d : Disk) : ReleaseChain * Disk :=
  match call with
  | CallOffer text => let '(_, c, d) := offer_json directory genesis network text c d in (c, d)
  | CallBind committed => let '(_, c, d) := bind_commitment directory genesis network committed c d in (c, d)
  | CallFloor number => ((raise_floor number c).2, d)
  end.

(** A bundle whose text form is ASCII, with a 64-bit release number. *)
Definition plain_bundle (b : ReleaseApprovalBundleV1) : Prop :=
  is_u64 (rl_release_number (bd_approval b)) ∧
  ∀ text, release_approval_bundle_json b = Some text → Forall (λ x, 0 <= x < 128) text.

Definition plain_call (call : ChainCall) : Prop :=
  match call with
  | CallOffer text => ∀ b, parse_release_approval_bundle text = Some b → plain_bundle b
  | CallBind committed => is_digest committed
  | CallFloor _ => True
  end.

(** A start on what a crash left, with any installed approval. With one to
    install, the stat of the record does not fail ([failed_stat_goes_back] shows
    what a failing one does); every other call may fail. *)
Definition starts (ver : gmap string Content) (installed : option ReleaseApprovalBundleV1) (d0 : Disk) : Prop :=
  (∀ b, installed = Some b → plain_bundle b) ∧ reboots ver d0 ∧ (installed = None ∨ (succeeds d0).1 = true).

(** A start may itself crash at any of its calls, and another start follows. *)
Inductive boot : gmap string Content → ReleaseChain * Disk → Prop :=
  | boot_done ver installed d0 result c' d' :
      starts ver installed d0 → load_chain directory genesis network installed new_release_chain d0 = (result, c', d') →
      boot ver (c', d')
  | boot_crash ver installed d0 result c' d' ver' s :
      starts ver installed d0 → load_chain directory genesis network installed new_release_chain d0 = (result, c', d') →
      crash_point d0 d' ver' → boot ver' s → boot ver s.

(** One call, or a crash during or after one and the starts that follow. *)
Inductive chain_step : ReleaseChain * Disk → ReleaseChain * Disk → Prop :=
  | step_call call c d : plain_call call → chain_step (c, d) (perform call c d)
  | step_restart call ver c d s :
      plain_call call → crash_point d (perform call c d).2 ver → boot ver s → chain_step (c, d) s.

(** *** Records *)

Record record_ok (signer : string) (r : ReleaseChainRecord) : Prop := mkRecordOk {
  ro_format : cr_format_version r = kReleaseChainFormatVersion;
  ro_network : cr_network_id_hex r = to_hex (be_bytes 32 network);
  ro_signer : cr_release_signing_pubkey_b64 r = signer;
  ro_text : ascii_text signer;
  ro_pin : is_digest (cr_pin_approval_digest r);
  ro_founding : is_digest (cr_founding_approval_digest r);
  ro_number : is_u64 (cr_highest_release_number r);
  ro_bundle : ascii_text (cr_approval_bundle_json r);
}.

Lemma at_key_object key fields : at_key (object fields) key = assoc key fields.
Proof. apply lookup_fields. Qed.

Lemma get_unsigned_small width z : 0 <= z < width → get_unsigned width (JUnsigned z) = Some z.
Proof. intros Hz. cbn. by rewrite Z.mod_small. Qed.

Lemma chain_record_fits signer r : record_ok signer r → json_fits (record_document r).
Proof.
  intros [Ef En Es Ht Hp Hf Hn Hb]. unfold record_document. rewrite Ef, En, Es.
  fits_literal; try apply fits_hex; constructor; first [done|apply hex_ascii, be_bytes_are_bytes].
Qed.

Lemma chain_record_round_trip signer r : record_ok signer r → parse_record (json_dump (record_document r)) = Some r.
Proof.
  intros Hr. pose proof (chain_record_fits _ _ Hr) as Hf. destruct Hr as [Ef _ _ _ Hp Hfo Hn _].
  unfold parse_record. rewrite json_round_trip by done. cbn [mbind option_bind].
  unfold at_unsigned, at_string, record_document. rewrite !at_key_object. cbn [assoc String.eqb Ascii.eqb Bool.eqb].
  cbn [mbind option_bind as_string]. rewrite !read_hex_value_of by done. cbn [mbind option_bind].
  rewrite Ef. rewrite !get_unsigned_small by done. cbn [mbind option_bind].
  rewrite Z.eqb_refl. cbn [negb]. by rewrite <-Ef; destruct r.
Qed.

Lemma string_of_bytes l : Forall is_byte l → string_bytes (bytes_string l) = l.
Proof.
  intros Hl. unfold string_bytes, bytes_string. rewrite String.list_ascii_of_string_of_list_ascii.
  rewrite <-list_fmap_compose. rewrite <-(list_fmap_id l) at 2. apply list_fmap_ext.
  intros i x Hx. cbn. rewrite Forall_lookup in Hl. pose proof (Hl i x Hx) as Hb. unfold is_byte in Hb.
  rewrite Ascii.nat_ascii_embedding by lia. lia.
Qed.

Lemma plain_text text : Forall (λ x, 0 <= x < 128) text → ascii_text (bytes_string text).
Proof.
  intros Ht. unfold ascii_text. rewrite string_of_bytes.
  - eapply Forall_impl; [exact Ht|]. by intros x [_ Hx].
  - eapply Forall_impl; [exact Ht|]. intros x Hx. unfold is_byte. cbn in Hx. lia.
Qed.

(** *** What the disk keeps *)

(** The record under the chain's name is whole and at least at [m]. *)
Definition held (signer : string) (m : Z) (content : option Content) : Prop :=
  ∃ bytes r, content = Some (Whole bytes) ∧ parse_record bytes = Some r ∧ record_ok signer r ∧
    m <= cr_highest_release_number r.

Lemma held_weaken signer m m' content : m' <= m → held signer m content → held signer m' content.
Proof. intros Hm (bytes & r & Ec & Ep & Hr & Hh). exists bytes, r. split_and!; [done..|lia]. Qed.

Definition all_held (signer : string) (m : Z) (vs : list (gmap string Content)) : Prop :=
  Forall (λ v, held signer m (v !! path)) vs.

Lemma all_held_weaken signer m m' vs : m' <= m → all_held signer m vs → all_held signer m' vs.
Proof. intros Hm Hv. eapply Forall_impl; [exact Hv|]. intros v. by apply held_weaken. Qed.

(** Whatever a write of a record does, what was held stays held or is the new
    record; a write that reports success leaves nothing else. *)
Lemma persist_holds signer m next d ok d' :
  record_ok signer next → m <= cr_highest_release_number next → all_held signer m (versions d) →
  persist directory next d = (ok, d') →
  all_held signer m (versions d') ∧ (∀ ver, crash_point d d' ver → held signer m (ver !! path)) ∧
  (ok = true → all_held signer (cr_highest_release_number next) (versions d')).
Proof.
  intros Hr Hm Hv.
  assert (Hnew : ∀ m', m' <= cr_highest_release_number next →
    held signer m' (Some (Whole (json_dump (record_document next))))).
  { intros m' Hm'. exists (json_dump (record_document next)), next. split_and!; [done| |done|lia].
    by eapply chain_record_round_trip. }
  intros [Hk Hok]%(write_atomic_keeps path (held signer m)); [|done|by apply Hnew].
  split_and!; [apply Hk|intros ver; by apply crash_keeps_point|].
  intros Hyes. apply Forall_forall. intros v Hin. rewrite (Hok Hyes v Hin). by apply Hnew.
Qed.

(** *** The invariant *)

Record chain_ok (signer : string) (n : Z) (c : ReleaseChain) (d : Disk) : Prop := mkChainOk {
  ck_bound : ∃ m, n <= m ∧ all_held signer m (versions d) ∧
    ∀ r, ch_record c = Some r → record_ok signer r ∧ n <= cr_highest_release_number r <= m;
  ck_current : ∀ b, ch_current c = Some b → ∃ r, ch_record c = Some r ∧
    verify_release_approval_bundle b genesis network = true ∧ signer_matches b signer = true ∧
    rl_release_number (bd_approval b) = cr_highest_release_number r;
}.

Lemma chain_ok_disk signer n c d : chain_ok signer n c d → all_held signer n (versions d).
Proof. intros [(m & Hm & Hv & _) _]. by eapply all_held_weaken. Qed.

Lemma chain_ok_raise signer n c d r :
  chain_ok signer n c d → ch_record c = Some r → chain_ok signer (cr_highest_release_number r) c d.
Proof.
  intros [(m & Hm & Hv & Hr) Hc] Er. split; [|exact Hc]. exists m. destruct (Hr r Er) as [Hok Hb].
  split_and!; [lia|done|]. intros r' Er'. rewrite Er in Er'. apply (inj Some) in Er' as <-. split; [done|lia].
Qed.

(** A call keeps the invariant, and so does a crash during it. *)
Definition keeps (signer : string) (n : Z) (d : Disk) (c' : ReleaseChain) (d' : Disk) : Prop :=
  chain_ok signer n c' d' ∧ ∀ ver, crash_point d d' ver → held signer n (ver !! path).

Lemma keeps_same signer n c d : chain_ok signer n c d → keeps signer n d c d.
Proof.
  intros Hc. split; [done|]. intros ver Hin%crash_same. pose proof (chain_ok_disk _ _ _ _ Hc) as Hv.
  unfold all_held in Hv. rewrite Forall_forall in Hv. by apply Hv.
Qed.

(** Storing a record that does not go back. *)
Lemma keeps_stored signer n c d r next ok d' :
  chain_ok signer n c d → ch_record c = Some r → record_ok signer next →
  cr_highest_release_number r <= cr_highest_release_number next → persist directory next d = (ok, d') →
  keeps signer n d c d' ∧
  (ok = true → ∀ current, (∀ b, current = Some b →
      verify_release_approval_bundle b genesis network = true ∧ signer_matches b signer = true ∧
      rl_release_number (bd_approval b) = cr_highest_release_number next) →
    keeps signer n d (c <| ch_record := Some next |> <| ch_current := current |>) d').
Proof.
  intros Hc Er Hn Hle Hp. pose proof (chain_ok_raise _ _ _ _ _ Hc Er) as Hc'.
  pose proof (chain_ok_disk _ _ _ _ Hc') as Hv.
  destruct (persist_holds _ _ _ _ _ _ Hn Hle Hv Hp) as (Hall & Hcrash & Hok).
  destruct Hc as [(m & Hm & Hv0 & Hr) Hcur]. destruct (Hr r Er) as [Hrok Hb].
  assert (Hcr : ∀ ver, crash_point d d' ver → held signer n (ver !! path)).
  { intros ver Hver. eapply held_weaken, (Hcrash _ Hver). lia. }
  split.
  - split; [|done]. split; [|exact Hcur]. exists (cr_highest_release_number r). split_and!; [lia|done|].
    intros r' Er'. rewrite Er in Er'. apply (inj Some) in Er' as <-. split; [done|lia].
  - intros Hyes current Hcu. split; [|done]. split.
    + exists (cr_highest_release_number next). split_and!; [lia|by apply Hok|].
      intros r' Er'. change (Some next = Some r') in Er'. apply (inj Some) in Er' as <-. split; [done|lia].
    + intros b Hb'. destruct (Hcu b Hb') as (H1' & H2' & H3'). exists next. by split_and!.
Qed.

Lemma offer_keeps signer n b c d result c' d' :
  plain_bundle b → chain_ok signer n c d → offer directory genesis network b c d = (result, c', d') →
  keeps signer n d c' d'.
Proof.
  intros [Hu Ht] Hc. pose proof (keeps_same _ _ _ _ Hc) as Hs. unfold offer.
  destruct (ch_record c) as [record|] eqn:Er; [|by intros [= _ <- <-]].
  destruct (negb (ch_healthy c)); [by intros [= _ <- <-]|].
  destruct (verify_release_approval_bundle b genesis network) eqn:Ev; cbn [negb]; [|by intros [= _ <- <-]].
  destruct (signer_matches b (cr_release_signing_pubkey_b64 record)) eqn:Es; cbn [negb]; [|by intros [= _ <- <-]].
  destruct (match ch_current c with Some held => _ | None => _ end); [by intros [= _ <- <-]|].
  destruct (Z.leb_spec (rl_release_number (bd_approval b)) (cr_highest_release_number record)) as [|Hlt];
    [by intros [= _ <- <-]|].
  destruct (release_approval_bundle_json b) as [text|] eqn:Ej; [|by intros [= _ <- <-]].
  destruct (persist _ _ d) as [ok d1] eqn:Ep. destruct (ck_bound _ _ _ _ Hc) as (m & _ & _ & Hr).
  destruct (Hr record Er) as [Hok _].
  eapply keeps_stored in Ep as [Hno Hyes]; [|exact Hc|exact Er| |]; cbn.
  2:{ destruct Hok as [E1 E2 E3 E4 E5 E6 E7 E8]. split; try done. by apply plain_text, Ht. }
  2:{ cbn. lia. }
  destruct ok; cbn [negb]; intros [= _ <- <-]; [|done]. apply Hyes; [done|].
  intros b' Eb. apply (inj Some) in Eb as <-. split_and!; [done| |done].
  by rewrite <-(ro_signer _ _ Hok).
Qed.

Lemma bind_keeps signer n committed c d result c' d' :
  is_digest committed → chain_ok signer n c d →
  bind_commitment directory genesis network committed c d = (result, c', d') → keeps signer n d c' d'.
Proof.
  intros Hd Hc. pose proof (keeps_same _ _ _ _ Hc) as Hs. unfold bind_commitment.
  destruct (ch_record c) as [record|] eqn:Er; [|by intros [= _ <- <-]].
  destruct (_ || _); [by intros [= _ <- <-]|]. destruct (negb _); [by intros [= _ <- <-]|].
  destruct (founding_matches _ _ _ _ _ d) as [matches_ d1] eqn:Ef.
  assert (Hd1 : versions d1 = versions d ∧ trace d1 = trace d).
  { revert Ef. unfold founding_matches, founding_from_file, read_text. destruct (_ =? _); [by intros [= _ <-]|].
    destruct (succeeds d) as [b1 d2] eqn:E1. apply succeeds_frame in E1 as (_ & Ev1 & Et1).
    destruct b1; cbn [negb]; [|intros [= _ <-]; by split].
    destruct (DurableWrite.read_file _ _) as [text|]; [|intros [= _ <-]; by split].
    destruct (_ <? _); [intros [= _ <-]; by split|].
    destruct (succeeds d2) as [b2 d3] eqn:E2. apply succeeds_frame in E2 as (_ & Ev2 & Et2).
    intros [= _ <-]. by rewrite Ev2, Et2. }
  destruct Hd1 as [Ev Et].
  assert (Hc1 : chain_ok signer n c d1).
  { destruct Hc as [(m & Hm & Hv & Hr) Hcu]. split; [|done]. exists m. by rewrite Ev. }
  assert (Hcp : ∀ d2 ver, crash_point d d2 ver → crash_point d1 d2 ver).
  { intros d2 ver. unfold crash_point. by rewrite Et. }
  assert (Hk : ∀ c2 d2, keeps signer n d1 c2 d2 → keeps signer n d c2 d2).
  { intros c2 d2 [H1' H2']. split; [done|]. intros ver Hver. by apply H2', Hcp. }
  destruct matches_; cbn [negb]; [|intros [= _ <- <-]; by apply Hk, keeps_same].
  destruct (persist _ _ d1) as [ok d2] eqn:Ep. destruct (ck_bound _ _ _ _ Hc1) as (m & _ & _ & Hr).
  destruct (Hr record Er) as [Hok _].
  eapply keeps_stored in Ep as [Hno Hyes]; [|exact Hc1|exact Er| |].
  2:{ destruct Hok as [E1 E2 E3 E4 E5 E6 E7 E8]. by split. }
  2:{ cbn. lia. }
  destruct ok; cbn [negb]; intros [= _ <- <-]; apply Hk; [|done].
  change (c <| ch_record := Some _ |>) with
    (c <| ch_record := Some (record <| cr_founding_approval_digest := committed |>) |> <| ch_current := ch_current c |>).
  apply Hyes; [done|]. intros b Eb. destruct (ck_current _ _ _ _ Hc b Eb) as (r & Er' & Hb).
  rewrite Er in Er'. by apply (inj Some) in Er' as <-.
Qed.

Lemma perform_keeps signer n call c d :
  plain_call call → chain_ok signer n c d → keeps signer n d (perform call c d).1 (perform call c d).2.
Proof.
  intros Hp Hc. destruct call as [text|committed|number]; cbn [perform].
  - unfold offer_json. destruct (_ <? _); [by apply keeps_same|].
    destruct (parse_release_approval_bundle text) as [b|] eqn:Eb; [|by apply keeps_same].
    destruct (offer _ _ _ b c d) as [[result c'] d'] eqn:Eo. eapply offer_keeps; [|exact Hc|exact Eo]. by apply Hp.
  - destruct (bind_commitment _ _ _ committed c d) as [[result c'] d'] eqn:Eo. by eapply bind_keeps.
  - unfold raise_floor. destruct (_ <=? _); [by apply keeps_same|]. apply keeps_same. by destruct Hc.
Qed.

Lemma chain_ok_memory signer n c' d :
  all_held signer n (versions d) → ch_record c' = None → ch_current c' = None → chain_ok signer n c' d.
Proof. intros Hv Er Ec. split; [exists n; rewrite Er; by split_and!|by rewrite Ec]. Qed.

(** A call that only asks the machine changes nothing a crash can leave. *)
Lemma keeps_frame signer n d d1 c' d' :
  trace d1 = trace d → keeps signer n d1 c' d' → keeps signer n d c' d'.
Proof. intros Et [Hc Hver]. split; [done|]. intros ver Hcp. apply Hver. revert Hcp. unfold crash_point. by rewrite Et. Qed.

Lemma keeps_memory signer n d d1 c' :
  all_held signer n (versions d1) → trace d1 = trace d → ch_record c' = None → ch_current c' = None →
  keeps signer n d c' d1.
Proof. intros Hv Et Er Ec. eapply keeps_frame; [exact Et|]. by apply keeps_same, chain_ok_memory. Qed.

(** The chain that loads a record the disk holds. *)
Lemma loaded_ok signer n r d floor :
  record_ok signer r → n <= cr_highest_release_number r → all_held signer (cr_highest_release_number r) (versions d) →
  chain_ok signer n (mkReleaseChain true floor (Some r) (stored_approval genesis network r)) d.
Proof.
  intros Hr Hn Hd. split; cbn [ch_record ch_current].
  - exists (cr_highest_release_number r). split_and!; [done..|]. intros r' Er'.
    apply (inj Some) in Er' as <-. split; [done|lia].
  - intros b Eb. exists r. split; [done|].
    unfold stored_approval in Eb. apply bind_Some in Eb as (stored & _ & Eb).
    destruct (_ && _) eqn:Ea; [|done]. apply (inj Some) in Eb as ->.
    apply andb_true_iff in Ea as [[Ea Eb]%andb_true_iff Ec']. apply Z.eqb_eq in Ec'.
    split_and!; [done| |done]. by rewrite <-(ro_signer _ _ Hr).
Qed.

(** A start on a disk that holds the record, and a crash during it. *)
Lemma load_keeps signer n installed ver d0 result c' d' :
  held signer n (ver !! path) → starts ver installed d0 →
  load_chain directory genesis network installed new_release_chain d0 = (result, c', d') →
  keeps signer n d0 c' d'.
Proof.
  intros (bytes & r & Ec & Ep & Hr & Hn) (Hi & [Hw _ Hv] & Hstat). unfold load_chain, stat_exists.
  destruct (succeeds d0) as [b d1] eqn:E1. apply succeeds_frame in E1 as (El1 & Ev1 & Et1).
  apply Hw in Ec. assert (Erd : DurableWrite.read_file path d1 = Some bytes).
  { unfold DurableWrite.read_file. by rewrite El1, Ec. }
  assert (Hd : all_held signer (cr_highest_release_number r) (versions d1)).
  { rewrite Ev1, Hv. apply Forall_singleton. rewrite lookup_fmap, Ec. exists bytes, r. by split_and!. }
  assert (Hd' : all_held signer n (versions d1)) by by eapply all_held_weaken.
  rewrite Erd, bool_decide_eq_true_2 by done. destruct b; cbn [andb].
  2:{ destruct Hstat as [-> |Hstat]; [|done]. intros [= _ <- <-]. by apply keeps_memory. }
  unfold read_text. destruct (succeeds d1) as [b2 d2] eqn:E2. apply succeeds_frame in E2 as (El2 & Ev2 & Et2).
  rewrite <-Ev2 in Hd, Hd'. rewrite Et1 in Et2.
  destruct b2; cbn [negb]; [|cbn; intros [= _ <- <-]; by apply keeps_memory].
  assert (Erd2 : DurableWrite.read_file path d2 = Some bytes).
  { unfold DurableWrite.read_file. by rewrite El2, El1, Ec. }
  rewrite Erd2. destruct (_ <? _); [cbn; intros [= _ <- <-]; by apply keeps_memory|].
  destruct (succeeds d2) as [b3 d3] eqn:E3. apply succeeds_frame in E3 as (_ & Ev3 & Et3). rewrite <-Ev3 in Hd, Hd'.
  rewrite Et2 in Et3.
  destruct b3; [|cbn; intros [= _ <- <-]; by apply keeps_memory].
  cbn [mbind option_bind]. rewrite Ep. destruct (record_usable _ r); cbn [negb];
    [|cbn; intros [= _ <- <-]; by apply keeps_memory].
  pose proof (loaded_ok signer n r d3 0 Hr Hn Hd) as Hc1.
  unfold offer_installed. destruct installed as [b|].
  2:{ intros [= _ <- <-]. eapply keeps_frame; [exact Et3|]. by apply keeps_same. }
  destruct (offer _ _ _ b _ d3) as [[res c2] d4] eqn:Eo. intros [= _ <- <-].
  eapply keeps_frame; [exact Et3|]. eapply offer_keeps; [|exact Hc1|exact Eo]. by apply Hi.
Qed.

Lemma boot_keeps signer n ver s : boot ver s → held signer n (ver !! path) → chain_ok signer n s.1 s.2.
Proof.
  induction 1 as [ver installed d0 result c' d' Hs El|ver installed d0 result c' d' ver' s Hs El Hcp _ IH]; intros Hh;
    destruct (load_keeps _ _ _ _ _ _ _ _ Hh Hs El) as [Hc Hver]; [done|]. by apply IH, Hver.
Qed.

Lemma step_keeps signer n s s' : chain_step s s' → chain_ok signer n s.1 s.2 → chain_ok signer n s'.1 s'.2.
Proof.
  intros [call c d Hp|call ver c d s'' Hp Hcp Hb] Hc.
  - by apply perform_keeps.
  - eapply boot_keeps; [exact Hb|]. by apply (perform_keeps _ _ call c d Hp Hc).
Qed.

Lemma steps_keep signer n s s' : rtc chain_step s s' → chain_ok signer n s.1 s.2 → chain_ok signer n s'.1 s'.2.
Proof. induction 1; [done|]. intros Hc. eauto using step_keeps. Qed.

(** *** The first start *)

Lemma first_pin installed d0 c d result :
  DurableWrite.read_file path d0 = None →
  load_chain directory genesis network (Some installed) new_release_chain d0 = (result, c, d) →
  is_Some (ch_record c) → verify_release_approval_bundle installed genesis network = true →
  plain_bundle installed → ascii_text (ra_release_signing_pubkey_b64 (bd_authority installed)) →
  chain_ok (ra_release_signing_pubkey_b64 (bd_authority installed)) (rl_release_number (bd_approval installed)) c d.
Proof.
  intros Hno El [r Er] Hv [Hu Ht] Ha. revert El. unfold load_chain, stat_exists.
  destruct (succeeds d0) as [b d1] eqn:E1. apply succeeds_frame in E1 as (El1 & _).
  unfold DurableWrite.read_file in Hno |- *. rewrite El1, Hno. rewrite (bool_decide_eq_false_2 (is_Some None)) by by intros [? ?].
  rewrite andb_false_r. unfold pin_installed.
  destruct (release_approval_bundle_json installed) as [text|] eqn:Ej; [|intros [= _ <- <-]; done].
  destruct (signer_matches _ _) eqn:Es; cbn [negb]; [|intros [= _ <- <-]; done].
  set (record := mkChainRecord _ _ _ _ _ _ _).
  destruct (persist directory record d1) as [ok d2] eqn:Ep.
  destruct ok; cbn [negb]; [|intros [= _ <- <-]; done]. intros [= _ <- <-].
  assert (Hr : record_ok (ra_release_signing_pubkey_b64 (bd_authority installed)) record).
  { split; try done; [apply sha256_digest|]. by apply plain_text, Ht. }
  revert Ep. unfold persist, write_atomic. destruct (succeeds d1) as [b2 d3].
  destruct b2; cbn [negb]; [|done]. intros [_ [El2 Ev2]%(λ f, f eq_refl)]%write_durable_ok. split.
  - exists (rl_release_number (bd_approval installed)). split_and!; [done| |].
    + rewrite Ev2. apply Forall_singleton. rewrite lookup_fmap, El2. exists (json_dump (record_document record)), record.
      split_and!; [done| |done|done]. by eapply chain_record_round_trip.
    + intros r' Er'. change (Some record = Some r') in Er'. apply (inj Some) in Er' as <-. split; [done|cbn; lia].
  - intros b' Eb. change (Some installed = Some b') in Eb. apply (inj Some) in Eb as <-. by exists record.
Qed.

(** C8: The accepted release never goes back: from the start that pinned the
    release signer on, through any offers, bindings and floors, crashes at any
    point of them, and restarts that may crash at any point themselves, the
    signer stays the pinned one and the accepted number never falls; and an
    approval the server uses verifies for its network, carries that signer, and
    is neither below a number accepted before nor below the finalized floor.
    Condition: a restart that finds an approval to install has a stat of the
    chain's file that does not fail ([failed_stat_goes_back] shows that the
    claim is false without it); all other calls may fail, and the bundles
    offered and installed have ASCII text and 64-bit numbers. *)
Theorem release_never_falls installed d0 c d c1 d1 c2 d2 r1 r2 :
  DurableWrite.read_file path d0 = None →
  load_chain directory genesis network (Some installed) new_release_chain d0 = (Some true, c, d) →
  is_Some (ch_record c) → verify_release_approval_bundle installed genesis network = true →
  plain_bundle installed → ascii_text (ra_release_signing_pubkey_b64 (bd_authority installed)) →
  rtc chain_step (c, d) (c1, d1) → rtc chain_step (c1, d1) (c2, d2) →
  ch_record c1 = Some r1 → ch_record c2 = Some r2 →
  cr_release_signing_pubkey_b64 r2 = ra_release_signing_pubkey_b64 (bd_authority installed) ∧
  cr_highest_release_number r1 <= cr_highest_release_number r2 ∧
  ∀ a, chain_current c2 = Some a →
    verify_release_approval_bundle a genesis network = true ∧
    signer_matches a (ra_release_signing_pubkey_b64 (bd_authority installed)) = true ∧
    cr_highest_release_number r1 <= rl_release_number (bd_approval a) ∧
    ch_floor c2 <= rl_release_number (bd_approval a).
Proof.
  intros Hno El Hs Hv Hp Ha Hrun1 Hrun2 Er1 Er2.
  pose proof (first_pin _ _ _ _ _ Hno El Hs Hv Hp Ha) as Hc.
  pose proof (steps_keep _ _ _ _ Hrun1 Hc) as Hc1. pose proof (chain_ok_raise _ _ _ _ _ Hc1 Er1) as Hc1'.
  pose proof (steps_keep _ _ _ _ Hrun2 Hc1') as [(m & _ & _ & Hr) Hcur]. cbn in Hr, Hcur.
  destruct (Hr r2 Er2) as [Hok Hb]. split_and!; [apply Hok|lia|]. intros a. unfold chain_current.
  destruct (below_floor c2) eqn:Ef; [done|]. intros (r & Er & Hva & Hsi & Hn)%Hcur.
  rewrite Er2 in Er. apply (inj Some) in Er as <-. rewrite Hn. split_and!; [done|done|lia|].
  revert Ef. unfold below_floor. rewrite Er2. destruct (Z.eqb_spec (ch_floor c2) 0) as [E0|]; cbn [negb andb].
  - intros _. rewrite E0. by apply Hok.
  - intros Hlt%Z.ltb_ge. lia.
Qed.

(** *** The text of an approval *)

(** The field types of a bundle, with ASCII text. *)
Record bundle_fits (b : ReleaseApprovalBundleV1) : Prop := mkBundleFits {
  bf_authority : json_fits (authority_preimage (bd_authority b));
  bf_approval : json_fits (approval_preimage (bd_approval b));
  bf_genesis_signature : ascii_text (ra_genesis_signature_b64 (bd_authority b));
  bf_signature : ascii_text (rl_signature_b64 (bd_approval b));
  bf_tcb : Forall is_byte [tcb_bootloader (rl_min_tcb (bd_approval b)); tcb_tee (rl_min_tcb (bd_approval b));
                           tcb_snp (rl_min_tcb (bd_approval b)); tcb_microcode (rl_min_tcb (bd_approval b))];
  bf_number : is_u64 (rl_release_number (bd_approval b));
}.

Definition signed_fields (fields : list (string * json)) (key signature : string) : json :=
  object ((key, JString signature) :: fields).

Lemma signed_document_of fields key signature :
  json_fits (object fields) →
  signed_document (json_dump (object fields)) key signature = Some (signed_fields fields key signature).
Proof. intros Hf. unfold signed_document. by rewrite json_round_trip. Qed.

Lemma signed_fits fields key signature :
  json_fits (object fields) → ascii_text key → ascii_text signature → json_fits (signed_fields fields key signature).
Proof.
  intros Hf Hk Hs. inversion Hf as [| | |f Hkeys Hvals Ef]; subst. unfold signed_fields, object. cbn [list_to_map foldr fst snd].
  constructor; intros k v; rewrite lookup_insert; case_decide; subst; [done|by apply Hkeys| |by apply Hvals].
  intros E. apply (inj Some) in E as <-. by constructor.
Qed.

Lemma as_strings_json l : as_strings (strings_json l) = Some l.
Proof. unfold as_strings, strings_json. apply mapM_Some, Forall2_fmap_l, Forall_Forall2_diag, Forall_forall. done. Qed.

Lemma parse_path_json p : parse_path (path_json p) = Some p.
Proof.
  unfold parse_path, path_json, at_string, at_strings. rewrite !at_key_object.
  cbn [assoc String.eqb Ascii.eqb Bool.eqb mbind option_bind as_string]. rewrite as_strings_json. by destruct p.
Qed.

Lemma parse_paths_json l : mapM parse_path (items_of (approved_paths_json l)) = Some l.
Proof. apply mapM_Some, Forall2_fmap_l, Forall_Forall2_diag, Forall_forall. intros p _. apply parse_path_json. Qed.

Lemma parse_pcr_json pcr : is_u32 pcr.1 → parse_pcr (pcr_json pcr) = Some pcr.
Proof.
  intros Hi. unfold parse_pcr, pcr_json, at_unsigned, at_string. rewrite !at_key_object.
  cbn [assoc String.eqb Ascii.eqb Bool.eqb mbind option_bind as_string]. rewrite get_unsigned_small by done. by destruct pcr.
Qed.

Lemma parse_pcrs_json l : Forall (λ pcr : Z * string, is_u32 pcr.1) l → mapM parse_pcr (pcr_json <$> l) = Some l.
Proof.
  intros Hl. apply mapM_Some, Forall2_fmap_l, Forall_Forall2_diag. eapply Forall_impl; [exact Hl|].
  intros pcr. apply parse_pcr_json.
Qed.

Lemma parse_authority_signed a : ra_format_version a = kReleaseAuthorityFormatVersion →
  parse_authority (signed_fields (authority_fields a) "genesis_signature" (ra_genesis_signature_b64 a)) = Some a.
Proof.
  intros Ef. unfold parse_authority, at_unsigned, at_string, signed_fields. rewrite !at_key_object.
  cbn [assoc authority_fields String.eqb Ascii.eqb Bool.eqb mbind option_bind as_string]. rewrite Ef, get_unsigned_small by done.
  cbn [mbind option_bind]. rewrite <-Ef. by destruct a.
Qed.

Lemma parse_kernel_json k : parse_kernel (kernel_json k) = Some k.
Proof.
  unfold parse_kernel, kernel_json, at_string. rewrite !at_key_object.
  cbn [assoc String.eqb Ascii.eqb Bool.eqb mbind option_bind as_string]. by destruct k.
Qed.

Lemma parse_tcb_json t :
  Forall is_byte [tcb_bootloader t; tcb_tee t; tcb_snp t; tcb_microcode t] → parse_tcb (tcb_json t) = Some t.
Proof.
  intros Ht. rewrite !Forall_cons in Ht. destruct Ht as (H1' & H2' & H3' & H4' & _).
  unfold parse_tcb, tcb_json, at_unsigned. rewrite !at_key_object.
  cbn [assoc String.eqb Ascii.eqb Bool.eqb mbind option_bind]. rewrite !get_unsigned_small by done. by destruct t.
Qed.

(** What the compiled checks fix of the numbers. *)
Record numbers_fixed (a : ReleaseApprovalV1) : Prop := mkNumbersFixed {
  nf_format : rl_format_version a = kReleaseApprovalFormatVersion;
  nf_wire : is_u16 (rl_security_wire_version a);
  nf_security : is_u16 (rl_security_ruleset a);
  nf_consensus : is_u16 (rl_consensus_ruleset a);
  nf_profile : is_u16 (rl_attestation_profile_ruleset a);
  nf_attestd : is_u16 (rl_attestd_wire_version a);
  nf_pcrs : Forall (λ pcr : Z * string, is_u32 pcr.1) (rl_expected_pcrs a);
}.

Lemma parse_approval_signed a :
  numbers_fixed a → is_u64 (rl_release_number a) →
  Forall is_byte [tcb_bootloader (rl_min_tcb a); tcb_tee (rl_min_tcb a); tcb_snp (rl_min_tcb a); tcb_microcode (rl_min_tcb a)] →
  parse_approval (signed_fields (approval_fields a) "signature" (rl_signature_b64 a)) = Some a.
Proof.
  intros [Ef H1' H2' H3' H4' H5' Hpc] Hn Ht. unfold parse_approval, parse_numbered, parse_paths, at_unsigned, at_string,
    at_strings, signed_fields, approval_fields. rewrite Ef. cbn [app Z.leb Z.compare kReleaseApprovalFormatVersion Pos.compare Pos.compare_cont].
  rewrite !at_key_object. cbn [assoc String.eqb Ascii.eqb Bool.eqb mbind option_bind as_string].
  rewrite (get_unsigned_small two32 kReleaseApprovalFormatVersion) by done. cbn [mbind option_bind].
  change (kReleaseApprovalFormatVersion <=? kReleaseApprovalFormatVersion) with true. cbv iota.
  rewrite (get_unsigned_small two64) by done. cbn [mbind option_bind]. rewrite !parse_paths_json. cbn [mbind option_bind].
  rewrite !get_unsigned_small by done. cbn [mbind option_bind].
  rewrite !at_key_object.
  cbn [assoc String.eqb Ascii.eqb Bool.eqb mbind option_bind as_string]. rewrite parse_kernel_json. cbn [mbind option_bind].
  rewrite as_strings_json. cbn [mbind option_bind]. rewrite parse_tcb_json by done. cbn [mbind option_bind items_of].
  rewrite parse_pcrs_json by done. cbn [mbind option_bind fst snd]. rewrite <-Ef. by destruct a.
Qed.

Lemma compiled_numbers a : compiled_release_fields_match a = true →
  rl_format_version a = kReleaseApprovalFormatVersion ∧ is_u16 (rl_security_wire_version a) ∧
  is_u16 (rl_security_ruleset a) ∧ is_u16 (rl_consensus_ruleset a) ∧ is_u16 (rl_attestation_profile_ruleset a) ∧
  is_u16 (rl_attestd_wire_version a).
Proof.
  unfold compiled_release_fields_match.
  destruct (Z.eqb_spec (rl_format_version a) kReleaseApprovalFormatVersion) as [->|]; cbn [negb orb]; [|done].
  destruct (_ || _); [done|]. destruct (_ || _); [done|]. destruct (_ || _); [done|].
  destruct (Z.eqb_spec (rl_security_wire_version a) kSecurityWireVersion) as [->|]; cbn [negb orb]; [|done].
  destruct (Z.eqb_spec (rl_security_ruleset a) kSecurityRulesetVersion) as [->|]; cbn [negb orb]; [|done].
  destruct (Z.eqb_spec (rl_consensus_ruleset a) kConsensusRulesetVersion) as [->|]; cbn [negb orb]; [|done].
  destruct (negb (String.eqb _ _)); cbn [orb]; [done|].
  destruct (Z.eqb_spec (rl_attestation_profile_ruleset a) kAttestationProfileRulesetVersion) as [->|]; cbn [negb orb]; [|done].
  destruct (Z.eqb_spec (rl_attestd_wire_version a) kAttestdWireVersion) as [->|]; cbn [negb]; [|done].
  intros _. by split_and!.
Qed.

Lemma qualified_pcrs state pcrs : qualification_valid state pcrs = true → Forall (λ pcr : Z * string, is_u32 pcr.1) pcrs.
Proof.
  unfold qualification_valid. destruct (String.eqb _ _); [by intros ->%bool_decide_eq_true|].
  destruct (String.eqb _ _); [|done]. destruct pcrs as [|[i x] [|[j y] [|]]]; try done.
  intros [[[Hi%Z.eqb_eq Hj%Z.eqb_eq]%andb_true_iff _]%andb_true_iff _]%andb_true_iff. subst. by repeat constructor.
Qed.

Lemma verified_numbers b :
  verify_release_approval_bundle b genesis network = true →
  numbers_fixed (bd_approval b) ∧ ra_format_version (bd_authority b) = kReleaseAuthorityFormatVersion ∧
  canonical_key_b64 (ra_release_signing_pubkey_b64 (bd_authority b)) = ra_release_signing_pubkey_b64 (bd_authority b) ∧
  is_empty (ra_release_signing_pubkey_b64 (bd_authority b)) = false.
Proof.
  unfold verify_release_approval_bundle.
  destruct (verify_release_approval_signatures b genesis network) eqn:Es; cbn [negb]; [|done].
  destruct (compiled_release_fields_match _) eqn:Ec; cbn [negb]; [|done].
  destruct (approved_set _ _); [|done]. destruct (_ || _); [done|]. destruct (negb _); [done|].
  intros Hq%qualified_pcrs. apply compiled_numbers in Ec as (Ef & H1' & H2' & H3' & H4' & H5').
  split; [by split|]. revert Es. unfold verify_release_approval_signatures. destruct (negb _ && negb _); [done|].
  destruct (Z.eqb_spec (ra_format_version (bd_authority b)) kReleaseAuthorityFormatVersion); cbn [negb orb]; [|done].
  destruct (negb (String.eqb _ _)); [done|].
  destruct (is_empty (canonical_key_b64 _)) eqn:Ee; cbn [orb]; [done|].
  destruct (String.eqb_spec (canonical_key_b64 (ra_release_signing_pubkey_b64 (bd_authority b)))
    (ra_release_signing_pubkey_b64 (bd_authority b))) as [Ek|]; cbn [negb]; [|done].
  rewrite Ek in Ee. intros _. by split_and!.
Qed.

Lemma bundle_round_trip b :
  bundle_fits b → verify_release_approval_bundle b genesis network = true →
  ∃ text, release_approval_bundle_json b = Some text ∧ parse_release_approval_bundle text = Some b.
Proof.
  intros [Ha Hp Hgs Hs Ht Hn] (Hf & Efa & _)%verified_numbers. unfold release_approval_bundle_json,
    canonical_release_authority_json, canonical_release_approval_json, authority_preimage, approval_preimage.
  rewrite !signed_document_of by done. cbn [mbind option_bind]. eexists. split; [done|].
  unfold parse_release_approval_bundle. rewrite json_round_trip.
  2:{ apply fits_fields. repeat (apply Forall_cons; split; [split; [by apply ascii_literal|]|]); [..|by apply Forall_nil];
      (apply signed_fits; [done|by apply ascii_literal|done]). }
  cbn [mbind option_bind]. unfold parse_bundle. rewrite !at_key_object. cbn [assoc String.eqb Ascii.eqb Bool.eqb mbind option_bind].
  rewrite parse_authority_signed by done. cbn [mbind option_bind]. rewrite parse_approval_signed by done. by destruct b.
Qed.

(** C29: An adopted approval survives: when an offer reports that it was adopted,
    a crash after it leaves a disk from which a start whose calls succeed loads
    the same record and uses the same approval. *)
Theorem adopted_approval_survives signer n b c d c' d' ver d0 d1 d2 d3 :
  chain_ok signer n c d → offer directory genesis network b c d = (Some OfferAdopted, c', d') →
  bundle_fits b → plain_bundle b →
  ver ∈ versions d' → reboots ver d0 →
  succeeds d0 = (true, d1) → succeeds d1 = (true, d2) → succeeds d2 = (true, d3) →
  (∀ r, ch_record c' = Some r → Z.of_nat (length (json_dump (record_document r))) <= 4 * kMaxReleaseApprovalBytes) →
  load_chain directory genesis network None new_release_chain d0 =
    (Some true, mkReleaseChain true 0 (ch_record c') (Some b), d3).
Proof.
  intros Hc Ho Hfits [Hu Ht] Hin [Hw _ _] E1 E2 E3 Hlen. revert Ho. unfold offer.
  destruct (ch_record c) as [record|] eqn:Er; [|done]. destruct (negb (ch_healthy c)); [done|].
  destruct (verify_release_approval_bundle b genesis network) eqn:Ev; cbn [negb]; [|done].
  destruct (signer_matches b (cr_release_signing_pubkey_b64 record)) eqn:Es; cbn [negb]; [|done].
  destruct (match ch_current c with Some held => _ | None => _ end); [done|]. destruct (_ <=? _); [done|].
  destruct (bundle_round_trip b Hfits Ev) as (text & Ej & Epb). rewrite Ej.
  set (next := set_field cr_approval_bundle_json _ _). destruct (persist directory next d) as [ok d4] eqn:Ep.
  destruct ok; cbn [negb]; [|done]. intros [= <- <-].
  destruct (ck_bound _ _ _ _ Hc) as (m & _ & _ & Hr). destruct (Hr record Er) as [Hok _].
  assert (Hn : record_ok signer next).
  { destruct Hok. split; try done. by apply plain_text, Ht. }
  specialize (Hlen next eq_refl). change (ch_record _) with (Some next).
  revert Ep. unfold persist, write_atomic. destruct (succeeds d) as [b5 d5]. destruct b5; cbn [negb]; [|done].
  intros [_ [El Evs]%(λ f, f eq_refl)]%write_durable_ok. rewrite Evs in Hin. apply list_elem_of_singleton in Hin as ->.
  assert (Hlive : live d0 !! path = Some (mkFile (json_dump (record_document next)) true)).
  { apply Hw. by rewrite lookup_fmap, El. }
  apply succeeds_frame in E1 as F1. destruct F1 as (L1 & _). apply succeeds_frame in E2 as F2. destruct F2 as (L2 & _).
  unfold load_chain, stat_exists, read_text. rewrite E1. unfold DurableWrite.read_file. rewrite L1, Hlive.
  cbn [fmap option_fmap option_map f_bytes]. rewrite bool_decide_eq_true_2 by done. cbn [andb]. rewrite E2. cbn [negb].
  rewrite L2, L1, Hlive. cbn [fmap option_fmap option_map f_bytes].
  destruct (Z.ltb_spec (4 * kMaxReleaseApprovalBytes) (Z.of_nat (length (json_dump (record_document next))))); [lia|].
  rewrite E3. cbn [mbind option_bind]. rewrite (chain_record_round_trip _ _ Hn).
  destruct (verified_numbers b Ev) as (_ & _ & Ek & Ee).
  assert (Esig : ra_release_signing_pubkey_b64 (bd_authority b) = cr_release_signing_pubkey_b64 next).
  { apply andb_true_iff in Es as [Es%String.eqb_eq _]. exact Es. }
  unfold record_usable. rewrite (ro_network _ _ Hn), <-Esig, Ek, Ee, !String.eqb_refl. cbn [negb andb offer_installed].
  unfold stored_approval. change (cr_approval_bundle_json next) with (bytes_string text). rewrite string_of_bytes.
  2:{ eapply Forall_impl; [by apply Ht|]. intros x Hx. cbn in Hx. unfold is_byte. lia. }
  rewrite Epb. cbn [mbind option_bind]. rewrite Ev. change (cr_release_signing_pubkey_b64 next) with (cr_release_signing_pubkey_b64 record).
  rewrite Es. change (cr_highest_release_number next) with (rl_release_number (bd_approval b)). rewrite Z.eqb_refl. done.
Qed.
End chain.

(** ** The release guard *)

Lemma elem_of_add_hashes h l more : h ∈ add_hashes l more ↔ h ∈ l ∨ h ∈ more.
Proof.
  unfold add_hashes. revert l. induction more as [|x more IH]; intros l; cbn [foldl]; [set_solver|].
  rewrite IH. case_bool_decide; set_solver.
Qed.

Lemma find_path_name k l q : find_path k l = Some q → q ∈ l ∧ ap_path q = k.
Proof. intros [Hin Hk%String.eqb_eq]%find_some. split; [by apply list_elem_of_In|done]. Qed.

Lemma elem_of_with_previous h previous p :
  h ∈ ap_sha256 (with_previous previous p) ↔
  h ∈ ap_sha256 p ∨ ∃ before, find_path (ap_path p) previous = Some before ∧ h ∈ ap_sha256 before.
Proof.
  unfold with_previous. destruct (find_path (ap_path p) previous) as [before|] eqn:Ef.
  - cbn [ap_sha256]. rewrite elem_of_add_hashes. split; (intros [|Hh]; [by left|right]); [by exists before|].
    destruct Hh as (before' & [= <-] & Hh). done.
  - split; [by left|]. by intros [|(before & ? & _)].
Qed.

Lemma with_previous_path previous p : ap_path (with_previous previous p) = ap_path p.
Proof. unfold with_previous. by destruct (find_path _ _). Qed.

(** The hashes an approval leaves in use at a path. *)
Definition left_in_use (prior : ReleaseApprovalV1) (halted : bool) (k h : string) : Prop :=
  ∃ q, q ∈ rl_approved_paths prior ∧ ap_path q = k ∧
    (h ∈ ap_sha256 q ∨ halted = true ∧ ∃ before,
       find_path k (rl_previous_release_paths prior) = Some before ∧ h ∈ ap_sha256 before).

Lemma elem_of_overlap prior halted k h :
  (∃ q, q ∈ release_overlap_paths prior halted ∧ ap_path q = k ∧ h ∈ ap_sha256 q) ↔ left_in_use prior halted k h.
Proof.
  unfold release_overlap_paths, left_in_use. destruct halted; cbn [negb].
  - setoid_rewrite list_elem_of_fmap. split.
    + intros (q & (q0 & -> & Hq) & <- & Hh). rewrite with_previous_path. exists q0. split_and!; [done..|].
      apply elem_of_with_previous in Hh as [|Hh]; [by left|by right].
    + intros (q & Hq & <- & Hh). exists (with_previous (rl_previous_release_paths prior) q).
      split; [by exists q|]. split; [apply with_previous_path|]. apply elem_of_with_previous.
      destruct Hh as [|[_ Hh]]; [by left|by right].
  - split.
    + intros (q & Hq & <- & Hh). exists q. split_and!; [done..|by left].
    + intros (q & Hq & <- & [Hh|[? _]]); [by exists q|done].
Qed.

Lemma required_hashes_spec paths k h :
  h ∈ default ∅ (required_hashes paths !! k) ↔ ∃ q, q ∈ paths ∧ ap_path q = k ∧ h ∈ ap_sha256 q.
Proof.
  unfold required_hashes.
  assert (Hgen : ∀ m : gmap string (gset string),
    h ∈ default ∅ (foldl (λ m p, <[ ap_path p := list_to_set (ap_sha256 p) ∪ default ∅ (m !! ap_path p) ]> m) m paths !! k) ↔
    h ∈ default ∅ (m !! k) ∨ ∃ q, q ∈ paths ∧ ap_path q = k ∧ h ∈ ap_sha256 q).
  { induction paths as [|p paths IH]; intros m; cbn [foldl]; [set_solver|]. rewrite IH, lookup_insert.
    case_decide as Ek; [subst k|]; cbn [default]; set_solver. }
  rewrite Hgen, lookup_empty. cbn [default]. set_solver.
Qed.

Lemma carried_keeps paths m m' k x : carried_hashes paths m = Some m' → m !! k = Some x →
  find_path k paths = None ∧ m' !! k = Some x.
Proof.
  revert m. induction paths as [|p paths IH]; intros m; cbn [carried_hashes]; [by intros [= <-]|].
  destruct (m !! ap_path p) eqn:Ep; [done|]. intros Hc Ek. unfold find_path. cbn [List.find].
  destruct (String.eqb_spec (ap_path p) k) as [<-|Hne]; [congruence|]. eapply IH; [exact Hc|].
  by rewrite lookup_insert_ne.
Qed.

Lemma carried_hashes_spec paths m m' k : carried_hashes paths m = Some m' →
  m' !! k = match find_path k paths with Some q => Some (list_to_set (ap_sha256 q)) | None => m !! k end.
Proof.
  revert m. induction paths as [|p paths IH]; intros m; cbn [carried_hashes]; [by intros [= <-]|].
  destruct (m !! ap_path p) eqn:Ep; [done|]. intros Hc. unfold find_path. cbn [List.find].
  destruct (String.eqb_spec (ap_path p) k) as [<-|Hne].
  - apply (carried_keeps _ _ _ _ _ Hc). by rewrite lookup_insert_eq.
  - rewrite (IH _ Hc). fold (find_path k paths). by rewrite lookup_insert_ne.
Qed.

Lemma compare_hashes_spec required paths carried rest p :
  compare_hashes required paths carried = Some rest → p ∈ paths →
  default ∅ (required !! ap_path p) = default ∅ (carried !! ap_path p).
Proof.
  revert carried. induction paths as [|q paths IH]; intros carried; cbn [compare_hashes]; [by intros _ ?%not_elem_of_nil|].
  case_bool_decide as Eq; [|done]. intros Hc [->|Hin]%elem_of_cons; [done|].
  destruct (decide (ap_path q = ap_path p)) as [Ep|Hne]; [by rewrite <-Ep|].
  rewrite (IH _ Hc Hin). by rewrite lookup_delete_ne.
Qed.

Section guard.
Context `{Sodium, SodiumMessages, TextCodec, HexCodec, ValueCodec}.

Lemma rollout_state_halted rollout number previous st :
  previous_rollout_state rollout number previous = Some st → is_halted st = uc_halted (vr_state rollout).
Proof.
  unfold previous_rollout_state. destruct (_ || _); [done|].
  destruct (match previous with Some p => _ | None => _ end); [done|].
  destruct (uc_halted _); [by destruct previous; [intros [= <-]|]|]. destruct (negb _); [done|]. by intros [= <-].
Qed.

(** C24: An approval that passes the release guard accepts exactly the right
    servers: at each path it approves, attestation accepts its own hashes and
    those of the release before it, and after a halted rollout those of the
    release before that one; no server the rollout left behind is shut out and
    no older release comes back. *)
Theorem guarded_release_accepts_exactly rollout number previous next i p :
  release_follows_rollout rollout number previous next = true → rl_approved_paths next !! i = Some p →
  ∃ p', profile_approved_paths next !! i = Some p' ∧ ap_path p' = ap_path p ∧
    ∀ h, h ∈ ap_sha256 p' ↔ h ∈ ap_sha256 p ∨
      left_in_use (bd_approval previous) (uc_halted (vr_state rollout)) (ap_path p) h.
Proof.
  unfold release_follows_rollout.
  destruct (previous_rollout_state rollout number (Some previous)) as [st|] eqn:Est; [|done].
  apply rollout_state_halted in Est as <-. destruct (_ || _); [done|]. destruct (_ <=? _); [done|].
  destruct (carried_hashes _ _) as [carried|] eqn:Ec; [|done].
  destruct (compare_hashes _ _ _) as [rest|] eqn:Eh; [|done]. intros _ Hp.
  exists (with_previous (rl_previous_release_paths next) p). unfold profile_approved_paths.
  rewrite list_lookup_fmap, Hp. split_and!; [done|apply with_previous_path|]. intros h.
  rewrite elem_of_with_previous. pose proof (compare_hashes_spec _ _ _ _ p Eh) as Hcmp.
  specialize (Hcmp (list_elem_of_lookup_2 _ _ _ Hp)).
  rewrite <-elem_of_overlap, <-required_hashes_spec, Hcmp, (carried_hashes_spec _ _ _ _ Ec), lookup_empty.
  destruct (find_path _ _) as [before|]; cbn [default from_option id]; [|set_solver]. rewrite elem_of_list_to_set.
  split; (intros [Hh|Hh]; [by left|right]); [by destruct Hh as (? & [= <-] & ?)|by exists before].
Qed.
End guard.

(** ** The generator *)

(** [sodium_bin2hex] writes two lower-case digits per byte. *)
Class HexLower `{HexCodec} := {
  hex_lower : ∀ bytes, Forall is_byte bytes → valid_hex (sodium_bin2hex bytes) (2 * length bytes) = true;
}.

Lemma leb_ltb x y : String.leb x y = true → String.eqb x y = false → String.ltb x y = true.
Proof.
  unfold String.leb, String.ltb. destruct (String.compare x y) eqn:Ec; try done.
  apply String.compare_eq_iff in Ec as ->. by rewrite String.eqb_refl.
Qed.

Lemma sorted_ascending l : Sorted string_le l → has_adjacent l = false → ascending l = true.
Proof.
  induction 1 as [|x l Hs IH Hh]; [done|]. destruct l as [|y l]; [done|].
  change (String.eqb x y || has_adjacent (y :: l) = false → String.ltb x y && ascending (y :: l) = true).
  intros [Hne Hl]%orb_false_iff. inversion Hh; subst. by rewrite leb_ltb, IH.
Qed.

Lemma forallb_perm {A} (f : A → bool) l l' : l ≡ₚ l' → forallb f l = true → forallb f l' = true.
Proof. rewrite !forallb_forall. intros Hp Hl x Hx%list_elem_of_In. apply Hl, list_elem_of_In. by rewrite Hp. Qed.

Lemma approved_set_spec paths seen seen' :
  approved_set paths seen = Some seen' →
  NoDup (ap_path <$> paths) ∧ (∀ p, p ∈ paths → ap_path p ∉ seen) ∧
  ∀ k, k ∈ seen' ↔ k ∈ seen ∨ k ∈ ap_path <$> paths.
Proof.
  revert seen. induction paths as [|p paths IH]; intros seen; cbn [approved_set].
  - intros [= <-]. split_and!; [constructor|set_solver|set_solver].
  - destruct (_ || _) eqn:E; cbn [orb]; [done|]. intros (Hd & Hn & Hk)%IH.
    apply orb_false_iff in E as [[_ Hp%bool_decide_eq_false]%orb_false_iff _]. cbn [fmap list_fmap]. split_and!.
    + constructor; [|done]. intros (q & Eq & Hq)%list_elem_of_fmap. apply (Hn q Hq). set_solver.
    + intros q [->|Hq]%elem_of_cons; [done|]. specialize (Hn q Hq). set_solver.
    + intros k. rewrite Hk. set_solver.
Qed.

Lemma previous_valid_spec approved paths seen :
  previous_valid approved paths seen = true →
  NoDup (ap_path <$> paths) ∧ ∀ p, p ∈ paths → ap_path p ∉ seen ∧ ap_path p ∈ approved.
Proof.
  revert seen. induction paths as [|p paths IH]; intros seen; cbn [previous_valid].
  - intros _. split; [constructor|set_solver].
  - destruct (_ || _) eqn:E; cbn [orb]; [done|]. intros [Hd Hn]%IH.
    apply orb_false_iff in E as [[Ha%negb_false_iff%bool_decide_eq_true Hp%bool_decide_eq_false]%orb_false_iff _].
    cbn [fmap list_fmap]. split.
    + constructor; [|done]. intros (q & Eq & Hq)%list_elem_of_fmap. destruct (Hn q Hq) as [Hq' _]. set_solver.
    + intros q [->|Hq]%elem_of_cons; [done|]. destruct (Hn q Hq). set_solver.
Qed.

Lemma carried_hashes_total paths m :
  NoDup (ap_path <$> paths) → (∀ p, p ∈ paths → m !! ap_path p = None) → is_Some (carried_hashes paths m).
Proof.
  revert m. induction paths as [|p paths IH]; intros m Hd Hm; [by eexists|]. cbn [carried_hashes].
  rewrite Hm by set_solver. apply NoDup_cons in Hd as [Hp Hd]. apply IH; [done|]. intros q Hq.
  rewrite lookup_insert_ne; [apply Hm; set_solver|]. intros E. apply Hp. rewrite E. by apply list_elem_of_fmap_2.
Qed.

Lemma compare_hashes_total required paths carried :
  NoDup (ap_path <$> paths) →
  (∀ p, p ∈ paths → default ∅ (required !! ap_path p) = default ∅ (carried !! ap_path p)) →
  (∀ k x, carried !! k = Some x → k ∈ ap_path <$> paths) → compare_hashes required paths carried = Some ∅.
Proof.
  revert carried. induction paths as [|p paths IH]; intros carried Hd He Hk; cbn [compare_hashes].
  - f_equal. apply map_empty. intros k. destruct (carried !! k) as [x|] eqn:E; [|done]. specialize (Hk _ _ E).
    by apply not_elem_of_nil in Hk.
  - rewrite bool_decide_eq_true_2 by (apply He; set_solver). cbn [fmap list_fmap] in Hd. apply NoDup_cons in Hd as [Hp Hd].
    apply IH; [done| |].
    + intros q Hq. rewrite lookup_delete_ne; [apply He; set_solver|]. intros E. apply Hp. rewrite E.
      by apply list_elem_of_fmap_2.
    + intros k x [Hne Hx]%lookup_delete_Some. apply Hk in Hx. set_solver.
Qed.

Lemma find_path_unique k l q : NoDup (ap_path <$> l) → q ∈ l → ap_path q = k → find_path k l = Some q.
Proof.
  intros Hd Hq <-. destruct (find_path (ap_path q) l) as [q'|] eqn:Ef.
  - apply find_path_name in Ef as [Hq' Ep]. f_equal.
    apply list_elem_of_lookup in Hq as [i Hi], Hq' as [j Hj].
    assert (i = j) as ->; [|congruence]. eapply NoDup_lookup; [exact Hd| |]; rewrite list_lookup_fmap; [by rewrite Hi|].
    rewrite Hj. cbn. by rewrite Ep.
  - apply list_elem_of_In in Hq. apply (find_none _ _ Ef) in Hq. by rewrite String.eqb_refl in Hq.
Qed.

Definition with_signature (a : ReleaseApprovalV1) (signature : string) : ReleaseApprovalV1 :=
  mkApproval (rl_format_version a) (rl_release_id a) (rl_nexus_version a) (rl_source_commit a)
    (rl_starting_patched_tree a) (rl_final_patched_tree a) (rl_network_id_hex a) (rl_release_number a)
    (rl_security_wire_version a) (rl_security_ruleset a) (rl_consensus_ruleset a) (rl_attestation_profile a)
    (rl_attestation_profile_ruleset a) (rl_attestd_wire_version a) (rl_ima_policy_id a) (rl_ima_policy_sha256 a)
    (rl_kernel a) (rl_svsm_launch_measurements_hex a) (rl_min_tcb a) (rl_approved_paths a)
    (rl_previous_release_paths a) (rl_evidence_collector_path a) (rl_expected_pcrs a) (rl_qualification_state a)
    (rl_signer_pubkey_b64 a) signature.

Section generator.
Context `{Sodium, SodiumMessages, TextCodec, HexCodec, ValueCodec, !HexLower}.

Lemma digests_valid artifact d digests : artifact_digests artifact d = Some digests → hashes_valid digests = true.
Proof.
  unfold artifact_digests, sha256_of_file, hashes_valid. destruct (negb (is_empty _)).
  - destruct (DurableWrite.read_file _ d) as [bytes|]; [|done]. intros [= <-]. cbn [forallb]. unfold valid_sha256, to_hex.
    pose proof (hex_lower (be_bytes 32 (crypto_hash_sha256 bytes)) (be_bytes_are_bytes _ _)) as Hh.
    rewrite length_be_bytes in Hh. change (2 * 32)%nat with 64%nat in Hh. by rewrite Hh.
  - destruct (_ || _) eqn:E; [done|]. apply orb_false_iff in E as [Hne%bool_decide_eq_false Hv%negb_false_iff].
    intros [= <-]. apply andb_true_iff. split.
    + apply negb_true_iff, bool_decide_eq_false. intros E. destruct (ra_sha256 artifact) as [|x l]; [done|].
      assert (Hx : x ∈ add_hashes [] (x :: l)) by (apply elem_of_add_hashes; right; left).
      rewrite E in Hx. by apply not_elem_of_nil in Hx.
    + rewrite forallb_forall in Hv |- *. intros x Hx%list_elem_of_In%elem_of_add_hashes.
      apply Hv, list_elem_of_In. destruct Hx as [Hx|]; [by apply not_elem_of_nil in Hx|done].
Qed.

Lemma artifact_paths_approved artifacts seen d paths seen' :
  artifact_paths artifacts seen d = Some (paths, seen') → approved_set paths seen = Some seen'.
Proof.
  revert seen paths. induction artifacts as [|artifact rest IH]; intros seen paths; cbn [artifact_paths]; [by intros [= <- <-]|].
  destruct (_ || _) eqn:E; [done|]. destruct (artifact_digests artifact d) as [digests|] eqn:Ed; [|done].
  cbn [mbind option_bind]. destruct (artifact_paths rest _ d) as [[paths' seen2]|] eqn:Er; [|done].
  cbn [mbind option_bind]. intros [= <- <-]. cbn [approved_set ap_path ap_sha256]. rewrite E.
  rewrite (digests_valid _ _ _ Ed). cbn [orb negb]. by apply IH.
Qed.

Lemma complete_fields spec a :
  spec_complete spec = true → rl_format_version a = kReleaseApprovalFormatVersion →
  rl_release_id a = sp_release_id spec → rl_nexus_version a = sp_nexus_version spec →
  rl_source_commit a = sp_source_commit spec → rl_starting_patched_tree a = sp_starting_patched_tree spec →
  rl_final_patched_tree a = sp_final_patched_tree spec → rl_release_number a = sp_release_number spec →
  rl_security_wire_version a = kSecurityWireVersion → rl_security_ruleset a = kSecurityRulesetVersion →
  rl_consensus_ruleset a = kConsensusRulesetVersion → rl_attestation_profile a = "SnpSvsmVtpm" →
  rl_attestation_profile_ruleset a = kAttestationProfileRulesetVersion →
  rl_attestd_wire_version a = kAttestdWireVersion → rl_ima_policy_id a = sp_ima_policy_id spec →
  rl_ima_policy_sha256 a = sp_ima_policy_sha256 spec → rl_kernel a = sp_kernel spec →
  rl_svsm_launch_measurements_hex a = sort_strings (sp_svsm_launch_measurements spec) →
  rl_min_tcb a = kReleaseMinTcb →
  compiled_release_fields_match a = true ∧
  qualification_valid (sp_qualification_state spec) (sp_expected_pcrs spec) = true ∧
  canonical_key_b64 (sp_signer_pubkey_b64 spec) = sp_signer_pubkey_b64 spec ∧
  is_empty (sp_signer_pubkey_b64 spec) = false ∧
  (is_Some (sp_previous spec) → sp_previous_release_paths spec = []).
Proof.
  intros Hc E1 E2 E3 E4 E5 E6 E7 E8 E9 E10 E11 E12 E13 E14 E15 E16 E17 E18. revert Hc. unfold spec_complete.
  destruct (is_empty (sp_release_id spec)) eqn:F1; cbn [orb]; [done|].
  destruct (is_empty (sp_nexus_version spec)) eqn:F2; [done|].
  destruct ((sp_release_number spec =? 0) || (kMaxReleaseNumber <? sp_release_number spec)) eqn:F3; [done|].
  destruct (valid_hex (sp_final_patched_tree spec) 40) eqn:F4; cbn [negb]; [|done].
  destruct (valid_hex (sp_network_id_hex spec) 64); cbn [negb]; [|done].
  destruct (String.eqb_spec (canonical_key_b64 (sp_signer_pubkey_b64 spec)) (sp_signer_pubkey_b64 spec)) as [F5|];
    cbn [negb orb]; [|done].
  destruct (is_empty (sp_signer_pubkey_b64 spec)) eqn:F6; [done|].
  destruct (qualification_valid _ _) eqn:F7; cbn [negb]; [|done].
  destruct (valid_hex (sp_source_commit spec) 40) eqn:F8; cbn [negb orb]; [|done].
  destruct (valid_hex (sp_starting_patched_tree spec) 40) eqn:F9; cbn [negb]; [|done].
  destruct (is_empty (rk_release (sp_kernel spec)) || _ || _ || _ || _ || _ || _) eqn:F10; [done|].
  destruct (bool_decide (sp_svsm_launch_measurements spec = []) || _ || _) eqn:F11; [done|].
  destruct (bool_decide (sp_artifacts spec = [])); [done|].
  destruct (bool_decide (is_Some (sp_previous spec)) && _) eqn:F12; [done|]. intros _.
  split_and!; [|done..|].
  2:{ intros Hp. rewrite (bool_decide_eq_true_2 _ Hp) in F12. cbn [andb] in F12. by apply negb_false_iff, bool_decide_eq_true in F12. }
  apply orb_false_iff in F11 as [[M1%bool_decide_eq_false M2%negb_false_iff]%orb_false_iff M3].
  unfold compiled_release_fields_match. rewrite E1, E2, E3, E4, E5, E6, E7, E8, E9, E10, E11, E12, E13, E14, E15, E16, E17, E18.
  rewrite F1, F2, F3, F4, F8, F9. assert (Hlen : (String.length (sp_final_patched_tree spec) =? 40)%nat = true).
  { by apply andb_true_iff in F4 as [? _]. }
  rewrite Hlen. cbn [negb orb].
  change (negb (kReleaseApprovalFormatVersion =? kReleaseApprovalFormatVersion)) with false. cbn [orb].
  change (negb (kSecurityWireVersion =? kSecurityWireVersion) || _ || _ || _ || _ || _) with false. cbv iota.
  assert (Hm : valid_measurement_set (sort_strings (sp_svsm_launch_measurements spec)) = true).
  { unfold valid_measurement_set. rewrite !andb_true_iff. split_and!.
    - apply negb_true_iff, bool_decide_eq_false. intros E. apply M1, Permutation_nil. by rewrite <-E, sort_strings_perm.
    - eapply forallb_perm; [|exact M2]. by rewrite sort_strings_perm.
    - apply sorted_ascending; [|done]. apply Sorted_merge_sort, _. }
  rewrite Hm. cbn [negb]. unfold valid_sha256. rewrite F10. reflexivity.
Qed.

(** The carried paths are exactly what the guard asks for. *)
Lemma overlap_matches approved seen overlap :
  approved_set approved ∅ = Some seen → previous_valid seen (filter (λ p, ap_path p ∈ seen) overlap) ∅ = true →
  ∃ carried, carried_hashes (filter (λ p, ap_path p ∈ seen) overlap) ∅ = Some carried ∧
    compare_hashes (required_hashes overlap) approved carried = Some ∅.
Proof.
  intros (Hna & _ & Hseen)%approved_set_spec [Hnd _]%previous_valid_spec.
  destruct (carried_hashes_total (filter (λ p, ap_path p ∈ seen) overlap) ∅ Hnd (λ p _, lookup_empty _)) as [carried Ec].
  exists carried. split; [done|]. apply compare_hashes_total; [done| |].
  - intros p Hp. apply set_eq. intros h. rewrite required_hashes_spec, (carried_hashes_spec _ _ _ _ Ec), lookup_empty.
    assert (Hps : ap_path p ∈ seen) by (apply Hseen; right; by apply list_elem_of_fmap_2). split.
    + intros (q & Hq & Eq & Hh). rewrite (find_path_unique _ _ q); [|done| |done]; [cbn [default from_option id]; set_solver|].
      apply list_elem_of_filter. by rewrite Eq.
    + destruct (find_path _ _) as [q|] eqn:Ef; cbn [default from_option id]; [|set_solver].
      apply find_path_name in Ef as [[_ Hq]%list_elem_of_filter Eq]. rewrite elem_of_list_to_set. by exists q.
  - intros k x. rewrite (carried_hashes_spec _ _ _ _ Ec), lookup_empty.
    destruct (find_path _ _) as [q|] eqn:Ef; [|done]. intros _. apply find_path_name in Ef as [[Hq _]%list_elem_of_filter <-].
    apply Hseen in Hq. set_solver.
Qed.

(** C25: What the generator produces is accepted: an approval generated from a
    specification, once Genesis delegated its signer and the signer signed it,
    passes the verification of every server of the network; and when the
    specification names the previous approval of a proved rollout, with its end
    state and a higher number, it passes the release guard. *)
Theorem generated_release_accepted spec d a genesis network gsig signature :
  generate_release_approval spec d = Some (Some a) → sp_network_id_hex spec = to_hex (be_bytes 32 network) →
  let authority := mkReleaseAuthority kReleaseAuthorityFormatVersion (sp_network_id_hex spec) (sp_signer_pubkey_b64 spec) gsig in
  verify_ed25519 (to_base64 (be_bytes 32 genesis)) gsig (canonical_release_authority_json authority) = true →
  verify_ed25519 (sp_signer_pubkey_b64 spec) signature (canonical_release_approval_json a) = true →
  verify_release_approval_bundle (mkBundle authority (with_signature a signature)) genesis network = true ∧
  ∀ rollout number previous st, sp_previous spec = Some (bd_approval previous) →
    previous_rollout_state rollout number (Some previous) = Some st → is_halted st = sp_previous_halted spec →
    vr_network_id rollout = network → number < sp_release_number spec →
    release_follows_rollout rollout number previous a = true.
Proof.
  intros Hg En authority Hgs Hs.
  assert (Hga : spec_complete spec = true ∧ assemble_approval spec d = Some a ∧
    ∀ previous, sp_previous spec = Some previous → previous_signed spec previous = Some true).
  { revert Hg. unfold generate_release_approval. destruct (spec_complete spec); cbn [negb]; [|done].
    destruct (sp_previous spec) as [previous|]; [|intros [= <-]; by split_and!].
    destruct (previous_signed spec previous) as [[]|] eqn:Ep; cbn [mbind option_bind negb]; [|done..].
    intros [= <-]. split_and!; [done..|]. by intros ? [= <-]. }
  destruct Hga as (Hc & Ha & Hps). clear Hg. revert Ha. unfold assemble_approval. destruct (_ <? _); [done|].
  destruct (artifact_paths _ _ d) as [[approved seen]|] eqn:Eap; [|done]. cbn [mbind option_bind].
  apply artifact_paths_approved in Eap. destruct (_ || _) eqn:Enames; [done|].
  destruct (previous_valid seen (carried_paths spec seen) ∅) eqn:Epv; cbn [negb]; [|done].
  intros Ea. apply (inj Some) in Ea. symmetry in Ea.
  destruct (complete_fields spec a Hc) as (Hcf & Hq & Hck & Hne & Hnp); [by rewrite Ea..|]. split.
  - unfold verify_release_approval_bundle, verify_release_approval_signatures. subst authority.
    cbn [bd_authority bd_approval ra_format_version ra_network_id_hex ra_release_signing_pubkey_b64 ra_genesis_signature_b64
         with_signature rl_format_version rl_network_id_hex rl_signer_pubkey_b64 rl_signature_b64 rl_approved_paths
         rl_previous_release_paths rl_evidence_collector_path rl_qualification_state rl_expected_pcrs].
    change (canonical_release_approval_json (with_signature a signature)) with (canonical_release_approval_json a).
    change (compiled_release_fields_match (with_signature a signature)) with (compiled_release_fields_match a).
    rewrite Hcf, Hck, Hne, <-En, Hgs. rewrite Ea in Hs |- *. cbn [rl_format_version rl_network_id_hex rl_signer_pubkey_b64
      rl_approved_paths rl_previous_release_paths rl_evidence_collector_path rl_qualification_state rl_expected_pcrs].
    rewrite Hs, !String.eqb_refl, Eap, Enames, Epv. exact Hq.
  - intros rollout number previous st Esp Est Eh Enet Hnum. unfold release_follows_rollout. rewrite Est, Eh, Enet.
    specialize (Hps _ Esp). unfold previous_signed in Hps.
    apply bind_Some in Hps as (sg & _ & Hps). apply bind_Some in Hps as (sk & _ & Hps). apply (inj Some) in Hps.
    apply andb_true_iff in Hps as [[[[Hps1%String.eqb_eq Hps2%String.eqb_eq]%andb_true_iff _]%andb_true_iff _]%andb_true_iff _].
    rewrite Hps1, Hps2, Ea. cbn [rl_network_id_hex rl_signer_pubkey_b64 rl_release_number rl_previous_release_paths rl_approved_paths].
    rewrite En, !String.eqb_refl. cbn [negb orb]. destruct (Z.leb_spec (sp_release_number spec) number); [lia|].
    clear Ea. pose proof (Hnp (ex_intro _ _ Esp)) as Hnil. unfold carried_paths in *. rewrite Esp, Hnil in Epv |- *.
    cbn [app] in *. destruct (overlap_matches _ _ _ Eap Epv) as (carried & -> & ->). by rewrite bool_decide_eq_true_2.
Qed.
End generator.

(** ** Applications *)

Module Depot.
(** The document codec of [TestCodec] with its tokens packed into ASCII bytes,
    and hexadecimal digits. *)
Fixpoint pos_bytes (p : positive) : list Z :=
  match p with xH => [3] | xO p => 4 :: pos_bytes p | xI p => 5 :: pos_bytes p end.
Definition z_bytes (z : Z) : list Z := match z with Z0 => [0] | Zpos p => 1 :: pos_bytes p | Zneg p => 2 :: pos_bytes p end.

Fixpoint read_pos (l : list Z) : option (positive * list Z) :=
  match l with
  | 3 :: l => Some (xH, l)
  | 4 :: l => '(p, l) ← read_pos l; Some (xO p, l)
  | 5 :: l => '(p, l) ← read_pos l; Some (xI p, l)
  | _ => None
  end.
Definition read_z (l : list Z) : option (Z * list Z) :=
  match l with
  | 0 :: l => Some (0, l)
  | 1 :: l => '(p, l) ← read_pos l; Some (Zpos p, l)
  | 2 :: l => '(p, l) ← read_pos l; Some (Zneg p, l)
  | _ => None
  end.

Definition pack_one (z : Z) : list Z := if (0 <=? z) && (z <? 120) then [z] else 120 :: z_bytes z.
Definition pack (l : list Z) : list Z := mjoin (pack_one <$> l).
Fixpoint unpack (fuel : nat) (l : list Z) : option (list Z) :=
  match l, fuel with
  | [], _ => Some []
  | x :: l, S fuel =>
      if x <? 120 then tokens ← unpack fuel l; Some (x :: tokens)
      else '(z, l) ← read_z l; tokens ← unpack fuel l; Some (z :: tokens)
  | _, O => None
  end.

Lemma read_pos_bytes p l : read_pos (pos_bytes p ++ l) = Some (p, l).
Proof. induction p as [p IH|p IH|]; cbn; rewrite ?IH; done. Qed.
Lemma read_z_bytes z l : read_z (z_bytes z ++ l) = Some (z, l).
Proof. destruct z; cbn; rewrite ?read_pos_bytes; done. Qed.

Lemma unpack_pack l fuel : (length (pack l) <= fuel)%nat → unpack fuel (pack l) = Some l.
Proof.
  revert fuel. induction l as [|z l IH]; intros fuel; [by destruct fuel|].
  change (pack (z :: l)) with (pack_one z ++ pack l). unfold pack_one.
  destruct (_ && _) eqn:Ez; cbn [app length]; intros Hf; destruct fuel as [|fuel]; try lia; cbn [unpack].
  - apply andb_true_iff in Ez as [_ Ez]. rewrite Ez, IH by lia. done.
  - change (120 <? 120) with false. cbv iota. rewrite read_z_bytes. cbn [mbind option_bind].
    rewrite length_app in Hf. by rewrite IH by lia.
Qed.

Definition digit (d : Z) : Ascii.ascii := char_of (if d <? 10 then 48 + d else 87 + d).
Definition undigit (c : Ascii.ascii) : Z := if code_of c <? 58 then code_of c - 48 else code_of c - 87.
Fixpoint hex_text (bytes : list Z) : string :=
  match bytes with [] => EmptyString | b :: rest => String (digit (b / 16)) (String (digit (b mod 16)) (hex_text rest)) end.
Fixpoint unhex (s : string) : option (list Z) :=
  match s with
  | EmptyString => Some []
  | String a (String b rest) => bytes ← unhex rest; Some (undigit a * 16 + undigit b :: bytes)
  | _ => None
  end.

#[export] Instance hex : HexCodec := {|
  sodium_bin2hex := hex_text;
  sodium_hex2bin _ s := bytes ← unhex s; if forallb (λ b, (0 <=? b) && (b <? 256)) bytes then Some bytes else None |}.

Lemma undigit_digit d : 0 <= d < 16 → undigit (digit d) = d ∧ 48 <= code_of (digit d) < 128 ∧
  ((48 <=? code_of (digit d)) && (code_of (digit d) <=? 57)) || ((97 <=? code_of (digit d)) && (code_of (digit d) <=? 102)) = true.
Proof.
  intros Hd. unfold undigit, digit. destruct (Z.ltb_spec d 10); rewrite code_char by lia;
    repeat case_match; repeat split; try lia; rewrite ?orb_true_iff, ?andb_true_iff, ?Z.leb_le; lia.
Qed.

Lemma halves b : is_byte b → 0 <= b / 16 < 16 ∧ 0 <= b mod 16 < 16 ∧ b / 16 * 16 + b mod 16 = b.
Proof.
  unfold is_byte. intros Hb. pose proof (Z.div_mod b 16). pose proof (Z.mod_pos_bound b 16).
  assert (0 <= b / 16 < 16) by (split; [apply Z.div_pos; lia|apply Z.div_lt_upper_bound; lia]). lia.
Qed.

Lemma unhex_text bytes : Forall is_byte bytes → unhex (hex_text bytes) = Some bytes.
Proof.
  induction 1 as [|b bytes (H1 & H2 & E)%halves _ IH]; [done|]. cbn [hex_text unhex]. rewrite IH. cbn [mbind option_bind].
  rewrite (proj1 (undigit_digit _ H1)), (proj1 (undigit_digit _ H2)), E. done.
Qed.

#[export] Instance hex_laws : HexCodecLaws.
Proof.
  split; cbn.
  - intros bytes Hb. rewrite unhex_text by done. cbn [mbind option_bind].
    assert (forallb (λ b, (0 <=? b) && (b <? 256)) bytes = true) as ->; [|done].
    apply forallb_forall. intros b Hin%list_elem_of_In. rewrite Forall_forall in Hb.
    specialize (Hb b Hin). unfold is_byte in Hb. apply andb_true_iff. split; [apply Z.leb_le|apply Z.ltb_lt]; lia.
  - induction 1 as [|b bytes (H1 & H2 & _)%halves _ IH]; [by constructor|]. unfold ascii_text in *. cbn.
    apply undigit_digit in H1 as (_ & H1 & _), H2 as (_ & H2 & _). unfold code_of in H1, H2.
    constructor; [lia|]. constructor; [lia|exact IH].
  - intros _ s bytes. destruct (unhex s) as [bs|]; [|done]. cbn. destruct (forallb _ bs) eqn:E; [|done].
    intros [= <-]. apply Forall_forall. intros b Hin. rewrite forallb_forall in E.
    apply list_elem_of_In, E in Hin. bool_to_prop. done.
Qed.

#[export] Instance hex_lower_laws : HexLower.
Proof.
  split. cbn. intros bytes Hb. unfold valid_hex. apply andb_true_iff. split.
  - apply Nat.eqb_eq. induction Hb; [done|]. cbn. lia.
  - induction Hb as [|b bytes (H1 & H2 & _)%halves _ IH]; [done|]. cbn [hex_text].
    apply undigit_digit in H1 as (_ & _ & H1), H2 as (_ & _ & H2).
    change (((48 <=? code_of (digit (b / 16))) && (code_of (digit (b / 16)) <=? 57) ||
             (97 <=? code_of (digit (b / 16))) && (code_of (digit (b / 16)) <=? 102)) &&
            (((48 <=? code_of (digit (b mod 16))) && (code_of (digit (b mod 16)) <=? 57) ||
             (97 <=? code_of (digit (b mod 16))) && (code_of (digit (b mod 16)) <=? 102)) &&
            forallb (λ c, (48 <=? c) && (c <=? 57) || (97 <=? c) && (c <=? 102)) (string_bytes (hex_text bytes))) = true).
    rewrite H1, H2. exact IH.
Qed.

#[export] Instance text : TextCodec := {|
  sodium_bin2base64 := @sodium_bin2base64 test_codec;
  sodium_base642bin := @sodium_base642bin test_codec;
  json_dump j := pack (@json_dump test_codec j);
  json_parse l := tokens ← unpack (length l) l; @json_parse test_codec tokens |}.

#[export] Instance text_laws : TextCodecLaws.
Proof.
  split.
  - apply (@base64_round_trip test_codec _).
  - apply (@base64_ascii test_codec _).
  - intros j Hj. cbn [json_parse json_dump text]. rewrite unpack_pack by done. cbn [mbind option_bind]. by apply (@json_round_trip test_codec _).
Qed.

#[export] Existing Instances Village.sodium Village.messages.
#[export] Instance values : ValueCodec := {|
  json_dump_indented := json_dump; json_dump_discarded _ _ := []; json_float_to_integer _ := 0 |}.

#[export] Instance sodium_laws : SodiumLaws.
Proof.
  split. intros bytes. unfold is_digest. cbn. unfold Village.hash. split; [apply Z.land_nonneg; right; done|].
  change Village.hash_mask with (Z.ones 256). rewrite Z.land_ones by done. by apply Z.mod_pos_bound.
Qed.

Definition genesis : Ed25519PublicKey := 7.
Definition network : NetworkId := 77.
Definition sign (key : Z) (message : list Z) : string := to_base64 (be_bytes 64 (Village.hash (be_bytes 32 key ++ message))).
Definition signer : string := to_base64 (be_bytes 32 5).
Definition run_of (n : nat) (c : Z) : string := String.string_of_list_ascii (replicate n (char_of c)).
Definition kernel : ReleaseKernelIdentityV1 :=
  mkKernelIdentity "6.1" (run_of 64 97) (run_of 64 98) (run_of 64 99) (run_of 64 100).

(** A build directory, and calls that succeed. *)
Definition disk : Disk := mkDisk {[ "build/nexus" := mkFile [1; 2; 3] true ]} [∅] (replicate 400 1000000) [].

Definition spec (number : Z) (attestd : Z) (previous : option ReleaseApprovalV1) : ReleaseBundleSpec :=
  mkSpec "release" "1.0" number [] (run_of 40 97) (to_hex (be_bytes 32 network)) signer kPending [] (run_of 40 98)
    (run_of 40 99) "ima" (run_of 64 101) kernel [run_of 96 102; run_of 96 101]
    [mkArtifact "/usr/bin/lemonade-nexus" "build/nexus" []; mkArtifact "/usr/bin/nexus-attestd" "" [run_of 64 attestd]]
    previous false.

Definition blank : ReleaseApprovalV1 :=
  mkApproval 0 "" "" "" "" "" "" 0 0 0 0 "" 0 0 "" "" kernel [] kReleaseMinTcb [] [] "" [] "" "" "".
Definition generated (s : ReleaseBundleSpec) : ReleaseApprovalV1 :=
  match generate_release_approval s disk with Some (Some a) => a | _ => blank end.

Definition delegation : ReleaseAuthorityV1 := mkReleaseAuthority kReleaseAuthorityFormatVersion (to_hex (be_bytes 32 network)) signer "".
Definition genesis_signature : string := sign genesis (canonical_release_authority_json delegation).
Definition authority : ReleaseAuthorityV1 :=
  mkReleaseAuthority kReleaseAuthorityFormatVersion (to_hex (be_bytes 32 network)) signer genesis_signature.
Definition publish (s : ReleaseBundleSpec) : ReleaseApprovalBundleV1 :=
  mkBundle authority (with_signature (generated s) (sign 5 (canonical_release_approval_json (generated s)))).

Definition first_spec : ReleaseBundleSpec := spec 2026010101 49 None.
Definition first : ReleaseApprovalBundleV1 := publish first_spec.
Definition second_spec : ReleaseBundleSpec := spec 2026020101 50 (Some (bd_approval first)).
Definition second : ReleaseApprovalBundleV1 := publish second_spec.
Definition rollout : VerifiedRollout :=
  mkVerifiedRollout (mkChainState 3 0 2026010101 (release_approval_digest (bd_approval first)) [mkParticipant 1 true] {[1]} None false)
    1 genesis network.

(** *** Checks by computation *)

Definition plain_string (s : string) : bool := forallb (λ b, b <? 128) (string_bytes s).
Definition u64b (z : Z) : bool := (0 <=? z) && (z <? two64).

Lemma u64b_fits z : u64b z = true → json_fits (JUnsigned z).
Proof. intros [H1%Z.leb_le H2%Z.ltb_lt]%andb_true_iff. by constructor. Qed.
Lemma plain_string_fits s : plain_string s = true → json_fits (JString s).
Proof. intros Hs. constructor. by apply ascii_literal. Qed.

Definition path_plain (p : ApprovedPath) : bool := plain_string (ap_path p) && forallb plain_string (ap_sha256 p).

Lemma strings_fit l : forallb plain_string l = true → json_fits (strings_json l).
Proof.
  intros Hl. constructor. intros j (x & -> & Hx)%list_elem_of_fmap. rewrite forallb_forall in Hl.
  by apply plain_string_fits, Hl, list_elem_of_In.
Qed.

Lemma paths_fit l : forallb path_plain l = true → json_fits (approved_paths_json l).
Proof.
  intros Hl. constructor. intros j (p & -> & Hp)%list_elem_of_fmap. rewrite forallb_forall in Hl.
  apply list_elem_of_In, Hl, andb_true_iff in Hp as [H1 H2].
  unfold path_json. fits_literal; [by apply plain_string_fits|by apply strings_fit].
Qed.

Definition numbers (a : ReleaseApprovalV1) : list Z :=
  [rl_format_version a; rl_security_wire_version a; rl_security_ruleset a; rl_consensus_ruleset a;
   rl_attestation_profile_ruleset a; rl_attestd_wire_version a; rl_release_number a; tcb_bootloader (rl_min_tcb a);
   tcb_tee (rl_min_tcb a); tcb_snp (rl_min_tcb a); tcb_microcode (rl_min_tcb a)].
Definition texts (a : ReleaseApprovalV1) : list string :=
  [rl_release_id a; rl_nexus_version a; rl_source_commit a; rl_starting_patched_tree a; rl_final_patched_tree a;
   rl_network_id_hex a; rl_attestation_profile a; rl_ima_policy_id a; rl_ima_policy_sha256 a; rk_release (rl_kernel a);
   rk_bzimage_sha256 (rl_kernel a); rk_vmlinux_sha256 (rl_kernel a); rk_module_tree_sha256 (rl_kernel a);
   rk_module_certificate_der_sha256 (rl_kernel a); rl_evidence_collector_path a; rl_qualification_state a;
   rl_signer_pubkey_b64 a].

Lemma approval_fits a :
  forallb u64b (numbers a) = true → forallb plain_string (texts a) = true →
  forallb plain_string (rl_svsm_launch_measurements_hex a) = true → forallb path_plain (rl_approved_paths a) = true →
  forallb path_plain (rl_previous_release_paths a) = true → rl_expected_pcrs a = [] →
  json_fits (approval_preimage a).
Proof.
  intros Hn Ht Hm Hp Hq Hpc. unfold numbers, texts in Hn, Ht. cbn [forallb] in Hn, Ht.
  repeat match goal with Hx : _ && _ = true |- _ => apply andb_true_iff in Hx as [? ?] end. unfold approval_preimage, approval_fields. rewrite Hpc.
  apply fits_fields. apply Forall_app. split.
  - repeat (apply Forall_cons; split; [split; [by apply ascii_literal|]|]); [..|by apply Forall_nil]; cbn [snd];
      first [by apply u64b_fits | by apply plain_string_fits | by apply strings_fit | by apply paths_fit
            | by (apply fits_array; intros j Hj; apply not_elem_of_nil in Hj)
            | try unfold kernel_json; try unfold tcb_json; fits_literal;
              first [by apply u64b_fits|by apply plain_string_fits]].
  - destruct (_ <=? _); [|constructor].
    repeat (apply Forall_cons; split; [split; [by apply ascii_literal|]|]); [..|by apply Forall_nil]; cbn [snd];
      first [by apply u64b_fits | by apply paths_fit].
Qed.

Lemma plain_check b : u64b (rl_release_number (bd_approval b)) = true →
  forallb (λ x, (0 <=? x) && (x <? 128)) (default [] (release_approval_bundle_json b)) = true → plain_bundle b.
Proof.
  intros [H1%Z.leb_le H2%Z.ltb_lt]%andb_true_iff Ht. split; [exact (conj H1 H2)|]. intros text Et. rewrite Et in Ht.
  apply Forall_forall. intros x Hx%list_elem_of_In. rewrite forallb_forall in Ht. apply Ht, andb_true_iff in Hx as [Hlo%Z.leb_le Hhi%Z.ltb_lt].
  exact (conj Hlo Hhi).
Qed.

Lemma floor_crash dir g n number c d ver : ver ∈ versions d → crash_point d (perform dir g n (CallFloor number) c d).2 ver.
Proof. by left. Qed.

(** *** A server that pins the first release and adopts the second *)

Definition started : option bool * ReleaseChain * Disk := load_chain "store" genesis network (Some first) new_release_chain disk.
Definition second_text : list Z := default [] (release_approval_bundle_json second).
Definition adopting : ReleaseChain * Disk := perform "store" genesis network (CallOffer second_text) started.1.2 started.2.
Definition after_crash : Disk :=
  mkDisk (live adopting.2) [flushed <$> live adopting.2] (replicate 400 1000000) [].
Definition restarted : option bool * ReleaseChain * Disk :=
  load_chain "store" genesis network (Some first) new_release_chain after_crash.
Definition kept (c : ReleaseChain) : ReleaseChainRecord := default (mkChainRecord 0 "" "" 0 0 0 "") (ch_record c).

Lemma first_plain : plain_bundle first.
Proof. apply plain_check; vm_compute; reflexivity. Qed.
Lemma second_plain : plain_bundle second.
Proof. apply plain_check; vm_compute; reflexivity. Qed.
Lemma second_parses : parse_release_approval_bundle second_text = Some second.
Proof. vm_compute. reflexivity. Qed.
Lemma offer_plain : plain_call (CallOffer second_text).
Proof. intros b Hb. rewrite second_parses in Hb. apply (inj Some) in Hb as <-. exact second_plain. Qed.
Lemma flushed_after : versions adopting.2 = [flushed <$> live adopting.2].
Proof. vm_compute. reflexivity. Qed.
Lemma signer_plain : ascii_text (ra_release_signing_pubkey_b64 (bd_authority first)).
Proof. apply ascii_literal. vm_compute. reflexivity. Qed.
Lemma first_verifies : verify_release_approval_bundle first genesis network = true.
Proof. vm_compute. reflexivity. Qed.
Lemma starts_after : starts (flushed <$> live adopting.2) (Some first) after_crash.
Proof.
  split; [intros b Hb; apply (inj Some) in Hb as <-; exact first_plain|].
  split; [exact (reboots_flushed (live adopting.2) (replicate 400 1000000) [])|by right].
Qed.
Lemma restarted_loads :
  load_chain "store" genesis network (Some first) new_release_chain after_crash = (restarted.1.1, restarted.1.2, restarted.2).
Proof. exact (eq_trans (surjective_pairing restarted) (f_equal (λ x, (x, restarted.2)) (surjective_pairing restarted.1))). Qed.
Lemma restarted_flushed : versions restarted.2 = [flushed <$> live adopting.2].
Proof. vm_compute. reflexivity. Qed.
End Depot.

Section witnesses.
Import Depot.

Lemma release_never_falls_witness :
  cr_highest_release_number (kept adopting.1) = 2026020101 ∧
  cr_highest_release_number (kept adopting.1) <= cr_highest_release_number (kept restarted.1.2).
Proof.
  split; [vm_compute; reflexivity|].
  refine (proj1 (proj2 (release_never_falls "store" genesis network first disk started.1.2 started.2 adopting.1 adopting.2
    restarted.1.2 restarted.2 (kept adopting.1) (kept restarted.1.2) _ _ _ first_verifies first_plain signer_plain _ _ _ _))).
  - reflexivity.
  - vm_compute. reflexivity.
  - vm_compute. by eexists.
  - apply rtc_once. rewrite <-(surjective_pairing adopting). apply step_call, offer_plain.
  - apply rtc_once. eapply (step_restart _ _ _ (CallFloor 0) (flushed <$> live adopting.2)); [exact I| |].
    + apply floor_crash. rewrite flushed_after. by left.
    + eapply (boot_crash _ _ _ _ (Some first) after_crash);
        [exact starts_after|exact restarted_loads|left; rewrite restarted_flushed; by left|].
      eapply (boot_done _ _ _ _ (Some first) after_crash); [exact starts_after|exact restarted_loads].
  - vm_compute. reflexivity.
  - vm_compute. reflexivity.
Defined.

Lemma second_fits : bundle_fits second.
Proof.
  split.
  - unfold authority_preimage, authority_fields. fits_literal; [apply u64b_fits|apply plain_string_fits..]; vm_compute; reflexivity.
  - apply approval_fits; vm_compute; reflexivity.
  - apply ascii_literal. vm_compute. reflexivity.
  - apply ascii_literal. vm_compute. reflexivity.
  - apply (bool_decide_unpack _). vm_compute. exact I.
  - apply second_plain.
Qed.

Lemma started_ok : chain_ok "store" genesis network (ra_release_signing_pubkey_b64 (bd_authority first))
  (rl_release_number (bd_approval first)) started.1.2 started.2.
Proof.
  eapply (first_pin "store" genesis network first disk); [reflexivity| | |exact first_verifies|exact first_plain|exact signer_plain].
  - exact (eq_trans (surjective_pairing started) (f_equal (λ x, (x, started.2)) (surjective_pairing started.1))).
  - vm_compute. by eexists.
Qed.

Definition offered : option ReleaseOfferResult * ReleaseChain * Disk :=
  offer "store" genesis network second started.1.2 started.2.
Definition rebooted (outcomes : list Z) : Disk := mkDisk (live offered.2) [flushed <$> live offered.2] outcomes [].

Lemma ticks m vs o t : succeeds (mkDisk m vs (1 :: o) t) = (true, mkDisk m vs o t).
Proof. reflexivity. Qed.

Lemma offered_adopted : offer "store" genesis network second started.1.2 started.2 = (Some OfferAdopted, offered.1.2, offered.2).
Proof. vm_compute. reflexivity. Qed.

Lemma offered_flushed : (flushed <$> live offered.2) ∈ versions offered.2.
Proof. assert (E : versions offered.2 = [flushed <$> live offered.2]) by (vm_compute; reflexivity). rewrite E. by left. Qed.

Lemma offered_short r : ch_record offered.1.2 = Some r →
  Z.of_nat (length (json_dump (record_document r))) <= 4 * kMaxReleaseApprovalBytes.
Proof.
  assert (E : ch_record offered.1.2 = Some (kept offered.1.2)) by (vm_compute; reflexivity). rewrite E.
  intros Hr. apply (inj Some) in Hr as <-. vm_compute. discriminate.
Qed.

Lemma adopted_approval_survives_witness :
  ch_current (load_chain "store" genesis network None new_release_chain (rebooted [1; 1; 1])).1.2 = Some second.
Proof.
  exact (f_equal (λ x, ch_current x.1.2)
    (adopted_approval_survives "store" genesis network _ _ second started.1.2 started.2 offered.1.2 offered.2
      (flushed <$> live offered.2) (rebooted [1; 1; 1]) (rebooted [1; 1]) (rebooted [1]) (rebooted []) started_ok offered_adopted second_fits second_plain offered_flushed
      (reboots_flushed (live offered.2) [1; 1; 1] []) (ticks _ _ [1; 1] []) (ticks _ _ [1] [])
      (ticks _ _ [] []) offered_short)).
Defined.

Lemma generated_release_accepted_witness :
  verify_release_approval_bundle second genesis network = true ∧
  release_follows_rollout rollout 2026010101 first (generated second_spec) = true.
Proof.
  destruct (generated_release_accepted second_spec disk (generated second_spec) genesis network genesis_signature
    (sign 5 (canonical_release_approval_json (generated second_spec)))) as [H1 H2]; [vm_compute; reflexivity..|].
  split; [exact H1|]. by apply (H2 rollout 2026010101 first RolloutComplete); vm_compute.
Defined.

Lemma guarded_release_accepts_exactly_witness :
  ∃ p', profile_approved_paths (generated second_spec) !! 1%nat = Some p' ∧
    run_of 64 49 ∈ ap_sha256 p'.
Proof.
  destruct (guarded_release_accepts_exactly rollout 2026010101 first (generated second_spec) 1%nat
    (mkApprovedPath "/usr/bin/nexus-attestd" [run_of 64 50])) as (p' & Hp & _ & Hh); [vm_compute; reflexivity..|].
  exists p'. split; [exact Hp|]. apply Hh. right. exists (mkApprovedPath "/usr/bin/nexus-attestd" [run_of 64 49]).
  split; [|split; [reflexivity|left; by left]]. apply (bool_decide_unpack _). vm_compute. exact I.
Defined.

(** A start whose stat of the record fails goes back: the server that adopted
    release 2026020101 and finds the package of 2026010101 installed accepts the
    older release again, and writes it over the newer record. *)
Theorem failed_stat_goes_back :
  highest_release_number restarted.1.2 = 2026020101 ∧
  let d := after_crash <| oracle := 0 :: oracle after_crash |> in
  let '(result, c, d') := load_chain "store" genesis network (Some first) new_release_chain d in
  result = Some true ∧ highest_release_number c = 2026010101 ∧ chain_current c = Some first ∧
  (parse_record <$> DurableWrite.read_file (chain_path "store") d') ≫= (λ r, cr_highest_release_number <$> r) = Some 2026010101.
Proof. vm_compute. by split_and!. Qed.
End witnesses.
