(* ===== verification/UpgradeTheorems.v ===== *)
(** * Theorems about the rollout of a release

    The bytes of a record determine it and are determined by it. Over every
    accepted chain of records the servers restart one at a time in the derived
    order, a server counts as upgraded only when a correct witness saw it run the
    release, and completion and halting are final. A proof of a completed rollout
    holds, for every server, such a record finalized under an authority that
    descends from Genesis. *)

From S2P Require Import Prelude SecurityPolicy CanonicalEncoding ConsensusTypes QuorumValidation Selection Json.
From S2P Require Import EpochAuthority EligibilityLedger EligibilityStore AuthorityTheorems TreeMergeBody UpgradeProgress.

(** ** Reading numbers *)

Definition fits (n : nat) (v : Z) : Prop := 0 <= v < 256 ^ Z.of_nat n.

Lemma get_be_put n v rest : fits n v → get_be n (be_bytes n v ++ rest) = Some (v, rest).
Proof.
  intros Hv. unfold get_be. rewrite length_app, length_be_bytes.
  destruct (Nat.ltb_spec (n + length rest) n); [lia|].
  rewrite take_app_length' by (by rewrite length_be_bytes). rewrite drop_app_length' by (by rewrite length_be_bytes).
  by rewrite be_value_bytes.
Qed.

Lemma be_bytes_value bs : Forall is_byte bs → be_bytes (length bs) (be_value bs) = bs.
Proof.
  intros Hb. unfold be_bytes, be_value. rewrite <-length_reverse, le_bytes_value by (by apply Forall_reverse).
  apply reverse_involutive.
Qed.

Lemma get_be_inv n bs v rest :
  Forall is_byte bs → get_be n bs = Some (v, rest) → bs = be_bytes n v ++ rest ∧ fits n v ∧ Forall is_byte rest.
Proof.
  intros Hb. unfold get_be. destruct (Nat.ltb_spec (length bs) n) as [|Hl]; [done|]. intros [= <- <-].
  assert (Ht : length (take n bs) = n) by (rewrite length_take; lia).
  assert (Hbt : Forall is_byte (take n bs)) by (by apply Forall_take).
  split_and!; [| |by apply Forall_drop].
  - rewrite <-Ht at 1. rewrite be_bytes_value by done. by rewrite take_drop.
  - pose proof (be_value_range _ Hbt) as Hr. by rewrite Ht in Hr.
Qed.

(** A reader and a writer of the values in [ok] that undo each other. *)
Record codec {A} (get : list Z → option (A * list Z)) (put : A → list Z) (ok : A → Prop) : Prop := {
  cd_put : ∀ x rest, ok x → get (put x ++ rest) = Some (x, rest);
  cd_get : ∀ bs x rest, Forall is_byte bs → get bs = Some (x, rest) → bs = put x ++ rest ∧ ok x ∧ Forall is_byte rest;
}.

(** Reads the fields in the context one after the other. *)
Ltac put_fields := rewrite <-?app_assoc; repeat (rewrite get_be_put by done; cbn [mbind option_bind]).
Ltac get_fields :=
  repeat match goal with
  | |- (get_be ?n ?bs ≫= _) = Some _ → _ =>
      let v := fresh "v" in let rest := fresh "rest" in let E := fresh "E" in
      destruct (get_be n bs) as [[v rest]|] eqn:E; [|done]; cbn [mbind option_bind];
      apply get_be_inv in E as (-> & ? & ?); [|done]
  end.

Record status_fits (s : UpgradeStatus) : Prop := {
  sf_network : fits 32 (us_network_id s);
  sf_node : fits 32 (us_node s);
  sf_running : fits 8 (us_running_release s);
  sf_staged : fits 8 (us_staged_release s);
  sf_accepted : fits 8 (us_accepted_release s);
  sf_flags : fits 1 (us_flags s);
  sf_timestamp : fits 8 (us_timestamp_ms s);
  sf_signature : fits 64 (us_signature s);
}.

Lemma status_codec : codec get_status put_status status_fits.
Proof.
  split.
  - intros [] rest []; cbn in *. unfold get_status, put_status. cbn. put_fields.
    done.
  - intros bs x rest Hb. unfold get_status. get_fields. intros [= <- <-].
    split_and!; [unfold put_status; cbn; by rewrite <-!app_assoc|by split|done].
Qed.

Record observation_fits (o : UpgradeObservation) : Prop := {
  of_network : fits 32 (uo_network_id o);
  of_release : fits 8 (uo_release_number o);
  of_subject : fits 32 (uo_subject o);
  of_head : fits 32 (uo_chain_head o);
  of_witness : fits 32 (uo_witness o);
  of_evidence : fits 32 (uo_evidence_digest o);
  of_signature : fits 64 (uo_signature o);
}.

Lemma observation_codec : codec get_observation put_observation observation_fits.
Proof.
  split.
  - intros [] rest []; cbn in *. unfold get_observation, put_observation. cbn. put_fields. done.
  - intros bs x rest Hb. unfold get_observation. get_fields. intros [= <- <-].
    split_and!; [unfold put_observation; cbn; by rewrite <-!app_assoc|by split|done].
Qed.

Lemma participant_codec : codec get_participant put_participant (λ p, fits 32 (pt_node p)).
Proof.
  split.
  - intros [node tier1] rest Hn. cbn in Hn. unfold get_participant, put_participant. cbn [pt_node pt_tier1].
    rewrite <-app_assoc, get_be_put by done. cbn [mbind option_bind].
    rewrite get_be_put by (destruct tier1; unfold fits; lia). cbn [mbind option_bind]. by destruct tier1.
  - intros bs x rest Hb. unfold get_participant. get_fields. destruct (Z.ltb_spec 1 v0) as [|Hv]; [done|]. intros [= <- <-].
    split_and!; [|done|done]. unfold put_participant. cbn [pt_node pt_tier1]. rewrite <-!app_assoc. do 2 f_equal.
    unfold fits in *. destruct (Z.eqb_spec v0 1) as [->|]; [done|]. assert (v0 = 0) as -> by lia. done.
Qed.

Lemma many_codec {A} (get : list Z → option (A * list Z)) put ok n :
  codec get put ok → codec (get_many get n) (λ xs, mjoin (put <$> xs)) (λ xs, length xs = n ∧ Forall ok xs).
Proof.
  intros [Hp Hg]. split; induction n as [|n IH].
  - intros xs rest [Hl _]. by destruct xs.
  - intros xs rest [Hl Hok]. destruct xs as [|x xs]; [done|]. apply Forall_cons in Hok as [Hx Hxs]. cbn [get_many].
    change (mjoin (put <$> x :: xs)) with (put x ++ mjoin (put <$> xs)). rewrite <-app_assoc, Hp by done. cbn [mbind option_bind].
    rewrite IH; [done|]. split; [|done]. cbn in Hl. lia.
  - intros bs xs rest Hb [= <- <-]. by split_and!.
  - intros bs xs rest Hb. cbn [get_many]. destruct (get bs) as [[x bs1]|] eqn:E1; [|done]. cbn [mbind option_bind].
    apply Hg in E1 as (-> & Hx & Hb1); [|done]. destruct (get_many get n bs1) as [[ys bs2]|] eqn:E2; [|done].
    cbn [mbind option_bind]. intros [= <- <-]. apply IH in E2 as (-> & [Hl Hys] & Hb2); [|done].
    change (mjoin (put <$> x :: ys)) with (put x ++ mjoin (put <$> ys)). rewrite app_assoc.
    split_and!; [done|cbn; lia|by constructor|done].
Qed.

(** ** Records *)

Record record_fits (r : UpgradeRecord) : Prop := {
  rf_version : ur_version r = kUpgradeRecordVersion;
  rf_network : fits 32 (ur_network_id r);
  rf_sequence : fits 8 (ur_sequence r);
  rf_previous : fits 32 (ur_previous r);
  rf_release : fits 8 (ur_release_number r);
  rf_approval : fits 32 (ur_approval_digest r);
  rf_participants : Z.of_nat (length (ur_order r)) <= kMaxUpgradeParticipants;
  rf_order : Forall (λ p, fits 32 (pt_node p)) (ur_order r);
  rf_subject : fits 32 (ur_subject r);
  rf_status : ∀ s, ur_status r = Some s → status_fits s;
  rf_observations : Z.of_nat (length (ur_observations r)) <= kMaxObservations;
  rf_observed : Forall observation_fits (ur_observations r);
}.

Lemma event_of_value e : event_of (event_value e) = Some e.
Proof. by destruct e. Qed.

Lemma event_value_of v e : event_of v = Some e → v = event_value e.
Proof.
  unfold event_of. destruct (Z.eqb_spec v 1); [by intros [= <-]|]. destruct (Z.eqb_spec v 2); [by intros [= <-]|].
  destruct (Z.eqb_spec v 3); [by intros [= <-]|]. destruct (Z.eqb_spec v 4); [by intros [= <-]|done].
Qed.

Lemma event_value_fits e : fits 1 (event_value e).
Proof. destruct e; vm_compute; split; (discriminate || reflexivity). Qed.

Lemma flag_fits (b : bool) : fits 1 (if b then 1 else 0).
Proof. destruct b; vm_compute; split; (discriminate || reflexivity). Qed.

Lemma count_fits n : Z.of_nat n <= 65535 → fits 2 (Z.of_nat n).
Proof. unfold fits. change (256 ^ Z.of_nat 2) with 65536. lia. Qed.

Lemma length_joined {A} (put : A → list Z) (n : nat) xs :
  (∀ x, length (put x) = n) → length (mjoin (put <$> xs)) = (length xs * n)%nat.
Proof.
  intros Hn. induction xs as [|x xs IH]; [done|].
  change (mjoin (put <$> x :: xs)) with (put x ++ mjoin (put <$> xs)). rewrite length_app, Hn, IH. cbn. lia.
Qed.

Lemma length_put_status s : length (put_status s) = 161%nat.
Proof. unfold put_status. by rewrite !length_app, !length_be_bytes. Qed.

Lemma length_put_observation o : length (put_observation o) = 232%nat.
Proof. unfold put_observation. by rewrite !length_app, !length_be_bytes. Qed.

Lemma length_put_participant p : length (put_participant p) = 33%nat.
Proof. unfold put_participant. by rewrite !length_app, !length_be_bytes. Qed.

(** A record within its counts is far below the bound of a payload. *)
Lemma record_bytes_bounded r :
  Z.of_nat (length (ur_order r)) <= kMaxUpgradeParticipants → Z.of_nat (length (ur_observations r)) <= kMaxObservations →
  Z.of_nat (length (record_bytes r)) <= kMaxBlockPayloadBytes.
Proof.
  unfold kMaxUpgradeParticipants, kMaxObservations, kMaxActiveTier1, kMaxBlockPayloadBytes, kMaxConsensusBlockBytes, kMaxTransitionsPerBlock.
  intros H1 H2. unfold record_bytes. rewrite !length_app, !length_be_bytes.
  rewrite (length_joined _ _ _ length_put_participant), (length_joined _ _ _ length_put_observation).
  assert (length (from_option put_status [] (ur_status r)) <= 161)%nat by (destruct (ur_status r); [cbn; rewrite length_put_status; lia|cbn; lia]).
  lia.
Qed.

Lemma encode_record_fits r : record_fits r → encode_upgrade_record r = record_bytes r.
Proof.
  intros Hr. unfold encode_upgrade_record.
  rewrite (proj2 (Z.ltb_ge _ _) (rf_participants r Hr)), (proj2 (Z.ltb_ge _ _) (rf_observations r Hr)). cbn [orb].
  rewrite (proj2 (Z.ltb_ge _ _)); [done|]. apply record_bytes_bounded; apply Hr.
Qed.

Lemma decode_encoded r : record_fits r → decode_upgrade_record (encode_upgrade_record r) = Some r.
Proof.
  intros Hr. rewrite encode_record_fits by done. pose proof (record_bytes_bounded r (rf_participants r Hr) (rf_observations r Hr)) as Hl.
  unfold decode_upgrade_record. rewrite (proj2 (Z.ltb_ge _ _) Hl). clear Hl.
  destruct r as [version network sequence previous event release approval order subject status observations].
  destruct Hr as [R0 R1 R2 R3 R4 R5 R6 R7 R8 R9 R10 R11]. cbn in *. subst version.
  pose proof (event_value_fits event). pose proof (flag_fits (if status then true else false)).
  unfold record_bytes. cbn [ur_version ur_network_id ur_sequence ur_previous ur_event ur_release_number ur_approval_digest
    ur_order ur_subject ur_status ur_observations].
  rewrite get_be_put by (vm_compute; split; (discriminate || reflexivity)). cbn [mbind option_bind]. rewrite Z.eqb_refl. cbn [negb].
  repeat (rewrite get_be_put by done; cbn [mbind option_bind]).
  unfold kMaxUpgradeParticipants, kMaxObservations, kMaxActiveTier1 in *.
  rewrite get_be_put by (apply count_fits; lia). cbn [mbind option_bind]. rewrite event_of_value. cbn [mbind option_bind].
  rewrite (proj2 (Z.ltb_ge _ _)) by done. rewrite Nat2Z.id.
  rewrite (cd_put _ _ _ (many_codec _ _ _ (length order) participant_codec)) by done. cbn [mbind option_bind].
  rewrite get_be_put by done. cbn [mbind option_bind].
  destruct status as [s|].
  - rewrite get_be_put by apply (flag_fits true). cbn [mbind option_bind]. change (1 <? 1) with false. change (1 =? 1) with true.
    cbn [from_option]. rewrite (cd_put _ _ _ status_codec) by (by apply R9). cbn [mbind option_bind].
    rewrite get_be_put by (apply count_fits; lia). cbn [mbind option_bind]. rewrite (proj2 (Z.ltb_ge _ _)) by done. rewrite Nat2Z.id.
    rewrite <-(app_nil_r (mjoin _)), (cd_put _ _ _ (many_codec _ _ _ (length observations) observation_codec)) by done. done.
  - rewrite get_be_put by apply (flag_fits false). cbn [mbind option_bind]. change (1 <? 0) with false. change (0 =? 1) with false.
    cbn [from_option mbind option_bind app].
    rewrite get_be_put by (apply count_fits; lia). cbn [mbind option_bind]. rewrite (proj2 (Z.ltb_ge _ _)) by done. rewrite Nat2Z.id.
    rewrite <-(app_nil_r (mjoin _)), (cd_put _ _ _ (many_codec _ _ _ (length observations) observation_codec)) by done. done.
Qed.

Lemma get_count n v : fits 2 v → Z.to_nat v = n → v = Z.of_nat n.
Proof. unfold fits. lia. Qed.

(** The optional status of a record. *)
Lemma get_status_field (has : Z) (bs : list Z) (status : option UpgradeStatus) (rest : list Z) :
  Forall is_byte bs → fits 1 has → (1 <? has) = false →
  (if has =? 1 then '(status, bytes) ← get_status bs; Some (Some status, bytes) else Some (None, bs)) = Some (status, rest) →
  has = (if status then 1 else 0) ∧ bs = from_option put_status [] status ++ rest ∧
  (∀ s, status = Some s → status_fits s) ∧ Forall is_byte rest.
Proof.
  intros Hb Hf Hle%Z.ltb_ge. unfold fits in Hf. destruct (Z.eqb_spec has 1) as [->|Hne].
  - destruct (get_status bs) as [[s bs1]|] eqn:E; [|done]. cbn [mbind option_bind]. intros [= <- <-].
    apply (cd_get _ _ _ status_codec) in E as (-> & Hs & Hr); [|done]. split_and!; try done. by intros s' [= <-].
  - intros [= <- <-]. split_and!; try done. lia.
Qed.

Lemma decoded_encodes bytes r :
  Forall is_byte bytes → decode_upgrade_record bytes = Some r → record_fits r ∧ encode_upgrade_record r = bytes.
Proof.
  intros Hb. unfold decode_upgrade_record. destruct (kMaxBlockPayloadBytes <? _); [done|].
  get_fields. destruct (Z.eqb_spec v kUpgradeRecordVersion) as [->|]; [|done]. cbn [negb]. get_fields.
  destruct (event_of _) as [event|] eqn:Ee; [|done]. cbn [mbind option_bind]. apply event_value_of in Ee as ->.
  destruct (Z.ltb_spec kMaxUpgradeParticipants v5) as [|Hcount]; [done|].
  destruct (get_many get_participant _ _) as [[order bs1]|] eqn:Eo; [|done]. cbn [mbind option_bind].
  apply (cd_get _ _ _ (many_codec _ _ _ _ participant_codec)) in Eo as (-> & [Hol Ho] & Hb1); [|done]. get_fields.
  destruct (1 <? v6) eqn:E6; [done|].
  destruct (if v6 =? 1 then _ else _) as [[status bs2]|] eqn:Es; [|done]. cbn [mbind option_bind].
  apply get_status_field in Es as (-> & -> & Hst & Hb2); [|done..]. get_fields.
  destruct (Z.ltb_spec kMaxObservations v6) as [|Hobs]; [done|].
  destruct (get_many get_observation _ _) as [[os bs3]|] eqn:Eos; [|done]. cbn [mbind option_bind].
  apply (cd_get _ _ _ (many_codec _ _ _ _ observation_codec)) in Eos as (-> & [Hosl Hos] & _); [|done].
  case_bool_decide as Hnil; [|done]. subst bs3. intros [= <-].
  apply eq_sym, get_count in Hol; [|done]. apply eq_sym, get_count in Hosl; [|done]. subst v5 v6.
  assert (Hfits : record_fits (mkUpgradeRecord kUpgradeRecordVersion v v0 v1 event v3 v4 order v2 status os)) by (split; done).
  split; [done|]. rewrite encode_record_fits by done. unfold record_bytes.
  cbn [ur_version ur_network_id ur_sequence ur_previous ur_event ur_release_number ur_approval_digest
    ur_order ur_subject ur_status ur_observations]. by rewrite app_nil_r, <-?app_assoc.
Qed.

(** The bytes of an upgrade record and the record determine each other: a
    string of bytes decodes to a record exactly when the record is within its
    bounds and the bytes are its encoding. So the digest that the next record
    chains to stands for one body. *)
Theorem upgrade_record_canonical bytes r :
  Forall is_byte bytes →
  (decode_upgrade_record bytes = Some r ↔ record_fits r ∧ encode_upgrade_record r = bytes).
Proof.
  intros Hb. split; [by apply decoded_encodes|]. intros [Hr <-]. by apply decode_encoded.
Qed.

(** ** The turn order *)

Record ordered (os : list UpgradeParticipant) : Prop := {
  or_nodup : NoDup (pt_node <$> os);
  or_tiers : ∃ t2 t1, os = t2 ++ t1 ∧ Forall (λ p, pt_tier1 p = false) t2 ∧ Forall (λ p, pt_tier1 p = true) t1;
}.

Section rollout.
Context `{Sodium}.

Lemma derived_ordered release tier1 others : ordered (derive_upgrade_order release tier1 others).
Proof.
  unfold derive_upgrade_order. cbv zeta. split.
  - rewrite fmap_app, <-!list_fmap_compose. unfold compose. cbn [pt_node]. rewrite !list_fmap_id, !ranked_by_perm.
    apply NoDup_app. split_and!; [apply NoDup_elements| |apply NoDup_elements].
    intros n. rewrite !elem_of_elements, !elem_of_list_to_set, list_elem_of_filter, elem_of_list_to_set. tauto.
  - do 2 eexists. split; [done|]. split; apply Forall_fmap, Forall_forall; by intros.
Qed.

(** The order depends on the sets of servers only. *)
Lemma derived_order_canonical release tier1 tier1' others others' :
  (∀ n, n ∈ tier1 ↔ n ∈ tier1') → (∀ n, n ∉ tier1 → n ∈ others ↔ n ∈ others') →
  derive_upgrade_order release tier1 others = derive_upgrade_order release tier1' others'.
Proof.
  intros H1 H2. unfold derive_upgrade_order. cbv zeta.
  assert (E1 : (list_to_set tier1 : gset Z) = list_to_set tier1') by (apply set_eq; intros n; by rewrite !elem_of_list_to_set).
  rewrite E1. do 4 f_equal. apply set_eq. intros n.
  rewrite !elem_of_list_to_set, !list_elem_of_filter, elem_of_list_to_set, <-H1. naive_solver.
Qed.

(** ** The state *)

Record rollout_ok (s : UpgradeChainState) : Prop := {
  ro_order : ordered (uc_order s);
  ro_prefix : ∃ before after, uc_order s = before ++ after ∧ uc_upgraded s = list_to_set (pt_node <$> before);
  ro_turn : ∀ n, uc_in_turn s = Some n → next_subject s = Some n ∧ uc_halted s = false;
  ro_halted : uc_halted s = true → is_Some (next_subject s);
}.

Lemma no_rollout_ok : rollout_ok no_rollout.
Proof. split; try done; [split; [apply NoDup_nil_2|by exists [], []]|by exists [], []]. Qed.

Lemma next_after before after s :
  ordered (before ++ after) → uc_order s = before ++ after → uc_upgraded s = list_to_set (pt_node <$> before) →
  next_subject s = pt_node <$> head after.
Proof.
  intros [Hn _] Ho Hu. unfold next_subject. rewrite Ho, Hu, filter_app. rewrite fmap_app in Hn. apply NoDup_app in Hn as (_ & Hd & _).
  assert (filter (λ p, pt_node p ∉ (list_to_set (pt_node <$> before) : gset Z)) before = []) as ->.
  { apply elem_of_nil_inv. intros p [Hne Hp]%list_elem_of_filter. apply Hne, elem_of_list_to_set. by apply list_elem_of_fmap_2. }
  rewrite filter_id; [done|]. apply Forall_forall. intros p Hp Hin%elem_of_list_to_set. apply (Hd _ Hin).
  by apply list_elem_of_fmap_2.
Qed.

(** ** Runs *)

(** A record with what judged it: the witnesses and whether a Start may skip
    records. *)
Definition JudgedRecord : Type := UpgradeRecord * option UpgradeWitnessSet * bool.

Fixpoint run_records (s : UpgradeChainState) (steps : list JudgedRecord) : option UpgradeChainState :=
  match steps with
  | [] => Some s
  | (r, w, as_base) :: rest =>
      if bool_decide (check_upgrade_record s r w as_base = UrNone) then run_records (apply_upgrade_record s r) rest else None
  end.

(** What an accepted record is. *)
Lemma accepted_event s r w b :
  check_upgrade_record s r w b = UrNone →
  ur_release_number r ≠ 0 ∧
  match ur_event r with
  | EvStart => uc_release_number s < ur_release_number r ∧ ordered (ur_order r) ∧ ur_order r ≠ []
  | EvTurn => uc_halted s = false ∧ ur_release_number r = uc_release_number s ∧ next_subject s = Some (ur_subject r)
  | EvUpgraded => uc_halted s = false ∧ ur_release_number r = uc_release_number s ∧
      (uc_in_turn s = Some (ur_subject r) ∨ uc_in_turn s = None ∧ next_subject s = Some (ur_subject r)) ∧
      check_upgraded s r w = UrNone
  | EvHalt => uc_halted s = false ∧ ur_release_number r = uc_release_number s ∧ uc_in_turn s = Some (ur_subject r)
  end.
Proof.
  unfold check_upgrade_record. destruct (_ || _) eqn:E0; [done|]. bool_to_prop. destruct (negb _ && _); [done|].
  case_bool_decide as Ev.
  { rewrite Ev. unfold check_start. destruct (Z.leb_spec (ur_release_number r) (uc_release_number s)); [done|].
    destruct (negb _ && _); [done|]. destruct (_ || _) eqn:E1; [done|].
    destruct (bool_decide (derive_upgrade_order _ _ _ = _)) eqn:Eo; [|done]. apply bool_decide_eq_true in Eo. intros _.
    split; [done|].
    split_and!; [done|rewrite <-Eo; apply derived_ordered|]. bool_to_prop. done. }
  destruct (_ || _) eqn:E1; [done|]. bool_to_prop. destruct (ur_event r) eqn:Er; [done|..].
  - unfold check_turn. destruct (_ || _) eqn:E2; [done|]. bool_to_prop. intros _. done.
  - intros Hc. split; [done|]. split_and!; try done. revert Hc. unfold check_upgraded. cbv zeta.
    destruct (negb _ && _) eqn:E2; [done|]. intros _. apply andb_false_iff in E2 as [E2|E2]; bool_to_prop; [by left|right].
    done.
  - unfold check_halt. case_bool_decide; [|done]. cbn [negb]. intros _. done.
Qed.

Lemma take_prefix_next s before after n :
  ordered (before ++ after) → uc_order s = before ++ after → uc_upgraded s = list_to_set (pt_node <$> before) →
  next_subject s = Some n → ∃ t rest, after = mkParticipant n t :: rest.
Proof.
  intros Ho E1 E2. rewrite (next_after before after s Ho E1 E2). destruct after as [|[m t] rest]; [done|]. cbn. intros [= ->]. eauto.
Qed.

Lemma step_ok s r w b : rollout_ok s → check_upgrade_record s r w b = UrNone → rollout_ok (apply_upgrade_record s r).
Proof.
  intros [Ho (before & after & E1 & E2) Ht Hh] Hc. apply accepted_event in Hc as [_ Hc].
  unfold apply_upgrade_record. destruct (ur_event r).
  - destruct Hc as (_ & Hord & _). split; cbn; try done. by exists [], (ur_order r).
  - destruct Hc as (Hn & _ & Hs). split; cbn [uc_order uc_upgraded uc_in_turn uc_halted]; [done|by exists before, after| |by rewrite Hn].
    intros n [= <-]. split; [exact Hs|done].
  - destruct Hc as (Hn & _ & Hs & _). assert (Hnext : next_subject s = Some (ur_subject r)) by (destruct Hs as [Hs|[_ Hs]]; [by apply Ht|done]).
    rewrite E1 in Ho. destruct (take_prefix_next s before after _ Ho E1 E2 Hnext) as (t & rest & ->).
    split; cbn [uc_order uc_upgraded uc_in_turn uc_halted]; [by rewrite E1| |done|by rewrite Hn].
    exists (before ++ [mkParticipant (ur_subject r) t]), rest. split; [by rewrite E1, <-app_assoc|].
    rewrite E2, fmap_app, list_to_set_app_L. cbn [fmap list_fmap list_to_set pt_node]. set_solver.
  - destruct Hc as (Hn & _ & Hs). split; cbn [uc_order uc_upgraded uc_in_turn uc_halted]; [done|by exists before, after|done|].
    intros _. destruct (Ht _ Hs) as [Hnext _]. exists (ur_subject r). exact Hnext.
Qed.

Lemma run_ok steps s s' : rollout_ok s → run_records s steps = Some s' → rollout_ok s'.
Proof.
  revert s. induction steps as [|[[r w] b] steps IH]; intros s Hs; cbn [run_records]; [by intros [= <-]|].
  case_bool_decide as Hc; [|done]. apply IH. by eapply step_ok.
Qed.

Lemma complete_next s : active s = true → complete s = true ↔ next_subject s = None.
Proof.
  intros Ha. unfold complete, next_subject. rewrite Ha. cbn [andb]. rewrite forallb_forall. split.
  - intros Hall. rewrite fmap_None. destruct (filter _ _) as [|p l] eqn:E; [done|]. exfalso.
    assert (Hp : p ∈ filter (λ q, pt_node q ∉ uc_upgraded s) (uc_order s)) by (rewrite E; by left).
    apply list_elem_of_filter in Hp as [Hn Hp]. apply list_elem_of_In, Hall, bool_decide_eq_true in Hp. done.
  - intros Hn p Hp%list_elem_of_In. apply bool_decide_eq_true. destruct (decide (pt_node p ∈ uc_upgraded s)); [done|]. exfalso.
    assert (Hf : p ∈ filter (λ q, pt_node q ∉ uc_upgraded s) (uc_order s)) by (by apply list_elem_of_filter).
    apply fmap_None in Hn. destruct (filter _ _); [by apply elem_of_nil in Hf|done].
Qed.

(** A gate that opens for a participant opens its turn. *)
Lemma gate_go_turn s a release :
  rollout_ok s → evaluate_upgrade_gate s a release = GateGo →
  active s = true ∧ uc_halted s = false ∧
  (uc_in_turn s = Some a ∧ next_subject s = Some a ∨ participant s a = false ∧ uc_in_turn s ≠ Some a ∧ next_subject s = None).
Proof.
  intros Hs. unfold evaluate_upgrade_gate. destruct (_ || _) eqn:E1; [done|]. bool_to_prop. destruct (uc_halted s); [done|].
  destruct (bool_decide (a ∈ _)); [done|]. case_bool_decide as Et.
  { intros _. split_and!; try done. left. split; [done|]. by apply (ro_turn s Hs). }
  destruct (participant s a); [done|]. cbn [negb]. destruct (complete s) eqn:Ec; [|done]. intros _. split_and!; try done.
  right. split_and!; try done. by apply complete_next.
Qed.

Lemma tier1_stays (t2 t1 before : list UpgradeParticipant) x rest :
  Forall (λ p, pt_tier1 p = false) t2 → Forall (λ p, pt_tier1 p = true) t1 → t2 ++ t1 = before ++ x :: rest →
  pt_tier1 x = true → Forall (λ p, pt_tier1 p = true) rest.
Proof.
  intros H2 H1. revert before. induction H2 as [|y t2 Hy H2 IH]; intros before E Hx; cbn [app] in E.
  - rewrite E in H1. apply Forall_app in H1 as [_ H1]. by apply Forall_cons in H1 as [_ H1].
  - destruct before as [|z before]; cbn [app] in E; injection E as E0 E; [congruence|]. by eapply IH.
Qed.

(** C9: Servers restart one at a time and in order: after any accepted chain of
    records, when the gate of a participant opens, every server before it in the
    order is upgraded and no server behind it is, no other server's gate is open,
    and a Tier 1 server's gate opens only when every Tier 2 server is upgraded. *)
Theorem one_server_restarts_at_a_time steps s a release :
  run_records no_rollout steps = Some s → participant s a = true → evaluate_upgrade_gate s a release = GateGo →
  ∃ before t after,
    uc_order s = before ++ mkParticipant a t :: after ∧ uc_upgraded s = list_to_set (pt_node <$> before) ∧
    (∀ b release', evaluate_upgrade_gate s b release' = GateGo → b = a) ∧
    (t = true → ∀ p, p ∈ uc_order s → pt_tier1 p = false → pt_node p ∈ uc_upgraded s).
Proof.
  intros Hrun Hp Hgate. pose proof (run_ok _ _ _ no_rollout_ok Hrun) as Hs.
  destruct (gate_go_turn s a release Hs Hgate) as (Hact & Hhalt & [[Hturn Hnext]|[Hpa _]]); [|congruence].
  destruct (ro_prefix s Hs) as (before & after & E1 & E2). pose proof (ro_order s Hs) as Ho. rewrite E1 in Ho.
  destruct (take_prefix_next s before after a Ho E1 E2 Hnext) as (t & rest & ->). exists before, t, rest.
  split_and!; [done|done| |].
  - intros b release' Hb. destruct (gate_go_turn s b release' Hs Hb) as (_ & _ & [[Hb' _]|(_ & _ & Hn)]); congruence.
  - intros ->. destruct (or_tiers _ Ho) as (t2 & t1 & Et & H2 & H1). intros p Hin Hp2.
    rewrite E1 in Hin. rewrite E2. apply elem_of_list_to_set, list_elem_of_fmap_2.
    apply elem_of_app in Hin as [Hin|[->|Hin]%elem_of_cons]; [done|done|]. exfalso.
    pose proof (tier1_stays t2 t1 before _ rest H2 H1 (eq_sym Et) eq_refl) as Hall. rewrite Forall_forall in Hall.
    apply Hall in Hin. congruence.
Qed.

(** ** Finality *)

(** What a later state keeps of an earlier one. *)
Record follows (s s' : UpgradeChainState) : Prop := {
  fo_release : uc_release_number s <= uc_release_number s';
  fo_order : uc_release_number s' = uc_release_number s → uc_order s' = uc_order s;
  fo_upgraded : uc_release_number s' = uc_release_number s → uc_upgraded s ⊆ uc_upgraded s';
  fo_halted : uc_release_number s' = uc_release_number s → uc_halted s = true →
    uc_halted s' = true ∧ uc_upgraded s' = uc_upgraded s;
}.

Lemma follows_trans s1 s2 s3 : follows s1 s2 → follows s2 s3 → follows s1 s3.
Proof.
  intros [A1 A2 A3 A4] [B1 B2 B3 B4].
  split; [lia|..]; intros E; assert (E2 : uc_release_number s2 = uc_release_number s1) by lia;
    assert (E3 : uc_release_number s3 = uc_release_number s2) by lia.
  - rewrite B2, A2; done.
  - etrans; [by apply A3|by apply B3].
  - intros Hh. destruct (A4 E2 Hh) as [H1 H2]. destruct (B4 E3 H1) as [H3 H4]. split; [done|]. by rewrite H4.
Qed.

Lemma step_follows s r w b : check_upgrade_record s r w b = UrNone → follows s (apply_upgrade_record s r).
Proof.
  intros [_ Hc]%accepted_event. unfold apply_upgrade_record. destruct (ur_event r).
  - destruct Hc as (Hr & _). split; cbn; lia.
  - destruct Hc as (Hn & _). split; cbn; [lia|done|done|by rewrite Hn].
  - destruct Hc as (Hn & _). split; cbn; [lia|done|set_solver|by rewrite Hn].
  - destruct Hc as (Hn & _). split; cbn; [lia|done|done|done].
Qed.

Lemma run_follows steps s s' : run_records s steps = Some s' → follows s s'.
Proof.
  revert s. induction steps as [|[[r w] b] steps IH]; intros s; cbn [run_records]; [intros [= <-]; split; try done; lia|].
  case_bool_decide as Hc; [|done]. intros Hr. eapply follows_trans; [by eapply step_follows|by apply IH].
Qed.

Lemma complete_spec s : complete s = true ↔ active s = true ∧ ∀ p, p ∈ uc_order s → pt_node p ∈ uc_upgraded s.
Proof.
  unfold complete. rewrite andb_true_iff, forallb_forall. split; intros [Ha Hall]; split; try done.
  - intros p Hp. by apply list_elem_of_In, Hall, bool_decide_eq_true in Hp.
  - intros p Hp%list_elem_of_In. by apply bool_decide_eq_true, Hall.
Qed.

(** A rollout that is complete or halted stays so: after more records the
    release number is no lower, and while it is the same, the order is the same,
    no server loses its upgrade, a complete rollout is complete and not halted,
    and a halted one is halted, with the same servers upgraded and not complete. *)
Theorem rollout_outcome_is_final earlier later s s' :
  run_records no_rollout earlier = Some s → run_records s later = Some s' →
  uc_release_number s <= uc_release_number s' ∧
  (uc_release_number s' = uc_release_number s →
     uc_order s' = uc_order s ∧ uc_upgraded s ⊆ uc_upgraded s' ∧
     (complete s = true → complete s' = true ∧ uc_halted s' = false) ∧
     (uc_halted s = true → uc_halted s' = true ∧ uc_upgraded s' = uc_upgraded s ∧ complete s' = false)).
Proof.
  intros H1 H2. pose proof (run_ok _ _ _ no_rollout_ok H1) as Hs. pose proof (run_ok _ _ _ Hs H2) as Hs'.
  destruct (run_follows _ _ _ H2) as [F1 F2 F3 F4]. split; [done|]. intros E. specialize (F2 E). specialize (F3 E).
  assert (Hex : complete s' = true → uc_halted s' = true → False).
  { intros Hc Hh. destruct (ro_halted s' Hs' Hh) as [n Hn]. apply complete_next in Hc as Hc'; [congruence|].
    by apply complete_spec in Hc as [Hc _]. }
  split_and!; [done|done| |].
  - intros Hc. assert (Hc' : complete s' = true).
    { apply complete_spec in Hc as [Ha Hall]. apply complete_spec. split; [unfold active in *; by rewrite E|].
      intros p. rewrite F2. intros Hp. by apply F3, Hall. }
    split; [done|]. destruct (uc_halted s') eqn:Eh; [|done]. by destruct (Hex Hc').
  - intros Hh. destruct (F4 E Hh) as [G1 G2]. split_and!; [done|done|]. destruct (complete s') eqn:Ec; [|done].
    by destruct (Hex eq_refl).
Qed.

(** ** Witnesses *)

(** An observation that counts for the record [r] in the state [s]. *)
Record counts_for (s : UpgradeChainState) (r : UpgradeRecord) (w : UpgradeWitnessSet) (o : UpgradeObservation) : Prop := {
  cf_member : uo_witness o ∈ uw_members w;
  cf_other : uo_witness o ≠ ur_subject r;
  cf_network : uo_network_id o = ur_network_id r;
  cf_release : uo_release_number o = ur_release_number r;
  cf_subject : uo_subject o = ur_subject r;
  cf_head : uo_chain_head o = uc_head s;
  cf_signed : verify_upgrade_observation o = true;
}.

Lemma see_observations_spec s r w seen os seen' :
  see_observations s r w seen os = Some seen' →
  seen' = list_to_set (uo_witness <$> os) ∪ seen ∧ ∀ o, o ∈ os → counts_for s r w o.
Proof.
  revert seen. induction os as [|o os IH]; intros seen; cbn [see_observations].
  { intros [= <-]. split; [set_solver|]. by intros o ?%elem_of_nil. }
  unfold see_observation. destruct (_ || _) eqn:E; [done|]. cbn [mbind option_bind]. intros [-> Hos]%IH. bool_to_prop.
  split; [cbn; set_solver|]. intros o' [->|Ho]%elem_of_cons; [by split|by apply Hos].
Qed.

Lemma check_upgraded_spec s r w :
  check_upgraded s r w = UrNone →
  ∃ ws, w = Some ws ∧ (∀ o, o ∈ ur_observations r → counts_for s r ws o) ∧
    let seen : gset Z := list_to_set (uo_witness <$> ur_observations r) in
    seen ≠ ∅ ∧
    witness_threshold (established_fact_context (uw_network_id ws) (uw_epoch ws) (uw_members ws)) (ur_subject r) <= Z.of_nat (size seen).
Proof.
  unfold check_upgraded. cbv zeta. destruct (negb _ && _); [done|]. destruct w as [ws|]; [|done]. destruct (_ || _); [done|].
  destruct (see_observations s r ws ∅ (ur_observations r)) as [seen|] eqn:E; [|done].
  apply see_observations_spec in E as [-> Hos]. rewrite union_empty_r_L. destruct (_ || _) eqn:Eb; [done|]. intros _.
  bool_to_prop. exists ws. done.
Qed.

(** More witnesses than there may be faulty members. *)
Lemma threshold_beats_faults network epoch members subject :
  members ≠ [] →
  max_byzantine_faults (Z.of_nat (length members)) < witness_threshold (established_fact_context network epoch members) subject.
Proof.
  intros Hne. assert (Hl : 0 < Z.of_nat (length members)) by (destruct members; [done|cbn; lia]).
  pose proof (max_byzantine_faults_bound _ Hl). unfold witness_threshold, established_fact_context. cbn [mc_observers mc_quorum].
  destruct (negb _); [unfold consensus_quorum; lia|]. unfold std_max. destruct (Z.ltb_spec (if 0 <? consensus_quorum (Z.of_nat (length members)) then consensus_quorum (Z.of_nat (length members)) - 1 else 0) (max_byzantine_faults (Z.of_nat (length members)) + 1)); lia.
Qed.

(** At most a third of the members that judge a record are faulty. *)
Definition mostly_correct (faulty : gset Z) (members : list NodeId) : Prop :=
  Z.of_nat (size (faulty ∩ list_to_set members)) <= max_byzantine_faults (Z.of_nat (length members)).

Lemma honest_observation s r w faulty :
  check_upgraded s r (Some w) = UrNone → mostly_correct faulty (uw_members w) →
  ∃ o, o ∈ ur_observations r ∧ uo_witness o ∉ faulty ∧ counts_for s r w o.
Proof.
  intros Hc Hf. unfold mostly_correct in Hf. destruct (check_upgraded_spec _ _ _ Hc) as (ws & [= <-] & Hos & Hne & Hth).
  set (seen := list_to_set (uo_witness <$> ur_observations r) : gset Z) in *.
  assert (Hsub : seen ⊆ list_to_set (uw_members w)).
  { intros n (o & -> & Ho)%elem_of_list_to_set%list_elem_of_fmap. by apply elem_of_list_to_set, (cf_member s r w), Hos. }
  assert (Hm : uw_members w ≠ []) by (intros Hm; apply Hne; rewrite Hm in Hsub; set_solver).
  pose proof (threshold_beats_faults (uw_network_id w) (uw_epoch w) (uw_members w) (ur_subject r) Hm).
  destruct (decide (seen ⊆ faulty)) as [Hall|Hsome].
  - exfalso. assert (size seen ≤ size (faulty ∩ list_to_set (uw_members w)))%nat by (apply subseteq_size, intersection_greatest; done). lia.
  - assert (Hx : ∃ n, n ∈ seen ∧ n ∉ faulty).
    { destruct (set_choose_or_empty (seen ∖ faulty)) as [[n Hn]|He]; [exists n; by apply elem_of_difference|].
      exfalso. apply Hsome. intros x Hx. destruct (decide (x ∈ faulty)) as [|Hxf]; [done|].
      assert (Hd : x ∈ seen ∖ faulty) by (by apply elem_of_difference). rewrite He in Hd. by apply elem_of_empty in Hd. }
    destruct Hx as (n & (o & -> & Ho)%elem_of_list_to_set%list_elem_of_fmap & Hn). exists o. split_and!; [done|done|by apply Hos].
Qed.

(** The step that upgraded [n]: a correct member saw it run the release. *)
Definition witnessed (faulty : gset Z) (n : NodeId) (release : Z) (step : JudgedRecord) : Prop :=
  ∃ r w as_base o, step = (r, Some w, as_base) ∧ ur_event r = EvUpgraded ∧ ur_subject r = n ∧ ur_release_number r = release ∧
    o ∈ ur_observations r ∧ uo_witness o ∈ uw_members w ∧ uo_witness o ∉ faulty ∧ uo_witness o ≠ n ∧ uo_subject o = n ∧
    uo_release_number o = release ∧ verify_upgrade_observation o = true.

Definition judged_correctly (faulty : gset Z) (step : JudgedRecord) : Prop :=
  ∀ r w as_base, step = (r, Some w, as_base) → mostly_correct faulty (uw_members w).

Definition all_witnessed (faulty : gset Z) (past : list JudgedRecord) (s : UpgradeChainState) : Prop :=
  ∀ n, n ∈ uc_upgraded s → ∃ step, step ∈ past ∧ witnessed faulty n (uc_release_number s) step.

Lemma step_witnessed faulty past s r w b :
  check_upgrade_record s r w b = UrNone → judged_correctly faulty (r, w, b) → all_witnessed faulty past s →
  all_witnessed faulty (past ++ [(r, w, b)]) (apply_upgrade_record s r).
Proof.
  intros Hc Hj Hall n Hn. apply accepted_event in Hc as [_ Hc]. unfold apply_upgrade_record in *.
  assert (Hold : ∀ n, n ∈ uc_upgraded s → ∃ step, step ∈ past ++ [(r, w, b)] ∧ witnessed faulty n (uc_release_number s) step).
  { intros m (step & Hs & Hw)%Hall. exists step. split; [apply elem_of_app; by left|done]. }
  destruct (ur_event r) eqn:Ev; cbn [uc_upgraded uc_release_number] in *; [by apply elem_of_empty in Hn|by apply Hold| |by apply Hold].
  apply elem_of_union in Hn as [->%elem_of_singleton|Hn]; [|by apply Hold].
  destruct Hc as (_ & Hrel & _ & Hc). destruct (check_upgraded_spec _ _ _ Hc) as (ws & -> & _).
  destruct (honest_observation s r ws faulty Hc (Hj r ws b eq_refl)) as (o & Ho & Hf & [C1 C2 C3 C4 C5 C6 C7]).
  exists (r, Some ws, b). split; [apply elem_of_app; right; by left|]. exists r, ws, b, o. split_and!; congruence || done.
Qed.

Lemma run_witnessed faulty past steps s s' :
  run_records s steps = Some s' → (∀ step, step ∈ steps → judged_correctly faulty step) → all_witnessed faulty past s →
  all_witnessed faulty (past ++ steps) s'.
Proof.
  revert past s. induction steps as [|[[r w] b] steps IH]; intros past s; cbn [run_records].
  { intros [= <-] _ Hall. by rewrite app_nil_r. }
  case_bool_decide as Hc; [|done]. intros Hr Hj Hall.
  rewrite cons_middle, app_assoc. eapply IH; [exact Hr|intros step Hs; apply Hj; by right|].
  eapply step_witnessed; [done|apply Hj; by left|done].
Qed.

(** A server counts as upgraded only when a correct witness saw it: over any
    accepted chain of records in which at most a third of the members that judge
    a record are faulty, every server in the set of upgraded ones has an Upgraded
    record of the current release with the verified observation of a correct
    member, other than itself, of this server and this release. *)
Theorem upgraded_was_witnessed faulty steps s n :
  run_records no_rollout steps = Some s → (∀ step, step ∈ steps → judged_correctly faulty step) →
  n ∈ uc_upgraded s → ∃ step, step ∈ steps ∧ witnessed faulty n (uc_release_number s) step.
Proof.
  intros Hrun Hj Hn. refine (run_witnessed faulty [] steps no_rollout s Hrun Hj _ n Hn).
  by intros m ?%elem_of_empty.
Qed.

(** ** Proofs of a rollout *)

(** A message of the proof whose record was finalized under a trusted authority. *)
Record finalized_under (proof : RolloutMessages) (network : NetworkId) (step : JudgedRecord) (message : UpgradeMsg)
    (commit : CommitProof) (judge : VerifiedEpochAuthority) : Prop := {
  fu_message : Some message ∈ rm_records proof;
  fu_record : decode_upgrade_record (um_body message) = Some step.1.1;
  fu_witnesses : step.1.2 = Some (mkWitnessSet network (au_epoch judge) (au_members judge));
  fu_proof : um_proof message = Some commit;
  fu_trusted : trusted (rm_genesis_public_key proof) judge;
  fu_committed : verify_commit_proof (block_payload_digest (mkPayload ConsensusTypes.UpgradeProgress (um_body message))) commit
    (mkContext kConsensusRulesetVersion network (au_epoch judge) (au_consensus_quorum judge)) (au_vote_keys judge) = CpNone;
}.

Definition all_trusted (genesis : Ed25519PublicKey) (authorities : gmap Z VerifiedEpochAuthority) : Prop :=
  ∀ e a, authorities !! e = Some a → trusted genesis a ∧ au_epoch a = e.

Lemma emplace_trusted genesis a m : trusted genesis a → all_trusted genesis m → all_trusted genesis (emplace_authority a m).
Proof.
  intros Ha Hm. unfold emplace_authority. destruct (m !! au_epoch a) eqn:E; [done|].
  intros e a' [[<- <-]|[_ Hl]]%lookup_insert_Some; [done|by apply Hm].
Qed.

Lemma verify_links_trusted genesis links a m a' m' :
  trusted genesis a → all_trusted genesis m → verify_links a m links = Some (a', m') → all_trusted genesis m'.
Proof.
  revert a m. induction links as [|link links IH]; intros a m Ha Hm; cbn [verify_links]; [by intros [= <- <-]|].
  destruct link as [link|]; [|done]. cbn [mbind option_bind].
  destruct (advance_epoch_authority a (hp_handoff link) (hp_proof link)) as [next|] eqn:E; [|done].
  assert (Hn : trusted genesis next) by (by eapply trusted_link). apply IH; [done|by apply emplace_trusted].
Qed.

Lemma verify_record_step proof network authorities first message s s' :
  all_trusted (rm_genesis_public_key proof) authorities → message ∈ rm_records proof →
  verify_record network authorities first message s = Some s' →
  ∃ step m commit judge, run_records s [step] = Some s' ∧ finalized_under proof network step m commit judge.
Proof.
  intros Ht Hin. unfold verify_record. destruct message as [m|]; [|done]. cbn [mbind option_bind].
  destruct (negb _); [done|]. destruct (um_proof m) as [commit|] eqn:Ep; [|done]. cbn [mbind option_bind].
  destruct (cp_chain commit) as [|b0 rest]; [done|]. destruct (decode_upgrade_record (um_body m)) as [r|] eqn:Er; [|done].
  cbn [mbind option_bind]. destruct (negb _); [done|]. destruct (authorities !! _) as [judge|] eqn:Ej; [|done]. cbn [mbind option_bind].
  destruct (Ht _ _ Ej) as [Htr Hep]. rewrite <-Hep.
  destruct (negb (bool_decide (verify_commit_proof _ _ _ _ = CpNone))) eqn:E1; [done|].
  destruct (first && _); [done|]. destruct (negb first && _); [done|].
  destruct (negb (bool_decide (check_upgrade_record _ _ _ _ = UrNone))) eqn:E2; [done|]. intros [= <-].
  apply negb_false_iff, bool_decide_eq_true in E1. apply negb_false_iff, bool_decide_eq_true in E2.
  exists (r, Some (mkWitnessSet network (au_epoch judge) (au_members judge)), first), m, commit, judge.
  split; [cbn [run_records]; by rewrite bool_decide_eq_true_2|by split].
Qed.

Lemma run_records_app steps steps' s s1 :
  run_records s steps = Some s1 → run_records s (steps ++ steps') = run_records s1 steps'.
Proof.
  revert s. induction steps as [|[[r w] b] steps IH]; intros s; cbn [run_records app]; [by intros [= <-]|].
  case_bool_decide; [|done]. apply IH.
Qed.

Lemma verify_records_run proof network authorities first records s s' :
  all_trusted (rm_genesis_public_key proof) authorities → (∀ m, m ∈ records → m ∈ rm_records proof) →
  verify_records network authorities first records s = Some s' →
  ∃ steps, run_records s steps = Some s' ∧
    ∀ step, step ∈ steps → ∃ m commit judge, finalized_under proof network step m commit judge.
Proof.
  intros Ht. revert first s. induction records as [|m records IH]; intros first s Hin; cbn [verify_records].
  { intros [= <-]. exists []. split; [done|]. by intros step ?%elem_of_nil. }
  destruct (verify_record network authorities first m s) as [s1|] eqn:E; [|done]. cbn [mbind option_bind]. intros Hr.
  destruct (verify_record_step proof network authorities first m s s1 Ht (Hin m ltac:(left)) E) as (step & msg & commit & judge & H1 & H2).
  destruct (IH false s1 ltac:(intros x Hx; apply Hin; by right) Hr) as (steps & H3 & H4). exists ([step] ++ steps).
  split; [by rewrite (run_records_app _ _ _ _ H1)|]. intros step' [->|Hs]%elem_of_cons; [eauto|by apply H4].
Qed.

Lemma epoch_one_network certificate genesis keys a :
  verify_epoch_one_authority certificate genesis keys = Some a → au_network_id a = bc_network_id certificate.
Proof.
  unfold verify_epoch_one_authority. destruct (negb _); [done|]. destruct (_ || _); [done|]. cbv zeta.
  destruct (from_nodes _); [|done]. destruct (_ || _); [done|]. destruct (negb _); [done|]. by intros [= <-].
Qed.

Lemma verify_rollout_run proof network v :
  verify_rollout_proof proof network = Some v →
  ∃ steps, run_records no_rollout steps = Some (vr_state v) ∧
    ∀ step, step ∈ steps → ∃ m commit judge, finalized_under proof network step m commit judge.
Proof.
  unfold verify_rollout_proof. destruct (Z.eqb_spec (derive_network_id (rm_genesis_public_key proof) kSecurityRulesetVersion
    kConsensusRulesetVersion) network) as [Hn|]; [|done]. cbn [negb].
  destruct (rm_base proof) as [page|]; [|done]. cbn [mbind option_bind]. destruct (pg_base page) as [[certificate keys]|]; [|done].
  cbn [mbind option_bind]. destruct (verify_epoch_one_authority _ _ _) as [a|] eqn:Ea; [|done]. cbn [mbind option_bind].
  destruct (Z.eqb_spec (au_network_id a) network) as [Han|]; [|done]. cbn [negb].
  assert (Ht : trusted (rm_genesis_public_key proof) a).
  { eapply trusted_base; [|exact Ea]. rewrite <-(epoch_one_network _ _ _ _ Ea). congruence. }
  destruct (verify_links _ _ _) as [[a' m]|] eqn:El; [|done]. cbn [mbind option_bind].
  apply (verify_links_trusted _ _ _ _ _ _ Ht) in El; [|apply emplace_trusted; [done|by intros e b ?%lookup_empty_Some]].
  destruct (verify_records _ _ _ _ _) as [s|] eqn:Er; [|done]. cbn [mbind option_bind]. intros [= <-].
  by apply (verify_records_run proof) in Er.
Qed.

(** C16: A proof of a completed rollout is sound: when a proof verifies for the
    network and shows the release complete, then for every server in the order
    the proof holds an Upgraded record of this release, finalized by a commit
    proof under an authority that descends from Genesis, with the verified
    observation of this server by a member of that authority that is not faulty,
    when at most a third of each authority's members are. *)
Theorem proved_completion_is_witnessed faulty proof network v release p :
  verify_rollout_proof proof network = Some v → rollout_complete v release = true →
  (∀ a, trusted (rm_genesis_public_key proof) a → mostly_correct faulty (au_members a)) →
  p ∈ uc_order (vr_state v) →
  ∃ record as_base message commit judge o,
    finalized_under proof network (record, Some (mkWitnessSet network (au_epoch judge) (au_members judge)), as_base) message commit judge ∧
    ur_event record = EvUpgraded ∧ ur_subject record = pt_node p ∧ ur_release_number record = release ∧
    o ∈ ur_observations record ∧ uo_witness o ∈ au_members judge ∧ uo_witness o ∉ faulty ∧
    uo_subject o = pt_node p ∧ uo_release_number o = release ∧ verify_upgrade_observation o = true.
Proof.
  intros Hv Hc Hf Hp. destruct (verify_rollout_run _ _ _ Hv) as (steps & Hrun & Hfin).
  unfold rollout_complete in Hc. destruct (negb _); [done|]. destruct (Z.eqb_spec (uc_release_number (vr_state v)) release) as [Hr|]; [|done].
  cbn [negb] in Hc. destruct (uc_halted _); [done|]. apply complete_spec in Hc as [_ Hall].
  destruct (run_witnessed faulty [] steps no_rollout (vr_state v) Hrun) with (n := pt_node p)
    as (step & Hs & (r & w & b & o & -> & E1 & E2 & E3 & E4 & E5 & E6 & E7 & E8 & E9 & E10)).
  - intros step Hs r w b ->. destruct (Hfin _ Hs) as (m & commit & judge & [_ _ Hw _ Ht _]). cbn in Hw. injection Hw as ->. by apply Hf.
  - by intros m ?%elem_of_empty.
  - by apply Hall.
  - destruct (Hfin _ Hs) as (m & commit & judge & Hfu). pose proof (fu_witnesses _ _ _ _ _ _ Hfu) as Hw. cbn in Hw. injection Hw as ->.
    exists r, b, m, commit, judge, o. rewrite <-Hr. by split_and!.
Qed.
End rollout.

(** ** A rollout of two servers *)

Module TwoServers.
#[export] Existing Instance TwoEpochs.sodium.

Definition start : UpgradeRecord :=
  mkUpgradeRecord 1 0 1 0 EvStart 3 9 [mkParticipant 8 false; mkParticipant 4 true] 0 None [].
Definition ready (node : NodeId) : UpgradeStatus := mkStatus 0 node 2 3 3 kUpgradeStatusReady 100 0.
Definition turn (sequence : Z) (node : NodeId) : UpgradeRecord :=
  mkUpgradeRecord 1 0 sequence 0 EvTurn 3 0 [] node (Some (ready node)) [].
Definition seen_by (node witness : NodeId) : UpgradeObservation := mkUpgradeObservation 0 3 node 0 witness 5 0.
Definition upgraded (sequence : Z) (node : NodeId) (witnesses : list NodeId) : UpgradeRecord :=
  mkUpgradeRecord 1 0 sequence 0 EvUpgraded 3 0 [] node None (seen_by node <$> witnesses).
Definition judges : UpgradeWitnessSet := mkWitnessSet 0 1 [1; 2; 3; 4; 5].

(** The turn of the Tier 1 server 4 is open. *)
Definition half_way : list JudgedRecord :=
  [(start, Some judges, true); (turn 2 8, Some judges, false); (upgraded 3 8 [1; 2; 3; 4], Some judges, false);
   (turn 4 4, Some judges, false)].
Definition half_state : UpgradeChainState := default no_rollout (run_records no_rollout half_way).
Definition last_step : list JudgedRecord := [(upgraded 5 4 [1; 2; 3], Some judges, false)].
Definition done_state : UpgradeChainState := default no_rollout (run_records half_state last_step).

Definition message (r : UpgradeRecord) : option UpgradeMsg :=
  Some (mkUpgradeMsg RecordProof (encode_upgrade_record r) (Some TwoEpochs.proof)).
Definition proof : RolloutMessages :=
  mkRolloutMessages 7 (Some (mkPage (Some (TwoEpochs.certificate, TwoEpochs.founders)) [])) []
    (message <$> [start; turn 2 8; upgraded 3 8 [1; 2; 3; 4]; turn 4 4; upgraded 5 4 [1; 2; 3]]).
Definition proved : VerifiedRollout := default (mkVerifiedRollout no_rollout 0 0 0) (verify_rollout_proof proof 0).
End TwoServers.

Section applications.
Import TwoServers.

Lemma half_way_runs : run_records no_rollout half_way = Some half_state.
Proof. vm_compute. reflexivity. Qed.

Lemma last_step_runs : run_records half_state last_step = Some done_state.
Proof. vm_compute. reflexivity. Qed.

Lemma proof_verifies : verify_rollout_proof TwoServers.proof 0 = Some proved.
Proof. vm_compute. reflexivity. Qed.

Lemma upgrade_record_canonical_witness : decode_upgrade_record (encode_upgrade_record start) = Some start.
Proof.
  apply upgrade_record_canonical.
  - apply (bool_decide_unpack (Forall (λ b, 0 <= b < 256) (encode_upgrade_record start))). vm_compute. exact I.
  - split; [|reflexivity]. split; cbn [start ur_version ur_network_id ur_sequence ur_previous ur_release_number ur_approval_digest
      ur_order ur_subject ur_status ur_observations length]; try (split; [lia|reflexivity]).
    + reflexivity.
    + vm_compute. discriminate.
    + repeat constructor; cbn; (lia || reflexivity).
    + intros s Hs. discriminate Hs.
    + vm_compute. discriminate.
    + constructor.
Defined.

Lemma one_server_restarts_at_a_time_witness :
  evaluate_upgrade_gate half_state 4 3 = GateGo ∧ ∀ b release', evaluate_upgrade_gate half_state b release' = GateGo → b = 4.
Proof.
  split; [vm_compute; reflexivity|].
  destruct (one_server_restarts_at_a_time half_way half_state 4 3 half_way_runs) as (before & t & after & _ & _ & Hone & _);
    [vm_compute; reflexivity|vm_compute; reflexivity|exact Hone].
Defined.

Lemma rollout_outcome_is_final_witness : uc_upgraded half_state ⊆ uc_upgraded done_state ∧ complete done_state = true.
Proof.
  destruct (rollout_outcome_is_final half_way last_step half_state done_state half_way_runs last_step_runs) as [_ H].
  split; [|vm_compute; reflexivity]. apply H. vm_compute. reflexivity.
Defined.

Lemma upgraded_was_witnessed_witness : ∃ step, step ∈ half_way ∧ witnessed {[ 2 ]} 8 3 step.
Proof.
  apply (upgraded_was_witnessed {[ 2 ]} half_way half_state 8 half_way_runs).
  - intros step Hs r w b ->. assert (Hw : w = judges).
    { unfold half_way in Hs. rewrite !elem_of_cons, elem_of_nil in Hs. destruct Hs as [[= _ -> _]|[[= _ -> _]|[[= _ -> _]|[[= _ -> _]|[]]]]]; reflexivity. }
    subst w. vm_compute. discriminate.
  - apply (bool_decide_unpack (8 ∈ uc_upgraded half_state)). vm_compute. exact I.
Defined.

Lemma proved_completion_is_witnessed_witness :
  ∃ record as_base message commit judge,
    finalized_under TwoServers.proof 0 (record, Some (mkWitnessSet 0 (au_epoch judge) (au_members judge)), as_base) message commit judge ∧
    ur_subject record = 4.
Proof.
  destruct (proved_completion_is_witnessed ∅ TwoServers.proof 0 proved 3 (mkParticipant 4 true) proof_verifies)
    as (record & as_base & message & commit & judge & o & H1 & _ & H2 & _).
  - vm_compute. reflexivity.
  - intros a _. unfold mostly_correct. rewrite intersection_empty_l_L, size_empty. cbn.
    unfold max_byzantine_faults. destruct (Z.eqb_spec (Z.of_nat (length (au_members a))) 0); [lia|]. apply Z.div_pos; lia.
  - apply (bool_decide_unpack (mkParticipant 4 true ∈ uc_order (vr_state proved))). vm_compute. exact I.
  - exists record, as_base, message, commit, judge. split; [exact H1|exact H2].
Defined.
End applications.
