(* ===== verification/TreeConsensus.v ===== *)
(** * Tree operations through consensus

    Models [Tree/TreeConsensus.cpp]: the payload handler between the replica
    (HotStuff), the tree log (TreeLog), the pool of waiting operations (TreePool)
    and the served tree (PermissionTree). All of them live on one disk. Clock
    readings come from a list, so an operation that reads the clock twice may
    see two times. The hooks the owner sets are recorded as events; the epoch
    authorities the driver verified are an argument. A JSON type error that
    nothing catches is the result [None]. *)

From S2P Require Import Prelude SecurityPolicy CanonicalEncoding Json DurableWrite ConsensusTypes ConsensusRecords.
From S2P Require Import QuorumValidation EpochAuthority FileStorage EligibilityStore HotStuff TreeTypes LinkToken.
From S2P Require Import TreeRules TreeOps TreeValidation TreeCodec TreePool TreeLog NodeFiles PermissionTree TreeReplication.

Definition kMaintainIntervalMs : Z := 5000.
Definition kRootRequestIntervalMs : Z := 30000.
Definition kTreeBatchWireBudget : Z := 54000.
Definition kMaxReplicaHeldEntries : Z := 64.
Definition kMaxReplicaHeldBytes : Z := 8 * 1024 * 1024.
Definition kTreeBlockClockSkewMs : Z := 60000.

Definition kAwaitingMergeRefusal : string :=
  "tree writes are paused until the one-time tree merge commit is installed (docs/Tree-Merge-Ceremony.md); retry later".

Inductive ReplicaResult :=
  | ReplicaApplied | ReplicaDuplicate | ReplicaGap | ReplicaUnknownEpoch | ReplicaRefused | ReplicaHalted.

#[export] Instance replica_result_eq_dec : EqDecision ReplicaResult.
Proof. solve_decision. Defined.

Record TreeLogStatus := mkStatus {
  ts_healthy : bool;
  ts_awaiting_merge : bool;
  ts_pre_merge_nodes : Z;
  ts_halt_reason : string;
  ts_height : Z;
  ts_applied_height : Z;
  ts_root : Digest;
  ts_behind : bool;
  ts_held : Z;
  ts_last_refusal : string;
}.

#[export] Instance eta_status : Etable TreeLogStatus := λ s,
  mkStatus (ts_healthy s) (ts_awaiting_merge s) (ts_pre_merge_nodes s) (ts_halt_reason s) (ts_height s)
    (ts_applied_height s) (ts_root s) (ts_behind s) (ts_held s) (ts_last_refusal s).

Record TreeConsensusConfig := mkTreeConfig {
  tcc_self : NodeId;
  tcc_network_id : NetworkId;
  tcc_root_key : string;
  tcc_pool_limits : TreeOpPoolLimits;
  (** the root hook is set *)
  tcc_root_request : bool;
}.

Record TreeOpSubmitMsg := mkSubmit {
  sm_encoded_op : list Z;
  sm_signature : Ed25519Signature;
}.

(** Calls of the hooks and of waiting requests. *)
Inductive TreeEvent :=
  | TicketSettled (ticket : nat) (outcome : TreeOpOutcome)
  | Broadcast (message : TreeOpSubmitMsg)
  | NodesRemoved (nodes : list RemovedNode)
  | AccountsDeleted (accounts : list AccountDeletion)
  | EpochHint (epoch : EpochId)
  | EntryApplied
  | EntryAppended (height : Z)
  | RootRequested.

(** The handler, the served tree, the files of both and what goes on around
    them. *)
Record TreeServer := mkTreeServer {
  tc_log : TreeLog;
  tc_pool : TreeOpPool;
  tc_held : gmap Z TreeLogEntry;
  tc_halted : bool;
  tc_awaiting_merge : bool;
  tc_pre_merge_nodes : Z;
  tc_halt_reason : string;
  tc_members : list NodeId;
  tc_status : TreeLogStatus;
  tc_behind : bool;
  tc_last_maintain_ms : Z;
  tc_last_root_request_ms : Z;
  tc_tree : PermissionTree;
  tc_files : TreeFiles;
  tc_clock : list Z;
  tc_next_ticket : nat;
  tc_events : list TreeEvent;
}.

#[export] Instance eta_tree_server : Etable TreeServer := λ v,
  mkTreeServer (tc_log v) (tc_pool v) (tc_held v) (tc_halted v) (tc_awaiting_merge v) (tc_pre_merge_nodes v)
    (tc_halt_reason v) (tc_members v) (tc_status v) (tc_behind v) (tc_last_maintain_ms v)
    (tc_last_root_request_ms v) (tc_tree v) (tc_files v) (tc_clock v) (tc_next_ticket v) (tc_events v).

Record TreeOpAdmission := mkAdmission {
  ta_verdict : TreeOpVerdict;
  ta_ticket : option nat;
}.

Record ProposedPayload := mkProposed {
  pp_payload : BlockPayload;
  pp_previous_state_root : Digest;
  pp_proposed_state_root : Digest;
  pp_timestamp_hint : Z;
}.

Record CommittedPayload := mkCommittedPayload {
  cl_commit : ConsensusCommit;
  cl_proposal : Proposal;
  cl_payload : option BlockPayload;
  cl_proof : option CommitProof;
}.

Section consensus.
Context `{TextCodec, ValueCodec, HexCodec, FloatText, Sodium, SodiumMessages, NodeOrder, FloatRead}.
Context (config : TreeConsensusConfig) (data_root log_directory : string).
Context (sink : option (RetainedDelta → TreeFiles → bool * TreeFiles)).

#[local] Instance served_files : TreeStorage TreeFiles := tree_files data_root.

Implicit Types v : TreeServer.

(** ** Small steps *)

Definition emit (e : TreeEvent) v : TreeServer := v <| tc_events := tc_events v ++ [e] |>.

(** [config_.wall_clock_ms()]; readings are 64-bit. *)
Definition read_clock v : Z * TreeServer :=
  match tc_clock v with
  | [] => (0, v)
  | now :: rest => (now mod two64, v <| tc_clock := rest |>)
  end.

Definition on_log {A} (f : TreeLog → Disk → A * TreeLog * Disk) v : A * TreeServer :=
  let '(a, log, d) := f (tc_log v) (tf_disk (tc_files v)) in
  (a, v <| tc_log := log |> <| tc_files := (tc_files v) <| tf_disk := d |> |>).

Definition on_tree {A} (f : PermissionTree → TreeFiles → A * PermissionTree * TreeFiles) v : A * TreeServer :=
  let '(a, t, s) := f (tc_tree v) (tc_files v) in
  (a, v <| tc_tree := t |> <| tc_files := s |>).

Definition refresh_status v : TreeServer :=
  v <| tc_status := mkStatus (negb (tc_halted v)) (tc_awaiting_merge v) (tc_pre_merge_nodes v)
         (tc_halt_reason v) (tl_height (tc_log v)) (tl_applied_height (tc_log v))
         (ch_root (tl_state (tc_log v))) (tc_behind v) (Z.of_nat (size (tc_held v)))
         (ts_last_refusal (tc_status v)) |>.

Definition note_refusal (reason : string) v : TreeServer :=
  v <| tc_status := (tc_status v) <| ts_last_refusal := reason |> |>.

(** The first reason stays. *)
Definition halt (reason : string) v : TreeServer :=
  if tc_halted v && negb (is_empty (tc_halt_reason v)) && negb (String.eqb (tc_halt_reason v) "not started")
  then v
  else v <| tc_halted := true |> <| tc_halt_reason := reason |>
         <| tc_status := (tc_status v) <| ts_healthy := false |> <| ts_halt_reason := reason |> |>.

Definition healthy v : bool := negb (tc_halted v).

(** The pool's outcome goes to the waiting request. *)
Definition settle_op (id : string) (outcome : TreeOpOutcome) v : TreeServer :=
  let '(ticket, pool) := pool_settle (tcc_pool_limits config) id outcome (tc_pool v) in
  let v := v <| tc_pool := pool |> in
  match ticket with Some k => emit (TicketSettled k outcome) v | None => v end.

Definition set_members (members : list NodeId) v : TreeServer := v <| tc_members := members |>.

Definition is_member (node : NodeId) v : bool := existsb (Z.eqb node) (tc_members v).

Definition member_key (member : NodeId) : string := "ed25519:" +:+ to_base64 (be_bytes 32 member).

Definition policy_for (members : list NodeId) : TreeOpPolicy :=
  mkPolicy (tcc_network_id config) (member_key <$> members) (tcc_root_key config).

Definition refuse_op (id : string) (refusal : TreeOpRefusal) (reason : string) v : TreeServer :=
  settle_op id (mkOutcome OpRefused (Some (refusal, reason)) 0) v.

Definition revalidate_pool v : TreeServer :=
  if bool_decide (tc_members v = []) then v
  else
    let policy := policy_for (tc_members v) in
    let '(now, v) := read_clock v in
    foldl (λ v op,
      match validate_local_op op policy (now / 1000) (tc_tree v) with
      | Some verdict => settle_op (op_id_hex op) (mkOutcome OpRefused (Some verdict) 0) v
      | None => v
      end) v (pool_pending (tc_pool v)).

(** ** Starting and stopping *)

(** The served tree is made the log's. *)
Definition restore_tree (digest : Digest) v : bool * TreeServer :=
  let state := tl_state (tc_log v) in
  let '(replaced, v) := on_tree (replace_all (ch_nodes state) (ch_committed state)) v in
  (replaced && (tree_digest (tc_tree v) =? digest), v).

Definition running v : TreeServer := v <| tc_halted := false |> <| tc_halt_reason := "" |>.

Definition record_applied v : bool * TreeServer :=
  if tl_applied_height (tc_log v) =? tl_height (tc_log v) then (true, v)
  else on_log (λ log d, mark_applied log_directory (tl_height log) log d) v.

Definition finish_start v : bool * TreeServer :=
  let '(recorded, v) := record_applied v in
  if negb recorded then (false, halt "cannot record the applied tree log height" v)
  else (true, refresh_status (running v)).

Definition start v : bool * TreeServer :=
  let v := v <| tc_held := ∅ |> <| tc_behind := false |> <| tc_awaiting_merge := false |>
             <| tc_pre_merge_nodes := 0 |> in
  let current := pt_nodes (tc_tree v) in
  let '(opened, v) := on_log (log_open log_directory ∅) v in
  match opened with
  | OpenCorrupt => (false, halt "the tree log is corrupt" v)
  | OpenOk =>
      let log := tc_log v in
      if (tl_height log =? 0) && (ch_root (tl_state log) =? empty_base_root)
         && negb (bool_decide (current = ∅))
      then (true, refresh_status ((running v) <| tc_awaiting_merge := true |>
                                    <| tc_pre_merge_nodes := Z.of_nat (size current) |>))
      else if compute_tree_digest current =? compute_tree_digest (ch_nodes (tl_state log))
      then finish_start v
      else if tl_height log <=? tl_applied_height log
      then (false, halt "the persistent tree differs from the committed tree log" v)
      else
        let '(restored, v) := restore_tree (compute_tree_digest (ch_nodes (tl_state log))) v in
        if negb restored then (false, halt "the persistent tree cannot be restored from the tree log" v)
        else finish_start v
  end.

Definition deactivate (reason : string) v : TreeServer :=
  let v := v <| tc_halted := true |> <| tc_halt_reason := reason |> <| tc_awaiting_merge := false |>
             <| tc_pre_merge_nodes := 0 |> <| tc_behind := false |>
             <| tc_status := (tc_status v) <| ts_healthy := false |> <| ts_halt_reason := reason |>
                               <| ts_behind := false |> |>
             <| tc_held := ∅ |> in
  let v := foldl (λ v op, refuse_op (op_id_hex op) Unavailable reason v) v (pool_pending (tc_pool v)) in
  refresh_status (v <| tc_log := closed_log |>).

(** ** Submission *)

Definition refuse_admission (refusal : TreeOpRefusal) (reason : string) v : TreeOpAdmission * TreeServer :=
  (mkAdmission (Some (refusal, reason)) None, v).

Definition admit_op (sealed : TreeOp) (signature : Ed25519Signature) v : TreeOpAdmission * TreeServer :=
  let ticket := tc_next_ticket v in
  let v := v <| tc_next_ticket := S ticket |> in
  let '(admission, pool) := pool_add (tcc_pool_limits config) sealed (Some ticket) (tc_pool v) in
  let v := v <| tc_pool := pool |> in
  match admission with
  | Added => (mkAdmission None (Some ticket), emit (Broadcast (mkSubmit (encode_tree_op sealed) signature)) v)
  | Duplicate => refuse_admission Replayed "op already submitted" v
  | Full | AuthorLimit | PrincipalLimit =>
      refuse_admission Unavailable "the pending tree operation pool is full" v
  end.

Definition submit (sealed : TreeOp) v : TreeOpAdmission * TreeServer :=
  if tc_halted v then refuse_admission Unavailable ("tree log halted: " +:+ tc_halt_reason v) v
  else if tc_awaiting_merge v then refuse_admission Unavailable kAwaitingMergeRefusal v
  else if negb (is_member (tcc_self config) v)
  then refuse_admission Unavailable "this server is not a Tier 1 member; tree writes need a Tier 1 server" v
  else
    let '(now, v) := read_clock v in
    match validate_local_op sealed (policy_for (tc_members v)) (now / 1000) (tc_tree v) with
    | Some verdict => (mkAdmission (Some verdict) None, v)
    | None =>
        match tree_op_signature_bytes sealed with
        | None => refuse_admission BadSignature "op signature is not 64 bytes" v
        | Some signature => admit_op sealed signature v
        end
    end.

Definition receive_forwarded (message : TreeOpSubmitMsg) v : TreeServer :=
  if negb (healthy v) || tc_awaiting_merge v then v
  else match decode_tree_op (sm_encoded_op message) (sm_signature message) with
  | None => v
  | Some op =>
      if pool_contains (op_id_hex op) (tc_pool v) then v
      else if bool_decide (tc_members v = []) then v
      else
        let '(now, v) := read_clock v in
        match validate_local_op op (policy_for (tc_members v)) (now / 1000) (tc_tree v) with
        | Some _ => v
        | None => v <| tc_pool := (pool_add (tcc_pool_limits config) op None (tc_pool v)).2 |>
        end
  end.

Definition op_status (op_id : string) v : option TreeOpOutcome := pool_status op_id (tc_pool v).

(** ** Blocks *)

Section blocks.
Context {Cs : Type} (cfg : HotStuffConfig) (consensus : HotStuffService Cs).

(** The digests of the uncommitted tree blocks down from [cursor], the deepest
    first. Every turn goes to a stored parent, so the number of blocks bounds
    the turns. [None]: an ancestor is unknown. *)
Fixpoint uncommitted_blocks (fuel : nat) (cursor : Digest) (above : list Digest) : option (list Digest) :=
  if cursor =? genesis_digest cfg then Some above
  else match fuel, block consensus cursor with
  | S fuel, Some b =>
      if p_height b <=? last_committed_height_ consensus then Some above
      else
        let above := match block_payload consensus cursor with
                     | Some (mkPayload ConsensusTypes.TreeBatch _) => cursor :: above
                     | _ => above
                     end in
        uncommitted_blocks fuel (p_parent_digest b) above
  | _, _ => None
  end.

Fixpoint replay_blocks (digests : list Digest) (state : TreeChainState) : option TreeChainState :=
  match digests with
  | [] => Some state
  | d :: rest =>
      match block consensus d, block_payload consensus d with
      | Some b, Some payload =>
          if negb (p_previous_state_root b =? ch_root state) then None
          else match decode_tree_batch (bp_body payload) with
          | None => None
          | Some batch =>
              match apply_certified_batch batch (p_timestamp_hint b) (p_transitions_digest b) state with
              | inl _ => None
              | inr (next, _) =>
                  if negb (ch_root next =? p_proposed_state_root b) then None else replay_blocks rest next
              end
          end
      | _, _ => None
      end
  end.

Definition state_after (block_digest : Digest) v : option TreeChainState :=
  match uncommitted_blocks (S (size (blocks_ consensus))) block_digest [] with
  | None => None
  | Some digests => replay_blocks digests (tl_state (tc_log v))
  end.

(** [std::max({now, state->last_block_time_ms + 1, parent + 1})] *)
Definition next_block_time (now : Z) (state : TreeChainState) (parent : option Proposal) : Z :=
  Z.max now (Z.max (ch_last_block_time_ms state +64 1)
               (match parent with Some p => p_timestamp_hint p +64 1 | None => 0 end)).

Definition propose_from (state : TreeChainState) (parent : option Proposal) (now : Z) (candidates : list TreeOp)
    : option ProposedPayload :=
  let block_time := next_block_time now state parent in
  if now +64 kTreeBlockClockSkewMs <? block_time then None
  else
    let batch := se_batch (select_batch (policy_for (members cfg)) candidates block_time kMaxTreeBatchOps
                             kTreeBatchWireBudget state) in
    if bool_decide (batch = []) then None
    else match encode_tree_batch batch with
    | None => None
    | Some bytes =>
        let payload := mkPayload ConsensusTypes.TreeBatch bytes in
        match apply_certified_batch batch block_time (block_payload_digest payload) state with
        | inl _ => None
        | inr (next, _) => Some (mkProposed payload (ch_root state) (ch_root next) block_time)
        end
    end.

Definition propose v : option ProposedPayload * TreeServer :=
  if negb (healthy v) || tc_awaiting_merge v || tc_behind v || (pool_size (tc_pool v) =? 0) then (None, v)
  else
    let parent_digest := qc_proposal_digest (high_qc_ consensus) in
    match state_after parent_digest v with
    | None => (None, v)
    | Some state =>
        let '(now, v) := read_clock v in
        (propose_from state (block consensus parent_digest) now (pool_pending (tc_pool v)), v)
    end.

Definition block_time_ok (now block_time : Z) (parent : option Proposal) : bool :=
  negb ((now +64 kTreeBlockClockSkewMs <? block_time) || (block_time +64 kTreeBlockClockSkewMs <? now))
  && match parent with Some p => negb (block_time <=? p_timestamp_hint p) | None => true end.

Definition validate (proposal : Proposal) (payload : BlockPayload) v : bool * TreeServer :=
  match payload with
  | mkPayload ConsensusTypes.TreeBatch body =>
      if negb (healthy v) || tc_awaiting_merge v then (false, v)
      else match decode_tree_batch body with
      | None => (false, v)
      | Some batch =>
          let '(now, v) := read_clock v in
          let block_time := p_timestamp_hint proposal in
          if negb (block_time_ok now block_time (block consensus (p_parent_digest proposal))) then (false, v)
          else match state_after (p_parent_digest proposal) v with
          | None => (false, v)
          | Some state =>
              if negb (p_previous_state_root proposal =? ch_root state) then (false, v)
              else match check_batch (policy_for (members cfg)) batch block_time
                           (p_transitions_digest proposal) state with
              | inl _ => (false, v)
              | inr (next, _) => (ch_root next =? p_proposed_state_root proposal, v)
              end
          end
      end
  | _ => (false, v)
  end.
End blocks.

(** ** Commit, then apply *)

(** [apply_committed_ops] with its hooks; true: the tree followed. *)
Definition follow_block (ops : list TreeOp) (entry : TreeLogEntry) (digest : Digest) v : bool * TreeServer :=
  let '((verdict, notices), v) :=
    on_tree (λ t s, apply_committed_ops sink ops (lg_block_time_ms entry / 1000) t s) v in
  let v := if bool_decide (no_removed notices = []) then v else emit (NodesRemoved (no_removed notices)) v in
  let v := if bool_decide (no_accounts notices = []) then v else emit (AccountsDeleted (no_accounts notices)) v in
  (match verdict with None => tree_digest (tc_tree v) =? digest | Some _ => false end, v).

Definition follow_entry (entry : TreeLogEntry) (batch : option (list TreeOp)) (digest : Digest) v
    : bool * TreeServer :=
  let '(followed, v) := match batch with
                        | Some ops => follow_block ops entry digest v
                        | None => (false, v)
                        end in
  if followed then (true, v) else restore_tree digest v.

Definition merge_installed v : TreeServer := v <| tc_awaiting_merge := false |> <| tc_pre_merge_nodes := 0 |>.

Definition settle_batch (height : Z) (batch : option (list TreeOp)) v : TreeServer :=
  match batch with
  | Some ops => foldl (λ v op, settle_op (op_id_hex op) (mkOutcome OpCommitted None height) v) v ops
  | None => v
  end.

Definition after_commit (entry : TreeLogEntry) (batch : option (list TreeOp)) v : TreeServer :=
  let '(_, v) := on_log (mark_applied log_directory (lg_height entry)) v in
  let v := settle_batch (lg_height entry) batch v in
  let v := if bool_decide (lg_kind entry = EntryMerge) then merge_installed v else v in
  emit (EntryAppended (lg_height entry)) (refresh_status (emit EntryApplied (revalidate_pool v))).

(** [digest] is the tree digest the replay of the entry produced. *)
Definition commit_entry (entry : TreeLogEntry) (next : TreeChainState) (digest : Digest) v : bool * TreeServer :=
  let '(appended, v) := on_log (log_append log_directory entry next) v in
  if negb appended then (false, halt "cannot write the tree log" v)
  else
    let batch := if bool_decide (lg_kind entry = EntryBatch) then decode_tree_batch (lg_batch entry) else None in
    let '(followed, v) := follow_entry entry batch digest v in
    if negb followed then (false, halt "the persistent tree cannot follow the tree log" v)
    else (true, after_commit entry batch v).

(** The entry of a committed block, without its tree digest. *)
Definition committed_record (committed : CommittedPayload) : gmap string json :=
  let c := cl_commit committed in
  let fields :=
    [("epoch", JUnsigned (c_epoch c)); ("consensus_height", JUnsigned (c_height c));
     ("view", JUnsigned (c_view c)); ("proposal_digest", b64 32 (c_proposal_digest c));
     ("qc_digest", b64 32 (c_qc_digest c)); ("proposal", proposal_to_json (cl_proposal committed))] in
  match cl_proof committed with
  | Some proof => <[ "proof"%string := commit_proof_to_json proof ]> (list_to_map fields)
  | None => list_to_map fields
  end.

Definition committed_log_entry (committed : CommittedPayload) (body : list Z) (height : Z) (tree_digest : Digest)
    : TreeLogEntry :=
  let p := cl_proposal committed in
  mkLogEntry EntryBatch height (p_timestamp_hint p) body (p_transitions_digest p) (p_previous_state_root p)
    tree_digest (p_proposed_state_root p) (committed_record committed).

Definition commit_block (committed : CommittedPayload) (body : list Z) v : TreeServer :=
  let p := cl_proposal committed in
  match decode_tree_batch body with
  | None => halt "a committed tree batch does not decode" v
  | Some batch =>
      match apply_certified_batch batch (p_timestamp_hint p) (p_transitions_digest p) (tl_state (tc_log v)) with
      | inl _ => halt "a committed tree block does not replay to its state root" v
      | inr (next, _) =>
          if negb (ch_root next =? p_proposed_state_root p)
          then halt "a committed tree block does not replay to its state root" v
          else
            let digest := compute_tree_digest (ch_nodes next) in
            let entry := committed_log_entry committed body (tl_height (tc_log v) +64 1) digest in
            let '(done, v) := commit_entry entry next digest v in
            if done && tc_behind v then refresh_status (v <| tc_behind := false |>) else v
      end
  end.

Definition on_committed (committed : CommittedPayload) v : TreeServer :=
  match cl_payload committed with
  | Some (mkPayload ConsensusTypes.TreeBatch body) =>
      if negb (healthy v) then v
      else if tc_awaiting_merge v
      then note_refusal "a tree block committed while this server awaits the tree merge commit; it is not applied over the pre-merge tree" v
      else
        let p := cl_proposal committed in
        let root := ch_root (tl_state (tc_log v)) in
        if p_proposed_state_root p =? root then v
        else if negb (p_previous_state_root p =? root) then refresh_status (v <| tc_behind := true |>)
        else commit_block committed body v
  | _ => v
  end.

(** ** Replication *)

Definition held_bytes (held : gmap Z TreeLogEntry) : Z :=
  foldr (λ kv total, Z.of_nat (length (lg_batch kv.2)) + total) 0 (map_to_list held).

Definition hold (entry : TreeLogEntry) v : TreeServer :=
  let height := tl_height (tc_log v) in
  let h := lg_height entry in
  if (h <=? height) || (kMaxReplicaHeldEntries <? h - height) then v
  else
    let bytes := Z.of_nat (length (lg_batch entry)) + held_bytes (delete h (tc_held v)) in
    if (kMaxReplicaHeldBytes <? bytes)
       || (negb (bool_decide (is_Some (tc_held v !! h)))
           && (kMaxReplicaHeldEntries <=? Z.of_nat (size (tc_held v))))
    then v
    else refresh_status (v <| tc_held := <[ h := entry ]> (tc_held v) |>).

Definition height_text (entry : TreeLogEntry) : string := pretty (Z.to_N (lg_height entry)).

(** An entry whose evidence verified. *)
Definition apply_verified (entry : TreeLogEntry) v : ReplicaResult * TreeServer :=
  let v := v <| tc_held := delete (lg_height entry) (tc_held v) |> in
  if negb (lg_previous_root entry =? ch_root (tl_state (tc_log v)))
  then (ReplicaRefused,
        note_refusal ("certified tree entry " +:+ height_text entry +:+
          " does not chain to this server's log; if every peer's entry is refused, this log's base differs from the mesh's") v)
  else match replay_entry (tl_state (tc_log v)) entry with
  | inl (_, reason) =>
      (ReplicaHalted, halt ("certified tree entry " +:+ height_text entry +:+
                            " does not replay on this server's log (" +:+ reason +:+ ")") v)
  | inr (next, _) =>
      let '(done, v) := commit_entry entry next (compute_tree_digest (ch_nodes next)) v in
      ((if done then ReplicaApplied else ReplicaHalted), v)
  end.

(** The epoch of the entry at the head of the log, when it reads. *)
Definition epoch_regresses (epoch : EpochId) v : bool :=
  let height := tl_height (tc_log v) in
  (0 <? height) && match read_entry log_directory height (tf_disk (tc_files v)) with
                   | Some previous => epoch <? entry_epoch previous
                   | None => false
                   end.

(** [None]: the check of a merge commit throws. *)
Definition apply_next (authority : option (EpochId → option VerifiedEpochAuthority)) (entry : TreeLogEntry) v
    : option ReplicaResult * TreeServer :=
  match lg_kind entry with
  | EntryMerge =>
      match verify_merge_signature entry (tcc_network_id config) (tcc_root_key config) with
      | Throws => (None, v)
      | Verdict (Some refusal) =>
          (Some ReplicaRefused, note_refusal ("merge commit refused: " +:+ refusal) v)
      | Verdict None => let '(result, v) := apply_verified entry v in (Some result, v)
      end
  | EntryBatch =>
      if tc_awaiting_merge v
      then (Some ReplicaRefused,
            note_refusal ("tree entry " +:+ height_text entry +:+
              " is a consensus block, but this server holds a pre-merge tree and takes only the merge commit at height 1") v)
      else
        let evidence := verify_certified_entry entry (tcc_network_id config) authority in
        match ev_result evidence with
        | UnknownEpoch => (Some ReplicaUnknownEpoch, refresh_status (emit (EpochHint (ev_epoch evidence)) (hold entry v)))
        | EvidenceRefused =>
            (Some ReplicaRefused,
             note_refusal ("tree entry " +:+ height_text entry +:+ " refused: " +:+ ev_reason evidence) v)
        | EvidenceOk =>
            if epoch_regresses (ev_epoch evidence) v
            then (Some ReplicaRefused,
                  note_refusal ("tree entry " +:+ height_text entry +:+
                    " names an epoch before the previous entry's") v)
            else let '(result, v) := apply_verified entry v in (Some result, v)
        end
  end.

(** Each turn takes an entry out of [held_] and goes on only when it applied,
    so the number of held entries bounds the turns. False: an exception. *)
Fixpoint drain_loop (fuel : nat) (authority : option (EpochId → option VerifiedEpochAuthority)) v : bool * TreeServer :=
  match fuel with
  | O => (true, v)
  | S fuel =>
      if negb (healthy v) then (true, v)
      else
        let h := tl_height (tc_log v) +64 1 in
        match tc_held v !! h with
        | None => (true, v)
        | Some entry =>
            match apply_next authority entry (v <| tc_held := delete h (tc_held v) |>) with
            | (None, v) => (false, v)
            | (Some ReplicaApplied, v) => drain_loop fuel authority v
            | (Some _, v) => (true, v)
            end
        end
  end.

Definition drain_held (authority : option (EpochId → option VerifiedEpochAuthority)) v : bool * TreeServer :=
  let '(returned, v) := drain_loop (S (size (tc_held v))) authority v in
  if negb returned then (false, v)
  else
    (true, refresh_status (v <| tc_held := filter (λ kv, tl_height (tc_log v) < kv.1) (tc_held v) |>)).

Definition receive_replicated (authority : option (EpochId → option VerifiedEpochAuthority)) (entry : TreeLogEntry) v
    : option ReplicaResult * TreeServer :=
  let height := tl_height (tc_log v) in
  if negb (healthy v) then (Some ReplicaHalted, v)
  else if lg_height entry =? 0 then (Some ReplicaRefused, note_refusal "a replicated entry has height 0" v)
  else if lg_height entry <=? height then
    match read_entry log_directory (lg_height entry) (tf_disk (tc_files v)) with
    | Some mine =>
        if lg_state_root mine =? lg_state_root entry then (Some ReplicaDuplicate, v)
        else (Some ReplicaRefused,
              note_refusal ("a replicated entry for held height " +:+ height_text entry +:+
                            " differs from this log") v)
    | None => (Some ReplicaDuplicate, v)
    end
  else if height +64 1 <? lg_height entry then (Some ReplicaGap, hold entry v)
  else
    match apply_next authority entry v with
    | (Some ReplicaApplied, v) =>
        let '(returned, v) := drain_held authority v in
        ((if returned then Some ReplicaApplied else None), v)
    | (result, v) => (result, v)
    end.

(** ** Upkeep *)

Definition wants_root (now : Z) v : bool :=
  tcc_root_request config && negb (is_empty (tcc_root_key config))
  && negb (bool_decide (is_Some (ch_nodes (tl_state (tc_log v)) !! "root"%string)))
  && is_member (tcc_self config) v
  && negb (((now - tc_last_root_request_ms v) mod two64) <? kRootRequestIntervalMs)
  && negb (existsb (λ op, bool_decide (op_kind op = EstablishRoot)) (pool_pending (tc_pool v))).

Definition request_root (now : Z) v : TreeServer :=
  if wants_root now v then emit RootRequested (v <| tc_last_root_request_ms := now |>) else v.

Definition maintain (authority : option (EpochId → option VerifiedEpochAuthority)) v : bool * TreeServer :=
  let '(now, v) := read_clock v in
  if (((now - tc_last_maintain_ms v) mod two64) <? kMaintainIntervalMs) && negb (tc_last_maintain_ms v =? 0)
  then (true, v)
  else
    let v := v <| tc_last_maintain_ms := now |> in
    if negb (healthy v) then (true, v)
    else
      let '(returned, v) := match tc_held v !! (tl_height (tc_log v) +64 1) with
                            | Some _ => drain_held authority v
                            | None => (true, v)
                            end in
      if negb returned then (false, v)
      else if tc_awaiting_merge v then (true, v)
      else (true, request_root now (revalidate_pool v)).

Definition encoded_entry `{MsgPack} (height : Z) v : option (list Z) :=
  if (height =? 0) || (ts_height (tc_status v) <? height) then None
  else
    entry ← read_entry log_directory height (tf_disk (tc_files v));
    if negb (lg_height entry =? height) then None else Some (encode_replicated_entry entry).
End consensus.
