(* ===== verification/UpgradeService.v ===== *)
(** * The upgrade service of a server

    Models [Security/Upgrade/UpgradeService.cpp]: the statuses and observations a
    server collects, the record it proposes as a leader, its vote on a record,
    the records it accepts as finalized with their commit proofs, those it holds
    ahead of a gap, the challenges it sends as a witness and the observation it
    signs on a verdict, the search of the peers' chains for a lost commit proof,
    approval offers, its periodic work, and the gate it answers the updater with.
    What the driver, the attestation service and the release chain answer during
    a call is a value [UpgradeEnv]; what a call sends, stores or touches is
    returned in order as [UpgradeEffect]s, and [settle_records] writes the
    records that it persists to the disk of DurableWrite, from which a start
    loads them. The wire envelope around a commit proof in that file is a
    parameter ([UpgradeEnvelope]). The health report is not part of the model. *)

From S2P Require Import Prelude SecurityPolicy CanonicalEncoding ConsensusTypes QuorumValidation Selection Json HotStuff.
From S2P Require Import EpochAuthority PlatformClaims EligibilityLedger DurableWrite FileStorage EligibilityStore TreeTypes LinkToken.
From S2P Require Import TreeCodec NodeFiles TreeConsensus ReleaseApproval UpgradeProgress ReleaseChain.

Definition kMaxPendingRecords : nat := 64.
Definition kMaxRecordsPerReply : nat := 64.
Definition kMaxTrackedStatuses : Z := 2 * kMaxUpgradeParticipants.
Definition kUpgradeLivenessWindowMs : Z := 60000.
Definition kUpgradeStatusMaxAgeMs : Z := 120000.
Definition kUpgradeStatusIntervalMs : Z := 15000.
Definition kUpgradeWitnessIntervalMs : Z := 10000.
Definition kReleaseOfferWindowMs : Z := 10000.
Definition kSecurityTrackedPeers : nat := 512.
Definition kProofSearchStep : Z := kMaxSyncChainBlocks - 2.
Definition kProofSearchTimeoutMs : Z := 2 * kUpgradeStatusIntervalMs.

(** ** What the rest of the server answers *)

(** [EpochManager::current()] and its vote keys. *)
Record EpochView := mkEpochView {
  ev_id : EpochId;
  ev_members : list NodeId;
  ev_quorum : Z;
  ev_vote_keys : gmap Z Ed25519PublicKey;
}.

(** The release chain: the number and digest of its accepted approval, the highest
    number it accepted, and of the accepted approval the approved paths and the
    text of its bundle. *)
Record ReleaseView := mkReleaseView {
  rv_current : option (Z * Digest);
  rv_highest : Z;
  rv_approved_paths : list ApprovedPath;
  rv_text : list Z;
}.

(** The replica of the epoch: whether it is synced, and its last committed height. *)
Record ConsensusView := mkConsensusView { kv_synced : bool; kv_last_committed_height : Z }.

Record UpgradeEnv := mkEnv {
  ue_epochs : option EpochView;
  ue_driver_epoch : option EpochId;
  ue_verified_authority : option VerifiedEpochAuthority;
  ue_authority_for_epoch : EpochId → option VerifiedEpochAuthority;
  ue_driver_failed : bool;
  ue_chain : option ReleaseView;
  ue_wall_clock : option Z;
  ue_attestable : bool;
  ue_consensus : option ConsensusView;
  ue_phase_active : bool;
  (** [create_challenge] for an upgrade-health attestation of a subject in an
      epoch with a context: the nonce of the challenge. *)
  ue_challenge : NodeId → EpochId → Digest → option Z;
}.

Record UpgradeServiceConfig := mkUpgradeConfig {
  ug_self : NodeId;
  ug_private_key : list Z;
  ug_network_id : NetworkId;
  ug_directory : string;
  ug_running_release : Z;
}.

(** ** State *)

Record PendingWitness := mkPendingWitness {
  pw_subject : NodeId;
  pw_chain_head : Digest;
  pw_context : Digest;
  pw_release_number : Z;
  pw_sent_ms : Z;
}.

Record ProofSearch := mkProofSearch {
  ps_sequence : Z;
  ps_peer : NodeId;
  ps_lower : Z;
  ps_after : Z;
  ps_sent_ms : Z;
  ps_next_after : option Z;
}.

Record UpgradeService := mkUpgradeService {
  sv_healthy : bool;
  sv_now_ms : Z;
  sv_state : UpgradeChainState;
  sv_records : list (UpgradeRecord * option CommitProof);
  sv_pending : gmap Z (UpgradeRecord * CommitProof);
  sv_staged_release : Z;
  sv_failed_release : Z;
  sv_last_status_ms : gmap Z Z;
  sv_statuses : gmap Z UpgradeStatus;
  sv_pending_witness : option PendingWitness;
  sv_observations : gmap Z UpgradeObservation;
  sv_observations_head : Digest;
  sv_observations_subject : NodeId;
  sv_proof_search : option ProofSearch;
  sv_last_offer_ms : gmap Z Z;
  sv_last_push_ms : gmap Z Z;
  sv_status_sent_ms : Z;
  sv_sync_sent_ms : Z;
  sv_sync_cursor : Z;
}.

#[export] Instance eta_upgrade_service : Etable UpgradeService := λ v,
  mkUpgradeService (sv_healthy v) (sv_now_ms v) (sv_state v) (sv_records v) (sv_pending v) (sv_staged_release v)
    (sv_failed_release v) (sv_last_status_ms v) (sv_statuses v) (sv_pending_witness v) (sv_observations v)
    (sv_observations_head v) (sv_observations_subject v) (sv_proof_search v) (sv_last_offer_ms v) (sv_last_push_ms v)
    (sv_status_sent_ms v) (sv_sync_sent_ms v) (sv_sync_cursor v).

Definition new_upgrade_service : UpgradeService :=
  mkUpgradeService true 0 no_rollout [] ∅ 0 0 ∅ ∅ None ∅ 0 0 None ∅ ∅ 0 0 0.

Inductive UpgradeEffect :=
  | SendTo (peer : NodeId) (message : UpgradeMsg)
  | SendAll (message : UpgradeMsg)
  | Persisted (records : list (UpgradeRecord * option CommitProof))
  | FloorRaised (release_number : Z)
  | UpdaterWoken
  | Challenge (subject : NodeId) (nonce : Z) (context : Digest)
  | AskChain (peer : NodeId) (epoch : EpochId) (after : Z)
  | ReleaseAdopted.

Record StartBase := mkStartBase { sb_sequence : Z; sb_head : Digest; sb_turn_open : bool }.

Section service.
Context `{Sodium}.
Context (cfg : UpgradeServiceConfig).
Implicit Types (env : UpgradeEnv) (v : UpgradeService).

(** ** Facts *)

Definition current_members env : list NodeId :=
  match ue_epochs env with
  | Some e => ev_members e
  | None => match ue_verified_authority env with Some a => au_members a | None => [] end
  end.

Definition current_epoch env : EpochId :=
  match ue_driver_epoch env with
  | Some e => e
  | None => match ue_verified_authority env with Some a => au_epoch a | None => 0 end
  end.

Definition member_now env (node : NodeId) : bool := bool_decide (node ∈ current_members env).

Definition live v (node : NodeId) : bool :=
  if node =? ug_self cfg then true
  else match sv_last_status_ms v !! node with
       | Some at_ms => (at_ms <=? sv_now_ms v) && (sv_now_ms v -64 at_ms <=? kUpgradeLivenessWindowMs)
       | None => false
       end.

Definition status_fresh env (status : UpgradeStatus) : bool :=
  match ue_wall_clock env with
  | None => false
  | Some now =>
      let age := if us_timestamp_ms status <=? now then now -64 us_timestamp_ms status else us_timestamp_ms status -64 now in
      age <=? kUpgradeStatusMaxAgeMs
  end.

Definition fresh_status env v (node : NodeId) : option UpgradeStatus :=
  match sv_statuses v !! node with
  | Some status => if negb (live v node) || negb (status_fresh env status) then None else Some status
  | None => None
  end.

Definition locally_healthy env : bool :=
  negb (ue_driver_failed env) &&
  (bool_decide (is_Some (ue_epochs env)) || bool_decide (is_Some (ue_verified_authority env))).

Definition witnesses_for env (epoch : EpochId) : option UpgradeWitnessSet :=
  let by_authority :=
    match ue_authority_for_epoch env epoch with
    | Some a => Some (mkWitnessSet (ug_network_id cfg) epoch (au_members a))
    | None => None
    end in
  match ue_epochs env with
  | Some e => if ev_id e =? epoch then Some (mkWitnessSet (ug_network_id cfg) epoch (ev_members e)) else by_authority
  | None => by_authority
  end.

(** ** Own status *)

Definition own_status env v (now : Z) : UpgradeStatus :=
  let flags :=
    (if sv_staged_release v =? 0 then 0
     else if sv_failed_release v =? sv_staged_release v then kUpgradeStatusFailed else kUpgradeStatusReady) in
  let flags := if locally_healthy env then Z.lor flags kUpgradeStatusHealthy else flags in
  let flags := if ue_attestable env then Z.lor flags kUpgradeStatusAttestable else flags in
  sign_upgrade_status
    (mkStatus (ug_network_id cfg) (ug_self cfg) (ug_running_release cfg) (sv_staged_release v)
       (match ue_chain env with Some c => rv_highest c | None => 0 end) flags now 0)
    (ug_private_key cfg).

Definition to_members env (message : UpgradeMsg) : list UpgradeEffect :=
  (λ member, SendTo member message) <$> filter (λ member, member ≠ ug_self cfg) (current_members env).

Definition send_status env v : UpgradeService * list UpgradeEffect :=
  match ue_wall_clock env with
  | None => (v, [])
  | Some now =>
      let status := own_status env v now in
      (v <| sv_statuses := <[ ug_self cfg := status ]> (sv_statuses v) |>
         <| sv_last_status_ms := <[ ug_self cfg := sv_now_ms v ]> (sv_last_status_ms v) |>,
       to_members env (mkUpgradeMsg TopicStatus (encode_upgrade_status status) None))
  end.

Definition stage env (release_number : Z) v : UpgradeService * list UpgradeEffect :=
  let v := v <| sv_staged_release := release_number |> in
  let v := if sv_failed_release v =? release_number then v else v <| sv_failed_release := 0 |> in
  send_status env v.

Definition report_failed env (release_number : Z) v : UpgradeService * list UpgradeEffect :=
  if release_number =? 0 then (v, [])
  else send_status env (v <| sv_staged_release := release_number |> <| sv_failed_release := release_number |>).

Definition gate (release_number : Z) v : UpgradeGate :=
  if negb (sv_healthy v) then GateWait else evaluate_upgrade_gate (sv_state v) (ug_self cfg) release_number.

(** ** Statuses and observations of others *)

Definition send_approval env (peer : NodeId) : list UpgradeEffect :=
  match ue_chain env with
  | Some chain =>
      match rv_current chain with
      | Some _ => if peer =? ug_self cfg then [] else [SendTo peer (mkUpgradeMsg ApprovalOffer (rv_text chain) None)]
      | None => []
      end
  | None => []
  end.

Definition broadcast_approval env : list UpgradeEffect :=
  match ue_chain env with
  | Some chain =>
      match rv_current chain with
      | Some _ => [SendAll (mkUpgradeMsg ApprovalOffer (rv_text chain) None)]
      | None => []
      end
  | None => []
  end.

(** An approval for a sender that accepted another release, at most one per window. *)
Definition push_approval env (status : UpgradeStatus) v : UpgradeService * list UpgradeEffect :=
  match ue_chain env with
  | Some chain =>
      if bool_decide (is_Some (rv_current chain)) && negb (us_accepted_release status =? rv_highest chain) then
        let last := default 0 (sv_last_push_ms v !! us_node status) in
        if (last =? 0) || (kReleaseOfferWindowMs <=? sv_now_ms v -64 last) then
          (v <| sv_last_push_ms := <[ us_node status := if sv_now_ms v =? 0 then 1 else sv_now_ms v ]> (sv_last_push_ms v) |>,
           send_approval env (us_node status))
        else (v, [])
      else (v, [])
  | None => (v, [])
  end.

Definition handle_status env (sender : NodeId) (body : list Z) v : UpgradeService * list UpgradeEffect :=
  match decode_upgrade_status body with
  | None => (v, [])
  | Some status =>
      if negb (us_node status =? sender) || negb (us_network_id status =? ug_network_id cfg) ||
         negb (status_fresh env status) || negb (verify_upgrade_status status)
      then (v, [])
      else
        let refuse := match sv_statuses v !! us_node status with
                      | Some held => us_timestamp_ms status <? us_timestamp_ms held
                      | None => kMaxTrackedStatuses <=? Z.of_nat (size (sv_statuses v))
                      end in
        if refuse then (v, [])
        else push_approval env status
               (v <| sv_statuses := <[ us_node status := status ]> (sv_statuses v) |>
                  <| sv_last_status_ms := <[ us_node status := sv_now_ms v ]> (sv_last_status_ms v) |>)
  end.

Definition expected_subject (s : UpgradeChainState) : option NodeId :=
  match uc_in_turn s with Some n => Some n | None => next_subject s end.

Definition handle_observation env (sender : NodeId) (body : list Z) v : UpgradeService :=
  let s := sv_state v in
  if negb (member_now env (ug_self cfg)) || negb (active s) || uc_halted s then v
  else match decode_upgrade_observation body with
  | None => v
  | Some o =>
      if negb (uo_witness o =? sender) || negb (uo_network_id o =? ug_network_id cfg) ||
         negb (member_now env (uo_witness o)) || negb (uo_release_number o =? uc_release_number s) ||
         negb (uo_chain_head o =? uc_head s) || (uo_subject o =? uo_witness o) || negb (verify_upgrade_observation o)
      then v
      else if negb (bool_decide (expected_subject s = Some (uo_subject o))) then v
      else
        let v :=
          if negb (sv_observations_subject v =? uo_subject o) || negb (sv_observations_head v =? uc_head s)
          then v <| sv_observations := ∅ |> <| sv_observations_subject := uo_subject o |>
                 <| sv_observations_head := uc_head s |>
          else v in
        v <| sv_observations := <[ uo_witness o := o ]> (sv_observations v) |>
  end.

(** ** Witnessing *)

Definition runs_release (verdict : AttestationVerdict) (approved : list ApprovedPath) : bool :=
  if bool_decide (av_measured_paths verdict = []) || bool_decide (approved = []) then false
  else forallb (λ required,
         match List.find (λ m, String.eqb (ima_path m) (ap_path required)) (av_measured_paths verdict) with
         | None => false
         | Some m => bool_decide (ima_sha256 m ∈ ap_sha256 required)
         end) approved.

(** The server whose turn is open, or the next one when it already runs the release. *)
Definition witness_subject env v : option NodeId :=
  match uc_in_turn (sv_state v) with
  | Some subject => Some subject
  | None =>
      subject ← next_subject (sv_state v);
      status ← fresh_status env v subject;
      if us_running_release status =? uc_release_number (sv_state v) then Some subject else None
  end.

(** The accepted approval is the one the rollout names. *)
Definition approval_matches env v : bool :=
  match ue_chain env ≫= rv_current with
  | Some (_, digest) => digest =? uc_approval_digest (sv_state v)
  | None => false
  end.

(** The observations are those of the open position. *)
Definition at_position (subject : NodeId) v : UpgradeService :=
  if negb (sv_observations_subject v =? subject) || negb (sv_observations_head v =? uc_head (sv_state v))
  then v <| sv_observations := ∅ |> <| sv_observations_subject := subject |>
         <| sv_observations_head := uc_head (sv_state v) |> <| sv_pending_witness := None |>
  else v.

Definition sent_recently v (pending : PendingWitness) : bool :=
  sv_now_ms v -64 pw_sent_ms pending <? kUpgradeWitnessIntervalMs.

Definition wait_for (subject : NodeId) (context : Digest) v : UpgradeService :=
  v <| sv_pending_witness :=
       Some (mkPendingWitness subject (uc_head (sv_state v)) context (uc_release_number (sv_state v)) (sv_now_ms v)) |>.

(** The own observation is sent again until the position closes. *)
Definition resend_observation env (subject : NodeId) (own : UpgradeObservation) v : UpgradeService * list UpgradeEffect :=
  if match sv_pending_witness v with Some pending => sent_recently v pending | None => false end then (v, [])
  else (wait_for subject 0 v, to_members env (mkUpgradeMsg TopicObservation (encode_upgrade_observation own) None)).

(** A subject that says it runs the release and is healthy is challenged. *)
Definition challenge_subject env (subject : NodeId) v : UpgradeService * list UpgradeEffect :=
  if match sv_pending_witness v with
     | Some pending => (pw_subject pending =? subject) && (pw_chain_head pending =? uc_head (sv_state v)) && sent_recently v pending
     | None => false
     end then (v, [])
  else
    match fresh_status env v subject with
    | None => (v, [])
    | Some status =>
        if negb (us_running_release status =? uc_release_number (sv_state v)) ||
           negb (has_flag (us_flags status) kUpgradeStatusHealthy) then (v, [])
        else
          let context := upgrade_health_attestation_context (ug_network_id cfg) (uc_release_number (sv_state v)) subject
                           (uc_head (sv_state v)) in
          match ue_challenge env subject (current_epoch env) context with
          | None => (v, [])
          | Some nonce => (wait_for subject context v, [Challenge subject nonce context])
          end
    end.

Definition witness env v : UpgradeService * list UpgradeEffect :=
  let s := sv_state v in
  if negb (active s) || uc_halted s || bool_decide (ue_chain env = None) || negb (member_now env (ug_self cfg))
  then (v <| sv_pending_witness := None |>, [])
  else match witness_subject env v with
  | None => (v, [])
  | Some subject =>
      if (subject =? ug_self cfg) || negb (approval_matches env v) then (v, [])
      else
        let v := at_position subject v in
        match sv_observations v !! ug_self cfg with
        | Some own => resend_observation env subject own v
        | None => challenge_subject env subject v
        end
  end.

(** The verdict answers the pending challenge, at the position it was sent for. *)
Definition answers_challenge env (verdict : AttestationVerdict) (pending : PendingWitness) v : bool :=
  bool_decide (av_purpose verdict = UpgradeHealth) && negb (pw_context pending =? 0) &&
  (av_context_digest verdict =? pw_context pending) && (av_node_id verdict =? pw_subject pending) &&
  (uc_head (sv_state v) =? pw_chain_head pending) &&
  (uc_release_number (sv_state v) =? pw_release_number pending) && approval_matches env v.

Definition proves_release env (verdict : AttestationVerdict) : bool :=
  av_passed verdict && negb (av_evidence_digest verdict =? 0) && all_platform_claims_proved (av_claims verdict) &&
  match ue_chain env with Some chain => runs_release verdict (rv_approved_paths chain) | None => false end.

Definition reports_healthy env (subject : NodeId) v : bool :=
  match fresh_status env v subject with
  | Some status => has_flag (us_flags status) kUpgradeStatusHealthy &&
                   (us_running_release status =? uc_release_number (sv_state v))
  | None => false
  end.

Definition own_observation (verdict : AttestationVerdict) (subject : NodeId) v : UpgradeObservation :=
  sign_upgrade_observation
    (mkUpgradeObservation (ug_network_id cfg) (uc_release_number (sv_state v)) subject (uc_head (sv_state v))
       (ug_self cfg) (av_evidence_digest verdict) 0) (ug_private_key cfg).

Definition on_verdict env (verdict : AttestationVerdict) v : UpgradeService * list UpgradeEffect :=
  match sv_pending_witness v with
  | None => (v, [])
  | Some pending =>
      if negb (answers_challenge env verdict pending v) || negb (proves_release env verdict) ||
         negb (reports_healthy env (pw_subject pending) v) then (v, [])
      else
        witness env
          (v <| sv_observations_subject := pw_subject pending |> <| sv_observations_head := uc_head (sv_state v) |>
             <| sv_observations := <[ ug_self cfg := own_observation verdict (pw_subject pending) v ]> (sv_observations v) |>
             <| sv_pending_witness := None |>)
  end.

(** ** Accepting records *)

Definition raise_release_floor env v : list UpgradeEffect :=
  match ue_chain env with
  | Some _ => if active (sv_state v) then [FloorRaised (uc_release_number (sv_state v))] else []
  | None => []
  end.

(** The part of [accept_record] before the pending records are drained. *)
Definition take_record env (record : UpgradeRecord) (proof : option CommitProof) (witnesses : option UpgradeWitnessSet)
    (as_base : bool) v : bool * UpgradeService * list UpgradeEffect :=
  if ur_sequence record <=? uc_sequence (sv_state v) then (false, v, [])
  else if negb (bool_decide (check_upgrade_record (sv_state v) record witnesses as_base = UrNone)) then (false, v, [])
  else
    let is_start := bool_decide (ur_event record = EvStart) in
    let records := (if is_start then [] else sv_records v) ++ [(record, proof)] in
    let v := v <| sv_state := apply_upgrade_record (sv_state v) record |> <| sv_records := records |>
               <| sv_observations := ∅ |> <| sv_pending_witness := None |> in
    let wakes :=
      match ur_event record with
      | EvStart => participant (sv_state v) (ug_self cfg)
      | EvTurn => ur_subject record =? ug_self cfg
      | _ => false
      end in
    (true, v, [Persisted records] ++ (if is_start then raise_release_floor env v else []) ++
              (if wakes then [UpdaterWoken] else [])).

(** The first pending record. *)
Definition first_pending v : option (Z * (UpgradeRecord * CommitProof)) := head (in_order (sv_pending v)).

Definition front_epoch (proof : CommitProof) : EpochId :=
  match cp_chain proof with b :: _ => p_epoch (cb_proposal b) | [] => 0 end.

(** Every turn of the loop, and of the loops of the records that it accepts,
    removes a pending record. *)
Fixpoint drain_pending (fuel : nat) env v : UpgradeService * list UpgradeEffect :=
  match fuel with
  | O => (v, [])
  | S fuel =>
      match first_pending v with
      | None => (v, [])
      | Some (sequence, (record, proof)) =>
          let without := v <| sv_pending := delete sequence (sv_pending v) |> in
          if sequence <=? uc_sequence (sv_state v) then drain_pending fuel env without
          else if negb (sequence =? uc_sequence (sv_state v) +64 1) then (v, [])
          else
            match witnesses_for env (front_epoch proof) with
            | None => (without, [])
            | Some w =>
                let '(ok, v, e1) := take_record env record (Some proof) (Some w) false without in
                if negb ok then (v, e1)
                else
                  let '(v, e2) := drain_pending fuel env v in
                  let '(v, e3) := drain_pending fuel env v in
                  (v, e1 ++ e2 ++ e3)
            end
      end
  end.

Definition accept_record env (record : UpgradeRecord) (proof : option CommitProof) (witnesses : option UpgradeWitnessSet)
    (as_base : bool) v : bool * UpgradeService * list UpgradeEffect :=
  let '(ok, v, e1) := take_record env record proof witnesses as_base v in
  if negb ok then (false, v, e1)
  else
    let '(v, e2) := drain_pending (S (size (sv_pending v))) env v in
    (true, v, e1 ++ e2).

Definition record_proof_message (record : UpgradeRecord) (proof : option CommitProof) : UpgradeMsg :=
  mkUpgradeMsg RecordProof (encode_upgrade_record record) proof.

Definition broadcast_record (sequence : Z) v : list UpgradeEffect :=
  match head (filter (λ entry : UpgradeRecord * option CommitProof,
                ur_sequence entry.1 = sequence ∧ is_Some entry.2) (sv_records v)) with
  | Some (record, proof) => [SendAll (record_proof_message record proof)]
  | None => []
  end.

Definition on_upgrade_committed env (committed : CommittedPayload) v : UpgradeService * list UpgradeEffect :=
  if negb (sv_healthy v) then (v, [])
  else match cl_payload committed with
  | None => (v, [])
  | Some payload =>
      match upgrade_record_from_payload payload with
      | None => (v, [])
      | Some record =>
          if negb (ur_network_id record =? ug_network_id cfg) then (v, [])
          else
            let witnesses := witnesses_for env (p_epoch (cl_proposal committed)) in
            let '(ok, v, effects) := accept_record env record (cl_proof committed) witnesses true v in
            if ok then (v, effects ++ broadcast_record (ur_sequence record) v) else (v, effects)
      end
  end.

(** ** Records with proofs from peers *)

Definition epoch_keys env (epoch : EpochId) : option (Z * gmap Z Ed25519PublicKey) :=
  let by_authority :=
    match ue_authority_for_epoch env epoch with
    | Some a => Some (au_consensus_quorum a, au_vote_keys a)
    | None => None
    end in
  match ue_epochs env with
  | Some e => if ev_id e =? epoch then Some (ev_quorum e, ev_vote_keys e) else by_authority
  | None => by_authority
  end.

Definition verified_proof_epoch env (body : list Z) (proof : CommitProof) : option EpochId :=
  match cp_chain proof with
  | [] => None
  | _ =>
      let epoch := front_epoch proof in
      '(quorum, vote_keys) ← epoch_keys env epoch;
      let context := mkContext kConsensusRulesetVersion (ug_network_id cfg) epoch quorum in
      let payload := mkPayload ConsensusTypes.UpgradeProgress body in
      if bool_decide (verify_commit_proof (block_payload_digest payload) proof context vote_keys = CpNone)
      then Some epoch else None
  end.

(** The first entry with the bytes [body] that has no proof takes [proof]. *)
Fixpoint fill_proof (body : list Z) (proof : CommitProof) (records : list (UpgradeRecord * option CommitProof))
    : option (Z * list (UpgradeRecord * option CommitProof)) :=
  match records with
  | [] => None
  | (record, held) :: rest =>
      if bool_decide (held = None) && bool_decide (encode_upgrade_record record = body)
      then Some (ur_sequence record, (record, Some proof) :: rest)
      else '(sequence, rest) ← fill_proof body proof rest; Some (sequence, (record, held) :: rest)
  end.

Definition recover_proof env (body : list Z) (proof : CommitProof) v : bool * UpgradeService * list UpgradeEffect :=
  match fill_proof body proof (sv_records v), verified_proof_epoch env body proof with
  | Some (sequence, records), Some _ =>
      let v := v <| sv_records := records |> in
      let v := match sv_proof_search v with
               | Some search => if ps_sequence search =? sequence then v <| sv_proof_search := None |> else v
               | None => v
               end in
      (true, v, [Persisted records] ++ broadcast_record sequence v)
  | _, _ => (false, v, [])
  end.

Definition handle_record_proof env (sender : NodeId) (message : UpgradeMsg) v : UpgradeService * list UpgradeEffect :=
  match um_proof message with
  | None => (v, [])
  | Some proof =>
      if bool_decide (cp_chain proof = []) then (v, [])
      else match decode_upgrade_record (um_body message) with
      | None => (v, [])
      | Some record =>
          if negb (ur_network_id record =? ug_network_id cfg) then (v, [])
          else if ur_sequence record <=? uc_sequence (sv_state v) then
            let '(_, v, effects) := recover_proof env (um_body message) proof v in (v, effects)
          else if bool_decide (is_Some (sv_pending v !! ur_sequence record)) then (v, [])
          else match verified_proof_epoch env (um_body message) proof with
          | None => (v, [])
          | Some epoch =>
              match witnesses_for env epoch with
              | None => (v, [])
              | Some w =>
                  let '(ok, v, effects) :=
                    if (ur_sequence record =? uc_sequence (sv_state v) +64 1) || bool_decide (ur_event record = EvStart)
                    then accept_record env record (Some proof) (Some w) true v else (false, v, []) in
                  if ok then (v, effects)
                  else
                    let v := if (size (sv_pending v) <? kMaxPendingRecords)%nat
                             then v <| sv_pending := <[ ur_sequence record := (record, proof) ]> (sv_pending v) |> else v in
                    (v, effects ++ [SendTo sender (mkUpgradeMsg RecordRequest (be_bytes 8 (uc_sequence (sv_state v))) None)])
              end
          end
      end
  end.

Definition handle_record_request (sender : NodeId) (body : list Z) v : list UpgradeEffect :=
  if negb (length body =? 8)%nat then []
  else
    let have := be_value body in
    (λ entry : UpgradeRecord * option CommitProof, SendTo sender (record_proof_message entry.1 entry.2)) <$>
      take kMaxRecordsPerReply (filter (λ entry : UpgradeRecord * option CommitProof,
        have < ur_sequence entry.1 ∧ is_Some entry.2) (sv_records v)).

(** ** The search for a missing proof *)

Definition has_proof (entry : UpgradeRecord * option CommitProof) : bool := bool_decide (is_Some entry.2).

(** The first record without a proof, with its place. *)
Definition first_unproven v : option (nat * UpgradeRecord) :=
  '(i, entry) ← list_find (λ entry : UpgradeRecord * option CommitProof, entry.2 = None) (sv_records v);
  Some (i, entry.1).

Definition front_height (proof : CommitProof) : Z :=
  match cp_chain proof with b :: _ => p_height (cb_proposal b) | [] => 0 end.

(** The heights between which the block of a record lies; both are excluded. *)
Definition search_bounds env (index : nat) v : option (Z * Z) :=
  consensus ← ue_consensus env;
  let epoch := current_epoch env in
  let lower :=
    match last (omap snd (take index (sv_records v))) with
    | Some proof => if front_epoch proof =? epoch then front_height proof else 0
    | None => 0
    end in
  upper ← match head (omap snd (drop (S index) (sv_records v))) with
          | Some proof => if front_epoch proof =? epoch then Some (front_height proof) else None
          | None => Some (kv_last_committed_height consensus +64 1)
          end;
  if upper <=? lower +64 1 then None else Some (lower, upper).

Definition request_page env (after : Z) v : UpgradeService * list UpgradeEffect :=
  match sv_proof_search v with
  | None => (v, [])
  | Some search =>
      (v <| sv_proof_search := Some (mkProofSearch (ps_sequence search) (ps_peer search) (ps_lower search) after (sv_now_ms v) None) |>,
       [AskChain (ps_peer search) (current_epoch env) after])
  end.

Definition search_proof env (index : nat) (record : UpgradeRecord) (peer : NodeId) v : UpgradeService * list UpgradeEffect :=
  if bool_decide (ue_epochs env = None) ||
     negb (match ue_consensus env with Some consensus => kv_synced consensus | None => false end) ||
     negb (ue_phase_active env) || negb (member_now env (ug_self cfg)) then (v, [])
  else if match sv_proof_search v with
          | Some search => (ps_sequence search =? ur_sequence record) && (sv_now_ms v -64 ps_sent_ms search <? kProofSearchTimeoutMs)
          | None => false
          end then (v, [])
  else
    match search_bounds env index v with
    | None => (v <| sv_proof_search := None |>, [])
    | Some (lower, upper) =>
        request_page env
          (if lower +64 kProofSearchStep +64 1 <? upper then upper -64 kProofSearchStep -64 1 else lower)
          (v <| sv_proof_search := Some (mkProofSearch (ur_sequence record) peer lower 0 0 None) |>)
    end.

Definition sync_records env v : UpgradeService * list UpgradeEffect :=
  let members := filter (λ m, m ≠ ug_self cfg) (current_members env) in
  match members !! Z.to_nat (sv_sync_cursor v mod Z.of_nat (length members)) with
  | None => (v, [])
  | Some target =>
      let v := v <| sv_sync_cursor := sv_sync_cursor v +64 1 |> in
      let unproven := first_unproven v in
      let have := match unproven with Some (_, record) => ur_sequence record -64 1 | None => uc_sequence (sv_state v) end in
      let request := SendTo target (mkUpgradeMsg RecordRequest (be_bytes 8 have) None) in
      match unproven with
      | Some (index, record) =>
          let '(v, effects) := search_proof env index record target v in (v, request :: effects)
      | None => (v, [request])
      end
  end.

(** A page of a peer's certified chain: each block with its certificate, and the
    certificate over the last one. *)
Record SyncResponse := mkSyncResponse { sr_high_qc : QuorumCertificate; sr_chain : list CommittedBlock }.

Definition wanted_body v : list (Digest * list Z) :=
  (λ entry : UpgradeRecord * option CommitProof,
     let body := encode_upgrade_record entry.1 in
     (block_payload_digest (mkPayload ConsensusTypes.UpgradeProgress body), body)) <$>
  filter (λ entry : UpgradeRecord * option CommitProof, entry.2 = None) (sv_records v).

(** The first entry with the digest, and the others. *)
Fixpoint take_wanted (digest : Digest) (wanted : list (Digest * list Z)) : option (list Z * list (Digest * list Z)) :=
  match wanted with
  | [] => None
  | (d, body) :: rest =>
      if d =? digest then Some (body, rest)
      else '(found, rest) ← take_wanted digest rest; Some (found, (d, body) :: rest)
  end.

(** The three-chains of the page that finalized a wanted record. *)
Fixpoint recover_from_chain env (high_qc : QuorumCertificate) (chain : list CommittedBlock) (wanted : list (Digest * list Z)) v
    : UpgradeService * list UpgradeEffect :=
  match chain with
  | b0 :: rest =>
      match rest with
      | b1 :: b2 :: later =>
          match take_wanted (p_transitions_digest (cb_proposal b0)) wanted with
          | None => recover_from_chain env high_qc rest wanted v
          | Some (body, others) =>
              let certifying := match later with b3 :: _ => cb_justify b3 | [] => high_qc end in
              let '(ok, v, e1) := recover_proof env body (mkProof [b0; b1; b2] certifying) v in
              let '(v, e2) := recover_from_chain env high_qc rest (if ok : bool then others else wanted) v in
              (v, e1 ++ e2)
          end
      | _ => (v, [])
      end
  | [] => (v, [])
  end.

(** The next page of the search, when the reply answers it. *)
Definition next_page (response : SyncResponse) (from : NodeId) v : UpgradeService :=
  match sv_proof_search v with
  | None => v
  | Some search =>
      if negb (from =? ps_peer search) || bool_decide (is_Some (ps_next_after search)) then v
      else
        let sought := existsb (λ entry : UpgradeRecord * option CommitProof,
                        (ur_sequence entry.1 =? ps_sequence search) && negb (has_proof entry)) (sv_records v) in
        let starts := match sr_chain response with
                      | b :: _ => p_height (cb_proposal b) =? ps_after search +64 1
                      | [] => false
                      end in
        if negb sought || negb starts || (ps_after search <=? ps_lower search)
        then v <| sv_proof_search := None |>
        else
          v <| sv_proof_search :=
               Some (mkProofSearch (ps_sequence search) (ps_peer search) (ps_lower search) (ps_after search) (ps_sent_ms search)
                       (Some (if ps_lower search +64 kProofSearchStep <? ps_after search
                              then ps_after search -64 kProofSearchStep else ps_lower search))) |>
  end.

Definition on_certified_chain env (response : SyncResponse) (from : NodeId) v : UpgradeService * list UpgradeEffect :=
  if negb (sv_healthy v) || bool_decide (sr_chain response = []) then (v, [])
  else
    let '(v, effects) := recover_from_chain env (sr_high_qc response) (sr_chain response) (wanted_body v) v in
    (next_page response from v, effects).

(** ** Time *)

(** [ResendCadence::due] *)
Definition cadence_due (interval last now : Z) : bool := negb (now -64 last <? interval).

Definition tick env (now_ms : Z) v : UpgradeService * list UpgradeEffect :=
  let v := v <| sv_now_ms := now_ms |> in
  if negb (sv_healthy v) then (v, [])
  else
    let '(v, e1) := if cadence_due kUpgradeStatusIntervalMs (sv_status_sent_ms v) now_ms
                    then send_status env (v <| sv_status_sent_ms := now_ms |>) else (v, []) in
    let '(v, e2) := witness env v in
    let '(v, e3) := if cadence_due (2 * kUpgradeStatusIntervalMs) (sv_sync_sent_ms v) now_ms
                    then sync_records env (v <| sv_sync_sent_ms := now_ms |>) else (v, []) in
    let '(v, e4) := match sv_proof_search v with
                    | Some search => match ps_next_after search with Some after => request_page env after v | None => (v, []) end
                    | None => (v, [])
                    end in
    (v, e1 ++ e2 ++ e3 ++ e4).

(** ** Proposing *)

Definition tier2_participants env (members : list NodeId) v : list NodeId :=
  (filter (λ entry : Z * UpgradeStatus,
     entry.1 ∉ members ∧ live v entry.1 = true ∧ status_fresh env entry.2 = true ∧
     has_flag (us_flags entry.2) kUpgradeStatusAttestable = true) (in_order (sv_statuses v))).*1.

Definition start_base v : StartBase :=
  let base := mkStartBase (uc_sequence (sv_state v)) (uc_head (sv_state v)) (bool_decide (is_Some (uc_in_turn (sv_state v)))) in
  match last (in_order (sv_pending v)) with
  | None => base
  | Some (sequence, (record, _)) =>
      if sequence <=? uc_sequence (sv_state v) then base
      else mkStartBase sequence (upgrade_record_digest record) (bool_decide (ur_event record = EvTurn))
  end.

(** A record before its place in the chain is filled in. *)
Definition blank_record (event : UpgradeEvent) (release_number : Z) : UpgradeRecord :=
  mkUpgradeRecord kUpgradeRecordVersion 0 0 0 event release_number 0 [] 0 None [].

Definition behind_release v (release_number : Z) (node : NodeId) : bool :=
  match sv_statuses v !! node with Some s => us_running_release s <? release_number | None => false end.

Definition derive_start env (base : StartBase) v : option UpgradeRecord :=
  chain ← ue_chain env;
  '(release_number, approval_digest) ← rv_current chain;
  if sb_turn_open base then None
  else if release_number <=? uc_release_number (sv_state v) then None
  else
    let members := current_members env in
    if bool_decide (members = []) || negb (forallb (live v) members) then None
    else
      let tier2 := tier2_participants env members v in
      if negb (existsb (behind_release v release_number) members) && negb (existsb (behind_release v release_number) tier2)
      then None
      else
        let order := derive_upgrade_order release_number members tier2 in
        if kMaxUpgradeParticipants <? Z.of_nat (length order) then None
        else Some (mkUpgradeRecord kUpgradeRecordVersion 0 0 0 EvStart release_number approval_digest order 0 None []).

(** The Upgraded record of [subject] when enough members observed it. *)
Definition observed env v (subject : NodeId) : option UpgradeRecord :=
  let s := sv_state v in
  let members := current_members env in
  if negb (sv_observations_subject v =? subject) || negb (sv_observations_head v =? uc_head s) then None
  else
    let held := (filter (λ entry : Z * UpgradeObservation, entry.1 ≠ subject ∧ entry.1 ∈ members)
                   (in_order (sv_observations v))).*2 in
    let threshold := witness_threshold (established_fact_context (ug_network_id cfg) (current_epoch env) members) subject in
    if bool_decide (held = []) || (Z.of_nat (length held) <? threshold) then None
    else Some (mkUpgradeRecord kUpgradeRecordVersion 0 0 0 EvUpgraded (uc_release_number s) 0 [] subject None held).

Definition status_record (event : UpgradeEvent) (s : UpgradeChainState) (subject : NodeId) (status : UpgradeStatus) : UpgradeRecord :=
  mkUpgradeRecord kUpgradeRecordVersion 0 0 0 event (uc_release_number s) 0 [] subject (Some status) [].

(** The record of the open turn. *)
Definition turn_outcome env v (subject : NodeId) : option UpgradeRecord :=
  match fresh_status env v subject with
  | Some status =>
      if has_flag (us_flags status) kUpgradeStatusFailed && (us_staged_release status =? uc_release_number (sv_state v))
      then Some (status_record EvHalt (sv_state v) subject status) else observed env v subject
  | None => observed env v subject
  end.

(** Every other participant is live, and every member. *)
Definition everyone_live env v (subject : NodeId) : bool :=
  forallb (live v) (current_members env) &&
  forallb (λ entry, (pt_node entry =? subject) || live v (pt_node entry)) (uc_order (sv_state v)).

Definition open_turn env v (subject : NodeId) : option UpgradeRecord :=
  match observed env v subject with
  | Some record => Some record
  | None =>
      match fresh_status env v subject with
      | Some status =>
          if everyone_live env v subject && has_flag (us_flags status) kUpgradeStatusReady &&
             negb (has_flag (us_flags status) kUpgradeStatusFailed) &&
             (us_staged_release status =? uc_release_number (sv_state v))
          then Some (status_record EvTurn (sv_state v) subject status) else None
      | None => None
      end
  end.

(** The record of the open rollout. *)
Definition rollout_record env v : option UpgradeRecord :=
  match uc_in_turn (sv_state v) with
  | Some subject => turn_outcome env v subject
  | None => match next_subject (sv_state v) with Some next => open_turn env v next | None => None end
  end.

Definition place_record (base : StartBase) (r : UpgradeRecord) : UpgradeRecord :=
  mkUpgradeRecord (ur_version r) (ug_network_id cfg) (sb_sequence base +64 1) (sb_head base) (ur_event r) (ur_release_number r)
    (ur_approval_digest r) (ur_order r) (ur_subject r) (ur_status r) (ur_observations r).

Definition next_record env v : option UpgradeRecord :=
  let base := start_base v in
  let behind := negb (sb_sequence base =? uc_sequence (sv_state v)) in
  let record :=
    if negb behind && active (sv_state v) && negb (uc_halted (sv_state v)) then rollout_record env v else None in
  let record := match record with Some r => Some r | None => derive_start env base v end in
  place_record base <$> record.

Section consensus.
Context {St : Type} (hs : HotStuffConfig) (consensus : HotStuffService St).

(** The walk down to the committed blocks. Each turn goes to a stored parent, so
    the number of blocks bounds the turns; an unknown ancestor counts as one. *)
Fixpoint uncommitted_upgrade_ancestor (fuel : nat) (cursor : Digest) : bool :=
  if cursor =? genesis_digest hs then false
  else match fuel, block consensus cursor with
  | S fuel, Some b =>
      if p_height b <=? last_committed_height_ consensus then false
      else match block_payload consensus cursor with
           | Some (mkPayload ConsensusTypes.UpgradeProgress _) => true
           | _ => uncommitted_upgrade_ancestor fuel (p_parent_digest b)
           end
  | _, _ => true
  end.

Definition upgrade_block_open (from : Digest) : bool :=
  uncommitted_upgrade_ancestor (S (size (blocks_ consensus))) from.

Definition propose_upgrade env v : option ProposedPayload :=
  if negb (sv_healthy v) || bool_decide (ue_wall_clock env = None) then None
  else if upgrade_block_open (qc_proposal_digest (high_qc_ consensus)) then None
  else
    record ← next_record env v;
    let payload := upgrade_record_payload record in
    if bool_decide (bp_body payload = []) then None
    else Some (mkProposed payload (ur_previous record) (upgrade_record_digest record) 0).

(** ** Voting *)

Definition validate_upgrade env (proposal : Proposal) (payload : BlockPayload) v : bool :=
  if negb (sv_healthy v) || bool_decide (ue_wall_clock env = None) then false
  else match upgrade_record_from_payload payload with
  | None => false
  | Some record =>
      if negb (ur_network_id record =? ug_network_id cfg) then false
      else if upgrade_block_open (p_parent_digest proposal) then false
      else
        let s := sv_state v in
        let base := if bool_decide (ur_event record = EvStart) then start_base v
                    else mkStartBase (uc_sequence s) (uc_head s) false in
        let rebased := negb (sb_sequence base =? uc_sequence s) in
        if negb (p_previous_state_root proposal =? sb_head base) ||
           negb (p_proposed_state_root proposal =? upgrade_record_digest record) ||
           (rebased && (negb (ur_sequence record =? sb_sequence base +64 1) || negb (ur_previous record =? sb_head base)))
        then false
        else if rebased && sb_turn_open base then false
        else if negb (bool_decide (check_upgrade_record s record (witnesses_for env (p_epoch proposal)) rebased = UrNone))
        then false
        else
          let members := current_members env in
          match ur_event record with
          | EvStart =>
              match ue_chain env ≫= rv_current with
              | Some (release_number, approval_digest) =>
                  (approval_digest =? ur_approval_digest record) && (release_number =? ur_release_number record) &&
                  forallb (live v) members &&
                  bool_decide (derive_upgrade_order (ur_release_number record) members
                                 (tier2_participants env members v) = ur_order record)
              | None => false
              end
          | EvTurn =>
              match ur_status record with
              | Some status => status_fresh env status && everyone_live env v (ur_subject record)
              | None => false
              end
          | EvHalt => match ur_status record with Some status => status_fresh env status | None => false end
          | EvUpgraded => true
          end
  end.
End consensus.
End service.

(** ** The file of the records *)

Definition kRecordsFile : string := "upgrade-records.json".
Definition kRecordsFormatVersion : Z := 1.

(** The wire envelope of an upgrade message: [encode_security_message] of the
    message that [SecurityRouter::compose] makes of it in an epoch, and the
    upgrade message in the bytes that [decode_security_message] accepts. *)
Class UpgradeEnvelope := {
  encode_message : UpgradeMsg → EpochId → list Z;
  decode_message : list Z → option UpgradeMsg;
}.

Class UpgradeEnvelopeLaws `{UpgradeEnvelope} := {
  encode_message_bytes : ∀ message epoch, Forall is_byte (encode_message message epoch);
}.

Section files.
Context `{Sodium, TextCodec, HexCodec, ValueCodec, UpgradeEnvelope}.
Context (cfg : UpgradeServiceConfig).
Implicit Types (env : UpgradeEnv) (v : UpgradeService) (d : Disk) (records : list (UpgradeRecord * option CommitProof)).

Definition records_path : string := ug_directory cfg +:+ "/" +:+ kRecordsFile.

Definition encode_record_proof (record : UpgradeRecord) (proof : CommitProof) : list Z :=
  encode_message (record_proof_message record (Some proof)) (front_epoch proof).

(** The text of the proof kept with a record; empty: none. *)
Definition proof_text (entry : UpgradeRecord * option CommitProof) : string :=
  match entry.2 with
  | Some proof => if bool_decide (cp_chain proof = []) then ""%string else to_hex (encode_record_proof entry.1 proof)
  | None => ""%string
  end.

Definition records_document records : json :=
  object [("format_version", JUnsigned kRecordsFormatVersion);
          ("records", JArray ((λ entry, JString (to_hex (encode_upgrade_record entry.1))) <$> records));
          ("proofs", JArray ((λ entry, JString (proof_text entry)) <$> records))]%string.

(** [persist]; a failure is only logged. *)
Definition persist_records records d : bool * Disk :=
  write_atomic records_path (json_dump (records_document records)) d.

(** The outer [None]: a function throws. A proof is kept only for the record it
    was stored with. *)
Definition stored_proof (hex : string) (record : UpgradeRecord) : option (option CommitProof) :=
  if is_empty hex then Some None
  else
    bytes ← from_hex hex;
    Some (body ← decode_message bytes;
          if bool_decide (um_topic body = RecordProof) && bool_decide (um_body body = encode_upgrade_record record)
          then um_proof body else None).

(** [proofs[index]] as a string, when [index < proofs.size()]; the outer [None]:
    no array, or no string there. *)
Definition proof_entry (proofs : json) (index : nat) : option (option string) :=
  match proofs with
  | JNull => Some None
  | JArray items => match items !! index with Some item => Some <$> as_string item | None => Some None end
  | JObject fields => if (index <? size fields)%nat then None else Some None
  | _ => if (index =? 0)%nat then None else Some None
  end.

(** Stored records were checked when they finalized; the chaining is what a
    restart re-proves. A failure leaves the records read so far. *)
Fixpoint load_entries (proofs : json) (entries : list json) records (s : UpgradeChainState)
    : bool * list (UpgradeRecord * option CommitProof) * UpgradeChainState :=
  match entries with
  | [] => (true, records, s)
  | entry :: rest =>
      match (hex ← as_string entry; bytes ← from_hex hex; decode_upgrade_record bytes) with
      | None => (false, records, s)
      | Some record =>
          if negb (ur_network_id record =? ug_network_id cfg) then (false, records, s)
          else if (if bool_decide (records = []) then negb (bool_decide (ur_event record = EvStart))
                   else negb (ur_sequence record =? uc_sequence s +64 1) || negb (ur_previous record =? uc_head s) ||
                        bool_decide (ur_event record = EvStart))
          then (false, records, s)
          else
            let s := apply_upgrade_record s record in
            match proof_entry proofs (length records) with
            | None => (false, records, s)
            | Some None => load_entries proofs rest (records ++ [(record, None)]) s
            | Some (Some hex) =>
                match stored_proof hex record with
                | None => (false, records, s)
                | Some proof => load_entries proofs rest (records ++ [(record, proof)]) s
                end
            end
      end
  end.

Definition load_document (root : json) : bool * list (UpgradeRecord * option CommitProof) * UpgradeChainState :=
  match at_unsigned two32 root "format_version" with
  | None => (false, [], no_rollout)
  | Some version =>
      if negb (version =? kRecordsFormatVersion) then (false, [], no_rollout)
      else
        match at_key root "records" with
        | None => (false, [], no_rollout)
        | Some entries => load_entries (default (JArray []) (at_key root "proofs")) (items_of entries) [] no_rollout
        end
  end.

(** [exists] with an error code: an error is a failed load, a missing file an
    empty one. *)
Definition load d : bool * list (UpgradeRecord * option CommitProof) * UpgradeChainState * Disk :=
  let '(stat_ok, d) := succeeds d in
  if negb stat_ok then (false, [], no_rollout, d)
  else
    match DurableWrite.read_file records_path d with
    | None => (true, [], no_rollout, d)
    | Some text =>
        let '(opened, d) := succeeds d in
        if negb opened then (false, [], no_rollout, d)
        else
          match json_parse text with
          | None => (false, [], no_rollout, d)
          | Some root => (load_document root, d)
          end
    end.

(** [UpgradeService::start] *)
Definition upgrade_start env (now_ms : Z) v d : bool * UpgradeService * Disk * list UpgradeEffect :=
  let '(healthy, records, s, d) := load d in
  let v := v <| sv_now_ms := now_ms |> <| sv_records := records |> <| sv_state := s |> <| sv_healthy := healthy |> in
  (healthy, v, d, raise_release_floor env v).

(** The writes among the effects of a call, with the result of the last one. *)
Definition settle_record (saved_disk : bool * Disk) (e : UpgradeEffect) : bool * Disk :=
  match e with Persisted records => persist_records records saved_disk.2 | _ => saved_disk end.

Definition settle_records (effects : list UpgradeEffect) (saved_disk : bool * Disk) : bool * Disk :=
  foldl settle_record saved_disk effects.
End files.

(** ** Approvals *)

Section approvals.
Context `{Sodium, SodiumMessages, TextCodec, HexCodec, ValueCodec, UpgradeEnvelope}.
Context (cfg : UpgradeServiceConfig) (directory_ : string) (genesis_public_key : Ed25519PublicKey).
Implicit Types (env : UpgradeEnv) (v : UpgradeService) (c : ReleaseChain) (d : Disk).

(** What the service reads of the release chain. *)
Definition chain_view c : ReleaseView :=
  match chain_current c with
  | Some bundle =>
      mkReleaseView (Some (rl_release_number (bd_approval bundle), release_approval_digest (bd_approval bundle)))
        (highest_release_number c) (rl_approved_paths (bd_approval bundle)) (default [] (release_approval_bundle_json bundle))
  | None => mkReleaseView None (highest_release_number c) [] []
  end.

Definition with_chain env c : UpgradeEnv :=
  mkEnv (ue_epochs env) (ue_driver_epoch env) (ue_verified_authority env) (ue_authority_for_epoch env) (ue_driver_failed env)
    (Some (chain_view c)) (ue_wall_clock env) (ue_attestable env) (ue_consensus env) (ue_phase_active env) (ue_challenge env).

Definition adopted env : list UpgradeEffect :=
  match ue_chain env ≫= rv_current with Some _ => ReleaseAdopted :: broadcast_approval env | None => [] end.

(** The entries with the smallest keys go. *)
Definition trim_peers (m : gmap Z Z) : gmap Z Z := list_to_map (drop (size m - kSecurityTrackedPeers) (in_order m)).

Definition handle_offer env (sender : NodeId) (body : list Z) v c d
    : UpgradeService * ReleaseChain * Disk * list UpgradeEffect :=
  let last := default 0 (sv_last_offer_ms v !! sender) in
  if negb (last =? 0) && (sv_now_ms v -64 last <? kReleaseOfferWindowMs) then (v, c, d, [])
  else
    let v := v <| sv_last_offer_ms :=
                  trim_peers (<[ sender := if sv_now_ms v =? 0 then 1 else sv_now_ms v ]> (sv_last_offer_ms v)) |> in
    let '(result, c, d) := offer_json directory_ genesis_public_key (ug_network_id cfg) body c d in
    let env := with_chain env c in
    (v, c, d, match result with
              | Some OfferAdopted => adopted env
              | Some OfferStale => send_approval cfg env sender
              | _ => []
              end).

(** From the updater. *)
Definition offer_approval env (text : list Z) c d : option ReleaseOfferResult * ReleaseChain * Disk * list UpgradeEffect :=
  let '(result, c, d) := offer_json directory_ genesis_public_key (ug_network_id cfg) text c d in
  (result, c, d, match result with Some OfferAdopted => adopted (with_chain env c) | _ => [] end).

(** The floors that the accepted Start records raise. *)
Definition settle_floor (effects : list UpgradeEffect) c : ReleaseChain :=
  foldl (λ c e, match e with FloorRaised number => (raise_floor number c).2 | _ => c end) c effects.

Definition on_message env (sender : NodeId) (message : UpgradeMsg) v c d
    : UpgradeService * ReleaseChain * Disk * list UpgradeEffect :=
  let env := with_chain env c in
  if (sender =? ug_self cfg) || negb (sv_healthy v) then (v, c, d, [])
  else match um_topic message with
  | ApprovalOffer => handle_offer env sender (um_body message) v c d
  | TopicStatus => let '(v, effects) := handle_status cfg env sender (um_body message) v in (v, c, d, effects)
  | TopicObservation => (handle_observation cfg env sender (um_body message) v, c, d, [])
  | RecordProof =>
      let '(v, effects) := handle_record_proof cfg env sender message v in
      (v, settle_floor effects c, (settle_records cfg effects (true, d)).2, effects)
  | RecordRequest => (v, c, d, handle_record_request sender (um_body message) v)
  end.
End approvals.
