(* ===== verification/UpgradeServiceTheorems.v ===== *)
(** * Theorems about the upgrade service

    Whatever a server receives, its rollout state is that of an accepted chain of
    records, a start reads them back from the file after failed writes and
    crashes, what it holds back is bounded, an observation that it sends rests on
    a passing verdict, and a record that it proposes gets the votes of the servers
    that see the same. *)

From S2P Require Import Prelude SecurityPolicy CanonicalEncoding ConsensusTypes QuorumValidation Selection Json HotStuff.
From S2P Require Import EpochAuthority PlatformClaims EligibilityLedger AuthorityTheorems TreeConsensus ReleaseApproval.
From S2P Require Import DurableWrite FileStorage EligibilityStore TestCodec EligibilityServiceTheorems TreeTypes LinkToken TreeCodec NodeFiles ReleaseChain UpgradeProgress UpgradeTheorems UpgradeService.

Section service.
Context `{Sodium}.
Context (cfg : UpgradeServiceConfig).

(** ** Calls *)

Inductive UpgradeCall :=
  | CallTick (env : UpgradeEnv) (now_ms : Z)
  | CallSendStatus (env : UpgradeEnv)
  | CallStage (env : UpgradeEnv) (release_number : Z)
  | CallReportFailed (env : UpgradeEnv) (release_number : Z)
  | CallStatus (env : UpgradeEnv) (sender : NodeId) (body : list Z)
  | CallObservation (env : UpgradeEnv) (sender : NodeId) (body : list Z)
  | CallRecordProof (env : UpgradeEnv) (sender : NodeId) (message : UpgradeMsg)
  | CallCommitted (env : UpgradeEnv) (committed : CommittedPayload)
  | CallVerdict (env : UpgradeEnv) (verdict : AttestationVerdict)
  | CallChain (env : UpgradeEnv) (response : SyncResponse) (from : NodeId).

Definition call (c : UpgradeCall) (v : UpgradeService) : UpgradeService :=
  match c with
  | CallTick env now => (tick cfg env now v).1
  | CallSendStatus env => (send_status cfg env v).1
  | CallStage env release => (stage cfg env release v).1
  | CallReportFailed env release => (report_failed cfg env release v).1
  | CallStatus env sender body => (handle_status cfg env sender body v).1
  | CallObservation env sender body => handle_observation cfg env sender body v
  | CallRecordProof env sender message => (handle_record_proof cfg env sender message v).1
  | CallCommitted env committed => (on_upgrade_committed cfg env committed v).1
  | CallVerdict env verdict => (on_verdict cfg env verdict v).1
  | CallChain env response from => (on_certified_chain cfg env response from v).1
  end.

Definition calls (cs : list UpgradeCall) : UpgradeService := foldl (λ v c, call c v) new_upgrade_service cs.

(** What arrives is bytes. *)
Definition call_bytes (c : UpgradeCall) : Prop :=
  match c with
  | CallRecordProof _ _ message => Forall is_byte (um_body message)
  | CallCommitted _ committed => ∀ payload, cl_payload committed = Some payload → Forall is_byte (bp_body payload)
  | _ => True
  end.

(** ** The records that are kept *)

(** What a restart accepts. *)
Inductive stored : list UpgradeRecord → UpgradeChainState → Prop :=
  | stored_none : stored [] no_rollout
  | stored_start s r : ur_event r = EvStart → stored [r] (apply_upgrade_record s r)
  | stored_next rs s r :
      rs ≠ [] → stored rs s → ur_event r ≠ EvStart → ur_sequence r = uc_sequence s +64 1 → ur_previous r = uc_head s →
      stored (rs ++ [r]) (apply_upgrade_record s r).

Definition storable (r : UpgradeRecord) : Prop := record_fits r ∧ ur_network_id r = ug_network_id cfg.

Lemma start_forgets s s' r : ur_event r = EvStart → apply_upgrade_record s r = apply_upgrade_record s' r.
Proof. intros E. unfold apply_upgrade_record. by rewrite E. Qed.

(** The records are a chain that the server accepted, with the state [s]. *)
Definition chain_of (records : list (UpgradeRecord * option CommitProof)) (s : UpgradeChainState) : Prop :=
  (∃ steps, run_records no_rollout steps = Some s) ∧ stored records.*1 s ∧ Forall storable records.*1.

(** ** What every call keeps *)

Record service_ok (v : UpgradeService) : Prop := {
  so_run : ∃ steps, run_records no_rollout steps = Some (sv_state v);
  so_stored : stored (sv_records v).*1 (sv_state v);
  so_storable : Forall storable (sv_records v).*1;
  so_pending : ∀ q r p, sv_pending v !! q = Some (r, p) → ur_sequence r = q ∧ storable r;
  so_held : (size (sv_pending v) ≤ kMaxPendingRecords)%nat;
}.

Lemma run_records_snoc steps s s1 r w b :
  run_records s steps = Some s1 → check_upgrade_record s1 r w b = UrNone →
  run_records s (steps ++ [(r, w, b)]) = Some (apply_upgrade_record s1 r).
Proof. intros Hr Hc. rewrite (run_records_app _ _ _ _ Hr). cbn [run_records]. by rewrite bool_decide_eq_true_2. Qed.

(** The parts of the service that the records are made of. *)
Definition same_but_state (v v' : UpgradeService) : Prop :=
  sv_state v' = sv_state v ∧ sv_records v' = sv_records v ∧ sv_pending v' = sv_pending v.

Lemma same_ok v v' : same_but_state v v' → service_ok v → service_ok v'.
Proof. intros (E1 & E2 & E3) [R1 R2 R3 R4 R5]. split; rewrite ?E1, ?E2, ?E3; done. Qed.

(** A non-Start record extends the chain. *)
Lemma accepted_chained s r w b :
  check_upgrade_record s r w b = UrNone → ur_event r ≠ EvStart → ur_sequence r = uc_sequence s +64 1 ∧ ur_previous r = uc_head s.
Proof.
  unfold check_upgrade_record. intros Hc Hne. destruct (_ || _); [done|]. revert Hc. unfold is_rebase.
  rewrite (bool_decide_eq_false_2 (ur_event r = EvStart)) by done. rewrite andb_false_r. cbn [andb negb].
  destruct (_ || _) eqn:E; [done|]. intros _. bool_to_prop. done.
Qed.

Lemma stored_nil rs s : stored rs s → rs = [] → s = no_rollout.
Proof. intros Hs Hnil. destruct Hs; [done|done|]. by apply app_eq_nil in Hnil as [_ ?]. Qed.

Lemma take_ok env r p w b v ok v' es :
  take_record cfg env r p w b v = (ok, v', es) → service_ok v → storable r → service_ok v'.
Proof.
  unfold take_record. destruct (_ <=? _); [by intros [= <- <- <-]|].
  destruct (bool_decide (check_upgrade_record _ _ _ _ = UrNone)) eqn:Ec; cbn [negb]; [|by intros [= <- <- <-]].
  apply bool_decide_eq_true in Ec. cbv zeta. intros Hv [(steps & R1) R2 R3 R4 R5] Hr. injection Hv as <- <- <-.
  split; [|..].
  - exists (steps ++ [(r, w, b)]). by apply run_records_snoc.
  - change (stored ((if bool_decide (ur_event r = EvStart) then [] else sv_records v) ++ [(r, p)]).*1 (apply_upgrade_record (sv_state v) r)).
    rewrite fmap_app. case_bool_decide as Ev; [by apply stored_start|].
    destruct (accepted_chained _ _ _ _ Ec Ev) as [H1 H2]. apply stored_next; try done.
    intros Hnil. pose proof (stored_nil _ _ R2 Hnil) as Hno. rewrite Hno in Ec. revert Ec. unfold check_upgrade_record.
    destruct (_ || _); [done|]. destruct (negb _ && _); [done|]. rewrite bool_decide_eq_false_2 by done. done.
  - change (Forall storable ((if bool_decide (ur_event r = EvStart) then [] else sv_records v) ++ [(r, p)]).*1).
    rewrite fmap_app. apply Forall_app. split; [|by constructor]. case_bool_decide; [constructor|done].
  - exact R4.
  - exact R5.
Qed.

Lemma without_ok q v : service_ok v → service_ok (v <| sv_pending := delete q (sv_pending v) |>).
Proof.
  intros [R1 R2 R3 R4 R5]. split; try done.
  - change (∀ q' r p, delete q (sv_pending v) !! q' = Some (r, p) → ur_sequence r = q' ∧ storable r).
    intros q' r p [_ Hq]%lookup_delete_Some. by eapply R4.
  - change (size (delete q (sv_pending v)) ≤ kMaxPendingRecords)%nat.
    etrans; [apply map_subseteq_size, delete_subseteq|exact R5].
Qed.

Lemma first_pending_in v q x : first_pending v = Some (q, x) → sv_pending v !! q = Some x.
Proof.
  unfold first_pending. intros Hh. apply elem_of_in_order. destruct (in_order (sv_pending v)); [done|]. injection Hh as ->. by left.
Qed.

Lemma drain_ok fuel env v : service_ok v → service_ok (drain_pending cfg fuel env v).1.
Proof.
  revert v. induction fuel as [|fuel IH]; intros v Hv; cbn [drain_pending]; [done|].
  destruct (first_pending v) as [[q [r p]]|] eqn:Ef; [|done].
  destruct (so_pending v Hv q r p (first_pending_in _ _ _ Ef)) as [_ Hr].
  pose proof (without_ok q v Hv) as Hw. destruct (_ <=? _); [by apply IH|]. destruct (negb _); [done|].
  destruct (witnesses_for cfg env _) as [w|]; [|done].
  destruct (take_record cfg env r (Some p) (Some w) false _) as [[ok v1] e1] eqn:Et.
  pose proof (take_ok _ _ _ _ _ _ _ _ _ Et Hw Hr) as H1. destruct ok; cbn [negb]; [|done].
  pose proof (IH v1 H1) as H2. destruct (drain_pending cfg fuel env v1) as [v2 e2].
  pose proof (IH v2 H2) as H3. destruct (drain_pending cfg fuel env v2) as [v3 e3]. done.
Qed.

Lemma accept_record_ok env r p w b v : service_ok v → storable r → service_ok (accept_record cfg env r p w b v).1.2.
Proof.
  intros Hv Hr. unfold accept_record. destruct (take_record cfg env r p w b v) as [[ok v1] e1] eqn:Et.
  pose proof (take_ok _ _ _ _ _ _ _ _ _ Et Hv Hr) as H1. destruct ok; cbn [negb]; [|done].
  pose proof (drain_ok (S (size (sv_pending v1))) env v1 H1) as H2. destruct (drain_pending _ _ _ _) as [v2 e2]. done.
Qed.

Lemma committed_ok env committed v :
  call_bytes (CallCommitted env committed) → service_ok v → service_ok (on_upgrade_committed cfg env committed v).1.
Proof.
  cbn [call_bytes]. intros Hb Hv. unfold on_upgrade_committed. destruct (negb _); [done|].
  destruct (cl_payload committed) as [payload|] eqn:Ep; [|done]. specialize (Hb _ eq_refl). unfold upgrade_record_from_payload.
  case_bool_decide; [|done]. destruct (decode_upgrade_record (bp_body payload)) as [r|] eqn:Ed; [|done].
  destruct (Z.eqb_spec (ur_network_id r) (ug_network_id cfg)) as [Hn|]; [|done]. cbn [negb]. cbv zeta.
  destruct (decoded_encodes _ _ Hb Ed) as [Hf _].
  pose proof (accept_record_ok env r (cl_proof committed) (witnesses_for cfg env (p_epoch (cl_proposal committed))) true v Hv (conj Hf Hn)) as H1.
  destruct (accept_record _ _ _ _ _ _ _) as [[ok v1] e1]. by destruct ok.
Qed.

Lemma fill_proof_records body proof records q records' :
  fill_proof body proof records = Some (q, records') → records'.*1 = records.*1.
Proof.
  revert q records'. induction records as [|[r held] records IH]; intros q records'; cbn [fill_proof]; [done|].
  destruct (_ && _); [by intros [= <- <-]|]. destruct (fill_proof body proof records) as [[q' rest]|]; [|done].
  cbn [mbind option_bind]. intros [= <- <-]. rewrite !fmap_cons. f_equal. by eapply IH.
Qed.

Lemma recover_ok env body proof v : service_ok v → service_ok (recover_proof cfg env body proof v).1.2.
Proof.
  intros Hv. unfold recover_proof. destruct (fill_proof _ _ _) as [[q records]|] eqn:Ef; [|done].
  destruct (verified_proof_epoch _ _ _ _); [|done]. apply fill_proof_records in Ef. cbv zeta. cbn [fst snd].
  apply (same_ok (v <| sv_records := records |>)); [by destruct (sv_proof_search _) as [search|]; [destruct (_ =? _)|]|].
  destruct Hv as [R1 R2 R3 R4 R5]. split; [exact R1| | |exact R4|exact R5].
  - change (stored records.*1 (sv_state v)). by rewrite Ef.
  - change (Forall storable records.*1). by rewrite Ef.
Qed.

Lemma held_ok q r p v :
  service_ok v → storable r → ur_sequence r = q →
  service_ok (if (size (sv_pending v) <? kMaxPendingRecords)%nat then v <| sv_pending := <[ q := (r, p) ]> (sv_pending v) |> else v).
Proof.
  intros Hv Hr Hq. destruct (Nat.ltb_spec (size (sv_pending v)) kMaxPendingRecords); [|done]. destruct Hv as [R1 R2 R3 R4 R5].
  split; try done.
  - change (∀ q' r' p', <[ q := (r, p) ]> (sv_pending v) !! q' = Some (r', p') → ur_sequence r' = q' ∧ storable r').
    intros q' r' p' [[<- [= <- <-]]|[_ Hl]]%lookup_insert_Some; [done|by eapply R4].
  - change (size (<[ q := (r, p) ]> (sv_pending v)) ≤ kMaxPendingRecords)%nat. rewrite map_size_insert.
    destruct (sv_pending v !! q); cbn; lia.
Qed.

Lemma record_proof_ok env sender message v :
  call_bytes (CallRecordProof env sender message) → service_ok v → service_ok (handle_record_proof cfg env sender message v).1.
Proof.
  cbn [call_bytes]. intros Hb Hv. unfold handle_record_proof. destruct (um_proof message) as [proof|]; [|done].
  case_bool_decide; [done|]. destruct (decode_upgrade_record (um_body message)) as [r|] eqn:Ed; [|done].
  destruct (Z.eqb_spec (ur_network_id r) (ug_network_id cfg)) as [Hn|]; [|done]. cbn [negb].
  destruct (decoded_encodes _ _ Hb Ed) as [Hf _]. assert (Hr : storable r) by done.
  destruct (_ <=? _).
  { pose proof (recover_ok env (um_body message) proof v Hv) as H1. by destruct (recover_proof _ _ _ _ _) as [[ok v1] e1]. }
  destruct (bool_decide (is_Some (sv_pending v !! _))); [done|]. destruct (verified_proof_epoch _ _ _ _) as [epoch|]; [|done].
  destruct (witnesses_for cfg env epoch) as [w|]; [|done].
  assert (H1 : ∀ ok v1 e1, (if (ur_sequence r =? uc_sequence (sv_state v) +64 1) || bool_decide (ur_event r = EvStart)
                 then accept_record cfg env r (Some proof) (Some w) true v else (false, v, [])) = (ok, v1, e1) → service_ok v1).
  { intros ok v1 e1. destruct (_ || _); [|by intros [= <- <- <-]]. intros E.
    pose proof (accept_record_ok env r (Some proof) (Some w) true v Hv Hr) as Ha. by rewrite E in Ha. }
  destruct (if _ || _ then _ else _) as [[ok v1] e1] eqn:Ea. specialize (H1 _ _ _ eq_refl).
  destruct ok; [done|]. cbn [fst]. by apply held_ok.
Qed.

Lemma same_trans v1 v2 v3 : same_but_state v1 v2 → same_but_state v2 v3 → same_but_state v1 v3.
Proof. intros (E1 & E2 & E3) (F1 & F2 & F3). split_and!; congruence. Qed.

Lemma send_status_same env v : same_but_state v (send_status cfg env v).1.
Proof. unfold send_status. by destruct (ue_wall_clock env). Qed.

Lemma at_position_same subject v : same_but_state v (at_position subject v).
Proof. unfold at_position. by destruct (_ || _). Qed.

Lemma witness_same env v : same_but_state v (witness cfg env v).1.
Proof.
  unfold witness. destruct (_ || _); [done|]. destruct (witness_subject _ _ _) as [subject|]; [|done].
  destruct (_ || _); [done|]. cbv zeta. eapply same_trans; [apply (at_position_same subject)|].
  destruct (sv_observations _ !! _) as [own|].
  - unfold resend_observation. destruct (match sv_pending_witness _ with Some _ => _ | None => _ end); done.
  - unfold challenge_subject. destruct (match sv_pending_witness _ with Some _ => _ | None => _ end); [done|].
    destruct (fresh_status _ _ _ _); [|done]. destruct (_ || _); [done|]. by destruct (ue_challenge _ _ _ _).
Qed.

Lemma on_verdict_same env verdict v : same_but_state v (on_verdict cfg env verdict v).1.
Proof.
  unfold on_verdict. destruct (sv_pending_witness v); [|done]. destruct (_ || _); [done|].
  eapply same_trans; [|apply witness_same]. done.
Qed.

Lemma request_page_same env after v : same_but_state v (request_page env after v).1.
Proof. unfold request_page. by destruct (sv_proof_search v). Qed.

Lemma sync_records_same env v : same_but_state v (sync_records cfg env v).1.
Proof.
  unfold sync_records. destruct (_ !! _) as [target|]; [|done]. cbv zeta.
  destruct (first_unproven _) as [[index record]|]; [|done].
  set (v1 := v <| sv_sync_cursor := _ |>). assert (H1 : same_but_state v v1) by done.
  assert (H2 : same_but_state v1 (search_proof cfg env index record target v1).1).
  { unfold search_proof. destruct (_ || _); [done|]. destruct (match sv_proof_search v1 with Some _ => _ | None => _ end); [done|].
    destruct (search_bounds _ _ _) as [[lower upper]|]; [|done]. eapply same_trans; [|apply request_page_same]. done. }
  destruct (search_proof _ _ _ _ _ _) as [v2 e2]. by apply (same_trans v v1).
Qed.

Lemma tick_same env now v : same_but_state v (tick cfg env now v).1.
Proof.
  unfold tick. set (v0 := v <| sv_now_ms := now |>). assert (H0 : same_but_state v v0) by done. destruct (negb _); [done|].
  assert (H1 : same_but_state v0 (if cadence_due kUpgradeStatusIntervalMs (sv_status_sent_ms v0) now
    then send_status cfg env (v0 <| sv_status_sent_ms := now |>) else (v0, [])).1).
  { destruct (cadence_due _ _ _); [|done]. eapply same_trans; [|apply send_status_same]. done. }
  destruct (if cadence_due _ _ _ then _ else _) as [v1 e1]. cbn [fst] in H1.
  pose proof (witness_same env v1) as H2. destruct (witness cfg env v1) as [v2 e2]. cbn [fst] in H2.
  assert (H3 : same_but_state v2 (if cadence_due (2 * kUpgradeStatusIntervalMs) (sv_sync_sent_ms v2) now
    then sync_records cfg env (v2 <| sv_sync_sent_ms := now |>) else (v2, [])).1).
  { destruct (cadence_due _ _ _); [|done]. eapply same_trans; [|apply sync_records_same]. done. }
  destruct (if cadence_due _ _ _ then _ else _) as [v3 e3]. cbn [fst] in H3.
  assert (H4 : same_but_state v3 (match sv_proof_search v3 with
    | Some search => match ps_next_after search with Some after => request_page env after v3 | None => (v3, []) end
    | None => (v3, []) end).1).
  { destruct (sv_proof_search v3) as [search|]; [|done]. destruct (ps_next_after search); [|done]. apply request_page_same. }
  destruct (match sv_proof_search v3 with Some _ => _ | None => _ end) as [v4 e4]. cbn [fst] in *.
  eauto using same_trans.
Qed.

Lemma recover_chain_ok env qc chain wanted v : service_ok v → service_ok (recover_from_chain cfg env qc chain wanted v).1.
Proof.
  revert wanted v. induction chain as [|b0 chain IH]; intros wanted v Hv; cbn [recover_from_chain]; [done|].
  destruct chain as [|b1 [|b2 later]]; [done..|]. destruct (take_wanted _ _) as [[body others]|]; [|by apply IH].
  pose proof (recover_ok env body (mkProof [b0; b1; b2] (match later with b3 :: _ => cb_justify b3 | [] => qc end)) v Hv) as H1.
  destruct (recover_proof _ _ _ _ _) as [[ok v1] e1]. cbn [fst snd] in H1.
  pose proof (IH (if ok then others else wanted) v1 H1) as H2. destruct (recover_from_chain _ _ _ _ _ _) as [v2 e2]. done.
Qed.

Lemma next_page_same response from v : same_but_state v (next_page response from v).
Proof.
  unfold next_page. destruct (sv_proof_search v); [|done]. destruct (_ || _); [done|]. cbv zeta. by destruct (_ || _).
Qed.

Lemma certified_chain_ok env response from v : service_ok v → service_ok (on_certified_chain cfg env response from v).1.
Proof.
  intros Hv. unfold on_certified_chain. destruct (_ || _); [done|].
  pose proof (recover_chain_ok env (sr_high_qc response) (sr_chain response) (wanted_body v) v Hv) as H1.
  destruct (recover_from_chain _ _ _ _ _ _) as [v1 e1]. cbn [fst] in *. by eapply same_ok; [apply next_page_same|].
Qed.

Lemma handle_status_same env sender body v : same_but_state v (handle_status cfg env sender body v).1.
Proof.
  unfold handle_status. destruct (decode_upgrade_status body); [|done]. destruct (_ || _); [done|]. cbv zeta.
  destruct (match sv_statuses v !! _ with Some _ => _ | None => _ end); [done|]. unfold push_approval.
  destruct (ue_chain env); [|done]. destruct (_ && _); [|done]. cbv zeta. by destruct (_ || _).
Qed.

Lemma call_ok c v : call_bytes c → service_ok v → service_ok (call c v).
Proof.
  intros Hb Hv. destruct c; cbn [call];
    [eapply same_ok; [apply tick_same|done]|eapply same_ok; [apply send_status_same|done]| | |
     eapply same_ok; [apply handle_status_same|done]| |by apply record_proof_ok|by apply committed_ok|
     eapply same_ok; [apply on_verdict_same|done]|by apply certified_chain_ok].
  - eapply same_ok; [|exact Hv]. unfold stage. cbv zeta. eapply same_trans; [|apply send_status_same]. by destruct (_ =? _).
  - eapply same_ok; [|exact Hv]. unfold report_failed. destruct (_ =? _); [done|].
    eapply same_trans; [|apply send_status_same]. done.
  - unfold handle_observation. cbv zeta. destruct (_ || _); [done|]. destruct (decode_upgrade_observation body); [|done].
    destruct (_ || _); [done|]. destruct (negb _); [done|]. destruct (_ || _); by apply (same_ok v).
Qed.

Lemma new_upgrade_service_ok : service_ok new_upgrade_service.
Proof. split; [by exists []|exact stored_none|exact (Forall_nil_2 _)|intros q r p E; by destruct (lookup_empty_Some q (r, p) E)|vm_compute; lia]. Qed.

Lemma calls_ok cs : Forall call_bytes cs → service_ok (calls cs).
Proof.
  unfold calls. generalize new_upgrade_service new_upgrade_service_ok. induction cs as [|c cs IH]; intros v Hv Hb; [done|].
  apply Forall_cons in Hb as [Hc Hb]. cbn [foldl]. apply IH; [by apply call_ok|done].
Qed.

(** ** Draining ends *)

Lemma take_keeps_pending env r p w b v : sv_pending (take_record cfg env r p w b v).1.2 = sv_pending v.
Proof. unfold take_record. destruct (_ <=? _); [done|]. by destruct (negb _). Qed.

Lemma without_smaller q x v :
  sv_pending v !! q = Some x → (S (size (sv_pending (v <| sv_pending := delete q (sv_pending v) |>))) = size (sv_pending v))%nat.
Proof.
  intros Hq. change (sv_pending (v <| sv_pending := delete q (sv_pending v) |>)) with (delete q (sv_pending v)).
  rewrite map_size_delete, Hq. assert (size (sv_pending v) ≠ 0)%nat; [|cbn; lia].
  intros Hz%map_size_empty_inv. by rewrite Hz, lookup_empty in Hq.
Qed.

Lemma drain_shrinks fuel env v : (size (sv_pending (drain_pending cfg fuel env v).1) ≤ size (sv_pending v))%nat.
Proof.
  revert v. induction fuel as [|fuel IH]; intros v; cbn [drain_pending]; [done|].
  destruct (first_pending v) as [[q [r p]]|] eqn:Ef; [|done]. pose proof (without_smaller _ _ _ (first_pending_in _ _ _ Ef)) as Hw.
  set (v0 := v <| sv_pending := delete q (sv_pending v) |>) in *. destruct (_ <=? _); [pose proof (IH v0); lia|].
  destruct (negb _); [done|]. destruct (witnesses_for cfg env _) as [w|]; [|cbn [fst]; lia].
  pose proof (take_keeps_pending env r (Some p) (Some w) false v0) as Ht.
  destruct (take_record cfg env r (Some p) (Some w) false v0) as [[ok v1] e1]. cbn [fst snd] in Ht.
  destruct ok; cbn [negb]; [|cbn [fst]; rewrite Ht; lia].
  pose proof (IH v1) as H2. destruct (drain_pending cfg fuel env v1) as [v2 e2]. cbn [fst] in H2.
  pose proof (IH v2) as H3. destruct (drain_pending cfg fuel env v2) as [v3 e3]. cbn [fst] in H3 |- *. rewrite Ht in H2. lia.
Qed.

(** Draining the records held ahead of a gap ends: one turn more than there are
    records is enough, and more turns give the same. *)
Theorem upgrade_drain_ends env v k :
  drain_pending cfg (S (size (sv_pending v)) + k) env v = drain_pending cfg (S (size (sv_pending v))) env v.
Proof.
  enough (Hgo : ∀ fuel v, (size (sv_pending v) < fuel)%nat → drain_pending cfg (fuel + k) env v = drain_pending cfg fuel env v)
    by (apply Hgo; lia).
  clear v. induction fuel as [|fuel IH]; intros v Hf; [lia|]. cbn [Nat.add drain_pending].
  destruct (first_pending v) as [[q [r p]]|] eqn:Ef; [|done]. pose proof (without_smaller _ _ _ (first_pending_in _ _ _ Ef)) as Hw.
  set (v0 := v <| sv_pending := delete q (sv_pending v) |>) in *. destruct (_ <=? _); [apply IH; lia|].
  destruct (negb _); [done|]. destruct (witnesses_for cfg env _) as [w|]; [|done].
  pose proof (take_keeps_pending env r (Some p) (Some w) false v0) as Ht.
  destruct (take_record cfg env r (Some p) (Some w) false v0) as [[ok v1] e1]. cbn [fst snd] in Ht.
  destruct ok; cbn [negb]; [|done]. rewrite IH by (rewrite Ht; lia).
  pose proof (drain_shrinks fuel env v1) as H2. destruct (drain_pending cfg fuel env v1) as [v2 e2]. cbn [fst] in H2.
  rewrite IH; [done|]. rewrite Ht in H2. lia.
Qed.

(** ** What is collected is sound *)

(** The own key signs for the own identity. *)
Definition signs_for_self : Prop :=
  ∀ d, ∃ sig, crypto_sign_detached (ug_private_key cfg) d = Some sig ∧ crypto_sign_verify_detached sig d (ug_self cfg) = true.

Record collected_ok (v : UpgradeService) : Prop := {
  co_statuses : ∀ n st, sv_statuses v !! n = Some st →
    us_node st = n ∧ us_network_id st = ug_network_id cfg ∧ verify_upgrade_status st = true;
  co_observations : ∀ n o, sv_observations v !! n = Some o →
    uo_witness o = n ∧ uo_network_id o = ug_network_id cfg ∧ uo_subject o = sv_observations_subject v ∧
    uo_chain_head o = sv_observations_head v ∧ uo_release_number o = uc_release_number (sv_state v) ∧
    verify_upgrade_observation o = true;
  co_position : ∀ pending, sv_pending_witness v = Some pending →
    expected_subject (sv_state v) = Some (pw_subject pending) ∧ sv_observations_subject v = pw_subject pending ∧
    sv_observations_head v = uc_head (sv_state v);
}.

(** A call that changes none of what is collected. *)
Definition same_collected (v v' : UpgradeService) : Prop :=
  sv_state v' = sv_state v ∧ sv_statuses v' = sv_statuses v ∧ sv_observations v' = sv_observations v ∧
  sv_observations_subject v' = sv_observations_subject v ∧ sv_observations_head v' = sv_observations_head v ∧
  sv_pending_witness v' = sv_pending_witness v.

Lemma collected_same v v' : same_collected v v' → collected_ok v → collected_ok v'.
Proof. intros (E1 & E2 & E3 & E4 & E5 & E6) [C1 C2 C3]. split; rewrite ?E1, ?E2, ?E3, ?E4, ?E5, ?E6; done. Qed.

(** At another position nothing is observed and nothing is awaited. *)
Lemma collected_cleared v v' :
  sv_statuses v' = sv_statuses v → sv_observations v' = ∅ → sv_pending_witness v' = None → collected_ok v → collected_ok v'.
Proof.
  intros E1 E2 E3 [C1 C2 C3]. split; [by rewrite E1|intros n o Ho; by rewrite E2, lookup_empty in Ho|intros q Hq; by rewrite E3 in Hq].
Qed.

Lemma take_collected env r p w b v : collected_ok v → collected_ok (take_record cfg env r p w b v).1.2.
Proof. unfold take_record. destruct (_ <=? _); [done|]. destruct (negb _); [done|]. by apply collected_cleared. Qed.

Lemma drain_collected fuel env v : collected_ok v → collected_ok (drain_pending cfg fuel env v).1.
Proof.
  revert v. induction fuel as [|fuel IH]; intros v Hv; cbn [drain_pending]; [done|].
  destruct (first_pending v) as [[q [r p]]|] eqn:Ef; [|done].
  assert (Hw : collected_ok (v <| sv_pending := delete q (sv_pending v) |>)) by (by apply (collected_same v)).
  destruct (_ <=? _); [by apply IH|]. destruct (negb _); [done|]. destruct (witnesses_for cfg env _) as [w|]; [|done].
  pose proof (take_collected env r (Some p) (Some w) false _ Hw) as H1.
  destruct (take_record cfg env r (Some p) (Some w) false _) as [[ok v1] e1]. destruct ok; cbn [negb]; [|done].
  pose proof (IH v1 H1) as H2. destruct (drain_pending cfg fuel env v1) as [v2 e2].
  pose proof (IH v2 H2) as H3. destruct (drain_pending cfg fuel env v2) as [v3 e3]. done.
Qed.

Lemma accept_collected env r p w b v : collected_ok v → collected_ok (accept_record cfg env r p w b v).1.2.
Proof.
  intros Hv. unfold accept_record. pose proof (take_collected env r p w b v Hv) as H1.
  destruct (take_record cfg env r p w b v) as [[ok v1] e1]. destruct ok; cbn [negb]; [|done].
  pose proof (drain_collected (S (size (sv_pending v1))) env v1 H1) as H2. by destruct (drain_pending _ _ _ _).
Qed.

Lemma add_status v st at_ms :
  us_network_id st = ug_network_id cfg → verify_upgrade_status st = true → collected_ok v →
  collected_ok (v <| sv_statuses := <[ us_node st := st ]> (sv_statuses v) |>
                  <| sv_last_status_ms := <[ us_node st := at_ms ]> (sv_last_status_ms v) |>).
Proof.
  intros Hn Hs [C1 C2 C3]. split; [|exact C2|exact C3].
  change (∀ n st', <[ us_node st := st ]> (sv_statuses v) !! n = Some st' →
    us_node st' = n ∧ us_network_id st' = ug_network_id cfg ∧ verify_upgrade_status st' = true).
  intros n st' [[<- <-]|[_ Hl]]%lookup_insert_Some; [done|by apply C1].
Qed.

Lemma send_collected env v : signs_for_self → collected_ok v → collected_ok (send_status cfg env v).1.
Proof.
  intros Hsig Hv. unfold send_status. destruct (ue_wall_clock env) as [now|]; [|done]. cbn [fst].
  apply (add_status v (own_status cfg env v now)); [done| |done].
  unfold own_status, verify_upgrade_status, verify_signature, sign_upgrade_status. cbn [us_signature us_node].
  match goal with |- context [default _ (crypto_sign_detached _ ?d)] => destruct (Hsig d) as (sig & -> & Hok) end. exact Hok.
Qed.

Lemma push_same env st v : same_collected v (push_approval cfg env st v).1.
Proof.
  unfold push_approval. destruct (ue_chain env); [|done]. destruct (_ && _); [|done]. cbv zeta. by destruct (_ || _).
Qed.

Lemma status_collected env sender body v : collected_ok v → collected_ok (handle_status cfg env sender body v).1.
Proof.
  intros Hv. unfold handle_status. destruct (decode_upgrade_status body) as [st|]; [|done].
  destruct (negb (us_node st =? sender) || _ || _ || _) eqn:E; [done|]. cbv zeta.
  destruct (match sv_statuses v !! _ with Some _ => _ | None => _ end); [done|]. bool_to_prop.
  eapply collected_same; [apply push_same|]. by apply add_status.
Qed.

(** The own key's observation, or another's, joins those of the position. *)
Lemma add_observation v v' o :
  collected_ok v → sv_state v' = sv_state v → sv_statuses v' = sv_statuses v →
  sv_observations v' = <[ uo_witness o := o ]> (sv_observations v) →
  sv_observations_subject v' = sv_observations_subject v → sv_observations_head v' = sv_observations_head v →
  sv_pending_witness v' = sv_pending_witness v ∨ sv_pending_witness v' = None →
  uo_network_id o = ug_network_id cfg → uo_subject o = sv_observations_subject v → uo_chain_head o = sv_observations_head v →
  uo_release_number o = uc_release_number (sv_state v) → verify_upgrade_observation o = true → collected_ok v'.
Proof.
  intros [C1 C2 C3] E1 E2 E3 E4 E5 E6 O1 O2 O3 O4 O5. split; rewrite ?E1, ?E2, ?E3, ?E4, ?E5; [done| |].
  - intros n o' [[<- <-]|[_ Hl]]%lookup_insert_Some; [done|by apply C2].
  - intros q Hq. apply C3. destruct E6 as [E6|E6]; rewrite E6 in Hq; done.
Qed.

Lemma observation_collected env sender body v : collected_ok v → collected_ok (handle_observation cfg env sender body v).
Proof.
  intros Hv. unfold handle_observation. cbv zeta. destruct (negb (member_now _ _) || _ || _); [done|].
  destruct (decode_upgrade_observation body) as [o|]; [|done].
  destruct (negb (uo_witness o =? sender) || _ || _ || _ || _ || _ || _) eqn:E; [done|].
  destruct (bool_decide (expected_subject (sv_state v) = _)) eqn:Es; [|done]. apply bool_decide_eq_true in Es. cbn [negb]. bool_to_prop.
  set (v1 := if negb (sv_observations_subject v =? uo_subject o) || _ then _ else v).
  assert (Hv1 : collected_ok v1 ∧ sv_observations_subject v1 = uo_subject o ∧ sv_observations_head v1 = uc_head (sv_state v1) ∧
               sv_state v1 = sv_state v).
  { unfold v1. destruct (negb (sv_observations_subject v =? uo_subject o) || _) eqn:E1; [|bool_to_prop; done].
    split_and!; try done. split; [apply Hv|intros n o' Ho; by destruct (lookup_empty_Some n o' Ho)|].
    intros q Hq. destruct (co_position v Hv q Hq) as (P1 & P2 & P3). rewrite Es in P1. injection P1 as P1. by rewrite <-P1. }
  destruct Hv1 as (Hok & Eo & Eh & Est). eapply (add_observation v1 _ o); try done; try congruence; by left.
Qed.

Lemma at_position_collected subject v : expected_subject (sv_state v) = Some subject → collected_ok v →
  collected_ok (at_position subject v) ∧ sv_observations_subject (at_position subject v) = subject ∧
  sv_observations_head (at_position subject v) = uc_head (sv_state v) ∧ sv_state (at_position subject v) = sv_state v.
Proof.
  intros Hs Hv. unfold at_position. destruct (negb (sv_observations_subject v =? subject) || _) eqn:E; [|bool_to_prop; by split_and!].
  split_and!; try done. by apply (collected_cleared v).
Qed.

Lemma wait_collected subject context v :
  expected_subject (sv_state v) = Some subject → sv_observations_subject v = subject → sv_observations_head v = uc_head (sv_state v) →
  collected_ok v → collected_ok (wait_for subject context v).
Proof. intros H1 H2 H3 [C1 C2 C3]. split; [exact C1|exact C2|]. intros q [= <-]. done. Qed.

Lemma witness_expected env v subject : witness_subject cfg env v = Some subject → expected_subject (sv_state v) = Some subject.
Proof.
  unfold witness_subject, expected_subject. destruct (uc_in_turn (sv_state v)); [done|]. destruct (next_subject (sv_state v)) as [n|]; [|done].
  cbn [mbind option_bind]. destruct (fresh_status _ _ _ _); [|done]. cbn [mbind option_bind]. by destruct (_ =? _).
Qed.

Lemma forget_collected v : collected_ok v → collected_ok (v <| sv_pending_witness := None |>).
Proof. intros [C1 C2 C3]. split; [exact C1|exact C2|]. intros q Hq. discriminate. Qed.

Lemma witness_collected env v : collected_ok v → collected_ok (witness cfg env v).1.
Proof.
  intros Hv. unfold witness. destruct (_ || _); [by apply forget_collected|].
  destruct (witness_subject _ _ _) as [subject|] eqn:Es; [|done]. apply witness_expected in Es.
  destruct (_ || _); [done|]. cbv zeta. destruct (at_position_collected subject v Es Hv) as (H1 & H2 & H3 & H4).
  set (v1 := at_position subject v) in *.
  assert (Hw : ∀ context, collected_ok (wait_for subject context v1)).
  { intros context. apply wait_collected; by rewrite ?H4. }
  destruct (sv_observations _ !! _) as [own|].
  - unfold resend_observation. destruct (match sv_pending_witness _ with Some _ => _ | None => _ end); [done|]. by apply Hw.
  - unfold challenge_subject. destruct (match sv_pending_witness _ with Some _ => _ | None => _ end); [done|].
    destruct (fresh_status _ _ _ _); [|done]. destruct (_ || _); [done|]. destruct (ue_challenge _ _ _ _); [by apply Hw|done].
Qed.

Lemma own_observation_verifies verdict subject v :
  signs_for_self → av_evidence_digest verdict ≠ 0 → verify_upgrade_observation (own_observation cfg verdict subject v) = true.
Proof.
  intros Hsig He. unfold own_observation, verify_upgrade_observation, verify_signature, sign_upgrade_observation.
  cbn [uo_signature uo_witness uo_evidence_digest]. rewrite (proj2 (Z.eqb_neq _ _) He). cbn [negb andb].
  match goal with |- context [default _ (crypto_sign_detached _ ?d)] => destruct (Hsig d) as (sig & -> & Hok) end. exact Hok.
Qed.

Lemma verdict_collected env verdict v : signs_for_self → collected_ok v → collected_ok (on_verdict cfg env verdict v).1.
Proof.
  intros Hsig Hv. unfold on_verdict. destruct (sv_pending_witness v) as [q|] eqn:Eq; [|done].
  destruct (_ || _ || _) eqn:Ej; [done|]. unfold proves_release in Ej. bool_to_prop.
  apply witness_collected. destruct (co_position v Hv q Eq) as (P1 & P2 & P3).
  apply (add_observation v _ (own_observation cfg verdict (pw_subject q) v)); try done; [by right|by apply own_observation_verifies].
Qed.

Lemma page_same env after v : same_collected v (request_page env after v).1.
Proof. unfold request_page. by destruct (sv_proof_search v). Qed.

Lemma same_collected_trans v1 v2 v3 : same_collected v1 v2 → same_collected v2 v3 → same_collected v1 v3.
Proof. intros (E1 & E2 & E3 & E4 & E5 & E6) (F1 & F2 & F3 & F4 & F5 & F6). split_and!; congruence. Qed.

Lemma sync_same env v : same_collected v (sync_records cfg env v).1.
Proof.
  unfold sync_records. destruct (_ !! _) as [target|]; [|done]. cbv zeta.
  destruct (first_unproven _) as [[index record]|]; [|done].
  set (v1 := v <| sv_sync_cursor := _ |>). assert (H1 : same_collected v v1) by done.
  assert (H2 : same_collected v1 (search_proof cfg env index record target v1).1).
  { unfold search_proof. destruct (_ || _); [done|]. destruct (match sv_proof_search v1 with Some _ => _ | None => _ end); [done|].
    destruct (search_bounds _ _ _) as [[lower upper]|]; [|done]. eapply same_collected_trans; [|apply page_same]. done. }
  destruct (search_proof _ _ _ _ _ _) as [v2 e2]. by apply (same_collected_trans v v1).
Qed.

Lemma tick_collected env now v : signs_for_self → collected_ok v → collected_ok (tick cfg env now v).1.
Proof.
  intros Hsig Hv. unfold tick. set (v0 := v <| sv_now_ms := now |>). assert (H0 : collected_ok v0) by (by apply (collected_same v)).
  destruct (negb _); [done|].
  assert (H1 : collected_ok (if cadence_due kUpgradeStatusIntervalMs (sv_status_sent_ms v0) now
    then send_status cfg env (v0 <| sv_status_sent_ms := now |>) else (v0, [])).1).
  { destruct (cadence_due _ _ _); [|done]. apply send_collected; [done|]. by apply (collected_same v0). }
  destruct (if cadence_due _ _ _ then _ else _) as [v1 e1]. cbn [fst] in H1.
  pose proof (witness_collected env v1 H1) as H2. destruct (witness cfg env v1) as [v2 e2]. cbn [fst] in H2.
  assert (H3 : collected_ok (if cadence_due (2 * kUpgradeStatusIntervalMs) (sv_sync_sent_ms v2) now
    then sync_records cfg env (v2 <| sv_sync_sent_ms := now |>) else (v2, [])).1).
  { destruct (cadence_due _ _ _); [|done]. eapply collected_same; [apply sync_same|]. by apply (collected_same v2). }
  destruct (if cadence_due _ _ _ then _ else _) as [v3 e3]. cbn [fst] in H3.
  assert (H4 : collected_ok (match sv_proof_search v3 with
    | Some search => match ps_next_after search with Some after => request_page env after v3 | None => (v3, []) end
    | None => (v3, []) end).1).
  { destruct (sv_proof_search v3) as [search|]; [|done]. destruct (ps_next_after search); [|done].
    eapply collected_same; [apply page_same|done]. }
  by destruct (match sv_proof_search v3 with Some _ => _ | None => _ end) as [v4 e4].
Qed.

Lemma recover_same env body proof v : same_collected v (recover_proof cfg env body proof v).1.2.
Proof.
  unfold recover_proof. destruct (fill_proof _ _ _) as [[q records]|]; [|done]. destruct (verified_proof_epoch _ _ _ _); [|done].
  cbv zeta. by destruct (sv_proof_search _) as [search|]; [destruct (_ =? _)|].
Qed.

Lemma recover_chain_same env qc chain wanted v : same_collected v (recover_from_chain cfg env qc chain wanted v).1.
Proof.
  revert wanted v. induction chain as [|b0 chain IH]; intros wanted v; cbn [recover_from_chain]; [done|].
  destruct chain as [|b1 [|b2 later]]; [done..|]. destruct (take_wanted _ _) as [[body others]|]; [|by apply IH].
  pose proof (recover_same env body (mkProof [b0; b1; b2] (match later with b3 :: _ => cb_justify b3 | [] => qc end)) v) as H1.
  destruct (recover_proof _ _ _ _ _) as [[ok v1] e1]. cbn [fst snd] in H1.
  pose proof (IH (if ok then others else wanted) v1) as H2. destruct (recover_from_chain _ _ _ _ _ _) as [v2 e2].
  by eapply same_collected_trans.
Qed.

Lemma chain_same env response from v : same_collected v (on_certified_chain cfg env response from v).1.
Proof.
  unfold on_certified_chain. destruct (_ || _); [done|].
  pose proof (recover_chain_same env (sr_high_qc response) (sr_chain response) (wanted_body v) v) as H1.
  destruct (recover_from_chain _ _ _ _ _ _) as [v1 e1]. cbn [fst] in *. eapply same_collected_trans; [exact H1|].
  unfold next_page. destruct (sv_proof_search v1); [|done]. destruct (_ || _); [done|]. cbv zeta. by destruct (_ || _).
Qed.

Lemma record_proof_collected env sender message v :
  collected_ok v → collected_ok (handle_record_proof cfg env sender message v).1.
Proof.
  intros Hv. unfold handle_record_proof. destruct (um_proof message) as [proof|]; [|done]. case_bool_decide; [done|].
  destruct (decode_upgrade_record (um_body message)) as [r|]; [|done]. destruct (negb _); [done|]. destruct (_ <=? _).
  { pose proof (recover_same env (um_body message) proof v) as H1. destruct (recover_proof _ _ _ _ _) as [[ok v1] e1].
    by apply (collected_same v). }
  destruct (bool_decide (is_Some (sv_pending v !! _))); [done|]. destruct (verified_proof_epoch _ _ _ _) as [epoch|]; [|done].
  destruct (witnesses_for cfg env epoch) as [w|]; [|done].
  assert (H1 : ∀ ok v1 e1, (if (ur_sequence r =? uc_sequence (sv_state v) +64 1) || bool_decide (ur_event r = EvStart)
                 then accept_record cfg env r (Some proof) (Some w) true v else (false, v, [])) = (ok, v1, e1) → collected_ok v1).
  { intros ok v1 e1. destruct (_ || _); [|by intros [= <- <- <-]]. intros E.
    pose proof (accept_collected env r (Some proof) (Some w) true v Hv) as Ha. by rewrite E in Ha. }
  destruct (if _ || _ then _ else _) as [[ok v1] e1] eqn:Ea. specialize (H1 _ _ _ eq_refl). destruct ok; [done|]. cbn [fst].
  destruct (_ <? _)%nat; [|done]. by apply (collected_same v1).
Qed.

Lemma call_collected c v : signs_for_self → collected_ok v → collected_ok (call c v).
Proof.
  intros Hsig Hv. destruct c; cbn [call];
    [by apply tick_collected|by apply send_collected| | |by apply status_collected|by apply observation_collected|
     by apply record_proof_collected| |by apply verdict_collected|eapply collected_same; [apply chain_same|done]].
  - unfold stage. cbv zeta. apply send_collected; [done|]. destruct (_ =? _); by apply (collected_same v).
  - unfold report_failed. destruct (_ =? _); [done|]. apply send_collected; [done|]. by apply (collected_same v).
  - unfold on_upgrade_committed. destruct (negb _); [done|]. destruct (cl_payload committed) as [payload|]; [|done].
    destruct (upgrade_record_from_payload payload) as [r|]; [|done]. destruct (negb _); [done|]. cbv zeta.
    pose proof (accept_collected env r (cl_proof committed) (witnesses_for cfg env (p_epoch (cl_proposal committed))) true v Hv) as H1.
    destruct (accept_record _ _ _ _ _ _ _) as [[ok v1] e1]. by destruct ok.
Qed.

Lemma calls_collected cs : signs_for_self → collected_ok (calls cs).
Proof.
  intros Hsig. unfold calls. assert (H0 : collected_ok new_upgrade_service).
  { split; [intros n st E; by destruct (lookup_empty_Some n st E)|intros n o E; by destruct (lookup_empty_Some n o E)|done]. }
  revert H0. generalize new_upgrade_service. induction cs as [|c cs IH]; intros v Hv; [done|]. cbn [foldl].
  apply IH. by apply call_collected.
Qed.

(** ** What this server observes was attested *)

(** A passing verdict on the observation's subject, for the challenge of its
    position, measured the files of the accepted approval. *)
Definition attested_by (cs : list UpgradeCall) (o : UpgradeObservation) : Prop :=
  ∃ env verdict chain, CallVerdict env verdict ∈ cs ∧ ue_chain env = Some chain ∧
    av_purpose verdict = UpgradeHealth ∧ av_passed verdict = true ∧ all_platform_claims_proved (av_claims verdict) = true ∧
    av_node_id verdict = uo_subject o ∧ av_evidence_digest verdict = uo_evidence_digest o ∧
    av_context_digest verdict =
      upgrade_health_attestation_context (ug_network_id cfg) (uo_release_number o) (uo_subject o) (uo_chain_head o) ∧
    runs_release verdict (rv_approved_paths chain) = true.

Record own_attested (cs : list UpgradeCall) (v : UpgradeService) : Prop := {
  oa_held : ∀ o, sv_observations v !! ug_self cfg = Some o → attested_by cs o;
  oa_context : ∀ pending, sv_pending_witness v = Some pending → pw_context pending ≠ 0 →
    pw_context pending = upgrade_health_attestation_context (ug_network_id cfg) (pw_release_number pending) (pw_subject pending)
                           (pw_chain_head pending);
}.

Lemma attested_later cs cs' o : attested_by cs o → attested_by (cs ++ cs') o.
Proof. intros (env & verdict & chain & Hin & Hrest). exists env, verdict, chain. split; [|exact Hrest]. apply elem_of_app. by left. Qed.

Lemma own_attested_kept cs v v' :
  sv_observations v' !! ug_self cfg = sv_observations v !! ug_self cfg ∨ sv_observations v' = ∅ →
  sv_pending_witness v' = sv_pending_witness v ∨ sv_pending_witness v' = None → own_attested cs v → own_attested cs v'.
Proof.
  intros E1 E2 [A1 A2]. split.
  - intros o Ho. destruct E1 as [E1|E1]; rewrite E1 in Ho; [by apply A1|by rewrite lookup_empty in Ho].
  - intros q Hq. destruct E2 as [E2|E2]; rewrite E2 in Hq; [by apply A2|done].
Qed.

Lemma own_attested_same cs v v' : same_collected v v' → own_attested cs v → own_attested cs v'.
Proof. intros (_ & _ & E1 & _ & _ & E2). apply own_attested_kept; left; [by rewrite E1|done]. Qed.

Lemma own_attested_sent cs env v : own_attested cs v → own_attested cs (send_status cfg env v).1.
Proof. unfold send_status. destruct (ue_wall_clock env); [|done]. by apply own_attested_kept; left. Qed.

(** Records, once accepted, leave nothing observed. *)
Lemma take_forgets env r p w b v :
  (take_record cfg env r p w b v).1.2 = v ∨
  sv_observations (take_record cfg env r p w b v).1.2 = ∅ ∧ sv_pending_witness (take_record cfg env r p w b v).1.2 = None.
Proof. unfold take_record. destruct (_ <=? _); [by left|]. destruct (negb _); [by left|]. by right. Qed.

Lemma own_attested_taken cs env r p w b v : own_attested cs v → own_attested cs (take_record cfg env r p w b v).1.2.
Proof.
  intros Hv. destruct (take_forgets env r p w b v) as [E|[E1 E2]]; [by rewrite E|]. revert Hv. by apply own_attested_kept; right.
Qed.

Lemma own_attested_drained cs fuel env v : own_attested cs v → own_attested cs (drain_pending cfg fuel env v).1.
Proof.
  revert v. induction fuel as [|fuel IH]; intros v Hv; cbn [drain_pending]; [done|].
  destruct (first_pending v) as [[q [r p]]|]; [|done].
  assert (Hw : own_attested cs (v <| sv_pending := delete q (sv_pending v) |>)) by (by apply (own_attested_same cs v)).
  destruct (_ <=? _); [by apply IH|]. destruct (negb _); [done|]. destruct (witnesses_for cfg env _) as [w|]; [|done].
  pose proof (own_attested_taken cs env r (Some p) (Some w) false _ Hw) as H1.
  destruct (take_record cfg env r (Some p) (Some w) false _) as [[ok v1] e1]. destruct ok; cbn [negb]; [|done].
  pose proof (IH v1 H1) as H2. destruct (drain_pending cfg fuel env v1) as [v2 e2].
  pose proof (IH v2 H2) as H3. destruct (drain_pending cfg fuel env v2) as [v3 e3]. done.
Qed.

Lemma own_attested_accepted cs env r p w b v : own_attested cs v → own_attested cs (accept_record cfg env r p w b v).1.2.
Proof.
  intros Hv. unfold accept_record. pose proof (own_attested_taken cs env r p w b v Hv) as H1.
  destruct (take_record cfg env r p w b v) as [[ok v1] e1]. destruct ok; cbn [negb]; [|done].
  pose proof (own_attested_drained cs (S (size (sv_pending v1))) env v1 H1) as H2. by destruct (drain_pending _ _ _ _).
Qed.

Lemma own_attested_waits cs subject context v :
  context = 0 ∨ context = upgrade_health_attestation_context (ug_network_id cfg) (uc_release_number (sv_state v)) subject
                            (uc_head (sv_state v)) →
  own_attested cs v → own_attested cs (wait_for subject context v).
Proof. intros Hc [A1 A2]. split; [exact A1|]. intros q [= <-] Hn. cbn [pw_context] in Hn. by destruct Hc. Qed.

Lemma own_attested_positioned cs subject v : own_attested cs v → own_attested cs (at_position subject v).
Proof. unfold at_position. destruct (_ || _); [|done]. by apply own_attested_kept; right. Qed.

(** An observation that is sent is one that is held. *)
Definition observing (e : UpgradeEffect) : option (list Z) :=
  match e with
  | SendTo _ m | SendAll m => if bool_decide (um_topic m = TopicObservation) then Some (um_body m) else None
  | _ => None
  end.

Definition sends_attested (cs : list UpgradeCall) (es : list UpgradeEffect) : Prop :=
  ∀ e body, e ∈ es → observing e = Some body → ∃ o, body = encode_upgrade_observation o ∧ attested_by cs o.

Definition silent (es : list UpgradeEffect) : Prop := Forall (λ e, observing e = None) es.

Lemma silent_attested cs es : silent es → sends_attested cs es.
Proof. intros Hs e body He Ho. rewrite (proj1 (Forall_forall _ _) Hs e He) in Ho. done. Qed.

Lemma attested_app cs es es' : sends_attested cs es → sends_attested cs es' → sends_attested cs (es ++ es').
Proof. intros H1 H2 e body [He|He]%elem_of_app; [by apply H1|by apply H2]. Qed.

Lemma to_members_silent env m : um_topic m ≠ TopicObservation → silent (to_members cfg env m).
Proof.
  intros Hm. apply Forall_fmap, Forall_forall. intros p _. cbn. by rewrite bool_decide_eq_false_2.
Qed.

Lemma witness_attested cs env v : own_attested cs v → own_attested cs (witness cfg env v).1 ∧ sends_attested cs (witness cfg env v).2.
Proof.
  assert (Hnone : sends_attested cs []) by (apply silent_attested, Forall_nil_2).
  intros Hv. unfold witness. destruct (_ || _); [split; [revert Hv; by apply own_attested_kept; [left|right]|done]|].
  destruct (witness_subject _ _ _) as [subject|]; [|done]. destruct (_ || _); [done|]. cbv zeta.
  pose proof (own_attested_positioned cs subject v Hv) as H1. set (v1 := at_position subject v) in *.
  destruct (sv_observations v1 !! ug_self cfg) as [own|] eqn:Eo.
  - unfold resend_observation. destruct (match sv_pending_witness _ with Some _ => _ | None => _ end); [done|].
    split; [by apply own_attested_waits; [left|]|]. intros e body (p & -> & _)%list_elem_of_fmap Hb. cbn in Hb.
    rewrite bool_decide_eq_true_2 in Hb by done. injection Hb as <-. exists own. split; [done|by apply H1].
  - unfold challenge_subject. destruct (match sv_pending_witness _ with Some _ => _ | None => _ end); [done|].
    destruct (fresh_status _ _ _ _); [|done]. destruct (_ || _); [done|]. cbv zeta. destruct (ue_challenge _ _ _ _); [|done].
    split; [by apply own_attested_waits; [right|]|]. apply silent_attested. by repeat constructor.
Qed.

Lemma verdict_attested cs env verdict v :
  own_attested cs v → let cs' := cs ++ [CallVerdict env verdict] in
  own_attested cs' (on_verdict cfg env verdict v).1 ∧ sends_attested cs' (on_verdict cfg env verdict v).2.
Proof.
  cbv zeta. intros Hv. assert (Hv' : own_attested (cs ++ [CallVerdict env verdict]) v).
  { destruct Hv as [A1 A2]. split; [|done]. intros o Ho. by apply attested_later, A1. }
  assert (Hnone : sends_attested (cs ++ [CallVerdict env verdict]) []) by (apply silent_attested, Forall_nil_2).
  unfold on_verdict. destruct (sv_pending_witness v) as [q|] eqn:Eq; [|done]. destruct (_ || _ || _) eqn:Ej; [done|].
  apply witness_attested. unfold answers_challenge, proves_release in Ej. destruct (ue_chain env) as [chain|] eqn:Ec.
  2: { by rewrite andb_false_r, orb_true_r in Ej. }
  bool_to_prop. split; [|intros p Hp; discriminate].
  change (∀ o, <[ ug_self cfg := own_observation cfg verdict (pw_subject q) v ]> (sv_observations v) !! ug_self cfg = Some o →
    attested_by (cs ++ [CallVerdict env verdict]) o).
  intros o Ho. rewrite lookup_insert_eq in Ho. apply (inj Some) in Ho. rewrite <-Ho.
  exists env, verdict, chain. cbn [own_observation sign_upgrade_observation uo_subject uo_evidence_digest uo_release_number uo_chain_head].
  pose proof (oa_context _ _ Hv q Eq ltac:(done)) as Hctx. split_and!; try done; [apply elem_of_app; right; by left|congruence].
Qed.

(** What a call sends. *)
Definition sends (c : UpgradeCall) (v : UpgradeService) : list UpgradeEffect :=
  match c with
  | CallTick env now => (tick cfg env now v).2
  | CallSendStatus env => (send_status cfg env v).2
  | CallStage env release => (stage cfg env release v).2
  | CallReportFailed env release => (report_failed cfg env release v).2
  | CallStatus env sender body => (handle_status cfg env sender body v).2
  | CallObservation env sender body => []
  | CallRecordProof env sender message => (handle_record_proof cfg env sender message v).2
  | CallCommitted env committed => (on_upgrade_committed cfg env committed v).2
  | CallVerdict env verdict => (on_verdict cfg env verdict v).2
  | CallChain env response from => (on_certified_chain cfg env response from v).2
  end.

Lemma send_silent env v : silent (send_status cfg env v).2.
Proof. unfold send_status. destruct (ue_wall_clock env); [by apply to_members_silent|apply Forall_nil_2]. Qed.

Lemma page_silent env after v : silent (request_page env after v).2.
Proof. unfold request_page. destruct (sv_proof_search v); by repeat constructor. Qed.

Lemma sync_silent env v : silent (sync_records cfg env v).2.
Proof.
  unfold sync_records. destruct (_ !! _) as [target|]; [|apply Forall_nil_2]. cbv zeta.
  destruct (first_unproven _) as [[index record]|]; [|by repeat constructor].
  set (v1 := v <| sv_sync_cursor := _ |>).
  assert (H1 : silent (search_proof cfg env index record target v1).2).
  { unfold search_proof. destruct (_ || _); [apply Forall_nil_2|].
    destruct (match sv_proof_search v1 with Some _ => _ | None => _ end); [apply Forall_nil_2|].
    destruct (search_bounds _ _ _) as [[lower upper]|]; [apply page_silent|apply Forall_nil_2]. }
  destruct (search_proof _ _ _ _ _ _) as [v2 e2]. by apply Forall_cons.
Qed.

Lemma take_silent env r p w b v : silent (take_record cfg env r p w b v).2.
Proof.
  unfold take_record. destruct (_ <=? _); [apply Forall_nil_2|]. destruct (negb _); [apply Forall_nil_2|]. cbv zeta. cbn [snd].
  apply Forall_app. split; [by repeat constructor|]. apply Forall_app.
  split; [destruct (bool_decide _); [unfold raise_release_floor; destruct (ue_chain env); [destruct (active _)|]|]|
          destruct (match ur_event r with EvStart => _ | _ => _ end)]; by repeat constructor.
Qed.

Lemma drain_silent fuel env v : silent (drain_pending cfg fuel env v).2.
Proof.
  revert v. induction fuel as [|fuel IH]; intros v; cbn [drain_pending]; [apply Forall_nil_2|].
  destruct (first_pending v) as [[q [r p]]|]; [|apply Forall_nil_2]. destruct (_ <=? _); [apply IH|].
  destruct (negb _); [apply Forall_nil_2|]. destruct (witnesses_for cfg env _) as [w|]; [|apply Forall_nil_2].
  pose proof (take_silent env r (Some p) (Some w) false (v <| sv_pending := delete q (sv_pending v) |>)) as H1.
  destruct (take_record cfg env r (Some p) (Some w) false _) as [[ok v1] e1]. destruct ok; cbn [negb]; [|done].
  pose proof (IH v1) as H2. destruct (drain_pending cfg fuel env v1) as [v2 e2].
  pose proof (IH v2) as H3. destruct (drain_pending cfg fuel env v2) as [v3 e3]. by repeat (apply Forall_app; split).
Qed.

Lemma accept_silent env r p w b v : silent (accept_record cfg env r p w b v).2.
Proof.
  unfold accept_record. pose proof (take_silent env r p w b v) as H1.
  destruct (take_record cfg env r p w b v) as [[ok v1] e1]. destruct ok; cbn [negb]; [|done].
  pose proof (drain_silent (S (size (sv_pending v1))) env v1) as H2. destruct (drain_pending _ _ _ _). by apply Forall_app.
Qed.

Lemma broadcast_silent q v : silent (broadcast_record q v).
Proof. unfold broadcast_record. destruct (head _) as [[r p]|]; by repeat constructor. Qed.

Lemma recover_silent env body proof v : silent (recover_proof cfg env body proof v).2.
Proof.
  unfold recover_proof. destruct (fill_proof _ _ _) as [[q records]|]; [|apply Forall_nil_2].
  destruct (verified_proof_epoch _ _ _ _); [|apply Forall_nil_2]. apply Forall_cons. split; [done|apply broadcast_silent].
Qed.

Lemma chain_silent env response from v : silent (on_certified_chain cfg env response from v).2.
Proof.
  unfold on_certified_chain. destruct (_ || _); [apply Forall_nil_2|].
  assert (H1 : ∀ chain wanted v, silent (recover_from_chain cfg env (sr_high_qc response) chain wanted v).2).
  { clear v. induction chain as [|b0 chain IH]; intros wanted v; cbn [recover_from_chain]; [apply Forall_nil_2|].
    destruct chain as [|b1 [|b2 later]]; [apply Forall_nil_2..|]. destruct (take_wanted _ _) as [[body others]|]; [|by apply IH].
    pose proof (recover_silent env body (mkProof [b0; b1; b2] (match later with b3 :: _ => cb_justify b3 | [] => sr_high_qc response end)) v) as H1.
    destruct (recover_proof _ _ _ _ _) as [[ok v1] e1].
    pose proof (IH (if ok then others else wanted) v1) as H2. destruct (recover_from_chain _ _ _ _ _ _) as [v2 e2].
    by apply Forall_app. }
  specialize (H1 (sr_chain response) (wanted_body v) v). by destruct (recover_from_chain _ _ _ _ _ _).
Qed.

Lemma record_proof_silent env sender message v : silent (handle_record_proof cfg env sender message v).2.
Proof.
  unfold handle_record_proof. destruct (um_proof message) as [proof|]; [|apply Forall_nil_2]. case_bool_decide; [apply Forall_nil_2|].
  destruct (decode_upgrade_record (um_body message)) as [r|]; [|apply Forall_nil_2]. destruct (negb _); [apply Forall_nil_2|].
  destruct (_ <=? _).
  { pose proof (recover_silent env (um_body message) proof v) as H1. by destruct (recover_proof _ _ _ _ _) as [[ok v1] e1]. }
  destruct (bool_decide (is_Some (sv_pending v !! _))); [apply Forall_nil_2|].
  destruct (verified_proof_epoch _ _ _ _) as [epoch|]; [|apply Forall_nil_2].
  destruct (witnesses_for cfg env epoch) as [w|]; [|apply Forall_nil_2].
  assert (H1 : silent (if (ur_sequence r =? uc_sequence (sv_state v) +64 1) || bool_decide (ur_event r = EvStart)
                 then accept_record cfg env r (Some proof) (Some w) true v else (false, v, [])).2).
  { destruct (_ || _); [apply accept_silent|apply Forall_nil_2]. }
  destruct (if _ || _ then _ else _) as [[ok v1] e1]. destruct ok; [done|]. apply Forall_app. split; [done|by repeat constructor].
Qed.

Lemma own_attested_proved cs env sender message v : own_attested cs v → own_attested cs (handle_record_proof cfg env sender message v).1.
Proof.
  intros Hv. unfold handle_record_proof. destruct (um_proof message) as [proof|]; [|done]. case_bool_decide; [done|].
  destruct (decode_upgrade_record (um_body message)) as [r|]; [|done]. destruct (negb _); [done|]. destruct (_ <=? _).
  { pose proof (recover_same env (um_body message) proof v) as H1. destruct (recover_proof _ _ _ _ _) as [[ok v1] e1].
    by apply (own_attested_same cs v). }
  destruct (bool_decide (is_Some (sv_pending v !! _))); [done|]. destruct (verified_proof_epoch _ _ _ _) as [epoch|]; [|done].
  destruct (witnesses_for cfg env epoch) as [w|]; [|done].
  assert (H1 : own_attested cs (if (ur_sequence r =? uc_sequence (sv_state v) +64 1) || bool_decide (ur_event r = EvStart)
                 then accept_record cfg env r (Some proof) (Some w) true v else (false, v, [])).1.2).
  { destruct (_ || _); [by apply own_attested_accepted|done]. }
  destruct (if _ || _ then _ else _) as [[ok v1] e1]. destruct ok; [done|]. cbn [fst snd] in *.
  destruct (_ <? _)%nat; [|done]. by apply (own_attested_same cs v1).
Qed.

Lemma tick_attested cs env now v : own_attested cs v → own_attested cs (tick cfg env now v).1 ∧ sends_attested cs (tick cfg env now v).2.
Proof.
  intros Hv. unfold tick. set (v0 := v <| sv_now_ms := now |>). assert (H0 : own_attested cs v0) by (by apply (own_attested_same cs v)).
  destruct (negb (sv_healthy _)); [split; [done|apply silent_attested, Forall_nil_2]|].
  set (x1 := if cadence_due kUpgradeStatusIntervalMs _ _ then _ else _).
  assert (H1 : own_attested cs x1.1 ∧ silent x1.2).
  { unfold x1. destruct (cadence_due _ _ _); [|split; [done|apply Forall_nil_2]]. split; [|apply send_silent].
    apply own_attested_sent. by apply (own_attested_same cs v0). }
  destruct x1 as [v1 e1], H1 as [H1 S1]. cbn [fst snd] in *.
  destruct (witness_attested cs env v1 H1) as [H2 S2]. destruct (witness cfg env v1) as [v2 e2]. cbn [fst snd] in *.
  set (x3 := if cadence_due _ _ _ then _ else _).
  assert (H3 : own_attested cs x3.1 ∧ silent x3.2).
  { unfold x3. destruct (cadence_due _ _ _); [|split; [done|apply Forall_nil_2]]. split; [|apply sync_silent].
    eapply own_attested_same; [apply sync_same|]. by apply (own_attested_same cs v2). }
  destruct x3 as [v3 e3], H3 as [H3 S3]. cbn [fst snd] in *.
  set (x4 := match sv_proof_search v3 with Some _ => _ | None => _ end).
  assert (H4 : own_attested cs x4.1 ∧ silent x4.2).
  { unfold x4. destruct (sv_proof_search v3) as [search|]; [|split; [done|apply Forall_nil_2]].
    destruct (ps_next_after search); [|split; [done|apply Forall_nil_2]]. split; [|apply page_silent].
    eapply own_attested_same; [apply page_same|done]. }
  destruct x4 as [v4 e4], H4 as [H4 S4]. cbn [fst snd] in *. split; [done|].
  repeat apply attested_app; try done; by apply silent_attested.
Qed.

(** The observations of others come from others. *)
Definition from_others (c : UpgradeCall) : Prop :=
  match c with CallObservation _ sender _ => sender ≠ ug_self cfg | _ => True end.

Lemma own_attested_observed cs env sender body v :
  sender ≠ ug_self cfg → own_attested cs v → own_attested cs (handle_observation cfg env sender body v).
Proof.
  intros Hne Hv. unfold handle_observation. cbv zeta. destruct (negb (member_now _ _) || _ || _); [done|].
  destruct (decode_upgrade_observation body) as [o|]; [|done].
  destruct (negb (uo_witness o =? sender) || _ || _ || _ || _ || _ || _) eqn:E; [done|]. destruct (negb (bool_decide _)); [done|].
  bool_to_prop. set (v1 := if negb (sv_observations_subject v =? uo_subject o) || _ then _ else v).
  assert (Hv1 : own_attested cs v1).
  { unfold v1. destruct (_ || _); [|done]. revert Hv. by apply own_attested_kept; [right|left]. }
  revert Hv1. apply own_attested_kept; [left|by left].
  change (<[ uo_witness o := o ]> (sv_observations v1) !! ug_self cfg = sv_observations v1 !! ug_self cfg).
  apply lookup_insert_ne. congruence.
Qed.

Lemma status_call_attested cs env sender body v :
  own_attested cs v → own_attested cs (handle_status cfg env sender body v).1 ∧ silent (handle_status cfg env sender body v).2.
Proof.
  intros Hv. unfold handle_status. destruct (decode_upgrade_status body) as [st|]; [|split; [done|apply Forall_nil_2]].
  destruct (_ || _); [split; [done|apply Forall_nil_2]|]. cbv zeta.
  destruct (match sv_statuses v !! _ with Some _ => _ | None => _ end); [split; [done|apply Forall_nil_2]|].
  split; [eapply own_attested_same; [apply push_same|]; apply (own_attested_kept cs v); [by left|by left|done]|].
  unfold push_approval. destruct (ue_chain env) as [chain|] eqn:Ec; [|apply Forall_nil_2]. destruct (_ && _); [|apply Forall_nil_2].
  cbv zeta. destruct (_ || _); [|apply Forall_nil_2]. cbn [snd]. unfold send_approval. rewrite Ec.
  destruct (rv_current chain); [|apply Forall_nil_2]. destruct (_ =? _); by repeat constructor.
Qed.

Lemma own_attested_more cs c v : own_attested cs v → own_attested (cs ++ [c]) v.
Proof. intros [A1 A2]. split; [|done]. intros o Ho. by apply attested_later, A1. Qed.

Lemma call_attested cs c v :
  from_others c → own_attested cs v → own_attested (cs ++ [c]) (call c v) ∧ sends_attested (cs ++ [c]) (sends c v).
Proof.
  intros Hc Hv. pose proof (own_attested_more cs c v Hv) as Hm. destruct c; cbn [call sends from_others] in *.
  - by apply tick_attested.
  - split; [by apply own_attested_sent|apply silent_attested, send_silent].
  - unfold stage. cbv zeta. split; [|apply silent_attested, send_silent]. apply own_attested_sent.
    destruct (_ =? _); by apply (own_attested_same _ v).
  - unfold report_failed. destruct (_ =? _); [split; [done|apply silent_attested, Forall_nil_2]|].
    split; [|apply silent_attested, send_silent]. apply own_attested_sent. by apply (own_attested_same _ v).
  - destruct (status_call_attested _ env sender body v Hm) as [H1 H2]. split; [done|by apply silent_attested].
  - split; [by apply own_attested_observed|apply silent_attested, Forall_nil_2].
  - split; [by apply own_attested_proved|apply silent_attested, record_proof_silent].
  - assert (Hnone : sends_attested (cs ++ [CallCommitted env committed]) []) by (apply silent_attested, Forall_nil_2).
    unfold on_upgrade_committed. destruct (negb _); [by split|]. destruct (cl_payload committed) as [payload|]; [|by split].
    destruct (upgrade_record_from_payload payload) as [r|]; [|by split]. destruct (negb _); [by split|]. cbv zeta.
    set (w := witnesses_for cfg env (p_epoch (cl_proposal committed))).
    pose proof (own_attested_accepted _ env r (cl_proof committed) w true v Hm) as H1.
    pose proof (accept_silent env r (cl_proof committed) w true v) as H2.
    destruct (accept_record _ _ _ _ _ _ _) as [[ok v1] e1]. cbn [fst snd] in *. destruct ok; split; try done; apply silent_attested; [|done].
    apply Forall_app. split; [done|apply broadcast_silent].
  - by apply verdict_attested.
  - split; [eapply own_attested_same; [apply chain_same|done]|apply silent_attested, chain_silent].
Qed.

Lemma calls_attested cs : Forall from_others cs → own_attested cs (calls cs).
Proof.
  unfold calls. induction cs as [|c cs IH] using rev_ind; intros Hall.
  - split; [intros o E; by destruct (lookup_empty_Some _ o E)|done].
  - apply Forall_app in Hall as [Hcs [Hc _]%Forall_cons]. rewrite foldl_snoc. by apply call_attested; [|apply IH].
Qed.

(** C15: A server vouches only for what it has had attested: after any calls,
    whatever peers and consensus delivered, every observation that a call sends
    is about a subject for which a passing verdict arrived, on the challenge of
    that very position of the rollout, with every platform claim proved and the
    measured files those of the approval that was accepted. *)
Theorem sent_observation_was_attested cs c e body :
  Forall from_others (cs ++ [c]) → e ∈ sends c (calls cs) → observing e = Some body →
  ∃ o, body = encode_upgrade_observation o ∧ attested_by (cs ++ [c]) o.
Proof.
  intros [Hcs [Hc _]%Forall_cons]%Forall_app He Ho.
  by apply (proj2 (call_attested cs c (calls cs) Hc (calls_attested cs Hcs)) e body).
Qed.


(** ** A proposed record is voted for *)

Lemma derived_members release tier1 others p :
  p ∈ derive_upgrade_order release tier1 others ↔
  (pt_tier1 p = true ∧ pt_node p ∈ tier1) ∨ (pt_tier1 p = false ∧ pt_node p ∈ others ∧ pt_node p ∉ tier1).
Proof.
  unfold derive_upgrade_order. cbv zeta. rewrite elem_of_app, !list_elem_of_fmap. setoid_rewrite ranked_by_perm.
  setoid_rewrite elem_of_elements. setoid_rewrite elem_of_list_to_set. setoid_rewrite list_elem_of_filter.
  setoid_rewrite elem_of_list_to_set. destruct p as [n t]. cbn [pt_node pt_tier1]. split.
  - intros [(m & [= -> ->] & Hn & Ho)|(m & [= -> ->] & Ht)]; [by right|by left].
  - intros [[-> Ht]|(-> & Ho & Hn)]; [right; by exists n|left; by exists n].
Qed.

(** An order that was derived is the one derived from its own members. *)
Lemma derived_again release tier1 others :
  let order := derive_upgrade_order release tier1 others in
  derive_upgrade_order release (pt_node <$> filter (λ entry, pt_tier1 entry = true) order)
    (pt_node <$> filter (λ entry, pt_tier1 entry = false) order) = order.
Proof.
  cbv zeta. set (order := derive_upgrade_order release tier1 others).
  assert (H1 : ∀ n, n ∈ pt_node <$> filter (λ entry, pt_tier1 entry = true) order ↔ n ∈ tier1).
  { intros n. rewrite list_elem_of_fmap. setoid_rewrite list_elem_of_filter. unfold order. setoid_rewrite derived_members. split.
    - intros (p & -> & Ht & [[_ Hp]|[Hf _]]); [done|congruence].
    - intros Hn. exists (mkParticipant n true). split_and!; [done|done|by left]. }
  apply derived_order_canonical; [done|]. intros n Hn%(not_iff_compat (H1 n)).
  rewrite list_elem_of_fmap. setoid_rewrite list_elem_of_filter. unfold order. setoid_rewrite derived_members. split.
  - intros (p & -> & Hf & [[Ht _]|(_ & Ho & _)]); [congruence|done].
  - intros Ho. exists (mkParticipant n false). split_and!; [done|done|by right].
Qed.

Lemma start_base_here v :
  sb_sequence (start_base v) = uc_sequence (sv_state v) →
  start_base v = mkStartBase (uc_sequence (sv_state v)) (uc_head (sv_state v)) (bool_decide (is_Some (uc_in_turn (sv_state v)))).
Proof.
  unfold start_base. cbv zeta. destruct (last _) as [[q [r p]]|]; [|done].
  destruct (Z.leb_spec q (uc_sequence (sv_state v))); [done|]. cbn [sb_sequence]. lia.
Qed.

Lemma start_base_ahead v : uc_sequence (sv_state v) <= sb_sequence (start_base v).
Proof.
  unfold start_base. cbv zeta. destruct (last _) as [[q [r p]]|]; [|cbn; lia].
  destruct (Z.leb_spec q (uc_sequence (sv_state v))); cbn; lia.
Qed.

Lemma see_all s r w os seen :
  (∀ o, o ∈ os → counts_for s r w o) → NoDup (uo_witness <$> os) → (∀ o, o ∈ os → uo_witness o ∉ seen) →
  see_observations s r w seen os = Some (list_to_set (uo_witness <$> os) ∪ seen).
Proof.
  revert seen. induction os as [|o os IH]; intros seen Hc Hn Hs; cbn [see_observations]; [f_equal; set_solver|].
  rewrite fmap_cons in Hn. apply NoDup_cons in Hn as [Ho Hn]. destruct (Hc o ltac:(left)) as [C1 C2 C3 C4 C5 C6 C7].
  unfold see_observation. rewrite C3, C4, C5, C6, C7, !Z.eqb_refl, (proj2 (Z.eqb_neq _ _) C2).
  rewrite bool_decide_eq_true_2 by done. rewrite bool_decide_eq_false_2 by (apply Hs; left). cbn [negb orb mbind option_bind].
  rewrite IH; [f_equal; cbn; set_solver|intros o' Ho'; apply Hc; by right|done|].
  intros o' Ho' [Heq%elem_of_singleton|Hin]%elem_of_union; [|by apply (Hs o' ltac:(by right))].
  apply Ho. apply list_elem_of_fmap. by exists o'.
Qed.

(** The placed record of an open rollout is judged by its event alone. *)
Lemma placed_check s r w base :
  active s = true → uc_halted s = false → ur_version r = kUpgradeRecordVersion → ur_event r ≠ EvStart →
  ur_release_number r = uc_release_number s → ur_order r = [] → ur_approval_digest r = 0 →
  sb_sequence base = uc_sequence s → sb_head base = uc_head s →
  check_upgrade_record s (place_record cfg base r) w false =
  match ur_event r with
  | EvTurn => check_turn s (place_record cfg base r)
  | EvUpgraded => check_upgraded s (place_record cfg base r) w
  | EvHalt => check_halt s (place_record cfg base r)
  | EvStart => Malformed
  end.
Proof.
  intros Ha Hh Hv He Hr Ho Had Hq Hd. unfold check_upgrade_record, is_rebase. cbn [place_record ur_version ur_event ur_release_number
    ur_sequence ur_previous ur_order ur_approval_digest andb negb].
  assert (uc_release_number s ≠ 0) by (unfold active in Ha; bool_to_prop; done).
  rewrite Hv, Hr, Ho, Had, Hq, Hd, Ha, Hh, !Z.eqb_refl. rewrite (proj2 (Z.eqb_neq (uc_release_number s) 0)) by done.
  rewrite (bool_decide_eq_false_2 (ur_event r = EvStart)) by done. cbn [negb orb]. by rewrite bool_decide_eq_true_2.
Qed.

Lemma status_placed base r st :
  ur_observations r = [] → us_node st = ur_subject r → us_network_id st = ug_network_id cfg →
  us_staged_release st = ur_release_number r → status_about (place_record cfg base r) st = true.
Proof.
  intros Ho Hn Hw Hs. unfold status_about. cbn [place_record ur_observations ur_subject ur_network_id ur_release_number].
  by rewrite Ho, Hn, Hw, Hs, !Z.eqb_refl, bool_decide_eq_true_2.
Qed.

Lemma fresh_status_ok env v n st :
  collected_ok v → fresh_status cfg env v n = Some st →
  us_node st = n ∧ us_network_id st = ug_network_id cfg ∧ verify_upgrade_status st = true ∧ status_fresh env st = true.
Proof.
  intros Hc. unfold fresh_status. destruct (sv_statuses v !! n) as [st'|] eqn:Es; [|done].
  destruct (negb (live cfg v n) || negb (status_fresh env st')) eqn:E; [done|]. intros [= <-]. bool_to_prop.
  destruct (co_statuses v Hc n st' Es) as (C1 & C2 & C3). done.
Qed.

(** An Upgraded record of the observations that are held. *)
Lemma observed_checks env v subject r base :
  let s := sv_state v in
  collected_ok v → observed cfg env v subject = Some r → uc_in_turn s = Some subject ∨ uc_in_turn s = None ∧ next_subject s = Some subject →
  ur_event r = EvUpgraded ∧ ur_version r = kUpgradeRecordVersion ∧ ur_release_number r = uc_release_number s ∧ ur_order r = [] ∧
  ur_approval_digest r = 0 ∧
  check_upgraded s (place_record cfg base r) (Some (mkWitnessSet (ug_network_id cfg) (current_epoch env) (current_members env))) = UrNone.
Proof.
  cbv zeta. intros Hc Ho Hturn. unfold observed in Ho. set (s := sv_state v) in *.
  destruct (negb (sv_observations_subject v =? subject) || _) eqn:E1 in Ho; [done|]. bool_to_prop.
  set (kept := filter _ (in_order (sv_observations v))) in Ho. set (held := kept.*2) in Ho.
  destruct (bool_decide (held = []) || _) eqn:E2 in Ho; [done|]. injection Ho as <-. split_and!; try done.
  assert (Hin : ∀ n o, (n, o) ∈ kept → sv_observations v !! n = Some o ∧ n ≠ subject ∧ n ∈ current_members env).
  { intros n o [[Hx Hy] Hz%elem_of_in_order]%list_elem_of_filter. done. }
  assert (Hcounts : ∀ o, o ∈ held → counts_for s (place_record cfg base
      (mkUpgradeRecord kUpgradeRecordVersion 0 0 0 EvUpgraded (uc_release_number s) 0 [] subject None held))
      (mkWitnessSet (ug_network_id cfg) (current_epoch env) (current_members env)) o).
  { intros o ([n o'] & -> & Hk)%list_elem_of_fmap. cbn [snd]. destruct (Hin _ _ Hk) as (Hl & Hne & Hm).
    destruct (co_observations v Hc n o' Hl) as (C1 & C2 & C3 & C4 & C5 & C6).
    split; cbn [place_record ur_subject ur_network_id ur_release_number uw_members]; try congruence.
    exact C5. }
  assert (Hkeys : uo_witness <$> held = kept.*1).
  { unfold held. rewrite <-list_fmap_compose. apply list_fmap_ext. intros i [n o] Hi%list_elem_of_lookup_2.
    destruct (Hin _ _ Hi) as (Hl & _). by destruct (co_observations v Hc n o Hl) as (C1 & _). }
  assert (Hnd : NoDup (uo_witness <$> held)).
  { rewrite Hkeys. apply (sublist_NoDup _ _ (NoDup_in_order (sv_observations v))), fmap_sublist, sublist_filter. }
  unfold check_upgraded. cbv zeta. cbn [place_record ur_subject ur_status ur_network_id ur_observations uw_network_id uw_epoch uw_members].
  rewrite (see_all s _ _ held ∅ Hcounts Hnd) by (intros o _; apply not_elem_of_empty). rewrite union_empty_r_L, Z.eqb_refl.
  rewrite (bool_decide_eq_false_2 (is_Some None)) by apply is_Some_None. cbn [negb orb].
  assert (Hsize : size (list_to_set (uo_witness <$> held) : gset Z) = length held).
  { rewrite size_list_to_set by done. apply length_fmap. }
  bool_to_prop. rewrite Hsize, (proj2 (Z.ltb_ge _ _)) by lia. rewrite (bool_decide_eq_false_2 (list_to_set _ = ∅)).
  2: { intros Hz. rewrite Hz, size_empty in Hsize. destruct held; [done|cbn in Hsize; lia]. }
  cbn [orb]. destruct Hturn as [Ht|[Ht Hn]].
  - rewrite (bool_decide_eq_true_2 (uc_in_turn s = Some subject)) by done. done.
  - rewrite Ht, Hn. rewrite (bool_decide_eq_true_2 (None = None)), (bool_decide_eq_true_2 (Some subject = Some subject)) by done.
    by rewrite andb_false_r.
Qed.

(** The votes a record of the open rollout needs. *)
Definition votable (env : UpgradeEnv) (v : UpgradeService) (base : StartBase) (r : UpgradeRecord) : Prop :=
  ur_event r ≠ EvStart ∧
  check_upgrade_record (sv_state v) (place_record cfg base r)
    (Some (mkWitnessSet (ug_network_id cfg) (current_epoch env) (current_members env))) false = UrNone ∧
  match ur_event r with
  | EvTurn => ∃ st, ur_status r = Some st ∧ status_fresh env st = true ∧ everyone_live cfg env v (ur_subject r) = true
  | EvHalt => ∃ st, ur_status r = Some st ∧ status_fresh env st = true
  | _ => True
  end.

Lemma observed_votable env v subject r base :
  let s := sv_state v in
  collected_ok v → active s = true → uc_halted s = false → sb_sequence base = uc_sequence s → sb_head base = uc_head s →
  observed cfg env v subject = Some r → uc_in_turn s = Some subject ∨ uc_in_turn s = None ∧ next_subject s = Some subject →
  votable env v base r.
Proof.
  cbv zeta. intros Hc Ha Hh Hq Hd Ho Hturn. destruct (observed_checks env v subject r base Hc Ho Hturn) as (E1 & E2 & E3 & E4 & E5 & E6).
  unfold votable. rewrite placed_check by (try done; by rewrite E1). rewrite E1. by split_and!.
Qed.

Lemma turn_outcome_votable env v subject r base :
  let s := sv_state v in
  collected_ok v → active s = true → uc_halted s = false → sb_sequence base = uc_sequence s → sb_head base = uc_head s →
  uc_in_turn s = Some subject → turn_outcome cfg env v subject = Some r → votable env v base r.
Proof.
  cbv zeta. intros Hc Ha Hh Hq Hd Ht. unfold turn_outcome.
  assert (Hobs : observed cfg env v subject = Some r → votable env v base r) by (intros Ho; eapply observed_votable; eauto).
  destruct (fresh_status cfg env v subject) as [st|] eqn:Es; [|done].
  destruct (has_flag (us_flags st) kUpgradeStatusFailed && _) eqn:Ef; [|done]. intros [= <-]. bool_to_prop.
  destruct (fresh_status_ok _ _ _ _ Hc Es) as (C1 & C2 & C3 & C4). unfold votable.
  rewrite placed_check by done. cbn [status_record ur_event]. split_and!; [done| |by exists st].
  unfold check_halt. cbn [place_record ur_subject ur_status]. rewrite bool_decide_eq_true_2 by done. cbn [negb status_record ur_status].
  rewrite status_placed by done. rewrite C3.
  repeat match goal with Hf : has_flag _ _ = _ |- _ => rewrite Hf; clear Hf end. done.
Qed.

Lemma open_turn_votable env v subject r base :
  let s := sv_state v in
  collected_ok v → active s = true → uc_halted s = false → sb_sequence base = uc_sequence s → sb_head base = uc_head s →
  uc_in_turn s = None → next_subject s = Some subject → open_turn cfg env v subject = Some r → votable env v base r.
Proof.
  cbv zeta. intros Hc Ha Hh Hq Hd Ht Hn. unfold open_turn. destruct (observed cfg env v subject) as [r0|] eqn:Eo.
  { intros [= <-]. eapply observed_votable; eauto. }
  destruct (fresh_status cfg env v subject) as [st|] eqn:Es; [|done].
  destruct (everyone_live cfg env v subject && _ && _ && _) eqn:Ef; [|done]. intros [= <-]. bool_to_prop.
  destruct (fresh_status_ok _ _ _ _ Hc Es) as (C1 & C2 & C3 & C4). unfold votable.
  rewrite placed_check by done. cbn [status_record ur_event]. split_and!; [done| |by exists st].
  unfold check_turn. cbn [place_record ur_subject ur_status status_record]. rewrite Ht, Hn.
  rewrite (bool_decide_eq_false_2 (is_Some None)) by apply is_Some_None. rewrite (bool_decide_eq_true_2 (Some subject = Some subject)) by done.
  cbn [negb orb]. change (mkUpgradeRecord _ _ _ _ EvTurn _ _ _ _ _ _) with (place_record cfg base (status_record EvTurn (sv_state v) subject st)).
  rewrite status_placed by done. rewrite C3.
  repeat match goal with Hf : has_flag _ _ = _ |- _ => rewrite Hf; clear Hf end. done.
Qed.

Lemma rollout_record_votable env v r base :
  let s := sv_state v in
  collected_ok v → active s = true → uc_halted s = false → sb_sequence base = uc_sequence s → sb_head base = uc_head s →
  rollout_record cfg env v = Some r → votable env v base r.
Proof.
  cbv zeta. intros Hc Ha Hh Hq Hd. unfold rollout_record. destruct (uc_in_turn (sv_state v)) as [subject|] eqn:Et.
  - by apply turn_outcome_votable.
  - destruct (next_subject (sv_state v)) as [next|] eqn:En; [|done]. by apply open_turn_votable.
Qed.

(** A Start record of the release that is accepted, placed at the base. *)
Lemma start_votable env v r :
  let s := sv_state v in
  let base := start_base v in
  (∀ n d, ue_chain env ≫= rv_current = Some (n, d) → n ≠ 0 ∧ d ≠ 0) →
  0 <= uc_sequence s → sb_sequence base + 1 < two64 →
  derive_start cfg env base v = Some r →
  ur_event r = EvStart ∧ sb_turn_open base = false ∧
  ue_chain env ≫= rv_current = Some (ur_release_number r, ur_approval_digest r) ∧
  forallb (live cfg v) (current_members env) = true ∧
  derive_upgrade_order (ur_release_number r) (current_members env) (tier2_participants cfg env (current_members env) v) = ur_order r ∧
  ∀ w, check_upgrade_record s (place_record cfg base r) w (negb (sb_sequence base =? uc_sequence s)) = UrNone.
Proof.
  cbv zeta. intros Hrel H0 Hmax. unfold derive_start. destruct (ue_chain env) as [chain|]; [|done]. cbn [mbind option_bind].
  cbn [mbind option_bind] in Hrel. destruct (rv_current chain) as [[n d]|]; [|done]. destruct (Hrel n d eq_refl) as [Hn Hd]. clear Hrel.
  destruct (sb_turn_open (start_base v)) eqn:Eopen; [done|].
  cbn [mbind option_bind]. destruct (Z.leb_spec n (uc_release_number (sv_state v))) as [|Hnew]; [done|].
  destruct (bool_decide (current_members env = []) || _) eqn:E1; [done|]. bool_to_prop. destruct (negb (existsb _ _) && _); [done|].
  set (order := derive_upgrade_order n _ _). destruct (Z.ltb_spec kMaxUpgradeParticipants (Z.of_nat (length order))) as [|Hlen]; [done|].
  intros [= <-]. cbn [ur_event ur_release_number ur_approval_digest ur_order]. split_and!; try done.
  intros w. unfold check_upgrade_record. cbn [place_record ur_version ur_release_number ur_event ur_sequence ur_previous].
  rewrite Z.eqb_refl, (proj2 (Z.eqb_neq n 0)) by done. cbn [negb orb].
  assert (Hbase : is_rebase (sv_state v) (place_record cfg (start_base v)
            (mkUpgradeRecord kUpgradeRecordVersion 0 0 0 EvStart n d order 0 None [])) (negb (sb_sequence (start_base v) =? uc_sequence (sv_state v)))
          = negb (sb_sequence (start_base v) =? uc_sequence (sv_state v))).
  { unfold is_rebase. cbn [place_record ur_event ur_sequence]. rewrite bool_decide_eq_true_2, andb_true_r by done.
    pose proof (start_base_ahead v). destruct (Z.eqb_spec (sb_sequence (start_base v)) (uc_sequence (sv_state v))); [done|]. cbn [negb andb].
    apply Z.ltb_lt. unfold u64_add. rewrite !Z.mod_small by lia. lia. }
  cbn [place_record ur_version ur_release_number ur_event ur_sequence ur_previous ur_network_id ur_approval_digest ur_order ur_subject
    ur_status ur_observations] in Hbase. rewrite Hbase. clear Hbase.
  assert (Hchain : (negb (negb (sb_sequence (start_base v) =? uc_sequence (sv_state v))) &&
    (negb (sb_sequence (start_base v) +64 1 =? uc_sequence (sv_state v) +64 1) || negb (sb_head (start_base v) =? uc_head (sv_state v)))) = false).
  { destruct (Z.eqb_spec (sb_sequence (start_base v)) (uc_sequence (sv_state v))) as [Hq|]; [|done]. cbn [negb andb].
    pose proof (start_base_here v Hq) as Hb. rewrite Hb. cbn [sb_sequence sb_head]. by rewrite !Z.eqb_refl. }
  rewrite Hchain. clear Hchain. rewrite bool_decide_eq_true_2 by done. unfold check_start.
  cbn [place_record ur_release_number ur_approval_digest ur_order ur_status ur_observations ur_subject].
  destruct (Z.leb_spec n (uc_release_number (sv_state v))); [lia|].
  assert (Hturn : (negb (negb (sb_sequence (start_base v) =? uc_sequence (sv_state v))) && bool_decide (is_Some (uc_in_turn (sv_state v)))) = false).
  { destruct (Z.eqb_spec (sb_sequence (start_base v)) (uc_sequence (sv_state v))) as [Hq|]; [|done]. cbn [negb andb].
    rewrite (start_base_here v Hq) in Eopen. exact Eopen. }
  rewrite Hturn. clear Hturn. rewrite (proj2 (Z.eqb_neq d 0)), (proj2 (Z.ltb_ge _ _) Hlen) by done.
  rewrite (bool_decide_eq_false_2 (order = [])), (bool_decide_eq_false_2 (is_Some None)), (bool_decide_eq_true_2 ([] = [])).
  2: done. 2: apply is_Some_None.
  - cbn [negb orb]. change (negb (0 =? 0)) with false. cbn [orb]. rewrite bool_decide_eq_true_2; [done|]. apply derived_again.
  - destruct (current_members env) as [|m ms] eqn:Em; [done|]. intros Hnil.
    assert (Hin : mkParticipant m true ∈ order) by (apply derived_members; left; split; [done|by left]).
    rewrite Hnil in Hin. by apply elem_of_nil in Hin.
Qed.

(** What two servers see alike: the finalized records, the statuses and who is
    live, the members, the accepted release, and the members as the witnesses of
    the proposal's epoch. *)
Record sees_same (env : UpgradeEnv) (v : UpgradeService) (cfg' : UpgradeServiceConfig) (env' : UpgradeEnv) (v' : UpgradeService)
    (epoch : EpochId) : Prop := {
  ss_healthy : sv_healthy v' = true;
  ss_clock : ue_wall_clock env' = ue_wall_clock env;
  ss_network : ug_network_id cfg' = ug_network_id cfg;
  ss_state : sv_state v' = sv_state v;
  ss_pending : sv_pending v' = sv_pending v;
  ss_statuses : sv_statuses v' = sv_statuses v;
  ss_live : ∀ n, live cfg' v' n = live cfg v n;
  ss_members : current_members env' = current_members env;
  ss_release : ue_chain env' ≫= rv_current = ue_chain env ≫= rv_current;
  ss_witnesses : witnesses_for cfg' env' epoch = Some (mkWitnessSet (ug_network_id cfg) (current_epoch env) (current_members env));
}.

Lemma forallb_same {A} (f g : A → bool) l : (∀ x, f x = g x) → forallb f l = forallb g l.
Proof. intros Hfg. induction l as [|x l IH]; [done|]. cbn. by rewrite Hfg, IH. Qed.

Lemma seen_everyone env v cfg' env' v' epoch subject :
  sees_same env v cfg' env' v' epoch → everyone_live cfg' env' v' subject = everyone_live cfg env v subject.
Proof.
  intros [_ _ _ Hs _ _ Hl Hm _ _]. unfold everyone_live. rewrite Hs, Hm. f_equal; [by apply forallb_same|].
  apply forallb_same. intros p. by rewrite Hl.
Qed.

Lemma seen_fresh env v cfg' env' v' epoch st :
  sees_same env v cfg' env' v' epoch → status_fresh env' st = status_fresh env st.
Proof. intros Hs. unfold status_fresh. by rewrite (ss_clock _ _ _ _ _ _ Hs). Qed.

Lemma seen_tier2 env v cfg' env' v' epoch :
  sees_same env v cfg' env' v' epoch →
  tier2_participants cfg' env' (current_members env') v' = tier2_participants cfg env (current_members env) v.
Proof.
  intros Hs. unfold tier2_participants. rewrite (ss_members _ _ _ _ _ _ Hs), (ss_statuses _ _ _ _ _ _ Hs). f_equal.
  apply list_filter_iff. intros [n st]. cbn [fst snd]. by rewrite (ss_live _ _ _ _ _ _ Hs), (seen_fresh _ _ _ _ _ _ st Hs).
Qed.

Lemma seen_base env v cfg' env' v' epoch : sees_same env v cfg' env' v' epoch → start_base v' = start_base v.
Proof. intros Hs. unfold start_base. by rewrite (ss_state _ _ _ _ _ _ Hs), (ss_pending _ _ _ _ _ _ Hs). Qed.

(** C26: What a leader proposes gets the votes: after any calls, a record that a
    server proposes passes the check of every server that sees the same, when the
    proposal carries the roots the leader gave and has no uncommitted upgrade
    block below it. The record fits the wire, the accepted release has a number
    and a digest, and the numbers of the records do not overflow. *)
Theorem proposed_record_gets_votes {St St'} (hs : HotStuffConfig) (consensus : HotStuffService St) (hs' : HotStuffConfig)
    (consensus' : HotStuffService St') cs env p cfg' env' v' proposal :
  let v := calls cs in
  signs_for_self → Forall call_bytes cs →
  propose_upgrade cfg hs consensus env v = Some p →
  (∀ r, next_record cfg env v = Some r → record_fits r) →
  (∀ n d, ue_chain env ≫= rv_current = Some (n, d) → n ≠ 0 ∧ d ≠ 0) →
  0 <= uc_sequence (sv_state v) → sb_sequence (start_base v) + 1 < two64 →
  sees_same env v cfg' env' v' (p_epoch proposal) →
  p_previous_state_root proposal = pp_previous_state_root p → p_proposed_state_root proposal = pp_proposed_state_root p →
  upgrade_block_open hs' consensus' (p_parent_digest proposal) = false →
  validate_upgrade cfg' hs' consensus' env' proposal (pp_payload p) v' = true.
Proof.
  cbv zeta. intros Hsig Hb Hp Hfits Hrel H0 Hmax Hs Hprev Hroot Hopen. set (v := calls cs) in *.
  pose proof (calls_collected cs Hsig) as Hc. fold v in Hc. unfold propose_upgrade in Hp.
  destruct (negb (sv_healthy v) || _) eqn:Eh in Hp; [done|]. bool_to_prop. destruct (upgrade_block_open _ _ _) in Hp; [done|].
  destruct (next_record cfg env v) as [r|] eqn:En in Hp; [|done]. cbn [mbind option_bind] in Hp.
  destruct (bool_decide (bp_body _ = [])) in Hp; [done|]. injection Hp as <-. cbn [pp_payload pp_previous_state_root pp_proposed_state_root] in *.
  specialize (Hfits r En). unfold validate_upgrade. rewrite (ss_healthy _ _ _ _ _ _ Hs), (ss_clock _ _ _ _ _ _ Hs).
  rewrite (bool_decide_eq_false_2 (ue_wall_clock env = None)) by done. cbn [negb orb].
  unfold upgrade_record_from_payload, upgrade_record_payload. cbn [bp_kind bp_body].
  rewrite (bool_decide_eq_true_2 (ConsensusTypes.UpgradeProgress = ConsensusTypes.UpgradeProgress)) by done. rewrite decode_encoded by done.
  rewrite Hopen, (seen_base _ _ _ _ _ _ Hs), (ss_state _ _ _ _ _ _ Hs), (ss_witnesses _ _ _ _ _ _ Hs), (ss_network _ _ _ _ _ _ Hs), Hprev, Hroot.
  unfold next_record in En. set (base := start_base v) in *.
  destruct (if negb (negb (sb_sequence base =? uc_sequence (sv_state v))) && active (sv_state v) && negb (uc_halted (sv_state v))
            then rollout_record cfg env v else None) as [r0|] eqn:Er.
  - injection En as <-. destruct (negb (negb _) && _ && _) eqn:Eroll in Er; [|done]. bool_to_prop.
    pose proof (start_base_here v ltac:(done)) as Hbase. fold base in Hbase.
    destruct (rollout_record_votable env v r0 base Hc) as (V1 & V2 & V3); try done; [by rewrite Hbase|].
    cbn [place_record ur_network_id ur_event ur_previous ur_status ur_subject] in *. rewrite !Z.eqb_refl. cbn [negb].
    rewrite (bool_decide_eq_false_2 (ur_event r0 = EvStart)) by done. cbn [sb_sequence sb_head sb_turn_open].
    rewrite Hbase at 1. cbn [sb_head]. rewrite !Z.eqb_refl. cbn [negb andb orb].
    rewrite (bool_decide_eq_true_2 _ V2). cbn [negb]. destruct (ur_event r0); [done| |done|].
    + destruct V3 as (st & -> & V4 & V5). by rewrite (seen_fresh _ _ _ _ _ _ st Hs), V4, (seen_everyone _ _ _ _ _ _ _ Hs), V5.
    + destruct V3 as (st & -> & V4). by rewrite (seen_fresh _ _ _ _ _ _ st Hs), V4.
  - destruct (derive_start cfg env base v) as [r0|] eqn:Ed; [|done]. injection En as <-.
    destruct (start_votable env v r0 Hrel H0 Hmax Ed) as (V1 & V2 & V3 & V4 & V5 & V6). fold base in V2, V6.
    cbn [place_record ur_network_id ur_event ur_previous ur_sequence ur_status ur_subject ur_approval_digest ur_release_number ur_order] in *.
    rewrite !Z.eqb_refl. cbn [negb]. rewrite V1, (bool_decide_eq_true_2 (EvStart = EvStart)) by done.
    rewrite !Z.eqb_refl. cbn [negb orb]. rewrite V2, !andb_false_r. rewrite (bool_decide_eq_true_2 _ (V6 _)). cbn [negb].
    pose proof (eq_trans (ss_release _ _ _ _ _ _ Hs) V3) as Hcur. destruct (ue_chain env') as [chain|]; [|done]. cbn [mbind option_bind] in Hcur |- *. rewrite Hcur.
    rewrite !Z.eqb_refl, (seen_tier2 _ _ _ _ _ _ Hs), (ss_members _ _ _ _ _ _ Hs), V5.
    rewrite (forallb_same _ _ _ (ss_live _ _ _ _ _ _ Hs)), V4. by rewrite bool_decide_eq_true_2.
Qed.

(** ** What a call persists *)

Definition persisted (e : UpgradeEffect) : option (list (UpgradeRecord * option CommitProof)) :=
  match e with Persisted records => Some records | _ => None end.

(** The effects of a call from [v] to [v']: the records written last are those
    that [v'] holds, and every write before is a chain that the server held. *)
Record persists (v : UpgradeService) (es : list UpgradeEffect) (v' : UpgradeService) : Prop := {
  pe_chain : ∀ records, records ∈ omap persisted es → ∃ s, chain_of records s;
  pe_last : match last (omap persisted es) with
            | Some records => records = sv_records v'
            | None => sv_records v' = sv_records v ∧ sv_state v' = sv_state v
            end;
}.

Definition quiet (es : list UpgradeEffect) : Prop := omap persisted es = [].

Lemma quiet_app es es' : quiet es → quiet es' → quiet (es ++ es').
Proof. unfold quiet. rewrite omap_app. by intros -> ->. Qed.

Lemma persists_quiet v es v' : quiet es → sv_records v' = sv_records v → sv_state v' = sv_state v → persists v es v'.
Proof. unfold quiet. intros Hq E1 E2. split; rewrite Hq; [by intros ? ?%elem_of_nil|done]. Qed.

Lemma persists_same v es v' : quiet es → same_but_state v v' → persists v es v'.
Proof. intros Hq (E1 & E2 & _). by apply persists_quiet. Qed.

Lemma persists_app v1 e1 v2 e2 v3 : persists v1 e1 v2 → persists v2 e2 v3 → persists v1 (e1 ++ e2) v3.
Proof.
  intros [C1 L1] [C2 L2]. split; rewrite omap_app.
  - intros records [Hin|Hin]%elem_of_app; eauto.
  - rewrite last_app. destruct (last (omap persisted e2)); [done|]. destruct L2 as [E1 E2].
    destruct (last (omap persisted e1)); [congruence|]. destruct L1. split; congruence.
Qed.

Lemma to_members_quiet env m : quiet (to_members cfg env m).
Proof. unfold quiet, to_members. by induction (filter _ _). Qed.

Lemma send_quiet env v : quiet (send_status cfg env v).2.
Proof. unfold send_status. destruct (ue_wall_clock env); [apply to_members_quiet|done]. Qed.

Lemma page_quiet env after v : quiet (request_page env after v).2.
Proof. unfold request_page. by destruct (sv_proof_search v). Qed.

Lemma sync_quiet env v : quiet (sync_records cfg env v).2.
Proof.
  unfold sync_records. destruct (_ !! _) as [target|]; [|done]. cbv zeta.
  destruct (first_unproven _) as [[index record]|]; [|done]. set (v1 := v <| sv_sync_cursor := _ |>).
  assert (H1 : quiet (search_proof cfg env index record target v1).2).
  { unfold search_proof. destruct (_ || _); [done|]. destruct (match sv_proof_search v1 with Some _ => _ | None => _ end); [done|].
    destruct (search_bounds _ _ _) as [[lower upper]|]; [apply page_quiet|done]. }
  by destruct (search_proof _ _ _ _ _ _) as [v2 e2].
Qed.

Lemma witness_quiet env v : quiet (witness cfg env v).2.
Proof.
  unfold witness. destruct (_ || _); [done|]. destruct (witness_subject _ _ _) as [subject|]; [|done].
  destruct (_ || _); [done|]. cbv zeta. destruct (sv_observations _ !! _) as [own|].
  - unfold resend_observation. destruct (match sv_pending_witness _ with Some _ => _ | None => _ end); [done|apply to_members_quiet].
  - unfold challenge_subject. destruct (match sv_pending_witness _ with Some _ => _ | None => _ end); [done|].
    destruct (fresh_status _ _ _ _); [|done]. destruct (_ || _); [done|]. by destruct (ue_challenge _ _ _ _).
Qed.

Lemma tick_quiet env now v : quiet (tick cfg env now v).2.
Proof.
  unfold tick. destruct (negb _); [done|]. set (v0 := v <| sv_now_ms := now |>).
  assert (H1 : quiet (if cadence_due kUpgradeStatusIntervalMs (sv_status_sent_ms v0) now
    then send_status cfg env (v0 <| sv_status_sent_ms := now |>) else (v0, [])).2).
  { destruct (cadence_due _ _ _); [apply send_quiet|done]. }
  destruct (if cadence_due _ _ _ then _ else _) as [v1 e1]. pose proof (witness_quiet env v1) as H2.
  destruct (witness cfg env v1) as [v2 e2].
  assert (H3 : quiet (if cadence_due (2 * kUpgradeStatusIntervalMs) (sv_sync_sent_ms v2) now
    then sync_records cfg env (v2 <| sv_sync_sent_ms := now |>) else (v2, [])).2).
  { destruct (cadence_due _ _ _); [apply sync_quiet|done]. }
  destruct (if cadence_due _ _ _ then _ else _) as [v3 e3].
  assert (H4 : quiet (match sv_proof_search v3 with
    | Some search => match ps_next_after search with Some after => request_page env after v3 | None => (v3, []) end
    | None => (v3, []) end).2).
  { destruct (sv_proof_search v3) as [search|]; [|done]. destruct (ps_next_after search); [apply page_quiet|done]. }
  destruct (match sv_proof_search v3 with Some _ => _ | None => _ end) as [v4 e4].
  by repeat apply quiet_app.
Qed.

Lemma status_quiet env sender body v : quiet (handle_status cfg env sender body v).2.
Proof.
  unfold handle_status. destruct (decode_upgrade_status body); [|done]. destruct (_ || _); [done|]. cbv zeta.
  destruct (match sv_statuses v !! _ with Some _ => _ | None => _ end); [done|]. unfold push_approval.
  destruct (ue_chain env); [|done]. destruct (_ && _); [|done]. cbv zeta. destruct (_ || _); [|done].
  unfold send_approval. cbn [snd]. destruct (ue_chain env); [|done]. destruct (rv_current _); [|done]. by destruct (_ =? _).
Qed.

Lemma ok_chain v : service_ok v → chain_of (sv_records v) (sv_state v).
Proof. intros [R1 R2 R3 _ _]. by split_and!. Qed.

Lemma take_persists env r p w b v :
  service_ok v → storable r → persists v (take_record cfg env r p w b v).2 (take_record cfg env r p w b v).1.2.
Proof.
  intros Hv Hr. destruct (take_record cfg env r p w b v) as [[ok v'] es] eqn:Et. cbn [fst snd].
  pose proof (ok_chain _ (take_ok _ _ _ _ _ _ _ _ _ Et Hv Hr)) as Hc. revert Et. unfold take_record.
  destruct (_ <=? _); [intros [= <- <- <-]; by apply persists_quiet|].
  destruct (negb _); [intros [= <- <- <-]; by apply persists_quiet|]. cbv zeta. intros Et. injection Et as <- <- <-.
  match goal with |- persists _ (Persisted ?x :: ?more) ?y =>
    assert (Hq : quiet more); [|assert (Hp : omap persisted (Persisted x :: more) = [sv_records y])] end.
  { apply quiet_app; [destruct (bool_decide _); [unfold raise_release_floor; destruct (ue_chain env); [destruct (active _)|]|]|destruct (match ur_event r with EvStart => _ | _ => _ end)]; done. }
  { cbn [omap list_omap persisted]. by rewrite Hq. }
  split; rewrite Hp; [|done]. intros records ->%list_elem_of_singleton. eauto.
Qed.

Lemma drain_persists fuel env v :
  service_ok v → persists v (drain_pending cfg fuel env v).2 (drain_pending cfg fuel env v).1.
Proof.
  revert v. induction fuel as [|fuel IH]; intros v Hv; cbn [drain_pending]; [by apply persists_quiet|].
  destruct (first_pending v) as [[q [r p]]|] eqn:Ef; [|by apply persists_quiet].
  destruct (so_pending v Hv q r p (first_pending_in _ _ _ Ef)) as [_ Hr].
  pose proof (without_ok q v Hv) as Hw. set (v0 := v <| sv_pending := _ |>) in *.
  assert (H0 : persists v [] v0) by by apply persists_quiet.
  destruct (_ <=? _); [exact (persists_app _ _ _ _ _ H0 (IH v0 Hw))|]. destruct (negb _); [by apply persists_quiet|].
  destruct (witnesses_for cfg env _) as [w|]; [|done].
  pose proof (take_persists env r (Some p) (Some w) false v0 Hw Hr) as H1.
  destruct (take_record cfg env r (Some p) (Some w) false v0) as [[ok v1] e1] eqn:Et. cbn [fst snd] in H1.
  pose proof (persists_app _ _ _ _ _ H0 H1) as H1'. destruct ok; cbn [negb]; [|done].
  pose proof (take_ok _ _ _ _ _ _ _ _ _ Et Hw Hr) as K1. pose proof (drain_ok fuel env v1 K1) as K2. pose proof (IH v1 K1) as H2.
  destruct (drain_pending cfg fuel env v1) as [v2 e2]. cbn [fst snd] in *. pose proof (IH v2 K2) as H3.
  destruct (drain_pending cfg fuel env v2) as [v3 e3]. cbn [fst snd] in *.
  exact (persists_app _ _ _ _ _ H1' (persists_app _ _ _ _ _ H2 H3)).
Qed.

Lemma accept_persists env r p w b v :
  service_ok v → storable r → persists v (accept_record cfg env r p w b v).2 (accept_record cfg env r p w b v).1.2.
Proof.
  intros Hv Hr. unfold accept_record. pose proof (take_persists env r p w b v Hv Hr) as H1.
  destruct (take_record cfg env r p w b v) as [[ok v1] e1] eqn:Et. cbn [fst snd] in H1. destruct ok; cbn [negb]; [|done].
  pose proof (drain_persists (S (size (sv_pending v1))) env v1 (take_ok _ _ _ _ _ _ _ _ _ Et Hv Hr)) as H2.
  destruct (drain_pending _ _ _ _) as [v2 e2]. exact (persists_app _ _ _ _ _ H1 H2).
Qed.

Lemma broadcast_quiet q v : quiet (broadcast_record q v).
Proof. unfold broadcast_record. by destruct (head _) as [[r p]|]. Qed.

Lemma recover_persists env body proof v :
  service_ok v → persists v (recover_proof cfg env body proof v).2 (recover_proof cfg env body proof v).1.2.
Proof.
  intros Hv. pose proof (ok_chain _ (recover_ok env body proof v Hv)) as Hc. revert Hc. unfold recover_proof.
  destruct (fill_proof _ _ _) as [[q records]|]; [|by intros _; apply persists_quiet].
  destruct (verified_proof_epoch _ _ _ _); [|by intros _; apply persists_quiet]. cbv zeta. cbn [fst snd].
  set (v1 := match sv_proof_search _ with Some _ => _ | None => _ end).
  assert (E : sv_records v1 = records).
  { subst v1. destruct (sv_proof_search _) as [search|]; [by destruct (_ =? _)|done]. }
  intros Hc. assert (Hq : omap persisted ([Persisted records] ++ broadcast_record q v1) = [records])
    by (rewrite omap_app, broadcast_quiet; done).
  split; rewrite Hq; [|done]. intros rs ->%list_elem_of_singleton. rewrite <-E. eauto.
Qed.

Lemma record_proof_persists env sender message v :
  call_bytes (CallRecordProof env sender message) → service_ok v →
  persists v (handle_record_proof cfg env sender message v).2 (handle_record_proof cfg env sender message v).1.
Proof.
  cbn [call_bytes]. intros Hb Hv. unfold handle_record_proof. destruct (um_proof message) as [proof|]; [|by apply persists_quiet].
  case_bool_decide; [by apply persists_quiet|].
  destruct (decode_upgrade_record (um_body message)) as [r|] eqn:Ed; [|by apply persists_quiet].
  destruct (Z.eqb_spec (ur_network_id r) (ug_network_id cfg)) as [Hn|]; [|by apply persists_quiet]. cbn [negb].
  destruct (decoded_encodes _ _ Hb Ed) as [Hf _]. assert (Hr : storable r) by done.
  destruct (_ <=? _).
  { pose proof (recover_persists env (um_body message) proof v Hv) as H1. by destruct (recover_proof _ _ _ _ _) as [[ok v1] e1]. }
  destruct (bool_decide (is_Some (sv_pending v !! _))); [by apply persists_quiet|].
  destruct (verified_proof_epoch _ _ _ _) as [epoch|]; [|by apply persists_quiet].
  destruct (witnesses_for cfg env epoch) as [w|]; [|by apply persists_quiet].
  assert (H1 : ∀ ok v1 e1, (if (ur_sequence r =? uc_sequence (sv_state v) +64 1) || bool_decide (ur_event r = EvStart)
                 then accept_record cfg env r (Some proof) (Some w) true v else (false, v, [])) = (ok, v1, e1) → persists v e1 v1).
  { intros ok v1 e1. destruct (_ || _); [|intros [= <- <- <-]; by apply persists_quiet]. intros E.
    pose proof (accept_persists env r (Some proof) (Some w) true v Hv Hr) as Ha. by rewrite E in Ha. }
  destruct (if _ || _ then _ else _) as [[ok v1] e1]. specialize (H1 _ _ _ eq_refl).
  destruct ok; [done|]. cbn [fst snd]. eapply persists_app; [exact H1|].
  by destruct (_ <? _)%nat; apply persists_quiet.
Qed.

Lemma committed_persists env committed v :
  call_bytes (CallCommitted env committed) → service_ok v →
  persists v (on_upgrade_committed cfg env committed v).2 (on_upgrade_committed cfg env committed v).1.
Proof.
  cbn [call_bytes]. intros Hb Hv. unfold on_upgrade_committed. destruct (negb _); [by apply persists_quiet|].
  destruct (cl_payload committed) as [payload|] eqn:Ep; [|by apply persists_quiet]. specialize (Hb _ eq_refl).
  unfold upgrade_record_from_payload. case_bool_decide; [|by apply persists_quiet].
  destruct (decode_upgrade_record (bp_body payload)) as [r|] eqn:Ed; [|by apply persists_quiet].
  destruct (Z.eqb_spec (ur_network_id r) (ug_network_id cfg)) as [Hn|]; [|by apply persists_quiet]. cbn [negb]. cbv zeta.
  destruct (decoded_encodes _ _ Hb Ed) as [Hf _].
  pose proof (accept_persists env r (cl_proof committed) (witnesses_for cfg env (p_epoch (cl_proposal committed))) true v Hv (conj Hf Hn)) as H1.
  destruct (accept_record _ _ _ _ _ _ _) as [[ok v1] e1]. destruct ok; [|done]. cbn [fst snd] in *.
  eapply persists_app; [exact H1|]. apply persists_quiet; [apply broadcast_quiet|done..].
Qed.

Lemma chain_persists env response from v :
  service_ok v → persists v (on_certified_chain cfg env response from v).2 (on_certified_chain cfg env response from v).1.
Proof.
  intros Hv. unfold on_certified_chain. destruct (_ || _); [by apply persists_quiet|].
  assert (H1 : ∀ chain wanted v, service_ok v → persists v (recover_from_chain cfg env (sr_high_qc response) chain wanted v).2
    (recover_from_chain cfg env (sr_high_qc response) chain wanted v).1).
  { clear v Hv. induction chain as [|b0 chain IH]; intros wanted v Hv; cbn [recover_from_chain]; [by apply persists_quiet|].
    destruct chain as [|b1 [|b2 later]]; [by apply persists_quiet..|].
    destruct (take_wanted _ _) as [[body others]|]; [|by apply IH].
    set (proof := mkProof _ _). pose proof (recover_persists env body proof v Hv) as H1. pose proof (recover_ok env body proof v Hv) as K1.
    destruct (recover_proof _ _ _ _ _) as [[ok v1] e1]. cbn [fst snd] in *.
    pose proof (IH (if ok then others else wanted) v1 K1) as H2. destruct (recover_from_chain _ _ _ _ _ _) as [v2 e2].
    exact (persists_app _ _ _ _ _ H1 H2). }
  specialize (H1 (sr_chain response) (wanted_body v) v Hv). destruct (recover_from_chain _ _ _ _ _ _) as [v1 e1]. cbn [fst snd] in *.
  destruct (next_page_same response from v1) as (E1 & E2 & _). destruct H1 as [C L]. split; [done|].
  destruct (last _); [by rewrite E2|]. by rewrite E1, E2.
Qed.

Lemma call_persists c v : call_bytes c → service_ok v → persists v (sends c v) (call c v).
Proof.
  intros Hb Hv. destruct c; cbn [call sends].
  - apply persists_same; [apply tick_quiet|apply tick_same].
  - apply persists_same; [apply send_quiet|apply send_status_same].
  - apply persists_same; [apply send_quiet|]. unfold stage. cbv zeta. eapply same_trans; [|apply send_status_same]. by destruct (_ =? _).
  - unfold report_failed. destruct (_ =? _); [by apply persists_quiet|].
    apply persists_same; [apply send_quiet|]. eapply same_trans; [|apply send_status_same]. done.
  - apply persists_same; [apply status_quiet|apply handle_status_same].
  - unfold handle_observation. cbv zeta. destruct (_ || _); [by apply persists_quiet|].
    destruct (decode_upgrade_observation body); [|by apply persists_quiet].
    destruct (_ || _); [by apply persists_quiet|]. destruct (negb _); [by apply persists_quiet|].
    destruct (_ || _); by apply persists_quiet.
  - by apply record_proof_persists.
  - by apply committed_persists.
  - apply persists_same; [|apply on_verdict_same]. unfold on_verdict. destruct (sv_pending_witness v); [|done].
    destruct (_ || _); [done|]. apply witness_quiet.
  - by apply chain_persists.
Qed.
End service.

(** ** Restarts *)

Section restarts.
Context `{Sodium, TextCodec, HexCodec, ValueCodec, UpgradeEnvelope, !TextCodecLaws, !HexCodecLaws, !UpgradeEnvelopeLaws}.
Context (cfg : UpgradeServiceConfig).
Notation path := (records_path cfg).
Notation document records := (json_dump (records_document records)).

(** *** The text of the records *)

Lemma join_bytes {A} (put : A → list Z) xs : (∀ x, Forall is_byte (put x)) → Forall is_byte (mjoin (put <$> xs)).
Proof. intros Hp. induction xs as [|x xs IH]; [constructor|]. cbn. apply Forall_app. by split. Qed.

Lemma encode_record_bytes r : Forall is_byte (encode_upgrade_record r).
Proof.
  unfold encode_upgrade_record. destruct (_ || _); [constructor|]. cbv zeta. destruct (_ <? _); [constructor|].
  unfold record_bytes. repeat (apply Forall_app; split); try apply be_bytes_are_bytes.
  - apply join_bytes. intros x. unfold put_participant. repeat (apply Forall_app; split); apply be_bytes_are_bytes.
  - destruct (ur_status r) as [st|]; [|constructor]. cbn. unfold put_status.
    repeat (apply Forall_app; split); apply be_bytes_are_bytes.
  - apply join_bytes. intros x. unfold put_observation. repeat (apply Forall_app; split); apply be_bytes_are_bytes.
Qed.

Lemma hex_back bytes : Forall is_byte bytes → from_hex (to_hex bytes) = Some bytes.
Proof. apply hex_round_trip. Qed.

Lemma proof_text_ascii entry : ascii_text (proof_text entry).
Proof.
  unfold proof_text. destruct entry.2 as [proof|]; [|constructor]. case_bool_decide; [constructor|].
  apply hex_ascii, encode_message_bytes.
Qed.

Lemma records_fit records : json_fits (records_document records).
Proof.
  unfold records_document. fits_literal; [by constructor| |]; apply fits_array; intros j (entry & -> & _)%list_elem_of_fmap; constructor.
  - apply hex_ascii, encode_record_bytes.
  - apply proof_text_ascii.
Qed.

(** A stored proof never stops the load. *)
Lemma stored_proof_reads entry : ∃ proof, stored_proof (proof_text entry) entry.1 = Some proof.
Proof.
  unfold stored_proof. destruct (is_empty (proof_text entry)) eqn:Ee; [by eexists|]. revert Ee. unfold proof_text.
  destruct entry.2 as [proof|]; [|done]. case_bool_decide; [done|]. intros _.
  rewrite hex_back by apply encode_message_bytes. cbn [mbind option_bind]. by eexists.
Qed.

Notation texts records := ((λ entry : UpgradeRecord * option CommitProof, JString (proof_text entry)) <$> records).
Notation bodies records :=
  ((λ entry : UpgradeRecord * option CommitProof, JString (to_hex (encode_upgrade_record entry.1))) <$> records).

Lemma load_entries_app proofs entries more records s records1 s1 :
  load_entries cfg proofs entries records s = (true, records1, s1) →
  load_entries cfg proofs (entries ++ more) records s = load_entries cfg proofs more records1 s1.
Proof.
  revert records s. induction entries as [|entry entries IH]; intros records s; cbn [load_entries app]; [by intros [= <- <-]|].
  destruct (mbind _ _) as [r|]; [|done]. destruct (negb _); [done|]. destruct (if bool_decide (records = []) then _ else _); [done|].
  cbv zeta. destruct (proof_entry _ _) as [[hex|]|]; [|apply IH|done]. destruct (stored_proof _ _); [apply IH|done].
Qed.

(** The records load to the same records, each with the proof that its envelope
    still gives, and to the state. *)
Lemma stored_loads rs s : stored rs s → ∀ records more, records.*1 = rs → Forall (storable cfg) rs →
  ∃ records', load_entries cfg (JArray (texts records ++ more)) (bodies records) [] no_rollout = (true, records', s) ∧
    records'.*1 = rs.
Proof.
  induction 1 as [|s r Ev|rs s r Hne Hst IH Ev Hs Hp]; intros records more Er Hall.
  - destruct records; [|done]. by exists [].
  - destruct records as [|[r0 p] [|]]; [done| |done]. injection Er as ->. apply Forall_cons in Hall as [[Hr Hn] _].
    cbn [fmap list_fmap load_entries as_string mbind option_bind app fst length]. rewrite hex_back by apply encode_record_bytes.
    cbn [mbind option_bind]. rewrite decode_encoded by done. rewrite Hn, Z.eqb_refl, Ev. cbn [negb].
    rewrite !bool_decide_eq_true_2 by done. cbn [negb proof_entry lookup list_lookup as_string fmap option_fmap option_map].
    destruct (stored_proof_reads (r, p)) as [proof E]. cbn [fst] in E. rewrite E. cbn [app].
    exists [(r, proof)]. by rewrite (start_forgets no_rollout s).
  - destruct records as [|[r0 p] records0 _] using rev_ind; [symmetry in Er; by apply app_nil in Er as [_ ?]|].
    rewrite fmap_app in Er. apply app_inj_tail in Er as [Er Er0]. cbn in Er0. subst r0.
    apply Forall_app in Hall as [Hrs [[Hr Hn] _]%Forall_cons]. rewrite !fmap_app, <-app_assoc.
    destruct (IH records0 (texts [(r, p)] ++ more) Er Hrs) as (records1 & El & E1).
    rewrite (load_entries_app _ _ _ _ _ _ _ El).
    cbn [fmap list_fmap load_entries as_string mbind option_bind app fst]. rewrite hex_back by apply encode_record_bytes.
    cbn [mbind option_bind]. rewrite decode_encoded by done. rewrite Hn, Hs, Hp, !Z.eqb_refl. cbn [negb orb].
    assert (Hlen : length records1 = length records0) by (rewrite <-(length_fmap fst records1), E1, <-Er; apply length_fmap).
    rewrite (bool_decide_eq_false_2 (records1 = [])) by (intros ->; by destruct Hne).
    rewrite (bool_decide_eq_false_2 (ur_event r = EvStart)) by done. cbn [orb proof_entry].
    rewrite Hlen, lookup_app_r by by rewrite length_fmap. rewrite length_fmap, Nat.sub_diag.
    cbn [lookup list_lookup as_string fmap option_fmap option_map].
    destruct (stored_proof_reads (r, p)) as [proof E]. cbn [fst] in E. rewrite E. exists (records1 ++ [(r, proof)]).
    split; [done|]. by rewrite fmap_app, E1.
Qed.

Lemma document_loads records s : chain_of cfg records s →
  ∃ root records', json_parse (document records) = Some root ∧ load_document cfg root = (true, records', s) ∧
    records'.*1 = records.*1.
Proof.
  intros (_ & Hst & Hall). destruct (stored_loads _ _ Hst records [] eq_refl Hall) as (records' & El & E1).
  exists (records_document records), records'. split; [apply json_round_trip, records_fit|]. split; [|done].
  unfold load_document, at_unsigned, records_document, at_key, object. rewrite !lookup_fields.
  cbn [assoc String.eqb Ascii.eqb Bool.eqb mbind option_bind get_unsigned default items_of].
  change (kRecordsFormatVersion mod two32 =? kRecordsFormatVersion) with true. cbn [negb].
  rewrite app_nil_r in El. exact El.
Qed.

(** *** What the disk keeps *)

(** No file, or the text of a chain that the server accepted. *)
Definition kept (content : option Content) : Prop :=
  content = None ∨ ∃ records s, content = Some (Whole (document records)) ∧ chain_of cfg records s.

(** The text of the records that [v] holds. *)
Definition current (v : UpgradeService) (content : option Content) : Prop :=
  (content = None ∧ sv_records v = []) ∨
  ∃ records, content = Some (Whole (document records)) ∧ records.*1 = (sv_records v).*1.

(** The last write decides what is on the disk. *)
Lemma settle_last es : ∀ sd, (∀ records, records ∈ omap persisted es → ∃ s, chain_of cfg records s) →
  Forall (λ ver, kept (ver !! path)) (versions sd.2) →
  crash_keeps path kept sd.2 (settle_records cfg es sd).2 ∧
  match last (omap persisted es) with
  | Some records => (settle_records cfg es sd).1 = true →
      ∀ ver, ver ∈ versions (settle_records cfg es sd).2 → ver !! path = Some (Whole (document records))
  | None => settle_records cfg es sd = sd
  end.
Proof.
  unfold settle_records. induction es as [|e es IH]; intros sd Hc Hk; cbn [foldl omap list_omap].
  { split; [by apply crash_keeps_same|done]. }
  destruct e; cbn [settle_record persisted] in *; try by apply IH.
  destruct (persist_records cfg records sd.2) as [ok d1] eqn:Ep.
  destruct (Hc records) as [s Hs]; [by left|].
  apply (write_atomic_keeps path kept) in Ep as [K1 Hok]; [|done|by right; exists records, s].
  destruct (IH (ok, d1)) as [K2 Hl]; [intros rs Hin; apply Hc; by right|apply K1|].
  split; [by eapply crash_keeps_trans|]. rewrite last_cons. destruct (last (omap persisted es)); [done|]. by rewrite Hl.
Qed.

(** *** What a start finds *)

Lemma load_kept ver d0 ok records s d :
  kept (ver !! path) → reboots ver d0 → load cfg d0 = (ok, records, s, d) →
  versions d = versions d0 ∧ trace d = trace d0 ∧ chain_of cfg records s ∧
  ((succeeds d0).1 = true → (succeeds (succeeds d0).2).1 = true → ok = true) ∧
  (ok = true → ∀ v, sv_records v = records → Forall (λ ver, current v (ver !! path)) (versions d0)) ∧
  (ok = true → ∀ v, current v (ver !! path) → chain_of cfg (sv_records v) (sv_state v) →
     records.*1 = (sv_records v).*1 ∧ s = sv_state v).
Proof.
  intros Hk [Hw Ha Hv]. unfold load. destruct (succeeds d0) as [b1 d1] eqn:E1. apply succeeds_frame in E1 as (L1 & V1 & T1).
  cbn [fst snd]. assert (Hnone : chain_of cfg [] no_rollout) by (split; [by exists []|split; [exact stored_none|exact (Forall_nil_2 _)]]).
  destruct b1; cbn [negb]; [|by intros [= <- <- <- <-]].
  unfold DurableWrite.read_file. rewrite L1. destruct Hk as [Hk|(R & sR & Hk & HR)].
  { rewrite (Ha _ Hk). cbn [fmap option_fmap option_map]. intros [= <- <- <- <-]. split_and!; try done.
    - intros _ v Ev. rewrite Hv. apply Forall_singleton. left. by rewrite lookup_fmap, (Ha _ Hk).
    - rewrite Hk. intros _ v [[_ E]|(R & ? & _)] (_ & Hst & _); [|done]. rewrite E in *. split; [done|].
      symmetry. by apply (stored_nil _ _ Hst). }
  rewrite (Hw _ _ Hk). cbn [fmap option_fmap option_map f_bytes].
  destruct (succeeds d1) as [b2 d2] eqn:E2. apply succeeds_frame in E2 as (_ & V2 & T2). cbn [fst].
  destruct b2; cbn [negb]; [|intros [= <- <- <- <-]; split_and!; congruence || done].
  destruct (document_loads R sR HR) as (root & R' & Ep & El & E'). rewrite Ep, El. intros [= <- <- <- <-].
  split_and!; [congruence..| |done| |].
  - destruct HR as (H1' & H2' & H3'). split; [done|]. by rewrite E'.
  - intros _ v Ev. rewrite Hv. apply Forall_singleton. right. exists R. by rewrite lookup_fmap, (Hw _ _ Hk), Ev, E'.
  - rewrite Hk. intros _ v [[? _]|(Rv & Ed & Ev)]; [done|]. intros Hch. injection Ed as Ed.
    assert (Hcv : chain_of cfg Rv (sv_state v)) by (unfold chain_of in *; by rewrite Ev).
    destruct (document_loads Rv _ Hcv) as (root' & R2 & Ep' & El' & E2'). rewrite Ed, Ep' in Ep. injection Ep as ->.
    rewrite El' in El. injection El as <- <-. by rewrite E2'.
Qed.

(** *** Runs with crashes *)

(** The service after a start on [d0], and whether the load read the file. *)
Definition restarted (env : UpgradeEnv) (now_ms : Z) (d0 : Disk) : UpgradeService * (bool * Disk) :=
  let '(healthy, v, d, _) := upgrade_start cfg env now_ms new_upgrade_service d0 in (v, (healthy, d)).

(** A call with its writes, each system call of which may fail, or a crash
    during or after one and a start on what it left. The flag says that the last
    write reported success, or that nothing was written since a start that read
    the file. *)
Inductive upgrade_step : UpgradeService * (bool * Disk) → UpgradeService * (bool * Disk) → Prop :=
  | upgrade_call c v sd :
      call_bytes c → upgrade_step (v, sd) (call cfg c v, settle_records cfg (sends cfg c v) sd)
  | upgrade_restart c v sd ver env now_ms d0 :
      call_bytes c → crash_point sd.2 (settle_records cfg (sends cfg c v) sd).2 ver → reboots ver d0 →
      upgrade_step (v, sd) (restarted env now_ms d0).

Record machine_ok (v : UpgradeService) (sd : bool * Disk) : Prop := {
  mo_service : service_ok cfg v;
  mo_kept : Forall (λ ver, kept (ver !! path)) (versions sd.2);
  mo_current : sd.1 = true → Forall (λ ver, current v (ver !! path)) (versions sd.2);
}.

Lemma call_machine c v sd : call_bytes c → machine_ok v sd →
  machine_ok (call cfg c v) (settle_records cfg (sends cfg c v) sd) ∧
  ∀ ver, crash_point sd.2 (settle_records cfg (sends cfg c v) sd).2 ver → kept (ver !! path).
Proof.
  intros Hb [Hv Hk Hc]. destruct (call_persists cfg c v Hb Hv) as [Pc Pl].
  destruct (settle_last (sends cfg c v) sd Pc Hk) as [K1 Hl].
  split; [|intros ver; by apply crash_keeps_point]. split; [by apply call_ok|apply K1|].
  destruct (last (omap persisted (sends cfg c v))) as [records|].
  - intros Hs. apply Forall_forall. intros ver Hin. right. exists records. split; [by apply Hl|]. by rewrite Pl.
  - rewrite Hl. intros Hs. eapply Forall_impl; [exact (Hc Hs)|]. intros ver. unfold current. destruct Pl as [-> _]. done.
Qed.

Lemma started_service_ok records s now_ms healthy :
  chain_of cfg records s →
  service_ok cfg (new_upgrade_service <| sv_now_ms := now_ms |> <| sv_records := records |> <| sv_state := s |> <| sv_healthy := healthy |>).
Proof.
  intros (H1' & H2' & H3'). destruct (new_upgrade_service_ok cfg) as [_ _ _ R4 R5]. split; [exact H1'|exact H2'|exact H3'|exact R4|exact R5].
Qed.

Lemma restart_machine ver env now_ms d0 : kept (ver !! path) → reboots ver d0 →
  machine_ok (restarted env now_ms d0).1 (restarted env now_ms d0).2.
Proof.
  intros Hk Hr. unfold restarted, upgrade_start. destruct (load cfg d0) as [[[ok records] s] d] eqn:El.
  destruct (load_kept _ _ _ _ _ _ Hk Hr El) as (Ev & _ & Hc & _ & Hcur & _). cbn [fst snd].
  split; [by apply started_service_ok| |]; cbn [fst snd]; rewrite Ev.
  - destruct Hr as [Hw Ha Hv]. rewrite Hv. apply Forall_singleton. rewrite lookup_fmap.
    destruct Hk as [Hk|(R & sR & Hk & HR)]; [rewrite (Ha _ Hk); by left|rewrite (Hw _ _ Hk); right; by exists R, sR].
  - intros ->. by apply Hcur.
Qed.

Lemma step_machine m m' : upgrade_step m m' → machine_ok m.1 m.2 → machine_ok m'.1 m'.2.
Proof.
  intros [c v sd Hb|c v sd ver env now_ms d0 Hb Hcp Hr] Hm; cbn [fst snd] in *.
  - by apply call_machine.
  - eapply restart_machine; [|exact Hr]. by apply (call_machine c v sd Hb Hm).
Qed.

Lemma steps_machine m m' : rtc upgrade_step m m' → machine_ok m.1 m.2 → machine_ok m'.1 m'.2.
Proof. induction 1; [done|]. intros Hm. eauto using step_machine. Qed.

(** C28: The stored records survive crashes: from a server without the file, through
    any calls, whatever peers and consensus delivered and whichever system calls
    of the writes failed, crashes at any point and restarts, the rollout state is
    that of an accepted chain of records and at most 64 records are held ahead
    of a gap. A start after a crash at any point of a further call, whose stat
    and open of the file work, is healthy and loads an accepted chain; and when
    the last write reported success (or nothing was written since a start that
    read the file), a crash or a shutdown after it loses nothing: the start loads
    the same records and the same rollout state. The commit proofs are read back
    through the envelope, of which only that it gives bytes is assumed. *)
Theorem restart_restores_rollout d v saved d' :
  Forall (λ ver, ver !! path = None) (versions d) →
  rtc upgrade_step (new_upgrade_service, (true, d)) (v, (saved, d')) →
  (∃ steps, run_records no_rollout steps = Some (sv_state v)) ∧ (size (sv_pending v) ≤ kMaxPendingRecords)%nat ∧
  (∀ ver env now_ms d0, reboots ver d0 → (succeeds d0).1 = true → (succeeds (succeeds d0).2).1 = true →
     let v' := (restarted env now_ms d0).1 in
     (∀ c, call_bytes c → crash_point d' (settle_records cfg (sends cfg c v) (saved, d')).2 ver →
        sv_healthy v' = true ∧ ∃ steps, run_records no_rollout steps = Some (sv_state v')) ∧
     (saved = true → ver ∈ versions d' →
        sv_healthy v' = true ∧ sv_state v' = sv_state v ∧ (sv_records v').*1 = (sv_records v).*1)).
Proof.
  intros Hno Hrun. assert (Hm : machine_ok v (saved, d')).
  { apply (steps_machine _ _ Hrun). split; [apply new_upgrade_service_ok| |].
    - eapply Forall_impl; [exact Hno|]. intros ver Hver. by left.
    - intros _. eapply Forall_impl; [exact Hno|]. intros ver Hver. by left. }
  destruct (mo_service _ _ Hm) as [R1 R2 R3 R4 R5]. split_and!; [done..|].
  intros ver env now_ms d0 Hr Hs1 Hs2. cbv zeta. unfold restarted, upgrade_start.
  destruct (load cfg d0) as [[[ok records] s] d1] eqn:El. cbn [fst].
  assert (Hload : kept (ver !! path) → ok = true ∧ chain_of cfg records s ∧
    (current v (ver !! path) → records.*1 = (sv_records v).*1 ∧ s = sv_state v)).
  { intros Hk. destruct (load_kept _ _ _ _ _ _ Hk Hr El) as (_ & _ & Hc & Hok & _ & Hex). specialize (Hok Hs1 Hs2).
    split_and!; [done|apply Hc..|]. intros Hcur. by apply Hex. }
  split.
  - intros c Hb Hcp. destruct (call_machine c v _ Hb Hm) as [_ Hk]. destruct (Hload (Hk _ Hcp)) as (-> & (Hst & _) & _). by split.
  - intros -> Hin. pose proof (mo_kept _ _ Hm) as Hk. pose proof (mo_current _ _ Hm eq_refl) as Hc. rewrite Forall_forall in Hk, Hc.
    destruct (Hload (Hk _ Hin)) as (-> & _ & Hex). destruct (Hex (Hc _ Hin)) as [E1 E2]. by split_and!.
Qed.
End restarts.

(** ** Five servers *)

Module FiveServers.
(** A small hash, and the digest as its own signature. *)
#[export] Instance sodium : Sodium := {|
  crypto_hash_sha256 bytes := foldl (λ h b, (31 * h + b + 1) mod two64) 17 bytes;
  crypto_sign_detached _ d := Some d;
  crypto_sign_verify_detached signature d _ := signature =? d |}.

Definition members : list NodeId := [1; 2; 3; 4; 5].
Definition config (self : NodeId) : UpgradeServiceConfig := mkUpgradeConfig self [] 0 "upgrade" 2.
Definition view : EpochView := mkEpochView 1 members 4 (list_to_map ((λ n, (n, n)) <$> members)).
(** Release 3 with the digest 9 is accepted. *)
Definition env : UpgradeEnv :=
  mkEnv (Some view) (Some 1) None (λ _, None) false (Some (mkReleaseView (Some (3, 9)) 3 [] [])) (Some 1000) true None
    true (λ _ _ _, None).

Definition status (node : NodeId) : UpgradeStatus := sign_upgrade_status (mkStatus 0 node 2 0 3 kUpgradeStatusHealthy 990 0) [].
Definition heard : list UpgradeCall :=
  [CallTick env 50; CallSendStatus env] ++ ((λ n, CallStatus env n (encode_upgrade_status (status n))) <$> [2; 3; 4; 5]).
Notation hearing := (calls (config 1) heard).

Definition hs : HotStuffConfig := mkConfig 1 1 0 1 0 members ∅ 4 1 None None.
Definition consensus : HotStuffService unit :=
  mkService tt false true 1 0 (genesis_qc hs) (genesis_qc hs) 0 ∅ ∅ ∅ ∅ ∅ ∅ ∅ ∅ ∅ None false false None [].
Definition proposed : ProposedPayload :=
  default (mkProposed (mkPayload ConsensusTypes.UpgradeProgress []) 0 0 0) (propose_upgrade (config 1) hs consensus env hearing).
Definition proposal : Proposal := mkProposal 1 1 0 1 1 1 1 0 0 (pp_previous_state_root proposed) (pp_proposed_state_root proposed) 0 0.
Definition record : UpgradeRecord := default (blank_record EvStart 0) (next_record (config 1) env hearing).

(** The Start record finalizes. *)
Definition start : UpgradeCall :=
  CallCommitted env (mkCommittedPayload (mkCommit 1 1 1 0 0 0 0) proposal (Some (pp_payload proposed)) (Some TwoEpochs.proof)).
Definition finalized : list UpgradeCall := heard ++ [start].

(** Server 1, the first in the order, runs the release; server 2 challenges it and
    hears the verdict. *)
Definition approved : list ApprovedPath := [mkApprovedPath "/usr/bin/nexus" ["aa"]].
Definition watching : UpgradeEnv :=
  mkEnv (Some view) (Some 1) None (λ _, None) false (Some (mkReleaseView (Some (3, 9)) 3 approved [])) (Some 1000) true None
    true (λ _ _ _, Some 7).
Definition updated : UpgradeStatus := sign_upgrade_status (mkStatus 0 1 3 0 3 kUpgradeStatusHealthy 995 0) [].
Definition challenged : list UpgradeCall :=
  [CallTick watching 50; start; CallStatus watching 1 (encode_upgrade_status updated); CallTick watching 60].
Definition verdict : AttestationVerdict :=
  mkVerdict 1 1 1 UpgradeHealth
    (match sv_pending_witness (calls (config 2) challenged) with Some pending => pw_context pending | None => 0 end) 0 8 true
    AfNone (mkClaims 1 1 true true true true true true true true true true true true true true) [mkImaPath "/usr/bin/nexus" "aa"].
Notation vouched := (sends (config 2) (CallVerdict watching verdict) (calls (config 2) challenged)).
Definition first_vouched : UpgradeEffect := default UpdaterWoken (head vouched).
Definition vouched_body : list Z := default [] (observing first_vouched).
(** Server 1 with its records on an empty disk on which every call succeeds. *)
#[export] Instance envelope : UpgradeEnvelope := {|
  encode_message message _ := (λ b, b mod 256) <$> um_body message;
  decode_message bytes := Some (mkUpgradeMsg RecordProof bytes (Some TwoEpochs.proof)) |}.

#[export] Instance envelope_laws : UpgradeEnvelopeLaws.
Proof.
  split. intros message epoch. apply Forall_fmap, Forall_true. intros b. apply Z.mod_pos_bound. done.
Qed.

#[export] Existing Instances test_codec Member.hex Member.hex_laws.
#[export] Instance values : ValueCodec := {|
  json_dump_indented := json_dump; json_dump_discarded _ _ := []; json_float_to_integer _ := 0 |}.

Definition blank_disk : Disk := mkDisk ∅ [∅] (replicate 60 1000000) [].
Definition serve_call (m : UpgradeService * (bool * Disk)) (c : UpgradeCall) : UpgradeService * (bool * Disk) :=
  (call (config 1) c m.1, settle_records (config 1) (sends (config 1) c m.1) m.2).
Definition served : UpgradeService * (bool * Disk) := foldl serve_call (new_upgrade_service, (true, blank_disk)) finalized.
Definition found : Disk := mkDisk (DurableWrite.live served.2.2) [flushed <$> DurableWrite.live served.2.2] [1; 1] [].
End FiveServers.

Section applications.
Import FiveServers.

Lemma leader_proposes : propose_upgrade (config 1) hs consensus env hearing = Some proposed.
Proof. vm_compute. reflexivity. Qed.

Lemma leader_record : next_record (config 1) env hearing = Some record.
Proof. vm_compute. reflexivity. Qed.

Definition byte_calls (c : UpgradeCall) : bool :=
  match c with
  | CallRecordProof _ _ message => forallb (λ b, (0 <=? b) && (b <? 256)) (um_body message)
  | CallCommitted _ committed => match cl_payload committed with Some p => forallb (λ b, (0 <=? b) && (b <? 256)) (bp_body p) | None => true end
  | _ => true
  end.

Lemma bytes_checked l : forallb (λ b, (0 <=? b) && (b <? 256)) l = true → Forall is_byte l.
Proof.
  intros Hl. apply Forall_forall. intros b Hin%list_elem_of_In. rewrite forallb_forall in Hl. specialize (Hl b Hin). bool_to_prop. done.
Qed.

Lemma byte_calls_ok cs : forallb byte_calls cs = true → Forall call_bytes cs.
Proof.
  intros Hall. apply Forall_forall. intros c Hc%list_elem_of_In. rewrite forallb_forall in Hall. specialize (Hall c Hc).
  destruct c; cbn in *; try done; [by apply bytes_checked|]. intros payload E. rewrite E in Hall. by apply bytes_checked.
Qed.

Lemma serve_steps cs m : Forall call_bytes cs → rtc (upgrade_step (config 1)) m (foldl serve_call m cs).
Proof.
  intros Hcs. revert m. induction Hcs as [|c cs Hc _ IH]; intros [v sd]; [done|]. cbn [foldl].
  eapply rtc_l; [by apply (upgrade_call (config 1) c)|apply IH].
Qed.

Lemma served_run : rtc (upgrade_step (config 1)) (new_upgrade_service, (true, blank_disk)) (served.1, (true, served.2.2)).
Proof.
  assert (E : served = (served.1, (true, served.2.2))) by (vm_compute; reflexivity).
  assert (Hr : rtc (upgrade_step (config 1)) (new_upgrade_service, (true, blank_disk)) served)
    by (apply serve_steps, byte_calls_ok; vm_compute; reflexivity).
  exact (eq_ind served (λ m, rtc (upgrade_step (config 1)) (new_upgrade_service, (true, blank_disk)) m) Hr _ E).
Qed.

Lemma served_flushed : versions served.2.2 = [flushed <$> DurableWrite.live served.2.2].
Proof. vm_compute. reflexivity. Qed.

Lemma restart_restores_rollout_witness :
  length (sv_records served.1) = 1%nat ∧ uc_release_number (sv_state (restarted (config 1) env 0 found).1) = 3 ∧
  sv_state (restarted (config 1) env 0 found).1 = sv_state served.1.
Proof.
  split; [vm_compute; reflexivity|]. split; [vm_compute; reflexivity|].
  destruct (restart_restores_rollout (config 1) blank_disk served.1 true served.2.2) as (_ & _ & Hr).
  - apply Forall_singleton. reflexivity.
  - exact served_run.
  - refine (proj1 (proj2 (proj2 (Hr (flushed <$> DurableWrite.live served.2.2) env 0 found _ eq_refl eq_refl) eq_refl _))).
    + exact (reboots_flushed (DurableWrite.live served.2.2) [1; 1] []).
    + rewrite served_flushed. by left.
Defined.

Lemma default_head {A} (d : A) l : negb (length l =? 0)%nat = true → default d (head l) ∈ l.
Proof. destruct l; [done|]. intros _. by left. Qed.

Lemma vouched_first : first_vouched ∈ vouched.
Proof. unfold first_vouched. apply default_head. vm_compute. reflexivity. Qed.

Lemma vouched_bytes : observing first_vouched = Some vouched_body.
Proof. vm_compute. reflexivity. Qed.

Lemma sent_observation_was_attested_witness :
  (length vouched_body = 232)%nat ∧
  ∃ o, vouched_body = encode_upgrade_observation o ∧ attested_by (config 2) (challenged ++ [CallVerdict watching verdict]) o.
Proof.
  split; [vm_compute; reflexivity|].
  apply (sent_observation_was_attested (config 2) challenged (CallVerdict watching verdict) first_vouched vouched_body);
    [repeat constructor|exact vouched_first|exact vouched_bytes].
Defined.

Lemma both_live n : live (config 2) hearing n = live (config 1) hearing n.
Proof.
  unfold live. cbn [ug_self config].
  destruct (Z.eqb_spec n 2) as [->|]; [vm_compute; reflexivity|]. destruct (Z.eqb_spec n 1) as [->|]; [vm_compute; reflexivity|done].
Qed.

Lemma record_on_wire : record_fits record.
Proof.
  assert (Hd : decode_upgrade_record (encode_upgrade_record record) = Some record) by (vm_compute; reflexivity).
  apply (decoded_encodes (encode_upgrade_record record)); [|exact Hd].
  apply bytes_checked. vm_compute. reflexivity.
Qed.

Lemma sees_alike : sees_same (config 1) env hearing (config 2) env hearing 1.
Proof. split; try exact (eq_refl _). exact both_live. Qed.

Lemma proposed_record_gets_votes_witness :
  validate_upgrade (config 2) hs consensus env proposal (pp_payload proposed) hearing = true.
Proof.
  apply (proposed_record_gets_votes (config 1) hs consensus hs consensus heard env proposed (config 2) env hearing proposal).
  - intros d. exists d. split; [reflexivity|apply Z.eqb_refl].
  - apply byte_calls_ok. vm_compute. reflexivity.
  - exact leader_proposes.
  - intros r Hr. rewrite leader_record in Hr. apply (inj Some) in Hr. rewrite <-Hr. exact record_on_wire.
  - intros n d Hnd. injection Hnd as <- <-. split; discriminate.
  - vm_compute. discriminate.
  - vm_compute. reflexivity.
  - exact sees_alike.
  - reflexivity.
  - reflexivity.
  - vm_compute. reflexivity.
Defined.
End applications.
