(* ===== verification/PermissionTreeTheorems.v ===== *)
(** * Theorems about the permission tree service

    The identifier index under every sequence of operations, the walk down
    against the walk up, and the two ways in which permissions are read. *)

From S2P Require Import Prelude SecurityPolicy CanonicalEncoding ConsensusTypes DurableWrite Json EligibilityStore FileStorage.
From S2P Require Import TreeTypes LinkToken TreeRules TreeOps TreeValidation TreeFacts NodeFiles PermissionTree.

(** * The served tree and the chain of blocks

    The service applies a committed block to the nodes it serves while it writes
    them to storage; TreeChain computes the same block on a value. The lemmas
    here relate the two, whatever the storage does: an application that the
    storage did not refuse leaves the nodes and the committed ids of the chain. *)

Section facts.
Context `{TextCodec, HexCodec, FloatText, Sodium, SodiumMessages, NodeOrder, TreeStorage St}.
Context (sink : option (RetainedDelta → St → bool * St)).
Implicit Types (t : PermissionTree) (s : St).

(** The part of the service a block changes. *)
Definition serves t (c : TreeChainState) : Prop :=
  pt_nodes t = ch_nodes c ∧ pt_committed t = ch_committed c.

Lemma write_nodes_spec nodes t s ok t' s' :
  write_nodes nodes t s = (ok, t', s') →
  pt_committed t' = pt_committed t ∧ pt_holds_files t' = pt_holds_files t ∧
  pt_unreadable t' = pt_unreadable t ∧
  (ok = true → pt_nodes t' = foldl (λ m n, <[ tn_id n := n ]> m) (pt_nodes t) nodes).
Proof.
  revert t s. induction nodes as [|n nodes IH]; intros t s; cbn [write_nodes foldl].
  - by intros [= <- <- <-].
  - destruct (persist_node n t s) as [wrote s1]. destruct wrote; cbn [negb].
    + intros E. apply IH in E as (E1 & E2 & E3 & E4). by split_and!.
    + intros [= <- <- <-]. by split_and!.
Qed.

Lemma remove_nodes_spec ids t s removed t' s' :
  remove_nodes ids t s = (removed, t', s') →
  pt_committed t' = pt_committed t ∧ pt_holds_files t' = pt_holds_files t ∧
  pt_unreadable t' = pt_unreadable t ∧ pt_nodes t' = foldl (λ m id, delete id m) (pt_nodes t) ids.
Proof.
  revert t s removed. induction ids as [|id ids IH]; intros t s removed; cbn [remove_nodes foldl].
  - by intros [= <- <- <-].
  - destruct (pt_nodes t !! id) as [n|] eqn:En.
    + destruct (remove_node id _ s) as [gone s1]. destruct (remove_nodes ids _ s1) as [[more t1] s2] eqn:Er.
      intros [= <- <- <-]. by apply IH in Er.
    + intros E. apply IH in E as (E1 & E2 & E3 & E4). split_and!; [done|done|done|].
      rewrite E4. f_equal. symmetry. by apply delete_id.
Qed.

Lemma write_effect_spec effect t s ok removed t' s' :
  write_effect_locked effect t s = (ok, removed, t', s') →
  pt_committed t' = pt_committed t ∧ pt_holds_files t' = pt_holds_files t ∧
  pt_unreadable t' = pt_unreadable t ∧ (ok = true → pt_nodes t' = apply_effect effect (pt_nodes t)).
Proof.
  unfold write_effect_locked, apply_effect. destruct (write_nodes _ t s) as [[wrote t1] s1] eqn:Ew.
  apply write_nodes_spec in Ew as (W1 & W2 & W3 & W4). destruct wrote; cbn [negb].
  - destruct (remove_nodes _ t1 s1) as [[gone t2] s2] eqn:Er. apply remove_nodes_spec in Er as (R1 & R2 & R3 & R4).
    intros [= <- <- <- <-]. rewrite R1, R2, R3, R4, W4 by done. by split_and!.
  - intros [= <- <- <- <-]. by split_and!.
Qed.

(** A refusal of the plan changes nothing; otherwise the storage decides. *)
Lemma apply_op_locked_spec op t s verdict notices t' s' c :
  serves t c → apply_op_locked sink op t s = (verdict, notices, t', s') →
  match step_op op c with
  | inl refusal => verdict = Some refusal ∧ t' = t ∧ s' = s
  | inr (c', _) => (verdict = None ∧ serves t' c') ∨ ∃ reason, verdict = Some (StorageError, reason)
  end ∧ pt_holds_files t' = pt_holds_files t ∧ pt_unreadable t' = pt_unreadable t.
Proof.
  intros [Hn Hc]. unfold apply_op_locked, step_op. rewrite Hn. destruct (plan_op op (ch_nodes c)) as [r|effect].
  - by intros [= <- <- <- <-].
  - destruct (write_effect_locked effect t s) as [[[ok removed] t1] s1] eqn:Ew.
    apply write_effect_spec in Ew as (E1 & E2 & E3 & E4). destruct ok; cbn [negb].
    + intros [= <- <- <- <-]. split; [left; split; [done|]|by split].
      split; cbn [pt_nodes pt_committed ch_nodes ch_committed]; [by rewrite <-Hn, <-E4|by rewrite E1, Hc].
    + intros [= <- <- <- <-]. split; [right; by eexists|by split].
Qed.

Lemma apply_ops_spec ops i t s verdict notices t' s' c :
  serves t c → apply_ops sink ops t s = (verdict, notices, t', s') →
  match run_ops step_op ops i c with
  | inl (_, refusal) => verdict = Some refusal ∨ ∃ reason, verdict = Some (StorageError, reason)
  | inr (c', _) => (verdict = None ∧ serves t' c') ∨ ∃ reason, verdict = Some (StorageError, reason)
  end ∧ pt_holds_files t' = pt_holds_files t ∧ pt_unreadable t' = pt_unreadable t.
Proof.
  revert i t s verdict notices t' s' c. induction ops as [|op ops IH]; intros i t s verdict notices t' s' c Hs; cbn [apply_ops run_ops].
  { intros [= <- <- <- <-]. split; [left|]; done. }
  destruct (apply_op_locked sink op t s) as [[[v1 n1] t1] s1] eqn:E1.
  destruct (apply_op_locked_spec _ _ _ _ _ _ _ _ Hs E1) as (Hstep & F1 & F2).
  destruct (step_op op c) as [r|[c1 e1]].
  - destruct Hstep as (-> & -> & ->). intros [= <- <- <- <-]. split; [by left|done].
  - destruct Hstep as [[-> Hs1]|[reason ->]].
    + destruct (apply_ops sink ops t1 s1) as [[[v2 n2] t2] s2] eqn:E2.
      destruct (IH (S i) _ _ _ _ _ _ _ Hs1 E2) as (Hrest & G1 & G2). intros [= <- <- <- <-].
      split; [|split; congruence]. by destruct (run_ops step_op ops (S i) c1) as [[]|[]].
    + intros [= <- <- <- <-]. split; [|done].
      destruct (run_ops step_op ops (S i) c1) as [[]|[]]; right; by eexists.
Qed.

(** The whole block, with the pruning of ids that both do at its end. *)
Lemma apply_committed_spec ops ms digest t s verdict notices t' s' c c' effects :
  serves t c → apply_certified_batch ops ms digest c = inr (c', effects) →
  apply_committed_ops sink ops (ms / 1000) t s = (verdict, notices, t', s') →
  ((verdict = None ∧ serves t' c') ∨ ∃ reason, verdict = Some (StorageError, reason)) ∧
  pt_holds_files t' = pt_holds_files t.
Proof.
  intros Hs. rewrite apply_certified_batch_run. unfold run_block, apply_committed_ops.
  destruct (batch_shape _ _ _); [done|]. destruct (run_ops step_op ops 0 c) as [|[c1 es]] eqn:Er; [done|].
  intros [= <- _]. destruct (apply_ops sink ops t s) as [[[v1 n1] t1] s1] eqn:Ea. intros [= <- <- <- <-].
  destruct (apply_ops_spec _ 0%nat _ _ _ _ _ _ _ Hs Ea) as (Hv & F1 & _). rewrite Er in Hv. split; [|done].
  destruct Hv as [[-> [Hn Hc]]|Hv]; [|by right]. left. split; [done|]. split; cbn; [done|by rewrite Hc].
Qed.

(** ** The restore *)

Lemma replace_all_spec nodes committed t s ok t' s' :
  replace_all nodes committed t s = (ok, t', s') →
  pt_nodes t' = nodes ∧ pt_committed t' = committed ∧ pt_holds_files t' = pt_holds_files t ∧
  pt_unreadable t' = false ∧ pt_index t' = build_index nodes.
Proof.
  unfold replace_all. destruct (persist_committed_ops_locked _ s) as [a s1].
  destruct (persist_changed _ _ s1) as [b s2]. destruct (remove_stale _ _ _ s2) as [c s3].
  by intros [= <- <- <-].
Qed.

Lemma persist_changed_unsafe `{!TreeStorageLaws St} entries t s id node :
  (id, node) ∈ entries → pt_nodes t !! id = None → is_safe_path_component (tn_id node) = false →
  (persist_changed entries t s).1 = false.
Proof.
  intros Hin Hnone Hid. revert s. induction entries as [|[k n] entries IH]; intros s; [by apply elem_of_nil in Hin|].
  cbn [persist_changed]. apply elem_of_cons in Hin as [[= <- <-]|Hin].
  - rewrite Hnone. unfold persist_node. destruct (pt_holds_files t); cbn [negb].
    + pose proof (write_unsafe_node (tn_id node) (node_envelope node) s Hid) as Hw.
      destruct (write_node _ _ s) as [ok s1]. cbn in Hw. subst ok. by destruct (persist_changed entries t s1).
    + by destruct (persist_changed entries t s).
  - match goal with |- context [let '(_, _) := ?x in _] => destruct x as [ok s1] end.
    specialize (IH Hin s1). destruct (persist_changed entries t s1) as [rest s2]. cbn in IH |- *. subst rest.
    apply andb_false_r.
Qed.

(** A node whose id is not a file name cannot be restored. *)
Lemma replace_all_unsafe `{!TreeStorageLaws St} nodes committed t s id node :
  nodes !! id = Some node → pt_nodes t !! id = None → is_safe_path_component (tn_id node) = false →
  (replace_all nodes committed t s).1.1 = false.
Proof.
  intros Hn Hnone Hid. unfold replace_all. destruct (persist_committed_ops_locked _ s) as [a s1].
  destruct (persist_changed _ _ s1) as [b s2] eqn:Ep. destruct (remove_stale _ _ _ s2) as [c s3]. cbn.
  assert (Hb : b = false).
  { change b with (b, s2).1. rewrite <-Ep. eapply persist_changed_unsafe; [|exact Hnone|exact Hid].
    rewrite node_entries_perm. by apply elem_of_map_to_list. }
  by rewrite Hb, andb_false_r.
Qed.

(** ** Applying a node that storage refuses *)

Lemma write_nodes_unsafe `{!TreeStorageLaws St} nodes t s node :
  node ∈ nodes → is_safe_path_component (tn_id node) = false → (write_nodes nodes t s).1.1 = false.
Proof.
  intros Hin Hid. revert t s. induction nodes as [|n nodes IH]; intros t s; [by apply elem_of_nil in Hin|].
  cbn [write_nodes]. apply elem_of_cons in Hin as [<-|Hin].
  - unfold persist_node. destruct (pt_holds_files t); cbn [negb]; [|done].
    pose proof (write_unsafe_node (tn_id node) (node_envelope node) s Hid) as Hw.
    destruct (write_node _ _ s) as [ok s1]. cbn in Hw. by subst ok.
  - destruct (persist_node n t s) as [ok s1]. destruct ok; cbn [negb]; [by apply IH|done].
Qed.
End facts.

(** ** The identifier index *)

(** Every entry names a node that carries the identifier. *)
Definition index_sound (nodes : NodeMap) (index : gmap string string) : Prop :=
  ∀ i id, index !! i = Some id → ∃ n, nodes !! id = Some n ∧ tn_endpoint_identifier n = i.

Lemma sound_set nodes index id n :
  index_sound (delete id nodes) index → index_sound (<[ id := n ]> nodes) (set_identifier index (id, n)).
Proof.
  intros Hs i j. unfold set_identifier. cbn [fst snd].
  assert (Hold : ∀ i j, index !! i = Some j → ∃ m, <[ id := n ]> nodes !! j = Some m ∧ tn_endpoint_identifier m = i).
  { intros i' j' (m & Hm & Hi)%Hs. apply lookup_delete_Some in Hm as [Hne Hm]. exists m. by rewrite lookup_insert_ne. }
  destruct (is_empty (tn_endpoint_identifier n)); [apply Hold|]. rewrite lookup_insert_Some. intros [[<- <-]|[_ Hj]]; [|by apply Hold].
  exists n. by rewrite lookup_insert_eq.
Qed.

Lemma sound_delete nodes index i :
  index_sound nodes index → index_sound nodes (delete i index).
Proof. intros Hs j id [_ Hj]%lookup_delete_Some. by apply Hs. Qed.

Lemma sound_without nodes index id n :
  nodes !! id = Some n → index_sound nodes index → index !! tn_endpoint_identifier n = None →
  index_sound (delete id nodes) index.
Proof.
  intros Hn Hs Hnone i j Hij. destruct (Hs _ _ Hij) as (m & Hm & Hi). exists m. split; [|done].
  apply lookup_delete_Some. split; [|done]. intros ->. rewrite Hn in Hm. injection Hm as <-. congruence.
Qed.

(** The entry of the empty identifier is never made. *)
Definition index_ok (nodes : NodeMap) (index : gmap string string) : Prop :=
  index_sound nodes index ∧ index !! ""%string = None.

Lemma ok_set_none index id n : index !! ""%string = None → set_identifier index (id, n) !! ""%string = None.
Proof.
  intros Hn. unfold set_identifier. cbn [fst snd]. destruct (tn_endpoint_identifier n) as [|a r]; [done|].
  change (<[ String a r := id ]> index !! ""%string = None). by rewrite lookup_insert_ne.
Qed.

Lemma ok_reindex nodes index n :
  index_ok nodes index → index_ok (<[ tn_id n := n ]> nodes) (reindex (nodes !! tn_id n) n index).
Proof.
  intros [Hs Hnone]. unfold reindex. cbv zeta. split; [|apply ok_set_none].
  2: { destruct (nodes !! tn_id n); [|done]. destruct (_ && _); [|done]. by apply lookup_delete_None; right. }
  intros i j. destruct (nodes !! tn_id n) as [old|] eqn:Eo.
  - destruct (negb (is_empty (tn_endpoint_identifier old)) &&
              negb (String.eqb (tn_endpoint_identifier old) (tn_endpoint_identifier n))) eqn:Ec.
    + apply sound_set. eapply sound_without; [exact Eo|by apply sound_delete|by rewrite lookup_delete_eq].
    + unfold set_identifier. cbn [fst snd].
      assert (Hold : ∀ i j, index !! i = Some j → ∃ m, <[ tn_id n := n ]> nodes !! j = Some m ∧ tn_endpoint_identifier m = i).
      { intros i' j' Hij. destruct (Hs _ _ Hij) as (m & Hm & Hi). destruct (decide (tn_id n = j')) as [<-|Hne].
        - rewrite Eo in Hm. injection Hm as <-. exists n. rewrite lookup_insert_eq. split; [done|].
          apply andb_false_iff in Ec as [Ec|Ec]; apply negb_false_iff in Ec.
          + destruct (tn_endpoint_identifier old); [|done]. subst i'. congruence.
          + apply String.eqb_eq in Ec. congruence.
        - exists m. by rewrite lookup_insert_ne. }
      destruct (is_empty (tn_endpoint_identifier n)); [apply Hold|]. rewrite lookup_insert_Some. intros [[<- <-]|[_ Hj]]; [|by apply Hold].
      exists n. by rewrite lookup_insert_eq.
  - apply sound_set. intros i' j' Hij. destruct (Hs _ _ Hij) as (m & Hm & Hi). exists m.
    rewrite lookup_delete_ne; [done|]. intros <-. congruence.
Qed.

Lemma ok_remove nodes index id n :
  nodes !! id = Some n → index_ok nodes index →
  index_ok (delete id nodes)
    (if is_empty (tn_endpoint_identifier n) then index else delete (tn_endpoint_identifier n) index).
Proof.
  intros Hn [Hs Hnone]. destruct (tn_endpoint_identifier n) as [|c r] eqn:Ei.
  - split; [|done]. eapply sound_without; [exact Hn|done|by rewrite Ei].
  - split; [|by apply lookup_delete_None; right]. eapply sound_without; [exact Hn|by apply sound_delete|].
    rewrite Ei. apply lookup_delete_eq.
Qed.

Section index.
Context `{TextCodec, ValueCodec, HexCodec, FloatText, FloatRead, Sodium, SodiumMessages, NodeOrder, TreeStorage St}.
Context (sink : option (RetainedDelta → St → bool * St)).
Implicit Types (t : PermissionTree) (s : St).

Definition tree_index_ok t : Prop := index_ok (pt_nodes t) (pt_index t).

Lemma build_index_ok nodes : index_ok nodes (build_index nodes).
Proof.
  unfold build_index.
  assert (Hin : ∀ kv, kv ∈ node_entries nodes → nodes !! kv.1 = Some kv.2).
  { intros [k n]. rewrite node_entries_perm. apply elem_of_map_to_list. }
  assert (Hgo : ∀ entries index, (∀ kv, kv ∈ entries → nodes !! kv.1 = Some kv.2) → index_ok nodes index →
    index_ok nodes (foldl set_identifier index entries)); [|by apply Hgo].
  clear Hin. induction entries as [|[k n] entries IH]; intros index Hin Hok; [done|]. cbn [foldl].
  apply IH; [intros kv Hkv; apply Hin; by right|]. destruct Hok as [Hs Hnone]. split; [|by apply ok_set_none].
  pose proof (Hin (k, n) ltac:(left)) as Hk. cbn [fst snd] in Hk. intros i j. unfold set_identifier. cbn [fst snd].
  destruct (is_empty (tn_endpoint_identifier n)); [apply Hs|]. rewrite lookup_insert_Some. intros [[<- <-]|[_ Hj]]; [by exists n|by apply Hs].
Qed.

Lemma write_nodes_index nodes t s : tree_index_ok t → tree_index_ok (write_nodes nodes t s).1.2.
Proof.
  revert t s. induction nodes as [|n nodes IH]; intros t s Hok; cbn [write_nodes]; [done|].
  destruct (persist_node n t s) as [ok s1]. destruct ok; cbn [negb]; [|done]. apply IH.
  by apply (ok_reindex (pt_nodes t) (pt_index t) n).
Qed.

Lemma remove_nodes_index ids t s : tree_index_ok t → tree_index_ok (remove_nodes ids t s).1.2.
Proof.
  revert t s. induction ids as [|id ids IH]; intros t s Hok; cbn [remove_nodes]; [done|].
  destruct (pt_nodes t !! id) as [n|] eqn:En; [|by apply IH].
  match goal with |- context [remove_node id ?u s] => set (u' := u) end.
  assert (Hu : tree_index_ok u') by by apply (ok_remove (pt_nodes t) (pt_index t) id n).
  destruct (remove_node id u' s) as [gone s1]. specialize (IH u' s1 Hu).
  by destruct (remove_nodes ids u' s1) as [[removed t1] s2].
Qed.

Lemma apply_op_locked_index op t s : tree_index_ok t → tree_index_ok (apply_op_locked sink op t s).1.2.
Proof.
  intros Hok. unfold apply_op_locked. destruct (plan_op op (pt_nodes t)) as [|effect]; [done|].
  unfold write_effect_locked. pose proof (write_nodes_index (writes effect) t s Hok) as Hw.
  destruct (write_nodes (writes effect) t s) as [[ok t1] s1]. cbn [fst snd] in Hw. destruct ok; cbn [negb]; [|done].
  pose proof (remove_nodes_index (removals effect) t1 s1 Hw) as Hr.
  by destruct (remove_nodes (removals effect) t1 s1) as [[removed t2] s2].
Qed.

Lemma apply_ops_index ops t s : tree_index_ok t → tree_index_ok (apply_ops sink ops t s).1.2.
Proof.
  revert t s. induction ops as [|op ops IH]; intros t s Hok; cbn [apply_ops]; [done|].
  pose proof (apply_op_locked_index op t s Hok) as Ho.
  destruct (apply_op_locked sink op t s) as [[[[r|] n] t1] s1]; [done|]. specialize (IH t1 s1 Ho).
  by destruct (apply_ops sink ops t1 s1) as [[[v n2] t2] s2].
Qed.

(** ** Runs of the service *)

Inductive ServiceCall :=
  | SvcStart
  | SvcClose
  | SvcApply (op : TreeOp)
  | SvcCommit (ops : list TreeOp) (block_time_sec : Z)
  | SvcSubmit (op : TreeOp) (policy : TreeOpPolicy) (block_time_sec : Z)
  | SvcReplace (nodes : NodeMap) (committed : CommittedOpIds).

(** A start that throws leaves the nodes it loaded. *)
Definition started_tree t s : PermissionTree :=
  default (mkTree (load_nodes s) (build_index (load_nodes s)) ∅ ∅ false true) (on_start t s).

Definition call_service (c : ServiceCall) (ts : PermissionTree * St) : PermissionTree * St :=
  let '(t, s) := ts in
  match c with
  | SvcStart => (started_tree t s, s)
  | SvcClose => (close t, s)
  | SvcApply op => let '(_, _, t, s) := apply_op sink op t s in (t, s)
  | SvcCommit ops sec => let '(_, _, t, s) := apply_committed_ops sink ops sec t s in (t, s)
  | SvcSubmit op policy sec => let '(_, _, t, s) := submit_local_op sink op policy sec t s in (t, s)
  | SvcReplace nodes committed => let '(_, t, s) := replace_all nodes committed t s in (t, s)
  end.

Definition call_services (calls : list ServiceCall) (ts : PermissionTree * St) : PermissionTree * St :=
  foldl (λ ts c, call_service c ts) ts calls.

Lemma started_index t s : tree_index_ok (started_tree t s).
Proof.
  unfold started_tree, on_start, load_committed_ops_locked. pose proof (build_index_ok (load_nodes s)) as Hb.
  destruct (read_committed_ops s) as [text|]; [|exact Hb].
  destruct (json_parse text) as [[]|]; try exact Hb.
  destruct (value_unsigned two32 _ "format" 0) as [f|]; [|exact Hb]. cbn [mbind option_bind].
  destruct (_ !! "ids"%string) as [[]|]; try exact Hb. destruct (negb _); [exact Hb|].
  destruct (load_committed_items _ _) as [ok c]. destruct ok; exact Hb.
Qed.

Lemma call_index c ts : tree_index_ok ts.1 → tree_index_ok (call_service c ts).1.
Proof.
  destruct ts as [t s]. cbn [fst]. intros Hok. destruct c as [| |op|ops sec|op policy sec|nodes committed]; cbn [call_service fst].
  - apply started_index.
  - split; [|done]. intros i id. cbn. by rewrite lookup_empty.
  - unfold apply_op. pose proof (apply_op_locked_index op t s Hok) as Ho.
    by destruct (apply_op_locked sink op t s) as [[[v n] t1] s1].
  - unfold apply_committed_ops. pose proof (apply_ops_index ops t s Hok) as Ho.
    by destruct (apply_ops sink ops t s) as [[[v n] t1] s1].
  - unfold submit_local_op. destruct (validate_local_op _ _ _ _); [done|]. unfold apply_op.
    match goal with |- context [apply_op_locked sink op ?u s] => set (u' := u) end.
    pose proof (apply_op_locked_index op u' s Hok) as Ho.
    by destruct (apply_op_locked sink op u' s) as [[[v n] t1] s1].
  - destruct (replace_all nodes committed t s) as [[ok t1] s1] eqn:Er.
    apply replace_all_spec in Er as (En & _ & _ & _ & Ei). cbn [fst]. unfold tree_index_ok. rewrite En, Ei.
    apply build_index_ok.
Qed.

Lemma calls_index calls ts : tree_index_ok ts.1 → tree_index_ok (call_services calls ts).1.
Proof. revert ts. induction calls as [|c calls IH]; intros ts Hok; [done|]. by apply IH, call_index. Qed.

(** A resolved endpoint is the one that was asked for: after any sequence of
    starts, stops, operations, committed blocks and restores, whatever storage
    refused on the way, a node that [resolve_authorized] returns for an
    identifier carries it, has it derived from its own inputs, and is one the
    caller's device may connect to. *)
Theorem resolved_endpoint_is_asked_for calls s caller from identifier node :
  let t := (call_services calls (new_tree, s)).1 in
  resolve_authorized caller from identifier t = Some node →
  tn_endpoint_identifier node = identifier ∧ node_endpoint_identifier node = identifier ∧
  may_connect caller from (tn_id node) t = true.
Proof.
  intros t. assert (Hok : tree_index_ok t).
  { apply calls_index. split; [|done]. intros i id. cbn. by rewrite lookup_empty. }
  unfold resolve_authorized, resolve_by_identifier. destruct (pt_index t !! identifier) as [id|] eqn:Ei; [|done].
  destruct (proj1 Hok _ _ Ei) as (m & Hm & Hmi). cbn [mbind option_bind]. rewrite Hm.
  destruct (validate_identifier_binding m) eqn:Ev; [|done]. cbn [negb].
  destruct (may_connect caller from (tn_id m) t) eqn:Ec; [|done]. cbn [negb]. intros E. apply (inj Some) in E. subst m.
  apply andb_true_iff in Ev as [_ Ev%String.eqb_eq]. split_and!; congruence.
Qed.
End index.

(** ** Who holds a permission *)

Section permissions.
Context `{TextCodec}.
Implicit Types t : PermissionTree.

Lemma first_entry_is_some_entry assignments signer perm node :
  tn_assignments node = assignments →
  first_entry_grants assignments signer perm = true → signer_has_permission node signer perm = true.
Proof.
  unfold signer_has_permission. intros ->. induction assignments as [|a rest IH]; cbn [first_entry_grants existsb]; [done|].
  destruct (same_principal _ _); cbn [andb]; [by intros ->|exact IH].
Qed.

(** The reads of the handlers grant no more than the rules of operations; they
    grant as much when no principal has two entries. *)
Lemma check_permission_reads t id node signer perm :
  pt_nodes t !! id = Some node →
  (do_check_permission signer id perm t = true → signer_has_permission node signer perm = true) ∧
  (NoDup ((λ a, canonical_principal (management_pubkey a)) <$> tn_assignments node) →
   do_check_permission signer id perm t = signer_has_permission node signer perm).
Proof.
  intros Hn. unfold do_check_permission. rewrite Hn. split; [by apply first_entry_is_some_entry|].
  unfold signer_has_permission. induction (tn_assignments node) as [|a rest IH]; cbn [first_entry_grants existsb fmap list_fmap]; [done|].
  intros [Ha Hnd]%NoDup_cons. destruct (same_principal (management_pubkey a) signer) eqn:Es; cbn [andb orb]; [|by apply IH].
  destruct (assignment_grants perm a); [done|]. cbn [orb]. symmetry. apply not_true_iff_false. intros Hex.
  apply existsb_exists in Hex as (b & Hb%list_elem_of_In & [Hbs _]%andb_true_iff). apply Ha, list_elem_of_fmap.
  exists b. split; [|done]. apply String.eqb_eq in Es, Hbs. congruence.
Qed.
End permissions.

(** * The walk down and the walk up

    [collect_subtree] searches down from a parent with a queue;
    [is_descendant_of] climbs from a node. Both are related here to one
    relation, being below a node, so that they agree when no limit cuts the
    search short, whatever cycles a bad parent makes. *)

(** Nodes are stored under their ids, and none has the empty id. *)
Definition keyed_tree (nodes : NodeMap) : Prop :=
  (∀ id n, nodes !! id = Some n → tn_id n = id) ∧ nodes !! ""%string = None.

Lemma wf_keyed nodes : tree_wf nodes → keyed_tree nodes.
Proof.
  intros Hwf. split; [intros id n Hn; by apply (ok_keyed _ Hwf)|].
  destruct (nodes !! ""%string) as [n|] eqn:E; [|done]. by apply (ok_keyed _ Hwf) in E as [_ []].
Qed.

Section subtree.
Context (nodes : NodeMap) (r : string).
Context (Hkeyed : keyed_tree nodes).

Inductive below : string → Prop :=
  | below_child c n : nodes !! c = Some n → tn_parent_id n = r → below c
  | below_deeper c n : nodes !! c = Some n → below (tn_parent_id n) → below c.

(** ** Up *)

Lemma descends_below fuel visited c : descends fuel nodes r visited c = true → below c.
Proof.
  revert visited c. induction fuel as [|fuel IH]; intros visited c; cbn [descends]; [done|].
  case_bool_decide; [done|]. destruct (nodes !! c) as [n|] eqn:En; [|done].
  destruct (is_empty _); [done|]. destruct (String.eqb_spec (tn_parent_id n) r); [by econstructor|].
  intros Hd%IH. by eapply below_deeper.
Qed.

(** The number of steps up to the first [r]. *)
Inductive first_up : nat → string → Prop :=
  | up_one c n : nodes !! c = Some n → tn_parent_id n = r → first_up 1 c
  | up_more k c n : nodes !! c = Some n → tn_parent_id n ≠ r → first_up k (tn_parent_id n) → first_up (S k) c.

Lemma first_up_unique k k' c : first_up k c → first_up k' c → k = k'.
Proof.
  intros Hk. revert k'. induction Hk as [c n Hn Hp|k c n Hn Hp Hk IH]; intros k' Hk'.
  - inversion Hk' as [|? ? ? Hn']; congruence.
  - inversion Hk' as [? ? Hn'|j ? m Hn' Hp' Hj]; simplify_eq. f_equal. apply IH. congruence.
Qed.

Lemma below_first_up c : below c → ∃ k, first_up k c.
Proof.
  induction 1 as [c n Hn Hp|c n Hn Hb [k Hk]]; [by exists 1%nat; econstructor|].
  destruct (decide (tn_parent_id n = r)); [by exists 1%nat; econstructor|]. exists (S k). by eapply up_more.
Qed.

Lemma first_up_path k c :
  first_up k c → ∃ l, NoDup l ∧ length l = k ∧
    ∀ x, x ∈ l → x ∈ dom nodes ∧ ∃ j, (j <= k)%nat ∧ first_up j x.
Proof.
  induction 1 as [c n Hn Hp|k c n Hn Hp Hk (l & Hnd & Hlen & Hl)].
  - exists [c]. split_and!; [apply NoDup_singleton|done|]. intros x ->%list_elem_of_singleton.
    split; [by apply elem_of_dom_2 in Hn|]. exists 1%nat. split; [done|by econstructor].
  - assert (Hc : first_up (S k) c) by by eapply up_more. exists (c :: l). split_and!; [|cbn; lia|].
    + apply NoDup_cons. split; [|done]. intros (_ & j & Hj & Hu)%Hl. pose proof (first_up_unique _ _ _ Hc Hu). lia.
    + intros x [->|Hx]%elem_of_cons.
      * split; [by apply elem_of_dom_2 in Hn|]. by exists (S k).
      * destruct (Hl x Hx) as (Hd & j & Hj & Hu). split; [done|]. exists j. split; [lia|done].
Qed.

Lemma distinct_keys (l : list string) : NoDup l → (∀ x, x ∈ l → x ∈ dom nodes) → (length l <= size nodes)%nat.
Proof.
  intros Hnd Hl. rewrite <-(size_list_to_set (C := gset string)), <-size_dom by done. apply subseteq_size.
  intros x Hx%elem_of_list_to_set. by apply Hl.
Qed.

Lemma first_up_bound k c : first_up k c → (k <= size nodes)%nat.
Proof. intros (l & Hnd & <- & Hl)%first_up_path. apply distinct_keys; [done|]. intros x Hx. by apply Hl. Qed.

Lemma first_up_descends k c fuel visited :
  r ≠ ""%string → first_up k c → (k <= fuel)%nat →
  (∀ x, x ∈ visited → ∃ j, first_up j x ∧ (k < j)%nat) → descends fuel nodes r visited c = true.
Proof.
  intros Hr Hk. revert fuel visited. induction Hk as [c n Hn Hp|k c n Hn Hp Hk IH]; intros fuel visited Hf Hv.
  - destruct fuel as [|fuel]; [lia|]. cbn [descends]. rewrite bool_decide_eq_false_2, Hn.
    + rewrite Hp, String.eqb_refl. destruct (String.eqb_spec r ""); [done|]. unfold is_empty.
      by rewrite (proj2 (String.eqb_neq r "")).
    + intros (j & Hj & Hlt)%Hv. pose proof (first_up_unique _ _ _ Hj (up_one _ _ Hn Hp)). lia.
  - destruct fuel as [|fuel]; [lia|]. cbn [descends]. rewrite bool_decide_eq_false_2, Hn.
    + assert (He : tn_parent_id n ≠ ""%string).
      { intros E. rewrite E in Hk. inversion Hk as [? ? Hx|? ? ? Hx]; rewrite (proj2 Hkeyed) in Hx; done. }
      unfold is_empty. rewrite (proj2 (String.eqb_neq _ _) He), (proj2 (String.eqb_neq _ _) Hp). apply IH; [lia|].
      intros x [->%elem_of_singleton|Hx]%elem_of_union.
      * exists (S k). split; [by eapply up_more|lia].
      * destruct (Hv x Hx) as (j & Hj & Hlt). exists j. split; [done|lia].
    + intros (j & Hj & Hlt)%Hv. pose proof (first_up_unique _ _ _ Hj (up_more _ _ _ Hn Hp Hk)). lia.
Qed.

Lemma descendant_spec c t :
  pt_nodes t = nodes → r ≠ ""%string → is_descendant_of c r t = true ↔ below c ∧ c ≠ r.
Proof.
  intros Ht Hr. unfold is_descendant_of. rewrite Ht. destruct (String.eqb_spec c r) as [->|Hne]; [naive_solver|].
  split; [intros Hd%descends_below; done|]. intros [(k & Hk)%below_first_up _].
  eapply first_up_descends; [done|exact Hk| |by intros x ?%elem_of_empty].
  pose proof (first_up_bound _ _ Hk). unfold loop_fuel. lia.
Qed.

(** ** Down *)

Context (listing : list TreeNode).
Context (Hlisting : ∀ n, n ∈ listing ↔ nodes !! tn_id n = Some n).

(** What the search has seen. *)
Record searched (visited : gset string) (result : list TreeNode) : Prop := {
  se_visited : ∀ x, x ∈ visited ↔ x = r ∨ x ∈ tn_id <$> result;
  se_nodup : NoDup (tn_id <$> result);
  se_below : ∀ n, n ∈ result → n ∈ listing ∧ below (tn_id n) ∧ tn_id n ≠ r;
}.

Lemma searched_bound visited result : searched visited result → (length result <= size nodes)%nat.
Proof.
  intros Hs. rewrite <-(length_fmap tn_id). apply distinct_keys; [apply Hs|].
  intros x (n & -> & Hn)%list_elem_of_fmap. apply Hs in Hn as (Hn & _). apply Hlisting in Hn. by eapply elem_of_dom_2.
Qed.

Lemma searched_add visited result n :
  searched visited result → n ∈ listing → (tn_parent_id n = r ∨ below (tn_parent_id n)) → tn_id n ∉ visited →
  searched ({[ tn_id n ]} ∪ visited) (result ++ [n]).
Proof.
  intros Hs Hn Hp Hv. pose proof (proj1 (Hlisting n) Hn) as Hk.
  assert (Hnr : tn_id n ≠ r ∧ tn_id n ∉ tn_id <$> result) by (split; intros ?; apply Hv, (se_visited _ _ Hs); auto).
  split.
  - intros x. rewrite elem_of_union, elem_of_singleton, (se_visited _ _ Hs), fmap_app, elem_of_app. cbn.
    rewrite list_elem_of_singleton. tauto.
  - rewrite fmap_app. apply NoDup_app. split_and!; [apply Hs| |apply NoDup_singleton].
    intros x Hx ->%list_elem_of_singleton. by apply Hnr.
  - intros m [Hm| ->%list_elem_of_singleton]%elem_of_app; [by apply Hs|]. split_and!; [done| |by apply Hnr].
    destruct Hp; [by eapply below_child|by eapply below_deeper].
Qed.

(** A step of the search from one state to another, which adds [added] to the
    next frontier. *)
Record found (visited : gset string) (result : list TreeNode) (next : list string)
    (visited' : gset string) (result' : list TreeNode) (next' : list string) : Prop := {
  fo_searched : searched visited' result';
  fo_more : (length result' - length result = length next' - length next ∧
             length result <= length result' ∧ length next <= length next')%nat;
  fo_next : ∀ x, x ∈ visited' → x ∈ visited ∨ x ∈ next';
  fo_grow : visited ⊆ visited' ∧ next ⊆ next' ∧ ((∀ x, x ∈ next → x ∈ visited) → ∀ x, x ∈ next' → x ∈ visited');
}.

Lemma found_refl visited result next : searched visited result → found visited result next visited result next.
Proof. intros Hs. split; [done|lia|auto|done]. Qed.

Lemma found_trans v1 r1 n1 v2 r2 n2 v3 r3 n3 :
  found v1 r1 n1 v2 r2 n2 → found v2 r2 n2 v3 r3 n3 → found v1 r1 n1 v3 r3 n3.
Proof.
  intros [S1 M1 X1 (G1 & H1 & K1)] [S2 M2 X2 (G2 & H2 & K2)]. split; [done|lia| |].
  - intros x [Hx|Hx]%X2; [|by right]. apply X1 in Hx as [?|?]; [by left|right; by apply H2].
  - split_and!; [set_solver|set_solver|auto].
Qed.

Lemma take_children_found max_nodes children visited result next :
  (size nodes < max_nodes)%nat → searched visited result →
  (∀ n, n ∈ children → n ∈ listing ∧ (tn_parent_id n = r ∨ below (tn_parent_id n))) →
  ∃ visited' result' next', take_children max_nodes children (visited, result, next) = (false, (visited', result', next')) ∧
    found visited result next visited' result' next' ∧ ∀ n, n ∈ children → tn_id n ∈ visited'.
Proof.
  intros Hmax. revert visited result next. induction children as [|c children IH]; intros visited result next Hs Hc; cbn [take_children].
  { exists visited, result, next. split_and!; [done|by apply found_refl|by intros n ?%elem_of_nil]. }
  assert (Hrest : ∀ n, n ∈ children → n ∈ listing ∧ (tn_parent_id n = r ∨ below (tn_parent_id n))) by (intros; apply Hc; by right).
  destruct (Hc c ltac:(left)) as [Hcl Hcp]. case_bool_decide as Hv.
  - destruct (IH _ _ next Hs Hrest) as (v' & r' & n' & -> & Hf & Hall). exists v', r', n'. split_and!; [done|done|].
    intros n [->|Hn]%elem_of_cons; [|by apply Hall]. by apply (proj1 (fo_grow _ _ _ _ _ _ Hf)).
  - pose proof (searched_add _ _ _ Hs Hcl Hcp Hv) as Hs'. pose proof (searched_bound _ _ Hs') as Hb.
    rewrite (proj2 (Nat.leb_gt _ _)) by lia.
    destruct (IH _ _ (next ++ [tn_id c]) Hs' Hrest) as (v' & r' & n' & -> & Hf & Hall). exists v', r', n'. split_and!; [done| |].
    + eapply found_trans; [|exact Hf]. split; [done|rewrite !length_app; cbn; lia| |].
      * intros x [->%elem_of_singleton|Hx]%elem_of_union; [right; set_solver|by left].
      * split_and!; set_solver.
    + intros n [->|Hn]%elem_of_cons; [|by apply Hall]. apply (proj1 (fo_grow _ _ _ _ _ _ Hf)). set_solver.
Qed.

Lemma take_level_found max_nodes frontier visited result next :
  (size nodes < max_nodes)%nat → searched visited result → (∀ x, x ∈ frontier → x = r ∨ below x) →
  ∃ visited' result' next', take_level max_nodes listing frontier (visited, result, next) = (false, (visited', result', next')) ∧
    found visited result next visited' result' next' ∧
    ∀ n, n ∈ listing → tn_parent_id n ∈ frontier → tn_id n ∈ visited'.
Proof.
  intros Hmax. revert visited result next. induction frontier as [|p frontier IH]; intros visited result next Hs Hf; cbn [take_level].
  { exists visited, result, next. split_and!; [done|by apply found_refl|by intros n _ ?%elem_of_nil]. }
  destruct (take_children_found max_nodes (filter (λ n, tn_parent_id n = p) listing) visited result next Hmax Hs)
    as (v1 & r1 & n1 & -> & F1 & A1).
  { intros n [Hp Hn]%list_elem_of_filter. split; [done|]. rewrite Hp. apply Hf. by left. }
  destruct (IH v1 r1 n1 (fo_searched _ _ _ _ _ _ F1)) as (v2 & r2 & n2 & -> & F2 & A2); [intros; apply Hf; by right|].
  exists v2, r2, n2. split_and!; [done|by eapply found_trans|].
  intros n Hn [Hp|Hp]%elem_of_cons; [|by apply A2]. apply (proj1 (fo_grow _ _ _ _ _ _ F2)), A1. by apply list_elem_of_filter.
Qed.

Definition closed_but (frontier : list string) (visited : gset string) : Prop :=
  ∀ n, n ∈ listing → tn_parent_id n ∈ visited → tn_parent_id n ∉ frontier → tn_id n ∈ visited.

Lemma collect_closed max_depth max_nodes frontier visited result :
  (size nodes < max_nodes)%nat → searched visited result → closed_but frontier visited → list_to_set frontier ⊆ visited →
  (frontier = [] ∨ (size nodes < max_depth + length result)%nat) →
  ∃ visited', searched visited' (collect max_depth max_nodes listing frontier visited result) ∧ closed_but [] visited'.
Proof.
  intros Hmax. revert frontier visited result. induction max_depth as [|d IH]; intros frontier visited result Hs Hc Hsub Hd.
  - cbn [collect]. destruct Hd as [->|Hd]; [by exists visited|]. pose proof (searched_bound _ _ Hs). cbn in Hd. lia.
  - cbn [collect]. destruct frontier as [|p frontier]; [by exists visited|]. destruct Hd as [|Hd]; [done|].
    destruct (take_level_found max_nodes (p :: frontier) visited result [] Hmax Hs) as (v1 & r1 & n1 & -> & F & A).
    { intros x Hx. assert (Hv : x ∈ visited) by (apply Hsub; by apply elem_of_list_to_set).
      apply (se_visited _ _ Hs) in Hv as [->|(n & -> & Hn)%list_elem_of_fmap]; [by left|right; by apply Hs]. }
    destruct (fo_grow _ _ _ _ _ _ F) as (G1 & _ & G3). apply IH; [apply F| | |].
    + intros n Hn Hp Hnext. apply (fo_next _ _ _ _ _ _ F) in Hp as [Hp|Hp]; [|done].
      destruct (decide (tn_parent_id n ∈ p :: frontier)) as [Hin|Hout]; [by apply A|]. by apply G1, Hc.
    + intros x Hx%elem_of_list_to_set. apply G3; [|done]. by intros y ?%elem_of_nil.
    + destruct n1 as [|y n1]; [by left|right]. pose proof (fo_more _ _ _ _ _ _ F) as Hm. cbn in Hm. lia.
Qed.

Lemma closed_below visited result : searched visited result → closed_but [] visited → ∀ c, below c → c ∈ visited.
Proof.
  intros Hs Hc c. induction 1 as [c n Hn Hp|c n Hn Hb IH]; rewrite <-(proj1 Hkeyed _ _ Hn).
  - apply Hc; [apply Hlisting; by rewrite (proj1 Hkeyed _ _ Hn)|rewrite Hp; apply (se_visited _ _ Hs); by left|by intros ?%elem_of_nil].
  - apply Hc; [apply Hlisting; by rewrite (proj1 Hkeyed _ _ Hn)|done|by intros ?%elem_of_nil].
Qed.
End subtree.

(** C39: Listing a subtree agrees with the question whether a node is under another:
    with limits above the number of nodes, [collect_subtree] returns each node
    once, and exactly those for which [is_descendant_of] answers yes, also when
    parents form a cycle. *)
Theorem subtree_is_descendants `{NodeOrder} (t : PermissionTree) parent max_depth max_nodes :
  keyed_tree (pt_nodes t) → parent ≠ ""%string →
  (size (pt_nodes t) < max_depth)%nat → (size (pt_nodes t) < max_nodes)%nat →
  NoDup (tn_id <$> collect_subtree parent max_depth max_nodes t) ∧
  ∀ n, n ∈ collect_subtree parent max_depth max_nodes t ↔
    pt_nodes t !! tn_id n = Some n ∧ is_descendant_of (tn_id n) parent t = true.
Proof.
  intros Hk Hr Hd Hn. unfold collect_subtree.
  assert (Hl : ∀ n, n ∈ (node_entries (pt_nodes t)).*2 ↔ pt_nodes t !! tn_id n = Some n).
  { intros n. rewrite list_elem_of_fmap. setoid_rewrite node_entries_perm. split.
    - intros ([id m] & -> & Hm%elem_of_map_to_list). cbn [snd]. by rewrite (proj1 Hk _ _ Hm).
    - intros Hm. exists (tn_id n, n). split; [done|]. by apply elem_of_map_to_list. }
  destruct (collect_closed (pt_nodes t) parent Hk _ Hl max_depth max_nodes [parent] {[ parent ]} []) as (visited & Hs & Hc).
  - done.
  - split; [|apply NoDup_nil_2|by intros n ?%elem_of_nil]. intros x. rewrite elem_of_singleton. cbn. set_solver.
  - intros n _ ->%elem_of_singleton Hx. destruct Hx. by left.
  - set_solver.
  - right. cbn. lia.
  - split; [apply Hs|]. intros n. split.
    + intros (Hin & Hb & Hne)%(se_below _ _ _ _ _ Hs). apply Hl in Hin. split; [done|].
      by apply (descendant_spec (pt_nodes t) parent Hk).
    + intros [Hin [Hb Hne]%(descendant_spec (pt_nodes t) parent Hk)]; [|done..].
      pose proof (closed_below _ _ Hk _ Hl _ _ Hs Hc _ Hb) as Hv. apply (se_visited _ _ _ _ _ Hs) in Hv as [?|Hv]; [done|].
      apply list_elem_of_fmap in Hv as (m & Em & Hm). pose proof (se_below _ _ _ _ _ Hs m Hm) as (Hml & _). apply Hl in Hml.
      rewrite <-Em in Hml. by simplify_eq.
Qed.
