(* ===== verification/TreeConsensusFacts.v ===== *)
(** * What the calls of the tree handler change

    Frame and step lemmas about TreeConsensus.v: bookkeeping leaves the log, the
    served tree, the files and the held entries alone; a commit appends one
    entry and leaves the served tree with the digest the entry records, or
    halts. *)

From S2P Require Import Prelude SecurityPolicy CanonicalEncoding Json DurableWrite ConsensusTypes ConsensusRecords.
From S2P Require Import QuorumValidation EpochAuthority FileStorage EligibilityStore HotStuff TreeTypes LinkToken.
From S2P Require Import TreeRules TreeOps TreeValidation TreeCodec TreePool TreeLog TreeLogFacts TreeLogTheorems NodeFiles PermissionTree.
From S2P Require Import PermissionTreeTheorems TreeReplication TreeConsensus.

Section facts.
Context `{TextCodec, ValueCodec, HexCodec, FloatText, Sodium, SodiumMessages, NodeOrder, FloatRead}.
Context (config : TreeConsensusConfig) (data_root log_directory : string).
Context (sink : option (RetainedDelta → TreeFiles → bool * TreeFiles)).
Implicit Types v : TreeServer.

(** ** Bookkeeping *)

(** Everything but the pool, the status, the clock and the events. *)
Definition core v : TreeLog * PermissionTree * TreeFiles * (gmap Z TreeLogEntry * bool * bool * bool) :=
  (tc_log v, tc_tree v, tc_files v, (tc_held v, tc_halted v, tc_awaiting_merge v, tc_behind v)).

Lemma core_eq v v' : core v' = core v →
  tc_log v' = tc_log v ∧ tc_tree v' = tc_tree v ∧ tc_files v' = tc_files v ∧ tc_held v' = tc_held v ∧
  tc_halted v' = tc_halted v ∧ tc_awaiting_merge v' = tc_awaiting_merge v ∧ tc_behind v' = tc_behind v.
Proof. by intros [= -> -> -> -> -> -> ->]. Qed.

Lemma core_clock v : core (read_clock v).2 = core v.
Proof. unfold read_clock. by destruct (tc_clock v). Qed.

Lemma core_settle id outcome v : core (settle_op config id outcome v) = core v.
Proof. unfold settle_op. destruct (pool_settle _ _ _ _) as [[k|] pool]; done. Qed.

Lemma core_foldl {A} (f : TreeServer → A → TreeServer) l v :
  (∀ v a, core (f v a) = core v) → core (foldl f v l) = core v.
Proof. intros Hf. revert v. induction l as [|a l IH]; intros v; cbn [foldl]; [done|]. by rewrite IH, Hf. Qed.

Lemma core_revalidate v : core (revalidate_pool config v) = core v.
Proof.
  unfold revalidate_pool. case_bool_decide; [done|].
  pose proof (core_clock v) as Hc. destruct (read_clock v) as [now v1]. cbn [snd] in Hc. rewrite core_foldl; [done|].
  intros v2 op. by destruct (validate_local_op _ _ _ _); [apply core_settle|].
Qed.

Lemma core_settle_batch height batch v : core (settle_batch config height batch v) = core v.
Proof. destruct batch; [|done]. apply core_foldl. intros. apply core_settle. Qed.

Lemma core_request now v : core (request_root config now v) = core v.
Proof. unfold request_root. by destruct (wants_root config now v). Qed.

Lemma halted_halt reason v : tc_halted (halt reason v) = true.
Proof. unfold halt. by destruct (tc_halted v) eqn:E; destruct (negb _ && _) || destruct (negb _), (negb _). Qed.

Lemma halt_frame reason v :
  tc_log (halt reason v) = tc_log v ∧ tc_tree (halt reason v) = tc_tree v ∧
  tc_files (halt reason v) = tc_files v ∧ tc_held (halt reason v) = tc_held v ∧
  tc_awaiting_merge (halt reason v) = tc_awaiting_merge v.
Proof. unfold halt. by destruct (_ && _). Qed.

(** ** Following an entry *)

Lemma restore_frame digest v ok v' :
  restore_tree data_root digest v = (ok, v') →
  (tc_log v' = tc_log v ∧ tc_held v' = tc_held v ∧ tc_halted v' = tc_halted v ∧
   tc_awaiting_merge v' = tc_awaiting_merge v ∧ tc_behind v' = tc_behind v) ∧
  (ok = true → tree_digest (tc_tree v') = digest ∧ serves (tc_tree v') (tl_state (tc_log v))).
Proof.
  unfold restore_tree, on_tree.
  destruct (replace_all _ _ (tc_tree v) (tc_files v)) as [[replaced t] s] eqn:Er. intros [= <- <-].
  split; [done|]. intros [_ Hd%Z.eqb_eq]%andb_true_iff. split; [exact Hd|].
  apply replace_all_spec in Er as (E1 & E2 & _). by split.
Qed.

Lemma follow_frame entry batch digest v ok v' :
  follow_entry data_root sink entry batch digest v = (ok, v') →
  (tc_log v' = tc_log v ∧ tc_held v' = tc_held v ∧ tc_halted v' = tc_halted v ∧
   tc_awaiting_merge v' = tc_awaiting_merge v ∧ tc_behind v' = tc_behind v) ∧
  (ok = true → tree_digest (tc_tree v') = digest).
Proof.
  unfold follow_entry. destruct (match batch with Some _ => _ | None => _ end) as [followed v1] eqn:Ef.
  assert (Hf : (tc_log v1 = tc_log v ∧ tc_held v1 = tc_held v ∧ tc_halted v1 = tc_halted v ∧
    tc_awaiting_merge v1 = tc_awaiting_merge v ∧ tc_behind v1 = tc_behind v) ∧
    (followed = true → tree_digest (tc_tree v1) = digest)).
  { destruct batch as [ops|]; [|by injection Ef as <- <-].
    unfold follow_block, on_tree in Ef.
    destruct (apply_committed_ops _ _ _ _ _) as [[[verdict notices] t] s].
    destruct (bool_decide (no_removed notices = [])), (bool_decide (no_accounts notices = []));
      injection Ef as <- <-; (split; [done|]); destruct verdict; try done; intros Hd%Z.eqb_eq; exact Hd. }
  destruct followed.
  - intros [= <- <-]. done.
  - intros [Hr Ht]%restore_frame. destruct Hf as [(F1 & F2 & F3 & F4 & F5) _], Hr as (R1 & R2 & R3 & R4 & R5).
    split; [split_and!; congruence|]. by intros [? _]%Ht.
Qed.

(** ** Appending *)

(** [log'] is [log] with one more entry, up to the applied height. *)
Record appended (entry : TreeLogEntry) (next : TreeChainState) (log log' : TreeLog) : Prop := mkAppended {
  ap_height : lg_height entry = tl_height log +64 1;
  ap_previous : lg_previous_root entry = ch_root (tl_state log);
  ap_root : ch_root next = lg_state_root entry;
  ap_state' : tl_state log' = next;
  ap_height' : tl_height log' = lg_height entry;
}.

Lemma log_append_spec entry next log d ok log' d' :
  log_append log_directory entry next log d = (ok, log', d') →
  if ok then appended entry next log log' else log' = log.
Proof.
  unfold log_append. destruct (Z.eqb_spec (lg_height entry) (tl_height log +64 1)) as [Hh|]; [|by intros [= <- <- _]].
  destruct (Z.eqb_spec (lg_previous_root entry) (ch_root (tl_state log))) as [Hp|]; [|by intros [= <- <- _]].
  destruct (Z.eqb_spec (ch_root next) (lg_state_root entry)) as [Hr|]; [|by intros [= <- <- _]].
  cbn [negb orb]. destruct (_ && _); [by intros [= <- <- _]|].
  destruct (write_doc _ _ d) as [wrote d1]. destruct wrote; cbn [negb]; intros [= <- <- _]; done.
Qed.

Lemma mark_applied_spec height log d ok log' d' :
  mark_applied log_directory height log d = (ok, log', d') →
  tl_state log' = tl_state log ∧ tl_height log' = tl_height log.
Proof. unfold mark_applied. destruct (write_doc _ _ d) as [wrote d1]. destruct wrote; by intros [= <- <- _]. Qed.

Lemma appended_marked entry next log log1 log2 :
  appended entry next log log1 → tl_state log2 = tl_state log1 → tl_height log2 = tl_height log1 →
  appended entry next log log2.
Proof. intros [] Es Eh. split; congruence. Qed.

(** ** Commits *)

(** What a successful commit leaves. *)
Record commits (entry : TreeLogEntry) (next : TreeChainState) (digest : Digest) v v' : Prop := mkCommits {
  cm_log : appended entry next (tc_log v) (tc_log v');
  cm_tree : tree_digest (tc_tree v') = digest;
  cm_halted : tc_halted v' = tc_halted v;
  cm_awaiting : tc_awaiting_merge v' = (if bool_decide (lg_kind entry = EntryMerge) then false else tc_awaiting_merge v);
  cm_held : tc_held v' = tc_held v;
}.

(** The log and the tree are as before, and so is the wait for the merge. *)
Record unmoved v v' : Prop := mkUnmoved {
  un_log : tc_log v' = tc_log v;
  un_tree : tc_tree v' = tc_tree v;
  un_awaiting : tc_awaiting_merge v' = tc_awaiting_merge v;
}.

(** A commit that failed: halted, with the entry in the log or not. *)
Record fails (entry : TreeLogEntry) (next : TreeChainState) v v' : Prop := mkFails {
  fa_halted : tc_halted v' = true;
  fa_log : unmoved v v' ∨ appended entry next (tc_log v) (tc_log v');
  fa_held : tc_held v' = tc_held v;
}.

Lemma after_commit_spec entry batch v :
  let v' := after_commit config log_directory entry batch v in
  tl_state (tc_log v') = tl_state (tc_log v) ∧ tl_height (tc_log v') = tl_height (tc_log v) ∧
  tc_tree v' = tc_tree v ∧ tc_halted v' = tc_halted v ∧ tc_held v' = tc_held v ∧
  tc_awaiting_merge v' = (if bool_decide (lg_kind entry = EntryMerge) then false else tc_awaiting_merge v).
Proof.
  unfold after_commit, on_log.
  destruct (mark_applied log_directory (lg_height entry) (tc_log v) _) as [[ok log] d] eqn:Em.
  apply mark_applied_spec in Em as [Es Eh]. cbn zeta.
  set (v1 := v <| tc_log := log |> <| tc_files := _ |>).
  pose proof (core_settle_batch (lg_height entry) batch v1) as Hs.
  set (v2 := settle_batch config (lg_height entry) batch v1) in *.
  set (v3 := if bool_decide (lg_kind entry = EntryMerge) then merge_installed v2 else v2).
  assert (Hr : core (emit (EntryAppended (lg_height entry)) (refresh_status (emit EntryApplied (revalidate_pool config v3))))
    = core v3) by exact (core_revalidate v3).
  apply core_eq in Hr as (-> & -> & _ & -> & -> & -> & _). unfold v3.
  apply core_eq in Hs as (L & T & _ & D & A & W & _).
  clearbody v2. subst v1. cbn in L, T, D, A, W.
  destruct (bool_decide _); cbn; rewrite L, T, D, A, ?W; done.
Qed.

Lemma commit_entry_spec entry next digest v ok v' :
  commit_entry config data_root log_directory sink entry next digest v = (ok, v') →
  if ok then commits entry next digest v v' else fails entry next v v'.
Proof.
  unfold commit_entry, on_log.
  destruct (log_append log_directory entry next (tc_log v) _) as [[wrote log] d] eqn:Ea.
  apply log_append_spec in Ea. destruct wrote; cbn [negb].
  2: { intros [= <- <-]. subst log. set (v1 := v <| tc_log := _ |> <| tc_files := _ |>).
       destruct (halt_frame "cannot write the tree log" v1) as (L & T & _ & D & W).
       split; [apply halted_halt|left; split; by rewrite ?L, ?T, ?W|by rewrite D]. }
  set (v1 := v <| tc_log := _ |> <| tc_files := _ |>).
  set (batch := if bool_decide (lg_kind entry = EntryBatch) then _ else None).
  destruct (follow_entry data_root sink entry batch digest v1) as [followed v2] eqn:Ef.
  apply follow_frame in Ef as [(L & D & A & W & _) Ht]. destruct followed; cbn [negb].
  - intros [= <- <-]. destruct (after_commit_spec entry batch v2) as (S1 & S2 & S3 & S4 & S5 & S6).
    split; [|by rewrite S3, Ht|by rewrite S4, A|by rewrite S6, W|by rewrite S5, D].
    eapply appended_marked; [exact Ea|by rewrite S1, L|by rewrite S2, L].
  - intros [= <- <-]. destruct (halt_frame "the persistent tree cannot follow the tree log" v2) as (L' & _ & _ & D' & _).
    split; [apply halted_halt|right; by rewrite L', L|by rewrite D', D].
Qed.

(** ** Entries that peers deliver *)

(** Why a server takes an entry: the root key signed the merge, or the members
    of a verified epoch committed the block. *)
Definition merge_signed (entry : TreeLogEntry) : Prop :=
  lg_kind entry = EntryMerge ∧
  verify_merge_signature entry (tcc_network_id config) (tcc_root_key config) = Verdict None.

Definition certified (authority : option (EpochId → option VerifiedEpochAuthority)) (entry : TreeLogEntry) : Prop :=
  ∃ lookup known proof, authority = Some lookup ∧ lookup (entry_epoch entry) = Some known ∧
    certified_by known (tcc_network_id config) entry proof.

Definition runs (state : TreeChainState) (entry : TreeLogEntry) (next : TreeChainState) : Prop :=
  ∃ effects, replay_entry state entry = inr (next, effects).

Lemma hold_frame entry v :
  let v' := hold entry v in
  tc_log v' = tc_log v ∧ tc_tree v' = tc_tree v ∧ tc_files v' = tc_files v ∧
  tc_halted v' = tc_halted v ∧ tc_awaiting_merge v' = tc_awaiting_merge v.
Proof. unfold hold. destruct (_ || _); [done|]. destruct (_ || _); done. Qed.

(** An entry was taken: it has evidence, it replays on the log, and it is
    committed. *)
Record takes authority (entry : TreeLogEntry) (next : TreeChainState) v v' : Prop := mkTakes {
  tk_evidence : merge_signed entry ∨ tc_awaiting_merge v = false ∧ certified authority entry;
  tk_runs : runs (tl_state (tc_log v)) entry next;
  tk_commits : commits entry next (compute_tree_digest (ch_nodes next))
                 (v <| tc_held := delete (lg_height entry) (tc_held v) |>) v';
}.

(** The log, the tree, the files and the mode are as before. *)
Record quiet v v' : Prop := mkQuiet {
  qu_log : tc_log v' = tc_log v;
  qu_tree : tc_tree v' = tc_tree v;
  qu_files : tc_files v' = tc_files v;
  qu_halted : tc_halted v' = tc_halted v;
  qu_awaiting : tc_awaiting_merge v' = tc_awaiting_merge v;
}.

Lemma quiet_core v v' : core v' = core v → quiet v v'.
Proof. intros (L & T & F & _ & A & W & _)%core_eq. by split. Qed.

Lemma quiet_trans v1 v2 v3 : quiet v1 v2 → quiet v2 v3 → quiet v1 v3.
Proof. intros [] []. split; congruence. Qed.

Lemma quiet_self v : quiet v v.
Proof. done. Qed.

Lemma hold_quiet entry v : quiet v (hold entry v).
Proof. destruct (hold_frame entry v) as (L & T & F & A & W). by split. Qed.

(** What became of an entry for the next height. *)
Definition taken authority (entry : TreeLogEntry) (result : ReplicaResult) v v' : Prop :=
  match result with
  | ReplicaApplied => ∃ next, takes authority entry next v v'
  | ReplicaHalted =>
      tc_halted v' = true ∧
      (unmoved v v' ∨
       ∃ next, (merge_signed entry ∨ tc_awaiting_merge v = false ∧ certified authority entry) ∧
         runs (tl_state (tc_log v)) entry next ∧ appended entry next (tc_log v) (tc_log v'))
  | _ => quiet v v'
  end.

Lemma apply_verified_spec authority entry v result v' :
  (merge_signed entry ∨ tc_awaiting_merge v = false ∧ certified authority entry) →
  apply_verified config data_root log_directory sink entry v = (result, v') → taken authority entry result v v'.
Proof.
  intros Hev. unfold apply_verified. cbn zeta. set (v0 := v <| tc_held := _ |>).
  destruct (negb _); [by intros [= <- <-]|].
  change (tc_log v0) with (tc_log v). destruct (replay_entry _ entry) as [[r reason]|[next effects]] eqn:Er.
  - intros [= <- <-]. split; [apply halted_halt|]. left.
    match goal with |- unmoved _ (halt ?r ?w) => destruct (halt_frame r w) as (L & T & _ & _ & W) end.
    by split; rewrite ?L, ?T, ?W.
  - destruct (commit_entry config data_root log_directory sink entry next _ v0) as [done v1] eqn:Ec.
    apply commit_entry_spec in Ec. destruct done; intros [= <- <-].
    + exists next. split; [done|by eexists|exact Ec].
    + destruct Ec as [Fh Fl _]. split; [done|]. destruct Fl as [[]|Fl]; [by left|]. right. exists next.
      split; [done|]. split; [by eexists|done].
Qed.

Lemma apply_next_spec authority entry v result v' :
  apply_next config data_root log_directory sink authority entry v = (result, v') →
  match result with Some result => taken authority entry result v v' | None => quiet v v' end.
Proof.
  unfold apply_next. destruct (lg_kind entry) eqn:Ek.
  - destruct (tc_awaiting_merge v) eqn:Ea; [by intros [= <- <-]|]. cbn zeta.
    destruct (verify_certified_entry _ _ _) as [res reason epoch] eqn:Ev. cbn [ev_result ev_epoch ev_reason].
    destruct res.
    + destruct (epoch_regresses _ _ _); [by intros [= <- <-]|].
      destruct (apply_verified _ _ _ _ entry v) as [r v1] eqn:E. intros [= <- <-].
      eapply apply_verified_spec; [|exact E]. right. split; [done|].
      apply evidence_certifies in Ev as (_ & lookup & known & proof & Hev). by exists lookup, known, proof.
    + intros [= <- <-]. eapply quiet_trans; [apply (hold_quiet entry)|done].
    + by intros [= <- <-].
  - destruct (verify_merge_signature _ _ _) as [[refusal|]|] eqn:Ev; [by intros [= <- <-]| |by intros [= <- <-]].
    destruct (apply_verified _ _ _ _ entry v) as [r v1] eqn:E. intros [= <- <-].
    eapply apply_verified_spec; [|exact E]. by left.
Qed.

(** ** Growing logs *)

(** A log and one that grew out of it by entries with evidence. *)
Inductive log_grows (evidence : TreeLogEntry → Prop) (log : TreeLog) : TreeLog → Prop :=
  | grows_same log' :
      tl_state log' = tl_state log → tl_height log' = tl_height log → log_grows evidence log log'
  | grows_entry log1 log2 entry next :
      log_grows evidence log log1 → evidence entry → runs (tl_state log1) entry next →
      appended entry next log1 log2 → log_grows evidence log log2.

Lemma grows_refl evidence log : log_grows evidence log log.
Proof. by constructor. Qed.

Lemma runs_ext state entry next next' : runs state entry next → next = next' → runs state entry next'.
Proof. by intros ? <-. Qed.

Lemma grows_trans evidence log1 log2 log3 :
  log_grows evidence log1 log2 → log_grows evidence log2 log3 → log_grows evidence log1 log3.
Proof.
  intros H12. induction 1 as [log' Es Eh|log3 log4 entry next _ IH He Hr Ha].
  - destruct H12 as [log2 Es' Eh'|log0 log2 entry next Hg He Hr Ha]; [constructor; congruence|].
    eapply grows_entry; [exact Hg|exact He|exact Hr|]. by eapply appended_marked.
  - by eapply grows_entry.
Qed.

Lemma grows_weaken (P Q : TreeLogEntry → Prop) log log' :
  (∀ e, P e → Q e) → log_grows P log log' → log_grows Q log log'.
Proof. intros HPQ. induction 1; [by apply grows_same|eapply grows_entry; eauto]. Qed.

Lemma grows_one (evidence : TreeLogEntry → Prop) log log' entry next :
  evidence entry → runs (tl_state log) entry next → appended entry next log log' → log_grows evidence log log'.
Proof. intros He Hr Ha. by eapply grows_entry; [apply grows_refl|..]. Qed.

(** The evidence of replicated entries. *)
Definition replicable authority (entry : TreeLogEntry) : Prop := merge_signed entry ∨ certified authority entry.

Lemma taken_grows authority entry result v v' :
  taken authority entry result v v' → log_grows (replicable authority) (tc_log v) (tc_log v').
Proof.
  destruct result; cbn; try (intros [L _ _ _ _]; rewrite L; apply grows_refl).
  - intros (next & [He Hr Hc]). eapply grows_one; [|exact Hr|apply (cm_log _ _ _ _ _ Hc)].
    destruct He as [|[]]; [by left|by right].
  - intros [_ [[-> _ _]|(next & He & Hr & Ha)]]; [apply grows_refl|]. eapply grows_one; [|exact Hr|exact Ha].
    destruct He as [|[]]; [by left|by right].
Qed.

(** ** Steps of a call *)

(** The served tree has the digest of the log's. *)
Definition in_step v : Prop :=
  tc_halted v = false → tc_awaiting_merge v = false →
  tree_digest (tc_tree v) = compute_tree_digest (ch_nodes (tl_state (tc_log v))).

(** What any number of entries from peers does to a server. *)
Record evolves authority v v' : Prop := mkEvolves {
  ev_log : log_grows (replicable authority) (tc_log v) (tc_log v');
  ev_step : in_step v → in_step v';
  ev_waiting : tc_awaiting_merge v = true →
    unmoved v v' ∨ ∃ entry, merge_signed entry ∧ ∃ next, runs (tl_state (tc_log v)) entry next;
}.

Lemma quiet_evolves authority v v' : quiet v v' → evolves authority v v'.
Proof.
  intros Hq. split; [|intros Hs|left; by destruct Hq].
  - rewrite (qu_log _ _ Hq). apply grows_refl.
  - unfold in_step. by rewrite (qu_log _ _ Hq), (qu_tree _ _ Hq), (qu_halted _ _ Hq), (qu_awaiting _ _ Hq).
Qed.

Lemma evolves_trans authority v1 v2 v3 : evolves authority v1 v2 → evolves authority v2 v3 → evolves authority v1 v3.
Proof.
  intros [L1 S1 W1] [L2 S2 W2]. split; [by eapply grows_trans|auto|]. intros Ha.
  destruct (W1 Ha) as [[Ul Ut Ua]|]; [|by right]. rewrite Ua in W2.
  destruct (W2 Ha) as [[]|He]; [left; split; congruence|right]. by rewrite Ul in He.
Qed.

Lemma taken_evolves authority entry result v v' : taken authority entry result v v' → evolves authority v v'.
Proof.
  intros Ht. pose proof (taken_grows _ _ _ _ _ Ht) as Hg. destruct result; cbn in Ht;
    try (by apply quiet_evolves).
  - destruct Ht as (next & [He Hr [Ca Ct Ch Cw _]]). split; [done| |].
    + intros _ _ _. by rewrite Ct, (ap_state' _ _ _ _ Ca).
    + intros Ha. right. exists entry. destruct He as [He|[? _]]; [|congruence]. eauto.
  - destruct Ht as [Hh Ht]. split; [done|intros _ ?; congruence|]. intros Ha.
    destruct Ht as [Hl|(next & [He|[? _]] & Hr & _)]; [by left|right; eauto|congruence].
Qed.

Lemma drain_loop_evolves authority fuel v returned v' :
  drain_loop config data_root log_directory sink fuel authority v = (returned, v') → evolves authority v v'.
Proof.
  revert v. induction fuel as [|fuel IH]; intros v; cbn [drain_loop];
    [intros [= <- <-]; by apply quiet_evolves|].
  destruct (negb _); [intros [= <- <-]; by apply quiet_evolves|].
  destruct (tc_held v !! _) as [entry|]; [|intros [= <- <-]; by apply quiet_evolves].
  set (v0 := v <| tc_held := _ |>). assert (R0 : evolves authority v v0) by by apply quiet_evolves.
  destruct (apply_next _ _ _ _ authority entry v0) as [result v1] eqn:En. apply apply_next_spec in En.
  assert (R1 : evolves authority v v1).
  { eapply evolves_trans; [exact R0|]. destruct result; [by eapply taken_evolves|by apply quiet_evolves]. }
  destruct result as [[]|]; try (by intros [= <- <-]).
  intros E. eapply evolves_trans; [exact R1|by apply IH].
Qed.

Lemma drain_held_evolves authority v returned v' :
  drain_held config data_root log_directory sink authority v = (returned, v') → evolves authority v v'.
Proof.
  unfold drain_held. destruct (drain_loop _ _ _ _ _ _ _) as [ret v1] eqn:Ed.
  apply drain_loop_evolves in Ed. destruct ret; cbn [negb]; intros [= <- <-]; [|done].
  eapply evolves_trans; [exact Ed|by apply quiet_evolves].
Qed.

Lemma receive_evolves authority entry v result v' :
  receive_replicated config data_root log_directory sink authority entry v = (result, v') → evolves authority v v'.
Proof.
  unfold receive_replicated. cbn zeta. destruct (negb _); [intros [= <- <-]; by apply quiet_evolves|].
  destruct (_ =? 0); [intros [= <- <-]; by apply quiet_evolves|].
  destruct (_ <=? _).
  { destruct (read_entry _ _ _) as [mine|]; [destruct (_ =? _)|]; intros [= <- <-]; by apply quiet_evolves. }
  destruct (_ <? _); [intros [= <- <-]; apply quiet_evolves, hold_quiet|].
  destruct (apply_next _ _ _ _ authority entry v) as [r v1] eqn:En. apply apply_next_spec in En.
  assert (R1 : evolves authority v v1) by (destruct r; [by eapply taken_evolves|by apply quiet_evolves]).
  destruct r as [[]|]; try (by intros [= <- <-]).
  destruct (drain_held _ _ _ _ authority v1) as [ret v2] eqn:Ed. intros [= <- <-].
  eapply evolves_trans; [exact R1|by eapply drain_held_evolves].
Qed.

Lemma maintain_evolves authority v returned v' :
  maintain config data_root log_directory sink authority v = (returned, v') → evolves authority v v'.
Proof.
  unfold maintain. pose proof (core_clock v) as Hc. destruct (read_clock v) as [now v1]. cbn [snd] in Hc.
  assert (R1 : evolves authority v v1) by by apply quiet_evolves, quiet_core.
  destruct (_ && _); [by intros [= <- <-]|]. cbn zeta. set (v2 := v1 <| tc_last_maintain_ms := _ |>).
  assert (R2 : evolves authority v v2) by (eapply evolves_trans; [exact R1|by apply quiet_evolves]).
  destruct (negb (healthy v2)); [by intros [= <- <-]|].
  destruct (match tc_held v2 !! _ with Some _ => _ | None => _ end) as [ret v3] eqn:Ed.
  assert (R3 : evolves authority v v3).
  { eapply evolves_trans; [exact R2|]. destruct (tc_held v2 !! _); [by eapply drain_held_evolves|].
    injection Ed as <- <-. by apply quiet_evolves. }
  destruct ret; cbn [negb]; [|by intros [= <- <-]]. destruct (tc_awaiting_merge v3); [by intros [= <- <-]|].
  intros [= <- <-]. eapply evolves_trans; [exact R3|]. apply quiet_evolves, quiet_core.
  by rewrite core_request, core_revalidate.
Qed.

(** ** Held entries *)

Definition entry_bytes (entry : TreeLogEntry) : Z := Z.of_nat (length (lg_batch entry)).

Definition held_ok (held : gmap Z TreeLogEntry) : Prop :=
  Z.of_nat (size held) <= kMaxReplicaHeldEntries ∧ held_bytes held <= kMaxReplicaHeldBytes.

Lemma held_bytes_perm (l k : list (Z * TreeLogEntry)) :
  l ≡ₚ k → foldr (λ kv total, entry_bytes kv.2 + total) 0 l = foldr (λ kv total, entry_bytes kv.2 + total) 0 k.
Proof. induction 1; cbn [foldr]; lia. Qed.

Lemma held_bytes_insert held h entry :
  held !! h = None → held_bytes (<[ h := entry ]> held) = entry_bytes entry + held_bytes held.
Proof.
  intros Hn. unfold held_bytes. rewrite (held_bytes_perm _ ((h, entry) :: map_to_list held)); [done|].
  by apply map_to_list_insert.
Qed.

Lemma held_bytes_delete held h : held_bytes (delete h held) <= held_bytes held.
Proof.
  destruct (held !! h) as [e|] eqn:E; [|by rewrite delete_id].
  rewrite <-(insert_delete_id held h e E) at 2. rewrite held_bytes_insert by apply lookup_delete_eq.
  unfold entry_bytes. lia.
Qed.

Lemma held_ok_delete held h : held_ok held → held_ok (delete h held).
Proof.
  intros [Hs Hb]. split.
  - destruct (held !! h) eqn:E; [|by rewrite delete_id]. rewrite (map_size_delete_Some h held) by eauto. lia.
  - pose proof (held_bytes_delete held h). lia.
Qed.

Lemma held_ok_filter (P : Z * TreeLogEntry → Prop) `{∀ x, Decision (P x)} held : held_ok held → held_ok (filter P held).
Proof.
  intros [Hs Hb]. split; [pose proof (map_size_filter P held); lia|].
  assert (Hf : ∀ m : gmap Z TreeLogEntry, held_bytes (filter P m) <= held_bytes m).
  { intros m. induction m as [|k e m Hk IH] using map_ind; [by rewrite map_filter_empty|].
    rewrite (held_bytes_insert m k e Hk). unfold entry_bytes.
    destruct (decide (P (k, e))).
    - rewrite map_filter_insert_True, held_bytes_insert by (done || by rewrite map_lookup_filter, Hk). unfold entry_bytes. lia.
    - rewrite map_filter_insert_False, delete_id by done. lia. }
  pose proof (Hf held). lia.
Qed.

Lemma hold_held entry v : held_ok (tc_held v) → held_ok (tc_held (hold entry v)).
Proof.
  intros Hok. unfold hold. destruct (_ || _); [done|]. cbn zeta.
  destruct (Z.ltb_spec kMaxReplicaHeldBytes (Z.of_nat (length (lg_batch entry)) + held_bytes (delete (lg_height entry) (tc_held v))))
    as [|Hb]; [done|]. cbn [orb].
  destruct (negb _ && _) eqn:Ec; [done|].
  change (tc_held (refresh_status _)) with (<[ lg_height entry := entry ]> (tc_held v)).
  rewrite <-(insert_delete_eq (tc_held v)). split; [|rewrite held_bytes_insert by apply lookup_delete_eq; exact Hb].
  rewrite map_size_insert_None by apply lookup_delete_eq.
  destruct (bool_decide_reflect (is_Some (tc_held v !! lg_height entry))) as [Hs|Hn]; cbn [negb andb] in Ec.
  - rewrite (map_size_delete_Some _ _ Hs). destruct Hok as [Hsz _]. destruct Hs as [x Hx].
    assert (Hne : size (tc_held v) ≠ 0%nat) by (intros E0%map_size_empty_inv; rewrite E0, lookup_empty in Hx; done). lia.
  - apply Z.leb_gt in Ec. rewrite delete_id by by apply eq_None_not_Some. lia.
Qed.
End facts.
