(* ===== verification/TreeConsensusTheorems.v ===== *)
(** * Theorems about the tree handler

    Runs are sequences of calls, in any order and with any failure of the disk.
    The served tree follows the log; the log grows only by entries with
    evidence, in order; a server that awaits the merge moves only on a merge
    commit that the root key signed; what peers make a server hold is bounded. *)

From S2P Require Import Prelude SecurityPolicy CanonicalEncoding ConsensusTypes QuorumValidation EpochAuthority DurableWrite Json.
From S2P Require Import EligibilityStore FileStorage ConsensusRecords HotStuff TreeTypes LinkToken TreeRules TreeOps TreeValidation.
From S2P Require Import TreeCodec TreeRoundTrip TreeInvariants TreeTheorems TreePool TreeLog TreeLogFacts TreeLogTheorems NodeFiles.
From S2P Require Import PermissionTree TreeReplication TreeConsensus PermissionTreeTheorems TreeConsensusFacts.

Inductive TreeCall :=
  | CallStart
  | CallDeactivate (reason : string)
  | CallMembers (members : list NodeId)
  | CallSubmit (op : TreeOp)
  | CallForwarded (message : TreeOpSubmitMsg)
  | CallCommitted (committed : CommittedPayload)
  | CallReplicated (authority : option (EpochId → option VerifiedEpochAuthority)) (entry : TreeLogEntry)
  | CallMaintain (authority : option (EpochId → option VerifiedEpochAuthority)).

Section theorems.
Context `{TextCodec, ValueCodec, HexCodec, FloatText, Sodium, SodiumMessages, NodeOrder, FloatRead}.
Context (config : TreeConsensusConfig) (data_root log_directory : string).
Context (sink : option (RetainedDelta → TreeFiles → bool * TreeFiles)).
Implicit Types v : TreeServer.

Definition call_tree (c : TreeCall) v : TreeServer :=
  match c with
  | CallStart => (start data_root log_directory v).2
  | CallDeactivate reason => deactivate config reason v
  | CallMembers members => set_members members v
  | CallSubmit op => (submit config op v).2
  | CallForwarded message => receive_forwarded config message v
  | CallCommitted committed => on_committed config data_root log_directory sink committed v
  | CallReplicated authority entry =>
      (receive_replicated config data_root log_directory sink authority entry v).2
  | CallMaintain authority => (maintain config data_root log_directory sink authority v).2
  end.

Definition call_trees (calls : list TreeCall) v : TreeServer := foldl (λ v c, call_tree c v) v calls.

(** ** Calls that only keep books *)

Lemma submit_core op v : core (submit config op v).2 = core v.
Proof.
  unfold submit. destruct (tc_halted v); [done|]. destruct (tc_awaiting_merge v) eqn:Ea; [done|].
  destruct (negb _); [done|]. pose proof (core_clock v) as Hc. destruct (read_clock v) as [now v1]. cbn [snd] in Hc.
  destruct (validate_local_op _ _ _ _); [done|]. destruct (tree_op_signature_bytes op); [|done].
  unfold admit_op. destruct (pool_add _ _ _ _) as [[] pool]; exact Hc.
Qed.

Lemma forwarded_core message v : core (receive_forwarded config message v) = core v.
Proof.
  unfold receive_forwarded. destruct (_ || _); [done|]. destruct (decode_tree_op _ _); [|done].
  destruct (pool_contains _ _); [done|]. case_bool_decide; [done|].
  pose proof (core_clock v) as Hc. destruct (read_clock v) as [now v1]. cbn [snd] in Hc.
  by destruct (validate_local_op _ _ _ _).
Qed.

(** ** Start and stop *)

Lemma record_applied_spec v ok v' :
  record_applied log_directory v = (ok, v') →
  tl_state (tc_log v') = tl_state (tc_log v) ∧ tc_tree v' = tc_tree v ∧ tc_held v' = tc_held v ∧
  tc_awaiting_merge v' = tc_awaiting_merge v ∧ tc_halted v' = tc_halted v.
Proof.
  unfold record_applied, on_log. destruct (_ =? _); [by intros [= <- <-]|].
  destruct (mark_applied _ _ _ _) as [[a log] d] eqn:Em. apply mark_applied_spec in Em as [Es _].
  by intros [= <- <-].
Qed.

Lemma finish_start_spec v ok v' :
  finish_start log_directory v = (ok, v') → tc_held v' = tc_held v ∧
  (tree_digest (tc_tree v) = compute_tree_digest (ch_nodes (tl_state (tc_log v))) → in_step v').
Proof.
  unfold finish_start. destruct (record_applied log_directory v) as [recorded v1] eqn:Er.
  apply record_applied_spec in Er as (L & T & D & _). destruct recorded; cbn [negb]; intros [= <- <-].
  - split; [exact D|]. intros Hd _ _. change (tree_digest (tc_tree v1) = compute_tree_digest (ch_nodes (tl_state (tc_log v1)))).
    by rewrite L, T.
  - destruct (halt_frame "cannot record the applied tree log height" v1) as (_ & _ & _ & D' & _).
    split; [by rewrite D', D|]. intros _ Hh. by rewrite halted_halt in Hh.
Qed.

Lemma halted_in_step reason v : in_step (halt reason v).
Proof. intros Hh. by rewrite halted_halt in Hh. Qed.

Lemma held_halt reason v : tc_held (halt reason v) = tc_held v.
Proof. by destruct (halt_frame reason v) as (_ & _ & _ & ? & _). Qed.

Lemma start_spec v : let v' := (start data_root log_directory v).2 in in_step v' ∧ tc_held v' = ∅.
Proof.
  unfold start, on_log. cbn zeta. set (v0 := v <| tc_held := ∅ |> <| tc_behind := false |> <| tc_awaiting_merge := false |>
    <| tc_pre_merge_nodes := 0 |>).
  destruct (log_open _ _ (tc_log v0) _) as [[opened log] d]. set (v1 := v0 <| tc_log := log |> <| tc_files := _ |>).
  destruct opened; cbn [snd]; [|split; [apply halted_in_step|by rewrite held_halt]].
  destruct (_ && _); [by split|]. destruct (Z.eqb_spec (compute_tree_digest (pt_nodes (tc_tree v0)))
    (compute_tree_digest (ch_nodes (tl_state (tc_log v1))))) as [He|_].
  - destruct (finish_start log_directory v1) as [ok v2] eqn:Ef. apply finish_start_spec in Ef as [D Hs].
    cbn [snd]. split; [by apply Hs|by rewrite D].
  - destruct (_ <=? _); cbn [snd]; [split; [apply halted_in_step|by rewrite held_halt]|].
    destruct (restore_tree data_root _ v1) as [restored v2] eqn:Er.
    apply restore_frame in Er as [(L & D & _) Hr]. destruct restored; cbn [negb snd].
    + destruct (finish_start log_directory v2) as [ok v3] eqn:Ef. apply finish_start_spec in Ef as [D' Hs].
      cbn [snd]. split; [apply Hs; rewrite L; by apply Hr|by rewrite D', D].
    + split; [apply halted_in_step|by rewrite held_halt, D].
Qed.

Lemma deactivate_spec reason v :
  let v' := deactivate config reason v in tc_halted v' = true ∧ tc_held v' = ∅.
Proof.
  unfold deactivate. cbn zeta. set (v0 := v <| tc_halted := _ |> <| tc_halt_reason := _ |> <| tc_awaiting_merge := _ |>
    <| tc_pre_merge_nodes := _ |> <| tc_behind := _ |> <| tc_status := _ |> <| tc_held := _ |>).
  pose proof (core_foldl (λ v op, refuse_op config (op_id_hex op) Unavailable reason v) (pool_pending (tc_pool v0)) v0) as Hc.
  apply core_eq in Hc as (_ & _ & _ & D & A & _); [|intros; apply core_settle].
  split; [exact A|exact D].
Qed.

(** ** Committed blocks *)

Definition block_runs (committed : CommittedPayload) (body : list Z) v (next : TreeChainState) : Prop :=
  ∃ batch effects, decode_tree_batch body = Some batch ∧
    apply_certified_batch batch (p_timestamp_hint (cl_proposal committed))
      (p_transitions_digest (cl_proposal committed)) (tl_state (tc_log v)) = inr (next, effects).

Definition block_entry (committed : CommittedPayload) (body : list Z) v (next : TreeChainState) : TreeLogEntry :=
  committed_log_entry committed body (tl_height (tc_log v) +64 1) (compute_tree_digest (ch_nodes next)).

Lemma commit_block_spec committed body v v' :
  commit_block config data_root log_directory sink committed body v = v' →
  tc_held v' = tc_held v ∧
  (tc_halted v' = false → ∃ next, block_runs committed body v next ∧
    commits (block_entry committed body v next) next (compute_tree_digest (ch_nodes next)) v v') ∧
  (tc_log v' = tc_log v ∨ ∃ next, block_runs committed body v next ∧
    appended (block_entry committed body v next) next (tc_log v) (tc_log v')).
Proof.
  assert (Hhalt : ∀ reason, tc_held (halt reason v) = tc_held v ∧ (tc_halted (halt reason v) = false → False) ∧
    tc_log (halt reason v) = tc_log v).
  { intros reason. split; [apply held_halt|]. split; [by rewrite halted_halt|apply (halt_frame reason v)]. }
  unfold commit_block. destruct (decode_tree_batch body) as [batch|] eqn:Ed.
  2: { intros <-. destruct (Hhalt "a committed tree batch does not decode"%string) as (? & Hf & ?). naive_solver. }
  destruct (apply_certified_batch _ _ _ _) as [r|[next effects]] eqn:Ea.
  { intros <-. destruct (Hhalt "a committed tree block does not replay to its state root"%string) as (? & Hf & ?). naive_solver. }
  destruct (negb (ch_root next =? _)).
  { intros <-. destruct (Hhalt "a committed tree block does not replay to its state root"%string) as (? & Hf & ?). naive_solver. }
  cbn zeta. destruct (commit_entry _ _ _ _ _ next _ v) as [done v1] eqn:Ec. apply commit_entry_spec in Ec.
  destruct done; cbn [andb].
  - intros Hv. assert (Hc : commits (block_entry committed body v next) next (compute_tree_digest (ch_nodes next)) v v').
    { destruct (tc_behind v1); subst v'; [|done]. destruct Ec. by split. }
    assert (Hr : block_runs committed body v next) by by exists batch, effects.
    split; [apply Hc|]. split; [eauto|]. right. exists next. split; [done|apply Hc].
  - intros <-. destruct Ec as [Fh Fl Fd]. split; [done|]. split; [congruence|].
    destruct Fl as [[]|Fl]; [by left|right]. exists next. split; [by exists batch, effects|done].
Qed.

Lemma on_committed_cases committed v v' :
  on_committed config data_root log_directory sink committed v = v' →
  quiet v v' ∧ tc_held v' = tc_held v ∨
  ∃ body, cl_payload committed = Some (mkPayload ConsensusTypes.TreeBatch body) ∧ tc_awaiting_merge v = false ∧
    p_previous_state_root (cl_proposal committed) = ch_root (tl_state (tc_log v)) ∧
    commit_block config data_root log_directory sink committed body v = v'.
Proof.
  unfold on_committed. destruct (cl_payload committed) as [[[] body]|]; try (intros <-; by left).
  destruct (negb _); [intros <-; by left|]. destruct (tc_awaiting_merge v) eqn:Ea; [intros <-; by left|].
  cbn zeta. destruct (_ =? _); [intros <-; by left|].
  destruct (Z.eqb_spec (p_previous_state_root (cl_proposal committed)) (ch_root (tl_state (tc_log v)))) as [Hp|];
    cbn [negb]; [|intros <-; by left]. intros Hc. right. by exists body.
Qed.

(** ** The served tree *)

Lemma call_in_step c v : in_step v → in_step (call_tree c v).
Proof.
  intros Hs. destruct c; cbn [call_tree].
  - apply start_spec.
  - intros Hh. by rewrite (proj1 (deactivate_spec reason v)) in Hh.
  - exact Hs.
  - by apply (ev_step _ _ _ _ (quiet_evolves config None _ _ (quiet_core _ _ (submit_core op v)))).
  - by apply (ev_step _ _ _ _ (quiet_evolves config None _ _ (quiet_core _ _ (forwarded_core message v)))).
  - destruct (on_committed_cases committed v _ eq_refl) as [[Hq _]|(body & _ & Ha & _ & Hc)].
    + by apply (ev_step _ _ _ _ (quiet_evolves config None _ _ Hq)).
    + apply commit_block_spec in Hc as (_ & Hc & _). intros Hh _. destruct (Hc Hh) as (next & _ & Hcm).
      by rewrite (cm_tree _ _ _ _ _ Hcm), (ap_state' _ _ _ _ (cm_log _ _ _ _ _ Hcm)).
  - destruct (receive_replicated _ _ _ _ authority entry v) as [r v1] eqn:E.
    by apply receive_evolves in E as [_ Hst _]; apply Hst.
  - destruct (maintain _ _ _ _ authority v) as [r v1] eqn:E. by apply maintain_evolves in E as [_ Hst _]; apply Hst.
Qed.

(** C12: The served tree follows the log: after any sequence of calls to a
    handler that was not started, whatever the disk refused on the way, a
    handler that is healthy and does not await the merge serves a tree with the
    digest of the committed log's tree. *)
Theorem served_tree_follows_log calls v :
  tc_halted v = true →
  let v' := call_trees calls v in
  tc_halted v' = false → tc_awaiting_merge v' = false →
  tree_digest (tc_tree v') = compute_tree_digest (ch_nodes (tl_state (tc_log v'))).
Proof.
  intros Hh. assert (Hs : in_step v) by (intros Hf; congruence). clear Hh. unfold call_trees.
  revert v Hs. induction calls as [|c calls IH]; intros v Hs; [exact Hs|]. apply IH. by apply call_in_step.
Qed.

(** ** Awaiting the merge *)

(** A server that awaits the merge moves only on the merge: no call but a
    start or a deactivation changes its log or the tree it serves, unless a
    merge commit arrived that the configured root key signed and that replays on
    the empty base. *)
Theorem awaiting_takes_only_merge c v :
  tc_awaiting_merge v = true → c ≠ CallStart → (∀ reason, c ≠ CallDeactivate reason) →
  unmoved v (call_tree c v) ∨
  ∃ entry next effects, lg_kind entry = EntryMerge ∧
    verify_merge_signature entry (tcc_network_id config) (tcc_root_key config) = Verdict None ∧
    replay_entry (tl_state (tc_log v)) entry = inr (next, effects).
Proof.
  intros Ha Hs Hd. assert (Hev : ∀ authority v', evolves config authority v v' → unmoved v v' ∨
    ∃ entry next effects, lg_kind entry = EntryMerge ∧
    verify_merge_signature entry (tcc_network_id config) (tcc_root_key config) = Verdict None ∧
    replay_entry (tl_state (tc_log v)) entry = inr (next, effects)).
  { intros authority v' [_ _ Hw]. destruct (Hw Ha) as [|(entry & [Hk Hv] & next & effects & Hr)]; [by left|right].
    by exists entry, next, effects. }
  destruct c; cbn [call_tree]; [done|by destruct (Hd reason)|by left|..].
  - eapply (Hev None), quiet_evolves, quiet_core, submit_core.
  - eapply (Hev None), quiet_evolves, quiet_core, forwarded_core.
  - destruct (on_committed_cases committed v _ eq_refl) as [[Hq _]|(body & _ & Ha' & _)]; [|congruence].
    by eapply (Hev None), quiet_evolves.
  - destruct (receive_replicated _ _ _ _ authority entry v) as [r v1] eqn:E. by eapply Hev, receive_evolves.
  - destruct (maintain _ _ _ _ authority v) as [r v1] eqn:E. by eapply Hev, maintain_evolves.
Qed.

(** ** The log *)

(** The evidence of the entries a call may append: the members committed the
    block that the replica handed over, or the evidence is in the entry. *)
Definition call_evidence (c : TreeCall) (entry : TreeLogEntry) : Prop :=
  match c with
  | CallCommitted committed =>
      ∃ body, cl_payload committed = Some (mkPayload ConsensusTypes.TreeBatch body) ∧
        entry = committed_log_entry committed body (lg_height entry) (lg_tree_digest entry)
  | CallReplicated authority _ | CallMaintain authority => replicable config authority entry
  | _ => False
  end.

(** What the replica guarantees of a committed block: its fields have their
    widths and its payload is the one its header names. *)
Definition delivered (c : TreeCall) : Prop :=
  match c with
  | CallCommitted committed =>
      wf_proposal (cl_proposal committed) ∧
      ∀ payload, cl_payload committed = Some payload →
        block_payload_digest payload = p_transitions_digest (cl_proposal committed)
  | _ => True
  end.

Lemma record_proposal committed :
  committed_record committed !! "proposal"%string = Some (proposal_to_json (cl_proposal committed)).
Proof. unfold committed_record. by destruct (cl_proof committed). Qed.

Lemma block_entry_runs `{!TextCodecLaws} committed body v next log' :
  wf_proposal (cl_proposal committed) →
  block_payload_digest (mkPayload ConsensusTypes.TreeBatch body) = p_transitions_digest (cl_proposal committed) →
  block_runs committed body v next → appended (block_entry committed body v next) next (tc_log v) log' →
  runs (tl_state (tc_log v)) (block_entry committed body v next) next.
Proof.
  intros Hwf Hpay (batch & effects & Hd & Ha) [_ Hp Hr _ _]. exists effects.
  assert (Hh : header_agrees (block_entry committed body v next) = true).
  { unfold header_agrees, block_entry, committed_log_entry. cbn [lg_commit lg_block_time_ms lg_ops_digest lg_previous_root lg_state_root].
    rewrite record_proposal, proposal_round_trip by done. by rewrite !Z.eqb_refl. }
  unfold replay_entry. rewrite Hp, Z.eqb_refl. cbn [negb].
  change (lg_kind (block_entry committed body v next)) with EntryBatch. cbn iota. unfold replay_batch. rewrite Hh.
  change (lg_batch (block_entry committed body v next)) with body. unfold batch_digest. rewrite Hpay.
  change (lg_ops_digest (block_entry committed body v next)) with (p_transitions_digest (cl_proposal committed)).
  change (lg_block_time_ms (block_entry committed body v next)) with (p_timestamp_hint (cl_proposal committed)).
  change (lg_tree_digest (block_entry committed body v next)) with (compute_tree_digest (ch_nodes next)).
  by rewrite Z.eqb_refl, Hd, Ha, Hr, !Z.eqb_refl.
Qed.

(** C13: The log grows only by entries with evidence: whatever a call is given, the
    entries it appends are blocks that the replica committed, blocks with a
    commit proof of the members of a verified epoch, or a merge commit signed by
    the root key; each follows the one before, chains to its root and replays to
    the state the log then has. *)
Theorem log_grows_by_evidence `{!TextCodecLaws} c v :
  delivered c → c ≠ CallStart → (∀ reason, c ≠ CallDeactivate reason) →
  log_grows (call_evidence c) (tc_log v) (tc_log (call_tree c v)).
Proof.
  intros Hdel Hs Hd. destruct c; cbn [call_tree]; [done|by destruct (Hd reason)|apply grows_refl|..].
  - rewrite (proj1 (core_eq _ _ (submit_core op v))). apply grows_refl.
  - rewrite (proj1 (core_eq _ _ (forwarded_core message v))). apply grows_refl.
  - destruct Hdel as [Hwf Hpay].
    destruct (on_committed_cases committed v _ eq_refl) as [[Hq _]|(body & Hb & _ & _ & Hc)].
    { rewrite (qu_log _ _ Hq). apply grows_refl. }
    apply commit_block_spec in Hc as (_ & _ & [->|(next & Hr & Ha)]); [apply grows_refl|].
    eapply grows_one; [|by eapply block_entry_runs; [|by apply Hpay|..]|exact Ha]. by exists body.
  - destruct (receive_replicated _ _ _ _ authority entry v) as [r v1] eqn:E. by apply receive_evolves in E as [Hl _ _].
  - destruct (maintain _ _ _ _ authority v) as [r v1] eqn:E. by apply maintain_evolves in E as [Hl _ _].
Qed.

(** ** Held entries *)

Lemma apply_next_held authority entry v result v' :
  apply_next config data_root log_directory sink authority entry v = (result, v') →
  held_ok (tc_held v) → held_ok (tc_held v').
Proof.
  intros E Hok. assert (Hav : ∀ r w, apply_verified config data_root log_directory sink entry v = (r, w) → held_ok (tc_held w)).
  { intros r w. unfold apply_verified. cbn zeta. set (v0 := v <| tc_held := _ |>).
    assert (H0' : held_ok (tc_held v0)) by by apply held_ok_delete.
    destruct (negb _); [by intros [= <- <-]|].
    destruct (replay_entry _ entry) as [[x reason]|[next effects]]; [intros [= <- <-]; by rewrite held_halt|].
    destruct (commit_entry _ _ _ _ _ _ _ v0) as [done v1] eqn:Ec. apply commit_entry_spec in Ec. intros [= <- <-].
    destruct done; [by rewrite (cm_held _ _ _ _ _ Ec)|by rewrite (fa_held _ _ _ _ Ec)]. }
  unfold apply_next in E. destruct (lg_kind entry).
  - destruct (tc_awaiting_merge v); [by injection E as <- <-|]. cbn zeta in E.
    destruct (ev_result _); [|injection E as <- <-; by apply hold_held|by injection E as <- <-].
    destruct (epoch_regresses _ _ _); [by injection E as <- <-|].
    destruct (apply_verified _ _ _ _ entry v) as [r w] eqn:Ev. injection E as <- <-. by eapply Hav.
  - destruct (verify_merge_signature _ _ _) as [[]|]; try (by injection E as <- <-).
    destruct (apply_verified _ _ _ _ entry v) as [r w] eqn:Ev. injection E as <- <-. by eapply Hav.
Qed.

Lemma drain_held_bound authority v :
  held_ok (tc_held v) → held_ok (tc_held (drain_held config data_root log_directory sink authority v).2).
Proof.
  intros Hok. unfold drain_held. assert (Hl : ∀ fuel w, held_ok (tc_held w) →
    held_ok (tc_held (drain_loop config data_root log_directory sink fuel authority w).2)).
  { clear. induction fuel as [|fuel IH]; intros w Hw; cbn [drain_loop]; [done|]. destruct (negb _); [done|].
    destruct (tc_held w !! _) as [entry|]; [|done].
    destruct (apply_next _ _ _ _ authority entry _) as [r w1] eqn:En.
    apply apply_next_held in En; [|by apply held_ok_delete]. destruct r as [[]|]; try done. by apply IH. }
  specialize (Hl (S (size (tc_held v))) v Hok). destruct (drain_loop _ _ _ _ _ _ _) as [returned v1].
  destruct returned; cbn [negb snd]; [|done]. by apply (held_ok_filter (λ kv, tl_height (tc_log v1) < kv.1)).
Qed.

Lemma held_core v v' : core v' = core v → tc_held v' = tc_held v.
Proof. by intros (_ & _ & _ & ? & _)%core_eq. Qed.

Lemma receive_held authority entry v :
  held_ok (tc_held v) → held_ok (tc_held (receive_replicated config data_root log_directory sink authority entry v).2).
Proof.
  intros Hok. unfold receive_replicated. cbn zeta. destruct (negb _); [done|]. destruct (_ =? 0); [done|].
  destruct (_ <=? _); [destruct (read_entry _ _ _) as [mine|]; [destruct (_ =? _)|]; done|].
  destruct (_ <? _); [by apply hold_held|].
  destruct (apply_next _ _ _ _ authority entry v) as [r v1] eqn:En. apply apply_next_held in En; [|done].
  destruct r as [[]|]; try done. pose proof (drain_held_bound authority v1 En) as Hd.
  by destruct (drain_held _ _ _ _ authority v1).
Qed.

Lemma maintain_held authority v :
  held_ok (tc_held v) → held_ok (tc_held (maintain config data_root log_directory sink authority v).2).
Proof.
  intros Hok. unfold maintain. pose proof (held_core _ _ (core_clock v)) as Hc.
  destruct (read_clock v) as [now v1]. cbn [snd] in Hc. rewrite <-Hc in Hok.
  destruct (_ && _); [done|]. cbn zeta. set (v2 := v1 <| tc_last_maintain_ms := _ |>).
  destruct (negb (healthy v2)); [done|].
  destruct (match tc_held v2 !! _ with Some _ => _ | None => _ end) as [returned v3] eqn:Ed.
  assert (Hv3 : held_ok (tc_held v3)).
  { destruct (tc_held v2 !! _); [|by injection Ed as <- <-].
    pose proof (drain_held_bound authority v2 Hok) as Hd. by rewrite Ed in Hd. }
  destruct returned; cbn [negb]; [|done]. destruct (tc_awaiting_merge v3); [done|]. cbn [snd].
  by rewrite (held_core _ _ (core_request _ _ _)), (held_core _ _ (core_revalidate _ _)).
Qed.

(** What peers make a server hold is bounded: after any sequence of calls, at
    most 64 entries of at most 8 MiB together wait for a later height. *)
Theorem held_entries_bounded calls v :
  tc_held v = ∅ →
  let held := tc_held (call_trees calls v) in
  Z.of_nat (size held) <= kMaxReplicaHeldEntries ∧ held_bytes held <= kMaxReplicaHeldBytes.
Proof.
  intros Hv. assert (Hok : held_ok (tc_held v)) by (rewrite Hv; by split). clear Hv. cbn zeta. unfold call_trees.
  revert v Hok. induction calls as [|c calls IH]; intros v Hok; [exact Hok|]. apply IH. clear IH.
  destruct c; cbn [call_tree].
  - rewrite (proj2 (start_spec v)). by split.
  - rewrite (proj2 (deactivate_spec reason v)). by split.
  - done.
  - by rewrite (held_core _ _ (submit_core op v)).
  - by rewrite (held_core _ _ (forwarded_core message v)).
  - destruct (on_committed_cases committed v _ eq_refl) as [[_ ->]|(body & _ & _ & _ & Hc)]; [done|].
    by apply commit_block_spec in Hc as (-> & _).
  - by apply receive_held.
  - by apply maintain_held.
Qed.

(** *** Draining *)

Lemma applied_shrinks authority entry h v v' :
  tc_held v !! h = Some entry →
  apply_next config data_root log_directory sink authority entry (v <| tc_held := delete h (tc_held v) |>)
    = (Some ReplicaApplied, v') →
  (size (tc_held v') < size (tc_held v))%nat.
Proof.
  intros Hh (next & [_ _ Hc])%apply_next_spec. pose proof (cm_held _ _ _ _ _ Hc) as Hd. cbn in Hd. rewrite Hd.
  assert (Hlt : (size (delete h (tc_held v)) < size (tc_held v))%nat).
  { assert (Hne : size (tc_held v) ≠ 0%nat) by (intros E0%map_size_empty_inv; rewrite E0, lookup_empty in Hh; done).
    rewrite (map_size_delete_Some h (tc_held v)) by eauto. lia. }
  assert (Hle : (size (delete (lg_height entry) (delete h (tc_held v))) <= size (delete h (tc_held v)))%nat).
  { apply map_subseteq_size, delete_subseteq. }
  lia.
Qed.

(** Any fuel above the number of held entries gives the same run. *)
Lemma drain_fuel authority fuel fuel' v :
  (size (tc_held v) < fuel)%nat → (size (tc_held v) < fuel')%nat →
  drain_loop config data_root log_directory sink fuel authority v
  = drain_loop config data_root log_directory sink fuel' authority v.
Proof.
  revert fuel' v. induction fuel as [|fuel IH]; intros [|fuel'] v Hf Hf'; [lia..|]. cbn [drain_loop].
  destruct (negb _); [done|]. destruct (tc_held v !! _) as [entry|] eqn:Eh; [|done].
  destruct (apply_next _ _ _ _ authority entry _) as [r v1] eqn:En. destruct r as [[]|]; try done.
  apply (applied_shrinks _ _ _ _ _ Eh) in En. apply IH; lia.
Qed.

(** C40: Draining the held entries ends: the loop takes at most one turn more than
    there are held entries, whatever the entries are (more turns change nothing),
    and when it returns every entry still held is above the head of the log. *)
Theorem drain_ends authority v :
  (∀ fuel, (size (tc_held v) < fuel)%nat →
    drain_loop config data_root log_directory sink fuel authority v
    = drain_loop config data_root log_directory sink (S (size (tc_held v))) authority v) ∧
  let '(returned, v') := drain_held config data_root log_directory sink authority v in
  returned = true → ∀ h entry, tc_held v' !! h = Some entry → tl_height (tc_log v') < h.
Proof.
  split; [intros fuel Hf; apply drain_fuel; lia|]. unfold drain_held.
  destruct (drain_loop _ _ _ _ _ _ _) as [returned v1]. destruct returned; cbn [negb]; [|done].
  intros _ h entry. change (tc_held (refresh_status _)) with (filter (λ kv, tl_height (tc_log v1) < kv.1) (tc_held v1)).
  by intros [_ Hlt]%map_lookup_filter_Some.
Qed.

(** ** Proposals and votes *)

(** Operations as the wire carries them. *)
Definition wired (op : TreeOp) : Prop := sendable op ∧ received_op op = op.

Lemma select_from_subset policy t limit max_wire candidates taken bytes wire state op :
  op ∈ TreeValidation.se_batch (select_from policy t limit max_wire candidates taken bytes wire state) → op ∈ candidates.
Proof.
  revert taken bytes wire state. induction candidates as [|o rest IH]; intros taken bytes wire state; cbn [select_from]; [done|].
  destruct (_ <=? _)%nat; [by intros ?%elem_of_nil|]. cbn zeta. destruct (_ || _); [right; by eapply IH|].
  destruct (checked_step policy t o state) as [r|[s1 e]]; cbn [TreeValidation.se_batch]; [right; by eapply IH|].
  intros [->|?]%elem_of_cons; [by left|right; by eapply IH].
Qed.

Lemma select_batch_wired policy candidates time max_ops max_wire state :
  Forall wired candidates → Forall wired (TreeValidation.se_batch (select_batch policy candidates time max_ops max_wire state)).
Proof.
  intros Hw. rewrite Forall_forall in Hw |- *. unfold select_batch. destruct (_ <=? _); [by intros ? ?%elem_of_nil|].
  intros op Hop%select_from_subset. by apply Hw.
Qed.

(** A proposal built from a payload: the header fields a handler decides. *)
Definition carries (proposal : Proposal) (proposed : ProposedPayload) (parent : Digest) : Prop :=
  p_parent_digest proposal = parent ∧
  p_transitions_digest proposal = block_payload_digest (pp_payload proposed) ∧
  p_previous_state_root proposal = pp_previous_state_root proposed ∧
  p_proposed_state_root proposal = pp_proposed_state_root proposed ∧
  p_timestamp_hint proposal = pp_timestamp_hint proposed.

Lemma proposed_checks `{!TextCodecLaws} cfg state parent now candidates proposed :
  Forall wired candidates →
  propose_from config cfg state parent now candidates = Some proposed →
  ∃ body batch next effects, pp_payload proposed = mkPayload ConsensusTypes.TreeBatch body ∧
    decode_tree_batch body = Some batch ∧ pp_previous_state_root proposed = ch_root state ∧
    pp_timestamp_hint proposed = next_block_time now state parent ∧
    check_batch (policy_for config (members cfg)) batch (pp_timestamp_hint proposed)
      (block_payload_digest (pp_payload proposed)) state = inr (next, effects) ∧
    ch_root next = pp_proposed_state_root proposed.
Proof.
  intros Hw. unfold propose_from. cbn zeta. destruct (_ <? _); [done|].
  set (time := next_block_time now state parent). set (policy := policy_for config (members cfg)).
  pose proof (select_batch_wired policy candidates time kMaxTreeBatchOps kTreeBatchWireBudget state Hw) as Hwb.
  pose proof (λ d, selection_checks policy candidates time kMaxTreeBatchOps kTreeBatchWireBudget d state) as Hsel.
  cbn zeta in Hsel. set (batch := TreeValidation.se_batch _) in *. clearbody batch time policy.
  case_bool_decide as Hne; [done|]. destruct (encode_tree_batch batch) as [bytes|] eqn:Ee; [|done].
  set (payload := mkPayload ConsensusTypes.TreeBatch bytes).
  destruct (Hsel (block_payload_digest payload) Hne) as [[next effects] Hc].
  rewrite (checked_batch_applies _ _ _ _ _ _ Hc).
  intros E. apply (inj Some) in E. subst proposed. exists bytes, batch, next, effects.
  split; [done|]. split; [|by split_and!].
  rewrite (encoded_batch_decodes batch bytes); [..|exact Ee].
  - f_equal. clear -Hwb. induction Hwb as [|op l [_ Ho] _ IH]; [done|]. rewrite fmap_cons. by rewrite Ho, IH.
  - eapply Forall_impl; [exact Hwb|]. by intros op [? _].
  - pose proof (checked_batch_shape _ _ _ _ _ _ Hc) as Hshape.
    unfold batch_shape in Hshape. rewrite !and_then_none, !refuse_when_none in Hshape. lia.
Qed.

(** C27: A leader's tree block gets the votes of the servers that are where it is:
    a server that is healthy, has the merge behind it, derives the same tree
    state for the parent and has a clock within the allowed skew of the block
    time accepts what the leader proposes. *)
Theorem proposed_block_is_accepted `{!TextCodecLaws} {Cs Cw : Type} cfg (leader : HotStuffService Cs) (voter : HotStuffService Cw)
    v v' proposed w proposal now rest :
  Forall wired (pool_pending (tc_pool v)) →
  propose config cfg leader v = (Some proposed, v') →
  carries proposal proposed (qc_proposal_digest (high_qc_ leader)) →
  tc_halted w = false → tc_awaiting_merge w = false → tc_clock w = now :: rest →
  block voter (p_parent_digest proposal) = block leader (p_parent_digest proposal) →
  state_after cfg voter (p_parent_digest proposal) w = state_after cfg leader (p_parent_digest proposal) v →
  0 <= now < two64 - kTreeBlockClockSkewMs → 0 <= p_timestamp_hint proposal < two64 - kTreeBlockClockSkewMs →
  Z.abs (p_timestamp_hint proposal - now) <= kTreeBlockClockSkewMs →
  (∀ p, block leader (p_parent_digest proposal) = Some p → is_u64 (p_timestamp_hint p + 1)) →
  validate config cfg voter proposal (pp_payload proposed) w = (true, w <| tc_clock := rest |>).
Proof.
  intros Hw Hp (Cp & Ct & Cr & Cn & Ch) Hh Ha Hclk Hb Hs Hnow Htime Hskew Hpar. unfold propose in Hp.
  destruct (_ || _); [done|]. rewrite <-Cp, <-Hs in Hp.
  assert (Hs' : state_after cfg voter (p_parent_digest proposal) (w <| tc_clock := rest |>)
    = state_after cfg voter (p_parent_digest proposal) w) by done.
  destruct (state_after cfg voter _ w) as [state|] eqn:Est; [|done].
  pose proof (core_clock v) as Hcv. assert (Hpool : tc_pool (read_clock v).2 = tc_pool v) by (unfold read_clock; by destruct (tc_clock v)).
  destruct (read_clock v) as [t v1]. cbn [snd] in Hpool. injection Hp as Hp _. rewrite Hpool in Hp.
  apply proposed_checks in Hp as (body & batch & next & effects & Epay & Ed & Eprev & Etime & Ec & Er); [|done].
  unfold validate. rewrite Epay. unfold healthy. rewrite Hh, Ha. cbn [negb orb]. rewrite Ed.
  unfold read_clock. rewrite Hclk, (Z.mod_small now) by (unfold two64 in *; lia). cbn zeta. rewrite Hs', Hb, Cr, Eprev, Z.eqb_refl, Ct, Ch, Ec, Er, Cn, Z.eqb_refl.
  assert (Hok : block_time_ok now (pp_timestamp_hint proposed) (block leader (p_parent_digest proposal)) = true).
  { unfold block_time_ok. rewrite <-Ch, !u64_add_small by (unfold kTreeBlockClockSkewMs in *; lia).
    rewrite !(proj2 (Z.ltb_ge _ _)) by lia. cbn [orb negb andb].
    destruct (block leader (p_parent_digest proposal)) as [p|] eqn:Ebl; [|done].
    rewrite Ch, Etime. unfold next_block_time. specialize (Hpar p eq_refl).
    rewrite (u64_add_small (p_timestamp_hint p) 1) by exact Hpar. apply negb_true_iff, Z.leb_gt. lia. }
  by rewrite Hok.
Qed.
End theorems.

(** * Blocks that stop the tree

    Two ways in which the handler stops for good. A node id is not checked to be
    a file name before a block is accepted, so a block that every voter accepts
    can be one that no server can write. And the mark that a block was applied
    is durable before the node files are, so a crash can leave a tree that start
    takes for one that was changed outside the log. *)

Section unsafe.
Context `{TextCodec, HexCodec, FloatText, Sodium, SodiumMessages, NodeOrder, TreeStorage St, !TreeStorageLaws St}.
Context (sink : option (RetainedDelta → St → bool * St)).
Implicit Types (t : PermissionTree) (s : St).

(** An id that is no file name never gets into the served nodes by a write. *)
Definition lacks (id : string) t : Prop := pt_nodes t !! id = None.

Lemma write_nodes_lacks id nodes t s :
  is_safe_path_component id = false → lacks id t → lacks id (write_nodes nodes t s).1.2.
Proof.
  intros Hid. revert t s. induction nodes as [|n nodes IH]; intros t s Ht; cbn [write_nodes]; [done|].
  unfold persist_node. destruct (negb (pt_holds_files t)) eqn:Eh; [done|].
  destruct (write_node (tn_id n) (node_envelope n) s) as [ok s1] eqn:Ew. destruct ok; cbn [negb]; [|done].
  apply IH. unfold lacks. cbn [pt_nodes]. assert (Hne : tn_id n ≠ id).
  { intros E. rewrite <-E in Hid. pose proof (write_unsafe_node (tn_id n) (node_envelope n) s Hid) as Hf. by rewrite Ew in Hf. }
  change (<[ tn_id n := n ]> (pt_nodes t) !! id = None). by rewrite lookup_insert_ne.
Qed.

Lemma remove_nodes_lacks id ids t s : lacks id t → lacks id (remove_nodes ids t s).1.2.
Proof.
  destruct (remove_nodes ids t s) as [[removed t'] s'] eqn:E. apply remove_nodes_spec in E as (_ & _ & _ & E).
  intros Ht. unfold lacks. cbn [fst snd]. rewrite E. clear E. unfold lacks in Ht. revert Ht. generalize (pt_nodes t).
  induction ids as [|i ids IH]; intros m Hm; cbn [foldl]; [done|]. apply IH. by rewrite lookup_delete_None; right.
Qed.

Lemma apply_op_lacks id op t s :
  is_safe_path_component id = false → lacks id t → lacks id (apply_op_locked sink op t s).1.2.
Proof.
  intros Hid Ht. unfold apply_op_locked. destruct (plan_op op (pt_nodes t)) as [|effect]; [done|].
  unfold write_effect_locked. pose proof (write_nodes_lacks id (writes effect) t s Hid Ht) as Hw.
  destruct (write_nodes (writes effect) t s) as [[ok t1] s1]. cbn [fst snd] in Hw. destruct ok; cbn [negb]; [|done].
  pose proof (remove_nodes_lacks id (removals effect) t1 s1 Hw) as Hr.
  destruct (remove_nodes (removals effect) t1 s1) as [[removed t2] s2]. exact Hr.
Qed.

Lemma apply_ops_lacks id ops t s :
  is_safe_path_component id = false → lacks id t → lacks id (apply_ops sink ops t s).1.2.
Proof.
  intros Hid. revert t s. induction ops as [|op ops IH]; intros t s Ht; cbn [apply_ops]; [done|].
  pose proof (apply_op_lacks id op t s Hid Ht) as Ho.
  destruct (apply_op_locked sink op t s) as [[[[r|] n] t1] s1]; cbn [fst snd] in Ho |- *; [done|].
  specialize (IH t1 s1 Ho). by destruct (apply_ops sink ops t1 s1) as [[[v n2] t2] s2].
Qed.

Lemma apply_committed_lacks id ops sec t s :
  is_safe_path_component id = false → lacks id t → lacks id (apply_committed_ops sink ops sec t s).1.2.
Proof.
  intros Hid Ht. unfold apply_committed_ops. pose proof (apply_ops_lacks id ops t s Hid Ht) as Ha.
  by destruct (apply_ops sink ops t s) as [[[v n] t1] s1].
Qed.
End unsafe.

Section server.
Context `{TextCodec, ValueCodec, HexCodec, FloatText, Sodium, SodiumMessages, NodeOrder, FloatRead}.
Context (config : TreeConsensusConfig) (data_root log_directory : string).
Context (sink : option (RetainedDelta → TreeFiles → bool * TreeFiles)).
Implicit Types v : TreeServer.

#[local] Instance files_here : TreeStorage TreeFiles := tree_files data_root.
#[local] Instance files_laws_here : TreeStorageLaws TreeFiles := tree_files_laws data_root.

Lemma restore_unsafe digest v id node :
  ch_nodes (tl_state (tc_log v)) !! id = Some node → tn_id node = id → is_safe_path_component id = false →
  lacks id (tc_tree v) → (restore_tree data_root digest v).1 = false.
Proof.
  intros Hn Hid Hs Hl. unfold restore_tree, on_tree.
  pose proof (replace_all_unsafe (ch_nodes (tl_state (tc_log v))) (ch_committed (tl_state (tc_log v)))
    (tc_tree v) (tc_files v) id node Hn Hl) as Hr. rewrite Hid in Hr. specialize (Hr Hs).
  destruct (replace_all _ _ (tc_tree v) (tc_files v)) as [[ok t] s]. cbn in Hr. by subst ok.
Qed.

(** The state in which an accepted block meets an id that is no file name. *)
Lemma follow_unsafe entry ops digest v state next effects id node :
  serves (tc_tree v) state → apply_certified_batch ops (lg_block_time_ms entry) (lg_ops_digest entry) state = inr (next, effects) →
  tl_state (tc_log v) = next → ch_nodes next !! id = Some node → tn_id node = id → is_safe_path_component id = false →
  lacks id (tc_tree v) → (follow_entry data_root sink entry (Some ops) digest v).1 = false.
Proof.
  intros Hsv Ha Hlog Hn Hid Hs Hl. unfold follow_entry, follow_block, on_tree.
  pose proof (apply_committed_lacks sink id ops (lg_block_time_ms entry / 1000) (tc_tree v) (tc_files v) Hs Hl) as Hl'.
  destruct (apply_committed_ops sink ops _ (tc_tree v) (tc_files v)) as [[[verdict notices] t] s] eqn:E.
  cbn [fst snd] in Hl'. destruct (apply_committed_spec sink _ _ _ _ _ _ _ _ _ _ _ _ Hsv Ha E) as [[[-> [Hnodes _]]|[reason ->]] _].
  { unfold lacks in Hl'. rewrite Hnodes in Hl'. congruence. }
  set (w := v <| tc_tree := t |> <| tc_files := s |>).
  assert (Hw : ∀ u, tc_log u = tc_log w → tc_tree u = tc_tree w → (restore_tree data_root digest u).1 = false).
  { intros u Elog Etree. eapply restore_unsafe; [|exact Hid|exact Hs|by rewrite Etree]. by rewrite Elog, <-Hn, <-Hlog. }
  destruct (bool_decide (no_removed notices = [])), (bool_decide (no_accounts notices = [])); by apply Hw.
Qed.

Lemma commit_unsafe entry ops next digest v effects id node :
  lg_kind entry = EntryBatch → decode_tree_batch (lg_batch entry) = Some ops → serves (tc_tree v) (tl_state (tc_log v)) →
  apply_certified_batch ops (lg_block_time_ms entry) (lg_ops_digest entry) (tl_state (tc_log v)) = inr (next, effects) →
  ch_nodes next !! id = Some node → tn_id node = id → is_safe_path_component id = false → lacks id (tc_tree v) →
  tc_halted (commit_entry config data_root log_directory sink entry next digest v).2 = true.
Proof.
  intros Hk Hd Hsv Ha Hn Hid Hs Hl. unfold commit_entry, on_log.
  destruct (log_append log_directory entry next (tc_log v) _) as [[wrote log] d] eqn:Ea.
  apply log_append_spec in Ea. destruct wrote; cbn [negb snd]; [|apply halted_halt].
  rewrite Hk, bool_decide_eq_true_2, Hd by done. set (v1 := v <| tc_log := _ |> <| tc_files := _ |>).
  pose proof (follow_unsafe entry ops digest v1 _ _ _ id node Hsv Ha (ap_state' _ _ _ _ Ea) Hn Hid Hs Hl) as Hf.
  destruct (follow_entry data_root sink entry (Some ops) digest v1) as [followed v2]. cbn in Hf. subst followed.
  cbn [negb snd]. apply halted_halt.
Qed.

(** A start over such a log, whatever was marked as applied. *)
Lemma start_unsafe v log d id node :
  log_open log_directory ∅ (tc_log v) (tf_disk (tc_files v)) = (OpenOk, log, d) → 0 < tl_height log →
  ch_nodes (tl_state log) !! id = Some node → tn_id node = id → is_safe_path_component id = false →
  lacks id (tc_tree v) →
  compute_tree_digest (pt_nodes (tc_tree v)) ≠ compute_tree_digest (ch_nodes (tl_state log)) →
  (start data_root log_directory v).1 = false.
Proof.
  intros Ho Hh Hn Hid Hs Hl Hne. unfold start, on_log. cbn zeta.
  set (v0 := v <| tc_held := ∅ |> <| tc_behind := false |> <| tc_awaiting_merge := false |> <| tc_pre_merge_nodes := 0 |>).
  change (tc_log v0) with (tc_log v). change (tc_files v0) with (tc_files v). rewrite Ho.
  set (v1 := v0 <| tc_log := log |> <| tc_files := _ |>). change (tc_log v1) with log.
  rewrite (proj2 (Z.eqb_neq (tl_height log) 0)) by lia. cbn [andb].
  change (pt_nodes (tc_tree v0)) with (pt_nodes (tc_tree v)). rewrite (proj2 (Z.eqb_neq _ _)) by done.
  destruct (_ <=? _); [done|].
  pose proof (restore_unsafe (compute_tree_digest (ch_nodes (tl_state log))) v1 id node Hn Hid Hs Hl) as Hr.
  destruct (restore_tree data_root _ v1) as [restored v2]. cbn in Hr. by subst restored.
Qed.

(** C36: A block that every voter accepts can stop the tree of every server. A
    committed block that passed [check_batch] but leaves a node whose id is no
    file name (it holds a slash, say) halts each server that commits it, and a
    server whose log holds it does not start again. *)
Theorem unsafe_id_stops_tree policy committed body batch v next effects id node :
  tc_awaiting_merge v = false → serves (tc_tree v) (tl_state (tc_log v)) →
  cl_payload committed = Some (mkPayload ConsensusTypes.TreeBatch body) → decode_tree_batch body = Some batch →
  check_batch policy batch (p_timestamp_hint (cl_proposal committed)) (p_transitions_digest (cl_proposal committed))
    (tl_state (tc_log v)) = inr (next, effects) →
  p_previous_state_root (cl_proposal committed) = ch_root (tl_state (tc_log v)) →
  p_proposed_state_root (cl_proposal committed) ≠ ch_root (tl_state (tc_log v)) →
  ch_nodes (tl_state (tc_log v)) !! id = None → ch_nodes next !! id = Some node → tn_id node = id →
  is_safe_path_component id = false →
  tc_halted (on_committed config data_root log_directory sink committed v) = true ∧
  ∀ w log d, log_open log_directory ∅ (tc_log w) (tf_disk (tc_files w)) = (OpenOk, log, d) → 0 < tl_height log →
    ch_nodes (tl_state log) !! id = Some node → pt_nodes (tc_tree w) !! id = None →
    compute_tree_digest (pt_nodes (tc_tree w)) ≠ compute_tree_digest (ch_nodes (tl_state log)) →
    (start data_root log_directory w).1 = false.
Proof.
  intros Haw Hsv Hp Hd Hc Hprev Hnew Hold Hn Hid Hs. split; [|intros; by eapply start_unsafe].
  unfold on_committed. rewrite Hp. unfold healthy. destruct (tc_halted v) eqn:Eh; [done|]. cbn [negb].
  rewrite Haw. cbn zeta. rewrite (proj2 (Z.eqb_neq _ _)), Hprev, Z.eqb_refl by done. cbn [negb].
  unfold commit_block. rewrite Hd. pose proof (checked_batch_applies _ _ _ _ _ _ Hc) as Ha. rewrite Ha. destruct (negb (ch_root next =? _)); [apply halted_halt|].
  pose proof (commit_unsafe (committed_log_entry committed body (tl_height (tc_log v) +64 1) (compute_tree_digest (ch_nodes next)))
    batch next (compute_tree_digest (ch_nodes next)) v effects id node eq_refl Hd Hsv Ha Hn Hid Hs) as Hcu.
  destruct (commit_entry _ _ _ _ _ next _ v) as [done v1] eqn:Ec. cbn [snd] in Hcu.
  assert (Hv1 : tc_halted v1 = true) by (apply Hcu; unfold lacks; by rewrite (proj1 Hsv)). destruct (done && tc_behind v1); exact Hv1.
Qed.
End server.
