(* ===== verification/TreeConsensusWitnesses.v ===== *)
(** * The tree handler on a concrete server

    The theorems about the tree handler applied to the server of
    [TreeConsensusWitnesses]: their hypotheses hold together there. Then the
    block that a crash makes unusable: a server whose node files were still in
    the page cache when the machine stopped. *)

From S2P Require Import Prelude SecurityPolicy CanonicalEncoding ConsensusTypes QuorumValidation EpochAuthority DurableWrite Json.
From S2P Require Import EligibilityStore TestCodec EligibilityServiceTheorems FileStorage ConsensusRecords HotStuff Testbed TreeTypes.
From S2P Require Import LinkToken TreeRules TreeOps TreeValidation TreeCodec TreeRoundTrip TreeFacts TreeReplay TreeTheorems TreePool.
From S2P Require Import TreeLog NodeFiles PermissionTree TreeReplication TreeConsensus PermissionTreeTheorems.
From S2P Require Import TreeConsensusFacts TreeConsensusTheorems.

(** * A concrete tree server

    A server on a fresh disk that starts, takes the owner's first operation,
    proposes it, and commits it, with the network of [TreeReplay]; a merge
    commit that the owner signed, and a later block that makes a group whose id
    is no file name. The theorems about the tree handler are applied to it. *)

Module Depot.
#[export] Existing Instance Village.sodium.
#[export] Existing Instance Village.messages.
#[export] Existing Instance Village.floats.
#[export] Existing Instance Member.hex.
#[export] Existing Instance Member.hex_laws.
#[export] Instance values : ValueCodec := {|
  json_dump_indented := json_dump;
  json_dump_discarded _ _ := [];
  json_float_to_integer _ := 0 |}.
#[export] Instance reals : FloatRead := {| float_of_json _ := 0 |}.
#[export] Instance walk_order : NodeOrder := {|
  node_entries := map_to_list;
  node_entries_perm m := Permutation_refl _ |}.

Definition config : TreeConsensusConfig := mkTreeConfig 9 77 (Village.key_of 1) default_limits false.
Definition root : string := "data".
Definition log_dir : string := "data/tree/log".

Definition fresh_disk : Disk := mkDisk ∅ [∅] (repeat 1000000 400) [].

(** A handler before [start], on a disk and over a loaded tree. *)
Definition idle (disk : Disk) (tree : PermissionTree) (clock : list Z) : TreeServer :=
  mkTreeServer closed_log new_pool ∅ true false 0 "not started" [9]
    (mkStatus false false 0 "not started" 0 0 0 false 0 "") false 0 0 tree (mkFiles disk 1) clock 0 [].

Definition started (clock : list Z) : TreeServer := (start root log_dir (idle fresh_disk new_tree clock)).2.

(** ** The only voter, and its replica *)

Definition chair : HotStuffConfig := mkConfig 1 1 77 1 999 [9] {[ 9 := 9 ]} 1 9 None None.
Definition replica : HotStuffService Mem := Testbed.start chair 9.

Definition proposal_of (p : ProposedPayload) (height parent : Z) : Proposal :=
  mkProposal 1 1 77 1 height height 9 parent 5 (pp_previous_state_root p) (pp_proposed_state_root p)
    (block_payload_digest (pp_payload p)) (pp_timestamp_hint p).

Definition committed_of (p : Proposal) (payload : BlockPayload) : CommittedPayload :=
  mkCommittedPayload
    (mkCommit 1 (p_height p) (p_view p) (proposal_digest p) (p_proposed_state_root p) (p_transitions_digest p) 6)
    p (Some payload) None.

Definition no_proposal : ProposedPayload := mkProposed (mkPayload ConsensusTypes.TreeBatch []) 0 0 0.

(** The leader took the owner's operation into its pool. *)
Definition proposer : TreeServer := (submit config Village.establish (started [1000500; 1000600; 1000700])).2.
Definition founding_payload : ProposedPayload :=
  Eval vm_compute in default no_proposal (propose config chair replica proposer).1.
Definition founding_proposal : Proposal := proposal_of founding_payload 1 999.
Definition founding_block : CommittedPayload := committed_of founding_proposal (pp_payload founding_payload).

(** After the block committed, with the disk's history forgotten. *)
Definition forget (v : TreeServer) : TreeServer :=
  v <| tc_files := (tc_files v) <| tf_disk := mkDisk (live (tf_disk (tc_files v))) [] (oracle (tf_disk (tc_files v))) [] |> |>.
Definition settled : TreeServer :=
  Eval vm_compute in forget (on_committed config root log_dir None founding_block (started [])).

(** ** A block with an id that is no file name *)

Definition odd_ops : list TreeOp := [Village.create 1 "a/b" "root" 50].
Definition odd_body : list Z := default [] (encode_tree_batch odd_ops).
Definition odd_payload : BlockPayload := mkPayload ConsensusTypes.TreeBatch odd_body.
Definition odd_state : TreeChainState := tl_state (tc_log settled).
Definition odd_outcome : (nat * (TreeOpRefusal * string)) + (TreeChainState * list TreeOpEffect) :=
  check_batch Village.policy odd_ops 1020000 (block_payload_digest odd_payload) odd_state.
Definition outcome_or {A B C : Type} (b : B) (c : C) (o : A + B * C) : B * C :=
  match o with inr r => r | inl _ => (b, c) end.
Definition odd_next : TreeChainState := (outcome_or Village.start [] odd_outcome).1.
Definition odd_effects : list TreeOpEffect := (outcome_or Village.start [] odd_outcome).2.
Strategy expand [odd_state odd_outcome odd_next odd_effects].
Definition odd_proposal : Proposal :=
  proposal_of (mkProposed odd_payload (ch_root odd_state) (ch_root odd_next) 1020000) 2 1000.
Definition odd_block : CommittedPayload := committed_of odd_proposal odd_payload.

(** ** A server with a tree from before the merge, and the merge commit *)

Definition old_nodes : NodeMap := {[ "root"%string := make_root_node (Village.key_of 1) ]}.
Definition old_tree : PermissionTree := mkTree old_nodes ∅ ∅ ∅ false true.
Definition waiting (clock : list Z) : TreeServer := (start root log_dir (idle fresh_disk old_tree clock)).2.
End Depot.

Import Depot.

(** Conjunctions of computed comparisons. *)
Ltac by_parts := repeat match goal with |- _ ∧ _ => split end; discriminate || reflexivity.

(** ** Runs *)

Definition first_calls : list TreeCall := [CallStart; CallCommitted founding_block].
Definition first_run : TreeServer := call_trees config root log_dir None first_calls (idle fresh_disk new_tree []).
Strategy expand [first_run].

Lemma first_run_healthy :
  negb (tc_halted first_run) && negb (tc_awaiting_merge first_run) && (tl_height (tc_log first_run) =? 1) = true.
Proof. vm_compute. reflexivity. Qed.

Lemma served_tree_follows_log_witness :
  tl_height (tc_log first_run) = 1 ∧
  tree_digest (tc_tree first_run) = compute_tree_digest (ch_nodes (tl_state (tc_log first_run))).
Proof.
  pose proof first_run_healthy as [[Hh%negb_true_iff Ha%negb_true_iff]%andb_true_iff Ht%Z.eqb_eq]%andb_true_iff.
  split; [exact Ht|].
  exact (served_tree_follows_log config root log_dir None first_calls (idle fresh_disk new_tree []) eq_refl Hh Ha).
Defined.

Lemma waiting_waits : tc_awaiting_merge (waiting []) = true.
Proof. vm_compute. reflexivity. Qed.

Lemma awaiting_takes_only_merge_witness :
  unmoved (waiting []) (call_tree config root log_dir None (CallCommitted founding_block) (waiting [])) ∨
  ∃ entry next effects, lg_kind entry = EntryMerge ∧
    verify_merge_signature entry 77 (Village.key_of 1) = Verdict None ∧
    replay_entry (tl_state (tc_log (waiting []))) entry = inr (next, effects).
Proof.
  exact (awaiting_takes_only_merge config root log_dir None (CallCommitted founding_block) (waiting []) waiting_waits
           ltac:(discriminate) ltac:(discriminate)).
Defined.

Lemma held_entries_bounded_witness :
  held_bytes (tc_held first_run) <= kMaxReplicaHeldBytes.
Proof.
  exact (proj2 (held_entries_bounded config root log_dir None first_calls (idle fresh_disk new_tree []) eq_refl)).
Defined.

(** ** The first block *)

Lemma founding_well_formed : wf_proposal founding_proposal.
Proof. unfold wf_proposal. vm_compute. by_parts. Qed.

Lemma payload_digest p height parent payload :
  cl_payload (committed_of (proposal_of p height parent) (pp_payload p)) = Some payload →
  block_payload_digest payload = p_transitions_digest (cl_proposal (committed_of (proposal_of p height parent) (pp_payload p))).
Proof. cbn [committed_of cl_payload]. intros E. apply (inj Some) in E. by subst payload. Qed.

Lemma log_grows_by_evidence_witness :
  log_grows (call_evidence config (CallCommitted founding_block)) (tc_log (started []))
    (tc_log (call_tree config root log_dir None (CallCommitted founding_block) (started []))).
Proof.
  refine (log_grows_by_evidence config root log_dir None (CallCommitted founding_block) (started []) _ _ _).
  - split; [exact founding_well_formed|exact (payload_digest founding_payload 1 999)].
  - discriminate.
  - discriminate.
Defined.

Lemma leader_pool : pool_pending (tc_pool proposer) = [Village.establish].
Proof. vm_compute. reflexivity. Qed.

Lemma leader_wired : Forall wired (pool_pending (tc_pool proposer)).
Proof.
  rewrite leader_pool. constructor; [|constructor].
  split; [exact (proj1 (proj1 (Forall_cons _ _ _) first_ops_sendable))|vm_compute; reflexivity].
Qed.

Lemma founding_first : (propose config chair replica proposer).1 = Some founding_payload.
Proof. vm_compute. reflexivity. Qed.

Lemma pair_from_fst {A B : Type} (p : A * B) a : p.1 = a → p = (a, p.2).
Proof. destruct p. by intros <-. Qed.

Lemma founding_carried : carries founding_proposal founding_payload (qc_proposal_digest (high_qc_ replica)).
Proof. split_and!; reflexivity. Qed.

Lemma voter_ready :
  tc_halted (started [1000650]) = false ∧ tc_awaiting_merge (started [1000650]) = false ∧
  tc_clock (started [1000650]) = [1000650] ∧
  state_after chair replica 999 (started [1000650]) = state_after chair replica 999 proposer.
Proof. split_and!; vm_compute; reflexivity. Qed.

Lemma proposed_block_is_accepted_witness :
  validate config chair replica founding_proposal (pp_payload founding_payload) (started [1000650]) =
    (true, started [1000650] <| tc_clock := [] |>).
Proof.
  destruct voter_ready as (Hh & Ha & Hc & Hs).
  refine (proposed_block_is_accepted config chair replica replica proposer _ founding_payload (started [1000650])
            founding_proposal 1000650 [] leader_wired (pair_from_fst _ _ founding_first) founding_carried Hh Ha Hc eq_refl Hs _ _ _ _).
  - split; [discriminate|reflexivity].
  - split; [discriminate|reflexivity].
  - discriminate.
  - intros p Hp. discriminate Hp.
Defined.

(** ** An id that is no file name *)

Lemma odd_time : p_timestamp_hint (cl_proposal odd_block) = 1020000.
Proof. reflexivity. Qed.

Lemma odd_digest : p_transitions_digest (cl_proposal odd_block) = block_payload_digest odd_payload.
Proof. reflexivity. Qed.

Lemma outcome_parts {A B C : Type} (b : B) (c : C) (o : A + B * C) :
  (∃ r, o = inr r) → o = inr ((outcome_or b c o).1, (outcome_or b c o).2).
Proof. by intros [[? ?] ->]. Qed.

Lemma odd_accepted : ∃ r, odd_outcome = inr r.
Proof. apply is_inr_ex. vm_compute. reflexivity. Qed.

Lemma odd_checked :
  check_batch Village.policy odd_ops (p_timestamp_hint (cl_proposal odd_block))
    (p_transitions_digest (cl_proposal odd_block)) (tl_state (tc_log settled)) = inr (odd_next, odd_effects).
Proof. rewrite odd_time, odd_digest. exact (outcome_parts Village.start [] odd_outcome odd_accepted). Qed.

Lemma settled_serves : serves (tc_tree settled) (tl_state (tc_log settled)).
Proof. split; reflexivity. Qed.

Lemma odd_decodes : decode_tree_batch odd_body = Some odd_ops.
Proof. vm_compute. reflexivity. Qed.

Lemma odd_changes_root :
  negb (p_proposed_state_root (cl_proposal odd_block) =? ch_root (tl_state (tc_log settled))) &&
  (if ch_nodes odd_next !! "a/b"%string is Some n then String.eqb (tn_id n) "a/b" else false) = true.
Proof. vm_compute. reflexivity. Qed.

Lemma found_node (o : option TreeNode) id :
  (if o is Some n then String.eqb (tn_id n) id else false) = true →
  o = Some (default new_node o) ∧ tn_id (default new_node o) = id.
Proof. destruct o; [|done]. by intros E%String.eqb_eq. Qed.

Lemma unsafe_id_stops_tree_witness :
  tc_halted settled = false ∧ tc_halted (on_committed config root log_dir None odd_block settled) = true.
Proof.
  pose proof odd_changes_root as [Hr%negb_true_iff%Z.eqb_neq [Hn Hid]%found_node]%andb_true_iff. split; [reflexivity|].
  exact (proj1 (unsafe_id_stops_tree config root log_dir None Village.policy odd_block odd_body odd_ops settled
    odd_next odd_effects "a/b" _ eq_refl settled_serves eq_refl odd_decodes odd_checked eq_refl Hr eq_refl Hn Hid eq_refl)).
Defined.

(** ** A crash after a block was applied *)

(** The machine after a crash that left [crash]: of a torn file it finds the
    bytes [torn]. *)
Definition reboot (crash : gmap string Content) (torn : list Z) : Disk :=
  mkDisk ((λ c, mkFile (match c with Whole bytes => bytes | Torn => torn end) true) <$> crash) [crash]
    (repeat 1000000 400) [].

#[local] Instance depot_files : TreeStorage TreeFiles := tree_files root.

Definition restarted (crash : gmap string Content) : option (bool * TreeServer) :=
  let disk := reboot crash [] in
  match on_start new_tree (mkFiles disk 1) with
  | Some tree => Some (start root log_dir (idle disk tree []))
  | None => None
  end.

Definition refuses_to_start (crash : gmap string Content) : bool :=
  match restarted crash with
  | Some (false, v) => String.eqb (tc_halt_reason v) "the persistent tree differs from the committed tree log"
  | _ => false
  end.

(** A crash can stop a server for good after a block that it applied. The
    first block of a fresh server is committed, applied and marked as applied, no
    call of the disk fails, and yet among the states a crash can leave then is
    one in which the server does not start: the node file, which is written
    without being flushed, is lost, while the durable mark says that the tree
    is whole, so the difference is taken for a change made outside the log. *)
Theorem crash_after_apply_halts :
  (tc_halted first_run = false ∧ tl_applied_height (tc_log first_run) = 1) ∧
  ∃ crash v, crash ∈ versions (tf_disk (tc_files first_run)) ∧ restarted crash = Some (false, v) ∧
    tc_halt_reason v = "the persistent tree differs from the committed tree log"%string.
Proof.
  split; [split; vm_compute; reflexivity|].
  assert (E : existsb refuses_to_start (versions (tf_disk (tc_files first_run))) = true) by (vm_compute; reflexivity).
  apply existsb_exists in E as (crash & Hin%list_elem_of_In & Hr). exists crash.
  unfold refuses_to_start in Hr. destruct (restarted crash) as [[[] v]|]; [done| |done].
  exists v. apply String.eqb_eq in Hr. by split_and!.
Qed.

(** ** A principal with two entries *)

Definition twice_named : TreeNode :=
  Village.group_record "group" "root" 1
    <| tn_assignments := [mkAssignment (Village.key_of 1) ["read"]%string;
                          mkAssignment (Village.key_of 1) ["read"; "add_child"; "admin"]%string] |>.
Definition name_twice : TreeOp := Village.make CreateNode "group" 0 1020 60 1 (new_body <| ob_node := twice_named |>).

Definition reads_apart (nodes : NodeMap) : bool :=
  match nodes !! "group"%string with
  | Some n => signer_has_permission n (Village.key_of 1) PermAddChild &&
              negb (do_check_permission (Village.key_of 1) "group" PermAddChild (mkTree nodes ∅ ∅ ∅ false true))
  | None => false
  end.

(** A block with a node that names its owner twice is accepted. The rules then
    let the owner add children to it, while the reads of the handlers, which
    stop at the first entry, say that it may not. *)
Lemma repeated_entry_reads_apart :
  ∃ next effects, check_batch Village.policy [name_twice] 1020000 5 odd_state = inr (next, effects) ∧
    reads_apart (ch_nodes next) = true.
Proof.
  assert (E : (match check_batch Village.policy [name_twice] 1020000 5 odd_state with
               | inr (next, _) => reads_apart (ch_nodes next) | inl _ => false end) = true) by (vm_compute; reflexivity).
  destruct (check_batch Village.policy [name_twice] 1020000 5 odd_state) as [|[next effects]]; [done|]. by exists next, effects.
Qed.

(** ** The household's tree as a service *)

Definition household_calls : list ServiceCall := [SvcReplace (ch_nodes household_state) ∅].
Definition household_files : TreeFiles := mkFiles fresh_disk 1.
Definition household_tree : PermissionTree := (call_services None household_calls (new_tree, household_files)).1.
Definition alice_identifier : string :=
  match ch_nodes household_state !! Village.device_id 2 with Some n => tn_endpoint_identifier n | None => "" end.

Lemma alice_resolves :
  ∃ n, resolve_authorized (Village.key_of 4) (Village.device_id 4) alice_identifier household_tree = Some n.
Proof. apply is_some_ex. vm_compute. reflexivity. Qed.

Lemma resolved_endpoint_is_asked_for_witness :
  ∃ n, resolve_authorized (Village.key_of 4) (Village.device_id 4) alice_identifier household_tree = Some n ∧
       tn_endpoint_identifier n = alice_identifier.
Proof.
  destruct alice_resolves as [n Hn]. exists n. split; [exact Hn|].
  exact (proj1 (resolved_endpoint_is_asked_for None household_calls household_files _ _ _ n Hn)).
Defined.

Lemma household_served : pt_nodes household_tree = ch_nodes household_state.
Proof.
  unfold household_tree, household_calls, call_services. cbn [foldl call_service].
  destruct (replace_all (ch_nodes household_state) ∅ new_tree household_files) as [[ok t] s] eqn:E.
  apply replace_all_spec in E as [En _]. exact En.
Qed.

Lemma household_keyed : keyed_tree (pt_nodes household_tree).
Proof. rewrite household_served. exact (wf_keyed _ household_wf). Qed.

Lemma household_small : (size (pt_nodes household_tree) < 9)%nat.
Proof. rewrite household_served. apply Nat.ltb_lt. vm_compute. reflexivity. Qed.

Lemma subtree_is_descendants_witness :
  NoDup (tn_id <$> collect_subtree "root" 9 9 household_tree).
Proof.
  exact (proj1 (subtree_is_descendants household_tree "root" 9 9 household_keyed ltac:(discriminate)
                  household_small household_small)).
Defined.
